(* ===== verification/_CoqProject ===== *)
-Q . S2P
Prelude.v
SpxAddress.v
SpxIface.v
SpxTree.v
SpxWots.v
SpxMerkle.v
SpxFors.v
SpxSign.v
SpxCorrect.v
SpxVerify.v
Sha2.v
Sha2Spec.v
Sha2Inc.v
Sha2Api.v
SpxHash.v
Sphincs.v
HashTheorems.v
SpxTheorems.v
OqsSig.v
Keccak.v
KeccakP.v
KeccakPlain.v
Sha3.v
Sha3Spec.v
Sha3Inc.v
Sha3Api.v
Sha3Theorems.v
MlArith.v
MlNtt.v
MlNttSpec.v
MlPoly.v
MlPack.v
MlKeys.v
MlHints.v
MlSig.v
MlVec.v
MlSample.v
MlExpand.v
MlSign.v
MlAttempt.v
MlScheme.v
MlToy.v
MlDsa.v
MlSampling.v
MlTheorems.v
OqsMlDsa.v
Serial.v
QSig.v
Script.v
Node.v
NodeHash.v
NodeHashP.v
QPubKey.v
Interp.v
InterpP.v
Verify.v
QKey.v
QKeyP.v
Encode.v
QKeyIO.v
Tx.v
TxP.v
TxChecker.v
QWitness.v
QPolicy.v
Solver.v
Sign.v
SignP.v
Dest.v
Bech32.v
Base58.v
KeyIO.v
SignMsg.v
WalletDb.v
Wallet.v
WalletP.v
WalletDbP.v
