(* ===== verification/Prelude.v ===== *)
(** * Verification of the post-quantum signatures of QSBitcoin

    QSBitcoin is a fork of Bitcoin Core whose transactions can be signed with two
    post-quantum schemes of the C library liboqs, built with exactly two
    algorithms: SPHINCS+-SHA2-192f-simple (SLH-DSA) and ML-DSA-65.  This
    development models the C code of the two schemes down to their hash functions,
    the API of the library, and the C++ code of the node through which keys are
    made and transactions are signed and verified, and proves them correct.

    ** The program and where it is modelled

    The library, paths below [src/liboqs/src]:

    - SPHINCS+, [sig/sphincs/pqclean_sphincs-sha2-192f-simple_clean]:
      [SpxAddress.v] has the parameters ([params.h]) and the 32-byte addresses
      ([address.c]); [SpxTree.v] the integer codecs, [compute_root] ([utils.c])
      and the tree builder [treehashx1] ([utilsx1.c]); [SpxWots.v] the one-time
      signatures ([wots.c], [wotsx1.c]); [SpxMerkle.v] a layer of the hypertree
      ([merkle.c]); [SpxFors.v] the few-time signatures ([fors.c]); [SpxSign.v]
      key generation, signing, verification and the attached-signature
      functions ([sign.c]); [SpxCorrect.v] and [SpxVerify.v] their proofs and the
      reference verifier.
    - Its hash functions are an interface, the class [SpxHash] of [SpxIface.v]
      with its laws [SpxHashLaws]: the files above are proved against it.
      [SpxHash.v] models [hash_sha2.c], [context_sha2.c] and
      [thash_sha2_simple.c] and proves that they satisfy the laws.
    - SHA-2, [common/sha2]: [Sha2.v] models [sha2_c.c] (block functions,
      incremental and one-shot interfaces of SHA-224/256/384/512), [Sha2Spec.v]
      states FIPS 180-4 ([Fips180]) and relates the block functions to it, [Sha2Inc.v] the
      incremental interface; [Sha2Api.v] models the callback table of
      [sha2_impl.c] and [sha2.c], with the class [Sha2Contract] that [SpxHash.v]
      is proved against.
    - SHA-3, [common/sha3]: [Keccak.v] models the unrolled permutation on
      complemented lanes ([KeccakP-1600-64.macros]) and states FIPS 202;
      [KeccakP.v] the byte access to the state ([KeccakP-1600-opt64.c]), an
      instance of the class [KeccakLow], whose laws [KeccakPlain.v] proves;
      [Sha3.v] the sponge, the callback table and the dispatchers
      ([xkcp_sha3.c], [sha3.c]), [Sha3Spec.v] and [Sha3Inc.v] what they compute,
      [Sha3Api.v] the class [Sha3Contract] that ML-DSA is proved against.
    - ML-DSA-65, [sig/ml_dsa/pqcrystals-dilithium-standard_ml-dsa-65_ref]:
      [MlArith.v] has [reduce.c] and [rounding.c]; [MlNtt.v] the
      transform [ntt.c], [MlNttSpec.v] says what it computes; [MlPoly.v],
      [MlPack.v] and [MlSample.v] have [poly.c] (coefficient-wise operations, norm
      check, bit packing, samplers) and [symmetric-shake.c]; [MlKeys.v],
      [MlHints.v] and [MlSig.v] the encodings of [packing.c] and, stated on
      their own, those of FIPS 204; [MlVec.v] and [MlExpand.v] the vectors and matrices of [polyvec.c];
      [MlSign.v] is [sign.c].  [MlAttempt.v] and [MlScheme.v] have the algorithms
      of FIPS 204 on polynomials and the proof that the code computes them,
      [MlToy.v] a small instance for the witnesses.
    - The API of the library, [sig/sig.c] and the objects of the two schemes:
      [OqsSig.v] (names, the enabled test, creation, operations, the SPHINCS+
      object) and [OqsMlDsa.v] (the ML-DSA-65 object).

    The node, paths below [src/src]:

    - [Serial.v]: the streams and codecs of [serialize.h] and [streams.h] that the
      rest uses.  [Script.v]: script numbers, pushes, the reader of
      instructions and the predicates on scripts ([script/script.h], [script.cpp]).
      [QSig.v]: the container of a signature and a key
      ([script/quantum_signature.cpp]).
    - [Node.v]: errors, and the class [NodeCrypto] of the cryptographic functions
      that the node takes from elsewhere, with the laws [NodeCryptoLaws].
      [NodeHash.v] models SHA-256, SHA-1 and RIPEMD-160 of the node ([crypto/]),
      which are an instance; their proofs are in [NodeHashP.v].
    - [QPubKey.v], [QKey.v] and [QKeyP.v]: public keys, the wrapper of liboqs
      objects with the node's random source, private keys and extended keys
      ([crypto/quantum_key.cpp], [crypto/oqs_wrapper.cpp]).
    - [Interp.v] and [InterpP.v]: the script interpreter with every opcode;
      [Verify.v]: witness programs and [VerifyScript];
      [Tx.v] and [TxP.v]: transactions and signature hashes;
      [TxChecker.v]: the signature checkers
      ([script/interpreter.cpp], [script/quantum_sigchecker.cpp]).
    - [QWitness.v]: witness scripts for quantum keys
      ([script/quantum_witness.cpp]); [QPolicy.v]: the relay policy
      ([policy/quantum_policy.cpp]).
    - [Solver.v]: the classification of scripts
      ([script/solver.cpp]); [Sign.v] and [SignP.v]: providers, the signature
      creator, [SignStep] and [ProduceSignature] ([script/sign.cpp],
      [script/signingprovider.cpp]).
    - [Encode.v]: hexadecimal, Base 64 and the conversion of digits
      ([util/strencodings.cpp], [crypto/hex_base.cpp]); [QKeyIO.v]:
      export and import of keys ([crypto/quantum_key_io.cpp]).
    - [Dest.v]: destinations and their scripts ([addresstype.cpp]); [Bech32.v]
      and [Base58.v]: the two text encodings ([bech32.cpp],
      [base58.cpp]); [KeyIO.v]: addresses ([key_io.cpp], with the
      prefixes of [kernel/chainparams.cpp]); [SignMsg.v]: signed messages
      ([common/signmessage.cpp]).
    - [WalletDb.v]: the records of quantum keys in the wallet file
      ([wallet/walletdb.cpp]), over the class [DatabaseBatch] of the database with
      its laws; [Wallet.v]: what the managers of descriptors and the wallet do with
      quantum keys ([wallet/scriptpubkeyman.cpp], [wallet/wallet.cpp],
      [wallet/quantum_descriptor_util.cpp], [wallet/quantum_wallet_setup.cpp]): their
      maps of keys and scripts, new addresses, signing providers, messages,
      encryption, loading; the theorems are in [WalletP.v] and
      [WalletDbP.v].

    They compose as in the program: [ProduceSignature] signs through
    [CQuantumKey], which calls the objects of the API, which call the schemes,
    which call the hash functions through callback tables; [VerifyScript] runs the
    interpreter, whose checker computes the signature hash and verifies through
    the same objects.

    ** How C and C++ are modelled

    Unsigned integers are [Z] with every truncation written out ([u8], [u32],
    [u64]); signed arithmetic of ML-DSA is checked ([i32], [i64]): an overflow is
    undefined.  A C function that touches memory is a function into [option], and
    [None] is undefined behaviour: an access out of bounds, a signed overflow, a
    use of a released object.  A buffer is a list of byte values; [read] and
    [write] are [memcpy] from and to an offset; uninitialised stack memory comes
    from the class [Uninit], and the theorems hold for each of its instances.
    [wp m Q] says that [m] is defined and its result satisfies [Q], so a theorem
    stated with it is one of total correctness.  The C++ code also fails with an
    error value, an exception or an assertion: [Node.v] has the type of results.

    Counted loops are [for_loop].  Loops with other conditions are [loop], with
    fuel: [2 ^ tree_height] in [treehashx1], which returns at the last leaf, and
    one more than the height in its inner loop; 16 steps of a WOTS chain; one
    more than the number of blocks or bytes in the hash functions; one more than
    the number of layers, entries, rows or bytes in ML-DSA; one more than the
    number of bytes in a loop over a script.  Running out of fuel is [None] (a
    crash in the node), so the theorems prove that the fuel is enough.  Two loops
    have no such bound: a sampler of ML-DSA reads its stream until it has enough
    candidates, and signing tries until a signature is accepted.  Their bounds
    [fuel] and [tries] are arguments; what holds for one bound holds for every
    larger one, a sampler returns as soon as its stream has enough candidates
    within the bound, and [2 ^ 16] attempts decide what any number returns, because
    the counter of attempts has 16 bits.

    Code outside the repository or of another component enters as an argument: the
    random source (its assumption: it returns as many bytes as asked for), the
    elliptic-curve functions (class [NodeCrypto], class [CKeyOps] for private
    keys), taproot signing and miniscript satisfaction in [Sign.v], the database,
    the cipher and the parser and expansion of descriptors in [Wallet.v].  Every theorem
    with such an assumption has a witness with a concrete instance.

    ** What is proved

    - [Sphincs.v]: every signature verifies; verification equals a pure
      reference verifier on every input; the attached-signature functions
      round-trip and leak nothing on failure; key generation is the root of the top
      tree, whatever uninitialised memory held.  [SpxTheorems.v]: the components,
      from addresses and chains to trees.
    - [HashTheorems.v] and [Sha3Theorems.v]: SHA-2 equals FIPS 180-4 and SHA-3
      equals FIPS 202, one-shot and for every sequence of incremental calls; the
      tweakable hash, PRF, MGF1, HMAC and message digest are the functions of the
      SPHINCS+ specification.
    - [MlDsa.v]: signatures of generated keys verify; signing returns the encoding
      of the first attempt that the loop of FIPS 204 accepts, verification accepts
      exactly what FIPS 204 accepts, key generation satisfies the key equation;
      errors.  [MlTheorems.v]: reductions, roundings, the transform and the product
      in Z/Q[X]/(X^256 + 1), hints and encodings, with the ends of the documented
      ranges.  [MlSampling.v]: the samplers.
    - [OqsSig.v], [OqsMlDsa.v]: what a caller of the API gets from either object.
    - [InterpP.v], [Verify.v], [TxChecker.v]: no script and no spend makes the
      interpreter crash, throw or loop, for inputs as its callers promise them (the
      conditions are those that the code asserts), its stacks stay within their
      limits; the one exception is a null error pointer.
    - [TxP.v]: the cache of hashes changes nothing, and a signature hash commits to
      the transaction.  [QSig.v], [Script.v]: encodings are canonical.
    - [QKeyP.v]: the invariant of key objects, signing and verification of
      generated keys, export and import.
    - [QWitness.v], [SignP.v]: which witnesses spend a quantum output, and that
      [ProduceSignature] makes such a witness; what the policy and the count of
      signature operations see of it ([QPolicy.v]).
    - [NodeHashP.v]: the hash functions of the node are SHA-256, SHA-1 and
      RIPEMD-160, whatever the sequence of [Write] calls.
    - [QKeyIO.v]: which exported keys can be imported again.  [Dest.v], [KeyIO.v]:
      output scripts, destinations and addresses correspond one to one;
      [Bech32.v]: an address with one or two wrong characters is refused.
    - [WalletP.v]: the wallet that gives an address out holds its key and scripts, and
      signs messages and spends that verify; [WalletDbP.v]: what
      was written is loaded again exactly, and encryption does not touch quantum keys.

    ** What is not modelled

    Of the library: the generic [treehash] of [utils.c] (unused), heap release of
    API objects, the AVX2, ARM and SHA-NI variants, the parts of the Keccak state
    access that this build never calls, the other parameter sets.  Of the node:
    the elliptic-curve code ([secp256k1], [CKey], [CPubKey]), taproot signing and
    miniscript, text output and logs, the serialization of whole transactions, the
    extraction of signatures from transactions and the key store of the signing
    provider, the registry of signature schemes (unused), the rest of the wallet
    (parsing and expansion of descriptors, the address book, coin selection, the
    cipher, SQLite), and what the fork takes over from upstream: validation and
    network. *)

From stdpp Require Export base option list numbers tactics.
From Stdlib Require Export ZArith Lia.

#[export] Set Default Goal Selector "!".
Open Scope Z_scope.

(** ** Machine integers

    An unsigned [w]-bit C integer is a [Z] in [0, 2^w); every C conversion to
    such a type is one of the truncations below. *)

Definition u8 (x : Z) : Z := x mod 2 ^ 8.
Definition u32 (x : Z) : Z := x mod 2 ^ 32.
Definition u64 (x : Z) : Z := x mod 2 ^ 64.

Declare Scope c_scope.
Delimit Scope c_scope with c.
Notation "x +₃₂ y" := (u32 (x + y)) (at level 50, left associativity) : c_scope.
Notation "x -₃₂ y" := (u32 (x - y)) (at level 50, left associativity) : c_scope.
Notation "x <<₃₂ n" := (u32 (Z.shiftl x n)) (at level 45, left associativity) : c_scope.
Notation "x >> n" := (Z.shiftr x n) (at level 45, left associativity) : c_scope.
Notation "x & y" := (Z.land x y) (at level 48, left associativity) : c_scope.
Notation "x ⊻ y" := (Z.lxor x y) (at level 48, left associativity) : c_scope.

Definition in_u8 (x : Z) : Prop := 0 <= x < 2 ^ 8.
Definition in_u32 (x : Z) : Prop := 0 <= x < 2 ^ 32.
Definition in_u64 (x : Z) : Prop := 0 <= x < 2 ^ 64.

(** A byte buffer holds values of type [unsigned char]. *)
Abbreviation bytes := (Forall in_u8).

Create HintDb cint.
Create Rewrite HintDb cint.

Lemma u8_range x : in_u8 (u8 x).
Proof. apply Z.mod_pos_bound; lia. Qed.
Lemma u32_range x : in_u32 (u32 x).
Proof. apply Z.mod_pos_bound; lia. Qed.
Lemma u64_range x : in_u64 (u64 x).
Proof. apply Z.mod_pos_bound; lia. Qed.
Lemma u8_small x : in_u8 x → u8 x = x.
Proof. apply Z.mod_small. Qed.
Lemma u32_small x : in_u32 x → u32 x = x.
Proof. apply Z.mod_small. Qed.
Lemma u64_small x : in_u64 x → u64 x = x.
Proof. apply Z.mod_small. Qed.
#[export] Hint Resolve u8_range u32_range u64_range : cint.
#[export] Hint Rewrite u8_small u32_small u64_small
  using (unfold in_u8, in_u32, in_u64; lia) : cint.

(** ** Undefined behaviour as [None]

    A C function that touches memory is a function into [option]: [None] is an
    out-of-bounds access, a use of a released object, or a loop that exceeds
    its fuel.  [wp m Q] says that [m] is defined and that its result
    satisfies [Q]; it is a total-correctness judgement. *)

Definition wp {A} (m : option A) (Q : A → Prop) : Prop :=
  match m with Some a => Q a | None => False end.

Lemma wp_exists {A} (m : option A) Q : wp m Q ↔ ∃ a, m = Some a ∧ Q a.
Proof. destruct m; simpl; split; try done; [by eauto | by intros (? & [= <-] & ?) | by intros (? & ? & _)]. Qed.

Lemma wp_mono {A} (m : option A) (P Q : A → Prop) :
  wp m P → (∀ a, P a → Q a) → wp m Q.
Proof. destruct m; simpl; auto. Qed.

Lemma wp_bind {A B} (m : option A) (f : A → option B) Q :
  wp m (λ a, wp (f a) Q) → wp (m ≫= f) Q.
Proof. by destruct m. Qed.

Lemma wp_is_Some {A} (m : option A) Q : wp m Q → is_Some m.
Proof. intros (a & -> & _)%wp_exists. done. Qed.

(** The composition rule the proofs below use: a specification of the first
    computation, then the continuation on any result it allows. *)
Lemma wp_then {A B} (m : option A) (f : A → option B) P Q :
  wp m P → (∀ a, P a → wp (f a) Q) → wp (m ≫= f) Q.
Proof. intros Hm Hf. apply wp_bind. by eapply wp_mono. Qed.

(** The same with a known result. *)
Lemma wp_step {A B} (m : option A) a (f : A → option B) Q :
  m = Some a → wp (f a) Q → wp (m ≫= f) Q.
Proof. by intros ->. Qed.

Lemma wp_eq {A} (m : option A) a : wp m (λ x, x = a) ↔ m = Some a.
Proof. destruct m; simpl; split; try done; [by intros -> | by intros [= ->]]. Qed.

#[export] Instance wp_proper {A} (m : option A) :
  Proper (pointwise_relation A iff ==> iff) (wp m).
Proof. intros P Q HPQ. destruct m; [apply HPQ | done]. Qed.

(** [for (i = lo; i < lo + n; i++) body] *)
Fixpoint for_loop {S : Type} (n lo : nat) (body : nat → S → option S) (s : S)
  : option S :=
  match n with
  | O => Some s
  | Datatypes.S n' => body lo s ≫= for_loop n' (Datatypes.S lo) body
  end.

Lemma wp_for {S : Type} (I : nat → S → Prop) n lo body (s : S) Q :
  I lo s →
  (∀ i s, (lo <= i < lo + n)%nat → I i s → wp (body i s) (I (Datatypes.S i))) →
  (∀ s, I (lo + n)%nat s → Q s) →
  wp (for_loop n lo body s) Q.
Proof.
  revert lo s. induction n as [|n IH]; intros lo s HI Hb HQ; simpl.
  - apply HQ. by rewrite Nat.add_0_r.
  - eapply wp_then; [apply Hb; [lia | done] |].
    intros s' Hs'. apply IH; [done | |].
    + intros i t Hi. apply Hb. lia.
    + intros t. replace (Datatypes.S lo + n)%nat with (lo + Datatypes.S n)%nat by lia.
      apply HQ.
Qed.

(** A [for (;;)] loop: the body either continues or leaves the loop with a
    result ([break] or [return]). *)
Inductive ctl (S R : Type) : Type :=
  | Next (s : S)
  | Done (r : R).
Arguments Next {S R} s.
Arguments Done {S R} r.

Fixpoint loop {S R : Type} (fuel : nat) (body : S → option (ctl S R)) (s : S)
  : option R :=
  match fuel with
  | O => None
  | Datatypes.S fuel' =>
      c ← body s;
      match c with
      | Next s' => loop fuel' body s'
      | Done r => Some r
      end
  end.

(** [I k s]: from [s] the loop ends within [k] iterations. *)
Lemma wp_loop {S R : Type} (I : nat → S → Prop) (Q : R → Prop) body fuel (s : S) :
  I fuel s →
  (∀ k s, I k s → ∃ k', k = Datatypes.S k' ∧
     wp (body s) (λ c, match c with Next s' => I k' s' | Done r => Q r end)) →
  wp (loop fuel body s) Q.
Proof.
  intros HI Hb. revert s HI. induction fuel as [|k IH]; intros s HI.
  - destruct (Hb _ _ HI) as (? & ? & _). lia.
  - destruct (Hb _ _ HI) as (k' & [= <-] & Hw). simpl.
    eapply wp_then; [exact Hw |]. intros [s'|r] H; [by apply IH | exact H].
Qed.

(** The same with a measure that decreases at every iteration. *)
Lemma wp_loop_measure {S R : Type} (I : S → Prop) (m : S → nat) (Q : R → Prop) body fuel (s : S) :
  I s → (m s < fuel)%nat →
  (∀ s, I s → wp (body s) (λ c, match c with Next s' => I s' ∧ (m s' < m s)%nat | Done r => Q r end)) →
  wp (loop fuel body s) Q.
Proof.
  intros HI Hm Hb. apply (wp_loop (λ k s, I s ∧ (m s < k)%nat)); [done|].
  intros k t [Ht Hk]. exists (pred k). split; [lia|]. eapply wp_mono; [by apply Hb|].
  intros [t'|r]; [|done]. intros [? ?]. split; [done|lia].
Qed.

(** The last iteration. *)
Lemma for_loop_snoc {S : Type} n lo (body : nat → S → option S) s :
  for_loop (Datatypes.S n) lo body s = for_loop n lo body s ≫= body (lo + n)%nat.
Proof.
  revert lo s. induction n as [|n IH]; intros lo s.
  - cbn [for_loop mbind option_bind]. rewrite Nat.add_0_r. by destruct (body lo s).
  - cbn [for_loop]. destruct (body lo s) as [s'|]; [|done]. cbn [mbind option_bind].
    rewrite <-Nat.add_succ_comm. apply (IH (Datatypes.S lo) s').
Qed.

(** Two loops whose bodies do the same, failures included. *)
Lemma for_loop_exact {S T : Type} (R : nat → S → T → Prop) n lo f g (s : S) (t : T) :
  R lo s t →
  (∀ i s t, (lo <= i < lo + n)%nat → R i s t → option_Forall2 (R (Datatypes.S i)) (f i s) (g i t)) →
  option_Forall2 (R (lo + n)%nat) (for_loop n lo f s) (for_loop n lo g t).
Proof.
  revert lo s t. induction n as [|n IH]; intros lo s t Hr Hstep; cbn [for_loop].
  - constructor. by rewrite Nat.add_0_r.
  - destruct (Hstep lo s t) as [s1 t1 Hr1|]; [lia|done| |constructor]. cbn [mbind option_bind].
    rewrite <-Nat.add_succ_comm. apply IH; [done|]. intros i a b Hi. apply Hstep. lia.
Qed.

(** Simulation of one counted loop by another. *)
Lemma for_loop_sim {S T : Type} (R : S → T → Prop) n lo f g (s s' : S) (t : T) :
  for_loop n lo f s = Some s' → R s t →
  (∀ i s t s1, (lo <= i < lo + n)%nat → R s t → f i s = Some s1 → wp (g i t) (R s1)) →
  wp (for_loop n lo g t) (R s').
Proof.
  revert lo s t. induction n as [|n IH]; intros lo s t Hf Hr Hstep; cbn [for_loop] in *.
  - by injection Hf as <-.
  - destruct (f lo s) as [s1|] eqn:E; [|done]. eapply wp_then; [eapply Hstep; [lia|done|done]|].
    intros t1 Hr1. eapply IH; [exact Hf|done|]. intros i a b a1 Hi. apply Hstep. lia.
Qed.

(** *** Partial correctness

    [wlp m Q]: if [m] returns, its result satisfies [Q].  Used for the loops
    that run until a random stream has delivered enough, of which the fuel of
    the model may be too little. *)
Definition wlp {A} (m : option A) (Q : A → Prop) : Prop :=
  match m with Some a => Q a | None => True end.

Lemma wlp_iff {A} (m : option A) Q : wlp m Q ↔ ∀ a, m = Some a → Q a.
Proof. destruct m; simpl; split; try done; [by intros ? ? [= <-] | by intros H; apply H]. Qed.

Lemma wp_wlp {A} (m : option A) Q : wp m Q → wlp m Q.
Proof. by destruct m. Qed.

Lemma wlp_mono {A} (m : option A) (P Q : A → Prop) : wlp m P → (∀ a, P a → Q a) → wlp m Q.
Proof. destruct m; simpl; auto. Qed.

Lemma wlp_then {A B} (m : option A) (f : A → option B) P Q :
  wlp m P → (∀ a, P a → wlp (f a) Q) → wlp (m ≫= f) Q.
Proof. destruct m; simpl; auto. Qed.

(** A step that always returns. *)
Lemma wlp_step {A B} (m : option A) (f : A → option B) P Q :
  wp m P → (∀ a, P a → wlp (f a) Q) → wlp (m ≫= f) Q.
Proof. intros Hm. apply wlp_then. by apply wp_wlp. Qed.

Lemma wlp_for {S : Type} (I : nat → S → Prop) n lo body (s : S) Q :
  I lo s →
  (∀ i s, (lo <= i < lo + n)%nat → I i s → wlp (body i s) (I (Datatypes.S i))) →
  (∀ s, I (lo + n)%nat s → Q s) →
  wlp (for_loop n lo body s) Q.
Proof.
  revert lo s. induction n as [|n IH]; intros lo s HI Hb HQ; simpl.
  - apply HQ. by rewrite Nat.add_0_r.
  - eapply wlp_then; [apply Hb; [lia | done] |].
    intros s' Hs'. apply IH; [done | |].
    + intros i t Hi. apply Hb. lia.
    + intros t. replace (Datatypes.S lo + n)%nat with (lo + Datatypes.S n)%nat by lia.
      apply HQ.
Qed.

Lemma wlp_loop {S R : Type} (I : S → Prop) (Q : R → Prop) body fuel (s : S) :
  I s →
  (∀ s, I s → wlp (body s) (λ c, match c with Next s' => I s' | Done r => Q r end)) →
  wlp (loop fuel body s) Q.
Proof.
  intros HI Hb. revert s HI. induction fuel as [|k IH]; intros s HI; simpl; [done |].
  eapply wlp_then; [by apply Hb |]. intros [s'|r] H; [by apply IH | exact H].
Qed.

(** ** Buffers *)

(** [memcpy(dst, buf + off, len)]: the bytes read. *)
Definition read (buf : list Z) (off len : nat) : option (list Z) :=
  if decide (off + len <= length buf)%nat then Some (take len (drop off buf)) else None.

(** The buffer with [data] stored at offset [off]. *)
Definition put (buf : list Z) (off : nat) (data : list Z) : list Z :=
  take off buf ++ data ++ drop (off + length data) buf.

(** [memcpy(buf + off, data, length data)]: the buffer afterwards. *)
Definition write (buf : list Z) (off : nat) (data : list Z) : option (list Z) :=
  if decide (off + length data <= length buf)%nat then Some (put buf off data) else None.

Lemma read_Some buf off len :
  (off + len <= length buf)%nat → read buf off len = Some (take len (drop off buf)).
Proof. intros. unfold read. by rewrite decide_True. Qed.

Lemma write_Some buf off data :
  (off + length data <= length buf)%nat → write buf off data = Some (put buf off data).
Proof. intros. unfold write. by rewrite decide_True. Qed.

(** The [i]-th of the [n]-byte slots of a buffer. *)
Definition slot (n : nat) (buf : list Z) (i : nat) : list Z := take n (drop (i * n) buf).

Lemma read_slot n buf i :
  ((i + 1) * n <= length buf)%nat → read buf (i * n) n = Some (slot n buf i).
Proof. intros. apply read_Some. lia. Qed.

Lemma length_slot n buf i :
  ((i + 1) * n <= length buf)%nat → length (slot n buf i) = n.
Proof. intros. unfold slot. rewrite length_take, length_drop. lia. Qed.

Lemma slot_take n buf i k : ((i + 1) * n <= k)%nat → slot n (take k buf) i = slot n buf i.
Proof. intros. unfold slot. rewrite skipn_firstn_comm, take_take, Nat.min_l by lia. done. Qed.

Lemma drop_take_app_overlap {A} (l1 l2 l3 : list A) n :
  length l1 = n → take (length l2) (drop n (l1 ++ l2 ++ l3)) = l2.
Proof. intros <-. by rewrite drop_app_length, take_app_length. Qed.

Lemma length_put buf off data :
  (off + length data <= length buf)%nat → length (put buf off data) = length buf.
Proof. intros. unfold put. rewrite !length_app, length_take, length_drop. lia. Qed.

Lemma take_put buf off data k :
  (k <= off)%nat → (off <= length buf)%nat → take k (put buf off data) = take k buf.
Proof.
  intros. unfold put. rewrite take_app_le by (rewrite length_take; lia).
  by rewrite take_take, Nat.min_l.
Qed.

Lemma drop_put buf off data k :
  (off + length data <= k)%nat → (off <= length buf)%nat → drop k (put buf off data) = drop k buf.
Proof.
  intros. unfold put. rewrite drop_app_ge by (rewrite length_take; lia).
  rewrite length_take, drop_app_ge by lia. rewrite drop_drop. f_equal. lia.
Qed.

(** Writing inside slot [i] changes that slot only. *)
Lemma wp_write_in_slot n buf i o data off :
  off = (i * n + o)%nat → (o + length data <= n)%nat → ((i + 1) * n <= length buf)%nat →
  wp (write buf off data) (λ b,
    length b = length buf ∧ slot n b i = put (slot n buf i) o data ∧
    ∀ j, j ≠ i → slot n b j = slot n buf j).
Proof.
  intros -> Ho Hi. unfold write. rewrite decide_True by lia. cbn [wp].
  split; [apply length_put; lia |]. split.
  - unfold slot, put.
    rewrite (skipn_app (i * n)), skipn_firstn_comm.
    replace (i * n + o - i * n)%nat with o by lia.
    rewrite length_take, Nat.min_l by lia.
    replace (i * n - (i * n + o))%nat with 0%nat by lia. rewrite drop_0.
    assert (Hl : length (take o (drop (i * n) buf)) = o) by (rewrite length_take, length_drop; lia).
    rewrite take_app_ge by lia. rewrite Hl, take_app_ge by lia.
    rewrite take_take, Nat.min_l by lia. do 2 f_equal.
    rewrite skipn_firstn_comm, drop_drop. f_equal; [lia | f_equal; lia].
  - intros j Hj. unfold slot. destruct (decide (j < i)%nat) as [Hlt|Hge].
    + assert (Hji : (j * n + n <= i * n)%nat) by nia.
      assert (Hc : ∀ l : list Z, take n (drop (j * n) l) = drop (j * n) (take (j * n + n) l)).
      { intros l. rewrite skipn_firstn_comm. f_equal. lia. }
      by rewrite !Hc, take_put by lia.
    + assert (Hji : (i * n + n <= j * n)%nat) by nia. by rewrite drop_put by lia.
Qed.

(** Writing the whole of slot [i]. *)
Lemma wp_write_slot n buf i data :
  length data = n → ((i + 1) * n <= length buf)%nat →
  wp (write buf (i * n) data) (λ b,
    length b = length buf ∧ slot n b i = data ∧ ∀ j, j ≠ i → slot n b j = slot n buf j).
Proof.
  intros Hd Hi. eapply wp_mono; [apply (wp_write_in_slot n buf i 0); lia |].
  intros b (Hl & Hs & Ho). split_and!; [done | | done]. rewrite Hs. unfold put.
  rewrite take_0, app_nil_l, drop_ge by (rewrite length_slot; lia). apply app_nil_r.
Qed.

Lemma read_in_slot n buf i o len off :
  off = (i * n + o)%nat → (o + len <= n)%nat → ((i + 1) * n <= length buf)%nat →
  read buf off len = Some (take len (drop o (slot n buf i))).
Proof.
  intros -> Ho Hi. rewrite read_Some by lia. unfold slot.
  rewrite skipn_firstn_comm, take_take, Nat.min_l, drop_drop by lia. done.
Qed.

(** Reading and replacing the middle part of a buffer. *)
Lemma read_app pre x post off len :
  off = length pre → len = length x → read (pre ++ x ++ post) off len = Some x.
Proof.
  intros -> ->. rewrite read_Some by (rewrite !length_app; lia).
  by rewrite drop_take_app_overlap.
Qed.

Lemma write_app pre old post off data :
  off = length pre → length data = length old →
  write (pre ++ old ++ post) off data = Some (pre ++ data ++ post).
Proof.
  intros -> Hl. unfold write. rewrite decide_True by (rewrite !length_app; lia).
  unfold put. rewrite take_app_length, Hl. do 3 f_equal.
  rewrite drop_app_ge by lia. rewrite drop_app_ge by lia.
  replace (length pre + length old - length pre - length old)%nat with 0%nat by lia. done.
Qed.

Lemma read_front x post len : len = length x → read (x ++ post) 0 len = Some x.
Proof. intros. by apply (read_app []). Qed.
Lemma write_front old post data :
  length data = length old → write (old ++ post) 0 data = Some (data ++ post).
Proof. intros. by apply (write_app []). Qed.
Lemma read_all x len : len = length x → read x 0 len = Some x.
Proof. intros. rewrite <-(app_nil_r x) at 1. by apply read_front. Qed.

(** The two parts of a buffer of known length. *)
Lemma split_at {A} n (l : list A) : (n <= length l)%nat → ∃ a b, l = a ++ b ∧ length a = n.
Proof. intros. exists (take n l), (drop n l). rewrite take_drop, length_take. split; [done | lia]. Qed.

(** ** Big-endian values of byte strings *)

Definition be_val (bs : list Z) : Z := foldl (λ a b, a * 2 ^ 8 + b) 0 bs.

Lemma foldl_be_val bs a :
  foldl (λ a b, a * 2 ^ 8 + b) a bs = a * 2 ^ (8 * Z.of_nat (length bs)) + be_val bs.
Proof.
  unfold be_val. revert a. induction bs as [|b bs IH]; intros a; cbn [foldl length].
  - rewrite Z.mul_0_r, Z.pow_0_r. lia.
  - rewrite IH, (IH (0 * 2 ^ 8 + b)), Nat2Z.inj_succ, Z.mul_succ_r, Z.pow_add_r by lia. ring.
Qed.

Lemma be_val_app bs cs :
  be_val (bs ++ cs) = be_val bs * 2 ^ (8 * Z.of_nat (length cs)) + be_val cs.
Proof. unfold be_val at 1. rewrite foldl_app. apply foldl_be_val. Qed.

Lemma be_val_snoc bs b : be_val (bs ++ [b]) = be_val bs * 2 ^ 8 + b.
Proof. rewrite be_val_app. unfold be_val at 2. cbn [foldl length]. lia. Qed.

Lemma be_val_range bs : bytes bs → 0 <= be_val bs < 2 ^ (8 * Z.of_nat (length bs)).
Proof.
  induction bs as [|b bs IH] using rev_ind; [done |].
  rewrite Forall_app, be_val_snoc, length_app. intros [H1 H2]. specialize (IH H1).
  rewrite Forall_singleton in H2. unfold in_u8 in H2. cbn [length].
  rewrite Nat2Z.inj_add, Z.mul_add_distr_l, Z.pow_add_r by lia.
  change (2 ^ (8 * Z.of_nat 1)) with 256. change (2 ^ 8) with 256 in *. lia.
Qed.

(** Two byte strings of one length with one value are equal. *)
Lemma be_val_inj bs cs :
  bytes bs → bytes cs → length bs = length cs → be_val bs = be_val cs → bs = cs.
Proof.
  revert cs. induction bs as [|b bs IH] using rev_ind; intros cs Hb Hc Hl He.
  - by destruct cs.
  - destruct cs as [|c cs _] using rev_ind; [rewrite length_app in Hl; simpl in Hl; lia |].
    rewrite !length_app in Hl. cbn [length] in Hl. rewrite !be_val_snoc in He.
    rewrite !Forall_app, !Forall_singleton in *. unfold in_u8 in *.
    destruct Hb as [Hb ?], Hc as [Hc ?].
    assert (b = c) as -> by (change (2 ^ 8) with 256 in *; lia).
    f_equal. apply IH; [done | done | lia | lia].
Qed.

(** The big-endian encoding of [x] on [n] bytes. *)
Fixpoint be_bytes (n : nat) (x : Z) : list Z :=
  match n with
  | O => []
  | S i => be_bytes i (x / 2 ^ 8) ++ [u8 x]
  end.

Lemma length_be_bytes n x : length (be_bytes n x) = n.
Proof. revert x. induction n; intros x; simpl; [done |]. rewrite length_app, IHn. simpl. lia. Qed.

Lemma be_bytes_bytes n x : bytes (be_bytes n x).
Proof.
  revert x. induction n as [|n IH]; intros x; simpl; [constructor |].
  apply Forall_app. split; [apply IH |]. apply Forall_singleton, u8_range.
Qed.

Lemma be_val_be_bytes n x : be_val (be_bytes n x) = x mod 2 ^ (8 * Z.of_nat n).
Proof.
  revert x. induction n as [|n IH]; intros x; cbn [be_bytes].
  - by rewrite Z.mul_0_r, Z.mod_1_r.
  - rewrite be_val_snoc, IH. unfold u8.
    replace (8 * Z.of_nat (S n)) with (8 + 8 * Z.of_nat n) by lia.
    rewrite Z.pow_add_r by lia.
    rewrite Z.rem_mul_r by (try apply Z.pow_pos_nonneg; lia). lia.
Qed.

Lemma be_bytes_be_val l : bytes l → be_bytes (length l) (be_val l) = l.
Proof.
  intros Hl. apply be_val_inj; [apply be_bytes_bytes | done | apply length_be_bytes |].
  rewrite be_val_be_bytes. apply Z.mod_small, be_val_range, Hl.
Qed.

(** ** Little-endian values of byte strings *)

Fixpoint le_val (l : list Z) : Z :=
  match l with [] => 0 | b :: l => b + 2 ^ 8 * le_val l end.

Fixpoint le_bytes (n : nat) (x : Z) : list Z :=
  match n with O => [] | S n => u8 x :: le_bytes n (x / 2 ^ 8) end.


Lemma length_le_bytes n x : length (le_bytes n x) = n.
Proof. revert x. induction n; intros; simpl; auto. Qed.

Lemma le_bytes_bytes n x : bytes (le_bytes n x).
Proof. revert x. induction n; intros; simpl; constructor; auto with cint. Qed.

Lemma le_val_range l : bytes l → 0 <= le_val l < 2 ^ (8 * Z.of_nat (length l)).
Proof.
  induction 1 as [|b l Hb Hl IH]; [done |]. cbn [le_val length].
  replace (8 * Z.of_nat (S (length l))) with (8 + 8 * Z.of_nat (length l)) by lia.
  rewrite Z.pow_add_r by lia. unfold in_u8 in Hb. change (2 ^ 8) with 256 in *. lia.
Qed.

Lemma le_val_u64 l : bytes l → length l = 8%nat → in_u64 (le_val l).
Proof. intros Hl Hn. pose proof (le_val_range l Hl) as H. by rewrite Hn in H. Qed.

Lemma le_val_le_bytes n x : le_val (le_bytes n x) = x mod 2 ^ (8 * Z.of_nat n).
Proof.
  revert x. induction n as [|n IH]; intros x; cbn [le_bytes le_val]; [by rewrite Z.mod_1_r |].
  rewrite IH. unfold u8. replace (8 * Z.of_nat (S n)) with (8 + 8 * Z.of_nat n) by lia.
  rewrite Z.pow_add_r, Z.rem_mul_r by (try apply Z.pow_pos_nonneg; lia). lia.
Qed.

Lemma le_bytes_le_val l : bytes l → le_bytes (length l) (le_val l) = l.
Proof.
  induction 1 as [|b l Hb Hl IH]; [done |]. cbn [length le_bytes le_val]. unfold in_u8, u8 in *.
  change (2 ^ 8) with 256 in *.
  rewrite (Z.mul_comm 256), Z.mod_add, Z.div_add, Z.mod_small, Z.div_small, Z.add_0_l by lia. by rewrite IH.
Qed.

Lemma le_bytes_lane x : in_u64 x → le_val (le_bytes 8 x) = x.
Proof. intros. rewrite le_val_le_bytes. by apply Z.mod_small. Qed.

Lemma le_val_app a b : le_val (a ++ b) = le_val a + 2 ^ (8 * Z.of_nat (length a)) * le_val b.
Proof.
  induction a as [|x a IH]; cbn [app le_val length]; [lia |]. rewrite IH.
  replace (8 * Z.of_nat (S (length a))) with (8 + 8 * Z.of_nat (length a)) by lia.
  rewrite Z.pow_add_r by lia. lia.
Qed.

(** A value below [2^k] and a multiple of [2^k] share no bit: [or] and [xor]
    of the two add them. *)
Lemma land_mul_pow2 a b k : 0 <= k → 0 <= b < 2 ^ k → Z.land (a * 2 ^ k) b = 0.
Proof.
  intros Hk Hb. apply Z.bits_inj'. intros i Hi. rewrite Z.land_spec, Z.bits_0.
  destruct (decide (i < k)).
  - by rewrite Z.mul_pow2_bits_low.
  - rewrite <-(Z.mod_small b (2 ^ k)), Z.mod_pow2_bits_high by lia. apply andb_false_r.
Qed.

Lemma lor_mul_pow2 a b k :
  0 <= k → 0 <= b < 2 ^ k → Z.lor (a * 2 ^ k) b = a * 2 ^ k + b.
Proof. intros. by rewrite <-Z.add_nocarry_lor by (by apply land_mul_pow2). Qed.

Lemma lxor_mul_pow2 a b k :
  0 <= k → 0 <= b < 2 ^ k → Z.lxor (a * 2 ^ k) b = a * 2 ^ k + b.
Proof. intros. by rewrite <-Z.add_nocarry_lxor by (by apply land_mul_pow2). Qed.

Lemma land_ones_u32 x n : 0 <= n → Z.land x (2 ^ n - 1) = x mod 2 ^ n.
Proof.
  intros. rewrite <-Z.land_ones by done. f_equal. rewrite Z.ones_equiv. lia.
Qed.

(** The lowest bit as C code tests it. *)
Lemma land_1 x : Z.land x 1 = x mod 2.
Proof. change 1 with (Z.ones 1) at 1. by rewrite Z.land_ones. Qed.

(** ** Uninitialised storage

    The contents of an automatic array before its first write.  Definitions
    take them from this class, so that a theorem about them holds whatever the
    memory held. *)
Class Uninit := {
  uninit : nat → list Z;
  length_uninit n : length (uninit n) = n;
}.

(** [off = k * 2^h] written as shifts. *)
Lemma shiftr_div x n : Z.shiftr x (Z.of_nat n) = x / 2 ^ Z.of_nat n.
Proof. apply Z.shiftr_div_pow2. lia. Qed.

Lemma pow2_pos n : 0 < 2 ^ Z.of_nat n.
Proof. apply Z.pow_pos_nonneg; lia. Qed.

Lemma pow2_S n : 2 ^ Z.of_nat (S n) = 2 * 2 ^ Z.of_nat n.
Proof. rewrite Nat2Z.inj_succ, Z.pow_succ_r; lia. Qed.

Lemma div_pow2_S x n : x / 2 ^ Z.of_nat (S n) = x / 2 ^ Z.of_nat n / 2.
Proof.
  rewrite pow2_S, (Z.mul_comm 2), Z.div_div; [done | | lia].
  pose proof (pow2_pos n). lia.
Qed.

Lemma shiftr_S x n : Z.shiftr (Z.shiftr x (Z.of_nat n)) 1 = Z.shiftr x (Z.of_nat (S n)).
Proof. rewrite Z.shiftr_shiftr by lia. f_equal. lia. Qed.

(** ** Binary counters: what incrementing [x] does to its quotients by [2^h] *)

Lemma div_succ_eq x m : 0 < m → (x + 1) mod m = 0 → (x + 1) / m = x / m + 1.
Proof.
  intros Hm Hx. pose proof (Z.div_mod (x + 1) m). pose proof (Z.div_mod x m).
  pose proof (Z.mod_pos_bound x m). nia.
Qed.

Lemma div_succ_ne x m : 0 < m → (x + 1) mod m ≠ 0 → (x + 1) / m = x / m.
Proof.
  intros Hm Hx. pose proof (Z.div_mod (x + 1) m). pose proof (Z.div_mod x m).
  pose proof (Z.mod_pos_bound x m). pose proof (Z.mod_pos_bound (x + 1) m). nia.
Qed.

Lemma mod_pow2_mono x g h : (g <= h)%nat → x mod 2 ^ Z.of_nat h = 0 → x mod 2 ^ Z.of_nat g = 0.
Proof.
  intros Hgh Hx. pose proof (pow2_pos g). pose proof (pow2_pos h).
  apply Z.mod_divide; [lia |].
  etrans; [| apply Z.mod_divide, Hx; lia]. exists (2 ^ Z.of_nat (h - g)). rewrite <-Z.pow_add_r by lia. f_equal. lia.
Qed.

(** [x + 1] divides by [2^(h+1)] exactly when it does by [2^h] and bit [h] of
    [x] is set. *)
Lemma succ_mod_pow2_S x h :
  (x + 1) mod 2 ^ Z.of_nat h = 0 →
  (x + 1) mod 2 ^ Z.of_nat (S h) = 0 ↔ (x / 2 ^ Z.of_nat h) mod 2 = 1.
Proof.
  intros Hx. pose proof (pow2_pos h) as Hp.
  pose proof (div_succ_eq _ _ Hp Hx) as Hq. pose proof (Z.div_mod (x + 1) (2 ^ Z.of_nat h)) as Hd.
  rewrite pow2_S, Z.mul_comm, Z.rem_mul_r by lia. rewrite Hx, Hq.
  rewrite Z.add_mod by lia.
  pose proof (Z.mod_pos_bound (x / 2 ^ Z.of_nat h) 2).
  assert (C : (x / 2 ^ Z.of_nat h) mod 2 = 0 ∨ (x / 2 ^ Z.of_nat h) mod 2 = 1) by lia.
  destruct C as [-> | ->]; change (1 mod 2) with 1; [change ((0 + 1) mod 2) with 1 | change ((1 + 1) mod 2) with 0]; lia.
Qed.

Lemma div_succ_le x g h :
  (x + 1) mod 2 ^ Z.of_nat h = 0 → (g <= h)%nat →
  (x + 1) / 2 ^ Z.of_nat g = x / 2 ^ Z.of_nat g + 1.
Proof. intros Hx Hg. apply div_succ_eq; [apply pow2_pos | by eapply mod_pow2_mono]. Qed.

Lemma div_succ_gt x g h :
  (x + 1) mod 2 ^ Z.of_nat h = 0 → (x / 2 ^ Z.of_nat h) mod 2 = 0 → (h < g)%nat →
  (x + 1) / 2 ^ Z.of_nat g = x / 2 ^ Z.of_nat g.
Proof.
  intros Hx He Hg. apply div_succ_ne; [apply pow2_pos |]. intros Hc.
  assert (H1 : (x + 1) mod 2 ^ Z.of_nat (S h) = 0) by (eapply mod_pow2_mono; [| done]; lia).
  apply (succ_mod_pow2_S _ _ Hx) in H1. lia.
Qed.

(** A buffer of [k] slots is the concatenation of their contents. *)
Lemma slots_eq n k buf (f : nat → list Z) :
  length buf = (k * n)%nat → (∀ i, (i < k)%nat → slot n buf i = f i) → buf = seq 0 k ≫= f.
Proof.
  revert buf. induction k as [|k IH]; intros buf Hl Hf.
  - by destruct buf.
  - rewrite seq_S, bind_app, <-(take_drop (k * n) buf), Nat.add_0_l. f_equal.
    + apply IH; [rewrite length_take; lia |]. intros i Hi. rewrite <-Hf by lia.
      unfold slot. rewrite skipn_firstn_comm, take_take. f_equal. nia.
    + cbn [mbind list_bind]. rewrite app_nil_r, <-Hf by lia.
      unfold slot. rewrite take_ge; [done |]. rewrite length_drop. lia.
Qed.

Lemma slot_bind {A} (f : A → list Z) n (l : list A) tl i x :
  (∀ x, length (f x) = n) → l !! i = Some x → slot n ((l ≫= f) ++ tl) i = f x.
Proof.
  intros Hf. revert i. induction l as [|y l IH]; intros i Hi; [done |].
  cbn [mbind list_bind]. unfold slot. destruct i as [|i].
  - injection Hi as ->. rewrite Nat.mul_0_l, drop_0, <-app_assoc. by apply take_app_length'.
  - rewrite <-app_assoc, drop_app_ge by (rewrite Hf; simpl; lia).
    rewrite <-(IH i) by done. unfold slot. rewrite Hf. do 2 f_equal. simpl. lia.
Qed.

Lemma bind_seq_ext {A} lo n (f g : nat → list A) :
  (∀ i, (lo <= i < lo + n)%nat → f i = g i) → seq lo n ≫= f = seq lo n ≫= g.
Proof.
  revert lo. induction n as [|n IH]; intros lo Hf; [done |]. cbn [seq mbind list_bind].
  f_equal; [apply Hf; lia | apply IH; intros i Hi; apply Hf; lia].
Qed.
