(* ===== verification/SpxAddress.v ===== *)
(** The parameter set SPHINCS+-SHA2-192f-simple (params.h, sha2_offsets.h,
    nistapi.h), the integer codecs of utils.c and the hash-address structure of
    address.c.  An address ([uint32_t addr[8]], always accessed through an
    [unsigned char *]) is its list of 32 bytes. *)
From S2P Require Import Prelude.

Open Scope c_scope.

(** ** params.h *)

Definition SPX_N : nat := 24.
Definition SPX_FULL_HEIGHT : nat := 66.
Definition SPX_D : nat := 22.
Definition SPX_FORS_HEIGHT : nat := 8.
Definition SPX_FORS_TREES : nat := 33.
Definition SPX_WOTS_W : Z := 16.
Definition SPX_ADDR_BYTES : nat := 32.
Definition SPX_WOTS_LOGW : nat := 4.
Definition SPX_WOTS_LEN1 : nat := 8 * SPX_N / SPX_WOTS_LOGW.
Definition SPX_WOTS_LEN2 : nat := 3.
Definition SPX_WOTS_LEN : nat := SPX_WOTS_LEN1 + SPX_WOTS_LEN2.
Definition SPX_WOTS_BYTES : nat := SPX_WOTS_LEN * SPX_N.
Definition SPX_TREE_HEIGHT : nat := SPX_FULL_HEIGHT / SPX_D.
Definition SPX_FORS_MSG_BYTES : nat := (SPX_FORS_HEIGHT * SPX_FORS_TREES + 7) / 8.
Definition SPX_FORS_BYTES : nat := (SPX_FORS_HEIGHT + 1) * SPX_FORS_TREES * SPX_N.
Definition SPX_BYTES : nat :=
  SPX_N + SPX_FORS_BYTES + SPX_D * SPX_WOTS_BYTES + SPX_FULL_HEIGHT * SPX_N.
Definition SPX_PK_BYTES : nat := 2 * SPX_N.
Definition SPX_SK_BYTES : nat := 2 * SPX_N + SPX_PK_BYTES.
Definition CRYPTO_SEEDBYTES : nat := 3 * SPX_N.

(** ** sha2_offsets.h *)

Definition SPX_OFFSET_LAYER : nat := 0.
Definition SPX_OFFSET_TREE : nat := 1.
Definition SPX_OFFSET_TYPE : nat := 9.
Definition SPX_OFFSET_KP_ADDR1 : nat := 13.
Definition SPX_OFFSET_CHAIN_ADDR : nat := 17.
Definition SPX_OFFSET_HASH_ADDR : nat := 21.
Definition SPX_OFFSET_TREE_HGT : nat := 17.
Definition SPX_OFFSET_TREE_INDEX : nat := 18.

(** ** address.h: the reasons an address is used for *)

Definition SPX_ADDR_TYPE_WOTS : Z := 0.
Definition SPX_ADDR_TYPE_WOTSPK : Z := 1.
Definition SPX_ADDR_TYPE_HASHTREE : Z := 2.
Definition SPX_ADDR_TYPE_FORSTREE : Z := 3.
Definition SPX_ADDR_TYPE_FORSPK : Z := 4.
Definition SPX_ADDR_TYPE_WOTSPRF : Z := 5.
Definition SPX_ADDR_TYPE_FORSPRF : Z := 6.

(** ** utils.c: integer codecs *)

(** [for (i = outlen - 1; i >= 0; i--) { out[i] = in & 0xff; in >>= 8; }] *)
Fixpoint ull_to_bytes (outlen : nat) (x : Z) : list Z :=
  match outlen with
  | O => []
  | S i => ull_to_bytes i (x >> 8) ++ [x & 255]
  end.

Definition u32_to_bytes (x : Z) : list Z :=
  [u8 (x >> 24); u8 (x >> 16); u8 (x >> 8); u8 x].

(** [retval |= (unsigned long long)in[i] << (8 * (inlen - 1 - i))] *)
Definition bytes_to_ull (x : list Z) (inlen : nat) : option Z :=
  for_loop inlen 0 (λ i retval,
    b ← x !! i;
    Some (Z.lor retval (u64 (Z.shiftl b (8 * (Z.of_nat inlen - 1 - Z.of_nat i)))))) 0.

(** ** address.c *)

Definition set_layer_addr (addr : list Z) (layer : Z) : list Z :=
  <[SPX_OFFSET_LAYER := u8 layer]> addr.
Definition set_tree_addr (addr : list Z) (tree : Z) : list Z :=
  put addr SPX_OFFSET_TREE (ull_to_bytes 8 tree).
Definition set_type (addr : list Z) (type : Z) : list Z :=
  <[SPX_OFFSET_TYPE := u8 type]> addr.
Definition copy_subtree_addr (out inp : list Z) : list Z :=
  put out 0 (take (SPX_OFFSET_TREE + 8) inp).
Definition set_keypair_addr (addr : list Z) (keypair : Z) : list Z :=
  <[SPX_OFFSET_KP_ADDR1 := u8 keypair]> addr.
Definition copy_keypair_addr (out inp : list Z) : list Z :=
  <[SPX_OFFSET_KP_ADDR1 := inp !!! SPX_OFFSET_KP_ADDR1]>
    (put out 0 (take (SPX_OFFSET_TREE + 8) inp)).
Definition set_chain_addr (addr : list Z) (chain : Z) : list Z :=
  <[SPX_OFFSET_CHAIN_ADDR := u8 chain]> addr.
Definition set_hash_addr (addr : list Z) (hash : Z) : list Z :=
  <[SPX_OFFSET_HASH_ADDR := u8 hash]> addr.
Definition set_tree_height (addr : list Z) (tree_height : Z) : list Z :=
  <[SPX_OFFSET_TREE_HGT := u8 tree_height]> addr.
Definition set_tree_index (addr : list Z) (tree_index : Z) : list Z :=
  put addr SPX_OFFSET_TREE_INDEX (u32_to_bytes tree_index).

(** [uint32_t addr[8] = {0}] *)
Definition zero_addr : list Z := replicate SPX_ADDR_BYTES 0.

Definition is_addr (a : list Z) : Prop := length a = SPX_ADDR_BYTES.

(** An address of 32 named bytes. *)
Ltac destruct_addr a H :=
  unfold is_addr, SPX_ADDR_BYTES in H; do 32 (destruct a as [|? a]; [discriminate H |]);
  destruct a; [clear H | discriminate H].

Lemma length_ull_to_bytes n x : length (ull_to_bytes n x) = n.
Proof. revert x. induction n; intros x; simpl; [done |]. rewrite length_app, IHn. simpl. lia. Qed.

Lemma be_val_ull_to_bytes n x :
  be_val (ull_to_bytes n x) = x mod 2 ^ (8 * Z.of_nat n).
Proof.
  revert x. induction n as [|n IH]; intros x; cbn [ull_to_bytes].
  - by rewrite Z.mul_0_r, Z.mod_1_r.
  - rewrite be_val_snoc, IH. change 255 with (Z.ones 8).
    rewrite Z.land_ones, Z.shiftr_div_pow2 by lia.
    replace (8 * Z.of_nat (S n)) with (8 + 8 * Z.of_nat n) by lia.
    rewrite Z.pow_add_r by lia.
    rewrite Z.rem_mul_r by (try apply Z.pow_pos_nonneg; lia). lia.
Qed.

Lemma ull_to_bytes_bytes n x : bytes (ull_to_bytes n x).
Proof.
  revert x. induction n as [|n IH]; intros x; simpl; [constructor |].
  apply Forall_app. split; [apply IH |]. apply Forall_singleton.
  change 255 with (Z.ones 8). rewrite Z.land_ones by lia. apply u8_range.
Qed.

Lemma be_val_u32_to_bytes x : be_val (u32_to_bytes x) = u32 x.
Proof.
  unfold u32_to_bytes, be_val, u8, u32. cbn [foldl]. rewrite !Z.shiftr_div_pow2 by lia.
  change (2 ^ 8) with 256. change (2 ^ 16) with 65536. change (2 ^ 24) with 16777216.
  change (2 ^ 32) with 4294967296. Z.div_mod_to_equations. lia.
Qed.

Lemma u32_to_bytes_bytes x : bytes (u32_to_bytes x).
Proof. repeat constructor; apply u8_range || apply Z.mod_pos_bound; lia. Qed.

(** The codec reads the big-endian value of the bytes, without loss up to the
    64 bits of the result. *)
Lemma bytes_to_ull_be_val x n :
  bytes x → (n <= length x)%nat → (n <= 8)%nat →
  bytes_to_ull x n = Some (be_val (take n x)).
Proof.
  intros Hb Hl Hn. apply wp_eq. unfold bytes_to_ull.
  apply (wp_for (λ i r, r = be_val (take i x) * 2 ^ (8 * (Z.of_nat n - Z.of_nat i)))).
  - done.
  - intros i r Hi ->. destruct (lookup_lt_is_Some_2 x i) as [b Hxi]; [lia |].
    rewrite Hxi. simpl. rewrite (take_S_r _ _ _ Hxi), be_val_snoc.
    assert (Hbb : in_u8 b) by (by eapply Forall_lookup_1). unfold in_u8 in Hbb.
    rewrite Z.shiftl_mul_pow2 by lia.
    set (k := 8 * (Z.of_nat n - 1 - Z.of_nat i)).
    assert (Hk : b * 2 ^ k < 2 ^ (8 + k)).
    { rewrite Z.pow_add_r by lia. assert (0 < 2 ^ k) by (apply Z.pow_pos_nonneg; lia). nia. }
    assert (0 <= b * 2 ^ k) by (apply Z.mul_nonneg_nonneg; [lia | apply Z.pow_nonneg; lia]).
    rewrite u64_small.
    + replace (8 * (Z.of_nat n - Z.of_nat i)) with (8 + k) by lia.
      rewrite lor_mul_pow2 by lia. rewrite Z.pow_add_r by lia.
      replace (8 * (Z.of_nat n - Z.of_nat (S i))) with k by lia. ring.
    + split; [done |]. eapply Z.lt_le_trans; [exact Hk |]. apply Z.pow_le_mono_r; lia.
  - intros r ->. rewrite Nat.add_0_l, Z.sub_diag, Z.mul_0_r. lia.
Qed.

(** ** Address algebra *)

Create HintDb addr.

Lemma is_addr_insert a i x : is_addr a → is_addr (<[i := x]> a).
Proof. unfold is_addr. by rewrite length_insert. Qed.
Lemma is_addr_put a off d :
  is_addr a → (off + length d <= SPX_ADDR_BYTES)%nat → is_addr (put a off d).
Proof. unfold is_addr. intros Ha Hd. rewrite length_put; lia. Qed.
Lemma is_addr_set_layer_addr a x : is_addr a → is_addr (set_layer_addr a x).
Proof. apply is_addr_insert. Qed.
Lemma is_addr_set_type a x : is_addr a → is_addr (set_type a x).
Proof. apply is_addr_insert. Qed.
Lemma is_addr_set_keypair_addr a x : is_addr a → is_addr (set_keypair_addr a x).
Proof. apply is_addr_insert. Qed.
Lemma is_addr_set_chain_addr a x : is_addr a → is_addr (set_chain_addr a x).
Proof. apply is_addr_insert. Qed.
Lemma is_addr_set_hash_addr a x : is_addr a → is_addr (set_hash_addr a x).
Proof. apply is_addr_insert. Qed.
Lemma is_addr_set_tree_height a x : is_addr a → is_addr (set_tree_height a x).
Proof. apply is_addr_insert. Qed.
Lemma is_addr_zero : is_addr zero_addr.
Proof. done. Qed.
Lemma is_addr_set_tree_addr a t : is_addr a → is_addr (set_tree_addr a t).
Proof. intros. apply is_addr_put; [done |]. rewrite length_ull_to_bytes. unfold SPX_ADDR_BYTES, SPX_OFFSET_TREE. lia. Qed.
Lemma is_addr_set_tree_index a t : is_addr a → is_addr (set_tree_index a t).
Proof. intros. apply is_addr_put; [done |]. unfold SPX_ADDR_BYTES, SPX_OFFSET_TREE_INDEX. simpl. lia. Qed.
Lemma is_addr_copy_subtree a b : is_addr a → is_addr (copy_subtree_addr a b).
Proof. intros. apply is_addr_put; [done |]. rewrite length_take. unfold SPX_ADDR_BYTES, SPX_OFFSET_TREE. lia. Qed.
Lemma is_addr_copy_keypair a b : is_addr a → is_addr (copy_keypair_addr a b).
Proof. intros. by apply is_addr_insert, is_addr_copy_subtree. Qed.
#[export] Hint Resolve is_addr_zero is_addr_set_tree_addr
  is_addr_set_tree_index is_addr_copy_subtree is_addr_copy_keypair : addr.
#[export] Hint Resolve is_addr_set_layer_addr is_addr_set_type is_addr_set_keypair_addr is_addr_set_chain_addr is_addr_set_hash_addr is_addr_set_tree_height : addr.

(** The address of node [i] of height [h] in the tree of base address [a]:
    what the tree routines pass to [thash]. *)
Definition tree_node_addr (a : list Z) (h i : Z) : list Z :=
  set_tree_index (set_tree_height a h) i.

Lemma is_addr_tree_node_addr a h i : is_addr a → is_addr (tree_node_addr a h i).
Proof. intros. unfold tree_node_addr. auto with addr. Qed.
#[export] Hint Resolve is_addr_tree_node_addr : addr.

Ltac solve_addr :=
  repeat match goal with H : is_addr ?a |- _ => destruct_addr a H end; reflexivity.

(** A node address overwrites the height and index left by an earlier one. *)
Lemma tree_node_addr_absorb a h i h' i' :
  is_addr a → tree_node_addr (tree_node_addr a h i) h' i' = tree_node_addr a h' i'.
Proof. intros Ha. solve_addr. Qed.
