(* ===== verification/SpxIface.v ===== *)
(** What the SPHINCS+ tree, WOTS, FORS and signing code requires of the hash
    instantiation it is linked with (hash.h, thash.h, context.h: "the hash
    function is defined by linking a different hash.c file").  [SpxHash] is the
    set of functions, [SpxHashLaws] the contract: each call is defined on
    well-sized arguments and returns a function of the public seed, the secret
    seed and the arguments only. *)
From S2P Require Import Prelude SpxAddress.

(** A C object has at most [PTRDIFF_MAX] bytes. *)
Definition msg_fits (m : list Z) : Prop := Z.of_nat (length m) < 2 ^ 63.

Class SpxHash := {
  spx_ctx : Type;
  (** A context whose [pub_seed] and [sk_seed] fields hold the arguments
      ([None]: never written), after [initialize_hash_function]. *)
  initialize_hash_function : list Z → option (list Z) → option spx_ctx;
  free_hash_function : spx_ctx → option spx_ctx;
  (** [thash(out, in, inblocks, ctx, addr)] *)
  thash : list Z → nat → spx_ctx → list Z → option (list Z);
  (** [prf_addr(out, ctx, addr)] *)
  prf_addr : spx_ctx → list Z → option (list Z);
  (** [gen_message_random(R, sk_prf, optrand, m, mlen, ctx)] *)
  gen_message_random : list Z → list Z → list Z → spx_ctx → option (list Z);
  (** [hash_message(digest, tree, leaf_idx, R, pk, m, mlen, ctx)] *)
  hash_message : list Z → list Z → list Z → spx_ctx → option (list Z * Z * Z);
}.

Class SpxHashLaws (H : SpxHash) := {
  (** The functions the calls compute. *)
  F_thash : list Z → list Z → list Z → list Z;
  F_prf : list Z → list Z → list Z → list Z;
  F_random : list Z → list Z → list Z → list Z;
  F_message : list Z → list Z → list Z → list Z * Z * Z;
  (** [ctx_rep ctx pub sk]: a live context for the two seeds. *)
  ctx_rep : spx_ctx → list Z → option (list Z) → Prop;
  initialize_ok pub sk :
    length pub = SPX_N → from_option (λ s, length s = SPX_N) True sk →
    wp (initialize_hash_function pub sk) (λ ctx, ctx_rep ctx pub sk);
  free_ok ctx pub sk : ctx_rep ctx pub sk → wp (free_hash_function ctx) (λ _, True);
  thash_ok ctx pub sk x n addr :
    ctx_rep ctx pub sk → (0 < n <= 64)%nat → length x = (n * SPX_N)%nat → is_addr addr →
    thash x n ctx addr = Some (F_thash pub x addr);
  prf_addr_ok ctx pub sk addr :
    ctx_rep ctx pub (Some sk) → is_addr addr →
    prf_addr ctx addr = Some (F_prf pub sk addr);
  gen_message_random_ok ctx pub sk sk_prf optrand m :
    ctx_rep ctx pub sk → length sk_prf = SPX_N → length optrand = SPX_N → msg_fits m →
    gen_message_random sk_prf optrand m ctx = Some (F_random sk_prf optrand m);
  hash_message_ok ctx pub sk R pk m :
    ctx_rep ctx pub sk → length R = SPX_N → length pk = SPX_PK_BYTES → msg_fits m →
    hash_message R pk m ctx = Some (F_message R pk m);
  length_F_thash pub x addr : length (F_thash pub x addr) = SPX_N;
  length_F_prf pub sk addr : length (F_prf pub sk addr) = SPX_N;
  length_F_random sk_prf optrand m : length (F_random sk_prf optrand m) = SPX_N;
  F_message_range R pk m :
    length (F_message R pk m).1.1 = SPX_FORS_MSG_BYTES ∧
    0 <= (F_message R pk m).1.2 < 2 ^ Z.of_nat (SPX_TREE_HEIGHT * (SPX_D - 1)) ∧
    0 <= (F_message R pk m).2 < 2 ^ Z.of_nat SPX_TREE_HEIGHT;
}.
Create HintDb spx.
#[export] Hint Resolve length_F_thash length_F_prf length_F_random : spx.
