(* ===== verification/SpxTree.v ===== *)
(** Merkle trees: [treehashx1] (utilsx1.c), [treehash] and [compute_root]
    (utils.c), against the tree of nodes they compute. *)
From S2P Require Import Prelude SpxAddress SpxIface.

Open Scope c_scope.

(** ** Model *)

Section model.
Context `{SpxHash} {U : Uninit}.

(** How one leaf's climb ends: at the root, or at a left child of height [h]. *)
Inductive climb :=
  | AtRoot (node : list Z)
  | AtLeft (h : nat) (node : list Z).

(** One iteration of the inner loop of [treehashx1], over [current[SPX_N..]],
    [internal_idx_offset], [internal_idx], [internal_leaf], [h], and the
    buffers it writes. *)
Definition treehashx1_climb_step (ctx : spx_ctx) (tree_height : nat) (idx max_idx : Z)
    (stack : list Z) (s : list Z * Z * Z * Z * nat * list Z * list Z)
    : option (ctl (list Z * Z * Z * Z * nat * list Z * list Z) (climb * list Z * list Z)) :=
  let '(current, internal_idx_offset, internal_idx, internal_leaf, h, auth_path, tree_addr) := s in
  if decide (h = tree_height) then Some (Done (AtRoot current, auth_path, tree_addr)) else
  auth_path ← (if Z.lxor internal_idx internal_leaf =? 1
               then write auth_path (h * SPX_N) current else Some auth_path);
  if (Z.land internal_idx 1 =? 0) && (idx <? max_idx)
  then Some (Done (AtLeft h current, auth_path, tree_addr))
  else
    let internal_idx_offset := internal_idx_offset >> 1 in
    let tree_addr := set_tree_height tree_addr (Z.of_nat h + 1) in
    let tree_addr := set_tree_index tree_addr (internal_idx / 2 +₃₂ internal_idx_offset) in
    left ← read stack (h * SPX_N) SPX_N;
    current ← thash (left ++ current) 2 ctx tree_addr;
    Some (Next (current, internal_idx_offset, internal_idx >> 1, internal_leaf >> 1,
                S h, auth_path, tree_addr)).

(** One iteration of the outer loop: generate leaf [idx], then climb. *)
Definition treehashx1_step {info : Type} (ctx : spx_ctx) (leaf_idx idx_offset : Z)
    (tree_height : nat) (gen_leaf : spx_ctx → Z → info → option (list Z * info))
    (s : Z * list Z * list Z * info * list Z)
    : option (ctl (Z * list Z * list Z * info * list Z) (list Z * list Z * list Z * info)) :=
  let '(idx, auth_path, tree_addr, inf, stack) := s in
  let max_idx := u32 (Z.shiftl 1 (Z.of_nat tree_height) - 1) in
  '(leaf, inf) ← gen_leaf ctx (idx +₃₂ idx_offset) inf;
  '(c, auth_path, tree_addr) ←
     loop (S tree_height) (treehashx1_climb_step ctx tree_height idx max_idx stack)
       (leaf, idx_offset, idx, leaf_idx, 0%nat, auth_path, tree_addr);
  match c with
  | AtRoot root => Some (Done (root, auth_path, tree_addr, inf))
  | AtLeft h node =>
      stack ← write stack (h * SPX_N) node;
      Some (Next (idx +₃₂ 1, auth_path, tree_addr, inf, stack))
  end.

(** [treehashx1]: the root, and the updated [auth_path], [tree_addr] and [info]. *)
Definition treehashx1 {info : Type} (auth_path : list Z) (ctx : spx_ctx)
    (leaf_idx idx_offset : Z) (tree_height : nat)
    (gen_leaf : spx_ctx → Z → info → option (list Z * info)) (tree_addr : list Z) (inf : info)
    : option (list Z * list Z * list Z * info) :=
  loop (2 ^ tree_height) (treehashx1_step ctx leaf_idx idx_offset tree_height gen_leaf)
    (0, auth_path, tree_addr, inf, uninit (tree_height * SPX_N)).

(** [compute_root]: the state is [(leaf_idx, idx_offset, buffer, auth_path
    position, addr)]; the loop runs [tree_height - 1] times (an unsigned
    subtraction) and the last level is hashed without reading the path. *)
Definition compute_root_step (auth_path : list Z) (ctx : spx_ctx) (i : nat)
    (s : Z * Z * list Z * list Z) : option (Z * Z * list Z * list Z) :=
  let '(leaf_idx, idx_offset, buffer, addr) := s in
  let leaf_idx := leaf_idx >> 1 in
  let idx_offset := idx_offset >> 1 in
  let addr := set_tree_height addr (Z.of_nat i + 1) in
  let addr := set_tree_index addr (leaf_idx +₃₂ idx_offset) in
  node ← thash buffer 2 ctx addr;
  sibling ← read auth_path ((i + 1) * SPX_N) SPX_N;
  let buffer := if Z.land leaf_idx 1 =? 0 then node ++ sibling else sibling ++ node in
  Some (leaf_idx, idx_offset, buffer, addr).

Definition compute_root (leaf : list Z) (leaf_idx idx_offset : Z) (auth_path : list Z)
    (tree_height : nat) (ctx : spx_ctx) (addr : list Z) : option (list Z * list Z) :=
  sibling ← read auth_path 0 SPX_N;
  let buffer := if Z.land leaf_idx 1 =? 0 then leaf ++ sibling else sibling ++ leaf in
  '(leaf_idx, idx_offset, buffer, addr) ←
     for_loop (Z.to_nat (Z.of_nat tree_height -₃₂ 1)) 0 (compute_root_step auth_path ctx)
       (leaf_idx, idx_offset, buffer, addr);
  let leaf_idx := leaf_idx >> 1 in
  let idx_offset := idx_offset >> 1 in
  let addr := set_tree_height addr (Z.of_nat tree_height) in
  let addr := set_tree_index addr (leaf_idx +₃₂ idx_offset) in
  root ← thash buffer 2 ctx addr;
  Some (root, addr).

End model.

(** ** The tree *)

Section tree.
Context {H : SpxHash} {L : SpxHashLaws H}.

(** Node [i] of height [h] of the tree over [leaf], hashed with the addresses
    of base [base] and index offset [off]. *)
Fixpoint merkle_node (pub : list Z) (leaf : Z → list Z) (base : list Z) (off : Z)
    (h : nat) (i : Z) : list Z :=
  match h with
  | O => leaf i
  | S h' =>
      F_thash pub (merkle_node pub leaf base off h' (2 * i) ++
                   merkle_node pub leaf base off h' (2 * i + 1))
        (tree_node_addr base (Z.of_nat h) (u32 (i + off / 2 ^ Z.of_nat h)))
  end.

Lemma length_merkle_node pub leaf base off h i :
  (∀ j, length (leaf j) = SPX_N) → length (merkle_node pub leaf base off h i) = SPX_N.
Proof. intros. destruct h; simpl; auto with spx. Qed.

(** The sibling of the node of height [h] on the path of [leaf_idx]. *)
Definition sibling (leaf_idx : Z) (h : nat) : Z := Z.lxor (leaf_idx / 2 ^ Z.of_nat h) 1.

Lemma lxor_1_eq a b : Z.lxor a b = 1 ↔ a = Z.lxor b 1.
Proof.
  split; [intros <- | intros ->].
  - by rewrite (Z.lxor_comm a), <-Z.lxor_assoc, Z.lxor_nilpotent, Z.lxor_0_l.
  - by rewrite (Z.lxor_comm b), Z.lxor_assoc, Z.lxor_nilpotent, Z.lxor_0_r.
Qed.

Lemma lxor_1_parity x : Z.lxor x 1 = if Z.land x 1 =? 0 then x + 1 else x - 1.
Proof.
  rewrite land_1. destruct (Z.eqb_spec (x mod 2) 0) as [Hx|Hx].
  - rewrite <-Z.add_nocarry_lxor; [done |]. by rewrite land_1.
  - replace x with (x - 1 + 1) at 1 by lia.
    rewrite (Z.add_nocarry_lxor (x - 1)).
    + by rewrite Z.lxor_assoc, Z.lxor_nilpotent, Z.lxor_0_r.
    + rewrite land_1. apply Z.mod_divide; [lia |].
      exists (x / 2). pose proof (Z.div_mod x 2). pose proof (Z.mod_pos_bound x 2). lia.
Qed.

Lemma sibling_nonneg leaf_idx h : 0 <= leaf_idx → 0 <= sibling leaf_idx h.
Proof.
  intros Hl. unfold sibling. apply Z.lxor_nonneg. pose proof (pow2_pos h).
  split; [lia |]. intros _. by apply Z.div_pos.
Qed.

(** No sibling lies beyond the last node of its height. *)
Lemma sibling_last leaf_idx h ht :
  0 <= leaf_idx < 2 ^ Z.of_nat ht → (h < ht)%nat →
  sibling leaf_idx h <= (2 ^ Z.of_nat ht - 1) / 2 ^ Z.of_nat h.
Proof.
  intros Hl Hh. unfold sibling. pose proof (pow2_pos h) as Hp.
  assert (Hs : 2 ^ Z.of_nat ht = 2 * 2 ^ Z.of_nat (ht - 1 - h) * 2 ^ Z.of_nat h).
  { rewrite <-pow2_S, <-Z.pow_add_r by lia. f_equal. lia. }
  rewrite Hs in *. set (k := 2 ^ Z.of_nat (ht - 1 - h)) in *.
  assert (Hq : (2 * k * 2 ^ Z.of_nat h - 1) / 2 ^ Z.of_nat h = 2 * k - 1).
  { symmetry. apply (Z.div_unique _ _ _ (2 ^ Z.of_nat h - 1)); lia. }
  assert (leaf_idx / 2 ^ Z.of_nat h < 2 * k) by (apply Z.div_lt_upper_bound; lia).
  rewrite Hq, lxor_1_parity, land_1.
  pose proof (Z.div_mod (leaf_idx / 2 ^ Z.of_nat h) 2).
  destruct (Z.eqb_spec ((leaf_idx / 2 ^ Z.of_nat h) mod 2) 0); lia.
Qed.

(** ** Addresses up to the tree height and index *)

Definition addr_sim (a b : list Z) : Prop :=
  is_addr a ∧ is_addr b ∧ take 17 a = take 17 b ∧ drop 22 a = drop 22 b.

Lemma addr_sim_refl a : is_addr a → addr_sim a a.
Proof. done. Qed.

#[global] Instance addr_sim_per : RelationClasses.PER addr_sim.
Proof.
  split.
  - by intros a b (? & ? & ? & ?).
  - intros a b c (? & ? & ? & ?) (? & ? & ? & ?). repeat split; try done; congruence.
Qed.

Lemma tree_node_addr_split a h i : is_addr a →
  tree_node_addr a h i = take 17 a ++ [u8 h] ++ u32_to_bytes i ++ drop 22 a.
Proof. intros Ha. solve_addr. Qed.

(** Similar addresses give one node address, itself similar to both. *)
Lemma tree_node_addr_sim a b h i :
  addr_sim a b → tree_node_addr a h i = tree_node_addr b h i ∧ addr_sim (tree_node_addr a h i) b.
Proof.
  intros (Ha & Hb & Ht & Hd). rewrite !tree_node_addr_split by done. rewrite Ht, Hd.
  split; [done |]. rewrite <-tree_node_addr_split by done.
  repeat split; auto with addr; clear Ha Ht Hd; solve_addr.
Qed.

(** ** [compute_root] *)

Section compute_root.
Context (ctx : spx_ctx) (pub : list Z) (sk : option (list Z)) (Hctx : ctx_rep ctx pub sk).
Context (leaf : Z → list Z) (Hleaf : ∀ j, length (leaf j) = SPX_N).
Context (base : list Z) (off : Z).
Local Abbreviation node := (merkle_node pub leaf base off).

(** The hash input for the parent of the [h]-th node of a path. *)
Lemma children_of_path h x :
  (if Z.land x 1 =? 0 then node h x ++ node h (Z.lxor x 1)
   else node h (Z.lxor x 1) ++ node h x) = node h (2 * (x / 2)) ++ node h (2 * (x / 2) + 1).
Proof.
  rewrite lxor_1_parity, !land_1. pose proof (Z.div_mod x 2). pose proof (Z.mod_pos_bound x 2).
  destruct (Z.eqb_spec (x mod 2) 0); do 2 f_equal; lia.
Qed.

(** One parent, hashed under the address the tree routines set up. *)
Lemma thash_node h i a :
  addr_sim a base →
  thash (node h (2 * i) ++ node h (2 * i + 1)) 2 ctx
    (tree_node_addr a (Z.of_nat (S h)) (u32 (i + off / 2 ^ Z.of_nat (S h)))) = Some (node (S h) i).
Proof.
  intros Ha. destruct (tree_node_addr_sim _ _ (Z.of_nat (S h)) (u32 (i + off / 2 ^ Z.of_nat (S h))) Ha)
    as [Heq (Hw & _)].
  erewrite thash_ok; [by simpl; rewrite Heq | done | lia | | done].
  by rewrite length_app, !length_merkle_node.
Qed.

Lemma shiftr1_div x n : Z.shiftr (x / 2 ^ Z.of_nat n) 1 = x / 2 ^ Z.of_nat (S n).
Proof. by rewrite div_pow2_S, Z.shiftr_div_pow2. Qed.

Lemma wp_compute_root leaf_idx auth_path tree_height addr :
  addr_sim addr base → (1 <= tree_height)%nat → Z.of_nat tree_height < 2 ^ 32 →
  0 <= leaf_idx < 2 ^ Z.of_nat tree_height →
  (tree_height * SPX_N <= length auth_path)%nat →
  (∀ h, (h < tree_height)%nat → slot SPX_N auth_path h = node h (sibling leaf_idx h)) →
  wp (compute_root (leaf leaf_idx) leaf_idx off auth_path tree_height ctx addr)
     (λ '(root, addr'), root = node tree_height 0 ∧ addr_sim addr' base).
Proof.
  intros Haddr Hh1 Hh2 Hidx Hlen Hauth. unfold compute_root.
  assert (Hread : ∀ i, (i < tree_height)%nat →
    read auth_path (i * SPX_N) SPX_N = Some (node i (sibling leaf_idx i))).
  { intros i Hi. rewrite read_slot by (unfold SPX_N in *; lia). by rewrite Hauth. }
  change (read auth_path 0 SPX_N) with (read auth_path (0 * SPX_N) SPX_N).
  rewrite Hread by lia. simpl.
  eapply wp_then with (P := λ '(x, o, buf, a),
    x = leaf_idx / 2 ^ Z.of_nat (tree_height - 1) ∧ o = off / 2 ^ Z.of_nat (tree_height - 1) ∧
    buf = node (tree_height - 1) (2 * (x / 2)) ++ node (tree_height - 1) (2 * (x / 2) + 1) ∧
    addr_sim a base).
  - apply (wp_for (λ i '(x, o, buf, a), x = leaf_idx / 2 ^ Z.of_nat i ∧ o = off / 2 ^ Z.of_nat i ∧
      buf = node i (2 * (x / 2)) ++ node i (2 * (x / 2) + 1) ∧ addr_sim a base)).
    + rewrite Z.pow_0_r, !Z.div_1_r. split; [done |]. split; [done |]. split; [| done].
      unfold sibling. rewrite Z.pow_0_r, Z.div_1_r. apply (children_of_path 0).
    + intros i [[[x o] buf] a] Hi (-> & -> & -> & Ha). rewrite u32_small in Hi by (unfold in_u32; lia).
      unfold compute_root_step. rewrite !shiftr1_div, <-div_pow2_S.
      replace (Z.of_nat i + 1) with (Z.of_nat (S i)) by lia.
      pose proof (thash_node i (leaf_idx / 2 ^ Z.of_nat (S i)) a Ha) as Ht.
      unfold tree_node_addr in Ht. rewrite Ht. simpl.
      rewrite Nat.add_1_r, (Hread (S i)) by lia. simpl.
      split; [done |]. split; [done |]. split; [apply (children_of_path (S i)) |].
      by apply tree_node_addr_sim.
    + intros [[[x o] buf] a]. rewrite u32_small by (unfold in_u32; lia).
      by replace (0 + Z.to_nat (Z.of_nat tree_height - 1))%nat with (tree_height - 1)%nat by lia.
  - intros [[[x o] buf] a] (-> & -> & -> & Ha). rewrite !shiftr1_div, <-div_pow2_S.
    replace (S (tree_height - 1)) with tree_height by lia.
    pose proof (thash_node (tree_height - 1) (leaf_idx / 2 ^ Z.of_nat tree_height) a Ha) as Ht.
    replace (S (tree_height - 1)) with tree_height in Ht by lia.
    unfold tree_node_addr in Ht. rewrite Ht. simpl.
    rewrite Z.div_small by lia. split; [done | by apply tree_node_addr_sim].
Qed.
End compute_root.

(** ** [treehashx1] *)

Section treehash.
Context {U : Uninit}.
Context (ctx : spx_ctx) (pub : list Z) (sk : option (list Z)) (Hctx : ctx_rep ctx pub sk).
Context (leaf : Z → list Z) (Hleaf : ∀ j, length (leaf j) = SPX_N).
Context (base : list Z) (off leaf_idx : Z) (ht alen : nat).
Local Abbreviation node := (merkle_node pub leaf base off).

(** After the nodes with index below [k / 2^g] of every height [g], and those
    of index [k / 2^g] for [g < h]: the part of the authentication path among
    them is in place. *)
Definition auth_inv (k : Z) (h : nat) (auth : list Z) : Prop :=
  length auth = alen ∧
  ∀ g, (g < ht)%nat →
    sibling leaf_idx g < k / 2 ^ Z.of_nat g ∨ (g < h)%nat ∧ sibling leaf_idx g = k / 2 ^ Z.of_nat g →
    slot SPX_N auth g = node g (sibling leaf_idx g).

(** Before leaf [idx]: the stack holds the left siblings waiting for their
    right neighbours, one for every bit set in [idx]. *)
Definition stack_inv (idx : Z) (stack : list Z) : Prop :=
  length stack = (ht * SPX_N)%nat ∧
  ∀ g, (g < ht)%nat → (idx / 2 ^ Z.of_nat g) mod 2 = 1 →
    slot SPX_N stack g = node g (idx / 2 ^ Z.of_nat g - 1).

Lemma auth_inv_step k h auth :
  (h < ht)%nat → auth_inv k h auth → (ht * SPX_N <= alen)%nat →
  wp (if Z.lxor (k / 2 ^ Z.of_nat h) (leaf_idx / 2 ^ Z.of_nat h) =? 1
      then write auth (h * SPX_N) (node h (k / 2 ^ Z.of_nat h)) else Some auth)
     (auth_inv k (S h)).
Proof.
  intros Hh [Hl Ha] Hlen. destruct (Z.eqb_spec (Z.lxor (k / 2 ^ Z.of_nat h) (leaf_idx / 2 ^ Z.of_nat h)) 1)
    as [Hx|Hx]; rewrite lxor_1_eq in Hx; fold (sibling leaf_idx h) in Hx.
  - eapply wp_mono; [apply (wp_write_slot SPX_N) |].
    + by apply length_merkle_node.
    + unfold SPX_N in *. lia.
    + intros b (Hlb & Hs & Ho). split; [lia |]. intros g Hg Hc.
      destruct (decide (g = h)) as [->|Hne]; [by rewrite Hs, Hx |].
      rewrite Ho by done. apply Ha; [done |]. destruct Hc as [?|[? ?]]; [by left | right; split; [lia | done]].
  - simpl. split; [done |]. intros g Hg [Hc|[Hc1 Hc2]]; apply Ha; try done; [by left |].
    right. split; [| done]. destruct (decide (g = h)) as [->|]; [| lia]. by rewrite Hc2 in Hx.
Qed.

(** The climb from leaf [idx]. *)
Lemma wp_climb idx stack auth addr :
  0 <= idx < 2 ^ Z.of_nat ht → (ht * SPX_N <= alen)%nat →
  stack_inv idx stack → auth_inv idx 0 auth → addr_sim addr base →
  wp (loop (S ht) (treehashx1_climb_step ctx ht idx (2 ^ Z.of_nat ht - 1) stack)
       (leaf idx, off, idx, leaf_idx, 0%nat, auth, addr))
     (λ '(c, auth', addr'), addr_sim addr' base ∧
        match c with
        | AtRoot root => idx = 2 ^ Z.of_nat ht - 1 ∧ root = node ht 0 ∧ auth_inv idx ht auth'
        | AtLeft h cur => (h < ht)%nat ∧ idx < 2 ^ Z.of_nat ht - 1 ∧
            (idx + 1) mod 2 ^ Z.of_nat h = 0 ∧ (idx / 2 ^ Z.of_nat h) mod 2 = 0 ∧
            cur = node h (idx / 2 ^ Z.of_nat h) ∧ auth_inv idx (S h) auth'
        end).
Proof.
  intros Hidx Hlen [Hls Hs] Ha0 Haddr.
  apply (wp_loop (λ k '(cur, o, x, l, h, auth, a),
    (h <= ht)%nat ∧ k = S (ht - h) ∧ cur = node h (idx / 2 ^ Z.of_nat h) ∧
    o = off / 2 ^ Z.of_nat h ∧ x = idx / 2 ^ Z.of_nat h ∧ l = leaf_idx / 2 ^ Z.of_nat h ∧
    (idx + 1) mod 2 ^ Z.of_nat h = 0 ∧ auth_inv idx h auth ∧ addr_sim a base)).
  - rewrite Z.pow_0_r, !Z.div_1_r, Z.mod_1_r. split_and!; done || lia.
  - clear auth addr Ha0 Haddr.
    intros k [[[[[[cur o] x] l] h] auth] a] (Hh & -> & -> & -> & -> & -> & Hm & Ha & Haddr).
    exists (ht - h)%nat. split; [done |]. unfold treehashx1_climb_step.
    destruct (decide (h = ht)) as [->|Hne].
    { simpl. assert (Hd : idx / 2 ^ Z.of_nat ht = 0) by (by apply Z.div_small).
      pose proof (div_succ_eq _ _ (pow2_pos ht) Hm) as Hq. rewrite Hd in *.
      split_and!; try done. pose proof (Z.div_mod (idx + 1) (2 ^ Z.of_nat ht)).
      pose proof (pow2_pos ht). lia. }
    eapply wp_then; [apply auth_inv_step; [lia | done | done] |].
    intros auth' Ha'. rewrite land_1.
    destruct (Z.eqb_spec ((idx / 2 ^ Z.of_nat h) mod 2) 0) as [He|He]; simpl.
    + destruct (Z.ltb_spec idx (2 ^ Z.of_nat ht - 1)) as [Hlt|Hge]; simpl.
      * split_and!; done || lia.
      * exfalso. pose proof (div_succ_gt idx ht h Hm He ltac:(lia)) as Hq.
        replace (idx + 1) with (2 ^ Z.of_nat ht) in Hq by lia.
        rewrite Z.div_same, Z.div_small in Hq; [done | done |]. pose proof (pow2_pos ht). lia.
    + assert (Ho : (idx / 2 ^ Z.of_nat h) mod 2 = 1)
        by (pose proof (Z.mod_pos_bound (idx / 2 ^ Z.of_nat h) 2); lia).
      rewrite read_slot, (Hs h) by (done || (unfold SPX_N in *; lia)). simpl.
      rewrite !shiftr1_div, <-div_pow2_S.
      replace (Z.of_nat h + 1) with (Z.of_nat (S h)) by lia.
      pose proof (thash_node ctx pub sk Hctx leaf Hleaf base off h (idx / 2 ^ Z.of_nat (S h)) a Haddr) as Ht.
      unfold tree_node_addr in Ht. rewrite div_pow2_S in Ht at 1 2.
      pose proof (Z.div_mod (idx / 2 ^ Z.of_nat h) 2) as Hd.
      replace (2 * (idx / 2 ^ Z.of_nat h / 2) + 1) with (idx / 2 ^ Z.of_nat h) in Ht by lia.
      replace (2 * (idx / 2 ^ Z.of_nat h / 2)) with (idx / 2 ^ Z.of_nat h - 1) in Ht by lia.
      rewrite Ht. simpl. split_and!; try done || lia.
      * by apply succ_mod_pow2_S.
      * by apply tree_node_addr_sim.
Qed.

(** A climb that ends at a left child of height [h] leaves the invariants of
    the next leaf. *)
Lemma auth_inv_succ idx h auth :
  (idx + 1) mod 2 ^ Z.of_nat h = 0 → (idx / 2 ^ Z.of_nat h) mod 2 = 0 →
  auth_inv idx (S h) auth → auth_inv (idx + 1) 0 auth.
Proof.
  intros Hm He [Hl Ha]. split; [done |]. intros g Hg [Hc|[Hc _]]; [| lia]. apply Ha; [done |].
  destruct (decide (g <= h)%nat).
  - rewrite (div_succ_le _ _ h) in Hc by done.
    destruct (decide (sibling leaf_idx g = idx / 2 ^ Z.of_nat g)); [right; split; [lia | done] | left; lia].
  - rewrite (div_succ_gt _ _ h) in Hc by (done || lia). by left.
Qed.

Lemma wp_stack_push idx h stack :
  (h < ht)%nat → (idx + 1) mod 2 ^ Z.of_nat h = 0 → (idx / 2 ^ Z.of_nat h) mod 2 = 0 →
  stack_inv idx stack →
  wp (write stack (h * SPX_N) (node h (idx / 2 ^ Z.of_nat h))) (stack_inv (idx + 1)).
Proof.
  intros Hh Hm He [Hl Hs]. eapply wp_mono; [apply (wp_write_slot SPX_N) |].
  - by apply length_merkle_node.
  - unfold SPX_N in *. lia.
  - intros b (Hlb & Heq & Ho). split; [lia |]. intros g Hg Hb.
    destruct (decide (g = h)) as [->|Hne].
    + rewrite Heq, (div_succ_le _ _ h) by done. f_equal. lia.
    + rewrite Ho by done. destruct (decide (g < h)%nat).
      * exfalso. assert (Hc : (idx + 1) mod 2 ^ Z.of_nat (S g) = 0) by (apply (mod_pow2_mono _ _ h); done || lia).
        pose proof (div_succ_eq _ _ (pow2_pos (S g)) Hc) as Hq.
        rewrite succ_mod_pow2_S in Hc by (apply (mod_pow2_mono _ _ h); done || lia).
        rewrite (div_succ_le _ _ h) in Hb by (done || lia).
        rewrite Z.add_mod, Hc in Hb by lia. done.
      * rewrite (div_succ_gt _ _ h) in Hb |- * by (done || lia). by apply Hs.
Qed.

(** [treehashx1] computes the root, and for an existing leaf its
    authentication path, leaving the address unchanged up to height and index.
    [J idx] is what the leaf generator needs of its state before leaf [idx]. *)
Lemma wp_treehashx1 {info : Type} (gen_leaf : spx_ctx → Z → info → option (list Z * info))
    (J : Z → info → Prop) auth inf addr :
  (ht < 32)%nat → 0 <= off → off + 2 ^ Z.of_nat ht <= 2 ^ 32 →
  length auth = alen → (ht * SPX_N <= alen)%nat → 0 <= leaf_idx → addr_sim addr base → J 0 inf →
  (∀ idx inf, 0 <= idx < 2 ^ Z.of_nat ht → J idx inf →
     wp (gen_leaf ctx (idx + off) inf) (λ '(l, inf'), l = leaf idx ∧ J (idx + 1) inf')) →
  wp (treehashx1 auth ctx leaf_idx off ht gen_leaf addr inf)
     (λ '(root, auth', addr', inf'),
        root = node ht 0 ∧ length auth' = alen ∧ addr_sim addr' base ∧ J (2 ^ Z.of_nat ht) inf' ∧
        (leaf_idx < 2 ^ Z.of_nat ht →
         ∀ h, (h < ht)%nat → slot SPX_N auth' h = node h (sibling leaf_idx h))).
Proof.
  intros Hht Hoff Hoff2 Hla Hlen Hl0 Haddr HJ Hgen. unfold treehashx1.
  pose proof (pow2_pos ht) as Hp.
  assert (Hp32 : 2 ^ Z.of_nat ht < 2 ^ 32) by (apply Z.pow_lt_mono_r; lia).
  apply (wp_loop (λ k '(idx, auth, a, inf, stack), Z.of_nat k = 2 ^ Z.of_nat ht - idx ∧
    0 <= idx < 2 ^ Z.of_nat ht ∧ auth_inv idx 0 auth ∧ addr_sim a base ∧ J idx inf ∧ stack_inv idx stack)).
  { split_and!; try done || lia.
    - rewrite Nat2Z.inj_pow. lia.
    - split; [done |]. intros g Hg. rewrite Z.div_0_l by (pose proof (pow2_pos g); lia).
      pose proof (sibling_nonneg leaf_idx g). lia.
    - split; [apply length_uninit |].
      intros g Hg. rewrite Z.div_0_l by (pose proof (pow2_pos g); lia). done. }
  clear auth addr inf Hla Haddr HJ.
  intros k [[[[idx auth] a] inf] stack] (Hk & Hidx & Ha & Haddr & HJ & Hst).
  exists (k - 1)%nat. split; [lia |]. unfold treehashx1_step.
  rewrite Z.shiftl_1_l, (u32_small (idx + off)), (u32_small (2 ^ Z.of_nat ht - 1))
    by (unfold in_u32; lia).
  eapply wp_then; [by apply Hgen |]. intros [l inf'] [-> HJ'].
  eapply wp_then; [by apply wp_climb |].
  intros [[c auth'] a'] [Haddr' Hc]. destruct c as [root|h cur].
  - destruct Hc as (Hi & -> & Hal & Hau). simpl. split_and!; try done.
    + by replace (2 ^ Z.of_nat ht) with (idx + 1) by lia.
    + intros Hlt h Hh. apply Hau; [done |].
      pose proof (sibling_last leaf_idx h ht). rewrite Hi. lia.
  - destruct Hc as (Hh & Hi & Hm & He & -> & Hau).
    eapply wp_then; [by apply wp_stack_push |]. intros stack' Hst'. simpl.
    rewrite u32_small by (unfold in_u32; lia). split_and!; try done || lia.
    by eapply auth_inv_succ.
Qed.
End treehash.
End tree.
