(* ===== verification/SpxWots.v ===== *)
(** WOTS+ one-time signatures: wots.c (chain lengths, checksum, public key from
    a signature) and wotsx1.c (leaf and signature generation). *)
From S2P Require Import Prelude SpxAddress SpxIface SpxTree.

Open Scope c_scope.

(** ** Model *)

(** One iteration of [base_w], over [(in, total, bits, output)]. *)
Definition base_w_step (input : list Z) (_ : nat) (s : nat * Z * Z * list Z)
    : option (nat * Z * Z * list Z) :=
  let '(inp, total, bits, output) := s in
  '(inp, total, bits) ←
    (if bits =? 0 then total ← input !! inp; Some (S inp, total, bits + 8)
     else Some (inp, total, bits));
  let bits := bits - Z.of_nat SPX_WOTS_LOGW in
  Some (inp, total, bits, output ++ [Z.land (total >> bits) (SPX_WOTS_W - 1)]).

Definition base_w (out_len : nat) (input : list Z) : option (list Z) :=
  '(_, _, _, output) ← for_loop out_len 0 (base_w_step input) (0%nat, 0, 0, []);
  Some output.

Definition wots_checksum (msg_base_w : list Z) : option (list Z) :=
  csum ← for_loop SPX_WOTS_LEN1 0 (λ i csum,
           x ← msg_base_w !! i; Some (csum +₃₂ (SPX_WOTS_W - 1 - x))) 0;
  let csum := csum <<₃₂ ((8 - (Z.of_nat (SPX_WOTS_LEN2 * SPX_WOTS_LOGW) mod 8)) mod 8) in
  let csum_bytes := ull_to_bytes ((SPX_WOTS_LEN2 * SPX_WOTS_LOGW + 7) / 8) csum in
  base_w SPX_WOTS_LEN2 csum_bytes.

(** The message digits followed by the checksum digits. *)
Definition chain_lengths (msg : list Z) : option (list Z) :=
  lengths ← base_w SPX_WOTS_LEN1 msg;
  csum ← wots_checksum lengths;
  Some (lengths ++ csum).

(** [info] of [wots_gen_leafx1]: [struct leaf_info_x1], [wots_sig] being the
    buffer the field points to. *)
Record leaf_info_x1 := {
  wots_sig : list Z;
  wots_sign_leaf : Z;
  wots_steps : list Z;
  leaf_addr : list Z;
  pk_addr : list Z;
}.

Section model.
Context `{SpxHash} {U : Uninit}.

(** The loop runs while [i < start + steps] and [i < SPX_WOTS_W]. *)
Definition gen_chain (inp : list Z) (start steps : Z) (ctx : spx_ctx) (addr : list Z)
    : option (list Z * list Z) :=
  for_loop (Z.to_nat (Z.min (start +₃₂ steps) SPX_WOTS_W - start)) (Z.to_nat start)
    (λ i '(out, addr),
      let addr := set_hash_addr addr (Z.of_nat i) in
      out ← thash out 1 ctx addr;
      Some (out, addr)) (inp, addr).

(** [wots_pk_from_sig]: the updated [pk] and [addr]. *)
Definition wots_pk_from_sig (pk sig msg : list Z) (ctx : spx_ctx) (addr : list Z)
    : option (list Z * list Z) :=
  lengths ← chain_lengths msg;
  for_loop SPX_WOTS_LEN 0 (λ i '(pk, addr),
    let addr := set_chain_addr addr (Z.of_nat i) in
    inp ← read sig (i * SPX_N) SPX_N;
    len ← lengths !! i;
    '(out, addr) ← gen_chain inp len (SPX_WOTS_W - 1 -₃₂ len) ctx addr;
    pk ← write pk (i * SPX_N) out;
    Some (pk, addr)) (pk, addr).

(** The chain loop of [wots_gen_leafx1] for chain [i]: [(k, buffer, wots_sig,
    leaf_addr)]. *)
Definition wots_chain_step (ctx : spx_ctx) (i : nat) (wots_k : Z)
    (s : Z * list Z * list Z * list Z)
    : option (ctl (Z * list Z * list Z * list Z) (list Z * list Z * list Z)) :=
  let '(k, buffer, sig, addr) := s in
  sig ← (if k =? wots_k then write sig (i * SPX_N) buffer else Some sig);
  if k =? SPX_WOTS_W - 1 then Some (Done (buffer, sig, addr)) else
  let addr := set_hash_addr addr k in
  buffer ← thash buffer 1 ctx addr;
  Some (Next (k +₃₂ 1, buffer, sig, addr)).

(** One chain of [wots_gen_leafx1], over [(pk_buffer, wots_sig, leaf_addr)]. *)
Definition wots_gen_leafx1_chain (ctx : spx_ctx) (steps : list Z) (wots_k_mask : Z) (i : nat)
    (s : list Z * list Z * list Z) : option (list Z * list Z * list Z) :=
  let '(pk_buffer, sig, addr) := s in
  step ← steps !! i;
  let wots_k := Z.lor step wots_k_mask in
  let addr := set_chain_addr addr (Z.of_nat i) in
  let addr := set_hash_addr addr 0 in
  let addr := set_type addr SPX_ADDR_TYPE_WOTSPRF in
  buffer ← prf_addr ctx addr;
  let addr := set_type addr SPX_ADDR_TYPE_WOTS in
  '(buffer, sig, addr) ← loop (Z.to_nat SPX_WOTS_W) (wots_chain_step ctx i wots_k) (0, buffer, sig, addr);
  pk_buffer ← write pk_buffer (i * SPX_N) buffer;
  Some (pk_buffer, sig, addr).

(** The public key of leaf [leaf_idx]; its signature too when it is the
    signing leaf. *)
Definition wots_gen_leafx1 (ctx : spx_ctx) (leaf_idx : Z) (info : leaf_info_x1)
    : option (list Z * leaf_info_x1) :=
  let wots_k_mask := if leaf_idx =? wots_sign_leaf info then 0 else u32 (Z.lnot 0) in
  let laddr := set_keypair_addr (leaf_addr info) leaf_idx in
  let paddr := set_keypair_addr (pk_addr info) leaf_idx in
  '(pk_buffer, sig, laddr) ←
    for_loop SPX_WOTS_LEN 0 (wots_gen_leafx1_chain ctx (wots_steps info) wots_k_mask)
      (uninit SPX_WOTS_BYTES, wots_sig info, laddr);
  dest ← thash pk_buffer SPX_WOTS_LEN ctx paddr;
  Some (dest, {| wots_sig := sig; wots_sign_leaf := wots_sign_leaf info;
                 wots_steps := wots_steps info; leaf_addr := laddr; pk_addr := paddr |}).

End model.

(** ** Chain lengths *)

(** The digits of a byte string, most significant first. *)
Definition nibbles (msg : list Z) : list Z := msg ≫= λ b, [Z.land (b >> 4) 15; Z.land (b >> 0) 15].

Lemma length_nibbles msg : length (nibbles msg) = (2 * length msg)%nat.
Proof.
  induction msg as [|b msg IH]; [done |]. unfold nibbles in *. cbn -[Nat.mul] in *. rewrite IH. lia.
Qed.

Lemma lookup_nibbles msg j b : msg !! j = Some b →
  nibbles msg !! (2 * j)%nat = Some (Z.land (b >> 4) 15) ∧
  nibbles msg !! S (2 * j) = Some (Z.land (b >> 0) 15).
Proof.
  revert j. induction msg as [|c msg IH]; intros j Hj; [done |]. destruct j as [|j].
  - injection Hj as ->. done.
  - replace (2 * S j)%nat with (S (S (2 * j))) by lia. apply IH, Hj.
Qed.

Lemma base_w_nibbles msg out_len :
  (out_len <= 2 * length msg)%nat → base_w out_len msg = Some (take out_len (nibbles msg)).
Proof.
  intros Hlen. unfold base_w. apply wp_eq. eapply wp_then with
    (P := λ '(_, _, _, output), output = take out_len (nibbles msg)).
  2: { intros [[[inp total] bits] output] ->. done. }
  apply (wp_for (λ i '(inp, total, bits, output), output = take i (nibbles msg) ∧
    ((i = 2 * inp)%nat ∧ bits = 0 ∨ ∃ j, i = S (2 * j) ∧ inp = S j ∧ bits = 4 ∧ msg !! j = Some total))).
  - split; [done |]. left. done.
  - intros i [[[inp total] bits] output] Hi [-> [[-> ->]|(j & -> & -> & -> & Hj)]]; unfold base_w_step.
    + destruct (lookup_lt_is_Some_2 msg inp) as [b Hb]; [lia |]. simpl. rewrite Hb. simpl.
      split.
      * symmetry. apply take_S_r. by apply lookup_nibbles.
      * right. exists inp. split_and!; done || lia.
    + simpl. split.
      * symmetry. apply take_S_r. apply (lookup_nibbles _ _ _ Hj).
      * left. split; [lia | done].
  - intros [[[inp total] bits] output] [-> _]. done.
Qed.

(** The checksum value, and its three digits. *)
Definition csum_val (digits : list Z) : Z := foldr (λ d acc, SPX_WOTS_W - 1 - d + acc) 0 digits.
Definition is_digit (d : Z) : Prop := 0 <= d < SPX_WOTS_W.

Lemma nibbles_digits msg : Forall is_digit (nibbles msg).
Proof.
  assert (Hd : ∀ x, is_digit (Z.land x 15)).
  { intros x. change 15 with (Z.ones 4). rewrite Z.land_ones by lia.
    unfold is_digit. change SPX_WOTS_W with (2 ^ 4). apply Z.mod_pos_bound. lia. }
  induction msg as [|b msg IH]; [constructor |]. constructor; [apply Hd |]. by constructor.
Qed.

Lemma csum_val_app l k : csum_val (l ++ k) = csum_val l + csum_val k.
Proof. induction l as [|d l IH]; simpl; [done |]. rewrite IH. lia. Qed.

Lemma csum_val_bound l :
  Forall is_digit l → 0 <= csum_val l <= (SPX_WOTS_W - 1) * Z.of_nat (length l).
Proof.
  unfold is_digit. induction 1; [done |]. cbn [csum_val foldr length]. fold (csum_val l). lia.
Qed.

Lemma wots_checksum_digits digits :
  length digits = SPX_WOTS_LEN1 → Forall is_digit digits →
  wots_checksum digits =
    Some [csum_val digits / 256; csum_val digits / 16 mod 16; csum_val digits mod 16].
Proof.
  intros Hl Hd. unfold wots_checksum.
  pose proof (csum_val_bound _ Hd) as Hb. rewrite Hl in Hb.
  assert (Hc : for_loop SPX_WOTS_LEN1 0 (λ i csum,
      x ← digits !! i; Some (csum +₃₂ (SPX_WOTS_W - 1 - x))) 0 = Some (csum_val digits)).
  { apply wp_eq. apply (wp_for (λ i c, c = csum_val (take i digits))); [done | |].
    - intros i c Hi ->. destruct (lookup_lt_is_Some_2 digits i) as [x Hx]; [lia |].
      rewrite Hx. simpl. rewrite (take_S_r _ _ _ Hx), csum_val_app.
      pose proof (csum_val_bound (take i digits) (Forall_take _ i _ Hd)) as Hbt.
      rewrite length_take in Hbt. pose proof (Forall_lookup_1 _ _ _ _ Hd Hx) as Hdx.
      assert (Hi' : (i < 48)%nat) by apply Hi. unfold is_digit, SPX_WOTS_W in *.
      change (csum_val [x]) with (16 - 1 - x + 0). rewrite u32_small by (unfold in_u32; lia). lia.
    - intros c ->. by rewrite take_ge by (rewrite Hl; done). }
  rewrite Hc. cbn [mbind option_bind].
  change ((8 - (Z.of_nat (SPX_WOTS_LEN2 * SPX_WOTS_LOGW) mod 8)) mod 8) with 4.
  rewrite Z.shiftl_mul_pow2 by lia. set (c := csum_val digits) in *.
  unfold SPX_WOTS_LEN1, SPX_N, SPX_WOTS_LOGW, SPX_WOTS_W in Hb. simpl in Hb.
  rewrite u32_small by (unfold in_u32; lia).
  change ((SPX_WOTS_LEN2 * SPX_WOTS_LOGW + 7) / 8)%nat with 2%nat.
  rewrite base_w_nibbles by (rewrite length_ull_to_bytes; unfold SPX_WOTS_LEN2; lia).
  f_equal. cbn [ull_to_bytes app nibbles mbind list_bind take SPX_WOTS_LEN2].
  change 255 with (Z.ones 8). change 15 with (Z.ones 4).
  rewrite !Z.land_ones, !Z.shiftr_div_pow2 by lia. change (2 ^ 4) with 16. change (2 ^ 8) with 256.
  change (2 ^ 0) with 1. rewrite !Z.div_1_r.
  f_equal; [| f_equal; [| f_equal]]; Z.div_mod_to_equations; lia.
Qed.

Lemma chain_lengths_eq msg :
  length msg = SPX_N →
  chain_lengths msg = Some (nibbles msg ++
    [csum_val (nibbles msg) / 256; csum_val (nibbles msg) / 16 mod 16; csum_val (nibbles msg) mod 16]).
Proof.
  intros Hl. assert (Hn : length (nibbles msg) = SPX_WOTS_LEN1) by (by rewrite length_nibbles, Hl).
  unfold chain_lengths. rewrite base_w_nibbles by (rewrite Hl; unfold SPX_WOTS_LEN1, SPX_N; simpl; lia).
  simpl. rewrite take_ge by lia. rewrite wots_checksum_digits; [done | done | apply nibbles_digits].
Qed.

(** Every chain length is a digit, and there is one per chain. *)
Lemma chain_lengths_ok msg :
  length msg = SPX_N →
  wp (chain_lengths msg) (λ l, length l = SPX_WOTS_LEN ∧ Forall is_digit l).
Proof.
  intros Hl. rewrite chain_lengths_eq by done. simpl.
  assert (Hn : length (nibbles msg) = SPX_WOTS_LEN1) by (by rewrite length_nibbles, Hl).
  pose proof (csum_val_bound _ (nibbles_digits msg)) as Hb. rewrite Hn in Hb.
  unfold SPX_WOTS_LEN1, SPX_N, SPX_WOTS_LOGW, SPX_WOTS_W in Hb. simpl in Hb.
  split; [by rewrite length_app, Hn |].
  apply Forall_app. split; [apply nibbles_digits |].
  unfold is_digit, SPX_WOTS_W. repeat constructor; Z.div_mod_to_equations; lia.
Qed.

Lemma csum_val_antitone l k :
  Forall2 Z.le l k → csum_val k <= csum_val l ∧ (csum_val k = csum_val l → l = k).
Proof.
  induction 1 as [|x y l k Hxy _ [IH1 IH2]]; [done |].
  cbn [csum_val foldr] in *. fold (csum_val l) (csum_val k) in *. split; [lia |].
  intros He. assert (x = y) by lia. subst y. f_equal. apply IH2. lia.
Qed.

Lemma nibbles_inj m m' : bytes m → bytes m' → length m = length m' → nibbles m = nibbles m' → m = m'.
Proof.
  revert m'. induction m as [|b m IH]; intros [|c m'] Hm Hm' Hl He; try done.
  inversion Hm; inversion Hm'; subst. unfold in_u8 in *.
  injection He as He1 He2 He. f_equal; [| by apply IH; [| | injection Hl |]].
  change 15 with (Z.ones 4) in *. rewrite !Z.land_ones, !Z.shiftr_div_pow2 in * by lia.
  change (2 ^ 0) with 1 in *. rewrite !Z.div_1_r in *.
  change (2 ^ 4) with 16 in *. change (2 ^ 8) with 256 in *. Z.div_mod_to_equations. lia.
Qed.

(** The checksum makes the chain lengths of two messages incomparable: no
    message has chain lengths at least those of another everywhere. *)
Lemma chain_lengths_incomparable m m' l l' :
  bytes m → bytes m' → length m = SPX_N → length m' = SPX_N →
  chain_lengths m = Some l → chain_lengths m' = Some l' → Forall2 Z.le l l' → m = m'.
Proof.
  intros Hm Hm' Hl Hl'. rewrite !chain_lengths_eq by done. intros [= <-] [= <-] Hle.
  apply Forall2_app_inv in Hle as [Hd Hc]; [| by rewrite !length_nibbles, Hl, Hl'].
  apply csum_val_antitone in Hd as [H1 H2].
  apply nibbles_inj; [done | done | lia |]. apply H2.
  pose proof (csum_val_bound _ (nibbles_digits m)). pose proof (csum_val_bound _ (nibbles_digits m')).
  repeat match goal with H : Forall2 _ (_ :: _) (_ :: _) |- _ => inversion H; clear H; subst end.
  Z.div_mod_to_equations. lia.
Qed.

(** ** Chains *)

Section chains.
Context {H : SpxHash} {L : SpxHashLaws H}.

(** The address of step [k] of chain [c] under key-pair address [a], and that
    of the chain's secret. *)
Definition wots_hash_addr (a : list Z) (c k : Z) : list Z :=
  set_hash_addr (set_chain_addr (set_type a SPX_ADDR_TYPE_WOTS) c) k.
Definition wots_prf_addr (a : list Z) (c : Z) : list Z :=
  set_hash_addr (set_chain_addr (set_type a SPX_ADDR_TYPE_WOTSPRF) c) 0.

(** The value of chain [c] after [k] steps. *)
Fixpoint wots_chain (pub sk a : list Z) (c : Z) (k : nat) : list Z :=
  match k with
  | O => F_prf pub sk (wots_prf_addr a c)
  | S k' => F_thash pub (wots_chain pub sk a c k') (wots_hash_addr a c (Z.of_nat k'))
  end.

(** The ends of all chains, and the leaf they hash to. *)
Definition wots_pk (pub sk a : list Z) : list Z :=
  seq 0 SPX_WOTS_LEN ≫= λ c, wots_chain pub sk a (Z.of_nat c) (Z.to_nat (SPX_WOTS_W - 1)).
Definition wots_leaf (pub sk sub : list Z) (kp : Z) : list Z :=
  F_thash pub (wots_pk pub sk (set_keypair_addr sub kp))
    (set_keypair_addr (set_type sub SPX_ADDR_TYPE_WOTSPK) kp).

Lemma length_wots_chain pub sk a c k : length (wots_chain pub sk a c k) = SPX_N.
Proof. destruct k; simpl; auto with spx. Qed.

(** Addresses up to type, chain and hash position. *)
Definition wots_norm (a : list Z) : list Z := set_hash_addr (set_chain_addr (set_type a 0) 0) 0.
Definition wots_sim (a b : list Z) : Prop := is_addr a ∧ is_addr b ∧ wots_norm a = wots_norm b.

#[global] Instance wots_sim_per : RelationClasses.PER wots_sim.
Proof.
  split.
  - by intros a b (? & ? & ?).
  - intros a b c (? & ? & ?) (? & ? & ?). repeat split; try done. congruence.
Qed.

Lemma wots_hash_addr_norm a c k : is_addr a →
  wots_hash_addr a c k = wots_hash_addr (wots_norm a) c k ∧
  wots_prf_addr a c = wots_prf_addr (wots_norm a) c ∧
  wots_norm (wots_hash_addr a c k) = wots_norm a ∧ wots_norm (wots_prf_addr a c) = wots_norm a.
Proof. intros Ha. split_and!; solve_addr. Qed.

Lemma wots_sim_hash_addr a b c k :
  wots_sim a b → wots_hash_addr a c k = wots_hash_addr b c k ∧ wots_sim (wots_hash_addr a c k) b.
Proof.
  intros (Ha & Hb & He). destruct (wots_hash_addr_norm a c k Ha) as (H1 & _ & H3 & _).
  destruct (wots_hash_addr_norm b c k Hb) as (H4 & _).
  split; [by rewrite H1, H4, He |]. split_and!; [unfold wots_hash_addr; auto with addr | done | congruence].
Qed.

Lemma wots_sim_prf_addr a b c :
  wots_sim a b → wots_prf_addr a c = wots_prf_addr b c ∧ wots_sim (wots_prf_addr a c) b.
Proof.
  intros (Ha & Hb & He). destruct (wots_hash_addr_norm a c 0 Ha) as (_ & H2 & _ & H3).
  destruct (wots_hash_addr_norm b c 0 Hb) as (_ & H4 & _).
  split; [by rewrite H2, H4, He |]. split_and!; [unfold wots_prf_addr; auto with addr | done | congruence].
Qed.

(** [addr] is set up for the steps of chain [c]. *)
Definition on_chain (addr : list Z) (c : Z) : Prop :=
  set_chain_addr (set_type addr SPX_ADDR_TYPE_WOTS) c = addr.

Lemma on_chain_set a c :
  is_addr a → set_type a SPX_ADDR_TYPE_WOTS = a → on_chain (set_chain_addr a c) c.
Proof.
  intros Ha Ht. unfold on_chain. rewrite <-Ht at 2. clear Ht. solve_addr.
Qed.

Lemma on_chain_typed a c : is_addr a → on_chain a c → set_type a SPX_ADDR_TYPE_WOTS = a.
Proof. intros Ha Hc. rewrite <-Hc at 2. unfold on_chain in Hc. rewrite <-Hc. clear Hc. solve_addr. Qed.

Lemma on_chain_hash a c k : is_addr a → on_chain (wots_hash_addr a c k) c.
Proof. intros Ha. solve_addr. Qed.

Lemma on_chain_hash_addr a c k : on_chain a c → set_hash_addr a k = wots_hash_addr a c k.
Proof. intros Hc. unfold wots_hash_addr. by rewrite Hc. Qed.

Lemma wots_sim_set_chain a b c : wots_sim a b → wots_sim (set_chain_addr a c) b.
Proof.
  intros (Ha & Hb & He). split_and!; [auto with addr | done |]. rewrite <-He. clear He Hb. solve_addr.
Qed.

(** One step of a chain. *)
Lemma thash_chain ctx pub sko sk a addr c k :
  ctx_rep ctx pub sko → wots_sim addr a → on_chain addr c →
  thash (wots_chain pub sk a c k) 1 ctx (set_hash_addr addr (Z.of_nat k))
    = Some (wots_chain pub sk a c (S k)) ∧
  wots_sim (set_hash_addr addr (Z.of_nat k)) a ∧ on_chain (set_hash_addr addr (Z.of_nat k)) c.
Proof.
  intros Hctx Hsim Hon. rewrite (on_chain_hash_addr _ c) by done.
  destruct (wots_sim_hash_addr _ _ c (Z.of_nat k) Hsim) as [He Hs].
  split_and!; [| done | apply on_chain_hash, Hsim].
  erewrite thash_ok; [by simpl; rewrite He | done | lia | | apply Hs].
  by rewrite length_wots_chain, Nat.mul_1_l.
Qed.

(** Completing a chain from any of its values reaches its end. *)
Lemma wp_gen_chain ctx pub sko sk a addr c len :
  ctx_rep ctx pub sko → wots_sim addr a → on_chain addr c → is_digit len →
  wp (gen_chain (wots_chain pub sk a c (Z.to_nat len)) len (SPX_WOTS_W - 1 -₃₂ len) ctx addr)
     (λ '(out, addr'), out = wots_chain pub sk a c (Z.to_nat (SPX_WOTS_W - 1)) ∧
        wots_sim addr' a ∧ on_chain addr' c).
Proof.
  unfold is_digit, gen_chain. change SPX_WOTS_W with 16. intros Hctx Hsim Hon Hlen.
  rewrite (u32_small (16 - 1 - len)), u32_small by (unfold in_u32; lia).
  replace (Z.min (len + (16 - 1 - len)) 16 - len) with (15 - len) by lia.
  apply (wp_for (λ i '(out, addr'), out = wots_chain pub sk a c i ∧ wots_sim addr' a ∧ on_chain addr' c)).
  - done.
  - intros i [out addr'] Hi (-> & Hs & Ho).
    destruct (thash_chain _ _ _ sk _ _ c i Hctx Hs Ho) as (-> & ? & ?). done.
  - intros [out addr']. by replace (Z.to_nat len + Z.to_nat (15 - len))%nat with 15%nat by lia.
Qed.

(** [wots_pk_from_sig] recovers the chain ends from a signature. *)
Lemma wp_wots_pk_from_sig ctx pub sko sk a pk sig msg addr steps :
  ctx_rep ctx pub sko → wots_sim addr a → set_type addr SPX_ADDR_TYPE_WOTS = addr →
  length msg = SPX_N → length pk = SPX_WOTS_BYTES → (SPX_WOTS_BYTES <= length sig)%nat →
  chain_lengths msg = Some steps →
  (∀ c len, steps !! c = Some len →
     slot SPX_N sig c = wots_chain pub sk a (Z.of_nat c) (Z.to_nat len)) →
  wp (wots_pk_from_sig pk sig msg ctx addr)
     (λ '(pk', addr'), pk' = wots_pk pub sk a ∧ wots_sim addr' a ∧
        set_type addr' SPX_ADDR_TYPE_WOTS = addr').
Proof.
  intros Hctx Hsim Hty Hlm Hlp Hls Hcl Hsig. unfold wots_pk_from_sig. rewrite Hcl. cbn [mbind option_bind].
  pose proof (chain_lengths_ok msg Hlm) as Hok. rewrite Hcl in Hok. destruct Hok as [Hlen Hdig].
  apply (wp_for (λ i '(pk', addr'), length pk' = SPX_WOTS_BYTES ∧
    (∀ c, (c < i)%nat → slot SPX_N pk' c = wots_chain pub sk a (Z.of_nat c) (Z.to_nat (SPX_WOTS_W - 1))) ∧
    wots_sim addr' a ∧ set_type addr' SPX_ADDR_TYPE_WOTS = addr')).
  - split_and!; try done. lia.
  - intros i [pk' addr'] Hi (Hlp' & Hpk & Hs & Ht).
    assert (Hb : ((i + 1) * SPX_N <= SPX_WOTS_BYTES)%nat) by (unfold SPX_WOTS_BYTES; nia).
    rewrite read_slot by lia. cbn [mbind option_bind].
    destruct (lookup_lt_is_Some_2 steps i) as [len Hx]; [lia |].
    rewrite Hx, (Hsig _ _ Hx). cbn [mbind option_bind].
    eapply wp_then.
    { apply (wp_gen_chain _ _ sko sk a _ (Z.of_nat i)); [done | by apply wots_sim_set_chain | |].
      - apply on_chain_set; [apply Hs | done].
      - by eapply Forall_lookup_1. }
    intros [out addr''] (-> & Hs' & Ho').
    eapply wp_then; [apply (wp_write_slot SPX_N); [apply length_wots_chain | lia] |].
    intros b (Hlb & Heq & Hne). simpl. split_and!; [lia | | done | by eapply on_chain_typed; [apply Hs' |]].
    intros c Hc. destruct (decide (c = i)) as [->|]; [done |]. rewrite Hne by done. apply Hpk. lia.
  - intros [pk' addr'] (Hlp' & Hpk & Hs & Ht). split_and!; try done. by apply (slots_eq SPX_N).
Qed.

(** ** Leaf generation *)

Context {U : Uninit}.
Context (ctx : spx_ctx) (pub sk : list Z) (Hctx : ctx_rep ctx pub (Some sk)).

(** The loop over chain [i] keeps the other chains' slots of the signature and
    stores the value at position [wots_k], if the chain has one. *)
Lemma wp_wots_chain_loop a i wots_k sig addr :
  wots_sim addr a → on_chain addr (Z.of_nat i) → ((i + 1) * SPX_N <= length sig)%nat →
  wp (loop (Z.to_nat SPX_WOTS_W) (wots_chain_step ctx i wots_k)
        (0, wots_chain pub sk a (Z.of_nat i) 0, sig, addr))
     (λ '(buffer, sig', addr'),
        buffer = wots_chain pub sk a (Z.of_nat i) (Z.to_nat (SPX_WOTS_W - 1)) ∧
        wots_sim addr' a ∧ on_chain addr' (Z.of_nat i) ∧ length sig' = length sig ∧
        (∀ j, j ≠ i ∨ ~ is_digit wots_k → slot SPX_N sig' j = slot SPX_N sig j) ∧
        (is_digit wots_k → slot SPX_N sig' i = wots_chain pub sk a (Z.of_nat i) (Z.to_nat wots_k))).
Proof.
  unfold is_digit. change SPX_WOTS_W with 16. intros Hsim Hon Hlen.
  apply (wp_loop (λ n '(k, buffer, sig', addr'),
    0 <= k < 16 ∧ Z.of_nat n = 16 - k ∧ buffer = wots_chain pub sk a (Z.of_nat i) (Z.to_nat k) ∧
    wots_sim addr' a ∧ on_chain addr' (Z.of_nat i) ∧ length sig' = length sig ∧
    (∀ j, j ≠ i ∨ ~ (0 <= wots_k < 16) → slot SPX_N sig' j = slot SPX_N sig j) ∧
    (0 <= wots_k < k → slot SPX_N sig' i = wots_chain pub sk a (Z.of_nat i) (Z.to_nat wots_k)))).
  - split_and!; try done; lia.
  - intros n [[[k buffer] sig'] addr'] (Hk & Hn & -> & Hs & Ho & Hl & Hne & Heq).
    exists (n - 1)%nat. split; [lia |]. unfold wots_chain_step. change SPX_WOTS_W with 16.
    eapply wp_then with (P := λ s, length s = length sig ∧
      (∀ j, j ≠ i ∨ ~ (0 <= wots_k < 16) → slot SPX_N s j = slot SPX_N sig j) ∧
      (0 <= wots_k <= k → slot SPX_N s i = wots_chain pub sk a (Z.of_nat i) (Z.to_nat wots_k))).
    { destruct (Z.eqb_spec k wots_k) as [<-|Hneq]; simpl.
      - eapply wp_mono; [apply (wp_write_slot SPX_N); [apply length_wots_chain | lia] |].
        intros s (Hls & Hsi & Hsj). split_and!; [lia | | done].
        intros j [Hj|Hj]; [| lia]. rewrite Hsj by done. apply Hne. by left.
      - split_and!; [done | done |]. intros. apply Heq. lia. }
    intros s (Hls & Hsj & Hsi). destruct (Z.eqb_spec k (16 - 1)) as [->|Hk15]; simpl.
    + split_and!; try done. intros. apply Hsi. lia.
    + destruct (thash_chain _ _ _ sk _ _ _ (Z.to_nat k) Hctx Hs Ho) as (Ht & Hs' & Ho').
      rewrite Z2Nat.id in * by lia. rewrite Ht. simpl. rewrite u32_small by (unfold in_u32; lia).
      replace (Z.to_nat (k + 1)) with (S (Z.to_nat k)) by lia.
      split_and!; try done || lia. intros. apply Hsi. lia.
Qed.

Lemma wots_prf_then_hash a c :
  is_addr a → set_type (wots_prf_addr a c) SPX_ADDR_TYPE_WOTS = wots_hash_addr a c 0.
Proof. intros Ha. solve_addr. Qed.

Lemma lor_u32_max x : is_digit x → ~ is_digit (Z.lor x (2 ^ 32 - 1)).
Proof.
  unfold is_digit, SPX_WOTS_W. intros Hx. change (2 ^ 32 - 1) with (Z.ones 32).
  rewrite Z.lor_ones_low; [change (Z.ones 32) with 4294967295; lia | lia |]. destruct (decide (x = 0)) as [->|]; [done |].
  apply Z.log2_lt_pow2; lia.
Qed.

(** All chains of a leaf: [pk_buffer] holds their ends; the signature changes
    only when [wots_k_mask] is [0], and then holds the values at [steps]. *)
Lemma wp_wots_gen_leafx1_chains a steps mask sig addr :
  wots_sim addr a → length steps = SPX_WOTS_LEN → Forall is_digit steps →
  (SPX_WOTS_BYTES <= length sig)%nat → mask = 0 ∨ mask = 2 ^ 32 - 1 →
  wp (for_loop SPX_WOTS_LEN 0 (wots_gen_leafx1_chain ctx steps mask)
        (uninit SPX_WOTS_BYTES, sig, addr))
     (λ '(pk, sig', addr'), pk = wots_pk pub sk a ∧ wots_sim addr' a ∧ length sig' = length sig ∧
        (mask ≠ 0 → ∀ c, (c < SPX_WOTS_LEN)%nat → slot SPX_N sig' c = slot SPX_N sig c) ∧
        (mask = 0 → ∀ c len, steps !! c = Some len →
           slot SPX_N sig' c = wots_chain pub sk a (Z.of_nat c) (Z.to_nat len))).
Proof.
  intros Hsim Hlen Hdig Hls Hmask.
  apply (wp_for (λ i '(pk, sig', addr'), length pk = SPX_WOTS_BYTES ∧
    (∀ c, (c < i)%nat → slot SPX_N pk c = wots_chain pub sk a (Z.of_nat c) (Z.to_nat (SPX_WOTS_W - 1))) ∧
    wots_sim addr' a ∧ length sig' = length sig ∧
    (mask ≠ 0 → ∀ c, slot SPX_N sig' c = slot SPX_N sig c) ∧
    (mask = 0 → ∀ c len, (c < i)%nat → steps !! c = Some len →
           slot SPX_N sig' c = wots_chain pub sk a (Z.of_nat c) (Z.to_nat len)))).
  - split_and!; try done; try lia. apply length_uninit.
  - intros i [[pk sig'] addr'] Hi (Hlp & Hpk & Hs & Hl & Hm1 & Hm0). unfold wots_gen_leafx1_chain.
    assert (Hb : ((i + 1) * SPX_N <= SPX_WOTS_BYTES)%nat) by (unfold SPX_WOTS_BYTES; nia).
    destruct (lookup_lt_is_Some_2 steps i) as [len Hx]; [lia |].
    assert (Hd : is_digit len) by (by eapply Forall_lookup_1).
    rewrite Hx. cbn [mbind option_bind].
    destruct (wots_sim_prf_addr _ _ (Z.of_nat i) Hs) as [He Hsp].
    assert (Hw : set_type (set_hash_addr (set_chain_addr addr' (Z.of_nat i)) 0) SPX_ADDR_TYPE_WOTSPRF
      = wots_prf_addr addr' (Z.of_nat i)) by (destruct Hs as [Ha _]; clear -Ha; solve_addr).
    rewrite Hw. erewrite prf_addr_ok; [| done | apply Hsp]. cbn [mbind option_bind].
    rewrite He, wots_prf_then_hash by apply Hs. fold (wots_chain pub sk a (Z.of_nat i) 0).
    assert (Hk : (mask ≠ 0 → ~ is_digit (Z.lor len mask)) ∧ (mask = 0 → Z.lor len mask = len)).
    { split; [| intros ->; apply Z.lor_0_r]. intros Hm0'. destruct Hmask as [?| ->]; [done |].
      by apply lor_u32_max. }
    destruct Hk as [Hk1 Hk0].
    eapply wp_then; [apply (wp_wots_chain_loop a i) |].
    { apply wots_sim_hash_addr. split_and!; done || apply Hs. }
    { apply on_chain_hash, Hs. }
    { lia. }
    intros [[buffer sig''] addr''] (-> & Hs'' & _ & Hl'' & Hne & Heq).
    eapply wp_then; [apply (wp_write_slot SPX_N); [apply length_wots_chain | lia] |].
    intros pk' (Hlp' & Hpi & Hpj). simpl. split_and!; [lia | | done | lia | |].
    + intros c Hc. destruct (decide (c = i)) as [->|]; [done |]. rewrite Hpj by done. apply Hpk. lia.
    + intros Hm c. rewrite Hne by (right; by apply Hk1). by apply Hm1.
    + intros Hm c l Hc Hcl. rewrite Hk0 in * by done. destruct (decide (c = i)) as [->|Hci].
      * assert (l = len) as -> by congruence. by apply Heq.
      * rewrite Hne by (by left). apply Hm0; [done | lia | done].
  - intros [[pk sig'] addr'] (Hlp & Hpk & Hs & Hl & Hm1 & Hm0). split_and!; try done.
    + by apply (slots_eq SPX_N).
    + intros. by apply Hm1.
    + intros Hm c len Hc. apply Hm0; [done | | done]. apply lookup_lt_Some in Hc. lia.
Qed.
End chains.
