(* ===== verification/SpxMerkle.v ===== *)
(** One layer of the hypertree (merkle.c): signing the root of the tree below
    with a WOTS key of this layer's tree, with its authentication path. *)
From S2P Require Import Prelude SpxAddress SpxIface SpxTree SpxWots.

(** ** Model *)

Section model.
Context `{SpxHash} {U : Uninit}.

(** [merkle_sign]: the updated [sig], [root] and [tree_addr].  [sig] is
    [wots_sig] followed by [auth_path = sig + SPX_WOTS_BYTES]; on entry [root]
    is the value to sign, on exit the root of this tree. *)
Definition merkle_sign (sig root : list Z) (ctx : spx_ctx) (wots_addr tree_addr : list Z)
    (idx_leaf : Z) : option (list Z * list Z * list Z) :=
  steps ← chain_lengths root;
  let tree_addr := set_type tree_addr SPX_ADDR_TYPE_HASHTREE in
  let paddr := set_type zero_addr SPX_ADDR_TYPE_WOTSPK in
  let laddr := copy_subtree_addr zero_addr wots_addr in
  let paddr := copy_subtree_addr paddr wots_addr in
  let info := {| wots_sig := take SPX_WOTS_BYTES sig; wots_sign_leaf := idx_leaf;
                 wots_steps := steps; leaf_addr := laddr; pk_addr := paddr |} in
  '(root, auth_path, tree_addr, info) ←
    treehashx1 (drop SPX_WOTS_BYTES sig) ctx idx_leaf 0 SPX_TREE_HEIGHT wots_gen_leafx1 tree_addr info;
  Some (wots_sig info ++ auth_path, root, tree_addr).

(** [merkle_gen_root]: no leaf has index [~0U], so no signature is made; [root]
    is the unwritten output buffer, which [merkle_sign] reads. *)
Definition merkle_gen_root (root : list Z) (ctx : spx_ctx) : option (list Z) :=
  let top_tree_addr := set_layer_addr zero_addr (Z.of_nat SPX_D - 1) in
  let wots_addr := set_layer_addr zero_addr (Z.of_nat SPX_D - 1) in
  '(_, root, _) ← merkle_sign (uninit (SPX_TREE_HEIGHT * SPX_N + SPX_WOTS_BYTES)) root ctx
                    wots_addr top_tree_addr (u32 (Z.lnot 0));
  Some root.

End model.

(** ** Correctness *)

Section merkle.
Context {H : SpxHash} {L : SpxHashLaws H} {U : Uninit}.
Context (ctx : spx_ctx) (pub sk : list Z) (Hctx : ctx_rep ctx pub (Some sk)).

Lemma length_wots_pk a : length (wots_pk pub sk a) = (SPX_WOTS_LEN * SPX_N)%nat.
Proof.
  unfold wots_pk. generalize SPX_WOTS_LEN 0%nat. intros n. induction n as [|n IH]; intros o; [done |].
  cbn [seq mbind list_bind]. rewrite length_app, length_wots_chain.
  specialize (IH (S o)). cbn [mbind list_bind] in IH. rewrite IH. lia.
Qed.

Lemma length_wots_leaf sub kp : length (wots_leaf pub sk sub kp) = SPX_N.
Proof. apply length_F_thash. Qed.

(** What [wots_gen_leafx1] keeps of its [info] before leaf [idx]. *)
Definition leaf_inv (sub : list Z) (s : Z) (steps : list Z) (slen : nat) (idx : Z)
    (info : leaf_info_x1) : Prop :=
  (∀ kp, wots_sim (set_keypair_addr (leaf_addr info) kp) (set_keypair_addr sub kp)) ∧
  (∀ kp, set_keypair_addr (pk_addr info) kp
         = set_keypair_addr (set_type sub SPX_ADDR_TYPE_WOTSPK) kp) ∧
  is_addr (pk_addr info) ∧
  wots_sign_leaf info = s ∧ wots_steps info = steps ∧ length (wots_sig info) = slen ∧
  (s < idx → ∀ c len, steps !! c = Some len →
     slot SPX_N (wots_sig info) c
       = wots_chain pub sk (set_keypair_addr sub s) (Z.of_nat c) (Z.to_nat len)).

Lemma wots_sim_set_keypair a b kp kp' :
  wots_sim a (set_keypair_addr b kp) → is_addr b →
  wots_sim (set_keypair_addr a kp') (set_keypair_addr b kp').
Proof.
  intros (Ha & Hb & He) Hb'. split_and!; [auto with addr | auto with addr |].
  assert (Hn : ∀ x, is_addr x → wots_norm (set_keypair_addr x kp') = set_keypair_addr (wots_norm x) kp').
  { intros x Hx. clear -Hx. solve_addr. }
  rewrite !Hn, He by done. clear -Hb'. solve_addr.
Qed.

Lemma wp_wots_gen_leafx1 sub s steps slen idx info :
  is_addr sub → length steps = SPX_WOTS_LEN → Forall is_digit steps → (SPX_WOTS_BYTES <= slen)%nat →
  leaf_inv sub s steps slen idx info →
  wp (wots_gen_leafx1 ctx idx info)
     (λ '(leaf, info'), leaf = wots_leaf pub sk sub idx ∧ leaf_inv sub s steps slen (idx + 1) info').
Proof.
  intros Hsub Hls Hd Hsl (Hla & Hpa & Hpaddr & Hs & Hst & Hsig & Hdone). unfold wots_gen_leafx1.
  rewrite Hs, Hst. eapply wp_then.
  { apply (wp_wots_gen_leafx1_chains ctx pub sk Hctx (set_keypair_addr sub idx));
      [apply Hla | done | done | lia |].
    destruct (idx =? s); [by left | right; done]. }
  intros [[pk sig'] laddr] (-> & Hsim & Hl & Hkeep & Hnew).
  erewrite thash_ok; [| done | change SPX_WOTS_LEN with 51%nat; lia | apply length_wots_pk | auto with addr].
  cbn [mbind option_bind wp]. split; [by unfold wots_leaf; rewrite Hpa |].
  unfold leaf_inv. cbn [leaf_addr pk_addr wots_sign_leaf wots_steps wots_sig].
  split_and!; [| | auto with addr | done | done | lia |].
  - intros kp. by eapply wots_sim_set_keypair.
  - intros kp. rewrite <-Hpa. clear -Hpaddr. revert Hpaddr. generalize (pk_addr info). intros a Ha. solve_addr.
  - intros Hlt c len Hc. destruct (Z.eqb_spec idx s) as [->|Hne].
    + by apply Hnew.
    + rewrite Hkeep; [apply Hdone; [lia | done] | done |]. apply lookup_lt_Some in Hc. lia.
Qed.

(** Layer keys: the tree of WOTS leaves under the layer and tree of [a]. *)
Definition layer_leaf (a : list Z) : Z → list Z := wots_leaf pub sk (copy_subtree_addr zero_addr a).
Definition layer_node (a base : list Z) : nat → Z → list Z :=
  merkle_node pub (layer_leaf a) base 0.

Lemma wp_merkle_sign sig root wots_addr tree_addr idx_leaf steps :
  length root = SPX_N → length sig = (SPX_WOTS_BYTES + SPX_TREE_HEIGHT * SPX_N)%nat →
  is_addr wots_addr → is_addr tree_addr → 0 <= idx_leaf → chain_lengths root = Some steps →
  wp (merkle_sign sig root ctx wots_addr tree_addr idx_leaf)
     (λ '(sig', root', tree_addr'),
        let base := set_type tree_addr SPX_ADDR_TYPE_HASHTREE in
        root' = layer_node wots_addr base SPX_TREE_HEIGHT 0 ∧ length sig' = length sig ∧
        addr_sim tree_addr' base ∧
        (idx_leaf < 2 ^ Z.of_nat SPX_TREE_HEIGHT →
         (∀ c len, steps !! c = Some len → slot SPX_N sig' c = wots_chain pub sk
            (set_keypair_addr (copy_subtree_addr zero_addr wots_addr) idx_leaf) (Z.of_nat c) (Z.to_nat len)) ∧
         (∀ h, (h < SPX_TREE_HEIGHT)%nat → slot SPX_N (drop SPX_WOTS_BYTES sig') h
            = layer_node wots_addr base h (sibling idx_leaf h)))).
Proof.
  intros Hlr Hls Hw Ht Hi Hcl. unfold merkle_sign. rewrite Hcl. cbn [mbind option_bind].
  pose proof (chain_lengths_ok root Hlr) as Hok. rewrite Hcl in Hok. destruct Hok as [Hlst Hdig].
  set (sub := copy_subtree_addr zero_addr wots_addr).
  assert (Hsub : is_addr sub) by (unfold sub; auto with addr).
  eapply wp_then.
  { apply (wp_treehashx1 ctx pub _ Hctx (layer_leaf wots_addr)
      (λ j, length_wots_leaf _ _) (set_type tree_addr SPX_ADDR_TYPE_HASHTREE) 0 idx_leaf
      SPX_TREE_HEIGHT (length (drop SPX_WOTS_BYTES sig)) wots_gen_leafx1
      (leaf_inv sub idx_leaf steps SPX_WOTS_BYTES)).
    - unfold SPX_TREE_HEIGHT, SPX_FULL_HEIGHT, SPX_D. simpl. lia.
    - lia.
    - done.
    - done.
    - rewrite length_drop. lia.
    - done.
    - apply addr_sim_refl. auto with addr.
    - unfold leaf_inv. cbn [leaf_addr pk_addr wots_sign_leaf wots_steps wots_sig].
      split_and!; try done; try lia.
      + intros kp. split_and!; auto with addr.
      + intros kp. unfold sub. clear -Hw. solve_addr.
      + auto with addr.
      + rewrite length_take. lia.
    - intros idx info Hidx Hinv. rewrite Z.add_0_r. apply wp_wots_gen_leafx1; done. }
  intros [[[root' auth'] tree_addr'] info'] (-> & Hla & Hsim & Hinv & Hauth).
  destruct Hinv as (_ & _ & _ & Hsl & Hst & Hsg & Hdone). rewrite length_drop in Hla.
  simpl. split_and!; [done | rewrite length_app; lia | done |].
  intros Hlt. split.
  - intros c len Hc. rewrite <-(Hdone Hlt c len Hc). unfold slot.
    assert ((c + 1) * SPX_N <= SPX_WOTS_BYTES)%nat.
    { apply lookup_lt_Some in Hc. unfold SPX_WOTS_BYTES. nia. }
    rewrite drop_app_le by lia. rewrite take_app_le; [done |]. rewrite length_drop. lia.
  - intros h Hh. rewrite drop_app_length' by done. by apply Hauth.
Qed.
End merkle.
