(* ===== verification/SpxFors.v ===== *)
(** FORS few-time signatures (fors.c). *)
From S2P Require Import Prelude SpxAddress SpxIface SpxTree.

Open Scope c_scope.

(** ** Model *)

(** [message_to_indices]: the bits of [m], lowest first, [SPX_FORS_HEIGHT] per
    index; [offset] counts the bits read. *)
Definition message_to_indices (m : list Z) : option (list Z) :=
  '(indices, _) ←
    for_loop SPX_FORS_TREES 0 (λ _ '(indices, offset),
      '(index, offset) ←
        for_loop SPX_FORS_HEIGHT 0 (λ j '(index, offset),
          b ← m !! (offset / 8)%nat;
          Some (Z.lxor index (Z.land (b >> Z.of_nat (offset mod 8)) 1 <<₃₂ Z.of_nat j), S offset))
          (0, offset);
      Some (indices ++ [index], offset)) ([], 0%nat);
  Some indices.

Section model.
Context `{SpxHash} {U : Uninit}.

Definition fors_gen_sk (ctx : spx_ctx) (fors_leaf_addr : list Z) : option (list Z) :=
  prf_addr ctx fors_leaf_addr.

Definition fors_sk_to_leaf (sk : list Z) (ctx : spx_ctx) (fors_leaf_addr : list Z)
    : option (list Z) :=
  thash sk 1 ctx fors_leaf_addr.

(** [info] is [struct fors_gen_leaf_info]: its only field, [leaf_addrx]. *)
Definition fors_gen_leafx1 (ctx : spx_ctx) (addr_idx : Z) (leaf_addrx : list Z)
    : option (list Z * list Z) :=
  let leaf_addrx := set_tree_index leaf_addrx addr_idx in
  let leaf_addrx := set_type leaf_addrx SPX_ADDR_TYPE_FORSPRF in
  leaf ← fors_gen_sk ctx leaf_addrx;
  let leaf_addrx := set_type leaf_addrx SPX_ADDR_TYPE_FORSTREE in
  leaf ← fors_sk_to_leaf leaf ctx leaf_addrx;
  Some (leaf, leaf_addrx).

(** [sig] advances by this much per tree: the secret, then the path. *)
Definition fors_chunk : nat := SPX_N + SPX_N * SPX_FORS_HEIGHT.

(** Tree [i] of [fors_sign], over [(sig, roots, fors_tree_addr, fors_info)]. *)
Definition fors_sign_tree (ctx : spx_ctx) (indices : list Z) (i : nat)
    (s : list Z * list Z * list Z * list Z) : option (list Z * list Z * list Z * list Z) :=
  let '(sig, roots, tree_addr, info) := s in
  let idx_offset := Z.of_nat i * Z.shiftl 1 (Z.of_nat SPX_FORS_HEIGHT) in
  index ← indices !! i;
  let tree_addr := set_tree_height tree_addr 0 in
  let tree_addr := set_tree_index tree_addr (index +₃₂ idx_offset) in
  let tree_addr := set_type tree_addr SPX_ADDR_TYPE_FORSPRF in
  sk ← fors_gen_sk ctx tree_addr;
  sig ← write sig (i * fors_chunk) sk;
  let tree_addr := set_type tree_addr SPX_ADDR_TYPE_FORSTREE in
  auth_path ← read sig (i * fors_chunk + SPX_N) (SPX_N * SPX_FORS_HEIGHT);
  '(root, auth_path, tree_addr, info) ←
    treehashx1 auth_path ctx index idx_offset SPX_FORS_HEIGHT fors_gen_leafx1 tree_addr info;
  sig ← write sig (i * fors_chunk + SPX_N) auth_path;
  roots ← write roots (i * SPX_N) root;
  Some (sig, roots, tree_addr, info).

(** [fors_sign]: the updated [sig] and the public key. *)
Definition fors_sign (sig m : list Z) (ctx : spx_ctx) (fors_addr : list Z)
    : option (list Z * list Z) :=
  let tree_addr := copy_keypair_addr zero_addr fors_addr in
  let leaf_addr := copy_keypair_addr zero_addr fors_addr in
  let pk_addr := set_type (copy_keypair_addr zero_addr fors_addr) SPX_ADDR_TYPE_FORSPK in
  indices ← message_to_indices m;
  '(sig, roots, _, _) ←
    for_loop SPX_FORS_TREES 0 (fors_sign_tree ctx indices)
      (sig, uninit (SPX_FORS_TREES * SPX_N), tree_addr, leaf_addr);
  pk ← thash roots SPX_FORS_TREES ctx pk_addr;
  Some (sig, pk).

(** Tree [i] of [fors_pk_from_sig], over [(roots, fors_tree_addr)]. *)
Definition fors_pk_tree (sig : list Z) (ctx : spx_ctx) (indices : list Z) (i : nat)
    (s : list Z * list Z) : option (list Z * list Z) :=
  let '(roots, tree_addr) := s in
  let idx_offset := Z.of_nat i * Z.shiftl 1 (Z.of_nat SPX_FORS_HEIGHT) in
  index ← indices !! i;
  let tree_addr := set_tree_height tree_addr 0 in
  let tree_addr := set_tree_index tree_addr (index +₃₂ idx_offset) in
  sk ← read sig (i * fors_chunk) SPX_N;
  leaf ← fors_sk_to_leaf sk ctx tree_addr;
  auth_path ← read sig (i * fors_chunk + SPX_N) (SPX_N * SPX_FORS_HEIGHT);
  '(root, tree_addr) ← compute_root leaf index idx_offset auth_path SPX_FORS_HEIGHT ctx tree_addr;
  roots ← write roots (i * SPX_N) root;
  Some (roots, tree_addr).

Definition fors_pk_from_sig (sig m : list Z) (ctx : spx_ctx) (fors_addr : list Z)
    : option (list Z) :=
  let tree_addr := copy_keypair_addr zero_addr fors_addr in
  let pk_addr := copy_keypair_addr zero_addr fors_addr in
  let tree_addr := set_type tree_addr SPX_ADDR_TYPE_FORSTREE in
  let pk_addr := set_type pk_addr SPX_ADDR_TYPE_FORSPK in
  indices ← message_to_indices m;
  '(roots, _) ← for_loop SPX_FORS_TREES 0 (fors_pk_tree sig ctx indices)
                  (uninit (SPX_FORS_TREES * SPX_N), tree_addr);
  thash roots SPX_FORS_TREES ctx pk_addr.

End model.

(** ** Indices *)

Lemma low_bits_step b j :
  0 <= j → b mod 2 ^ (j + 1) = Z.lxor (b mod 2 ^ j) (Z.shiftl (Z.land (Z.shiftr b j) 1) j).
Proof.
  intros Hj. rewrite land_1, Z.shiftl_mul_pow2, Z.shiftr_div_pow2, Z.lxor_comm by done.
  assert (0 < 2 ^ j) by (apply Z.pow_pos_nonneg; lia).
  rewrite lxor_mul_pow2 by (done || by apply Z.mod_pos_bound).
  rewrite Z.pow_add_r, Z.rem_mul_r by lia. change (2 ^ 1) with 2. lia.
Qed.

(** With [SPX_FORS_HEIGHT = 8] the indices are the first bytes of the digest. *)
Lemma message_to_indices_eq m :
  (SPX_FORS_TREES <= length m)%nat →
  message_to_indices m = Some ((λ b, b mod 2 ^ 8) <$> take SPX_FORS_TREES m).
Proof.
  intros Hl. unfold message_to_indices. apply wp_eq.
  eapply wp_then with (P := λ '(indices, _), indices = (λ b, b mod 2 ^ 8) <$> take SPX_FORS_TREES m);
    [| by intros [? ?] ->].
  apply (wp_for (λ i '(indices, offset), offset = (i * 8)%nat ∧
    indices = (λ b, b mod 2 ^ 8) <$> take i m)); [done | | by intros [? ?] [_ ->]].
  intros i [indices offset] Hi [-> ->].
  destruct (lookup_lt_is_Some_2 m i) as [b Hb]; [lia |].
  eapply wp_then with (P := λ s, s = (b mod 2 ^ 8, (S i * 8)%nat)).
  - apply (wp_for (λ j '(index, offset), offset = (i * 8 + j)%nat ∧ index = b mod 2 ^ Z.of_nat j)).
    + split; [lia |]. by rewrite Z.pow_0_r, Z.mod_1_r.
    + intros j [index offset] Hj [-> ->]. unfold SPX_FORS_HEIGHT in Hj.
      replace ((i * 8 + j) / 8)%nat with i by (rewrite Nat.div_add_l, Nat.div_small; lia).
      replace ((i * 8 + j) mod 8)%nat with j by (rewrite Nat.add_comm, Nat.Div0.mod_add, Nat.mod_small; lia).
      rewrite Hb. cbn [mbind option_bind wp]. split; [lia |].
      rewrite Nat2Z.inj_succ, <-Z.add_1_r, low_bits_step by lia. f_equal. apply u32_small.
      rewrite land_1, Z.shiftl_mul_pow2 by lia.
      assert (0 < 2 ^ Z.of_nat j <= 2 ^ 7)
        by (split; [apply pow2_pos | apply Z.pow_le_mono_r; lia]).
      pose proof (Z.mod_pos_bound (b >> Z.of_nat j) 2). unfold in_u32. nia.
    + intros [index offset] [-> ->]. f_equal. unfold SPX_FORS_HEIGHT. lia.
  - intros ? ->. cbn [wp]. split; [done |]. by rewrite (take_S_r _ _ _ Hb), fmap_app.
Qed.

(** ** Trees *)

Section fors.
Context {H : SpxHash} {L : SpxHashLaws H} {U : Uninit}.

(** The secret and the leaf at position [j] under the key-pair address [fb],
    the nodes of tree [i] and the public key. *)
Definition fors_secret (pub sk fb : list Z) (j : Z) : list Z :=
  F_prf pub sk (tree_node_addr (set_type fb SPX_ADDR_TYPE_FORSPRF) 0 j).
Definition fors_leaf (pub sk fb : list Z) (j : Z) : list Z :=
  F_thash pub (fors_secret pub sk fb j) (tree_node_addr (set_type fb SPX_ADDR_TYPE_FORSTREE) 0 j).
Definition fors_offset (i : nat) : Z := Z.of_nat i * 256.
Definition fors_node (pub sk fb : list Z) (i : nat) : nat → Z → list Z :=
  merkle_node pub (λ idx, fors_leaf pub sk fb (idx + fors_offset i))
    (set_type fb SPX_ADDR_TYPE_FORSTREE) (fors_offset i).
Definition fors_pk (pub sk fb : list Z) : list Z :=
  F_thash pub (seq 0 SPX_FORS_TREES ≫= λ i, fors_node pub sk fb i SPX_FORS_HEIGHT 0)
    (set_type fb SPX_ADDR_TYPE_FORSPK).

Lemma length_fors_node pub sk fb i h j : length (fors_node pub sk fb i h j) = SPX_N.
Proof. apply length_merkle_node. intros. apply length_F_thash. Qed.

(** Chunk [i] of a signature of [index] is the secret and its path. *)
Definition fors_chunk_ok (pub sk fb : list Z) (i : nat) (index : Z) (chunk : list Z) : Prop :=
  take SPX_N chunk = fors_secret pub sk fb (index + fors_offset i) ∧
  ∀ h, (h < SPX_FORS_HEIGHT)%nat →
    slot SPX_N (drop SPX_N chunk) h = fors_node pub sk fb i h (sibling index h).

(** A tree address up to type, height and index. *)
Definition fors_sim (a fb : list Z) : Prop := is_addr a ∧ ∀ t, addr_sim (set_type a t) (set_type fb t).

Lemma fors_sim_refl fb : is_addr fb → fors_sim fb fb.
Proof. intros Hf. split; [done |]. intros t. apply addr_sim_refl. auto with addr. Qed.

Lemma set_type_node_comm a t h i :
  is_addr a → set_type (tree_node_addr a h i) t = tree_node_addr (set_type a t) h i.
Proof. intros Ha. solve_addr. Qed.

Lemma set_type_twice a t t' : set_type (set_type a t) t' = set_type a t'.
Proof. apply list_insert_insert_eq. Qed.

Lemma fors_sim_node a fb t h i :
  fors_sim a fb →
  set_type (tree_node_addr a h i) t = tree_node_addr (set_type fb t) h i ∧
  addr_sim (set_type (tree_node_addr a h i) t) (set_type fb t).
Proof.
  intros [Ha Hs]. rewrite set_type_node_comm by done. by apply tree_node_addr_sim.
Qed.

(** The leaf generator's own address: height [0], up to type and index. *)
Definition fors_leaf_sim (a fb : list Z) : Prop :=
  is_addr a ∧ ∀ j t, set_type (set_tree_index a j) t = tree_node_addr (set_type fb t) 0 j.

Lemma fors_leaf_sim_init fa :
  is_addr fa → fors_leaf_sim (copy_keypair_addr zero_addr fa) (copy_keypair_addr zero_addr fa).
Proof. intros Ha. split; [auto with addr |]. intros j t. solve_addr. Qed.

Lemma fors_leaf_sim_step a fb j t :
  fors_leaf_sim a fb → fors_leaf_sim (set_type (set_tree_index a j) t) fb.
Proof.
  intros [Ha Hs]. split; [auto with addr |]. intros j' t'. rewrite <-Hs. clear Hs. solve_addr.
Qed.

Lemma fors_range_offset i j :
  (i < SPX_FORS_TREES)%nat → 0 <= j < 256 → in_u32 (j + fors_offset i).
Proof. unfold in_u32, fors_offset, SPX_FORS_TREES. lia. Qed.

Lemma addr_sim_set_type a b t : addr_sim a b → addr_sim (set_type a t) (set_type b t).
Proof.
  intros (Ha & Hb & Ht & Hd). split_and!; auto with addr; unfold set_type, SPX_OFFSET_TYPE.
  - rewrite !take_insert_lt by lia. by rewrite Ht.
  - by rewrite !drop_insert_lt by lia.
Qed.

Lemma fors_sim_of_addr_sim a fb t :
  addr_sim a (set_type fb t) → fors_sim a fb.
Proof.
  intros Hs. split; [apply Hs |]. intros t'.
  rewrite <-(set_type_twice fb t t'). by apply addr_sim_set_type.
Qed.

(** A chunk written as the secret, then the path. *)
Lemma chunk_parts n s (sk auth : list Z) :
  length sk = n → length s = (n + length auth)%nat →
  take n (put (put s 0 sk) n auth) = sk ∧ drop n (put (put s 0 sk) n auth) = auth.
Proof.
  intros <- Hs. unfold put. rewrite take_0, app_nil_l, Nat.add_0_l.
  rewrite take_app_length. rewrite (drop_ge (sk ++ _)) by (rewrite length_app, length_drop; lia).
  by rewrite app_nil_r, take_app_length, drop_app_length.
Qed.

Section keyed.
Context (ctx : spx_ctx) (pub sk : list Z) (Hctx : ctx_rep ctx pub (Some sk)).

Lemma wp_fors_gen_leafx1 fb j a :
  fors_leaf_sim a fb →
  wp (fors_gen_leafx1 ctx j a) (λ '(leaf, a'), leaf = fors_leaf pub sk fb j ∧ fors_leaf_sim a' fb).
Proof.
  intros Hsim. unfold fors_gen_leafx1, fors_gen_sk, fors_sk_to_leaf.
  pose proof (fors_leaf_sim_step _ _ j SPX_ADDR_TYPE_FORSPRF Hsim) as [H1 _].
  pose proof (fors_leaf_sim_step _ _ j SPX_ADDR_TYPE_FORSTREE Hsim) as [H2 _].
  erewrite prf_addr_ok; [| done | done]. cbn [mbind option_bind].
  rewrite set_type_twice.
  erewrite thash_ok; [| done | lia | by rewrite length_F_prf | done]. cbn [mbind option_bind wp].
  split; [| by apply fors_leaf_sim_step]. destruct Hsim as [_ Hs]. by rewrite !Hs.
Qed.

(** One tree of [fors_sign]: its chunk of the signature and its root. *)
Lemma wp_fors_sign_tree fb indices i index sig roots a info :
  (i < SPX_FORS_TREES)%nat → indices !! i = Some index → 0 <= index < 256 →
  length sig = SPX_FORS_BYTES → length roots = (SPX_FORS_TREES * SPX_N)%nat →
  fors_sim a fb → fors_leaf_sim info fb → is_addr fb →
  wp (fors_sign_tree ctx indices i (sig, roots, a, info))
     (λ '(sig', roots', a', info'),
        length sig' = SPX_FORS_BYTES ∧ length roots' = (SPX_FORS_TREES * SPX_N)%nat ∧
        fors_sim a' fb ∧ fors_leaf_sim info' fb ∧
        (∀ j, j ≠ i → slot fors_chunk sig' j = slot fors_chunk sig j ∧ slot SPX_N roots' j = slot SPX_N roots j) ∧
        fors_chunk_ok pub sk fb i index (slot fors_chunk sig' i) ∧
        slot SPX_N roots' i = fors_node pub sk fb i SPX_FORS_HEIGHT 0).
Proof.
  intros Hi Hidx Hr Hls Hlr Hsim Hlsim Hfb. unfold fors_sign_tree. rewrite Hidx. cbn [mbind option_bind].
  assert (Hb : ((i + 1) * fors_chunk <= length sig)%nat).
  { rewrite Hls. unfold fors_chunk, SPX_FORS_BYTES, SPX_FORS_HEIGHT, SPX_FORS_TREES, SPX_N in *. lia. }
  change (Z.of_nat i * Z.shiftl 1 (Z.of_nat SPX_FORS_HEIGHT)) with (fors_offset i).
  rewrite u32_small by (by apply fors_range_offset).
  fold (tree_node_addr a 0 (index + fors_offset i)).
  destruct (fors_sim_node a fb SPX_ADDR_TYPE_FORSPRF 0 (index + fors_offset i) Hsim) as [He _].
  unfold fors_gen_sk. erewrite prf_addr_ok; [| done | rewrite He; auto with addr].
  rewrite He. fold (fors_secret pub sk fb (index + fors_offset i)). cbn [mbind option_bind].
  set (secret := fors_secret pub sk fb (index + fors_offset i)).
  assert (Hlsec : length secret = SPX_N) by apply length_F_prf.
  eapply wp_then; [apply (wp_write_in_slot fors_chunk sig i 0); [lia | unfold fors_chunk; lia | done] |].
  intros sig1 (Hl1 & Hs1 & Ho1).
  rewrite (read_in_slot fors_chunk _ i SPX_N) by (lia || (unfold fors_chunk; lia)).
  cbn [mbind option_bind].
  set (chunk := slot fors_chunk sig i) in *. set (auth := take _ (drop SPX_N _)).
  assert (Hlc : length chunk = fors_chunk) by (by apply length_slot).
  assert (Hla : length auth = (SPX_N * SPX_FORS_HEIGHT)%nat).
  { unfold auth. rewrite length_take, length_drop, length_slot by lia. unfold fors_chunk. lia. }
  rewrite set_type_node_comm, set_type_twice by auto with addr.
  eapply wp_then.
  { apply (wp_treehashx1 ctx pub _ Hctx (λ idx, fors_leaf pub sk fb (idx + fors_offset i))
      (λ _, length_F_thash _ _ _) (set_type fb SPX_ADDR_TYPE_FORSTREE) (fors_offset i) index
      SPX_FORS_HEIGHT (SPX_N * SPX_FORS_HEIGHT) fors_gen_leafx1 (λ _ x, fors_leaf_sim x fb)).
    - unfold SPX_FORS_HEIGHT. lia.
    - unfold fors_offset. lia.
    - unfold fors_offset, SPX_FORS_HEIGHT, SPX_FORS_TREES in *. lia.
    - done.
    - lia.
    - lia.
    - apply tree_node_addr_sim, addr_sim_refl. auto with addr.
    - done.
    - intros idx inf _ Hinf. by apply wp_fors_gen_leafx1. }
  intros [[[root auth'] a'] info'] (-> & Hla' & Hsim' & Hinfo' & Hauth).
  eapply wp_then; [apply (wp_write_in_slot fors_chunk sig1 i SPX_N); [done | unfold fors_chunk; lia | lia] |].
  intros sig2 (Hl2 & Hs2 & Ho2).
  eapply wp_then; [apply (wp_write_slot SPX_N) |].
  { apply length_merkle_node. intros. apply length_F_thash. }
  { rewrite Hlr. nia. }
  intros roots' (Hlr' & Hri & Hro). cbn [wp].
  rewrite Hs1 in Hs2. destruct (chunk_parts SPX_N chunk secret auth') as [Hp1 Hp2];
    [done | rewrite Hlc, Hla'; unfold fors_chunk; lia |].
  split_and!; [lia | lia | by eapply fors_sim_of_addr_sim | done | | | done].
  - intros j Hj. rewrite Ho2, Ho1, Hro by done. done.
  - rewrite Hs2. split; [done |]. intros h Hh. rewrite Hp2.
    apply Hauth; [change (2 ^ Z.of_nat SPX_FORS_HEIGHT) with 256; lia | done].
Qed.
End keyed.

(** One tree of [fors_pk_from_sig] on a good chunk gives the root back. *)
Lemma wp_fors_pk_tree ctx pub sko sk fb sig indices i index roots a :
  ctx_rep ctx pub sko → (i < SPX_FORS_TREES)%nat → indices !! i = Some index → 0 <= index < 256 →
  length sig = SPX_FORS_BYTES → length roots = (SPX_FORS_TREES * SPX_N)%nat →
  addr_sim a (set_type fb SPX_ADDR_TYPE_FORSTREE) →
  fors_chunk_ok pub sk fb i index (slot fors_chunk sig i) →
  wp (fors_pk_tree sig ctx indices i (roots, a))
     (λ '(roots', a'), length roots' = (SPX_FORS_TREES * SPX_N)%nat ∧
        addr_sim a' (set_type fb SPX_ADDR_TYPE_FORSTREE) ∧
        (∀ j, j ≠ i → slot SPX_N roots' j = slot SPX_N roots j) ∧
        slot SPX_N roots' i = fors_node pub sk fb i SPX_FORS_HEIGHT 0).
Proof.
  intros Hctx Hi Hidx Hr Hls Hlr Hsim [Hsec Hpath]. unfold fors_pk_tree. rewrite Hidx. cbn [mbind option_bind].
  assert (Hb : ((i + 1) * fors_chunk <= length sig)%nat).
  { rewrite Hls. unfold fors_chunk, SPX_FORS_BYTES, SPX_FORS_HEIGHT, SPX_FORS_TREES, SPX_N in *. lia. }
  change (Z.of_nat i * Z.shiftl 1 (Z.of_nat SPX_FORS_HEIGHT)) with (fors_offset i).
  rewrite u32_small by (by apply fors_range_offset).
  fold (tree_node_addr a 0 (index + fors_offset i)).
  destruct (tree_node_addr_sim _ _ 0 (index + fors_offset i) Hsim) as [He Hsim'].
  rewrite (read_in_slot fors_chunk _ i 0 SPX_N (i * fors_chunk)) by (lia || (unfold fors_chunk; lia)).
  rewrite drop_0, Hsec. cbn [mbind option_bind].
  unfold fors_sk_to_leaf.
  erewrite thash_ok; [| done | lia | by unfold fors_secret; rewrite length_F_prf | apply Hsim'].
  rewrite He. cbn [mbind option_bind]. fold (fors_leaf pub sk fb (index + fors_offset i)).
  rewrite (read_in_slot fors_chunk _ i SPX_N) by (lia || (unfold fors_chunk; lia)).
  cbn [mbind option_bind]. set (chunk := slot fors_chunk sig i) in *.
  assert (Hlc : length chunk = fors_chunk) by (by apply length_slot).
  rewrite take_ge by (rewrite length_drop, Hlc; unfold fors_chunk; lia).
  eapply wp_then.
  { apply (wp_compute_root ctx pub sko Hctx (λ idx, fors_leaf pub sk fb (idx + fors_offset i))
      (λ _, length_F_thash _ _ _) (set_type fb SPX_ADDR_TYPE_FORSTREE) (fors_offset i)).
    - rewrite <-He. done.
    - unfold SPX_FORS_HEIGHT. lia.
    - done.
    - change (2 ^ Z.of_nat SPX_FORS_HEIGHT) with 256. lia.
    - rewrite length_drop, Hlc. unfold fors_chunk. lia.
    - exact Hpath. }
  intros [root a'] [-> Ha']. eapply wp_then; [apply (wp_write_slot SPX_N) |].
  { apply length_merkle_node. intros. apply length_F_thash. }
  { rewrite Hlr. nia. }
  intros roots' (Hlr' & Hri & Hro). cbn [wp]. split_and!; [lia | done | done | done].
Qed.

(** A signature of digest [m]: every chunk is good. *)
Definition fors_sig_ok (pub sk fb m sig : list Z) : Prop :=
  length sig = SPX_FORS_BYTES ∧
  ∀ i b, (i < SPX_FORS_TREES)%nat → m !! i = Some b →
    fors_chunk_ok pub sk fb i (b mod 2 ^ 8) (slot fors_chunk sig i).

Lemma lookup_indices m i b :
  (i < SPX_FORS_TREES)%nat → m !! i = Some b →
  ((λ b, b mod 2 ^ 8) <$> take SPX_FORS_TREES m) !! i = Some (b mod 2 ^ 8).
Proof. intros Hi Hb. by rewrite list_lookup_fmap, lookup_take_lt, Hb. Qed.

Lemma byte_mod_range b : 0 <= b mod 2 ^ 8 < 256.
Proof. apply Z.mod_pos_bound. lia. Qed.

(** The concatenated roots hash to the public key. *)
Lemma thash_fors_roots ctx pub sko sk fb roots :
  ctx_rep ctx pub sko → is_addr fb → length roots = (SPX_FORS_TREES * SPX_N)%nat →
  (∀ i, (i < SPX_FORS_TREES)%nat → slot SPX_N roots i = fors_node pub sk fb i SPX_FORS_HEIGHT 0) →
  thash roots SPX_FORS_TREES ctx (set_type fb SPX_ADDR_TYPE_FORSPK) = Some (fors_pk pub sk fb).
Proof.
  intros Hctx Hfb Hl Hr. erewrite thash_ok; [| done | unfold SPX_FORS_TREES; lia | done | auto with addr].
  unfold fors_pk. by rewrite (slots_eq SPX_N SPX_FORS_TREES roots _ Hl Hr).
Qed.

Lemma wp_fors_sign ctx pub sk sig m fors_addr :
  ctx_rep ctx pub (Some sk) → length sig = SPX_FORS_BYTES → (SPX_FORS_TREES <= length m)%nat →
  is_addr fors_addr →
  wp (fors_sign sig m ctx fors_addr)
     (λ '(sig', pk), pk = fors_pk pub sk (copy_keypair_addr zero_addr fors_addr) ∧
        fors_sig_ok pub sk (copy_keypair_addr zero_addr fors_addr) m sig').
Proof.
  intros Hctx Hls Hm Ha. unfold fors_sign. rewrite message_to_indices_eq by done. cbn [mbind option_bind].
  set (fb := copy_keypair_addr zero_addr fors_addr).
  assert (Hfb : is_addr fb) by (unfold fb; auto with addr).
  eapply wp_then with (P := λ '(sig', roots, _, _), fors_sig_ok pub sk fb m sig' ∧
    length roots = (SPX_FORS_TREES * SPX_N)%nat ∧
    ∀ i, (i < SPX_FORS_TREES)%nat → slot SPX_N roots i = fors_node pub sk fb i SPX_FORS_HEIGHT 0).
  - apply (wp_for (λ k '(sig', roots, a, info), length sig' = SPX_FORS_BYTES ∧
      length roots = (SPX_FORS_TREES * SPX_N)%nat ∧ fors_sim a fb ∧ fors_leaf_sim info fb ∧
      ∀ i b, (i < k)%nat → m !! i = Some b →
        fors_chunk_ok pub sk fb i (b mod 2 ^ 8) (slot fors_chunk sig' i) ∧
        slot SPX_N roots i = fors_node pub sk fb i SPX_FORS_HEIGHT 0)).
    + split_and!; [done | apply length_uninit | by apply fors_sim_refl | by apply fors_leaf_sim_init | lia].
    + intros k [[[sig' roots] a] info] Hk (Hl & Hlr & Hs & Hi & Hok).
      destruct (lookup_lt_is_Some_2 m k) as [b Hb]; [lia |].
      eapply wp_mono; [apply (wp_fors_sign_tree ctx pub sk Hctx fb _ k (b mod 2 ^ 8)); try done |].
      * lia.
      * apply lookup_indices; [lia | done].
      * apply byte_mod_range.
      * intros [[[sig2 roots2] a2] info2] (? & ? & ? & ? & Hne & Hch & Hro). split_and!; try done.
        intros i c Hlt Hc. destruct (decide (i = k)) as [->|Hik].
        -- assert (c = b) as -> by congruence. done.
        -- destruct (Hne i Hik) as [-> ->]. apply Hok; [lia | done].
    + intros [[[sig' roots] a] info] (Hl & Hlr & _ & _ & Hok). split_and!; [split; [done |] | done |].
      * intros i b Hi Hb. by apply Hok.
      * intros i Hi. destruct (lookup_lt_is_Some_2 m i) as [b Hb]; [lia |]. by apply (Hok i b).
  - intros [[[sig' roots] a] info] (Hok & Hlr & Hr).
    erewrite thash_fors_roots by done. done.
Qed.

(** The verifier's public key is the signer's. *)
Lemma wp_fors_pk_from_sig ctx pub sko sk sig m fors_addr :
  ctx_rep ctx pub sko → (SPX_FORS_TREES <= length m)%nat → is_addr fors_addr →
  fors_sig_ok pub sk (copy_keypair_addr zero_addr fors_addr) m sig →
  fors_pk_from_sig sig m ctx fors_addr
    = Some (fors_pk pub sk (copy_keypair_addr zero_addr fors_addr)).
Proof.
  intros Hctx Hm Ha [Hls Hsig]. unfold fors_pk_from_sig. rewrite message_to_indices_eq by done.
  cbn [mbind option_bind]. set (fb := copy_keypair_addr zero_addr fors_addr) in *.
  assert (Hfb : is_addr fb) by (unfold fb; auto with addr). apply wp_eq.
  eapply wp_then with (P := λ '(roots, _), length roots = (SPX_FORS_TREES * SPX_N)%nat ∧
    ∀ i, (i < SPX_FORS_TREES)%nat → slot SPX_N roots i = fors_node pub sk fb i SPX_FORS_HEIGHT 0).
  - apply (wp_for (λ k '(roots, a), length roots = (SPX_FORS_TREES * SPX_N)%nat ∧
      addr_sim a (set_type fb SPX_ADDR_TYPE_FORSTREE) ∧
      ∀ i, (i < k)%nat → slot SPX_N roots i = fors_node pub sk fb i SPX_FORS_HEIGHT 0)).
    + split_and!; [apply length_uninit | apply addr_sim_refl; auto with addr | lia].
    + intros k [roots a] Hk (Hlr & Hs & Hok).
      destruct (lookup_lt_is_Some_2 m k) as [b Hb]; [lia |].
      eapply wp_mono; [apply (wp_fors_pk_tree ctx pub sko sk fb sig _ k (b mod 2 ^ 8)); try done |].
      * lia.
      * apply lookup_indices; [lia | done].
      * apply byte_mod_range.
      * apply Hsig; [lia | done].
      * intros [roots2 a2] (? & ? & Hne & Hro). split_and!; try done.
        intros i Hlt. destruct (decide (i = k)) as [->|Hik]; [done |].
        rewrite Hne by done. apply Hok. lia.
    + intros [roots a] (Hlr & _ & Hok). done.
  - intros [roots a] (Hlr & Hr). by erewrite thash_fors_roots by done.
Qed.
End fors.
