(* ===== verification/SpxSign.v ===== *)
(** The SPHINCS+ signature scheme (sign.c) over any hash instantiation: key
    generation, signing, verification, and the attached-signature API. *)
From S2P Require Import Prelude SpxAddress SpxIface SpxTree SpxWots SpxMerkle SpxFors.

Open Scope c_scope.

(** ** Model *)

(** The bytes of one hypertree layer of a signature. *)
Definition layer_bytes : nat := SPX_WOTS_BYTES + SPX_TREE_HEIGHT * SPX_N.

(** [(tree & ((1 << SPX_TREE_HEIGHT) - 1))] and [tree >> SPX_TREE_HEIGHT] *)
Definition next_leaf (tree : Z) : Z := Z.land tree (Z.shiftl 1 (Z.of_nat SPX_TREE_HEIGHT) - 1).
Definition next_tree (tree : Z) : Z := tree >> Z.of_nat SPX_TREE_HEIGHT.

Definition crypto_sign_secretkeybytes : nat := SPX_SK_BYTES.
Definition crypto_sign_publickeybytes : nat := SPX_PK_BYTES.
Definition crypto_sign_bytes : nat := SPX_BYTES.
Definition crypto_sign_seedbytes : nat := CRYPTO_SEEDBYTES.

Section model.
Context `{SpxHash} {U : Uninit}.
(** The random source of the process: [randombytes(out, n)] returns [n] bytes
    and the source's next state. *)
Context {rng : Type} (randombytes : rng → nat → list Z * rng).

(** The return code and the updated [pk] and [sk]. *)
Definition crypto_sign_seed_keypair (pk sk seed : list Z) : option (Z * list Z * list Z) :=
  seed ← read seed 0 CRYPTO_SEEDBYTES;
  sk ← write sk 0 seed;
  pub_seed ← read sk (2 * SPX_N) SPX_N;
  pk ← write pk 0 pub_seed;
  pub_seed ← read pk 0 SPX_N;
  sk_seed ← read sk 0 SPX_N;
  ctx ← initialize_hash_function pub_seed (Some sk_seed);
  root ← read sk (3 * SPX_N) SPX_N;
  root ← merkle_gen_root root ctx;
  sk ← write sk (3 * SPX_N) root;
  _ ← free_hash_function ctx;
  root ← read sk (3 * SPX_N) SPX_N;
  pk ← write pk SPX_N root;
  Some (0, pk, sk).

Definition crypto_sign_keypair (pk sk : list Z) (g : rng) : option (Z * list Z * list Z * rng) :=
  let '(seed, g) := randombytes g CRYPTO_SEEDBYTES in
  '(_, pk, sk) ← crypto_sign_seed_keypair pk sk seed;
  Some (0, pk, sk, g).

(** Layer [i] of the signing loop, over [(sig from the first layer on, root,
    wots_addr, tree_addr, tree, idx_leaf)]. *)
Definition sign_layer (ctx : spx_ctx) (i : nat)
    (s : list Z * list Z * list Z * list Z * Z * Z)
    : option (list Z * list Z * list Z * list Z * Z * Z) :=
  let '(sig, root, wots_addr, tree_addr, tree, idx_leaf) := s in
  let tree_addr := set_layer_addr tree_addr (Z.of_nat i) in
  let tree_addr := set_tree_addr tree_addr tree in
  let wots_addr := copy_subtree_addr wots_addr tree_addr in
  let wots_addr := set_keypair_addr wots_addr idx_leaf in
  chunk ← read sig (i * layer_bytes) layer_bytes;
  '(chunk, root, tree_addr) ← merkle_sign chunk root ctx wots_addr tree_addr idx_leaf;
  sig ← write sig (i * layer_bytes) chunk;
  Some (sig, root, wots_addr, tree_addr, next_tree tree, next_leaf tree).

(** The return code, the updated [sig], [*siglen] and the random source. *)
Definition crypto_sign_signature (sig m sk : list Z) (g : rng)
    : option (Z * list Z * nat * rng) :=
  sk_prf ← read sk SPX_N SPX_N;
  pk ← read sk (2 * SPX_N) SPX_PK_BYTES;
  sk_seed ← read sk 0 SPX_N;
  pub_seed ← read pk 0 SPX_N;
  ctx ← initialize_hash_function pub_seed (Some sk_seed);
  let wots_addr := set_type zero_addr SPX_ADDR_TYPE_WOTS in
  let tree_addr := set_type zero_addr SPX_ADDR_TYPE_HASHTREE in
  let '(optrand, g) := randombytes g SPX_N in
  R ← gen_message_random sk_prf optrand m ctx;
  sig ← write sig 0 R;
  R ← read sig 0 SPX_N;
  '(mhash, tree, idx_leaf) ← hash_message R pk m ctx;
  let wots_addr := set_tree_addr wots_addr tree in
  let wots_addr := set_keypair_addr wots_addr idx_leaf in
  fsig ← read sig SPX_N SPX_FORS_BYTES;
  '(fsig, root) ← fors_sign fsig mhash ctx wots_addr;
  sig ← write sig SPX_N fsig;
  lsig ← read sig (SPX_N + SPX_FORS_BYTES) (SPX_D * layer_bytes);
  '(lsig, _, _, _, _, _) ←
    for_loop SPX_D 0 (sign_layer ctx) (lsig, root, wots_addr, tree_addr, tree, idx_leaf);
  sig ← write sig (SPX_N + SPX_FORS_BYTES) lsig;
  _ ← free_hash_function ctx;
  Some (0, sig, SPX_BYTES, g).

(** Layer [i] of the verification loop, over [(root, wots_addr, tree_addr,
    wots_pk_addr, wots_pk, tree, idx_leaf)]; [sig] starts at the first layer. *)
Definition verify_layer (sig : list Z) (ctx : spx_ctx) (i : nat)
    (s : list Z * list Z * list Z * list Z * list Z * Z * Z)
    : option (list Z * list Z * list Z * list Z * list Z * Z * Z) :=
  let '(root, wots_addr, tree_addr, wots_pk_addr, wots_pk, tree, idx_leaf) := s in
  let tree_addr := set_layer_addr tree_addr (Z.of_nat i) in
  let tree_addr := set_tree_addr tree_addr tree in
  let wots_addr := copy_subtree_addr wots_addr tree_addr in
  let wots_addr := set_keypair_addr wots_addr idx_leaf in
  let wots_pk_addr := copy_keypair_addr wots_pk_addr wots_addr in
  wsig ← read sig (i * layer_bytes) SPX_WOTS_BYTES;
  '(wots_pk, wots_addr) ← wots_pk_from_sig wots_pk wsig root ctx wots_addr;
  leaf ← thash wots_pk SPX_WOTS_LEN ctx wots_pk_addr;
  auth_path ← read sig (i * layer_bytes + SPX_WOTS_BYTES) (SPX_TREE_HEIGHT * SPX_N);
  '(root, tree_addr) ← compute_root leaf idx_leaf 0 auth_path SPX_TREE_HEIGHT ctx tree_addr;
  Some (root, wots_addr, tree_addr, wots_pk_addr, wots_pk, next_tree tree, next_leaf tree).

(** [0] for a valid signature, [-1] otherwise. *)
Definition crypto_sign_verify (sig : list Z) (siglen : nat) (m pk : list Z) : option Z :=
  if decide (siglen ≠ SPX_BYTES) then Some (-1) else
  pub_seed ← read pk 0 SPX_N;
  ctx ← initialize_hash_function pub_seed None;
  let wots_addr := set_type zero_addr SPX_ADDR_TYPE_WOTS in
  let tree_addr := set_type zero_addr SPX_ADDR_TYPE_HASHTREE in
  let wots_pk_addr := set_type zero_addr SPX_ADDR_TYPE_WOTSPK in
  R ← read sig 0 SPX_N;
  pk' ← read pk 0 SPX_PK_BYTES;
  '(mhash, tree, idx_leaf) ← hash_message R pk' m ctx;
  let wots_addr := set_tree_addr wots_addr tree in
  let wots_addr := set_keypair_addr wots_addr idx_leaf in
  fsig ← read sig SPX_N SPX_FORS_BYTES;
  root ← fors_pk_from_sig fsig mhash ctx wots_addr;
  lsig ← read sig (SPX_N + SPX_FORS_BYTES) (SPX_D * layer_bytes);
  '(root, _, _, _, _, _, _) ←
    for_loop SPX_D 0 (verify_layer lsig ctx)
      (root, wots_addr, tree_addr, wots_pk_addr, uninit SPX_WOTS_BYTES, tree, idx_leaf);
  _ ← free_hash_function ctx;
  pub_root ← read pk SPX_N SPX_N;
  if decide (root = pub_root) then Some 0 else Some (-1).

(** [crypto_sign]: the return code, the updated [sm] and [*smlen]. *)
Definition crypto_sign (sm m sk : list Z) (g : rng) : option (Z * list Z * nat * rng) :=
  sig ← read sm 0 SPX_BYTES;
  '(_, sig, siglen, g) ← crypto_sign_signature sig m sk g;
  sm ← write sm 0 sig;
  sm ← write sm SPX_BYTES m;
  Some (0, sm, (siglen + length m)%nat, g).

(** [crypto_sign_open]: the return code, the updated [m] and [*mlen]; [smlen]
    is the length of [sm]. *)
Definition crypto_sign_open (m sm : list Z) (smlen : nat) (pk : list Z)
    : option (Z * list Z * nat) :=
  if decide (smlen < SPX_BYTES)%nat then
    m ← write m 0 (replicate smlen 0); Some (-1, m, 0%nat)
  else
  let mlen := (smlen - SPX_BYTES)%nat in
  sig ← read sm 0 SPX_BYTES;
  msg ← read sm SPX_BYTES mlen;
  r ← crypto_sign_verify sig SPX_BYTES msg pk;
  if decide (r ≠ 0) then m ← write m 0 (replicate smlen 0); Some (-1, m, 0%nat)
  else m ← write m 0 msg; Some (0, m, mlen).

End model.

(** ** Addresses of a layer *)

Definition layer_addr (l t : Z) : list Z := set_tree_addr (set_layer_addr zero_addr l) t.
Definition layer_base (l t : Z) : list Z := set_type (layer_addr l t) SPX_ADDR_TYPE_HASHTREE.
Definition kp_addr (l t k : Z) : list Z := set_keypair_addr (layer_addr l t) k.
Definition kp_pk_addr (l t k : Z) : list Z :=
  set_keypair_addr (set_type (layer_addr l t) SPX_ADDR_TYPE_WOTSPK) k.

Lemma is_addr_layer l t : is_addr (layer_addr l t).
Proof. unfold layer_addr. auto with addr. Qed.
#[export] Hint Resolve is_addr_layer : addr.

Lemma addr_sim_split a b : addr_sim a b →
  ∃ x0 x1 x2 x3 x4, a = take 17 b ++ [x0; x1; x2; x3; x4] ++ drop 22 b.
Proof.
  intros (Ha & _ & Ht & Hd). rewrite <-Ht, <-Hd. clear Ht Hd b. destruct_addr a Ha.
  eexists _, _, _, _, _. reflexivity.
Qed.

(** Entering a layer, from whatever layer the address was last used for. *)
Lemma layer_base_enter a l t l' t' :
  addr_sim a (layer_base l t) →
  addr_sim (set_tree_addr (set_layer_addr a l') t') (layer_base l' t') ∧
  set_type (set_tree_addr (set_layer_addr a l') t') SPX_ADDR_TYPE_HASHTREE
    = set_tree_addr (set_layer_addr a l') t' ∧
  ∀ b, copy_subtree_addr b (set_tree_addr (set_layer_addr a l') t')
       = copy_subtree_addr b (layer_addr l' t').
Proof.
  intros Hs. pose proof (addr_sim_split _ _ Hs) as (x0 & x1 & x2 & x3 & x4 & ->).
  split_and!; [split_and!; [| unfold layer_base; auto with addr | |] | |]; done.
Qed.

(** The key-pair address of a layer, from that of another. *)
Lemma kp_addr_enter w l t k l' t' k' :
  wots_sim w (kp_addr l t k) →
  wots_sim (set_keypair_addr (copy_subtree_addr w (layer_addr l' t')) k') (kp_addr l' t' k') ∧
  copy_subtree_addr zero_addr (set_keypair_addr (copy_subtree_addr w (layer_addr l' t')) k')
    = layer_addr l' t'.
Proof.
  intros (Hw & _ & Hn).
  assert (Hc : wots_norm (set_keypair_addr (copy_subtree_addr w (layer_addr l' t')) k')
    = set_keypair_addr (copy_subtree_addr (wots_norm w) (layer_addr l' t')) k').
  { clear Hn. solve_addr. }
  split; [split_and!; [auto with addr | unfold kp_addr; auto with addr | rewrite Hc, Hn; done] |].
  clear Hn Hc. solve_addr.
Qed.

Lemma kp_pk_addr_enter w l t k l' t' k' :
  wots_sim w (kp_addr l' t' k') →
  copy_keypair_addr (kp_pk_addr l t k) w = kp_pk_addr l' t' k'.
Proof.
  intros (Hw & _ & Hn).
  assert (Hc : copy_keypair_addr (kp_pk_addr l t k) w = copy_keypair_addr (kp_pk_addr l t k) (wots_norm w)).
  { clear Hn. solve_addr. }
  rewrite Hc, Hn. done.
Qed.

Lemma typed_enter w l t k :
  is_addr w → set_type w SPX_ADDR_TYPE_WOTS = w →
  set_type (set_keypair_addr (copy_subtree_addr w (layer_addr l t)) k) SPX_ADDR_TYPE_WOTS
    = set_keypair_addr (copy_subtree_addr w (layer_addr l t)) k.
Proof.
  intros Hw Ht. transitivity (set_keypair_addr (copy_subtree_addr (set_type w SPX_ADDR_TYPE_WOTS) (layer_addr l t)) k).
  - clear Ht. solve_addr.
  - by rewrite Ht.
Qed.

(** ** The hypertree *)

Section hypertree.
Context {H : SpxHash} {L : SpxHashLaws H} {U : Uninit}.

Lemma merkle_node_sim pub leaf b b' off h i :
  addr_sim b b' → merkle_node pub leaf b off h i = merkle_node pub leaf b' off h i.
Proof.
  intros Hb. revert i. induction h as [|h IH]; intros i; [done |].
  cbn [merkle_node]. rewrite !IH. f_equal. by apply tree_node_addr_sim.
Qed.

(** The tree of WOTS keys number [t] of layer [l]. *)
Definition layer_tree (pub sk : list Z) (l t : Z) : nat → Z → list Z :=
  merkle_node pub (wots_leaf pub sk (layer_addr l t)) (layer_base l t) 0.
Definition layer_root (pub sk : list Z) (l t : Z) : list Z := layer_tree pub sk l t SPX_TREE_HEIGHT 0.

(** A layer of a signature: [msg] signed with leaf [k] of the tree, and the
    path of that leaf. *)
Definition layer_sig_ok (pub sk : list Z) (l t k : Z) (msg chunk : list Z) : Prop :=
  (∀ steps c len, chain_lengths msg = Some steps → steps !! c = Some len →
     slot SPX_N chunk c = wots_chain pub sk (kp_addr l t k) (Z.of_nat c) (Z.to_nat len)) ∧
  (∀ h, (h < SPX_TREE_HEIGHT)%nat →
     slot SPX_N (drop SPX_WOTS_BYTES chunk) h = layer_tree pub sk l t h (sibling k h)).

(** The tree and leaf used at layer [i], and what is signed there. *)
Definition tree_at (tree : Z) (i : nat) : Z := Nat.iter i next_tree tree.
Definition leaf_at (tree leaf : Z) (i : nat) : Z :=
  match i with O => leaf | S j => next_leaf (tree_at tree j) end.
Definition msg_at (pub sk msg : list Z) (tree : Z) (i : nat) : list Z :=
  match i with O => msg | S j => layer_root pub sk (Z.of_nat j) (tree_at tree j) end.

Lemma length_layer_root pub sk l t : length (layer_root pub sk l t) = SPX_N.
Proof. apply length_F_thash. Qed.

Lemma length_msg_at pub sk msg tree i : length msg = SPX_N → length (msg_at pub sk msg tree i) = SPX_N.
Proof. intros Hm. destruct i; [done | apply length_layer_root]. Qed.

Lemma next_leaf_range tree : 0 <= next_leaf tree < 2 ^ Z.of_nat SPX_TREE_HEIGHT.
Proof.
  unfold next_leaf. rewrite Z.shiftl_1_l, land_ones_u32 by lia. apply Z.mod_pos_bound, pow2_pos.
Qed.

Lemma leaf_at_range tree leaf i :
  0 <= leaf < 2 ^ Z.of_nat SPX_TREE_HEIGHT → 0 <= leaf_at tree leaf i < 2 ^ Z.of_nat SPX_TREE_HEIGHT.
Proof. intros. destruct i; [done | apply next_leaf_range]. Qed.

Lemma tree_at_div tree i : tree_at tree i = tree / 2 ^ Z.of_nat (SPX_TREE_HEIGHT * i).
Proof.
  induction i as [|i IH].
  - by rewrite Nat.mul_0_r, Z.pow_0_r, Z.div_1_r.
  - change (tree_at tree (S i)) with (next_tree (tree_at tree i)). unfold next_tree.
    pose proof (pow2_pos (SPX_TREE_HEIGHT * i)). pose proof (pow2_pos SPX_TREE_HEIGHT).
    rewrite shiftr_div, IH, Z.div_div by lia.
    rewrite <-Z.pow_add_r by lia. do 2 f_equal. lia.
Qed.

(** The last layer is a single tree. *)
Lemma tree_at_top tree :
  0 <= tree < 2 ^ Z.of_nat (SPX_TREE_HEIGHT * (SPX_D - 1)) → tree_at tree (SPX_D - 1) = 0.
Proof. intros. rewrite tree_at_div. by apply Z.div_small. Qed.

Lemma layer_bytes_fit i : (i < SPX_D)%nat → ((i + 1) * layer_bytes <= SPX_D * layer_bytes)%nat.
Proof. intros. nia. Qed.

(** One layer of the signing loop. *)
Lemma wp_sign_layer ctx pub sk i sig root w a tree leaf l t k l' t' :
  ctx_rep ctx pub (Some sk) → (i < SPX_D)%nat → length sig = (SPX_D * layer_bytes)%nat →
  length root = SPX_N → 0 <= leaf < 2 ^ Z.of_nat SPX_TREE_HEIGHT →
  wots_sim w (kp_addr l t k) → addr_sim a (layer_base l' t') →
  wp (sign_layer ctx i (sig, root, w, a, tree, leaf))
     (λ '(sig', root', w', a', tree', leaf'),
        length sig' = length sig ∧ root' = layer_root pub sk (Z.of_nat i) tree ∧
        wots_sim w' (kp_addr (Z.of_nat i) tree leaf) ∧ addr_sim a' (layer_base (Z.of_nat i) tree) ∧
        tree' = next_tree tree ∧ leaf' = next_leaf tree ∧
        (∀ j, j ≠ i → slot layer_bytes sig' j = slot layer_bytes sig j) ∧
        layer_sig_ok pub sk (Z.of_nat i) tree leaf root (slot layer_bytes sig' i)).
Proof.
  intros Hctx Hi Hls Hlr Hleaf Hw Ha. unfold sign_layer.
  pose proof (layer_bytes_fit i Hi) as Hfit.
  destruct (layer_base_enter _ _ _ (Z.of_nat i) tree Ha) as (Ha1 & Hty & Hcp).
  rewrite Hcp. destruct (kp_addr_enter _ _ _ _ (Z.of_nat i) tree leaf Hw) as [Hw1 Hsub].
  set (a1 := set_tree_addr (set_layer_addr a (Z.of_nat i)) tree) in *.
  set (w1 := set_keypair_addr (copy_subtree_addr w (layer_addr (Z.of_nat i) tree)) leaf) in *.
  rewrite read_slot by lia. cbn [mbind option_bind].
  destruct (proj1 (wp_exists _ _) (chain_lengths_ok root Hlr)) as (steps & Hcl & _).
  eapply wp_then.
  { apply (wp_merkle_sign ctx pub sk Hctx _ _ w1 a1 leaf steps); try done.
    - rewrite length_slot by lia. done.
    - apply Hw1.
    - apply Ha1.
    - lia. }
  intros [[chunk root'] a'] (Hr' & Hlc & Ha' & Hok). rewrite Hty in Hr', Ha', Hok.
  rewrite length_slot in Hlc by lia.
  eapply wp_then; [apply (wp_write_slot layer_bytes); [done | lia] |].
  intros sig' (Hl' & Hsi & Hsj). cbn [wp].
  assert (Hnode : ∀ h x, layer_node pub sk w1 a1 h x = layer_tree pub sk (Z.of_nat i) tree h x).
  { intros h x. unfold layer_node, layer_leaf. rewrite Hsub. by apply merkle_node_sim. }
  split_and!; try done.
  - rewrite Hr'. apply Hnode.
  - etrans; done.
  - rewrite Hsi. destruct (Hok ltac:(lia)) as [Hok1 Hok2]. split.
    + intros steps' c len Hcl' Hc. rewrite Hsub in Hok1. apply Hok1. congruence.
    + intros h Hh. rewrite <-Hnode. by apply Hok2.
Qed.

(** One layer of the verification loop, on a good layer of a signature. *)
Lemma wp_verify_layer ctx pub sko sk sig i root w a p pkb tree leaf l t k l' t' pl pt pk0 :
  ctx_rep ctx pub sko → (i < SPX_D)%nat → length sig = (SPX_D * layer_bytes)%nat →
  length root = SPX_N → length pkb = SPX_WOTS_BYTES → 0 <= leaf < 2 ^ Z.of_nat SPX_TREE_HEIGHT →
  wots_sim w (kp_addr l t k) → set_type w SPX_ADDR_TYPE_WOTS = w →
  addr_sim a (layer_base l' t') → p = kp_pk_addr pl pt pk0 →
  layer_sig_ok pub sk (Z.of_nat i) tree leaf root (slot layer_bytes sig i) →
  wp (verify_layer sig ctx i (root, w, a, p, pkb, tree, leaf))
     (λ '(root', w', a', p', pkb', tree', leaf'),
        root' = layer_root pub sk (Z.of_nat i) tree ∧
        wots_sim w' (kp_addr (Z.of_nat i) tree leaf) ∧ set_type w' SPX_ADDR_TYPE_WOTS = w' ∧
        addr_sim a' (layer_base (Z.of_nat i) tree) ∧ p' = kp_pk_addr (Z.of_nat i) tree leaf ∧
        length pkb' = SPX_WOTS_BYTES ∧ tree' = next_tree tree ∧ leaf' = next_leaf tree).
Proof.
  intros Hctx Hi Hls Hlr Hlp Hleaf Hw Hty Ha -> [Hchain Hpath]. unfold verify_layer.
  pose proof (layer_bytes_fit i Hi) as Hfit.
  destruct (layer_base_enter _ _ _ (Z.of_nat i) tree Ha) as (Ha1 & _ & Hcp).
  rewrite Hcp. destruct (kp_addr_enter _ _ _ _ (Z.of_nat i) tree leaf Hw) as [Hw1 Hsub].
  pose proof (typed_enter w (Z.of_nat i) tree leaf (proj1 Hw) Hty) as Hty1.
  set (a1 := set_tree_addr (set_layer_addr a (Z.of_nat i)) tree) in *.
  set (w1 := set_keypair_addr (copy_subtree_addr w (layer_addr (Z.of_nat i) tree)) leaf) in *.
  rewrite (kp_pk_addr_enter w1 _ _ _ _ _ _ Hw1).
  set (chunk := slot layer_bytes sig i) in *.
  assert (Hlc : length chunk = layer_bytes) by (apply length_slot; lia).
  rewrite (read_in_slot layer_bytes _ i 0 SPX_WOTS_BYTES (i * layer_bytes)) by (lia || (unfold layer_bytes; lia)).
  rewrite drop_0. fold chunk. cbn [mbind option_bind].
  destruct (proj1 (wp_exists _ _) (chain_lengths_ok root Hlr)) as (steps & Hcl & Hlst & _).
  eapply wp_then.
  { apply (wp_wots_pk_from_sig ctx pub sko sk (kp_addr (Z.of_nat i) tree leaf) pkb _ root w1 steps);
      try done.
    - rewrite length_take, Hlc. unfold layer_bytes. lia.
    - intros c len Hc. rewrite <-(Hchain _ _ _ Hcl Hc). unfold slot.
      assert ((c + 1) * SPX_N <= SPX_WOTS_BYTES)%nat
        by (apply lookup_lt_Some in Hc; unfold SPX_WOTS_BYTES; nia).
      rewrite skipn_firstn_comm, take_take, Nat.min_l by lia. done. }
  intros [pkb' w'] (-> & Hw' & Hty').
  erewrite thash_ok; [| done | change SPX_WOTS_LEN with 51%nat; lia | apply length_wots_pk
    | unfold kp_pk_addr; auto with addr].
  cbn [mbind option_bind].
  rewrite (read_in_slot layer_bytes _ i SPX_WOTS_BYTES) by (lia || (unfold layer_bytes; lia)).
  cbn [mbind option_bind]. fold chunk.
  rewrite take_ge by (rewrite length_drop, Hlc; unfold layer_bytes; lia).
  fold (wots_leaf pub sk (layer_addr (Z.of_nat i) tree) leaf).
  eapply wp_then.
  { apply (wp_compute_root ctx pub sko Hctx (wots_leaf pub sk (layer_addr (Z.of_nat i) tree))
      (λ _, length_F_thash _ _ _) (layer_base (Z.of_nat i) tree) 0 leaf); try done.
    - change SPX_TREE_HEIGHT with 3%nat. lia.
    - rewrite length_drop, Hlc. unfold layer_bytes. lia. }
  intros [root' a'] [-> Ha']. cbn [wp]. split_and!; try done. apply length_wots_pk.
Qed.

(** ** Both loops *)

Definition hyper_sig_ok (pub sk msg : list Z) (tree leaf : Z) (sig : list Z) : Prop :=
  length sig = (SPX_D * layer_bytes)%nat ∧
  ∀ i, (i < SPX_D)%nat →
    layer_sig_ok pub sk (Z.of_nat i) (tree_at tree i) (leaf_at tree leaf i)
      (msg_at pub sk msg tree i) (slot layer_bytes sig i).

Lemma wp_sign_layers ctx pub sk sig msg w a tree leaf l t k l' t' :
  ctx_rep ctx pub (Some sk) → length sig = (SPX_D * layer_bytes)%nat → length msg = SPX_N →
  0 <= leaf < 2 ^ Z.of_nat SPX_TREE_HEIGHT →
  wots_sim w (kp_addr l t k) → addr_sim a (layer_base l' t') →
  wp (for_loop SPX_D 0 (sign_layer ctx) (sig, msg, w, a, tree, leaf))
     (λ '(sig', _, _, _, _, _), hyper_sig_ok pub sk msg tree leaf sig').
Proof.
  intros Hctx Hls Hlm Hleaf Hw Ha.
  apply (wp_for (λ i '(sig', root, w', a', tree', leaf'),
    length sig' = (SPX_D * layer_bytes)%nat ∧ root = msg_at pub sk msg tree i ∧
    tree' = tree_at tree i ∧ leaf' = leaf_at tree leaf i ∧
    (∃ l t k, wots_sim w' (kp_addr l t k)) ∧ (∃ l t, addr_sim a' (layer_base l t)) ∧
    ∀ j, (j < i)%nat → layer_sig_ok pub sk (Z.of_nat j) (tree_at tree j) (leaf_at tree leaf j)
      (msg_at pub sk msg tree j) (slot layer_bytes sig' j))).
  - split_and!; eauto; lia.
  - intros i [[[[[sig' root] w'] a'] tree'] leaf'] Hi
      (Hl & -> & -> & -> & (? & ? & ? & Hw') & (? & ? & Ha') & Hok).
    eapply wp_mono.
    { eapply wp_sign_layer; eauto; [lia | by apply length_msg_at | by apply leaf_at_range]. }
    intros [[[[[sig2 root2] w2] a2] tree2] leaf2] (Hl2 & -> & Hw2 & Ha2 & -> & -> & Hne & Hnew).
    split_and!; eauto; [lia |].
    intros j Hj. destruct (decide (j = i)) as [->|Hji]; [done |].
    rewrite Hne by done. apply Hok. lia.
  - intros [[[[[sig' root] w'] a'] tree'] leaf'] (Hl & _ & _ & _ & _ & _ & Hok). by split.
Qed.

Lemma wp_verify_layers ctx pub sko sk sig msg w a pkb tree leaf l t k l' t' pl pt pk0 :
  ctx_rep ctx pub sko → length msg = SPX_N → length pkb = SPX_WOTS_BYTES →
  0 <= leaf < 2 ^ Z.of_nat SPX_TREE_HEIGHT →
  wots_sim w (kp_addr l t k) → set_type w SPX_ADDR_TYPE_WOTS = w → addr_sim a (layer_base l' t') →
  hyper_sig_ok pub sk msg tree leaf sig →
  wp (for_loop SPX_D 0 (verify_layer sig ctx) (msg, w, a, kp_pk_addr pl pt pk0, pkb, tree, leaf))
     (λ '(root, _, _, _, _, _, _), root = msg_at pub sk msg tree SPX_D).
Proof.
  intros Hctx Hlm Hlp Hleaf Hw Hty Ha [Hls Hsig].
  apply (wp_for (λ i '(root, w', a', p', pkb', tree', leaf'),
    root = msg_at pub sk msg tree i ∧ tree' = tree_at tree i ∧ leaf' = leaf_at tree leaf i ∧
    length pkb' = SPX_WOTS_BYTES ∧ set_type w' SPX_ADDR_TYPE_WOTS = w' ∧
    (∃ l t k, wots_sim w' (kp_addr l t k)) ∧ (∃ l t, addr_sim a' (layer_base l t)) ∧
    (∃ l t k, p' = kp_pk_addr l t k))).
  - split_and!; eauto.
  - intros i [[[[[[root w'] a'] p'] pkb'] tree'] leaf'] Hi
      (-> & -> & -> & Hlp' & Hty' & (? & ? & ? & Hw') & (? & ? & Ha') & (? & ? & ? & ->)).
    eapply wp_mono.
    { eapply (wp_verify_layer ctx pub sko sk); eauto;
        [lia | by apply length_msg_at | by apply leaf_at_range | apply Hsig; lia]. }
    intros [[[[[[root2 w2] a2] p2] pkb2] tree2] leaf2]
      (-> & Hw2 & Hty2 & Ha2 & -> & Hlp2 & -> & ->).
    split_and!; eauto.
  - intros [[[[[[root w'] a'] p'] pkb'] tree'] leaf'] (-> & _). done.
Qed.

(** ** Key generation *)

(** The root of the whole hypertree. *)
Definition spx_root (pub sk : list Z) : list Z := layer_root pub sk (Z.of_nat (SPX_D - 1)) 0.

Lemma wp_merkle_gen_root ctx pub sk root :
  ctx_rep ctx pub (Some sk) → length root = SPX_N →
  merkle_gen_root root ctx = Some (spx_root pub sk).
Proof.
  intros Hctx Hl. unfold merkle_gen_root. apply wp_eq.
  destruct (proj1 (wp_exists _ _) (chain_lengths_ok root Hl)) as (steps & Hcl & _).
  eapply wp_then.
  { apply (wp_merkle_sign ctx pub sk Hctx _ _ _ _ _ steps); try done.
    rewrite length_uninit. lia. }
  intros [[sig root'] a] (-> & _). done.
Qed.
End hypertree.
