(* ===== verification/SpxCorrect.v ===== *)
(** Correctness of the SPHINCS+ signature scheme for every hash instantiation
    that meets the contract of SpxIface: what key generation computes, that
    every signature produced verifies, that the attached-signature API is a
    round trip, and what verification and opening do on the error paths. *)
From S2P Require Import Prelude SpxAddress SpxIface SpxTree SpxWots SpxMerkle SpxFors SpxSign.

Open Scope c_scope.

(** ** Key pairs *)

Section correct.
Context {H : SpxHash} {L : SpxHashLaws H} {U : Uninit}.

(** The key pair of a seed [sk_seed ++ sk_prf ++ pub_seed]. *)
Definition spec_pk (sk_seed pub_seed : list Z) : list Z := pub_seed ++ spx_root pub_seed sk_seed.
Definition spec_sk (sk_seed sk_prf pub_seed : list Z) : list Z :=
  sk_seed ++ sk_prf ++ pub_seed ++ spx_root pub_seed sk_seed.

Lemma length_spx_root pub sk : length (spx_root pub sk) = SPX_N.
Proof. apply length_layer_root. Qed.

Lemma seed_keypair_eq pk sk sk_seed sk_prf pub_seed :
  length pk = SPX_PK_BYTES → length sk = SPX_SK_BYTES →
  length sk_seed = SPX_N → length sk_prf = SPX_N → length pub_seed = SPX_N →
  crypto_sign_seed_keypair pk sk (sk_seed ++ sk_prf ++ pub_seed)
    = Some (0, spec_pk sk_seed pub_seed, spec_sk sk_seed sk_prf pub_seed).
Proof.
  intros Hpk Hsk H1 H2 H3. unfold crypto_sign_seed_keypair.
  set (seed := sk_seed ++ sk_prf ++ pub_seed).
  assert (Hseed : length seed = CRYPTO_SEEDBYTES)
    by (unfold seed, CRYPTO_SEEDBYTES; rewrite !length_app; lia).
  replace (read seed 0 CRYPTO_SEEDBYTES) with (Some seed)
    by (rewrite read_Some by lia; rewrite drop_0, take_ge by lia; done).
  cbn [mbind option_bind].
  destruct (split_at CRYPTO_SEEDBYTES sk) as (s0 & r0 & -> & Hs0).
  { rewrite Hsk. unfold SPX_SK_BYTES, CRYPTO_SEEDBYTES, SPX_PK_BYTES. lia. }
  rewrite length_app in Hsk.
  destruct (split_at SPX_N pk) as (p0 & q0 & -> & Hp0); [rewrite Hpk; unfold SPX_PK_BYTES; lia |].
  rewrite length_app in Hpk.
  assert (Hr0 : length r0 = SPX_N) by (unfold SPX_SK_BYTES, CRYPTO_SEEDBYTES, SPX_PK_BYTES in *; lia).
  assert (Hq0 : length q0 = SPX_N) by (unfold SPX_PK_BYTES in *; lia).
  rewrite (write_front s0 r0) by (done || lia). cbn [mbind option_bind app].
  unfold seed. rewrite <-!app_assoc, (app_assoc sk_seed).
  rewrite (read_app (sk_seed ++ sk_prf) pub_seed r0 (2 * SPX_N)) by (rewrite ?length_app; lia).
  cbn [mbind option_bind].
  rewrite (write_front p0 q0) by (done || lia). cbn [mbind option_bind app].
  rewrite (read_front pub_seed q0) by (done || lia). cbn [mbind option_bind].
  rewrite <-app_assoc, (read_front sk_seed _) by (done || lia). cbn [mbind option_bind].
  destruct (proj1 (wp_exists _ _) (initialize_ok pub_seed (Some sk_seed) H3 H1)) as (ctx & Hc & Hctx).
  rewrite Hc. cbn [mbind option_bind].
  rewrite !(app_assoc _ _ r0), (app_assoc sk_seed), <-(app_nil_r r0).
  rewrite (read_app _ r0 [] (3 * SPX_N)) by (rewrite ?length_app; lia). cbn [mbind option_bind].
  rewrite (wp_merkle_gen_root _ _ _ _ Hctx) by lia. cbn [mbind option_bind].
  rewrite write_app by (rewrite ?length_app, ?length_spx_root; lia). cbn [mbind option_bind].
  destruct (proj1 (wp_exists _ _) (free_ok _ _ _ Hctx)) as (? & Hf & _). rewrite Hf. cbn [mbind option_bind].
  rewrite read_app by (rewrite ?length_app, ?length_spx_root; lia). cbn [mbind option_bind].
  rewrite <-(app_nil_r q0), (write_app pub_seed q0 []) by (rewrite ?length_spx_root; lia).
  cbn [mbind option_bind]. rewrite !app_nil_r, <-!app_assoc. done.
Qed.

Lemma length_spec_pk sk_seed pub_seed :
  length pub_seed = SPX_N → length (spec_pk sk_seed pub_seed) = SPX_PK_BYTES.
Proof. intros. unfold spec_pk, SPX_PK_BYTES. rewrite length_app, length_spx_root. lia. Qed.

(** ** Signatures *)

(** What a signature of [m] contains: the randomiser, a FORS signature of the
    message digest, and the hypertree's authentication of the FORS key. *)
Definition spx_sig_ok (sk_seed pub_seed R m sig : list Z) : Prop :=
  let '(mhash, tree, leaf) := F_message R (spec_pk sk_seed pub_seed) m in
  ∃ fsig lsig, sig = R ++ fsig ++ lsig ∧
    fors_sig_ok pub_seed sk_seed (kp_addr 0 tree leaf) mhash fsig ∧
    hyper_sig_ok pub_seed sk_seed (fors_pk pub_seed sk_seed (kp_addr 0 tree leaf)) tree leaf lsig.

(** The addresses both sides start from. *)
Definition start_addr (tree leaf : Z) : list Z :=
  set_keypair_addr (set_tree_addr (set_type zero_addr SPX_ADDR_TYPE_WOTS) tree) leaf.

Lemma start_addr_kp tree leaf : start_addr tree leaf = kp_addr 0 tree leaf.
Proof. done. Qed.

Lemma copy_keypair_start tree leaf :
  copy_keypair_addr zero_addr (kp_addr 0 tree leaf) = kp_addr 0 tree leaf.
Proof. done. Qed.

Lemma length_fors_pk pub sk fb : length (fors_pk pub sk fb) = SPX_N.
Proof. apply length_F_thash. Qed.

Lemma is_addr_kp l t k : is_addr (kp_addr l t k).
Proof. unfold kp_addr. auto with addr. Qed.

Lemma SPX_BYTES_parts : SPX_BYTES = (SPX_N + (SPX_FORS_BYTES + SPX_D * layer_bytes))%nat.
Proof. done. Qed.

Context {rng : Type} (randombytes : rng → nat → list Z * rng).
Hypothesis length_randombytes : ∀ g n, length (randombytes g n).1 = n.

Lemma wp_crypto_sign_signature sig m sk_seed sk_prf pub_seed g :
  length sig = SPX_BYTES → msg_fits m →
  length sk_seed = SPX_N → length sk_prf = SPX_N → length pub_seed = SPX_N →
  wp (crypto_sign_signature randombytes sig m (spec_sk sk_seed sk_prf pub_seed) g)
     (λ '(ret, sig', siglen, g'), ret = 0 ∧ siglen = SPX_BYTES ∧ length sig' = SPX_BYTES ∧
        g' = (randombytes g SPX_N).2 ∧
        spx_sig_ok sk_seed pub_seed (F_random sk_prf (randombytes g SPX_N).1 m) m sig').
Proof.
  intros Hls Hm H1 H2 H3. unfold crypto_sign_signature, spec_sk.
  pose proof (length_spx_root pub_seed sk_seed) as Hroot.
  rewrite (read_app sk_seed sk_prf _ SPX_N) by lia. cbn [mbind option_bind].
  rewrite app_assoc, <-(app_nil_r (pub_seed ++ _)).
  rewrite (read_app _ _ _ (2 * SPX_N)) by (unfold SPX_PK_BYTES; rewrite ?length_app; lia). cbn [mbind option_bind].
  rewrite <-app_assoc, (read_front sk_seed _) by (done || lia). cbn [mbind option_bind].
  rewrite (read_front pub_seed) by (done || lia). cbn [mbind option_bind].
  destruct (proj1 (wp_exists _ _) (initialize_ok pub_seed (Some sk_seed) H3 H1)) as (ctx & Hc & Hctx).
  rewrite Hc. cbn [mbind option_bind].
  pose proof (length_randombytes g SPX_N) as Hopt.
  destruct (randombytes g SPX_N) as [optrand g']. cbn [fst snd] in *.
  erewrite gen_message_random_ok by eauto. cbn [mbind option_bind].
  set (R := F_random sk_prf optrand m).
  assert (HR : length R = SPX_N) by apply length_F_random.
  rewrite SPX_BYTES_parts in Hls.
  destruct (split_at SPX_N sig) as (r0 & sig1 & -> & Hr0); [lia |]. rewrite length_app in Hls.
  destruct (split_at SPX_FORS_BYTES sig1) as (f0 & l0 & -> & Hf0); [lia |]. rewrite length_app in Hls.
  rewrite (write_front r0) by (done || lia). cbn [mbind option_bind app].
  rewrite (read_front R) by (done || lia). cbn [mbind option_bind].
  fold (spec_pk sk_seed pub_seed). unfold spx_sig_ok.
  rewrite (hash_message_ok ctx pub_seed (Some sk_seed)) by (done || by apply length_spec_pk).
  pose proof (F_message_range R (spec_pk sk_seed pub_seed) m) as (Hmh & Htree & Hleaf).
  destruct (F_message R (spec_pk sk_seed pub_seed) m) as [[mhash tree] leaf].
  cbn [fst snd mbind option_bind] in *.
  rewrite (read_app R f0) by lia. cbn [mbind option_bind].
  fold (start_addr tree leaf). rewrite !start_addr_kp.
  eapply wp_then.
  { apply (wp_fors_sign ctx pub_seed sk_seed); [done | done | rewrite Hmh; done | apply is_addr_kp]. }
  intros [fsig root] [-> Hfs]. rewrite copy_keypair_start in *.
  pose proof (proj1 Hfs) as Hlf.
  rewrite write_app by lia. cbn [mbind option_bind].
  rewrite (app_assoc R), <-(app_nil_r l0), read_app by (rewrite ?length_app; lia). cbn [mbind option_bind].
  eapply wp_then.
  { apply (wp_sign_layers ctx pub_seed sk_seed l0 _ _ _ tree leaf 0 tree leaf 0 0); try done.
    - lia.
    - apply length_fors_pk. }
  intros [[[[[lsig ?] ?] ?] ?] ?] Hhs. pose proof (proj1 Hhs) as Hll.
  rewrite write_app by (rewrite ?length_app; lia). cbn [mbind option_bind].
  destruct (proj1 (wp_exists _ _) (free_ok _ _ _ Hctx)) as (? & Hf & _). rewrite Hf. cbn [mbind option_bind wp].
  rewrite app_nil_r, <-app_assoc. split_and!; [done | done | | done | eauto].
  rewrite !length_app, SPX_BYTES_parts. lia.
Qed.

Lemma verify_good sk_seed pub_seed R m sig :
  length pub_seed = SPX_N → length R = SPX_N → length sk_seed = SPX_N → msg_fits m →
  spx_sig_ok sk_seed pub_seed R m sig →
  crypto_sign_verify sig SPX_BYTES m (spec_pk sk_seed pub_seed) = Some 0.
Proof.
  intros H3 HR H1 Hm Hok. unfold spx_sig_ok in Hok. unfold crypto_sign_verify.
  pose proof (length_spx_root pub_seed sk_seed) as Hroot.
  rewrite decide_False by (intros C; done).
  replace (read (spec_pk sk_seed pub_seed) 0 SPX_N) with (Some pub_seed)
    by (unfold spec_pk; symmetry; apply read_front; lia).
  cbn [mbind option_bind].
  destruct (proj1 (wp_exists _ _) (initialize_ok pub_seed None H3 I)) as (ctx & Hc & Hctx).
  rewrite Hc. cbn [mbind option_bind].
  pose proof (length_spec_pk sk_seed pub_seed H3) as Hpk.
  pose proof (F_message_range R (spec_pk sk_seed pub_seed) m) as (Hmh & Htree & Hleaf).
  pose proof (hash_message_ok ctx pub_seed None R (spec_pk sk_seed pub_seed) m Hctx HR Hpk Hm) as Hhm.
  destruct (F_message R (spec_pk sk_seed pub_seed) m) as [[mhash tree] leaf].
  destruct Hok as (fsig & lsig & -> & Hfs & Hhs). cbn [fst snd] in *.
  pose proof (proj1 Hfs) as Hlf. pose proof (proj1 Hhs) as Hll.
  rewrite (read_front R) by (done || lia). cbn [mbind option_bind].
  rewrite (read_all (spec_pk sk_seed pub_seed) SPX_PK_BYTES) by done. cbn [mbind option_bind].
  rewrite Hhm. cbn [mbind option_bind].
  rewrite (read_app R fsig lsig SPX_N) by lia. cbn [mbind option_bind].
  fold (start_addr tree leaf). rewrite start_addr_kp.
  rewrite (wp_fors_pk_from_sig ctx pub_seed None sk_seed) by (done || apply is_addr_kp || (rewrite Hmh; done)).
  cbn [mbind option_bind]. rewrite copy_keypair_start.
  rewrite (app_assoc R), <-(app_nil_r lsig), read_app by (rewrite ?length_app; lia). cbn [mbind option_bind].
  apply wp_eq. eapply wp_then.
  { apply (wp_verify_layers ctx pub_seed None sk_seed lsig _ _ _ _ tree leaf 0 tree leaf 0 0 0 0 0);
      try done.
    - apply length_fors_pk.
    - apply length_uninit. }
  intros [[[[[[root ?] ?] ?] ?] ?] ?] ->.
  destruct (proj1 (wp_exists _ _) (free_ok _ _ _ Hctx)) as (? & Hf & _). rewrite Hf. cbn [mbind option_bind].
  unfold spec_pk. rewrite <-(app_nil_r (spx_root _ _)), read_app by lia. cbn [mbind option_bind].
  change (msg_at pub_seed sk_seed (fors_pk pub_seed sk_seed (kp_addr 0 tree leaf)) tree SPX_D)
    with (layer_root pub_seed sk_seed (Z.of_nat (SPX_D - 1)) (tree_at tree (SPX_D - 1))).
  rewrite tree_at_top by done. by rewrite decide_True.
Qed.
End correct.
