(* ===== verification/SpxVerify.v ===== *)
(** Verification on arbitrary input: a reference verifier in the style of the
    SLH-DSA specification (pure functions over the hash functions of the
    interface) and the proof that the C verifier, with its in-place addresses
    and scratch buffers, computes it on every public key, message and
    signature.  In particular verification is defined (no out-of-bounds
    access, no runaway loop) on hostile input. *)
From S2P Require Import Prelude SpxAddress SpxIface SpxTree SpxWots SpxMerkle SpxFors SpxSign.

Open Scope c_scope.

(** ** The reference verifier *)

Section reference.
Context {H : SpxHash} {L : SpxHashLaws H}.

(** The node of height [h] above [leaf], along the authentication path. *)
Fixpoint path_node (pub base : list Z) (off idx : Z) (auth leaf : list Z) (h : nat) : list Z :=
  match h with
  | O => leaf
  | S h' =>
      let x := path_node pub base off idx auth leaf h' in
      let s := slot SPX_N auth h' in
      F_thash pub (if Z.even (idx / 2 ^ Z.of_nat h') then x ++ s else s ++ x)
        (tree_node_addr base (Z.of_nat h) (u32 (idx / 2 ^ Z.of_nat h + off / 2 ^ Z.of_nat h)))
  end.

(** [n] steps of chain [c], from step [s] on. *)
Fixpoint chain_from (pub a : list Z) (c : Z) (x : list Z) (s n : nat) : list Z :=
  match n with
  | O => x
  | S n' => F_thash pub (chain_from pub a c x s n') (wots_hash_addr a c (Z.of_nat (s + n')))
  end.

(** The digits a WOTS key signs: the message in base [w], then its checksum. *)
Definition wots_digits (msg : list Z) : list Z :=
  let d := nibbles msg in d ++ [csum_val d / 256; csum_val d / 16 mod 16; csum_val d mod 16].

Definition spec_wots_pk (pub a sig msg : list Z) : list Z :=
  seq 0 SPX_WOTS_LEN ≫= λ c,
    let d := Z.to_nat (wots_digits msg !!! c) in
    chain_from pub a (Z.of_nat c) (slot SPX_N sig c) d (15 - d).

Definition spec_fors_pk (pub fb sig mhash : list Z) : list Z :=
  F_thash pub (seq 0 SPX_FORS_TREES ≫= λ i,
      let idx := (mhash !!! i) mod 2 ^ 8 in
      let chunk := slot fors_chunk sig i in
      let base := set_type fb SPX_ADDR_TYPE_FORSTREE in
      path_node pub base (fors_offset i) idx (drop SPX_N chunk)
        (F_thash pub (take SPX_N chunk) (tree_node_addr base 0 (idx + fors_offset i))) SPX_FORS_HEIGHT)
    (set_type fb SPX_ADDR_TYPE_FORSPK).

(** One layer: from what the layer signs to the root of its tree. *)
Definition spec_layer_root (pub chunk root : list Z) (l tree leaf : Z) : list Z :=
  path_node pub (layer_base l tree) 0 leaf (drop SPX_WOTS_BYTES chunk)
    (F_thash pub (spec_wots_pk pub (kp_addr l tree leaf) chunk root) (kp_pk_addr l tree leaf))
    SPX_TREE_HEIGHT.

(** The first [i] layers, from the FORS public key. *)
Fixpoint spec_hyper_root (pub sig root : list Z) (tree leaf : Z) (i : nat) : list Z :=
  match i with
  | O => root
  | S l => spec_layer_root pub (slot layer_bytes sig l) (spec_hyper_root pub sig root tree leaf l)
             (Z.of_nat l) (tree_at tree l) (leaf_at tree leaf l)
  end.

(** The root a signature [R ++ fsig ++ lsig] leads to. *)
Definition spec_root (pk m R fsig lsig : list Z) : list Z :=
  let pub := take SPX_N pk in
  let '(mhash, tree, leaf) := F_message R pk m in
  spec_hyper_root pub lsig (spec_fors_pk pub (kp_addr 0 tree leaf) fsig mhash) tree leaf SPX_D.

Definition spec_verify (pk m sig : list Z) : bool :=
  bool_decide (spec_root pk m (take SPX_N sig) (take SPX_FORS_BYTES (drop SPX_N sig))
                 (drop (SPX_N + SPX_FORS_BYTES) sig) = drop SPX_N pk).

(** ** The C verifier computes it *)

Lemma length_path_node pub base off idx auth leaf h :
  length leaf = SPX_N → length (path_node pub base off idx auth leaf h) = SPX_N.
Proof. destruct h; simpl; auto with spx. Qed.

Lemma length_chain_from pub a c x s n : length x = SPX_N → length (chain_from pub a c x s n) = SPX_N.
Proof. destruct n; simpl; auto with spx. Qed.

Lemma even_land x : (Z.land x 1 =? 0) = Z.even x.
Proof. rewrite land_1, Zmod_even. by destruct (Z.even x). Qed.

Context (ctx : spx_ctx) (pub : list Z) (sk : option (list Z)) (Hctx : ctx_rep ctx pub sk).

Lemma wp_compute_root_any leaf off idx auth tree_height addr base :
  addr_sim addr base → (1 <= tree_height)%nat → Z.of_nat tree_height < 2 ^ 32 →
  length leaf = SPX_N → (tree_height * SPX_N <= length auth)%nat →
  wp (compute_root leaf idx off auth tree_height ctx addr)
     (λ '(root, addr'), root = path_node pub base off idx auth leaf tree_height ∧ addr_sim addr' base).
Proof.
  intros Haddr Hh1 Hh2 Hleaf Hlen. unfold compute_root.
  set (node := path_node pub base off idx auth leaf).
  set (pair h := if Z.even (idx / 2 ^ Z.of_nat h) then node h ++ slot SPX_N auth h
                 else slot SPX_N auth h ++ node h).
  assert (Hread : ∀ i, (i < tree_height)%nat → read auth (i * SPX_N) SPX_N = Some (slot SPX_N auth i)).
  { intros i Hi. apply read_slot. nia. }
  assert (Hhash : ∀ h a, (h < tree_height)%nat → addr_sim a base →
    thash (pair h) 2 ctx (tree_node_addr a (Z.of_nat (S h)) (u32 (idx / 2 ^ Z.of_nat (S h) + off / 2 ^ Z.of_nat (S h))))
      = Some (node (S h)) ∧
    addr_sim (tree_node_addr a (Z.of_nat (S h)) (u32 (idx / 2 ^ Z.of_nat (S h) + off / 2 ^ Z.of_nat (S h)))) base).
  { intros h a Hh Ha. destruct (tree_node_addr_sim _ _ (Z.of_nat (S h)) (u32 (idx / 2 ^ Z.of_nat (S h) + off / 2 ^ Z.of_nat (S h))) Ha) as [He Hs].
    split; [| done]. rewrite He in *. erewrite thash_ok; [done | done | lia | | apply Hs].
    assert (length (slot SPX_N auth h) = SPX_N) by (apply length_slot; nia).
    assert (length (node h) = SPX_N) by (by apply length_path_node).
    unfold pair. destruct (Z.even _); rewrite length_app; lia. }
  change (read auth 0 SPX_N) with (read auth (0 * SPX_N) SPX_N).
  rewrite Hread by lia. cbn [mbind option_bind].
  eapply wp_then with (P := λ '(x, o, buf, a), x = idx / 2 ^ Z.of_nat (tree_height - 1) ∧
    o = off / 2 ^ Z.of_nat (tree_height - 1) ∧ buf = pair (tree_height - 1)%nat ∧ addr_sim a base).
  - apply (wp_for (λ i '(x, o, buf, a), x = idx / 2 ^ Z.of_nat i ∧ o = off / 2 ^ Z.of_nat i ∧
      buf = pair i ∧ addr_sim a base)).
    + unfold pair. rewrite Z.pow_0_r, !Z.div_1_r, even_land. done.
    + intros i [[[x o] buf] a] Hi (-> & -> & -> & Ha). rewrite u32_small in Hi by (unfold in_u32; lia).
      unfold compute_root_step. rewrite !shiftr1_div.
      replace (Z.of_nat i + 1) with (Z.of_nat (S i)) by lia.
      destruct (Hhash i a) as [Ht Hs]; [lia | done |].
      unfold tree_node_addr in Ht. rewrite Ht. cbn [mbind option_bind].
      rewrite Nat.add_1_r, (Hread (S i)) by lia. cbn [mbind option_bind wp]. rewrite even_land. done.
    + intros [[[x o] buf] a]. rewrite u32_small by (unfold in_u32; lia).
      by replace (0 + Z.to_nat (Z.of_nat tree_height - 1))%nat with (tree_height - 1)%nat by lia.
  - intros [[[x o] buf] a] (-> & -> & -> & Ha). rewrite !shiftr1_div.
    destruct (Hhash (tree_height - 1)%nat a) as [Ht Hs]; [lia | done |].
    replace (S (tree_height - 1)) with tree_height in * by lia.
    unfold tree_node_addr in Ht. rewrite Ht. done.
Qed.

Lemma wp_gen_chain_any a addr c x len :
  length x = SPX_N → wots_sim addr a → on_chain addr c → is_digit len →
  wp (gen_chain x len (SPX_WOTS_W - 1 -₃₂ len) ctx addr)
     (λ '(out, addr'), out = chain_from pub a c x (Z.to_nat len) (15 - Z.to_nat len) ∧
        wots_sim addr' a ∧ on_chain addr' c).
Proof.
  unfold is_digit, gen_chain. change SPX_WOTS_W with 16. intros Hx Hsim Hon Hlen.
  rewrite (u32_small (16 - 1 - len)), u32_small by (unfold in_u32; lia).
  replace (Z.to_nat (Z.min (len + (16 - 1 - len)) 16 - len)) with (15 - Z.to_nat len)%nat by lia.
  apply (wp_for (λ i '(out, addr'), (Z.to_nat len <= i)%nat ∧
    out = chain_from pub a c x (Z.to_nat len) (i - Z.to_nat len) ∧
    wots_sim addr' a ∧ on_chain addr' c)).
  - by rewrite Nat.sub_diag.
  - intros i [out addr'] Hi (Hle & -> & Hs & Ho). rewrite (on_chain_hash_addr _ c) by done.
    destruct (wots_sim_hash_addr _ _ c (Z.of_nat i) Hs) as [He Hs'].
    erewrite thash_ok; [| done | lia | by rewrite length_chain_from, Nat.mul_1_l | apply Hs'].
    cbn [mbind option_bind wp]. split_and!; [lia | | done | apply on_chain_hash, Hs].
    replace (S i - Z.to_nat len)%nat with (S (i - Z.to_nat len)) by lia. cbn [chain_from].
    rewrite He. do 3 f_equal. lia.
  - intros [out addr'] (_ & -> & ? & ?). split_and!; [f_equal; lia | done | done].
Qed.

Lemma length_wots_digits msg : length msg = SPX_N → length (wots_digits msg) = SPX_WOTS_LEN.
Proof. intros Hl. unfold wots_digits. by rewrite length_app, length_nibbles, Hl. Qed.

Lemma wp_wots_pk_from_sig_any a pk sig msg addr :
  wots_sim addr a → set_type addr SPX_ADDR_TYPE_WOTS = addr →
  length msg = SPX_N → length pk = SPX_WOTS_BYTES → (SPX_WOTS_BYTES <= length sig)%nat →
  wp (wots_pk_from_sig pk sig msg ctx addr)
     (λ '(pk', addr'), pk' = spec_wots_pk pub a sig msg ∧ length pk' = SPX_WOTS_BYTES ∧
        wots_sim addr' a ∧ set_type addr' SPX_ADDR_TYPE_WOTS = addr').
Proof.
  intros Hsim Hty Hlm Hlp Hls. unfold wots_pk_from_sig. pose proof (chain_lengths_ok msg Hlm) as Hok.
  rewrite chain_lengths_eq in * by done. fold (wots_digits msg) in *. destruct Hok as [Hlen Hdig].
  cbn [mbind option_bind].
  set (f := λ c : nat, chain_from pub a (Z.of_nat c) (slot SPX_N sig c)
    (Z.to_nat (wots_digits msg !!! c)) (15 - Z.to_nat (wots_digits msg !!! c))).
  apply (wp_for (λ i '(pk', addr'), length pk' = SPX_WOTS_BYTES ∧
    (∀ c, (c < i)%nat → slot SPX_N pk' c = f c) ∧
    wots_sim addr' a ∧ set_type addr' SPX_ADDR_TYPE_WOTS = addr')).
  - split_and!; try done. lia.
  - intros i [pk' addr'] Hi (Hlp' & Hpk & Hs & Ht).
    assert (Hb : ((i + 1) * SPX_N <= SPX_WOTS_BYTES)%nat) by (unfold SPX_WOTS_BYTES; nia).
    rewrite read_slot by lia. cbn [mbind option_bind].
    destruct (lookup_lt_is_Some_2 (wots_digits msg) i) as [len Hx]; [lia |].
    rewrite Hx. cbn [mbind option_bind].
    assert (Hsl : length (slot SPX_N sig i) = SPX_N) by (apply length_slot; lia).
    eapply wp_then.
    { apply (wp_gen_chain_any a _ (Z.of_nat i)); [done | by apply wots_sim_set_chain | |].
      - apply on_chain_set; [apply Hs | done].
      - by eapply Forall_lookup_1. }
    intros [out addr''] (-> & Hs' & Ho').
    eapply wp_then; [apply (wp_write_slot SPX_N); [by apply length_chain_from | lia] |].
    intros b (Hlb & Heq & Hne). cbn [wp]. split_and!; [lia | | done | by eapply on_chain_typed; [apply Hs' |]].
    intros c Hc. destruct (decide (c = i)) as [->|].
    + rewrite Heq. unfold f. by rewrite (list_lookup_total_correct _ _ _ Hx).
    + rewrite Hne by done. apply Hpk. lia.
  - intros [pk' addr'] (Hlp' & Hpk & Hs & Ht). split_and!; try done. by apply (slots_eq SPX_N).
Qed.

Lemma wp_fors_pk_tree_any fb sig indices i index roots a :
  (i < SPX_FORS_TREES)%nat → indices !! i = Some index → 0 <= index < 256 →
  length sig = SPX_FORS_BYTES → length roots = (SPX_FORS_TREES * SPX_N)%nat →
  addr_sim a (set_type fb SPX_ADDR_TYPE_FORSTREE) →
  wp (fors_pk_tree sig ctx indices i (roots, a))
     (λ '(roots', a'), length roots' = (SPX_FORS_TREES * SPX_N)%nat ∧
        addr_sim a' (set_type fb SPX_ADDR_TYPE_FORSTREE) ∧
        (∀ j, j ≠ i → slot SPX_N roots' j = slot SPX_N roots j) ∧
        slot SPX_N roots' i =
          path_node pub (set_type fb SPX_ADDR_TYPE_FORSTREE) (fors_offset i) index
            (drop SPX_N (slot fors_chunk sig i))
            (F_thash pub (take SPX_N (slot fors_chunk sig i))
               (tree_node_addr (set_type fb SPX_ADDR_TYPE_FORSTREE) 0 (index + fors_offset i)))
            SPX_FORS_HEIGHT).
Proof.
  intros Hi Hidx Hr Hls Hlr Hsim. unfold fors_pk_tree. rewrite Hidx. cbn [mbind option_bind].
  assert (Hb : ((i + 1) * fors_chunk <= length sig)%nat).
  { rewrite Hls. unfold fors_chunk, SPX_FORS_BYTES, SPX_FORS_HEIGHT, SPX_FORS_TREES, SPX_N in *. lia. }
  change (Z.of_nat i * Z.shiftl 1 (Z.of_nat SPX_FORS_HEIGHT)) with (fors_offset i).
  rewrite u32_small by (by apply fors_range_offset).
  fold (tree_node_addr a 0 (index + fors_offset i)).
  destruct (tree_node_addr_sim _ _ 0 (index + fors_offset i) Hsim) as [He Hsim'].
  rewrite (read_in_slot fors_chunk _ i 0 SPX_N (i * fors_chunk)) by (lia || (unfold fors_chunk; lia)).
  rewrite drop_0. cbn [mbind option_bind].
  set (chunk := slot fors_chunk sig i) in *.
  assert (Hlc : length chunk = fors_chunk) by (by apply length_slot).
  unfold fors_sk_to_leaf.
  erewrite thash_ok; [| done | lia | rewrite length_take, Hlc; unfold fors_chunk; lia | apply Hsim'].
  rewrite He in *. cbn [mbind option_bind].
  rewrite (read_in_slot fors_chunk _ i SPX_N) by (lia || (unfold fors_chunk; lia)).
  cbn [mbind option_bind]. fold chunk.
  rewrite (take_ge (drop SPX_N chunk)) by (rewrite length_drop, Hlc; unfold fors_chunk; lia).
  eapply wp_then.
  { apply (wp_compute_root_any _ (fors_offset i) index _ SPX_FORS_HEIGHT _ _ Hsim').
    - unfold SPX_FORS_HEIGHT. lia.
    - done.
    - apply length_F_thash.
    - rewrite length_drop, Hlc. unfold fors_chunk. lia. }
  intros [root a'] [-> Ha']. eapply wp_then; [apply (wp_write_slot SPX_N) |].
  { apply length_path_node, length_F_thash. }
  { rewrite Hlr. nia. }
  intros roots' (Hlr' & Hri & Hro). cbn [wp]. split_and!; [lia | done | done | done].
Qed.

Context {U : Uninit}.

Lemma fors_pk_from_sig_any sig m fors_addr :
  (SPX_FORS_TREES <= length m)%nat → is_addr fors_addr → length sig = SPX_FORS_BYTES →
  fors_pk_from_sig sig m ctx fors_addr
    = Some (spec_fors_pk pub (copy_keypair_addr zero_addr fors_addr) sig m).
Proof.
  intros Hm Ha Hls. unfold fors_pk_from_sig. rewrite message_to_indices_eq by done.
  cbn [mbind option_bind]. unfold spec_fors_pk. set (fb := copy_keypair_addr zero_addr fors_addr) in *.
  assert (Hfb : is_addr fb) by (unfold fb; auto with addr). apply wp_eq.
  match goal with |- context [seq 0 SPX_FORS_TREES ≫= ?f0] => set (f := f0) end.
  eapply wp_then with (P := λ '(roots, _), length roots = (SPX_FORS_TREES * SPX_N)%nat ∧
    ∀ i, (i < SPX_FORS_TREES)%nat → slot SPX_N roots i = f i).
  - apply (wp_for (λ k '(roots, a), length roots = (SPX_FORS_TREES * SPX_N)%nat ∧
      addr_sim a (set_type fb SPX_ADDR_TYPE_FORSTREE) ∧
      ∀ i, (i < k)%nat → slot SPX_N roots i = f i)).
    + split_and!; [apply length_uninit | apply addr_sim_refl; auto with addr | lia].
    + intros k [roots a] Hk (Hlr & Hs & Hok).
      destruct (lookup_lt_is_Some_2 m k) as [b Hb]; [lia |].
      eapply wp_mono; [apply (wp_fors_pk_tree_any fb sig _ k (b mod 2 ^ 8)); try done |].
      * lia.
      * apply lookup_indices; [lia | done].
      * apply byte_mod_range.
      * intros [roots2 a2] (? & ? & Hne & Hro). split_and!; try done.
        intros i Hlt. destruct (decide (i = k)) as [->|Hik].
        -- rewrite Hro. unfold f. by rewrite (list_lookup_total_correct _ _ _ Hb).
        -- rewrite Hne by done. apply Hok. lia.
    + intros [roots a] (Hlr & _ & Hok). done.
  - intros [roots a] (Hlr & Hr).
    erewrite thash_ok; [| done | unfold SPX_FORS_TREES; lia | done | auto with addr].
    by rewrite (slots_eq SPX_N SPX_FORS_TREES roots _ Hlr Hr).
Qed.

(** One layer of the verification loop, on any signature. *)
Lemma wp_verify_layer_any sig i root w a p pkb tree leaf l t k l' t' pl pt pk0 :
  (i < SPX_D)%nat → length sig = (SPX_D * layer_bytes)%nat →
  length root = SPX_N → length pkb = SPX_WOTS_BYTES →
  wots_sim w (kp_addr l t k) → set_type w SPX_ADDR_TYPE_WOTS = w →
  addr_sim a (layer_base l' t') → p = kp_pk_addr pl pt pk0 →
  wp (verify_layer sig ctx i (root, w, a, p, pkb, tree, leaf))
     (λ '(root', w', a', p', pkb', tree', leaf'),
        root' = spec_layer_root pub (slot layer_bytes sig i) root (Z.of_nat i) tree leaf ∧
        wots_sim w' (kp_addr (Z.of_nat i) tree leaf) ∧ set_type w' SPX_ADDR_TYPE_WOTS = w' ∧
        addr_sim a' (layer_base (Z.of_nat i) tree) ∧ p' = kp_pk_addr (Z.of_nat i) tree leaf ∧
        length pkb' = SPX_WOTS_BYTES ∧ tree' = next_tree tree ∧ leaf' = next_leaf tree).
Proof.
  intros Hi Hls Hlr Hlp Hw Hty Ha ->. unfold verify_layer.
  pose proof (layer_bytes_fit i Hi) as Hfit.
  destruct (layer_base_enter _ _ _ (Z.of_nat i) tree Ha) as (Ha1 & _ & Hcp).
  rewrite Hcp. destruct (kp_addr_enter _ _ _ _ (Z.of_nat i) tree leaf Hw) as [Hw1 _].
  pose proof (typed_enter w (Z.of_nat i) tree leaf (proj1 Hw) Hty) as Hty1.
  set (a1 := set_tree_addr (set_layer_addr a (Z.of_nat i)) tree) in *.
  set (w1 := set_keypair_addr (copy_subtree_addr w (layer_addr (Z.of_nat i) tree)) leaf) in *.
  rewrite (kp_pk_addr_enter w1 _ _ _ _ _ _ Hw1).
  unfold spec_layer_root. set (chunk := slot layer_bytes sig i) in *.
  assert (Hlc : length chunk = layer_bytes) by (apply length_slot; lia).
  rewrite (read_in_slot layer_bytes _ i 0 SPX_WOTS_BYTES (i * layer_bytes)) by (lia || (unfold layer_bytes; lia)).
  rewrite drop_0. fold chunk. cbn [mbind option_bind].
  assert (Hwpk : spec_wots_pk pub (kp_addr (Z.of_nat i) tree leaf) (take SPX_WOTS_BYTES chunk) root
    = spec_wots_pk pub (kp_addr (Z.of_nat i) tree leaf) chunk root).
  { unfold spec_wots_pk. apply bind_seq_ext. intros c Hc.
    by rewrite slot_take by (unfold SPX_WOTS_BYTES; nia). }
  eapply wp_then.
  { apply (wp_wots_pk_from_sig_any (kp_addr (Z.of_nat i) tree leaf)); try done.
    rewrite length_take, Hlc. unfold layer_bytes. lia. }
  intros [pkb' w'] (Hpkb & Hlpk & Hw' & Hty'). rewrite Hwpk in Hpkb. rewrite <-Hpkb.
  erewrite thash_ok; [| done | change SPX_WOTS_LEN with 51%nat; lia | done
    | unfold kp_pk_addr; auto with addr].
  cbn [mbind option_bind].
  rewrite (read_in_slot layer_bytes _ i SPX_WOTS_BYTES) by (lia || (unfold layer_bytes; lia)).
  cbn [mbind option_bind]. fold chunk.
  rewrite (take_ge (drop SPX_WOTS_BYTES chunk)) by (rewrite length_drop, Hlc; unfold layer_bytes; lia).
  eapply wp_then.
  { apply (wp_compute_root_any _ 0 leaf _ SPX_TREE_HEIGHT _ _ Ha1); try done.
    - change SPX_TREE_HEIGHT with 3%nat. lia.
    - apply length_F_thash.
    - rewrite length_drop, Hlc. unfold layer_bytes. lia. }
  intros [root' a'] [-> Ha']. cbn [wp]. done.
Qed.

Lemma length_spec_hyper_root sig root tree leaf i :
  length root = SPX_N → length (spec_hyper_root pub sig root tree leaf i) = SPX_N.
Proof. intros. destruct i; [done |]. apply length_path_node, length_F_thash. Qed.

Lemma wp_verify_layers_any sig root w a pkb tree leaf l t k l' t' pl pt pk0 :
  length sig = (SPX_D * layer_bytes)%nat → length root = SPX_N → length pkb = SPX_WOTS_BYTES →
  wots_sim w (kp_addr l t k) → set_type w SPX_ADDR_TYPE_WOTS = w → addr_sim a (layer_base l' t') →
  wp (for_loop SPX_D 0 (verify_layer sig ctx) (root, w, a, kp_pk_addr pl pt pk0, pkb, tree, leaf))
     (λ '(root', _, _, _, _, _, _), root' = spec_hyper_root pub sig root tree leaf SPX_D).
Proof.
  intros Hls Hlm Hlp Hw Hty Ha.
  apply (wp_for (λ i '(root', w', a', p', pkb', tree', leaf'),
    root' = spec_hyper_root pub sig root tree leaf i ∧
    tree' = tree_at tree i ∧ leaf' = leaf_at tree leaf i ∧
    length pkb' = SPX_WOTS_BYTES ∧ set_type w' SPX_ADDR_TYPE_WOTS = w' ∧
    (∃ l t k, wots_sim w' (kp_addr l t k)) ∧ (∃ l t, addr_sim a' (layer_base l t)) ∧
    (∃ l t k, p' = kp_pk_addr l t k))).
  - split_and!; eauto.
  - intros i [[[[[[root' w'] a'] p'] pkb'] tree'] leaf'] Hi
      (-> & -> & -> & Hlp' & Hty' & (? & ? & ? & Hw') & (? & ? & Ha') & (? & ? & ? & ->)).
    eapply wp_mono.
    { eapply wp_verify_layer_any; eauto; [lia | by apply length_spec_hyper_root]. }
    intros [[[[[[root2 w2] a2] p2] pkb2] tree2] leaf2]
      (-> & Hw2 & Hty2 & Ha2 & -> & Hlp2 & -> & ->).
    split_and!; eauto.
  - intros [[[[[[root' w'] a'] p'] pkb'] tree'] leaf'] (-> & _). done.
Qed.
End reference.

(** ** The whole verifier *)

Section verify.
Context {H : SpxHash} {L : SpxHashLaws H} {U : Uninit}.

Lemma verify_eq sig m pk :
  length sig = SPX_BYTES → length pk = SPX_PK_BYTES → msg_fits m →
  crypto_sign_verify sig SPX_BYTES m pk = Some (if spec_verify pk m sig then 0 else -1).
Proof.
  intros Hls Hlp Hm. unfold crypto_sign_verify, spec_verify. rewrite decide_False by (intros C; done).
  destruct (split_at SPX_N pk) as (pub & root & -> & Hpub); [rewrite Hlp; unfold SPX_PK_BYTES; lia |].
  change SPX_BYTES with (SPX_N + (SPX_FORS_BYTES + SPX_D * layer_bytes))%nat in Hls.
  destruct (split_at SPX_N sig) as (R & sig1 & -> & HR); [lia |]. rewrite length_app in Hls.
  destruct (split_at SPX_FORS_BYTES sig1) as (fsig & lsig & -> & Hlf); [lia |]. rewrite length_app in Hls.
  pose proof Hlp as Hlp'. rewrite length_app in Hlp'. unfold SPX_PK_BYTES in Hlp'.
  rewrite (read_front pub root SPX_N) by lia. cbn [mbind option_bind].
  destruct (proj1 (wp_exists _ _) (initialize_ok pub None Hpub I)) as (ctx & Hc & Hctx).
  rewrite Hc. cbn [mbind option_bind].
  rewrite (read_front R) by lia. cbn [mbind option_bind].
  rewrite (read_all (pub ++ root) SPX_PK_BYTES) by lia. cbn [mbind option_bind].
  rewrite (hash_message_ok ctx pub None) by done. cbn [mbind option_bind].
  rewrite <-HR, take_app_length, drop_app_length, <-Hlf, take_app_length, <-length_app, app_assoc, drop_app_length.
  rewrite length_app, HR, Hlf. unfold spec_root.
  rewrite <-Hpub, take_app_length, drop_app_length, Hpub.
  pose proof (F_message_range R (pub ++ root) m) as (Hmh & Htree & Hleaf).
  destruct (F_message R (pub ++ root) m) as [[mhash tree] leaf]. cbn [fst snd] in *.
  rewrite <-app_assoc, (read_app R fsig lsig SPX_N) by lia. cbn [mbind option_bind].
  assert (Hfa : is_addr (set_keypair_addr (set_tree_addr (set_type zero_addr SPX_ADDR_TYPE_WOTS) tree) leaf))
    by auto with addr.
  rewrite (fors_pk_from_sig_any ctx pub None Hctx _ _ _) by (done || (rewrite Hmh; done)).
  cbn [mbind option_bind].
  rewrite (app_assoc R), <-(app_nil_r lsig), read_app by (rewrite ?length_app; lia). cbn [mbind option_bind].
  rewrite app_nil_r. apply wp_eq. eapply wp_then.
  { apply (wp_verify_layers_any ctx pub None Hctx lsig _ _ _ _ tree leaf 0 tree leaf 0 0 0 0 0); try done.
    - lia.
    - apply length_F_thash.
    - apply length_uninit. }
  intros [[[[[[root' ?] ?] ?] ?] ?] ?] ->.
  destruct (proj1 (wp_exists _ _) (free_ok _ _ _ Hctx)) as (? & Hf & _). rewrite Hf. cbn [mbind option_bind].
  rewrite <-(app_nil_r root), read_app by lia. cbn [mbind option_bind]. rewrite app_nil_r.
  change (copy_keypair_addr zero_addr _) with (kp_addr 0 tree leaf).
  case_decide as Hd; [rewrite bool_decide_true by done | rewrite bool_decide_false by done]; done.
Qed.
End verify.

(** ** Signing, then verifying; attached signatures *)

Section attached.
Context {H : SpxHash} {L : SpxHashLaws H} {U : Uninit}.

Lemma verify_any sig siglen m pk :
  length sig = siglen → length pk = SPX_PK_BYTES → msg_fits m →
  crypto_sign_verify sig siglen m pk
    = Some (if bool_decide (siglen = SPX_BYTES) && spec_verify pk m sig then 0 else -1).
Proof.
  intros Hls Hlp Hm. case_bool_decide as Hd.
  - subst siglen. rewrite Hd in *. by apply verify_eq.
  - unfold crypto_sign_verify. by rewrite decide_True.
Qed.

(** The signed message [sm] is accepted. *)
Definition spec_open (pk sm : list Z) : bool :=
  bool_decide (SPX_BYTES <= length sm)%nat &&
  spec_verify pk (drop SPX_BYTES sm) (take SPX_BYTES sm).

Lemma open_any m0 sm pk :
  length pk = SPX_PK_BYTES → (length sm <= length m0)%nat → msg_fits sm →
  crypto_sign_open m0 sm (length sm) pk =
    Some (if spec_open pk sm
          then (0, put m0 0 (drop SPX_BYTES sm), (length sm - SPX_BYTES)%nat)
          else (-1, put m0 0 (replicate (length sm) 0), 0%nat)).
Proof.
  intros Hlp Hm0 Hsm. unfold crypto_sign_open, spec_open, msg_fits in *.
  assert (Hz : write m0 0 (replicate (length sm) 0) = Some (put m0 0 (replicate (length sm) 0)))
    by (apply write_Some; rewrite length_replicate; lia).
  case_decide as Hd.
  - rewrite bool_decide_false by lia. cbn [andb]. by rewrite Hz.
  - rewrite bool_decide_true by lia. cbn [andb]. rewrite read_Some by lia. cbn [mbind option_bind].
    rewrite read_Some by lia. cbn [mbind option_bind]. rewrite drop_0.
    rewrite (take_ge (drop SPX_BYTES sm)) by (rewrite length_drop; lia).
    rewrite verify_eq; [| rewrite length_take; lia | done | unfold msg_fits; rewrite length_drop; lia].
    cbn [mbind option_bind]. destruct (spec_verify _ _ _).
    + rewrite decide_False by lia. rewrite write_Some by (rewrite length_drop; lia). done.
    + rewrite decide_True by lia. by rewrite Hz.
Qed.
End attached.
