(* ===== verification/Sha2.v ===== *)
(** SHA-2 as implemented in src/common/sha2/sha2_c.c: word codecs, the macros of
    the compression function, block processing, and the incremental and
    one-shot functions of SHA-224/256/384/512.

    The macros come in a 32-bit and a 64-bit copy with the same text; a
    [sha2_core] holds what differs (word size, codecs, rotations, constants)
    and each macro is one definition over it.  A heap-allocated hash state
    ([ctx] pointer) is the list of its bytes, [None] once it is freed; an input
    pointer with its length is a list. *)
From S2P Require Import Prelude.

Open Scope c_scope.

(** ** Codecs *)

Definition load_bigendian_32 (x : list Z) (off : nat) : option Z :=
  x0 ← x !! off; x1 ← x !! (off + 1)%nat; x2 ← x !! (off + 2)%nat; x3 ← x !! (off + 3)%nat;
  Some (Z.lor (Z.lor (Z.lor x3 (u32 (Z.shiftl x2 8))) (u32 (Z.shiftl x1 16)))
          (u32 (Z.shiftl x0 24))).

Definition load_bigendian_64 (x : list Z) (off : nat) : option Z :=
  x0 ← x !! off; x1 ← x !! (off + 1)%nat; x2 ← x !! (off + 2)%nat; x3 ← x !! (off + 3)%nat;
  x4 ← x !! (off + 4)%nat; x5 ← x !! (off + 5)%nat; x6 ← x !! (off + 6)%nat; x7 ← x !! (off + 7)%nat;
  Some (Z.lor (Z.lor (Z.lor (Z.lor (Z.lor (Z.lor (Z.lor x7
          (u64 (Z.shiftl x6 8))) (u64 (Z.shiftl x5 16))) (u64 (Z.shiftl x4 24)))
          (u64 (Z.shiftl x3 32))) (u64 (Z.shiftl x2 40))) (u64 (Z.shiftl x1 48)))
          (u64 (Z.shiftl x0 56))).

(** The bytes stored, in memory order. *)
Definition store_bigendian_32 (u : Z) : list Z :=
  let x3 := u8 u in let u := u >> 8 in
  let x2 := u8 u in let u := u >> 8 in
  let x1 := u8 u in let u := u >> 8 in
  let x0 := u8 u in
  [x0; x1; x2; x3].

Definition store_bigendian_64 (u : Z) : list Z :=
  let x7 := u8 u in let u := u >> 8 in
  let x6 := u8 u in let u := u >> 8 in
  let x5 := u8 u in let u := u >> 8 in
  let x4 := u8 u in let u := u >> 8 in
  let x3 := u8 u in let u := u >> 8 in
  let x2 := u8 u in let u := u >> 8 in
  let x1 := u8 u in let u := u >> 8 in
  let x0 := u8 u in
  [x0; x1; x2; x3; x4; x5; x6; x7].

(** ** Macros *)

Definition SHR (x c : Z) : Z := x >> c.
Definition ROTR_32 (x c : Z) : Z := Z.lor (x >> c) (u32 (Z.shiftl x (32 - c))).
Definition ROTR_64 (x c : Z) : Z := Z.lor (x >> c) (u64 (Z.shiftl x (64 - c))).

Definition Ch (x y z : Z) : Z := (x & y) ⊻ (Z.lnot x & z).
Definition Maj (x y z : Z) : Z := (x & y) ⊻ (x & z) ⊻ (y & z).

Definition Sigma0_32 (x : Z) : Z := ROTR_32 x 2 ⊻ ROTR_32 x 13 ⊻ ROTR_32 x 22.
Definition Sigma1_32 (x : Z) : Z := ROTR_32 x 6 ⊻ ROTR_32 x 11 ⊻ ROTR_32 x 25.
Definition sigma0_32 (x : Z) : Z := ROTR_32 x 7 ⊻ ROTR_32 x 18 ⊻ SHR x 3.
Definition sigma1_32 (x : Z) : Z := ROTR_32 x 17 ⊻ ROTR_32 x 19 ⊻ SHR x 10.

Definition Sigma0_64 (x : Z) : Z := ROTR_64 x 28 ⊻ ROTR_64 x 34 ⊻ ROTR_64 x 39.
Definition Sigma1_64 (x : Z) : Z := ROTR_64 x 14 ⊻ ROTR_64 x 18 ⊻ ROTR_64 x 41.
Definition sigma0_64 (x : Z) : Z := ROTR_64 x 1 ⊻ ROTR_64 x 8 ⊻ SHR x 7.
Definition sigma1_64 (x : Z) : Z := ROTR_64 x 19 ⊻ ROTR_64 x 61 ⊻ SHR x 6.

(** The round constants, sixteen per pass over the schedule window. *)
Definition K_256 : list (list Z) := [
    [0x428a2f98; 0x71374491; 0xb5c0fbcf; 0xe9b5dba5;
     0x3956c25b; 0x59f111f1; 0x923f82a4; 0xab1c5ed5] ++
    [0xd807aa98; 0x12835b01; 0x243185be; 0x550c7dc3;
     0x72be5d74; 0x80deb1fe; 0x9bdc06a7; 0xc19bf174];
    [0xe49b69c1; 0xefbe4786; 0x0fc19dc6; 0x240ca1cc;
     0x2de92c6f; 0x4a7484aa; 0x5cb0a9dc; 0x76f988da] ++
    [0x983e5152; 0xa831c66d; 0xb00327c8; 0xbf597fc7;
     0xc6e00bf3; 0xd5a79147; 0x06ca6351; 0x14292967];
    [0x27b70a85; 0x2e1b2138; 0x4d2c6dfc; 0x53380d13;
     0x650a7354; 0x766a0abb; 0x81c2c92e; 0x92722c85] ++
    [0xa2bfe8a1; 0xa81a664b; 0xc24b8b70; 0xc76c51a3;
     0xd192e819; 0xd6990624; 0xf40e3585; 0x106aa070];
    [0x19a4c116; 0x1e376c08; 0x2748774c; 0x34b0bcb5;
     0x391c0cb3; 0x4ed8aa4a; 0x5b9cca4f; 0x682e6ff3] ++
    [0x748f82ee; 0x78a5636f; 0x84c87814; 0x8cc70208;
     0x90befffa; 0xa4506ceb; 0xbef9a3f7; 0xc67178f2]
  ].

Definition K_512 : list (list Z) := [
    [0x428a2f98d728ae22; 0x7137449123ef65cd; 0xb5c0fbcfec4d3b2f; 0xe9b5dba58189dbbc;
     0x3956c25bf348b538; 0x59f111f1b605d019; 0x923f82a4af194f9b; 0xab1c5ed5da6d8118;
     0xd807aa98a3030242; 0x12835b0145706fbe; 0x243185be4ee4b28c; 0x550c7dc3d5ffb4e2;
     0x72be5d74f27b896f; 0x80deb1fe3b1696b1; 0x9bdc06a725c71235; 0xc19bf174cf692694];
    [0xe49b69c19ef14ad2; 0xefbe4786384f25e3; 0x0fc19dc68b8cd5b5; 0x240ca1cc77ac9c65;
     0x2de92c6f592b0275; 0x4a7484aa6ea6e483; 0x5cb0a9dcbd41fbd4; 0x76f988da831153b5;
     0x983e5152ee66dfab; 0xa831c66d2db43210; 0xb00327c898fb213f; 0xbf597fc7beef0ee4;
     0xc6e00bf33da88fc2; 0xd5a79147930aa725; 0x06ca6351e003826f; 0x142929670a0e6e70];
    [0x27b70a8546d22ffc; 0x2e1b21385c26c926; 0x4d2c6dfc5ac42aed; 0x53380d139d95b3df;
     0x650a73548baf63de; 0x766a0abb3c77b2a8; 0x81c2c92e47edaee6; 0x92722c851482353b;
     0xa2bfe8a14cf10364; 0xa81a664bbc423001; 0xc24b8b70d0f89791; 0xc76c51a30654be30;
     0xd192e819d6ef5218; 0xd69906245565a910; 0xf40e35855771202a; 0x106aa07032bbd1b8];
    [0x19a4c116b8d2d0c8; 0x1e376c085141ab53; 0x2748774cdf8eeb99; 0x34b0bcb5e19b48a8;
     0x391c0cb3c5c95a63; 0x4ed8aa4ae3418acb; 0x5b9cca4f7763e373; 0x682e6ff3d6b2b8a3;
     0x748f82ee5defb2fc; 0x78a5636f43172f60; 0x84c87814a1f0ab72; 0x8cc702081a6439ec;
     0x90befffa23631e28; 0xa4506cebde82bde9; 0xbef9a3f7b2c67915; 0xc67178f2e372532b];
    [0xca273eceea26619c; 0xd186b8c721c0c207; 0xeada7dd6cde0eb1e; 0xf57d4f7fee6ed178;
     0x06f067aa72176fba; 0x0a637dc5a2c898a6; 0x113f9804bef90dae; 0x1b710b35131c471b;
     0x28db77f523047d84; 0x32caab7b40c72493; 0x3c9ebe0a15c9bebc; 0x431d67c49c100d4c;
     0x4cc5d4becb3e42b6; 0x597f299cfc657e2a; 0x5fcb6fab3ad6faec; 0x6c44198c4a475817]
  ].

(** What distinguishes the 32-bit functions from the 64-bit ones. *)
Record sha2_core := {
  word_bytes : nat;
  load_word : list Z → nat → option Z;
  store_word : Z → list Z;
  Sigma0 : Z → Z;
  Sigma1 : Z → Z;
  sigma0 : Z → Z;
  sigma1 : Z → Z;
  K_words : list (list Z);
}.

Definition core_32 : sha2_core := {|
  word_bytes := 4; load_word := load_bigendian_32; store_word := store_bigendian_32;
  Sigma0 := Sigma0_32; Sigma1 := Sigma1_32; sigma0 := sigma0_32; sigma1 := sigma1_32;
  K_words := K_256 |}.
Definition core_64 : sha2_core := {|
  word_bytes := 8; load_word := load_bigendian_64; store_word := store_bigendian_64;
  Sigma0 := Sigma0_64; Sigma1 := Sigma1_64; sigma0 := sigma0_64; sigma1 := sigma1_64;
  K_words := K_512 |}.

(** Arithmetic in the word type. *)
Definition word (c : sha2_core) (x : Z) : Z := x mod 2 ^ (8 * Z.of_nat (word_bytes c)).

(** The working variables [a] to [h]. *)
Record regs := Regs { ra : Z; rb : Z; rc : Z; rd : Z; re : Z; rf : Z; rg : Z; rh : Z }.

(** [M(w0, w14, w9, w1)] over the schedule variables [w]. *)
Definition M (c : sha2_core) (w : list Z) (w0 w14 w9 w1 : nat) : list Z :=
  <[w0 := word c (sigma1 c (w !!! w14) + w !!! w9 + sigma0 c (w !!! w1) + w !!! w0)]> w.

Definition EXPAND (c : sha2_core) (w : list Z) : list Z :=
  let w := M c w 0 14 9 1 in
  let w := M c w 1 15 10 2 in
  let w := M c w 2 0 11 3 in
  let w := M c w 3 1 12 4 in
  let w := M c w 4 2 13 5 in
  let w := M c w 5 3 14 6 in
  let w := M c w 6 4 15 7 in
  let w := M c w 7 5 0 8 in
  let w := M c w 8 6 1 9 in
  let w := M c w 9 7 2 10 in
  let w := M c w 10 8 3 11 in
  let w := M c w 11 9 4 12 in
  let w := M c w 12 10 5 13 in
  let w := M c w 13 11 6 14 in
  let w := M c w 14 12 7 15 in
  M c w 15 13 8 0.

Definition F (c : sha2_core) (r : regs) (wk : Z * Z) : regs :=
  let '(w, k) := wk in
  let '(Regs a b cc d e f g h) := r in
  let T1 := word c (h + Sigma1 c e + Ch e f g + k + w) in
  let T2 := word c (Sigma0 c a + Maj a b cc) in
  Regs (word c (T1 + T2)) a b cc (word c (d + T1)) e f g.

(** Sixteen rounds per row of constants, the window expanded in between. *)
Fixpoint rounds (c : sha2_core) (ks : list (list Z)) (w : list Z) (r : regs) : regs :=
  match ks with
  | [] => r
  | [k] => foldl (F c) r (zip w k)
  | k :: ks => rounds c ks (EXPAND c w) (foldl (F c) r (zip w k))
  end.

Definition regs_of (s : list Z) : regs :=
  Regs (s !!! 0%nat) (s !!! 1%nat) (s !!! 2%nat) (s !!! 3%nat)
       (s !!! 4%nat) (s !!! 5%nat) (s !!! 6%nat) (s !!! 7%nat).
Definition regs_list (r : regs) : list Z :=
  let '(Regs a b c d e f g h) := r in [a; b; c; d; e; f; g; h].

(** [a += state[0]; ...; state[0] = a; ...] *)
Definition add_state (c : sha2_core) (r : regs) (state : list Z) : list Z :=
  zip_with (λ x y, word c (x + y)) (regs_list r) state.

(** The [n] words at [x + off]. *)
Definition load_words (c : sha2_core) (x : list Z) (off n : nat) : option (list Z) :=
  mapM (λ i, load_word c x (off + i * word_bytes c)) (seq 0 n).

(** One turn of [while (inlen >= blocksize)], over the state words, the
    position in the input and the remaining length. *)
Definition hashblocks_step (c : sha2_core) (inp : list Z) (s : list Z * nat * nat)
    : option (ctl (list Z * nat * nat) (list Z * nat)) :=
  let '(state, pos, inlen) := s in
  let bs := (16 * word_bytes c)%nat in
  if decide (bs <= inlen)%nat then
    w ← load_words c inp pos 16;
    let r := rounds c (K_words c) w (regs_of state) in
    Some (Next (add_state c r state, (pos + bs)%nat, (inlen - bs)%nat))
  else Some (Done (state, inlen)).

(** The updated [statebytes] and the length left over. *)
Definition crypto_hashblocks (c : sha2_core) (statebytes inp : list Z) (inlen : nat)
    : option (list Z * nat) :=
  state ← load_words c statebytes 0 8;
  '(state, inlen) ← loop (S (inlen / (16 * word_bytes c))) (hashblocks_step c inp) (state, 0%nat, inlen);
  statebytes ← write statebytes 0 (state ≫= store_word c);
  Some (statebytes, inlen).

Definition crypto_hashblocks_sha256_c := crypto_hashblocks core_32.
Definition crypto_hashblocks_sha512_c := crypto_hashblocks core_64.

(** ** Initial values *)

Definition iv_224 : list Z :=
  [0xc1; 0x05; 0x9e; 0xd8; 0x36; 0x7c; 0xd5; 0x07; 0x30; 0x70; 0xdd; 0x17;
   0xf7; 0x0e; 0x59; 0x39; 0xff; 0xc0; 0x0b; 0x31; 0x68; 0x58; 0x15; 0x11;
   0x64; 0xf9; 0x8f; 0xa7; 0xbe; 0xfa; 0x4f; 0xa4].
Definition iv_256 : list Z :=
  [0x6a; 0x09; 0xe6; 0x67; 0xbb; 0x67; 0xae; 0x85; 0x3c; 0x6e; 0xf3; 0x72;
   0xa5; 0x4f; 0xf5; 0x3a; 0x51; 0x0e; 0x52; 0x7f; 0x9b; 0x05; 0x68; 0x8c;
   0x1f; 0x83; 0xd9; 0xab; 0x5b; 0xe0; 0xcd; 0x19].
Definition iv_384 : list Z :=
  [0xcb; 0xbb; 0x9d; 0x5d; 0xc1; 0x05; 0x9e; 0xd8; 0x62; 0x9a; 0x29; 0x2a;
   0x36; 0x7c; 0xd5; 0x07; 0x91; 0x59; 0x01; 0x5a; 0x30; 0x70; 0xdd; 0x17;
   0x15; 0x2f; 0xec; 0xd8; 0xf7; 0x0e; 0x59; 0x39; 0x67; 0x33; 0x26; 0x67;
   0xff; 0xc0; 0x0b; 0x31; 0x8e; 0xb4; 0x4a; 0x87; 0x68; 0x58; 0x15; 0x11;
   0xdb; 0x0c; 0x2e; 0x0d; 0x64; 0xf9; 0x8f; 0xa7; 0x47; 0xb5; 0x48; 0x1d;
   0xbe; 0xfa; 0x4f; 0xa4].
Definition iv_512 : list Z :=
  [0x6a; 0x09; 0xe6; 0x67; 0xf3; 0xbc; 0xc9; 0x08; 0xbb; 0x67; 0xae; 0x85;
   0x84; 0xca; 0xa7; 0x3b; 0x3c; 0x6e; 0xf3; 0x72; 0xfe; 0x94; 0xf8; 0x2b;
   0xa5; 0x4f; 0xf5; 0x3a; 0x5f; 0x1d; 0x36; 0xf1; 0x51; 0x0e; 0x52; 0x7f;
   0xad; 0xe6; 0x82; 0xd1; 0x9b; 0x05; 0x68; 0x8c; 0x2b; 0x3e; 0x6c; 0x1f;
   0x1f; 0x83; 0xd9; 0xab; 0xfb; 0x41; 0xbd; 0x6b; 0x5b; 0xe0; 0xcd; 0x19;
   0x13; 0x7e; 0x21; 0x79].

Definition PQC_SHA256CTX_BYTES : nat := 40.
Definition PQC_SHA512CTX_BYTES : nat := 72.

(** ** Incremental state *)

(** [sha224ctx], [sha256ctx], [sha384ctx] and [sha512ctx], one layout. *)
Record sha2_ctx := { ctx : option (list Z); data_len : nat; data : list Z }.

Definition oqs_sha2_sha224_inc_init_c : sha2_ctx :=
  {| ctx := Some (iv_224 ++ replicate 8 0); data_len := 0; data := replicate 128 0 |}.
Definition oqs_sha2_sha256_inc_init_c : sha2_ctx :=
  {| ctx := Some (iv_256 ++ replicate 8 0); data_len := 0; data := replicate 128 0 |}.
Definition oqs_sha2_sha384_inc_init_c : sha2_ctx :=
  {| ctx := Some (iv_384 ++ replicate 8 0); data_len := 0; data := replicate 128 0 |}.
Definition oqs_sha2_sha512_inc_init_c : sha2_ctx :=
  {| ctx := Some (iv_512 ++ replicate 8 0); data_len := 0; data := replicate 128 0 |}.

(** [memcpy] of the [n] bytes of the state behind the pointer, and of the
    128-byte buffer. *)
Definition ctx_clone (n : nat) (statein : sha2_ctx) : option sha2_ctx :=
  c ← ctx statein; c ← read c 0 n; d ← read (data statein) 0 128;
  Some {| ctx := Some c; data_len := data_len statein; data := d |}.
Definition oqs_sha2_sha224_inc_ctx_clone_c := ctx_clone PQC_SHA256CTX_BYTES.
Definition oqs_sha2_sha256_inc_ctx_clone_c := ctx_clone PQC_SHA256CTX_BYTES.
Definition oqs_sha2_sha384_inc_ctx_clone_c := ctx_clone PQC_SHA512CTX_BYTES.
Definition oqs_sha2_sha512_inc_ctx_clone_c := ctx_clone PQC_SHA512CTX_BYTES.

(** [free]: a second release is undefined. *)
Definition ctx_release (state : sha2_ctx) : option sha2_ctx :=
  _ ← ctx state; Some {| ctx := None; data_len := data_len state; data := data state |}.
Definition oqs_sha2_sha224_inc_ctx_release_c := ctx_release.
Definition oqs_sha2_sha256_inc_ctx_release_c := ctx_release.
Definition oqs_sha2_sha384_inc_ctx_release_c := ctx_release.
Definition oqs_sha2_sha512_inc_ctx_release_c := ctx_release.

Definition oqs_sha2_sha256_inc_blocks_c (state : sha2_ctx) (inp : list Z) (inblocks : nat)
    : option sha2_ctx :=
  c ← ctx state;
  bytes ← load_bigendian_64 c 32;
  let tmp_buflen := (64 * inblocks)%nat in
  '(new_in, d) ←
    (if decide (data_len state ≠ 0%nat) then
       (* a longer [data_len] makes [tmp_buflen - data_len] wrap around *)
       if decide (data_len state <= tmp_buflen)%nat then
         pending ← read (data state) 0 (data_len state);
         head ← read inp 0 (tmp_buflen - data_len state);
         rest ← read inp (tmp_buflen - data_len state) (data_len state);
         d ← write (data state) 0 rest;
         Some (pending ++ head, d)
       else None
     else Some (inp, data state));
  '(c, _) ← crypto_hashblocks_sha256_c c new_in (64 * inblocks);
  let bytes := u64 (bytes + 64 * Z.of_nat inblocks) in
  c ← write c 32 (store_bigendian_64 bytes);
  Some {| ctx := Some c; data_len := data_len state; data := d |}.

(** One turn of [while (len)], over the state, the position in the input and
    the remaining length. *)
Definition sha256_inc_step (inp : list Z) (s : sha2_ctx * nat * nat)
    : option (ctl (sha2_ctx * nat * nat) sha2_ctx) :=
  let '(state, pos, len) := s in
  if decide (len = 0%nat) then Some (Done state) else
  let incr := u64 (64 - Z.of_nat (data_len state)) in
  let incr := if decide (Z.of_nat len < incr) then len else Z.to_nat incr in
  chunk ← read inp pos incr;
  d ← write (data state) (data_len state) chunk;
  let dl := (data_len state + incr)%nat in
  let state := {| ctx := ctx state; data_len := dl; data := d |} in
  if decide (dl < 64)%nat then Some (Done state) else
  c ← ctx state;
  bytes ← load_bigendian_64 c 32;
  let bytes := u64 (bytes + 64) in
  '(c, _) ← crypto_hashblocks_sha256_c c d 64;
  c ← write c 32 (store_bigendian_64 bytes);
  Some (Next ({| ctx := Some c; data_len := 0; data := d |}, (pos + incr)%nat, (len - incr)%nat)).

Definition oqs_sha2_sha256_inc_c (state : sha2_ctx) (inp : list Z) (len : nat) : option sha2_ctx :=
  loop (S len) (sha256_inc_step inp) (state, 0%nat, len).

Definition oqs_sha2_sha224_inc_blocks_c := oqs_sha2_sha256_inc_blocks_c.

Definition oqs_sha2_sha512_inc_blocks_c (state : sha2_ctx) (inp : list Z) (inblocks : nat)
    : option sha2_ctx :=
  c ← ctx state;
  bytes ← load_bigendian_64 c 64;
  '(c, _) ← crypto_hashblocks_sha512_c c inp (128 * inblocks);
  let bytes := u64 (bytes + 128 * Z.of_nat inblocks) in
  c ← write c 64 (store_bigendian_64 bytes);
  Some {| ctx := Some c; data_len := data_len state; data := data state |}.

Definition oqs_sha2_sha384_inc_blocks_c := oqs_sha2_sha512_inc_blocks_c.

(** [padded]: the part of the array the code fills before hashing it. *)
Definition sha256_padded (rest : list Z) (bytes : Z) : list Z :=
  let n := length rest in
  let total := if decide (n < 56)%nat then 56%nat else 120%nat in
  rest ++ [0x80] ++ replicate (total - (n + 1)) 0 ++
  [u8 (bytes >> 53); u8 (bytes >> 45); u8 (bytes >> 37); u8 (bytes >> 29);
   u8 (bytes >> 21); u8 (bytes >> 13); u8 (bytes >> 5); u8 (Z.shiftl bytes 3)].

(** The digest and the (released) state; [inlen] is the length of [inp]. *)
Definition oqs_sha2_sha256_inc_finalize_c (state : sha2_ctx) (inp : list Z)
    : option (list Z * sha2_ctx) :=
  pending ← read (data state) 0 (data_len state);
  let '(new_in, state) :=
    if decide (data_len state = 0%nat) then (inp, state)
    else (pending ++ inp, {| ctx := ctx state; data_len := 0; data := data state |}) in
  let new_inlen := length new_in in
  c ← ctx state;
  bytes ← load_bigendian_64 c 32;
  let bytes := u64 (bytes + Z.of_nat new_inlen) in
  '(c, _) ← crypto_hashblocks_sha256_c c new_in new_inlen;
  let rem := Nat.land new_inlen 63 in
  rest ← read new_in (new_inlen - rem) rem;
  '(c, _) ← crypto_hashblocks_sha256_c c (sha256_padded rest bytes)
              (if decide (rem < 56)%nat then 64 else 128);
  out ← read c 0 32;
  state ← oqs_sha2_sha256_inc_ctx_release_c {| ctx := Some c; data_len := data_len state; data := data state |};
  Some (out, state).

Definition oqs_sha2_sha224_inc_finalize_c (state : sha2_ctx) (inp : list Z)
    : option (list Z * sha2_ctx) :=
  '(tmp, state) ← oqs_sha2_sha256_inc_finalize_c state inp;
  out ← read tmp 0 28;
  Some (out, state).

Definition sha512_padded (rest : list Z) (bytes : Z) : list Z :=
  let n := length rest in
  let total := if decide (n < 112)%nat then 119%nat else 247%nat in
  rest ++ [0x80] ++ replicate (total - (n + 1)) 0 ++
  [u8 (bytes >> 61);
   u8 (bytes >> 53); u8 (bytes >> 45); u8 (bytes >> 37); u8 (bytes >> 29);
   u8 (bytes >> 21); u8 (bytes >> 13); u8 (bytes >> 5); u8 (Z.shiftl bytes 3)].

Definition oqs_sha2_sha512_inc_finalize_c (state : sha2_ctx) (inp : list Z)
    : option (list Z * sha2_ctx) :=
  c ← ctx state;
  bytes ← load_bigendian_64 c 64;
  let bytes := u64 (bytes + Z.of_nat (length inp)) in
  '(c, _) ← crypto_hashblocks_sha512_c c inp (length inp);
  let rem := Nat.land (length inp) 127 in
  rest ← read inp (length inp - rem) rem;
  '(c, _) ← crypto_hashblocks_sha512_c c (sha512_padded rest bytes)
              (if decide (rem < 112)%nat then 128 else 256);
  out ← read c 0 64;
  state ← oqs_sha2_sha512_inc_ctx_release_c {| ctx := Some c; data_len := data_len state; data := data state |};
  Some (out, state).

Definition oqs_sha2_sha384_inc_finalize_c (state : sha2_ctx) (inp : list Z)
    : option (list Z * sha2_ctx) :=
  '(tmp, state) ← oqs_sha2_sha512_inc_finalize_c state inp;
  out ← read tmp 0 48;
  Some (out, state).

(** ** One-shot hashing *)

Definition oqs_sha2_sha224_c (inp : list Z) : option (list Z) :=
  '(out, _) ← oqs_sha2_sha224_inc_finalize_c oqs_sha2_sha224_inc_init_c inp; Some out.
Definition oqs_sha2_sha256_c (inp : list Z) : option (list Z) :=
  '(out, _) ← oqs_sha2_sha256_inc_finalize_c oqs_sha2_sha256_inc_init_c inp; Some out.
Definition oqs_sha2_sha384_c (inp : list Z) : option (list Z) :=
  '(out, _) ← oqs_sha2_sha384_inc_finalize_c oqs_sha2_sha384_inc_init_c inp; Some out.
Definition oqs_sha2_sha512_c (inp : list Z) : option (list Z) :=
  '(out, _) ← oqs_sha2_sha512_inc_finalize_c oqs_sha2_sha512_inc_init_c inp; Some out.

(** ** Known answers (FIPS 180-4 examples) *)

(** SHA-256 and SHA-512 of the three bytes "abc". *)
Example sha256_abc : be_val <$> oqs_sha2_sha256_c [0x61; 0x62; 0x63] =
  Some 0xba7816bf8f01cfea414140de5dae2223b00361a396177a9cb410ff61f20015ad.
Proof. vm_compute. reflexivity. Qed.
Example sha512_abc : be_val <$> oqs_sha2_sha512_c [0x61; 0x62; 0x63] =
  Some 0xddaf35a193617abacc417349ae20413112e6fa4e89a97ea20a9eeee64b55d39a2192992a274fc1a836ba3c23a3feebbd454d4423643ce80e2a9ac94fa54ca49f.
Proof. vm_compute. reflexivity. Qed.
