(* ===== verification/Sha2Spec.v ===== *)
(** The SHA-2 functions of FIPS 180-4 (module [Fips180]) and the proof that the C
    code computes them: block processing with its rolling sixteen-word schedule is
    a fold over the whole schedule, which is the standard's compression function,
    and any sequence of incremental calls is one hash of the concatenated input. *)
From S2P Require Import Prelude Sha2.

Open Scope c_scope.

(** ** FIPS 180-4 *)

(** The standard, with nothing of the code: the functions of section 4.1, the
    constants of 4.2.2, 4.2.3 and 5.3 as the fractional parts of roots of primes, the
    padding of 5.1 and the computation of 6.2 and 6.4. *)
Module Fips180.

(** The word size in bits and bytes, the rotations of the four functions and the
    number of rounds. *)
Record params := {
  w : Z; wb : nat;
  r_Sigma0 : Z * Z * Z; r_Sigma1 : Z * Z * Z;
  r_sigma0 : Z * Z * Z; r_sigma1 : Z * Z * Z;
  rounds : nat;
}.

Definition is_prime (n : nat) : bool := forallb (λ d, negb (Z.of_nat n mod Z.of_nat d =? 0)) (seq 2 (n - 2)).
Definition primes : list Z := Z.of_nat <$> filter is_prime (seq 2 408).

(** The largest number of [k] bits, from [acc] on, whose cube is at most [x]. *)
Fixpoint cbrt (k : nat) (x acc : Z) : Z :=
  match k with
  | O => acc
  | S k => let y := acc + 2 ^ Z.of_nat k in cbrt k x (if y ^ 3 <=? x then y else acc)
  end.

(** The first [n] bits of the fractional parts of the square and cube roots. *)
Definition frac_sqrt (n x : Z) : Z := Z.sqrt (x * 2 ^ (2 * n)) mod 2 ^ n.
Definition frac_cbrt (n x : Z) : Z := cbrt (Z.to_nat n + 3) (x * 2 ^ (3 * n)) 0 mod 2 ^ n.

Section functions.
Context (p : params).

Definition word (x : Z) : Z := x mod 2 ^ w p.
Definition shift_right (n x : Z) : Z := Z.shiftr x n.
Definition ROTR (n x : Z) : Z := Z.lor (Z.shiftr x n) (word (Z.shiftl x (w p - n))).
Definition choose (x y z : Z) : Z := Z.lxor (Z.land x y) (Z.land (Z.lnot x) z).
Definition majority (x y z : Z) : Z := Z.lxor (Z.lxor (Z.land x y) (Z.land x z)) (Z.land y z).
Definition rotations (r : Z * Z * Z) (x : Z) : Z :=
  let '(a, b, c) := r in Z.lxor (Z.lxor (ROTR a x) (ROTR b x)) (ROTR c x).
Definition rotations_shift (r : Z * Z * Z) (x : Z) : Z :=
  let '(a, b, c) := r in Z.lxor (Z.lxor (ROTR a x) (ROTR b x)) (shift_right c x).
Definition Sigma0 : Z → Z := rotations (r_Sigma0 p).
Definition Sigma1 : Z → Z := rotations (r_Sigma1 p).
Definition sigma0 : Z → Z := rotations_shift (r_sigma0 p).
Definition sigma1 : Z → Z := rotations_shift (r_sigma1 p).

Definition K : list Z := frac_cbrt (w p) <$> take (rounds p) primes.

(** Step 1: the message schedule, from the sixteen words of the block. *)
Definition schedule_word (W : list Z) : list Z :=
  let t := length W in
  W ++ [word (sigma1 (W !!! (t - 2)%nat) + W !!! (t - 7)%nat + sigma0 (W !!! (t - 15)%nat) + W !!! (t - 16)%nat)].
Definition message_schedule (M : list Z) : list Z := Nat.iter (rounds p - 16) schedule_word M.

(** Step 3: a round on the working variables [a] to [h]. *)
Definition round (v : list Z) (WK : Z * Z) : list Z :=
  match v with
  | [a; b; c; d; e; f; g; h] =>
      let T1 := word (h + Sigma1 e + choose e f g + WK.2 + WK.1) in
      let T2 := word (Sigma0 a + majority a b c) in
      [word (T1 + T2); a; b; c; word (d + T1); e; f; g]
  | _ => []
  end.

(** Steps 2 to 4. *)
Definition compression (H M : list Z) : list Z :=
  zip_with (λ x y, word (x + y)) (foldl round H (zip (message_schedule M) K)) H.

Definition block_size : nat := 16 * wb p.
Definition padding (m : list Z) : list Z :=
  let k := ((block_size - (length m + 1 + 2 * wb p) mod block_size) mod block_size)%nat in
  m ++ [0x80] ++ replicate k 0 ++ be_bytes (2 * wb p) (8 * Z.of_nat (length m)).
Definition parse (block : list Z) : list Z := (λ i, be_val (slot (wb p) block i)) <$> seq 0 16.
Definition hash (H0 m : list Z) : list Z :=
  let M := padding m in
  foldl (λ H i, compression H (parse (slot block_size M i))) H0 (seq 0 (length M / block_size)) ≫= be_bytes (wb p).
End functions.

Definition words_32 : params := {| w := 32; wb := 4; r_Sigma0 := (2, 13, 22); r_Sigma1 := (6, 11, 25);
  r_sigma0 := (7, 18, 3); r_sigma1 := (17, 19, 10); rounds := 64 |}.
Definition words_64 : params := {| w := 64; wb := 8; r_Sigma0 := (28, 34, 39); r_Sigma1 := (14, 18, 41);
  r_sigma0 := (1, 8, 7); r_sigma1 := (19, 61, 6); rounds := 80 |}.

Definition IV_256 : list Z := frac_sqrt 32 <$> take 8 primes.
Definition IV_512 : list Z := frac_sqrt 64 <$> take 8 primes.
Definition IV_384 : list Z := frac_sqrt 64 <$> take 8 (drop 8 primes).
(** The second 32 bits. *)
Definition IV_224 : list Z := (λ x, x mod 2 ^ 32) <$> IV_384.

Definition SHA224 (m : list Z) : list Z := take 28 (hash words_32 IV_224 m).
Definition SHA256 (m : list Z) : list Z := hash words_32 IV_256 m.
Definition SHA384 (m : list Z) : list Z := take 48 (hash words_64 IV_384 m).
Definition SHA512 (m : list Z) : list Z := hash words_64 IV_512 m.
End Fips180.

Definition SHA224 : list Z → list Z := Fips180.SHA224.
Definition SHA256 : list Z → list Z := Fips180.SHA256.
Definition SHA384 : list Z → list Z := Fips180.SHA384.
Definition SHA512 : list Z → list Z := Fips180.SHA512.

(** ** The computation in terms of the code's macros *)

Section fips.
Context (c : sha2_core).

Definition block_bytes : nat := 16 * word_bytes c.
(** The bytes of the length field that ends the padding. *)
Definition len_bytes : nat := 2 * word_bytes c.

(** 6.2.2 step 1: [W_t = sigma1(W_(t-2)) + W_(t-7) + sigma0(W_(t-15)) + W_(t-16)]. *)
Definition schedule_next (W : list Z) : list Z :=
  let t := length W in
  W ++ [word c (sigma1 c (W !!! (t - 2)%nat) + W !!! (t - 7)%nat
                + sigma0 c (W !!! (t - 15)%nat) + W !!! (t - 16)%nat)].
Definition schedule (n : nat) (blk : list Z) : list Z := Nat.iter n schedule_next blk.

(** 6.2.2 steps 2 to 4. *)
Definition compress (H blk : list Z) : list Z :=
  let Ks := concat (K_words c) in
  add_state c (foldl (F c) (regs_of H) (zip (schedule (length Ks - 16) blk) Ks)) H.

(** The words of a block, with the code's loader and as big-endian values. *)
Definition c_words (blk : list Z) : list Z :=
  (λ i, default 0 (load_word c (slot (word_bytes c) blk i) 0)) <$> seq 0 16.
Definition be_words (blk : list Z) : list Z := (λ i, be_val (slot (word_bytes c) blk i)) <$> seq 0 16.

(** The first [n] blocks of [m], absorbed into [H]. *)
Definition absorb (ld : list Z → list Z) (n : nat) (H m : list Z) : list Z :=
  foldl (λ H i, compress H (ld (slot block_bytes m i))) H (seq 0 n).

(** 5.1: one bit, zeros, the length in bits. *)
Definition pad (m : list Z) : list Z :=
  let k := ((block_bytes - (length m + 1 + len_bytes) mod block_bytes) mod block_bytes)%nat in
  m ++ [0x80] ++ replicate k 0 ++ be_bytes len_bytes (8 * Z.of_nat (length m)).

Definition sha2 (ld : list Z → list Z) (H0 m : list Z) : list Z :=
  absorb ld (length (pad m) / block_bytes) H0 (pad m) ≫= be_bytes (word_bytes c).
End fips.

(** The initial hash values. *)
Definition H0_224 : list Z :=
  [0xc1059ed8; 0x367cd507; 0x3070dd17; 0xf70e5939; 0xffc00b31; 0x68581511; 0x64f98fa7; 0xbefa4fa4].
Definition H0_256 : list Z :=
  [0x6a09e667; 0xbb67ae85; 0x3c6ef372; 0xa54ff53a; 0x510e527f; 0x9b05688c; 0x1f83d9ab; 0x5be0cd19].
Definition H0_384 : list Z :=
  [0xcbbb9d5dc1059ed8; 0x629a292a367cd507; 0x9159015a3070dd17; 0x152fecd8f70e5939;
   0x67332667ffc00b31; 0x8eb44a8768581511; 0xdb0c2e0d64f98fa7; 0x47b5481dbefa4fa4].
Definition H0_512 : list Z :=
  [0x6a09e667f3bcc908; 0xbb67ae8584caa73b; 0x3c6ef372fe94f82b; 0xa54ff53a5f1d36f1;
   0x510e527fade682d1; 0x9b05688c2b3e6c1f; 0x1f83d9abfb41bd6b; 0x5be0cd19137e2179].

(** *** It is the standard's *)

(** What of the code the standard determines. *)
Record conforms (p : Fips180.params) (c : sha2_core) : Prop := {
  cf_bytes : Fips180.wb p = word_bytes c;
  cf_bits : Fips180.w p = 8 * Z.of_nat (word_bytes c);
  cf_Sigma0 x : Fips180.Sigma0 p x = Sigma0 c x;
  cf_Sigma1 x : Fips180.Sigma1 p x = Sigma1 c x;
  cf_sigma0 x : Fips180.sigma0 p x = sigma0 c x;
  cf_sigma1 x : Fips180.sigma1 p x = sigma1 c x;
  cf_K : Fips180.K p = concat (K_words c);
  cf_rounds : Fips180.rounds p = length (concat (K_words c));
}.

Lemma core_32_conforms : conforms Fips180.words_32 core_32.
Proof. split; [done|done|done|done|done|done|by vm_compute|done]. Qed.
Lemma core_64_conforms : conforms Fips180.words_64 core_64.
Proof. split; [done|done|done|done|done|done|by vm_compute|done]. Qed.

Section conforms.
Context (p : Fips180.params) (c : sha2_core) (Hc : conforms p c).

Lemma conforms_word x : Fips180.word p x = word c x.
Proof using Hc. unfold Fips180.word, word. by rewrite (cf_bits _ _ Hc). Qed.

Lemma conforms_schedule M : Fips180.message_schedule p M = schedule c (length (concat (K_words c)) - 16) M.
Proof using Hc.
  unfold Fips180.message_schedule, schedule. rewrite (cf_rounds _ _ Hc). induction (_ - 16)%nat as [|n IH]; [done|].
  cbn [Nat.iter nat_rect]. change (nat_rect _ _ _ _) with (Nat.iter n (Fips180.schedule_word p) M) at 1.
  change (nat_rect (λ _ : nat, list Z) M (λ _ : nat, schedule_next c) n) with (Nat.iter n (schedule_next c) M). rewrite IH.
  unfold Fips180.schedule_word, schedule_next. by rewrite conforms_word, (cf_sigma0 _ _ Hc), (cf_sigma1 _ _ Hc).
Qed.

Lemma conforms_round r WK : Fips180.round p (regs_list r) WK = regs_list (F c r WK).
Proof using Hc.
  destruct r, WK. cbn [regs_list Fips180.round F fst snd].
  by rewrite (cf_Sigma0 _ _ Hc), (cf_Sigma1 _ _ Hc), !conforms_word.
Qed.

Lemma conforms_rounds l r : foldl (Fips180.round p) (regs_list r) l = regs_list (foldl (F c) r l).
Proof using Hc. revert r. induction l as [|x l IH]; intros r; [done|]. cbn [foldl]. by rewrite conforms_round, IH. Qed.

Lemma conforms_compression H M : length H = 8%nat → Fips180.compression p H M = compress c H M.
Proof using Hc.
  intros Hl. unfold Fips180.compression, compress, add_state. rewrite conforms_schedule, (cf_K _ _ Hc).
  assert (HH : H = regs_list (regs_of H)) by (do 8 (destruct H as [|? H]; [done|]); by destruct H).
  rewrite HH at 1. rewrite conforms_rounds. generalize (regs_list (foldl (F c) (regs_of H) (zip (schedule c (length (concat (K_words c)) - 16) M) (concat (K_words c))))).
  intros l. apply zip_with_ext; [|done|done]. intros. apply conforms_word.
Qed.

Lemma conforms_hash H0 m : length H0 = 8%nat → Fips180.hash p H0 m = sha2 c (be_words c) H0 m.
Proof using Hc.
  intros Hl. unfold Fips180.hash, sha2. cbv zeta.
  assert (Fips180.padding p m = pad c m) as ->.
  { unfold Fips180.padding, pad, len_bytes, Fips180.block_size, block_bytes. by rewrite (cf_bytes _ _ Hc). }
  unfold Fips180.block_size, absorb, block_bytes. rewrite (cf_bytes _ _ Hc). f_equal.
  generalize (seq 0 (length (pad c m) / (16 * word_bytes c))). intros l. revert H0 Hl.
  induction l as [|i l IH]; intros H0 Hl; [done|]. cbn [foldl]. rewrite conforms_compression by done.
  replace (Fips180.parse p (slot (16 * word_bytes c) (pad c m) i)) with (be_words c (slot (16 * word_bytes c) (pad c m) i))
    by (unfold Fips180.parse, be_words; by rewrite (cf_bytes _ _ Hc)).
  apply IH. unfold compress, add_state. destruct (foldl _ _ _). by rewrite length_zip_with, Hl.
Qed.
End conforms.

Lemma SHA256_core m : SHA256 m = sha2 core_32 (be_words core_32) H0_256 m.
Proof.
  unfold SHA256, Fips180.SHA256. rewrite (conforms_hash _ _ core_32_conforms) by (by vm_compute).
  assert (Fips180.IV_256 = H0_256) as -> by (by vm_compute). done.
Qed.
Lemma SHA224_core m : SHA224 m = take 28 (sha2 core_32 (be_words core_32) H0_224 m).
Proof.
  unfold SHA224, Fips180.SHA224. rewrite (conforms_hash _ _ core_32_conforms) by (by vm_compute).
  assert (Fips180.IV_224 = H0_224) as -> by (by vm_compute). done.
Qed.
Lemma SHA512_core m : SHA512 m = sha2 core_64 (be_words core_64) H0_512 m.
Proof.
  unfold SHA512, Fips180.SHA512. rewrite (conforms_hash _ _ core_64_conforms) by (by vm_compute).
  assert (Fips180.IV_512 = H0_512) as -> by (by vm_compute). done.
Qed.
Lemma SHA384_core m : SHA384 m = take 48 (sha2 core_64 (be_words core_64) H0_384 m).
Proof.
  unfold SHA384, Fips180.SHA384. rewrite (conforms_hash _ _ core_64_conforms) by (by vm_compute).
  assert (Fips180.IV_384 = H0_384) as -> by (by vm_compute). done.
Qed.

(** ** The two cores *)

(** What the generic proofs use of a core. *)
Class CoreOk (c : sha2_core) := {
  word_bytes_pos : (0 < word_bytes c)%nat;
  load_word_ok x off : (off + word_bytes c <= length x)%nat →
    load_word c x off = Some (default 0 (load_word c (take (word_bytes c) (drop off x)) 0));
  load_word_be x : bytes x → length x = word_bytes c → load_word c x 0 = Some (be_val x);
  store_word_be u : store_word c u = be_bytes (word_bytes c) u;
  K_words_rows : Forall (λ k, length k = 16%nat) (K_words c);
  K_words_ne : K_words c ≠ [];
}.

(** A lookup through [take] and [drop]. *)
Lemma lookup_slice (x : list Z) off n i :
  (i < n)%nat → take n (drop off x) !! i = x !! (off + i)%nat.
Proof. intros. by rewrite lookup_take_lt, lookup_drop. Qed.

Ltac core_load :=
  match goal with |- context [?x !! _] =>
    repeat match goal with |- context [x !! ?i] =>
      let Hx := fresh in
      destruct (lookup_lt_is_Some_2 x i) as [? Hx]; [simpl in *; lia |]; rewrite ?Hx
    end end.

Lemma load_32_ok x off : (off + 4 <= length x)%nat →
  load_bigendian_32 x off = Some (default 0 (load_bigendian_32 (take 4 (drop off x)) 0)).
Proof.
  intros Hl. unfold load_bigendian_32. rewrite !lookup_slice by lia.
  rewrite Nat.add_0_r, !Nat.add_0_l. by core_load.
Qed.

Lemma load_64_ok x off : (off + 8 <= length x)%nat →
  load_bigendian_64 x off = Some (default 0 (load_bigendian_64 (take 8 (drop off x)) 0)).
Proof.
  intros Hl. unfold load_bigendian_64. rewrite !lookup_slice by lia.
  rewrite Nat.add_0_r, !Nat.add_0_l. by core_load.
Qed.

Ltac lor_to_add k := rewrite (Z.lor_comm _ (_ * 2 ^ k)), lor_mul_pow2 by (unfold in_u8 in *; lia).
Ltac invert_bytes :=
  repeat match goal with H : Forall _ (_ :: _) |- _ => destruct (Forall_cons_1 _ _ _ H); clear H end.

Lemma load_32_be x : bytes x → length x = 4%nat → load_bigendian_32 x 0 = Some (be_val x).
Proof.
  intros Hb Hl. do 5 (destruct x as [|? x]; try done). invert_bytes.
  unfold load_bigendian_32, be_val. cbn -[Z.lor Z.shiftl u32 Z.add Z.mul Z.pow]. f_equal.
  rewrite !Z.shiftl_mul_pow2 by lia. rewrite !u32_small by (unfold in_u8, in_u32 in *; lia).
  lor_to_add 8. lor_to_add 16. lor_to_add 24. lia.
Qed.

Lemma load_64_be x : bytes x → length x = 8%nat → load_bigendian_64 x 0 = Some (be_val x).
Proof.
  intros Hb Hl. do 9 (destruct x as [|? x]; try done). invert_bytes.
  unfold load_bigendian_64, be_val. cbn -[Z.lor Z.shiftl u64 Z.add Z.mul Z.pow]. f_equal.
  rewrite !Z.shiftl_mul_pow2 by lia. rewrite !u64_small by (unfold in_u8, in_u64 in *; lia).
  lor_to_add 8. lor_to_add 16. lor_to_add 24. lor_to_add 32. lor_to_add 40. lor_to_add 48. lor_to_add 56.
  lia.
Qed.

Lemma store_32_be u : store_bigendian_32 u = be_bytes 4 u.
Proof. unfold store_bigendian_32. rewrite !Z.shiftr_div_pow2 by lia. done. Qed.
Lemma store_64_be u : store_bigendian_64 u = be_bytes 8 u.
Proof. unfold store_bigendian_64. rewrite !Z.shiftr_div_pow2 by lia. done. Qed.

#[export] Instance core_32_ok : CoreOk core_32.
Proof.
  split; [simpl; lia | exact load_32_ok | exact load_32_be | exact store_32_be | |].
  - by repeat constructor.
  - done.
Qed.
#[export] Instance core_64_ok : CoreOk core_64.
Proof.
  split; [simpl; lia | exact load_64_ok | exact load_64_be | exact store_64_be | |].
  - by repeat constructor.
  - done.
Qed.

(** ** Compression *)

Section compression.
Context (c : sha2_core) `{!CoreOk c}.

Lemma schedule_S n blk : schedule c (S n) blk = schedule_next c (schedule c n blk).
Proof. done. Qed.

Lemma length_schedule n blk : length blk = 16%nat → length (schedule c n blk) = (16 + n)%nat.
Proof.
  intros Hb. induction n as [|n IH]; [done |].
  rewrite schedule_S. unfold schedule_next. rewrite length_app, IH. simpl. lia.
Qed.

(** A word of the schedule does not depend on how far it is extended. *)
Lemma schedule_stable blk n m i :
  length blk = 16%nat → (n <= m)%nat → (i < 16 + n)%nat →
  schedule c m blk !!! i = schedule c n blk !!! i.
Proof.
  intros Hb Hnm Hi. induction Hnm as [|m Hnm IH]; [done |].
  rewrite schedule_S. unfold schedule_next. rewrite lookup_total_app_l; [done |].
  rewrite length_schedule by done. lia.
Qed.

Definition W (blk : list Z) (t : nat) : Z := schedule c t blk !!! t.

Lemma W_schedule blk n t : length blk = 16%nat → (t < 16 + n)%nat → schedule c n blk !!! t = W blk t.
Proof.
  intros Hb Ht. unfold W. destruct (decide (n <= t)%nat).
  - symmetry. by apply schedule_stable.
  - apply schedule_stable; [done | lia | lia].
Qed.

Lemma W_rec blk t : length blk = 16%nat →
  W blk (16 + t) = word c (sigma1 c (W blk (t + 14)) + W blk (t + 9) + sigma0 c (W blk (t + 1)) + W blk t).
Proof.
  intros Hb. rewrite <-(W_schedule blk (S t)) by (done || lia). rewrite schedule_S. unfold schedule_next.
  rewrite lookup_total_app_r by (rewrite length_schedule; done || lia).
  rewrite length_schedule, Nat.sub_diag by done. cbn [lookup_total list_lookup_total].
  rewrite !W_schedule by (done || lia). do 2 f_equal; [f_equal; [f_equal |] |]; f_equal; f_equal; lia.
Qed.

(** The rolling window: after [i] of the sixteen updates, the first [i] words
    are those of the next window. *)
Definition window (blk : list Z) (t i : nat) : list Z :=
  (λ j, W blk (t + j + if decide (j < i)%nat then 16 else 0)) <$> seq 0 16.

Lemma lookup_total_window blk t i j : (j < 16)%nat →
  window blk t i !!! j = W blk (t + j + if decide (j < i)%nat then 16 else 0).
Proof.
  intros Hj. apply list_lookup_total_correct. unfold window.
  by rewrite list_lookup_fmap, lookup_seq_lt by done.
Qed.

Lemma M_window blk t i j14 j9 j1 : length blk = 16%nat → (i < 16)%nat →
  (j14 = (i + 14) mod 16)%nat → (j9 = (i + 9) mod 16)%nat → (j1 = (i + 1) mod 16)%nat →
  M c (window blk t i) i j14 j9 j1 = window blk t (S i).
Proof.
  intros Hb Hi -> -> ->. unfold M.
  assert (Hw : ∀ k, (0 < k < 16)%nat → window blk t i !!! ((i + k) mod 16)%nat = W blk (t + i + k)).
  { intros k Hk. rewrite lookup_total_window by (apply Nat.mod_upper_bound; lia). f_equal.
    destruct (decide (i + k < 16)%nat).
    - rewrite Nat.mod_small by lia. case_decide; lia.
    - replace ((i + k) mod 16)%nat with (i + k - 16)%nat by (apply Nat.mod_unique with 1%nat; lia).
      case_decide; lia. }
  rewrite !Hw by lia. rewrite (lookup_total_window _ _ _ i), decide_False, Nat.add_0_r by lia.
  rewrite <-W_rec by done. apply list_eq. intros j. unfold window at 2.
  rewrite list_lookup_fmap. destruct (decide (j < 16)%nat).
  - rewrite lookup_seq_lt by done. cbn [fmap option_fmap option_map]. destruct (decide (j = i)) as [->|Hji].
    + rewrite list_lookup_insert_eq by done. rewrite decide_True by lia. do 2 f_equal. lia.
    + rewrite list_lookup_insert_ne by done. unfold window.
      rewrite list_lookup_fmap, lookup_seq_lt by done. cbn [fmap option_fmap option_map]. do 3 f_equal. by do 2 case_decide; try lia.
  - rewrite lookup_seq_ge by lia. apply lookup_ge_None_2. rewrite length_insert. unfold window.
    rewrite length_fmap, length_seq. lia.
Qed.

(** One [EXPAND] moves the window sixteen words on. *)
Lemma EXPAND_window blk t : length blk = 16%nat → EXPAND c (window blk t 0) = window blk (16 + t) 0.
Proof.
  intros Hb. unfold EXPAND. rewrite !M_window by (done || lia).
  apply list_eq. intros j. unfold window. rewrite !list_lookup_fmap.
  destruct (decide (j < 16)%nat); [| by rewrite lookup_seq_ge by lia].
  rewrite lookup_seq_lt by done. cbn [fmap option_fmap option_map].
  f_equal. apply (f_equal (W blk)). repeat case_decide; lia.
Qed.

Lemma window_0 blk t : window blk t 0 = W blk <$> seq t 16.
Proof.
  unfold window. replace (seq t 16) with (Nat.add t <$> seq 0 16)
    by (rewrite fmap_add_seq; by rewrite Nat.add_0_r). rewrite <-list_fmap_compose.
  apply list_fmap_ext. intros i j _. cbn [compose]. f_equal. rewrite decide_False by lia. lia.
Qed.

Lemma schedule_W n blk : length blk = 16%nat → schedule c n blk = W blk <$> seq 0 (16 + n).
Proof.
  intros Hb. apply list_eq. intros i. rewrite list_lookup_fmap.
  destruct (decide (i < 16 + n)%nat) as [Hi|Hi].
  - rewrite lookup_seq_lt by done. cbn [fmap option_fmap option_map].
    rewrite Nat.add_0_l, <-(W_schedule blk n) by done.
    apply list_lookup_lookup_total_lt. by rewrite length_schedule.
  - rewrite lookup_seq_ge, lookup_ge_None_2 by (rewrite ?length_schedule; done || lia). done.
Qed.

Lemma rounds_W blk ks t r :
  length blk = 16%nat → Forall (λ k, length k = 16%nat) ks →
  rounds c ks (window blk t 0) r = foldl (F c) r (zip (W blk <$> seq t (16 * length ks)) (concat ks)).
Proof.
  intros Hb Hks. revert t r. induction Hks as [|k ks Hk Hks IH]; intros t r; [done |].
  replace (16 * length (k :: ks))%nat with (16 + 16 * length ks)%nat by (simpl; lia).
  rewrite seq_app, fmap_app. cbn [concat]. rewrite zip_with_app, foldl_app
    by (by rewrite length_fmap, length_seq).
  destruct ks as [|k' ks].
  - rewrite window_0. done.
  - change (rounds c (k :: k' :: ks) (window blk t 0) r)
      with (rounds c (k' :: ks) (EXPAND c (window blk t 0)) (foldl (F c) r (zip (window blk t 0) k))).
    rewrite EXPAND_window, IH, window_0, (Nat.add_comm 16 t) by done. done.
Qed.

Lemma length_concat_rows (ks : list (list Z)) :
  Forall (λ k, length k = 16%nat) ks → length (concat ks) = (16 * length ks)%nat.
Proof. induction 1; simpl; [done |]. rewrite length_app. lia. Qed.

(** The code's rounds on a block are the standard's compression function. *)
Lemma compress_rounds H blk : length blk = 16%nat →
  add_state c (rounds c (K_words c) blk (regs_of H)) H = compress c H blk.
Proof.
  intros Hb. unfold compress. do 2 f_equal.
  replace blk with (window blk 0 0) at 1
    by (rewrite window_0; change 16%nat with (16 + 0)%nat; by rewrite <-schedule_W).
  rewrite rounds_W by (done || apply K_words_rows). f_equal. f_equal.
  rewrite schedule_W by done. rewrite length_concat_rows by apply K_words_rows.
  do 2 f_equal. pose proof K_words_ne. destruct (K_words c); [done | simpl; lia].
Qed.

(** ** Blocks *)

Definition in_word (x : Z) : Prop := 0 <= x < 2 ^ (8 * Z.of_nat (word_bytes c)).
(** A chaining value. *)
Definition is_state (H : list Z) : Prop := length H = 8%nat ∧ Forall in_word H.

Lemma word_range x : in_word (word c x).
Proof. apply Z.mod_pos_bound, Z.pow_pos_nonneg; lia. Qed.

Lemma is_state_compress H blk : is_state H → is_state (compress c H blk).
Proof.
  intros [Hl _]. unfold compress, add_state. destruct (foldl _ _ _).
  do 8 (destruct H as [|? H]; [done |]). split; [done |]. cbn [regs_list zip_with].
  repeat constructor; apply Z.mod_pos_bound, Z.pow_pos_nonneg; lia.
Qed.

Lemma length_c_words blk : length (c_words c blk) = 16%nat.
Proof. done. Qed.

Lemma is_state_absorb ld n H m : is_state H → is_state (absorb c ld n H m).
Proof.
  intros HH. unfold absorb. generalize (seq 0 n). intros l. revert H HH.
  induction l as [|i l IH]; intros H HH; [done |]. apply IH. by apply is_state_compress.
Qed.

Lemma absorb_S ld n H m :
  absorb c ld (S n) H m = compress c (absorb c ld n H m) (ld (slot (block_bytes c) m n)).
Proof. unfold absorb. by rewrite seq_S, foldl_app. Qed.

Lemma absorb_take ld n H m k :
  (n * block_bytes c <= k)%nat → absorb c ld n H (take k m) = absorb c ld n H m.
Proof.
  induction n as [|n IH]; intros Hk; [done |]. rewrite !absorb_S, IH by lia.
  by rewrite slot_take by lia.
Qed.

(** Absorbing a concatenation. *)
Lemma absorb_app ld n k H a b :
  length a = (n * block_bytes c)%nat →
  absorb c ld (n + k) H (a ++ b) = absorb c ld k (absorb c ld n H a) b.
Proof.
  intros Ha. induction k as [|k IH].
  - rewrite Nat.add_0_r. rewrite <-(absorb_take _ _ _ (a ++ b) (length a)) by lia.
    by rewrite take_app_length.
  - rewrite Nat.add_succ_r, !absorb_S, IH. do 2 f_equal. unfold slot. f_equal.
    rewrite drop_app_ge by lia. f_equal. lia.
Qed.

(** ** Block processing *)

Lemma load_words_ok x off n : (off + n * word_bytes c <= length x)%nat →
  load_words c x off n =
    Some ((λ i, default 0 (load_word c (slot (word_bytes c) (drop off x) i) 0)) <$> seq 0 n).
Proof.
  intros Hl. apply mapM_Some_2, Forall2_fmap_r, Forall_Forall2_diag, Forall_seq. intros i Hi.
  rewrite load_word_ok by nia. by rewrite Nat.add_comm, <-drop_drop, drop_drop, Nat.add_comm, <-drop_drop.
Qed.

Definition state_bytes (H : list Z) : list Z := H ≫= be_bytes (word_bytes c).

Lemma length_state_bytes H : length (state_bytes H) = (length H * word_bytes c)%nat.
Proof.
  unfold state_bytes. induction H as [|x H IH]; [done |].
  cbn [mbind list_bind]. rewrite length_app, length_be_bytes, IH. simpl. lia.
Qed.

Lemma load_state H tl : is_state H → load_words c (state_bytes H ++ tl) 0 8 = Some H.
Proof.
  intros [Hl HH]. rewrite load_words_ok by (rewrite length_app, length_state_bytes; lia).
  f_equal. rewrite drop_0. apply list_eq. intros i. rewrite list_lookup_fmap.
  destruct (decide (i < 8)%nat) as [Hi|Hi].
  - rewrite lookup_seq_lt by done. cbn [fmap option_fmap option_map]. rewrite Nat.add_0_l.
    destruct (lookup_lt_is_Some_2 H i) as [x Hx]; [lia |]. rewrite Hx.
    unfold state_bytes. rewrite (slot_bind _ _ _ _ _ _ (λ x, length_be_bytes _ x) Hx).
    rewrite load_word_be by (apply be_bytes_bytes || apply length_be_bytes).
    cbn [default from_option id]. rewrite be_val_be_bytes. f_equal. apply Z.mod_small.
    by eapply (Forall_lookup_1 _ _ _ _ HH).
  - rewrite lookup_seq_ge, lookup_ge_None_2 by lia. done.
Qed.

Lemma load_block inp i : ((i + 1) * block_bytes c <= length inp)%nat →
  load_words c inp (i * block_bytes c) 16 = Some (c_words c (slot (block_bytes c) inp i)).
Proof.
  intros Hi. unfold block_bytes in *. rewrite load_words_ok by lia. f_equal. unfold c_words.
  apply list_fmap_ext. intros k j Hk. apply lookup_seq in Hk as [-> Hk]. unfold slot.
  rewrite skipn_firstn_comm, take_take, Nat.min_l by nia. done.
Qed.

Lemma hashblocks_ok H tl inp inlen :
  is_state H → (inlen <= length inp)%nat →
  crypto_hashblocks c (state_bytes H ++ tl) inp inlen =
    Some (state_bytes (absorb c (c_words c) (inlen / block_bytes c) H inp) ++ tl,
          (inlen mod block_bytes c)%nat).
Proof.
  intros HH Hlen. unfold crypto_hashblocks. rewrite load_state by done. cbn [mbind option_bind].
  pose proof word_bytes_pos as Hwb. set (bs := block_bytes c).
  assert (Hbs : (0 < bs)%nat) by (unfold bs, block_bytes; lia).
  fold (block_bytes c). fold bs.
  apply wp_eq. eapply wp_then with
    (P := λ s, s = (absorb c (c_words c) (inlen / bs) H inp, (inlen mod bs)%nat)).
  - apply (wp_loop (λ f '(st, pos, len), ∃ k, pos = (k * bs)%nat ∧ (len + pos = inlen)%nat ∧
      f = S (len / bs) ∧ st = absorb c (c_words c) k H inp)).
    + exists 0%nat. split_and!; [done | lia | done | done].
    + intros f [[st pos] len] (k & -> & Hl & -> & ->). eexists; split; [done |].
      unfold hashblocks_step. fold (block_bytes c). fold bs. case_decide as Hd.
      * unfold bs. rewrite load_block by (fold bs; lia). cbn [mbind option_bind wp].
        exists (S k). fold bs. split_and!; [lia | lia | |].
        -- replace len with (len - bs + 1 * bs)%nat at 1 by lia. rewrite Nat.div_add by lia. lia.
        -- rewrite compress_rounds by done. by rewrite absorb_S.
      * cbn [wp]. rewrite <-Hl, Nat.div_add, Nat.Div0.mod_add by lia.
        rewrite Nat.div_small, Nat.mod_small by lia. done.
  - intros ? ->. replace (_ ≫= store_word c) with (state_bytes (absorb c (c_words c) (inlen / bs) H inp)).
    + rewrite write_front; [done |]. rewrite !length_state_bytes.
      by rewrite (proj1 (is_state_absorb _ _ _ _ HH)), (proj1 HH).
    + apply list_bind_ext; [| done]. intros. symmetry. apply store_word_be.
Qed.

(** ** Padding *)

Definition pad_zeros (n : nat) : nat :=
  ((block_bytes c - (n + 1 + len_bytes c) mod block_bytes c) mod block_bytes c)%nat.
(** The padded last block(s), of a message of [len] bytes with [rest] left. *)
Definition pad_tail (rest : list Z) (len : nat) : list Z :=
  rest ++ [0x80] ++ replicate (pad_zeros (length rest)) 0 ++ be_bytes (len_bytes c) (8 * Z.of_nat len).

Lemma block_bytes_pos : (0 < block_bytes c)%nat.
Proof. pose proof word_bytes_pos. unfold block_bytes. lia. Qed.

Lemma pad_zeros_mod n : pad_zeros (n mod block_bytes c) = pad_zeros n.
Proof.
  pose proof block_bytes_pos. unfold pad_zeros.
  rewrite <-!(Nat.add_assoc _ 1), Nat.Div0.add_mod_idemp_l by lia. done.
Qed.

Lemma pad_eq m :
  let full := (length m / block_bytes c * block_bytes c)%nat in
  pad c m = take full m ++ pad_tail (drop full m) (length m).
Proof.
  intros full. unfold pad, pad_tail. rewrite (app_assoc (take full m)), take_drop.
  replace (length (drop full m)) with (length m mod block_bytes c)%nat.
  - by rewrite pad_zeros_mod.
  - rewrite length_drop. unfold full. pose proof (Nat.div_mod_eq (length m) (block_bytes c)). lia.
Qed.

Lemma sha2_final ld H0 m n :
  let full := (length m / block_bytes c * block_bytes c)%nat in
  length (pad_tail (drop full m) (length m)) = (n * block_bytes c)%nat →
  sha2 c ld H0 m = state_bytes (absorb c ld n (absorb c ld (length m / block_bytes c) H0 m)
                                  (pad_tail (drop full m) (length m))).
Proof.
  intros full Hn. pose proof block_bytes_pos. unfold sha2. rewrite pad_eq. fold full.
  assert (Hf : length (take full m) = (length m / block_bytes c * block_bytes c)%nat).
  { rewrite length_take. unfold full. pose proof (Nat.div_mod_eq (length m) (block_bytes c)). lia. }
  rewrite length_app, Hf, Hn, <-Nat.mul_add_distr_r, Nat.div_mul by lia.
  rewrite absorb_app by done. by rewrite absorb_take by (unfold full; lia).
Qed.

(** On bytes the code's loader reads big-endian words. *)
Lemma bytes_slot n m i : bytes m → bytes (slot n m i).
Proof. intros. by apply Forall_take, Forall_drop. Qed.

Lemma absorb_be n H m : bytes m → (n * block_bytes c <= length m)%nat →
  absorb c (c_words c) n H m = absorb c (be_words c) n H m.
Proof.
  intros Hb Hl. induction n as [|n IH]; [done |]. rewrite !absorb_S, IH by lia. f_equal.
  unfold c_words, be_words. apply list_fmap_ext. intros k j Hk. apply lookup_seq in Hk as [-> Hk].
  assert (Hls : length (slot (block_bytes c) m n) = block_bytes c) by (apply length_slot; lia).
  rewrite load_word_be; [done | by apply bytes_slot, bytes_slot |].
  apply length_slot. rewrite Hls. unfold block_bytes. nia.
Qed.

Lemma sha2_be H0 m : bytes m → sha2 c (c_words c) H0 m = sha2 c (be_words c) H0 m.
Proof.
  intros Hb. unfold sha2. f_equal. apply absorb_be.
  - unfold pad. rewrite !Forall_app. split_and!; [done | | | apply be_bytes_bytes].
    + apply Forall_singleton. unfold in_u8. lia.
    + apply Forall_replicate. unfold in_u8. lia.
  - pose proof (Nat.div_mod_eq (length (pad c m)) (block_bytes c)). lia.
Qed.

Lemma length_sha2 ld H0 m : is_state H0 → length (sha2 c ld H0 m) = (8 * word_bytes c)%nat.
Proof.
  intros HH. unfold sha2. change (_ ≫= be_bytes (word_bytes c)) with (state_bytes
    (absorb c ld (length (pad c m) / block_bytes c) H0 (pad c m))).
  by rewrite length_state_bytes, (proj1 (is_state_absorb _ _ _ _ HH)).
Qed.

Lemma sha2_bytes ld H0 m : bytes (sha2 c ld H0 m).
Proof.
  unfold sha2. generalize (absorb c ld (length (pad c m) / block_bytes c) H0 (pad c m)). intros l.
  induction l as [|x l IH]; [constructor |]. cbn [mbind list_bind].
  apply Forall_app. split; [apply be_bytes_bytes | done].
Qed.

(** ** The heap state *)

(** The bytes behind the [ctx] pointer once [a] has been absorbed: the chaining
    value and the byte count. *)
Definition ctx_bytes (H0 a : list Z) : list Z :=
  state_bytes (absorb c (c_words c) (length a / block_bytes c) H0 a)
  ++ be_bytes 8 (Z.of_nat (length a)).

Lemma be_bytes_mod n x : be_bytes n (x mod 2 ^ (8 * Z.of_nat n)) = be_bytes n x.
Proof.
  apply be_val_inj; [apply be_bytes_bytes | apply be_bytes_bytes | by rewrite !length_be_bytes |].
  rewrite !be_val_be_bytes, Z.mod_mod; [done |]. apply Z.pow_nonzero; lia.
Qed.

Lemma load_count (st : list Z) x off :
  off = length st → load_bigendian_64 (st ++ be_bytes 8 x) off = Some (u64 x).
Proof.
  intros ->. rewrite load_64_ok by (rewrite length_app, length_be_bytes; lia).
  rewrite drop_app_length, take_ge by (rewrite length_be_bytes; lia).
  rewrite load_64_be by (apply be_bytes_bytes || apply length_be_bytes).
  cbn [default from_option id]. by rewrite be_val_be_bytes.
Qed.

Lemma write_count (st : list Z) x y off :
  off = length st → write (st ++ be_bytes 8 x) off (store_bigendian_64 (u64 y)) = Some (st ++ be_bytes 8 y).
Proof.
  intros ->. rewrite store_64_be. change (u64 y) with (y mod 2 ^ (8 * Z.of_nat 8)). rewrite be_bytes_mod.
  rewrite <-(app_nil_r (be_bytes 8 x)), write_app by (by rewrite ?length_be_bytes). by rewrite app_nil_r.
Qed.

(** Absorbing whole blocks [b] after [a]. *)
Lemma ctx_bytes_blocks H0 a b n :
  (length a mod block_bytes c = 0)%nat → length b = (n * block_bytes c)%nat →
  absorb c (c_words c) (length (a ++ b) / block_bytes c) H0 (a ++ b) =
  absorb c (c_words c) n (absorb c (c_words c) (length a / block_bytes c) H0 a) b.
Proof.
  intros Ha Hb. pose proof block_bytes_pos. pose proof (Nat.div_mod_eq (length a) (block_bytes c)).
  rewrite length_app, Hb, Nat.div_add by lia. apply absorb_app. lia.
Qed.
End compression.
