(* ===== verification/Sha2Inc.v ===== *)
(** The incremental and one-shot SHA-2 functions: representation invariant of a
    hash state, and what each operation does to the message it represents. *)
From S2P Require Import Prelude Sha2 Sha2Spec.

Open Scope c_scope.

(** ** The length field *)

Lemma be_bytes_shiftr n x : be_bytes (S n) x = be_bytes n (x >> 8) ++ [u8 x].
Proof. by rewrite Z.shiftr_div_pow2. Qed.

Lemma length_field_8 b :
  [u8 (b >> 53); u8 (b >> 45); u8 (b >> 37); u8 (b >> 29);
   u8 (b >> 21); u8 (b >> 13); u8 (b >> 5); u8 (Z.shiftl b 3)] = be_bytes 8 (8 * b).
Proof.
  replace (8 * b) with (Z.shiftl b 3) by (rewrite Z.shiftl_mul_pow2; lia).
  rewrite !be_bytes_shiftr, !Z.shiftr_shiftr by lia. cbn [Z.add Pos.add Pos.succ].
  rewrite !Z.shiftr_shiftl_r by lia. done.
Qed.

Lemma length_field_9 b :
  [u8 (b >> 61); u8 (b >> 53); u8 (b >> 45); u8 (b >> 37); u8 (b >> 29);
   u8 (b >> 21); u8 (b >> 13); u8 (b >> 5); u8 (Z.shiftl b 3)] = be_bytes 9 (8 * b).
Proof.
  replace (8 * b) with (Z.shiftl b 3) by (rewrite Z.shiftl_mul_pow2; lia).
  rewrite !be_bytes_shiftr, !Z.shiftr_shiftr by lia. cbn [Z.add Pos.add Pos.succ].
  rewrite !Z.shiftr_shiftl_r by lia. done.
Qed.

Lemma be_bytes_zeros k n x : 0 <= x < 2 ^ (8 * Z.of_nat n) → be_bytes (k + n) x = replicate k 0 ++ be_bytes n x.
Proof.
  intros Hx. apply be_val_inj.
  - apply be_bytes_bytes.
  - apply Forall_app. split; [apply Forall_replicate; unfold in_u8; lia | apply be_bytes_bytes].
  - by rewrite length_app, length_replicate, !length_be_bytes.
  - assert (Hz : be_val (replicate k 0) = 0).
    { induction k as [|k IH]; [done |]. rewrite replicate_S_end, be_val_snoc, IH. done. }
    rewrite be_val_app, !be_val_be_bytes, Hz, (Z.mod_small x (2 ^ (8 * Z.of_nat n))) by done.
    rewrite Z.mod_small; [lia |]. split; [lia |]. eapply Z.lt_le_trans; [apply Hx |].
    apply Z.pow_le_mono_r; lia.
Qed.

(** The blocks [padded] holds are the standard's padding. *)
Lemma sha256_padded_eq rest len :
  (length rest < 64)%nat →
  sha256_padded rest (u64 (Z.of_nat len)) = pad_tail core_32 rest len ∧
  length (pad_tail core_32 rest len) = ((if decide (length rest < 56)%nat then 1 else 2) * 64)%nat.
Proof.
  intros Hr. unfold sha256_padded, pad_tail. rewrite length_field_8.
  change (len_bytes core_32) with 8%nat.
  assert (Hz : pad_zeros core_32 (length rest) =
    ((if decide (length rest < 56)%nat then 56 else 120) - (length rest + 1))%nat).
  { unfold pad_zeros. change (block_bytes core_32) with 64%nat. change (len_bytes core_32) with 8%nat.
    case_decide.
    - destruct (decide (length rest = 55%nat)) as [->|]; [done |].
      rewrite (Nat.mod_small (length rest + 1 + 8)), Nat.mod_small by lia. lia.
    - replace (length rest + 1 + 8)%nat with (length rest - 55 + 1 * 64)%nat by lia.
      rewrite Nat.Div0.mod_add, (Nat.mod_small (length rest - 55)), Nat.mod_small by lia. lia. }
  rewrite Hz. split.
  - do 3 f_equal. rewrite <-(be_bytes_mod 8 (8 * u64 _)), <-(be_bytes_mod 8 (8 * Z.of_nat len)).
    f_equal. unfold u64. by rewrite Zmult_mod_idemp_r.
  - rewrite !length_app, length_replicate, length_be_bytes. simpl. case_decide; lia.
Qed.

Lemma sha512_padded_eq rest len :
  (length rest < 128)%nat → Z.of_nat len < 2 ^ 64 →
  sha512_padded rest (u64 (Z.of_nat len)) = pad_tail core_64 rest len ∧
  length (pad_tail core_64 rest len) = ((if decide (length rest < 112)%nat then 1 else 2) * 128)%nat.
Proof.
  intros Hr Hlen. unfold sha512_padded, pad_tail. rewrite length_field_9.
  rewrite u64_small by (unfold in_u64; lia). change (len_bytes core_64) with (7 + 9)%nat.
  rewrite be_bytes_zeros by (change (2 ^ (8 * Z.of_nat 9)) with (2 ^ 72); lia).
  assert (Hz : pad_zeros core_64 (length rest) =
    ((if decide (length rest < 112)%nat then 112 else 240) - (length rest + 1))%nat).
  { unfold pad_zeros. change (block_bytes core_64) with 128%nat. change (len_bytes core_64) with 16%nat.
    case_decide.
    - destruct (decide (length rest = 111%nat)) as [->|]; [done |].
      rewrite (Nat.mod_small (length rest + 1 + 16)), Nat.mod_small by lia. lia.
    - replace (length rest + 1 + 16)%nat with (length rest - 111 + 1 * 128)%nat by lia.
      rewrite Nat.Div0.mod_add, (Nat.mod_small (length rest - 111)), Nat.mod_small by lia. lia. }
  rewrite Hz. split.
  - do 2 f_equal. rewrite app_assoc, <-replicate_add. do 2 f_equal. case_decide; lia.
  - rewrite !length_app, !length_replicate, length_be_bytes. simpl. case_decide; lia.
Qed.

Lemma land_63 n : Nat.land n 63 = (n mod 64)%nat.
Proof. apply (Nat.land_ones n 6). Qed.
Lemma land_127 n : Nat.land n 127 = (n mod 128)%nat.
Proof. apply (Nat.land_ones n 7). Qed.

(** ** Representation *)

(** [st] holds the message [m] of a function with 64-byte blocks and initial
    value [H0]: whole blocks absorbed, the rest pending in the buffer. *)
Definition rep256 (H0 : list Z) (st : sha2_ctx) (m : list Z) : Prop :=
  ∃ a p, m = a ++ p ∧ (length a mod 64 = 0)%nat ∧ (length p < 64)%nat ∧
    ctx st = Some (ctx_bytes core_32 H0 a) ∧
    data_len st = length p ∧ length (data st) = 128%nat ∧ take (length p) (data st) = p.

(** The 128-byte-block functions take whole blocks only. *)
Definition rep512 (H0 : list Z) (st : sha2_ctx) (m : list Z) : Prop :=
  (length m mod 128 = 0)%nat ∧ ctx st = Some (ctx_bytes core_64 H0 m) ∧
  data_len st = 0%nat ∧ length (data st) = 128%nat.

Section sha256.
Context (H0 : list Z) (HH0 : is_state core_32 H0).
Local Abbreviation H256 := (sha2 core_32 (c_words core_32) H0).

Lemma state_absorb_32 a n : is_state core_32 (absorb core_32 (c_words core_32) n H0 a).
Proof. by apply is_state_absorb. Qed.

Lemma length_state_32 H a n : is_state core_32 H →
  length (state_bytes core_32 (absorb core_32 (c_words core_32) n H a)) = 32%nat.
Proof. intros HH. rewrite length_state_bytes, (proj1 (is_state_absorb _ _ _ _ _ HH)). done. Qed.

Lemma length_ctx_32 a : length (ctx_bytes core_32 H0 a) = 40%nat.
Proof. unfold ctx_bytes. by rewrite length_app, length_state_32, length_be_bytes by done. Qed.

(** The state after the whole blocks of [t] are processed, [a] before. *)
Lemma hash_after a t (k : nat) tl :
  (length a mod 64 = 0)%nat → (k <= length t)%nat →
  crypto_hashblocks_sha256_c
    (state_bytes core_32 (absorb core_32 (c_words core_32) (length a / 64) H0 a) ++ tl) t k
  = Some (state_bytes core_32 (absorb core_32 (c_words core_32) (k / 64)
            (absorb core_32 (c_words core_32) (length a / 64) H0 a) t) ++ tl, (k mod 64)%nat).
Proof. intros Ha Hk. by apply (hashblocks_ok core_32); [apply state_absorb_32 |]. Qed.

(** Absorbing a whole number of blocks updates state and count together. *)
Lemma ctx_next a b n :
  (length a mod 64 = 0)%nat → length b = (64 * n)%nat →
  state_bytes core_32 (absorb core_32 (c_words core_32) n
     (absorb core_32 (c_words core_32) (length a / 64) H0 a) b) ++ be_bytes 8 (Z.of_nat (length a) + 64 * Z.of_nat n)
  = ctx_bytes core_32 H0 (a ++ b).
Proof.
  intros Ha Hb. unfold ctx_bytes.
  rewrite (ctx_bytes_blocks core_32 H0 a b n Ha) by (change (block_bytes core_32) with 64%nat; lia).
  change (block_bytes core_32) with 64%nat. do 2 f_equal. rewrite length_app, Hb. lia.
Qed.

Lemma u64_idemp x y : u64 (u64 x + y) = u64 (x + y).
Proof. unfold u64. by rewrite Zplus_mod_idemp_l. Qed.

Lemma rep256_init iv :
  iv = state_bytes core_32 H0 →
  rep256 H0 {| ctx := Some (iv ++ replicate 8 0); data_len := 0; data := replicate 128 0 |} [].
Proof. intros ->. exists [], []. split_and!; try done. simpl. lia. Qed.

Lemma rep256_clone st m : rep256 H0 st m → wp (oqs_sha2_sha256_inc_ctx_clone_c st) (λ st', rep256 H0 st' m).
Proof.
  intros (a & p & -> & Ha & Hp & Hc & Hd & Hl & Ht).
  unfold oqs_sha2_sha256_inc_ctx_clone_c, ctx_clone. rewrite Hc. cbn [mbind option_bind].
  rewrite !read_all by (rewrite ?length_ctx_32; done). cbn [mbind option_bind wp].
  by exists a, p.
Qed.

Lemma rep256_release st m : rep256 H0 st m →
  wp (oqs_sha2_sha256_inc_ctx_release_c st) (λ st', ctx st' = None).
Proof. intros (a & p & -> & Ha & Hp & Hc & _). unfold oqs_sha2_sha256_inc_ctx_release_c, ctx_release. by rewrite Hc. Qed.

(** [inc_blocks] absorbs the [64 * n] bytes at [inp]; with bytes pending, [n]
    must be positive. *)
Lemma rep256_blocks st m inp n :
  rep256 H0 st m → (64 * n <= length inp)%nat → (0 < n)%nat →
  wp (oqs_sha2_sha256_inc_blocks_c st inp n) (λ st', rep256 H0 st' (m ++ take (64 * n) inp)).
Proof.
  intros (a & p & -> & Ha & Hp & Hc & Hd & Hl & Ht) Hlen Hn.
  unfold oqs_sha2_sha256_inc_blocks_c. rewrite Hc, Hd. cbn [mbind option_bind].
  unfold ctx_bytes. rewrite load_count by (rewrite length_state_32; [done | by repeat apply is_state_absorb]). cbn [mbind option_bind].
  set (x := take (64 * n) inp).
  assert (Hx : length x = (64 * n)%nat) by (unfold x; rewrite length_take; lia).
  (* the block input is [p ++ x] without its last [length p] bytes *)
  set (b := take (64 * n) (p ++ x)). set (q := drop (64 * n) (p ++ x)).
  assert (Hb : length b = (64 * n)%nat) by (unfold b; rewrite length_take, length_app; lia).
  eapply wp_then with (P := λ '(new_in, d), take (64 * n) new_in = b ∧ (64 * n <= length new_in)%nat ∧
    length d = 128%nat ∧ take (length p) d = q).
  - case_decide as Hp0.
    + rewrite decide_True by lia. rewrite !read_Some by lia. cbn [mbind option_bind].
      rewrite !drop_0, Ht.
      set (r := take (length p) (drop (64 * n - length p) inp)).
      assert (Hr : length r = length p) by (unfold r; rewrite length_take, length_drop; lia).
      unfold write. rewrite decide_True by lia. cbn [mbind option_bind wp].
      assert (Hsplit : x = take (64 * n - length p) inp ++ r).
      { unfold x, r. replace (64 * n)%nat with ((64 * n - length p) + length p)%nat at 1 by lia.
        by rewrite <-take_take_drop. }
      assert (Hlh : length (take (64 * n - length p) inp) = (64 * n - length p)%nat)
        by (rewrite length_take; lia).
      set (h := take (64 * n - length p) inp) in *.
      assert (Hph : length (p ++ h) = (64 * n)%nat) by (rewrite length_app; lia).
      assert (Hbe : b = p ++ h) by (unfold b; rewrite Hsplit, app_assoc; by apply take_app_length').
      assert (Hqe : q = r) by (unfold q; rewrite Hsplit, app_assoc; by apply drop_app_length').
      rewrite Hbe, Hqe. split_and!; [by apply take_ge; lia | lia | by rewrite length_put by lia |].
      unfold put. rewrite take_0, app_nil_l, <-Hr. apply take_app_length.
    + destruct p; [| done]. cbn [wp]. unfold b, q. cbn [app].
      rewrite drop_ge by lia. unfold x. rewrite take_take, Nat.min_id. split_and!; [done | lia | done | done].
  - intros [new_in d] (Hnb & Hln & Hld & Hdq). change (block_bytes core_32) with 64%nat.
    rewrite (hash_after a new_in (64 * n)) by lia. cbn [mbind option_bind].
    rewrite (Nat.mul_comm 64 n), Nat.div_mul by lia.
    rewrite u64_idemp, write_count by (rewrite length_state_32; [done | by repeat apply is_state_absorb]). cbn [mbind option_bind wp].
    exists (a ++ b), q. rewrite <-!app_assoc. replace (b ++ q) with (p ++ x) by (symmetry; apply take_drop).
    assert (Hq : length q = length p) by (unfold q; rewrite length_drop, length_app; lia).
    split_and!; [done | | lia | | cbn [data_len]; lia | done | cbn [data]; by rewrite Hq].
    + rewrite length_app, Hb, (Nat.mul_comm 64 n). by rewrite Nat.Div0.mod_add.
    + cbn [ctx]. f_equal. rewrite <-(ctx_next a b n Ha Hb), <-Hnb.
      rewrite (absorb_take core_32 _ n _ new_in) by (change (block_bytes core_32) with 64%nat; lia).
      reflexivity.
Qed.

(** The pending bytes after [chunk] is copied behind them. *)
Lemma take_pending (d p chunk : list Z) :
  take (length p) d = p → (length p + length chunk <= length d)%nat →
  take (length p + length chunk) (put d (length p) chunk) = p ++ chunk.
Proof.
  intros Hp Hl. unfold put. rewrite Hp, app_assoc. apply take_app_length'. by rewrite length_app.
Qed.

Lemma sha256_inc_step_ok inp st m pos len :
  rep256 H0 st m → (pos + len = length inp)%nat →
  wp (sha256_inc_step inp (st, pos, len)) (λ r, match r with
    | Done st' => rep256 H0 st' (m ++ drop pos inp)
    | Next (st', pos', len') => ∃ n, rep256 H0 st' (m ++ take n (drop pos inp)) ∧
        pos' = (pos + n)%nat ∧ len = (n + len')%nat ∧ (0 < n)%nat
    end).
Proof.
  intros (a & p & -> & Ha & Hp & Hc & Hd & Hl & Ht) Hlen. unfold sha256_inc_step. rewrite Hd.
  case_decide as Hl0.
  { cbn [wp]. rewrite drop_ge, app_nil_r by lia. by exists a, p. }
  rewrite u64_small by (unfold in_u64; lia).
  set (incr := if decide _ then len else _).
  assert (Hincr : incr = Nat.min (64 - length p) len) by (unfold incr; case_decide; lia).
  rewrite Hincr. clear incr Hincr. set (incr := Nat.min (64 - length p) len).
  rewrite read_Some by lia. cbn [mbind option_bind].
  set (chunk := take incr (drop pos inp)).
  assert (Hck : length chunk = incr) by (unfold chunk; rewrite length_take, length_drop; lia).
  rewrite write_Some by lia. cbn [mbind option_bind].
  pose proof (take_pending (data st) p chunk Ht ltac:(lia)) as Htp. rewrite Hck in Htp.
  set (d := put (data st) (length p) chunk) in *.
  assert (Hld : length d = 128%nat) by (unfold d; by rewrite length_put by lia).
  case_decide as Hfull.
  - cbn [wp]. exists a, (p ++ chunk). rewrite length_app, Hck.
    split_and!; try done. rewrite <-app_assoc. do 2 f_equal.
    unfold chunk. rewrite take_ge by (rewrite length_drop; lia). done.
  - cbn [ctx]. rewrite Hc. cbn [mbind option_bind].
    unfold ctx_bytes. rewrite load_count by (rewrite length_state_32; [done | by repeat apply is_state_absorb]).
    cbn [mbind option_bind]. change (block_bytes core_32) with 64%nat.
    eapply wp_step; [apply (hash_after a d 64); lia |]. cbv beta iota.
    rewrite u64_idemp, write_count by (rewrite length_state_32; [done | by repeat apply is_state_absorb]).
    cbn [mbind option_bind wp]. exists incr. split_and!; [| done | lia | lia].
    assert (Hblk : length (p ++ chunk) = (64 * 1)%nat) by (rewrite length_app; lia).
    exists (a ++ p ++ chunk), []. fold chunk. rewrite app_nil_r, <-app_assoc.
    split_and!; [reflexivity | | simpl; lia | | reflexivity | exact Hld | reflexivity].
    + rewrite length_app, Hblk. change (64 * 1)%nat with (1 * 64)%nat. by rewrite Nat.Div0.mod_add.
    + cbn [ctx]. f_equal. rewrite <-(ctx_next a (p ++ chunk) 1 Ha Hblk).
      change (64 / 64)%nat with 1%nat. change (64 * Z.of_nat 1) with 64.
      rewrite <-(absorb_take core_32 _ 1 _ d 64) by (change (block_bytes core_32) with 64%nat; lia).
      replace (length p + incr)%nat with 64%nat in Htp by lia. rewrite Htp. reflexivity.
Qed.

Lemma rep256_inc st m inp :
  rep256 H0 st m →
  wp (oqs_sha2_sha256_inc_c st inp (length inp)) (λ st', rep256 H0 st' (m ++ inp)).
Proof.
  intros Hr. unfold oqs_sha2_sha256_inc_c.
  apply (wp_loop (λ f '(st, pos, len), rep256 H0 st (m ++ take pos inp) ∧
    (pos + len = length inp)%nat ∧ (len < f)%nat)).
  - rewrite take_0, app_nil_r. split_and!; [done | lia | lia].
  - intros [|f] [[st' pos] len] (Hr' & Hl & Hf); [lia |]. exists f. split; [done |].
    eapply wp_mono; [by apply sha256_inc_step_ok |]. intros [[[st2 pos2] len2] | st2].
    + intros (n & H2 & -> & -> & Hn). rewrite <-app_assoc, take_take_drop in H2.
      split_and!; [done | lia | lia].
    + rewrite <-app_assoc, take_drop. done.
Qed.

(** Finalisation hashes everything absorbed and the last input. *)
Lemma rep256_finalize st m inp :
  rep256 H0 st m →
  wp (oqs_sha2_sha256_inc_finalize_c st inp) (λ '(out, st'), out = H256 (m ++ inp) ∧ ctx st' = None).
Proof.
  intros (a & p & -> & Ha & Hp & Hc & Hd & Hl & Ht). unfold oqs_sha2_sha256_inc_finalize_c.
  rewrite read_Some by lia. cbn [mbind option_bind]. rewrite drop_0, Hd, Ht.
  set (t := p ++ inp).
  match goal with |- context [let '(_, _) := ?e in _] =>
    replace e with (t, {| ctx := ctx st; data_len := 0; data := data st |}) end.
  2:{ case_decide as H0'; [| done]. destruct p; [| done]. destruct st. simpl in *. by subst. }
  cbn [ctx data_len data]. rewrite Hc. cbn [mbind option_bind].
  unfold ctx_bytes. rewrite load_count by (rewrite length_state_32; [done | by repeat apply is_state_absorb]).
  cbn [mbind option_bind]. change (block_bytes core_32) with 64%nat.
  rewrite (hash_after a t (length t)) by lia. cbn [mbind option_bind]. rewrite land_63.
  pose proof (Nat.div_mod_eq (length t) 64) as Hdm. pose proof (Nat.mod_upper_bound (length t) 64 ltac:(lia)) as Hub.
  set (rest := drop (length t / 64 * 64) t).
  replace (length t - length t mod 64)%nat with (length t / 64 * 64)%nat by lia.
  rewrite read_Some, take_ge by (rewrite ?length_drop; lia). cbn [mbind option_bind]. fold rest.
  assert (Hlr : length rest = (length t mod 64)%nat) by (unfold rest; rewrite length_drop; lia).
  rewrite u64_idemp. replace (Z.of_nat (length a) + Z.of_nat (length t)) with (Z.of_nat (length (a ++ t)))
    by (rewrite length_app; lia).
  destruct (sha256_padded_eq rest (length (a ++ t))) as [Hpad Hlp]; [lia |]. rewrite Hpad, <-Hlr.
  set (nb := if decide (length rest < 56)%nat then 1%nat else 2%nat) in *.
  replace (if decide (length rest < 56)%nat then 64%nat else 128%nat) with (nb * 64)%nat
    by (unfold nb; case_decide; lia).
  unfold crypto_hashblocks_sha256_c. rewrite (hashblocks_ok core_32)
    by (by repeat apply is_state_absorb || lia).
  cbn [mbind option_bind]. change (block_bytes core_32) with 64%nat. rewrite Nat.div_mul by lia.
  rewrite read_front by (rewrite length_state_32; [done | by repeat apply is_state_absorb]).
  cbn [mbind option_bind oqs_sha2_sha256_inc_ctx_release_c ctx_release ctx wp].
  split; [| done]. rewrite <-app_assoc. fold t.
  assert (Hda : length (a ++ t) = (length t + length a / 64 * 64)%nat)
    by (rewrite length_app; pose proof (Nat.div_mod_eq (length a) 64); lia).
  assert (Hq : (length (a ++ t) / 64 = length a / 64 + length t / 64)%nat)
    by (rewrite Hda, Nat.div_add by lia; lia).
  assert (Hrest : drop (length (a ++ t) / 64 * 64) (a ++ t) = rest).
  { unfold rest. rewrite Hq, drop_app_ge by (pose proof (Nat.div_mod_eq (length a) 64); lia).
    f_equal. pose proof (Nat.div_mod_eq (length a) 64). lia. }
  rewrite (sha2_final core_32 _ H0 (a ++ t) nb);
    change (block_bytes core_32) with 64%nat; rewrite Hrest; [| done].
  rewrite Hq, absorb_app; [done |].
  change (block_bytes core_32) with 64%nat. pose proof (Nat.div_mod_eq (length a) 64). lia.
Qed.
End sha256.

Section sha512.
Context (H0 : list Z) (HH0 : is_state core_64 H0).
Local Abbreviation H512 := (sha2 core_64 (c_words core_64) H0).

Lemma length_state_64 H a n : is_state core_64 H →
  length (state_bytes core_64 (absorb core_64 (c_words core_64) n H a)) = 64%nat.
Proof. intros HH. rewrite length_state_bytes, (proj1 (is_state_absorb _ _ _ _ _ HH)). done. Qed.

Lemma rep512_init iv :
  iv = state_bytes core_64 H0 →
  rep512 H0 {| ctx := Some (iv ++ replicate 8 0); data_len := 0; data := replicate 128 0 |} [].
Proof. intros ->. split_and!; done. Qed.

Lemma rep512_clone st m : rep512 H0 st m → wp (oqs_sha2_sha512_inc_ctx_clone_c st) (λ st', rep512 H0 st' m).
Proof.
  intros (Ha & Hc & Hd & Hl).
  unfold oqs_sha2_sha512_inc_ctx_clone_c, ctx_clone. rewrite Hc.
  eapply wp_step; [done |]. eapply wp_step.
  { apply read_all. unfold ctx_bytes. by rewrite length_app, length_state_64, length_be_bytes by done. }
  eapply wp_step; [by apply read_all |]. by split_and!.
Qed.

Lemma rep512_release st m : rep512 H0 st m →
  wp (oqs_sha2_sha512_inc_ctx_release_c st) (λ st', ctx st' = None).
Proof. intros (_ & Hc & _). unfold oqs_sha2_sha512_inc_ctx_release_c, ctx_release. by rewrite Hc. Qed.

Lemma rep512_blocks st m inp n :
  rep512 H0 st m → (128 * n <= length inp)%nat →
  wp (oqs_sha2_sha512_inc_blocks_c st inp n) (λ st', rep512 H0 st' (m ++ take (128 * n) inp)).
Proof.
  intros (Ha & Hc & Hd & Hl) Hlen. unfold oqs_sha2_sha512_inc_blocks_c. rewrite Hc.
  eapply wp_step; [done |]. unfold ctx_bytes.
  eapply wp_step; [apply load_count; by rewrite length_state_64 |].
  eapply wp_step; [apply (hashblocks_ok core_64); [by apply is_state_absorb | done] |]. cbv beta iota.
  change (block_bytes core_64) with 128%nat.
  rewrite (Nat.mul_comm 128 n), Nat.div_mul by lia. rewrite u64_idemp.
  eapply wp_step; [apply write_count; rewrite length_state_64; [done | by repeat apply is_state_absorb] |].
  cbn [wp]. set (b := take (n * 128) inp).
  assert (Hb : length b = (n * 128)%nat) by (unfold b; rewrite length_take; lia).
  split_and!; [| | done | done].
  - by rewrite length_app, Hb, Nat.Div0.mod_add.
  - cbn [ctx]. f_equal. unfold ctx_bytes.
    rewrite (ctx_bytes_blocks core_64 H0 m b n Ha Hb). change (block_bytes core_64) with 128%nat.
    rewrite <-(absorb_take core_64 _ n _ inp (n * 128)) by (change (block_bytes core_64) with 128%nat; lia).
    fold b. rewrite length_app, Hb.
    replace (Z.of_nat (length m + n * 128)) with (Z.of_nat (length m) + 128 * Z.of_nat n) by lia. done.
Qed.

Lemma rep512_finalize st m inp :
  rep512 H0 st m → Z.of_nat (length (m ++ inp)) < 2 ^ 64 →
  wp (oqs_sha2_sha512_inc_finalize_c st inp) (λ '(out, st'), out = H512 (m ++ inp) ∧ ctx st' = None).
Proof.
  intros (Ha & Hc & Hd & Hl) Hlen. unfold oqs_sha2_sha512_inc_finalize_c. rewrite Hc.
  eapply wp_step; [done |]. unfold ctx_bytes.
  eapply wp_step; [apply load_count; by rewrite length_state_64 |].
  eapply wp_step; [apply (hashblocks_ok core_64); [by apply is_state_absorb | done] |]. cbv beta iota.
  change (block_bytes core_64) with 128%nat. rewrite land_127.
  pose proof (Nat.div_mod_eq (length inp) 128) as Hdm.
  pose proof (Nat.mod_upper_bound (length inp) 128 ltac:(lia)) as Hub.
  set (rest := drop (length inp / 128 * 128) inp).
  replace (length inp - length inp mod 128)%nat with (length inp / 128 * 128)%nat by lia.
  eapply wp_step; [rewrite read_Some, take_ge by (rewrite ?length_drop; lia); done |]. fold rest.
  assert (Hlr : length rest = (length inp mod 128)%nat) by (unfold rest; rewrite length_drop; lia).
  rewrite u64_idemp. replace (Z.of_nat (length m) + Z.of_nat (length inp)) with (Z.of_nat (length (m ++ inp)))
    by (rewrite length_app; lia).
  destruct (sha512_padded_eq rest (length (m ++ inp))) as [Hpad Hlp]; [lia | done |]. rewrite Hpad, <-Hlr.
  set (nb := if decide (length rest < 112)%nat then 1%nat else 2%nat) in *.
  replace (if decide (length rest < 112)%nat then 128%nat else 256%nat) with (nb * 128)%nat
    by (unfold nb; case_decide; lia).
  eapply wp_step; [apply (hashblocks_ok core_64); [by repeat apply is_state_absorb | lia] |]. cbv beta iota.
  change (block_bytes core_64) with 128%nat. rewrite Nat.div_mul by lia.
  eapply wp_step; [apply read_front; rewrite length_state_64; [done | by repeat apply is_state_absorb] |].
  cbn [mbind option_bind oqs_sha2_sha512_inc_ctx_release_c ctx_release ctx wp].
  split; [| done].
  pose proof (Nat.div_mod_eq (length m) 128) as Hdm'. change (block_bytes core_64) with 128%nat in Ha.
  assert (Hq : (length (m ++ inp) / 128 = length m / 128 + length inp / 128)%nat).
  { rewrite length_app. replace (length m + length inp)%nat with (length inp + length m / 128 * 128)%nat by lia.
    rewrite Nat.div_add by lia. lia. }
  assert (Hrest : drop (length (m ++ inp) / 128 * 128) (m ++ inp) = rest).
  { unfold rest. rewrite Hq, drop_app_ge by lia. f_equal. lia. }
  rewrite (sha2_final core_64 _ H0 (m ++ inp) nb);
    change (block_bytes core_64) with 128%nat; rewrite Hrest; [| done].
  rewrite Hq, absorb_app; [done |]. change (block_bytes core_64) with 128%nat. lia.
Qed.
End sha512.

(** ** The four functions *)

Lemma H0_256_state : is_state core_32 H0_256 ∧ iv_256 = state_bytes core_32 H0_256.
Proof. split; [split; [done | repeat constructor; done] | done]. Qed.
Lemma H0_224_state : is_state core_32 H0_224 ∧ iv_224 = state_bytes core_32 H0_224.
Proof. split; [split; [done | repeat constructor; done] | done]. Qed.
Lemma H0_512_state : is_state core_64 H0_512 ∧ iv_512 = state_bytes core_64 H0_512.
Proof. split; [split; [done | repeat constructor; done] | done]. Qed.
Lemma H0_384_state : is_state core_64 H0_384 ∧ iv_384 = state_bytes core_64 H0_384.
Proof. split; [split; [done | repeat constructor; done] | done]. Qed.

(** The functions the code computes on any input; on bytes, those of the
    standard. *)
Definition sha256_fn : list Z → list Z := sha2 core_32 (c_words core_32) H0_256.
Definition sha512_fn : list Z → list Z := sha2 core_64 (c_words core_64) H0_512.

Lemma sha256_fn_fips m : bytes m → sha256_fn m = SHA256 m.
Proof. rewrite SHA256_core. apply (sha2_be core_32). Qed.
Lemma sha512_fn_fips m : bytes m → sha512_fn m = SHA512 m.
Proof. rewrite SHA512_core. apply (sha2_be core_64). Qed.

Lemma length_sha256_fn m : length (sha256_fn m) = 32%nat.
Proof. apply (length_sha2 core_32). apply H0_256_state. Qed.
Lemma length_sha512_fn m : length (sha512_fn m) = 64%nat.
Proof. apply (length_sha2 core_64). apply H0_512_state. Qed.

Definition rep_sha256 := rep256 H0_256.
Definition rep_sha512 := rep512 H0_512.

Lemma sha256_init_ok : rep_sha256 oqs_sha2_sha256_inc_init_c [].
Proof. apply rep256_init, H0_256_state. Qed.
Lemma sha512_init_ok : rep_sha512 oqs_sha2_sha512_inc_init_c [].
Proof. apply rep512_init, H0_512_state. Qed.

Lemma sha256_c_eq m : oqs_sha2_sha256_c m = Some (sha256_fn m).
Proof.
  apply wp_eq. unfold oqs_sha2_sha256_c. eapply wp_then.
  - apply (rep256_finalize H0_256 (proj1 H0_256_state) _ [] m), sha256_init_ok.
  - by intros [out st] [-> _].
Qed.

Lemma sha512_c_eq m : Z.of_nat (length m) < 2 ^ 64 → oqs_sha2_sha512_c m = Some (sha512_fn m).
Proof.
  intros Hm. apply wp_eq. unfold oqs_sha2_sha512_c. eapply wp_then.
  - apply (rep512_finalize H0_512 (proj1 H0_512_state) _ [] m); [apply sha512_init_ok | done].
  - by intros [out st] [-> _].
Qed.
