(* ===== verification/Sha2Api.v ===== *)
(** The SHA-2 interface of liboqs: the callback table (sha2_ops.h), the
    default implementation behind it (sha2_impl.c, built without the ARM
    instructions), and the dispatching functions the algorithms call (sha2.c).
    [Sha2Contract] states what a table promises; the default table is proved to
    keep it. *)
From S2P Require Import Prelude Sha2 Sha2Spec Sha2Inc.

(** ** sha2_ops.h *)

Record OQS_SHA2_callbacks := {
  cb_sha256 : list Z → option (list Z);
  cb_sha256_inc_init : sha2_ctx;
  cb_sha256_inc_ctx_clone : sha2_ctx → option sha2_ctx;
  cb_sha256_inc : sha2_ctx → list Z → nat → option sha2_ctx;
  cb_sha256_inc_blocks : sha2_ctx → list Z → nat → option sha2_ctx;
  cb_sha256_inc_finalize : sha2_ctx → list Z → option (list Z * sha2_ctx);
  cb_sha256_inc_ctx_release : sha2_ctx → option sha2_ctx;
  cb_sha384 : list Z → option (list Z);
  cb_sha384_inc_init : sha2_ctx;
  cb_sha384_inc_ctx_clone : sha2_ctx → option sha2_ctx;
  cb_sha384_inc_blocks : sha2_ctx → list Z → nat → option sha2_ctx;
  cb_sha384_inc_finalize : sha2_ctx → list Z → option (list Z * sha2_ctx);
  cb_sha384_inc_ctx_release : sha2_ctx → option sha2_ctx;
  cb_sha512 : list Z → option (list Z);
  cb_sha512_inc_init : sha2_ctx;
  cb_sha512_inc_ctx_clone : sha2_ctx → option sha2_ctx;
  cb_sha512_inc_blocks : sha2_ctx → list Z → nat → option sha2_ctx;
  cb_sha512_inc_finalize : sha2_ctx → list Z → option (list Z * sha2_ctx);
  cb_sha512_inc_ctx_release : sha2_ctx → option sha2_ctx;
}.

(** ** sha2_impl.c *)

Definition SHA2_sha256 := oqs_sha2_sha256_c.
Definition SHA2_sha256_inc_init := oqs_sha2_sha256_inc_init_c.
Definition SHA2_sha256_inc_ctx_clone := oqs_sha2_sha256_inc_ctx_clone_c.
Definition SHA2_sha256_inc := oqs_sha2_sha256_inc_c.
Definition SHA2_sha256_inc_blocks := oqs_sha2_sha256_inc_blocks_c.
Definition SHA2_sha256_inc_finalize := oqs_sha2_sha256_inc_finalize_c.
Definition SHA2_sha256_inc_ctx_release := oqs_sha2_sha256_inc_ctx_release_c.
Definition SHA2_sha384 := oqs_sha2_sha384_c.
Definition SHA2_sha384_inc_init := oqs_sha2_sha384_inc_init_c.
Definition SHA2_sha384_inc_ctx_clone := oqs_sha2_sha384_inc_ctx_clone_c.
Definition SHA2_sha384_inc_blocks := oqs_sha2_sha384_inc_blocks_c.
Definition SHA2_sha384_inc_finalize := oqs_sha2_sha384_inc_finalize_c.
Definition SHA2_sha384_inc_ctx_release := oqs_sha2_sha384_inc_ctx_release_c.
Definition SHA2_sha512 := oqs_sha2_sha512_c.
Definition SHA2_sha512_inc_init := oqs_sha2_sha512_inc_init_c.
Definition SHA2_sha512_inc_ctx_clone := oqs_sha2_sha512_inc_ctx_clone_c.
Definition SHA2_sha512_inc_blocks := oqs_sha2_sha512_inc_blocks_c.
Definition SHA2_sha512_inc_finalize := oqs_sha2_sha512_inc_finalize_c.
Definition SHA2_sha512_inc_ctx_release := oqs_sha2_sha512_inc_ctx_release_c.

Definition sha2_default_callbacks : OQS_SHA2_callbacks := {|
  cb_sha256 := SHA2_sha256;
  cb_sha256_inc_init := SHA2_sha256_inc_init;
  cb_sha256_inc_ctx_clone := SHA2_sha256_inc_ctx_clone;
  cb_sha256_inc := SHA2_sha256_inc;
  cb_sha256_inc_blocks := SHA2_sha256_inc_blocks;
  cb_sha256_inc_finalize := SHA2_sha256_inc_finalize;
  cb_sha256_inc_ctx_release := SHA2_sha256_inc_ctx_release;
  cb_sha384 := SHA2_sha384;
  cb_sha384_inc_init := SHA2_sha384_inc_init;
  cb_sha384_inc_ctx_clone := SHA2_sha384_inc_ctx_clone;
  cb_sha384_inc_blocks := SHA2_sha384_inc_blocks;
  cb_sha384_inc_finalize := SHA2_sha384_inc_finalize;
  cb_sha384_inc_ctx_release := SHA2_sha384_inc_ctx_release;
  cb_sha512 := SHA2_sha512;
  cb_sha512_inc_init := SHA2_sha512_inc_init;
  cb_sha512_inc_ctx_clone := SHA2_sha512_inc_ctx_clone;
  cb_sha512_inc_blocks := SHA2_sha512_inc_blocks;
  cb_sha512_inc_finalize := SHA2_sha512_inc_finalize;
  cb_sha512_inc_ctx_release := SHA2_sha512_inc_ctx_release
|}.

(** ** sha2.c

    [callbacks] is the file's static pointer; [OQS_SHA2_set_callbacks]
    replaces it. *)

Definition OQS_SHA2_set_callbacks (callbacks new_callbacks : OQS_SHA2_callbacks)
    : OQS_SHA2_callbacks := new_callbacks.

Definition OQS_SHA2_sha256 (callbacks : OQS_SHA2_callbacks) := cb_sha256 callbacks.
Definition OQS_SHA2_sha256_inc_init (callbacks : OQS_SHA2_callbacks) := cb_sha256_inc_init callbacks.
Definition OQS_SHA2_sha256_inc_ctx_clone (callbacks : OQS_SHA2_callbacks) := cb_sha256_inc_ctx_clone callbacks.
Definition OQS_SHA2_sha256_inc (callbacks : OQS_SHA2_callbacks) := cb_sha256_inc callbacks.
Definition OQS_SHA2_sha256_inc_blocks (callbacks : OQS_SHA2_callbacks) := cb_sha256_inc_blocks callbacks.
Definition OQS_SHA2_sha256_inc_finalize (callbacks : OQS_SHA2_callbacks) := cb_sha256_inc_finalize callbacks.
Definition OQS_SHA2_sha256_inc_ctx_release (callbacks : OQS_SHA2_callbacks) := cb_sha256_inc_ctx_release callbacks.
Definition OQS_SHA2_sha384 (callbacks : OQS_SHA2_callbacks) := cb_sha384 callbacks.
Definition OQS_SHA2_sha384_inc_init (callbacks : OQS_SHA2_callbacks) := cb_sha384_inc_init callbacks.
Definition OQS_SHA2_sha384_inc_ctx_clone (callbacks : OQS_SHA2_callbacks) := cb_sha384_inc_ctx_clone callbacks.
Definition OQS_SHA2_sha384_inc_blocks (callbacks : OQS_SHA2_callbacks) := cb_sha384_inc_blocks callbacks.
Definition OQS_SHA2_sha384_inc_finalize (callbacks : OQS_SHA2_callbacks) := cb_sha384_inc_finalize callbacks.
Definition OQS_SHA2_sha384_inc_ctx_release (callbacks : OQS_SHA2_callbacks) := cb_sha384_inc_ctx_release callbacks.
Definition OQS_SHA2_sha512 (callbacks : OQS_SHA2_callbacks) := cb_sha512 callbacks.
Definition OQS_SHA2_sha512_inc_init (callbacks : OQS_SHA2_callbacks) := cb_sha512_inc_init callbacks.
Definition OQS_SHA2_sha512_inc_ctx_clone (callbacks : OQS_SHA2_callbacks) := cb_sha512_inc_ctx_clone callbacks.
Definition OQS_SHA2_sha512_inc_blocks (callbacks : OQS_SHA2_callbacks) := cb_sha512_inc_blocks callbacks.
Definition OQS_SHA2_sha512_inc_finalize (callbacks : OQS_SHA2_callbacks) := cb_sha512_inc_finalize callbacks.
Definition OQS_SHA2_sha512_inc_ctx_release (callbacks : OQS_SHA2_callbacks) := cb_sha512_inc_ctx_release callbacks.

(** ** The contract *)

(** What the users of the table rely on: a state represents the bytes fed to it
    so far, and finalisation hashes them with the last input. *)
Class Sha2Contract (cb : OQS_SHA2_callbacks) := {
  rep_256 : sha2_ctx → list Z → Prop;
  rep_512 : sha2_ctx → list Z → Prop;
  sha256_ok m : OQS_SHA2_sha256 cb m = Some (sha256_fn m);
  sha256_inc_init_ok : rep_256 (OQS_SHA2_sha256_inc_init cb) [];
  sha256_inc_ctx_clone_ok st m : rep_256 st m → wp (OQS_SHA2_sha256_inc_ctx_clone cb st) (λ st', rep_256 st' m);
  sha256_inc_ok st m inp : rep_256 st m →
    wp (OQS_SHA2_sha256_inc cb st inp (length inp)) (λ st', rep_256 st' (m ++ inp));
  sha256_inc_blocks_ok st m inp n : rep_256 st m → (64 * n <= length inp)%nat → (0 < n)%nat →
    wp (OQS_SHA2_sha256_inc_blocks cb st inp n) (λ st', rep_256 st' (m ++ take (64 * n) inp));
  sha256_inc_finalize_ok st m inp : rep_256 st m →
    wp (OQS_SHA2_sha256_inc_finalize cb st inp) (λ '(out, _), out = sha256_fn (m ++ inp));
  sha256_inc_ctx_release_ok st m : rep_256 st m → wp (OQS_SHA2_sha256_inc_ctx_release cb st) (λ _, True);
  sha512_ok m : Z.of_nat (length m) < 2 ^ 64 → OQS_SHA2_sha512 cb m = Some (sha512_fn m);
  sha512_inc_init_ok : rep_512 (OQS_SHA2_sha512_inc_init cb) [];
  sha512_inc_ctx_clone_ok st m : rep_512 st m → wp (OQS_SHA2_sha512_inc_ctx_clone cb st) (λ st', rep_512 st' m);
  sha512_inc_blocks_ok st m inp n : rep_512 st m → (128 * n <= length inp)%nat →
    wp (OQS_SHA2_sha512_inc_blocks cb st inp n) (λ st', rep_512 st' (m ++ take (128 * n) inp));
  sha512_inc_finalize_ok st m inp : rep_512 st m → Z.of_nat (length (m ++ inp)) < 2 ^ 64 →
    wp (OQS_SHA2_sha512_inc_finalize cb st inp) (λ '(out, _), out = sha512_fn (m ++ inp));
  sha512_inc_ctx_release_ok st m : rep_512 st m → wp (OQS_SHA2_sha512_inc_ctx_release cb st) (λ _, True);
}.

#[export] Instance sha2_default_contract : Sha2Contract sha2_default_callbacks.
Proof.
  pose proof (proj1 H0_256_state) as S256. pose proof (proj1 H0_512_state) as S512.
  refine {| rep_256 := rep_sha256; rep_512 := rep_sha512 |}.
  - exact sha256_c_eq.
  - exact sha256_init_ok.
  - apply (rep256_clone H0_256 S256).
  - apply (rep256_inc H0_256 S256).
  - apply (rep256_blocks H0_256 S256).
  - intros st m inp Hr. eapply wp_mono; [by apply (rep256_finalize H0_256 S256) |]. by intros [out st'] [-> _].
  - intros st m Hr. eapply wp_mono; [by apply (rep256_release H0_256 st m) | done].
  - exact sha512_c_eq.
  - exact sha512_init_ok.
  - apply (rep512_clone H0_512 S512).
  - apply (rep512_blocks H0_512 S512).
  - intros st m inp Hr Hl. eapply wp_mono; [by apply (rep512_finalize H0_512 S512) |]. by intros [out st'] [-> _].
  - intros st m Hr. eapply wp_mono; [by apply (rep512_release H0_512 st m) | done].
Qed.
