(* ===== verification/SpxHash.v ===== *)
(** The SHA-2 instantiation of the SPHINCS+ hash interface (hash_sha2.c,
    thash_sha2_simple.c, context_sha2.c) over the liboqs SHA-2 table, and the
    proof that it keeps the contract of SpxIface: tweakable hash, PRF, HMAC
    randomiser and MGF1 message digest. *)
From S2P Require Import Prelude SpxAddress SpxIface Sha2 Sha2Spec Sha2Inc Sha2Api.

Open Scope c_scope.

(** ** Model *)

(** sha2_offsets.h, nistapi.h *)
Definition SPX_SHA256_BLOCK_BYTES : nat := 64.
Definition SPX_SHA256_OUTPUT_BYTES : nat := 32.
Definition SPX_SHA512_BLOCK_BYTES : nat := 128.
Definition SPX_SHA512_OUTPUT_BYTES : nat := 64.
Definition SPX_SHA256_ADDR_BYTES : nat := 22.

Definition SPX_TREE_BITS : nat := SPX_TREE_HEIGHT * (SPX_D - 1).
Definition SPX_TREE_BYTES : nat := (SPX_TREE_BITS + 7) / 8.
Definition SPX_LEAF_BITS : nat := SPX_TREE_HEIGHT.
Definition SPX_LEAF_BYTES : nat := (SPX_LEAF_BITS + 7) / 8.
Definition SPX_DGST_BYTES : nat := SPX_FORS_MSG_BYTES + SPX_TREE_BYTES + SPX_LEAF_BYTES.
(** [(x + block - 1) & -block], the next multiple of the block size, in blocks. *)
Definition SPX_INBLOCKS : nat :=
  (SPX_N + SPX_PK_BYTES + SPX_SHA512_BLOCK_BYTES - 1) / SPX_SHA512_BLOCK_BYTES.

(** context.h; [sk_seed] is [None] when it was never written. *)
Record sha2_spx_ctx := {
  pub_seed : list Z;
  sk_seed : option (list Z);
  state_seeded : sha2_ctx;
  state_seeded_512 : sha2_ctx;
}.

Section model.
Context (cb : OQS_SHA2_callbacks) {U : Uninit}.

(** The loop of the MGF1 functions, over [(i, bytes of out written)]; [i] is a
    [uint32_t] and [(i + 1) * hlen] is computed in its width. *)
Definition mgf1_step (hash : list Z → option (list Z)) (hlen : nat) (outlen : nat) (inp : list Z)
    (s : Z * list Z) : option (ctl (Z * list Z) (Z * list Z)) :=
  let '(i, out) := s in
  if decide (u32 (u32 (i + 1) * Z.of_nat hlen) <= Z.of_nat outlen) then
    d ← hash (inp ++ u32_to_bytes i);
    Some (Next (u32 (i + 1), out ++ d))
  else Some (Done (i, out)).

Definition mgf1 (hash : list Z → option (list Z)) (hlen : nat) (outlen : nat) (inp : list Z)
    : option (list Z) :=
  '(i, out) ← loop (S outlen) (mgf1_step hash hlen outlen inp) (0, []);
  let done := u32 (i * Z.of_nat hlen) in
  if decide (done < Z.of_nat outlen) then
    outbuf ← hash (inp ++ u32_to_bytes i);
    rest ← read outbuf 0 (outlen - Z.to_nat done);
    Some (out ++ rest)
  else Some out.

Definition mgf1_256 := mgf1 (OQS_SHA2_sha256 cb) SPX_SHA256_OUTPUT_BYTES.
Definition mgf1_512 := mgf1 (OQS_SHA2_sha512 cb) SPX_SHA512_OUTPUT_BYTES.

(** [seed_state]: the two states that have absorbed the padded [pub_seed]. *)
Definition seed_state (pub : list Z) : option (sha2_ctx * sha2_ctx) :=
  pub ← read pub 0 SPX_N;
  let block := pub ++ replicate (SPX_SHA512_BLOCK_BYTES - SPX_N) 0 in
  s256 ← OQS_SHA2_sha256_inc_blocks cb (OQS_SHA2_sha256_inc_init cb) block 1;
  s512 ← OQS_SHA2_sha512_inc_blocks cb (OQS_SHA2_sha512_inc_init cb) block 1;
  Some (s256, s512).

Definition sha2_initialize_hash_function (pub : list Z) (sk : option (list Z)) : option sha2_spx_ctx :=
  '(s256, s512) ← seed_state pub;
  Some {| pub_seed := pub; sk_seed := sk; state_seeded := s256; state_seeded_512 := s512 |}.

Definition sha2_free_hash_function (ctx : sha2_spx_ctx) : option sha2_spx_ctx :=
  s256 ← OQS_SHA2_sha256_inc_ctx_release cb (state_seeded ctx);
  s512 ← OQS_SHA2_sha512_inc_ctx_release cb (state_seeded_512 ctx);
  Some {| pub_seed := pub_seed ctx; sk_seed := sk_seed ctx; state_seeded := s256; state_seeded_512 := s512 |}.

Definition sha2_thash_512 (inp : list Z) (inblocks : nat) (ctx : sha2_spx_ctx) (addr : list Z)
    : option (list Z) :=
  sha2_state ← OQS_SHA2_sha512_inc_ctx_clone cb (state_seeded_512 ctx);
  a ← read addr 0 SPX_SHA256_ADDR_BYTES;
  x ← read inp 0 (inblocks * SPX_N);
  '(outbuf, _) ← OQS_SHA2_sha512_inc_finalize cb sha2_state (a ++ x);
  read outbuf 0 SPX_N.

Definition sha2_thash (inp : list Z) (inblocks : nat) (ctx : sha2_spx_ctx) (addr : list Z)
    : option (list Z) :=
  if decide (1 < inblocks)%nat then sha2_thash_512 inp inblocks ctx addr else
  sha2_state ← OQS_SHA2_sha256_inc_ctx_clone cb (state_seeded ctx);
  a ← read addr 0 SPX_SHA256_ADDR_BYTES;
  x ← read inp 0 (inblocks * SPX_N);
  '(outbuf, _) ← OQS_SHA2_sha256_inc_finalize cb sha2_state (a ++ x);
  read outbuf 0 SPX_N.

Definition sha2_prf_addr (ctx : sha2_spx_ctx) (addr : list Z) : option (list Z) :=
  sha2_state ← OQS_SHA2_sha256_inc_ctx_clone cb (state_seeded ctx);
  a ← read addr 0 SPX_SHA256_ADDR_BYTES;
  sk ← sk_seed ctx;
  x ← read sk 0 SPX_N;
  '(outbuf, _) ← OQS_SHA2_sha256_inc_finalize cb sha2_state (a ++ x);
  read outbuf 0 SPX_N.

(** [buf] is one array of a block and a digest, reused throughout. *)
Definition sha2_gen_message_random (sk_prf optrand m : list Z) (ctx : sha2_spx_ctx)
    : option (list Z) :=
  let buf := uninit (SPX_SHA512_BLOCK_BYTES + SPX_SHA512_OUTPUT_BYTES) in
  sk_prf ← read sk_prf 0 SPX_N;
  buf ← write buf 0 (Z.lxor 0x36 <$> sk_prf);
  buf ← write buf SPX_N (replicate (SPX_SHA512_BLOCK_BYTES - SPX_N) 0x36);
  state ← OQS_SHA2_sha512_inc_blocks cb (OQS_SHA2_sha512_inc_init cb) buf 1;
  optrand ← read optrand 0 SPX_N;
  buf ← write buf 0 optrand;
  buf ←
    (if decide (SPX_N + length m < SPX_SHA512_BLOCK_BYTES)%nat then
       buf ← write buf SPX_N m;
       inp ← read buf 0 (length m + SPX_N);
       '(d, _) ← OQS_SHA2_sha512_inc_finalize cb state inp;
       write buf SPX_SHA512_BLOCK_BYTES d
     else
       head ← read m 0 (SPX_SHA512_BLOCK_BYTES - SPX_N);
       buf ← write buf SPX_N head;
       state ← OQS_SHA2_sha512_inc_blocks cb state buf 1;
       '(d, _) ← OQS_SHA2_sha512_inc_finalize cb state (drop (SPX_SHA512_BLOCK_BYTES - SPX_N) m);
       write buf SPX_SHA512_BLOCK_BYTES d);
  buf ← write buf 0 (Z.lxor 0x5c <$> sk_prf);
  buf ← write buf SPX_N (replicate (SPX_SHA512_BLOCK_BYTES - SPX_N) 0x5c);
  inp ← read buf 0 (SPX_SHA512_BLOCK_BYTES + SPX_SHA512_OUTPUT_BYTES);
  d ← OQS_SHA2_sha512 cb inp;
  buf ← write buf 0 d;
  read buf 0 SPX_N.

Definition sha2_hash_message (R pk m : list Z) (ctx : sha2_spx_ctx) : option (list Z * Z * Z) :=
  let inbuf := uninit (SPX_INBLOCKS * SPX_SHA512_BLOCK_BYTES) in
  let seed := uninit (2 * SPX_N + SPX_SHA512_OUTPUT_BYTES) in
  let state := OQS_SHA2_sha512_inc_init cb in
  R ← read R 0 SPX_N;
  inbuf ← write inbuf 0 R;
  pk ← read pk 0 SPX_PK_BYTES;
  inbuf ← write inbuf SPX_N pk;
  d ←
    (if decide (SPX_N + SPX_PK_BYTES + length m < SPX_INBLOCKS * SPX_SHA512_BLOCK_BYTES)%nat then
       inbuf ← write inbuf (SPX_N + SPX_PK_BYTES) m;
       inp ← read inbuf 0 (SPX_N + SPX_PK_BYTES + length m);
       '(d, _) ← OQS_SHA2_sha512_inc_finalize cb state inp;
       Some d
     else
       let k := (SPX_INBLOCKS * SPX_SHA512_BLOCK_BYTES - SPX_N - SPX_PK_BYTES)%nat in
       head ← read m 0 k;
       inbuf ← write inbuf (SPX_N + SPX_PK_BYTES) head;
       state ← OQS_SHA2_sha512_inc_blocks cb state inbuf SPX_INBLOCKS;
       '(d, _) ← OQS_SHA2_sha512_inc_finalize cb state (drop k m);
       Some d);
  seed ← write seed (2 * SPX_N) d;
  seed ← write seed 0 R;
  pk_seed ← read pk 0 SPX_N;
  seed ← write seed SPX_N pk_seed;
  inp ← read seed 0 (2 * SPX_N + SPX_SHA512_OUTPUT_BYTES);
  buf ← mgf1_512 SPX_DGST_BYTES inp;
  digest ← read buf 0 SPX_FORS_MSG_BYTES;
  let bufp := drop SPX_FORS_MSG_BYTES buf in
  tree ← bytes_to_ull bufp SPX_TREE_BYTES;
  let tree := tree & ((2 ^ 64 - 1) >> (64 - Z.of_nat SPX_TREE_BITS)) in
  let bufp := drop SPX_TREE_BYTES bufp in
  leaf_idx ← bytes_to_ull bufp SPX_LEAF_BYTES;
  let leaf_idx := u32 leaf_idx & ((2 ^ 32 - 1) >> (32 - Z.of_nat SPX_LEAF_BITS)) in
  Some (digest, tree, leaf_idx).

Definition sha2_spx_hash : SpxHash := {|
  spx_ctx := sha2_spx_ctx;
  initialize_hash_function := sha2_initialize_hash_function;
  free_hash_function := sha2_free_hash_function;
  thash := sha2_thash;
  prf_addr := sha2_prf_addr;
  gen_message_random := sha2_gen_message_random;
  hash_message := sha2_hash_message;
|}.
End model.

(** ** Specification *)

(** RFC 8017, B.2.1. *)
Definition MGF1 (h : list Z → list Z) (hlen : nat) (seed : list Z) (n : nat) : list Z :=
  take n (seq 0 (n / hlen + 1) ≫= λ i, h (seed ++ be_bytes 4 (Z.of_nat i))).

(** RFC 2104, for keys of at most one block of [bs] bytes. *)
Definition HMAC (h : list Z → list Z) (bs : nat) (key m : list Z) : list Z :=
  let k := key ++ replicate (bs - length key) 0 in
  h ((Z.lxor 0x5c <$> k) ++ h ((Z.lxor 0x36 <$> k) ++ m)).

(** [BlockPad(PK.seed)] of the SPHINCS+ specification. *)
Definition block_pad (bs : nat) (pub : list Z) : list Z := pub ++ replicate (bs - SPX_N) 0.

(** F uses SHA-256, H and T_l use SHA-512; the 22-byte compressed address. *)
Definition spec_thash (pub x addr : list Z) : list Z :=
  let a := take SPX_SHA256_ADDR_BYTES addr in
  if decide (length x <= SPX_N)%nat then take SPX_N (sha256_fn (block_pad 64 pub ++ a ++ x))
  else take SPX_N (sha512_fn (block_pad 128 pub ++ a ++ x)).

Definition spec_prf (pub sk addr : list Z) : list Z :=
  take SPX_N (sha256_fn (block_pad 64 pub ++ take SPX_SHA256_ADDR_BYTES addr ++ sk)).

Definition spec_random (sk_prf optrand m : list Z) : list Z :=
  take SPX_N (HMAC sha512_fn 128 sk_prf (optrand ++ m)).

(** [H_msg]: digest, then the bits of the tree and leaf index. *)
Definition spec_message (R pk m : list Z) : list Z * Z * Z :=
  let d := MGF1 sha512_fn 64 (R ++ take SPX_N pk ++ sha512_fn (R ++ pk ++ m)) SPX_DGST_BYTES in
  (take SPX_FORS_MSG_BYTES d,
   be_val (take SPX_TREE_BYTES (drop SPX_FORS_MSG_BYTES d)) mod 2 ^ Z.of_nat SPX_TREE_BITS,
   be_val (take SPX_LEAF_BYTES (drop (SPX_FORS_MSG_BYTES + SPX_TREE_BYTES) d)) mod 2 ^ Z.of_nat SPX_LEAF_BITS).

(** ** Refinement *)

Lemma u32_to_bytes_be x : u32_to_bytes x = be_bytes 4 x.
Proof.
  apply be_val_inj; [apply u32_to_bytes_bytes | apply be_bytes_bytes | done |].
  by rewrite be_val_u32_to_bytes, be_val_be_bytes.
Qed.

Lemma length_bind_const {A} (g : A → list Z) l n :
  (∀ x, length (g x) = n) → length (l ≫= g) = (length l * n)%nat.
Proof. intros Hg. induction l as [|x l IH]; [done |]. cbn [mbind list_bind]. rewrite length_app, Hg, IH. simpl. lia. Qed.

Lemma length_MGF1 h hlen seed n :
  (∀ x, length (h x) = hlen) → (0 < hlen)%nat → length (MGF1 h hlen seed n) = n.
Proof.
  intros Hh Hl. unfold MGF1. rewrite length_take, (length_bind_const _ _ hlen), length_seq by auto.
  pose proof (Nat.div_mod_eq n hlen). pose proof (Nat.mod_upper_bound n hlen). nia.
Qed.

Lemma MGF1_bytes h hlen seed n : (∀ x, bytes (h x)) → bytes (MGF1 h hlen seed n).
Proof.
  intros Hh. apply Forall_take. generalize (seq 0 (n / hlen + 1)). intros l.
  induction l as [|x l IH]; [constructor |]. cbn [mbind list_bind]. apply Forall_app. auto.
Qed.

Lemma mgf1_ok (hash : list Z → option (list Z)) h hlen outlen inp :
  (∀ i, hash (inp ++ u32_to_bytes i) = Some (h (inp ++ u32_to_bytes i))) →
  (∀ x, length (h x) = hlen) → (0 < hlen)%nat → Z.of_nat (outlen + hlen) < 2 ^ 32 →
  mgf1 hash hlen outlen inp = Some (MGF1 h hlen inp outlen).
Proof.
  intros Hhash Hh Hl0 Hw. unfold mgf1. apply wp_eq.
  pose proof (Nat.div_mod_eq outlen hlen) as Hdm. pose proof (Nat.mod_upper_bound outlen hlen) as Hub.
  set (q := (outlen / hlen)%nat) in *. assert (Hqo : (q <= outlen)%nat) by nia.
  specialize (Hub ltac:(lia)). set (g := λ i : nat, h (inp ++ be_bytes 4 (Z.of_nat i))).
  eapply wp_then with (P := λ s, s = (Z.of_nat q, seq 0 q ≫= g)).
  - apply (wp_loop (λ f '(i, out), ∃ k, i = Z.of_nat k ∧ (k <= q)%nat ∧ (q - k < f)%nat ∧ out = seq 0 k ≫= g)).
    + exists 0%nat. split_and!; [done | lia | nia | done].
    + intros [|f] [i out] (k & -> & Hk & Hf & ->); [lia |]. exists f. split; [done |].
      assert (Hkq : (k * hlen <= q * hlen)%nat) by (by apply Nat.mul_le_mono_r).
      unfold mgf1_step. rewrite (u32_small (Z.of_nat k + 1)) by (unfold in_u32; lia).
      rewrite u32_small by (unfold in_u32; lia). case_decide as Hd.
      * rewrite Hhash. cbn [mbind option_bind wp]. assert (S k <= q)%nat by nia.
        exists (S k). split_and!; [lia | lia | lia |].
        rewrite seq_S, bind_app. cbn [mbind list_bind]. by rewrite app_nil_r, u32_to_bytes_be.
      * assert (k = q) as -> by nia. done.
  - intros ? ->. rewrite u32_small by (unfold in_u32; lia). unfold MGF1. fold q. fold g.
    rewrite Nat.add_1_r, seq_S, bind_app. cbn [mbind list_bind]. rewrite app_nil_r.
    assert (Hlo : length (seq 0 q ≫= g) = (q * hlen)%nat) by (rewrite (length_bind_const _ _ hlen) by (intros; apply Hh); by rewrite length_seq).
    case_decide as Hd.
    + rewrite Hhash. cbn [mbind option_bind]. rewrite read_Some by (rewrite Hh; nia).
      cbn [mbind option_bind wp]. rewrite drop_0. rewrite (take_app_ge _ (g _)) by (fold (seq 0 q ≫= g); lia).
      rewrite u32_to_bytes_be. f_equal. f_equal. rewrite Hlo. lia.
    + cbn [wp]. symmetry. apply take_app_length'. rewrite Hlo. nia.
Qed.

Section laws.
Context (cb : OQS_SHA2_callbacks) {C : Sha2Contract cb} {U : Uninit}.


(** A live context: both seeded states hold the padded public seed. *)
Definition sha2_ctx_rep (ctx : sha2_spx_ctx) (pub : list Z) (sk : option (list Z)) : Prop :=
  length pub = SPX_N ∧ sk_seed ctx = sk ∧ from_option (λ s, length s = SPX_N) True sk ∧
  rep_256 (state_seeded ctx) (block_pad 64 pub) ∧ rep_512 (state_seeded_512 ctx) (block_pad 128 pub).

Lemma sha2_initialize_ok pub sk :
  length pub = SPX_N → from_option (λ s, length s = SPX_N) True sk →
  wp (sha2_initialize_hash_function cb pub sk) (λ ctx, sha2_ctx_rep ctx pub sk).
Proof.
  intros Hp Hs. unfold sha2_initialize_hash_function, seed_state.
  eapply wp_then with (P := λ '(s256, s512), rep_256 s256 (block_pad 64 pub) ∧ rep_512 s512 (block_pad 128 pub)).
  - eapply wp_step; [by apply read_all |].
    set (block := pub ++ _).
    assert (Hb : length block = 128%nat) by (unfold block; rewrite length_app, length_replicate, Hp; done).
    eapply wp_then; [apply sha256_inc_blocks_ok; [apply sha256_inc_init_ok | lia | lia] |].
    intros s256 H256.
    eapply wp_then; [apply sha512_inc_blocks_ok; [apply sha512_inc_init_ok | lia] |].
    intros s512 H512. cbn [wp].
    replace (block_pad 64 pub) with ([] ++ take (64 * 1) block); [replace (block_pad 128 pub) with ([] ++ take (128 * 1) block); [done |] |].
    + cbn [app]. rewrite take_ge by lia. done.
    + cbn [app]. unfold block, block_pad. rewrite take_app_ge, take_replicate by (rewrite Hp; unfold SPX_N; lia).
      rewrite Hp. done.
  - intros [s256 s512] [H256 H512]. cbn [wp]. by split_and!.
Qed.

Lemma sha2_free_ok ctx pub sk : sha2_ctx_rep ctx pub sk → wp (sha2_free_hash_function cb ctx) (λ _, True).
Proof.
  intros (_ & _ & _ & H256 & H512). unfold sha2_free_hash_function.
  eapply wp_then; [by eapply sha256_inc_ctx_release_ok |]. intros s256 _.
  eapply wp_then; [by eapply sha512_inc_ctx_release_ok |]. done.
Qed.

(** Hashing the address and [x] on top of a seeded state. *)
Lemma seeded_256 ctx pub sk addr x :
  sha2_ctx_rep ctx pub sk → is_addr addr →
  wp (sha2_state ← OQS_SHA2_sha256_inc_ctx_clone cb (state_seeded ctx);
      a ← read addr 0 SPX_SHA256_ADDR_BYTES;
      '(outbuf, _) ← OQS_SHA2_sha256_inc_finalize cb sha2_state (a ++ x);
      read outbuf 0 SPX_N)
     (λ out, out = take SPX_N (sha256_fn (block_pad 64 pub ++ take SPX_SHA256_ADDR_BYTES addr ++ x))).
Proof.
  intros (_ & _ & _ & H256 & _) Ha. unfold is_addr, SPX_ADDR_BYTES in Ha.
  eapply wp_then; [by eapply sha256_inc_ctx_clone_ok |]. intros st Hst.
  eapply wp_step; [apply read_Some; rewrite Ha; unfold SPX_SHA256_ADDR_BYTES; lia |]. rewrite drop_0.
  eapply wp_then; [eapply sha256_inc_finalize_ok; exact Hst |]. intros [out st'] ->.
  rewrite read_Some by (rewrite length_sha256_fn; unfold SPX_N; lia). by rewrite drop_0.
Qed.

Lemma seeded_512 ctx pub sk addr x :
  sha2_ctx_rep ctx pub sk → is_addr addr → Z.of_nat (length x) < 2 ^ 63 →
  wp (sha2_state ← OQS_SHA2_sha512_inc_ctx_clone cb (state_seeded_512 ctx);
      a ← read addr 0 SPX_SHA256_ADDR_BYTES;
      '(outbuf, _) ← OQS_SHA2_sha512_inc_finalize cb sha2_state (a ++ x);
      read outbuf 0 SPX_N)
     (λ out, out = take SPX_N (sha512_fn (block_pad 128 pub ++ take SPX_SHA256_ADDR_BYTES addr ++ x))).
Proof.
  intros (Hp & _ & _ & _ & H512) Ha Hx. unfold is_addr, SPX_ADDR_BYTES in Ha.
  eapply wp_then; [by eapply sha512_inc_ctx_clone_ok |]. intros st Hst.
  eapply wp_step; [apply read_Some; rewrite Ha; unfold SPX_SHA256_ADDR_BYTES; lia |]. rewrite drop_0.
  eapply wp_then; [eapply sha512_inc_finalize_ok; [exact Hst |] |].
  - unfold block_pad. rewrite !length_app, length_replicate, length_take, Ha, Hp.
    unfold SPX_SHA256_ADDR_BYTES, SPX_N. lia.
  - intros [out st'] ->. rewrite read_Some by (rewrite length_sha512_fn; unfold SPX_N; lia). by rewrite drop_0.
Qed.

Lemma sha2_thash_ok ctx pub sk x n addr :
  sha2_ctx_rep ctx pub sk → (0 < n <= 64)%nat → length x = (n * SPX_N)%nat → is_addr addr →
  sha2_thash cb x n ctx addr = Some (spec_thash pub x addr).
Proof.
  intros Hctx Hn Hx Ha. assert (Z.of_nat (length x) < 2 ^ 63) by (unfold SPX_N in *; lia).
  unfold sha2_thash, sha2_thash_512, spec_thash.
  rewrite read_all by done. cbn [mbind option_bind]. apply wp_eq. case_decide as Hd.
  - rewrite decide_False by (unfold SPX_N in *; lia). by eapply seeded_512.
  - rewrite decide_True by (unfold SPX_N in *; lia). by eapply seeded_256.
Qed.

Lemma sha2_prf_addr_ok ctx pub sk addr :
  sha2_ctx_rep ctx pub (Some sk) → is_addr addr →
  sha2_prf_addr cb ctx addr = Some (spec_prf pub sk addr).
Proof.
  intros Hctx Ha. pose proof Hctx as (_ & Hsk & Hl & _). unfold sha2_prf_addr. rewrite Hsk.
  cbn [mbind option_bind from_option] in *. rewrite (read_all sk) by done. cbn [mbind option_bind].
  apply wp_eq. by eapply seeded_256.
Qed.

(** The inner and outer keys of HMAC, as the code lays them out. *)
Lemma hmac_key b (key : list Z) :
  length key = SPX_N →
  Z.lxor b <$> (key ++ replicate (128 - length key) 0) = (Z.lxor b <$> key) ++ replicate (128 - SPX_N) b.
Proof. intros Hk. by rewrite fmap_app, fmap_replicate, Z.lxor_0_r, Hk. Qed.

(** The inner hash of HMAC, whichever way its second block is filled. *)
Lemma hmac_inner_ok pre optrand pad tl m st :
  length pre = 128%nat → length optrand = SPX_N → length pad = 104%nat → length tl = 64%nat →
  Z.of_nat (length m) < 2 ^ 63 → rep_512 st pre →
  wp (if decide (SPX_N + length m < 128)%nat then
        buf ← write (optrand ++ pad ++ tl) SPX_N m;
        inp ← read buf 0 (length m + SPX_N);
        '(d, _) ← OQS_SHA2_sha512_inc_finalize cb st inp;
        write buf 128 d
      else
        head ← read m 0 (128 - SPX_N);
        buf ← write (optrand ++ pad ++ tl) SPX_N head;
        state ← OQS_SHA2_sha512_inc_blocks cb st buf 1;
        '(d, _) ← OQS_SHA2_sha512_inc_finalize cb state (drop (128 - SPX_N) m);
        write buf 128 d)
     (λ buf, ∃ x y, buf = x ++ y ++ sha512_fn (pre ++ optrand ++ m) ∧
        length x = SPX_N ∧ length y = 104%nat).
Proof.
  intros Hpre Ho Hpad Htl Hm Hst. set (d := sha512_fn (pre ++ optrand ++ m)).
  assert (Hd : length d = 64%nat) by apply length_sha512_fn.
  case_decide as Hc.
  - destruct (split_at (length m) pad) as (p1 & p2 & -> & Hp1); [unfold SPX_N in *; lia |].
    rewrite <-app_assoc. rewrite length_app in Hpad.
    eapply wp_step; [apply write_app; lia |].
    eapply wp_step; [rewrite app_assoc; apply read_front; rewrite length_app; lia |].
    eapply wp_then; [eapply sha512_inc_finalize_ok; [exact Hst |] |].
    { rewrite !length_app. unfold SPX_N in *. lia. }
    intros [out st'] ->. fold d. rewrite !app_assoc, <-(app_nil_r tl).
    rewrite write_app by (rewrite ?length_app; unfold SPX_N in *; lia). cbn [wp].
    exists optrand, (m ++ p2). rewrite app_nil_r, length_app, <-!app_assoc. split_and!; [done | done | lia].
  - eapply wp_step; [apply read_Some; unfold SPX_N in *; lia |]. rewrite drop_0.
    set (h := take (128 - SPX_N) m).
    assert (Hh : length h = 104%nat) by (unfold h; rewrite length_take; unfold SPX_N in *; lia).
    eapply wp_step; [apply write_app; lia |].
    eapply wp_then; [eapply sha512_inc_blocks_ok; [exact Hst |] |].
    { rewrite !length_app. unfold SPX_N in *. lia. }
    intros st2. cbv beta.
    rewrite (app_assoc optrand h), take_app_length' by (rewrite length_app; unfold SPX_N in *; lia).
    intros Hst2. eapply wp_then; [eapply sha512_inc_finalize_ok; [exact Hst2 |] |].
    { rewrite !length_app, length_drop. unfold SPX_N in *. lia. }
    intros [out st'] ->.
    replace ((pre ++ optrand ++ h) ++ drop (128 - SPX_N) m) with (pre ++ optrand ++ m)
      by (rewrite <-!app_assoc; unfold h; by rewrite take_drop).
    fold d. rewrite <-(app_nil_r tl).
    rewrite write_app by (rewrite ?length_app; unfold SPX_N in *; lia). cbn [wp].
    exists optrand, h. rewrite app_nil_r, <-!app_assoc. done.
Qed.

Lemma sha2_gen_message_random_ok sk_prf optrand m ctx :
  length sk_prf = SPX_N → length optrand = SPX_N → msg_fits m →
  sha2_gen_message_random cb sk_prf optrand m ctx = Some (spec_random sk_prf optrand m).
Proof.
  intros Hk Ho Hm. unfold msg_fits in Hm. unfold sha2_gen_message_random, spec_random, HMAC.
  rewrite !hmac_key by done.
  rewrite (read_all sk_prf), (read_all optrand) by done. cbn [mbind option_bind].
  set (pad36 := replicate (128 - SPX_N) 0x36). set (pad5c := replicate (128 - SPX_N) 0x5c).
  set (k36 := Z.lxor 0x36 <$> sk_prf). set (k5c := Z.lxor 0x5c <$> sk_prf).
  assert (Hlp : length pad36 = 104%nat ∧ length pad5c = 104%nat) by done. destruct Hlp as [Hl36 Hl5c].
  assert (Hk36 : length k36 = SPX_N) by (unfold k36; by rewrite length_fmap).
  assert (Hk5c : length k5c = SPX_N) by (unfold k5c; by rewrite length_fmap).
  change SPX_SHA512_BLOCK_BYTES with 128%nat. change SPX_SHA512_OUTPUT_BYTES with 64%nat.
  fold pad36 pad5c.
  generalize (length_uninit (128 + 64)). generalize (uninit (128 + 64)). intros buf0 Hu.
  destruct (split_at SPX_N buf0) as (b0 & u & -> & Hb0); [unfold SPX_N; lia |].
  destruct (split_at 104 u) as (b1 & b2 & -> & Hb1); [rewrite length_app in Hu; unfold SPX_N in *; lia |].
  rewrite !length_app in Hu. assert (Hb2 : length b2 = 64%nat) by (unfold SPX_N in *; lia).
  apply wp_eq.
  eapply wp_step; [apply write_front; lia |].
  eapply wp_step; [apply write_app; lia |].
  eapply wp_then.
  { apply sha512_inc_blocks_ok; [apply sha512_inc_init_ok |]. rewrite !length_app. unfold SPX_N in *. lia. }
  intros st. cbv beta.
  rewrite (app_assoc k36 pad36), take_app_length' by (rewrite length_app; unfold SPX_N in *; lia). intros Hst.
  rewrite <-app_assoc. eapply wp_step; [apply write_front; lia |].
  set (d := sha512_fn ((k36 ++ pad36) ++ optrand ++ m)).
  assert (Hd : length d = 64%nat) by apply length_sha512_fn.
  eapply wp_then with (P := λ buf, ∃ x y, buf = x ++ y ++ d ∧ length x = SPX_N ∧ length y = 104%nat).
  { apply hmac_inner_ok; [rewrite length_app; unfold SPX_N in *; lia | done..]. }
  intros buf (x & y & -> & Hx & Hy).
  eapply wp_step; [apply write_front; lia |]. eapply wp_step; [apply write_app; lia |].
  eapply wp_step; [apply read_all; rewrite !length_app; unfold SPX_N in *; lia |].
  eapply wp_step; [apply sha512_ok; rewrite !length_app; unfold SPX_N in *; lia |].
  rewrite (app_assoc k5c). fold d. set (e := sha512_fn _).
  assert (He : length e = 64%nat) by apply length_sha512_fn.
  eapply wp_step; [apply write_Some; rewrite !length_app; unfold SPX_N in *; lia |].
  unfold put. rewrite take_0. cbn [app].
  rewrite read_Some by (rewrite length_app; unfold SPX_N; lia). cbn [wp].
  rewrite drop_0, take_app_le by (unfold SPX_N; lia). done.
Qed.

(** The digest of [R ++ pk ++ m], whichever way the first block is filled. *)
Lemma message_digest_ok (R pk m inbuf : list Z) st :
  length R = SPX_N → length pk = SPX_PK_BYTES → msg_fits m → rep_512 st [] →
  length inbuf = (128 - SPX_N - SPX_PK_BYTES)%nat →
  wp (if decide (SPX_N + SPX_PK_BYTES + length m < 128)%nat then
       buf ← write (R ++ pk ++ inbuf) (SPX_N + SPX_PK_BYTES) m;
       inp ← read buf 0 (SPX_N + SPX_PK_BYTES + length m);
       '(d, _) ← OQS_SHA2_sha512_inc_finalize cb st inp;
       Some d
     else
       head ← read m 0 (128 - SPX_N - SPX_PK_BYTES);
       buf ← write (R ++ pk ++ inbuf) (SPX_N + SPX_PK_BYTES) head;
       st ← OQS_SHA2_sha512_inc_blocks cb st buf 1;
       '(d, _) ← OQS_SHA2_sha512_inc_finalize cb st (drop (128 - SPX_N - SPX_PK_BYTES) m);
       Some d) (λ d, d = sha512_fn (R ++ pk ++ m)).
Proof.
  intros HR Hpk Hm Hst Hin. unfold msg_fits in Hm. assert (Hc : SPX_N = 24%nat ∧ SPX_PK_BYTES = 48%nat) by done.
  destruct Hc as [HN HP]. rewrite HP in *. rewrite app_assoc. case_decide as Hc.
  - destruct (split_at (length m) inbuf) as (i1 & i2 & -> & Hi1); [lia |]. rewrite length_app in Hin.
    eapply wp_step; [apply write_app; rewrite ?length_app; lia |].
    eapply wp_step; [rewrite app_assoc; apply read_front; rewrite !length_app; lia |].
    eapply wp_then; [eapply sha512_inc_finalize_ok; [exact Hst |] |].
    { cbn [app]. rewrite !length_app. lia. }
    intros [out st'] ->. cbn [app wp]. by rewrite <-app_assoc.
  - eapply wp_step; [apply read_Some; lia |]. rewrite drop_0.
    set (h := take (128 - SPX_N - 48) m).
    assert (Hh : length h = length inbuf) by (unfold h; rewrite length_take; lia).
    rewrite <-(app_nil_r inbuf). eapply wp_step; [apply write_app; rewrite ?length_app; lia |].
    eapply wp_then; [eapply sha512_inc_blocks_ok; [exact Hst | rewrite !length_app; lia] |].
    intros st2. cbv beta. rewrite app_nil_r, take_ge by (rewrite !length_app; lia). intros Hst2.
    eapply wp_then; [eapply sha512_inc_finalize_ok; [exact Hst2 |] |].
    { cbn [app]. rewrite !length_app, length_drop. lia. }
    intros [out st'] ->. cbn [app wp]. rewrite <-!app_assoc. unfold h. by rewrite take_drop.
Qed.

Lemma sha2_hash_message_ok R pk m ctx :
  length R = SPX_N → length pk = SPX_PK_BYTES → msg_fits m →
  sha2_hash_message cb R pk m ctx = Some (spec_message R pk m).
Proof.
  intros HR Hpk Hm. unfold sha2_hash_message, spec_message.
  change SPX_INBLOCKS with 1%nat. change SPX_SHA512_BLOCK_BYTES with 128%nat.
  change (1 * 128)%nat with 128%nat.
  rewrite (read_all R), (read_all pk SPX_PK_BYTES) by done. cbn [mbind option_bind].
  rewrite (read_Some pk 0 SPX_N) by (rewrite Hpk; unfold SPX_PK_BYTES; lia). cbn [mbind option_bind]. rewrite drop_0.
  set (ps := take SPX_N pk).
  assert (Hps : length ps = SPX_N) by (unfold ps; rewrite length_take, Hpk; unfold SPX_PK_BYTES; lia).
  generalize (length_uninit 128). generalize (uninit 128). intros inbuf Hi.
  destruct (split_at SPX_N inbuf) as (i0 & i1 & -> & Hi0); [unfold SPX_N; lia |]. rewrite length_app in Hi.
  destruct (split_at SPX_PK_BYTES i1) as (i2 & i3 & -> & Hi2); [unfold SPX_PK_BYTES, SPX_N in *; lia |].
  rewrite length_app in Hi.
  change SPX_SHA512_OUTPUT_BYTES with 64%nat.
  generalize (length_uninit (2 * SPX_N + 64)). generalize (uninit (2 * SPX_N + 64)). intros seed Hs.
  destruct (split_at SPX_N seed) as (s0 & s1 & -> & Hs0); [lia |]. rewrite length_app in Hs.
  destruct (split_at SPX_N s1) as (s2 & s3 & -> & Hs2); [lia |]. rewrite length_app in Hs.
  apply wp_eq. eapply wp_step; [apply write_front; lia |].
  eapply wp_step; [apply write_app; lia |].
  eapply wp_then; [apply message_digest_ok; [done | done | done | apply sha512_inc_init_ok | lia] |].
  intros d Hd. assert (Hld : length d = 64%nat) by (rewrite Hd; apply length_sha512_fn).
  rewrite <-Hd. rewrite (app_assoc s0), <-(app_nil_r s3).
  eapply wp_step; [apply write_app; rewrite ?length_app; lia |]. rewrite app_nil_r, <-app_assoc.
  eapply wp_step; [apply write_front; lia |].
  eapply wp_step; [apply write_app; lia |].
  eapply wp_step; [apply read_all; rewrite !length_app; lia |].
  set (dg := MGF1 _ _ _ _).
  eapply wp_step.
  { apply (mgf1_ok _ sha512_fn 64).
    - intros i. apply sha512_ok. rewrite !length_app. unfold SPX_N in *. simpl. lia.
    - apply length_sha512_fn.
    - lia.
    - done. }
  fold dg. assert (Hdl : length dg = SPX_DGST_BYTES) by (apply length_MGF1; [apply length_sha512_fn | lia]).
  assert (Hdb : bytes dg) by (apply MGF1_bytes; intros; apply (sha2_bytes core_64)).
  change SPX_DGST_BYTES with 42%nat in *. change SPX_FORS_MSG_BYTES with 33%nat.
  change SPX_TREE_BYTES with 8%nat. change SPX_LEAF_BYTES with 1%nat.
  eapply wp_step; [apply read_Some; lia |]. rewrite drop_0.
  eapply wp_step; [apply bytes_to_ull_be_val; [by apply Forall_drop | rewrite length_drop; lia | lia] |].
  eapply wp_step; [apply bytes_to_ull_be_val; [by apply Forall_drop, Forall_drop | rewrite !length_drop; lia | lia] |].
  cbn [wp]. rewrite drop_drop.
  change ((2 ^ 64 - 1) >> (64 - Z.of_nat SPX_TREE_BITS)) with (2 ^ Z.of_nat SPX_TREE_BITS - 1).
  change ((2 ^ 32 - 1) >> (32 - Z.of_nat SPX_LEAF_BITS)) with (2 ^ Z.of_nat SPX_LEAF_BITS - 1).
  rewrite !land_ones_u32 by lia. f_equal. f_equal. apply u32_small. split.
  - apply be_val_range. by apply Forall_take, Forall_drop.
  - eapply Z.lt_le_trans; [apply be_val_range; by apply Forall_take, Forall_drop |].
    rewrite length_take, length_drop, Hdl. done.
Qed.

Lemma spec_message_range R pk m :
  length (spec_message R pk m).1.1 = SPX_FORS_MSG_BYTES ∧
  0 <= (spec_message R pk m).1.2 < 2 ^ Z.of_nat (SPX_TREE_HEIGHT * (SPX_D - 1)) ∧
  0 <= (spec_message R pk m).2 < 2 ^ Z.of_nat SPX_TREE_HEIGHT.
Proof.
  unfold spec_message. cbn [fst snd]. split_and!.
  - rewrite length_take, length_MGF1; [done | apply length_sha512_fn | lia].
  - apply Z.mod_pos_bound, pow2_pos.
  - apply Z.mod_pos_bound, pow2_pos.
  - apply Z.mod_pos_bound, pow2_pos.
  - apply Z.mod_pos_bound, pow2_pos.
Qed.

#[export] Instance sha2_spx_laws : SpxHashLaws (sha2_spx_hash cb).
Proof.
  refine {| F_thash := spec_thash; F_prf := spec_prf; F_random := spec_random; F_message := spec_message;
            ctx_rep := sha2_ctx_rep : @spx_ctx (sha2_spx_hash cb) → _ |}.
  - exact sha2_initialize_ok.
  - exact sha2_free_ok.
  - exact sha2_thash_ok.
  - exact sha2_prf_addr_ok.
  - intros ctx pub sk sk_prf optrand m _. apply sha2_gen_message_random_ok.
  - intros ctx pub sk R pk m _. apply sha2_hash_message_ok.
  - intros pub x addr. unfold spec_thash. case_decide; rewrite length_take, ?length_sha256_fn, ?length_sha512_fn; done.
  - intros pub sk addr. unfold spec_prf. by rewrite length_take, length_sha256_fn.
  - intros sk_prf optrand m. unfold spec_random, HMAC. by rewrite length_take, length_sha512_fn.
  - exact spec_message_range.
Defined.
End laws.
