(* ===== verification/Sphincs.v ===== *)
(** SPHINCS+-SHA2-192f-simple as it is built and linked: the signature scheme
    over the SHA-2 instantiation and the default SHA-2 implementation of liboqs.
    The theorems here have no assumption on the hash functions.

    What the SPHINCS+ functions write consists of bytes: every block of a signature is
    an output of a hash function. *)
From S2P Require Import Prelude SpxAddress SpxIface SpxTree SpxWots SpxMerkle SpxFors SpxSign SpxCorrect SpxVerify Sha2 Sha2Spec Sha2Inc Sha2Api SpxHash.

#[export] Instance spx192f {U : Uninit} : SpxHash := sha2_spx_hash sha2_default_callbacks.
#[export] Instance spx192f_laws {U : Uninit} : SpxHashLaws spx192f :=
  sha2_spx_laws sha2_default_callbacks.

(** Memory that happens to hold zeros, and a random source that returns zeros:
    concrete parameters for evaluating and instantiating. *)
Definition zero_uninit : Uninit := {| uninit n := replicate n 0; length_uninit n := length_replicate n 0 |}.
Definition zero_rng (_ : unit) (n : nat) : list Z * unit := (replicate n 0, tt).
Lemma length_zero_rng g n : length (zero_rng g n).1 = n.
Proof. apply length_replicate. Defined.

Section sphincs.
Context {U : Uninit} {rng : Type} (randombytes : rng → nat → list Z * rng).

Lemma sign_verify_core (g : rng) (pk0 sk0 : list Z) :
  (∀ g n, length (randombytes g n).1 = n) →
  length pk0 = SPX_PK_BYTES → length sk0 = SPX_SK_BYTES →
  wp (crypto_sign_keypair randombytes pk0 sk0 g) (λ '(ret, pk, sk, _),
    ret = 0 ∧ length pk = SPX_PK_BYTES ∧ length sk = SPX_SK_BYTES ∧
    ∀ gs sig0 m, length sig0 = SPX_BYTES → msg_fits m →
    wp (crypto_sign_signature randombytes sig0 m sk gs) (λ '(ret, sig, siglen, _),
      ret = 0 ∧ siglen = SPX_BYTES ∧ length sig = siglen ∧
      crypto_sign_verify sig siglen m pk = Some 0)).
Proof.
  intros Hrng Hpk Hsk. unfold crypto_sign_keypair.
  pose proof (Hrng g CRYPTO_SEEDBYTES) as Hseed. destruct (randombytes g CRYPTO_SEEDBYTES) as [seed g1].
  destruct (split_at SPX_N seed) as (s1 & s23 & -> & H1); [cbn [fst] in *; unfold CRYPTO_SEEDBYTES in *; lia |].
  cbn [fst] in Hseed. rewrite length_app in Hseed.
  destruct (split_at SPX_N s23) as (s2 & s3 & -> & H2); [unfold CRYPTO_SEEDBYTES in *; lia |].
  rewrite length_app in Hseed. assert (H3 : length s3 = SPX_N) by (unfold CRYPTO_SEEDBYTES in *; lia).
  pose proof (length_spec_pk s1 s3 H3) as Lpk.
  eapply wp_step; [by apply seed_keypair_eq |]. split; [done |]. split; [done |].
  split; [unfold spec_sk; rewrite !length_app, length_spx_root; unfold SPX_SK_BYTES, SPX_PK_BYTES in *; lia |].
  intros gs sig0 m Hsig Hm. eapply wp_mono; [by apply wp_crypto_sign_signature |].
  intros [[[ret sig] siglen] g2] (-> & -> & Hl & _ & Hok). split_and!; [done | done | done |].
  eapply verify_good; [done | | done | done | exact Hok]. apply length_F_random.
Qed.

(** C3 Every signature verifies.  From any state of the random source, and
    whatever the output buffers and the stack held, generating a key pair, then,
    from any other state of the random source, signing a message of any length
    and verifying the result under the public key is defined, and every one of
    the three calls returns 0. *)
Theorem sphincs_sign_verify (g : rng) (pk0 sk0 sig0 m : list Z) :
  (∀ g n, length (randombytes g n).1 = n) →
  length pk0 = SPX_PK_BYTES → length sk0 = SPX_SK_BYTES → length sig0 = SPX_BYTES → msg_fits m →
  wp (crypto_sign_keypair randombytes pk0 sk0 g) (λ '(ret, pk, sk, _),
    ret = 0 ∧ ∀ gs,
    wp (crypto_sign_signature randombytes sig0 m sk gs) (λ '(ret, sig, siglen, _),
      ret = 0 ∧ siglen = SPX_BYTES ∧ length sig = siglen ∧
      crypto_sign_verify sig siglen m pk = Some 0)).
Proof.
  intros Hrng Hpk Hsk Hsig Hm. eapply wp_mono; [by apply sign_verify_core |].
  intros [[[ret pk] sk] g1] (-> & _ & _ & H). split; [done |]. intros gs. by apply H.
Qed.

(** The attached-signature API is a round trip: opening what [crypto_sign]
    wrote returns 0, the message and its length. *)
Theorem sphincs_sign_open (g : rng) (sm0 m m0 sk_seed sk_prf pub : list Z) :
  (∀ g n, length (randombytes g n).1 = n) →
  length sk_seed = SPX_N → length sk_prf = SPX_N → length pub = SPX_N →
  length sm0 = (SPX_BYTES + length m)%nat → (length sm0 <= length m0)%nat →
  Z.of_nat (SPX_BYTES + length m) < 2 ^ 63 →
  wp (crypto_sign randombytes sm0 m (spec_sk sk_seed sk_prf pub) g) (λ '(ret, sm, smlen, _),
    ret = 0 ∧ smlen = length sm ∧
    crypto_sign_open m0 sm smlen (spec_pk sk_seed pub) = Some (0, put m0 0 m, length m)).
Proof.
  intros Hrng H1 H2 H3 Hsm Hm0 Hm. unfold crypto_sign.
  destruct (split_at SPX_BYTES sm0) as (s & r & -> & Hs); [lia |]. rewrite length_app in *.
  eapply wp_step; [by apply read_front |].
  eapply wp_then; [apply wp_crypto_sign_signature; try done; unfold msg_fits; lia |].
  intros [[[ret sig] siglen] g2] (-> & -> & Hl & _ & Hok).
  eapply wp_step; [apply write_front; lia |].
  eapply wp_step; [rewrite <-(app_nil_r r); apply write_app; lia |].
  rewrite app_nil_r. cbn [wp]. split_and!; [done | rewrite length_app; lia |].
  replace (SPX_BYTES + length m)%nat with (length (sig ++ m)) by (rewrite length_app; lia).
  rewrite open_any; [| by apply length_spec_pk | rewrite length_app; lia | unfold msg_fits; rewrite length_app; lia].
  unfold spec_open. rewrite bool_decide_true by (rewrite length_app; lia). cbn [andb].
  rewrite <-Hl at 1 2. rewrite take_app_length, drop_app_length.
  assert (Hv : crypto_sign_verify sig SPX_BYTES m (spec_pk sk_seed pub) = Some 0).
  { eapply verify_good; [done | | done | unfold msg_fits; lia | exact Hok]. apply length_F_random. }
  rewrite verify_eq in Hv; [| done | by apply length_spec_pk | unfold msg_fits; lia].
  destruct (spec_verify _ _ _); [| done]. rewrite length_app, Hl. do 3 f_equal; [| lia].
  f_equal. rewrite <-Hl. apply drop_app_length.
Qed.
End sphincs.

#[local] Existing Instance zero_uninit.

Lemma sphincs_sign_verify_witness :
  wp (crypto_sign_keypair zero_rng (replicate 48 0) (replicate 96 0) tt) (λ '(ret, pk, sk, _),
    ret = 0 ∧ ∀ gs,
    wp (crypto_sign_signature zero_rng (replicate SPX_BYTES 0) [1; 2; 3] sk gs) (λ '(ret, sig, siglen, _),
      ret = 0 ∧ siglen = SPX_BYTES ∧ length sig = siglen ∧
      crypto_sign_verify sig siglen [1; 2; 3] pk = Some 0)).
Proof.
  apply (sphincs_sign_verify zero_rng); [exact length_zero_rng | reflexivity | reflexivity | |].
  - apply length_replicate.
  - reflexivity.
Defined.

Lemma sphincs_sign_open_witness :
  wp (crypto_sign zero_rng (replicate (SPX_BYTES + 2) 0) [7; 8]
        (spec_sk (replicate 24 1) (replicate 24 2) (replicate 24 3)) tt) (λ '(ret, sm, smlen, _),
    ret = 0 ∧ smlen = length sm ∧
    crypto_sign_open (replicate (SPX_BYTES + 2) 9) sm smlen (spec_pk (replicate 24 1) (replicate 24 3))
      = Some (0, put (replicate (SPX_BYTES + 2) 9) 0 [7; 8], 2%nat)).
Proof.
  apply (sphincs_sign_open zero_rng tt _ [7; 8]);
    [exact length_zero_rng | reflexivity | reflexivity | reflexivity | | | reflexivity].
  - apply length_replicate.
  - rewrite !length_replicate. reflexivity.
Defined.

Section keys.
Context {U : Uninit}.

(** Key generation from a seed [sk_seed ++ sk_prf ++ pub_seed] returns 0, the
    public key [pub_seed ++ root] and the secret key [seed ++ root], where
    [root] is the root of the top-most tree of WOTS keys.  The result does not
    depend on what the output buffers held (the code runs the signer on the
    unwritten [root] part of [sk]) nor on uninitialised stack memory. *)
Theorem sphincs_seed_keypair (pk0 sk0 sk_seed sk_prf pub : list Z) :
  length pk0 = SPX_PK_BYTES → length sk0 = SPX_SK_BYTES →
  length sk_seed = SPX_N → length sk_prf = SPX_N → length pub = SPX_N →
  crypto_sign_seed_keypair pk0 sk0 (sk_seed ++ sk_prf ++ pub) =
    Some (0, pub ++ spx_root pub sk_seed, (sk_seed ++ sk_prf ++ pub) ++ spx_root pub sk_seed).
Proof. intros. rewrite seed_keypair_eq by done. unfold spec_sk. by rewrite <-!app_assoc. Qed.

(** C11 Verification computes the reference verifier on every input: for any
    public key, message and candidate signature it is defined (no access out of
    bounds, every loop ends), returns 0 exactly when the length is [SPX_BYTES]
    and the root rebuilt from the signature equals the root in the key, and
    returns -1 otherwise. *)
Theorem sphincs_verify_refines (sig m pk : list Z) (siglen : nat) :
  length sig = siglen → length pk = SPX_PK_BYTES → msg_fits m →
  crypto_sign_verify sig siglen m pk =
    Some (if bool_decide (siglen = SPX_BYTES) && spec_verify pk m sig then 0 else -1).
Proof. apply verify_any. Qed.

(** C35 Opening a signed message, on every input: if it is long enough and its
    signature is valid, 0, the message and its length; otherwise -1, length 0
    and as many zero bytes as the input was long, so no unauthenticated byte is
    left in the output buffer. *)
Theorem sphincs_open_total (m0 sm pk : list Z) :
  length pk = SPX_PK_BYTES → (length sm <= length m0)%nat → msg_fits sm →
  crypto_sign_open m0 sm (length sm) pk =
    Some (if bool_decide (SPX_BYTES <= length sm)%nat &&
             spec_verify pk (drop SPX_BYTES sm) (take SPX_BYTES sm)
          then (0, put m0 0 (drop SPX_BYTES sm), (length sm - SPX_BYTES)%nat)
          else (-1, put m0 0 (replicate (length sm) 0), 0%nat)).
Proof. apply open_any. Qed.
End keys.

Lemma sphincs_seed_keypair_witness :
  crypto_sign_seed_keypair (replicate 48 5) (replicate 96 6) (replicate 24 1 ++ replicate 24 2 ++ replicate 24 3) =
    Some (0, replicate 24 3 ++ spx_root (replicate 24 3) (replicate 24 1),
          (replicate 24 1 ++ replicate 24 2 ++ replicate 24 3) ++ spx_root (replicate 24 3) (replicate 24 1)).
Proof.
  apply (sphincs_seed_keypair (replicate 48 5) (replicate 96 6) (replicate 24 1) (replicate 24 2) (replicate 24 3));
    reflexivity.
Defined.

Lemma sphincs_verify_refines_witness :
  crypto_sign_verify (replicate 10 0) 10 [1] (replicate 48 0) = Some (-1) ∧
  crypto_sign_verify (replicate SPX_BYTES 0) SPX_BYTES [1] (replicate 48 0)
    = Some (if bool_decide (SPX_BYTES = SPX_BYTES) && spec_verify (replicate 48 0) [1] (replicate SPX_BYTES 0)
            then 0 else -1).
Proof.
  split.
  - rewrite (sphincs_verify_refines (replicate 10 0) [1] (replicate 48 0) 10) by reflexivity.
    rewrite bool_decide_false by (rewrite SPX_BYTES_parts; unfold SPX_N; lia). reflexivity.
  - apply (sphincs_verify_refines (replicate SPX_BYTES 0) [1] (replicate 48 0) SPX_BYTES);
      [apply length_replicate | reflexivity | reflexivity].
Defined.

Lemma sphincs_open_total_witness :
  crypto_sign_open (replicate 4 9) [1; 2; 3] 3 (replicate 48 0) = Some (-1, [0; 0; 0; 9], 0%nat).
Proof.
  rewrite (sphincs_open_total (replicate 4 9) [1; 2; 3] (replicate 48 0)) by (reflexivity || (cbn [length replicate]; lia)).
  rewrite bool_decide_false by (rewrite SPX_BYTES_parts; unfold SPX_N; cbn [length]; lia). reflexivity.
Defined.

Lemma slots_bytes n k buf : length buf = (k * n)%nat → (∀ i, (i < k)%nat → bytes (slot n buf i)) → bytes buf.
Proof.
  intros Hl Hs. rewrite (slots_eq n k buf (slot n buf) Hl) by done. apply Forall_bind, Forall_forall.
  intros i Hi%in_seq. apply Hs. lia.
Qed.

Section blocks.
Context `{H : SpxHash, !SpxHashLaws H}.
Context (Bt : ∀ pub x a, bytes (F_thash pub x a)) (Bp : ∀ pub sk a, bytes (F_prf pub sk a)).

Lemma merkle_node_bytes pub leaf base off h i : (∀ j, bytes (leaf j)) → bytes (merkle_node pub leaf base off h i).
Proof using Bt. intros Hl. destruct h; [apply Hl|apply Bt]. Qed.

Lemma wots_chain_bytes pub sk a c k : bytes (wots_chain pub sk a c k).
Proof using Bt Bp. destruct k; [apply Bp|apply Bt]. Qed.

Lemma fors_chunk_bytes pub sk fb i index chunk : length chunk = fors_chunk → fors_chunk_ok pub sk fb i index chunk → bytes chunk.
Proof using Bt Bp.
  intros Hl [H1 H2]. rewrite <-(take_drop SPX_N chunk). apply Forall_app. split; [rewrite H1; apply Bp|].
  apply (slots_bytes SPX_N SPX_FORS_HEIGHT).
  - rewrite length_drop, Hl. done.
  - intros h Hh. rewrite H2 by done. apply merkle_node_bytes. intros j. apply Bt.
Qed.

Lemma fors_sig_bytes pub sk fb m sig : length m = SPX_FORS_MSG_BYTES → fors_sig_ok pub sk fb m sig → bytes sig.
Proof using Bt Bp.
  intros Hm [Hl Hs]. apply (slots_bytes fors_chunk SPX_FORS_TREES); [exact Hl|]. intros i Hi.
  destruct (lookup_lt_is_Some_2 m i) as [b Hb]; [rewrite Hm; done|].
  eapply fors_chunk_bytes; [|by apply Hs]. apply length_slot. change SPX_FORS_BYTES with (SPX_FORS_TREES * fors_chunk)%nat in Hl. nia.
Qed.

Lemma layer_sig_bytes pub sk l t k msg chunk : length msg = SPX_N → length chunk = layer_bytes → layer_sig_ok pub sk l t k msg chunk → bytes chunk.
Proof using Bt Bp.
  intros Hm Hl [H1 H2]. rewrite <-(take_drop SPX_WOTS_BYTES chunk). apply Forall_app.
  destruct (proj1 (wp_exists _ _) (chain_lengths_ok msg Hm)) as (steps & Es & Ls & _).
  assert (Lw : length chunk = (SPX_WOTS_LEN * SPX_N + SPX_TREE_HEIGHT * SPX_N)%nat) by (rewrite Hl; done).
  split.
  - apply (slots_bytes SPX_N SPX_WOTS_LEN); [rewrite length_take, Lw; change SPX_WOTS_BYTES with (SPX_WOTS_LEN * SPX_N)%nat; lia|].
    intros c Hc. rewrite slot_take by (change SPX_WOTS_BYTES with (SPX_WOTS_LEN * SPX_N)%nat; nia).
    destruct (lookup_lt_is_Some_2 steps c) as [len Elen]; [lia|]. rewrite (H1 steps c len Es Elen). apply wots_chain_bytes.
  - apply (slots_bytes SPX_N SPX_TREE_HEIGHT); [rewrite length_drop, Lw; change SPX_WOTS_BYTES with (SPX_WOTS_LEN * SPX_N)%nat; lia|].
    intros h Hh. rewrite H2 by done. apply merkle_node_bytes. intros j. apply Bt.
Qed.

Lemma spx_sig_bytes sk_seed pub_seed R m sig : bytes R → spx_sig_ok sk_seed pub_seed R m sig → bytes sig.
Proof using Bt Bp.
  intros HR. unfold spx_sig_ok. pose proof (F_message_range R (spec_pk sk_seed pub_seed) m) as (Hm & _).
  destruct (F_message R (spec_pk sk_seed pub_seed) m) as [[mhash tree] leaf]. cbn [fst] in Hm.
  intros (fsig & lsig & -> & Hf & Hl & Hh). apply Forall_app. split; [done|]. apply Forall_app. split; [by eapply fors_sig_bytes|].
  apply (slots_bytes layer_bytes SPX_D); [done|]. intros i Hi. eapply layer_sig_bytes; [| |by apply Hh].
  - destruct i; [apply length_F_thash|apply length_layer_root].
  - apply length_slot. rewrite Hl. nia.
Qed.
End blocks.

(** ** The SHA-2 instantiation *)

Lemma spec_thash_bytes pub x addr : bytes (spec_thash pub x addr).
Proof. unfold spec_thash. cbv zeta. case_decide; apply Forall_take; [apply (sha2_bytes core_32)|apply (sha2_bytes core_64)]. Qed.

Section outputs.
Context {U : Uninit} {rng : Type} (randombytes : rng → nat → list Z * rng).
Context (Hrng : ∀ g n, length (randombytes g n).1 = n ∧ bytes (randombytes g n).1).

Lemma bytes_spx_root pub sk : bytes (spx_root pub sk).
Proof. apply spec_thash_bytes. Qed.

(** Key pairs and signatures. *)
Lemma sphincs_outputs_bytes g pk0 sk0 : length pk0 = SPX_PK_BYTES → length sk0 = SPX_SK_BYTES →
  wp (crypto_sign_keypair randombytes pk0 sk0 g) (λ '(_, pk, sk, _), bytes pk ∧ bytes sk ∧
    ∀ gs sig0 m, length sig0 = SPX_BYTES → msg_fits m →
    wp (crypto_sign_signature randombytes sig0 m sk gs) (λ '(_, sig, _, _), bytes sig)).
Proof using Hrng.
  intros Hpk Hsk. unfold crypto_sign_keypair.
  destruct (Hrng g CRYPTO_SEEDBYTES) as [Hseed Hb]. destruct (randombytes g CRYPTO_SEEDBYTES) as [seed g1]. cbn [fst] in *.
  destruct (split_at SPX_N seed) as (s1 & s23 & -> & H1); [unfold CRYPTO_SEEDBYTES in *; lia|]. rewrite length_app in Hseed.
  destruct (split_at SPX_N s23) as (s2 & s3 & -> & H2); [unfold CRYPTO_SEEDBYTES in *; lia|].
  rewrite length_app in Hseed. assert (H3 : length s3 = SPX_N) by (unfold CRYPTO_SEEDBYTES in *; lia).
  rewrite !Forall_app in Hb. destruct Hb as (B1 & B2 & B3). pose proof (bytes_spx_root s3 s1) as Br.
  eapply wp_step; [by apply seed_keypair_eq|]. unfold spec_pk. split; [by apply Forall_app|].
  split; [unfold spec_sk; rewrite !Forall_app; by split_and!|]. intros gs sig0 m Hsig Hm.
  eapply wp_mono; [apply (wp_crypto_sign_signature randombytes (λ g n, proj1 (Hrng g n)) sig0 m s1 s2 s3); done|].
  intros [[[ret sig] siglen] g2] (_ & _ & _ & _ & Hok). eapply spx_sig_bytes; [| | |exact Hok].
  - apply spec_thash_bytes.
  - intros. apply Forall_take. apply (sha2_bytes core_32).
  - apply Forall_take. apply (sha2_bytes core_64).
Qed.
End outputs.
