(* ===== verification/HashTheorems.v ===== *)
(** Theorems about SHA-2 and the SPHINCS+ hash functions built on it, against
    FIPS 180-4, HMAC and MGF1. *)
From S2P Require Import Prelude SpxAddress SpxIface Sha2 Sha2Spec Sha2Inc Sha2Api SpxHash Sphincs.

Open Scope c_scope.

(** ** SHA-2 *)

(** C32 SHA-256 and SHA-224: the one-shot functions are defined on every byte
    string and return the digests of FIPS 180-4, whose functions and constants are
    stated on their own in [Fips180] of Sha2Spec.v: rotations, the fractional parts
    of the roots of the primes, padding and rounds. *)
Theorem sha256_is_fips (m : list Z) :
  bytes m → oqs_sha2_sha256_c m = Some (SHA256 m) ∧ oqs_sha2_sha224_c m = Some (SHA224 m).
Proof.
  intros Hb. split; [by rewrite sha256_c_eq, sha256_fn_fips |].
  apply wp_eq. unfold oqs_sha2_sha224_c, oqs_sha2_sha224_inc_finalize_c. apply wp_bind. eapply wp_then.
  { apply (rep256_finalize H0_224 (proj1 H0_224_state) _ [] m), rep256_init, H0_224_state. }
  intros [out st] [-> _]. cbn [app]. eapply wp_step.
  { apply read_Some. rewrite (length_sha2 core_32) by apply H0_224_state. simpl. lia. }
  cbn [wp]. rewrite drop_0. by rewrite SHA224_core, (sha2_be core_32).
Qed.

(** SHA-512 and SHA-384, for messages the 64-bit byte counter can count. *)
Theorem sha512_is_fips (m : list Z) :
  bytes m → Z.of_nat (length m) < 2 ^ 64 →
  oqs_sha2_sha512_c m = Some (SHA512 m) ∧ oqs_sha2_sha384_c m = Some (SHA384 m).
Proof.
  intros Hb Hl. split; [by rewrite sha512_c_eq, sha512_fn_fips |].
  apply wp_eq. unfold oqs_sha2_sha384_c, oqs_sha2_sha384_inc_finalize_c. apply wp_bind. eapply wp_then.
  { apply (rep512_finalize H0_384 (proj1 H0_384_state) _ [] m); [apply rep512_init, H0_384_state | done]. }
  intros [out st] [-> _]. cbn [app]. eapply wp_step.
  { apply read_Some. rewrite (length_sha2 core_64) by apply H0_384_state. simpl. lia. }
  cbn [wp]. rewrite drop_0. by rewrite SHA384_core, (sha2_be core_64).
Qed.

(** Block processing: from the stored bytes of a chaining value, the code's
    rolling sixteen-word schedule and unrolled rounds compute the standard's
    compression function on each whole block, leave the rest of the buffer
    alone and return the length left over. *)
Theorem sha256_hashblocks_is_compression (H tl inp : list Z) (inlen : nat) :
  length H = 8%nat → Forall in_u32 H → bytes inp → (inlen <= length inp)%nat →
  crypto_hashblocks_sha256_c ((H ≫= be_bytes 4) ++ tl) inp inlen =
    Some ((foldl (λ H i, compress core_32 H (be_words core_32 (slot 64 inp i))) H (seq 0 (inlen / 64))
             ≫= be_bytes 4) ++ tl, (inlen mod 64)%nat).
Proof.
  intros Hl HH Hb Hin. unfold crypto_hashblocks_sha256_c.
  assert (Hs : is_state core_32 H) by done.
  change (H ≫= be_bytes 4) with (state_bytes core_32 H).
  rewrite (hashblocks_ok core_32) by done. rewrite (absorb_be core_32); [done | done |].
  change (block_bytes core_32) with 64%nat. pose proof (Nat.div_mod_eq inlen 64). lia.
Qed.

(** A call on a SHA-256 state: bytes, or whole blocks. *)
Inductive sha256_call :=
  | Inc (inp : list Z)
  | Blocks (inp : list Z) (n : nat).

Definition call_ok (c : sha256_call) : Prop :=
  match c with Inc _ => True | Blocks inp n => (64 * n <= length inp)%nat ∧ (0 < n)%nat end.
Definition call_bytes (c : sha256_call) : list Z :=
  match c with Inc inp => inp | Blocks inp n => take (64 * n) inp end.
Definition run_call (st : sha2_ctx) (c : sha256_call) : option sha2_ctx :=
  match c with
  | Inc inp => oqs_sha2_sha256_inc_c st inp (length inp)
  | Blocks inp n => oqs_sha2_sha256_inc_blocks_c st inp n
  end.
Fixpoint run_calls (st : sha2_ctx) (cs : list sha256_call) : option sha2_ctx :=
  match cs with [] => Some st | c :: cs => st ← run_call st c; run_calls st cs end.

Lemma run_calls_rep cs st m :
  rep_sha256 st m → Forall call_ok cs →
  wp (run_calls st cs) (λ st', rep_sha256 st' (m ++ (cs ≫= call_bytes))).
Proof.
  intros Hr Hcs. revert st m Hr. induction Hcs as [|c cs Hc _ IH]; intros st m Hr; cbn [run_calls].
  - cbn [wp mbind list_bind]. by rewrite app_nil_r.
  - eapply wp_then with (P := λ st', rep_sha256 st' (m ++ call_bytes c)).
    + destruct c as [inp | inp n]; cbn [run_call call_bytes].
      * apply rep256_inc; [apply H0_256_state | done].
      * destruct Hc. apply rep256_blocks; [apply H0_256_state | done | done | done].
    + intros st' Hr'. cbn [mbind list_bind]. rewrite app_assoc. by apply IH.
Qed.

(** Incremental SHA-256: any sequence of [inc] and [inc_blocks] calls, with
    bytes pending in the buffer or not, followed by a finalisation, is
    SHA-256 of the concatenation of everything passed in; the heap state is
    released. *)
Theorem sha256_incremental (cs : list sha256_call) (last : list Z) :
  Forall call_ok cs → Forall (λ c, bytes (call_bytes c)) cs → bytes last →
  wp (st ← run_calls oqs_sha2_sha256_inc_init_c cs; oqs_sha2_sha256_inc_finalize_c st last)
     (λ '(out, st'), out = SHA256 ((cs ≫= call_bytes) ++ last) ∧ ctx st' = None).
Proof.
  intros Hcs Hb Hl. eapply wp_then; [apply run_calls_rep; [apply sha256_init_ok | done] |].
  intros st Hr. cbn [app] in Hr. eapply wp_mono; [by apply rep256_finalize; [apply H0_256_state |] |].
  intros [out st'] [-> Hst]. split; [| done]. apply sha256_fn_fips. apply Forall_app. split; [| done].
  clear Hcs Hr. induction Hb; cbn [mbind list_bind]; [constructor |]. by apply Forall_app.
Qed.

(** ** The hash functions of SPHINCS+ *)

Section spx.
Context {U : Uninit}.

(** The tweakable hash and the PRF: under a context initialised with [pub],
    [thash] of [n] blocks is SHA-256 (one block) or SHA-512 (more) of the
    padded public seed, the 22-byte address and the input, and [prf_addr] is
    SHA-256 of the padded public seed, the address and the secret seed, each
    cut to [SPX_N] bytes; neither consumes the context. *)
Theorem thash_prf_exact (pub sk x addr : list Z) (n : nat) :
  length pub = SPX_N → length sk = SPX_N → (0 < n <= 64)%nat → length x = (n * SPX_N)%nat →
  is_addr addr → bytes pub → bytes sk → bytes x → bytes addr →
  wp (initialize_hash_function pub (Some sk)) (λ ctx,
    thash x n ctx addr = Some (take SPX_N
      (if decide (n = 1)%nat then SHA256 (pub ++ replicate 40 0 ++ take 22 addr ++ x)
       else SHA512 (pub ++ replicate 104 0 ++ take 22 addr ++ x))) ∧
    prf_addr ctx addr = Some (take SPX_N (SHA256 (pub ++ replicate 40 0 ++ take 22 addr ++ sk)))).
Proof.
  intros Hp Hs Hn Hx Ha Bp Bs Bx Ba.
  assert (Bz : ∀ k, bytes (replicate k 0)) by (intros; apply Forall_replicate; unfold in_u8; lia).
  assert (Bt : bytes (take 22 addr)) by (by apply Forall_take).
  eapply wp_mono; [apply (initialize_ok pub (Some sk)); done |]. intros ctx Hctx. split.
  - rewrite (thash_ok ctx pub (Some sk)) by done. f_equal. cbn [F_thash spx192f_laws sha2_spx_laws].
    unfold spec_thash, block_pad. change (64 - SPX_N)%nat with 40%nat. change (128 - SPX_N)%nat with 104%nat.
    destruct (decide (n = 1%nat)) as [->|Hn1].
    + rewrite decide_True by lia. rewrite sha256_fn_fips by (rewrite !Forall_app; auto). by rewrite <-!app_assoc.
    + rewrite decide_False by (unfold SPX_N in *; lia).
      rewrite sha512_fn_fips by (rewrite !Forall_app; auto). by rewrite <-!app_assoc.
  - rewrite (prf_addr_ok ctx pub sk) by done. f_equal. cbn [F_prf spx192f_laws sha2_spx_laws].
    unfold spec_prf, block_pad. change (64 - SPX_N)%nat with 40%nat.
    rewrite sha256_fn_fips by (rewrite !Forall_app; auto). by rewrite <-!app_assoc.
Qed.

(** The message randomiser is HMAC-SHA-512 of the random bytes and the
    message under [sk_prf], cut to [SPX_N] bytes, for messages shorter and
    longer than the first block alike. *)
Theorem gen_message_random_is_hmac (ctx : spx_ctx) (sk_prf optrand m : list Z) :
  length sk_prf = SPX_N → length optrand = SPX_N → msg_fits m →
  gen_message_random sk_prf optrand m ctx = Some (take SPX_N (HMAC sha512_fn 128 sk_prf (optrand ++ m))).
Proof. intros Hk Ho Hm. exact (sha2_gen_message_random_ok sha2_default_callbacks sk_prf optrand m ctx Hk Ho Hm). Qed.

(** The message digest is MGF1-SHA-512 of R, the public seed and the SHA-512
    digest of R, the public key and the message; its last bytes give a tree
    index below [2^63] and a leaf index below [2^3]. *)
Theorem hash_message_exact (ctx : spx_ctx) (R pk m : list Z) :
  length R = SPX_N → length pk = SPX_PK_BYTES → msg_fits m →
  wp (hash_message R pk m ctx) (λ '(digest, tree, leaf_idx),
    let d := MGF1 sha512_fn 64 (R ++ take SPX_N pk ++ sha512_fn (R ++ pk ++ m)) SPX_DGST_BYTES in
    digest = take SPX_FORS_MSG_BYTES d ∧ length digest = SPX_FORS_MSG_BYTES ∧ bytes digest ∧
    tree = be_val (take 8 (drop 33 d)) mod 2 ^ 63 ∧ leaf_idx = be_val (take 1 (drop 41 d)) mod 2 ^ 3 ∧
    0 <= tree < 2 ^ 63 ∧ 0 <= leaf_idx < 2 ^ Z.of_nat SPX_TREE_HEIGHT).
Proof.
  intros HR Hpk Hm. change (hash_message R pk m ctx) with (sha2_hash_message sha2_default_callbacks R pk m ctx).
  rewrite (sha2_hash_message_ok sha2_default_callbacks R pk m ctx HR Hpk Hm). cbn [wp].
  pose proof (spec_message_range R pk m) as (Hl & Ht & Hlf). unfold spec_message in *. cbn [fst snd] in *.
  split_and!; try done; try (apply Ht || apply Hlf).
  apply Forall_take, MGF1_bytes. intros. apply (sha2_bytes core_64).
Qed.

(** MGF1 (both copies): the counter loop writes exactly [outlen] bytes of the
    counter-mode stream, a partial last block included, as long as the 32-bit
    product [(i + 1) * hlen] cannot wrap. *)
Theorem mgf1_exact (outlen : nat) (inp : list Z) :
  Z.of_nat outlen + 64 < 2 ^ 32 → Z.of_nat (length inp) < 2 ^ 63 →
  mgf1_256 sha2_default_callbacks outlen inp = Some (MGF1 sha256_fn 32 inp outlen) ∧
  mgf1_512 sha2_default_callbacks outlen inp = Some (MGF1 sha512_fn 64 inp outlen) ∧
  length (MGF1 sha256_fn 32 inp outlen) = outlen ∧ length (MGF1 sha512_fn 64 inp outlen) = outlen.
Proof.
  intros Ho Hi. split_and!.
  - apply mgf1_ok; [intros; apply sha256_ok | apply length_sha256_fn | lia | lia].
  - apply mgf1_ok; [| apply length_sha512_fn | lia | lia].
    intros i. apply sha512_ok. rewrite length_app. simpl. lia.
  - apply length_MGF1; [apply length_sha256_fn | lia].
  - apply length_MGF1; [apply length_sha512_fn | lia].
Qed.
End spx.

(** ** Witnesses *)

#[local] Existing Instance zero_uninit.

Lemma bytes_abc : bytes [0x61; 0x62; 0x63].
Proof. repeat constructor; unfold in_u8; lia. Defined.
Lemma bytes_zeros n : bytes (replicate n 0).
Proof. apply Forall_replicate. unfold in_u8. lia. Defined.

Lemma sha256_is_fips_witness :
  oqs_sha2_sha256_c [0x61; 0x62; 0x63] = Some (SHA256 [0x61; 0x62; 0x63]) ∧
  oqs_sha2_sha224_c [0x61; 0x62; 0x63] = Some (SHA224 [0x61; 0x62; 0x63]) ∧
  be_val (SHA256 [0x61; 0x62; 0x63]) = 0xba7816bf8f01cfea414140de5dae2223b00361a396177a9cb410ff61f20015ad ∧
  be_val (SHA224 [0x61; 0x62; 0x63]) = 0x23097d223405d8228642a477bda255b32aadbce4bda0b3f7e36c9da7.
Proof.
  destruct (sha256_is_fips [0x61; 0x62; 0x63] bytes_abc) as [H1 H2].
  split; [exact H1|]. split; [exact H2|]. split; vm_compute; reflexivity.
Defined.

Lemma sha512_is_fips_witness :
  oqs_sha2_sha512_c [0x61; 0x62; 0x63] = Some (SHA512 [0x61; 0x62; 0x63]) ∧
  oqs_sha2_sha384_c [0x61; 0x62; 0x63] = Some (SHA384 [0x61; 0x62; 0x63]).
Proof. apply (sha512_is_fips [0x61; 0x62; 0x63]); [exact bytes_abc | reflexivity]. Defined.

Lemma sha256_hashblocks_witness :
  crypto_hashblocks_sha256_c ((H0_256 ≫= be_bytes 4) ++ [7; 7]) (replicate 70 0) 70 =
    Some ((foldl (λ H i, compress core_32 H (be_words core_32 (slot 64 (replicate 70 0) i))) H0_256
             (seq 0 (70 / 64)) ≫= be_bytes 4) ++ [7; 7], (70 mod 64)%nat).
Proof.
  apply (sha256_hashblocks_is_compression H0_256 [7; 7] (replicate 70 0) 70);
    [reflexivity | repeat constructor; unfold in_u32; lia | apply bytes_zeros |].
  rewrite length_replicate. reflexivity.
Defined.

(** Bytes pending, then a block, then more bytes. *)
Lemma sha256_incremental_witness :
  wp (st ← run_calls oqs_sha2_sha256_inc_init_c [Inc [1; 2; 3]; Blocks (replicate 64 0) 1; Inc [4]];
      oqs_sha2_sha256_inc_finalize_c st [5])
     (λ '(out, st'), out = SHA256 (([Inc [1; 2; 3]; Blocks (replicate 64 0) 1; Inc [4]] ≫= call_bytes) ++ [5])
        ∧ ctx st' = None).
Proof.
  apply (sha256_incremental [Inc [1; 2; 3]; Blocks (replicate 64 0) 1; Inc [4]] [5]);
    repeat (constructor || split); unfold in_u8; cbn; lia.
Defined.

Lemma thash_prf_exact_witness :
  wp (initialize_hash_function (replicate 24 0) (Some (replicate 24 0))) (λ ctx,
    thash (replicate 48 0) 2 ctx zero_addr = Some (take SPX_N
      (if decide (2 = 1)%nat then SHA256 (replicate 24 0 ++ replicate 40 0 ++ take 22 zero_addr ++ replicate 48 0)
       else SHA512 (replicate 24 0 ++ replicate 104 0 ++ take 22 zero_addr ++ replicate 48 0))) ∧
    prf_addr ctx zero_addr = Some (take SPX_N
      (SHA256 (replicate 24 0 ++ replicate 40 0 ++ take 22 zero_addr ++ replicate 24 0)))).
Proof.
  apply (thash_prf_exact (replicate 24 0) (replicate 24 0) (replicate 48 0) zero_addr 2);
    try apply bytes_zeros; (reflexivity || lia).
Defined.

Definition some_ctx : spx_ctx :=
  {| pub_seed := replicate 24 0; sk_seed := None;
     state_seeded := oqs_sha2_sha256_inc_init_c; state_seeded_512 := oqs_sha2_sha512_inc_init_c |}.

Lemma gen_message_random_witness :
  gen_message_random (replicate 24 1) (replicate 24 2) [3] some_ctx
    = Some (take SPX_N (HMAC sha512_fn 128 (replicate 24 1) (replicate 24 2 ++ [3]))).
Proof. apply (gen_message_random_is_hmac some_ctx (replicate 24 1) (replicate 24 2) [3]); reflexivity. Defined.

Lemma hash_message_witness :
  wp (hash_message (replicate 24 1) (replicate 48 2) [3] some_ctx) (λ '(digest, tree, leaf_idx),
    let d := MGF1 sha512_fn 64 (replicate 24 1 ++ take SPX_N (replicate 48 2) ++
               sha512_fn (replicate 24 1 ++ replicate 48 2 ++ [3])) SPX_DGST_BYTES in
    digest = take SPX_FORS_MSG_BYTES d ∧ length digest = SPX_FORS_MSG_BYTES ∧ bytes digest ∧
    tree = be_val (take 8 (drop 33 d)) mod 2 ^ 63 ∧ leaf_idx = be_val (take 1 (drop 41 d)) mod 2 ^ 3 ∧
    0 <= tree < 2 ^ 63 ∧ 0 <= leaf_idx < 2 ^ Z.of_nat SPX_TREE_HEIGHT).
Proof. apply (hash_message_exact some_ctx (replicate 24 1) (replicate 48 2) [3]); reflexivity. Defined.

Lemma mgf1_exact_witness :
  mgf1_256 sha2_default_callbacks 70 [1; 2] = Some (MGF1 sha256_fn 32 [1; 2] 70) ∧
  mgf1_512 sha2_default_callbacks 70 [1; 2] = Some (MGF1 sha512_fn 64 [1; 2] 70) ∧
  length (MGF1 sha256_fn 32 [1; 2] 70) = 70%nat ∧ length (MGF1 sha512_fn 64 [1; 2] 70) = 70%nat.
Proof. apply (mgf1_exact 70 [1; 2]); reflexivity. Defined.
