(* ===== verification/SpxTheorems.v ===== *)
(** Theorems about the parts of SPHINCS+: Merkle trees, WOTS, FORS, one layer of
    the hypertree, indices and addresses.  They hold for every hash
    instantiation that keeps the contract of SpxIface; the witnesses use the
    SHA-2 instantiation. *)
From S2P Require Import Prelude SpxAddress SpxIface SpxTree SpxWots SpxMerkle SpxFors SpxSign.
From S2P Require Import SpxCorrect SpxVerify SpxHash Sha2Api Sphincs.

Open Scope c_scope.

Section theorems.
Context {H : SpxHash} {L : SpxHashLaws H} {U : Uninit}.

(** [treehashx1] builds the Merkle tree: for any leaf generator that returns
    leaf [idx] on call [idx], it returns the root of the tree over all
    [2^ht] leaves and leaves in [auth_path] the siblings on the path of
    [leaf_idx], with a stack of [ht] nodes and uninitialised memory below it. *)
Theorem treehashx1_builds_tree (ctx : spx_ctx) (pub : list Z) (sk : option (list Z))
    (leaf : Z → list Z) (base : list Z) (off leaf_idx : Z) (ht : nat) (info : Type)
    (gen_leaf : spx_ctx → Z → info → option (list Z * info)) (J : Z → info → Prop)
    (auth : list Z) (inf : info) :
  ctx_rep ctx pub sk → (∀ j, length (leaf j) = SPX_N) → is_addr base →
  (ht < 32)%nat → 0 <= off → off + 2 ^ Z.of_nat ht <= 2 ^ 32 →
  length auth = (ht * SPX_N)%nat → 0 <= leaf_idx < 2 ^ Z.of_nat ht → J 0 inf →
  (∀ idx inf, 0 <= idx < 2 ^ Z.of_nat ht → J idx inf →
     wp (gen_leaf ctx (idx + off) inf) (λ '(l, inf'), l = leaf idx ∧ J (idx + 1) inf')) →
  wp (treehashx1 auth ctx leaf_idx off ht gen_leaf base inf) (λ '(root, auth', _, inf'),
     root = merkle_node pub leaf base off ht 0 ∧ J (2 ^ Z.of_nat ht) inf' ∧
     ∀ h, (h < ht)%nat → slot SPX_N auth' h = merkle_node pub leaf base off h (sibling leaf_idx h)).
Proof.
  intros Hctx Hleaf Hb Hht Ho1 Ho2 Ha Hi HJ Hgen. eapply wp_mono.
  - eapply (wp_treehashx1 ctx pub sk Hctx leaf Hleaf base off leaf_idx ht (ht * SPX_N) gen_leaf J);
      eauto using addr_sim_refl; lia.
  - intros [[[root auth'] addr'] inf'] (-> & _ & _ & HJ' & Hp). split_and!; [done | done |].
    apply Hp. lia.
Qed.

(** The two tree routines agree: recomputing the root with [compute_root]
    from a leaf and the path [treehashx1] wrote for it gives the root
    [treehashx1] returned. *)
Theorem compute_root_inverts_treehash (ctx : spx_ctx) (pub : list Z) (sk : option (list Z))
    (leaf : Z → list Z) (base : list Z) (off leaf_idx : Z) (ht : nat) (auth : list Z) :
  ctx_rep ctx pub sk → (∀ j, length (leaf j) = SPX_N) → is_addr base →
  (1 <= ht < 32)%nat → 0 <= off → off + 2 ^ Z.of_nat ht <= 2 ^ 32 →
  length auth = (ht * SPX_N)%nat → 0 <= leaf_idx < 2 ^ Z.of_nat ht →
  wp (treehashx1 auth ctx leaf_idx off ht (λ _ idx (_ : unit), Some (leaf (idx - off), tt)) base tt)
     (λ '(root, auth', addr', _),
        wp (compute_root (leaf leaf_idx) leaf_idx off auth' ht ctx addr') (λ '(root', _), root' = root)).
Proof.
  intros Hctx Hleaf Hb Hht Ho1 Ho2 Ha Hi. eapply wp_mono.
  - eapply (wp_treehashx1 ctx pub sk Hctx leaf Hleaf base off leaf_idx ht (ht * SPX_N) _ (λ _ _, True));
      eauto using addr_sim_refl; try lia.
    intros idx [] _ _. cbn [wp]. split; [f_equal; lia | done].
  - intros [[[root auth'] addr'] inf'] (-> & Hl & Hs & _ & Hp). eapply wp_mono.
    + apply (wp_compute_root ctx pub sk Hctx leaf Hleaf base off leaf_idx auth' ht addr'); try lia;
        [done | apply Hp; lia].
    + by intros [root' a] [-> _].
Qed.

(** One layer of the hypertree: verifying with the leaf and path that
    [merkle_sign] wrote for message [msg] leads to the root of the layer's
    tree that [merkle_sign] returned, whatever was signed and whatever [sig]
    held before. *)
Theorem merkle_sign_layer_verifies (ctx : spx_ctx) (pub sk msg sig pkb : list Z) (l t k : Z) :
  ctx_rep ctx pub (Some sk) → length msg = SPX_N → length sig = layer_bytes →
  length pkb = SPX_WOTS_BYTES → 0 <= k < 2 ^ Z.of_nat SPX_TREE_HEIGHT →
  wp (merkle_sign sig msg ctx (kp_addr l t k) (layer_base l t) k) (λ '(sig', root, _),
    wp ('(pk, _) ← wots_pk_from_sig pkb (take SPX_WOTS_BYTES sig') msg ctx (kp_addr l t k);
        leaf ← thash pk SPX_WOTS_LEN ctx (kp_pk_addr l t k);
        compute_root leaf k 0 (drop SPX_WOTS_BYTES sig') SPX_TREE_HEIGHT ctx (layer_base l t))
       (λ '(root', _), root' = root ∧ root' = layer_root pub sk l t)).
Proof.
  intros Hctx Hm Hs Hp Hk.
  destruct (proj1 (wp_exists _ _) (chain_lengths_ok msg Hm)) as (steps & Hcl & Hlst & _).
  assert (Hb : is_addr (layer_base l t)) by (unfold layer_base; auto with addr).
  eapply wp_mono.
  { apply (wp_merkle_sign ctx pub sk Hctx sig msg _ _ k steps); done || lia. }
  intros [[sig' root] a'] (-> & Hl & _ & Hok). destruct (Hok ltac:(lia)) as [Hch Hpa].
  rewrite Hs in Hl. eapply wp_then.
  { apply (wp_wots_pk_from_sig ctx pub (Some sk) sk (kp_addr l t k) pkb _ msg _ steps); try done.
    - rewrite length_take, Hl. unfold layer_bytes. lia.
    - intros c len Hc. rewrite slot_take; [by apply (Hch c len) |].
      apply lookup_lt_Some in Hc. unfold SPX_WOTS_BYTES. nia. }
  intros [pk w'] (-> & _ & _).
  eapply wp_step; [eapply thash_ok; [done | change SPX_WOTS_LEN with 51%nat; lia | apply length_wots_pk
    | unfold kp_pk_addr; auto with addr] |].
  eapply wp_mono.
  { apply (wp_compute_root ctx pub (Some sk) Hctx (wots_leaf pub sk (layer_addr l t))
      (λ _, length_F_thash _ _ _) (layer_base l t) 0 k); try done.
    - change SPX_TREE_HEIGHT with 3%nat. lia.
    - rewrite length_drop, Hl. unfold layer_bytes. lia. }
  by intros [root' a2] [-> _].
Qed.

(** FORS: the verifier's public key is the signer's.  From the signature
    [fors_sign] writes for a digest, [fors_pk_from_sig] recomputes the public
    key [fors_sign] returned, with no secret in its context. *)
Theorem fors_verify_recovers_pk (ctx ctx' : spx_ctx) (pub sk sig m : list Z) (tree leaf : Z) :
  ctx_rep ctx pub (Some sk) → ctx_rep ctx' pub None →
  length sig = SPX_FORS_BYTES → length m = SPX_FORS_MSG_BYTES →
  wp (fors_sign sig m ctx (kp_addr 0 tree leaf)) (λ '(sig', pk),
    length sig' = SPX_FORS_BYTES ∧ length pk = SPX_N ∧
    fors_pk_from_sig sig' m ctx' (kp_addr 0 tree leaf) = Some pk).
Proof.
  intros Hctx Hctx' Hs Hm. assert (Hle : (SPX_FORS_TREES <= length m)%nat) by (rewrite Hm; done).
  eapply wp_mono; [by apply (wp_fors_sign ctx pub sk) |].
  intros [sig' pk] [-> Hok]. split_and!; [apply Hok | apply length_fors_pk |].
  by apply (wp_fors_pk_from_sig ctx' pub None sk).
Qed.
End theorems.

(** The WOTS checksum: if no chain length of message [m'] is below that of
    message [m], the messages are equal.  So the chain values published for one
    message never suffice, chain by chain, to reach those of another. *)
Theorem wots_no_domination (m m' l l' : list Z) :
  bytes m → bytes m' → length m = SPX_N → length m' = SPX_N →
  chain_lengths m = Some l → chain_lengths m' = Some l' → Forall2 Z.le l l' → m = m'.
Proof. apply chain_lengths_incomparable. Qed.

(** The chain lengths of a message are its base-16 digits followed by the
    three digits of the checksum of 15 minus each: one per chain, each in
    [0, 15], so that every chain has room for the steps it takes. *)
Theorem wots_chain_lengths_exact (m : list Z) :
  length m = SPX_N →
  chain_lengths m = Some (wots_digits m) ∧ length (wots_digits m) = SPX_WOTS_LEN ∧
  Forall (λ d, 0 <= d < SPX_WOTS_W) (wots_digits m) ∧
  let c := csum_val (nibbles m) in
  c / 256 * 256 + c / 16 mod 16 * 16 + c mod 16 = c.
Proof.
  intros Hm. pose proof (chain_lengths_ok m Hm) as Hok. rewrite chain_lengths_eq in * by done.
  fold (wots_digits m) in *. destruct Hok as [H1 H2]. split_and!; try done.
  cbv zeta. Z.div_mod_to_equations. lia.
Qed.

(** With trees of height 8, index [i] of the FORS trees is byte [i] of the
    digest: the bit-by-bit loop reads the digest in byte order, in bounds, and
    every index is below the number of leaves. *)
Theorem fors_indices_are_bytes (m : list Z) :
  length m = SPX_FORS_MSG_BYTES → bytes m →
  message_to_indices m = Some m ∧ Forall (λ i, 0 <= i < 2 ^ Z.of_nat SPX_FORS_HEIGHT) m.
Proof.
  intros Hl Hb. split; [| done]. rewrite message_to_indices_eq by (rewrite Hl; done).
  rewrite take_ge by (rewrite Hl; done). f_equal. rewrite <-(list_fmap_id m) at 2.
  apply list_fmap_ext. intros i x Hx. apply Z.mod_small. by apply (Forall_lookup_1 _ _ _ _ Hb Hx).
Qed.

(** ** Integer codecs and addresses *)

(** The integer codecs are inverse: encoding on [n] bytes and decoding gives
    the value modulo [2^(8n)], without loss for values that fit, and decoding
    then encoding gives the bytes back. *)
Theorem ull_codec_roundtrip (n : nat) (x : Z) (b : list Z) :
  (n <= 8)%nat → 0 <= x < 2 ^ (8 * Z.of_nat n) → bytes b → length b = n →
  bytes_to_ull (ull_to_bytes n x) n = Some x ∧
  (ull_to_bytes n <$> bytes_to_ull b n) = Some b.
Proof.
  intros Hn Hx Hb Hl. rewrite !bytes_to_ull_be_val;
    try (done || lia || apply ull_to_bytes_bytes || by rewrite length_ull_to_bytes).
  rewrite !take_ge by (rewrite ?length_ull_to_bytes; lia). split.
  - by rewrite be_val_ull_to_bytes, Z.mod_small.
  - cbn [fmap option_fmap option_map]. f_equal.
    apply be_val_inj; [apply ull_to_bytes_bytes | done | by rewrite length_ull_to_bytes |].
    rewrite be_val_ull_to_bytes. apply Z.mod_small. rewrite <-Hl. by apply be_val_range.
Qed.

(** The hash address of step [h] of chain [c] of key pair [k] of tree [t] in
    layer [l], and the address of node [i] of height [h] of that tree: the 22
    bytes that enter the hash. *)
Definition chain_tweak (l t k c h : Z) : list Z :=
  take SPX_SHA256_ADDR_BYTES (wots_hash_addr (kp_addr l t k) c h).
Definition node_tweak (l t h i : Z) : list Z :=
  take SPX_SHA256_ADDR_BYTES (tree_node_addr (layer_base l t) h i).

Lemma ull_to_bytes_inj n x y :
  0 <= x < 2 ^ (8 * Z.of_nat n) → 0 <= y < 2 ^ (8 * Z.of_nat n) → ull_to_bytes n x = ull_to_bytes n y → x = y.
Proof.
  intros Hx Hy He. apply (f_equal be_val) in He. rewrite !be_val_ull_to_bytes, !Z.mod_small in He; done.
Qed.
Lemma u32_to_bytes_inj x y : in_u32 x → in_u32 y → u32_to_bytes x = u32_to_bytes y → x = y.
Proof.
  intros Hx Hy He. apply (f_equal be_val) in He. rewrite !be_val_u32_to_bytes, !u32_small in He; done.
Qed.

Lemma chain_tweak_eq l t k c h :
  chain_tweak l t k c h = [u8 l] ++ ull_to_bytes 8 t ++ [0; 0; 0; 0; u8 k; 0; 0; 0; u8 c; 0; 0; 0; u8 h].
Proof. reflexivity. Qed.
Lemma node_tweak_eq l t h i :
  node_tweak l t h i = [u8 l] ++ ull_to_bytes 8 t ++ [2; 0; 0; 0; 0; 0; 0; 0; u8 h] ++ u32_to_bytes i.
Proof. reflexivity. Qed.

Lemma split_tweak x y t t' r r' :
  [x] ++ ull_to_bytes 8 t ++ r = [y] ++ ull_to_bytes 8 t' ++ r' →
  x = y ∧ ull_to_bytes 8 t = ull_to_bytes 8 t' ∧ r = r'.
Proof.
  intros He. apply app_inj_1 in He as [Hx He]; [| done].
  apply app_inj_1 in He as [Ht Hr]; [| by rewrite !length_ull_to_bytes].
  split_and!; [congruence | done | done].
Qed.

(** Domain separation: the 22 address bytes hashed with a chain step determine
    its layer, tree, key pair, chain and position, those hashed with a tree
    node its layer, tree, height and index, and no chain step shares its bytes
    with a tree node. *)
Theorem tweaks_separate (l t k c h l' t' k' c' h' i i' : Z) :
  in_u8 l → in_u8 l' → in_u8 k → in_u8 k' → in_u8 c → in_u8 c' → in_u8 h → in_u8 h' →
  in_u64 t → in_u64 t' → in_u32 i → in_u32 i' →
  (chain_tweak l t k c h = chain_tweak l' t' k' c' h' →
     l = l' ∧ t = t' ∧ k = k' ∧ c = c' ∧ h = h') ∧
  (node_tweak l t h i = node_tweak l' t' h' i' → l = l' ∧ t = t' ∧ h = h' ∧ i = i') ∧
  chain_tweak l t k c h ≠ node_tweak l' t' h' i.
Proof.
  intros. rewrite !chain_tweak_eq, !node_tweak_eq. split_and!.
  - intros He. apply split_tweak in He as (Hl & Ht & [= Hk Hc Hh]).
    apply ull_to_bytes_inj in Ht; [| done | done]. rewrite !u8_small in * by done. done.
  - intros He. apply split_tweak in He as (Hl & Ht & He).
    apply app_inj_1 in He as [[= Hh] Hi]; [| done].
    apply ull_to_bytes_inj in Ht; [| done | done]. apply u32_to_bytes_inj in Hi; [| done | done].
    rewrite !u8_small in * by done. done.
  - intros He. by apply split_tweak in He as (_ & _ & ?).
Qed.

(** ** Witnesses *)

#[local] Existing Instance zero_uninit.

Lemma treehashx1_witness :
  wp (initialize_hash_function (replicate 24 0) None) (λ ctx,
    wp (treehashx1 (replicate 48 0) ctx 1 0 2 (λ _ idx (_ : unit), Some (replicate SPX_N idx, tt)) zero_addr tt)
     (λ '(root, auth', _, _),
        root = merkle_node (replicate 24 0) (replicate SPX_N) zero_addr 0 2 0 ∧ True ∧
        ∀ h, (h < 2)%nat →
          slot SPX_N auth' h = merkle_node (replicate 24 0) (replicate SPX_N) zero_addr 0 h (sibling 1 h))).
Proof.
  eapply wp_mono; [apply (initialize_ok (replicate 24 0) None); done |]. intros ctx Hctx.
  apply (treehashx1_builds_tree ctx (replicate 24 0) None (replicate SPX_N) zero_addr 0 1 2 unit
    (λ _ idx _, Some (replicate SPX_N idx, tt)) (λ _ _, True)); try done; try lia.
  intros idx [] _ _. cbn [wp]. rewrite Z.add_0_r. done.
Defined.

Lemma compute_root_inverts_treehash_witness :
  wp (initialize_hash_function (replicate 24 0) None) (λ ctx,
    wp (treehashx1 (replicate 48 0) ctx 1 0 2 (λ _ idx (_ : unit), Some (replicate SPX_N (idx - 0), tt)) zero_addr tt)
     (λ '(root, auth', addr', _),
        wp (compute_root (replicate SPX_N 1) 1 0 auth' 2 ctx addr') (λ '(root', _), root' = root))).
Proof.
  eapply wp_mono; [apply (initialize_ok (replicate 24 0) None); done |]. intros ctx Hctx.
  apply (compute_root_inverts_treehash ctx (replicate 24 0) None (replicate SPX_N) zero_addr 0 1 2); (done || lia).
Defined.

Lemma merkle_sign_layer_witness :
  wp (initialize_hash_function (replicate 24 0) (Some (replicate 24 1))) (λ ctx,
    wp (merkle_sign (replicate layer_bytes 0) (replicate 24 5) ctx (kp_addr 3 9 2) (layer_base 3 9) 2)
     (λ '(sig', root, _),
    wp ('(pk, _) ← wots_pk_from_sig (replicate SPX_WOTS_BYTES 0) (take SPX_WOTS_BYTES sig') (replicate 24 5) ctx (kp_addr 3 9 2);
        leaf ← thash pk SPX_WOTS_LEN ctx (kp_pk_addr 3 9 2);
        compute_root leaf 2 0 (drop SPX_WOTS_BYTES sig') SPX_TREE_HEIGHT ctx (layer_base 3 9))
       (λ '(root', _), root' = root ∧ root' = layer_root (replicate 24 0) (replicate 24 1) 3 9))).
Proof.
  eapply wp_mono; [apply (initialize_ok (replicate 24 0) (Some (replicate 24 1))); done |]. intros ctx Hctx.
  apply (merkle_sign_layer_verifies ctx (replicate 24 0) (replicate 24 1) (replicate 24 5)
    (replicate layer_bytes 0) (replicate SPX_WOTS_BYTES 0) 3 9 2);
    [done | done | apply length_replicate | apply length_replicate | done].
Defined.

Lemma fors_verify_recovers_pk_witness :
  wp (initialize_hash_function (replicate 24 0) (Some (replicate 24 1))) (λ ctx,
   wp (initialize_hash_function (replicate 24 0) None) (λ ctx',
    wp (fors_sign (replicate SPX_FORS_BYTES 0) (replicate 33 7) ctx (kp_addr 0 4 2)) (λ '(sig', pk),
      length sig' = SPX_FORS_BYTES ∧ length pk = SPX_N ∧
      fors_pk_from_sig sig' (replicate 33 7) ctx' (kp_addr 0 4 2) = Some pk))).
Proof.
  eapply wp_mono; [apply (initialize_ok (replicate 24 0) (Some (replicate 24 1))); done |]. intros ctx Hctx.
  eapply wp_mono; [apply (initialize_ok (replicate 24 0) None); done |]. intros ctx' Hctx'.
  apply (fors_verify_recovers_pk ctx ctx' (replicate 24 0) (replicate 24 1)
    (replicate SPX_FORS_BYTES 0) (replicate 33 7) 4 2); [done | done | apply length_replicate | done].
Defined.

Lemma bytes_const n x : in_u8 x → bytes (replicate n x).
Proof. apply Forall_replicate. Qed.

Lemma wots_no_domination_witness :
  chain_lengths (replicate 24 18) = Some (wots_digits (replicate 24 18)) ∧ replicate 24 18 = replicate 24 18.
Proof.
  split; [reflexivity |].
  apply (wots_no_domination (replicate 24 18) (replicate 24 18)
    (wots_digits (replicate 24 18)) (wots_digits (replicate 24 18)));
    [apply bytes_const; unfold in_u8; lia | apply bytes_const; unfold in_u8; lia
    | reflexivity | reflexivity | reflexivity | reflexivity |].
  apply Forall_Forall2_diag, Forall_true. intros. lia.
Defined.

Lemma wots_chain_lengths_exact_witness :
  chain_lengths (replicate 24 0x2f) = Some (wots_digits (replicate 24 0x2f)) ∧
  length (wots_digits (replicate 24 0x2f)) = SPX_WOTS_LEN ∧
  Forall (λ d, 0 <= d < SPX_WOTS_W) (wots_digits (replicate 24 0x2f)) ∧
  let c := csum_val (nibbles (replicate 24 0x2f)) in
  c / 256 * 256 + c / 16 mod 16 * 16 + c mod 16 = c.
Proof. apply (wots_chain_lengths_exact (replicate 24 0x2f)). reflexivity. Defined.

Lemma fors_indices_are_bytes_witness :
  message_to_indices (replicate 33 200) = Some (replicate 33 200) ∧
  Forall (λ i, 0 <= i < 2 ^ Z.of_nat SPX_FORS_HEIGHT) (replicate 33 200).
Proof.
  apply (fors_indices_are_bytes (replicate 33 200)); [reflexivity |].
  apply bytes_const. unfold in_u8. lia.
Defined.

Lemma ull_codec_roundtrip_witness :
  bytes_to_ull (ull_to_bytes 3 0x10203) 3 = Some 0x10203 ∧
  (ull_to_bytes 3 <$> bytes_to_ull [9; 8; 7] 3) = Some [9; 8; 7].
Proof.
  apply (ull_codec_roundtrip 3 0x10203 [9; 8; 7]); [lia | done | | done].
  repeat constructor; unfold in_u8; lia.
Defined.

Lemma tweaks_separate_witness :
  (chain_tweak 1 2 3 4 5 = chain_tweak 1 2 3 4 5 → 1 = 1 ∧ 2 = 2 ∧ 3 = 3 ∧ 4 = 4 ∧ 5 = 5) ∧
  (node_tweak 1 2 5 7 = node_tweak 1 2 5 8 → 1 = 1 ∧ 2 = 2 ∧ 5 = 5 ∧ 7 = 8) ∧
  chain_tweak 1 2 3 4 5 ≠ node_tweak 1 2 5 7.
Proof.
  apply (tweaks_separate 1 2 3 4 5 1 2 3 4 5 7 8); unfold in_u8, in_u32, in_u64; lia.
Defined.
