(* ===== verification/OqsSig.v ===== *)
(** The signature API of liboqs: the table of algorithms and their build
    switches, object creation and dispatch (sig.c, sig.h), and the wrapper of
    SPHINCS+-SHA2-192f-simple (sig_sphincs_sha2_192f_simple.c), portable build
    (the [#else] branches: no AVX2 copy).

    A build is the set of [OQS_ENABLE_SIG_*] macros it defines, by suffix; the
    one of this repository (src/crypto/CMakeLists.txt) is [qs_build]. *)
From stdpp Require Import strings.
From S2P Require Import Prelude SpxAddress SpxIface SpxSign SpxCorrect SpxVerify SpxHash Sphincs.

Open Scope string_scope.
Open Scope list_scope.
Open Scope Z_scope.

(** ** Status codes (common.h) *)

Definition OQS_ERROR : Z := -1.
Definition OQS_SUCCESS : Z := 0.

(** ** Algorithm names *)

(** C's [strcasecmp] in the "C" locale, as an equality test. *)
Definition lower (a : Ascii.ascii) : Ascii.ascii :=
  let n := Ascii.nat_of_ascii a in
  if (65 <=? n)%nat && (n <=? 90)%nat then Ascii.ascii_of_nat (n + 32) else a.
Fixpoint strcasecmp_eq (s t : string) : bool :=
  match s, t with
  | EmptyString, EmptyString => true
  | String a s, String b t => Ascii.eqb (lower a) (lower b) && strcasecmp_eq s t
  | _, _ => false
  end.

(** The identifiers, in the order of the table of [OQS_SIG_alg_identifier]. *)
Definition alg_table : list string := [
    "Dilithium2"; "Dilithium3"; "Dilithium5"; "ML-DSA-44"; "ML-DSA-65"; "ML-DSA-87"; "Falcon-512";
    "Falcon-1024"; "Falcon-padded-512"; "Falcon-padded-1024"; "SPHINCS+-SHA2-128f-simple";
    "SPHINCS+-SHA2-128s-simple"; "SPHINCS+-SHA2-192f-simple"; "SPHINCS+-SHA2-192s-simple";
    "SPHINCS+-SHA2-256f-simple"; "SPHINCS+-SHA2-256s-simple"; "SPHINCS+-SHAKE-128f-simple";
    "SPHINCS+-SHAKE-128s-simple"; "SPHINCS+-SHAKE-192f-simple"; "SPHINCS+-SHAKE-192s-simple";
    "SPHINCS+-SHAKE-256f-simple"; "SPHINCS+-SHAKE-256s-simple"; "MAYO-1"; "MAYO-2"; "MAYO-3";
    "MAYO-5"; "cross-rsdp-128-balanced"; "cross-rsdp-128-fast"; "cross-rsdp-128-small";
    "cross-rsdp-192-balanced"; "cross-rsdp-192-fast"; "cross-rsdp-192-small";
    "cross-rsdp-256-balanced"; "cross-rsdp-256-fast"; "cross-rsdp-256-small";
    "cross-rsdpg-128-balanced"; "cross-rsdpg-128-fast"; "cross-rsdpg-128-small";
    "cross-rsdpg-192-balanced"; "cross-rsdpg-192-fast"; "cross-rsdpg-192-small";
    "cross-rsdpg-256-balanced"; "cross-rsdpg-256-fast"; "cross-rsdpg-256-small"].

Definition OQS_SIG_algs_length : nat := 44.

Definition OQS_SIG_alg_identifier (i : nat) : option string :=
  if decide (OQS_SIG_algs_length <= i)%nat then None else alg_table !! i.
Definition OQS_SIG_alg_count : nat := OQS_SIG_algs_length.

(** The cases of [OQS_SIG_alg_is_enabled]: name and build switch, the first half
    (NIST selections) and the second (MAYO and CROSS). *)
Definition is_enabled_cases_1 : list (string * string) := [
    ("Dilithium2", "dilithium_2"); ("Dilithium3", "dilithium_3"); ("Dilithium5", "dilithium_5");
    ("ML-DSA-44", "ml_dsa_44"); ("ML-DSA-65", "ml_dsa_65"); ("ML-DSA-87", "ml_dsa_87");
    ("Falcon-512", "falcon_512"); ("Falcon-1024", "falcon_1024");
    ("Falcon-padded-512", "falcon_padded_512"); ("Falcon-padded-1024", "falcon_padded_1024");
    ("SPHINCS+-SHA2-128f-simple", "sphincs_sha2_128f_simple");
    ("SPHINCS+-SHA2-128s-simple", "sphincs_sha2_128s_simple");
    ("SPHINCS+-SHA2-192f-simple", "sphincs_sha2_192f_simple");
    ("SPHINCS+-SHA2-192s-simple", "sphincs_sha2_192s_simple");
    ("SPHINCS+-SHA2-256f-simple", "sphincs_sha2_256f_simple");
    ("SPHINCS+-SHA2-256s-simple", "sphincs_sha2_256s_simple");
    ("SPHINCS+-SHAKE-128f-simple", "sphincs_shake_128f_simple");
    ("SPHINCS+-SHAKE-128s-simple", "sphincs_shake_128s_simple");
    ("SPHINCS+-SHAKE-192f-simple", "sphincs_shake_192f_simple");
    ("SPHINCS+-SHAKE-192s-simple", "sphincs_shake_192s_simple");
    ("SPHINCS+-SHAKE-256f-simple", "sphincs_shake_256f_simple");
    ("SPHINCS+-SHAKE-256s-simple", "sphincs_shake_256s_simple")].
Definition is_enabled_cases_2 : list (string * string) := [
    ("MAYO-1", "mayo_1"); ("MAYO-2", "mayo_2"); ("MAYO-3", "mayo_3"); ("MAYO-5", "mayo_5");
    ("cross-rsdp-128-balanced", "cross_rsdp_128_balanced");
    ("cross-rsdp-128-fast", "cross_rsdp_128_fast");
    ("cross-rsdp-128-small", "cross_rsdp_128_small");
    ("cross-rsdp-192-balanced", "cross_rsdp_192_balanced");
    ("cross-rsdp-192-fast", "cross_rsdp_192_fast");
    ("cross-rsdp-192-small", "cross_rsdp_192_small");
    ("cross-rsdp-256-balanced", "cross_rsdp_256_balanced");
    ("cross-rsdp-256-fast", "cross_rsdp_256_fast");
    ("cross-rsdp-256-small", "cross_rsdp_256_small");
    ("cross-rsdpg-128-balanced", "cross_rsdpg_128_balanced");
    ("cross-rsdpg-128-fast", "cross_rsdpg_128_fast");
    ("cross-rsdpg-128-small", "cross_rsdpg_128_small");
    ("cross-rsdpg-192-balanced", "cross_rsdpg_192_balanced");
    ("cross-rsdpg-192-fast", "cross_rsdpg_192_fast");
    ("cross-rsdpg-192-small", "cross_rsdpg_192_small");
    ("cross-rsdpg-256-balanced", "cross_rsdpg_256_balanced");
    ("cross-rsdpg-256-fast", "cross_rsdpg_256_fast");
    ("cross-rsdpg-256-small", "cross_rsdpg_256_small")].

(** The cases of [OQS_SIG_new]: name, and the algorithm whose constructor is
    called if its switch is on. *)
Definition new_cases_1 : list (string * string) := [
    ("Dilithium2", "dilithium_2"); ("Dilithium3", "dilithium_3"); ("Dilithium5", "dilithium_5");
    ("ML-DSA-44", "ml_dsa_44"); ("ML-DSA-65", "ml_dsa_65"); ("ML-DSA-87", "ml_dsa_87");
    ("Falcon-512", "falcon_512"); ("Falcon-1024", "falcon_1024");
    ("Falcon-padded-512", "falcon_padded_512"); ("Falcon-padded-1024", "falcon_padded_1024");
    ("SPHINCS+-SHA2-128f-simple", "sphincs_sha2_128f_simple");
    ("SPHINCS+-SHA2-128s-simple", "sphincs_sha2_128s_simple");
    ("SPHINCS+-SHA2-192f-simple", "sphincs_sha2_192f_simple");
    ("SPHINCS+-SHA2-192s-simple", "sphincs_sha2_192s_simple");
    ("SPHINCS+-SHA2-256f-simple", "sphincs_sha2_256f_simple");
    ("SPHINCS+-SHA2-256s-simple", "sphincs_sha2_256s_simple");
    ("SPHINCS+-SHAKE-128f-simple", "sphincs_shake_128f_simple");
    ("SPHINCS+-SHAKE-128s-simple", "sphincs_shake_128s_simple");
    ("SPHINCS+-SHAKE-192f-simple", "sphincs_shake_192f_simple");
    ("SPHINCS+-SHAKE-192s-simple", "sphincs_shake_192s_simple");
    ("SPHINCS+-SHAKE-256f-simple", "sphincs_shake_256f_simple");
    ("SPHINCS+-SHAKE-256s-simple", "sphincs_shake_256s_simple")].
Definition new_cases_2 : list (string * string) := [
    ("MAYO-1", "mayo_1"); ("MAYO-2", "mayo_2"); ("MAYO-3", "mayo_3"); ("MAYO-5", "mayo_5");
    ("cross-rsdp-128-balanced", "cross_rsdp_128_balanced");
    ("cross-rsdp-128-fast", "cross_rsdp_128_fast");
    ("cross-rsdp-128-small", "cross_rsdp_128_small");
    ("cross-rsdp-192-balanced", "cross_rsdp_192_balanced");
    ("cross-rsdp-192-fast", "cross_rsdp_192_fast");
    ("cross-rsdp-192-small", "cross_rsdp_192_small");
    ("cross-rsdp-256-balanced", "cross_rsdp_256_balanced");
    ("cross-rsdp-256-fast", "cross_rsdp_256_fast");
    ("cross-rsdp-256-small", "cross_rsdp_256_small");
    ("cross-rsdpg-128-balanced", "cross_rsdpg_128_balanced");
    ("cross-rsdpg-128-fast", "cross_rsdpg_128_fast");
    ("cross-rsdpg-128-small", "cross_rsdpg_128_small");
    ("cross-rsdpg-192-balanced", "cross_rsdpg_192_balanced");
    ("cross-rsdpg-192-fast", "cross_rsdpg_192_fast");
    ("cross-rsdpg-192-small", "cross_rsdpg_192_small");
    ("cross-rsdpg-256-balanced", "cross_rsdpg_256_balanced");
    ("cross-rsdpg-256-fast", "cross_rsdpg_256_fast");
    ("cross-rsdpg-256-small", "cross_rsdpg_256_small")].

(** The first case whose name matches. *)
Definition find_case (cases : list (string * string)) (method_name : string) : option string :=
  snd <$> (snd <$> list_find (λ c, strcasecmp_eq method_name c.1 = true) cases).

Definition build : Type := list string.
Definition qs_build : build := ["ml_dsa_65"; "sphincs_sha2_192f_simple"].

Definition OQS_SIG_alg_is_enabled (b : build) (method_name : option string) : Z :=
  match method_name with
  | None => 0
  | Some name =>
      match find_case (is_enabled_cases_1 ++ is_enabled_cases_2) name with
      | Some alg => if decide (alg ∈ b) then 1 else 0
      | None => 0
      end
  end.

(** ** Objects *)

Section api.
Context {rng : Type}.

(** [OQS_SIG].  The functions return the status and the buffers they wrote. *)
Record OQS_SIG := {
  method_name : string;
  alg_version : string;
  claimed_nist_level : Z;
  euf_cma : bool;
  sig_with_ctx_support : bool;
  length_public_key : Z;
  length_secret_key : Z;
  length_signature : Z;
  keypair : list Z → list Z → rng → option (Z * list Z * list Z * rng);
  sign : list Z → nat → list Z → list Z → rng → option (Z * list Z * nat * rng);
  sign_with_ctx_str : list Z → nat → list Z → option (list Z) → nat → list Z → rng → option (Z * list Z * nat * rng);
  verify : list Z → list Z → nat → list Z → option Z;
  verify_with_ctx_str : list Z → list Z → nat → option (list Z) → nat → list Z → option Z;
}.

(** [constructors alg] is what [OQS_SIG_<alg>_new] returns. *)
Definition OQS_SIG_new (b : build) (constructors : string → option OQS_SIG)
    (method_name : option string) : option OQS_SIG :=
  match method_name with
  | None => None
  | Some name =>
      match find_case (new_cases_1 ++ new_cases_2) name with
      | Some alg => if decide (alg ∈ b) then constructors alg else None
      | None => None
      end
  end.

(** The API functions: a null object, or any status but success, is an error. *)
Definition OQS_SIG_keypair (sig : option OQS_SIG) (public_key secret_key : list Z) (g : rng)
    : option (Z * list Z * list Z * rng) :=
  match sig with
  | None => Some (OQS_ERROR, public_key, secret_key, g)
  | Some sig =>
      '(st, pk, sk, g) ← keypair sig public_key secret_key g;
      Some (if decide (st ≠ OQS_SUCCESS) then OQS_ERROR else OQS_SUCCESS, pk, sk, g)
  end.

Definition OQS_SIG_sign (sig : option OQS_SIG) (signature : list Z) (signature_len : nat)
    (message secret_key : list Z) (g : rng) : option (Z * list Z * nat * rng) :=
  match sig with
  | None => Some (OQS_ERROR, signature, signature_len, g)
  | Some sig =>
      '(st, s, n, g) ← sign sig signature signature_len message secret_key g;
      Some (if decide (st ≠ OQS_SUCCESS) then OQS_ERROR else OQS_SUCCESS, s, n, g)
  end.

Definition OQS_SIG_sign_with_ctx_str (sig : option OQS_SIG) (signature : list Z) (signature_len : nat)
    (message : list Z) (ctx_str : option (list Z)) (ctx_str_len : nat) (secret_key : list Z) (g : rng)
    : option (Z * list Z * nat * rng) :=
  match sig with
  | None => Some (OQS_ERROR, signature, signature_len, g)
  | Some sig =>
      '(st, s, n, g) ← sign_with_ctx_str sig signature signature_len message ctx_str ctx_str_len secret_key g;
      Some (if decide (st ≠ OQS_SUCCESS) then OQS_ERROR else OQS_SUCCESS, s, n, g)
  end.

Definition OQS_SIG_verify (sig : option OQS_SIG) (message signature : list Z) (signature_len : nat)
    (public_key : list Z) : option Z :=
  match sig with
  | None => Some OQS_ERROR
  | Some sig =>
      st ← verify sig message signature signature_len public_key;
      Some (if decide (st ≠ OQS_SUCCESS) then OQS_ERROR else OQS_SUCCESS)
  end.

Definition OQS_SIG_verify_with_ctx_str (sig : option OQS_SIG) (message signature : list Z)
    (signature_len : nat) (ctx_str : option (list Z)) (ctx_str_len : nat) (public_key : list Z) : option Z :=
  match sig with
  | None => Some OQS_ERROR
  | Some sig =>
      st ← verify_with_ctx_str sig message signature signature_len ctx_str ctx_str_len public_key;
      Some (if decide (st ≠ OQS_SUCCESS) then OQS_ERROR else OQS_SUCCESS)
  end.

(** ** The SPHINCS+ wrapper *)

Context {U : Uninit} (randombytes : rng → nat → list Z * rng).

Definition OQS_SIG_sphincs_sha2_192f_simple_length_public_key : Z := 48.
Definition OQS_SIG_sphincs_sha2_192f_simple_length_secret_key : Z := 96.
Definition OQS_SIG_sphincs_sha2_192f_simple_length_signature : Z := 35664.

Definition OQS_SIG_sphincs_sha2_192f_simple_keypair (public_key secret_key : list Z) (g : rng) :=
  crypto_sign_keypair randombytes public_key secret_key g.

(** [*signature_len] is set in every case, so its old value is not used. *)
Definition OQS_SIG_sphincs_sha2_192f_simple_sign (signature : list Z) (signature_len : nat)
    (message secret_key : list Z) (g : rng) :=
  crypto_sign_signature randombytes signature message secret_key g.

Definition OQS_SIG_sphincs_sha2_192f_simple_verify (message signature : list Z) (signature_len : nat)
    (public_key : list Z) : option Z :=
  crypto_sign_verify signature signature_len message public_key.

(** A context string is supported only as absent and empty. *)
Definition OQS_SIG_sphincs_sha2_192f_simple_sign_with_ctx_str (signature : list Z) (signature_len : nat)
    (message : list Z) (ctx_str : option (list Z)) (ctx_str_len : nat) (secret_key : list Z) (g : rng)
    : option (Z * list Z * nat * rng) :=
  if decide (ctx_str = None ∧ ctx_str_len = 0%nat)
  then OQS_SIG_sphincs_sha2_192f_simple_sign signature signature_len message secret_key g
  else Some (OQS_ERROR, signature, signature_len, g).

Definition OQS_SIG_sphincs_sha2_192f_simple_verify_with_ctx_str (message signature : list Z)
    (signature_len : nat) (ctx_str : option (list Z)) (ctx_str_len : nat) (public_key : list Z) : option Z :=
  if decide (ctx_str = None ∧ ctx_str_len = 0%nat)
  then OQS_SIG_sphincs_sha2_192f_simple_verify message signature signature_len public_key
  else Some OQS_ERROR.

(** [malloc_ok]: whether [OQS_MEM_malloc] succeeds. *)
Definition OQS_SIG_sphincs_sha2_192f_simple_new (malloc_ok : bool) : option OQS_SIG :=
  if malloc_ok then Some {|
    method_name := "SPHINCS+-SHA2-192f-simple";
    alg_version := "https://github.com/sphincs/sphincsplus/commit/f38d4fdaff9c5889a086955a027f6bd71d8a4a96";
    claimed_nist_level := 3;
    euf_cma := true;
    sig_with_ctx_support := false;
    length_public_key := OQS_SIG_sphincs_sha2_192f_simple_length_public_key;
    length_secret_key := OQS_SIG_sphincs_sha2_192f_simple_length_secret_key;
    length_signature := OQS_SIG_sphincs_sha2_192f_simple_length_signature;
    keypair := OQS_SIG_sphincs_sha2_192f_simple_keypair;
    sign := OQS_SIG_sphincs_sha2_192f_simple_sign;
    sign_with_ctx_str := OQS_SIG_sphincs_sha2_192f_simple_sign_with_ctx_str;
    verify := OQS_SIG_sphincs_sha2_192f_simple_verify;
    verify_with_ctx_str := OQS_SIG_sphincs_sha2_192f_simple_verify_with_ctx_str;
  |} else None.
End api.
Arguments OQS_SIG : clear implicits.

(** ** Theorems *)

Lemma tables_agree :
  alg_table = fst <$> (is_enabled_cases_1 ++ is_enabled_cases_2) ∧
  new_cases_1 ++ new_cases_2 = is_enabled_cases_1 ++ is_enabled_cases_2.
Proof. split; reflexivity. Qed.

(** Names that differ in case only select the same case. *)
Lemma strcasecmp_eq_cong s t u : strcasecmp_eq s t = true → strcasecmp_eq s u = strcasecmp_eq t u.
Proof.
  revert t u. induction s as [|a s IH]; intros [|b t] u; simpl; try done.
  rewrite andb_true_iff. intros [Hab Hst]. apply Ascii.eqb_eq in Hab.
  destruct u as [|c u]; [done |]. rewrite Hab. f_equal. by apply IH.
Qed.

Lemma find_case_cong cases s t : strcasecmp_eq s t = true → find_case cases s = find_case cases t.
Proof.
  intros Hst. unfold find_case. do 2 f_equal. induction cases as [|c cases IH]; [done |].
  cbn [list_find]. rewrite IH.
  pose proof (strcasecmp_eq_cong s t c.1 Hst) as Hc.
  destruct (decide (strcasecmp_eq s c.1 = true)), (decide (strcasecmp_eq t c.1 = true)); congruence.
Qed.

(** Creation agrees with the enabled test: in every build, for every name in
    any letter case, [OQS_SIG_new] calls a constructor exactly when
    [OQS_SIG_alg_is_enabled] answers 1, and returns a null pointer otherwise. *)
Theorem new_iff_enabled {rng : Type} (b : build) (constructors : string → option (OQS_SIG rng))
    (name : option string) :
  (∀ alg, is_Some (constructors alg)) →
  (is_Some (OQS_SIG_new b constructors name) ↔ OQS_SIG_alg_is_enabled b name = 1) ∧
  (OQS_SIG_new b constructors name = None ↔ OQS_SIG_alg_is_enabled b name = 0).
Proof.
  intros Hc. unfold OQS_SIG_new, OQS_SIG_alg_is_enabled. rewrite (proj2 tables_agree).
  destruct name as [name|]; [| by split; split].
  destruct (find_case _ name) as [alg|]; [| by split; split].
  destruct (Hc alg) as [o Ho]. case_decide; rewrite ?Ho; by split; split.
Qed.

(** In this repository's build exactly two of the 44 algorithms are enabled,
    ML-DSA-65 and SPHINCS+-SHA2-192f-simple, and the second is created by
    SPHINCS+'s own constructor whatever the letter case of the name. *)
Theorem qs_build_algorithms :
  (∀ i name, OQS_SIG_alg_identifier i = Some name →
     OQS_SIG_alg_is_enabled qs_build (Some name) = 1 ↔
     name = "ML-DSA-65" ∨ name = "SPHINCS+-SHA2-192f-simple") ∧
  OQS_SIG_alg_identifier OQS_SIG_alg_count = None ∧
  (∀ rng (cons : string → option (OQS_SIG rng)) name,
     strcasecmp_eq name "SPHINCS+-SHA2-192f-simple" = true →
     OQS_SIG_new qs_build cons (Some name) = cons "sphincs_sha2_192f_simple").
Proof.
  split_and!.
  - assert (Hall : Forall (λ name, bool_decide (OQS_SIG_alg_is_enabled qs_build (Some name) = 1) =
      bool_decide (name = "ML-DSA-65" ∨ name = "SPHINCS+-SHA2-192f-simple")) alg_table)
      by (unfold alg_table; repeat (apply Forall_cons_2; [vm_compute; reflexivity |]); apply Forall_nil_2).
    intros i name Hi. unfold OQS_SIG_alg_identifier in Hi. case_decide; [done |].
    apply (Forall_lookup_1 _ _ _ _ Hall) in Hi.
    rewrite <-(bool_decide_spec (OQS_SIG_alg_is_enabled _ _ = 1)), Hi. apply bool_decide_spec.
  - reflexivity.
  - intros rng cons name Hn. unfold OQS_SIG_new. rewrite (find_case_cong _ _ _ Hn). reflexivity.
Qed.

Lemma new_iff_enabled_witness :
  (is_Some (OQS_SIG_new qs_build (λ _, @OQS_SIG_sphincs_sha2_192f_simple_new unit zero_uninit zero_rng true) (Some "ml-dsa-65"))
     ↔ OQS_SIG_alg_is_enabled qs_build (Some "ml-dsa-65") = 1) ∧
  (OQS_SIG_new qs_build (λ _, @OQS_SIG_sphincs_sha2_192f_simple_new unit zero_uninit zero_rng true) (Some "ml-dsa-65") = None
     ↔ OQS_SIG_alg_is_enabled qs_build (Some "ml-dsa-65") = 0).
Proof.
  apply (new_iff_enabled qs_build (λ _, @OQS_SIG_sphincs_sha2_192f_simple_new unit zero_uninit zero_rng true)
    (Some "ml-dsa-65")).
  intros alg. eexists. reflexivity.
Defined.

Section sphincs_api.
Context {U : Uninit} {rng : Type} (randombytes : rng → nat → list Z * rng).

(** What the API promises for the SPHINCS+ object. *)
Lemma sphincs_api_round_trip (sig : OQS_SIG rng) (g : rng) (pk0 sk0 : list Z) :
  (∀ g n, length (randombytes g n).1 = n) →
  OQS_SIG_sphincs_sha2_192f_simple_new randombytes true = Some sig →
  Z.of_nat (length pk0) = length_public_key sig → Z.of_nat (length sk0) = length_secret_key sig →
  wp (OQS_SIG_keypair (Some sig) pk0 sk0 g) (λ '(st, pk, sk, _),
    st = OQS_SUCCESS ∧ length pk = length pk0 ∧ length sk = length sk0 ∧
    ∀ gs sig0 len0 m, Z.of_nat (length sig0) = length_signature sig → msg_fits m →
    wp (OQS_SIG_sign (Some sig) sig0 len0 m sk gs) (λ '(st, s, n, _),
      st = OQS_SUCCESS ∧ Z.of_nat n = length_signature sig ∧ length s = n ∧
      OQS_SIG_verify (Some sig) m s n pk = Some OQS_SUCCESS)).
Proof.
  intros Hrng [= <-] Hpk Hsk. cbn [length_public_key length_secret_key length_signature] in *.
  assert (Hb : Z.of_nat SPX_BYTES = 35664) by (rewrite SPX_BYTES_parts; reflexivity).
  assert (Lp : length pk0 = SPX_PK_BYTES) by (apply Nat2Z.inj; rewrite Hpk; reflexivity).
  assert (Ls : length sk0 = SPX_SK_BYTES) by (apply Nat2Z.inj; rewrite Hsk; reflexivity).
  unfold OQS_SIG_keypair, OQS_SIG_sign, OQS_SIG_verify. cbn [keypair sign verify].
  unfold OQS_SIG_sphincs_sha2_192f_simple_keypair, OQS_SIG_sphincs_sha2_192f_simple_sign,
    OQS_SIG_sphincs_sha2_192f_simple_verify.
  eapply wp_then; [exact (sign_verify_core randombytes g pk0 sk0 Hrng Lp Ls) |].
  intros [[[ret pk] sk] g1] (-> & Lpk & Lsk & Hsign). cbn [wp]. rewrite Lp, Ls. split_and!; [done | done | done |].
  intros gs sig0 len0 m Hsig Hm. assert (Lg : length sig0 = SPX_BYTES) by (apply Nat2Z.inj; rewrite Hsig, Hb; reflexivity).
  eapply wp_then; [exact (Hsign gs sig0 m Lg Hm) |]. intros [[[ret s] n] g2] (-> & -> & Hl & Hv). cbn [wp].
  split_and!; [done | done | done |]. by rewrite Hv.
Qed.

(** The whole API path: an object created for SPHINCS+ generates a key pair,
    signs and verifies with status success each time, and its advertised
    lengths are those of the buffers used. *)
Theorem oqs_sphincs_roundtrip (sig : OQS_SIG rng) (g : rng) (pk0 sk0 sig0 m : list Z) (len0 : nat) :
  (∀ g n, length (randombytes g n).1 = n) →
  OQS_SIG_sphincs_sha2_192f_simple_new randombytes true = Some sig →
  Z.of_nat (length pk0) = length_public_key sig → Z.of_nat (length sk0) = length_secret_key sig →
  Z.of_nat (length sig0) = length_signature sig → msg_fits m →
  wp (OQS_SIG_keypair (Some sig) pk0 sk0 g) (λ '(st, pk, sk, g'),
    st = OQS_SUCCESS ∧
    wp (OQS_SIG_sign (Some sig) sig0 len0 m sk g') (λ '(st, s, n, _),
      st = OQS_SUCCESS ∧ Z.of_nat n = length_signature sig ∧
      OQS_SIG_verify (Some sig) m s n pk = Some OQS_SUCCESS)).
Proof.
  intros Hrng E Hpk Hsk Hsig Hm. eapply wp_mono; [by apply sphincs_api_round_trip |].
  intros [[[st pk] sk] g1] (-> & _ & _ & H). split; [done |]. eapply wp_mono; [by apply H |].
  intros [[[st s] n] g2] (-> & Hn & _ & Hv). done.
Qed.

(** Context strings: the SPHINCS+ object refuses any context string that is
    present or has a non-zero length, for signing (nothing is written) and for
    verifying, and with none behaves as the plain functions; and every API
    function on a null object is an error that touches nothing. *)
Theorem oqs_context_strings (sig : OQS_SIG rng) (s m k : list Z) (n : nat)
    (ctx_str : option (list Z)) (ctx_len : nat) (g : rng) :
  OQS_SIG_sphincs_sha2_192f_simple_new randombytes true = Some sig →
  (ctx_str ≠ None ∨ ctx_len ≠ 0%nat →
   OQS_SIG_sign_with_ctx_str (Some sig) s n m ctx_str ctx_len k g = Some (OQS_ERROR, s, n, g) ∧
   OQS_SIG_verify_with_ctx_str (Some sig) m s n ctx_str ctx_len k = Some OQS_ERROR) ∧
  OQS_SIG_sign_with_ctx_str (Some sig) s n m None 0 k g = OQS_SIG_sign (Some sig) s n m k g ∧
  OQS_SIG_verify_with_ctx_str (Some sig) m s n None 0 k = OQS_SIG_verify (Some sig) m s n k ∧
  OQS_SIG_sign (@None (OQS_SIG rng)) s n m k g = Some (OQS_ERROR, s, n, g) ∧
  OQS_SIG_verify (@None (OQS_SIG rng)) m s n k = Some OQS_ERROR.
Proof.
  intros [= <-]. split_and!; try reflexivity.
  intros Hc. unfold OQS_SIG_sign_with_ctx_str, OQS_SIG_verify_with_ctx_str.
  cbn [sign_with_ctx_str verify_with_ctx_str].
  unfold OQS_SIG_sphincs_sha2_192f_simple_sign_with_ctx_str, OQS_SIG_sphincs_sha2_192f_simple_verify_with_ctx_str.
  rewrite !decide_False by (intros [-> ->]; destruct Hc as [Hc|Hc]; by apply Hc). split; reflexivity.
Qed.
End sphincs_api.

#[local] Existing Instance zero_uninit.

Lemma oqs_sphincs_roundtrip_witness : ∃ sig,
  OQS_SIG_sphincs_sha2_192f_simple_new zero_rng true = Some sig ∧
  wp (OQS_SIG_keypair (Some sig) (replicate 48 0) (replicate 96 0) tt) (λ '(st, pk, sk, g'),
    st = OQS_SUCCESS ∧
    wp (OQS_SIG_sign (Some sig) (replicate SPX_BYTES 0) 0 [1; 2] sk g') (λ '(st, s, n, _),
      st = OQS_SUCCESS ∧ Z.of_nat n = length_signature sig ∧
      OQS_SIG_verify (Some sig) [1; 2] s n pk = Some OQS_SUCCESS)).
Proof.
  eexists. split; [reflexivity |].
  apply (oqs_sphincs_roundtrip zero_rng _ tt (replicate 48 0) (replicate 96 0) (replicate SPX_BYTES 0) [1; 2] 0);
    [exact length_zero_rng | reflexivity | reflexivity | reflexivity | | reflexivity].
  rewrite length_replicate, SPX_BYTES_parts. reflexivity.
Defined.

Lemma oqs_context_strings_witness : ∃ sig,
  OQS_SIG_sphincs_sha2_192f_simple_new zero_rng true = Some sig ∧
  OQS_SIG_verify_with_ctx_str (Some sig) [1] [2] 1 (Some [3]) 1 [4] = Some OQS_ERROR.
Proof.
  eexists. split; [reflexivity |].
  refine (proj2 (proj1 (oqs_context_strings zero_rng _ [2] [1] [4] 1 (Some [3]) 1 tt eq_refl) _)).
  left. discriminate.
Defined.
