(* ===== verification/Keccak.v ===== *)
(** The Keccak-p[1600] permutation of the XKCP "plain-64bits" implementation
    (common/sha3/xkcp_low/KeccakP-1600/plain-64bits), which liboqs uses on
    machines without AVX2, and its equivalence with the permutation of
    FIPS 202.

    The C macros keep the 25 lanes in local variables [Aba] .. [Asu] and
    [Eba] .. [Esu], alternate between the two sets from round to round, carry
    the column parities of the next round along ([Ca] .. [Cu]), and hold the
    lanes 1, 2, 8, 12, 17 and 20 complemented ("bebigokimisa") so that most
    negations of the chi step disappear.  Each macro is one definition here,
    statement by statement. *)
From S2P Require Import Prelude.

Open Scope c_scope.

(** ** KeccakP-1600-opt64.c, KeccakP-1600-64.macros *)

Notation "x ∥ y" := (Z.lor x y) (at level 49, left associativity) : c_scope.

(** [~x] on a [uint64_t]. *)
Definition lnot64 (x : Z) : Z := x ⊻ (2 ^ 64 - 1).

Definition ROL64 (a offset : Z) : Z := u64 (Z.shiftl a offset) ⊻ (a >> (64 - offset)).

Definition KeccakF1600RoundConstants : list Z :=
  [0x0000000000000001; 0x0000000000008082; 0x800000000000808a; 0x8000000080008000;
   0x000000000000808b; 0x0000000080000001; 0x8000000080008081; 0x8000000000008009;
   0x000000000000008a; 0x0000000000000088; 0x0000000080008009; 0x000000008000000a;
   0x000000008000808b; 0x800000000000008b; 0x8000000000008089; 0x8000000000008003;
   0x8000000000008002; 0x8000000000000080; 0x000000000000800a; 0x800000008000000a;
   0x8000000080008081; 0x8000000000008080; 0x0000000080000001; 0x8000000080008008].

Definition RC (i : nat) : Z := nth i KeccakF1600RoundConstants 0.

(** The local variables of one set, in the order of the state array. *)
Inductive lanes :=
  Lanes (ba be bi bo bu ga ge gi go gu ka ke ki ko ku ma me mi mo mu sa se si so su : Z).

(** The column parities [Ca, Ce, Ci, Co, Cu]. *)
Inductive parities := Parities (a e i o u : Z).

Definition prepareTheta (A : lanes) : parities :=
  let '(Lanes Aba Abe Abi Abo Abu
        Aga Age Agi Ago Agu
        Aka Ake Aki Ako Aku
        Ama Ame Ami Amo Amu
        Asa Ase Asi Aso Asu) := A in
  let Ca := Aba ⊻ Aga ⊻ Aka ⊻ Ama ⊻ Asa in let Ce := Abe ⊻ Age ⊻ Ake ⊻ Ame ⊻ Ase in
  let Ci := Abi ⊻ Agi ⊻ Aki ⊻ Ami ⊻ Asi in let Co := Abo ⊻ Ago ⊻ Ako ⊻ Amo ⊻ Aso in
  let Cu := Abu ⊻ Agu ⊻ Aku ⊻ Amu ⊻ Asu in
  Parities Ca Ce Ci Co Cu.

Definition thetaRhoPiChiIotaPrepareTheta (i : nat) (C : parities) (A : lanes)
  : parities * lanes :=
  let '(Parities Ca Ce Ci Co Cu) := C in
  let '(Lanes Aba Abe Abi Abo Abu
        Aga Age Agi Ago Agu
        Aka Ake Aki Ako Aku
        Ama Ame Ami Amo Amu
        Asa Ase Asi Aso Asu) := A in
  let Da := Cu ⊻ ROL64 Ce 1 in let De := Ca ⊻ ROL64 Ci 1 in let Di := Ce ⊻ ROL64 Co 1 in
  let Do := Ci ⊻ ROL64 Cu 1 in let Du := Co ⊻ ROL64 Ca 1 in
  let Aba := Aba ⊻ Da in let Bba := Aba in let Age := Age ⊻ De in let Bbe := ROL64 Age 44 in
  let Aki := Aki ⊻ Di in let Bbi := ROL64 Aki 43 in let Amo := Amo ⊻ Do in
  let Bbo := ROL64 Amo 21 in let Asu := Asu ⊻ Du in let Bbu := ROL64 Asu 14 in
  let Eba := Bba ⊻ (Bbe ∥ Bbi) in let Eba := Eba ⊻ RC i in let Ca := Eba in
  let Ebe := Bbe ⊻ ((lnot64 Bbi) ∥ Bbo) in let Ce := Ebe in let Ebi := Bbi ⊻ (Bbo & Bbu) in
  let Ci := Ebi in let Ebo := Bbo ⊻ (Bbu ∥ Bba) in let Co := Ebo in let Ebu := Bbu ⊻ (Bba & Bbe) in
  let Cu := Ebu in
  let Abo := Abo ⊻ Do in let Bga := ROL64 Abo 28 in let Agu := Agu ⊻ Du in
  let Bge := ROL64 Agu 20 in let Aka := Aka ⊻ Da in let Bgi := ROL64 Aka 3 in
  let Ame := Ame ⊻ De in let Bgo := ROL64 Ame 45 in let Asi := Asi ⊻ Di in
  let Bgu := ROL64 Asi 61 in let Ega := Bga ⊻ (Bge ∥ Bgi) in let Ca := Ca ⊻ Ega in
  let Ege := Bge ⊻ (Bgi & Bgo) in let Ce := Ce ⊻ Ege in let Egi := Bgi ⊻ (Bgo ∥ (lnot64 Bgu)) in
  let Ci := Ci ⊻ Egi in let Ego := Bgo ⊻ (Bgu ∥ Bga) in let Co := Co ⊻ Ego in
  let Egu := Bgu ⊻ (Bga & Bge) in let Cu := Cu ⊻ Egu in
  let Abe := Abe ⊻ De in let Bka := ROL64 Abe 1 in let Agi := Agi ⊻ Di in
  let Bke := ROL64 Agi 6 in let Ako := Ako ⊻ Do in let Bki := ROL64 Ako 25 in
  let Amu := Amu ⊻ Du in let Bko := ROL64 Amu 8 in let Asa := Asa ⊻ Da in
  let Bku := ROL64 Asa 18 in let Eka := Bka ⊻ (Bke ∥ Bki) in let Ca := Ca ⊻ Eka in
  let Eke := Bke ⊻ (Bki & Bko) in let Ce := Ce ⊻ Eke in let Eki := Bki ⊻ ((lnot64 Bko) & Bku) in
  let Ci := Ci ⊻ Eki in let Eko := (lnot64 Bko) ⊻ (Bku ∥ Bka) in let Co := Co ⊻ Eko in
  let Eku := Bku ⊻ (Bka & Bke) in let Cu := Cu ⊻ Eku in
  let Abu := Abu ⊻ Du in let Bma := ROL64 Abu 27 in let Aga := Aga ⊻ Da in
  let Bme := ROL64 Aga 36 in let Ake := Ake ⊻ De in let Bmi := ROL64 Ake 10 in
  let Ami := Ami ⊻ Di in let Bmo := ROL64 Ami 15 in let Aso := Aso ⊻ Do in
  let Bmu := ROL64 Aso 56 in let Ema := Bma ⊻ (Bme & Bmi) in let Ca := Ca ⊻ Ema in
  let Eme := Bme ⊻ (Bmi ∥ Bmo) in let Ce := Ce ⊻ Eme in let Emi := Bmi ⊻ ((lnot64 Bmo) ∥ Bmu) in
  let Ci := Ci ⊻ Emi in let Emo := (lnot64 Bmo) ⊻ (Bmu & Bma) in let Co := Co ⊻ Emo in
  let Emu := Bmu ⊻ (Bma ∥ Bme) in let Cu := Cu ⊻ Emu in
  let Abi := Abi ⊻ Di in let Bsa := ROL64 Abi 62 in let Ago := Ago ⊻ Do in
  let Bse := ROL64 Ago 55 in let Aku := Aku ⊻ Du in let Bsi := ROL64 Aku 39 in
  let Ama := Ama ⊻ Da in let Bso := ROL64 Ama 41 in let Ase := Ase ⊻ De in
  let Bsu := ROL64 Ase 2 in let Esa := Bsa ⊻ ((lnot64 Bse) & Bsi) in let Ca := Ca ⊻ Esa in
  let Ese := (lnot64 Bse) ⊻ (Bsi ∥ Bso) in let Ce := Ce ⊻ Ese in let Esi := Bsi ⊻ (Bso & Bsu) in
  let Ci := Ci ⊻ Esi in let Eso := Bso ⊻ (Bsu ∥ Bsa) in let Co := Co ⊻ Eso in
  let Esu := Bsu ⊻ (Bsa & Bse) in let Cu := Cu ⊻ Esu in
  (Parities Ca Ce Ci Co Cu,
   Lanes Eba Ebe Ebi Ebo Ebu
     Ega Ege Egi Ego Egu
     Eka Eke Eki Eko Eku
     Ema Eme Emi Emo Emu
     Esa Ese Esi Eso Esu).

Definition thetaRhoPiChiIota (i : nat) (C : parities) (A : lanes) : lanes :=
  let '(Parities Ca Ce Ci Co Cu) := C in
  let '(Lanes Aba Abe Abi Abo Abu
        Aga Age Agi Ago Agu
        Aka Ake Aki Ako Aku
        Ama Ame Ami Amo Amu
        Asa Ase Asi Aso Asu) := A in
  let Da := Cu ⊻ ROL64 Ce 1 in let De := Ca ⊻ ROL64 Ci 1 in let Di := Ce ⊻ ROL64 Co 1 in
  let Do := Ci ⊻ ROL64 Cu 1 in let Du := Co ⊻ ROL64 Ca 1 in
  let Aba := Aba ⊻ Da in let Bba := Aba in let Age := Age ⊻ De in let Bbe := ROL64 Age 44 in
  let Aki := Aki ⊻ Di in let Bbi := ROL64 Aki 43 in let Amo := Amo ⊻ Do in
  let Bbo := ROL64 Amo 21 in let Asu := Asu ⊻ Du in let Bbu := ROL64 Asu 14 in
  let Eba := Bba ⊻ (Bbe ∥ Bbi) in let Eba := Eba ⊻ RC i in let Ebe := Bbe ⊻ ((lnot64 Bbi) ∥ Bbo) in
  let Ebi := Bbi ⊻ (Bbo & Bbu) in let Ebo := Bbo ⊻ (Bbu ∥ Bba) in let Ebu := Bbu ⊻ (Bba & Bbe) in
  let Abo := Abo ⊻ Do in let Bga := ROL64 Abo 28 in let Agu := Agu ⊻ Du in
  let Bge := ROL64 Agu 20 in let Aka := Aka ⊻ Da in let Bgi := ROL64 Aka 3 in
  let Ame := Ame ⊻ De in let Bgo := ROL64 Ame 45 in let Asi := Asi ⊻ Di in
  let Bgu := ROL64 Asi 61 in let Ega := Bga ⊻ (Bge ∥ Bgi) in let Ege := Bge ⊻ (Bgi & Bgo) in
  let Egi := Bgi ⊻ (Bgo ∥ (lnot64 Bgu)) in let Ego := Bgo ⊻ (Bgu ∥ Bga) in
  let Egu := Bgu ⊻ (Bga & Bge) in
  let Abe := Abe ⊻ De in let Bka := ROL64 Abe 1 in let Agi := Agi ⊻ Di in
  let Bke := ROL64 Agi 6 in let Ako := Ako ⊻ Do in let Bki := ROL64 Ako 25 in
  let Amu := Amu ⊻ Du in let Bko := ROL64 Amu 8 in let Asa := Asa ⊻ Da in
  let Bku := ROL64 Asa 18 in let Eka := Bka ⊻ (Bke ∥ Bki) in let Eke := Bke ⊻ (Bki & Bko) in
  let Eki := Bki ⊻ ((lnot64 Bko) & Bku) in let Eko := (lnot64 Bko) ⊻ (Bku ∥ Bka) in
  let Eku := Bku ⊻ (Bka & Bke) in
  let Abu := Abu ⊻ Du in let Bma := ROL64 Abu 27 in let Aga := Aga ⊻ Da in
  let Bme := ROL64 Aga 36 in let Ake := Ake ⊻ De in let Bmi := ROL64 Ake 10 in
  let Ami := Ami ⊻ Di in let Bmo := ROL64 Ami 15 in let Aso := Aso ⊻ Do in
  let Bmu := ROL64 Aso 56 in let Ema := Bma ⊻ (Bme & Bmi) in let Eme := Bme ⊻ (Bmi ∥ Bmo) in
  let Emi := Bmi ⊻ ((lnot64 Bmo) ∥ Bmu) in let Emo := (lnot64 Bmo) ⊻ (Bmu & Bma) in
  let Emu := Bmu ⊻ (Bma ∥ Bme) in
  let Abi := Abi ⊻ Di in let Bsa := ROL64 Abi 62 in let Ago := Ago ⊻ Do in
  let Bse := ROL64 Ago 55 in let Aku := Aku ⊻ Du in let Bsi := ROL64 Aku 39 in
  let Ama := Ama ⊻ Da in let Bso := ROL64 Ama 41 in let Ase := Ase ⊻ De in
  let Bsu := ROL64 Ase 2 in let Esa := Bsa ⊻ ((lnot64 Bse) & Bsi) in let Ese := (lnot64 Bse) ⊻ (Bsi ∥ Bso) in
  let Esi := Bsi ⊻ (Bso & Bsu) in let Eso := Bso ⊻ (Bsu ∥ Bsa) in let Esu := Bsu ⊻ (Bsa & Bse) in
  Lanes Eba Ebe Ebi Ebo Ebu
     Ega Ege Egi Ego Egu
     Eka Eke Eki Eko Eku
     Ema Eme Emi Emo Emu
     Esa Ese Esi Eso Esu.

(** All rounds unrolled ([FullUnrolling]). *)
Definition rounds24 (A : lanes) : lanes :=
  let C := prepareTheta A in
  let '(C, E) := thetaRhoPiChiIotaPrepareTheta 0 C A in
  let '(C, A) := thetaRhoPiChiIotaPrepareTheta 1 C E in
  let '(C, E) := thetaRhoPiChiIotaPrepareTheta 2 C A in
  let '(C, A) := thetaRhoPiChiIotaPrepareTheta 3 C E in
  let '(C, E) := thetaRhoPiChiIotaPrepareTheta 4 C A in
  let '(C, A) := thetaRhoPiChiIotaPrepareTheta 5 C E in
  let '(C, E) := thetaRhoPiChiIotaPrepareTheta 6 C A in
  let '(C, A) := thetaRhoPiChiIotaPrepareTheta 7 C E in
  let '(C, E) := thetaRhoPiChiIotaPrepareTheta 8 C A in
  let '(C, A) := thetaRhoPiChiIotaPrepareTheta 9 C E in
  let '(C, E) := thetaRhoPiChiIotaPrepareTheta 10 C A in
  let '(C, A) := thetaRhoPiChiIotaPrepareTheta 11 C E in
  let '(C, E) := thetaRhoPiChiIotaPrepareTheta 12 C A in
  let '(C, A) := thetaRhoPiChiIotaPrepareTheta 13 C E in
  let '(C, E) := thetaRhoPiChiIotaPrepareTheta 14 C A in
  let '(C, A) := thetaRhoPiChiIotaPrepareTheta 15 C E in
  let '(C, E) := thetaRhoPiChiIotaPrepareTheta 16 C A in
  let '(C, A) := thetaRhoPiChiIotaPrepareTheta 17 C E in
  let '(C, E) := thetaRhoPiChiIotaPrepareTheta 18 C A in
  let '(C, A) := thetaRhoPiChiIotaPrepareTheta 19 C E in
  let '(C, E) := thetaRhoPiChiIotaPrepareTheta 20 C A in
  let '(C, A) := thetaRhoPiChiIotaPrepareTheta 21 C E in
  let '(C, E) := thetaRhoPiChiIotaPrepareTheta 22 C A in
  thetaRhoPiChiIota 23 C E.

Definition rounds12 (A : lanes) : lanes :=
  let C := prepareTheta A in
  let '(C, E) := thetaRhoPiChiIotaPrepareTheta 12 C A in
  let '(C, A) := thetaRhoPiChiIotaPrepareTheta 13 C E in
  let '(C, E) := thetaRhoPiChiIotaPrepareTheta 14 C A in
  let '(C, A) := thetaRhoPiChiIotaPrepareTheta 15 C E in
  let '(C, E) := thetaRhoPiChiIotaPrepareTheta 16 C A in
  let '(C, A) := thetaRhoPiChiIotaPrepareTheta 17 C E in
  let '(C, E) := thetaRhoPiChiIotaPrepareTheta 18 C A in
  let '(C, A) := thetaRhoPiChiIotaPrepareTheta 19 C E in
  let '(C, E) := thetaRhoPiChiIotaPrepareTheta 20 C A in
  let '(C, A) := thetaRhoPiChiIotaPrepareTheta 21 C E in
  let '(C, E) := thetaRhoPiChiIotaPrepareTheta 22 C A in
  thetaRhoPiChiIota 23 C E.


(** ** FIPS 202, section 3

    The state array as the list of its lanes, lane [(x, y)] at [x + 5 * y];
    bit [z] of the array is bit [z] of the lane. *)
Module Fips.

Definition at_ (a : list Z) (x y : nat) : Z := nth (x mod 5 + 5 * (y mod 5)) a 0.

Definition build (f : nat → nat → Z) : list Z :=
  map (λ i, f (i mod 5)%nat (i / 5)%nat) (seq 0 25).

(** Rotation of a lane by [n] positions towards the higher ones. *)
Definition rot (x n : Z) : Z := (x * 2 ^ n) mod 2 ^ 64 + x / 2 ^ (64 - n).

Definition theta (a : list Z) : list Z :=
  let C x := at_ a x 0 ⊻ at_ a x 1 ⊻ at_ a x 2 ⊻ at_ a x 3 ⊻ at_ a x 4 in
  let D x := C (x + 4)%nat ⊻ rot (C (x + 1)%nat) 1 in
  build (λ x y, at_ a x y ⊻ D x).

(** The walk of algorithm 2: the position reached after [t] steps from
    [(1, 0)], searched for [(x, y)]. *)
Fixpoint rho_walk (fuel t u v x y : nat) : Z :=
  match fuel with
  | O => 0
  | S fuel' =>
      if ((u =? x) && (v =? y))%nat then (Z.of_nat ((t + 1) * (t + 2)) / 2) mod 64
      else rho_walk fuel' (S t) v ((2 * u + 3 * v) mod 5) x y
  end.

Definition rho (a : list Z) : list Z :=
  build (λ x y, rot (at_ a x y) (rho_walk 24 0 1 0 x y)).

Definition pi (a : list Z) : list Z := build (λ x y, at_ a (x + 3 * y) x).

Definition chi (a : list Z) : list Z :=
  build (λ x y, at_ a x y ⊻ (lnot64 (at_ a (x + 1) y) & at_ a (x + 2) y)).

(** The shift register of algorithm 5 after [t] steps; bit [i] is [R[i]]. *)
Fixpoint rc_reg (t : nat) : Z :=
  match t with
  | O => 1
  | S t' =>
      let R := Z.shiftl (rc_reg t') 1 in
      (if Z.testbit R 8 then R ⊻ 0x71 else R) & 0xff
  end.

Definition rc (t : nat) : bool := Z.testbit (rc_reg (t mod 255)) 0.

Definition round_constant (ir : nat) : Z :=
  foldl (λ acc j, if rc (j + 7 * ir) then Z.setbit acc (2 ^ Z.of_nat j - 1) else acc) 0 (seq 0 7).

Definition iota (ir : nat) (a : list Z) : list Z :=
  build (λ x y, match x, y with O, O => at_ a 0 0 ⊻ round_constant ir | _, _ => at_ a x y end).

Definition Rnd (ir : nat) (a : list Z) : list Z := iota ir (chi (pi (rho (theta a)))).

(** Keccak-p[1600, nr] numbers its rounds from [24 - nr]. *)
Definition keccak_p (nr : nat) (a : list Z) : list Z :=
  foldl (λ a ir, Rnd ir a) a (seq (24 - nr) nr).

Definition keccak_f : list Z → list Z := keccak_p 24.

End Fips.

(** ** Bits of 64-bit words *)

Lemma testbit_lnot64 x i : 0 <= i → Z.testbit (lnot64 x) i = xorb (Z.testbit x i) (i <? 64).
Proof.
  intros Hi. unfold lnot64. rewrite Z.lxor_spec. f_equal.
  change (2 ^ 64 - 1) with (Z.ones 64). rewrite Z.testbit_ones_nonneg by lia. done.
Qed.

Lemma in_u64_testbit x i : in_u64 x → 64 <= i → Z.testbit x i = false.
Proof.
  intros [H0 H1] Hi. destruct (decide (x = 0)) as [->|]; [apply Z.bits_0 |].
  apply Z.bits_above_log2; [lia |]. apply Z.log2_lt_pow2; [lia |].
  assert (2 ^ 64 <= 2 ^ i) by (apply Z.pow_le_mono_r; lia). lia.
Qed.

Lemma in_u64_bits x : 0 <= x → (∀ i, 64 <= i → Z.testbit x i = false) → in_u64 x.
Proof.
  intros H0 Hb. split; [done |]. destruct (decide (x = 0)) as [->|]; [lia |].
  apply Z.log2_lt_pow2; [lia |]. apply Z.nle_gt. intros Hl.
  specialize (Hb (Z.log2 x) Hl). rewrite Z.bit_log2 in Hb by lia. done.
Qed.

Lemma in_u64_lxor x y : in_u64 x → in_u64 y → in_u64 (x ⊻ y).
Proof.
  intros Hx Hy. apply in_u64_bits; [apply Z.lxor_nonneg; destruct Hx, Hy; lia |].
  intros i Hi. by rewrite Z.lxor_spec, !in_u64_testbit.
Qed.
Lemma in_u64_land x y : in_u64 x → in_u64 y → in_u64 (x & y).
Proof.
  intros Hx Hy. apply in_u64_bits; [apply Z.land_nonneg; destruct Hx; lia |].
  intros i Hi. by rewrite Z.land_spec, !in_u64_testbit.
Qed.
Lemma in_u64_lnot64 x : in_u64 x → in_u64 (lnot64 x).
Proof. intros. apply in_u64_lxor; [done | unfold in_u64; lia]. Qed.
Lemma in_u64_shiftr x n : 0 <= n → in_u64 x → in_u64 (x >> n).
Proof.
  intros Hn Hx. apply in_u64_bits; [apply Z.shiftr_nonneg; destruct Hx; lia |].
  intros i Hi. rewrite Z.shiftr_spec by lia. apply in_u64_testbit; [done | lia].
Qed.
Lemma in_u64_ROL64 x n : 0 <= n <= 64 → in_u64 x → in_u64 (ROL64 x n).
Proof. intros. apply in_u64_lxor; [apply u64_range | apply in_u64_shiftr; [lia | done]]. Qed.
Lemma in_u64_RC i : in_u64 (RC i).
Proof.
  unfold RC.
  assert (H : Forall in_u64 KeccakF1600RoundConstants).
  { unfold KeccakF1600RoundConstants. repeat constructor; done. }
  destruct (nth_in_or_default i KeccakF1600RoundConstants 0) as [Hi | ->]; [| done].
  rewrite Forall_forall in H. apply H, Hi.
Qed.
Create HintDb u64.
#[export] Hint Resolve in_u64_lxor in_u64_land in_u64_lnot64 in_u64_ROL64 in_u64_RC : u64.

(** Complementing commutes with the linear steps. *)
Lemma lnot64_lnot64 x : lnot64 (lnot64 x) = x.
Proof. unfold lnot64. by rewrite Z.lxor_assoc, Z.lxor_nilpotent, Z.lxor_0_r. Qed.
Lemma lxor_lnot64_l x y : lnot64 x ⊻ y = lnot64 (x ⊻ y).
Proof. unfold lnot64. rewrite !Z.lxor_assoc. f_equal. apply Z.lxor_comm. Qed.
Lemma lxor_lnot64_r x y : x ⊻ lnot64 y = lnot64 (x ⊻ y).
Proof. unfold lnot64. by rewrite Z.lxor_assoc. Qed.

Lemma testbit_ROL64 x n i : 0 <= n <= 64 → 0 <= i →
  Z.testbit (ROL64 x n) i
  = xorb ((i <? 64) && (if n <=? i then Z.testbit x (i - n) else false)) (Z.testbit x (i + (64 - n))).
Proof.
  intros Hn Hi. unfold ROL64, u64. rewrite Z.lxor_spec, Z.shiftr_spec by lia. f_equal.
  destruct (Z.ltb_spec i 64) as [H|H]; [| by rewrite Z.mod_pow2_bits_high by lia].
  rewrite Z.mod_pow2_bits_low by lia. cbn [andb]. destruct (Z.leb_spec n i).
  - by rewrite Z.shiftl_spec by lia.
  - rewrite Z.shiftl_spec by lia. apply Z.testbit_neg_r. lia.
Qed.

Lemma ROL64_lnot64 x n : 0 <= n <= 64 → ROL64 (lnot64 x) n = lnot64 (ROL64 x n).
Proof.
  intros Hn. apply Z.bits_inj'. intros i Hi.
  rewrite (testbit_lnot64 (ROL64 x n)), !testbit_ROL64, (testbit_lnot64 x (i + (64 - n))) by lia.
  destruct (Z.ltb_spec i 64), (Z.leb_spec n i), (Z.ltb_spec (i + (64 - n)) 64); try lia; cbn [andb];
    rewrite ?(testbit_lnot64 x (i - n)) by lia.
  - destruct (Z.ltb_spec (i - n) 64); [| lia].
    by destruct (Z.testbit x (i - n)), (Z.testbit x (i + (64 - n))).
  - by destruct (Z.testbit x (i + (64 - n))).
  - by destruct (Z.testbit x (i + (64 - n))).
Qed.

(** The C rotation is the one of the standard. *)
Lemma ROL64_rot x n : 0 <= n <= 64 → in_u64 x → ROL64 x n = Fips.rot x n.
Proof.
  intros Hn Hx. unfold ROL64, Fips.rot, u64. rewrite Z.shiftl_mul_pow2, Z.shiftr_div_pow2 by lia.
  rewrite Z.add_nocarry_lxor; [done |]. apply Z.bits_inj'. intros i Hi.
  rewrite Z.land_spec, Z.bits_0, <-Z.shiftr_div_pow2, Z.shiftr_spec by lia.
  destruct (Z.ltb_spec i 64); [| rewrite Z.mod_pow2_bits_high by lia; done].
  rewrite Z.mod_pow2_bits_low, Z.mul_pow2_bits by lia. destruct (decide (i < n)).
  - rewrite Z.testbit_neg_r by lia. done.
  - rewrite (in_u64_testbit x (i + (64 - n))) by (done || lia). apply andb_false_r.
Qed.

(** ** Equivalence with FIPS 202 *)

Definition lanes_list (A : lanes) : list Z :=
  let '(Lanes ba be bi bo bu ga ge gi go gu ka ke ki ko ku ma me mi mo mu sa se si so su) := A in
  [ba; be; bi; bo; bu; ga; ge; gi; go; gu; ka; ke; ki; ko; ku; ma; me; mi; mo; mu; sa; se; si; so; su].

Definition lanes_ok (A : lanes) : Prop := Forall in_u64 (lanes_list A).

(** The lane-complementing transform. *)
Definition flip (A : lanes) : lanes :=
  let '(Lanes ba be bi bo bu ga ge gi go gu ka ke ki ko ku ma me mi mo mu sa se si so su) := A in
  Lanes ba (lnot64 be) (lnot64 bi) bo bu ga ge gi (lnot64 go) gu
    ka ke (lnot64 ki) ko ku ma me (lnot64 mi) mo mu (lnot64 sa) se si so su.

(** The round of the code in three stages: the parities to the [D] words, the
    [D] words to the [B] lanes, the [B] lanes to the result. *)
Definition stage_D (C : parities) : parities :=
  let '(Parities Ca Ce Ci Co Cu) := C in
  Parities (Cu ⊻ ROL64 Ce 1) (Ca ⊻ ROL64 Ci 1) (Ce ⊻ ROL64 Co 1) (Ci ⊻ ROL64 Cu 1) (Co ⊻ ROL64 Ca 1).

Definition stage_B (D : parities) (A : lanes) : lanes :=
  let '(Parities Da De Di Do Du) := D in
  let '(Lanes ba be bi bo bu ga ge gi go gu ka ke ki ko ku ma me mi mo mu sa se si so su) := A in
  Lanes (ba ⊻ Da) (ROL64 (ge ⊻ De) 44) (ROL64 (ki ⊻ Di) 43) (ROL64 (mo ⊻ Do) 21) (ROL64 (su ⊻ Du) 14)
    (ROL64 (bo ⊻ Do) 28) (ROL64 (gu ⊻ Du) 20) (ROL64 (ka ⊻ Da) 3) (ROL64 (me ⊻ De) 45) (ROL64 (si ⊻ Di) 61)
    (ROL64 (be ⊻ De) 1) (ROL64 (gi ⊻ Di) 6) (ROL64 (ko ⊻ Do) 25) (ROL64 (mu ⊻ Du) 8) (ROL64 (sa ⊻ Da) 18)
    (ROL64 (bu ⊻ Du) 27) (ROL64 (ga ⊻ Da) 36) (ROL64 (ke ⊻ De) 10) (ROL64 (mi ⊻ Di) 15) (ROL64 (so ⊻ Do) 56)
    (ROL64 (bi ⊻ Di) 62) (ROL64 (go ⊻ Do) 55) (ROL64 (ku ⊻ Du) 39) (ROL64 (ma ⊻ Da) 41) (ROL64 (se ⊻ De) 2).

Definition stage_E (i : nat) (B : lanes) : lanes :=
  let '(Lanes ba be bi bo bu ga ge gi go gu ka ke ki ko ku ma me mi mo mu sa se si so su) := B in
  Lanes (ba ⊻ (be ∥ bi) ⊻ RC i) (be ⊻ (lnot64 bi ∥ bo)) (bi ⊻ (bo & bu)) (bo ⊻ (bu ∥ ba)) (bu ⊻ (ba & be))
    (ga ⊻ (ge ∥ gi)) (ge ⊻ (gi & go)) (gi ⊻ (go ∥ lnot64 gu)) (go ⊻ (gu ∥ ga)) (gu ⊻ (ga & ge))
    (ka ⊻ (ke ∥ ki)) (ke ⊻ (ki & ko)) (ki ⊻ (lnot64 ko & ku)) (lnot64 ko ⊻ (ku ∥ ka)) (ku ⊻ (ka & ke))
    (ma ⊻ (me & mi)) (me ⊻ (mi ∥ mo)) (mi ⊻ (lnot64 mo ∥ mu)) (lnot64 mo ⊻ (mu & ma)) (mu ⊻ (ma ∥ me))
    (sa ⊻ (lnot64 se & si)) (lnot64 se ⊻ (si ∥ so)) (si ⊻ (so & su)) (so ⊻ (su ∥ sa)) (su ⊻ (sa & se)).

Lemma round_stages i C A :
  thetaRhoPiChiIotaPrepareTheta i C A
  = (prepareTheta (stage_E i (stage_B (stage_D C) A)), stage_E i (stage_B (stage_D C) A)).
Proof. by destruct C, A. Qed.

Lemma last_stages i C A : thetaRhoPiChiIota i C A = stage_E i (stage_B (stage_D C) A).
Proof. by destruct C, A. Qed.

(** Which words of the three stages are complemented when the lanes are. *)
Definition flip_D (D : parities) : parities :=
  let '(Parities Da De Di Do Du) := D in Parities (lnot64 Da) De Di (lnot64 Do) Du.

Definition flip_C (C : parities) : parities :=
  let '(Parities Ca Ce Ci Co Cu) := C in
  Parities (lnot64 Ca) (lnot64 Ce) (lnot64 Ci) (lnot64 Co) Cu.

Definition flip_B (B : lanes) : lanes :=
  let '(Lanes ba be bi bo bu ga ge gi go gu ka ke ki ko ku ma me mi mo mu sa se si so su) := B in
  Lanes (lnot64 ba) be (lnot64 bi) (lnot64 bo) bu (lnot64 ga) ge (lnot64 gi) go gu
    (lnot64 ka) ke (lnot64 ki) ko ku ma (lnot64 me) mi (lnot64 mo) (lnot64 mu)
    (lnot64 sa) se si (lnot64 so) su.

Ltac push_lnot :=
  repeat first [ rewrite lxor_lnot64_l | rewrite lxor_lnot64_r
               | rewrite ROL64_lnot64 by lia | rewrite lnot64_lnot64 ].

Lemma flip_parities A : prepareTheta (flip A) = flip_C (prepareTheta A).
Proof. destruct A. cbn. f_equal; by push_lnot. Qed.

Lemma flip_stage_D C : stage_D (flip_C C) = flip_D (stage_D C).
Proof. destruct C. cbn. f_equal; by push_lnot. Qed.

Lemma flip_stage_B D A : stage_B (flip_D D) (flip A) = flip_B (stage_B D A).
Proof. destruct D, A. cbn [stage_B flip_D flip flip_B]. f_equal; by push_lnot. Qed.

(** The chi and iota steps on the lanes themselves. *)
Definition stage_chi (i : nat) (B : lanes) : lanes :=
  let '(Lanes ba be bi bo bu ga ge gi go gu ka ke ki ko ku ma me mi mo mu sa se si so su) := B in
  let f x y z := x ⊻ (lnot64 y & z) in
  Lanes (f ba be bi ⊻ RC i) (f be bi bo) (f bi bo bu) (f bo bu ba) (f bu ba be)
    (f ga ge gi) (f ge gi go) (f gi go gu) (f go gu ga) (f gu ga ge)
    (f ka ke ki) (f ke ki ko) (f ki ko ku) (f ko ku ka) (f ku ka ke)
    (f ma me mi) (f me mi mo) (f mi mo mu) (f mo mu ma) (f mu ma me)
    (f sa se si) (f se si so) (f si so su) (f so su sa) (f su sa se).

(** Equality of words by their bits, each a propositional identity. *)
Ltac by_bits :=
  apply Z.bits_inj'; intros j Hj;
  repeat (rewrite Z.lxor_spec || rewrite Z.land_spec || rewrite Z.lor_spec || rewrite testbit_lnot64 by done);
  destruct (Z.ltb_spec j 64);
  [ repeat match goal with |- context [Z.testbit ?x j] => destruct (Z.testbit x j) end; reflexivity
  | repeat match goal with H : in_u64 ?x |- context [Z.testbit ?x j] =>
      rewrite (in_u64_testbit x j H) by done end; try reflexivity ].

Lemma flip_stage_E i B : lanes_ok B → stage_E i (flip_B B) = flip (stage_chi i B).
Proof.
  intros H. pose proof (in_u64_RC i). destruct B. unfold lanes_ok, lanes_list in H.
  rewrite !Forall_cons_iff in H. destruct_and!. cbn [stage_E flip_B flip stage_chi]. f_equal; by_bits.
Qed.

(** The lanes stay 64-bit words. *)
Lemma stage_B_ok D A :
  lanes_ok A → (let '(Parities a e i o u) := D in Forall in_u64 [a; e; i; o; u]) →
  lanes_ok (stage_B D A).
Proof.
  destruct D, A. unfold lanes_ok, lanes_list. cbn [stage_B]. rewrite !Forall_cons_iff.
  intros ? ?. destruct_and!. split_and!; auto using Forall_nil_2 with u64 lia.
Qed.

Lemma stage_chi_ok i B : lanes_ok B → lanes_ok (stage_chi i B).
Proof.
  destruct B. unfold lanes_ok, lanes_list. cbn [stage_chi]. rewrite !Forall_cons_iff.
  intros ?. destruct_and!. split_and!; auto using Forall_nil_2 with u64.
Qed.

Lemma stage_D_ok A :
  lanes_ok A → let '(Parities a e i o u) := stage_D (prepareTheta A) in Forall in_u64 [a; e; i; o; u].
Proof.
  destruct A. unfold lanes_ok, lanes_list. cbn [stage_D prepareTheta]. rewrite !Forall_cons_iff.
  intros ?. destruct_and!. split_and!; auto 10 using Forall_nil_2 with u64 lia.
Qed.

(** One round on the uncomplemented lanes is the round of the standard. *)
Lemma round_constants_ok i : (i < 24)%nat → Fips.round_constant i = RC i.
Proof.
  intros Hi. do 24 (destruct i as [|i]; [by vm_compute |]). lia.
Qed.

Lemma rot_0 x : in_u64 x → Fips.rot x 0 = x.
Proof.
  intros [? ?]. unfold Fips.rot. change (64 - 0) with 64. rewrite Z.mul_1_r, Z.mod_small, Z.div_small by done. lia.
Qed.

Definition step (i : nat) (A : lanes) : lanes :=
  stage_chi i (stage_B (stage_D (prepareTheta A)) A).

Lemma in_u64_rot x n : 0 <= n <= 64 → in_u64 x → in_u64 (Fips.rot x n).
Proof. intros. rewrite <-ROL64_rot by done. by apply in_u64_ROL64. Qed.
#[local] Hint Resolve in_u64_rot : u64.

(** Evaluation of one step of the standard on the 25 named lanes. *)
Ltac eval_step f :=
  match goal with |- context [f ?l] =>
    let r := eval cbv -[Z.lxor Z.land lnot64 Fips.rot RC] in (f l) in change (f l) with r end.

Lemma step_fips i A :
  (i < 24)%nat → lanes_ok A → lanes_list (step i A) = Fips.Rnd i (lanes_list A).
Proof.
  intros Hi H. unfold Fips.Rnd, Fips.iota. rewrite round_constants_ok by done. unfold step.
  destruct A. unfold lanes_ok, lanes_list in H. rewrite !Forall_cons_iff in H. destruct_and!.
  cbn [stage_D stage_B stage_chi prepareTheta lanes_list].
  repeat match goal with |- context [ROL64 ?x ?n] =>
    rewrite (ROL64_rot x n) by (lia || auto 20 with u64 lia) end.
  eval_step Fips.theta. eval_step Fips.rho. eval_step Fips.pi. eval_step Fips.chi.
  rewrite rot_0 by auto 20 with u64 lia. reflexivity.
Qed.

Lemma step_ok i A : lanes_ok A → lanes_ok (step i A).
Proof. intros. apply stage_chi_ok, stage_B_ok; [done | by apply stage_D_ok]. Qed.

(** A round of the code on complemented lanes. *)
Lemma round_flip i A :
  lanes_ok A →
  thetaRhoPiChiIotaPrepareTheta i (prepareTheta (flip A)) (flip A)
  = (prepareTheta (flip (step i A)), flip (step i A)).
Proof.
  intros HA. rewrite round_stages, flip_parities, flip_stage_D, flip_stage_B.
  rewrite flip_stage_E by (apply stage_B_ok; [done | by apply stage_D_ok]). done.
Qed.

Lemma last_flip i A :
  lanes_ok A → thetaRhoPiChiIota i (prepareTheta (flip A)) (flip A) = flip (step i A).
Proof.
  intros HA. rewrite last_stages, flip_parities, flip_stage_D, flip_stage_B.
  by rewrite flip_stage_E by (apply stage_B_ok; [done | by apply stage_D_ok]).
Qed.

Lemma steps_ok l A : lanes_ok A → lanes_ok (foldl (λ A i, step i A) A l).
Proof. revert A. induction l as [|i l IH]; intros A HA; [done |]. apply IH, step_ok, HA. Qed.

Lemma steps_fips l A :
  lanes_ok A → Forall (λ i, (i < 24)%nat) l →
  lanes_list (foldl (λ A i, step i A) A l) = foldl (λ a i, Fips.Rnd i a) (lanes_list A) l.
Proof.
  revert A. induction l as [|i l IH]; intros A HA Hl; [done |]. apply Forall_cons_iff in Hl as [Hi Hl].
  cbn [foldl]. rewrite IH, step_fips by (done || by apply step_ok). done.
Qed.

(** Both unrolled sequences of rounds are the steps from [24 - nr] to 23. *)
Ltac unroll_rounds :=
  repeat (rewrite round_flip by (repeat apply step_ok; done); cbv beta iota);
  rewrite last_flip by (repeat apply step_ok; done).

Lemma rounds24_steps A : lanes_ok A → rounds24 (flip A) = flip (foldl (λ A i, step i A) A (seq 0 24)).
Proof. intros HA. unfold rounds24. cbv zeta. unroll_rounds. by cbn [foldl seq]. Qed.

Lemma rounds12_steps A : lanes_ok A → rounds12 (flip A) = flip (foldl (λ A i, step i A) A (seq 12 12)).
Proof. intros HA. unfold rounds12. cbv zeta. unroll_rounds. by cbn [foldl seq]. Qed.

Lemma flip_flip A : flip (flip A) = A.
Proof. destruct A. cbn. by rewrite !lnot64_lnot64. Qed.

Lemma rounds24_ok A :
  lanes_ok A → lanes_list (flip (rounds24 (flip A))) = Fips.keccak_f (lanes_list A) ∧ lanes_ok (flip (rounds24 (flip A))).
Proof.
  intros HA. rewrite rounds24_steps, flip_flip by done. split; [| by apply steps_ok].
  apply steps_fips; [done |]. by apply Forall_seq; lia.
Qed.

Lemma rounds12_ok A :
  lanes_ok A → lanes_list (flip (rounds12 (flip A))) = Fips.keccak_p 12 (lanes_list A).
Proof.
  intros HA. rewrite rounds12_steps, flip_flip by done.
  apply steps_fips; [done |]. by apply Forall_seq; lia.
Qed.

(** The permutation of the all-zero state. *)
Example keccak_f_zero_lane0 :
  head (lanes_list (flip (rounds24 (flip (Lanes 0 0 0 0 0 0 0 0 0 0 0 0 0 0 0 0 0 0 0 0 0 0 0 0 0)))))
  = Some 0xF1258F7940E1DDE7.
Proof. by vm_compute. Qed.
