(* ===== verification/KeccakP.v ===== *)
(** Byte-oriented access to the Keccak state: the functions of
    KeccakP-1600-opt64.c that initialise the state, add bytes to it, permute it
    and extract bytes from it, with the lane-splitting macros of
    SnP-Relaned.h, for a little-endian machine.

    The state is the list of its 200 bytes in memory order; a [uint64_t] access
    reads or writes eight of them.  [KeccakLow] is the interface the sponge
    functions of xkcp_sha3.c call through function pointers: operations on a
    state and what they do to the 200 bytes the state stands for.  The
    functions of this file are an instance. *)
From S2P Require Import Prelude Keccak.

Open Scope c_scope.

(** ** The code *)

(** [((uint64_t * )state)[i]] read and written. *)
Definition lane_of (st : list Z) (i : nat) : option Z :=
  b ← read st (i * 8) 8; Some (le_val b).
Definition set_lane (st : list Z) (i : nat) (v : Z) : option (list Z) :=
  write st (i * 8) (le_bytes 8 v).

Definition KeccakP1600_Initialize (state : list Z) : option (list Z) :=
  st ← write state 0 (replicate 200 0);
  st ← set_lane st 1 (lnot64 0);
  st ← set_lane st 2 (lnot64 0);
  st ← set_lane st 8 (lnot64 0);
  st ← set_lane st 12 (lnot64 0);
  st ← set_lane st 17 (lnot64 0);
  set_lane st 20 (lnot64 0).

Definition KeccakP1600_AddBytesInLane (state : list Z) (lanePosition : nat) (data : list Z)
    (offset length : nat) : option (list Z) :=
  match length with
  | O => Some state
  | _ =>
      lane ← (match length with
              | 1%nat => data !! 0%nat
              | _ => d ← read data 0 length; Some (le_val (d ++ replicate (8 - length) 0))
              end);
      let lane := u64 (Z.shiftl lane (Z.of_nat offset * 8)) in
      cur ← lane_of state lanePosition;
      set_lane state lanePosition (cur ⊻ lane)
  end.

(** [state[i] ^= data[i]] on bytes, and on words. *)
Definition xor_byte (data : list Z) (i : nat) (state : list Z) : option (list Z) :=
  s ← state !! i; d ← data !! i; Some (<[i := s ⊻ d]> state).
Definition xor_word (data : list Z) (i : nat) (state : list Z) : option (list Z) :=
  s ← lane_of state i; d ← lane_of data i; set_lane state i (s ⊻ d).

(** A loop [for ( ; i + k <= laneCount; i += k)] whose body adds the words
    [i .. i + k - 1]; it returns the counter with the state. *)
Definition add_words (k laneCount : nat) (data : list Z) (s : nat * list Z)
  : option (nat * list Z) :=
  loop (S laneCount) (λ '(i, state),
    if decide (i + k <= laneCount)%nat then
      state ← for_loop k i (xor_word data) state;
      Some (Next ((i + k)%nat, state))
    else Some (Done (i, state))) s.

(** [misaligned]: whether one of the pointers is not a multiple of 8. *)
Definition KeccakP1600_AddLanes (misaligned : bool) (state data : list Z) (laneCount : nat)
  : option (list Z) :=
  if misaligned then for_loop (laneCount * 8) 0 (xor_byte data) state
  else
    s ← add_words 8 laneCount data (0%nat, state);
    s ← add_words 4 laneCount data s;
    '(i, state) ← add_words 2 laneCount data s;
    if decide (i < laneCount)%nat then xor_word data i state else Some state.

Definition KeccakP1600_AddByte (state : list Z) (byte : Z) (offset : nat) : option (list Z) :=
  s ← state !! offset; Some (<[offset := s ⊻ byte]> state).

(** The walk over the lanes that [SnP_AddBytes], [SnP_ExtractBytes] and their
    relatives share: [lane acc position done offset n] handles [n] bytes of one
    lane, the first of them at index [done] of the data. *)
Definition SnP_walk {T} (lane : T → nat → nat → nat → nat → option T)
    (offset length : nat) (acc : T) : option T :=
  loop (S length) (λ '(acc, sizeLeft, lanePosition, offsetInLane, curData),
    if decide (0 < sizeLeft)%nat then
      let bytesInLane := (8 - offsetInLane)%nat in
      let bytesInLane := if decide (sizeLeft < bytesInLane)%nat then sizeLeft else bytesInLane in
      acc ← lane acc lanePosition curData offsetInLane bytesInLane;
      Some (Next (acc, (sizeLeft - bytesInLane)%nat, S lanePosition, 0%nat,
                  (curData + bytesInLane)%nat))
    else Some (Done acc)) (acc, length, (offset / 8)%nat, (offset mod 8)%nat, 0%nat).

Definition SnP_AddBytes (misaligned : bool) (state data : list Z) (offset length : nat)
  : option (list Z) :=
  if decide (offset = 0%nat) then
    state ← KeccakP1600_AddLanes misaligned state data (length / 8);
    KeccakP1600_AddBytesInLane state (length / 8) (drop (length / 8 * 8) data) 0 (length mod 8)
  else
    SnP_walk (λ state lanePosition curData offsetInLane bytesInLane,
      KeccakP1600_AddBytesInLane state lanePosition (drop curData data) offsetInLane bytesInLane)
      offset length state.

Definition KeccakP1600_AddBytes (misaligned : bool) (state data : list Z) (offset length : nat)
  : option (list Z) := SnP_AddBytes misaligned state data offset length.

Definition copyFromState (st : list Z) : option lanes :=
  Aba ← lane_of st 0; Abe ← lane_of st 1; Abi ← lane_of st 2; Abo ← lane_of st 3; Abu ← lane_of st 4;
  Aga ← lane_of st 5; Age ← lane_of st 6; Agi ← lane_of st 7; Ago ← lane_of st 8; Agu ← lane_of st 9;
  Aka ← lane_of st 10; Ake ← lane_of st 11; Aki ← lane_of st 12; Ako ← lane_of st 13; Aku ← lane_of st 14;
  Ama ← lane_of st 15; Ame ← lane_of st 16; Ami ← lane_of st 17; Amo ← lane_of st 18; Amu ← lane_of st 19;
  Asa ← lane_of st 20; Ase ← lane_of st 21; Asi ← lane_of st 22; Aso ← lane_of st 23; Asu ← lane_of st 24;
  Some (Lanes Aba Abe Abi Abo Abu Aga Age Agi Ago Agu Aka Ake Aki Ako Aku Ama Ame Ami Amo Amu Asa Ase Asi Aso Asu).

Definition copyToState (st : list Z) (X : lanes) : option (list Z) :=
  let '(Lanes ba be bi bo bu ga ge gi go gu ka ke ki ko ku ma me mi mo mu sa se si so su) := X in
  st ← set_lane st 0 ba; st ← set_lane st 1 be; st ← set_lane st 2 bi; st ← set_lane st 3 bo; st ← set_lane st 4 bu;
  st ← set_lane st 5 ga; st ← set_lane st 6 ge; st ← set_lane st 7 gi; st ← set_lane st 8 go; st ← set_lane st 9 gu;
  st ← set_lane st 10 ka; st ← set_lane st 11 ke; st ← set_lane st 12 ki; st ← set_lane st 13 ko; st ← set_lane st 14 ku;
  st ← set_lane st 15 ma; st ← set_lane st 16 me; st ← set_lane st 17 mi; st ← set_lane st 18 mo; st ← set_lane st 19 mu;
  st ← set_lane st 20 sa; st ← set_lane st 21 se; st ← set_lane st 22 si; st ← set_lane st 23 so; st ← set_lane st 24 su;
  Some st.

Definition KeccakP1600_Permute_24rounds (state : list Z) : option (list Z) :=
  A ← copyFromState state;
  copyToState state (rounds24 A).

Definition KeccakP1600_Permute_12rounds (state : list Z) : option (list Z) :=
  A ← copyFromState state;
  copyToState state (rounds12 A).

(** The lanes that are stored complemented. *)
Definition complemented (lanePosition : nat) : bool :=
  bool_decide (lanePosition = 1 ∨ lanePosition = 2 ∨ lanePosition = 8 ∨ lanePosition = 12
               ∨ lanePosition = 17 ∨ lanePosition = 20)%nat.

(** The bytes stored at [data]. *)
Definition KeccakP1600_ExtractBytesInLane (state : list Z) (lanePosition offset length : nat)
  : option (list Z) :=
  lane ← lane_of state lanePosition;
  let lane := if complemented lanePosition then lnot64 lane else lane in
  read (le_bytes 8 lane) offset length.

(** [for (i = 0; i < 8; i++) data[8*lane+i] = ~data[8*lane+i]] *)
Definition COMPL (lane : nat) (data : list Z) : option (list Z) :=
  for_loop 8 0 (λ i data,
    b ← data !! (8 * lane + i)%nat;
    Some (<[(8 * lane + i)%nat := u8 (Z.lnot b)]> data)) data.

Definition KeccakP1600_ExtractLanes (state : list Z) (laneCount : nat) : option (list Z) :=
  data ← read state 0 (laneCount * 8);
  if decide (1 < laneCount)%nat then
    data ← COMPL 1 data;
    if decide (2 < laneCount)%nat then
      data ← COMPL 2 data;
      if decide (8 < laneCount)%nat then
        data ← COMPL 8 data;
        if decide (12 < laneCount)%nat then
          data ← COMPL 12 data;
          if decide (17 < laneCount)%nat then
            data ← COMPL 17 data;
            if decide (20 < laneCount)%nat then COMPL 20 data
            else Some data
          else Some data
        else Some data
      else Some data
    else Some data
  else Some data.

Definition SnP_ExtractBytes (state : list Z) (offset length : nat) : option (list Z) :=
  if decide (offset = 0%nat) then
    data ← KeccakP1600_ExtractLanes state (length / 8);
    rest ← KeccakP1600_ExtractBytesInLane state (length / 8) 0 (length mod 8);
    Some (data ++ rest)
  else
    SnP_walk (λ data lanePosition _ offsetInLane bytesInLane,
      rest ← KeccakP1600_ExtractBytesInLane state lanePosition offsetInLane bytesInLane;
      Some (data ++ rest)) offset length [].

Definition KeccakP1600_ExtractBytes (state : list Z) (offset length : nat) : option (list Z) :=
  SnP_ExtractBytes state offset length.

(** ** The interface of the sponge *)

(** The contents of a state's storage. *)
Definition kst (s : list Z) : Prop := length s = 200%nat ∧ bytes s.

(** The permutation of FIPS 202 on the 200 bytes of the state (B.1: byte [8 i + j]
    holds bits [8 j] to [8 j + 7] of lane [i]). *)
Definition bytes_lanes (s : list Z) : list Z := (λ i, le_val (slot 8 s i)) <$> seq 0 25.
Definition lanes_bytes (l : list Z) : list Z := l ≫= le_bytes 8.
Definition keccak_f_bytes (s : list Z) : list Z := lanes_bytes (Fips.keccak_f (bytes_lanes s)).
Arguments keccak_f_bytes : simpl never.

(** Exclusive or of byte strings, and [data] placed at [offset] of 200 zero
    bytes. *)
Definition xorv (a b : list Z) : list Z := zip_with Z.lxor a b.
Definition at_off (offset : nat) (data : list Z) : list Z :=
  replicate offset 0 ++ data ++ replicate (200 - offset - length data) 0.

(** The operations behind the function pointers of xkcp_sha3.c.  [kview s] are
    the 200 bytes that the storage [s] stands for. *)
Class KeccakLow := {
  Keccak_Initialize : list Z → option (list Z);
  Keccak_AddByte : list Z → Z → nat → option (list Z);
  Keccak_AddBytes : list Z → list Z → nat → nat → option (list Z);
  Keccak_Permute : list Z → option (list Z);
  Keccak_ExtractBytes : list Z → nat → nat → option (list Z);
}.

Class KeccakLowLaws `{KeccakLow} := {
  kview : list Z → list Z;
  kview_ok s : kst s → kst (kview s);
  Initialize_law s :
    length s = 200%nat →
    wp (Keccak_Initialize s) (λ s', kst s' ∧ kview s' = replicate 200 0);
  AddByte_law s b off :
    kst s → in_u8 b → (off < 200)%nat →
    wp (Keccak_AddByte s b off) (λ s', kst s' ∧ kview s' = xorv (kview s) (at_off off [b]));
  AddBytes_law s data off n :
    kst s → bytes data → (n <= length data)%nat → (off + n <= 200)%nat →
    (n < 200)%nat →
    wp (Keccak_AddBytes s data off n) (λ s',
      kst s' ∧ kview s' = xorv (kview s) (at_off off (take n data)));
  Permute_law s :
    kst s → wp (Keccak_Permute s) (λ s', kst s' ∧ kview s' = keccak_f_bytes (kview s));
  ExtractBytes_law s off n :
    kst s → (off + n <= 200)%nat → (n < 200)%nat →
    Keccak_ExtractBytes s off n = Some (take n (drop off (kview s)));
}.

(** ** Lemmas on words *)

Lemma le_val_zeros n : le_val (replicate n 0) = 0.
Proof. induction n as [|n IH]; [done |]. cbn [replicate le_val]. by rewrite IH. Qed.

(** Exclusive or of words is exclusive or of their bytes. *)
Lemma u8_lxor a b : u8 (a ⊻ b) = u8 a ⊻ u8 b.
Proof.
  unfold u8. apply Z.bits_inj'. intros i Hi. rewrite Z.lxor_spec.
  destruct (decide (i < 8)).
  - rewrite !Z.mod_pow2_bits_low by lia. apply Z.lxor_spec.
  - by rewrite !Z.mod_pow2_bits_high by lia.
Qed.

Lemma le_bytes_lxor n a b : le_bytes n (a ⊻ b) = xorv (le_bytes n a) (le_bytes n b).
Proof.
  revert a b. induction n as [|n IH]; intros a b; [done |]. cbn [le_bytes]. unfold xorv in *. cbn [zip_with].
  f_equal; [apply u8_lxor |]. rewrite <-IH. f_equal.
  change 8 with (Z.of_nat 8). rewrite <-!shiftr_div. apply Z.shiftr_lxor.
Qed.

(** ** Exclusive or of byte strings *)

Lemma length_xorv a b : length a = length b → length (xorv a b) = length a.
Proof. intros. unfold xorv. rewrite length_zip_with. lia. Qed.

Lemma xorv_assoc a b c : xorv (xorv a b) c = xorv a (xorv b c).
Proof.
  revert b c. induction a as [|x a IH]; intros [|y b] [|z c]; cbn; try done.
  f_equal; [apply Z.lxor_assoc | apply IH].
Qed.

Lemma xorv_comm a b : xorv a b = xorv b a.
Proof.
  revert b. induction a as [|x a IH]; intros [|y b]; cbn; try done. f_equal; [apply Z.lxor_comm | apply IH].
Qed.

Lemma xorv_zero a n : length a = n → xorv a (replicate n 0) = a.
Proof. intros <-. induction a as [|x a IH]; cbn; [done |]. f_equal; [apply Z.lxor_0_r | apply IH]. Qed.

Lemma xorv_self a n : length a = n → xorv a a = replicate n 0.
Proof. intros <-. induction a as [|x a IH]; cbn; [done |]. f_equal; [apply Z.lxor_nilpotent | apply IH]. Qed.

Lemma xorv_app a b c d : length a = length c → xorv (a ++ b) (c ++ d) = xorv a c ++ xorv b d.
Proof. intros. by apply zip_with_app. Qed.

Lemma xorv_take n a b : take n (xorv a b) = xorv (take n a) (take n b).
Proof. apply zip_with_take. Qed.
Lemma xorv_drop n a b : drop n (xorv a b) = xorv (drop n a) (drop n b).
Proof. apply zip_with_drop. Qed.

Lemma in_u8_lxor a b : in_u8 a → in_u8 b → in_u8 (a ⊻ b).
Proof.
  intros Ha Hb. rewrite <-(u8_small a), <-(u8_small b), <-u8_lxor by done. apply u8_range.
Qed.

Lemma xorv_bytes a b : bytes a → bytes b → bytes (xorv a b).
Proof.
  intros Ha. revert b. induction Ha as [|x a Hx Ha IH]; intros [|y b] Hb; cbn; try by constructor.
  apply Forall_cons_iff in Hb as [Hy Hb]. constructor; [by apply in_u8_lxor | by apply IH].
Qed.

Lemma replicate_0_bytes n : bytes (replicate n 0).
Proof. apply Forall_replicate. done. Qed.

Lemma length_at_off off d : (off + length d <= 200)%nat → length (at_off off d) = 200%nat.
Proof. intros. unfold at_off. rewrite !length_app, !length_replicate. lia. Qed.

Lemma at_off_bytes off d : bytes d → bytes (at_off off d).
Proof. intros. unfold at_off. repeat apply Forall_app_2; auto using replicate_0_bytes. Qed.

Lemma at_off_nil off : (off <= 200)%nat → at_off off [] = replicate 200 0.
Proof. intros. unfold at_off. rewrite app_nil_l, <-replicate_add. f_equal. simpl. lia. Qed.

(** Data placed in two pieces. *)
Lemma at_off_app off d1 d2 :
  (off + length d1 + length d2 <= 200)%nat →
  at_off off (d1 ++ d2) = xorv (at_off off d1) (at_off (off + length d1) d2).
Proof.
  intros H. unfold at_off. rewrite replicate_add, <-!app_assoc.
  rewrite xorv_app by done. rewrite xorv_zero by apply length_replicate. f_equal.
  rewrite xorv_app by (by rewrite length_replicate). rewrite xorv_zero by done. f_equal.
  rewrite length_app.
  replace (200 - off - length d1)%nat with (length d2 + (200 - off - (length d1 + length d2)))%nat by lia.
  rewrite replicate_add, xorv_app by (by rewrite length_replicate). f_equal.
  - rewrite xorv_comm. symmetry. by apply xorv_zero.
  - symmetry. apply xorv_zero. rewrite length_replicate. lia.
Qed.

(** ** Storage *)

Lemma length_lanes_bytes l : length (lanes_bytes l) = (length l * 8)%nat.
Proof.
  unfold lanes_bytes. induction l as [|x l IH]; [done |]. cbn [mbind list_bind length].
  rewrite length_app, length_le_bytes. fold (mbind (M := list) (le_bytes 8) l) in *. rewrite IH. lia.
Qed.

Lemma lanes_bytes_bytes l : bytes (lanes_bytes l).
Proof.
  induction l as [|x l IH]; [constructor |]. apply Forall_app_2; [apply le_bytes_bytes | apply IH].
Qed.

Lemma lanes_bytes_kst l : length l = 25%nat → kst (lanes_bytes l).
Proof. intros H. split; [by rewrite length_lanes_bytes, H | apply lanes_bytes_bytes]. Qed.

Lemma kst_xorv s t : kst s → length t = 200%nat → bytes t → kst (xorv s t).
Proof. intros [Hl Hb] Ht Hc. split; [rewrite length_xorv; lia | by apply xorv_bytes]. Qed.

Lemma kst_at_off s off d : kst s → bytes d → (off + length d <= 200)%nat → kst (xorv s (at_off off d)).
Proof. intros. apply kst_xorv; [done | by apply length_at_off | by apply at_off_bytes]. Qed.

Lemma keccak_f_bytes_kst s : kst (keccak_f_bytes s).
Proof. by apply lanes_bytes_kst. Qed.
