(* ===== verification/KeccakPlain.v ===== *)
(** The plain 64-bit implementation of the Keccak state access (KeccakP.v)
    keeps the contract [KeccakLowLaws]: adding bytes is an exclusive or of the
    200 bytes the memory stands for, extracting reads them, and the unrolled
    rounds on complemented lanes are Keccak-f[1600] of FIPS 202. *)
From S2P Require Import Prelude Keccak KeccakP.

Open Scope c_scope.

(** ** The state as lanes *)

Lemma lanes_bytes_app l1 l2 : lanes_bytes (l1 ++ l2) = lanes_bytes l1 ++ lanes_bytes l2.
Proof. apply bind_app. Qed.

(** A lane of the memory, in the middle of the others. *)
Lemma lanes_bytes_split l i x :
  l !! i = Some x →
  lanes_bytes l = lanes_bytes (take i l) ++ le_bytes 8 x ++ lanes_bytes (drop (S i) l)
  ∧ length (lanes_bytes (take i l)) = (i * 8)%nat.
Proof.
  intros Hi. split.
  - rewrite <-(take_drop_middle l i x Hi) at 1. by rewrite lanes_bytes_app.
  - rewrite length_lanes_bytes, length_take. apply lookup_lt_Some in Hi. lia.
Qed.

Lemma lane_of_lanes l i x : l !! i = Some x → in_u64 x → lane_of (lanes_bytes l) i = Some x.
Proof.
  intros Hi Hx. destruct (lanes_bytes_split _ _ _ Hi) as [-> Hl]. unfold lane_of.
  rewrite read_app by (rewrite ?length_le_bytes; done). cbn [mbind option_bind]. by rewrite le_bytes_lane.
Qed.

Lemma set_lane_lanes l i v :
  (i < length l)%nat → set_lane (lanes_bytes l) i v = Some (lanes_bytes (<[i := v]> l)).
Proof.
  intros Hi. destruct (lookup_lt_is_Some_2 l i Hi) as [x Hx].
  destruct (lanes_bytes_split _ _ _ Hx) as [-> Hl]. unfold set_lane.
  rewrite write_app by (rewrite ?length_le_bytes; done). f_equal.
  rewrite insert_take_drop by done. by rewrite lanes_bytes_app.
Qed.

(** Every state is the bytes of its lanes. *)
Lemma kst_lanes s : kst s → s = lanes_bytes (bytes_lanes s).
Proof.
  intros [Hl Hb]. unfold lanes_bytes, bytes_lanes.
  rewrite list_fmap_bind, (slots_eq 8 25 s (slot 8 s)) at 1 by (done || lia).
  apply bind_seq_ext. intros i Hi. cbn [compose].
  rewrite <-(length_slot 8 s i) at 2 by lia. symmetry. apply le_bytes_le_val.
  unfold slot. by apply Forall_take, Forall_drop.
Qed.

Lemma length_bytes_lanes s : length (bytes_lanes s) = 25%nat.
Proof. unfold bytes_lanes. by rewrite length_fmap, length_seq. Qed.

Lemma bytes_lanes_u64 s : kst s → Forall in_u64 (bytes_lanes s).
Proof.
  intros [Hl Hb]. unfold bytes_lanes. apply Forall_fmap, Forall_seq. intros i Hi. cbn [compose].
  apply le_val_u64; [unfold slot; by apply Forall_take, Forall_drop |].
  apply length_slot. lia.
Qed.

Lemma bytes_lanes_bytes l :
  length l = 25%nat → Forall in_u64 l → bytes_lanes (lanes_bytes l) = l.
Proof.
  intros Hl Hu. apply list_eq_same_length with (n := 25%nat); [done | apply length_bytes_lanes |].
  intros i x y Hi Hx Hy. unfold bytes_lanes in Hx.
  apply list_lookup_fmap_Some in Hx as (j & -> & Hj). apply lookup_seq in Hj as [-> _]. cbn [Nat.add].
  assert (Hy' : in_u64 y) by (by eapply Forall_lookup_1).
  pose proof (lane_of_lanes l i y Hy Hy') as H. unfold lane_of in H.
  rewrite read_slot in H by (rewrite length_lanes_bytes; lia). by injection H as H.
Qed.

(** The lanes of an exclusive or. *)
Lemma lanes_bytes_xorv l m :
  length l = length m → lanes_bytes (zip_with Z.lxor l m) = xorv (lanes_bytes l) (lanes_bytes m).
Proof.
  revert m. induction l as [|x l IH]; intros [|y m] H; try done.
  unfold lanes_bytes in *. cbn [zip_with mbind list_bind]. rewrite xorv_app by (by rewrite !length_le_bytes).
  rewrite le_bytes_lxor. f_equal. apply IH. by injection H.
Qed.

(** Adding a word to one lane. *)
Lemma xor_lane_at s i v :
  kst s → (i < 25)%nat →
  (cur ← lane_of s i; set_lane s i (cur ⊻ v)) = Some (xorv s (at_off (i * 8) (le_bytes 8 v))).
Proof.
  intros Hs Hi. rewrite (kst_lanes s Hs). set (l := bytes_lanes s).
  assert (Hl : length l = 25%nat) by apply length_bytes_lanes.
  destruct (lookup_lt_is_Some_2 l i) as [x Hx]; [lia |].
  assert (Hx' : in_u64 x) by (eapply Forall_lookup_1; [by apply bytes_lanes_u64 | done]).
  rewrite (lane_of_lanes _ _ _ Hx Hx'). cbn [mbind option_bind]. rewrite set_lane_lanes by lia. f_equal.
  rewrite insert_take_drop, lanes_bytes_app by lia.
  destruct (lanes_bytes_split _ _ _ Hx) as [-> Hp]. unfold at_off.
  rewrite length_le_bytes, xorv_app by (by rewrite length_replicate).
  rewrite xorv_zero by done. f_equal. rewrite xorv_app by (by rewrite !length_le_bytes).
  cbn [lanes_bytes mbind list_bind]. rewrite le_bytes_lxor. f_equal. symmetry. apply xorv_zero.
  fold (mbind (M := list) (le_bytes 8) (drop (S i) l)). fold (lanes_bytes (drop (S i) l)).
  rewrite length_lanes_bytes, length_drop. lia.
Qed.

(** ** Adding bytes *)

(** The word that holds [d] from byte [off] on. *)
Lemma le_bytes_shifted d off :
  bytes d → (off + length d <= 8)%nat →
  le_bytes 8 (u64 (Z.shiftl (le_val d) (Z.of_nat off * 8)))
  = replicate off 0 ++ d ++ replicate (8 - off - length d) 0.
Proof.
  intros Hd Hl. set (l := replicate off 0 ++ d ++ replicate (8 - off - length d) 0).
  assert (Hb : bytes l) by (repeat apply Forall_app_2; auto using replicate_0_bytes).
  assert (Hn : length l = 8%nat).
  { unfold l. rewrite !length_app, !length_replicate. lia. }
  assert (Hv : le_val l = Z.shiftl (le_val d) (Z.of_nat off * 8)).
  { unfold l. rewrite !le_val_app, !le_val_zeros, length_replicate, Z.shiftl_mul_pow2 by lia.
    rewrite (Z.mul_comm 8). lia. }
  rewrite <-Hv, u64_small by (by apply le_val_u64). rewrite <-Hn at 1. by apply le_bytes_le_val.
Qed.

Lemma at_off_shift p off d n :
  (off + length d + n <= 8)%nat → (p * 8 + 8 <= 200)%nat → n = (8 - off - length d)%nat →
  at_off (p * 8) (replicate off 0 ++ d ++ replicate n 0) = at_off (p * 8 + off) d.
Proof.
  intros H1 H2 ->. unfold at_off. rewrite !length_app, !length_replicate, replicate_add, <-!app_assoc.
  do 3 f_equal. rewrite <-replicate_add. f_equal. lia.
Qed.

Lemma AddBytesInLane_ok s pos data off n :
  kst s → bytes data → (n <= length data)%nat → (off + n <= 8)%nat → (pos * 8 + off + n <= 200)%nat →
  KeccakP1600_AddBytesInLane s pos data off n = Some (xorv s (at_off (pos * 8 + off) (take n data))).
Proof.
  intros Hs Hd Hn Ho Hp.
  assert (Hb : bytes (take n data)) by (by apply Forall_take).
  assert (Hl : length (take n data) = n) by (rewrite length_take; lia).
  destruct n as [|n]; [cbn; rewrite at_off_nil, xorv_zero by (destruct Hs; lia); done |].
  assert (E : ∀ lane, lane = le_val (take (S n) data) →
    (cur ← lane_of s pos; set_lane s pos (cur ⊻ u64 (Z.shiftl lane (Z.of_nat off * 8))))
    = Some (xorv s (at_off (pos * 8 + off) (take (S n) data)))).
  { intros lane ->. rewrite xor_lane_at by (done || lia). do 2 f_equal.
    rewrite le_bytes_shifted by (done || lia). apply at_off_shift; lia. }
  unfold KeccakP1600_AddBytesInLane. destruct n as [|n].
  - destruct data as [|d data]; [simpl in Hn; lia |]. cbn [lookup list_lookup mbind option_bind].
    apply E. simpl. lia.
  - rewrite read_Some by lia. cbn [mbind option_bind]. apply E.
    rewrite le_val_app, le_val_zeros, drop_0. lia.
Qed.

Lemma AddByte_xorv s i x b :
  length s = 200%nat → s !! i = Some x → <[i := x ⊻ b]> s = xorv s (at_off i [b]).
Proof.
  intros Hl Hx. pose proof (lookup_lt_Some _ _ _ Hx). rewrite insert_take_drop by done.
  rewrite <-(take_drop_middle s i x Hx) at 3. unfold at_off. cbn [length].
  rewrite xorv_app by (rewrite length_take, length_replicate; lia).
  rewrite xorv_zero by (rewrite length_take; lia). f_equal. cbn. f_equal.
  symmetry. apply xorv_zero. rewrite length_drop. lia.
Qed.

(** The data added so far by a loop over bytes or words. *)
Definition added (s data : list Z) (n : nat) : list Z := xorv s (at_off 0 (take n data)).

Lemma added_0 s data : kst s → added s data 0 = s.
Proof. intros [Hl _]. unfold added. rewrite take_0, at_off_nil by lia. by apply xorv_zero. Qed.

Lemma added_kst s data n : kst s → bytes data → (n <= 200)%nat → kst (added s data n).
Proof. intros. apply kst_at_off; [done | by apply Forall_take | rewrite length_take; lia]. Qed.

Lemma added_app s data n m :
  (n + m <= length data)%nat → (n + m <= 200)%nat →
  added s data (n + m) = xorv (added s data n) (at_off n (take m (drop n data))).
Proof.
  intros H1 H2. unfold added. rewrite xorv_assoc. f_equal.
  replace (take (n + m) data) with (take n data ++ take m (drop n data))
    by (rewrite take_take_drop; done).
  rewrite at_off_app by (rewrite !length_take, length_drop; lia).
  by rewrite length_take, Nat.add_0_l, Nat.min_l by lia.
Qed.

Lemma xor_byte_ok s data i :
  kst s → bytes data → (S i <= length data)%nat → (S i <= 200)%nat →
  xor_byte data i (added s data i) = Some (added s data (S i)).
Proof.
  intros Hs Hd H1 H2. assert (Hk : kst (added s data i)) by (apply added_kst; auto; lia).
  destruct (lookup_lt_is_Some_2 (added s data i) i) as [x Hx]; [rewrite (proj1 Hk); lia |].
  destruct (lookup_lt_is_Some_2 data i) as [d Hd']; [lia |].
  unfold xor_byte. rewrite Hx, Hd'. cbn [mbind option_bind].
  rewrite (AddByte_xorv _ _ _ _ (proj1 Hk) Hx). rewrite <-Nat.add_1_r, added_app by lia.
  by rewrite (drop_S _ _ _ Hd').
Qed.

Lemma xor_word_ok s data i :
  kst s → bytes data → (S i * 8 <= length data)%nat → (S i * 8 <= 200)%nat →
  xor_word data i (added s data (i * 8)) = Some (added s data (S i * 8)).
Proof.
  intros Hs Hd H1 H2. assert (Hk : kst (added s data (i * 8))) by (apply added_kst; auto; lia).
  assert (Hr : lane_of data i = Some (le_val (take 8 (drop (i * 8) data)))).
  { unfold lane_of. by rewrite read_Some by lia. }
  unfold xor_word. rewrite Hr. cbn [mbind option_bind].
  rewrite (xor_lane_at _ i (le_val (take 8 (drop (i * 8) data))) Hk) by lia.
  replace (S i * 8)%nat with (i * 8 + 8)%nat by lia. rewrite added_app by lia. do 3 f_equal.
  rewrite <-le_bytes_le_val by (by apply Forall_take, Forall_drop).
  f_equal. rewrite length_take, length_drop. lia.
Qed.

Section add_lanes.
Context (s data : list Z) (laneCount : nat).
Context (Hs : kst s) (Hd : bytes data).
Context (Hlen : (laneCount * 8 <= length data)%nat) (Hcap : (laneCount * 8 <= 200)%nat).

Lemma words_loop k i :
  (i + k <= laneCount)%nat →
  wp (for_loop k i (xor_word data) (added s data (i * 8))) (λ t, t = added s data ((i + k) * 8)).
Proof using Hs Hd Hlen Hcap.
  intros Hk. apply (wp_for (λ j t, t = added s data (j * 8))); [done | | done].
  intros j t Hj ->. rewrite xor_word_ok by (done || lia). done.
Qed.

Lemma add_words_ok k i :
  (0 < k)%nat → (i <= laneCount)%nat →
  wp (add_words k laneCount data (i, added s data (i * 8))) (λ '(j, t),
    (i <= j <= laneCount)%nat ∧ (laneCount < j + k)%nat ∧ t = added s data (j * 8)).
Proof using Hs Hd Hlen Hcap.
  intros Hk Hi. unfold add_words.
  apply (wp_loop (λ f '(j, t), (i <= j <= laneCount)%nat ∧ (laneCount - j < f)%nat ∧ t = added s data (j * 8))).
  - split_and!; [lia | lia | lia | done].
  - intros f [j t] (H1 & H2 & ->). destruct f as [|f]; [lia |]. exists f. split; [done |].
    destruct (decide (j + k <= laneCount)%nat) as [Hle|Hgt].
    + eapply wp_then; [by apply words_loop |]. intros t ->. cbn. split_and!; [lia | lia | lia | done].
    + cbn. split_and!; [lia | lia | lia | done].
Qed.

Lemma AddLanes_ok misaligned :
  KeccakP1600_AddLanes misaligned s data laneCount = Some (added s data (laneCount * 8)).
Proof using Hs Hd Hlen Hcap.
  apply wp_eq. unfold KeccakP1600_AddLanes.
  destruct misaligned; rewrite <-(added_0 s data Hs) at 1.
  - apply (wp_for (λ i t, t = added s data i)); [done | | done].
    intros i t Hi ->. rewrite xor_byte_ok by (done || lia). done.
  - eapply wp_then; [apply (add_words_ok 8 0); lia |]. intros [i t] (H1 & _ & ->).
    eapply wp_then; [apply add_words_ok; lia |]. intros [j t] (H2 & _ & ->).
    eapply wp_then; [apply add_words_ok; lia |]. intros [m t] (H3 & H4 & ->). cbn.
    destruct (decide (m < laneCount)%nat) as [Hlt|].
    + rewrite xor_word_ok by (done || lia). cbn. f_equal. lia.
    + cbn. f_equal. lia.
Qed.
End add_lanes.

(** The walk over lanes visits the [length] bytes from [offset] in order. *)
Lemma wp_SnP_walk {T} (I : nat → T → Prop) lane offset length (acc : T) :
  I 0%nat acc →
  (∀ c acc pos o n, (0 < n)%nat → (c + n <= length)%nat → (o + n <= 8)%nat →
     (pos * 8 + o = offset + c)%nat → I c acc → wp (lane acc pos c o n) (I (c + n)%nat)) →
  wp (SnP_walk lane offset length acc) (I length).
Proof.
  intros H0 Hstep. unfold SnP_walk.
  apply (wp_loop (λ f '(acc, rem, pos, o, c), I c acc ∧ (c + rem = length)%nat ∧ (rem < f)%nat
    ∧ ((o < 8 ∧ pos * 8 + o = offset + c) ∨ rem = 0)%nat)).
  - split_and!; [done | lia | lia | left]. pose proof (Nat.div_mod_eq offset 8).
    pose proof (Nat.mod_upper_bound offset 8). lia.
  - intros f [[[[acc' rem] pos] o] c] (Hi & Hl & Hf & Hp). destruct f as [|f]; [lia |].
    exists f. split; [done |]. destruct (decide (0 < rem)%nat) as [Hpos|Hz]; cycle 1.
    { cbn. by replace length with c by lia. }
    destruct Hp as [[Ho Hp]|]; [| lia]. set (n := if decide (rem < 8 - o)%nat then rem else (8 - o)%nat).
    assert (Hn : (0 < n)%nat ∧ (n <= rem)%nat ∧ (o + n <= 8)%nat ∧ (n = rem ∨ o + n = 8)%nat)
      by (unfold n; case_decide; lia).
    destruct Hn as (Hn1 & Hn2 & Hn3 & Hn4).
    eapply wp_then; [apply Hstep; [done | lia | done | done | done] |]. intros acc'' Hi'.
    cbn. split_and!; [done | lia | lia | lia].
Qed.

Lemma AddBytes_raw misaligned s data off n :
  kst s → bytes data → (n <= length data)%nat → (off + n <= 200)%nat → (n < 200)%nat →
  KeccakP1600_AddBytes misaligned s data off n = Some (xorv s (at_off off (take n data))).
Proof.
  intros Hs Hd Hn Ho H200. unfold KeccakP1600_AddBytes, SnP_AddBytes.
  pose proof (Nat.div_mod_eq n 8) as Hdm. pose proof (Nat.mod_upper_bound n 8) as Hm.
  destruct (decide (off = 0)%nat) as [->|Hoff].
  - rewrite AddLanes_ok by (done || lia). cbn [mbind option_bind].
    rewrite AddBytesInLane_ok; [| apply added_kst; auto; lia | by apply Forall_drop | rewrite length_drop; lia | lia | lia].
    f_equal. rewrite Nat.add_0_r, <-added_app by lia. unfold added. do 3 f_equal. lia.
  - apply wp_eq. apply (wp_mono _ (λ t, t = xorv s (at_off off (take n data))));
      [| done].
    apply (wp_SnP_walk (λ c t, t = xorv s (at_off off (take c data)))).
    + rewrite take_0, at_off_nil by lia. symmetry. apply xorv_zero, (proj1 Hs).
    + intros c t pos o m Hm1 Hm2 Hm3 Hp ->.
      assert (Hc : length (take c data) = c) by (rewrite length_take; lia).
      rewrite AddBytesInLane_ok; [| | by apply Forall_drop | rewrite length_drop; lia | lia | lia].
      * cbn. rewrite xorv_assoc. f_equal. rewrite <-take_take_drop.
        rewrite at_off_app by (rewrite Hc, length_take, length_drop; lia). rewrite Hc. by rewrite Hp.
      * apply kst_at_off; [done | by apply Forall_take | lia].
Qed.

(** ** The bytes a state stands for *)

Definition mask_lanes : list Z :=
  (λ i, if complemented i then 2 ^ 64 - 1 else 0) <$> seq 0 25.
Definition mask : list Z := lanes_bytes mask_lanes.

(** The state with the complemented lanes restored. *)
Definition plain_view (s : list Z) : list Z := xorv s mask.

Lemma mask_kst : kst mask.
Proof. by apply lanes_bytes_kst. Qed.

Lemma plain_view_kst s : kst s → kst (plain_view s).
Proof. intros. apply kst_xorv; [done | apply mask_kst | apply mask_kst]. Qed.

Lemma plain_view_xorv s t : plain_view (xorv s t) = xorv (plain_view s) t.
Proof. unfold plain_view. by rewrite !xorv_assoc, (xorv_comm t). Qed.

Lemma Initialize_ok s :
  length s = 200%nat →
  KeccakP1600_Initialize s = Some mask.
Proof.
  intros Hl. unfold KeccakP1600_Initialize. unfold write at 1. rewrite decide_True by (rewrite Hl; done).
  unfold put. cbn [Nat.add]. rewrite length_replicate, drop_ge by lia.
  rewrite app_nil_r. cbn [mbind option_bind]. by vm_compute.
Qed.

(** *** The permutation *)

Definition lanes_of_list (l : list Z) : lanes :=
  let x i := nth i l 0 in
  Lanes (x 0%nat) (x 1%nat) (x 2%nat) (x 3%nat) (x 4%nat) (x 5%nat) (x 6%nat) (x 7%nat) (x 8%nat) (x 9%nat)
    (x 10%nat) (x 11%nat) (x 12%nat) (x 13%nat) (x 14%nat) (x 15%nat) (x 16%nat) (x 17%nat) (x 18%nat) (x 19%nat)
    (x 20%nat) (x 21%nat) (x 22%nat) (x 23%nat) (x 24%nat).

(** A list of 25 words, by its elements. *)
Ltac split25 l H :=
  do 25 (destruct l as [|? l]; [discriminate H |]); destruct l; [| discriminate H].

Lemma lanes_list_of_list l : length l = 25%nat → lanes_list (lanes_of_list l) = l.
Proof. intros H. split25 l H. done. Qed.

Lemma length_lanes_list A : length (lanes_list A) = 25%nat.
Proof. by destruct A. Qed.

Lemma copyFromState_ok l :
  length l = 25%nat → Forall in_u64 l → copyFromState (lanes_bytes l) = Some (lanes_of_list l).
Proof.
  intros H Hu. assert (E : ∀ i, (i < 25)%nat → lane_of (lanes_bytes l) i = Some (nth i l 0)).
  { intros i Hi. destruct (lookup_lt_is_Some_2 l i) as [x Hx]; [lia |].
    rewrite (nth_lookup_Some _ _ _ _ Hx). apply lane_of_lanes; [done |]. by eapply Forall_lookup_1. }
  unfold copyFromState. rewrite !E by lia. done.
Qed.

Lemma copyToState_ok l X :
  length l = 25%nat → copyToState (lanes_bytes l) X = Some (lanes_bytes (lanes_list X)).
Proof.
  intros H. split25 l H. destruct X. unfold copyToState.
  repeat (rewrite set_lane_lanes by (cbn [length]; lia); cbn [insert list_insert mbind option_bind]). done.
Qed.

(** The complemented lanes of the memory are [flip] of the state. *)
Lemma flip_mask A : lanes_list (flip A) = zip_with Z.lxor (lanes_list A) mask_lanes.
Proof.
  destruct A. cbn [lanes_list flip]. change mask_lanes with
    (lanes_list (flip (Lanes 0 0 0 0 0 0 0 0 0 0 0 0 0 0 0 0 0 0 0 0 0 0 0 0 0))).
  cbn [lanes_list flip zip_with]. unfold lnot64. by rewrite !Z.lxor_0_r, !Z.lxor_0_l.
Qed.

Lemma lanes_bytes_flip A : lanes_bytes (lanes_list (flip A)) = plain_view (lanes_bytes (lanes_list A)).
Proof. rewrite flip_mask, lanes_bytes_xorv by (by rewrite length_lanes_list). done. Qed.

(** The state in memory, by the lanes it stands for. *)
Lemma memory_lanes s :
  kst s → ∃ A, lanes_ok A ∧ s = lanes_bytes (lanes_list (flip A)) ∧ plain_view s = lanes_bytes (lanes_list A).
Proof.
  intros Hs. pose proof (kst_lanes _ (plain_view_kst s Hs)) as E.
  exists (lanes_of_list (bytes_lanes (plain_view s))).
  pose proof (length_bytes_lanes (plain_view s)) as Hn.
  unfold lanes_ok. rewrite lanes_list_of_list by done. split_and!.
  - by apply bytes_lanes_u64, plain_view_kst.
  - rewrite lanes_bytes_flip, lanes_list_of_list, <-E by done. unfold plain_view.
    rewrite xorv_assoc, (xorv_self mask 200), xorv_zero by apply Hs || apply mask_kst. done.
  - done.
Qed.

Lemma flip_ok A : lanes_ok A → lanes_ok (flip A).
Proof.
  destruct A. unfold lanes_ok, lanes_list. cbn [flip]. rewrite !Forall_cons_iff.
  intros ?. destruct_and!. split_and!; auto using Forall_nil_2 with u64.
Qed.

Lemma lanes_of_list_list A : lanes_of_list (lanes_list A) = A.
Proof. by destruct A. Qed.

(** The permutations differ in their rounds only. *)
Lemma permute_ok rounds F s :
  (∀ A, lanes_ok A → lanes_list (flip (rounds (flip A))) = F (lanes_list A)) → kst s →
  wp (A ← copyFromState s; copyToState s (rounds A)) (λ s',
    kst s' ∧ plain_view s' = lanes_bytes (F (bytes_lanes (plain_view s)))).
Proof.
  intros HF Hs. destruct (memory_lanes s Hs) as (A & HA & -> & Hv).
  rewrite copyFromState_ok by (apply length_lanes_list || by apply flip_ok).
  rewrite lanes_of_list_list. cbn [mbind option_bind].
  rewrite copyToState_ok by apply length_lanes_list. cbn [wp]. rewrite Hv. split; [apply lanes_bytes_kst, length_lanes_list |].
  rewrite <-lanes_bytes_flip, HF by done. by rewrite bytes_lanes_bytes by (apply length_lanes_list || done).
Qed.

Lemma Permute_24rounds_ok s :
  kst s → wp (KeccakP1600_Permute_24rounds s) (λ s', kst s' ∧ plain_view s' = keccak_f_bytes (plain_view s)).
Proof. apply (permute_ok rounds24 Fips.keccak_f). intros A HA. by apply rounds24_ok. Qed.
Lemma Permute_12rounds_ok s :
  kst s → wp (KeccakP1600_Permute_12rounds s) (λ s',
    kst s' ∧ plain_view s' = lanes_bytes (Fips.keccak_p 12 (bytes_lanes (plain_view s)))).
Proof. apply (permute_ok rounds12 (Fips.keccak_p 12)). intros A HA. by apply rounds12_ok. Qed.

(** *** Extracting bytes *)

Lemma lane_view s pos :
  kst s → (pos < 25)%nat →
  ∃ x, lane_of s pos = Some x ∧
    ∀ off n, (off + n <= 8)%nat →
      read (le_bytes 8 (if complemented pos then lnot64 x else x)) off n
      = Some (take n (drop (pos * 8 + off) (plain_view s))).
Proof.
  intros Hs Hp. destruct (memory_lanes s Hs) as (A & HA & -> & Hv).
  destruct (lookup_lt_is_Some_2 (lanes_list A) pos) as [a Ha]; [rewrite length_lanes_list; lia |].
  set (m := if complemented pos then 2 ^ 64 - 1 else 0).
  assert (Hm : mask_lanes !! pos = Some m).
  { unfold mask_lanes. rewrite list_lookup_fmap, lookup_seq_lt by lia. done. }
  assert (Hx : lanes_list (flip A) !! pos = Some (a ⊻ m)).
  { rewrite flip_mask, lookup_zip_with, Ha. cbn [mbind option_bind]. by rewrite Hm. }
  exists (a ⊻ m). split; [apply lane_of_lanes; [done |]; eapply Forall_lookup_1; [by apply flip_ok | done] |].
  intros off n Hn. replace (if complemented pos then lnot64 (a ⊻ m) else a ⊻ m) with a; cycle 1.
  { unfold m. destruct (complemented pos); [symmetry; apply lnot64_lnot64 | by rewrite Z.lxor_0_r]. }
  rewrite Hv, <-drop_drop. destruct (lanes_bytes_split _ _ _ Ha) as [-> Hl].
  rewrite read_Some by (rewrite length_le_bytes; lia).
  rewrite drop_app_ge by lia. rewrite Hl, Nat.sub_diag, drop_0.
  rewrite drop_app_le by (rewrite length_le_bytes; lia).
  by rewrite take_app_le by (rewrite length_drop, length_le_bytes; lia).
Qed.

Lemma ExtractBytesInLane_ok s pos off n :
  kst s → (pos < 25)%nat → (off + n <= 8)%nat →
  KeccakP1600_ExtractBytesInLane s pos off n = Some (take n (drop (pos * 8 + off) (plain_view s))).
Proof.
  intros Hs Hp Hn. destruct (lane_view s pos Hs Hp) as (x & Hx & Hr).
  unfold KeccakP1600_ExtractBytesInLane. rewrite Hx. cbn [mbind option_bind]. by apply Hr.
Qed.

Lemma u8_lnot b : in_u8 b → u8 (Z.lnot b) = b ⊻ 255.
Proof.
  intros Hb. rewrite <-(u8_small b Hb) at 2. change 255 with (u8 (-1)). rewrite <-u8_lxor.
  by rewrite Z.lxor_m1_r.
Qed.

(** Eight bytes of a string complemented. *)
Definition ones8 (lane len : nat) : list Z := take len (at_off (8 * lane) (replicate 8 255)).

Lemma COMPL_ok lane data :
  bytes data → (8 * lane + 8 <= length data)%nat → (length data <= 200)%nat →
  COMPL lane data = Some (xorv data (ones8 lane (length data))).
Proof.
  intros Hb Hl H200. destruct (split_at (8 * lane) data) as (p & r & -> & Hp); [lia |].
  rewrite length_app in Hl, H200. destruct (split_at 8 r) as (d & q & -> & Hd); [lia |].
  apply Forall_app in Hb as [_ Hb]. apply Forall_app in Hb as [Hb _].
  assert (E : xorv (p ++ d ++ q) (ones8 lane (length (p ++ d ++ q))) = p ++ map (λ b, u8 (Z.lnot b)) d ++ q).
  { rewrite length_app in H200, Hl. unfold ones8, at_off. rewrite length_replicate, !length_app.
    rewrite take_app_ge, length_replicate by (rewrite length_replicate; lia).
    rewrite take_app_ge, length_replicate by (rewrite length_replicate; lia).
    rewrite xorv_app by (by rewrite length_replicate). rewrite xorv_zero by done. f_equal.
    rewrite xorv_app by (by rewrite length_replicate).
    rewrite take_replicate, xorv_zero by lia. f_equal.
    do 8 (destruct d as [|? d]; [discriminate Hd |]). destruct d; [| discriminate Hd].
    rewrite !Forall_cons_iff in Hb. destruct_and!. cbn [map]. rewrite !u8_lnot by done. done. }
  rewrite E. clear E. unfold COMPL.
  do 8 (destruct d as [|? d]; [discriminate Hd |]). destruct d; [| discriminate Hd].
  rewrite <-Hp. clear. cbn [for_loop].
  assert (L : ∀ l i, (p ++ l) !! (length p + i)%nat = l !! i).
  { intros l i. rewrite lookup_app_r by lia. f_equal. lia. }
  repeat (rewrite L; cbn [lookup list_lookup app mbind option_bind]; rewrite insert_app_r; cbn [insert list_insert]).
  reflexivity.
Qed.

(** The bytes [d] of the first lanes with the lanes of [M] complemented. *)
Definition masked (d M : list Z) : list Z := xorv d (take (length d) M).

Lemma COMPL_step lane d M :
  bytes d → (8 * lane + 8 <= length d)%nat → kst d ∨ (length d < 200)%nat → kst M →
  COMPL lane (masked d M) = Some (masked d (xorv M (at_off (8 * lane) (replicate 8 255)))).
Proof.
  intros Hd Hl H200 [HM HMb]. assert (H : (length d <= 200)%nat) by (destruct H200 as [[]|]; lia).
  assert (E : length (masked d M) = length d) by (apply length_xorv; rewrite length_take; lia).
  rewrite COMPL_ok by (rewrite ?E; lia || (apply xorv_bytes; [done | by apply Forall_take])).
  rewrite E. unfold masked, ones8. by rewrite xorv_assoc, xorv_take.
Qed.

Lemma masked_final d M k :
  (length d <= k)%nat → take k M = take k mask → masked d M = masked d mask.
Proof.
  intros Hk HM. unfold masked. f_equal.
  rewrite <-(Nat.min_l (length d) k) by done. by rewrite <-!take_take, HM.
Qed.

Lemma kst_ones8 M lane : kst M → (lane < 25)%nat → kst (xorv M (at_off (8 * lane) (replicate 8 255))).
Proof.
  intros. apply kst_at_off; [done | by apply Forall_replicate | rewrite length_replicate; lia].
Qed.

Lemma ExtractLanes_ok s n :
  kst s → (n < 25)%nat → KeccakP1600_ExtractLanes s n = Some (take (n * 8) (plain_view s)).
Proof.
  intros [Hl Hb] Hn. unfold KeccakP1600_ExtractLanes. rewrite read_Some by lia. rewrite drop_0.
  cbn [mbind option_bind]. unfold plain_view. rewrite xorv_take.
  assert (Hd : bytes (take (n * 8) s)) by (by apply Forall_take).
  assert (Hdl : length (take (n * 8) s) = (n * 8)%nat) by (rewrite length_take; lia).
  set (d := take (n * 8) s) in *. rewrite <-Hdl at 1. change (xorv d (take (length d) mask)) with (masked d mask).
  assert (H0 : kst (replicate 200 0)) by (split; [done | apply replicate_0_bytes]).
  assert (E : d = masked d (replicate 200 0)).
  { unfold masked. rewrite take_replicate, xorv_zero; [done | lia]. }
  case_decide; cycle 1.
  { f_equal. rewrite E at 1. apply (masked_final d _ 8); [lia | by vm_compute]. }
  rewrite E at 1. rewrite COMPL_step by (auto || lia). cbn [mbind option_bind].
  let go k := (case_decide;
    [ rewrite COMPL_step by (done || lia || (repeat apply kst_ones8; done || lia)); cbn [mbind option_bind]
    | f_equal; apply (masked_final d _ (k * 8)); [lia | by vm_compute] ]) in
  go 2%nat; go 8%nat; go 12%nat; go 17%nat; go 20%nat.
  f_equal.
Qed.

Lemma ExtractBytes_ok s off n :
  kst s → (off + n <= 200)%nat → (n < 200)%nat →
  KeccakP1600_ExtractBytes s off n = Some (take n (drop off (plain_view s))).
Proof.
  intros Hs Ho Hn. unfold KeccakP1600_ExtractBytes, SnP_ExtractBytes.
  pose proof (Nat.div_mod_eq n 8) as Hdm. pose proof (Nat.mod_upper_bound n 8) as Hm.
  destruct (decide (off = 0)%nat) as [->|Hoff].
  - rewrite ExtractLanes_ok by (done || lia). cbn [mbind option_bind].
    rewrite ExtractBytesInLane_ok by (done || lia). cbn [mbind option_bind]. f_equal.
    rewrite drop_0, Nat.add_0_r. rewrite take_take_drop. f_equal. lia.
  - apply wp_eq.
    apply (wp_SnP_walk (λ c t, t = take c (drop off (plain_view s)))); [by rewrite take_0 |].
    intros c t pos o m Hm1 Hm2 Hm3 Hp ->. rewrite ExtractBytesInLane_ok by (done || lia). cbn [mbind option_bind wp].
    rewrite Hp, <-drop_drop. apply take_take_drop.
Qed.

(** ** The plain 64-bit implementation *)

Section plain64.
Context (misaligned : bool).

#[export] Instance plain64 : KeccakLow := {|
  Keccak_Initialize := KeccakP1600_Initialize;
  Keccak_AddByte := KeccakP1600_AddByte;
  Keccak_AddBytes := KeccakP1600_AddBytes misaligned;
  Keccak_Permute := KeccakP1600_Permute_24rounds;
  Keccak_ExtractBytes := KeccakP1600_ExtractBytes;
|}.

#[export] Instance plain64_laws : KeccakLowLaws.
Proof using Type.
  refine {| kview := plain_view |}.
  - apply plain_view_kst.
  - intros s Hs. cbn [Keccak_Initialize plain64]. rewrite Initialize_ok by done. split; [apply mask_kst |].
    unfold plain_view. apply xorv_self, mask_kst.
  - intros s b off [Hl Hb] Hu Ho. cbn [Keccak_AddByte plain64]. unfold KeccakP1600_AddByte.
    destruct (lookup_lt_is_Some_2 s off) as [x Hx]; [lia |]. rewrite Hx. cbn [mbind option_bind wp].
    rewrite (AddByte_xorv _ _ _ _ Hl Hx), plain_view_xorv. split; [| done].
    apply kst_at_off; [done | by constructor | simpl; lia].
  - intros s data off n Hs Hd Hn Ho H200. cbn [Keccak_AddBytes plain64].
    rewrite AddBytes_raw by done. cbn [wp]. rewrite plain_view_xorv. split; [| done].
    apply kst_at_off; [done | by apply Forall_take | rewrite length_take; lia].
  - apply Permute_24rounds_ok.
  - apply ExtractBytes_ok.
Qed.
End plain64.
