(* ===== verification/Sha3.v ===== *)
(** The SHA-3 functions of liboqs: the sponge of common/sha3/xkcp_sha3.c (the
    incremental absorb, finalize and squeeze of SHA3-256/384/512, SHAKE128 and
    SHAKE256), the callback table (sha3_ops.h) and the dispatching functions
    (sha3.c).

    A context pointer is [None] when it does not point to a context (before
    [init], after [release]); a context is the storage of the Keccak state and
    the counter [s[25]].  Allocation succeeds: [OQS_EXIT_IF_NULLPTR] ends the
    process otherwise.  The functions are over the interface [KeccakLow], the
    pointers that [Keccak_Dispatch] sets. *)
From S2P Require Import Prelude Keccak KeccakP.

Open Scope c_scope.

(** ** xkcp_sha3.c: the sponge *)

Record keccak_ctx := KeccakCtx { ks : list Z; s25 : Z }.
Definition keccak_state : Type := option keccak_ctx.

Section sponge.
Context `{KeccakLow}.

Definition keccak_inc_reset (s : keccak_ctx) : option keccak_ctx :=
  k ← Keccak_Initialize (ks s);
  Some (KeccakCtx k 0).

(** [while (mlen >= r)]: add and permute whole blocks; the state and the rest
    of the input. *)
Definition absorb_loop (r : Z) (k m : list Z) : option (list Z * list Z) :=
  loop (S (length m)) (λ '(k, m),
    if decide (r <= Z.of_nat (length m)) then
      k ← Keccak_AddBytes k m 0 (Z.to_nat r);
      k ← Keccak_Permute k;
      Some (Next (k, drop (Z.to_nat r) m))
    else Some (Done (k, m))) (k, m).

Definition keccak_inc_absorb (s : keccak_ctx) (r : Z) (m : list Z) : option keccak_ctx :=
  let c := u64 (r - s25 s) in
  '(s, m) ← (if decide (s25 s ≠ 0 ∧ c <= Z.of_nat (length m)) then
    k ← Keccak_AddBytes (ks s) m (Z.to_nat (u32 (s25 s))) (Z.to_nat (u32 c));
    k ← Keccak_Permute k;
    Some (KeccakCtx k 0, drop (Z.to_nat c) m)
  else Some (s, m));
  '(k, m) ← absorb_loop r (ks s) m;
  k ← Keccak_AddBytes k m (Z.to_nat (u32 (s25 s))) (Z.to_nat (u32 (Z.of_nat (length m))));
  Some (KeccakCtx k (u64 (s25 s + Z.of_nat (length m)))).

Definition keccak_inc_finalize (s : keccak_ctx) (r p : Z) : option keccak_ctx :=
  k ← Keccak_AddByte (ks s) p (Z.to_nat (u32 (s25 s)));
  k ← Keccak_AddByte k 0x80 (Z.to_nat (u32 (r - 1)));
  Some (KeccakCtx k 0).

(** The bytes written to [h], and the context. *)
Definition keccak_inc_squeeze (outlen : nat) (s : keccak_ctx) (r : Z)
  : option (list Z * keccak_ctx) :=
  '(h, outlen, s) ← loop (S (S outlen)) (λ '(h, outlen, s),
    if decide (s25 s < Z.of_nat outlen) then
      out ← Keccak_ExtractBytes (ks s) (Z.to_nat (u32 (r - s25 s))) (Z.to_nat (u32 (s25 s)));
      k ← Keccak_Permute (ks s);
      Some (Next (h ++ out, (outlen - Z.to_nat (s25 s))%nat, KeccakCtx k r))
    else Some (Done (h, outlen, s))) ([], outlen, s);
  out ← Keccak_ExtractBytes (ks s) (Z.to_nat (u32 (r - s25 s))) (Z.to_nat (u32 (Z.of_nat outlen)));
  Some (h ++ out, KeccakCtx (ks s) (u64 (s25 s - Z.of_nat outlen))).

(** *** What the functions of the five hashes share *)

Context {U : Uninit}.

(** [OQS_MEM_aligned_alloc(KECCAK_CTX_ALIGNMENT, KECCAK_CTX_BYTES)] *)
Definition alloc_ctx : keccak_ctx := KeccakCtx (uninit 200) (le_val (uninit 8)).

Definition inc_init : option keccak_state := s ← keccak_inc_reset alloc_ctx; Some (Some s).
Definition inc_absorb (r : Z) (state : keccak_state) (input : list Z) : option keccak_state :=
  s ← state; s ← keccak_inc_absorb s r input; Some (Some s).
Definition inc_finalize (r p : Z) (state : keccak_state) : option keccak_state :=
  s ← state; s ← keccak_inc_finalize s r p; Some (Some s).
Definition inc_squeeze (r : Z) (outlen : nat) (state : keccak_state)
  : option (list Z * keccak_state) :=
  s ← state; '(out, s) ← keccak_inc_squeeze outlen s r; Some (out, Some s).
(** [OQS_MEM_aligned_free] *)
Definition inc_release (state : keccak_state) : option keccak_state :=
  s ← state; Some None.
(** [memcpy(dest->ctx, src->ctx, KECCAK_CTX_BYTES)] *)
Definition inc_clone (dest src : keccak_state) : option keccak_state :=
  d ← dest; s ← src; Some (Some s).
Definition inc_reset (state : keccak_state) : option keccak_state :=
  s ← state; s ← keccak_inc_reset s; Some (Some s).

(** *** The operations of one hash function, as the table groups them *)

Record sha3_inc_ops := {
  op_init : option keccak_state;
  op_absorb : keccak_state → list Z → option keccak_state;
  op_finalize : keccak_state → option (list Z * keccak_state);
  op_release : keccak_state → option keccak_state;
  op_reset : keccak_state → option keccak_state;
  op_clone : keccak_state → keccak_state → option keccak_state;
}.

Record shake_inc_ops := {
  xop_init : option keccak_state;
  xop_absorb : keccak_state → list Z → option keccak_state;
  xop_finalize : keccak_state → option keccak_state;
  xop_squeeze : nat → keccak_state → option (list Z * keccak_state);
  xop_release : keccak_state → option keccak_state;
  xop_clone : keccak_state → keccak_state → option keccak_state;
  xop_reset : keccak_state → option keccak_state;
}.

(** The one-shot functions go through the dispatching functions, that is,
    through the operations [o] of the current table. *)
Definition sha3_once (o : sha3_inc_ops) (input : list Z) : option (list Z) :=
  s ← op_init o;
  s ← op_absorb o s input;
  '(output, s) ← op_finalize o s;
  s ← op_release o s;
  Some output.

Definition shake_once (o : shake_inc_ops) (outlen : nat) (input : list Z) : option (list Z) :=
  s ← xop_init o;
  s ← xop_absorb o s input;
  s ← xop_finalize o s;
  '(output, s) ← xop_squeeze o outlen s;
  s ← xop_release o s;
  Some output.

(** *** SHA3-256 *)

Definition OQS_SHA3_SHA3_256_RATE : Z := 136.
Definition SHA3_sha3_256 := sha3_once.
Definition SHA3_sha3_256_inc_init := inc_init.
Definition SHA3_sha3_256_inc_absorb := inc_absorb OQS_SHA3_SHA3_256_RATE.
Definition SHA3_sha3_256_inc_finalize (state : keccak_state) : option (list Z * keccak_state) :=
  state ← inc_finalize OQS_SHA3_SHA3_256_RATE 0x06 state;
  inc_squeeze OQS_SHA3_SHA3_256_RATE 32 state.
Definition SHA3_sha3_256_inc_ctx_release := inc_release.
Definition SHA3_sha3_256_inc_ctx_clone := inc_clone.
Definition SHA3_sha3_256_inc_ctx_reset := inc_reset.

(** *** SHA3-384 *)

Definition OQS_SHA3_SHA3_384_RATE : Z := 104.
Definition SHA3_sha3_384 := sha3_once.
Definition SHA3_sha3_384_inc_init := inc_init.
Definition SHA3_sha3_384_inc_absorb := inc_absorb OQS_SHA3_SHA3_384_RATE.
Definition SHA3_sha3_384_inc_finalize (state : keccak_state) : option (list Z * keccak_state) :=
  state ← inc_finalize OQS_SHA3_SHA3_384_RATE 0x06 state;
  inc_squeeze OQS_SHA3_SHA3_384_RATE 48 state.
Definition SHA3_sha3_384_inc_ctx_release := inc_release.
Definition SHA3_sha3_384_inc_ctx_clone := inc_clone.
Definition SHA3_sha3_384_inc_ctx_reset := inc_reset.

(** *** SHA3-512 *)

Definition OQS_SHA3_SHA3_512_RATE : Z := 72.
Definition SHA3_sha3_512 := sha3_once.
Definition SHA3_sha3_512_inc_init := inc_init.
Definition SHA3_sha3_512_inc_absorb := inc_absorb OQS_SHA3_SHA3_512_RATE.
Definition SHA3_sha3_512_inc_finalize (state : keccak_state) : option (list Z * keccak_state) :=
  state ← inc_finalize OQS_SHA3_SHA3_512_RATE 0x06 state;
  inc_squeeze OQS_SHA3_SHA3_512_RATE 64 state.
Definition SHA3_sha3_512_inc_ctx_release := inc_release.
Definition SHA3_sha3_512_inc_ctx_clone := inc_clone.
Definition SHA3_sha3_512_inc_ctx_reset := inc_reset.

(** *** SHAKE128 *)

Definition OQS_SHA3_SHAKE128_RATE : Z := 168.
Definition SHA3_shake128 := shake_once.
Definition SHA3_shake128_inc_init := inc_init.
Definition SHA3_shake128_inc_absorb := inc_absorb OQS_SHA3_SHAKE128_RATE.
Definition SHA3_shake128_inc_finalize := inc_finalize OQS_SHA3_SHAKE128_RATE 0x1F.
Definition SHA3_shake128_inc_squeeze := inc_squeeze OQS_SHA3_SHAKE128_RATE.
Definition SHA3_shake128_inc_ctx_clone := inc_clone.
Definition SHA3_shake128_inc_ctx_release := inc_release.
Definition SHA3_shake128_inc_ctx_reset := inc_reset.

(** *** SHAKE256 *)

Definition OQS_SHA3_SHAKE256_RATE : Z := 136.
Definition SHA3_shake256 := shake_once.
Definition SHA3_shake256_inc_init := inc_init.
Definition SHA3_shake256_inc_absorb := inc_absorb OQS_SHA3_SHAKE256_RATE.
Definition SHA3_shake256_inc_finalize := inc_finalize OQS_SHA3_SHAKE256_RATE 0x1F.
Definition SHA3_shake256_inc_squeeze := inc_squeeze OQS_SHA3_SHAKE256_RATE.
Definition SHA3_shake256_inc_ctx_clone := inc_clone.
Definition SHA3_shake256_inc_ctx_release := inc_release.
Definition SHA3_shake256_inc_ctx_reset := inc_reset.

(** ** sha3_ops.h *)

Record OQS_SHA3_callbacks := {
  cb_sha3_256 : sha3_inc_ops → list Z → option (list Z);
  cb_sha3_256_inc : sha3_inc_ops;
  cb_sha3_384 : sha3_inc_ops → list Z → option (list Z);
  cb_sha3_384_inc : sha3_inc_ops;
  cb_sha3_512 : sha3_inc_ops → list Z → option (list Z);
  cb_sha3_512_inc : sha3_inc_ops;
  cb_shake128 : shake_inc_ops → nat → list Z → option (list Z);
  cb_shake128_inc : shake_inc_ops;
  cb_shake256 : shake_inc_ops → nat → list Z → option (list Z);
  cb_shake256_inc : shake_inc_ops;
}.

(** The default table at the end of xkcp_sha3.c. *)
Definition sha3_default_callbacks : OQS_SHA3_callbacks := {|
  cb_sha3_256 := SHA3_sha3_256;
  cb_sha3_256_inc := {| op_init := SHA3_sha3_256_inc_init; op_absorb := SHA3_sha3_256_inc_absorb;
    op_finalize := SHA3_sha3_256_inc_finalize; op_release := SHA3_sha3_256_inc_ctx_release;
    op_reset := SHA3_sha3_256_inc_ctx_reset; op_clone := SHA3_sha3_256_inc_ctx_clone |};
  cb_sha3_384 := SHA3_sha3_384;
  cb_sha3_384_inc := {| op_init := SHA3_sha3_384_inc_init; op_absorb := SHA3_sha3_384_inc_absorb;
    op_finalize := SHA3_sha3_384_inc_finalize; op_release := SHA3_sha3_384_inc_ctx_release;
    op_reset := SHA3_sha3_384_inc_ctx_reset; op_clone := SHA3_sha3_384_inc_ctx_clone |};
  cb_sha3_512 := SHA3_sha3_512;
  cb_sha3_512_inc := {| op_init := SHA3_sha3_512_inc_init; op_absorb := SHA3_sha3_512_inc_absorb;
    op_finalize := SHA3_sha3_512_inc_finalize; op_release := SHA3_sha3_512_inc_ctx_release;
    op_reset := SHA3_sha3_512_inc_ctx_reset; op_clone := SHA3_sha3_512_inc_ctx_clone |};
  cb_shake128 := SHA3_shake128;
  cb_shake128_inc := {| xop_init := SHA3_shake128_inc_init; xop_absorb := SHA3_shake128_inc_absorb;
    xop_finalize := SHA3_shake128_inc_finalize; xop_squeeze := SHA3_shake128_inc_squeeze;
    xop_release := SHA3_shake128_inc_ctx_release; xop_clone := SHA3_shake128_inc_ctx_clone;
    xop_reset := SHA3_shake128_inc_ctx_reset |};
  cb_shake256 := SHA3_shake256;
  cb_shake256_inc := {| xop_init := SHA3_shake256_inc_init; xop_absorb := SHA3_shake256_inc_absorb;
    xop_finalize := SHA3_shake256_inc_finalize; xop_squeeze := SHA3_shake256_inc_squeeze;
    xop_release := SHA3_shake256_inc_ctx_release; xop_clone := SHA3_shake256_inc_ctx_clone;
    xop_reset := SHA3_shake256_inc_ctx_reset |}
|}.

End sponge.

(** ** sha3.c

    [callbacks] is the file's static pointer; [OQS_SHA3_set_callbacks]
    replaces it. *)

Definition OQS_SHA3_set_callbacks (callbacks new_callbacks : OQS_SHA3_callbacks)
    : OQS_SHA3_callbacks := new_callbacks.

Section dispatch.
Context (callbacks : OQS_SHA3_callbacks).

Definition OQS_SHA3_sha3_256 := cb_sha3_256 callbacks (cb_sha3_256_inc callbacks).
Definition OQS_SHA3_sha3_256_inc_init := op_init (cb_sha3_256_inc callbacks).
Definition OQS_SHA3_sha3_256_inc_absorb := op_absorb (cb_sha3_256_inc callbacks).
Definition OQS_SHA3_sha3_256_inc_finalize := op_finalize (cb_sha3_256_inc callbacks).
Definition OQS_SHA3_sha3_256_inc_ctx_release := op_release (cb_sha3_256_inc callbacks).
Definition OQS_SHA3_sha3_256_inc_ctx_reset := op_reset (cb_sha3_256_inc callbacks).
Definition OQS_SHA3_sha3_256_inc_ctx_clone := op_clone (cb_sha3_256_inc callbacks).
Definition OQS_SHA3_sha3_384 := cb_sha3_384 callbacks (cb_sha3_384_inc callbacks).
Definition OQS_SHA3_sha3_384_inc_init := op_init (cb_sha3_384_inc callbacks).
Definition OQS_SHA3_sha3_384_inc_absorb := op_absorb (cb_sha3_384_inc callbacks).
Definition OQS_SHA3_sha3_384_inc_finalize := op_finalize (cb_sha3_384_inc callbacks).
Definition OQS_SHA3_sha3_384_inc_ctx_release := op_release (cb_sha3_384_inc callbacks).
Definition OQS_SHA3_sha3_384_inc_ctx_reset := op_reset (cb_sha3_384_inc callbacks).
Definition OQS_SHA3_sha3_384_inc_ctx_clone := op_clone (cb_sha3_384_inc callbacks).
Definition OQS_SHA3_sha3_512 := cb_sha3_512 callbacks (cb_sha3_512_inc callbacks).
Definition OQS_SHA3_sha3_512_inc_init := op_init (cb_sha3_512_inc callbacks).
Definition OQS_SHA3_sha3_512_inc_absorb := op_absorb (cb_sha3_512_inc callbacks).
Definition OQS_SHA3_sha3_512_inc_finalize := op_finalize (cb_sha3_512_inc callbacks).
Definition OQS_SHA3_sha3_512_inc_ctx_release := op_release (cb_sha3_512_inc callbacks).
Definition OQS_SHA3_sha3_512_inc_ctx_reset := op_reset (cb_sha3_512_inc callbacks).
Definition OQS_SHA3_sha3_512_inc_ctx_clone := op_clone (cb_sha3_512_inc callbacks).
Definition OQS_SHA3_shake128 := cb_shake128 callbacks (cb_shake128_inc callbacks).
Definition OQS_SHA3_shake128_inc_init := xop_init (cb_shake128_inc callbacks).
Definition OQS_SHA3_shake128_inc_absorb := xop_absorb (cb_shake128_inc callbacks).
Definition OQS_SHA3_shake128_inc_finalize := xop_finalize (cb_shake128_inc callbacks).
Definition OQS_SHA3_shake128_inc_squeeze := xop_squeeze (cb_shake128_inc callbacks).
Definition OQS_SHA3_shake128_inc_ctx_release := xop_release (cb_shake128_inc callbacks).
Definition OQS_SHA3_shake128_inc_ctx_clone := xop_clone (cb_shake128_inc callbacks).
Definition OQS_SHA3_shake128_inc_ctx_reset := xop_reset (cb_shake128_inc callbacks).
Definition OQS_SHA3_shake256 := cb_shake256 callbacks (cb_shake256_inc callbacks).
Definition OQS_SHA3_shake256_inc_init := xop_init (cb_shake256_inc callbacks).
Definition OQS_SHA3_shake256_inc_absorb := xop_absorb (cb_shake256_inc callbacks).
Definition OQS_SHA3_shake256_inc_finalize := xop_finalize (cb_shake256_inc callbacks).
Definition OQS_SHA3_shake256_inc_squeeze := xop_squeeze (cb_shake256_inc callbacks).
Definition OQS_SHA3_shake256_inc_ctx_release := xop_release (cb_shake256_inc callbacks).
Definition OQS_SHA3_shake256_inc_ctx_clone := xop_clone (cb_shake256_inc callbacks).
Definition OQS_SHA3_shake256_inc_ctx_reset := xop_reset (cb_shake256_inc callbacks).

End dispatch.
