(* ===== verification/Sha3Spec.v ===== *)
(** The sponge construction of FIPS 202 (section 4, with the byte padding of
    appendix B.2) and the proof that the incremental functions of Sha3.v
    compute it, for every way of splitting the input and the output.

    A context in the absorbing phase stands for the bytes absorbed so far, a
    context in the squeezing phase for the message and the number of bytes
    already output ([absorbing], [squeezing]); the counter [s[25]] stays below
    the rate while absorbing and at most the rate while squeezing. *)
From S2P Require Import Prelude Keccak KeccakP Sha3.

Open Scope c_scope.

(** ** FIPS 202 *)
Module Sponge.
Section sponge.
Context (r : nat).

Fixpoint absorb_blocks (n : nat) (S P : list Z) : list Z :=
  match n with
  | O => S
  | Datatypes.S n => absorb_blocks n (keccak_f_bytes (xorv S (at_off 0 (take r P)))) (drop r P)
  end.

Fixpoint squeeze_blocks (n : nat) (S : list Z) : list Z :=
  match n with
  | O => []
  | Datatypes.S n => take r S ++ squeeze_blocks n (keccak_f_bytes S)
  end.

(** The domain bits and pad10*1, for a message of [len] bytes. *)
Definition pad (p : Z) (len : nat) : list Z :=
  let q := (r - len mod r)%nat in
  if decide (q = 1%nat) then [p ⊻ 0x80] else p :: replicate (q - 2) 0 ++ [0x80].

Definition sponge (p : Z) (N : list Z) (d : nat) : list Z :=
  let P := N ++ pad p (length N) in
  take d (squeeze_blocks (Datatypes.S (d / r)) (absorb_blocks (length P / r) (replicate 200 0) P)).

End sponge.
End Sponge.

Definition SHA3_256 (M : list Z) : list Z := Sponge.sponge 136 0x06 M 32.
Definition SHA3_384 (M : list Z) : list Z := Sponge.sponge 104 0x06 M 48.
Definition SHA3_512 (M : list Z) : list Z := Sponge.sponge 72 0x06 M 64.
Definition SHAKE128 (M : list Z) (d : nat) : list Z := Sponge.sponge 168 0x1F M d.
Definition SHAKE256 (M : list Z) (d : nat) : list Z := Sponge.sponge 136 0x1F M d.

(** ** The sponge byte by byte *)

Section bytewise.
Context (r : nat) (Hr : (0 < r < 200)%nat).

Definition absorb1 (p : list Z * nat) (b : Z) : list Z * nat :=
  let S := xorv p.1 (at_off p.2 [b]) in
  if decide (Datatypes.S p.2 = r) then (keccak_f_bytes S, 0%nat) else (S, Datatypes.S p.2).

Definition absorb_bytes (p : list Z * nat) (m : list Z) : list Z * nat := foldl absorb1 p m.

Lemma absorb_bytes_app p m1 m2 : absorb_bytes p (m1 ++ m2) = absorb_bytes (absorb_bytes p m1) m2.
Proof. apply foldl_app. Qed.

(** Bytes that do not complete the block. *)
Lemma absorb_partial S i d :
  kst S → bytes d → (i + length d < r)%nat →
  absorb_bytes (S, i) d = (xorv S (at_off i d), (i + length d)%nat).
Proof using Hr.
  intros HS Hd. revert S i HS. induction Hd as [|b d Hb Hd IH]; intros S i HS Hi.
  - cbn. rewrite at_off_nil, xorv_zero, Nat.add_0_r by (apply HS || lia). done.
  - cbn [length] in Hi. unfold absorb_bytes. cbn [foldl]. unfold absorb1 at 2. cbn [fst snd].
    rewrite decide_False by lia.
    etrans; [apply IH; [apply kst_at_off; [done | by constructor | simpl; lia] | lia] |].
    pose proof (at_off_app i [b] d) as E. cbn [app length] in E.
    rewrite xorv_assoc, E, Nat.add_1_r by lia. f_equal. simpl. lia.
Qed.

(** Bytes that complete the block. *)
Lemma absorb_fill S i d :
  kst S → bytes d → (i < r)%nat → (i + length d = r)%nat →
  absorb_bytes (S, i) d = (keccak_f_bytes (xorv S (at_off i d)), 0%nat).
Proof using Hr.
  intros HS Hd Hi Hl. destruct d as [|b d _] using rev_ind; [simpl in Hl; lia |].
  apply Forall_app in Hd as [Hd Hb]. rewrite length_app in Hl. cbn [length] in Hl.
  rewrite absorb_bytes_app, absorb_partial by (done || lia).
  cbn [absorb_bytes foldl]. unfold absorb1. cbn [fst snd]. rewrite decide_True by lia.
  rewrite xorv_assoc, at_off_app by (simpl; lia). done.
Qed.

(** The position within the block. *)
Lemma absorb_pos S m : (absorb_bytes (S, 0%nat) m).2 = (length m mod r)%nat.
Proof using Hr.
  induction m as [|b m IH] using rev_ind; [by rewrite Nat.Div0.mod_0_l |].
  rewrite absorb_bytes_app, length_app. destruct (absorb_bytes (S, 0%nat) m) as [S' i]. cbn [snd] in IH. subst i.
  cbn [absorb_bytes foldl]. unfold absorb1. cbn [fst snd length].
  pose proof (Nat.mod_upper_bound (length m) r). pose proof (Nat.div_mod_eq (length m) r).
  case_decide as E; cbn [snd].
  - apply (Nat.mod_unique _ _ (length m / r + 1)); lia.
  - apply (Nat.mod_unique _ _ (length m / r)); lia.
Qed.

Lemma absorb_kst S m i :
  kst S → bytes m → (i < r)%nat → kst (absorb_bytes (S, i) m).1 ∧ ((absorb_bytes (S, i) m).2 < r)%nat.
Proof using Hr.
  intros HS Hm. revert S i HS. induction Hm as [|b m Hb Hm IH]; intros S i HS Hi; [done |].
  unfold absorb_bytes. cbn [foldl]. unfold absorb1 at 2 4. cbn [fst snd]. case_decide.
  - apply IH; [apply keccak_f_bytes_kst | lia].
  - apply IH; [apply kst_at_off; [done | by constructor | simpl; lia] | lia].
Qed.

(** Whole blocks. *)
Lemma absorb_whole n S P :
  kst S → bytes P → length P = (n * r)%nat →
  absorb_bytes (S, 0%nat) P = (Sponge.absorb_blocks r n S P, 0%nat).
Proof using Hr.
  revert S P. induction n as [|n IH]; intros S P HS HP Hl.
  - by destruct P.
  - rewrite <-(take_drop r P) at 1. rewrite absorb_bytes_app.
    rewrite absorb_fill; [| done | by apply Forall_take | lia | rewrite length_take; lia].
    rewrite IH; [done | apply keccak_f_bytes_kst | by apply Forall_drop | rewrite length_drop; lia].
Qed.

(** The padding completes the last block. *)
Lemma length_pad p len : length (Sponge.pad r p len) = (r - len mod r)%nat.
Proof using Hr.
  unfold Sponge.pad. pose proof (Nat.mod_upper_bound len r). case_decide as E; [simpl; lia |].
  cbn [length]. rewrite length_app, length_replicate. simpl. lia.
Qed.

Lemma pad_bytes p len : in_u8 p → bytes (Sponge.pad r p len).
Proof using Type.
  intros. unfold Sponge.pad. case_decide.
  - constructor; [by apply in_u8_lxor | constructor].
  - constructor; [done |]. apply Forall_app_2; [apply replicate_0_bytes | by constructor].
Qed.

(** The state before the first permutation of the output phase. *)
Definition padded_state (p : Z) (M : list Z) : list Z :=
  let '(St, i) := absorb_bytes (replicate 200 0, 0%nat) M in
  xorv St (at_off i (Sponge.pad r p (length M))).

Lemma zeros_kst : kst (replicate 200 0).
Proof using Type. split; [done | apply replicate_0_bytes]. Qed.

Lemma sponge_padded p M d :
  in_u8 p → bytes M →
  Sponge.sponge r p M d
  = take d (Sponge.squeeze_blocks r (Datatypes.S (d / r)) (keccak_f_bytes (padded_state p M))).
Proof using Hr.
  intros Hp HM. unfold Sponge.sponge. set (P := M ++ _). do 2 f_equal.
  pose proof (absorb_kst (replicate 200 0) M 0 zeros_kst HM ltac:(lia)) as [HS _].
  pose proof (absorb_pos (replicate 200 0) M) as Hpos.
  pose proof (Nat.mod_upper_bound (length M) r). pose proof (Nat.div_mod_eq (length M) r).
  assert (HP : length P = ((length M / r + 1) * r)%nat).
  { unfold P. rewrite length_app, length_pad. lia. }
  assert (E : absorb_bytes (replicate 200 0, 0%nat) P = (keccak_f_bytes (padded_state p M), 0%nat)).
  { unfold P, padded_state. rewrite absorb_bytes_app. destruct (absorb_bytes _ M) as [S i].
    cbn [fst snd] in HS, Hpos. subst i.
    apply absorb_fill; [done | by apply pad_bytes | lia | rewrite length_pad; lia]. }
  rewrite (absorb_whole (length M / r + 1)) in E;
    [| apply zeros_kst | apply Forall_app_2; [done | by apply pad_bytes] | done].
  rewrite HP, Nat.div_mul by lia. by injection E.
Qed.

(** ** The output stream *)

Fixpoint iter_f (n : nat) (S : list Z) : list Z :=
  match n with O => S | Datatypes.S n => iter_f n (keccak_f_bytes S) end.

Lemma iter_f_S n S : iter_f (Datatypes.S n) S = keccak_f_bytes (iter_f n S).
Proof using Type. revert S. induction n as [|n IH]; intros S; [done |]. apply (IH (keccak_f_bytes S)). Qed.

Lemma iter_f_kst n S : kst S → kst (iter_f n S).
Proof using Type. destruct n; [done |]. intros _. rewrite iter_f_S. apply keccak_f_bytes_kst. Qed.

Lemma length_squeeze_blocks n S : kst S → length (Sponge.squeeze_blocks r n S) = (n * r)%nat.
Proof using Hr.
  revert S. induction n as [|n IH]; intros S HS; [done |]. cbn [Sponge.squeeze_blocks].
  rewrite length_app, IH, length_take by apply keccak_f_bytes_kst. destruct HS as [-> _]. lia.
Qed.

Lemma squeeze_blocks_bytes n S : kst S → bytes (Sponge.squeeze_blocks r n S).
Proof using Type.
  revert S. induction n as [|n IH]; intros S HS; [constructor |].
  apply Forall_app_2; [apply Forall_take, HS | apply IH, keccak_f_bytes_kst].
Qed.

(** A piece of the stream inside block [j]. *)
Lemma squeeze_piece n j o k S :
  kst S → (j < n)%nat → (o + k <= r)%nat →
  take k (drop (j * r + o) (Sponge.squeeze_blocks r n S)) = take k (drop o (iter_f j S)).
Proof using Hr.
  revert n S. induction j as [|j IH]; intros n S HS Hj Ho; destruct n as [|n]; try lia;
    cbn [Sponge.squeeze_blocks iter_f].
  - assert (Hl : length (take r S) = r) by (rewrite length_take; destruct HS; lia).
    rewrite Nat.mul_0_l, Nat.add_0_l, drop_app_le, take_app_le by (rewrite ?length_drop; lia).
    rewrite skipn_firstn_comm, take_take. f_equal. lia.
  - rewrite drop_app_ge by (rewrite length_take; destruct HS; lia).
    rewrite length_take, (proj1 HS), Nat.min_l by lia.
    replace (Datatypes.S j * r + o - r)%nat with (j * r + o)%nat by lia.
    apply IH; [apply keccak_f_bytes_kst | lia | done].
Qed.

(** A prefix of the stream does not depend on how many blocks are made. *)
Lemma squeeze_prefix n n' k S :
  kst S → (k <= n * r)%nat → (n <= n')%nat →
  take k (Sponge.squeeze_blocks r n' S) = take k (Sponge.squeeze_blocks r n S).
Proof using Hr.
  revert n' k S. induction n as [|n IH]; intros n' k S HS Hk Hn.
  - replace k with 0%nat by lia. by rewrite !take_0.
  - destruct n' as [|n']; [lia |]. cbn [Sponge.squeeze_blocks].
    assert (Hl : length (take r S) = r) by (rewrite length_take; destruct HS; lia).
    destruct (decide (k <= r)%nat).
    + by rewrite !take_app_le by lia.
    + rewrite !take_app_ge by lia. f_equal. apply IH; [apply keccak_f_bytes_kst | lia | lia].
Qed.

End bytewise.
