(* ===== verification/Sha3Inc.v ===== *)
(** The incremental functions of xkcp_sha3.c compute the sponge: every context
    operation preserves the invariant of its phase and acts on the message it
    stands for, over any implementation of [KeccakLow] that keeps its laws. *)
From S2P Require Import Prelude Keccak KeccakP Sha3 Sha3Spec.

Open Scope c_scope.

Lemma u32_small_nat n : (n < 200)%nat → Z.to_nat (u32 (Z.of_nat n)) = n.
Proof. intros. rewrite u32_small by (unfold in_u32; lia). lia. Qed.

Lemma take_all_prefix (m : list Z) : take (length m) m = m.
Proof. by apply take_ge. Qed.

Section ctx.
Context `{KeccakLowLaws} (r : nat) (Hr : (0 < r < 200)%nat) (p : Z) (Hp : in_u8 p).
Abbreviation rz := (Z.of_nat r).

(** ** The invariants *)

(** The context has absorbed [M]; fewer than [r] bytes wait for a
    permutation. *)
Definition absorbing (s : keccak_ctx) (M : list Z) : Prop :=
  kst (ks s) ∧ bytes M ∧ 0 <= s25 s < rz ∧
  absorb_bytes r (replicate 200 0, 0%nat) M = (kview (ks s), Z.to_nat (s25 s)).

(** The context stands for the padded message [M], of whose output [n] bytes
    have been taken; [s25] of the current block are left. *)
Definition squeezing (s : keccak_ctx) (M : list Z) (n : nat) : Prop :=
  kst (ks s) ∧ bytes M ∧ 0 <= s25 s <= rz ∧
  ∃ b, (n + Z.to_nat (s25 s) = b * r)%nat ∧ kview (ks s) = iter_f b (padded_state r p M).

(** ** Reset *)

Lemma keccak_inc_reset_ok s :
  length (ks s) = 200%nat → wp (keccak_inc_reset s) (λ s', absorbing s' []).
Proof using Hr.
  intros Hl. unfold keccak_inc_reset. eapply wp_then; [by apply Initialize_law |].
  intros k [Hk Hv]. cbn [wp]. unfold absorbing. cbn [ks s25]. split_and!; [done | done | done | lia | by rewrite Hv].
Qed.

(** ** Absorb *)

(** Adding and permuting the bytes that complete a block. *)
Lemma add_permute k m i c :
  kst k → bytes m → (i < r)%nat → (i + c = r)%nat → (c <= length m)%nat →
  wp (k ← Keccak_AddBytes k m i c; Keccak_Permute k) (λ k',
    kst k' ∧ absorb_bytes r (kview k, i) m = absorb_bytes r (kview k', 0%nat) (drop c m)).
Proof using Hr.
  intros Hk Hm Hi Hc Hl.
  eapply wp_then; [apply AddBytes_law; try done; lia |]. intros k1 [Hk1 Hv1].
  eapply wp_mono; [by apply Permute_law |]. intros k2 [Hk2 Hv2]. split; [done |].
  rewrite <-(take_drop c m) at 1. rewrite absorb_bytes_app.
  rewrite absorb_fill; [by rewrite Hv2, Hv1 | done | by apply kview_ok | by apply Forall_take | done |].
  rewrite length_take. lia.
Qed.

Lemma absorb_loop_ok k m :
  kst k → bytes m →
  wp (absorb_loop rz k m) (λ '(k', m'),
    kst k' ∧ bytes m' ∧ (length m' < r)%nat ∧
    absorb_bytes r (kview k, 0%nat) m = absorb_bytes r (kview k', 0%nat) m').
Proof using Hr.
  intros Hk Hm. unfold absorb_loop.
  apply (wp_loop (λ f '(k', m'), kst k' ∧ bytes m' ∧ (length m' < f)%nat ∧
    absorb_bytes r (kview k, 0%nat) m = absorb_bytes r (kview k', 0%nat) m')).
  - split_and!; [done | done | lia | done].
  - intros f [k' m'] (Hk' & Hm' & Hf & He). destruct f as [|f]; [lia |]. exists f. split; [done |].
    case_decide as Hle.
    + rewrite Nat2Z.id.
      assert (Ha : wp (k ← Keccak_AddBytes k' m' 0 r; Keccak_Permute k) (λ k'',
        kst k'' ∧ absorb_bytes r (kview k', 0%nat) m' = absorb_bytes r (kview k'', 0%nat) (drop r m')))
        by (apply add_permute; try done; lia).
      destruct (Keccak_AddBytes k' m' 0 r) as [k1|]; [cbn [mbind option_bind] in Ha |- * | done].
      eapply wp_then; [exact Ha |]. intros k2 [Hk2 He2]. cbn [wp].
      split_and!; [done | by apply Forall_drop | rewrite length_drop; lia | by rewrite He].
    + cbn [wp]. split_and!; [done | done | lia | done].
Qed.

(** The bytes that stay in the block. *)
Lemma absorb_rest k m i s0 :
  kst k → bytes m → (i + length m < r)%nat → s0 = Z.of_nat i →
  wp (k' ← Keccak_AddBytes k m (Z.to_nat (u32 s0)) (Z.to_nat (u32 (Z.of_nat (length m))));
      Some (KeccakCtx k' (u64 (s0 + Z.of_nat (length m))))) (λ s',
    kst (ks s') ∧ 0 <= s25 s' < rz ∧
    absorb_bytes r (kview k, i) m = (kview (ks s'), Z.to_nat (s25 s'))).
Proof using Hr.
  intros Hk Hm Hl ->. rewrite !u32_small_nat by lia.
  eapply wp_then; [apply AddBytes_law; try done; lia |]. intros k1 [Hk1 Hv1]. cbn [wp ks s25].
  rewrite u64_small by (unfold in_u64; lia). rewrite take_all_prefix in Hv1.
  split_and!; [done | lia | lia |].
  rewrite absorb_partial by (try done; by apply kview_ok). rewrite Hv1. f_equal. lia.
Qed.

Lemma keccak_inc_absorb_ok s M m :
  absorbing s M → bytes m → wp (keccak_inc_absorb s rz m) (λ s', absorbing s' (M ++ m)).
Proof using Hr.
  intros (Hk & HM & Hs & Ha) Hm. unfold keccak_inc_absorb.
  destruct s as [k c25]. cbn [ks s25] in *.
  rewrite (u64_small (rz - c25)) by (unfold in_u64; lia).
  set (i := Z.to_nat c25) in *. assert (Hi : c25 = Z.of_nat i) by lia.
  set (T := absorb_bytes r (kview k, i) m).
  assert (HT : absorb_bytes r (replicate 200 0, 0%nat) (M ++ m) = T) by (rewrite absorb_bytes_app, Ha; done).
  eapply (wp_then _ _ (λ '(s', m'), kst (ks s') ∧ bytes m' ∧ ∃ j, s25 s' = Z.of_nat j ∧ (j < r)%nat ∧
    (j = 0 ∨ j + length m' < r)%nat ∧ T = absorb_bytes r (kview (ks s'), j) m')).
  { case_decide as Hc.
    - rewrite Hi, u32_small_nat, u32_small, Z2Nat.inj_sub, !Nat2Z.id by (unfold in_u32; lia).
      assert (Hb : wp (k1 ← Keccak_AddBytes k m i (r - i); Keccak_Permute k1) (λ k',
        kst k' ∧ T = absorb_bytes r (kview k', 0%nat) (drop (r - i) m))) by (apply add_permute; try done; lia).
      destruct (Keccak_AddBytes k m i (r - i)) as [k1|]; [cbn [mbind option_bind] in Hb |- * | done].
      eapply wp_then; [exact Hb |]. intros k2 [Hk2 He2]. cbn [wp ks s25].
      split_and!; [done | by apply Forall_drop |]. exists 0%nat. split_and!; [done | lia | by left | done].
    - cbn [wp ks s25]. split_and!; [done | done |]. exists i. split_and!; [done | lia | lia | done]. }
  intros [s1 m1] (Hk1 & Hm1 & j & Hj & Hjr & Hjm & HT1).
  eapply (wp_then _ _ (λ '(k', m'), kst k' ∧ bytes m' ∧ (j + length m' < r)%nat ∧
    T = absorb_bytes r (kview k', j) m')).
  { destruct Hjm as [->|Hjm].
    - eapply wp_mono; [by apply absorb_loop_ok |]. intros [k' m'] (? & ? & ? & E). split_and!; [done | done | lia | congruence].
    - unfold absorb_loop. cbn [loop]. rewrite decide_False by lia. cbn. split_and!; done. }
  intros [k2 m2] (Hk2 & Hm2 & Hl2 & HT2).
  eapply wp_mono; [by apply (absorb_rest k2 m2 j) |]. intros s' (Hk' & Hr' & E).
  split_and!; [done | by apply Forall_app_2 | lia | lia | congruence].
Qed.

(** ** Finalize *)

(** The two bytes added to the block are the padding. *)
Lemma pad_added S i len :
  (len mod r = i)%nat → (i < r)%nat →
  xorv (xorv S (at_off i [p])) (at_off (r - 1) [0x80]) = xorv S (at_off i (Sponge.pad r p len)).
Proof using Hr.
  intros Hi Hir. rewrite xorv_assoc. f_equal. unfold Sponge.pad. rewrite Hi. case_decide as Hq.
  - replace (r - 1)%nat with i by lia. unfold at_off. cbn [length].
    rewrite xorv_app, xorv_zero by (by rewrite ?length_replicate). f_equal.
    rewrite xorv_app by done. f_equal. apply xorv_zero, length_replicate.
  - change (p :: replicate (r - i - 2) 0 ++ [128]) with ([p] ++ replicate (r - i - 2) 0 ++ [128]).
    rewrite (at_off_app i), (at_off_app (i + length [p]))
      by (rewrite ?length_app, ?length_replicate; cbn [length]; lia).
    rewrite length_replicate. cbn [length]. f_equal.
    replace (i + 1 + (r - i - 2))%nat with (r - 1)%nat by lia.
    assert (Hz : at_off (i + 1) (replicate (r - i - 2) 0) = replicate 200 0).
    { unfold at_off. rewrite length_replicate, <-!replicate_add. f_equal. lia. }
    rewrite Hz, xorv_comm. symmetry. apply xorv_zero, length_at_off. simpl. lia.
Qed.

Lemma keccak_inc_finalize_ok s M :
  absorbing s M → wp (keccak_inc_finalize s rz p) (λ s', squeezing s' M 0).
Proof using Hr Hp.
  intros (Hk & HM & Hs & Ha). unfold keccak_inc_finalize.
  pose proof (absorb_pos r Hr (replicate 200 0) M) as Hpos. rewrite Ha in Hpos. cbn [snd] in Hpos.
  set (i := Z.to_nat (s25 s)) in *. assert (Hi : s25 s = Z.of_nat i) by lia.
  rewrite Hi, u32_small_nat by lia. replace (rz - 1) with (Z.of_nat (r - 1)) by lia. rewrite u32_small_nat by lia.
  eapply wp_then; [apply AddByte_law; [done | done | lia] |]. intros k1 [Hk1 Hv1].
  eapply wp_then; [apply AddByte_law; [done | done | lia] |]. intros k2 [Hk2 Hv2]. cbn [wp].
  unfold squeezing. cbn [ks s25]. split_and!; [done | done | lia | lia |]. exists 0%nat. split; [done |].
  rewrite Hv2, Hv1. cbn [iter_f]. unfold padded_state. rewrite Ha. by apply pad_added; [| lia].
Qed.

(** ** Squeeze *)

(** The output stream of a message. *)
Definition stream (M : list Z) (n : nat) : list Z := Sponge.sponge r p M n.

Lemma padded_kst M : bytes M → kst (padded_state r p M).
Proof using Hr Hp.
  intros HM. unfold padded_state. pose proof (absorb_kst r Hr (replicate 200 0) M 0 zeros_kst HM ltac:(lia)) as [HS Hi].
  pose proof (absorb_pos r Hr (replicate 200 0) M) as Hpos.
  destruct (absorb_bytes r _ M) as [S i]. cbn [fst snd] in *. subst i.
  apply kst_at_off; [done | by apply pad_bytes | rewrite length_pad by done; lia].
Qed.

(** The stream as a prefix of any sufficient number of blocks. *)
Lemma stream_blocks M n B :
  bytes M → (n <= B * r)%nat →
  stream M n = take n (Sponge.squeeze_blocks r B (keccak_f_bytes (padded_state r p M))).
Proof using Hr Hp.
  intros HM Hn. unfold stream. rewrite sponge_padded by done.
  pose proof (Nat.div_mod_eq n r). pose proof (Nat.mod_upper_bound n r).
  destruct (decide (B <= S (n / r))%nat).
  - apply squeeze_prefix; [done | apply keccak_f_bytes_kst | done | done].
  - symmetry. apply squeeze_prefix; [done | apply keccak_f_bytes_kst | lia | lia].
Qed.

Lemma length_stream M n : bytes M → length (stream M n) = n.
Proof using Hr Hp.
  intros HM. rewrite (stream_blocks M n n HM) by nia.
  rewrite length_take, length_squeeze_blocks by (try done; apply keccak_f_bytes_kst). nia.
Qed.

Lemma stream_bytes M n : bytes M → bytes (stream M n).
Proof using Hr Hp.
  intros HM. rewrite (stream_blocks M n n HM) by nia. apply Forall_take.
  apply squeeze_blocks_bytes, keccak_f_bytes_kst.
Qed.

Lemma stream_prefix M n k : bytes M → (k <= n)%nat → take k (stream M n) = stream M k.
Proof using Hr Hp.
  intros HM Hk. rewrite (stream_blocks M n n HM), (stream_blocks M k n HM) by nia.
  rewrite take_take. f_equal. lia.
Qed.

(** The rest of the current block. *)
Lemma squeeze_extract s M n k :
  squeezing s M n → (k <= Z.to_nat (s25 s))%nat →
  Keccak_ExtractBytes (ks s) (Z.to_nat (u32 (rz - s25 s))) (Z.to_nat (u32 (Z.of_nat k)))
  = Some (drop n (stream M (n + k))).
Proof using Hr Hp.
  intros (Hk & HM & Hs & b & Hb & Hv) Hle. set (l := Z.to_nat (s25 s)) in *.
  replace (rz - s25 s) with (Z.of_nat (r - l)) by lia.
  assert (Hu : Z.to_nat (u32 (Z.of_nat (r - l))) = (r - l)%nat) by (apply u32_small_nat; lia).
  rewrite Hu, u32_small_nat by lia.
  rewrite ExtractBytes_law by (done || lia). f_equal. rewrite Hv.
  destruct b as [|b].
  { assert (k = 0%nat) as -> by lia. rewrite take_0, drop_ge; [done |]. rewrite length_stream by done. lia. }
  rewrite iter_f_S. rewrite (stream_blocks M (n + k) (S b) HM) by lia.
  rewrite <-take_drop_commute. replace n with (b * r + (r - l))%nat by lia.
  rewrite (squeeze_piece r Hr) by (try apply keccak_f_bytes_kst; lia). by rewrite <-iter_f_S.
Qed.

(** A permutation makes the next block available. *)
Lemma squeeze_next k M n :
  kst k → bytes M → (∃ b, n = (b * r)%nat ∧ kview k = iter_f b (padded_state r p M)) →
  wp (Keccak_Permute k) (λ k', squeezing (KeccakCtx k' rz) M n).
Proof using Hr.
  intros Hk HM (b & -> & Hv). eapply wp_mono; [by apply Permute_law |]. intros k' [Hk' Hv'].
  unfold squeezing. cbn [ks s25]. split_and!; [done | done | lia | lia |]. exists (S b).
  rewrite iter_f_S, Hv', Hv. split; [lia | done].
Qed.

Lemma stream_split M n a b :
  bytes M → drop n (stream M (n + a)) ++ drop (n + a) (stream M (n + a + b)) = drop n (stream M (n + (a + b))).
Proof using Hr Hp.
  intros HM. rewrite <-(stream_prefix M (n + a + b) (n + a) HM) by lia.
  rewrite <-(take_drop (n + a) (stream M (n + (a + b)))). rewrite Nat.add_assoc.
  rewrite (drop_app_le (take _ _)); [done |]. rewrite length_take, length_stream by done. lia.
Qed.

Lemma keccak_inc_squeeze_ok s M n len :
  squeezing s M n →
  wp (keccak_inc_squeeze len s rz) (λ '(out, s'),
    out = drop n (stream M (n + len)) ∧ squeezing s' M (n + len)).
Proof using Hr Hp.
  intros Hs. pose proof Hs as (_ & HM & _). unfold keccak_inc_squeeze.
  eapply (wp_then _ _ (λ '(h, rem, s'), ∃ a, (a + rem = len)%nat ∧ h = drop n (stream M (n + a)) ∧
    squeezing s' M (n + a) ∧ Z.of_nat rem <= s25 s')).
  - apply (wp_loop (λ f '(h, rem, s'), ∃ a, (a + rem = len)%nat ∧ h = drop n (stream M (n + a)) ∧
      squeezing s' M (n + a) ∧ (rem + (if decide (s25 s' = 0%Z) then 1 else 0) < f)%nat)).
    { exists 0%nat. rewrite Nat.add_0_r. split_and!; [done | | done | case_decide; lia].
      rewrite drop_ge; [done |]. rewrite length_stream by done. lia. }
    intros f [[h rem] s'] (a & Ha & -> & Hs' & Hf). destruct f as [|f]; [lia |]. exists f. split; [done |].
    pose proof Hs' as (Hk & _ & Hb & b & Hn & Hv).
    destruct (decide (s25 s' < Z.of_nat rem)) as [Hc|Hc]; [| cbn; exists a; split_and!; [done | done | done | lia]].
    eapply wp_step.
    { replace (s25 s') with (Z.of_nat (Z.to_nat (s25 s'))) at 2 by lia. by apply (squeeze_extract s' M (n + a)). }
    eapply wp_then; [apply (squeeze_next _ M (n + a + Z.to_nat (s25 s'))); [done | done | by exists b] |].
    intros k2 Hk2. cbn. exists (a + Z.to_nat (s25 s'))%nat. rewrite stream_split, Nat.add_assoc by done.
    split_and!; [lia | done | done |]. cbn [s25]. rewrite decide_False by lia. case_decide; lia.
  - intros [[h rem] s'] (a & Ha & -> & Hs' & Hle). eapply wp_step; [apply (squeeze_extract s' M (n + a)); [done | lia] |].
    cbn [wp]. rewrite stream_split by done. rewrite Ha. split; [done |].
    destruct Hs' as (Hk & _ & Hb & b & Hn & Hv). unfold squeezing. cbn [ks s25].
    rewrite u64_small by (unfold in_u64; lia). split_and!; [done | done | lia | lia |]. exists b. split; [lia | done].
Qed.

End ctx.
