(* ===== verification/Sha3Api.v ===== *)
(** What a table of SHA-3 callbacks promises to the algorithms that use it, and
    that the default table keeps the promise over every [KeccakLow] with its
    laws. *)
From S2P Require Import Prelude Keccak KeccakP Sha3 Sha3Spec Sha3Inc.

Open Scope c_scope.

(** ** Contracts *)

(** An extendable-output function: a context in the absorbing phase stands for
    the bytes absorbed, in the squeezing phase for the message and the number
    of bytes already output. *)
Class XofContract (o : shake_inc_ops) := {
  xof : list Z → nat → list Z;
  x_live : keccak_state → Prop;
  x_abs : keccak_state → list Z → Prop;
  x_sqz : keccak_state → list Z → nat → Prop;
  x_abs_live s M : x_abs s M → x_live s;
  x_sqz_live s M n : x_sqz s M n → x_live s;
  length_xof M n : bytes M → length (xof M n) = n;
  xof_bytes M n : bytes M → bytes (xof M n);
  xof_prefix M n k : bytes M → (k <= n)%nat → take k (xof M n) = xof M k;
  xop_init_ok : wp (xop_init o) (λ s, x_abs s []);
  xop_absorb_ok s M m : x_abs s M → bytes m → wp (xop_absorb o s m) (λ s', x_abs s' (M ++ m));
  xop_finalize_ok s M : x_abs s M → wp (xop_finalize o s) (λ s', x_sqz s' M 0);
  xop_squeeze_ok s M n len : x_sqz s M n →
    wp (xop_squeeze o len s) (λ '(out, s'), out = drop n (xof M (n + len)) ∧ x_sqz s' M (n + len));
  xop_release_ok s : x_live s → wp (xop_release o s) (λ s', s' = None);
  xop_clone_abs_ok d s M : x_live d → x_abs s M → wp (xop_clone o d s) (λ s', x_abs s' M);
  xop_clone_sqz_ok d s M n : x_live d → x_sqz s M n → wp (xop_clone o d s) (λ s', x_sqz s' M n);
  xop_reset_ok s : x_live s → wp (xop_reset o s) (λ s', x_abs s' []);
}.

(** A hash function of fixed output length. *)
Class HashContract (o : sha3_inc_ops) := {
  hash : list Z → list Z;
  h_live : keccak_state → Prop;
  h_abs : keccak_state → list Z → Prop;
  h_abs_live s M : h_abs s M → h_live s;
  op_init_ok : wp (op_init o) (λ s, h_abs s []);
  op_absorb_ok s M m : h_abs s M → bytes m → wp (op_absorb o s m) (λ s', h_abs s' (M ++ m));
  op_finalize_ok s M : h_abs s M → wp (op_finalize o s) (λ '(out, s'), out = hash M ∧ h_live s');
  op_release_ok s : h_live s → wp (op_release o s) (λ s', s' = None);
  op_clone_ok d s M : h_live d → h_abs s M → wp (op_clone o d s) (λ s', h_abs s' M);
  op_reset_ok s : h_live s → wp (op_reset o s) (λ s', h_abs s' []);
}.

Arguments xof {o _}.
Arguments hash {o _}.

(** The table: the incremental operations and the one-shot functions agree. *)
Class Sha3Contract (cb : OQS_SHA3_callbacks) := {
  #[global] c_sha3_256 :: HashContract (cb_sha3_256_inc cb);
  #[global] c_sha3_384 :: HashContract (cb_sha3_384_inc cb);
  #[global] c_sha3_512 :: HashContract (cb_sha3_512_inc cb);
  #[global] c_shake128 :: XofContract (cb_shake128_inc cb);
  #[global] c_shake256 :: XofContract (cb_shake256_inc cb);
  sha3_256_ok M : bytes M → OQS_SHA3_sha3_256 cb M = Some (hash (HashContract := c_sha3_256) M);
  sha3_384_ok M : bytes M → OQS_SHA3_sha3_384 cb M = Some (hash (HashContract := c_sha3_384) M);
  sha3_512_ok M : bytes M → OQS_SHA3_sha3_512 cb M = Some (hash (HashContract := c_sha3_512) M);
  shake128_ok M n : bytes M → OQS_SHA3_shake128 cb n M = Some (xof (XofContract := c_shake128) M n);
  shake256_ok M n : bytes M → OQS_SHA3_shake256 cb n M = Some (xof (XofContract := c_shake256) M n);
}.

(** ** The one-shot functions of the default table use the incremental ones *)

Lemma sha3_once_ok o `{HashContract o} M : bytes M → sha3_once o M = Some (hash M).
Proof.
  intros HM. apply wp_eq. unfold sha3_once.
  eapply wp_then; [apply op_init_ok |]. intros s Hs.
  eapply wp_then; [apply (op_absorb_ok _ _ _ Hs HM) |]. intros s1 Hs1.
  eapply wp_then; [apply (op_finalize_ok _ _ Hs1) |]. intros [out s2] [-> Hs2].
  eapply wp_then; [apply (op_release_ok _ Hs2) |]. done.
Qed.

Lemma shake_once_ok o `{XofContract o} M n : bytes M → shake_once o n M = Some (xof M n).
Proof.
  intros HM. apply wp_eq. unfold shake_once.
  eapply wp_then; [apply xop_init_ok |]. intros s Hs.
  eapply wp_then; [apply (xop_absorb_ok _ _ _ Hs HM) |]. intros s1 Hs1.
  eapply wp_then; [apply (xop_finalize_ok _ _ Hs1) |]. intros s2 Hs2.
  eapply wp_then; [apply (xop_squeeze_ok _ _ _ n Hs2) |]. intros [out s3] [-> Hs3].
  eapply wp_then; [apply (xop_release_ok _ (x_sqz_live _ _ _ Hs3)) |]. done.
Qed.

(** ** The default table *)

Section default.
Context `{KeccakLowLaws} {U : Uninit}.

(** A context pointer that points to a context of the phase. *)
Definition live (s : keccak_state) : Prop := ∃ c, s = Some c ∧ kst (ks c).
Definition s_abs (r : nat) (s : keccak_state) (M : list Z) : Prop := ∃ c, s = Some c ∧ absorbing r c M.
Definition s_sqz (r : nat) (p : Z) (s : keccak_state) (M : list Z) (n : nat) : Prop :=
  ∃ c, s = Some c ∧ squeezing r p c M n.

Lemma s_abs_live r s M : s_abs r s M → live s.
Proof using Type. intros (c & -> & Hc & _). by exists c. Qed.
Lemma s_sqz_live r p s M n : s_sqz r p s M n → live s.
Proof using Type. intros (c & -> & Hc & _). by exists c. Qed.

Section rate.
Context (r : nat) (Hr : (0 < r < 200)%nat) (p : Z) (Hp : in_u8 p).
Abbreviation rz := (Z.of_nat r).

Lemma inc_init_ok : wp inc_init (λ s, s_abs r s []).
Proof using Hr.
  unfold inc_init. eapply wp_then; [apply (keccak_inc_reset_ok r Hr), length_uninit |].
  intros c Hc. by exists c.
Qed.
Lemma inc_absorb_ok s M m :
  s_abs r s M → bytes m → wp (inc_absorb rz s m) (λ s', s_abs r s' (M ++ m)).
Proof using Hr.
  intros (c & -> & Hc) Hm. cbn. eapply wp_then; [by apply keccak_inc_absorb_ok |].
  intros c' Hc'. by exists c'.
Qed.
Lemma inc_finalize_ok s M : s_abs r s M → wp (inc_finalize rz p s) (λ s', s_sqz r p s' M 0).
Proof using Hr Hp.
  intros (c & -> & Hc). cbn. eapply wp_then; [by apply keccak_inc_finalize_ok |]. intros c' Hc'. by exists c'.
Qed.
Lemma inc_squeeze_ok s M n len :
  s_sqz r p s M n →
  wp (inc_squeeze rz len s) (λ '(out, s'), out = drop n (stream r p M (n + len)) ∧ s_sqz r p s' M (n + len)).
Proof using Hr Hp.
  intros (c & -> & Hc). cbn. eapply wp_then; [by apply (keccak_inc_squeeze_ok r Hr p Hp _ M n) |].
  intros [out c'] [-> Hc']. split; [done |]. by exists c'.
Qed.
Lemma inc_release_ok s : live s → wp (inc_release s) (λ s', s' = None).
Proof using Type. by intros (c & -> & _). Qed.
Lemma inc_clone_eq d s : live d → live s → inc_clone d s = Some s.
Proof using Type. by intros (c & -> & _) (c' & -> & _). Qed.
Lemma inc_reset_ok s : live s → wp (inc_reset s) (λ s', s_abs r s' []).
Proof using Hr.
  intros (c & -> & [Hc _]). cbn. eapply wp_then; [by apply (keccak_inc_reset_ok r Hr) |].
  intros c' Hc'. by exists c'.
Qed.

(** Finalizing a hash: the padding, then the digest. *)
Lemma inc_digest_ok s M n :
  s_abs r s M →
  wp (s ← inc_finalize rz p s; inc_squeeze rz n s) (λ '(out, s'), out = stream r p M n ∧ live s').
Proof using Hr Hp.
  intros Hs. eapply wp_then; [by apply inc_finalize_ok |]. intros s1 Hs1.
  eapply wp_mono; [apply (inc_squeeze_ok _ _ _ n Hs1) |]. intros [out s2] [-> Hs2]. rewrite drop_0.
  split; [done | by eapply s_sqz_live].
Qed.

Lemma x_contract o :
  o = {| xop_init := inc_init; xop_absorb := inc_absorb rz; xop_finalize := inc_finalize rz p;
         xop_squeeze := inc_squeeze rz; xop_release := inc_release; xop_clone := inc_clone;
         xop_reset := inc_reset |} → XofContract o.
Proof using Hr Hp H0.
  intros ->. refine {| xof := Sponge.sponge r p; x_live := live; x_abs := s_abs r; x_sqz := s_sqz r p |}; cbn.
  - apply s_abs_live.
  - apply s_sqz_live.
  - apply (length_stream r Hr p Hp).
  - apply (stream_bytes r Hr p Hp).
  - apply (stream_prefix r Hr p Hp).
  - apply inc_init_ok.
  - apply inc_absorb_ok.
  - apply inc_finalize_ok.
  - apply inc_squeeze_ok.
  - apply inc_release_ok.
  - intros d s M Hd Hs. by rewrite inc_clone_eq by (done || by eapply s_abs_live).
  - intros d s M n Hd Hs. by rewrite inc_clone_eq by (done || by eapply s_sqz_live).
  - apply inc_reset_ok.
Defined.

Lemma h_contract o n :
  o = {| op_init := inc_init; op_absorb := inc_absorb rz;
         op_finalize := λ s, s ← inc_finalize rz p s; inc_squeeze rz n s;
         op_release := inc_release; op_reset := inc_reset; op_clone := inc_clone |} → HashContract o.
Proof using Hr Hp H0.
  intros ->. refine {| hash := λ M, Sponge.sponge r p M n; h_live := live; h_abs := s_abs r |}; cbn.
  - apply s_abs_live.
  - apply inc_init_ok.
  - apply inc_absorb_ok.
  - intros s M Hs. apply (inc_digest_ok s M n Hs).
  - apply inc_release_ok.
  - intros d s M Hd Hs. by rewrite inc_clone_eq by (done || by eapply s_abs_live).
  - apply inc_reset_ok.
Defined.
End rate.

#[export] Instance sha3_default_contract : Sha3Contract sha3_default_callbacks.
Proof using H0.
  refine {|
    c_sha3_256 := h_contract 136 ltac:(lia) 0x06 ltac:(done) (cb_sha3_256_inc sha3_default_callbacks) 32 eq_refl;
    c_sha3_384 := h_contract 104 ltac:(lia) 0x06 ltac:(done) (cb_sha3_384_inc sha3_default_callbacks) 48 eq_refl;
    c_sha3_512 := h_contract 72 ltac:(lia) 0x06 ltac:(done) (cb_sha3_512_inc sha3_default_callbacks) 64 eq_refl;
    c_shake128 := x_contract 168 ltac:(lia) 0x1F ltac:(done) (cb_shake128_inc sha3_default_callbacks) eq_refl;
    c_shake256 := x_contract 136 ltac:(lia) 0x1F ltac:(done) (cb_shake256_inc sha3_default_callbacks) eq_refl
  |}; intros; by (apply sha3_once_ok || apply shake_once_ok).
Defined.

(** The functions the default table computes. *)
Lemma default_shake128 M n : xof (XofContract := c_shake128) M n = SHAKE128 M n.
Proof using Type. done. Qed.
Lemma default_shake256 M n : xof (XofContract := c_shake256) M n = SHAKE256 M n.
Proof using Type. done. Qed.

End default.
