(* ===== verification/Sha3Theorems.v ===== *)
(** The theorems about SHA-3 and SHAKE (sha3.c, xkcp_sha3.c and the Keccak
    permutation), for the default table of callbacks over the plain 64-bit
    implementation, on machines with and without misaligned word access. *)
From S2P Require Import Prelude Keccak KeccakP KeccakPlain Sha3 Sha3Spec Sha3Inc Sha3Api.
Open Scope c_scope.

(** The table that xkcp_sha3.c installs, over the plain 64-bit functions. *)
Definition default64 {U : Uninit} (misaligned : bool) : OQS_SHA3_callbacks :=
  @sha3_default_callbacks (plain64 misaligned) U.

#[export] Instance default64_contract {U : Uninit} misaligned : Sha3Contract (default64 misaligned) :=
  @sha3_default_contract (plain64 misaligned) (plain64_laws misaligned) U.

(** ** Use of an extendable-output context, as a specification *)

(** The calls on a context between [init] and [release]. *)
Inductive xof_call := Absorb (m : list Z) | Finalize | Squeeze (len : nat) | CtxReset.

(** What a context stands for: the message absorbed, or the message and how
    much of its output has been taken. *)
Inductive phase := Absorbing (M : list Z) | Squeezing (M : list Z) (n : nat).

(** The calls that the interface allows in each phase and what they return,
    for the function [F]. *)
Inductive spec_step (F : list Z → nat → list Z) : phase → xof_call → list Z → phase → Prop :=
  | spec_absorb M m : bytes m → spec_step F (Absorbing M) (Absorb m) [] (Absorbing (M ++ m))
  | spec_finalize M : spec_step F (Absorbing M) Finalize [] (Squeezing M 0)
  | spec_squeeze M n len : spec_step F (Squeezing M n) (Squeeze len) (drop n (F M (n + len)%nat)) (Squeezing M (n + len))
  | spec_reset p : spec_step F p CtxReset [] (Absorbing []).

(** A sequence of calls; the outputs are concatenated. *)
Inductive spec_run (F : list Z → nat → list Z) : phase → list xof_call → list Z → phase → Prop :=
  | run_nil p : spec_run F p [] [] p
  | run_cons p c out p1 cs outs p2 :
      spec_step F p c out p1 → spec_run F p1 cs outs p2 → spec_run F p (c :: cs) (out ++ outs) p2.

(** The same calls on the code. *)
Definition call (o : shake_inc_ops) (c : xof_call) (s : keccak_state) : option (list Z * keccak_state) :=
  match c with
  | Absorb m => s ← xop_absorb o s m; Some ([], s)
  | Finalize => s ← xop_finalize o s; Some ([], s)
  | Squeeze len => xop_squeeze o len s
  | CtxReset => s ← xop_reset o s; Some ([], s)
  end.
Fixpoint run_calls (o : shake_inc_ops) (cs : list xof_call) (s : keccak_state) : option (list Z * keccak_state) :=
  match cs with
  | [] => Some ([], s)
  | c :: cs => '(out, s) ← call o c s; '(outs, s) ← run_calls o cs s; Some (out ++ outs, s)
  end.

Section xof_refinement.
Context (o : shake_inc_ops) {XC : XofContract o}.

(** The state [s] stands for the phase. *)
Definition represents (s : keccak_state) (p : phase) : Prop :=
  match p with Absorbing M => x_abs s M | Squeezing M n => x_sqz s M n end.
Lemma represents_live s p : represents s p → x_live s.
Proof using Type. destruct p; [apply x_abs_live|apply x_sqz_live]. Qed.

Lemma call_refines s p c out p' :
  represents s p → spec_step xof p c out p' → wp (call o c s) (λ '(out', s'), out' = out ∧ represents s' p').
Proof using Type.
  intros Hs Hc. destruct Hc as [M m Hm|M|M n len|p]; cbn [call represents] in *.
  - eapply wp_then; [exact (xop_absorb_ok _ _ _ Hs Hm)|]. by intros s' Hs'.
  - eapply wp_then; [exact (xop_finalize_ok _ _ Hs)|]. by intros s' Hs'.
  - exact (xop_squeeze_ok _ _ _ len Hs).
  - eapply wp_then; [exact (xop_reset_ok _ (represents_live _ _ Hs))|]. by intros s' Hs'.
Qed.

Lemma run_refines p cs outs p' s :
  spec_run xof p cs outs p' → represents s p →
  wp (run_calls o cs s) (λ '(out, s'), out = outs ∧ represents s' p').
Proof using Type.
  intros Hr. revert s. induction Hr as [|p c out p1 cs outs p2 Hc Hr IH]; intros s Hs; cbn [run_calls]; [done|].
  eapply wp_then; [exact (call_refines _ _ _ _ _ Hs Hc)|]. intros [out' s1] [-> Hs1].
  eapply wp_then; [exact (IH s1 Hs1)|]. by intros [outs' s2] [-> Hs2].
Qed.

Lemma session_refines cs outs p :
  spec_run xof (Absorbing []) cs outs p →
  wp (s ← xop_init o; '(out, s) ← run_calls o cs s; s ← xop_release o s; Some (out, s)) (λ '(out, s), out = outs ∧ s = None).
Proof using XC.
  intros Hr. eapply wp_then; [apply xop_init_ok|]. intros s Hs.
  eapply wp_then; [exact (run_refines _ _ _ _ _ Hr Hs)|]. intros [out s1] [-> Hs1].
  eapply wp_then; [exact (xop_release_ok _ (represents_live _ _ Hs1))|]. done.
Qed.
End xof_refinement.

(** ** Reachable contexts *)

(** The contexts that calls in the order of the interface produce, by phase:
    [false] while absorbing, [true] while squeezing. *)
Inductive reachable (o : shake_inc_ops) : bool → keccak_state → Prop :=
  | reach_init s : xop_init o = Some s → reachable o false s
  | reach_absorb s m s' : reachable o false s → bytes m → xop_absorb o s m = Some s' → reachable o false s'
  | reach_finalize s s' : reachable o false s → xop_finalize o s = Some s' → reachable o true s'
  | reach_squeeze s len out s' : reachable o true s → xop_squeeze o len s = Some (out, s') → reachable o true s'
  | reach_reset b s s' : reachable o b s → xop_reset o s = Some s' → reachable o false s'
  | reach_clone b b' d s s' : reachable o b d → reachable o b' s → xop_clone o d s = Some s' → reachable o b' s'.

Lemma wp_at {A} (m : option A) a P : wp m P → m = Some a → P a.
Proof. by intros H ->. Qed.

(** Every reachable context stands for some phase. *)
Lemma reachable_represents o {XC : XofContract o} b s :
  reachable o b s → ∃ p, represents o s p ∧ match p with Absorbing _ => b = false | Squeezing _ _ => b = true end.
Proof.
  induction 1 as [s E|s m s' _ (p & Hp & Hb) Hm E|s s' _ (p & Hp & Hb) E|s len out s' _ (p & Hp & Hb) E
                 |b s s' _ (p & Hp & _) E|b b' d s s' _ (q & Hq & _) _ (p & Hp & Hb) E].
  - exists (Absorbing []). split; [|done]. exact (wp_at _ _ _ xop_init_ok E).
  - destruct p as [M|]; [|done]. exists (Absorbing (M ++ m)). split; [|done]. exact (wp_at _ _ _ (xop_absorb_ok _ _ _ Hp Hm) E).
  - destruct p as [M|]; [|done]. exists (Squeezing M 0). split; [|done]. exact (wp_at _ _ _ (xop_finalize_ok _ _ Hp) E).
  - destruct p as [|M n]; [done|]. exists (Squeezing M (n + len)). split; [|done].
    exact (proj2 (wp_at _ _ _ (xop_squeeze_ok _ _ _ len Hp) E)).
  - exists (Absorbing []). split; [|done]. exact (wp_at _ _ _ (xop_reset_ok _ (represents_live o _ _ Hp)) E).
  - exists p. split; [|done]. apply (represents_live o) in Hq. destruct p as [M|M n].
    + exact (wp_at _ _ _ (xop_clone_abs_ok _ _ _ Hq Hp) E).
    + exact (wp_at _ _ _ (xop_clone_sqz_ok _ _ _ _ Hq Hp) E).
Qed.

(** ... and so none of the calls allowed in its phase fails. *)
Definition never_stuck (o : shake_inc_ops) (b : bool) (s : keccak_state) : Prop :=
  is_Some (xop_reset o s) ∧ is_Some (xop_release o s) ∧
  (if b then ∀ len, is_Some (xop_squeeze o len s)
   else is_Some (xop_finalize o s) ∧ ∀ m, bytes m → is_Some (xop_absorb o s m)).

Lemma wp_some {A} (m : option A) P : wp m P → is_Some m.
Proof. by destruct m. Qed.

Lemma represents_progress o {XC : XofContract o} s p :
  represents o s p → never_stuck o (match p with Absorbing _ => false | Squeezing _ _ => true end) s.
Proof.
  intros Hp. split; [exact (wp_some _ _ (xop_reset_ok _ (represents_live o _ _ Hp)))|].
  split; [exact (wp_some _ _ (xop_release_ok _ (represents_live o _ _ Hp)))|].
  destruct p as [M|M n].
  - split; [exact (wp_some _ _ (xop_finalize_ok _ _ Hp))|]. intros m Hm. exact (wp_some _ _ (xop_absorb_ok _ _ _ Hp Hm)).
  - intros len. exact (wp_some _ _ (xop_squeeze_ok _ _ _ len Hp)).
Qed.

Section claims.
Context {U : Uninit} (misaligned : bool).
Abbreviation cb := (default64 misaligned).

(** C17 The Keccak permutation: on every 200-byte state, the unrolled rounds on
    lanes kept in complemented form, [KeccakP1600_Permute_24rounds], compute
    Keccak-f[1600] of FIPS 202 (theta, rho, pi, chi and iota, with the round
    constants of its shift register), and the 12-round variant Keccak-p[1600,12],
    on the bytes that the storage stands for. *)
Theorem keccak_permutation_is_fips202 (s : list Z) :
  length s = 200%nat → bytes s →
  wp (KeccakP1600_Permute_24rounds s) (λ s', length s' = 200%nat ∧ bytes s' ∧
    plain_view s' = lanes_bytes (Fips.keccak_f (bytes_lanes (plain_view s)))) ∧
  wp (KeccakP1600_Permute_12rounds s) (λ s', length s' = 200%nat ∧ bytes s' ∧
    plain_view s' = lanes_bytes (Fips.keccak_p 12 (bytes_lanes (plain_view s)))).
Proof using Type.
  intros Hl Hb. split.
  - eapply wp_mono; [by apply Permute_24rounds_ok|]. by intros s' [[? ?] ?].
  - eapply wp_mono; [by apply Permute_12rounds_ok|]. by intros s' [[? ?] ?].
Qed.

(** C16 The SHA-3 functions: on every message, [OQS_SHA3_sha3_256], [_384], [_512],
    [OQS_SHA3_shake128] and [OQS_SHA3_shake256] return the digest that FIPS 202
    defines (the sponge with Keccak-f[1600] and pad10*1), whatever the memory
    of the context held. *)
Theorem sha3_is_fips202 (M : list Z) (d : nat) :
  bytes M →
  OQS_SHA3_sha3_256 cb M = Some (SHA3_256 M) ∧ OQS_SHA3_sha3_384 cb M = Some (SHA3_384 M) ∧
  OQS_SHA3_sha3_512 cb M = Some (SHA3_512 M) ∧ OQS_SHA3_shake128 cb d M = Some (SHAKE128 M d) ∧
  OQS_SHA3_shake256 cb d M = Some (SHAKE256 M d).
Proof using Type.
  intros HM. split; [exact (sha3_256_ok M HM)|]. split; [exact (sha3_384_ok M HM)|]. split; [exact (sha3_512_ok M HM)|].
  split; [exact (shake128_ok M d HM)|exact (shake256_ok M d HM)].
Qed.

(** C18 Incremental use: for every sequence of absorb, finalize, squeeze and reset
    calls that the interface allows, the code returns, releases its context and
    has output exactly the bytes of SHAKE128 or SHAKE256 of what was absorbed
    since the last reset, in order, however input and output were split. *)
Theorem shake_sessions_refine (cs : list xof_call) (outs : list Z) (p : phase) :
  (spec_run SHAKE128 (Absorbing []) cs outs p →
   (s ← OQS_SHA3_shake128_inc_init cb; '(out, s) ← run_calls (cb_shake128_inc cb) cs s;
    s ← OQS_SHA3_shake128_inc_ctx_release cb s; Some (out, s)) = Some (outs, None)) ∧
  (spec_run SHAKE256 (Absorbing []) cs outs p →
   (s ← OQS_SHA3_shake256_inc_init cb; '(out, s) ← run_calls (cb_shake256_inc cb) cs s;
    s ← OQS_SHA3_shake256_inc_ctx_release cb s; Some (out, s)) = Some (outs, None)).
Proof using Type.
  split; intros Hr.
  - change SHAKE128 with (@xof _ (c_shake128 (Sha3Contract := default64_contract misaligned))) in Hr.
    destruct (proj1 (wp_exists _ _) (session_refines (cb_shake128_inc cb) cs outs p Hr)) as ([out s] & E & -> & ->). exact E.
  - change SHAKE256 with (@xof _ (c_shake256 (Sha3Contract := default64_contract misaligned))) in Hr.
    destruct (proj1 (wp_exists _ _) (session_refines (cb_shake256_inc cb) cs outs p Hr)) as ([out s] & E & -> & ->). exact E.
Qed.

(** The invariant of a SHAKE context: every context reachable by calls in the
    order of the interface, clones included, points to 200 bytes of state, its
    counter [s[25]] is below the rate while absorbing and at most the rate while
    squeezing, and no call that its phase allows fails. *)
Theorem shake_context_invariant (b : bool) (s : keccak_state) :
  (reachable (cb_shake128_inc cb) b s → never_stuck (cb_shake128_inc cb) b s ∧
     ∃ c, s = Some c ∧ length (ks c) = 200%nat ∧ bytes (ks c) ∧ 0 <= s25 c ∧ (if b then s25 c <= 168 else s25 c < 168)) ∧
  (reachable (cb_shake256_inc cb) b s → never_stuck (cb_shake256_inc cb) b s ∧
     ∃ c, s = Some c ∧ length (ks c) = 200%nat ∧ bytes (ks c) ∧ 0 <= s25 c ∧ (if b then s25 c <= 136 else s25 c < 136)).
Proof using Type.
  split; intros Hr.
  - destruct (reachable_represents (cb_shake128_inc cb) b s Hr) as (p & Hp & Hb).
    pose proof (represents_progress (cb_shake128_inc cb) s p Hp) as Hn. destruct p as [M|M n]; subst b;
    (split; [exact Hn|]); destruct Hp as (c & -> & [Hl Hc] & _ & [H0 H1] & _); exists c; repeat split; assumption.
  - destruct (reachable_represents (cb_shake256_inc cb) b s Hr) as (p & Hp & Hb).
    pose proof (represents_progress (cb_shake256_inc cb) s p Hp) as Hn. destruct p as [M|M n]; subst b;
    (split; [exact Hn|]); destruct Hp as (c & -> & [Hl Hc] & _ & [H0 H1] & _); exists c; repeat split; assumption.
Qed.
End claims.

(** ** Instances and test vectors *)
#[local] Instance zeroed : Uninit := {| uninit n := replicate n 0; length_uninit n := length_replicate n 0 |}.

(** SHA3-256 of the empty message, from the standard's examples. *)
Example sha3_256_empty :
  OQS_SHA3_sha3_256 (default64 false) [] = Some
    [0xa7; 0xff; 0xc6; 0xf8; 0xbf; 0x1e; 0xd7; 0x66; 0x51; 0xc1; 0x47; 0x56; 0xa0; 0x61; 0xd6; 0x62;
     0xf5; 0x80; 0xff; 0x4d; 0xe4; 0x3b; 0x49; 0xfa; 0x82; 0xd8; 0x0a; 0x4b; 0x80; 0xf8; 0x43; 0x4a].
Proof. vm_compute. reflexivity. Qed.

Lemma zero_state_bytes n : bytes (replicate n 0).
Proof. apply Forall_replicate. unfold in_u8. lia. Qed.

Lemma keccak_permutation_is_fips202_witness :
  wp (KeccakP1600_Permute_24rounds (replicate 200 0)) (λ s', length s' = 200%nat ∧ bytes s' ∧
    plain_view s' = lanes_bytes (Fips.keccak_f (bytes_lanes (plain_view (replicate 200 0))))).
Proof. exact (proj1 (keccak_permutation_is_fips202 (replicate 200 0) (length_replicate _ _) (zero_state_bytes _))). Defined.

Lemma sha3_is_fips202_witness :
  OQS_SHA3_sha3_256 (default64 false) [1; 2] = Some (SHA3_256 [1; 2]) ∧
  OQS_SHA3_shake256 (default64 false) 300 [1; 2] = Some (SHAKE256 [1; 2] 300).
Proof.
  assert (HM : bytes [1; 2]) by (repeat constructor; lia).
  destruct (sha3_is_fips202 false [1; 2] 300 HM) as (H1 & _ & _ & _ & H5). split; [exact H1|exact H5].
Defined.

(** Three pieces in, two pieces out. *)
Lemma shake_sessions_refine_witness :
  (s ← OQS_SHA3_shake256_inc_init (default64 false);
   '(out, s) ← run_calls (cb_shake256_inc (default64 false)) [Absorb [1]; Absorb []; Absorb [2; 3]; Finalize; Squeeze 5; Squeeze 200] s;
   s ← OQS_SHA3_shake256_inc_ctx_release (default64 false) s; Some (out, s))
  = Some (SHAKE256 [1; 2; 3] 205, None).
Proof.
  refine (proj2 (shake_sessions_refine false _ _ (Squeezing [1; 2; 3] 205)) _).
  replace (SHAKE256 [1; 2; 3] 205) with ([] ++ [] ++ [] ++ [] ++ drop 0 (SHAKE256 [1; 2; 3] (0 + 5)) ++
    drop 5 (SHAKE256 [1; 2; 3] (5 + 200)) ++ []) by (vm_compute; reflexivity).
  eapply (run_cons _ _ (Absorb [1]) []); [apply spec_absorb; repeat constructor; lia|].
  eapply (run_cons _ _ (Absorb []) []); [apply spec_absorb; constructor|].
  eapply (run_cons _ _ (Absorb [2; 3]) []); [apply spec_absorb; repeat constructor; lia|].
  eapply (run_cons _ _ Finalize []); [apply spec_finalize|].
  eapply run_cons; [apply (spec_squeeze _ [1; 2; 3] 0 5)|].
  eapply run_cons; [apply (spec_squeeze _ [1; 2; 3] 5 200)|]. apply run_nil.
Defined.
