(* ===== verification/MlArith.v ===== *)
(** ML-DSA-65: arithmetic modulo Q.

    [reduce.c] and [rounding.c] of the reference ML-DSA-65 implementation: signed
    32- and 64-bit arithmetic, with signed overflow as undefined behaviour
    ([None]); Montgomery and Barrett-style reduction, [power2round],
    [decompose] and the hints.  Congruence modulo Q is a setoid equality.

    ML-DSA-65: the rounding functions of FIPS 204.

    [Fips204] defines the arithmetic of the standard on residues modulo Q in
    its own terms (centred remainders).  The lemmas relate the functions of
    rounding.c and the comparisons of sign.c to it; rounding.c never computes a
    centred remainder, and signing tests other quantities than the standard,
    so the lemmas state when the results coincide. *)
From Stdlib Require Export Setoid Morphisms ZifyBool.
From S2P Require Import Prelude.

(** ** Parameters ([params.h], mode 3) *)
Definition N : nat := 256.
Definition Q : Z := 8380417.
Definition D : Z := 13.
Definition ROOT_OF_UNITY : Z := 1753.
Definition ETA : Z := 4.
Definition GAMMA1 : Z := Z.shiftl 1 19.
Definition GAMMA2 : Z := (Q - 1) / 32.
Definition QINV : Z := 58728449.

(** ** Signed integers

    [i32] and [i64] check the result of a signed operation; [to_i32] is the
    conversion of a wider value to [int32_t]. *)
Definition in_i32 (x : Z) : Prop := - 2 ^ 31 <= x < 2 ^ 31.
Definition in_i64 (x : Z) : Prop := - 2 ^ 63 <= x < 2 ^ 63.
Definition i32 (x : Z) : option Z := if decide (in_i32 x) then Some x else None.
Definition i64 (x : Z) : option Z := if decide (in_i64 x) then Some x else None.
Definition to_i32 (x : Z) : Z := (x + 2 ^ 31) mod 2 ^ 32 - 2 ^ 31.

(** A left shift of an [int32_t]: undefined for a negative or too large value. *)
Definition shl32 (x n : Z) : option Z := if 0 <=? x then i32 (Z.shiftl x n) else None.

(** ** [reduce.c] *)
Definition montgomery_reduce (a : Z) : option Z :=
  p ← i64 (to_i32 a * QINV);
  let t := to_i32 p in
  p ← i64 (t * Q);
  d ← i64 (a - p);
  Some (to_i32 (Z.shiftr d 32)).

Definition reduce32 (a : Z) : option Z :=
  s ← i32 (a + Z.shiftl 1 22);
  let t := Z.shiftr s 23 in
  p ← i32 (t * Q);
  i32 (a - p).

Definition caddq (a : Z) : option Z := i32 (a + Z.land (Z.shiftr a 31) Q).

Definition freeze (a : Z) : option Z := a ← reduce32 a; caddq a.

(** ** [rounding.c]: the value returned, and the one written to [*a0] *)
Definition power2round (a : Z) : option (Z * Z) :=
  s ← i32 (a + Z.shiftl 1 (D - 1));
  s ← i32 (s - 1);
  let a1 := Z.shiftr s D in
  p ← shl32 a1 D;
  a0 ← i32 (a - p);
  Some (a1, a0).

Definition decompose (a : Z) : option (Z * Z) :=
  s ← i32 (a + 127);
  let a1 := Z.shiftr s 7 in
  p ← i32 (a1 * 1025);
  s ← i32 (p + Z.shiftl 1 21);
  let a1 := Z.land (Z.shiftr s 22) 15 in
  p ← i32 (a1 * 2);
  p ← i32 (p * GAMMA2);
  a0 ← i32 (a - p);
  s ← i32 ((Q - 1) / 2 - a0);
  a0 ← i32 (a0 - Z.land (Z.shiftr s 31) Q);
  Some (a1, a0).

Definition make_hint (a0 a1 : Z) : Z :=
  if (GAMMA2 <? a0) || (a0 <? - GAMMA2) || ((a0 =? - GAMMA2) && negb (a1 =? 0)) then 1 else 0.

Definition use_hint (a hint : Z) : option Z :=
  '(a1, a0) ← decompose a;
  if hint =? 0 then Some a1
  else if 0 <? a0 then s ← i32 (a1 + 1); Some (Z.land s 15)
  else s ← i32 (a1 - 1); Some (Z.land s 15).

(** ** Congruence modulo Q *)
Definition eqq (a b : Z) : Prop := ∃ k, a = b + k * Q.
Infix "≡q" := eqq (at level 70, no associativity).

#[export] Instance eqq_equiv : Equivalence eqq.
Proof.
  split.
  - intros a. exists 0. lia.
  - intros a b [k ->]. exists (- k). lia.
  - intros a b c [k ->] [l ->]. exists (k + l). lia.
Qed.
#[export] Instance eqq_add : Proper (eqq ==> eqq ==> eqq) Z.add.
Proof. intros a b [k ->] c d [l ->]. exists (k + l). lia. Qed.
#[export] Instance eqq_sub : Proper (eqq ==> eqq ==> eqq) Z.sub.
Proof. intros a b [k ->] c d [l ->]. exists (k - l). lia. Qed.
#[export] Instance eqq_opp : Proper (eqq ==> eqq) Z.opp.
Proof. intros a b [k ->]. exists (- k). lia. Qed.
#[export] Instance eqq_mul : Proper (eqq ==> eqq ==> eqq) Z.mul.
Proof. intros a b [k ->] c d [l ->]. exists (b * l + k * d + k * l * Q). lia. Qed.

Lemma eqq_intro a b k : a = b + k * Q → a ≡q b.
Proof. by exists k. Qed.
Lemma eqq_mod a b : a ≡q b ↔ a mod Q = b mod Q.
Proof.
  split.
  - intros [k ->]. by apply Z.mod_add.
  - intros H. exists (a / Q - b / Q).
    pose proof (Z.div_mod a Q ltac:(done)). pose proof (Z.div_mod b Q ltac:(done)). lia.
Qed.

(** 2^32 is invertible modulo Q; [RINV] is its inverse. *)
Definition RINV : Z := 8265825.
Lemma RINV_ok : 2 ^ 32 * RINV ≡q 1.
Proof. by apply eqq_mod. Qed.
Lemma eqq_cancel_R a b : a * 2 ^ 32 ≡q b → a ≡q b * RINV.
Proof.
  intros H. rewrite <-H, <-Z.mul_assoc, RINV_ok. by rewrite Z.mul_1_r.
Qed.

(** ** Checked operations in range *)
Lemma i32_ok x : in_i32 x → i32 x = Some x.
Proof. intros H. unfold i32. by rewrite decide_True. Qed.
Lemma i64_ok x : in_i64 x → i64 x = Some x.
Proof. intros H. unfold i64. by rewrite decide_True. Qed.
Lemma to_i32_range x : in_i32 (to_i32 x).
Proof. unfold to_i32, in_i32. pose proof (Z.mod_pos_bound (x + 2 ^ 31) (2 ^ 32)). lia. Qed.
Lemma to_i32_small x : in_i32 x → to_i32 x = x.
Proof. unfold to_i32, in_i32. intros. rewrite Z.mod_small by lia. lia. Qed.
Lemma to_i32_congr x : ∃ k, to_i32 x = x + k * 2 ^ 32.
Proof.
  exists (- ((x + 2 ^ 31) / 2 ^ 32)). unfold to_i32.
  pose proof (Z.div_mod (x + 2 ^ 31) (2 ^ 32)). lia.
Qed.
Lemma sign_mask x m : in_i32 x → 0 <= m → Z.land (Z.shiftr x 31) m = if x <? 0 then m else 0.
Proof.
  unfold in_i32. intros Hx Hm. rewrite Z.shiftr_div_pow2 by lia. destruct (Z.ltb_spec x 0).
  - rewrite <-(Z.div_unique x (2 ^ 31) (-1) (x + 2 ^ 31)) by lia. apply Z.land_m1_l.
  - rewrite Z.div_small by lia. apply Z.land_0_l.
Qed.
Lemma land_15 x : Z.land x 15 = x mod 16.
Proof. exact (land_ones_u32 x 4 ltac:(lia)). Qed.

Lemma shl32_ok x n : 0 <= n → 0 <= x → x * 2 ^ n < 2 ^ 31 → shl32 x n = Some (x * 2 ^ n).
Proof.
  intros Hn Hx Hb. unfold shl32. rewrite (proj2 (Z.leb_le _ _) Hx), Z.shiftl_mul_pow2 by done.
  apply i32_ok. unfold in_i32. nia.
Qed.

(** [wp_int] steps over checked operations that are in range. *)
Ltac int_range := unfold in_i32, in_i64; lia.
Ltac wp_int :=
  repeat (first
    [ eapply wp_step; [apply i32_ok; int_range|]
    | eapply wp_step; [apply i64_ok; int_range|] ]).

(** ** Reductions *)

(** Montgomery reduction, on all of its documented domain. *)
Lemma montgomery_ok a :
  - (2 ^ 31 * Q) <= a <= 2 ^ 31 * Q →
  ∃ r, montgomery_reduce a = Some r ∧ r * 2 ^ 32 ≡q a ∧ - Q < r <= Q ∧
       (a < 2 ^ 31 * Q → r < Q) ∧ 2 ^ 32 * Z.abs r <= Z.abs a + 2 ^ 31 * Q.
Proof.
  unfold Q. intros Ha. unfold montgomery_reduce.
  set (a' := to_i32 a). pose proof (to_i32_range a) as Ha'. fold a' in Ha'.
  destruct (to_i32_congr a) as [k1 Hk1]. fold a' in Hk1. unfold in_i32 in Ha'.
  rewrite i64_ok by (unfold in_i64, QINV; lia). cbn [mbind option_bind].
  set (t := to_i32 (a' * QINV)). pose proof (to_i32_range (a' * QINV)) as Ht. fold t in Ht.
  destruct (to_i32_congr (a' * QINV)) as [k2 Hk2]. fold t in Hk2. unfold in_i32 in Ht.
  rewrite i64_ok by (unfold in_i64, Q; lia). cbn [mbind option_bind].
  rewrite i64_ok by (unfold in_i64, Q; lia). cbn [mbind option_bind].
  assert (∃ r, a - t * Q = r * 2 ^ 32) as [r Hr].
  { exists (- k1 - a' * 114592 - k2 * Q).
    rewrite Hk2. replace a with (a' - k1 * 2 ^ 32) by lia.
    unfold QINV, Q. lia. }
  rewrite Hr, Z.shiftr_div_pow2, Z.div_mul by lia. unfold Q in *.
  rewrite to_i32_small by (unfold in_i32; lia). exists r. split; [done|].
  split; [|lia]. apply (eqq_intro _ _ (- t)). unfold Q. lia.
Qed.

Lemma reduce32_ok a :
  - 2 ^ 31 <= a <= 2 ^ 31 - 2 ^ 22 - 1 →
  wp (reduce32 a) (λ r, r ≡q a ∧ -6283009 <= r <= 6283008).
Proof.
  intros Ha. unfold reduce32. change (Z.shiftl 1 22) with (2 ^ 22). wp_int.
  rewrite Z.shiftr_div_pow2 by lia.
  set (t := (a + 2 ^ 22) / 2 ^ 23).
  pose proof (Z.div_mod (a + 2 ^ 22) (2 ^ 23) ltac:(lia)) as Ht. fold t in Ht.
  pose proof (Z.mod_pos_bound (a + 2 ^ 22) (2 ^ 23) ltac:(lia)).
  eapply wp_step; [apply i32_ok; unfold Q; int_range|].
  rewrite i32_ok by (unfold Q; int_range). cbn [wp]. split; [|unfold Q; lia].
  apply (eqq_intro _ _ (- t)). unfold Q. lia.
Qed.

Lemma caddq_eq a : - 2 ^ 31 <= a < 2 ^ 31 → caddq a = Some (if a <? 0 then a + Q else a).
Proof.
  intros Ha. unfold caddq. rewrite sign_mask; [|int_range|done].
  destruct (Z.ltb_spec a 0); rewrite i32_ok; [done|unfold Q; int_range|f_equal; lia|int_range].
Qed.

Lemma freeze_ok a : - 2 ^ 31 <= a <= 2 ^ 31 - 2 ^ 22 - 1 → freeze a = Some (a mod Q).
Proof.
  intros Ha. unfold freeze. apply wp_eq. eapply wp_then; [apply reduce32_ok, Ha|].
  intros r [Hr Hb]. cbn beta. rewrite caddq_eq by lia. cbn [wp]. apply eqq_mod in Hr. rewrite <-Hr.
  destruct (Z.ltb_spec r 0); symmetry.
  - rewrite <-(Z.mod_add r 1 Q) by done. rewrite Z.mul_1_l. apply Z.mod_small. unfold Q. lia.
  - apply Z.mod_small. unfold Q. lia.
Qed.

(** ** Rounding *)
Lemma power2round_ok a :
  0 <= a < Q →
  wp (power2round a) (λ '(a1, a0),
    a = a1 * 2 ^ D + a0 ∧ - 2 ^ (D - 1) < a0 <= 2 ^ (D - 1) ∧ 0 <= a1 < 2 ^ 10).
Proof.
  unfold Q. intros Ha. unfold power2round. change (Z.shiftl 1 (D - 1)) with (2 ^ 12).
  unfold D. wp_int. rewrite Z.shiftr_div_pow2 by lia.
  set (a1 := (a + 2 ^ 12 - 1) / 2 ^ 13).
  pose proof (Z.div_mod (a + 2 ^ 12 - 1) (2 ^ 13) ltac:(lia)) as Hd. fold a1 in Hd.
  pose proof (Z.mod_pos_bound (a + 2 ^ 12 - 1) (2 ^ 13) ltac:(lia)).
  eapply wp_step; [apply shl32_ok; lia|]. wp_int. cbn [wp]. lia.
Qed.

(** The standard's decomposition: [a1] is the nearest multiple of 2*GAMMA2, with
    the top interval folded onto 0. *)
Definition is_decomp (a a1 a0 : Z) : Prop :=
  0 <= a1 < 16 ∧
  (a = a1 * (2 * GAMMA2) + a0 ∧ - GAMMA2 < a0 <= GAMMA2 ∨
   a1 = 0 ∧ a = Q + a0 ∧ - GAMMA2 <= a0 < 0).

Lemma is_decomp_unique a a1 a0 b1 b0 :
  0 <= a < Q → is_decomp a a1 a0 → is_decomp a b1 b0 → a1 = b1 ∧ a0 = b0.
Proof. unfold is_decomp. change GAMMA2 with 261888. unfold Q. lia. Qed.

(** The multiply-and-shift in the code is the rounding. *)
Lemma decompose_high a k :
  0 <= a < Q → k = ((a + 127) / 2 ^ 7 * 1025 + 2 ^ 21) / 2 ^ 22 →
  0 <= k <= 16 ∧ k * (2 * GAMMA2) - GAMMA2 < a <= k * (2 * GAMMA2) + GAMMA2.
Proof.
  unfold Q. change GAMMA2 with 261888. intros Ha Ek.
  set (q := (a + 127) / 2 ^ 7) in Ek.
  pose proof (Z.div_mod (a + 127) (2 ^ 7) ltac:(lia)) as Hq. fold q in Hq.
  pose proof (Z.mod_pos_bound (a + 127) (2 ^ 7) ltac:(lia)).
  pose proof (Z.div_mod (q * 1025 + 2 ^ 21) (2 ^ 22) ltac:(lia)) as Hk. rewrite <-Ek in Hk.
  pose proof (Z.mod_pos_bound (q * 1025 + 2 ^ 21) (2 ^ 22) ltac:(lia)).
  clearbody q. clear Ek. assert (0 <= k <= 16) as Hr by lia. split; [done|].
  assert (k = 0 ∨ k = 1 ∨ k = 2 ∨ k = 3 ∨ k = 4 ∨ k = 5 ∨ k = 6 ∨ k = 7 ∨ k = 8 ∨ k = 9 ∨
          k = 10 ∨ k = 11 ∨ k = 12 ∨ k = 13 ∨ k = 14 ∨ k = 15 ∨ k = 16) as Hc by lia.
  repeat (destruct Hc as [->|Hc]; [lia|]). subst k. lia.
Qed.

Lemma decompose_ok a : 0 <= a < Q → wp (decompose a) (λ '(a1, a0), is_decomp a a1 a0).
Proof.
  intros Ha. pose proof (decompose_high a _ Ha eq_refl) as Hk.
  unfold Q in Ha. unfold decompose. change (Z.shiftl 1 21) with (2 ^ 21).
  wp_int. rewrite (Z.shiftr_div_pow2 (a + 127)) by lia.
  pose proof (Z.div_pos (a + 127) (2 ^ 7) ltac:(lia) ltac:(lia)).
  pose proof (Z.div_le_mono (a + 127) 8380543 (2 ^ 7) ltac:(lia) ltac:(lia)) as Hq.
  change (8380543 / 2 ^ 7) with 65472 in Hq.
  wp_int. rewrite Z.shiftr_div_pow2 by lia.
  set (k := ((a + 127) / 2 ^ 7 * 1025 + 2 ^ 21) / 2 ^ 22) in *. clearbody k.
  rewrite land_15. change GAMMA2 with 261888 in *.
  assert (k mod 16 = k ∧ k < 16 ∨ k mod 16 = 0 ∧ k = 16) as [[-> ?]|[-> ->]].
  { destruct (decide (k = 16)) as [->|]; [by right|left]. split; [apply Z.mod_small|]; lia. }
  all: wp_int; change ((Q - 1) / 2) with 4190208; wp_int.
  all: rewrite sign_mask; [|int_range|done]; case_match eqn:E; apply Z.ltb_lt in E || apply Z.ltb_ge in E.
  all: unfold Q; wp_int; cbn [wp]; unfold is_decomp, Q; change GAMMA2 with 261888; lia.
Qed.

(** A hint tells the verifier the high bits [w1] of [w] from [w] changed by
    less than 2*GAMMA2 in its low bits. *)
Lemma use_hint_make_hint w1 w0 :
  0 <= w1 < 16 → - (2 * GAMMA2) < w0 < 2 * GAMMA2 →
  use_hint ((w1 * (2 * GAMMA2) + w0) mod Q) (make_hint w0 w1) = Some w1.
Proof.
  intros H1 H0. unfold use_hint. set (r := (w1 * (2 * GAMMA2) + w0) mod Q).
  assert (0 <= r < Q) as Hr by by apply Z.mod_pos_bound.
  assert (∃ k, -1 <= k <= 1 ∧ w1 * (2 * GAMMA2) + w0 = k * Q + r) as (k & Hk & Er).
  { exists ((w1 * (2 * GAMMA2) + w0) / Q).
    pose proof (Z.div_mod (w1 * (2 * GAMMA2) + w0) Q ltac:(done)) as E. fold r in E.
    change GAMMA2 with 261888 in *. unfold Q in *. lia. }
  clearbody r. apply wp_eq. eapply wp_then; [by apply decompose_ok|]. intros [a1 a0] [Ha1 Hd].
  unfold make_hint. change GAMMA2 with 261888 in *. unfold Q in *.
  destruct (_ || _ || _) eqn:Eh; cbn [Z.eqb].
  - destruct (Z.ltb_spec 0 a0); (eapply wp_step; [apply i32_ok; int_range|]);
      cbn [wp]; rewrite land_15; Z.to_euclidean_division_equations; lia.
  - cbn [wp]. lia.
Qed.

Module Fips204.

(** The remainder of [r] modulo [m] in (-m/2, m/2]. *)
Definition cmod (r m : Z) : Z := if r mod m <=? m / 2 then r mod m else r mod m - m.

(** The residue of [x] closest to 0. *)
Definition mods (x : Z) : Z := cmod x Q.

Definition Power2Round (r : Z) : Z * Z :=
  let r0 := cmod (r mod Q) (2 ^ D) in ((r mod Q - r0) / 2 ^ D, r0).

Definition Decompose (r : Z) : Z * Z :=
  let rp := r mod Q in
  let r0 := cmod rp (2 * GAMMA2) in
  if rp - r0 =? Q - 1 then (0, r0 - 1) else ((rp - r0) / (2 * GAMMA2), r0).

Definition HighBits (r : Z) : Z := fst (Decompose r).
Definition LowBits (r : Z) : Z := snd (Decompose r).

Definition MakeHint (z r : Z) : Z := if HighBits r =? HighBits (r + z) then 0 else 1.

Definition UseHint (h r : Z) : Z :=
  let m := (Q - 1) / (2 * GAMMA2) in
  let '(r1, r0) := Decompose r in
  if h =? 1 then if 0 <? r0 then (r1 + 1) mod m else (r1 - 1) mod m else r1.

End Fips204.
Import Fips204.

(** ** Centred remainders *)
Lemma cmod_spec r m : 0 < m → ∃ k, r = k * m + cmod r m ∧ - m < 2 * cmod r m <= m.
Proof.
  intros Hm. unfold cmod. pose proof (Z.div_mod r m ltac:(lia)). pose proof (Z.mod_pos_bound r m Hm).
  pose proof (Z.div_mod m 2 ltac:(lia)). pose proof (Z.mod_pos_bound m 2 ltac:(lia)).
  destruct (Z.leb_spec (r mod m) (m / 2)); [exists (r / m)|exists (r / m + 1)]; lia.
Qed.

Lemma mods_eqq x : mods x ≡q x.
Proof. destruct (cmod_spec x Q ltac:(done)) as (k & E & _). apply (eqq_intro _ _ (- k)). unfold mods. lia. Qed.
Lemma mods_range x : - Q < 2 * mods x < Q.
Proof. destruct (cmod_spec x Q ltac:(done)) as (k & _ & E). unfold mods, Q in *. lia. Qed.
Lemma mods_unique x y : y ≡q x → - Q < 2 * y < Q → mods x = y.
Proof.
  intros [k E] Hy. pose proof (mods_range x). destruct (mods_eqq x) as [k' E'].
  assert (k = k') by (unfold Q in *; lia). unfold Q in *. lia.
Qed.
Lemma mods_ext x y : x ≡q y → mods x = mods y.
Proof. intros H. symmetry. apply mods_unique; [|apply mods_range]. rewrite mods_eqq. by symmetry. Qed.

(** A reduced representative is within a bound of the norm checks exactly if
    the centred residue is, and then it is that residue. *)
Lemma norm_check r x B :
  - 6283009 <= r <= 6283009 → r ≡q x → B <= (Q - 1) / 8 → Z.abs r < B ↔ Z.abs (mods x) < B.
Proof.
  intros Hr E HB. change ((Q - 1) / 8) with 1047552 in HB.
  pose proof (mods_range x). destruct (mods_eqq x) as [k Ek]. destruct E as [k' E].
  assert (-1 <= k - k' <= 1) by (unfold Q in *; lia). unfold Q in *. lia.
Qed.
Lemma norm_exact r x B : r ≡q x → B <= (Q - 1) / 8 → Z.abs r < B → r = mods x.
Proof.
  intros E HB Hr. symmetry. apply mods_unique; [done|]. change ((Q - 1) / 8) with 1047552 in HB.
  unfold Q. lia.
Qed.

(** ** Power2Round *)
Lemma power2round_eq a : 0 <= a < Q → power2round a = Some (Power2Round a).
Proof.
  intros Ha. apply wp_eq. eapply wp_mono; [by apply power2round_ok|]. intros [a1 a0] (E & H0 & H1).
  unfold Power2Round. rewrite Z.mod_small by done. unfold D in *.
  destruct (cmod_spec a (2 ^ 13)) as (k & Ek & Hk); [lia|]. change (13 - 1) with 12 in H0.
  assert (a0 = cmod a (2 ^ 13)) as <- by lia. f_equal. replace (a - a0) with (a1 * 2 ^ 13) by lia.
  by rewrite Z.div_mul.
Qed.

Lemma Power2Round_range a :
  let '(a1, a0) := Power2Round a in
  a mod Q = a1 * 2 ^ D + a0 ∧ - 2 ^ (D - 1) < a0 <= 2 ^ (D - 1) ∧ 0 <= a1 < 2 ^ 10.
Proof.
  pose proof (Z.mod_pos_bound a Q ltac:(done)) as Hr. pose proof (power2round_ok _ Hr) as H.
  rewrite (power2round_eq _ Hr) in H. unfold Power2Round in *. rewrite Z.mod_mod in H by done. exact H.
Qed.

(** ** Decompose *)
Lemma is_decomp_Decompose a : 0 <= a < Q → is_decomp a (HighBits a) (LowBits a).
Proof.
  intros Ha. unfold HighBits, LowBits, Decompose. rewrite Z.mod_small by done.
  destruct (cmod_spec a (2 * GAMMA2)) as (k & Ek & Hk); [done|]. set (r0 := cmod a (2 * GAMMA2)) in *.
  change GAMMA2 with 261888 in *. unfold is_decomp, Q in *. change GAMMA2 with 261888.
  destruct (Z.eqb_spec (a - r0) (8380417 - 1)); cbn [fst snd]; [lia|].
  replace (a - r0) with (k * (2 * 261888)) by lia. rewrite Z.div_mul by lia. lia.
Qed.

Lemma decompose_eq a : 0 <= a < Q → decompose a = Some (Decompose a).
Proof.
  intros Ha. apply wp_eq. eapply wp_mono; [by apply decompose_ok|]. intros [a1 a0] H.
  destruct (is_decomp_unique a a1 a0 _ _ Ha H (is_decomp_Decompose a Ha)) as [-> ->].
  unfold HighBits, LowBits. by destruct (Decompose a).
Qed.

Lemma Decompose_mod a : Decompose (a mod Q) = Decompose a.
Proof. unfold Decompose. by rewrite Z.mod_mod. Qed.
Lemma HighBits_mod a : HighBits (a mod Q) = HighBits a.
Proof. unfold HighBits. by rewrite Decompose_mod. Qed.
Lemma LowBits_mod a : LowBits (a mod Q) = LowBits a.
Proof. unfold LowBits. by rewrite Decompose_mod. Qed.
Lemma HighBits_eqq a b : a ≡q b → HighBits a = HighBits b.
Proof. intros E. rewrite <-(HighBits_mod a), <-(HighBits_mod b). apply eqq_mod in E. by rewrite E. Qed.
Lemma LowBits_eqq a b : a ≡q b → LowBits a = LowBits b.
Proof. intros E. rewrite <-(LowBits_mod a), <-(LowBits_mod b). apply eqq_mod in E. by rewrite E. Qed.

Lemma decomp_bits a :
  0 <= HighBits a < 16 ∧ - GAMMA2 <= LowBits a <= GAMMA2 ∧ a ≡q HighBits a * (2 * GAMMA2) + LowBits a.
Proof.
  pose proof (Z.mod_pos_bound a Q ltac:(done)) as Hr. pose proof (is_decomp_Decompose _ Hr) as H.
  rewrite HighBits_mod, LowBits_mod in H. destruct H as [H1 H0]. change GAMMA2 with 261888 in *.
  split; [lia|]. split; [unfold Q in *; lia|].
  pose proof (Z.div_mod a Q ltac:(done)) as E. destruct H0 as [H0|(E1 & H0 & _)].
  - apply (eqq_intro _ _ (a / Q)). unfold Q in *. lia.
  - apply (eqq_intro _ _ (a / Q + 1)). rewrite E1. unfold Q in *. lia.
Qed.

(** A decomposition with a small low part is the standard's. *)
Lemma decomp_small a a1 a0 :
  0 <= a1 < 16 → - GAMMA2 < a0 < GAMMA2 → a ≡q a1 * (2 * GAMMA2) + a0 → HighBits a = a1 ∧ LowBits a = a0.
Proof.
  intros H1 H0 E. rewrite (HighBits_eqq _ _ E), (LowBits_eqq _ _ E). set (b := a1 * (2 * GAMMA2) + a0).
  assert (is_decomp (b mod Q) a1 a0) as H.
  { unfold is_decomp, b. change GAMMA2 with 261888 in *. split; [lia|].
    destruct (Z.leb_spec 0 (a1 * (2 * 261888) + a0)).
    - left. rewrite Z.mod_small by (unfold Q; lia). lia.
    - right. rewrite <-(Z.mod_add _ 1 Q), Z.mod_small by (done || unfold Q; lia). lia. }
  pose proof (Z.mod_pos_bound b Q ltac:(done)) as Hr.
  destruct (is_decomp_unique _ _ _ _ _ Hr H (is_decomp_Decompose _ Hr)) as [E1 E0].
  by rewrite HighBits_mod in E1; rewrite LowBits_mod in E0.
Qed.

(** ** Hints *)
Lemma use_hint_eq a h : 0 <= a < Q → use_hint a h = Some (if h =? 0 then HighBits a else UseHint 1 a).
Proof.
  intros Ha. unfold use_hint, UseHint, HighBits. rewrite decompose_eq by done. cbn [mbind option_bind].
  pose proof (decomp_bits a) as [Hb _]. unfold HighBits in Hb. destruct (Decompose a) as [a1 a0]. cbn [fst] in *.
  destruct (Z.eqb_spec h 0); [done|]. cbn [Z.eqb Pos.eqb]. change ((Q - 1) / (2 * GAMMA2)) with 16.
  destruct (0 <? a0); rewrite i32_ok by (unfold in_i32; lia); cbn [mbind option_bind]; by rewrite land_15.
Qed.

(** The code's hint from the low part [a0] of [a1*2*GAMMA2 + a0]: whether the
    high part has changed. *)
Lemma make_hint_eq a a1 a0 :
  0 <= a1 < 16 → - (2 * GAMMA2) < a0 < 2 * GAMMA2 → a ≡q a1 * (2 * GAMMA2) + a0 →
  make_hint a0 a1 = if HighBits a =? a1 then 0 else 1.
Proof.
  intros H1 H0 E. rewrite (HighBits_eqq _ _ E). clear E. remember (a1 * (2 * GAMMA2) + a0) as b eqn:Hb.
  pose proof (Z.mod_pos_bound b Q ltac:(done)) as Hr. pose proof (is_decomp_Decompose _ Hr) as [Hh Hd].
  rewrite HighBits_mod, LowBits_mod in *. pose proof (Z.div_mod b Q ltac:(done)) as Eb.
  set (r := b mod Q) in *. set (k := b / Q) in *. set (hi := HighBits b) in *. set (lo := LowBits b) in *.
  clearbody r k hi lo. unfold make_hint.
  change GAMMA2 with 261888 in *. unfold Q in *.
  destruct (_ || _ || _) eqn:Eh; destruct (Z.eqb_spec hi a1); try done; lia.
Qed.

Lemma UseHint_mod h a : UseHint h (a mod Q) = UseHint h a.
Proof. unfold UseHint. by rewrite Decompose_mod. Qed.
Lemma UseHint_range h a : 0 <= UseHint h a < 16.
Proof.
  unfold UseHint. change ((Q - 1) / (2 * GAMMA2)) with 16. pose proof (decomp_bits a) as [Hb _].
  unfold HighBits in Hb. destruct (Decompose a) as [a1 a0]. cbn [fst] in Hb.
  destruct (h =? 1); [|done]. destruct (0 <? a0); by apply Z.mod_pos_bound.
Qed.
