(* ===== verification/MlNtt.v ===== *)
(** ML-DSA-65: the number-theoretic transform ([ntt.c]).

    The forward and inverse transforms as the code runs them, in place on an
    array of 256 [int32_t], with the reference layers they compute modulo Q.
    Proved here: both are defined without overflow within the documented
    bounds, the forward transform evaluates the polynomial at the odd powers of
    the 512-th root of unity in bit-reversed order, and the inverse undoes it up
    to the Montgomery factor. *)
From S2P Require Import Prelude MlArith.

Definition zetas : list Z := [
  0; 25847; -2608894; -518909; 237124; -777960; -876248; 466468;
  1826347; 2353451; -359251; -2091905; 3119733; -2884855; 3111497; 2680103;
  2725464; 1024112; -1079900; 3585928; -549488; -1119584; 2619752; -2108549;
  -2118186; -3859737; -1399561; -3277672; 1757237; -19422; 4010497; 280005;
  2706023; 95776; 3077325; 3530437; -1661693; -3592148; -2537516; 3915439;
  -3861115; -3043716; 3574422; -2867647; 3539968; -300467; 2348700; -539299;
  -1699267; -1643818; 3505694; -3821735; 3507263; -2140649; -1600420; 3699596;
  811944; 531354; 954230; 3881043; 3900724; -2556880; 2071892; -2797779;
  -3930395; -1528703; -3677745; -3041255; -1452451; 3475950; 2176455; -1585221;
  -1257611; 1939314; -4083598; -1000202; -3190144; -3157330; -3632928; 126922;
  3412210; -983419; 2147896; 2715295; -2967645; -3693493; -411027; -2477047;
  -671102; -1228525; -22981; -1308169; -381987; 1349076; 1852771; -1430430;
  -3343383; 264944; 508951; 3097992; 44288; -1100098; 904516; 3958618;
  -3724342; -8578; 1653064; -3249728; 2389356; -210977; 759969; -1316856;
  189548; -3553272; 3159746; -1851402; -2409325; -177440; 1315589; 1341330;
  1285669; -1584928; -812732; -1439742; -3019102; -3881060; -3628969; 3839961;
  2091667; 3407706; 2316500; 3817976; -3342478; 2244091; -2446433; -3562462;
  266997; 2434439; -1235728; 3513181; -3520352; -3759364; -1197226; -3193378;
  900702; 1859098; 909542; 819034; 495491; -1613174; -43260; -522500;
  -655327; -3122442; 2031748; 3207046; -3556995; -525098; -768622; -3595838;
  342297; 286988; -2437823; 4108315; 3437287; -3342277; 1735879; 203044;
  2842341; 2691481; -2590150; 1265009; 4055324; 1247620; 2486353; 1595974;
  -3767016; 1250494; 2635921; -3548272; -2994039; 1869119; 1903435; -1050970;
  -1333058; 1237275; -3318210; -1430225; -451100; 1312455; 3306115; -1962642;
  -1279661; 1917081; -2546312; -1374803; 1500165; 777191; 2235880; 3406031;
  -542412; -2831860; -1671176; -1846953; -2584293; -3724270; 594136; -3776993;
  -2013608; 2432395; 2454455; -164721; 1957272; 3369112; 185531; -1207385;
  -3183426; 162844; 1616392; 3014001; 810149; 1652634; -3694233; -1799107;
  -3038916; 3523897; 3866901; 269760; 2213111; -975884; 1717735; 472078;
  -426683; 1723600; -1803090; 1910376; -1667432; -1104333; -260646; -3833893;
  -2939036; -2235985; -420899; -2286327; 183443; -976891; 1612842; -3545687;
  -554416; 3919660; -48306; -1362209; 3937738; 1400424; -846154; 1976782].

(** ** Forward transform *)
Definition ntt_butterfly (zeta : Z) (len j : nat) (a : list Z) : option (list Z) :=
  x ← a !! (j + len)%nat;
  p ← i64 (zeta * x);
  t ← montgomery_reduce p;
  y ← a !! j;
  d ← i32 (y - t);
  let a := <[(j + len)%nat := d]> a in
  y ← a !! j;
  s ← i32 (y + t);
  Some (<[j := s]> a).

(** One turn of [for(start = 0; start < N; start = j + len)]; the inner loop
    leaves [j = start + len]. *)
Definition ntt_block (len : nat) (s : nat * nat * list Z)
    : option (ctl (nat * nat * list Z) (nat * list Z)) :=
  let '(k, start, a) := s in
  if (start <? N)%nat then
    let k := S k in
    zeta ← zetas !! k;
    a ← for_loop len start (ntt_butterfly zeta len) a;
    let j := (start + len)%nat in
    Some (Next (k, (j + len)%nat, a))
  else Some (Done (k, a)).

Definition ntt_layer (s : nat * nat * list Z) : option (ctl (nat * nat * list Z) (list Z)) :=
  let '(len, k, a) := s in
  if (0 <? len)%nat then
    '(k, a) ← loop (S N) (ntt_block len) (k, 0%nat, a);
    Some (Next (Nat.div2 len, k, a))
  else Some (Done a).

Definition ntt (a : list Z) : option (list Z) := loop 9 ntt_layer (128%nat, 0%nat, a).

(** ** Inverse transform *)
Definition invntt_butterfly (zeta : Z) (len j : nat) (a : list Z) : option (list Z) :=
  t ← a !! j;
  x ← a !! (j + len)%nat;
  s ← i32 (t + x);
  let a := <[j := s]> a in
  x ← a !! (j + len)%nat;
  d ← i32 (t - x);
  let a := <[(j + len)%nat := d]> a in
  x ← a !! (j + len)%nat;
  p ← i64 (zeta * x);
  r ← montgomery_reduce p;
  Some (<[(j + len)%nat := r]> a).

Definition invntt_block (len : nat) (s : nat * nat * list Z)
    : option (ctl (nat * nat * list Z) (nat * list Z)) :=
  let '(k, start, a) := s in
  if (start <? N)%nat then
    let k := Nat.pred k in
    z ← zetas !! k;
    zeta ← i32 (- z);
    a ← for_loop len start (invntt_butterfly zeta len) a;
    let j := (start + len)%nat in
    Some (Next (k, (j + len)%nat, a))
  else Some (Done (k, a)).

Definition invntt_layer (s : nat * nat * list Z) : option (ctl (nat * nat * list Z) (list Z)) :=
  let '(len, k, a) := s in
  if (len <? N)%nat then
    '(k, a) ← loop (S N) (invntt_block len) (k, 0%nat, a);
    Some (Next ((2 * len)%nat, k, a))
  else Some (Done a).

Definition invntt_scale (j : nat) (a : list Z) : option (list Z) :=
  x ← a !! j;
  p ← i64 (41978 * x);
  r ← montgomery_reduce p;
  Some (<[j := r]> a).

Definition invntt_tomont (a : list Z) : option (list Z) :=
  a ← loop 9 invntt_layer (1%nat, 256%nat, a);
  for_loop N 0 invntt_scale a.

(** ** Array states

    [holds a i B v]: entry [i] of [a] is at most [B] in absolute value and is
    [v] modulo Q.  [mixed] describes an array part of which ([dn]) has been
    processed. *)
Definition holds (a : list Z) (i : nat) (B v : Z) : Prop :=
  ∃ x, a !! i = Some x ∧ - B <= x <= B ∧ x ≡q v.

Definition rep (B : Z) (F : nat → Z) (a : list Z) : Prop :=
  length a = N ∧ ∀ i, (i < N)%nat → holds a i B (F i).

Definition mixed (dn : nat → bool) (B : Z) (F : nat → Z) (B' : Z) (G : nat → Z) (a : list Z) : Prop :=
  length a = N ∧
  ∀ i, (i < N)%nat → if dn i then holds a i B' (G i) else holds a i B (F i).

Lemma holds_eqq a i B v w : v ≡q w → holds a i B v → holds a i B w.
Proof. intros H (x & ? & ? & E). exists x. split; [done|]. split; [done|]. by rewrite E. Qed.
Lemma holds_lookup a b i B v : b !! i = a !! i → holds a i B v → holds b i B v.
Proof. unfold holds. by intros ->. Qed.

Lemma mixed_none dn B F B' G a : (∀ i, dn i = false) → rep B F a → mixed dn B F B' G a.
Proof. intros Hd [Hl Ha]. split; [done|]. intros i Hi. rewrite Hd. by apply Ha. Qed.
Lemma mixed_all dn B F B' G a :
  (∀ i, (i < N)%nat → dn i = true) → mixed dn B F B' G a → rep B' G a.
Proof. intros Hd [Hl Ha]. split; [done|]. intros i Hi. specialize (Ha i Hi). by rewrite Hd in Ha. Qed.
Lemma mixed_ext dn dn' B F B' G a :
  (∀ i, (i < N)%nat → dn i = dn' i) → mixed dn B F B' G a → mixed dn' B F B' G a.
Proof. intros Hd [Hl Ha]. split; [done|]. intros i Hi. rewrite <-Hd by done. by apply Ha. Qed.

(** A product with a twiddle factor is in Montgomery's domain. *)
Lemma twiddle_mul zeta x :
  - Q < zeta < Q → - 2 ^ 31 <= x <= 2 ^ 31 →
  i64 (zeta * x) = Some (zeta * x) ∧
  ∃ t, montgomery_reduce (zeta * x) = Some t ∧ - Q < t < Q ∧ t ≡q zeta * RINV * x ∧
    2 ^ 32 * Z.abs t <= Z.abs (zeta * x) + 2 ^ 31 * Q.
Proof.
  unfold Q at 1 2. intros Hz Hx.
  assert (- (2 ^ 31 * 8380416) <= zeta * x <= 2 ^ 31 * 8380416) as Hp by nia.
  split; [apply i64_ok; int_range|].
  destruct (montgomery_ok (zeta * x)) as (t & -> & Ht & Hr & Hb & Hm); [unfold Q; lia|].
  assert (t < Q) by (apply Hb; unfold Q; lia). exists t. split_and!; [done|lia|lia| |done].
  apply eqq_cancel_R in Ht. rewrite Ht. apply (eqq_intro _ _ 0). lia.
Qed.

(** What a butterfly [bf] on entries [j] and [j + len] does. *)
Definition butterfly_ok (bf : nat → list Z → option (list Z)) (len : nat) (B B' : Z)
    (lo hi : Z → Z → Z) : Prop :=
  ∀ j a u v,
    (0 < len)%nat → length a = N → holds a j B u → holds a (j + len) B v →
    wp (bf j a) (λ a', length a' = N ∧ holds a' j B' (lo u v) ∧ holds a' (j + len) B' (hi u v) ∧
      ∀ i, i ≠ j → i ≠ (j + len)%nat → a' !! i = a !! i).

Lemma holds_lt a i B v : holds a i B v → (i < length a)%nat.
Proof. intros (x & H & _). by eapply lookup_lt_Some. Qed.

Lemma ntt_butterfly_ok zeta len B :
  - Q < zeta < Q → 0 <= B → B + Q < 2 ^ 31 →
  butterfly_ok (ntt_butterfly zeta len) len B (B + Q)
    (λ u v, u + zeta * RINV * v) (λ u v, u - zeta * RINV * v).
Proof.
  intros Hz HB0 HB j a u v Hlen Hl Hu Hv. pose proof (holds_lt _ _ _ _ Hv) as Hj.
  destruct Hu as (y & Hy & By & Ey), Hv as (x & Hx & Bx & Ex).
  destruct (twiddle_mul zeta x Hz) as (Hp & t & Ht & Bt & Et & _); [unfold Q in *; lia|].
  unfold ntt_butterfly.
  eapply wp_step; [exact Hx|]. eapply wp_step; [exact Hp|]. eapply wp_step; [exact Ht|].
  eapply wp_step; [exact Hy|]. unfold Q in *. wp_int. cbv zeta.
  eapply wp_step; [rewrite list_lookup_insert_ne by lia; exact Hy|]. wp_int. cbn [wp].
  split; [by rewrite !length_insert|]. split_and!.
  - exists (y + t). rewrite list_lookup_insert_eq by (rewrite length_insert; lia).
    split_and!; [done|lia..|]. by rewrite Ey, Et, Ex.
  - exists (y - t). rewrite list_lookup_insert_ne, list_lookup_insert_eq by lia.
    split_and!; [done|lia..|]. by rewrite Ey, Et, Ex.
  - intros i H1 H2. by rewrite !list_lookup_insert_ne by done.
Qed.

Lemma invntt_butterfly_ok zeta len B :
  - Q < zeta < Q → Q <= B → 2 * B < 2 ^ 31 →
  butterfly_ok (invntt_butterfly zeta len) len B (2 * B)
    (λ u v, u + v) (λ u v, zeta * RINV * (u - v)).
Proof.
  intros Hz HB0 HB j a u v Hlen Hl Hu Hv. pose proof (holds_lt _ _ _ _ Hv) as Hj.
  destruct Hu as (y & Hy & By & Ey), Hv as (x & Hx & Bx & Ex).
  destruct (twiddle_mul zeta (y - x) Hz) as (Hp & t & Ht & Bt & Et & _); [lia|].
  unfold invntt_butterfly.
  eapply wp_step; [exact Hy|]. eapply wp_step; [exact Hx|]. wp_int. cbv zeta.
  eapply wp_step; [rewrite list_lookup_insert_ne by lia; exact Hx|]. wp_int.
  eapply wp_step; [rewrite list_lookup_insert_eq by (rewrite length_insert; lia); reflexivity|].
  eapply wp_step; [exact Hp|]. eapply wp_step; [exact Ht|]. cbn [wp].
  split; [by rewrite !length_insert|]. split_and!.
  - exists (y + x). rewrite !list_lookup_insert_ne, list_lookup_insert_eq by lia.
    split_and!; [done|lia..|]. by rewrite Ey, Ex.
  - exists t. rewrite list_lookup_insert_eq by (rewrite !length_insert; lia).
    split_and!; [done|unfold Q in *; lia..|]. by rewrite Et, Ey, Ex.
  - intros i H1 H2. by rewrite !list_lookup_insert_ne by done.
Qed.

(** The inner loop turns the block at [start] from [F] into [G]. *)
Lemma block_ok bf len start B B' lo hi F G a :
  butterfly_ok bf len B B' lo hi → (start + 2 * len <= N)%nat →
  (∀ i, (start <= i < start + len)%nat →
     G i ≡q lo (F i) (F (i + len)%nat) ∧ G (i + len)%nat ≡q hi (F i) (F (i + len)%nat)) →
  mixed (λ i, (i <? start)%nat) B F B' G a →
  wp (for_loop len start bf a) (mixed (λ i, (i <? start + 2 * len)%nat) B F B' G).
Proof.
  intros Hbf HN HG Ha.
  apply (wp_for (λ j, mixed (λ i, ((i <? j) || ((start + len <=? i) && (i <? j + len)))%nat) B F B' G)).
  - revert Ha. apply mixed_ext. intros i Hi. cbn beta. lia.
  - intros j b Hj [Hl Hb].
    pose proof (Hb j ltac:(lia)) as Hu. pose proof (Hb (j + len)%nat ltac:(lia)) as Hv.
    cbn beta in Hu, Hv.
    replace (_ || _) with false in Hu by lia. replace (_ || _) with false in Hv by lia.
    eapply wp_mono; [exact (Hbf j b _ _ ltac:(lia) Hl Hu Hv)|].
    intros b' (Hl' & H1 & H2 & Hr). split; [done|]. intros i Hi. cbn beta.
    destruct (HG j ltac:(lia)) as [G1 G2].
    destruct (decide (i = j)) as [->|N1]; [|destruct (decide (i = j + len)%nat) as [->|N2]].
    + replace (_ || _) with true by lia. by eapply holds_eqq; [symmetry|].
    + replace (_ || _) with true by lia. by eapply holds_eqq; [symmetry|].
    + specialize (Hb i Hi). cbn beta in Hb.
      replace ((i <? S j) || _)%nat with ((i <? j) || ((start + len <=? i) && (i <? j + len)))%nat by lia.
      case_match; (eapply holds_lookup; [by apply Hr|done]).
  - intros b. apply mixed_ext. intros i Hi. cbn beta. lia.
Qed.

(** ** Reference layers

    [tw k] is the twiddle factor [zetas[k]] out of Montgomery form.  [fwd] is a
    layer of [nb] blocks of [2 * len] coefficients. *)
Definition tw (k : nat) : Z := zetas !!! k * RINV.

Definition fwd (nb len : nat) (F : nat → Z) (i : nat) : Z :=
  let z := tw (nb + i / (2 * len)) in
  if (i mod (2 * len) <? len)%nat then F i + z * F (i + len)%nat else F (i - len)%nat - z * F i.

Lemma zetas_ok k :
  (k < 256)%nat → zetas !! k = Some (zetas !!! k) ∧ - Q < zetas !!! k < Q.
Proof.
  intros Hk. assert (length zetas = 256%nat) as Hl by reflexivity.
  split; [apply list_lookup_lookup_total_lt; lia|].
  assert (Forall (λ z, - Q < z < Q) zetas) as H by (apply (bool_decide_unpack _); by vm_compute).
  rewrite Forall_lookup in H. eapply H, list_lookup_lookup_total_lt. lia.
Qed.

Lemma block_div b len r : (r < 2 * len)%nat → ((b * (2 * len) + r) / (2 * len) = b)%nat.
Proof. intros. rewrite Nat.div_add_l, Nat.div_small by lia. lia. Qed.
Lemma block_mod b len r : (r < 2 * len)%nat → ((b * (2 * len) + r) mod (2 * len) = r)%nat.
Proof. intros. rewrite Nat.add_comm, Nat.Div0.mod_add. by apply Nat.mod_small. Qed.

(** [fwd] on the two halves of a block. *)
Lemma fwd_lo nb len F b i :
  (b * (2 * len) <= i < b * (2 * len) + len)%nat →
  fwd nb len F i = F i + tw (nb + b) * F (i + len)%nat.
Proof.
  intros Hi. replace i with (b * (2 * len) + (i - b * (2 * len)))%nat at 1 by lia.
  unfold fwd. rewrite block_div, block_mod by lia. rewrite (proj2 (Nat.ltb_lt _ _)) by lia.
  by replace (b * (2 * len) + (i - b * (2 * len)))%nat with i by lia.
Qed.
Lemma fwd_hi nb len F b i :
  (b * (2 * len) <= i < b * (2 * len) + len)%nat →
  fwd nb len F (i + len) = F i - tw (nb + b) * F (i + len)%nat.
Proof.
  intros Hi.
  replace (i + len)%nat with (b * (2 * len) + (i + len - b * (2 * len)))%nat at 1 by lia.
  unfold fwd. rewrite block_div, block_mod by lia. rewrite (proj2 (Nat.ltb_ge _ _)) by lia.
  replace (b * (2 * len) + (i + len - b * (2 * len)))%nat with (i + len)%nat by lia.
  by rewrite Nat.add_sub.
Qed.

Lemma ntt_blocks_ok nb len B F a :
  (nb * (2 * len) = N)%nat → (0 < len)%nat → 0 <= B → B + Q < 2 ^ 31 → rep B F a →
  wp (loop (S N) (ntt_block len) (nb - 1, 0, a)%nat)
     (λ '(k, a'), k = (2 * nb - 1)%nat ∧ rep (B + Q) (fwd nb len F) a').
Proof.
  unfold N at 1. intros HN Hlen HB HBQ Ha.
  apply (wp_loop (λ fuel '(k, start, a), ∃ b, (b <= nb)%nat ∧ (nb - b < fuel)%nat ∧
    k = (nb - 1 + b)%nat ∧ start = (b * (2 * len))%nat ∧
    mixed (λ i, (i <? start)%nat) B F (B + Q) (fwd nb len F) a)).
  - exists 0%nat. split_and!; [unfold N; nia..|]. by apply mixed_none.
  - intros fuel [[k start] b'] (b & Hb & Hf & -> & -> & Hm). exists (fuel - 1)%nat.
    split; [lia|]. unfold ntt_block. destruct (Nat.ltb_spec (b * (2 * len)) N) as [Hlt|Hge].
    + unfold N in Hlt. assert (b < nb)%nat by nia.
      replace (S (nb - 1 + b)) with (nb + b)%nat by lia.
      destruct (zetas_ok (nb + b)) as [Hz Bz]; [nia|]. cbv zeta.
      eapply wp_step; [exact Hz|]. eapply wp_then.
      * eapply (block_ok _ _ _ _ _ _ _ _ (fwd nb len F)); [..|exact Hm].
        -- by apply ntt_butterfly_ok.
        -- unfold N. nia.
        -- intros i Hi. by rewrite (fwd_lo nb len F b), (fwd_hi nb len F b).
      * intros a' Ha'. cbn [wp]. exists (S b). split_and!; [lia..|].
        revert Ha'. apply mixed_ext. intros i Hi. cbn beta. lia.
    + unfold N in Hge. assert (b = nb) as -> by nia. cbn [wp]. split; [lia|].
      eapply mixed_all; [|exact Hm]. intros i Hi. cbn beta. unfold N in Hi. lia.
Qed.

(** The first [l] layers. *)
Fixpoint layers (l : nat) (F : nat → Z) : nat → Z :=
  match l with
  | O => F
  | S l' => fwd (2 ^ l') (128 / 2 ^ l') (layers l' F)
  end.

Lemma layer_cases (P : nat → Prop) :
  P 0%nat → P 1%nat → P 2%nat → P 3%nat → P 4%nat → P 5%nat → P 6%nat → P 7%nat →
  ∀ l, (l < 8)%nat → P l.
Proof. intros. do 8 (destruct l as [|l]; [done|]). lia. Qed.
Lemma layer_geometry l :
  (l < 8)%nat →
  (2 ^ l * (2 * (128 / 2 ^ l)) = N ∧ 0 < 128 / 2 ^ l ∧ Nat.div2 (128 / 2 ^ l) = 128 / 2 ^ S l ∧
   2 ^ S l = 2 * 2 ^ l)%nat.
Proof. revert l. apply layer_cases; repeat split; vm_compute; lia. Qed.

Lemma ntt_layers_ok B F a :
  0 <= B → B + 8 * Q < 2 ^ 31 → rep B F a →
  wp (ntt a) (rep (B + 8 * Q) (layers 8 F)).
Proof.
  intros HB HB8 Ha.
  apply (wp_loop (λ fuel '(len, k, a), ∃ l, (l <= 8)%nat ∧ fuel = (9 - l)%nat ∧
    len = (128 / 2 ^ l)%nat ∧ k = (2 ^ l - 1)%nat ∧ rep (B + Z.of_nat l * Q) (layers l F) a)).
  - exists 0%nat. split_and!; [lia|done..|]. by rewrite Z.add_0_r.
  - intros fuel [[len k] b] (l & Hl & -> & -> & -> & Hb). exists (8 - l)%nat. split; [lia|].
    destruct (decide (l = 8)%nat) as [->|Hl8]; [exact Hb|].
    destruct (layer_geometry l) as (HN & Hpos & Hhalf & Hpow); [lia|]. unfold ntt_layer.
    rewrite (proj2 (Nat.ltb_lt _ _) Hpos). eapply wp_then.
    + eapply (ntt_blocks_ok _ _ _ _ _ HN Hpos); [| |exact Hb]; unfold Q in *; lia.
    + intros [k b'] [-> Hb']. cbn [wp]. exists (S l). rewrite Hhalf, Hpow.
      split_and!; [lia..|]. cbn [layers].
      by replace (B + Z.of_nat (S l) * Q) with (B + Z.of_nat l * Q + Q) by lia.
Qed.

(** *** Inverse layers *)
Lemma tw_inverse l b :
  (l < 8)%nat → (b < 2 ^ l)%nat → tw (2 ^ l + b) * (- tw (2 * 2 ^ l - 1 - b)) ≡q 1.
Proof.
  intros Hl Hb.
  assert (Forall (λ l, Forall (λ b, (tw (2 ^ l + b) * (- tw (2 * 2 ^ l - 1 - b))) mod Q = 1)
    (seq 0 (2 ^ l))) (seq 0 8)) as H by (apply (bool_decide_unpack _); by vm_compute).
  rewrite Forall_forall in H. specialize (H l ltac:(apply in_seq; lia)).
  rewrite Forall_forall in H. apply eqq_mod, H, in_seq. lia.
Qed.

(** A layer backwards: from [c] times the state after layer [l] to [2 * c] times
    the state before it. *)
Lemma invntt_blocks_ok l c B F a :
  (l < 8)%nat → Q <= B → 2 * B < 2 ^ 31 →
  rep B (λ i, c * fwd (2 ^ l) (128 / 2 ^ l) F i) a →
  wp (loop (S N) (invntt_block (128 / 2 ^ l)) (2 * 2 ^ l, 0, a)%nat)
     (λ '(k, a'), k = (2 ^ l)%nat ∧ rep (2 * B) (λ i, 2 * c * F i) a').
Proof.
  intros Hl HB HBQ Ha. destruct (layer_geometry l Hl) as (HN & Hlen & _).
  pose proof (tw_inverse l) as Hinv. set (nb := (2 ^ l)%nat) in *.
  set (len := (128 / nb)%nat) in *. clearbody len nb. unfold N in HN.
  apply (wp_loop (λ fuel '(k, start, a), ∃ b, (b <= nb)%nat ∧ (nb - b < fuel)%nat ∧
    k = (2 * nb - b)%nat ∧ start = (b * (2 * len))%nat ∧
    mixed (λ i, (i <? start)%nat) B (λ i, c * fwd nb len F i) (2 * B) (λ i, 2 * c * F i) a)).
  - exists 0%nat. split_and!; [unfold N; nia..|]. by apply mixed_none.
  - intros fuel [[k start] b'] (b & Hb & Hf & -> & -> & Hm). exists (fuel - 1)%nat.
    split; [lia|]. unfold invntt_block. destruct (Nat.ltb_spec (b * (2 * len)) N) as [Hlt|Hge].
    + unfold N in Hlt. assert (b < nb)%nat by nia.
      replace (Nat.pred (2 * nb - b)) with (2 * nb - 1 - b)%nat by lia. cbv zeta.
      destruct (zetas_ok (2 * nb - 1 - b)) as [Hz Bz]; [nia|].
      eapply wp_step; [exact Hz|]. eapply wp_step; [apply i32_ok; unfold Q in *; int_range|].
      eapply wp_then.
      * eapply (block_ok _ _ _ _ _ _ _ _ (λ i, 2 * c * F i)); [..|exact Hm].
        -- apply invntt_butterfly_ok; lia.
        -- unfold N. nia.
        -- intros i Hi. cbn beta. rewrite (fwd_lo nb len F b), (fwd_hi nb len F b) by done.
           specialize (Hinv b Hl ltac:(lia)). split; [apply (eqq_intro _ _ 0); lia|].
           transitivity (2 * c * F (i + len)%nat * 1); [apply (eqq_intro _ _ 0); lia|].
           rewrite <-Hinv. unfold tw. apply (eqq_intro _ _ 0). lia.
      * intros a' Ha'. cbn [wp]. exists (S b). split_and!; [lia..|].
        revert Ha'. apply mixed_ext. intros i Hi. cbn beta. lia.
    + unfold N in Hge. assert (b = nb) as -> by nia. cbn [wp]. split; [lia|].
      eapply mixed_all; [|exact Hm]. intros i Hi. cbn beta. unfold N in Hi. lia.
Qed.

Lemma invntt_layers_ok F a :
  rep Q (layers 8 F) a →
  wp (loop 9 invntt_layer (1, 256, a)%nat) (rep (256 * Q) (λ i, 256 * F i)).
Proof.
  intros Ha.
  apply (wp_loop (λ fuel '(len, k, a), ∃ m, (m <= 8)%nat ∧ fuel = (9 - m)%nat ∧
    len = (2 ^ m)%nat ∧ k = (2 ^ (8 - m))%nat ∧
    rep (2 ^ Z.of_nat m * Q) (λ i, 2 ^ Z.of_nat m * layers (8 - m) F i) a)).
  - exists 0%nat. split_and!; [lia|done..|]. destruct Ha as [Hl Ha]. split; [done|].
    intros i Hi. specialize (Ha i Hi). change (2 ^ Z.of_nat 0) with 1.
    by rewrite !Z.mul_1_l.
  - intros fuel [[len k] b] (m & Hm & -> & -> & -> & Hb). exists (8 - m)%nat. split; [lia|].
    destruct (decide (m = 8)%nat) as [->|Hm8]; [exact Hb|].
    assert (2 ^ m = 128 / 2 ^ (7 - m) ∧ 2 ^ (8 - m) = 2 * 2 ^ (7 - m) ∧ 2 ^ m < N ∧
            2 * 2 ^ m = 2 ^ S m)%nat as (H1 & H2 & H3 & H4).
    { assert (m < 8)%nat as H by lia. clear -H. revert m H.
      apply layer_cases; repeat split; vm_compute; lia. }
    unfold invntt_layer. rewrite (proj2 (Nat.ltb_lt _ _) H3), H2, H1. eapply wp_then.
    + eapply (invntt_blocks_ok (7 - m) (2 ^ Z.of_nat m) _ (layers (7 - m) F)); [lia| | |].
      3: { replace (8 - m)%nat with (S (7 - m)) in Hb by lia. exact Hb. }
      * pose proof (pow2_pos m). unfold Q. nia.
      * pose proof (Z.pow_le_mono_r 2 (Z.of_nat m) 7 ltac:(lia) ltac:(lia)). unfold Q. lia.
    + intros [k b'] [-> Hb']. cbn [wp]. exists (S m). rewrite <-H1, H4.
      replace (8 - S m)%nat with (7 - m)%nat by lia. rewrite pow2_S.
      split_and!; [lia|lia|done..|]. by rewrite <-Z.mul_assoc.
Qed.

(** The scaling at the end leaves values just over Q/2. *)
Definition INVNTT_BOUND : Z := 4211178.

Lemma invntt_tight F a :
  rep Q (layers 8 F) a → wp (invntt_tomont a) (rep INVNTT_BOUND (λ i, 2 ^ 32 * F i)).
Proof.
  intros Ha. unfold invntt_tomont. eapply wp_then; [by apply invntt_layers_ok|].
  intros b Hb. cbn beta.
  apply (wp_for (λ j, mixed (λ i, (i <? j)%nat) (256 * Q) (λ i, 256 * F i) INVNTT_BOUND (λ i, 2 ^ 32 * F i))).
  - by apply mixed_none.
  - intros j c Hj [Hl Hc]. pose proof (Hc j ltac:(lia)) as Hx. cbn beta in Hx.
    rewrite Nat.ltb_irrefl in Hx. destruct Hx as (x & Hx & Bx & Ex).
    destruct (twiddle_mul 41978 x) as (Hp & t & Ht & Bt & Et & Mt); [unfold Q in *; lia..|].
    unfold invntt_scale. eapply wp_step; [exact Hx|]. eapply wp_step; [exact Hp|].
    eapply wp_step; [exact Ht|]. cbn [wp]. split; [by rewrite length_insert|].
    intros i Hi. cbn beta. destruct (decide (i = j)) as [->|Hne].
    + rewrite (proj2 (Nat.ltb_lt _ _)) by lia. exists t.
      rewrite list_lookup_insert_eq by lia. unfold INVNTT_BOUND, Q in *. split_and!; [done|lia..|].
      rewrite Et, Ex, Z.mul_assoc. apply eqq_mul; [by apply eqq_mod|done].
    + specialize (Hc i Hi). cbn beta in Hc. replace (i <? S j)%nat with (i <? j)%nat by lia.
      case_match; (eapply holds_lookup; [by apply list_lookup_insert_ne|done]).
  - intros c. apply mixed_all. intros i Hi. cbn beta. lia.
Qed.

Lemma rep_mono B B' F a : B <= B' → rep B F a → rep B' F a.
Proof.
  intros HB [Hl Ha]. split; [done|]. intros k Hk. destruct (Ha k Hk) as (x & Hx & Bx & Ex).
  exists x. split; [done|]. split; [lia|done].
Qed.

Lemma invntt_ok F a :
  rep Q (layers 8 F) a → wp (invntt_tomont a) (rep (Q - 1) (λ i, 2 ^ 32 * F i)).
Proof. intros Ha. eapply wp_mono; [by apply invntt_tight|]. intros b. by apply rep_mono. Qed.
