(* ===== verification/MlNttSpec.v ===== *)
(** ML-DSA-65: what the transform means.

    Polynomials over Z/Q as coefficient functions, their evaluation, the
    product modulo X^256 + 1, and the proof that the eight reference layers
    evaluate a polynomial at the odd powers of the root of unity, so that
    entry-wise products of transforms are transforms of products. *)
From S2P Require Import Prelude MlArith MlNtt.

(** ** Finite sums *)
Fixpoint psum (f : nat → Z) (n : nat) : Z :=
  match n with O => 0 | S n' => psum f n' + f n' end.

Lemma psum_eqq f g n : (∀ r, (r < n)%nat → f r ≡q g r) → psum f n ≡q psum g n.
Proof.
  induction n as [|n IH]; intros H; simpl; [done|].
  rewrite (H n) by lia. rewrite IH; [done|]. intros r Hr. apply H. lia.
Qed.
Lemma psum_ext f g n : (∀ r, (r < n)%nat → f r = g r) → psum f n = psum g n.
Proof. induction n as [|n IH]; intros H; simpl; [done|]. rewrite H, IH by auto with lia. done. Qed.
Lemma psum_add f g n : psum (λ r, f r + g r) n = psum f n + psum g n.
Proof. induction n; simpl; lia. Qed.
Lemma psum_scale c f n : psum (λ r, c * f r) n = c * psum f n.
Proof. induction n; simpl; lia. Qed.
Lemma psum_split f n m : psum f (n + m) = psum f n + psum (λ r, f (n + r)%nat) m.
Proof.
  induction m as [|m IH]; [rewrite Nat.add_0_r; simpl; lia|].
  rewrite Nat.add_succ_r. simpl. lia.
Qed.
Lemma psum_swap (f : nat → nat → Z) n m :
  psum (λ i, psum (f i) m) n = psum (λ j, psum (λ i, f i j) n) m.
Proof.
  induction n as [|n IH]; simpl.
  - induction m; simpl; lia.
  - rewrite IH, <-psum_add. by apply psum_ext.
Qed.

(** ** Evaluation: [peval F b n x] is F_b + F_{b+1} x + ... + F_{b+n-1} x^(n-1). *)
Definition peval (F : nat → Z) (b n : nat) (x : Z) : Z :=
  psum (λ r, F (b + r)%nat * x ^ Z.of_nat r) n.

Lemma peval_split F b n m x :
  peval F b (n + m) x = peval F b n x + x ^ Z.of_nat n * peval F (b + n) m x.
Proof.
  unfold peval. rewrite psum_split, <-psum_scale. f_equal. apply psum_ext. intros r _.
  rewrite Nat2Z.inj_add, Z.pow_add_r, Nat.add_assoc by lia. lia.
Qed.

(** The product modulo X^256 + 1. *)
Definition negmul (A B : nat → Z) (k : nat) : Z :=
  psum (λ i, A i * (if (i <=? k)%nat then B (k - i)%nat else - B (N + k - i)%nat)) N.

Lemma negmul_eval A B x :
  x ^ 256 ≡q -1 → peval (negmul A B) 0 N x ≡q peval A 0 N x * peval B 0 N x.
Proof.
  intros Hx. unfold peval at 1, negmul. cbn [Nat.add].
  transitivity (psum (λ k, psum (λ i,
    A i * ((if (i <=? k)%nat then B (k - i)%nat else - B (N + k - i)%nat) * x ^ Z.of_nat k)) N) N).
  { apply psum_eqq. intros k Hk. rewrite Z.mul_comm, <-psum_scale. apply psum_eqq.
    intros i _. apply (eqq_intro _ _ 0). lia. }
  rewrite psum_swap. rewrite (Z.mul_comm (peval A 0 N x)). unfold peval at 2. rewrite <-psum_scale.
  apply psum_eqq. intros i Hi. rewrite psum_scale. cbn [Nat.add].
  transitivity (A i * (x ^ Z.of_nat i * peval B 0 N x)); [|apply (eqq_intro _ _ 0); lia].
  apply eqq_mul; [done|]. replace N with (i + (N - i))%nat at 1 by lia. rewrite psum_split.
  pose proof (peval_split B 0 (N - i) i x) as E. rewrite Nat.sub_add in E by lia.
  rewrite E, Z.mul_add_distr_l, Z.add_comm.
  apply eqq_add.
  - unfold peval. rewrite <-psum_scale. apply psum_eqq. intros r Hr.
    rewrite (proj2 (Nat.leb_le _ _)) by lia.
    replace (i + r - i)%nat with (0 + r)%nat by lia. rewrite Nat2Z.inj_add, Z.pow_add_r by lia.
    apply (eqq_intro _ _ 0). lia.
  - rewrite Z.mul_assoc, <-Z.pow_add_r by lia.
    replace (Z.of_nat i + Z.of_nat (N - i)) with 256 by (unfold N in *; lia).
    rewrite Hx. unfold peval. rewrite <-psum_scale. apply psum_eqq. intros r Hr.
    rewrite (proj2 (Nat.leb_gt _ _)) by lia.
    replace (N + r - i)%nat with (0 + (N - i) + r)%nat by lia. apply (eqq_intro _ _ 0). lia.
Qed.

(** ** The evaluation points *)
Fixpoint brv (n i : nat) : nat :=
  match n with O => 0%nat | S n' => (i mod 2 * 2 ^ n' + brv n' (i / 2))%nat end.
Definition root (i : nat) : Z := ROOT_OF_UNITY ^ Z.of_nat (2 * brv 8 i + 1) mod Q.

Definition sign (b : bool) (z : Z) : Z := if b then z else - z.

(** The facts about the twiddle table are checked by computing with [powq]. *)
Fixpoint powq (x : Z) (p : positive) : Z :=
  match p with
  | xH => x mod Q
  | xO p => let y := powq x p in y * y mod Q
  | xI p => let y := powq x p in x * (y * y mod Q) mod Q
  end.
Lemma mod_eqq x : x mod Q ≡q x.
Proof. apply eqq_mod. by rewrite Z.mod_mod. Qed.
Lemma powq_eqq x p : powq x p ≡q x ^ Zpos p.
Proof.
  induction p as [p IH|p IH|]; cbn [powq]; rewrite mod_eqq, ?mod_eqq.
  - rewrite IH, Pos2Z.inj_xI, Z.pow_add_r, Z.pow_1_r, Z.pow_twice_r by lia.
    apply (eqq_intro _ _ 0). lia.
  - by rewrite IH, Pos2Z.inj_xO, Z.pow_twice_r.
  - by rewrite Z.pow_1_r.
Qed.
Definition root_q (i : nat) : Z := powq ROOT_OF_UNITY (Pos.of_nat (2 * brv 8 i + 1)).
Lemma root_q_eqq i : root_q i ≡q root i.
Proof.
  unfold root_q, root. rewrite powq_eqq, mod_eqq.
  by rewrite <-positive_nat_Z, Nat2Pos.id by lia.
Qed.
#[export] Instance eqq_pow : Proper (eqq ==> eq ==> eqq) Z.pow.
Proof.
  intros x y H e ? <-. destruct (Z.lt_ge_cases e 0); [by rewrite !Z.pow_neg_r|].
  pattern e. apply natlike_ind; [done| |done].
  intros n Hn IH. rewrite !Z.pow_succ_r by done. by apply eqq_mul.
Qed.

Definition root_check (i l : nat) : bool :=
  let len := (128 / 2 ^ l)%nat in
  (powq (root_q i) (Pos.of_nat len) -
   sign (i mod (2 * len) <? len)%nat (tw (2 ^ l + i / (2 * len)))) mod Q =? 0.
Lemma root_checks_ok : forallb (λ i, forallb (root_check i) (seq 0 8)) (seq 0 256) = true.
Proof. vm_compute. reflexivity. Qed.
Lemma neg_checks_ok : forallb (λ i, (powq (root_q i) 256 - (-1)) mod Q =? 0) (seq 0 256) = true.
Proof. vm_compute. reflexivity. Qed.

Lemma eqq_of_sub a b : ((a - b) mod Q =? 0) = true → a ≡q b.
Proof.
  intros H%Z.eqb_eq. apply Z.mod_divide in H; [|done]. destruct H as [k Hk]. exists k. lia.
Qed.

Lemma forallb_seq f n i : forallb f (seq 0 n) = true → (i < n)%nat → f i = true.
Proof. intros H Hi. rewrite forallb_forall in H. apply H, in_seq. lia. Qed.

Lemma root_layer l i :
  (l < 8)%nat → (i < N)%nat →
  root i ^ Z.of_nat (128 / 2 ^ l) ≡q
    sign (i mod (2 * (128 / 2 ^ l)) <? 128 / 2 ^ l)%nat (tw (2 ^ l + i / (2 * (128 / 2 ^ l)))).
Proof.
  intros Hl Hi. pose proof (forallb_seq _ _ i root_checks_ok Hi) as H. cbn beta in H.
  apply forallb_seq with (i := l) in H; [|done]. unfold root_check in H. cbv zeta in H.
  apply eqq_of_sub in H. rewrite <-H, powq_eqq. destruct (layer_geometry l Hl) as (_ & Hp & _).
  rewrite <-positive_nat_Z, Nat2Pos.id by lia. by rewrite root_q_eqq.
Qed.

Lemma root_256 i : (i < N)%nat → root i ^ 256 ≡q -1.
Proof.
  intros Hi. pose proof (forallb_seq _ _ i neg_checks_ok Hi) as H. cbn beta in H.
  apply eqq_of_sub in H. by rewrite <-H, powq_eqq, root_q_eqq.
Qed.

(** ** The layers evaluate *)
Lemma half_base len i :
  (0 < len)%nat →
  (i / len * len =
   i / (2 * len) * (2 * len) + if i mod (2 * len) <? len then 0 else len)%nat.
Proof.
  intros Hl. pose proof (Nat.div_mod i (2 * len) ltac:(lia)) as E.
  pose proof (Nat.mod_upper_bound i (2 * len) ltac:(lia)).
  set (b := (i / (2 * len))%nat) in *. set (r := (i mod (2 * len))%nat) in *. clearbody b r.
  destruct (Nat.ltb_spec r len).
  - rewrite <-(Nat.div_unique i len (2 * b) r) by lia. lia.
  - rewrite <-(Nat.div_unique i len (2 * b + 1) (r - len)) by lia. lia.
Qed.

Lemma fwd_eval nb len F b x (low : bool) :
  x ^ Z.of_nat len ≡q sign low (tw (nb + b)) →
  peval F (b * (2 * len)) (2 * len) x ≡q
  peval (fwd nb len F) (b * (2 * len) + if low then 0 else len)%nat len x.
Proof.
  intros Hx. replace (2 * len)%nat with (len + len)%nat at 2 by lia.
  rewrite peval_split, Hx. unfold peval. rewrite <-psum_scale, <-psum_add.
  apply psum_eqq. intros r Hr. apply (eqq_intro _ _ 0). destruct low; cbn [sign].
  - rewrite Nat.add_0_r, (fwd_lo nb len F b) by lia.
    replace (b * (2 * len) + len + r)%nat with (b * (2 * len) + r + len)%nat by lia. lia.
  - replace (b * (2 * len) + len + r)%nat with (b * (2 * len) + r + len)%nat by lia.
    rewrite (fwd_hi nb len F b) by lia. lia.
Qed.

Lemma layers_eval l F i :
  (l <= 8)%nat → (i < N)%nat →
  peval F 0 N (root i) ≡q
  peval (layers l F) (i / (256 / 2 ^ l) * (256 / 2 ^ l)) (256 / 2 ^ l) (root i).
Proof.
  intros Hl Hi. induction l as [|l IH].
  - change (256 / 2 ^ 0)%nat with N. by rewrite Nat.div_small.
  - rewrite IH by lia. destruct (layer_geometry l) as (_ & Hp & _); [lia|].
    assert (256 / 2 ^ l = 2 * (128 / 2 ^ l) ∧ 256 / 2 ^ S l = 128 / 2 ^ l)%nat as [E1 E2].
    { assert (l < 8)%nat as H by lia. clear -H. revert l H.
      apply layer_cases; split; vm_compute; reflexivity. }
    rewrite E1, E2, (half_base (128 / 2 ^ l) i Hp). cbn [layers].
    apply fwd_eval, root_layer; lia.
Qed.

(** The transform of F is F at the 256 roots. *)
Lemma layers_root F i : (i < N)%nat → layers 8 F i ≡q peval F 0 N (root i).
Proof.
  intros Hi. rewrite (layers_eval 8 F i) by lia. change (256 / 2 ^ 8)%nat with 1%nat.
  unfold peval. cbn [psum]. rewrite Nat.div_1_r, Nat.mul_1_r, Nat.add_0_r.
  apply (eqq_intro _ _ 0). change (root i ^ Z.of_nat 0) with 1. lia.
Qed.

(** Products of transforms are transforms of products. *)
Lemma layers_mul A B i :
  (i < N)%nat → layers 8 A i * layers 8 B i ≡q layers 8 (negmul A B) i.
Proof.
  intros Hi. rewrite !layers_root by done. symmetry. by apply negmul_eval, root_256.
Qed.
