(* ===== verification/MlPoly.v ===== *)
(** ML-DSA-65: operations on polynomials ([poly.c]).

    A polynomial is its array of 256 [int32_t] coefficients.  The
    coefficient-wise operations, the product through the transform, the norm
    check and the rejection samplers' inner loops. *)
From S2P Require Import Prelude MlArith MlNtt MlNttSpec.

(** ** Arrays *)

(** [c[i] = v] *)
Definition store (c : list Z) (i : nat) (v : Z) : option (list Z) :=
  if (i <? length c)%nat then Some (<[i := v]> c) else None.

(** [for (i = 0; i < N; ++i) c[i] = f(i)], where [f] may read [c]. *)
Definition fill (f : nat → list Z → option Z) (c : list Z) : option (list Z) :=
  for_loop N 0 (λ i c, v ← f i c; store c i v) c.

(** The same with two output arrays; [f] returns the values for [c] and [d]. *)
Definition fill2 (f : nat → option (Z * Z)) (c d : list Z) : option (list Z * list Z) :=
  for_loop N 0 (λ i '(c, d), '(v, w) ← f i; d ← store d i w; c ← store c i v; Some (c, d)) (c, d).

(** ** Coefficient-wise operations *)
Definition poly_reduce (a : list Z) : option (list Z) := fill (λ i a, x ← a !! i; reduce32 x) a.
Definition poly_caddq (a : list Z) : option (list Z) := fill (λ i a, x ← a !! i; caddq x) a.
Definition poly_add (c a b : list Z) : option (list Z) :=
  fill (λ i _, x ← a !! i; y ← b !! i; i32 (x + y)) c.
Definition poly_sub (c a b : list Z) : option (list Z) :=
  fill (λ i _, x ← a !! i; y ← b !! i; i32 (x - y)) c.

Definition poly_shiftl (a : list Z) : option (list Z) := fill (λ i a, x ← a !! i; shl32 x D) a.

Definition poly_ntt (a : list Z) : option (list Z) := ntt a.
Definition poly_invntt_tomont (a : list Z) : option (list Z) := invntt_tomont a.
Definition poly_pointwise_montgomery (c a b : list Z) : option (list Z) :=
  fill (λ i _, x ← a !! i; y ← b !! i; p ← i64 (x * y); montgomery_reduce p) c.

(** The arrays [a1] and [a0]. *)
Definition poly_power2round (a1 a0 a : list Z) : option (list Z * list Z) :=
  fill2 (λ i, x ← a !! i; power2round x) a1 a0.
Definition poly_decompose (a1 a0 a : list Z) : option (list Z * list Z) :=
  fill2 (λ i, x ← a !! i; decompose x) a1 a0.

Definition poly_make_hint (h a0 a1 : list Z) : option (list Z * Z) :=
  for_loop N 0 (λ i '(h, s),
    x0 ← a0 !! i; x1 ← a1 !! i;
    h ← store h i (make_hint x0 x1);
    v ← h !! i;
    Some (h, u32 (s + v))) (h, 0).

Definition poly_use_hint (b a h : list Z) : option (list Z) :=
  fill (λ i _, x ← a !! i; y ← h !! i; use_hint x (u32 y)) b.

(** ** Norm check *)
Definition chknorm_step (a : list Z) (B : Z) (i : nat) : option (ctl nat Z) :=
  if (i <? N)%nat then
    x ← a !! i;
    let t := Z.shiftr x 31 in
    m ← i32 (2 * x);
    t ← i32 (x - Z.land t m);
    if B <=? t then Some (Done 1) else Some (Next (S i))
  else Some (Done 0).

Definition poly_chknorm (a : list Z) (B : Z) : option Z :=
  if (Q - 1) / 8 <? B then Some 1 else loop (S N) (chknorm_step a B) 0%nat.

(** ** Rejection sampling: [ctr] and the array after the loop *)
Definition rej_uniform_step (len : nat) (buf : list Z) (buflen : nat) (s : nat * nat * list Z)
    : option (ctl (nat * nat * list Z) (nat * list Z)) :=
  let '(ctr, pos, a) := s in
  if ((ctr <? len) && (pos + 3 <=? buflen))%nat then
    b0 ← buf !! pos;
    b1 ← buf !! (pos + 1)%nat;
    b2 ← buf !! (pos + 2)%nat;
    let t := Z.lor (Z.lor b0 (u32 (Z.shiftl b1 8))) (u32 (Z.shiftl b2 16)) in
    let t := Z.land t 0x7FFFFF in
    if t <? Q then a ← store a ctr t; Some (Next (S ctr, pos + 3, a)%nat)
    else Some (Next (ctr, pos + 3, a)%nat)
  else Some (Done (ctr, a)).

Definition rej_uniform (a : list Z) (len : nat) (buf : list Z) (buflen : nat)
    : option (nat * list Z) :=
  loop (S buflen) (rej_uniform_step len buf buflen) (0, 0, a)%nat.

Definition rej_eta_step (len : nat) (buf : list Z) (buflen : nat) (s : nat * nat * list Z)
    : option (ctl (nat * nat * list Z) (nat * list Z)) :=
  let '(ctr, pos, a) := s in
  if ((ctr <? len) && (pos <? buflen))%nat then
    b ← buf !! pos;
    let t0 := Z.land b 0x0F in
    let t1 := Z.shiftr b 4 in
    '(ctr, a) ← (if t0 <? 9 then a ← store a ctr (to_i32 (u32 (4 - t0))); Some (S ctr, a)
                 else Some (ctr, a));
    '(ctr, a) ← (if (t1 <? 9) && (ctr <? len)%nat
                 then a ← store a ctr (to_i32 (u32 (4 - t1))); Some (S ctr, a)
                 else Some (ctr, a));
    Some (Next (ctr, S pos, a))
  else Some (Done (ctr, a)).

Definition rej_eta (a : list Z) (len : nat) (buf : list Z) (buflen : nat)
    : option (nat * list Z) :=
  loop (S buflen) (rej_eta_step len buf buflen) (0, 0, a)%nat.

(** ** Reasoning about the loops *)

(** Every coefficient is there and satisfies [P]. *)
Definition each (P : nat → Z → Prop) (a : list Z) : Prop :=
  length a = N ∧ ∀ i, (i < N)%nat → ∃ x, a !! i = Some x ∧ P i x.

Lemma each_rep B F a : each (λ i x, - B <= x <= B ∧ x ≡q F i) a ↔ rep B F a.
Proof. done. Qed.
Lemma each_mono (P R : nat → Z → Prop) a :
  each P a → (∀ i x, (i < N)%nat → P i x → R i x) → each R a.
Proof.
  intros [Hl Ha] H. split; [done|]. intros i Hi. destruct (Ha i Hi) as (x & ? & ?).
  exists x. auto.
Qed.
(** Exact coefficients. *)
Lemma each_eq a b : length b = N → each (λ i x, b !! i = Some x) a → a = b.
Proof.
  intros Hb [Ha H]. apply list_eq_same_length with N; [lia..|].
  intros i x y Hi Hx Hy. destruct (H i ltac:(lia)) as (z & ? & ?). congruence.
Qed.

Lemma store_ok c i v : (i < length c)%nat → store c i v = Some (<[i := v]> c).
Proof. intros H. unfold store. by rewrite (proj2 (Nat.ltb_lt _ _)). Qed.

Lemma wp_fill (P : nat → Z → Prop) f c :
  length c = N →
  (∀ i c', (i < N)%nat → (∀ k, (i <= k)%nat → c' !! k = c !! k) → wp (f i c') (P i)) →
  wp (fill f c) (each P).
Proof.
  intros Hc Hf.
  apply (wp_for (λ i c', length c' = N ∧ (∀ k, (i <= k)%nat → c' !! k = c !! k) ∧
     ∀ k, (k < i)%nat → ∃ x, c' !! k = Some x ∧ P k x)).
  - split_and!; [done|done|lia].
  - intros i c' Hi (Hl & Hr & Hd). eapply wp_then; [by apply Hf; [lia|]|].
    intros v Hv. rewrite store_ok by lia. cbn [wp]. split_and!.
    + by rewrite length_insert.
    + intros k Hk. rewrite list_lookup_insert_ne by lia. apply Hr. lia.
    + intros k Hk. destruct (decide (k = i)) as [->|].
      * exists v. by rewrite list_lookup_insert_eq by lia.
      * rewrite list_lookup_insert_ne by done. apply Hd. lia.
  - intros c' (Hl & _ & Hd). by split.
Qed.

Lemma wp_fill2 (P : nat → Z → Z → Prop) f c d :
  length c = N → length d = N →
  (∀ i, (i < N)%nat → wp (f i) (λ '(v, w), P i v w)) →
  wp (fill2 f c d) (λ '(c', d'), length c' = N ∧ length d' = N ∧
    ∀ i, (i < N)%nat → ∃ v w, c' !! i = Some v ∧ d' !! i = Some w ∧ P i v w).
Proof.
  intros Hc Hd Hf.
  apply (wp_for (λ i '(c', d'), length c' = N ∧ length d' = N ∧
    ∀ k, (k < i)%nat → ∃ v w, c' !! k = Some v ∧ d' !! k = Some w ∧ P k v w)).
  - split_and!; [done|done|lia].
  - intros i [c' d'] Hi (Hlc & Hld & H). eapply wp_then; [apply Hf; lia|].
    intros [v w] Hv. eapply wp_step; [apply store_ok; lia|].
    eapply wp_step; [apply store_ok; lia|]. cbn [wp]. rewrite !length_insert.
    split_and!; [done..|]. intros k Hk. destruct (decide (k = i)) as [->|].
    + exists v, w. by rewrite !list_lookup_insert_eq by lia.
    + rewrite !list_lookup_insert_ne by done. apply H. lia.
  - intros [c' d'] H. exact H.
Qed.

(** A unary in-place operation and a binary one, coefficient by coefficient. *)
Lemma fill_unary f (P R : nat → Z → Prop) a :
  each P a → (∀ i x, (i < N)%nat → P i x → wp (f x) (R i)) →
  wp (fill (λ i a, x ← a !! i; f x) a) (each R).
Proof.
  intros [Hl Ha] Hf. apply wp_fill; [done|]. intros i c' Hi Hc.
  destruct (Ha i Hi) as (x & Hx & Px). eapply wp_step; [rewrite Hc by lia; exact Hx|].
  by apply Hf.
Qed.
Lemma fill_binary f (P1 P2 R : nat → Z → Prop) c a b :
  length c = N → each P1 a → each P2 b →
  (∀ i x y, (i < N)%nat → P1 i x → P2 i y → wp (f x y) (R i)) →
  wp (fill (λ i _, x ← a !! i; y ← b !! i; f x y) c) (each R).
Proof.
  intros Hc [_ Ha] [_ Hb] Hf. apply wp_fill; [done|]. intros i c' Hi _.
  destruct (Ha i Hi) as (x & Hx & Px), (Hb i Hi) as (y & Hy & Py).
  eapply wp_step; [exact Hx|]. eapply wp_step; [exact Hy|]. by apply Hf.
Qed.

(** ** Modular arithmetic *)
Lemma poly_reduce_ok F a :
  each (λ i x, - 2 ^ 31 <= x <= 2 ^ 31 - 2 ^ 22 - 1 ∧ x ≡q F i) a →
  wp (poly_reduce a) (rep 6283009 F).
Proof.
  intros Ha. eapply fill_unary; [exact Ha|]. intros i x Hi [Bx Ex].
  eapply wp_mono; [by apply reduce32_ok|]. intros r [Er Br]. cbn beta in *.
  split; [lia|]. by rewrite Er.
Qed.

Lemma poly_freeze_ok F a :
  each (λ i x, - 2 ^ 31 <= x <= 2 ^ 31 - 2 ^ 22 - 1 ∧ x ≡q F i) a →
  wp (a ← poly_reduce a; poly_caddq a) (each (λ i x, x = F i mod Q)).
Proof.
  intros Ha. eapply wp_then; [by apply poly_reduce_ok|]. intros b Hb. cbn beta.
  eapply fill_unary; [by apply each_rep|]. intros i x Hi [Bx Ex]. cbn beta in *.
  rewrite caddq_eq by lia. cbn [wp]. apply eqq_mod in Ex. rewrite <-Ex.
  destruct (Z.ltb_spec x 0); symmetry.
  - rewrite <-(Z.mod_add x 1 Q) by done. rewrite Z.mul_1_l. apply Z.mod_small. unfold Q. lia.
  - apply Z.mod_small. unfold Q. lia.
Qed.

Lemma poly_add_ok B1 B2 F G c a b :
  length c = N → rep B1 F a → rep B2 G b → B1 + B2 < 2 ^ 31 →
  wp (poly_add c a b) (rep (B1 + B2) (λ i, F i + G i)).
Proof.
  intros Hc Ha Hb HB. apply each_rep in Ha, Hb. eapply fill_binary; [done|exact Ha|exact Hb|].
  intros i x y Hi [Bx Ex] [By Ey]. rewrite i32_ok by int_range. cbn [wp].
  split; [lia|]. by rewrite Ex, Ey.
Qed.

Lemma poly_sub_ok B1 B2 F G c a b :
  length c = N → rep B1 F a → rep B2 G b → B1 + B2 < 2 ^ 31 →
  wp (poly_sub c a b) (rep (B1 + B2) (λ i, F i - G i)).
Proof.
  intros Hc Ha Hb HB. apply each_rep in Ha, Hb. eapply fill_binary; [done|exact Ha|exact Hb|].
  intros i x y Hi [Bx Ex] [By Ey]. rewrite i32_ok by int_range. cbn [wp].
  split; [lia|]. by rewrite Ex, Ey.
Qed.

Lemma poly_shiftl_ok a (F : nat → Z) :
  each (λ i x, x = F i ∧ 0 <= x < 2 ^ 18) a →
  wp (poly_shiftl a) (each (λ i x, x = F i * 2 ^ D)).
Proof.
  intros Ha. eapply fill_unary; [exact Ha|]. intros i x Hi [-> Bx]. cbn beta.
  rewrite shl32_ok by (unfold D; lia). done.
Qed.

Lemma poly_pointwise_ok B1 B2 F G c a b :
  length c = N → rep B1 F a → rep B2 G b → 0 <= B1 → B1 * B2 < 2 ^ 31 * Q →
  wp (poly_pointwise_montgomery c a b) (rep Q (λ i, F i * G i * RINV)).
Proof.
  intros Hc Ha Hb HB0 HB. apply each_rep in Ha, Hb. eapply fill_binary; [done|exact Ha|exact Hb|].
  intros i x y Hi [Bx Ex] [By Ey].
  assert (- (2 ^ 31 * Q) < x * y < 2 ^ 31 * Q) as Hp by nia.
  eapply wp_step; [apply i64_ok; unfold Q in Hp; int_range|].
  destruct (montgomery_ok (x * y)) as (r & -> & Er & Br & _); [lia|].
  cbn [wp]. split; [lia|]. apply eqq_cancel_R in Er. by rewrite Er, Ex, Ey.
Qed.

(** The product in Z/Q[X]/(X^256 + 1), by way of the transform. *)
Definition poly_mul (c a b : list Z) : option (list Z) :=
  a ← poly_ntt a; b ← poly_ntt b;
  c ← poly_pointwise_montgomery c a b;
  poly_invntt_tomont c.

Lemma rep_ext B F G a : (∀ i, (i < N)%nat → F i ≡q G i) → rep B F a → rep B G a.
Proof. intros H [Hl Ha]. split; [done|]. intros i Hi. eapply holds_eqq; [by apply H|by apply Ha]. Qed.

(** The transform is linear in a constant factor. *)
Lemma layers_scale k F l i : layers l (λ j, k * F j) i = k * layers l F i.
Proof.
  revert i. induction l as [|l IH]; intros i; [done|]. cbn [layers]. unfold fwd.
  rewrite !IH. case_match; lia.
Qed.

Lemma poly_mul_ok F G c a b :
  length c = N → rep Q F a → rep Q G b → wp (poly_mul c a b) (rep (Q - 1) (negmul F G)).
Proof.
  intros Hc Ha Hb. unfold poly_mul, poly_ntt, poly_invntt_tomont.
  eapply wp_then; [apply (ntt_layers_ok Q F); [done|done|exact Ha]|]. intros a' Ha'. cbn beta.
  eapply wp_then; [apply (ntt_layers_ok Q G); [done|done|exact Hb]|]. intros b' Hb'. cbn beta.
  eapply wp_then; [eapply poly_pointwise_ok; [done|exact Ha'|exact Hb'|done|done]|].
  intros d Hd. cbn beta.
  eapply wp_mono; [apply (invntt_ok (λ i, RINV * negmul F G i))|].
  - revert Hd. apply rep_ext. intros i Hi. rewrite layers_scale, <-layers_mul by done.
    apply (eqq_intro _ _ 0). lia.
  - intros r. apply rep_ext. intros i Hi. rewrite Z.mul_assoc, RINV_ok. by rewrite Z.mul_1_l.
Qed.

(** ** Norm check *)
Lemma chknorm_abs x : - 2 ^ 30 <= x < 2 ^ 30 →
  i32 (2 * x) = Some (2 * x) ∧ i32 (x - Z.land (Z.shiftr x 31) (2 * x)) = Some (Z.abs x).
Proof.
  intros Hx. split; [apply i32_ok; int_range|]. rewrite Z.shiftr_div_pow2 by lia.
  destruct (Z.lt_ge_cases x 0).
  - rewrite <-(Z.div_unique x (2 ^ 31) (-1) (x + 2 ^ 31)) by lia. rewrite Z.land_m1_l.
    rewrite i32_ok by int_range. f_equal. lia.
  - rewrite Z.div_small, Z.land_0_l by lia. rewrite i32_ok by int_range. f_equal. lia.
Qed.

Lemma poly_chknorm_ok a B :
  each (λ _ x, - 2 ^ 30 <= x < 2 ^ 30) a →
  poly_chknorm a B =
    Some (if bool_decide (B <= (Q - 1) / 8 ∧ Forall (λ x, Z.abs x < B) a) then 0 else 1).
Proof.
  intros [Hl Ha]. unfold poly_chknorm. destruct (Z.ltb_spec ((Q - 1) / 8) B) as [HB|HB].
  { rewrite bool_decide_eq_false_2; [done|]. intros [? _]. lia. }
  apply wp_eq. apply (wp_loop (λ fuel i, (i <= N)%nat ∧ fuel = (S N - i)%nat ∧
    ∀ k x, (k < i)%nat → a !! k = Some x → Z.abs x < B)).
  - split_and!; [lia..|]. intros. lia.
  - intros fuel i (Hi & -> & Hd). exists (N - i)%nat. split; [lia|]. unfold chknorm_step.
    destruct (Nat.ltb_spec i N) as [Hlt|Hge].
    + destruct (Ha i Hlt) as (x & Hx & Bx). destruct (chknorm_abs x Bx) as [E1 E2].
      eapply wp_step; [exact Hx|]. cbv zeta. eapply wp_step; [exact E1|].
      eapply wp_step; [exact E2|]. destruct (Z.leb_spec B (Z.abs x)) as [Hge|Hlt']; cbn [wp].
      * rewrite bool_decide_eq_false_2; [done|]. intros [_ H].
        rewrite Forall_lookup in H. specialize (H i x Hx). cbn beta in H. lia.
      * split_and!; [lia..|]. intros k y Hk Hy. destruct (decide (k = i)) as [->|].
        -- assert (y = x) as -> by congruence. done.
        -- eapply Hd; [|exact Hy]. lia.
    + cbn [wp]. rewrite bool_decide_eq_true_2; [done|]. split; [lia|].
      apply Forall_lookup. intros k x Hx. eapply Hd; [|exact Hx].
      apply lookup_lt_Some in Hx. lia.
Qed.

(** ** Hints *)
Lemma make_hint_range a0 a1 : 0 <= make_hint a0 a1 <= 1.
Proof. unfold make_hint. case_match; lia. Qed.

Lemma poly_make_hint_ok (F0 F1 : nat → Z) h a0 a1 :
  length h = N → each (λ i x, x = F0 i) a0 → each (λ i x, x = F1 i) a1 →
  wp (poly_make_hint h a0 a1) (λ '(h', s),
    each (λ i x, x = make_hint (F0 i) (F1 i)) h' ∧
    s = psum (λ i, make_hint (F0 i) (F1 i)) N).
Proof.
  intros Hh [_ H0] [_ H1].
  apply (wp_for (λ i '(h', s), length h' = N ∧ s = psum (λ i, make_hint (F0 i) (F1 i)) i ∧
    0 <= s <= Z.of_nat i ∧
    ∀ k, (k < i)%nat → h' !! k = Some (make_hint (F0 k) (F1 k)))).
  - split_and!; [done..|lia].
  - intros i [h' s] Hi (Hl & Hs & Bs & Hd).
    destruct (H0 i ltac:(lia)) as (x0 & E0 & ->), (H1 i ltac:(lia)) as (x1 & E1 & ->).
    pose proof (make_hint_range (F0 i) (F1 i)).
    eapply wp_step; [exact E0|]. eapply wp_step; [exact E1|].
    eapply wp_step; [apply store_ok; lia|].
    eapply wp_step; [apply list_lookup_insert_eq; lia|]. cbn [wp]. unfold N in Hi.
    rewrite u32_small by (unfold in_u32; lia). rewrite length_insert. cbn [psum].
    split_and!; [done|lia..|]. intros k Hk. destruct (decide (k = i)) as [->|].
    + by rewrite list_lookup_insert_eq by (unfold N in Hl; lia).
    + rewrite list_lookup_insert_ne by done. apply Hd. lia.
  - intros [h' s] (Hl & Hs & _ & Hd). split; [|done]. split; [done|].
    intros i Hi. eexists. split; [by apply Hd|done].
Qed.

(** ** Rejection sampling *)

(** The candidates of a buffer: 23 bits of every three bytes, as [CoeffFromThreeBytes]. *)
Fixpoint uniform_candidates (buf : list Z) : list Z :=
  match buf with
  | b0 :: b1 :: b2 :: buf' => (b0 + 2 ^ 8 * b1 + 2 ^ 16 * b2) mod 2 ^ 23 :: uniform_candidates buf'
  | _ => []
  end.
(** One half-byte after the other, low half first, as [CoeffFromHalfByte]. *)
Definition eta_candidates (buf : list Z) : list Z := buf ≫= λ b, [b mod 16; b / 16].

Definition uniform_sample (len : nat) (buf : list Z) : list Z :=
  take len (filter (λ t, t < Q) (uniform_candidates buf)).
Definition eta_accept (ts : list Z) : list Z := (λ t, ETA - t) <$> filter (λ t, t < 9) ts.
Definition eta_sample (len : nat) (buf : list Z) : list Z :=
  take len (eta_accept (eta_candidates buf)).

(** An array whose first entries have been replaced. *)
Lemma store_prefix (a acc : list Z) v :
  (length acc < length a)%nat →
  store (acc ++ drop (length acc) a) (length acc) v = Some ((acc ++ [v]) ++ drop (length (acc ++ [v])) a).
Proof.
  intros H. rewrite store_ok by (rewrite length_app, length_drop; lia). f_equal.
  rewrite insert_app_r_alt, Nat.sub_diag by lia.
  destruct (drop (length acc) a) as [|y t] eqn:E.
  { apply (f_equal length) in E. rewrite length_drop in E. simpl in E. lia. }
  simpl. rewrite <-app_assoc, length_app. simpl. f_equal. f_equal.
  rewrite <-drop_drop, E. done.
Qed.

Lemma lor_pow2_r a b k : 0 <= k → 0 <= a < 2 ^ k → Z.lor a (b * 2 ^ k) = a + b * 2 ^ k.
Proof. intros. rewrite Z.lor_comm, lor_mul_pow2 by done. lia. Qed.

Lemma three_bytes b0 b1 b2 :
  in_u8 b0 → in_u8 b1 → in_u8 b2 →
  Z.land (Z.lor (Z.lor b0 (u32 (Z.shiftl b1 8))) (u32 (Z.shiftl b2 16))) 0x7FFFFF =
  (b0 + 2 ^ 8 * b1 + 2 ^ 16 * b2) mod 2 ^ 23.
Proof.
  unfold in_u8. intros H0 H1 H2. rewrite !Z.shiftl_mul_pow2 by lia.
  rewrite !u32_small by (unfold in_u32; lia). rewrite (lor_pow2_r b0) by lia.
  rewrite lor_pow2_r by lia. change 0x7FFFFF with (2 ^ 23 - 1). rewrite land_ones_u32 by lia.
  f_equal. lia.
Qed.

Lemma uniform_candidates_drop b pos b0 b1 b2 :
  b !! pos = Some b0 → b !! (pos + 1)%nat = Some b1 → b !! (pos + 2)%nat = Some b2 →
  uniform_candidates (drop pos b) =
    (b0 + 2 ^ 8 * b1 + 2 ^ 16 * b2) mod 2 ^ 23 :: uniform_candidates (drop (pos + 3) b).
Proof.
  intros H0 H1 H2. rewrite (drop_S _ _ _ H0). rewrite Nat.add_1_r in H1.
  rewrite (drop_S _ _ _ H1). replace (pos + 2)%nat with (S (S pos)) in H2 by lia.
  rewrite (drop_S _ _ _ H2). by replace (pos + 3)%nat with (S (S (S pos))) by lia.
Qed.
Lemma uniform_candidates_short b : (length b < 3)%nat → uniform_candidates b = [].
Proof. do 3 (destruct b as [|? b]; [done|]). simpl. lia. Qed.

Lemma rej_uniform_ok a len buf buflen :
  (len <= length a)%nat → (buflen <= length buf)%nat → bytes (take buflen buf) →
  let s := uniform_sample len (take buflen buf) in
  rej_uniform a len buf buflen = Some (length s, s ++ drop (length s) a).
Proof.
  intros Ha Hbuf Hb s. apply wp_eq. set (b := take buflen buf) in *.
  assert (length b = buflen) as Hlb by (unfold b; rewrite length_take; lia).
  assert (∀ i, (i < buflen)%nat → ∃ x, buf !! i = Some x ∧ b !! i = Some x ∧ in_u8 x) as Hat.
  { intros i Hi. destruct (lookup_lt_is_Some_2 buf i) as [x Hx]; [lia|]. exists x.
    assert (b !! i = Some x) as Hx' by (unfold b; by rewrite lookup_take_lt).
    split; [done|]. split; [done|]. exact (Forall_lookup_1 _ _ _ _ Hb Hx'). }
  apply (wp_loop (λ fuel '(ctr, pos, a'), ∃ acc, ctr = length acc ∧ (ctr <= len)%nat ∧
    a' = acc ++ drop (length acc) a ∧ (pos <= buflen < fuel + pos)%nat ∧
    s = acc ++ take (len - ctr) (filter (λ t, t < Q) (uniform_candidates (drop pos b))))).
  - exists []. split; [done|]. split; [simpl; lia|]. split; [done|]. split; [lia|]. by rewrite Nat.sub_0_r.
  - intros fuel [[ctr pos] a'] (acc & -> & Hc & -> & Hf & Hs). unfold rej_uniform_step.
    destruct (Nat.ltb_spec (length acc) len); [destruct (Nat.leb_spec (pos + 3) buflen)|]; cbn [andb].
    + exists (fuel - 1)%nat. split; [lia|].
      destruct (Hat pos) as (b0 & E0 & E0' & B0), (Hat (pos + 1)%nat) as (b1 & E1 & E1' & B1),
        (Hat (pos + 2)%nat) as (b2 & E2 & E2' & B2); [lia..|].
      eapply wp_step; [exact E0|]. eapply wp_step; [exact E1|]. eapply wp_step; [exact E2|].
      cbv zeta. rewrite three_bytes by done.
      rewrite (uniform_candidates_drop b pos b0 b1 b2) in Hs by done. rewrite filter_cons in Hs.
      set (t := (b0 + 2 ^ 8 * b1 + 2 ^ 16 * b2) mod 2 ^ 23) in *. destruct (Z.ltb_spec t Q).
      * rewrite decide_True in Hs by done. eapply wp_step; [apply store_prefix; lia|]. cbn [wp].
        exists (acc ++ [t]). rewrite length_app. simpl length.
        split; [lia|]. split; [lia|]. split; [done|]. split; [lia|]. rewrite Hs, <-app_assoc. f_equal.
        replace (len - length acc)%nat with (S (len - S (length acc))) by lia. done.
      * rewrite decide_False in Hs by lia. cbn [wp]. exists acc. split; [done|]. split; [done|]. split; [done|]. split; [lia|done].
    + exists (fuel - 1)%nat. split; [lia|]. cbn [wp].
      rewrite uniform_candidates_short, filter_nil, take_nil, app_nil_r in Hs
        by (rewrite length_drop; lia). by subst acc.
    + exists (fuel - 1)%nat. split; [lia|]. cbn [wp].
      replace (len - length acc)%nat with 0%nat in Hs by lia.
      rewrite take_0, app_nil_r in Hs. by subst acc.
Qed.

Lemma eta_value t : 0 <= t < 9 → to_i32 (u32 (4 - t)) = ETA - t.
Proof.
  intros Ht. unfold to_i32, u32, ETA. destruct (Z.le_gt_cases t 4).
  - rewrite (Z.mod_small (4 - t)) by lia. rewrite Z.mod_small by lia. lia.
  - rewrite <-(Z.mod_unique (4 - t) (2 ^ 32) (-1) (4 - t + 2 ^ 32)) by lia.
    rewrite <-(Z.mod_unique (4 - t + 2 ^ 32 + 2 ^ 31) (2 ^ 32) 1 (4 - t + 2 ^ 31)) by lia. lia.
Qed.

(** One half-byte: stored if it is acceptable and there is room. *)
Lemma eta_emit (a acc rest : list Z) (len : nat) t (c : bool) :
  0 <= t → c = (t <? 9) && (length acc <? len)%nat → (len <= length a)%nat → (length acc <= len)%nat →
  wp (if c then a' ← store (acc ++ drop (length acc) a) (length acc) (to_i32 (u32 (4 - t)));
        Some (S (length acc), a')
      else Some (length acc, acc ++ drop (length acc) a))
     (λ '(ctr, a'), ∃ acc', ctr = length acc' ∧ a' = acc' ++ drop (length acc') a ∧
        (length acc' <= len)%nat ∧
        acc ++ take (len - length acc) (eta_accept (t :: rest)) =
        acc' ++ take (len - length acc') (eta_accept rest)).
Proof.
  intros Ht -> Ha Hl. unfold eta_accept. rewrite filter_cons. destruct (Z.ltb_spec t 9); cbn [andb].
  - rewrite decide_True by done. destruct (Nat.ltb_spec (length acc) len).
    + eapply wp_step; [apply store_prefix; lia|]. cbn [wp]. rewrite eta_value by lia.
      exists (acc ++ [ETA - t]). rewrite length_app. cbn [length].
      split; [lia|]. split; [done|]. split; [lia|]. rewrite <-app_assoc. f_equal.
      rewrite Nat.add_1_r. replace (len - length acc)%nat with (S (len - S (length acc))) by lia.
      done.
    + cbn [wp]. exists acc. replace (len - length acc)%nat with 0%nat by lia.
      split_and!; [done..|]. by rewrite !take_0.
  - rewrite decide_False by lia. cbn [wp]. by exists acc.
Qed.

Lemma rej_eta_ok a len buf buflen :
  (len <= length a)%nat → (buflen <= length buf)%nat → bytes (take buflen buf) →
  let s := eta_sample len (take buflen buf) in
  rej_eta a len buf buflen = Some (length s, s ++ drop (length s) a).
Proof.
  intros Ha Hbuf Hb s. apply wp_eq. set (b := take buflen buf) in *.
  assert (length b = buflen) as Hlb by (unfold b; rewrite length_take; lia).
  apply (wp_loop (λ fuel '(ctr, pos, a'), ∃ acc, ctr = length acc ∧ (ctr <= len)%nat ∧
    a' = acc ++ drop (length acc) a ∧ (pos <= buflen < fuel + pos)%nat ∧
    s = acc ++ take (len - ctr) (eta_accept (eta_candidates (drop pos b))))).
  - exists []. split; [done|]. split; [simpl; lia|]. split; [done|]. split; [lia|].
    by rewrite Nat.sub_0_r.
  - intros fuel [[ctr pos] a'] (acc & -> & Hc & -> & Hf & Hs). exists (fuel - 1)%nat.
    split; [lia|]. unfold rej_eta_step.
    destruct (Nat.ltb_spec (length acc) len); [destruct (Nat.ltb_spec pos buflen)|]; cbn [andb wp].
    + destruct (lookup_lt_is_Some_2 buf pos) as [x Hx]; [lia|].
      assert (b !! pos = Some x) as Hx' by (unfold b; by rewrite lookup_take_lt).
      destruct (Forall_lookup_1 _ _ _ _ Hb Hx') as [B1 B2].
      eapply wp_step; [exact Hx|]. cbv zeta.
      change 0x0F with 15. rewrite land_15, Z.shiftr_div_pow2 by lia. change (2 ^ 4) with 16.
      rewrite (drop_S _ _ _ Hx') in Hs. unfold eta_candidates in Hs. cbn [mbind list_bind app] in Hs.
      eapply wp_then.
      { apply (eta_emit a acc (x / 16 :: eta_candidates (drop (S pos) b)) len).
        - apply Z.mod_pos_bound. lia.
        - by rewrite (proj2 (Nat.ltb_lt _ _)), andb_true_r by lia.
        - done.
        - done. }
      intros [ctr a'] (acc1 & -> & -> & Hc1 & E1).
      eapply wp_then.
      { apply (eta_emit a acc1 (eta_candidates (drop (S pos) b)) len); [|reflexivity|done|done].
        apply Z.div_pos; lia. }
      intros [ctr a'] (acc2 & -> & -> & Hc2 & E2). cbn [wp]. exists acc2.
      split; [done|]. split; [done|]. split; [done|]. split; [lia|].
      rewrite <-E2, <-E1. exact Hs.
    + rewrite drop_ge in Hs by lia. change (eta_accept (eta_candidates [])) with (@nil Z) in Hs.
      rewrite take_nil, app_nil_r in Hs. by subst acc.
    + replace (len - length acc)%nat with 0%nat in Hs by lia.
      rewrite take_0, app_nil_r in Hs. by subst acc.
Qed.

(** The samples are in range. *)
Lemma uniform_sample_range len buf : Forall (λ x, 0 <= x < Q) (uniform_sample len buf).
Proof.
  apply Forall_take. unfold uniform_sample.
  assert (Forall (λ x, 0 <= x) (uniform_candidates buf)) as H.
  { remember (length buf) as n eqn:E. revert buf E.
    induction (lt_wf n) as [n _ IH]. intros buf ->.
    do 3 (destruct buf as [|? buf]; [constructor|]). cbn [uniform_candidates]. constructor.
    - apply Z.mod_pos_bound. lia.
    - eapply IH; [|reflexivity]. simpl. lia. }
  induction H as [|x l Hx _ IH]; [constructor|]. rewrite filter_cons. case_decide; [|done].
  by constructor.
Qed.

Lemma eta_sample_range len buf : bytes buf → Forall (λ x, - ETA <= x <= ETA) (eta_sample len buf).
Proof.
  intros Hb. apply Forall_take, Forall_fmap. unfold eta_candidates.
  assert (Forall (λ t, 0 <= t) (buf ≫= λ b, [b mod 16; b / 16])) as H.
  { apply Forall_bind. eapply Forall_impl; [|exact Hb]. intros b [B1 B2].
    repeat constructor; [apply Z.mod_pos_bound|apply Z.div_pos]; lia. }
  induction H as [|x l Hx _ IH]; [constructor|]. rewrite filter_cons. case_decide; [|done].
  constructor; [|done]. unfold compose, ETA. lia.
Qed.
