(* ===== verification/MlPack.v ===== *)
(** ML-DSA-65: bit packing of polynomials ([poly.c], second half).

    Each packing loop takes a group of coefficients to a group of bytes and each
    unpacking loop a group of bytes to a group of coefficients; the groups are
    written with the code's shifts and masks, in the code's types.  Proved here:
    on the coefficient ranges the scheme uses, unpacking inverts packing, and
    packing inverts unpacking on every byte string. *)
From S2P Require Import Prelude MlArith MlNtt MlNttSpec MlPoly.

Definition POLYT1_PACKEDBYTES : nat := 320.
Definition POLYT0_PACKEDBYTES : nat := 416.
Definition POLYZ_PACKEDBYTES : nat := 640.
Definition POLYW1_PACKEDBYTES : nat := 128.
Definition POLYETA_PACKEDBYTES : nat := 128.

(** [for (i = 0; i < n; ++i)]: entries [g*i .. g*i+g-1] of [a] to entries
    [k*i .. k*i+k-1] of [r]. *)
Definition group_loop (n g k : nat) (f : list Z → option (list Z)) (r a : list Z) : option (list Z) :=
  for_loop n 0 (λ i r, cs ← read a (i * g) g; bs ← f cs; write r (i * k) bs) r.

(** ** [polyeta_pack], [polyeta_unpack] (ETA = 4) *)
Definition eta_pack_group (c : list Z) : option (list Z) :=
  match c with
  | [c0; c1] =>
      t0 ← i32 (ETA - c0);
      t1 ← i32 (ETA - c1);
      let t0 := u8 t0 in let t1 := u8 t1 in
      Some [u8 (Z.lor t0 (Z.shiftl t1 4))]
  | _ => None
  end.
Definition polyeta_pack (r a : list Z) : option (list Z) := group_loop (N / 2) 2 1 eta_pack_group r a.

Definition eta_unpack_group (a : list Z) : option (list Z) :=
  match a with
  | [a0] =>
      r0 ← i32 (ETA - Z.land a0 0x0F);
      r1 ← i32 (ETA - Z.shiftr a0 4);
      Some [r0; r1]
  | _ => None
  end.
Definition polyeta_unpack (r a : list Z) : option (list Z) := group_loop (N / 2) 1 2 eta_unpack_group r a.

(** ** [polyt1_pack], [polyt1_unpack] *)
Definition t1_pack_group (c : list Z) : option (list Z) :=
  match c with
  | [c0; c1; c2; c3] =>
      s1 ← shl32 c1 2; s2 ← shl32 c2 4; s3 ← shl32 c3 6;
      Some [u8 (Z.shiftr c0 0);
            u8 (Z.lor (Z.shiftr c0 8) s1);
            u8 (Z.lor (Z.shiftr c1 6) s2);
            u8 (Z.lor (Z.shiftr c2 4) s3);
            u8 (Z.shiftr c3 2)]
  | _ => None
  end.
Definition polyt1_pack (r a : list Z) : option (list Z) := group_loop (N / 4) 4 5 t1_pack_group r a.

Definition t1_unpack_group (a : list Z) : option (list Z) :=
  match a with
  | [a0; a1; a2; a3; a4] =>
      Some [Z.land (Z.lor (Z.shiftr a0 0) (u32 (Z.shiftl a1 8))) 0x3FF;
            Z.land (Z.lor (Z.shiftr a1 2) (u32 (Z.shiftl a2 6))) 0x3FF;
            Z.land (Z.lor (Z.shiftr a2 4) (u32 (Z.shiftl a3 4))) 0x3FF;
            Z.land (Z.lor (Z.shiftr a3 6) (u32 (Z.shiftl a4 2))) 0x3FF]
  | _ => None
  end.
Definition polyt1_unpack (r a : list Z) : option (list Z) := group_loop (N / 4) 5 4 t1_unpack_group r a.

(** ** [polyt0_pack], [polyt0_unpack] *)
Definition t0_pack_group (c : list Z) : option (list Z) :=
  match c with
  | [c0; c1; c2; c3; c4; c5; c6; c7] =>
      t0 ← i32 (Z.shiftl 1 (D - 1) - c0); t1 ← i32 (Z.shiftl 1 (D - 1) - c1);
      t2 ← i32 (Z.shiftl 1 (D - 1) - c2); t3 ← i32 (Z.shiftl 1 (D - 1) - c3);
      t4 ← i32 (Z.shiftl 1 (D - 1) - c4); t5 ← i32 (Z.shiftl 1 (D - 1) - c5);
      t6 ← i32 (Z.shiftl 1 (D - 1) - c6); t7 ← i32 (Z.shiftl 1 (D - 1) - c7);
      let t0 := u32 t0 in let t1 := u32 t1 in let t2 := u32 t2 in let t3 := u32 t3 in
      let t4 := u32 t4 in let t5 := u32 t5 in let t6 := u32 t6 in let t7 := u32 t7 in
      Some [u8 t0;
            u8 (Z.lor (u8 (Z.shiftr t0 8)) (u32 (Z.shiftl t1 5)));
            u8 (Z.shiftr t1 3);
            u8 (Z.lor (u8 (Z.shiftr t1 11)) (u32 (Z.shiftl t2 2)));
            u8 (Z.lor (u8 (Z.shiftr t2 6)) (u32 (Z.shiftl t3 7)));
            u8 (Z.shiftr t3 1);
            u8 (Z.lor (u8 (Z.shiftr t3 9)) (u32 (Z.shiftl t4 4)));
            u8 (Z.shiftr t4 4);
            u8 (Z.lor (u8 (Z.shiftr t4 12)) (u32 (Z.shiftl t5 1)));
            u8 (Z.lor (u8 (Z.shiftr t5 7)) (u32 (Z.shiftl t6 6)));
            u8 (Z.shiftr t6 2);
            u8 (Z.lor (u8 (Z.shiftr t6 10)) (u32 (Z.shiftl t7 3)));
            u8 (Z.shiftr t7 5)]
  | _ => None
  end.
Definition polyt0_pack (r a : list Z) : option (list Z) := group_loop (N / 8) 8 13 t0_pack_group r a.

Definition t0_unpack_group (a : list Z) : option (list Z) :=
  match a with
  | [a0; a1; a2; a3; a4; a5; a6; a7; a8; a9; a10; a11; a12] =>
      let r0 := Z.land (Z.lor a0 (u32 (Z.shiftl a1 8))) 0x1FFF in
      let r1 := Z.land (Z.lor (Z.lor (Z.shiftr a1 5) (u32 (Z.shiftl a2 3))) (u32 (Z.shiftl a3 11))) 0x1FFF in
      let r2 := Z.land (Z.lor (Z.shiftr a3 2) (u32 (Z.shiftl a4 6))) 0x1FFF in
      let r3 := Z.land (Z.lor (Z.lor (Z.shiftr a4 7) (u32 (Z.shiftl a5 1))) (u32 (Z.shiftl a6 9))) 0x1FFF in
      let r4 := Z.land (Z.lor (Z.lor (Z.shiftr a6 4) (u32 (Z.shiftl a7 4))) (u32 (Z.shiftl a8 12))) 0x1FFF in
      let r5 := Z.land (Z.lor (Z.shiftr a8 1) (u32 (Z.shiftl a9 7))) 0x1FFF in
      let r6 := Z.land (Z.lor (Z.lor (Z.shiftr a9 6) (u32 (Z.shiftl a10 2))) (u32 (Z.shiftl a11 10))) 0x1FFF in
      let r7 := Z.land (Z.lor (Z.shiftr a11 3) (u32 (Z.shiftl a12 5))) 0x1FFF in
      r0 ← i32 (Z.shiftl 1 (D - 1) - r0); r1 ← i32 (Z.shiftl 1 (D - 1) - r1);
      r2 ← i32 (Z.shiftl 1 (D - 1) - r2); r3 ← i32 (Z.shiftl 1 (D - 1) - r3);
      r4 ← i32 (Z.shiftl 1 (D - 1) - r4); r5 ← i32 (Z.shiftl 1 (D - 1) - r5);
      r6 ← i32 (Z.shiftl 1 (D - 1) - r6); r7 ← i32 (Z.shiftl 1 (D - 1) - r7);
      Some [r0; r1; r2; r3; r4; r5; r6; r7]
  | _ => None
  end.
Definition polyt0_unpack (r a : list Z) : option (list Z) := group_loop (N / 8) 13 8 t0_unpack_group r a.

(** ** [polyz_pack], [polyz_unpack] (GAMMA1 = 2^19) *)
Definition z_pack_group (c : list Z) : option (list Z) :=
  match c with
  | [c0; c1] =>
      t0 ← i32 (GAMMA1 - c0); t1 ← i32 (GAMMA1 - c1);
      let t0 := u32 t0 in let t1 := u32 t1 in
      Some [u8 t0;
            u8 (Z.shiftr t0 8);
            u8 (Z.lor (u8 (Z.shiftr t0 16)) (u32 (Z.shiftl t1 4)));
            u8 (Z.shiftr t1 4);
            u8 (Z.shiftr t1 12)]
  | _ => None
  end.
Definition polyz_pack (r a : list Z) : option (list Z) := group_loop (N / 2) 2 5 z_pack_group r a.

Definition z_unpack_group (a : list Z) : option (list Z) :=
  match a with
  | [a0; a1; a2; a3; a4] =>
      let r0 := Z.land (Z.lor (Z.lor a0 (u32 (Z.shiftl a1 8))) (u32 (Z.shiftl a2 16))) 0xFFFFF in
      let r1 := Z.lor (Z.lor (Z.shiftr a2 4) (u32 (Z.shiftl a3 4))) (u32 (Z.shiftl a4 12)) in
      r0 ← i32 (GAMMA1 - r0); r1 ← i32 (GAMMA1 - r1);
      Some [r0; r1]
  | _ => None
  end.
Definition polyz_unpack (r a : list Z) : option (list Z) := group_loop (N / 2) 5 2 z_unpack_group r a.

(** ** [polyw1_pack] (GAMMA2 = (Q-1)/32) *)
Definition w1_pack_group (c : list Z) : option (list Z) :=
  match c with
  | [c0; c1] => s ← shl32 c1 4; Some [u8 (Z.lor c0 s)]
  | _ => None
  end.
Definition polyw1_pack (r a : list Z) : option (list Z) := group_loop (N / 2) 2 1 w1_pack_group r a.

(** ** Group loops *)
Lemma group_loop_ok n g k f r a (bs : nat → list Z) :
  length a = (n * g)%nat → length r = (n * k)%nat →
  (∀ i, (i < n)%nat → f (slot g a i) = Some (bs i) ∧ length (bs i) = k) →
  wp (group_loop n g k f r a) (λ r', length r' = (n * k)%nat ∧ ∀ i, (i < n)%nat → slot k r' i = bs i).
Proof.
  intros Ha Hr Hf.
  apply (wp_for (λ i r', length r' = (n * k)%nat ∧ ∀ j, (j < i)%nat → slot k r' j = bs j)).
  - split; [done|lia].
  - intros i r' Hi [Hl Hd]. destruct (Hf i ltac:(lia)) as [Ef Lf].
    eapply wp_step; [apply read_slot; nia|]. eapply wp_step; [exact Ef|].
    eapply wp_mono; [apply wp_write_slot; [exact Lf|nia]|].
    intros r'' (Hl' & Hs & Ho). split; [lia|]. intros j Hj.
    destruct (decide (j = i)) as [->|]; [done|]. rewrite Ho by done. apply Hd. lia.
  - intros r' H. exact H.
Qed.

(** A group function [f] and its inverse [f'] on groups satisfying [P]. *)
Definition inverse_on (P : list Z → Prop) (R : list Z → Prop) (g k : nat)
    (f f' : list Z → option (list Z)) : Prop :=
  ∀ cs, length cs = g → P cs → ∃ bs, length bs = k ∧ f cs = Some bs ∧ f' bs = Some cs ∧ R bs.

Lemma slots_inj n k a b :
  length a = (n * k)%nat → length b = (n * k)%nat →
  (∀ i, (i < n)%nat → slot k a i = slot k b i) → a = b.
Proof.
  intros Ha Hb H. transitivity (seq 0 n ≫= slot k b); [|symmetry]; by apply (slots_eq k n).
Qed.

Lemma Forall_slots (P : Z → Prop) n k a :
  length a = (n * k)%nat → (∀ i, (i < n)%nat → Forall P (slot k a i)) → Forall P a.
Proof.
  intros Ha H. rewrite (slots_eq k n a _ Ha (λ _ _, eq_refl)).
  apply Forall_bind, Forall_forall. intros i Hi%in_seq. apply H. lia.
Qed.

Lemma group_roundtrip P R n g k f f' r a :
  inverse_on P R g k f f' → length a = (n * g)%nat → length r = (n * k)%nat →
  (∀ i, (i < n)%nat → P (slot g a i)) →
  wp (group_loop n g k f r a) (λ r', length r' = (n * k)%nat ∧
    (∀ i, (i < n)%nat → R (slot k r' i)) ∧
    ∀ p, length p = (n * g)%nat → group_loop n k g f' p r' = Some a).
Proof.
  intros Hinv Ha Hr HP.
  assert (∀ i, (i < n)%nat → ∃ bs, length bs = k ∧ f (slot g a i) = Some bs ∧
    f' bs = Some (slot g a i) ∧ R bs) as Hb.
  { intros i Hi. apply Hinv; [apply length_slot; nia|by apply HP]. }
  eapply wp_mono; [apply (group_loop_ok n g k f r a
    (λ i, default [] (f (slot g a i))) Ha Hr)|].
  - intros i Hi. destruct (Hb i Hi) as (bs & Lb & Ef & _). by rewrite Ef.
  - intros r' [Hl Hs]. split; [done|].
    assert (∀ i, (i < n)%nat → f' (slot k r' i) = Some (slot g a i) ∧ R (slot k r' i)) as Hi.
    { intros i Hi. rewrite Hs by done. destruct (Hb i Hi) as (bs & Lb & Ef & Ef' & HR).
      by rewrite Ef. }
    split; [intros i H; by apply Hi|]. intros p Hp. apply wp_eq.
    eapply wp_mono; [apply (group_loop_ok n k g f' p r' (slot g a) Hl Hp)|].
    + intros i H. split; [by apply Hi|]. apply length_slot. nia.
    + intros a' [Hl' Hs']. apply (slots_inj n g); [lia..|exact Hs'].
Qed.

(** ** Shifts and masks as arithmetic *)
Lemma lor_shl a b k :
  0 <= k → 0 <= a < 2 ^ k → 0 <= b * 2 ^ k < 2 ^ 32 → Z.lor a (u32 (Z.shiftl b k)) = a + b * 2 ^ k.
Proof.
  intros Hk Ha Hb. rewrite Z.shiftl_mul_pow2 by done. rewrite u32_small by done.
  by apply lor_pow2_r.
Qed.
Lemma land_mask x n : 0 <= n → Z.land x (2 ^ n - 1) = x mod 2 ^ n.
Proof. apply land_ones_u32. Qed.

Ltac div_lia := Z.to_euclidean_division_equations; lia.
Ltac shr := rewrite ?Z.shiftr_div_pow2 by lia.

Lemma t1_inverse :
  inverse_on (Forall (λ x, 0 <= x < 2 ^ 10)) bytes 4 5 t1_pack_group t1_unpack_group.
Proof.
  intros cs Hl HP. destruct cs as [|c0 [|c1 [|c2 [|c3 [|]]]]]; try done.
  decompose_Forall_hyps.
  unfold t1_pack_group. rewrite !shl32_ok by lia. cbn [mbind option_bind]. shr.
  rewrite !lor_pow2_r by div_lia. refine (ex_intro _ _ (conj _ (conj eq_refl (conj _ _)))); [done| |by repeat constructor; apply u8_range].
  unfold t1_unpack_group. shr. unfold u8.
  rewrite !lor_shl by div_lia. change 0x3FF with (2 ^ 10 - 1). rewrite !land_mask by lia.
  do 2 f_equal; [|f_equal; [|f_equal; [|f_equal]]]; div_lia.
Qed.
Lemma t1_inverse' :
  inverse_on bytes (Forall (λ x, 0 <= x < 2 ^ 10)) 5 4 t1_unpack_group t1_pack_group.
Proof.
  intros cs Hl HP. destruct cs as [|a0 [|a1 [|a2 [|a3 [|a4 [|]]]]]]; try done.
  unfold in_u8 in HP. decompose_Forall_hyps.
  unfold t1_unpack_group. shr. rewrite !lor_shl by div_lia.
  change 0x3FF with (2 ^ 10 - 1). rewrite !land_mask by lia.
  refine (ex_intro _ _ (conj _ (conj eq_refl (conj _ _)))); [done| |repeat constructor; div_lia].
  unfold t1_pack_group. rewrite !shl32_ok by div_lia. cbn [mbind option_bind]. shr.
  rewrite !lor_pow2_r by div_lia. unfold u8.
  do 2 f_equal; [|f_equal; [|f_equal; [|f_equal; [|f_equal]]]]; div_lia.
Qed.

Lemma eta_inverse :
  inverse_on (Forall (λ x, - ETA <= x <= ETA)) bytes 2 1 eta_pack_group eta_unpack_group.
Proof.
  intros cs Hl HP. destruct cs as [|c0 [|c1 [|]]]; try done. unfold ETA in HP.
  decompose_Forall_hyps. unfold eta_pack_group, ETA.
  rewrite !i32_ok by int_range. cbn [mbind option_bind]. cbv zeta.
  rewrite !(u8_small (4 - _)) by (unfold in_u8; lia). rewrite Z.shiftl_mul_pow2 by lia.
  rewrite lor_pow2_r by lia. rewrite u8_small by (unfold in_u8; lia).
  refine (ex_intro _ _ (conj _ (conj eq_refl (conj _ _)))); [done| |repeat constructor; unfold in_u8; lia].
  unfold eta_unpack_group, ETA. change 0x0F with (2 ^ 4 - 1). rewrite land_mask by lia. shr.
  rewrite !i32_ok by (unfold in_i32; div_lia). cbn [mbind option_bind].
  do 2 f_equal; [|f_equal]; div_lia.
Qed.

Lemma z_inverse :
  inverse_on (Forall (λ x, - GAMMA1 < x <= GAMMA1)) bytes 2 5 z_pack_group z_unpack_group.
Proof.
  intros cs Hl HP. destruct cs as [|c0 [|c1 [|]]]; try done. change GAMMA1 with (2 ^ 19) in HP.
  decompose_Forall_hyps. unfold z_pack_group. change GAMMA1 with (2 ^ 19).
  rewrite !i32_ok by int_range. cbn [mbind option_bind]. cbv zeta.
  rewrite !(u32_small (2 ^ 19 - _)) by (unfold in_u32; lia). shr.
  rewrite (u8_small ((2 ^ 19 - c0) / 2 ^ 16)) by (unfold in_u8; div_lia).
  rewrite lor_shl by div_lia.
  refine (ex_intro _ _ (conj _ (conj eq_refl (conj _ _)))); [done| |by repeat constructor; apply u8_range].
  unfold z_unpack_group, u8. cbv zeta. shr. change GAMMA1 with (2 ^ 19).
  rewrite !(lor_shl _ _ 4), !(lor_shl _ _ 8) by div_lia. rewrite !lor_shl by div_lia.
  change 0xFFFFF with (2 ^ 20 - 1). rewrite land_mask by lia.
  rewrite !i32_ok by (unfold in_i32; div_lia). cbn [mbind option_bind].
  do 2 f_equal; [|f_equal]; div_lia.
Qed.

Lemma z_inverse' :
  inverse_on bytes (Forall (λ x, - GAMMA1 < x <= GAMMA1)) 5 2 z_unpack_group z_pack_group.
Proof.
  intros cs Hl HP. destruct cs as [|a0 [|a1 [|a2 [|a3 [|a4 [|]]]]]]; try done.
  unfold in_u8 in HP. decompose_Forall_hyps.
  unfold z_unpack_group. cbv zeta. shr. change GAMMA1 with (2 ^ 19).
  rewrite !(lor_shl _ _ 4), !(lor_shl _ _ 8) by div_lia. rewrite !lor_shl by div_lia.
  change 0xFFFFF with (2 ^ 20 - 1). rewrite land_mask by lia.
  rewrite !i32_ok by (unfold in_i32; div_lia). cbn [mbind option_bind].
  refine (ex_intro _ _ (conj _ (conj eq_refl (conj _ _)))); [done| |repeat constructor; div_lia].
  unfold z_pack_group. change GAMMA1 with (2 ^ 19).
  rewrite !i32_ok by (unfold in_i32; div_lia). cbn [mbind option_bind]. cbv zeta.
  rewrite !(u32_small (2 ^ 19 - _)) by (unfold in_u32; div_lia). shr.
  rewrite lor_shl by (unfold u8; div_lia). unfold u8.
  do 2 f_equal; [|f_equal; [|f_equal; [|f_equal; [|f_equal]]]]; div_lia.
Qed.

Lemma t0_inverse :
  inverse_on (Forall (λ x, - 2 ^ (D - 1) < x <= 2 ^ (D - 1))) bytes 8 13 t0_pack_group t0_unpack_group.
Proof.
  intros cs Hl HP. destruct cs as [|c0 [|c1 [|c2 [|c3 [|c4 [|c5 [|c6 [|c7 [|]]]]]]]]]; try done.
  change (2 ^ (D - 1)) with (2 ^ 12) in HP. decompose_Forall_hyps.
  unfold t0_pack_group. change (Z.shiftl 1 (D - 1)) with (2 ^ 12).
  rewrite !i32_ok by int_range. cbn [mbind option_bind]. cbv zeta.
  rewrite !(u32_small (2 ^ 12 - _)) by (unfold in_u32; lia). shr.
  rewrite !lor_shl by (unfold u8; div_lia).
  refine (ex_intro _ _ (conj _ (conj eq_refl (conj _ _)))); [done| |by repeat constructor; apply u8_range].
  unfold t0_unpack_group. change (Z.shiftl 1 (D - 1)) with (2 ^ 12). cbv zeta. shr. unfold u8.
  change 0x1FFF with (2 ^ 13 - 1). rewrite !land_mask by lia.
  rewrite !(lor_shl _ _ 1), !(lor_shl _ _ 2), !(lor_shl _ _ 3), !(lor_shl _ _ 4) by div_lia.
  rewrite !lor_shl by div_lia.
  rewrite !i32_ok by (unfold in_i32; div_lia). cbn [mbind option_bind].
  f_equal. repeat apply (f_equal2 cons); [div_lia..|done].
Qed.

Lemma t0_inverse' :
  inverse_on bytes (Forall (λ x, - 2 ^ (D - 1) < x <= 2 ^ (D - 1))) 13 8 t0_unpack_group t0_pack_group.
Proof.
  intros cs Hl HP.
  destruct cs as [|a0 [|a1 [|a2 [|a3 [|a4 [|a5 [|a6 [|a7 [|a8 [|a9 [|a10 [|a11 [|a12 [|]]]]]]]]]]]]]];
    try done.
  unfold in_u8 in HP. decompose_Forall_hyps.
  unfold t0_unpack_group. change (Z.shiftl 1 (D - 1)) with (2 ^ 12). cbv zeta. shr.
  change 0x1FFF with (2 ^ 13 - 1). rewrite !land_mask by lia.
  rewrite !(lor_shl _ _ 1), !(lor_shl _ _ 2), !(lor_shl _ _ 3), !(lor_shl _ _ 4) by div_lia.
  rewrite !lor_shl by div_lia.
  rewrite !i32_ok by (unfold in_i32; div_lia). cbn [mbind option_bind].
  refine (ex_intro _ _ (conj _ (conj eq_refl (conj _ _)))); [done| |].
  2: { change (2 ^ (D - 1)) with (2 ^ 12). repeat constructor; div_lia. }
  unfold t0_pack_group. change (Z.shiftl 1 (D - 1)) with (2 ^ 12).
  rewrite !i32_ok by (unfold in_i32; div_lia). cbn [mbind option_bind]. cbv zeta.
  rewrite !(u32_small (2 ^ 12 - _)) by (unfold in_u32; div_lia). shr.
  rewrite !lor_shl by (unfold u8; div_lia). unfold u8.
  f_equal. repeat apply (f_equal2 cons); [div_lia..|done].
Qed.

(** ** Polynomials *)
Lemma Forall_slot (P : Z → Prop) k a i : Forall P a → Forall P (slot k a i).
Proof. intros H. by apply Forall_take, Forall_drop. Qed.

Lemma poly_roundtrip (P R : Z → Prop) n g k f f' r a :
  inverse_on (Forall P) (Forall R) g k f f' → length a = (n * g)%nat → length r = (n * k)%nat →
  Forall P a →
  wp (group_loop n g k f r a) (λ r', length r' = (n * k)%nat ∧ Forall R r' ∧
    ∀ p, length p = (n * g)%nat → group_loop n k g f' p r' = Some a).
Proof.
  intros Hinv Ha Hr HP. eapply wp_mono; [eapply group_roundtrip; [exact Hinv|done..|]|].
  - intros i _. by apply Forall_slot.
  - intros r' (Hl & HR & E). split_and!; [done|by eapply Forall_slots|done].
Qed.
