(* ===== verification/MlKeys.v ===== *)
(** ML-DSA-65: encodings of keys and signatures ([packing.c]).

    A vector of polynomials is the list of its polynomials.  Keys are byte
    strings and packed vectors one after the other; a signature ends with the
    hints, encoded as the positions of the ones and a running count per
    polynomial.  Proved here: decoding inverts encoding, and the hint decoder
    accepts exactly the strings the encoder writes. *)
From S2P Require Import Prelude MlArith MlNtt MlNttSpec MlPoly MlPack.

Definition SEEDBYTES : nat := 32.
Definition TRBYTES : nat := 64.
Definition K : nat := 6.
Definition L : nat := 5.
Definition OMEGA : nat := 55.
Definition CTILDEBYTES : nat := 48.
Definition POLYVECH_PACKEDBYTES : nat := OMEGA + K.
Definition CRYPTO_PUBLICKEYBYTES : nat := SEEDBYTES + K * POLYT1_PACKEDBYTES.
Definition CRYPTO_SECRETKEYBYTES : nat :=
  2 * SEEDBYTES + TRBYTES + L * POLYETA_PACKEDBYTES + K * POLYETA_PACKEDBYTES + K * POLYT0_PACKEDBYTES.
Definition CRYPTO_BYTES : nat := CTILDEBYTES + L * POLYZ_PACKEDBYTES + POLYVECH_PACKEDBYTES.

(** [for (i = 0; i < n; ++i) pack(buf + off + i*k, &vec[i])] *)
Definition pack_vec (n k : nat) (pack : list Z → list Z → option (list Z)) (off : nat)
    (buf : list Z) (vec : list (list Z)) : option (list Z) :=
  for_loop n 0 (λ i buf,
    v ← vec !! i;
    r ← read buf (off + i * k) k;
    r ← pack r v;
    write buf (off + i * k) r) buf.

(** [for (i = 0; i < n; ++i) unpack(&vec[i], buf + off + i*k)] *)
Definition unpack_vec (n k : nat) (unpack : list Z → list Z → option (list Z)) (off : nat)
    (vec : list (list Z)) (buf : list Z) : option (list (list Z)) :=
  for_loop n 0 (λ i vec,
    v ← vec !! i;
    b ← read buf (off + i * k) k;
    v ← unpack v b;
    Some (<[i := v]> vec)) vec.

(** [for (i = 0; i < n; ++i) dst[off1 + i] = src[off2 + i]] *)
Definition copy (n : nat) (dst : list Z) (off1 : nat) (src : list Z) (off2 : nat) : option (list Z) :=
  b ← read src off2 n; write dst off1 b.

Definition pack_pk (pk rho : list Z) (t1 : list (list Z)) : option (list Z) :=
  pk ← copy SEEDBYTES pk 0 rho 0;
  pack_vec K POLYT1_PACKEDBYTES polyt1_pack SEEDBYTES pk t1.

Definition unpack_pk (rho : list Z) (t1 : list (list Z)) (pk : list Z)
    : option (list Z * list (list Z)) :=
  rho ← copy SEEDBYTES rho 0 pk 0;
  t1 ← unpack_vec K POLYT1_PACKEDBYTES polyt1_unpack SEEDBYTES t1 pk;
  Some (rho, t1).

Definition sk_key : nat := SEEDBYTES.
Definition sk_tr : nat := sk_key + SEEDBYTES.
Definition sk_s1 : nat := sk_tr + TRBYTES.
Definition sk_s2 : nat := sk_s1 + L * POLYETA_PACKEDBYTES.
Definition sk_t0 : nat := sk_s2 + K * POLYETA_PACKEDBYTES.

Definition pack_sk (sk rho tr key : list Z) (t0 s1 s2 : list (list Z)) : option (list Z) :=
  sk ← copy SEEDBYTES sk 0 rho 0;
  sk ← copy SEEDBYTES sk sk_key key 0;
  sk ← copy TRBYTES sk sk_tr tr 0;
  sk ← pack_vec L POLYETA_PACKEDBYTES polyeta_pack sk_s1 sk s1;
  sk ← pack_vec K POLYETA_PACKEDBYTES polyeta_pack sk_s2 sk s2;
  pack_vec K POLYT0_PACKEDBYTES polyt0_pack sk_t0 sk t0.

Definition unpack_sk (rho tr key : list Z) (t0 s1 s2 : list (list Z)) (sk : list Z)
    : option (list Z * list Z * list Z * list (list Z) * list (list Z) * list (list Z)) :=
  rho ← copy SEEDBYTES rho 0 sk 0;
  key ← copy SEEDBYTES key 0 sk sk_key;
  tr ← copy TRBYTES tr 0 sk sk_tr;
  s1 ← unpack_vec L POLYETA_PACKEDBYTES polyeta_unpack sk_s1 s1 sk;
  s2 ← unpack_vec K POLYETA_PACKEDBYTES polyeta_unpack sk_s2 s2 sk;
  t0 ← unpack_vec K POLYT0_PACKEDBYTES polyt0_unpack sk_t0 t0 sk;
  Some (rho, tr, key, t0, s1, s2).

(** ** Hints: the [OMEGA + K] bytes at the end of a signature *)
Definition pack_hint_coeff (v : list Z) (j : nat) (s : nat * list Z) : option (nat * list Z) :=
  let '(k, hb) := s in
  x ← v !! j;
  if x =? 0 then Some (k, hb)
  else hb ← store hb k (u8 (Z.of_nat j)); Some (S k, hb).

Definition pack_hint_row (h : list (list Z)) (i : nat) (s : nat * list Z) : option (nat * list Z) :=
  v ← h !! i;
  '(k, hb) ← for_loop N 0 (pack_hint_coeff v) s;
  hb ← store hb (OMEGA + i) (u8 (Z.of_nat k));
  Some (k, hb).

Definition pack_hints (hb : list Z) (h : list (list Z)) : option (list Z) :=
  hb ← for_loop (OMEGA + K) 0 (λ i hb, store hb i 0) hb;
  '(_, hb) ← for_loop K 0 (pack_hint_row h) (0%nat, hb);
  Some hb.

(** One index of a row; [k] is where the row starts and [n] its end. *)
Definition unpack_hint_coeff (hb : list Z) (k n : nat) (s : nat * list Z)
    : option (ctl (nat * list Z) (bool * list Z)) :=
  let '(j, v) := s in
  if (j <? n)%nat then
    x ← hb !! j;
    bad ← (if (k <? j)%nat then y ← hb !! (j - 1)%nat; Some (x <=? y) else Some false);
    if (bad : bool) then Some (Done (true, v))
    else v ← store v (Z.to_nat x) 1; Some (Next (S j, v))
  else Some (Done (false, v)).

(** The tail check: [for(j = k; j < OMEGA; ++j) if(sig[j]) return 1;] *)
Definition unpack_hint_tail (hb : list Z) (j : nat) : option (ctl nat Z) :=
  if (j <? OMEGA)%nat then
    x ← hb !! j;
    if x =? 0 then Some (Next (S j)) else Some (Done 1)
  else Some (Done 0).

Definition unpack_hint_row (hb : list Z) (s : nat * nat * list (list Z))
    : option (ctl (nat * nat * list (list Z)) (Z * list (list Z))) :=
  let '(i, k, h) := s in
  if (i <? K)%nat then
    v ← h !! i;
    v ← fill (λ _ _, Some 0) v;
    c ← hb !! (OMEGA + i)%nat;
    let n := Z.to_nat c in
    if (n <? k)%nat || (OMEGA <? n)%nat then Some (Done (1, <[i := v]> h))
    else
      '(bad, v) ← loop (S OMEGA) (unpack_hint_coeff hb k n) (k, v);
      if (bad : bool) then Some (Done (1, <[i := v]> h))
      else Some (Next (S i, n, <[i := v]> h))
  else
    ret ← loop (S OMEGA) (unpack_hint_tail hb) k;
    Some (Done (ret, h)).

Definition unpack_hints (h : list (list Z)) (hb : list Z) : option (Z * list (list Z)) :=
  loop (S K) (unpack_hint_row hb) (0, 0, h)%nat.

(** ** Signatures *)
Definition sig_z : nat := CTILDEBYTES.
Definition sig_h : nat := sig_z + L * POLYZ_PACKEDBYTES.

Definition pack_sig (sig c : list Z) (z h : list (list Z)) : option (list Z) :=
  sig ← copy CTILDEBYTES sig 0 c 0;
  sig ← pack_vec L POLYZ_PACKEDBYTES polyz_pack sig_z sig z;
  hb ← read sig sig_h POLYVECH_PACKEDBYTES;
  hb ← pack_hints hb h;
  write sig sig_h hb.

Definition unpack_sig (c : list Z) (z h : list (list Z)) (sig : list Z)
    : option (Z * list Z * list (list Z) * list (list Z)) :=
  c ← copy CTILDEBYTES c 0 sig 0;
  z ← unpack_vec L POLYZ_PACKEDBYTES polyz_unpack sig_z z sig;
  hb ← read sig sig_h POLYVECH_PACKEDBYTES;
  '(ret, h) ← unpack_hints h hb;
  Some (ret, c, z, h).

(** ** Packed vectors

    [packs pack unpack k v]: packing [v] gives [k] bytes that unpack to [v],
    whatever the two output buffers held. *)
Definition packs (pack unpack : list Z → list Z → option (list Z)) (k : nat) (v : list Z) : Prop :=
  ∀ r, length r = k → wp (pack r v) (λ r', length r' = k ∧ bytes r' ∧
    ∀ p, length p = N → unpack p r' = Some v).

Definition is_vec (n : nat) (vec : list (list Z)) : Prop := length vec = n ∧ Forall (λ v, length v = N) vec.

(** [mid] holds the packed polynomials of [vec]. *)
Definition vec_bytes (unpack : list Z → list Z → option (list Z)) (k : nat)
    (vec : list (list Z)) (mid : list Z) : Prop :=
  length mid = (length vec * k)%nat ∧ bytes mid ∧
  ∀ i v p, vec !! i = Some v → length p = N → unpack p (slot k mid i) = Some v.

Lemma put_app pre mid post i k data :
  length data = k → ((i + 1) * k <= length mid)%nat →
  put (pre ++ mid ++ post) (length pre + i * k) data = pre ++ put mid (i * k) data ++ post.
Proof.
  intros Hd Hm. unfold put. rewrite take_app_add, <-!app_assoc. f_equal.
  rewrite take_app_le by lia. f_equal. f_equal.
  rewrite <-Nat.add_assoc, drop_app_add. by rewrite drop_app_le by lia.
Qed.

(** Whatever [T] packing establishes of the bytes of each polynomial holds of the
    part of the buffer it is packed to; the rest of the buffer is unchanged. *)
Lemma pack_vec_gen (T : nat → list Z → Prop) n k pack off pre mid post vec :
  off = length pre → length mid = (n * k)%nat → length vec = n →
  (∀ i v r, vec !! i = Some v → length r = k → wp (pack r v) (λ r', length r' = k ∧ T i r')) →
  wp (pack_vec n k pack off (pre ++ mid ++ post) vec) (λ buf,
    ∃ mid', buf = pre ++ mid' ++ post ∧ length mid' = (n * k)%nat ∧
      ∀ i, (i < n)%nat → T i (slot k mid' i)).
Proof.
  intros -> Hm Hv HP.
  apply (wp_for (λ i buf, ∃ mid', buf = pre ++ mid' ++ post ∧ length mid' = (n * k)%nat ∧
    ∀ j, (j < i)%nat → T j (slot k mid' j))).
  - exists mid. split_and!; [done..|lia].
  - intros i buf Hi (m & -> & Hl & Hd).
    destruct (lookup_lt_is_Some_2 vec i) as [v Hvi]; [lia|].
    eapply wp_step; [exact Hvi|].
    eapply wp_step; [apply read_Some; rewrite !length_app; nia|].
    rewrite drop_app_add, drop_app_le, take_app_le by (rewrite ?length_drop; nia).
    eapply wp_then; [apply (HP i v); [done|rewrite length_take, length_drop; nia]|].
    intros r (Lr & Tr).
    rewrite write_Some by (rewrite !length_app; nia). cbn [wp].
    rewrite (put_app _ _ _ _ k) by (done || nia).
    destruct (wp_exists (write m (i * k) r) (λ b, length b = length m ∧ slot k b i = r ∧
      ∀ j, j ≠ i → slot k b j = slot k m j)) as [Hw _].
    destruct Hw as (b & Hb & Hlb & Hsi & Hso); [apply wp_write_slot; [done|nia]|].
    rewrite write_Some in Hb by nia. injection Hb as Hb. rewrite Hb. exists b.
    split_and!; [done|lia|]. intros j Hj. destruct (decide (j = i)) as [->|].
    + by rewrite Hsi.
    + rewrite Hso by done. apply Hd. lia.
  - intros buf H. exact H.
Qed.

Lemma pack_vec_ok n k pack unpack off pre mid post vec :
  off = length pre → length mid = (n * k)%nat → length vec = n → Forall (packs pack unpack k) vec →
  wp (pack_vec n k pack off (pre ++ mid ++ post) vec) (λ buf,
    ∃ mid', buf = pre ++ mid' ++ post ∧ vec_bytes unpack k vec mid').
Proof.
  intros Ho Hm Hv HP. eapply wp_mono.
  - apply (pack_vec_gen (λ i r, bytes r ∧ ∀ v p, vec !! i = Some v → length p = N → unpack p r = Some v));
      [done..|].
    intros i v r Hi Hr. eapply wp_mono; [by apply (Forall_lookup_1 _ _ _ _ HP Hi)|].
    intros r' (Lr & Br & Ur). split_and!; [done..|]. intros w p Hw Hp.
    assert (w = v) as -> by congruence. by apply Ur.
  - intros buf (m & -> & Hl & Hd). exists m. split; [done|]. split_and!.
    + lia.
    + eapply Forall_slots; [exact Hl|]. intros i Hi. by apply Hd.
    + intros i v p Hi Hp. eapply Hd; [|done..]. apply lookup_lt_Some in Hi. lia.
Qed.

Lemma pack_vec_exact n k pack off pre mid mid' post vec :
  off = length pre → length mid = (n * k)%nat → length mid' = (n * k)%nat → length vec = n →
  (∀ i v r, vec !! i = Some v → length r = k → pack r v = Some (slot k mid' i)) →
  pack_vec n k pack off (pre ++ mid ++ post) vec = Some (pre ++ mid' ++ post).
Proof.
  intros Ho Hm Hm' Hv HP. apply wp_eq. eapply wp_mono.
  - apply (pack_vec_gen (λ i r, r = slot k mid' i) n); [done..|].
    intros i v r Hi Hr. rewrite (HP i v r Hi Hr). cbn [wp]. split; [|done].
    apply lookup_lt_Some in Hi. apply length_slot. nia.
  - intros buf (m & -> & Hl & Hd). by rewrite (slots_inj n k m mid').
Qed.

Lemma unpack_vec_ok n k unpack off pre mid post vec vec0 :
  off = length pre → length vec = n → is_vec n vec0 → vec_bytes unpack k vec mid →
  unpack_vec n k unpack off vec0 (pre ++ mid ++ post) = Some vec.
Proof.
  intros -> Hv [Hl0 H0] (Hm & _ & Hu). apply wp_eq.
  apply (wp_for (λ i vec', length vec' = n ∧ ∀ j, vec' !! j = if decide (j < i)%nat then vec !! j else vec0 !! j)).
  - split; [done|]. intros j. by rewrite decide_False by lia.
  - intros i vec' Hi [Hl Hd].
    destruct (lookup_lt_is_Some_2 vec i) as [v Hvi]; [lia|].
    destruct (lookup_lt_is_Some_2 vec0 i) as [v0 Hv0]; [lia|].
    eapply wp_step; [rewrite Hd, decide_False by lia; exact Hv0|].
    eapply wp_step; [apply read_Some; rewrite !length_app; nia|].
    rewrite drop_app_add, drop_app_le, take_app_le by (rewrite ?length_drop; nia).
    eapply wp_step; [apply (Hu i); [exact Hvi|by eapply (Forall_lookup_1 _ _ _ _ H0)]|]. cbn [wp].
    split; [by rewrite length_insert|]. intros j. destruct (decide (j = i)) as [->|].
    + rewrite list_lookup_insert_eq by lia. by rewrite decide_True by lia.
    + rewrite list_lookup_insert_ne, Hd by done. repeat case_decide; done || lia.
  - intros vec' [Hl Hd]. apply list_eq. intros j. rewrite Hd. case_decide; [done|].
    by rewrite !lookup_ge_None_2 by lia.
Qed.

Lemma packs_t1 v :
  length v = N → Forall (λ x, 0 <= x < 2 ^ 10) v → packs polyt1_pack polyt1_unpack POLYT1_PACKEDBYTES v.
Proof. intros Hv HP r Hr. exact (poly_roundtrip _ _ 64 4 5 _ _ r v t1_inverse Hv Hr HP). Qed.
Lemma packs_eta v :
  length v = N → Forall (λ x, - ETA <= x <= ETA) v →
  packs polyeta_pack polyeta_unpack POLYETA_PACKEDBYTES v.
Proof. intros Hv HP r Hr. exact (poly_roundtrip _ _ 128 2 1 _ _ r v eta_inverse Hv Hr HP). Qed.
Lemma packs_t0 v :
  length v = N → Forall (λ x, - 2 ^ (D - 1) < x <= 2 ^ (D - 1)) v →
  packs polyt0_pack polyt0_unpack POLYT0_PACKEDBYTES v.
Proof. intros Hv HP r Hr. exact (poly_roundtrip _ _ 32 8 13 _ _ r v t0_inverse Hv Hr HP). Qed.
Lemma packs_z v :
  length v = N → Forall (λ x, - GAMMA1 < x <= GAMMA1) v →
  packs polyz_pack polyz_unpack POLYZ_PACKEDBYTES v.
Proof. intros Hv HP r Hr. exact (poly_roundtrip _ _ 128 2 5 _ _ r v z_inverse Hv Hr HP). Qed.

(** A vector of polynomials with coefficients in [P]. *)
Definition vec_of (n : nat) (P : Z → Prop) (vec : list (list Z)) : Prop :=
  length vec = n ∧ Forall (λ v, length v = N ∧ Forall P v) vec.

Lemma vec_of_packs n P pack unpack k vec :
  (∀ v, length v = N → Forall P v → packs pack unpack k v) →
  vec_of n P vec → Forall (packs pack unpack k) vec.
Proof. intros H [_ HP]. eapply Forall_impl; [|exact HP]. intros v [? ?]. by apply H. Qed.

(** ** Keys *)
Lemma copy_in n off pre old post src :
  off = length pre → length src = n → length old = n →
  copy n (pre ++ old ++ post) off src 0 = Some (pre ++ src ++ post).
Proof.
  intros Hoff Hs Ho. unfold copy. rewrite (read_all src n) by done. cbn [mbind option_bind].
  apply write_app; lia.
Qed.
Lemma copy_out n pre x post dst :
  length x = n → length dst = n → copy n dst 0 (pre ++ x ++ post) (length pre) = Some x.
Proof.
  intros Hx Hd. unfold copy. rewrite (read_app pre x post _ n) by done. cbn [mbind option_bind].
  rewrite <-(app_nil_r dst), write_front by lia. by rewrite app_nil_r.
Qed.

Definition pk_shape (rho : list Z) (t1 : list (list Z)) : Prop :=
  length rho = SEEDBYTES ∧ is_vec K t1.

Lemma pk_roundtrip pk0 rho t1 :
  length pk0 = CRYPTO_PUBLICKEYBYTES → length rho = SEEDBYTES → vec_of K (λ x, 0 <= x < 2 ^ 10) t1 →
  wp (pack_pk pk0 rho t1) (λ pk, length pk = CRYPTO_PUBLICKEYBYTES ∧ (bytes rho → bytes pk) ∧
    ∀ rho0 t10, pk_shape rho0 t10 → unpack_pk rho0 t10 pk = Some (rho, t1)).
Proof.
  intros Hpk Hr Ht.
  destruct (split_at SEEDBYTES pk0) as (x & y & -> & Hx); [rewrite Hpk; unfold CRYPTO_PUBLICKEYBYTES; lia|].
  rewrite length_app, Hx in Hpk. unfold CRYPTO_PUBLICKEYBYTES in Hpk.
  unfold pack_pk. eapply wp_step; [apply (copy_in SEEDBYTES 0 [] x y rho); done|]. cbn [app].
  rewrite <-(app_nil_r y), app_assoc, <-app_assoc. eapply wp_mono.
  - apply (pack_vec_ok K _ polyt1_pack polyt1_unpack); [done|lia|apply Ht|].
    eapply vec_of_packs; [|exact Ht]. apply packs_t1.
  - intros pk (mid & -> & Hm). pose proof Hm as (Lm & Bm & _). split_and!.
    + destruct Ht as [Lt _]. rewrite !length_app, Lm, Lt, Hr. cbn [length]. unfold CRYPTO_PUBLICKEYBYTES. lia.
    + intros Br. rewrite app_nil_r. by apply Forall_app_2.
    + intros rho0 t10 [Hr0 Ht0]. unfold unpack_pk.
      rewrite (copy_out SEEDBYTES [] rho (mid ++ [])) by done. cbn [mbind option_bind].
      rewrite (unpack_vec_ok K _ polyt1_unpack _ rho mid [] t1) by (done || apply Ht). done.
Qed.

(** The six parts of a secret key. *)
Lemma sk_parts sk :
  length sk = CRYPTO_SECRETKEYBYTES →
  ∃ a b c d e f : list Z, sk = a ++ b ++ c ++ d ++ e ++ f ∧ length a = SEEDBYTES ∧ length b = SEEDBYTES ∧
    length c = TRBYTES ∧ length d = (L * POLYETA_PACKEDBYTES)%nat ∧
    length e = (K * POLYETA_PACKEDBYTES)%nat ∧ length f = (K * POLYT0_PACKEDBYTES)%nat.
Proof.
  unfold CRYPTO_SECRETKEYBYTES. intros Hl.
  destruct (split_at SEEDBYTES sk) as (a & r1 & -> & Ha); [lia|]. rewrite length_app in Hl.
  destruct (split_at SEEDBYTES r1) as (b & r2 & -> & Hb); [lia|]. rewrite length_app in Hl.
  destruct (split_at TRBYTES r2) as (c & r3 & -> & Hc); [lia|]. rewrite length_app in Hl.
  destruct (split_at (L * POLYETA_PACKEDBYTES) r3) as (d & r4 & -> & Hd); [lia|].
  rewrite length_app in Hl.
  destruct (split_at (K * POLYETA_PACKEDBYTES) r4) as (e & f & -> & He); [lia|].
  rewrite length_app in Hl. exists a, b, c, d, e, f. split_and!; lia || done.
Qed.

(** [pack_vec_ok] and [unpack_vec_ok] on the i-th part of a longer buffer. *)
Lemma pack_vec_at n k P pack unpack off pre mid post vec :
  (∀ v, length v = N → Forall P v → packs pack unpack k v) →
  off = length pre → length mid = (n * k)%nat → vec_of n P vec →
  wp (pack_vec n k pack off (pre ++ mid ++ post) vec) (λ buf,
    ∃ mid', buf = pre ++ mid' ++ post ∧ length mid' = length mid ∧ vec_bytes unpack k vec mid').
Proof.
  intros HP Ho Hm Hv. eapply wp_mono.
  - eapply pack_vec_ok; [done|exact Hm|apply Hv|]. by eapply vec_of_packs.
  - intros buf (mid' & E & Hb). exists mid'. split_and!; [done| |done].
    destruct Hb as [Hl _]. destruct Hv as [Hv _]. lia.
Qed.

Lemma unpack_sk_ok rho tr key t0 s1 s2 rho' tr' key' t0' s1' s2' d e f post :
  length rho = SEEDBYTES → length tr = TRBYTES → length key = SEEDBYTES →
  length s1 = L → length s2 = K → length t0 = K →
  vec_bytes polyeta_unpack POLYETA_PACKEDBYTES s1 d → vec_bytes polyeta_unpack POLYETA_PACKEDBYTES s2 e →
  vec_bytes polyt0_unpack POLYT0_PACKEDBYTES t0 f →
  length rho' = SEEDBYTES → length tr' = TRBYTES → length key' = SEEDBYTES →
  is_vec K t0' → is_vec L s1' → is_vec K s2' →
  unpack_sk rho' tr' key' t0' s1' s2' (rho ++ key ++ tr ++ d ++ e ++ f ++ post) =
    Some (rho, tr, key, t0, s1, s2).
Proof.
  intros Hr Ht Hk L1 L2 L0 Bd Be Bf Hr' Ht' Hk' H0 H1 H2.
  pose proof Bd as [Ld _]. pose proof Be as [Le _].
  assert (length (rho ++ key) = sk_tr) as O1 by (rewrite length_app, Hr, Hk; done).
  assert (length ((rho ++ key) ++ tr) = sk_s1) as O2 by (rewrite length_app, O1, Ht; done).
  assert (length (((rho ++ key) ++ tr) ++ d) = sk_s2) as O3 by (rewrite length_app, O2, Ld, L1; done).
  assert (length ((((rho ++ key) ++ tr) ++ d) ++ e) = sk_t0) as O4 by (rewrite length_app, O3, Le, L2; done).
  pose proof (copy_out SEEDBYTES [] rho (key ++ tr ++ d ++ e ++ f ++ post) rho' Hr Hr') as E1.
  pose proof (copy_out SEEDBYTES rho key (tr ++ d ++ e ++ f ++ post) key' Hk Hk') as E2.
  pose proof (copy_out TRBYTES (rho ++ key) tr (d ++ e ++ f ++ post) tr' Ht Ht') as E3.
  pose proof (unpack_vec_ok L _ _ _ ((rho ++ key) ++ tr) d (e ++ f ++ post) s1 s1' eq_refl L1 H1 Bd) as E4.
  pose proof (unpack_vec_ok K _ _ _ (((rho ++ key) ++ tr) ++ d) e (f ++ post) s2 s2' eq_refl L2 H2 Be) as E5.
  pose proof (unpack_vec_ok K _ _ _ ((((rho ++ key) ++ tr) ++ d) ++ e) f post t0 t0' eq_refl L0 H0 Bf) as E6.
  rewrite O1 in E3. rewrite O2 in E4. rewrite O3 in E5. rewrite O4 in E6. rewrite Hr in E2.
  rewrite <-!app_assoc in E3. rewrite <-!app_assoc in E4.
  rewrite <-!app_assoc in E5. rewrite <-!app_assoc in E6. unfold unpack_sk.
  apply wp_eq. eapply wp_step; [exact E1|]. eapply wp_step; [exact E2|].
  eapply wp_step; [exact E3|]. eapply wp_step; [exact E4|]. eapply wp_step; [exact E5|].
  eapply wp_step; [exact E6|]. done.
Qed.

Lemma sk_roundtrip sk0 rho tr key t0 s1 s2 :
  length sk0 = CRYPTO_SECRETKEYBYTES → length rho = SEEDBYTES → length tr = TRBYTES →
  length key = SEEDBYTES → vec_of K (λ x, - 2 ^ (D - 1) < x <= 2 ^ (D - 1)) t0 →
  vec_of L (λ x, - ETA <= x <= ETA) s1 → vec_of K (λ x, - ETA <= x <= ETA) s2 →
  wp (pack_sk sk0 rho tr key t0 s1 s2) (λ sk, length sk = CRYPTO_SECRETKEYBYTES ∧
    ∀ rho' tr' key' t0' s1' s2',
      length rho' = SEEDBYTES → length tr' = TRBYTES → length key' = SEEDBYTES →
      is_vec K t0' → is_vec L s1' → is_vec K s2' →
      unpack_sk rho' tr' key' t0' s1' s2' sk = Some (rho, tr, key, t0, s1, s2)).
Proof.
  intros Hsk Hr Htr Hk H0 H1 H2.
  destruct (sk_parts sk0 Hsk) as (a & b & c & d & e & f & -> & La & Lb & Lc & Ld & Le & Lf).
  unfold pack_sk.
  eapply wp_step; [apply (copy_in SEEDBYTES 0 [] a); done|]. cbn [app].
  eapply wp_step; [apply (copy_in _ _ rho b); done|].
  eapply wp_step.
  { rewrite (app_assoc rho). apply copy_in; [rewrite length_app, Hr, Hk|..]; done. }
  rewrite (app_assoc (rho ++ key)). set (h := (rho ++ key) ++ tr).
  assert (length h = sk_s1) as Lh by (unfold h; rewrite !length_app, Hr, Hk, Htr; done).
  eapply wp_then; [eapply (pack_vec_at L _ _ _ _ _ h d); [apply packs_eta|done..]|].
  intros ? (d' & -> & Ld' & Bd). cbn beta. rewrite (app_assoc h).
  eapply wp_then; [eapply (pack_vec_at K _ _ _ _ _ (h ++ d') e);
    [apply packs_eta|rewrite length_app, Ld', Ld, Lh; done|done..]|].
  intros ? (e' & -> & Le' & Be). cbn beta. rewrite (app_assoc (h ++ d')), <-(app_nil_r f).
  eapply wp_mono; [eapply (pack_vec_at K _ _ _ _ _ ((h ++ d') ++ e') f);
    [apply packs_t0|rewrite !length_app, Le', Le, Ld', Ld, Lh; done|done..]|].
  intros sk (f' & -> & Lf' & Bf). split.
  { rewrite !length_app, Lf', Le', Ld', Lf, Le, Ld, Lh. cbn [length].
    unfold sk_s1, sk_tr, sk_key, CRYPTO_SECRETKEYBYTES. lia. }
  intros rho' tr' key' t0' s1' s2' Hr' Htr' Hk' H0' H1' H2'. unfold h. rewrite <-!app_assoc.
  apply unpack_sk_ok; done || apply H0 || apply H1 || apply H2 || lia.
Qed.
