(* ===== verification/MlHints.v ===== *)
(** ML-DSA-65: the hint encoding.

    The reference encoding of a hint vector: the positions of its ones, row by
    row, zeros up to OMEGA bytes, and the running counts.  The encoder writes
    it, and the decoder accepts a string exactly when it is the encoding of a
    0/1 vector, which it returns. *)
From stdpp Require Import sorting.
From S2P Require Import Prelude MlArith MlNtt MlNttSpec MlPoly MlPack MlKeys.

(** ** Reference encoding *)
Definition pos_upto (v : list Z) (n : nat) : list Z :=
  Z.of_nat <$> filter (λ j, v !! j ≠ Some 0) (seq 0 n).
Definition positions (h : list (list Z)) : list Z := h ≫= λ v, pos_upto v N.
Definition count (h : list (list Z)) (i : nat) : nat := length (positions (take i h)).
Definition counts (h : list (list Z)) (i : nat) : list Z := (λ r, Z.of_nat (count h (S r))) <$> seq 0 i.
Definition hint_bytes (h : list (list Z)) : list Z :=
  positions h ++ replicate (OMEGA - length (positions h)) 0 ++ counts h K.

Definition hints_ok (h : list (list Z)) : Prop :=
  vec_of K (λ x, x = 0 ∨ x = 1) h ∧ (length (positions h) <= OMEGA)%nat.

Lemma pos_upto_S v j :
  pos_upto v (S j) = pos_upto v j ++ if decide (v !! j ≠ Some 0) then [Z.of_nat j] else [].
Proof.
  unfold pos_upto. rewrite seq_S, list.filter_app, fmap_app, Nat.add_0_l. f_equal.
  rewrite filter_cons, filter_nil. by case_decide.
Qed.
Lemma pos_upto_mono v i j : (i <= j)%nat → (length (pos_upto v i) <= length (pos_upto v j))%nat.
Proof.
  induction 1 as [|j _ IH]; [done|]. rewrite pos_upto_S, length_app. lia.
Qed.
Lemma positions_app h h' : positions (h ++ h') = positions h ++ positions h'.
Proof. apply bind_app. Qed.
Lemma positions_take_S h i v :
  h !! i = Some v → positions (take (S i) h) = positions (take i h) ++ pos_upto v N.
Proof.
  intros H. rewrite (take_S_r _ _ _ H), positions_app. f_equal. unfold positions.
  cbn [mbind list_bind]. by rewrite app_nil_r.
Qed.
Lemma count_S h i v : h !! i = Some v → count h (S i) = (count h i + length (pos_upto v N))%nat.
Proof. intros H. unfold count. by rewrite (positions_take_S _ _ _ H), length_app. Qed.
Lemma count_le h i : (count h i <= length (positions h))%nat.
Proof.
  unfold count. rewrite <-(take_drop i h) at 2. rewrite positions_app, length_app. lia.
Qed.
Lemma counts_S h i : counts h (S i) = counts h i ++ [Z.of_nat (count h (S i))].
Proof. unfold counts. by rewrite seq_S, fmap_app. Qed.
Lemma length_counts h i : length (counts h i) = i.
Proof. unfold counts. by rewrite length_fmap, length_seq. Qed.

Lemma length_hint_bytes h :
  (length (positions h) <= OMEGA)%nat → length (hint_bytes h) = POLYVECH_PACKEDBYTES.
Proof.
  intros H. unfold hint_bytes, POLYVECH_PACKEDBYTES.
  rewrite !length_app, length_replicate, length_counts. lia.
Qed.

Lemma hint_bytes_bytes h : (length (positions h) <= OMEGA)%nat → bytes (hint_bytes h).
Proof.
  intros H. unfold hint_bytes. rewrite !Forall_app. split_and!.
  - apply Forall_bind, Forall_forall. intros v _. apply Forall_fmap, Forall_forall.
    intros j Hj. apply list_elem_of_In, list_elem_of_filter in Hj as [_ Hj%elem_of_seq].
    unfold in_u8, compose, N in *. lia.
  - apply Forall_replicate. unfold in_u8. lia.
  - apply Forall_fmap, Forall_forall. intros r _. unfold in_u8, compose.
    pose proof (count_le h (S r)). unfold OMEGA in *. lia.
Qed.

(** ** Encoder *)
Lemma store_zeros x m tl i v :
  i = length x → (0 < m)%nat →
  store (x ++ replicate m 0 ++ tl) i v = Some ((x ++ [v]) ++ replicate (m - 1) 0 ++ tl).
Proof.
  intros -> Hm. rewrite store_ok by (rewrite !length_app, length_replicate; lia). f_equal.
  rewrite insert_app_r_alt, Nat.sub_diag by lia. destruct m as [|m]; [lia|].
  rewrite Nat.sub_1_r. simpl. by rewrite <-app_assoc.
Qed.

Lemma zero_loop_ok hb n :
  length hb = n → for_loop n 0 (λ i hb, store hb i 0) hb = Some (replicate n 0).
Proof.
  intros Hl. apply wp_eq.
  apply (wp_for (λ i b, length b = n ∧ ∀ k, (k < i)%nat → b !! k = Some 0)).
  - split; [done|lia].
  - intros i b Hi [Hb Hd]. rewrite store_ok by lia. cbn [wp]. rewrite length_insert.
    split; [done|]. intros k Hk. destruct (decide (k = i)) as [->|].
    + apply list_lookup_insert_eq. lia.
    + rewrite list_lookup_insert_ne by done. apply Hd. lia.
  - intros b [Hb Hd]. apply list_eq_same_length with n; [by rewrite length_replicate|done|].
    intros i x y Hi Hx Hy. rewrite Hd in Hx by lia. apply lookup_replicate in Hy as [-> _]. congruence.
Qed.

Lemma pack_hint_row_ok x v tl k :
  k = length x → length v = N → (k + length (pos_upto v N) <= OMEGA)%nat →
  for_loop N 0 (pack_hint_coeff v) (k, x ++ replicate (OMEGA - k) 0 ++ tl) =
    Some ((k + length (pos_upto v N))%nat,
          (x ++ pos_upto v N) ++ replicate (OMEGA - (k + length (pos_upto v N))) 0 ++ tl).
Proof.
  intros Hk Hv Ho. apply wp_eq.
  apply (wp_for (λ j '(k', hb), k' = (k + length (pos_upto v j))%nat ∧
    hb = (x ++ pos_upto v j) ++ replicate (OMEGA - k') 0 ++ tl)).
  - rewrite Nat.add_0_r. by rewrite app_nil_r.
  - intros j [k' hb] Hj [-> ->]. destruct (lookup_lt_is_Some_2 v j) as [y Hy]; [lia|].
    pose proof (pos_upto_mono v (S j) N ltac:(lia)) as Hm. rewrite pos_upto_S in *.
    rewrite length_app in Hm. unfold pack_hint_coeff.
    eapply wp_step; [exact Hy|]. destruct (Z.eqb_spec y 0) as [->|Hne].
    + rewrite decide_False by (intros H; by apply H). cbn [wp].
      by rewrite !app_nil_r.
    + rewrite decide_True in * by congruence. cbn [length] in *.
      eapply wp_step; [apply store_zeros; [rewrite length_app; lia|lia]|]. cbn [wp].
      rewrite u8_small by (unfold in_u8, N in *; lia). rewrite length_app. cbn [length].
      split; [lia|]. rewrite !app_assoc. do 3 f_equal. lia.
  - intros [k' hb] [-> ->]. done.
Qed.

Lemma pack_hints_ok hb h :
  length hb = (OMEGA + K)%nat → is_vec K h → (length (positions h) <= OMEGA)%nat →
  pack_hints hb h = Some (hint_bytes h).
Proof.
  intros Hl [Hh Hrow] Ho. unfold pack_hints. rewrite zero_loop_ok by done. cbn [mbind option_bind].
  rewrite replicate_add. apply wp_eq. eapply wp_then.
  - apply (wp_for (λ i '(k, b), k = count h i ∧
      b = positions (take i h) ++ replicate (OMEGA - k) 0 ++ counts h i ++ replicate (K - i) 0)
      _ _ _ _ (λ '(k, b), b = hint_bytes h)).
    + by rewrite Nat.sub_0_r.
    + intros i [k b] Hi [-> ->]. destruct (lookup_lt_is_Some_2 h i) as [v Hv]; [lia|].
      pose proof (count_S _ _ _ Hv) as Hc. pose proof (count_le h (S i)).
      unfold pack_hint_row. eapply wp_step; [exact Hv|].
      eapply wp_step; [apply pack_hint_row_ok; [done|by eapply (Forall_lookup_1 _ _ _ _ Hrow)|lia]|].
      cbn beta. rewrite <-Hc, <-(positions_take_S _ _ _ Hv), !app_assoc.
      eapply wp_step.
      { rewrite <-(app_nil_r (replicate (K - i) 0)). apply store_zeros; [|lia].
        rewrite !length_app, length_replicate, length_counts. unfold count in *. lia. }
      cbn [wp]. split; [done|]. rewrite u8_small by (unfold in_u8, OMEGA in *; lia).
      rewrite counts_S, app_nil_r, <-!app_assoc. by replace (K - S i)%nat with (K - i - 1)%nat by lia.
    + intros [k b] [-> ->]. rewrite take_ge by lia. unfold hint_bytes, count.
      rewrite take_ge, Nat.sub_diag by lia. cbn [replicate]. by rewrite app_nil_r.
  - intros [k b] ->. done.
Qed.

(** ** Facts about encodings *)
Lemma elem_of_pos v n p : Z.of_nat p ∈ pos_upto v n ↔ (p < n)%nat ∧ v !! p ≠ Some 0.
Proof.
  unfold pos_upto. rewrite list_elem_of_fmap. split.
  - intros (q & ->%Nat2Z.inj & Hq). apply list_elem_of_filter in Hq as [? Hq%elem_of_seq]. split; [lia|done].
  - intros [Hp Hv]. exists p. split; [done|]. apply list_elem_of_filter. split; [done|].
    apply elem_of_seq. lia.
Qed.

Lemma pos_sorted v n : StronglySorted Z.lt (pos_upto v n).
Proof.
  induction n as [|n IH]; [constructor|]. rewrite pos_upto_S. apply StronglySorted_app_2; [|done|].
  - intros x1 x2 H1 H2. unfold pos_upto in H1. apply list_elem_of_fmap in H1 as (q & -> & Hq).
    apply list_elem_of_filter in Hq as [_ Hq%elem_of_seq].
    case_decide; [|by apply elem_of_nil in H2]. apply list_elem_of_singleton in H2 as ->. lia.
  - case_decide; repeat constructor.
Qed.

Abbreviation bit := (λ x : Z, x = 0 ∨ x = 1).

Lemma pos_inj v v' :
  length v = N → length v' = N → Forall bit v → Forall bit v' → pos_upto v N = pos_upto v' N → v = v'.
Proof.
  intros Hl Hl' Hv Hv' E. apply list_eq_same_length with N; [done..|].
  intros p x y Hp Hx Hy.
  assert (v !! p ≠ Some 0 ↔ v' !! p ≠ Some 0) as Hiff.
  { pose proof (elem_of_pos v N p) as H1. pose proof (elem_of_pos v' N p) as H2.
    rewrite E in H1. split; intros H; [apply H2, H1|apply H1, H2]; done. }
  destruct (Forall_lookup_1 _ _ _ _ Hv Hx), (Forall_lookup_1 _ _ _ _ Hv' Hy); subst; try done.
  - exfalso. rewrite Hx, Hy in Hiff. destruct Hiff as [_ H]. by apply H.
  - exfalso. rewrite Hx, Hy in Hiff. destruct Hiff as [H _]. by apply H.
Qed.

(** A strictly increasing list of indices is the positions of its indicator. *)
Lemma filter_lt_S ys j :
  StronglySorted Z.lt ys →
  filter (λ y, y < j + 1) ys = filter (λ y, y < j) ys ++ if decide (j ∈ ys) then [j] else [].
Proof.
  induction ys as [|y ys IH]; intros H.
  { rewrite decide_False by apply not_elem_of_nil. done. }
  apply StronglySorted_cons in H as [Hy Hs]. specialize (IH Hs). rewrite !filter_cons.
  assert (∀ m, m <= y + 1 → filter (λ z, z < m) ys = []) as Hnil.
  { intros m Hm. clear IH. induction ys as [|z ys IH]; [done|].
    apply Forall_cons_1 in Hy as [Hz Hy]. apply StronglySorted_cons in Hs as [_ Hs].
    rewrite filter_cons, decide_False by lia. by apply IH. }
  destruct (Z.lt_trichotomy y j) as [Hlt|[->|Hgt]].
  - rewrite (decide_True (P := y < j + 1)), (decide_True (P := y < j)) by lia. rewrite IH. simpl.
    f_equal. f_equal. apply decide_ext. rewrite elem_of_cons. split; [by right|].
    intros [->|?]; [lia|done].
  - rewrite (decide_True (P := j < j + 1)), (decide_False (P := j < j)) by lia.
    rewrite !Hnil by lia. by rewrite decide_True by left.
  - rewrite (decide_False (P := y < j + 1)), (decide_False (P := y < j)) by lia.
    rewrite !Hnil by lia. rewrite decide_False; [done|]. rewrite elem_of_cons. intros [->|Hin]; [lia|].
    rewrite Forall_forall in Hy. apply list_elem_of_In in Hin. specialize (Hy j Hin). lia.
Qed.

Lemma pos_indicator v ys :
  StronglySorted Z.lt ys → Forall (λ y, 0 <= y < 256) ys →
  (∀ p, (p < N)%nat → v !! p = Some (if decide (Z.of_nat p ∈ ys) then 1 else 0)) →
  pos_upto v N = ys.
Proof.
  intros Hs Hr Hv.
  assert (∀ n, (n <= N)%nat → pos_upto v n = filter (λ y, y < Z.of_nat n) ys) as H.
  { induction n as [|n IH]; intros Hn.
    - symmetry. clear - Hr. induction Hr as [|y ys Hy _ IH]; [done|].
      rewrite filter_cons, decide_False by (simpl; lia). done.
    - rewrite pos_upto_S, IH by lia. rewrite Nat2Z.inj_succ, <-Z.add_1_r, filter_lt_S by done.
      f_equal. rewrite Hv by lia. destruct (decide (Z.of_nat n ∈ ys)).
      + by rewrite decide_True.
      + rewrite decide_False; [done|]. intros H. by apply H. }
  rewrite H by done. clear - Hr. induction Hr as [|y ys Hy _ IH]; [done|].
  rewrite filter_cons, decide_True by (unfold N; simpl; lia). by f_equal.
Qed.

(** ** Decoder: one row *)
Definition slice (l : list Z) (k n : nat) : list Z := take (n - k) (drop k l).

Lemma slice_S l k j x :
  (k <= j)%nat → l !! j = Some x → slice l k (S j) = slice l k j ++ [x].
Proof.
  intros Hk Hx. unfold slice. rewrite Nat.sub_succ_l by done. apply take_S_r.
  rewrite lookup_drop. by replace (k + (j - k))%nat with j by lia.
Qed.
Lemma slice_split l k j n x :
  (k <= j < n)%nat → l !! j = Some x → slice l k n = slice l k j ++ x :: slice l (S j) n.
Proof.
  intros Hk Hx. unfold slice. rewrite <-(take_drop (j - k) (take (n - k) (drop k l))).
  rewrite take_take, Nat.min_l by lia. f_equal.
  rewrite skipn_firstn_comm, drop_drop. replace (k + (j - k))%nat with j by lia.
  rewrite (drop_S _ _ _ Hx). by replace (n - k - (j - k))%nat with (S (n - S j)) by lia.
Qed.

Lemma slice_parts l k n : (k <= n)%nat → l = take k l ++ slice l k n ++ drop n l.
Proof.
  intros H. unfold slice. rewrite <-(take_drop k l) at 1. f_equal.
  rewrite <-(take_drop (n - k) (drop k l)) at 1. f_equal. rewrite drop_drop. f_equal. lia.
Qed.

(** Extending an increasing slice by an element above its last. *)
Lemma slice_increasing l k j x y :
  (k < j)%nat → l !! (j - 1)%nat = Some y → y < x → StronglySorted Z.lt (slice l k j) →
  ∀ a, a ∈ slice l k j → a < x.
Proof.
  intros Hk Hy Hlt Hs a Ha. replace j with (S (j - 1)) in Hs, Ha by lia.
  rewrite (slice_S l k (j - 1) y) in Hs, Ha by (done || lia).
  apply elem_of_app in Ha as [Ha|Ha%list_elem_of_singleton]; [|lia].
  assert (a < y); [|lia]. eapply (StronglySorted_app_1_elem_of _ _ _ _ _ Hs Ha). by left.
Qed.

Lemma unpack_hint_row_ok hb k n :
  bytes hb → (k <= n)%nat → (n <= OMEGA <= length hb)%nat →
  wp (loop (S OMEGA) (unpack_hint_coeff hb k n) (k, replicate N 0)) (λ '(bad, v),
    length v = N ∧ if (bad : bool) then ¬ StronglySorted Z.lt (slice hb k n)
    else StronglySorted Z.lt (slice hb k n) ∧ Forall bit v ∧ pos_upto v N = slice hb k n).
Proof.
  intros Hb Hkn Hn.
  apply (wp_loop (λ fuel '(j, v), (k <= j <= n)%nat ∧ (n - j < fuel)%nat ∧ length v = N ∧
    StronglySorted Z.lt (slice hb k j) ∧
    ∀ p, (p < N)%nat → v !! p = Some (if decide (Z.of_nat p ∈ slice hb k j) then 1 else 0))).
  { unfold slice. rewrite Nat.sub_diag, take_0. split_and!; [lia..|by rewrite length_replicate|constructor|].
    intros p Hp. rewrite decide_False by apply not_elem_of_nil. by apply lookup_replicate_2. }
  intros fuel [j v] (Hj & Hf & Hl & Hs & Hv). exists (fuel - 1)%nat. split; [lia|].
  unfold unpack_hint_coeff. destruct (Nat.ltb_spec j n) as [Hlt|Hge].
  2: { assert (j = n) as -> by lia. cbn [wp]. split; [done|]. split; [done|]. split.
    - apply Forall_lookup. intros p x Hx. pose proof (lookup_lt_Some _ _ _ Hx).
      rewrite Hv in Hx by lia. injection Hx as <-. case_decide; auto.
    - apply pos_indicator; [done| |done]. apply Forall_take, Forall_drop.
      eapply Forall_impl; [|exact Hb]. intros x Hx. exact Hx. }
  destruct (lookup_lt_is_Some_2 hb j) as [x Hx]; [lia|].
  assert (in_u8 x) as Bx by by eapply Forall_lookup_1. unfold in_u8 in Bx.
  eapply wp_step; [exact Hx|].
  assert (wp (if (k <? j)%nat then y ← hb !! (j - 1)%nat; Some (x <=? y) else Some false)
    (λ bad, if (bad : bool) then ¬ StronglySorted Z.lt (slice hb k n)
            else ∀ a, a ∈ slice hb k j → a < x)) as Hbad.
  { destruct (Nat.ltb_spec k j) as [Hkj|Hkj]; cbn [wp].
    - destruct (lookup_lt_is_Some_2 hb (j - 1)) as [y Hy]; [lia|]. eapply wp_step; [exact Hy|].
      cbn [wp]. destruct (Z.leb_spec x y) as [Hxy|Hxy].
      + intros H. rewrite (slice_split hb k j n x) in H by (done || lia).
        assert (y < x); [|lia]. eapply StronglySorted_app_1_elem_of; [exact H| |by left].
        replace j with (S (j - 1)) by lia. rewrite (slice_S hb k (j - 1) y) by (done || lia).
        apply elem_of_app. right. by left.
      + by apply slice_increasing with y.
    - intros a Ha. unfold slice in Ha. replace (j - k)%nat with 0%nat in Ha by lia.
      by apply not_elem_of_nil in Ha. }
  eapply wp_then; [exact Hbad|]. intros bad Hbd. cbn beta. destruct bad; [done|].
  eapply wp_step; [apply store_ok; unfold N in Hl; lia|]. cbn [wp]. rewrite length_insert.
  rewrite (slice_S hb k j x) by (done || lia). split_and!; [lia..|done| |].
  - apply StronglySorted_app_2; [|done|repeat constructor].
    intros a b Ha ->%list_elem_of_singleton. by apply Hbd.
  - intros p Hp. destruct (decide (Z.of_nat p = x)) as [<-|Hne].
    + rewrite Nat2Z.id, list_lookup_insert_eq by lia. rewrite decide_True; [done|].
      apply elem_of_app. right. by left.
    + rewrite list_lookup_insert_ne by lia. rewrite Hv by done. f_equal. apply decide_ext.
      rewrite elem_of_app, list_elem_of_singleton.
      split; [by left|]. by intros [?|?].
Qed.

(** ** Decoder: the whole string *)

(** What an encoding holds where the decoder looks. *)
Lemma enc_positions h i : take (count h i) (hint_bytes h) = positions (take i h).
Proof.
  unfold hint_bytes, count. rewrite take_app_le.
  - rewrite <-(take_drop i h) at 2. rewrite positions_app. apply take_app_length.
  - apply count_le.
Qed.
Lemma enc_row h i v :
  h !! i = Some v → slice (hint_bytes h) (count h i) (count h (S i)) = pos_upto v N.
Proof.
  intros Hv. unfold slice. rewrite <-skipn_firstn_comm, enc_positions, (positions_take_S _ _ _ Hv).
  apply drop_app_length.
Qed.
Lemma drop_enc h : hints_ok h → drop OMEGA (hint_bytes h) = counts h K.
Proof.
  intros [_ Ho]. unfold hint_bytes. rewrite app_assoc. apply drop_app_length'.
  rewrite length_app, length_replicate. lia.
Qed.
Lemma enc_count h i :
  hints_ok h → (i < K)%nat → hint_bytes h !! (OMEGA + i)%nat = Some (Z.of_nat (count h (S i))).
Proof.
  intros Hh Hi. rewrite <-lookup_drop, drop_enc by done. unfold counts.
  rewrite list_lookup_fmap, lookup_seq_lt by done. done.
Qed.
Lemma enc_tail h j :
  hints_ok h → (length (positions h) <= j < OMEGA)%nat → hint_bytes h !! j = Some 0.
Proof.
  intros Hh Hj. unfold hint_bytes. rewrite lookup_app_r by lia.
  rewrite lookup_app_l by (rewrite length_replicate; lia). apply lookup_replicate_2. lia.
Qed.
Lemma count_take h h' i j : (j <= i)%nat → take i h = take i h' → count h j = count h' j.
Proof.
  intros Hj E. unfold count. replace j with (j `min` i)%nat by lia. by rewrite <-!take_take, E.
Qed.
Lemma counts_take h h' i : take i h = take i h' → counts h i = counts h' i.
Proof.
  intros E. unfold counts. apply list_fmap_ext. intros r x [-> Hx]%lookup_seq. f_equal.
  eapply count_take; [|exact E]. lia.
Qed.

Lemma fill_zero v : length v = N → fill (λ _ _, Some 0) v = Some (replicate N 0).
Proof.
  intros Hv. unfold fill. rewrite <-(zero_loop_ok v N Hv). reflexivity.
Qed.

Lemma unpack_tail_ok hb k :
  (k <= OMEGA <= length hb)%nat →
  wp (loop (S OMEGA) (unpack_hint_tail hb) k) (λ ret,
    ret = 0 ∧ slice hb k OMEGA = replicate (OMEGA - k) 0 ∨
    ret = 1 ∧ ∃ j x, (k <= j < OMEGA)%nat ∧ hb !! j = Some x ∧ x ≠ 0).
Proof.
  intros Hk. apply (wp_loop (λ fuel j, (k <= j <= OMEGA)%nat ∧ (OMEGA - j < fuel)%nat ∧
    slice hb k j = replicate (j - k) 0)).
  - split_and!; [lia..|]. unfold slice. by rewrite Nat.sub_diag, take_0.
  - intros fuel j (Hj & Hf & Hs). exists (fuel - 1)%nat. split; [lia|]. unfold unpack_hint_tail.
    destruct (Nat.ltb_spec j OMEGA) as [Hlt|Hge].
    + destruct (lookup_lt_is_Some_2 hb j) as [x Hx]; [lia|]. eapply wp_step; [exact Hx|].
      destruct (Z.eqb_spec x 0) as [->|Hne]; cbn [wp].
      * split_and!; [lia..|]. rewrite (slice_S hb k j 0), Hs, <-replicate_S_end by (done || lia).
        f_equal. lia.
      * right. split; [done|]. exists j, x. split; [lia|done].
    + cbn [wp]. left. assert (j = OMEGA) as -> by lia. done.
Qed.

Lemma is_vec_insert n h i v : is_vec n h → length v = N → is_vec n (<[i := v]> h).
Proof. intros [Hl Hv] Hn. split; [by rewrite length_insert|]. by apply Forall_insert. Qed.

(** The first [i] rows of [h] have been decoded, up to byte [k]. *)
Record decoded (hb : list Z) (i k : nat) (h : list (list Z)) : Prop := {
  dec_vec : is_vec K h;
  dec_count : k = count h i;
  dec_bound : (k <= OMEGA)%nat;
  dec_bits : Forall (Forall bit) (take i h);
  dec_positions : take k hb = positions (take i h);
  dec_counts : take i (drop OMEGA hb) = counts h i;
  dec_unique h' : hints_ok h' → hb = hint_bytes h' → take i h' = take i h;
}.

Lemma decoded_start hb h : is_vec K h → decoded hb 0 0 h.
Proof. intros Hh. by split; try done; unfold OMEGA; lia. Qed.

(** What the next row must be if the string is an encoding. *)
Lemma decoded_row hb i k h c h' :
  decoded hb i k h → (i < K)%nat → hb !! (OMEGA + i)%nat = Some c →
  hints_ok h' → hb = hint_bytes h' →
  ∃ v', h' !! i = Some v' ∧ (k <= Z.to_nat c <= OMEGA)%nat ∧ slice hb k (Z.to_nat c) = pos_upto v' N.
Proof.
  intros Hd Hi Hc Hh' E. pose proof (dec_unique _ _ _ _ Hd h' Hh' E) as Et.
  destruct (lookup_lt_is_Some_2 h' i) as [v' Hv']; [destruct Hh' as [[-> _] _]; lia|].
  exists v'. assert (count h' i = k) as Ek.
  { rewrite (dec_count _ _ _ _ Hd). eapply count_take; [|exact Et]. lia. }
  rewrite E, enc_count in Hc by done. injection Hc as <-. rewrite Nat2Z.id, E, <-Ek.
  split; [done|]. split; [|by apply enc_row].
  pose proof (count_le h' (S i)). pose proof (count_S _ _ _ Hv'). destruct Hh'. lia.
Qed.

Lemma decoded_next hb i k h c v :
  decoded hb i k h → (i < K)%nat → length hb = (OMEGA + K)%nat → hb !! (OMEGA + i)%nat = Some c →
  0 <= c → (k <= Z.to_nat c <= OMEGA)%nat → length v = N → Forall bit v →
  pos_upto v N = slice hb k (Z.to_nat c) → decoded hb (S i) (Z.to_nat c) (<[i := v]> h).
Proof.
  intros Hd Hi Hl Hc Hc0 Hr Lv Bv Hp. pose proof (dec_vec _ _ _ _ Hd) as [Lh _].
  assert (<[i:=v]> h !! i = Some v) as Hv by (apply list_lookup_insert_eq; lia).
  assert (take i (<[i:=v]> h) = take i h) as Et by (by apply take_insert_ge).
  pose proof (count_S _ _ _ Hv) as Hcs.
  rewrite (count_take _ _ i i (le_n _) Et), <-(dec_count _ _ _ _ Hd), Hp in Hcs.
  assert (Z.to_nat c = count (<[i:=v]> h) (S i)) as Ec.
  { rewrite Hcs. unfold slice. rewrite length_take, length_drop. lia. }
  split; [apply is_vec_insert; [apply Hd|done]|done|lia|..].
  - rewrite (take_S_r _ _ _ Hv), Et. apply Forall_app. split; [apply Hd|]. by repeat constructor.
  - rewrite (positions_take_S _ _ _ Hv), Et, <-(dec_positions _ _ _ _ Hd), Hp. unfold slice.
    rewrite <-(take_drop k (take (Z.to_nat c) hb)), take_take, Nat.min_l by lia.
    by rewrite skipn_firstn_comm.
  - rewrite counts_S, <-Ec, (counts_take _ _ _ Et), <-(dec_counts _ _ _ _ Hd). apply take_S_r.
    rewrite lookup_drop, Hc. f_equal. lia.
  - intros h' Hh' E. destruct (decoded_row _ _ _ _ _ _ Hd Hi Hc Hh' E) as (v' & Hv' & _ & Esl).
    rewrite (take_S_r _ _ _ Hv'), (take_S_r _ _ _ Hv), Et, (dec_unique _ _ _ _ Hd h' Hh' E).
    do 2 f_equal. destruct Hh' as [[_ Hf] _].
    destruct (Forall_lookup_1 _ _ _ _ Hf Hv') as [Lv' Bv']. apply pos_inj; [done..|].
    by rewrite Hp, Esl.
Qed.

Lemma decoded_all hb k h :
  decoded hb K k h → length hb = (OMEGA + K)%nat → slice hb k OMEGA = replicate (OMEGA - k) 0 →
  hints_ok h ∧ hb = hint_bytes h.
Proof.
  intros [[Lh Vh] Hk Hb Hbit Hpos Hcnt Hu] Hl Hz. rewrite (take_ge h) in Hbit, Hpos by lia.
  rewrite (take_ge (drop _ _)) in Hcnt by (rewrite length_drop; lia).
  assert (k = length (positions h)) as Ek by (rewrite Hk; unfold count; by rewrite take_ge by lia).
  split; [split; [split; [done|by apply Forall_and]|lia]|].
  unfold hint_bytes. rewrite <-Hpos, <-Hcnt. rewrite length_take, Nat.min_l, <-Hz by lia.
  by apply slice_parts.
Qed.

(** The decoder on any [OMEGA + K] bytes: it accepts exactly the encodings. *)
Lemma unpack_hints_ok h0 hb :
  is_vec K h0 → length hb = (OMEGA + K)%nat → bytes hb →
  wp (unpack_hints h0 hb) (λ '(ret, h), is_vec K h ∧
    (ret = 0 ∧ (hints_ok h ∧ hb = hint_bytes h) ∧
       (∀ h', hints_ok h' → hb = hint_bytes h' → h' = h) ∨
     ret = 1 ∧ ∀ h', hints_ok h' → hb ≠ hint_bytes h')).
Proof.
  intros Hh0 Hlb Hb.
  apply (wp_loop (λ fuel '(i, k, h), (i <= K)%nat ∧ fuel = (S K - i)%nat ∧ decoded hb i k h)).
  { split_and!; [lia..|by apply decoded_start]. }
  intros fuel [[i k] h] (Hi & -> & Hd). exists (K - i)%nat. split; [lia|].
  pose proof (dec_vec _ _ _ _ Hd) as Hvec. pose proof (dec_bound _ _ _ _ Hd) as Ho.
  destruct (id Hvec) as [Lh Vh]. unfold unpack_hint_row.
  destruct (Nat.ltb_spec i K) as [HiK|HiK].
  - destruct (lookup_lt_is_Some_2 h i) as [v Hv]; [lia|].
    destruct (lookup_lt_is_Some_2 hb (OMEGA + i)) as [c Hc]; [lia|].
    assert (in_u8 c) as Bc by by eapply Forall_lookup_1. unfold in_u8 in Bc.
    eapply wp_step; [exact Hv|].
    eapply wp_step; [apply fill_zero; by eapply (Forall_lookup_1 _ _ _ _ Vh)|].
    eapply wp_step; [exact Hc|]. cbv zeta. destruct (_ || _) eqn:Ebad.
    { cbn [wp]. split; [by apply is_vec_insert; [|rewrite length_replicate]|]. right. split; [done|].
      intros h' Hh' E. destruct (decoded_row _ _ _ _ _ _ Hd HiK Hc Hh' E) as (? & _ & ? & _). lia. }
    eapply wp_then; [apply unpack_hint_row_ok; [done|lia|lia]|]. intros [bad v1] [Lv1 Hbad].
    cbn beta. destruct bad; cbn [wp].
    { split; [by apply is_vec_insert|]. right. split; [done|]. intros h' Hh' E.
      destruct (decoded_row _ _ _ _ _ _ Hd HiK Hc Hh' E) as (v' & _ & _ & Esl).
      apply Hbad. rewrite Esl. apply pos_sorted. }
    destruct Hbad as (Hs & Hb1 & Hp1). split; [lia|]. split; [lia|].
    eapply decoded_next; try done; lia.
  - assert (i = K) as -> by lia.
    eapply wp_then; [apply unpack_tail_ok; lia|]. intros ret Hret. cbn [wp]. split; [done|].
    destruct Hret as [[-> Hz]|[-> (j & x & Hj & Hx & Hne)]].
    + left. split; [done|]. split; [by eapply decoded_all|]. intros h' Hh' E.
      pose proof (dec_unique _ _ _ _ Hd h' Hh' E) as Et.
      by rewrite !take_ge in Et by (lia || destruct Hh' as [[-> _] _]; lia).
    + right. split; [done|]. intros h' Hh' E. pose proof (dec_unique _ _ _ _ Hd h' Hh' E) as Et.
      pose proof (dec_count _ _ _ _ Hd) as Hk. unfold count in Hk.
      rewrite !take_ge in Et by (lia || destruct Hh' as [[-> _] _]; lia). subst h'.
      rewrite take_ge in Hk by lia. rewrite E, enc_tail in Hx by (done || lia). congruence.
Qed.
