(* ===== verification/MlSig.v ===== *)
(** ML-DSA-65: signatures as byte strings.

    The encodings of FIPS 204 for public keys and signatures (pkEncode, sigEncode),
    which [pack_pk] and [pack_sig] write; decoding inverts encoding, and whatever
    [unpack_sig] accepts is the encoding of what it returns, so that a signature
    has one encoding. *)
From S2P Require Import Prelude MlArith MlNtt MlNttSpec MlPoly MlPack MlKeys MlHints.

(** ** The encodings of FIPS 204

    [digits w] of a list writes its elements with [w] bits each one after the other, the
    first one lowest; [bit_pack w] cuts the bits of a polynomial into bytes
    (SimpleBitPack). *)
Fixpoint digits (w : nat) (l : list Z) : Z :=
  match l with [] => 0 | x :: l => x + 2 ^ Z.of_nat w * digits w l end.
Definition bit_pack (w : nat) (p : list Z) : list Z := le_bytes (32 * w) (digits w p).

(** pkEncode and sigEncode: t1 with 10 bits a coefficient, the response as distances from
    [GAMMA1] with 20 bits, and the hints as positions and running counts. *)
Definition pkEncode (rho : list Z) (t1 : list (list Z)) : list Z := rho ++ (t1 ≫= bit_pack 10).
Definition zEncode (p : list Z) : list Z := bit_pack 20 ((λ x, GAMMA1 - x) <$> p).
Definition sigEncode (ct : list Z) (z h : list (list Z)) : list Z := ct ++ (z ≫= zEncode) ++ hint_bytes h.

Lemma digits_app w a b : digits w (a ++ b) = digits w a + 2 ^ (Z.of_nat w * Z.of_nat (length a)) * digits w b.
Proof.
  induction a as [|x a IH]; cbn [app digits length]; [rewrite Z.mul_0_r; lia|]. rewrite IH.
  replace (Z.of_nat w * Z.of_nat (S (length a))) with (Z.of_nat w + Z.of_nat w * Z.of_nat (length a)) by lia.
  rewrite Z.pow_add_r by lia. ring.
Qed.

(** Bytes that hold the digits group by group hold them all. *)
Lemma digits_groups w n g k (a b : list Z) :
  (w * g = 8 * k)%nat → length a = (n * g)%nat → length b = (n * k)%nat →
  (∀ i, (i < n)%nat → le_val (slot k b i) = digits w (slot g a i)) → le_val b = digits w a.
Proof.
  intros Hw. revert a b. induction n as [|n IH]; intros a b Ha Hb Hg; [by destruct a, b|].
  pose proof (Hg 0%nat ltac:(lia)) as H0. unfold slot in H0. rewrite !Nat.mul_0_l, !drop_0 in H0.
  rewrite <-(take_drop g a), <-(take_drop k b), le_val_app, digits_app, H0, !length_take, !Nat.min_l by lia.
  replace (8 * Z.of_nat k) with (Z.of_nat w * Z.of_nat g) by lia.
  rewrite (IH (drop g a) (drop k b)); [done|rewrite length_drop; lia|rewrite length_drop; lia|].
  intros i Hi. specialize (Hg (S i) ltac:(lia)). unfold slot in *. rewrite !drop_drop.
  replace (g + i * g)%nat with (S i * g)%nat by lia. by replace (k + i * k)%nat with (S i * k)%nat by lia.
Qed.

(** A loop over groups that writes the digits of each group packs the polynomial. *)
Lemma group_bit_pack P φ w n g k f r a :
  (w * g = 8 * k)%nat → (32 * w = n * k)%nat → length a = (n * g)%nat → length r = (n * k)%nat → Forall P a →
  (∀ cs, length cs = g → Forall P cs → ∃ bs, f cs = Some bs ∧ length bs = k ∧ bytes bs ∧ le_val bs = digits w (φ <$> cs)) →
  group_loop n g k f r a = Some (bit_pack w (φ <$> a)).
Proof.
  intros Hw Hn Ha Hr HP Hf. apply wp_eq.
  assert (Hs : ∀ i, (i < n)%nat → ∃ bs, f (slot g a i) = Some bs ∧ length bs = k ∧ bytes bs ∧ le_val bs = digits w (φ <$> slot g a i)).
  { intros i Hi. apply Hf; [apply length_slot; nia|by apply Forall_slot]. }
  eapply wp_mono; [apply (group_loop_ok n g k f r a (λ i, default [] (f (slot g a i))) Ha Hr)|].
  { intros i Hi. destruct (Hs i Hi) as (bs & -> & Lb & _). done. }
  intros r' [Hl Hd]. unfold bit_pack. rewrite Hn, <-Hl, <-(digits_groups w n g k (φ <$> a) r').
  - rewrite le_bytes_le_val; [done|]. eapply Forall_slots; [exact Hl|]. intros i Hi. rewrite Hd by done.
    by destruct (Hs i Hi) as (bs & -> & _ & Bb & _).
  - done.
  - by rewrite length_fmap.
  - done.
  - intros i Hi. rewrite Hd by done. destruct (Hs i Hi) as (bs & -> & _ & _ & Ev). change (default [] (Some bs)) with bs. rewrite Ev.
    unfold slot. by rewrite <-fmap_drop, <-fmap_take.
Qed.

Lemma polyt1_pack_encode r v :
  length r = POLYT1_PACKEDBYTES → length v = N → Forall (λ x, 0 <= x < 2 ^ 10) v → polyt1_pack r v = Some (bit_pack 10 v).
Proof.
  intros Hr Hv HP. rewrite <-(list_fmap_id v) at 2.
  apply (group_bit_pack (λ x, 0 <= x < 2 ^ 10) id 10 64 4 5); [done..|].
  intros cs Hl Hc. destruct cs as [|c0 [|c1 [|c2 [|c3 [|]]]]]; try done. decompose_Forall_hyps.
  unfold t1_pack_group. rewrite !shl32_ok by lia. cbn [mbind option_bind]. shr. rewrite !lor_pow2_r by div_lia.
  eexists. split; [done|]. split; [done|]. split; [by repeat constructor; apply u8_range|].
  cbn [le_val digits fmap list_fmap id]. unfold u8, id. change (Z.of_nat 10) with 10. div_lia.
Qed.

Lemma polyz_pack_encode r v :
  length r = POLYZ_PACKEDBYTES → length v = N → Forall (λ x, - GAMMA1 < x <= GAMMA1) v → polyz_pack r v = Some (zEncode v).
Proof.
  intros Hr Hv HP. apply (group_bit_pack (λ x, - GAMMA1 < x <= GAMMA1) (λ x, GAMMA1 - x) 20 128 2 5); [done..|].
  intros cs Hl Hc. destruct cs as [|c0 [|c1 [|]]]; try done. change GAMMA1 with (2 ^ 19) in *. decompose_Forall_hyps.
  unfold z_pack_group. change GAMMA1 with (2 ^ 19). rewrite !i32_ok by int_range. cbn [mbind option_bind]. cbv zeta.
  rewrite !(u32_small (2 ^ 19 - _)) by (unfold in_u32; lia). shr.
  rewrite (u8_small ((2 ^ 19 - c0) / 2 ^ 16)) by (unfold in_u8; div_lia). rewrite lor_shl by div_lia.
  eexists. split; [done|]. split; [done|]. split; [by repeat constructor; apply u8_range|].
  cbn [le_val digits fmap list_fmap]. unfold u8. change (Z.of_nat 20) with 20. div_lia.
Qed.

Lemma length_bit_pack w p : length (bit_pack w p) = (32 * w)%nat.
Proof. apply length_le_bytes. Qed.

Lemma length_encoded {A} (f : A → list Z) k (l : list A) : (∀ x, length (f x) = k) → length (l ≫= f) = (length l * k)%nat.
Proof. intros Hf. induction l as [|x l IH]; [done|]. cbn [mbind list_bind length]. rewrite length_app, Hf, IH. lia. Qed.

(** A buffer that holds packed polynomials slot by slot. *)
Lemma encoded_slots {A} (f : A → list Z) n k (l : list A) m :
  (∀ x, length (f x) = k) → length l = n → length m = (n * k)%nat →
  (∀ i x, l !! i = Some x → slot k m i = f x) → m = l ≫= f.
Proof.
  intros Hf Hl Hm Hs. apply (slots_inj n k); [done|rewrite (length_encoded f k); [by rewrite Hl|done]|].
  intros i Hi. destruct (lookup_lt_is_Some_2 l i) as [x Hx]; [lia|]. rewrite (Hs i x Hx).
  rewrite <-(app_nil_r (l ≫= f)). symmetry. by apply slot_bind.
Qed.

Lemma pack_vec_encode (P : Z → Prop) (f : list Z → list Z) n k pack off pre mid post vec :
  (∀ x, length (f x) = k) →
  (∀ r v, length r = k → length v = N → Forall P v → pack r v = Some (f v)) →
  off = length pre → length mid = (n * k)%nat → vec_of n P vec →
  pack_vec n k pack off (pre ++ mid ++ post) vec = Some (pre ++ (vec ≫= f) ++ post).
Proof.
  intros Hf Hp Ho Hm [Lv Fv]. apply pack_vec_exact; [done|done|rewrite (length_encoded f k); [by rewrite Lv|done]|done|].
  intros i v r Hi Hr. destruct (Forall_lookup_1 _ _ _ _ Fv Hi) as [Ln HP]. rewrite Hp by done.
  rewrite <-(app_nil_r (vec ≫= f)), (slot_bind f k vec [] i v) by done. done.
Qed.

Lemma sig_parts sig :
  length sig = CRYPTO_BYTES →
  ∃ c m hb : list Z, sig = c ++ m ++ hb ∧ length c = CTILDEBYTES ∧
    length m = (L * POLYZ_PACKEDBYTES)%nat ∧ length hb = POLYVECH_PACKEDBYTES.
Proof.
  unfold CRYPTO_BYTES. intros Hl.
  destruct (split_at CTILDEBYTES sig) as (c & r & -> & Hc); [lia|]. rewrite length_app in Hl.
  destruct (split_at (L * POLYZ_PACKEDBYTES) r) as (m & hb & -> & Hm); [lia|].
  rewrite length_app in Hl. exists c, m, hb. split_and!; lia || done.
Qed.

Lemma sig_offset c (m : list Z) :
  length c = CTILDEBYTES → length m = (L * POLYZ_PACKEDBYTES)%nat → sig_h = length (c ++ m).
Proof. intros Hc Hm. by rewrite length_app, Hc, Hm. Qed.

(** Encoding, where [T] describes the packed vector. *)
Lemma pack_sig_wp sig0 c z h (T : list Z → Prop) :
  length sig0 = CRYPTO_BYTES → length c = CTILDEBYTES → is_vec K h →
  (length (positions h) <= OMEGA)%nat →
  (∀ pre m0 post, sig_z = length pre → length m0 = (L * POLYZ_PACKEDBYTES)%nat →
     wp (pack_vec L POLYZ_PACKEDBYTES polyz_pack sig_z (pre ++ m0 ++ post) z) (λ b,
       ∃ m, b = pre ++ m ++ post ∧ length m = length m0 ∧ T m)) →
  wp (pack_sig sig0 c z h) (λ sig, ∃ m, sig = c ++ m ++ hint_bytes h ∧
    length m = (L * POLYZ_PACKEDBYTES)%nat ∧ T m).
Proof.
  intros Hs Hc Hh Ho Hz. destruct (sig_parts sig0 Hs) as (c0 & m0 & hb0 & -> & Lc & Lm & Lh).
  unfold pack_sig. eapply wp_step; [by apply (copy_in CTILDEBYTES 0 [] c0)|]. cbn [app].
  eapply wp_then; [by apply Hz|]. intros b (m & -> & Hl & HT). cbn beta.
  rewrite <-(app_nil_r hb0), (app_assoc c m).
  assert (sig_h = length (c ++ m)) as Hoff by (apply sig_offset; [done|lia]).
  eapply wp_step; [by apply (read_app (c ++ m) hb0 [])|].
  eapply wp_step; [by apply pack_hints_ok|].
  rewrite (write_app (c ++ m) hb0 []); [|done|rewrite length_hint_bytes by done; lia].
  cbn [wp]. exists m. rewrite app_nil_r, <-app_assoc. split_and!; [done|lia|done].
Qed.

(** Decoding, from the parts. *)
Lemma unpack_sig_wp c0 z0 h0 c m hb (R : Z * list Z * list (list Z) * list (list Z) → Prop) z :
  length c0 = CTILDEBYTES → length c = CTILDEBYTES → length m = (L * POLYZ_PACKEDBYTES)%nat →
  length hb = POLYVECH_PACKEDBYTES →
  unpack_vec L POLYZ_PACKEDBYTES polyz_unpack sig_z z0 (c ++ m ++ hb) = Some z →
  wp (unpack_hints h0 hb) (λ '(ret, h), R (ret, c, z, h)) →
  wp (unpack_sig c0 z0 h0 (c ++ m ++ hb)) R.
Proof.
  intros Hc0 Hc Hm Hh Hz HR. unfold unpack_sig.
  eapply wp_step; [by apply (copy_out CTILDEBYTES [] c)|]. eapply wp_step; [exact Hz|].
  eapply wp_step.
  { replace (c ++ m ++ hb) with ((c ++ m) ++ hb ++ []) by (by rewrite app_nil_r, app_assoc).
    apply read_app; [by apply sig_offset|done]. }
  eapply wp_then; [exact HR|]. intros [ret h] H. exact H.
Qed.

Lemma sig_roundtrip_ok sig0 c z h :
  length sig0 = CRYPTO_BYTES → length c = CTILDEBYTES → vec_of L (λ x, - GAMMA1 < x <= GAMMA1) z →
  hints_ok h →
  wp (pack_sig sig0 c z h) (λ sig, length sig = CRYPTO_BYTES ∧ (bytes c → bytes sig) ∧
    ∀ c0 z0 h0, length c0 = CTILDEBYTES → is_vec L z0 → is_vec K h0 →
      unpack_sig c0 z0 h0 sig = Some (0, c, z, h)).
Proof.
  intros Hs Hc Hz Hh. pose proof Hh as [[Lh Vh] Ho].
  assert (is_vec K h) as Hv.
  { split; [done|]. eapply Forall_impl; [|exact Vh]. by intros v [? _]. }
  eapply wp_mono.
  - apply (pack_sig_wp sig0 c z h (vec_bytes polyz_unpack POLYZ_PACKEDBYTES z)); [done..|].
    intros pre m0 post Hp Hm. eapply pack_vec_at; [apply packs_z|done..].
  - intros sig (m & -> & Hm & HT). pose proof (length_hint_bytes h Ho) as Lb. split_and!.
    { rewrite !length_app, Hc, Hm, Lb. unfold CRYPTO_BYTES. lia. }
    { intros Bc. rewrite !Forall_app. split_and!; [done|apply HT|by apply hint_bytes_bytes]. }
    intros c0 z0 h0 Hc0 Hz0 Hh0. apply wp_eq. eapply unpack_sig_wp; [done..| |].
    + apply unpack_vec_ok; [done|apply Hz|done|done].
    + eapply wp_mono; [by apply unpack_hints_ok; [| |apply hint_bytes_bytes]|].
      intros [ret h'] [_ [(-> & _ & Hu)|(-> & Hu)]].
      * by rewrite <-(Hu h Hh eq_refl).
      * by destruct (Hu h Hh).
Qed.

(** Encoding is sigEncode. *)
Lemma pack_sig_encode sig0 c z h :
  length sig0 = CRYPTO_BYTES → length c = CTILDEBYTES → vec_of L (λ x, - GAMMA1 < x <= GAMMA1) z → hints_ok h →
  pack_sig sig0 c z h = Some (sigEncode c z h).
Proof.
  intros Hs Hc Hz [[Lh Vh] Ho].
  assert (is_vec K h) as Hv.
  { split; [done|]. eapply Forall_impl; [|exact Vh]. by intros v [? _]. }
  apply wp_eq. eapply wp_mono.
  - apply (pack_sig_wp sig0 c z h (λ m, m = z ≫= zEncode)); [done..|].
    intros pre m0 post Hp Hm0. rewrite (pack_vec_encode (λ x, - GAMMA1 < x <= GAMMA1) zEncode L);
      [|intros x; apply length_bit_pack|by apply polyz_pack_encode|done|done|done].
    cbn [wp]. eexists. split_and!; [done| |done].
    rewrite (length_encoded zEncode POLYZ_PACKEDBYTES) by (intros x; apply length_bit_pack). destruct Hz as [-> _]. done.
  - intros sig (m & -> & _ & ->). done.
Qed.

(** ** Canonical encodings *)

(** Unpacking any bytes gives polynomials in range that pack to the same bytes. *)
Lemma unpack_z_any p b :
  length p = N → length b = POLYZ_PACKEDBYTES → bytes b →
  wp (polyz_unpack p b) (λ v, length v = N ∧ Forall (λ x, - GAMMA1 < x <= GAMMA1) v ∧
    ∀ r, length r = POLYZ_PACKEDBYTES → polyz_pack r v = Some b).
Proof. intros Hp Hb HB. exact (poly_roundtrip _ _ 128 5 2 _ _ p b z_inverse' Hb Hp HB). Qed.

Lemma unpack_vec_gen (P : Z → Prop) k (pack unpack : list Z → list Z → option (list Z)) n pre m post z0 off :
  (∀ p b, length p = N → length b = k → bytes b →
     wp (unpack p b) (λ v, length v = N ∧ Forall P v ∧ ∀ r, length r = k → pack r v = Some b)) →
  off = length pre → length m = (n * k)%nat → bytes m → is_vec n z0 →
  wp (unpack_vec n k unpack off z0 (pre ++ m ++ post)) (λ z,
    vec_of n P z ∧ ∀ i v r, z !! i = Some v → length r = k → pack r v = Some (slot k m i)).
Proof.
  intros Hany -> Hm Hb [Lz Vz].
  apply (wp_for (λ i z, length z = n ∧ (∀ j, (i <= j)%nat → z !! j = z0 !! j) ∧
    ∀ j v, (j < i)%nat → z !! j = Some v → (length v = N ∧ Forall P v) ∧
      ∀ r, length r = k → pack r v = Some (slot k m j))).
  - split_and!; [done..|lia].
  - intros i z Hi (Hl & Hr & Hd). destruct (lookup_lt_is_Some_2 z0 i) as [v0 Hv0]; [lia|].
    eapply wp_step; [rewrite Hr by lia; exact Hv0|].
    eapply wp_step; [apply read_Some; rewrite !length_app; nia|].
    rewrite drop_app_add, drop_app_le, take_app_le by (rewrite ?length_drop; nia).
    change (take k (drop (i * k) m)) with (slot k m i).
    eapply wp_then; [apply Hany|].
    + by eapply (Forall_lookup_1 _ _ _ _ Vz).
    + apply length_slot. nia.
    + by apply Forall_slot.
    + intros v (Lv & Rv & Pv). cbn [wp]. rewrite length_insert. split_and!; [done| |].
      * intros j Hj. rewrite list_lookup_insert_ne by lia. apply Hr. lia.
      * intros j w Hj Hw. destruct (decide (j = i)) as [->|].
        -- rewrite list_lookup_insert_eq in Hw by lia. injection Hw as <-. done.
        -- rewrite list_lookup_insert_ne in Hw by done. apply Hd; [lia|done].
  - intros z (Hl & _ & Hd). split; [split; [done|]|].
    + apply Forall_lookup. intros i v Hv. eapply Hd; [|exact Hv]. apply lookup_lt_Some in Hv. lia.
    + intros i v r Hv. eapply Hd; [|exact Hv]. apply lookup_lt_Some in Hv. lia.
Qed.

Lemma unpack_vec_any n pre m post z0 off :
  off = length pre → length m = (n * POLYZ_PACKEDBYTES)%nat → bytes m → is_vec n z0 →
  wp (unpack_vec n POLYZ_PACKEDBYTES polyz_unpack off z0 (pre ++ m ++ post)) (λ z,
    vec_of n (λ x, - GAMMA1 < x <= GAMMA1) z ∧
    ∀ i v r, z !! i = Some v → length r = POLYZ_PACKEDBYTES →
      polyz_pack r v = Some (slot POLYZ_PACKEDBYTES m i)).
Proof. apply unpack_vec_gen. apply unpack_z_any. Qed.

(** On any byte string of the right length, [unpack_sig] returns 0 or 1, and 0
    only for the encoding of what it returns. *)
Lemma unpack_sig_any c0 z0 h0 sig :
  length sig = CRYPTO_BYTES → bytes sig → length c0 = CTILDEBYTES → is_vec L z0 → is_vec K h0 →
  wp (unpack_sig c0 z0 h0 sig) (λ '(ret, c, z, h),
    length c = CTILDEBYTES ∧ c = take CTILDEBYTES sig ∧ vec_of L (λ x, - GAMMA1 < x <= GAMMA1) z ∧ is_vec K h ∧
    (ret = 0 ∧ hints_ok h ∧ (∀ sig0, length sig0 = CRYPTO_BYTES → pack_sig sig0 c z h = Some sig) ∨
     ret = 1)).
Proof.
  intros Hs Hb Hc0 Hz0 Hh0. destruct (sig_parts sig Hs) as (c & m & hb & -> & Lc & Lm & Lh).
  apply Forall_app in Hb as [Bc Hb]. apply Forall_app in Hb as [Bm Bh].
  destruct (proj1 (wp_exists _ _) (unpack_vec_any L c m hb z0 sig_z (eq_sym Lc) Lm Bm Hz0))
    as (z & Ez & Vz & Pz).
  eapply unpack_sig_wp; [done..|exact Ez|]. eapply wp_mono; [by apply unpack_hints_ok|].
  intros [ret h] [Vh Hret]. split_and!; [done|by rewrite take_app_length'|done|done|].
  destruct Hret as [(-> & [Hh ->] & _)|[-> _]]; [left|by right]. split_and!; [done..|].
  intros sig0 Hs0. apply wp_eq. eapply wp_mono.
  - apply (pack_sig_wp sig0 c z h (λ m', m' = m)); [done..|apply Hh|].
    intros pre m0 post Hp Hm0. rewrite (pack_vec_exact L _ _ _ pre m0 m) by (done || apply Vz).
    cbn [wp]. exists m. split_and!; [done|lia|done].
  - intros sig (m' & -> & _ & ->). done.
Qed.

(** Whatever is accepted decodes to the same parts from any buffers. *)
Lemma unpack_sig_stable c0 z0 h0 sig c z h :
  length sig = CRYPTO_BYTES → bytes sig → length c0 = CTILDEBYTES → is_vec L z0 → is_vec K h0 →
  unpack_sig c0 z0 h0 sig = Some (0, c, z, h) →
  ∀ c1 z1 h1, length c1 = CTILDEBYTES → is_vec L z1 → is_vec K h1 → unpack_sig c1 z1 h1 sig = Some (0, c, z, h).
Proof.
  intros Hs Hb Hc0 Hz0 Hh0 E. pose proof (unpack_sig_any c0 z0 h0 sig Hs Hb Hc0 Hz0 Hh0) as Ha. rewrite E in Ha.
  destruct Ha as (Lc & _ & Vz & _ & [(_ & Hh & Hp)|Hr]); [|done].
  pose proof (sig_roundtrip_ok sig c z h Hs Lc Vz Hh) as Hw. rewrite (Hp sig Hs) in Hw. apply Hw.
Qed.

(** ** Public keys *)
Lemma unpack_t1_any p b :
  length p = N → length b = POLYT1_PACKEDBYTES → bytes b →
  wp (polyt1_unpack p b) (λ v, length v = N ∧ Forall (λ x, 0 <= x < 2 ^ 10) v ∧
    ∀ r, length r = POLYT1_PACKEDBYTES → polyt1_pack r v = Some b).
Proof. intros Hp Hb HB. exact (poly_roundtrip _ _ 64 5 4 _ _ p b t1_inverse' Hb Hp HB). Qed.

(** Every string of the right length is a public key. *)
Lemma unpack_pk_any pk :
  length pk = CRYPTO_PUBLICKEYBYTES → bytes pk →
  ∃ t1, vec_of K (λ x, 0 <= x < 2 ^ 10) t1 ∧ pk = pkEncode (take SEEDBYTES pk) t1 ∧
    ∀ rho0 t10, pk_shape rho0 t10 → unpack_pk rho0 t10 pk = Some (take SEEDBYTES pk, t1).
Proof.
  intros Hl Hb. destruct (split_at SEEDBYTES pk) as (rho & m & -> & Lr); [rewrite Hl; unfold CRYPTO_PUBLICKEYBYTES; lia|].
  apply Forall_app in Hb as [Br Bm]. rewrite length_app, Lr in Hl.
  assert (Lm : length m = (K * POLYT1_PACKEDBYTES)%nat) by (unfold CRYPTO_PUBLICKEYBYTES in Hl; lia).
  assert (Hz : is_vec K (replicate K (replicate N 0))).
  { split; [apply length_replicate|]. apply Forall_replicate, length_replicate. }
  pose proof (unpack_vec_gen _ _ _ _ K rho m [] _ SEEDBYTES unpack_t1_any (eq_sym Lr) Lm Bm Hz) as Hw.
  destruct (proj1 (wp_exists _ _) Hw) as (t1 & _ & Vt & Hp). exists t1. split; [done|]. split.
  { unfold pkEncode. rewrite take_app_length' by done. f_equal. apply (encoded_slots _ K POLYT1_PACKEDBYTES);
      [intros x; apply length_bit_pack|apply Vt|done|]. intros i v Hi. destruct Vt as [_ Ft].
    destruct (Forall_lookup_1 _ _ _ _ Ft Hi) as [Lv Rv]. specialize (Hp i v (replicate POLYT1_PACKEDBYTES 0) Hi (length_replicate _ _)).
    rewrite polyt1_pack_encode in Hp by (done || apply length_replicate). by injection Hp. }
  assert (Hv : vec_bytes polyt1_unpack POLYT1_PACKEDBYTES t1 m).
  { destruct Vt as [Lt Ft]. split_and!; [by rewrite Lt|done|]. intros i v p Hi Hlp.
    destruct (Forall_lookup_1 _ _ _ _ Ft Hi) as [Lv Rv].
    set (r := replicate POLYT1_PACKEDBYTES 0). assert (Lrr : length r = POLYT1_PACKEDBYTES) by apply length_replicate.
    pose proof (packs_t1 v Lv Rv r Lrr) as Hpk. rewrite (Hp i v r Hi Lrr) in Hpk. by apply Hpk. }
  intros rho0 t10 [Hr0 Ht0]. unfold unpack_pk. rewrite take_app_length' by done. rewrite <-(app_nil_r m).
  rewrite (copy_out SEEDBYTES [] rho (m ++ [])) by done. cbn [mbind option_bind].
  rewrite (unpack_vec_ok K _ polyt1_unpack _ rho m [] t1) by (done || apply Vt). done.
Qed.

(** What pkEncode writes decodes to its arguments. *)
Lemma pkEncode_unpack rho t1 rho0 t10 :
  length rho = SEEDBYTES → vec_of K (λ x, 0 <= x < 2 ^ 10) t1 → pk_shape rho0 t10 →
  unpack_pk rho0 t10 (pkEncode rho t1) = Some (rho, t1).
Proof.
  intros Lr Vt Hs. set (pk0 := replicate SEEDBYTES 0 ++ replicate (K * POLYT1_PACKEDBYTES) 0 ++ []).
  assert (Lp : length pk0 = CRYPTO_PUBLICKEYBYTES) by (unfold pk0; rewrite !length_app, !length_replicate; done).
  assert (E : pack_pk pk0 rho t1 = Some (pkEncode rho t1)).
  { unfold pack_pk, pk0. rewrite (copy_in SEEDBYTES 0 [] (replicate SEEDBYTES 0) _ rho eq_refl Lr (length_replicate _ _)
      : copy SEEDBYTES (replicate SEEDBYTES 0 ++ _) 0 rho 0 = Some (rho ++ _)). cbn [mbind option_bind]. rewrite (pack_vec_encode (λ x, 0 <= x < 2 ^ 10) (bit_pack 10) K);
      [by rewrite app_nil_r|intros x; apply length_bit_pack|by apply polyt1_pack_encode|done|apply length_replicate|done]. }
  pose proof (pk_roundtrip pk0 rho t1 Lp Lr Vt) as H. rewrite E in H. destruct H as (_ & _ & H). by apply H.
Qed.
