(* ===== verification/MlVec.v ===== *)
(** ML-DSA-65: vectors and matrices of polynomials ([polyvec.c]).

    A vector is the list of its polynomials.  Each function runs the polynomial
    operation on entry after entry; where the C code passes the same vector as
    source and destination, entry [i] is read before it is written, so the
    result is the one modelled here with separate arguments.  Proved here: the
    matrix-vector product in the transform domain.

    ML-DSA-65: what the vector operations compute.

    One law per function of polyvec.c, in the form in which key generation,
    signing and verification use it: the entries of the result as functions of
    the entries of the arguments, with the bounds that exclude overflow.  Where
    the result is determined exactly (not only modulo Q) it is given as the
    vector [mk_vec n F] of the coefficients [F i k]. *)
From S2P Require Import Prelude MlArith MlNtt MlNttSpec MlPoly MlPack MlKeys MlHints.

(** [for (i = 0; i < n; ++i) f(&v[i])] *)
Definition vec_loop (n : nat) (f : nat → list Z → option (list Z)) (v : list (list Z))
    : option (list (list Z)) :=
  for_loop n 0 (λ i v, x ← v !! i; y ← f i x; Some (<[i := y]> v)) v.

(** The same with two output vectors. *)
Definition vec_loop2 (n : nat) (f : nat → list Z → list Z → option (list Z * list Z))
    (v w : list (list Z)) : option (list (list Z) * list (list Z)) :=
  for_loop n 0 (λ i '(v, w), x ← v !! i; y ← w !! i; '(x, y) ← f i x y;
    Some (<[i := x]> v, <[i := y]> w)) (v, w).

(** [for (i = 0; i < n; ++i) if (f(&v[i])) return 1; return 0;] *)
Definition vec_any_step (n : nat) (f : list Z → option Z) (v : list (list Z)) (i : nat)
    : option (ctl nat Z) :=
  if (i <? n)%nat then
    x ← v !! i; r ← f x;
    if r =? 0 then Some (Next (S i)) else Some (Done 1)
  else Some (Done 0).
Definition vec_any (n : nat) (f : list Z → option Z) (v : list (list Z)) : option Z :=
  loop (S n) (vec_any_step n f v) 0%nat.

Section vec.
Context `{Uninit}.

(** ** Length L *)
Definition polyvecl_reduce (v : list (list Z)) := vec_loop L (λ _ x, poly_reduce x) v.
Definition polyvecl_add (w u v : list (list Z)) :=
  vec_loop L (λ i x, a ← u !! i; b ← v !! i; poly_add x a b) w.
Definition polyvecl_ntt (v : list (list Z)) := vec_loop L (λ _ x, poly_ntt x) v.
Definition polyvecl_invntt_tomont (v : list (list Z)) := vec_loop L (λ _ x, poly_invntt_tomont x) v.
Definition polyvecl_pointwise_poly_montgomery (r : list (list Z)) (a : list Z) (v : list (list Z)) :=
  vec_loop L (λ i x, b ← v !! i; poly_pointwise_montgomery x a b) r.

Definition polyvecl_pointwise_acc_montgomery (w : list Z) (u v : list (list Z)) : option (list Z) :=
  a ← u !! 0%nat; b ← v !! 0%nat;
  w ← poly_pointwise_montgomery w a b;
  '(w, _) ← for_loop (L - 1) 1 (λ i '(w, t),
    a ← u !! i; b ← v !! i;
    t ← poly_pointwise_montgomery t a b;
    w ← poly_add w w t;
    Some (w, t)) (w, uninit N);
  Some w.

Definition polyvecl_chknorm (v : list (list Z)) (bound : Z) : option Z :=
  vec_any L (λ x, poly_chknorm x bound) v.

(** ** Length K *)
Definition polyveck_reduce (v : list (list Z)) := vec_loop K (λ _ x, poly_reduce x) v.
Definition polyveck_caddq (v : list (list Z)) := vec_loop K (λ _ x, poly_caddq x) v.
Definition polyveck_add (w u v : list (list Z)) :=
  vec_loop K (λ i x, a ← u !! i; b ← v !! i; poly_add x a b) w.
Definition polyveck_sub (w u v : list (list Z)) :=
  vec_loop K (λ i x, a ← u !! i; b ← v !! i; poly_sub x a b) w.
Definition polyveck_shiftl (v : list (list Z)) := vec_loop K (λ _ x, poly_shiftl x) v.
Definition polyveck_ntt (v : list (list Z)) := vec_loop K (λ _ x, poly_ntt x) v.
Definition polyveck_invntt_tomont (v : list (list Z)) := vec_loop K (λ _ x, poly_invntt_tomont x) v.
Definition polyveck_pointwise_poly_montgomery (r : list (list Z)) (a : list Z) (v : list (list Z)) :=
  vec_loop K (λ i x, b ← v !! i; poly_pointwise_montgomery x a b) r.
Definition polyveck_chknorm (v : list (list Z)) (bound : Z) : option Z :=
  vec_any K (λ x, poly_chknorm x bound) v.
Definition polyveck_power2round (v1 v0 v : list (list Z)) :=
  vec_loop2 K (λ i x1 x0, a ← v !! i; poly_power2round x1 x0 a) v1 v0.
Definition polyveck_decompose (v1 v0 v : list (list Z)) :=
  vec_loop2 K (λ i x1 x0, a ← v !! i; poly_decompose x1 x0 a) v1 v0.

(** The hint vector and the number of ones. *)
Definition polyveck_make_hint (h v0 v1 : list (list Z)) : option (list (list Z) * Z) :=
  for_loop K 0 (λ i '(h, s),
    x ← h !! i; a0 ← v0 !! i; a1 ← v1 !! i;
    '(x, n) ← poly_make_hint x a0 a1;
    Some (<[i := x]> h, u32 (s + n))) (h, 0).

Definition polyveck_use_hint (w u h : list (list Z)) :=
  vec_loop K (λ i x, a ← u !! i; b ← h !! i; poly_use_hint x a b) w.
Definition polyveck_pack_w1 (r : list Z) (w1 : list (list Z)) : option (list Z) :=
  pack_vec K POLYW1_PACKEDBYTES polyw1_pack 0 r w1.

(** ** Matrices: [K] vectors of length [L] *)
Definition polyvec_matrix_pointwise_montgomery (t : list (list Z)) (mat : list (list (list Z)))
    (v : list (list Z)) : option (list (list Z)) :=
  vec_loop K (λ i x, row ← mat !! i; polyvecl_pointwise_acc_montgomery x row v) t.

End vec.

(** ** Reasoning entry by entry *)

(** Every entry is there and satisfies [P]. *)
Definition each_poly (n : nat) (P : nat → list Z → Prop) (v : list (list Z)) : Prop :=
  length v = n ∧ ∀ i, (i < n)%nat → ∃ a, v !! i = Some a ∧ P i a.

Lemma each_poly_mono n (P R : nat → list Z → Prop) v :
  each_poly n P v → (∀ i a, (i < n)%nat → P i a → R i a) → each_poly n R v.
Proof.
  intros [Hl Hv] H. split; [done|]. intros i Hi. destruct (Hv i Hi) as (a & ? & ?). exists a. auto.
Qed.

Lemma wp_vec_loop n (P R : nat → list Z → Prop) f v :
  each_poly n P v → (∀ i a, (i < n)%nat → P i a → wp (f i a) (R i)) →
  wp (vec_loop n f v) (each_poly n R).
Proof.
  intros [Hl Hv] Hf.
  apply (wp_for (λ i w, length w = n ∧
    ∀ j, (j < n)%nat → ∃ a, w !! j = Some a ∧ if (j <? i)%nat then R j a else P j a)).
  - split; [done|]. intros j Hj. exact (Hv j Hj).
  - intros i w Hi [Lw Hw]. destruct (Hw i ltac:(lia)) as (a & Ha & Pa). rewrite Nat.ltb_irrefl in Pa.
    eapply wp_step; [exact Ha|]. eapply wp_then; [by apply Hf; [lia|]|]. intros b Rb. cbn [wp].
    rewrite length_insert. split; [done|]. intros j Hj. destruct (decide (j = i)) as [->|].
    + exists b. rewrite list_lookup_insert_eq by lia. by rewrite (proj2 (Nat.ltb_lt _ _)) by lia.
    + rewrite list_lookup_insert_ne by done. replace (j <? S i)%nat with (j <? i)%nat by lia.
      by apply Hw.
  - intros w [Lw Hw]. split; [done|]. intros j Hj. destruct (Hw j Hj) as (a & Ha & Ra).
    rewrite (proj2 (Nat.ltb_lt _ _)) in Ra by lia. by exists a.
Qed.

(** The norm check of a vector: 0 exactly if that of every entry is. *)
Lemma vec_any_ok n f (g : list Z → Z) v :
  length v = n → Forall (λ a, f a = Some (g a)) v →
  vec_any n f v = Some (if bool_decide (Forall (λ a, g a = 0) v) then 0 else 1).
Proof.
  intros Hl Hf. apply wp_eq.
  apply (wp_loop (λ fuel i, (i <= n)%nat ∧ fuel = (S n - i)%nat ∧
    ∀ j a, (j < i)%nat → v !! j = Some a → g a = 0)).
  - split_and!; [lia..|]. intros. lia.
  - intros fuel i (Hi & -> & Hd). exists (n - i)%nat. split; [lia|]. unfold vec_any_step.
    destruct (Nat.ltb_spec i n) as [Hlt|Hge].
    + destruct (lookup_lt_is_Some_2 v i) as [a Ha]; [lia|]. eapply wp_step; [exact Ha|].
      eapply wp_step; [exact (Forall_lookup_1 _ _ _ _ Hf Ha)|].
      destruct (Z.eqb_spec (g a) 0) as [E|E]; cbn [wp].
      * split_and!; [lia..|]. intros j b Hj Hb. destruct (decide (j = i)) as [->|]; [congruence|].
        apply (Hd j); [lia|done].
      * rewrite bool_decide_eq_false_2; [done|]. intros H. apply E.
        exact (Forall_lookup_1 _ _ _ _ H Ha).
    + cbn [wp]. rewrite bool_decide_eq_true_2; [done|]. apply Forall_lookup. intros j a Ha.
      apply (Hd j); [|done]. apply lookup_lt_Some in Ha. lia.
Qed.

(** ** The transform is linear *)
Lemma fwd_ext nb len F G i : (∀ j, F j = G j) → fwd nb len F i = fwd nb len G i.
Proof. intros H. unfold fwd. by rewrite !H. Qed.

Lemma fwd_psum nb len (G : nat → nat → Z) n i :
  fwd nb len (λ k, psum (λ j, G j k) n) i = psum (λ j, fwd nb len (G j) i) n.
Proof.
  induction n as [|n IH]; cbn [psum].
  - unfold fwd. case_match; lia.
  - rewrite <-IH. unfold fwd. case_match; lia.
Qed.

Lemma layers_psum l (G : nat → nat → Z) n i :
  layers l (λ k, psum (λ j, G j k) n) i = psum (λ j, layers l (G j) i) n.
Proof.
  revert i. induction l as [|l IH]; intros i; [done|]. cbn [layers].
  rewrite (fwd_ext _ _ _ _ _ IH). apply fwd_psum.
Qed.

(** ** Matrix-vector product *)
Section matvec.
Context `{Uninit}.

Lemma pointwise_acc_ok Bu Bv (U V : nat → nat → Z) w u v :
  length w = N → each_poly L (λ j a, rep Bu (U j) a) u → each_poly L (λ j a, rep Bv (V j) a) v →
  0 <= Bu → Bu * Bv < 2 ^ 31 * Q →
  wp (polyvecl_pointwise_acc_montgomery w u v)
     (rep (5 * Q) (λ k, psum (λ j, U j k * V j k * RINV) L)).
Proof.
  intros Hw [_ Hu] [_ Hv] HB HBB. unfold polyvecl_pointwise_acc_montgomery.
  destruct (Hu 0%nat) as (a & Ha & Ra), (Hv 0%nat) as (b & Hb & Rb); [unfold L; lia..|].
  eapply wp_step; [exact Ha|]. eapply wp_step; [exact Hb|].
  eapply wp_then; [by eapply poly_pointwise_ok|]. intros w1 Hw1. cbn beta.
  eapply wp_then.
  - apply (wp_for (λ i '(w, t), length t = N ∧
      rep (Z.of_nat i * Q) (λ k, psum (λ j, U j k * V j k * RINV) i) w) _ _ _ _
      (λ '(w, _), rep (5 * Q) (λ k, psum (λ j, U j k * V j k * RINV) L) w)).
    + split; [apply length_uninit|]. rewrite Z.mul_1_l. exact Hw1.
    + intros i [w' t] Hi [Ht Hw']. unfold L in Hi.
      destruct (Hu i) as (a' & Ha' & Ra'), (Hv i) as (b' & Hb' & Rb'); [unfold L; lia..|].
      eapply wp_step; [exact Ha'|]. eapply wp_step; [exact Hb'|].
      eapply wp_then; [by eapply poly_pointwise_ok|]. intros t' Ht'. cbn beta.
      eapply wp_then; [eapply poly_add_ok; [apply Hw'|exact Hw'|exact Ht'|unfold Q; lia]|].
      intros w'' Hw''. cbn [wp]. split; [apply Ht'|].
      replace (Z.of_nat (S i) * Q) with (Z.of_nat i * Q + Q) by lia. exact Hw''.
    + intros [w' t] [_ Hw']. exact Hw'.
  - intros [w' t] Hw'. exact Hw'.
Qed.

(** [mat] holds the transforms of the entries of the matrix [A]. *)
Definition is_matrix (A : nat → nat → nat → Z) (mat : list (list (list Z))) : Prop :=
  length mat = K ∧
  ∀ i, (i < K)%nat → ∃ row, mat !! i = Some row ∧ each_poly L (λ j a, rep Q (layers 8 (A i j)) a) row.

Lemma matvec_ok A (V : nat → nat → Z) mat v t :
  is_matrix A mat → each_poly L (λ j a, rep Q (V j) a) v → is_vec K t →
  wp (v ← polyvecl_ntt v; t ← polyvec_matrix_pointwise_montgomery t mat v;
      t ← polyveck_reduce t; polyveck_invntt_tomont t)
     (each_poly K (λ i a, rep (Q - 1) (λ k, psum (λ j, negmul (A i j) (V j) k) L) a)).
Proof.
  intros [_ Hm] Hv [Lt Ht].
  eapply wp_then.
  { eapply (wp_vec_loop L _ (λ j a, rep (Q + 8 * Q) (layers 8 (V j)) a)); [exact Hv|].
    intros j a _ Ha. by apply ntt_layers_ok. }
  intros vh Hvh. cbn beta. eapply wp_then.
  { eapply (wp_vec_loop K (λ _ a, length a = N)
      (λ i a, rep (5 * Q) (λ k, psum (λ j, layers 8 (A i j) k * layers 8 (V j) k * RINV) L) a)).
    - split; [done|]. intros i Hi. destruct (lookup_lt_is_Some_2 t i) as [a Ha]; [lia|].
      exists a. split; [done|]. exact (Forall_lookup_1 _ _ _ _ Ht Ha).
    - intros i a Hi Ha. destruct (Hm i Hi) as (row & Hr & Rr). eapply wp_step; [exact Hr|].
      eapply (pointwise_acc_ok Q (Q + 8 * Q) (λ j, layers 8 (A i j)) (λ j, layers 8 (V j)));
        [done|exact Rr|exact Hvh|done|done]. }
  intros th Hth. cbn beta. eapply wp_then.
  { eapply (wp_vec_loop K _ (λ i a, rep 6283009
      (λ k, psum (λ j, layers 8 (A i j) k * layers 8 (V j) k * RINV) L) a)); [exact Hth|].
    intros i a _ Ha. apply poly_reduce_ok. apply each_rep in Ha. eapply each_mono; [exact Ha|].
    intros k x _ [Bx Ex]. unfold Q in Bx. split; [lia|done]. }
  intros tr Htr. cbn beta. eapply (wp_vec_loop K); [exact Htr|]. intros i a Hi Ha.
  eapply wp_mono; [apply (invntt_ok (λ k, RINV * psum (λ j, negmul (A i j) (V j) k) L))|].
  - destruct Ha as [La Ha]. split; [done|]. intros k Hk. destruct (Ha k Hk) as (x & Hx & Bx & Ex).
    exists x. split; [done|]. split; [unfold Q; lia|]. rewrite Ex, layers_scale, layers_psum, <-psum_scale.
    apply psum_eqq. intros j _. rewrite <-layers_mul by done. apply (eqq_intro _ _ 0). lia.
  - intros r. apply rep_ext. intros k Hk. rewrite Z.mul_assoc, RINV_ok. by rewrite Z.mul_1_l.
Qed.

End matvec.

Import Fips204.

(** ** Vectors from coefficient functions *)
Definition mk_poly (F : nat → Z) : list Z := F <$> seq 0 N.
Definition mk_vec (n : nat) (F : nat → nat → Z) : list (list Z) := (λ i, mk_poly (F i)) <$> seq 0 n.
Definition coef (v : list (list Z)) (i k : nat) : Z := (v !!! i) !!! k.

Lemma length_mk_poly F : length (mk_poly F) = N.
Proof. unfold mk_poly. by rewrite length_fmap, length_seq. Qed.
Lemma mk_poly_lookup F k : (k < N)%nat → mk_poly F !! k = Some (F k).
Proof. intros Hk. unfold mk_poly. rewrite list_lookup_fmap, lookup_seq_lt by done. done. Qed.
Lemma length_mk_vec n F : length (mk_vec n F) = n.
Proof. unfold mk_vec. by rewrite length_fmap, length_seq. Qed.
Lemma mk_vec_lookup n F i : (i < n)%nat → mk_vec n F !! i = Some (mk_poly (F i)).
Proof. intros Hi. unfold mk_vec. rewrite list_lookup_fmap, lookup_seq_lt by done. done. Qed.

Lemma mk_poly_each F a : each (λ k x, x = F k) a → a = mk_poly F.
Proof.
  intros Ha. apply each_eq; [apply length_mk_poly|]. eapply each_mono; [exact Ha|].
  intros k x Hk ->. by apply mk_poly_lookup.
Qed.
Lemma each_mk_poly (P : nat → Z → Prop) F : (∀ k, (k < N)%nat → P k (F k)) → each P (mk_poly F).
Proof.
  intros H. split; [apply length_mk_poly|]. intros k Hk. exists (F k). split; [by apply mk_poly_lookup|auto].
Qed.
Lemma mk_poly_ext F G : (∀ k, (k < N)%nat → F k = G k) → mk_poly F = mk_poly G.
Proof. intros H. apply mk_poly_each, each_mk_poly. auto. Qed.

Lemma mk_vec_each n F v : each_poly n (λ i a, a = mk_poly (F i)) v → v = mk_vec n F.
Proof.
  intros [Hl Hv]. apply list_eq. intros i. destruct (decide (i < n)%nat) as [Hi|Hi].
  - destruct (Hv i Hi) as (a & Ha & ->). by rewrite Ha, mk_vec_lookup.
  - rewrite !lookup_ge_None_2; [done|rewrite length_mk_vec; lia|lia].
Qed.
Lemma each_mk_vec n (P : nat → list Z → Prop) F :
  (∀ i, (i < n)%nat → P i (mk_poly (F i))) → each_poly n P (mk_vec n F).
Proof.
  intros H. split; [apply length_mk_vec|]. intros i Hi. exists (mk_poly (F i)).
  split; [by apply mk_vec_lookup|auto].
Qed.
Lemma mk_vec_ext n F G : (∀ i k, (i < n)%nat → (k < N)%nat → F i k = G i k) → mk_vec n F = mk_vec n G.
Proof. intros H. apply mk_vec_each, each_mk_vec. intros i Hi. apply mk_poly_ext. auto. Qed.

Lemma Forall_mk_poly (P : Z → Prop) F : Forall P (mk_poly F) ↔ ∀ k, (k < N)%nat → P (F k).
Proof.
  unfold mk_poly. rewrite Forall_fmap, Forall_seq. unfold compose. split; intros H k Hk; apply H; lia.
Qed.
Lemma vec_of_mk n (P : Z → Prop) F : vec_of n P (mk_vec n F) ↔ ∀ i k, (i < n)%nat → (k < N)%nat → P (F i k).
Proof.
  unfold vec_of. rewrite length_mk_vec. unfold mk_vec. rewrite Forall_fmap, Forall_seq. unfold compose. split.
  - intros [_ H] i k Hi Hk. destruct (H i) as [_ H']; [lia|]. by apply (Forall_mk_poly P (F i)).
  - intros H. split; [done|]. intros i Hi. split; [apply length_mk_poly|]. apply Forall_mk_poly. intros k Hk.
    apply H; [lia|done].
Qed.

(** Shape. *)
Lemma is_vec_each n v : is_vec n v ↔ each_poly n (λ _ a, length a = N) v.
Proof.
  split; intros [Hl Hv]; (split; [done|]).
  - intros i Hi. destruct (lookup_lt_is_Some_2 v i) as [a Ha]; [lia|]. exists a. split; [done|].
    exact (Forall_lookup_1 _ _ _ _ Hv Ha).
  - apply Forall_lookup. intros i a Ha. destruct (Hv i) as (a' & Ha' & ?); [apply lookup_lt_Some in Ha; lia|].
    congruence.
Qed.
Lemma rep_vec n B F v : each_poly n (λ i a, rep B (F i) a) v → is_vec n v.
Proof. intros H. apply is_vec_each. eapply each_poly_mono; [exact H|]. by intros i a _ [? _]. Qed.
Lemma is_vec_mk n F : is_vec n (mk_vec n F).
Proof. apply is_vec_each, each_mk_vec. intros. apply length_mk_poly. Qed.
Lemma vec_of_is_vec n P v : vec_of n P v → is_vec n v.
Proof. intros [Hl Hv]. split; [done|]. eapply Forall_impl; [|exact Hv]. by intros a [? _]. Qed.
#[export] Hint Resolve is_vec_mk vec_of_is_vec : core.

(** A vector is the one of its coefficients. *)
Lemma vec_coef n v : is_vec n v → v = mk_vec n (coef v).
Proof.
  intros Hv. apply is_vec_each in Hv. apply mk_vec_each. destruct Hv as [Hl Hv]. split; [done|].
  intros i Hi. destruct (Hv i Hi) as (a & Ha & La). exists a. split; [done|]. apply mk_poly_each.
  split; [done|]. intros k Hk. destruct (lookup_lt_is_Some_2 a k) as [x Hx]; [lia|]. exists x. split; [done|].
  unfold coef. by rewrite (list_lookup_total_correct _ _ _ Ha), (list_lookup_total_correct _ _ _ Hx).
Qed.

Lemma coef_mk n F i k : (i < n)%nat → (k < N)%nat → coef (mk_vec n F) i k = F i k.
Proof.
  intros Hi Hk. unfold coef. by rewrite (list_lookup_total_correct _ _ _ (mk_vec_lookup n F i Hi)),
    (list_lookup_total_correct _ _ _ (mk_poly_lookup (F i) k Hk)).
Qed.

Lemma coef_range n P v i k : vec_of n P v → (i < n)%nat → (k < N)%nat → P (coef v i k).
Proof.
  intros Hv Hi Hk. pose proof Hv as Hv'. rewrite (vec_coef n v) in Hv' by eauto.
  rewrite vec_of_mk in Hv'. auto.
Qed.

Lemma rep_mk_poly B F : (∀ k, (k < N)%nat → - B <= F k <= B) → rep B F (mk_poly F).
Proof. intros H. apply each_rep, each_mk_poly. intros k Hk. split; [auto|done]. Qed.

Lemma vec_of_rep n B P v :
  vec_of n P v → (∀ x, P x → - B <= x <= B) → each_poly n (λ i a, rep B (coef v i) a) v.
Proof.
  intros Hv HP. assert (H : each_poly n (λ i a, rep B (coef v i) a) (mk_vec n (coef v))).
  { apply each_mk_vec. intros i Hi. apply rep_mk_poly. intros k Hk. apply HP. by apply (coef_range n P). }
  by rewrite <-(vec_coef n v) in H by eauto.
Qed.

(** ** The laws *)
Section laws.
Context (n : nat).
Abbreviation vrep B F := (each_poly n (λ i a, rep B (F i) a)).

Lemma vrep_mono B B' F v : B <= B' → vrep B F v → vrep B' F v.
Proof using Type. intros HB H. eapply each_poly_mono; [exact H|]. intros i a _. by apply rep_mono. Qed.
Lemma vrep_ext B (F G : nat → nat → Z) v :
  (∀ i k, (i < n)%nat → (k < N)%nat → F i k ≡q G i k) → vrep B F v → vrep B G v.
Proof using Type. intros HE H. eapply each_poly_mono; [exact H|]. intros i a Hi. apply rep_ext. auto. Qed.

Lemma vec_ntt_ok B F v :
  0 <= B → B + 8 * Q < 2 ^ 31 → vrep B F v →
  wp (vec_loop n (λ _ x, poly_ntt x) v) (vrep (B + 8 * Q) (λ i, layers 8 (F i))).
Proof using Type.
  intros HB HB8 Hv. eapply wp_vec_loop; [exact Hv|]. intros i a _ Ha. by apply ntt_layers_ok.
Qed.

Lemma vec_invntt_tight (G F : nat → nat → Z) v :
  vrep Q G v → (∀ i k, (i < n)%nat → (k < N)%nat → G i k ≡q layers 8 (F i) k * RINV) →
  wp (vec_loop n (λ _ x, poly_invntt_tomont x) v) (vrep INVNTT_BOUND F).
Proof using Type.
  intros Hv HG. eapply wp_vec_loop; [exact Hv|]. intros i a Hi Ha.
  eapply wp_mono; [apply (invntt_tight (λ k, RINV * F i k))|].
  - revert Ha. apply rep_ext. intros k Hk. rewrite HG, layers_scale by done. apply (eqq_intro _ _ 0). lia.
  - intros r. apply rep_ext. intros k Hk. rewrite Z.mul_assoc, RINV_ok. by rewrite Z.mul_1_l.
Qed.

Lemma vec_invntt_ok (G F : nat → nat → Z) v :
  vrep Q G v → (∀ i k, (i < n)%nat → (k < N)%nat → G i k ≡q layers 8 (F i) k * RINV) →
  wp (vec_loop n (λ _ x, poly_invntt_tomont x) v) (vrep (Q - 1) F).
Proof using Type.
  intros Hv HG. eapply wp_mono; [by eapply vec_invntt_tight|]. intros r. by apply vrep_mono.
Qed.

Lemma vec_reduce_ok B F v :
  B <= 2 ^ 31 - 2 ^ 22 - 1 → vrep B F v →
  wp (vec_loop n (λ _ x, poly_reduce x) v) (vrep 6283009 F).
Proof using Type.
  intros HB Hv. eapply wp_vec_loop; [exact Hv|]. intros i a _ Ha. apply poly_reduce_ok.
  apply each_rep in Ha. eapply each_mono; [exact Ha|]. intros k x _ [Bx Ex]. split; [lia|done].
Qed.

Lemma vec_zip_ok (op : list Z → list Z → list Z → option (list Z)) (P1 P2 R : nat → list Z → Prop) w u v :
  is_vec n w → each_poly n P1 u → each_poly n P2 v →
  (∀ i c a b, (i < n)%nat → length c = N → P1 i a → P2 i b → wp (op c a b) (R i)) →
  wp (vec_loop n (λ i x, a ← u !! i; b ← v !! i; op x a b) w) (each_poly n R).
Proof using Type.
  intros Hw [_ Hu] [_ Hv] Hop. apply is_vec_each in Hw. eapply wp_vec_loop; [exact Hw|].
  intros i c Hi Hc. destruct (Hu i Hi) as (a & Ha & Pa), (Hv i Hi) as (b & Hb & Pb).
  eapply wp_step; [exact Ha|]. eapply wp_step; [exact Hb|]. by apply Hop.
Qed.

Lemma vec_add_ok B1 B2 F G w u v :
  is_vec n w → vrep B1 F u → vrep B2 G v → B1 + B2 < 2 ^ 31 →
  wp (vec_loop n (λ i x, a ← u !! i; b ← v !! i; poly_add x a b) w) (vrep (B1 + B2) (λ i k, F i k + G i k)).
Proof using Type.
  intros Hw Hu Hv HB. eapply vec_zip_ok; [done|exact Hu|exact Hv|]. intros i c a b _ Hc Ha Hb.
  by apply poly_add_ok.
Qed.

Lemma vec_sub_ok B1 B2 F G w u v :
  is_vec n w → vrep B1 F u → vrep B2 G v → B1 + B2 < 2 ^ 31 →
  wp (vec_loop n (λ i x, a ← u !! i; b ← v !! i; poly_sub x a b) w) (vrep (B1 + B2) (λ i k, F i k - G i k)).
Proof using Type.
  intros Hw Hu Hv HB. eapply vec_zip_ok; [done|exact Hu|exact Hv|]. intros i c a b _ Hc Ha Hb.
  by apply poly_sub_ok.
Qed.

Lemma vec_pointwise_poly_ok B1 B2 C F r a v :
  is_vec n r → rep B1 C a → vrep B2 F v → 0 <= B1 → B1 * B2 < 2 ^ 31 * Q →
  wp (vec_loop n (λ i x, b ← v !! i; poly_pointwise_montgomery x a b) r)
     (vrep Q (λ i k, C k * F i k * RINV)).
Proof using Type.
  intros Hr Ha [_ Hv] HB HBB. apply is_vec_each in Hr. eapply wp_vec_loop; [exact Hr|].
  intros i c Hi Hc. destruct (Hv i Hi) as (b & Hb & Rb). eapply wp_step; [exact Hb|]. by eapply poly_pointwise_ok.
Qed.

(** The product of a polynomial and a vector, from the transforms. *)
Lemma vec_product_ok B1 B2 C F r a v :
  is_vec n r → rep B1 (layers 8 C) a → vrep B2 (λ i, layers 8 (F i)) v → 0 <= B1 → B1 * B2 < 2 ^ 31 * Q →
  wp (vec_loop n (λ i x, b ← v !! i; poly_pointwise_montgomery x a b) r) (λ r,
    wp (vec_loop n (λ _ x, poly_invntt_tomont x) r) (vrep (Q - 1) (λ i, negmul C (F i)))).
Proof using Type.
  intros Hr Ha Hv HB HBB. eapply wp_mono; [by eapply vec_pointwise_poly_ok|]. intros r' Hr'.
  apply (vec_invntt_ok _ _ _ Hr'). intros i k Hi Hk. by rewrite layers_mul.
Qed.

Lemma vec_caddq_ok B F v :
  B < Q → vrep B F v → wp (vec_loop n (λ _ x, poly_caddq x) v) (λ v', v' = mk_vec n (λ i k, F i k mod Q)).
Proof using Type.
  intros HB Hv. eapply wp_mono; [|apply mk_vec_each]. eapply wp_vec_loop; [exact Hv|]. intros i a _ Ha.
  eapply wp_mono; [|apply mk_poly_each]. apply each_rep in Ha. eapply fill_unary; [exact Ha|].
  intros k x Hk [Bx Ex]. rewrite caddq_eq by (unfold Q in *; lia). cbn [wp]. apply eqq_mod in Ex. rewrite <-Ex.
  destruct (Z.ltb_spec x 0).
  - rewrite <-(Z.mod_add x 1 Q) by done. rewrite Z.mul_1_l. symmetry. apply Z.mod_small. unfold Q in *. lia.
  - symmetry. apply Z.mod_small. unfold Q in *. lia.
Qed.

End laws.

(** ** Matrices *)
Definition matvec (A : nat → nat → nat → Z) (V : nat → nat → Z) (i k : nat) : Z :=
  psum (λ j, negmul (A i j) (V j) k) L.

Lemma matrix_product_ok `{Uninit} A (V : nat → nat → Z) mat v t :
  is_matrix A mat → each_poly L (λ j a, rep (9 * Q) (layers 8 (V j)) a) v → is_vec K t →
  wp (polyvec_matrix_pointwise_montgomery t mat v)
     (each_poly K (λ i a, rep (5 * Q) (λ k, layers 8 (matvec A V i) k * RINV) a)).
Proof.
  intros [_ Hm] Hv Ht. apply is_vec_each in Ht. eapply wp_vec_loop; [exact Ht|]. intros i a Hi Ha.
  destruct (Hm i Hi) as (row & Hr & Rr). eapply wp_step; [exact Hr|].
  eapply wp_mono.
  - apply (pointwise_acc_ok Q (9 * Q) (λ j, layers 8 (A i j)) (λ j, layers 8 (V j))); [done|exact Rr|exact Hv|done|done].
  - intros w. apply rep_ext. intros k Hk. unfold matvec. rewrite layers_psum, (Z.mul_comm _ RINV), <-psum_scale.
    apply psum_eqq. intros j _. rewrite <-layers_mul by done. apply (eqq_intro _ _ 0). lia.
Qed.

Lemma layers_sub l F G i : layers l (λ k, F k - G k) i = layers l F i - layers l G i.
Proof.
  revert i. induction l as [|l IH]; intros i; [done|]. cbn [layers]. rewrite (fwd_ext _ _ _ _ _ IH).
  unfold fwd. case_match; lia.
Qed.
Lemma layers_add l F G i : layers l (λ k, F k + G k) i = layers l F i + layers l G i.
Proof.
  revert i. induction l as [|l IH]; intros i; [done|]. cbn [layers]. rewrite (fwd_ext _ _ _ _ _ IH).
  unfold fwd. case_match; lia.
Qed.

(** ** Two output vectors *)
Lemma fill2_mk (F G : nat → Z) f c d :
  length c = N → length d = N → (∀ k, (k < N)%nat → f k = Some (F k, G k)) →
  fill2 f c d = Some (mk_poly F, mk_poly G).
Proof.
  intros Hc Hd Hf. apply wp_eq.
  eapply wp_mono; [apply (wp_fill2 (λ k v w, v = F k ∧ w = G k)); [done|done|]|].
  - intros k Hk. by rewrite Hf by done.
  - intros [c' d'] (Lc & Ld & H). f_equal; apply mk_poly_each; (split; [done|]); intros k Hk;
      destruct (H k Hk) as (v & w & Hv & Hw & -> & ->); eauto.
Qed.

Lemma vec_loop2_mk n f v w (F G : nat → nat → Z) :
  is_vec n v → is_vec n w →
  (∀ i x y, (i < n)%nat → length x = N → length y = N → f i x y = Some (mk_poly (F i), mk_poly (G i))) →
  vec_loop2 n f v w = Some (mk_vec n F, mk_vec n G).
Proof.
  intros Hv Hw Hf. apply is_vec_each in Hv as [Lv Hv], Hw as [Lw Hw]. apply wp_eq.
  apply (wp_for (λ i '(v', w'), length v' = n ∧ length w' = n ∧
    (∀ j, (j < i)%nat → v' !! j = Some (mk_poly (F j)) ∧ w' !! j = Some (mk_poly (G j))) ∧
    (∀ j, (i <= j)%nat → v' !! j = v !! j ∧ w' !! j = w !! j))).
  - split_and!; [done|done|lia|done].
  - intros i [v' w'] Hi (Lv' & Lw' & Hd & Hr).
    destruct (Hv i) as (x & Hx & Lx), (Hw i) as (y & Hy & Ly); [lia..|].
    destruct (Hr i ltac:(lia)) as [Ev Ew].
    eapply wp_step; [rewrite Ev; exact Hx|]. eapply wp_step; [rewrite Ew; exact Hy|].
    eapply wp_step; [apply Hf; [lia|done|done]|]. cbn [wp]. rewrite !length_insert.
    split_and!; [done|done| |].
    + intros j Hj. destruct (decide (j = i)) as [->|].
      * by rewrite !list_lookup_insert_eq by lia.
      * rewrite !list_lookup_insert_ne by done. apply Hd. lia.
    + intros j Hj. rewrite !list_lookup_insert_ne by lia. apply Hr. lia.
  - intros [v' w'] (Lv' & Lw' & Hd & _). f_equal; apply mk_vec_each; (split; [done|]); intros i Hi;
      destruct (Hd i) as [? ?]; eauto.
Qed.

Section exact.
Context `{Uninit}.

Lemma polyveck_decompose_ok w1 w0 (F : nat → nat → Z) :
  is_vec K w1 → is_vec K w0 → (∀ i k, 0 <= F i k < Q) →
  polyveck_decompose w1 w0 (mk_vec K F)
  = Some (mk_vec K (λ i k, HighBits (F i k)), mk_vec K (λ i k, LowBits (F i k))).
Proof using Type.
  intros H1 H0 HF. apply vec_loop2_mk; [done|done|]. intros i x y Hi Hx Hy.
  rewrite mk_vec_lookup by done. cbn [mbind option_bind]. apply fill2_mk; [done|done|]. intros k Hk.
  rewrite mk_poly_lookup by done. cbn [mbind option_bind]. rewrite decompose_eq by apply HF.
  unfold HighBits, LowBits. by destruct (Decompose (F i k)).
Qed.

Lemma polyveck_power2round_ok t1 t0 (F : nat → nat → Z) :
  is_vec K t1 → is_vec K t0 → (∀ i k, 0 <= F i k < Q) →
  polyveck_power2round t1 t0 (mk_vec K F)
  = Some (mk_vec K (λ i k, fst (Power2Round (F i k))), mk_vec K (λ i k, snd (Power2Round (F i k)))).
Proof using Type.
  intros H1 H0 HF. apply vec_loop2_mk; [done|done|]. intros i x y Hi Hx Hy.
  rewrite mk_vec_lookup by done. cbn [mbind option_bind]. apply fill2_mk; [done|done|]. intros k Hk.
  rewrite mk_poly_lookup by done. cbn [mbind option_bind]. rewrite power2round_eq by apply HF.
  by destruct (Power2Round (F i k)).
Qed.

Lemma polyveck_use_hint_ok w (F G : nat → nat → Z) :
  is_vec K w → (∀ i k, 0 <= F i k < Q) → (∀ i k, (i < K)%nat → (k < N)%nat → G i k = 0 ∨ G i k = 1) →
  polyveck_use_hint w (mk_vec K F) (mk_vec K G) = Some (mk_vec K (λ i k, UseHint (G i k) (F i k))).
Proof using Type.
  intros Hw HF HG. apply wp_eq. eapply wp_mono; [|intros v; apply (mk_vec_each K)].
  eapply (vec_zip_ok K poly_use_hint (λ i a, a = mk_poly (F i)) (λ i a, a = mk_poly (G i)));
    [done|by apply each_mk_vec|by apply each_mk_vec|].
  intros i c a b Hi Hc -> ->. eapply wp_mono; [|apply mk_poly_each].
  apply (fill_binary (λ x y, use_hint x (u32 y)) (λ k x, x = F i k) (λ k x, x = G i k));
    [done|by apply each_mk_poly|by apply each_mk_poly|].
  intros k x y Hk -> ->. rewrite use_hint_eq by apply HF. cbn [wp].
  destruct (HG i k) as [-> | ->]; [done|done| |done]. cbn [u32]. unfold UseHint, HighBits.
  by destruct (Decompose (F i k)).
Qed.

(** A sum that does not overflow, exactly. *)
Lemma polyveck_add_exact w (F G : nat → nat → Z) B :
  is_vec K w → 2 * B < 2 ^ 31 → (∀ i k, (i < K)%nat → (k < N)%nat → Z.abs (F i k) < B) →
  (∀ i k, (i < K)%nat → (k < N)%nat → Z.abs (G i k) < B) →
  polyveck_add w (mk_vec K F) (mk_vec K G) = Some (mk_vec K (λ i k, F i k + G i k)).
Proof using Type.
  intros Hw HB HF HG. apply wp_eq. eapply wp_mono; [|intros v; apply (mk_vec_each K)].
  eapply (vec_zip_ok K poly_add (λ i a, a = mk_poly (F i)) (λ i a, a = mk_poly (G i)));
    [done|by apply each_mk_vec|by apply each_mk_vec|].
  intros i c a b Hi Hc -> ->. eapply wp_mono; [|apply mk_poly_each].
  apply (fill_binary (λ x y, i32 (x + y)) (λ k x, x = F i k) (λ k x, x = G i k));
    [done|by apply each_mk_poly|by apply each_mk_poly|].
  intros k x y Hk -> ->. specialize (HF i k Hi Hk). specialize (HG i k Hi Hk).
  rewrite i32_ok by (unfold in_i32; lia). done.
Qed.

Lemma polyveck_shiftl_ok (F : nat → nat → Z) :
  (∀ i k, (i < K)%nat → (k < N)%nat → 0 <= F i k < 2 ^ 18) →
  polyveck_shiftl (mk_vec K F) = Some (mk_vec K (λ i k, F i k * 2 ^ D)).
Proof using Type.
  intros HF. apply wp_eq. eapply wp_mono; [|intros v; apply (mk_vec_each K)].
  eapply (wp_vec_loop K (λ i a, a = mk_poly (F i))); [by apply each_mk_vec|]. intros i a Hi ->.
  eapply wp_mono; [|apply mk_poly_each]. apply (poly_shiftl_ok _ (F i)). apply each_mk_poly. auto.
Qed.
End exact.

(** ** Norm checks *)
Definition small (n : nat) (F : nat → nat → Z) (B : Z) : bool :=
  forallb (λ i, forallb (λ k, Z.abs (mods (F i k)) <? B) (seq 0 N)) (seq 0 n).

Lemma small_spec n F B :
  small n F B = true ↔ ∀ i k, (i < n)%nat → (k < N)%nat → Z.abs (mods (F i k)) < B.
Proof.
  unfold small. rewrite forallb_forall. split.
  - intros H i k Hi Hk. specialize (H i ltac:(apply in_seq; lia)). rewrite forallb_forall in H.
    apply Z.ltb_lt, H, in_seq. lia.
  - intros H i Hi%in_seq. apply forallb_forall. intros k Hk%in_seq. apply Z.ltb_lt, H; lia.
Qed.

Lemma small_ext n F G B : (∀ i k, (i < n)%nat → (k < N)%nat → F i k ≡q G i k) → small n F B = small n G B.
Proof.
  intros HE. apply eq_true_iff_eq. rewrite !small_spec.
  split; intros Hs i k Hi Hk; specialize (Hs i k Hi Hk); rewrite (mods_ext _ _ (HE i k Hi Hk)) in *; done.
Qed.

Lemma vec_chknorm_ok n F v B :
  each_poly n (λ i a, rep 6283009 (F i) a) v → B <= (Q - 1) / 8 →
  vec_any n (λ x, poly_chknorm x B) v = Some (if small n F B then 0 else 1) ∧
  (small n F B = true → v = mk_vec n (λ i k, mods (F i k))).
Proof.
  intros [Hl Hv] HB.
  assert (Hn : small n F B = true ↔ Forall (λ a, Forall (λ x, Z.abs x < B) a) v).
  { rewrite small_spec, Forall_lookup. split.
    - intros H i a Ha. apply Forall_lookup. intros k x Hx. pose proof (lookup_lt_Some _ _ _ Ha).
      destruct (Hv i) as (a' & Ha' & La & Ra); [lia|]. assert (a' = a) as -> by congruence.
      pose proof (lookup_lt_Some _ _ _ Hx). destruct (Ra k) as (x' & Hx' & Bx & Ex); [lia|].
      assert (x' = x) as -> by congruence. apply (norm_check x (F i k)); [done|done|done|]. apply H; lia.
    - intros H i k Hi Hk. destruct (Hv i Hi) as (a & Ha & La & Ra). destruct (Ra k Hk) as (x & Hx & Bx & Ex).
      apply (norm_check x (F i k) B Bx Ex HB). apply (Forall_lookup_1 _ _ _ _ (H i a Ha) Hx). }
  split.
  - rewrite (vec_any_ok n _ (λ a, if bool_decide (B <= (Q - 1) / 8 ∧ Forall (λ x, Z.abs x < B) a) then 0 else 1)).
    + f_equal. destruct (small n F B).
      * rewrite bool_decide_eq_true_2; [done|]. eapply Forall_impl; [|by apply Hn]. intros a Ha. cbn beta.
        by rewrite bool_decide_eq_true_2.
      * rewrite bool_decide_eq_false_2; [done|]. intros HF. apply diff_false_true, Hn.
        eapply Forall_impl; [|exact HF]. intros a Ha. cbn beta in Ha. case_bool_decide as Hb; [apply Hb|done].
    + done.
    + apply Forall_lookup. intros i a Ha. pose proof (lookup_lt_Some _ _ _ Ha).
      destruct (Hv i) as (a' & Ha' & Ra); [lia|]. assert (a' = a) as -> by congruence. apply poly_chknorm_ok.
      apply each_rep in Ra. eapply each_mono; [exact Ra|]. intros k x _ [? _]. lia.
  - intros Hs. apply mk_vec_each. split; [done|]. intros i Hi. destruct (Hv i Hi) as (a & Ha & La & Ra).
    exists a. split; [done|]. apply mk_poly_each. split; [done|]. intros k Hk.
    destruct (Ra k Hk) as (x & Hx & Bx & Ex). exists x. split; [done|]. apply (norm_exact x _ B); [done|done|].
    apply (proj1 Hn) in Hs. by apply (Forall_lookup_1 _ _ _ _ (Forall_lookup_1 _ _ _ _ Hs Ha) Hx).
Qed.

(** ** Hints *)
Definition weight (H : nat → nat → Z) : Z := psum (λ i, psum (H i) N) K.

Lemma weight_ext F G : (∀ i k, (i < K)%nat → (k < N)%nat → F i k = G i k) → weight F = weight G.
Proof. intros E. apply psum_ext. intros i Hi. apply psum_ext. auto. Qed.

Lemma psum_bounds f n : (∀ r, (r < n)%nat → 0 <= f r <= 1) → 0 <= psum f n <= Z.of_nat n.
Proof.
  induction n as [|n IH]; intros Hf; cbn [psum]; [lia|]. pose proof (Hf n ltac:(lia)).
  specialize (IH ltac:(intros; apply Hf; lia)). lia.
Qed.

Lemma polyveck_make_hint_ok h (F0 F1 : nat → nat → Z) :
  is_vec K h →
  polyveck_make_hint h (mk_vec K F0) (mk_vec K F1)
  = Some (mk_vec K (λ i k, make_hint (F0 i k) (F1 i k)), weight (λ i k, make_hint (F0 i k) (F1 i k))).
Proof.
  set (H := λ i k, make_hint (F0 i k) (F1 i k)). intros Hh. apply is_vec_each in Hh as [Lh Hh]. apply wp_eq.
  apply (wp_for (λ i '(h', s), length h' = K ∧ (∀ j, (j < i)%nat → h' !! j = Some (mk_poly (H j))) ∧
    (∀ j, (i <= j)%nat → h' !! j = h !! j) ∧ s = psum (λ j, psum (H j) N) i)).
  - split_and!; [done|lia|done|done].
  - intros i [h' s] Hi (Lh' & Hd & Hr & ->). destruct (Hh i) as (x & Hx & Lx); [lia|].
    eapply wp_step; [rewrite Hr by lia; exact Hx|]. eapply wp_step; [apply mk_vec_lookup; lia|].
    eapply wp_step; [apply mk_vec_lookup; lia|].
    eapply wp_then; [apply (poly_make_hint_ok (F0 i) (F1 i)); [done|by apply each_mk_poly|by apply each_mk_poly]|].
    intros [x' m] [Ex ->]. cbn [wp]. rewrite length_insert. split_and!; [done| | |].
    + intros j Hj. destruct (decide (j = i)) as [->|].
      * rewrite list_lookup_insert_eq by lia. by rewrite (mk_poly_each _ _ Ex).
      * rewrite list_lookup_insert_ne by done. apply Hd. lia.
    + intros j Hj. rewrite list_lookup_insert_ne by lia. apply Hr. lia.
    + cbn [psum]. fold (H i). apply u32_small.
      assert (B : ∀ j, 0 <= psum (H j) N <= 256).
      { intros j. pose proof (psum_bounds (H j) N (λ k _, make_hint_range _ _)). unfold N in *. lia. }
      assert (Hs : 0 <= psum (λ j, psum (H j) N) i <= Z.of_nat i * 256).
      { clear -B. induction i as [|i IH]; cbn [psum]; [lia|]. specialize (B i). lia. }
      specialize (B i). unfold in_u32, K in *. lia.
  - intros [h' s] (Lh' & Hd & _ & Es). rewrite Nat.add_0_l in *. rewrite Es.
    unfold weight. assert (h' = mk_vec K H) as ->; [|reflexivity].
    apply mk_vec_each. split; [done|]. intros i Hi. exists (mk_poly (H i)). split; [by apply Hd|done].
Qed.

(** The weight is the number of positions that the encoding lists. *)
Lemma length_pos_upto (F : nat → Z) n :
  (n <= N)%nat → (∀ k, F k = 0 ∨ F k = 1) → Z.of_nat (length (pos_upto (mk_poly F) n)) = psum F n.
Proof.
  intros Hn HF. induction n as [|n IH]; [done|]. rewrite pos_upto_S, length_app, Nat2Z.inj_add, IH by lia.
  cbn [psum]. f_equal. rewrite mk_poly_lookup by lia. destruct (HF n) as [-> | ->]; done.
Qed.

Lemma positions_weight (H : nat → nat → Z) :
  (∀ i k, H i k = 0 ∨ H i k = 1) → Z.of_nat (length (positions (mk_vec K H))) = weight H.
Proof.
  intros HF. unfold positions, mk_vec, weight. generalize K as n. intros n. induction n as [|n IH]; [done|].
  rewrite seq_S, fmap_app, bind_app, length_app, Nat2Z.inj_add, IH. cbn [psum fmap list_fmap mbind list_bind].
  rewrite app_nil_r, length_pos_upto by auto. done.
Qed.

(** ** The encoding of the high bits: two coefficients to a byte *)
Definition w1_poly_bytes (F : nat → Z) : list Z :=
  (λ i, F (2 * i)%nat + 16 * F (2 * i + 1)%nat) <$> seq 0 POLYW1_PACKEDBYTES.
Definition w1_encode (W1 : nat → nat → Z) : list Z := seq 0 K ≫= λ i, w1_poly_bytes (W1 i).

Lemma length_w1_poly_bytes F : length (w1_poly_bytes F) = POLYW1_PACKEDBYTES.
Proof. unfold w1_poly_bytes. by rewrite length_fmap, length_seq. Qed.

Lemma slot_map {A} (k : nat) (F : nat → A) n i :
  ((i + 1) * k <= n)%nat → take k (drop (i * k) (F <$> seq 0 n)) = F <$> seq (i * k) k.
Proof.
  intros Hi. rewrite <-fmap_drop, <-fmap_take. f_equal. rewrite drop_seq, take_seq. f_equal. lia.
Qed.

Lemma polyw1_pack_ok r F :
  length r = POLYW1_PACKEDBYTES → (∀ k, 0 <= F k < 16) → polyw1_pack r (mk_poly F) = Some (w1_poly_bytes F).
Proof.
  intros Hr HF. unfold polyw1_pack. apply wp_eq.
  eapply wp_mono; [apply (group_loop_ok _ _ _ _ _ _ (λ i, [F (2 * i)%nat + 16 * F (2 * i + 1)%nat]))|].
  - by rewrite length_mk_poly.
  - done.
  - intros i Hi. split; [|done]. unfold slot, mk_poly. change (N / 2)%nat with 128%nat in Hi.
    rewrite slot_map by (unfold N; lia). replace (i * 2)%nat with (2 * i)%nat by lia. cbn [seq fmap list_fmap].
    unfold w1_pack_group. rewrite shl32_ok by (pose proof (HF (S (2 * i))); lia). cbn [mbind option_bind].
    rewrite Nat.add_1_r. do 2 f_equal. rewrite lor_pow2_r by (pose proof (HF (2 * i)%nat); lia).
    pose proof (HF (2 * i)%nat). pose proof (HF (S (2 * i))). rewrite u8_small by (unfold in_u8; lia). lia.
  - intros r' [Hl Hs]. apply (slots_inj 128 1); [done|apply length_w1_poly_bytes|]. intros i Hi.
    rewrite Hs by done. unfold w1_poly_bytes, slot. rewrite slot_map by (unfold POLYW1_PACKEDBYTES; lia).
    rewrite Nat.mul_1_r. done.
Qed.

Lemma length_w1_encode W1 : length (w1_encode W1) = (K * POLYW1_PACKEDBYTES)%nat.
Proof. done. Qed.

Lemma w1_encode_ext F G :
  (∀ i k, (i < K)%nat → (k < N)%nat → F i k = G i k) → w1_encode F = w1_encode G.
Proof.
  intros E. unfold w1_encode. apply Forall_bind_ext, Forall_seq. intros i Hi. unfold w1_poly_bytes.
  apply list_fmap_ext. intros k x Hx%lookup_seq. unfold POLYW1_PACKEDBYTES in Hx.
  rewrite !E by (unfold N; lia). done.
Qed.

Lemma w1_encode_bytes W1 : (∀ i k, 0 <= W1 i k < 16) → bytes (w1_encode W1).
Proof.
  intros HW. apply Forall_bind, Forall_forall. intros i _. apply Forall_fmap, Forall_forall. intros k _.
  unfold compose, in_u8. pose proof (HW i (2 * k)%nat). pose proof (HW i (2 * k + 1)%nat). lia.
Qed.

Lemma polyveck_pack_w1_ok r W1 :
  (K * POLYW1_PACKEDBYTES <= length r)%nat → (∀ i k, 0 <= W1 i k < 16) →
  polyveck_pack_w1 r (mk_vec K W1) = Some (w1_encode W1 ++ drop (K * POLYW1_PACKEDBYTES) r).
Proof.
  intros Hr HW. rewrite <-(take_drop (K * POLYW1_PACKEDBYTES) r) at 1. unfold polyveck_pack_w1.
  apply (pack_vec_exact K POLYW1_PACKEDBYTES _ 0 [] _ (w1_encode W1));
    [done|rewrite length_take; lia|apply length_w1_encode|apply length_mk_vec|].
  intros i v b Hv Hb. pose proof (lookup_lt_Some _ _ _ Hv) as Hi. rewrite length_mk_vec in Hi.
  rewrite mk_vec_lookup in Hv by done. apply (inj Some) in Hv as <-. rewrite polyw1_pack_ok by done. f_equal.
  clear -Hi. unfold K in Hi. do 6 (destruct i as [|i]; [reflexivity|]). lia.
Qed.

(** The product of a matrix of transforms and a vector of polynomials, whatever
    is then done with the two vectors. *)
Lemma matvec_then `{Uninit} {B} (R : option B → Prop) A (V : nat → nat → Z) mat v t
    (k : list (list Z) → list (list Z) → option B) :
  is_matrix A mat → each_poly L (λ j a, rep Q (V j) a) v → is_vec K t →
  (∀ v' t', is_vec L v' → each_poly K (λ i a, rep INVNTT_BOUND (matvec A V i) a) t' → R (k v' t')) →
  R (v ← polyvecl_ntt v; t ← polyvec_matrix_pointwise_montgomery t mat v;
     t ← polyveck_reduce t; t ← polyveck_invntt_tomont t; k v t).
Proof.
  intros Hm Hv Ht Hk.
  destruct (proj1 (wp_exists _ _) (vec_ntt_ok L Q V v ltac:(done) ltac:(done) Hv)) as (v1 & E1 & H1).
  unfold polyvecl_ntt. rewrite E1. cbn [mbind option_bind].
  destruct (proj1 (wp_exists _ _) (matrix_product_ok A V mat v1 t Hm H1 Ht)) as (t1 & -> & H2).
  cbn [mbind option_bind].
  destruct (proj1 (wp_exists _ _) (vec_reduce_ok K (5 * Q) _ t1 ltac:(done) H2)) as (t2 & E3 & H3).
  unfold polyveck_reduce. rewrite E3. cbn [mbind option_bind].
  destruct (proj1 (wp_exists _ _) (vec_invntt_tight K _ (matvec A V) t2 (vrep_mono K 6283009 Q _ _ ltac:(done) H3)
    ltac:(done))) as (t3 & E4 & H4).
  unfold polyveck_invntt_tomont. rewrite E4. cbn [mbind option_bind]. apply Hk; [|done].
  exact (rep_vec _ _ _ _ H1).
Qed.
