(* ===== verification/MlSample.v ===== *)
(** ML-DSA-65: sampling from SHAKE streams (symmetric-shake.c, the sampling
    functions of poly.c and polyvec.c).

    The functions read their streams through the table of SHA-3 callbacks
    ([callbacks], Sha3.v).  A sampler squeezes blocks until it has found enough
    coefficients; the model gives that loop [fuel] iterations.  Proved here,
    for every table that keeps the contract [Sha3Contract]: a sampler returns
    the first acceptable candidates of its stream as soon as the fuel lets it
    see enough of them. *)
From S2P Require Import Prelude KeccakP Sha3 Sha3Api MlArith MlNtt MlNttSpec MlPoly MlPack MlKeys MlHints MlVec.

Definition CRHBYTES : nat := 64.
Definition RNDBYTES : nat := 32.
Definition TAU : nat := 49.
Definition BETA : Z := 196.
Definition SHAKE128_RATE : nat := 168.
Definition SHAKE256_RATE : nat := 136.

Definition u16 (x : Z) : Z := x mod 2 ^ 16.

Section sample.
Context (callbacks : OQS_SHA3_callbacks) {U : Uninit} (fuel : nat).

(** ** symmetric-shake.c *)

Definition dilithium_shake128_stream_init (seed : list Z) (nonce : Z) : option keccak_state :=
  let t := [u8 nonce; u8 (Z.shiftr nonce 8)] in
  state ← OQS_SHA3_shake128_inc_init callbacks;
  seed ← read seed 0 SEEDBYTES;
  state ← OQS_SHA3_shake128_inc_absorb callbacks state seed;
  state ← OQS_SHA3_shake128_inc_absorb callbacks state t;
  OQS_SHA3_shake128_inc_finalize callbacks state.

Definition dilithium_shake256_stream_init (seed : list Z) (nonce : Z) : option keccak_state :=
  let t := [u8 nonce; u8 (Z.shiftr nonce 8)] in
  state ← OQS_SHA3_shake256_inc_init callbacks;
  seed ← read seed 0 CRHBYTES;
  state ← OQS_SHA3_shake256_inc_absorb callbacks state seed;
  state ← OQS_SHA3_shake256_inc_absorb callbacks state t;
  OQS_SHA3_shake256_inc_finalize callbacks state.

(** The block-wise macros of fips202.h. *)
Definition shake128_squeezeblocks (nblocks : nat) (state : keccak_state) :=
  OQS_SHA3_shake128_inc_squeeze callbacks (nblocks * SHAKE128_RATE) state.
Definition shake256_squeezeblocks (nblocks : nat) (state : keccak_state) :=
  OQS_SHA3_shake256_inc_squeeze callbacks (nblocks * SHAKE256_RATE) state.

(** ** poly.c *)

Definition POLY_UNIFORM_NBLOCKS : nat := (768 + SHAKE128_RATE - 1) / SHAKE128_RATE.

(** [rej(a->coeffs + ctr, N - ctr, buf, buflen)]: the new count and array. *)
Definition sample_more (rej : list Z → nat → list Z → nat → option (nat * list Z))
    (ctr : nat) (a buf : list Z) (buflen : nat) : option (nat * list Z) :=
  '(n, rest) ← rej (drop ctr a) (N - ctr)%nat buf buflen;
  Some ((ctr + n)%nat, take ctr a ++ rest).

Definition poly_uniform (a seed : list Z) (nonce : Z) : option (list Z) :=
  let buflen := (POLY_UNIFORM_NBLOCKS * SHAKE128_RATE)%nat in
  let buf := uninit (POLY_UNIFORM_NBLOCKS * SHAKE128_RATE + 2) in
  state ← dilithium_shake128_stream_init seed nonce;
  '(out, state) ← shake128_squeezeblocks POLY_UNIFORM_NBLOCKS state;
  buf ← write buf 0 out;
  '(ctr, a) ← rej_uniform a N buf buflen;
  '(a, state) ← loop fuel (λ '(ctr, a, buf, buflen, state),
    if (ctr <? N)%nat then
      let off := (buflen mod 3)%nat in
      buf ← for_loop off 0 (λ i buf, b ← buf !! (buflen - off + i)%nat; store buf i b) buf;
      '(out, state) ← shake128_squeezeblocks 1 state;
      buf ← write buf off out;
      let buflen := (SHAKE128_RATE + off)%nat in
      '(ctr, a) ← sample_more rej_uniform ctr a buf buflen;
      Some (Next (ctr, a, buf, buflen, state))
    else Some (Done (a, state))) (ctr, a, buf, buflen, state);
  _ ← OQS_SHA3_shake128_inc_ctx_release callbacks state;
  Some a.

Definition POLY_UNIFORM_ETA_NBLOCKS : nat := (227 + SHAKE256_RATE - 1) / SHAKE256_RATE.

Definition poly_uniform_eta (a seed : list Z) (nonce : Z) : option (list Z) :=
  let buflen := (POLY_UNIFORM_ETA_NBLOCKS * SHAKE256_RATE)%nat in
  let buf := uninit (POLY_UNIFORM_ETA_NBLOCKS * SHAKE256_RATE) in
  state ← dilithium_shake256_stream_init seed nonce;
  '(out, state) ← shake256_squeezeblocks POLY_UNIFORM_ETA_NBLOCKS state;
  buf ← write buf 0 out;
  '(ctr, a) ← rej_eta a N buf buflen;
  '(a, state) ← loop fuel (λ '(ctr, a, buf, state),
    if (ctr <? N)%nat then
      '(out, state) ← shake256_squeezeblocks 1 state;
      buf ← write buf 0 out;
      '(ctr, a) ← sample_more rej_eta ctr a buf SHAKE256_RATE;
      Some (Next (ctr, a, buf, state))
    else Some (Done (a, state))) (ctr, a, buf, state);
  _ ← OQS_SHA3_shake256_inc_ctx_release callbacks state;
  Some a.

Definition POLY_UNIFORM_GAMMA1_NBLOCKS : nat :=
  (POLYZ_PACKEDBYTES + SHAKE256_RATE - 1) / SHAKE256_RATE.

Definition poly_uniform_gamma1 (a seed : list Z) (nonce : Z) : option (list Z) :=
  let buf := uninit (POLY_UNIFORM_GAMMA1_NBLOCKS * SHAKE256_RATE) in
  state ← dilithium_shake256_stream_init seed nonce;
  '(out, state) ← shake256_squeezeblocks POLY_UNIFORM_GAMMA1_NBLOCKS state;
  buf ← write buf 0 out;
  _ ← OQS_SHA3_shake256_inc_ctx_release callbacks state;
  b ← read buf 0 POLYZ_PACKEDBYTES;
  polyz_unpack a b.

(** [if (pos >= SHAKE256_RATE) { shake256_squeezeblocks(buf, 1, &state); pos = 0; }] *)
Definition challenge_refill (s : list Z * nat * keccak_state) : option (list Z * nat * keccak_state) :=
  let '(buf, pos, state) := s in
  if (SHAKE256_RATE <=? pos)%nat then
    '(out, state) ← shake256_squeezeblocks 1 state;
    buf ← write buf 0 out;
    Some (buf, 0%nat, state)
  else Some (buf, pos, state).

(** [do { ...; b = buf[pos++]; } while (b > i)] *)
Definition challenge_byte (i : nat) (s : list Z * nat * keccak_state)
  : option (Z * (list Z * nat * keccak_state)) :=
  loop fuel (λ s,
    '(buf, pos, state) ← challenge_refill s;
    b ← buf !! pos;
    if Z.of_nat i <? b then Some (Next (buf, S pos, state))
    else Some (Done (b, (buf, S pos, state)))) s.

(** The iteration of index [i]: [c[i] = c[b]; c[b] = 1 - 2*(signs & 1);
    signs >>= 1], with the value an [int32_t] converted from [uint64_t]. *)
Definition challenge_step (i : nat) (s : list Z * Z * (list Z * nat * keccak_state))
  : option (list Z * Z * (list Z * nat * keccak_state)) :=
  let '(c, signs, r) := s in
  '(b, r) ← challenge_byte i r;
  x ← c !! Z.to_nat b;
  c ← store c i x;
  c ← store c (Z.to_nat b) (to_i32 (u64 (1 - 2 * Z.land signs 1)));
  Some (c, Z.shiftr signs 1, r).

Definition poly_challenge (c seed : list Z) : option (list Z) :=
  let buf := uninit SHAKE256_RATE in
  state ← OQS_SHA3_shake256_inc_init callbacks;
  seed ← read seed 0 CTILDEBYTES;
  state ← OQS_SHA3_shake256_inc_absorb callbacks state seed;
  state ← OQS_SHA3_shake256_inc_finalize callbacks state;
  '(out, state) ← shake256_squeezeblocks 1 state;
  buf ← write buf 0 out;
  signs ← for_loop 8 0 (λ i signs,
    b ← buf !! i; Some (Z.lor signs (u64 (Z.shiftl b (8 * Z.of_nat i))))) 0;
  c ← fill (λ _ _, Some 0) c;
  '(c, _, (_, _, state)) ← for_loop TAU (N - TAU) challenge_step (c, signs, (buf, 8%nat, state));
  _ ← OQS_SHA3_shake256_inc_ctx_release callbacks state;
  Some c.

(** ** polyvec.c *)

(** [poly_uniform(&mat[i].vec[j], rho, (i << 8) + j)] *)
Definition polyvec_matrix_expand (mat : list (list (list Z))) (rho : list Z)
  : option (list (list (list Z))) :=
  for_loop K 0 (λ i mat,
    row ← mat !! i;
    row ← vec_loop L (λ j x, poly_uniform x rho (u16 (Z.shiftl (Z.of_nat i) 8 + Z.of_nat j))) row;
    Some (<[i := row]> mat)) mat.

(** The loops with [nonce++] pass [nonce + i]. *)
Definition polyvecl_uniform_eta (v : list (list Z)) (seed : list Z) (nonce : Z) :=
  vec_loop L (λ i x, poly_uniform_eta x seed (u16 (nonce + Z.of_nat i))) v.
Definition polyveck_uniform_eta (v : list (list Z)) (seed : list Z) (nonce : Z) :=
  vec_loop K (λ i x, poly_uniform_eta x seed (u16 (nonce + Z.of_nat i))) v.
Definition polyvecl_uniform_gamma1 (v : list (list Z)) (seed : list Z) (nonce : Z) :=
  vec_loop L (λ i x, poly_uniform_gamma1 x seed (u16 (Z.of_nat L * nonce + Z.of_nat i))) v.

End sample.

(** ** Sampling loops in general *)

(** The result of a sampler that may look at [f] portions of its stream: the
    first portion with enough candidates decides. *)
Definition finds {A} (acc : nat → list Z) (f : nat) (Res : nat → A → Prop) (m : option A) : Prop :=
  match m with
  | Some a => ∃ j, (j < f)%nat ∧ (N <= length (acc j))%nat ∧ Res j a
  | None => ∀ j, (j < f)%nat → (length (acc j) < N)%nat
  end.

Lemma finds_then {A B} acc f Res (m : option A) (k : A → option B) (Q : A → Prop) :
  wp m Q → (∀ a, Q a → finds acc f Res (k a)) → finds acc f Res (m ≫= k).
Proof. destruct m; cbn; [auto|done]. Qed.

Lemma finds_map {A B} acc f (Res : nat → A → Prop) (Res' : nat → B → Prop) m (k : A → option B) :
  finds acc f Res m → (∀ j a, Res j a → wp (k a) (Res' j)) → finds acc f Res' (m ≫= k).
Proof.
  destruct m as [a|]; cbn; [|done]. intros (j & Hj & Ha & Hr) Hk.
  destruct (proj1 (wp_exists _ _) (Hk j a Hr)) as (b & -> & Hb). by exists j.
Qed.


(** The loops:

    [Inv k s]: the state after [k] additional blocks; [acc k] are the
    acceptable candidates seen by then. *)
Section sampling_loop.
Context {S R : Type} (body : S → option (ctl S R)) (acc : nat → list Z).
Context (Inv : nat → S → Prop) (Res : nat → R → Prop).
Context (Hdone : ∀ k s, Inv k s → (N <= length (acc k))%nat →
  wp (body s) (λ c, ∃ r, c = Done r ∧ Res k r)).
Context (Hnext : ∀ k s, Inv k s → (length (acc k) < N)%nat →
  wp (body s) (λ c, ∃ s', c = Next s' ∧ Inv (Datatypes.S k) s')).

Lemma sampling_loop_from f k s :
  Inv k s →
  match loop f body s with
  | Some r => ∃ j, (j < f)%nat ∧ (N <= length (acc (k + j)))%nat ∧ Res (k + j) r
  | None => ∀ j, (j < f)%nat → (length (acc (k + j)) < N)%nat
  end.
Proof using Hdone Hnext.
  revert k s. induction f as [|f IH]; intros k s Hs; cbn [loop]; [lia|].
  destruct (decide (N <= length (acc k))%nat) as [Hge|Hlt].
  - destruct (proj1 (wp_exists _ _) (Hdone k s Hs Hge)) as (c & -> & r & -> & Hr).
    cbn [mbind option_bind]. exists 0%nat. rewrite Nat.add_0_r. split_and!; [lia|done|done].
  - destruct (proj1 (wp_exists _ _) (Hnext k s Hs ltac:(lia))) as (c & -> & s' & -> & Hs').
    cbn [mbind option_bind]. specialize (IH _ _ Hs'). destruct (loop f body s') as [r|].
    + destruct IH as (j & Hj & Ha & Hr). exists (Datatypes.S j). rewrite Nat.add_succ_r.
      split_and!; [lia|done|done].
    + intros [|j] Hj; [rewrite Nat.add_0_r; lia|]. rewrite Nat.add_succ_r. apply IH. lia.
Qed.

Lemma sampling_loop_spec f s : Inv 0%nat s → finds acc f Res (loop f body s).
Proof using Hdone Hnext. exact (sampling_loop_from f 0 s). Qed.
End sampling_loop.

(** The sample of a stream whose candidates only grow: enough of them within
    [f] rounds, or none. *)
Definition sampled (acc : nat → list Z) (f : nat) : option (list Z) :=
  if decide (0 < f ∧ N <= length (acc (f - 1)))%nat then Some (take N (acc (f - 1)%nat)) else None.

Lemma sampled_intro acc f (m : option (list Z)) :
  (∀ j k, (j <= k)%nat → ∃ l, acc k = acc j ++ l) →
  finds acc f (λ j a, a = take N (acc j)) m → m = sampled acc f.
Proof.
  intros Hg Hm. unfold sampled, finds in *. destruct m as [a|].
  - destruct Hm as (j & Hj & Ha & ->). destruct (Hg j (f - 1)%nat) as [l Hl]; [lia|].
    rewrite decide_True by (rewrite Hl, length_app; lia). f_equal. rewrite Hl. by rewrite take_app_le by lia.
  - rewrite decide_False; [done|]. intros [Hf Hn]. specialize (Hm (f - 1)%nat ltac:(lia)). lia.
Qed.

(** More rounds do not change the sample. *)
Lemma sampled_mono acc f f' a :
  (∀ j k, (j <= k)%nat → ∃ l, acc k = acc j ++ l) → (f <= f')%nat →
  sampled acc f = Some a → sampled acc f' = Some a.
Proof.
  unfold sampled. intros Hg Hf. case_decide as H; [intros [= <-]|done].
  destruct (Hg (f - 1)%nat (f' - 1)%nat) as [l Hl]; [lia|].
  rewrite decide_True by (rewrite Hl, length_app; lia). f_equal. rewrite Hl. by rewrite take_app_le by lia.
Qed.

(** ** Candidates of a growing stream *)

Definition uniform_accept (b : list Z) : list Z := filter (λ t, t < Q) (uniform_candidates b).

Lemma uniform_candidates_app n a b :
  length a = (n * 3)%nat → uniform_candidates (a ++ b) = uniform_candidates a ++ uniform_candidates b.
Proof.
  revert a. induction n as [|n IH]; intros a Hl; [by destruct a|].
  do 3 (destruct a as [|? a]; [simpl in Hl; lia|]). cbn [app uniform_candidates]. f_equal. apply IH.
  simpl in Hl. lia.
Qed.

Lemma uniform_accept_app n a b :
  length a = (n * 3)%nat → uniform_accept (a ++ b) = uniform_accept a ++ uniform_accept b.
Proof. intros. unfold uniform_accept. by rewrite (uniform_candidates_app n), list.filter_app. Qed.

Definition eta_accepted (b : list Z) : list Z := eta_accept (eta_candidates b).

Lemma eta_accepted_app a b : eta_accepted (a ++ b) = eta_accepted a ++ eta_accepted b.
Proof.
  unfold eta_accepted, eta_candidates, eta_accept. by rewrite bind_app, list.filter_app, fmap_app.
Qed.

(** A sampler's count and array: what it has accepted, in front of the rest of
    the array, continued on the next block. *)
Lemma sample_more_ok rej accept a0 done buf buflen :
  (∀ a len buf buflen, (len <= length a)%nat → (buflen <= length buf)%nat → bytes (take buflen buf) →
     let s := take len (accept (take buflen buf)) in
     rej a len buf buflen = Some (length s, s ++ drop (length s) a)) →
  length a0 = N → (buflen <= length buf)%nat → bytes (take buflen buf) →
  let acc := take N done in
  let acc' := take N (done ++ accept (take buflen buf)) in
  sample_more rej (length acc) (acc ++ drop (length acc) a0) buf buflen
  = Some (length acc', acc' ++ drop (length acc') a0).
Proof.
  intros Hrej Ha0 Hb Hbb acc acc'. unfold sample_more.
  assert (Hl : (length acc <= N)%nat) by (unfold acc; rewrite length_take; lia).
  rewrite drop_app_length, take_app_length.
  rewrite Hrej by (rewrite ?length_drop; done || lia). cbn [mbind option_bind].
  set (s := take (N - length acc) _).
  assert (E : acc' = acc ++ s).
  { unfold acc', s, acc. rewrite take_app. f_equal. f_equal. rewrite length_take. lia. }
  rewrite E, length_app, <-app_assoc, drop_drop. done.
Qed.

(** ** The streams *)

(** The input of a stream: the seed and the nonce, low byte first. *)
Definition stream_input (n : nat) (seed : list Z) (nonce : Z) : list Z :=
  take n seed ++ [u8 nonce; u8 (Z.shiftr nonce 8)].

Lemma stream_input_bytes n seed nonce : bytes seed → bytes (stream_input n seed nonce).
Proof. intros. apply Forall_app_2; [by apply Forall_take|]. repeat constructor; apply u8_range. Qed.
#[local] Hint Resolve stream_input_bytes : core.

Lemma write_0 buf out :
  (length out <= length buf)%nat → write buf 0 out = Some (out ++ drop (length out) buf).
Proof. intros. rewrite write_Some by lia. done. Qed.

Section streams.
Context (callbacks : OQS_SHA3_callbacks) {SC : Sha3Contract callbacks} {U : Uninit} (fuel : nat).
Abbreviation xof128 := (xof (o := cb_shake128_inc callbacks)).
Abbreviation xof256 := (xof (o := cb_shake256_inc callbacks)).

Lemma stream128_init_ok seed nonce :
  bytes seed → (SEEDBYTES <= length seed)%nat →
  wp (dilithium_shake128_stream_init callbacks seed nonce) (λ s,
    x_sqz (o := cb_shake128_inc callbacks) s (stream_input SEEDBYTES seed nonce) 0).
Proof using Type.
  intros Hb Hl. unfold dilithium_shake128_stream_init.
  eapply wp_then; [apply (xop_init_ok (o := cb_shake128_inc callbacks))|]. intros s Hs.
  eapply wp_step; [apply read_Some; lia|]. rewrite drop_0.
  eapply wp_then; [apply (xop_absorb_ok _ _ _ Hs); by apply Forall_take|]. intros s1 Hs1.
  eapply wp_then; [apply (xop_absorb_ok _ _ _ Hs1); repeat constructor; apply u8_range|]. intros s2 Hs2.
  apply (xop_finalize_ok _ _ Hs2).
Qed.

Lemma stream256_init_ok seed nonce :
  bytes seed → (CRHBYTES <= length seed)%nat →
  wp (dilithium_shake256_stream_init callbacks seed nonce) (λ s,
    x_sqz (o := cb_shake256_inc callbacks) s (stream_input CRHBYTES seed nonce) 0).
Proof using Type.
  intros Hb Hl. unfold dilithium_shake256_stream_init.
  eapply wp_then; [apply (xop_init_ok (o := cb_shake256_inc callbacks))|]. intros s Hs.
  eapply wp_step; [apply read_Some; lia|]. rewrite drop_0.
  eapply wp_then; [apply (xop_absorb_ok _ _ _ Hs); by apply Forall_take|]. intros s1 Hs1.
  eapply wp_then; [apply (xop_absorb_ok _ _ _ Hs1); repeat constructor; apply u8_range|]. intros s2 Hs2.
  apply (xop_finalize_ok _ _ Hs2).
Qed.

(** The stream up to [n + m], split. *)
Lemma xof_split o `{XofContract o} M n m : bytes M → xof M (n + m) = xof M n ++ drop n (xof M (n + m)).
Proof using Type. intros HM. rewrite <-(xof_prefix M (n + m) n HM) by lia. by rewrite take_drop. Qed.

Lemma length_drop_xof o `{XofContract o} M n m : bytes M → length (drop n (xof M (n + m))) = m.
Proof using Type. intros HM. rewrite length_drop, length_xof by done. lia. Qed.

(** *** Uniform polynomials *)

(** The acceptable candidates among the first blocks of the stream. *)
Definition uniform_acc (M : list Z) (k : nat) : list Z :=
  uniform_accept (xof128 M (POLY_UNIFORM_NBLOCKS * SHAKE128_RATE + k * SHAKE128_RATE)).

Lemma uniform_acc_S M k :
  bytes M → uniform_acc M (S k) = uniform_acc M k ++
    uniform_accept (drop (POLY_UNIFORM_NBLOCKS * SHAKE128_RATE + k * SHAKE128_RATE)
      (xof128 M (POLY_UNIFORM_NBLOCKS * SHAKE128_RATE + k * SHAKE128_RATE + SHAKE128_RATE))).
Proof using Type.
  intros HM. unfold uniform_acc. set (n := (POLY_UNIFORM_NBLOCKS * SHAKE128_RATE + k * SHAKE128_RATE)%nat).
  replace (POLY_UNIFORM_NBLOCKS * SHAKE128_RATE + S k * SHAKE128_RATE)%nat with (n + SHAKE128_RATE)%nat by lia.
  rewrite xof_split at 1 by done. apply (uniform_accept_app (280 + k * 56)).
  rewrite length_xof by done. unfold n. change (POLY_UNIFORM_NBLOCKS * SHAKE128_RATE)%nat with 840%nat.
  change SHAKE128_RATE with 168%nat. lia.
Qed.

Lemma growing (acc : nat → list Z) :
  (∀ k, ∃ l, acc (S k) = acc k ++ l) → ∀ j k, (j <= k)%nat → ∃ l, acc k = acc j ++ l.
Proof using Type.
  intros H j k Hjk. induction Hjk as [|k Hjk [l IH]]; [exists []; by rewrite app_nil_r|].
  destruct (H k) as [l' ->]. exists (l ++ l'). by rewrite IH, app_assoc.
Qed.

Lemma poly_uniform_ok a seed nonce :
  length a = N → bytes seed → (SEEDBYTES <= length seed)%nat →
  poly_uniform callbacks fuel a seed nonce
  = sampled (uniform_acc (stream_input SEEDBYTES seed nonce)) fuel.
Proof using Type.
  intros Ha Hb Hl. set (M := stream_input SEEDBYTES seed nonce).
  assert (HM : bytes M) by (by apply stream_input_bytes).
  apply sampled_intro; [apply growing; intros k; eexists; by apply uniform_acc_S|].
  unfold poly_uniform. set (n0 := (POLY_UNIFORM_NBLOCKS * SHAKE128_RATE)%nat).
  assert (Hn0 : (SHAKE128_RATE <= n0)%nat) by (by apply Nat.leb_le).
  eapply finds_then; [by apply stream128_init_ok|]. intros s Hs.
  eapply finds_then; [apply (xop_squeeze_ok _ _ _ n0 Hs)|]. intros [out s1] [-> Hs1].
  rewrite drop_0, Nat.add_0_l in *. fold M in Hs1 |- *.
  eapply finds_then; [apply wp_eq, write_0; rewrite length_uninit, length_xof by done; lia|].
  intros buf ->. rewrite length_xof by done. set (tl := drop n0 _).
  assert (Htl : length tl = 2%nat) by (unfold tl; rewrite length_drop, length_uninit; lia).
  assert (Hxl : length (xof128 M n0) = n0) by (by apply length_xof).
  assert (Hx : take n0 (xof128 M n0 ++ tl) = xof128 M n0) by (by rewrite take_app_le, take_ge by lia).
  assert (E0 : uniform_acc M 0 = uniform_accept (xof128 M n0)).
  { unfold uniform_acc. fold n0. by rewrite Nat.mul_0_l, Nat.add_0_r. }
  eapply finds_then.
  { apply wp_eq. apply rej_uniform_ok; [lia|rewrite length_app, length_xof by done; lia|].
    rewrite Hx. by apply xof_bytes. }
  intros [ctr a1] [= -> ->]. rewrite Hx.
  eapply (finds_map _ _ (λ k '(a', s'), a' = take N (uniform_acc M k) ∧ x_live (o := cb_shake128_inc callbacks) s')).
  2:{ intros k [a' s'] [-> Hs']. eapply wp_then; [by apply xop_release_ok|]. done. }
  eapply (sampling_loop_spec _ _ (λ k '(ctr, a', buf, buflen, s'),
    x_sqz (o := cb_shake128_inc callbacks) s' M (n0 + k * SHAKE128_RATE) ∧ length buf = (n0 + 2)%nat ∧
    (buflen mod 3 = 0)%nat ∧ ctr = length (take N (uniform_acc M k)) ∧
    a' = take N (uniform_acc M k) ++ drop ctr a)).
  - intros k [[[[ctr a'] buf] buflen] s'] (Hq & _ & _ & -> & ->) Hge.
    rewrite length_take, Nat.min_l, Nat.ltb_irrefl by lia. cbn [wp]. eexists. split; [done|].
    rewrite drop_ge, app_nil_r by lia. split; [done|]. by eapply x_sqz_live.
  - intros k [[[[ctr a'] buf] buflen] s'] (Hq & Hbuf & Hmod & -> & ->) Hlt.
    rewrite (proj2 (Nat.ltb_lt _ _)) by (rewrite length_take; lia). cbv zeta. rewrite Hmod. cbn [for_loop].
    eapply wp_step; [done|]. eapply wp_then; [apply (xop_squeeze_ok _ _ _ SHAKE128_RATE Hq)|].
    intros [out s2] [Eo Hs2]. set (m := (n0 + k * SHAKE128_RATE)%nat) in *.
    assert (Hol : length out = SHAKE128_RATE) by (rewrite Eo; by apply length_drop_xof).
    assert (Hob : bytes out) by (rewrite Eo; by apply Forall_drop, xof_bytes).
    eapply wp_step; [apply write_0; rewrite Hol, Hbuf; lia|].
    rewrite Nat.add_0_r. set (buf' := out ++ _).
    assert (Ht : take SHAKE128_RATE buf' = out) by (unfold buf'; rewrite <-Hol; apply take_app_length).
    assert (Hbl : length buf' = (n0 + 2)%nat).
    { unfold buf'. rewrite length_app, length_drop, Hol, Hbuf. lia. }
    eapply wp_step.
    { apply (sample_more_ok rej_uniform uniform_accept a (uniform_acc M k) buf' SHAKE128_RATE);
        [exact rej_uniform_ok|done|rewrite Hbl; lia|by rewrite Ht]. }
    cbn [wp]. eexists. split; [done|]. rewrite Ht. split_and!.
    + replace (n0 + S k * SHAKE128_RATE)%nat with (m + SHAKE128_RATE)%nat by (unfold m; lia). exact Hs2.
    + done.
    + done.
    + rewrite uniform_acc_S by done. fold n0 m. by rewrite <-Eo.
    + rewrite uniform_acc_S by done. fold n0 m. by rewrite <-Eo.
  - rewrite Nat.mul_0_l, Nat.add_0_r, E0. split_and!; [done| |done|done|done].
    rewrite length_app, length_xof by done. lia.
Qed.

(** *** Short polynomials *)

Definition eta_acc (M : list Z) (k : nat) : list Z :=
  eta_accepted (xof256 M (POLY_UNIFORM_ETA_NBLOCKS * SHAKE256_RATE + k * SHAKE256_RATE)).

Lemma eta_acc_S M k :
  bytes M → eta_acc M (S k) = eta_acc M k ++
    eta_accepted (drop (POLY_UNIFORM_ETA_NBLOCKS * SHAKE256_RATE + k * SHAKE256_RATE)
      (xof256 M (POLY_UNIFORM_ETA_NBLOCKS * SHAKE256_RATE + k * SHAKE256_RATE + SHAKE256_RATE))).
Proof using Type.
  intros HM. unfold eta_acc. set (n := (POLY_UNIFORM_ETA_NBLOCKS * SHAKE256_RATE + k * SHAKE256_RATE)%nat).
  replace (POLY_UNIFORM_ETA_NBLOCKS * SHAKE256_RATE + S k * SHAKE256_RATE)%nat with (n + SHAKE256_RATE)%nat by lia.
  rewrite xof_split at 1 by done. apply eta_accepted_app.
Qed.

Lemma poly_uniform_eta_ok a seed nonce :
  length a = N → bytes seed → (CRHBYTES <= length seed)%nat →
  poly_uniform_eta callbacks fuel a seed nonce
  = sampled (eta_acc (stream_input CRHBYTES seed nonce)) fuel.
Proof using Type.
  intros Ha Hb Hl. set (M := stream_input CRHBYTES seed nonce).
  assert (HM : bytes M) by (by apply stream_input_bytes).
  apply sampled_intro; [apply growing; intros k; eexists; by apply eta_acc_S|].
  unfold poly_uniform_eta. set (n0 := (POLY_UNIFORM_ETA_NBLOCKS * SHAKE256_RATE)%nat).
  assert (Hn0 : (SHAKE256_RATE <= n0)%nat) by (by apply Nat.leb_le).
  eapply finds_then; [by apply stream256_init_ok|]. intros s Hs.
  eapply finds_then; [apply (xop_squeeze_ok _ _ _ n0 Hs)|]. intros [out s1] [-> Hs1].
  rewrite drop_0, Nat.add_0_l in *. fold M in Hs1 |- *.
  assert (Hxl : length (xof256 M n0) = n0) by (by apply length_xof).
  eapply finds_then; [apply wp_eq, write_0; rewrite length_uninit; lia|].
  intros buf ->. rewrite Hxl, drop_ge, app_nil_r by (rewrite length_uninit; lia).
  assert (Hx : take n0 (xof256 M n0) = xof256 M n0) by (apply take_ge; lia).
  assert (E0 : eta_acc M 0 = eta_accepted (xof256 M n0)).
  { unfold eta_acc. fold n0. by rewrite Nat.mul_0_l, Nat.add_0_r. }
  eapply finds_then.
  { apply wp_eq. apply rej_eta_ok; [lia|lia|]. rewrite Hx. by apply xof_bytes. }
  intros [ctr a1] [= -> ->]. rewrite Hx.
  eapply (finds_map _ _ (λ k '(a', s'), a' = take N (eta_acc M k) ∧ x_live (o := cb_shake256_inc callbacks) s')).
  2:{ intros k [a' s'] [-> Hs']. eapply wp_then; [by apply xop_release_ok|]. done. }
  eapply (sampling_loop_spec _ _ (λ k '(ctr, a', buf, s'),
    x_sqz (o := cb_shake256_inc callbacks) s' M (n0 + k * SHAKE256_RATE) ∧ length buf = n0 ∧
    ctr = length (take N (eta_acc M k)) ∧ a' = take N (eta_acc M k) ++ drop ctr a)).
  - intros k [[[ctr a'] buf] s'] (Hq & _ & -> & ->) Hge.
    rewrite length_take, Nat.min_l, Nat.ltb_irrefl by lia. cbn [wp]. eexists. split; [done|].
    rewrite drop_ge, app_nil_r by lia. split; [done|]. by eapply x_sqz_live.
  - intros k [[[ctr a'] buf] s'] (Hq & Hbuf & -> & ->) Hlt.
    rewrite (proj2 (Nat.ltb_lt _ _)) by (rewrite length_take; lia).
    eapply wp_then; [apply (xop_squeeze_ok _ _ _ SHAKE256_RATE Hq)|].
    intros [out s2] [Eo Hs2]. set (m := (n0 + k * SHAKE256_RATE)%nat) in *.
    assert (Hol : length out = SHAKE256_RATE) by (rewrite Eo; by apply length_drop_xof).
    assert (Hob : bytes out) by (rewrite Eo; by apply Forall_drop, xof_bytes).
    eapply wp_step; [apply write_0; lia|]. set (buf' := out ++ _).
    assert (Ht : take SHAKE256_RATE buf' = out) by (unfold buf'; rewrite <-Hol; apply take_app_length).
    assert (Hbl : length buf' = n0) by (unfold buf'; rewrite length_app, length_drop; lia).
    eapply wp_step.
    { apply (sample_more_ok rej_eta eta_accepted a (eta_acc M k) buf' SHAKE256_RATE);
        [exact rej_eta_ok|done|lia|by rewrite Ht]. }
    cbn [wp]. eexists. split; [done|]. rewrite Ht. split_and!.
    + replace (n0 + S k * SHAKE256_RATE)%nat with (m + SHAKE256_RATE)%nat by (unfold m; lia). exact Hs2.
    + done.
    + rewrite eta_acc_S by done. fold n0 m. by rewrite <-Eo.
    + rewrite eta_acc_S by done. fold n0 m. by rewrite <-Eo.
  - rewrite Nat.mul_0_l, Nat.add_0_r, E0. split_and!; done.
Qed.

(** *** Masking polynomials *)

Lemma poly_uniform_gamma1_ok a seed nonce :
  length a = N → bytes seed → (CRHBYTES <= length seed)%nat →
  poly_uniform_gamma1 callbacks a seed nonce
  = polyz_unpack a (xof256 (stream_input CRHBYTES seed nonce) POLYZ_PACKEDBYTES).
Proof using Type.
  intros Ha Hb Hl. set (M := stream_input CRHBYTES seed nonce).
  assert (HM : bytes M) by (by apply stream_input_bytes).
  unfold poly_uniform_gamma1. set (n0 := (POLY_UNIFORM_GAMMA1_NBLOCKS * SHAKE256_RATE)%nat).
  assert (Hn0 : (POLYZ_PACKEDBYTES <= n0)%nat) by (by apply Nat.leb_le).
  destruct (proj1 (wp_exists _ _) (stream256_init_ok seed nonce Hb Hl)) as (s & -> & Hs).
  destruct (proj1 (wp_exists _ _) (xop_squeeze_ok _ _ _ n0 Hs)) as ([out s1] & Eq & -> & Hs1).
  cbn [mbind option_bind]. unfold shake256_squeezeblocks, OQS_SHA3_shake256_inc_squeeze. fold n0.
  rewrite Eq. cbn [mbind option_bind]. rewrite drop_0, Nat.add_0_l. fold M.
  assert (Hxl : length (xof256 M n0) = n0) by (by apply length_xof).
  rewrite write_0 by (rewrite length_uninit; lia). cbn [mbind option_bind].
  rewrite Hxl, drop_ge, app_nil_r by (rewrite length_uninit; lia).
  destruct (proj1 (wp_exists _ _) (xop_release_ok s1 (x_sqz_live _ _ _ Hs1))) as (s2 & Er & _).
  unfold OQS_SHA3_shake256_inc_ctx_release. rewrite Er. cbn [mbind option_bind].
  rewrite read_Some by lia. cbn [mbind option_bind]. rewrite drop_0.
  by rewrite xof_prefix by done.
Qed.

Lemma poly_uniform_gamma1_range a seed nonce :
  length a = N → bytes seed → (CRHBYTES <= length seed)%nat →
  wp (poly_uniform_gamma1 callbacks a seed nonce) (λ y,
    length y = N ∧ Forall (λ x, - GAMMA1 < x <= GAMMA1) y).
Proof using SC.
  intros Ha Hb Hl. rewrite poly_uniform_gamma1_ok by done.
  assert (HM : bytes (stream_input CRHBYTES seed nonce)) by (by apply stream_input_bytes).
  eapply wp_mono; [apply (poly_roundtrip _ _ 128 5 2 _ _ a _ z_inverse' (length_xof _ _ HM) Ha (xof_bytes _ _ HM))|].
  intros y (Hy & Hr & _). done.
Qed.

(** *** Challenges *)

(** SampleInBall on the bytes of a stream. *)
Fixpoint next_byte (i : Z) (bs : list Z) : option (Z * list Z) :=
  match bs with
  | [] => None
  | b :: bs => if i <? b then next_byte i bs else Some (b, bs)
  end.

Definition ball_step (i : nat) (s : list Z * Z * list Z) : option (list Z * Z * list Z) :=
  let '(c, signs, bs) := s in
  '(b, bs) ← next_byte (Z.of_nat i) bs;
  x ← c !! Z.to_nat b;
  Some (<[Z.to_nat b := 1 - 2 * (signs mod 2)]> (<[i := x]> c), signs / 2, bs).

Definition sample_in_ball (bs : list Z) : option (list Z) :=
  '(c, _, _) ← for_loop TAU (N - TAU) ball_step (replicate N 0, le_val (take 8 bs), drop 8 bs);
  Some c.

(** The same for loops that look at no more than [f] bytes for a position: FIPS 204 allows
    an implementation to bound them. *)
Fixpoint next_byte_within (f : nat) (i : Z) (bs : list Z) : option (Z * list Z) :=
  match f, bs with
  | S f, b :: bs => if i <? b then next_byte_within f i bs else Some (b, bs)
  | _, _ => None
  end.

Definition ball_step_within (f i : nat) (s : list Z * Z * list Z) : option (list Z * Z * list Z) :=
  let '(c, signs, bs) := s in
  '(b, bs) ← next_byte_within f (Z.of_nat i) bs;
  x ← c !! Z.to_nat b;
  Some (<[Z.to_nat b := 1 - 2 * (signs mod 2)]> (<[i := x]> c), signs / 2, bs).

Definition sample_in_ball_within (f : nat) (bs : list Z) : option (list Z) :=
  '(c, _, _) ← for_loop TAU (N - TAU) (ball_step_within f) (replicate N 0, le_val (take 8 bs), drop 8 bs);
  Some c.

Lemma next_byte_within_sound f i bs r : next_byte_within f i bs = Some r → next_byte i bs = Some r.
Proof using Type.
  revert bs. induction f as [|f IH]; intros [|b bs]; [done..|]. cbn [next_byte_within next_byte].
  destruct (i <? b); [apply IH|done].
Qed.

Lemma ball_step_within_sound f i s r : ball_step_within f i s = Some r → ball_step i s = Some r.
Proof using Type.
  destruct s as [[c g] bs]. unfold ball_step_within, ball_step.
  destruct (next_byte_within f _ bs) as [[b bs']|] eqn:E; [|done]. by rewrite (next_byte_within_sound _ _ _ _ E).
Qed.

Lemma sample_in_ball_within_sound f bs c : sample_in_ball_within f bs = Some c → sample_in_ball bs = Some c.
Proof using Type.
  unfold sample_in_ball_within, sample_in_ball. destruct (for_loop _ _ (ball_step_within f) _) as [s|] eqn:E; [|done].
  assert (W : wp (for_loop TAU (N - TAU) ball_step (replicate N 0, le_val (take 8 bs), drop 8 bs)) (eq s)).
  { eapply for_loop_sim; [exact E|done|]. intros i a ? a1 _ <- Ea. by rewrite (ball_step_within_sound _ _ _ _ Ea). }
  destruct (for_loop _ _ ball_step _) as [s'|]; [|done]. by rewrite <-W.
Qed.

Section challenge.
Context (M : list Z) (HM : bytes M).

(** The next byte that the reader of the stream delivers is number [p]. *)
Definition reader (p : nat) (s : list Z * nat * keccak_state) : Prop :=
  let '(buf, pos, state) := s in
  ∃ n, x_sqz (o := cb_shake256_inc callbacks) state M (n + SHAKE256_RATE) ∧
    buf = drop n (xof256 M (n + SHAKE256_RATE)) ∧ (pos <= SHAKE256_RATE)%nat ∧ p = (n + pos)%nat.

Lemma xof_lookup p n T : (p < n)%nat → (p < T)%nat → xof256 M n !! p = xof256 M T !! p.
Proof using HM.
  assert (H : ∀ n T, (p < n)%nat → (n <= T)%nat → xof256 M n !! p = xof256 M T !! p).
  { intros n' T' Hp Hn. rewrite <-(xof_prefix M T' n' HM Hn). by rewrite lookup_take_lt. }
  intros Hn HT. destruct (decide (n <= T)%nat); [by apply H|]. symmetry. apply H; lia.
Qed.

(** After the refill, the byte number [p] is at the position of the reader. *)
Lemma refill_ok p s :
  reader p s → wp (challenge_refill callbacks s) (λ '(buf, pos, st),
    reader (S p) (buf, S pos, st) ∧ ∃ x, buf !! pos = Some x ∧ ∀ T, (p < T)%nat → xof256 M T !! p = Some x).
Proof using HM.
  destruct s as [[buf pos] st]. intros (n & Hq & Hbuf & Hpos & ->). unfold challenge_refill.
  assert (Hbl : length buf = SHAKE256_RATE) by (rewrite Hbuf; by apply length_drop_xof).
  destruct (Nat.leb_spec SHAKE256_RATE pos) as [Hge|Hlt].
  - assert (pos = SHAKE256_RATE) as -> by lia. set (n' := (n + SHAKE256_RATE)%nat) in *.
    eapply wp_then; [apply (xop_squeeze_ok _ _ _ (1 * SHAKE256_RATE) Hq)|]. intros [out st'] [Eo Hq'].
    rewrite Nat.mul_1_l in *. assert (Hol : length out = SHAKE256_RATE) by (rewrite Eo; by apply length_drop_xof).
    eapply wp_step; [apply write_0; lia|]. rewrite (drop_ge buf), app_nil_r by lia. cbn [wp]. split.
    + exists n'. split_and!; [done|done|unfold SHAKE256_RATE; lia|lia].
    + destruct (lookup_lt_is_Some_2 out 0) as [x Hx]; [rewrite Hol; unfold SHAKE256_RATE; lia|].
      exists x. split; [done|]. intros T HT. rewrite <-Hx, Eo, lookup_drop, Nat.add_0_r.
      apply xof_lookup; [done|unfold SHAKE256_RATE; lia].
  - cbn [wp]. split; [exists n; split_and!; [done|done|lia|lia]|].
    destruct (lookup_lt_is_Some_2 buf pos) as [x Hx]; [lia|]. exists x. split; [done|].
    intros T HT. rewrite <-Hx, Hbuf, lookup_drop. apply xof_lookup; lia.
Qed.

Lemma challenge_byte_ok T i f p s b bs :
  reader p s → (T - p < f)%nat → next_byte (Z.of_nat i) (drop p (xof256 M T)) = Some (b, bs) →
  wp (challenge_byte callbacks f i s) (λ '(b', s'),
    b' = b ∧ ∃ p', bs = drop p' (xof256 M T) ∧ reader p' s').
Proof using HM.
  unfold challenge_byte. revert p s. induction f as [|f IH]; intros p s Hs Hf Hb; [lia|].
  assert (Hp : (p < T)%nat).
  { apply Nat.nle_gt. intros Hge. rewrite drop_ge in Hb; [done|]. rewrite length_xof by done. lia. }
  cbn [loop]. eapply wp_bind, wp_then; [exact (refill_ok p s Hs)|].
  intros [[buf' pos'] st'] (Hs1 & x & Hbx & Hx). specialize (Hx T Hp). rewrite (drop_S _ _ _ Hx) in Hb.
  cbn [next_byte] in Hb. rewrite Hbx. cbn [mbind option_bind].
  destruct (Z.of_nat i <? x); cbn [wp mbind option_bind].
  - apply (IH (S p)); [done|lia|done].
  - injection Hb as <- <-. split; [done|]. by exists (S p).
Qed.

(** Whatever the fuel, a byte that is delivered is the next one of the stream. *)
Lemma challenge_byte_sound i f p s :
  reader p s → wlp (challenge_byte callbacks f i s) (λ '(b, s'), ∃ p', (p < p')%nat ∧ reader p' s' ∧
    ∀ T, (p' <= T)%nat → next_byte (Z.of_nat i) (drop p (xof256 M T)) = Some (b, drop p' (xof256 M T))).
Proof using HM.
  intros Hs. destruct (challenge_byte callbacks f i s) as [[b s']|] eqn:E; [|done].
  revert p s Hs E. unfold challenge_byte. induction f as [|f IH]; intros p s Hs E; [done|].
  cbn [loop] in E. destruct (proj1 (wp_exists _ _) (refill_ok p s Hs)) as ([[buf' pos'] st'] & Er & Hs1 & x & Hbx & Hx).
  rewrite Er in E. cbn [mbind option_bind] in E. rewrite Hbx in E. cbn [mbind option_bind] in E.
  assert (Hn : ∀ T, (p < T)%nat → next_byte (Z.of_nat i) (drop p (xof256 M T)) =
    if Z.of_nat i <? x then next_byte (Z.of_nat i) (drop (S p) (xof256 M T)) else Some (x, drop (S p) (xof256 M T))).
  { intros T HT. by rewrite (drop_S _ _ _ (Hx T HT)). }
  destruct (Z.of_nat i <? x).
  - destruct (IH (S p) (buf', S pos', st') Hs1 E) as (p' & Hp' & Hr' & HT).
    exists p'. split; [lia|]. split; [done|]. intros T Hle. rewrite Hn by lia. by apply HT.
  - injection E as <- <-. exists (S p). split; [lia|]. split; [done|]. intros T Hle. apply Hn. lia.
Qed.

(** The loop for a byte, exactly: as many bytes as the fuel allows are looked at. *)
Lemma challenge_byte_exact T i f p s :
  reader p s → (p + f <= T)%nat →
  option_Forall2 (λ '(b, bs) '(b', s'), b' = b ∧ ∃ p', (p' <= p + f)%nat ∧ bs = drop p' (xof256 M T) ∧ reader p' s')
    (next_byte_within f (Z.of_nat i) (drop p (xof256 M T))) (challenge_byte callbacks f i s).
Proof using HM.
  unfold challenge_byte. revert p s. induction f as [|f IH]; intros p s Hs Hf; [constructor|].
  destruct (proj1 (wp_exists _ _) (refill_ok p s Hs)) as ([[buf' pos'] st'] & Er & Hs1 & x & Hbx & Hx).
  cbn [loop]. rewrite Er. cbn [mbind option_bind]. rewrite Hbx. cbn [mbind option_bind].
  rewrite (drop_S _ _ _ (Hx T ltac:(lia))). cbn [next_byte_within]. destruct (Z.of_nat i <? x); cbn [mbind option_bind].
  - rewrite <-Nat.add_succ_comm. apply IH; [done|lia].
  - constructor. split; [done|]. exists (S p). split_and!; [lia|done|done].
Qed.

(** The sign bit as the code computes it. *)
Lemma challenge_sign signs : to_i32 (u64 (1 - 2 * Z.land signs 1)) = 1 - 2 * (signs mod 2).
Proof using Type.
  rewrite land_1. destruct (Z.mod_pos_bound signs 2) as [H0 H1]; [lia|].
  assert (C : signs mod 2 = 0 ∨ signs mod 2 = 1) by lia. by destruct C as [-> | ->].
Qed.

Lemma next_byte_range i bs b bs' :
  bytes bs → next_byte i bs = Some (b, bs') → 0 <= b <= i ∧ bytes bs'.
Proof using Type.
  induction 1 as [|x bs [Hx _] Hbs IH]; cbn [next_byte]; [done|].
  destruct (Z.ltb_spec i x); [done|]. intros [= <- <-]. split; [lia|done].
Qed.

Lemma challenge_step_ok T i c signs p r c' signs' bs' :
  length c = N → (i < N)%nat → reader p r → (T - p < fuel)%nat →
  ball_step i (c, signs, drop p (xof256 M T)) = Some (c', signs', bs') →
  wp (challenge_step callbacks fuel i (c, signs, r)) (λ '(c'', s'', r''),
    c'' = c' ∧ s'' = signs' ∧ length c'' = N ∧ ∃ p', bs' = drop p' (xof256 M T) ∧ reader p' r'').
Proof using HM.
  intros Hc Hi Hr Hf Hb. cbn [ball_step] in Hb.
  destruct (next_byte _ _) as [[b bs]|] eqn:En; [|done]. cbn [mbind option_bind] in Hb.
  destruct (next_byte_range _ _ _ _ ltac:(by apply Forall_drop, xof_bytes) En) as [Hbi _].
  destruct (c !! Z.to_nat b) as [x|] eqn:Ex; [|done]. injection Hb as <- <- <-.
  unfold challenge_step. eapply wp_then; [by eapply challenge_byte_ok|].
  intros [b' r'] (-> & p' & -> & Hr'). rewrite Ex. cbn [mbind option_bind].
  rewrite store_ok by lia. cbn [mbind option_bind]. rewrite store_ok by (rewrite length_insert; lia).
  cbn [mbind option_bind wp]. rewrite challenge_sign, !length_insert.
  split_and!; [done|by rewrite Z.shiftr_div_pow2 by lia|done|by exists p'].
Qed.

Lemma challenge_step_exact T i c signs p r :
  length c = N → (i < N)%nat → reader p r → (p + fuel <= T)%nat →
  option_Forall2 (λ '(c, signs, bs) '(c', signs', r'), c' = c ∧ signs' = signs ∧ length c' = N ∧
      ∃ p', (p' <= p + fuel)%nat ∧ bs = drop p' (xof256 M T) ∧ reader p' r')
    (ball_step_within fuel i (c, signs, drop p (xof256 M T))) (challenge_step callbacks fuel i (c, signs, r)).
Proof using HM.
  intros Hc Hi Hr HT. unfold challenge_step, ball_step_within.
  pose proof (challenge_byte_exact T i fuel p r Hr HT) as H.
  destruct (next_byte_within fuel _ _) as [[b bs]|] eqn:En; inversion H as [? [b' r'] Hb|]; subst; [|constructor].
  destruct Hb as (-> & p' & Hp' & -> & Hr'). cbn [mbind option_bind]. apply next_byte_within_sound in En.
  apply next_byte_range in En as [Hbi _]; [|by apply Forall_drop, xof_bytes].
  destruct (lookup_lt_is_Some_2 c (Z.to_nat b)) as [x Hx]; [lia|]. rewrite Hx. cbn [mbind option_bind].
  rewrite store_ok by lia. cbn [mbind option_bind]. rewrite store_ok by (rewrite length_insert; lia).
  cbn [mbind option_bind]. constructor. rewrite challenge_sign, !length_insert.
  split_and!; [done|by rewrite Z.shiftr_div_pow2 by lia|done|by exists p'].
Qed.

(** Whatever the fuel, a step that returns is that of SampleInBall on every
    prefix of the stream that reaches the reader. *)
Lemma challenge_step_sound i c signs p r :
  length c = N → (i < N)%nat → reader p r →
  wlp (challenge_step callbacks fuel i (c, signs, r)) (λ '(c', signs', r'), length c' = N ∧
    ∃ p', (p < p')%nat ∧ reader p' r' ∧ ∀ T, (p' <= T)%nat →
      ball_step i (c, signs, drop p (xof256 M T)) = Some (c', signs', drop p' (xof256 M T))).
Proof using HM.
  intros Hc Hi Hr. unfold challenge_step. eapply wlp_then; [exact (challenge_byte_sound i fuel p r Hr)|].
  intros [b r'] (p' & Hp & Hr' & HT).
  assert (Hb : 0 <= b <= Z.of_nat i).
  { eapply (next_byte_range (Z.of_nat i) (drop p (xof256 M p'))); [by apply Forall_drop, xof_bytes|by apply HT]. }
  destruct (lookup_lt_is_Some_2 c (Z.to_nat b)) as [x Hx]; [lia|]. rewrite Hx. cbn [mbind option_bind].
  rewrite store_ok by lia. cbn [mbind option_bind]. rewrite store_ok by (rewrite length_insert; lia).
  cbn [mbind option_bind wlp]. split; [by rewrite !length_insert|]. exists p'. split; [done|]. split; [done|].
  intros T Hle. unfold ball_step. rewrite (HT T Hle). cbn [mbind option_bind]. rewrite Hx. cbn [mbind option_bind].
  by rewrite challenge_sign, Z.shiftr_div_pow2 by lia.
Qed.
End challenge.

(** *** What a challenge is: coefficients 0, 1 and -1, of which [n] not 0 *)

Abbreviation tern := (λ x : Z, x = -1 ∨ x = 0 ∨ x = 1).
Definition nz (c : list Z) : nat := length (filter (λ x, x ≠ 0) c).

(** The state before index [i]. *)
Definition ball (i : nat) (c : list Z) : Prop :=
  length c = N ∧ Forall tern c ∧ nz c = (i - (N - TAU))%nat ∧
  ∀ j, (i <= j < N)%nat → c !! j = Some 0.

Lemma nz_insert c i x y :
  c !! i = Some y →
  (nz (<[i := x]> c) + (if decide (y ≠ 0%Z) then 1 else 0) = nz c + (if decide (x ≠ 0%Z) then 1 else 0))%nat.
Proof using Type.
  intros Hy. pose proof (lookup_lt_Some _ _ _ Hy) as Hl. unfold nz.
  rewrite insert_take_drop by done. rewrite <-(take_drop_middle c i y Hy) at 3.
  rewrite !list.filter_app, !length_app, !filter_cons.
  destruct (decide (x ≠ 0)), (decide (y ≠ 0)); simpl; lia.
Qed.

Lemma ball_insert i c b x v :
  ball i c → (N - TAU <= i < N)%nat → (b <= i)%nat → c !! b = Some x → v = 1 ∨ v = -1 →
  ball (S i) (<[b := v]> (<[i := x]> c)).
Proof using Type.
  intros (Hl & Ht & Hn & Hz) Hi Hb Hx Hv. pose proof (Forall_lookup_1 _ _ _ _ Ht Hx) as Tx. cbn beta in Tx.
  split_and!.
  - by rewrite !length_insert.
  - apply Forall_insert; [by apply Forall_insert|]. lia.
  - pose proof (nz_insert c i x 0 (Hz i ltac:(lia))) as E1.
    assert (Hx' : <[i := x]> c !! b = Some x).
    { destruct (decide (b = i)) as [->|]; [by rewrite list_lookup_insert_eq by lia|].
      by rewrite list_lookup_insert_ne by done. }
    pose proof (nz_insert _ b v x Hx') as E2.
    rewrite decide_False in E1 by (intros H; by apply H). rewrite (decide_True (P := v ≠ 0)) in E2 by lia. lia.
  - intros j Hj. rewrite !list_lookup_insert_ne by lia. apply Hz. lia.
Qed.

Lemma ball_start : ball (N - TAU) (replicate N 0).
Proof using Type.
  split_and!; [apply length_replicate|apply Forall_replicate; lia|by vm_compute|].
  intros j Hj. apply lookup_replicate_2. lia.
Qed.

Lemma sign_cases signs : 1 - 2 * (signs mod 2) = 1 ∨ 1 - 2 * (signs mod 2) = -1.
Proof using Type. pose proof (Z.mod_pos_bound signs 2). lia. Qed.

(** The start of [poly_challenge]: signs and the reader. *)
Lemma signs_ok buf :
  bytes buf → (8 <= length buf)%nat →
  for_loop 8 0 (λ i signs, b ← buf !! i; Some (Z.lor signs (u64 (Z.shiftl b (8 * Z.of_nat i))))) 0
  = Some (le_val (take 8 buf)).
Proof using Type.
  intros Hb Hl. apply wp_eq. apply (wp_for (λ i s, s = le_val (take i buf))); [done| |done].
  intros i s Hi ->. destruct (lookup_lt_is_Some_2 buf i) as [x Hx]; [lia|].
  pose proof (Forall_lookup_1 _ _ _ _ Hb Hx) as Bx. eapply wp_step; [exact Hx|]. cbn [wp].
  assert (Hlt : length (take i buf) = i) by (rewrite length_take; lia).
  pose proof (le_val_range (take i buf) ltac:(by apply Forall_take)) as Hv. rewrite Hlt in Hv.
  rewrite (take_S_r _ _ _ Hx), le_val_app, Hlt. cbn [le_val].
  assert (Hp : 0 < 2 ^ (8 * Z.of_nat i) <= 2 ^ 56).
  { split; [apply Z.pow_pos_nonneg; lia|apply Z.pow_le_mono_r; lia]. }
  rewrite Z.shiftl_mul_pow2, u64_small by (unfold in_u64, in_u8 in *; nia).
  rewrite lor_pow2_r by lia. lia.
Qed.

(** The first block of [poly_challenge]: the buffer and the stream. *)
Definition challenge_start (seed : list Z) : option (list Z * keccak_state) :=
  state ← OQS_SHA3_shake256_inc_init callbacks;
  seed ← read seed 0 CTILDEBYTES;
  state ← OQS_SHA3_shake256_inc_absorb callbacks state seed;
  state ← OQS_SHA3_shake256_inc_finalize callbacks state;
  '(out, state) ← shake256_squeezeblocks callbacks 1 state;
  buf ← write (uninit SHAKE256_RATE) 0 out;
  Some (buf, state).

Lemma challenge_open seed :
  bytes (take CTILDEBYTES seed) → (CTILDEBYTES <= length seed)%nat →
  wp (challenge_start seed) (λ '(buf, state),
    buf = xof256 (take CTILDEBYTES seed) SHAKE256_RATE ∧
    reader (take CTILDEBYTES seed) 8 (buf, 8%nat, state)).
Proof using SC.
  intros HM Hl.
  eapply wp_then; [apply (xop_init_ok (o := cb_shake256_inc callbacks))|]. intros s Hs.
  eapply wp_step; [apply read_Some; lia|]. rewrite drop_0.
  eapply wp_then; [apply (xop_absorb_ok _ _ _ Hs HM)|]. intros s1 Hs1.
  eapply wp_then; [apply (xop_finalize_ok _ _ Hs1)|]. intros s2 Hs2.
  eapply wp_then; [apply (xop_squeeze_ok _ _ _ (1 * SHAKE256_RATE) Hs2)|]. intros [out s3] [-> Hs3].
  rewrite Nat.mul_1_l, Nat.add_0_l, drop_0, app_nil_l in *.
  assert (Hxl : length (xof256 (take CTILDEBYTES seed) SHAKE256_RATE) = SHAKE256_RATE) by (by apply length_xof).
  eapply wp_step; [apply write_0; rewrite length_uninit; lia|].
  rewrite drop_ge, app_nil_r by (rewrite length_uninit; lia). cbn [wp]. split; [done|].
  exists 0%nat. rewrite drop_0. split_and!; [done|done|unfold SHAKE256_RATE; lia|done].
Qed.

Lemma poly_challenge_eq c seed :
  length c = N → bytes (take CTILDEBYTES seed) → (CTILDEBYTES <= length seed)%nat →
  ∃ buf state,
    buf = xof256 (take CTILDEBYTES seed) SHAKE256_RATE ∧
    reader (take CTILDEBYTES seed) 8 (buf, 8%nat, state) ∧
    poly_challenge callbacks fuel c seed =
      ('(c, _, (_, _, state)) ← for_loop TAU (N - TAU) (challenge_step callbacks fuel)
         (replicate N 0, le_val (take 8 buf), (buf, 8%nat, state));
       _ ← OQS_SHA3_shake256_inc_ctx_release callbacks state;
       Some c).
Proof using SC.
  intros Hc HM Hl.
  destruct (proj1 (wp_exists _ _) (challenge_open seed HM Hl)) as ([buf state] & E & Ebuf & Hr).
  exists buf, state. split; [done|]. split; [done|]. unfold challenge_start in E. unfold poly_challenge.
  destruct (OQS_SHA3_shake256_inc_init callbacks) as [s0|]; [cbn [mbind option_bind] in *|done].
  destruct (read seed 0 CTILDEBYTES) as [sd|]; [cbn [mbind option_bind] in *|done].
  destruct (OQS_SHA3_shake256_inc_absorb callbacks s0 sd) as [s1|]; [cbn [mbind option_bind] in *|done].
  destruct (OQS_SHA3_shake256_inc_finalize callbacks s1) as [s2|]; [cbn [mbind option_bind] in *|done].
  destruct (shake256_squeezeblocks callbacks 1 s2) as [[out s3]|]; [cbn [mbind option_bind] in *|done].
  destruct (write (uninit SHAKE256_RATE) 0 out) as [b|]; [cbn [mbind option_bind] in *|done].
  injection E as -> ->.
  rewrite signs_ok, fill_zero; [done|done|rewrite Ebuf; by apply xof_bytes|].
  rewrite Ebuf, length_xof by done. unfold SHAKE256_RATE. lia.
Qed.

Lemma challenge_release M p buf pos state c :
  reader M p (buf, pos, state) →
  (_ ← OQS_SHA3_shake256_inc_ctx_release callbacks state; Some c) = Some (c : list Z).
Proof using SC.
  intros (n & Hq & _). destruct (proj1 (wp_exists _ _) (xop_release_ok _ (x_sqz_live _ _ _ Hq))) as (s & E & _).
  unfold OQS_SHA3_shake256_inc_ctx_release. by rewrite E.
Qed.

(** The challenge is SampleInBall of the stream, once the fuel covers the bytes
    that SampleInBall needs. *)
Lemma poly_challenge_ok T c seed c' :
  length c = N → bytes seed → (CTILDEBYTES <= length seed)%nat → (8 <= T < fuel)%nat →
  sample_in_ball (xof256 (take CTILDEBYTES seed) T) = Some c' →
  poly_challenge callbacks fuel c seed = Some c'.
Proof using SC.
  intros Hc Hb Hl HT Hs. set (M := take CTILDEBYTES seed) in *.
  assert (HM : bytes M) by (by apply Forall_take).
  destruct (poly_challenge_eq c seed Hc HM Hl) as (buf & state & Ebuf & Hr & ->). fold M in Ebuf, Hr.
  unfold sample_in_ball in Hs. destruct (for_loop TAU _ ball_step _) as [[[cf sf] bf]|] eqn:Ef; [|done].
  injection Hs as <-. apply wp_eq. eapply wp_then.
  - eapply (for_loop_sim (λ '(c, signs, bs) '(c', signs', r), c' = c ∧ signs' = signs ∧ length c' = N ∧
      ∃ p, bs = drop p (xof256 M T) ∧ reader M p r)); [exact Ef| |].
    + split_and!; [done| |apply length_replicate|by exists 8%nat]. rewrite Ebuf.
      rewrite !xof_prefix by (done || unfold SHAKE256_RATE; lia). done.
    + intros i [[c1 g1] b1] [[c2 g2] r2] [[c3 g3] b3] Hi (-> & -> & Hl1 & p & -> & Hr1) Estep.
      eapply wp_mono; [eapply (challenge_step_ok M HM T); [done|unfold N, TAU in *; lia|done|lia|exact Estep]|].
      intros [[c4 g4] r4] (-> & -> & ? & p' & -> & ?). split_and!; [done|done|done|by exists p'].
  - intros [[c1 g1] [[b1 p1] s1]] (-> & _ & _ & p & _ & Hr1). by rewrite (challenge_release M p b1 p1).
Qed.

(** The challenge exactly, whatever the arrays and the stack held: SampleInBall with loops
    of at most [fuel] bytes, on a stream that is long enough for them. *)
Lemma poly_challenge_exact c seed :
  length c = N → bytes (take CTILDEBYTES seed) → (CTILDEBYTES <= length seed)%nat →
  poly_challenge callbacks fuel c seed = sample_in_ball_within fuel (xof256 (take CTILDEBYTES seed) (8 + TAU * fuel)).
Proof using SC.
  intros Hc HM Hl. set (M := take CTILDEBYTES seed) in *.
  destruct (poly_challenge_eq c seed Hc HM Hl) as (buf & state & Ebuf & Hr & ->). fold M in Ebuf, Hr.
  set (T := (8 + TAU * fuel)%nat). unfold sample_in_ball_within.
  pose proof (for_loop_exact (λ i '(c, signs, bs) '(c', signs', r), c' = c ∧ signs' = signs ∧ length c' = N ∧
      ∃ p, (p <= 8 + (i - (N - TAU)) * fuel)%nat ∧ bs = drop p (xof256 M T) ∧ reader M p r)
    TAU (N - TAU) (ball_step_within fuel) (challenge_step callbacks fuel)
    (replicate N 0, le_val (take 8 (xof256 M T)), drop 8 (xof256 M T)) (replicate N 0, le_val (take 8 buf), (buf, 8%nat, state))) as H.
  destruct H as [[[c1 g1] b1] [[c2 g2] [[b2 p2] s2]] H|].
  - split_and!; [done| |apply length_replicate|exists 8%nat; split_and!; [lia|done|done]]. rewrite Ebuf.
    rewrite !xof_prefix by (done || unfold SHAKE256_RATE, T; lia). done.
  - intros i [[c1 g1] b1] [[c2 g2] r2] Hi (-> & -> & Hl1 & p & Hp & -> & Hr1).
    assert (Hi' : (S (i - (N - TAU)) <= TAU)%nat) by lia. apply (Nat.mul_le_mono_r _ _ fuel) in Hi'.
    destruct (challenge_step_exact M HM T i c1 g1 p r2 Hl1) as [[[c3 g3] b3] [[c4 g4] r4] (-> & -> & Hl4 & p' & Hp' & -> & Hr4)|];
      [unfold N, TAU in *; lia|done|unfold T; lia| |constructor].
    constructor. split_and!; [done..|]. exists p'.
    replace (S i - (N - TAU))%nat with (S (i - (N - TAU))) by lia. split_and!; [lia|done|done].
  - destruct H as (-> & _ & _ & p & _ & _ & Hr1). cbn [mbind option_bind]. by rewrite (challenge_release M p b2 p2).
  - done.
Qed.

(** SampleInBall produces [TAU] coefficients 1 or -1 and 0 elsewhere. *)
Lemma ball_step_ok i c signs bs c' signs' bs' :
  ball i c → bytes bs → (N - TAU <= i < N)%nat → ball_step i (c, signs, bs) = Some (c', signs', bs') →
  ball (S i) c' ∧ bytes bs'.
Proof using Type.
  intros Hc Hbs Hi E. unfold ball_step in E. destruct (next_byte _ bs) as [[b bs1]|] eqn:En; [|done].
  destruct (next_byte_range _ _ _ _ Hbs En) as [Hb Hbs1]. cbn [mbind option_bind] in E.
  destruct (c !! Z.to_nat b) as [x|] eqn:Ex; [|done]. injection E as <- <- <-. split; [|done].
  apply ball_insert; [done|done|lia|done|apply sign_cases].
Qed.

Lemma sample_in_ball_ball bs : bytes bs → wlp (sample_in_ball bs) (ball N).
Proof using Type.
  intros Hb. unfold sample_in_ball. eapply (wlp_then _ _ (λ '(c, _, _), ball N c)).
  - apply (wlp_for (λ i '(c, _, bs), ball i c ∧ bytes bs)).
    + split; [apply ball_start|by apply Forall_drop].
    + intros i [[c g] b] Hi [Hc Hbs]. destruct (ball_step i (c, g, b)) as [[[c' g'] b']|] eqn:E; [|done].
      apply (ball_step_ok i c g b c' g' b' Hc Hbs); [unfold N, TAU in *; lia|done].
    + intros [[c g] b] [Hc _]. exact Hc.
  - by intros [[c g] b] Hc.
Qed.

(** Whatever the fuel: a challenge that is returned is SampleInBall of the stream. *)
Lemma poly_challenge_sound c seed :
  length c = N → bytes seed → (CTILDEBYTES <= length seed)%nat →
  wlp (poly_challenge callbacks fuel c seed) (λ c', ∃ T, sample_in_ball (xof256 (take CTILDEBYTES seed) T) = Some c').
Proof using SC.
  intros Hc Hb Hl. set (M := take CTILDEBYTES seed). assert (HM : bytes M) by (by apply Forall_take).
  destruct (poly_challenge_eq c seed Hc HM Hl) as (buf & state & Ebuf & Hr & ->). fold M in Ebuf, Hr.
  eapply (wlp_then _ _ (λ '(c, _, r), (∃ T, sample_in_ball (xof256 M T) = Some c) ∧ ∃ p, reader M p r)).
  - apply (wlp_for (λ i '(c, g, r), length c = N ∧ ∃ p, (8 <= p)%nat ∧ reader M p r ∧ ∀ T, (p <= T)%nat →
      for_loop (i - (N - TAU)) (N - TAU) ball_step (replicate N 0, le_val (take 8 (xof256 M T)), drop 8 (xof256 M T))
      = Some (c, g, drop p (xof256 M T)))).
    + split; [apply length_replicate|]. exists 8%nat. split; [lia|]. split; [done|]. intros T HT.
      rewrite Nat.sub_diag. cbn [for_loop]. rewrite Ebuf, !xof_prefix by (done || unfold SHAKE256_RATE; lia). done.
    + intros i [[c1 g1] r1] Hi (Hl1 & p & Hp & Hr1 & HT).
      eapply wlp_mono; [apply (challenge_step_sound M HM i c1 g1 p r1 Hl1); [unfold N, TAU in *; lia|done]|].
      intros [[c2 g2] r2] (Hl2 & p' & Hlt & Hr2 & HT'). split; [done|]. exists p'. split; [lia|]. split; [done|].
      intros T Hle. replace (S i - (N - TAU))%nat with (S (i - (N - TAU))) by lia.
      rewrite for_loop_snoc, HT by lia. cbn [mbind option_bind].
      replace (N - TAU + (i - (N - TAU)))%nat with i by lia. by apply HT'.
    + intros [[c1 g1] r1] (_ & p & _ & Hr1 & HT). split; [|by exists p]. exists p. unfold sample_in_ball.
      replace (N - TAU + TAU - (N - TAU))%nat with TAU in HT by (unfold N, TAU; lia). by rewrite HT.
  - intros [[c1 g1] [[b1 p1] s1]] (HT & p & Hr1). by rewrite (challenge_release M p b1 p1).
Qed.

Lemma poly_challenge_ball c seed :
  length c = N → bytes seed → (CTILDEBYTES <= length seed)%nat →
  wlp (poly_challenge callbacks fuel c seed) (ball N).
Proof using SC.
  intros Hc Hb Hl. eapply wlp_mono; [by apply poly_challenge_sound|]. intros c' [T HT].
  pose proof (sample_in_ball_ball (xof256 (take CTILDEBYTES seed) T) ltac:(by apply xof_bytes, Forall_take)) as H.
  rewrite HT in H. exact H.
Qed.

End streams.
