(* ===== verification/MlExpand.v ===== *)
(** ML-DSA-65: expansion of seeds into vectors and matrices.

    [expand_a], [expand_s] and [expand_mask] give, polynomial by polynomial,
    what ExpandA, ExpandS and ExpandMask of FIPS 204 sample from the streams;
    the functions of polyvec.c compute them whatever the destination held.
    Also here: every matrix the expansion returns is the transform of a matrix
    of polynomials, because the layers of the transform can be undone. *)
From S2P Require Import Prelude KeccakP Sha3 Sha3Api MlArith MlNtt MlNttSpec MlPoly MlPack MlKeys MlHints MlVec MlSample.

(** ** Loops that overwrite entry after entry *)

(** If the new entry does not depend on the old one, neither does the result. *)
Lemma for_loop_mapM {A} (P : A → Prop) (f : nat → A → option A) g n lo v :
  length v = (lo + n)%nat → (∀ i, (lo <= i < lo + n)%nat → ∃ x, v !! i = Some x ∧ P x) →
  (∀ i x, (lo <= i < lo + n)%nat → P x → f i x = g i) →
  for_loop n lo (λ i v, x ← v !! i; y ← f i x; Some (<[i := y]> v)) v
  = (ys ← mapM g (seq lo n); Some (take lo v ++ ys)).
Proof.
  revert lo v. induction n as [|n IH]; intros lo v Hl Hv Hf.
  - cbn [for_loop seq mapM mbind option_bind mret option_ret]. by rewrite app_nil_r, take_ge by lia.
  - destruct (Hv lo) as (x & Hx & Px); [lia|].
    cbn [for_loop seq mapM]. rewrite Hx. cbn [mbind option_bind]. rewrite (Hf lo x) by (done || lia).
    destruct (g lo) as [y|]; [|done]. cbn [mbind option_bind].
    rewrite IH.
    + change (foldr _ _ (seq (S lo) n)) with (mapM g (seq (S lo) n)).
      destruct (mapM g (seq (S lo) n)) as [ys|]; [|done]. cbn [mbind option_bind mret option_ret].
      f_equal. rewrite (take_S_r _ _ y) by (apply list_lookup_insert_eq; lia).
      rewrite take_insert_ge by lia. by rewrite <-app_assoc.
    + rewrite length_insert. lia.
    + intros i Hi. rewrite list_lookup_insert_ne by lia. apply Hv. lia.
    + intros i z Hi. apply Hf. lia.
Qed.

Lemma vec_loop_mapM n f g v :
  is_vec n v → (∀ i x, (i < n)%nat → length x = N → f i x = g i) → vec_loop n f v = mapM g (seq 0 n).
Proof.
  intros [Hl Hv] Hf. unfold vec_loop.
  rewrite (for_loop_mapM (λ x, length x = N) f g n 0 v); [|done| |].
  - rewrite take_0. by destruct (mapM g (seq 0 n)).
  - intros i Hi. destruct (lookup_lt_is_Some_2 v i) as [x Hx]; [lia|]. exists x. split; [done|].
    exact (Forall_lookup_1 _ _ _ _ Hv Hx).
  - intros i x Hi. apply Hf. lia.
Qed.

(** A list of results, entry by entry. *)
Lemma mapM_each {A} (g : nat → option A) (P : nat → A → Prop) n ys :
  mapM g (seq 0 n) = Some ys → (∀ i y, (i < n)%nat → g i = Some y → P i y) →
  length ys = n ∧ ∀ i, (i < n)%nat → ∃ y, ys !! i = Some y ∧ P i y.
Proof.
  intros Hm HP. apply mapM_Some in Hm. pose proof (Forall2_length Hm) as Hl.
  rewrite length_seq in Hl. split; [done|]. intros i Hi.
  destruct (lookup_lt_is_Some_2 ys i) as [y Hy]; [lia|]. exists y. split; [done|]. apply HP; [done|].
  destruct (Forall2_lookup_r _ _ _ _ _ Hm Hy) as (j & Hj & Hg).
  apply lookup_seq in Hj as [-> _]. exact Hg.
Qed.

Lemma mapM_mono_seq {A} (f g : nat → option A) n ys :
  mapM f (seq 0 n) = Some ys → (∀ i y, (i < n)%nat → f i = Some y → g i = Some y) →
  mapM g (seq 0 n) = Some ys.
Proof.
  intros Hm Hg. rewrite <-Hm. apply Forall_mapM_ext, Forall_lookup. intros i x Hx.
  destruct (mapM_each f (λ i y, f i = Some y) n ys Hm) as [_ He]; [auto|].
  apply lookup_seq in Hx as [-> Hi]. destruct (He i Hi) as (y & _ & E). rewrite Nat.add_0_l, E. by apply Hg.
Qed.

(** ** Undoing the layers of the transform *)
Definition HALF : Z := 4190209.

(** The inverse of the twiddle factor of block [b] in a layer of [nb] blocks. *)
Definition bwd (nb len : nat) (G : nat → Z) (i : nat) : Z :=
  let z := - tw (2 * nb - 1 - i / (2 * len)) in
  if (i mod (2 * len) <? len)%nat then HALF * (G i + G (i + len)%nat)
  else HALF * z * (G (i - len)%nat - G i).

(** The two halves of a block. *)
Lemma block_split nb len i :
  (0 < len)%nat → (i < nb * (2 * len))%nat →
  ∃ b r, (b < nb)%nat ∧ (r < len)%nat ∧
    (i = (b * (2 * len) + r)%nat ∨ i = (b * (2 * len) + r + len)%nat).
Proof.
  intros Hlen Hi. pose proof (Nat.div_mod i (2 * len) ltac:(lia)) as E.
  pose proof (Nat.mod_upper_bound i (2 * len) ltac:(lia)) as Hr.
  assert (i / (2 * len) < nb)%nat by (apply Nat.Div0.div_lt_upper_bound; lia).
  exists (i / (2 * len))%nat. destruct (decide (i mod (2 * len) < len)%nat).
  - exists (i mod (2 * len))%nat. split_and!; [lia|lia|left; lia].
  - exists (i mod (2 * len) - len)%nat. split_and!; [lia|lia|right; lia].
Qed.

Lemma fwd_bwd l G i :
  (l < 8)%nat → (i < N)%nat → fwd (2 ^ l) (128 / 2 ^ l) (bwd (2 ^ l) (128 / 2 ^ l) G) i ≡q G i.
Proof.
  intros Hl Hi. destruct (layer_geometry l Hl) as (HN & Hlen & _).
  pose proof (λ b, tw_inverse l b Hl) as Hinv. set (nb := (2 ^ l)%nat) in *.
  set (len := (128 / nb)%nat) in *. clearbody nb len. rewrite <-HN in Hi.
  destruct (block_split nb len i Hlen Hi) as (b & r & Hb & Hr & Ei). specialize (Hinv b Hb).
  assert (HH : 2 * HALF ≡q 1) by (by apply eqq_mod).
  unfold fwd, bwd.
  assert (Elo : ((b * (2 * len) + r) / (2 * len) = b)%nat) by (apply block_div; lia).
  assert (Mlo : ((b * (2 * len) + r) mod (2 * len) = r)%nat) by (apply block_mod; lia).
  assert (Ehi : ((b * (2 * len) + r + len) / (2 * len) = b)%nat)
    by (rewrite <-Nat.add_assoc; apply block_div; lia).
  assert (Mhi : ((b * (2 * len) + r + len) mod (2 * len) = r + len)%nat)
    by (rewrite <-Nat.add_assoc; apply block_mod; lia).
  assert (Tlo : (r <? len)%nat = true) by (apply Nat.ltb_lt; lia).
  assert (Thi : (r + len <? len)%nat = false) by (apply Nat.ltb_ge; lia).
  destruct Ei as [-> | ->].
  - rewrite Elo, Mlo, Ehi, Mhi, Tlo, Thi, Nat.add_sub.
    set (g0 := G (b * (2 * len) + r)%nat). set (g1 := G (b * (2 * len) + r + len)%nat).
    transitivity (HALF * (g0 + g1) + (tw (nb + b) * - tw (2 * nb - 1 - b)) * (HALF * (g0 - g1)));
      [apply (eqq_intro _ _ 0); lia|].
    rewrite Hinv. transitivity (2 * HALF * g0); [apply (eqq_intro _ _ 0); lia|].
    rewrite HH. apply (eqq_intro _ _ 0). lia.
  - rewrite Nat.add_sub, Elo, Mlo, Ehi, Mhi, Tlo, Thi.
    set (g0 := G (b * (2 * len) + r)%nat). set (g1 := G (b * (2 * len) + r + len)%nat).
    transitivity (HALF * (g0 + g1) - (tw (nb + b) * - tw (2 * nb - 1 - b)) * (HALF * (g0 - g1)));
      [apply (eqq_intro _ _ 0); lia|].
    rewrite Hinv. transitivity (2 * HALF * g1); [apply (eqq_intro _ _ 0); lia|].
    rewrite HH. apply (eqq_intro _ _ 0). lia.
Qed.

Lemma fwd_eqq l F G i :
  (l < 8)%nat → (i < N)%nat → (∀ j, (j < N)%nat → F j ≡q G j) →
  fwd (2 ^ l) (128 / 2 ^ l) F i ≡q fwd (2 ^ l) (128 / 2 ^ l) G i.
Proof.
  intros Hl Hi H. destruct (layer_geometry l Hl) as (HN & Hlen & _). set (nb := (2 ^ l)%nat) in *.
  set (len := (128 / nb)%nat) in *. clearbody nb len. unfold fwd.
  pose proof Hi as Hi'. rewrite <-HN in Hi'.
  destruct (block_split nb len i Hlen Hi') as (b & r & Hb & Hr & Ei). unfold N in *.
  case_match eqn:E.
  - rewrite (H i), (H (i + len)%nat); [done| |done].
    destruct Ei as [-> | ->]; [nia|]. rewrite <-Nat.add_assoc, block_mod in E by lia. lia.
  - rewrite (H i), (H (i - len)%nat); [done|lia|done].
Qed.

(** Every array is, modulo Q, the transform of a polynomial. *)
Fixpoint unlayers (l : nat) (G : nat → Z) : nat → Z :=
  match l with
  | O => G
  | S l => unlayers l (bwd (2 ^ l) (128 / 2 ^ l) G)
  end.

Lemma layers_unlayers l G i : (l <= 8)%nat → (i < N)%nat → layers l (unlayers l G) i ≡q G i.
Proof.
  intros Hl. revert G i. induction l as [|l IH]; intros G i Hi; [done|]. cbn [layers unlayers].
  rewrite (fwd_eqq l _ (bwd (2 ^ l) (128 / 2 ^ l) G) i ltac:(lia) Hi).
  - apply fwd_bwd; [lia|done].
  - intros j Hj. apply IH; [lia|done].
Qed.

Lemma layers_eqq l F G i :
  (l <= 8)%nat → (i < N)%nat → (∀ j, (j < N)%nat → F j ≡q G j) → layers l F i ≡q layers l G i.
Proof.
  intros Hl Hi HE. revert i Hi. induction l as [|l IH]; intros i Hi; [by apply HE|]. cbn [layers].
  apply fwd_eqq; [lia|done|]. intros j Hj. apply IH; [lia|done].
Qed.

(** A transform determines its polynomial: [invntt_tomont] finds it. *)
Lemma layers_inj F G :
  (∀ i, (i < N)%nat → layers 8 F i ≡q layers 8 G i) → ∀ i, (i < N)%nat → F i ≡q G i.
Proof.
  intros HE. set (a := mk_poly (λ i, layers 8 F i mod Q)).
  assert (Ha : ∀ T, (∀ i, (i < N)%nat → layers 8 F i ≡q T i) → rep Q T a).
  { intros T HT. apply each_rep, each_mk_poly. intros k Hk. pose proof (Z.mod_pos_bound (layers 8 F k) Q ltac:(done)).
    split; [lia|]. rewrite mod_eqq. by apply HT. }
  pose proof (invntt_ok F a (Ha _ (λ i _, reflexivity _))) as H1. pose proof (invntt_ok G a (Ha _ HE)) as H2.
  destruct (invntt_tomont a) as [b|]; [|done]. destruct H1 as [_ H1], H2 as [_ H2]. intros i Hi.
  destruct (H1 i Hi) as (x & Hx & _ & E1), (H2 i Hi) as (x' & Hx' & _ & E2).
  assert (x' = x) as -> by congruence. rewrite E1 in E2. rewrite (Z.mul_comm (2 ^ 32) (F i)) in E2.
  apply eqq_cancel_R in E2. rewrite E2, (Z.mul_comm _ RINV), Z.mul_assoc, (Z.mul_comm RINV), RINV_ok.
  by rewrite Z.mul_1_l.
Qed.

Lemma layers_matvec A V i x :
  (x < N)%nat → layers 8 (matvec A V i) x ≡q psum (λ j, layers 8 (A i j) x * layers 8 (V j) x) L.
Proof. intros Hx. unfold matvec. rewrite layers_psum. apply psum_eqq. intros j _. by rewrite layers_mul. Qed.

(** ** Expansion *)

Section expand.
Context (callbacks : OQS_SHA3_callbacks) {SC : Sha3Contract callbacks} {U : Uninit} (fuel : nat).
Abbreviation xof256 := (xof (o := cb_shake256_inc callbacks)).

Definition expand_a (rho : list Z) : option (list (list (list Z))) :=
  mapM (λ i, mapM (λ j,
    sampled (uniform_acc callbacks (take SEEDBYTES rho ++ [Z.of_nat j; Z.of_nat i])) fuel)
    (seq 0 L)) (seq 0 K).

Definition expand_s (n off : nat) (rhoprime : list Z) : option (list (list Z)) :=
  mapM (λ i, sampled (eta_acc callbacks (take CRHBYTES rhoprime ++ [Z.of_nat (off + i); 0])) fuel)
    (seq 0 n).

Definition expand_mask (rhoprime : list Z) (kappa : Z) : option (list (list Z)) :=
  mapM (λ i, polyz_unpack (replicate N 0)
    (xof256 (stream_input CRHBYTES rhoprime (u16 (Z.of_nat L * kappa + Z.of_nat i))) POLYZ_PACKEDBYTES))
    (seq 0 L).

Lemma matrix_nonce i j :
  (i < K)%nat → (j < L)%nat →
  let nonce := u16 (Z.shiftl (Z.of_nat i) 8 + Z.of_nat j) in
  u8 nonce = Z.of_nat j ∧ u8 (Z.shiftr nonce 8) = Z.of_nat i.
Proof using Type.
  unfold K, L. intros Hi Hj.
  do 6 (destruct i as [|i]; [do 5 (destruct j as [|j]; [by split|]); lia|]). lia.
Qed.

Lemma small_nonce n : (n < 16)%nat → u8 (u16 (Z.of_nat n)) = Z.of_nat n ∧ u8 (Z.shiftr (u16 (Z.of_nat n)) 8) = 0.
Proof using Type. intros Hn. do 16 (destruct n as [|n]; [by split|]). lia. Qed.

Lemma polyvec_matrix_expand_ok mat rho :
  length mat = K → Forall (is_vec L) mat → bytes rho → (SEEDBYTES <= length rho)%nat →
  polyvec_matrix_expand callbacks fuel mat rho = expand_a rho.
Proof using SC.
  intros Hl Hm Hb Hr. unfold polyvec_matrix_expand, expand_a.
  rewrite (for_loop_mapM (is_vec L) _ (λ i, mapM (λ j,
    sampled (uniform_acc callbacks (take SEEDBYTES rho ++ [Z.of_nat j; Z.of_nat i])) fuel) (seq 0 L)) K 0 mat);
    [|done| |].
  - rewrite take_0. by destruct (mapM _ (seq 0 K)).
  - intros i Hi. destruct (lookup_lt_is_Some_2 mat i) as [x Hx]; [lia|]. exists x. split; [done|].
    exact (Forall_lookup_1 _ _ _ _ Hm Hx).
  - intros i row Hi Hrow. apply vec_loop_mapM; [done|]. intros j x Hj Hx.
    rewrite (poly_uniform_ok callbacks) by done. unfold stream_input.
    destruct (matrix_nonce i j) as [-> ->]; [lia|done|]. done.
Qed.

Lemma uniform_eta_ok n off v rhoprime :
  is_vec n v → (off + n <= 16)%nat → bytes rhoprime → (CRHBYTES <= length rhoprime)%nat →
  vec_loop n (λ i x, poly_uniform_eta callbacks fuel x rhoprime (u16 (Z.of_nat off + Z.of_nat i))) v
  = expand_s n off rhoprime.
Proof using SC.
  intros Hv Ho Hb Hr. apply vec_loop_mapM; [done|]. intros i x Hi Hx.
  rewrite (poly_uniform_eta_ok callbacks) by done. unfold stream_input. rewrite <-Nat2Z.inj_add.
  destruct (small_nonce (off + i)) as [-> ->]; [lia|]. done.
Qed.

Lemma polyvecl_uniform_gamma1_ok v rhoprime kappa :
  is_vec L v → bytes rhoprime → (CRHBYTES <= length rhoprime)%nat →
  polyvecl_uniform_gamma1 callbacks v rhoprime kappa = expand_mask rhoprime kappa.
Proof using SC.
  intros Hv Hb Hr. apply vec_loop_mapM; [done|]. intros i x Hi Hx.
  rewrite (poly_uniform_gamma1_ok callbacks) by done. set (M := stream_input _ _ _).
  assert (HM : bytes M) by (by apply stream_input_bytes).
  pose proof (length_xof (o := cb_shake256_inc callbacks) M POLYZ_PACKEDBYTES HM) as Hxl.
  pose proof (xof_bytes (o := cb_shake256_inc callbacks) M POLYZ_PACKEDBYTES HM) as Hxb.
  assert (H0 : length (replicate N 0) = N) by apply length_replicate.
  destruct (proj1 (wp_exists _ _) (poly_roundtrip _ _ 128 5 2 _ _ x _ z_inverse' Hxl Hx Hxb)) as (y & Ey & Ly & Ry & Py).
  destruct (proj1 (wp_exists _ _) (poly_roundtrip _ _ 128 5 2 _ _ (replicate N 0) _ z_inverse' Hxl H0 Hxb))
    as (y' & Ey' & Ly' & Ry' & Py').
  unfold polyz_unpack. change (N / 2)%nat with 128%nat. rewrite Ey, Ey'. f_equal.
  set (b := xof256 M POLYZ_PACKEDBYTES) in *. specialize (Py b Hxl). specialize (Py' b Hxl).
  destruct (proj1 (wp_exists _ _) (poly_roundtrip _ _ 128 2 5 _ _ b y z_inverse Ly Hxl Ry)) as (b1 & E1 & _ & _ & P1).
  destruct (proj1 (wp_exists _ _) (poly_roundtrip _ _ 128 2 5 _ _ b y' z_inverse Ly' Hxl Ry')) as (b2 & E2 & _ & _ & P2).
  specialize (P1 y Ly). specialize (P2 y Ly). congruence.
Qed.

(** *** What the expansions are *)

Lemma sampled_shape acc f a (P : Z → Prop) :
  sampled acc f = Some a → (∀ k, Forall P (acc k)) → length a = N ∧ Forall P a.
Proof using Type.
  unfold sampled. case_decide as H; [intros [= <-]|done]. intros HP. split; [rewrite length_take; lia|].
  by apply Forall_take.
Qed.

Lemma uniform_acc_range M k : Forall (λ x, 0 <= x < Q) (uniform_acc callbacks M k).
Proof using Type.
  unfold uniform_acc, uniform_accept.
  rewrite <-(take_ge (filter _ _) (length (filter (λ t, t < Q) (uniform_candidates _)))) by done.
  apply uniform_sample_range.
Qed.

Lemma eta_acc_range M k : bytes M → Forall (λ x, - ETA <= x <= ETA) (eta_acc callbacks M k).
Proof using SC.
  intros HM. unfold eta_acc, eta_accepted.
  rewrite <-(take_ge (eta_accept _) (length (eta_accept (eta_candidates
    (xof256 M (POLY_UNIFORM_ETA_NBLOCKS * SHAKE256_RATE + k * SHAKE256_RATE)))))) by done.
  apply eta_sample_range. by apply xof_bytes.
Qed.

Lemma expand_a_shape rho mat :
  expand_a rho = Some mat →
  length mat = K ∧ ∀ i, (i < K)%nat → ∃ row, mat !! i = Some row ∧
    length row = L ∧ ∀ j, (j < L)%nat → ∃ a, row !! j = Some a ∧ length a = N ∧ Forall (λ x, 0 <= x < Q) a.
Proof using Type.
  intros Hm. apply (mapM_each _ _ _ _ Hm). intros i row Hi Hrow.
  apply (mapM_each _ _ _ _ Hrow). intros j a Hj Ha. apply (sampled_shape _ _ _ _ Ha).
  apply uniform_acc_range.
Qed.

Lemma expand_s_shape n off rhoprime v :
  bytes rhoprime → (off + n <= 16)%nat → expand_s n off rhoprime = Some v → vec_of n (λ x, - ETA <= x <= ETA) v.
Proof using SC.
  intros Hb Ho Hv. destruct (mapM_each _ (λ _ a, length a = N ∧ Forall (λ x, - ETA <= x <= ETA) a) _ _ Hv) as [Hl He].
  - intros i a Hi Ha. apply (sampled_shape _ _ _ _ Ha). intros k. apply eta_acc_range.
    apply Forall_app_2; [by apply Forall_take|]. repeat constructor; lia.
  - split; [done|]. apply Forall_lookup. intros i a Ha.
    destruct (He i) as (a' & Ha' & H); [apply lookup_lt_Some in Ha; lia|]. congruence.
Qed.

(** The mask always exists. *)
Lemma expand_mask_ok rhoprime kappa :
  bytes rhoprime → wp (expand_mask rhoprime kappa) (vec_of L (λ x, - GAMMA1 < x <= GAMMA1)).
Proof using SC.
  intros Hb. unfold expand_mask.
  assert (H : ∀ i, wp (polyz_unpack (replicate N 0) (xof256 (stream_input CRHBYTES rhoprime
      (u16 (Z.of_nat L * kappa + Z.of_nat i))) POLYZ_PACKEDBYTES))
    (λ y, length y = N ∧ Forall (λ x, - GAMMA1 < x <= GAMMA1) y)).
  { intros i. set (M := stream_input _ _ _). assert (HM : bytes M) by (by apply stream_input_bytes).
    eapply wp_mono; [apply (poly_roundtrip _ _ 128 5 2 _ _ _ _ z_inverse' (length_xof _ _ HM)
      (length_replicate _ _) (xof_bytes _ _ HM))|]. intros y (? & ? & _). done. }
  destruct (mapM _ (seq 0 L)) as [v|] eqn:E; cbn [wp].
  - destruct (mapM_each _ (λ _ a, length a = N ∧ Forall (λ x, - GAMMA1 < x <= GAMMA1) a) _ _ E) as [Hl He].
    + intros i y _ Hy. specialize (H i). by rewrite Hy in H.
    + split; [done|]. apply Forall_lookup. intros i a Ha.
      destruct (He i) as (a' & Ha' & ?); [apply lookup_lt_Some in Ha; lia|]. congruence.
  - apply mapM_None, Exists_exists in E as (i & _ & E). specialize (H i). by rewrite E in H.
Qed.

(** *** The expanded matrix is a matrix of transforms *)
Definition matrix_polys (mat : list (list (list Z))) (i j : nat) : nat → Z :=
  unlayers 8 (λ k, ((mat !!! i) !!! j) !!! k).

Lemma expand_a_matrix rho mat : expand_a rho = Some mat → is_matrix (matrix_polys mat) mat.
Proof using Type.
  intros Hm. apply expand_a_shape in Hm as [Hl Hm]. split; [done|]. intros i Hi.
  destruct (Hm i Hi) as (row & Hrow & Lr & Hr). exists row. split; [done|]. split; [done|].
  intros j Hj. destruct (Hr j Hj) as (a & Ha & La & Ra). exists a. split; [done|]. split; [done|].
  intros k Hk. destruct (lookup_lt_is_Some_2 a k) as [x Hx]; [lia|]. exists x. split; [done|].
  pose proof (Forall_lookup_1 _ _ _ _ Ra Hx) as Bx. cbn beta in Bx. split; [lia|].
  unfold matrix_polys. rewrite layers_unlayers by (done || lia).
  by rewrite (list_lookup_total_correct _ _ _ Hrow), (list_lookup_total_correct _ _ _ Ha),
    (list_lookup_total_correct _ _ _ Hx).
Qed.

End expand.

(** More fuel gives the same expansion. *)
Lemma uniform_acc_growing callbacks `{Sha3Contract callbacks} M :
  bytes M → ∀ j k, (j <= k)%nat → ∃ l, uniform_acc callbacks M k = uniform_acc callbacks M j ++ l.
Proof. intros HM. apply growing. intros k. eexists. by apply uniform_acc_S. Qed.
Lemma eta_acc_growing callbacks `{Sha3Contract callbacks} M :
  bytes M → ∀ j k, (j <= k)%nat → ∃ l, eta_acc callbacks M k = eta_acc callbacks M j ++ l.
Proof. intros HM. apply growing. intros k. eexists. by apply eta_acc_S. Qed.

Lemma expand_a_mono callbacks `{Sha3Contract callbacks} f f' rho mat :
  bytes rho → (f <= f')%nat → expand_a callbacks f rho = Some mat → expand_a callbacks f' rho = Some mat.
Proof.
  intros Hb Hf. assert (HM : ∀ i j, (i < K)%nat → (j < L)%nat → bytes (take SEEDBYTES rho ++ [Z.of_nat j; Z.of_nat i])).
  { intros i j Hi Hj. unfold K, L in *. apply Forall_app_2; [by apply Forall_take|]. repeat constructor; lia. }
  intros Hm. apply (mapM_mono_seq _ _ _ _ Hm). intros i row Hi Hrow.
  apply (mapM_mono_seq _ _ _ _ Hrow). intros j a Hj. apply sampled_mono; [|done].
  apply uniform_acc_growing. by apply HM.
Qed.
