(* ===== verification/MlSign.v ===== *)
(** ML-DSA-65: key generation, signing and verification (sign.c).

    The functions take the table of SHA-3 callbacks, the random generator and
    two bounds: [fuel] for each sampling loop (MlSample.v) and [tries] for the
    [goto rej] loop of signing.  Every buffer and vector of the C functions is
    a variable here; the loop state of signing keeps all those that survive an
    attempt.  A message is a list, [mlen] its length. *)
From S2P Require Import Prelude KeccakP Sha3 MlArith MlPoly MlPack MlKeys MlVec MlSample.

(** What the loop of signing keeps from attempt to attempt. *)
Record sign_state := {
  ss_sig : list Z;
  ss_nonce : Z;
  ss_y : list (list Z);
  ss_z : list (list Z);
  ss_w1 : list (list Z);
  ss_w0 : list (list Z);
  ss_h : list (list Z);
  ss_cp : list Z;
  ss_state : keccak_state;
}.

Section sign.
Context (callbacks : OQS_SHA3_callbacks) {U : Uninit} (fuel tries : nat).
Context {rng : Type} (randombytes : rng → nat → list Z * rng).

(** Uninitialised vectors and matrices. *)
Definition stack_vec (n : nat) : list (list Z) := replicate n (uninit N).
Definition stack_mat : list (list (list Z)) := replicate K (stack_vec L).

(** [crypto_sign_keypair]: the return code, [pk] and [sk]. *)
Definition crypto_sign_keypair (pk sk : list Z) (g : rng) : option (Z * list Z * list Z * rng) :=
  let seedbuf := uninit (2 * SEEDBYTES + CRHBYTES) in
  let tr := uninit TRBYTES in
  let mat := stack_mat in
  let s1 := stack_vec L in let s2 := stack_vec K in
  let t1 := stack_vec K in let t0 := stack_vec K in
  (* Get randomness for rho, rhoprime and key *)
  let '(r, g) := randombytes g SEEDBYTES in
  seedbuf ← write seedbuf 0 r;
  seedbuf ← store seedbuf (SEEDBYTES + 0) (Z.of_nat K);
  seedbuf ← store seedbuf (SEEDBYTES + 1) (Z.of_nat L);
  input ← read seedbuf 0 (SEEDBYTES + 2);
  out ← OQS_SHA3_shake256 callbacks (2 * SEEDBYTES + CRHBYTES)%nat input;
  seedbuf ← write seedbuf 0 out;
  let rho := seedbuf in
  let rhoprime := drop SEEDBYTES rho in
  let key := drop CRHBYTES rhoprime in
  (* Expand matrix *)
  mat ← polyvec_matrix_expand callbacks fuel mat rho;
  (* Sample short vectors s1 and s2 *)
  s1 ← polyvecl_uniform_eta callbacks fuel s1 rhoprime 0;
  s2 ← polyveck_uniform_eta callbacks fuel s2 rhoprime (Z.of_nat L);
  (* Matrix-vector multiplication *)
  let s1hat := s1 in
  s1hat ← polyvecl_ntt s1hat;
  t1 ← polyvec_matrix_pointwise_montgomery t1 mat s1hat;
  t1 ← polyveck_reduce t1;
  t1 ← polyveck_invntt_tomont t1;
  (* Add error vector s2 *)
  t1 ← polyveck_add t1 t1 s2;
  (* Extract t1 and write public key *)
  t1 ← polyveck_caddq t1;
  '(t1, t0) ← polyveck_power2round t1 t0 t1;
  pk ← pack_pk pk rho t1;
  (* Compute H(rho, t1) and write secret key *)
  input ← read pk 0 CRYPTO_PUBLICKEYBYTES;
  out ← OQS_SHA3_shake256 callbacks TRBYTES input;
  tr ← write tr 0 out;
  sk ← pack_sk sk rho tr key t0 s1 s2;
  Some (0, pk, sk, g).

(** [n] bytes of [src] into the stream. *)
Definition absorb_from (state : keccak_state) (src : list Z) (n : nat) : option keccak_state :=
  b ← read src 0 n;
  OQS_SHA3_shake256_inc_absorb callbacks state b.

(** [n] bytes of the stream to the start of [dst]. *)
Definition squeeze_to (dst : list Z) (n : nat) (state : keccak_state) : option (list Z * keccak_state) :=
  '(out, state) ← OQS_SHA3_shake256_inc_squeeze callbacks n state;
  dst ← write dst 0 out;
  Some (dst, state).

(** From [rej:] to the last [goto rej]. *)
Definition sign_attempt (mat : list (list (list Z))) (s1 s2 t0 : list (list Z)) (mu rhoprime : list Z)
    (s : sign_state) : option (ctl sign_state sign_state) :=
  let '(Build_sign_state sig nonce y z w1 w0 h cp state) := s in
  (* Sample intermediate vector y *)
  y ← polyvecl_uniform_gamma1 callbacks y rhoprime nonce;
  let nonce := u16 (nonce + 1) in
  (* Matrix-vector multiplication *)
  let z := y in
  z ← polyvecl_ntt z;
  w1 ← polyvec_matrix_pointwise_montgomery w1 mat z;
  w1 ← polyveck_reduce w1;
  w1 ← polyveck_invntt_tomont w1;
  (* Decompose w and call the random oracle *)
  w1 ← polyveck_caddq w1;
  '(w1, w0) ← polyveck_decompose w1 w0 w1;
  sig ← polyveck_pack_w1 sig w1;
  state ← OQS_SHA3_shake256_inc_ctx_reset callbacks state;
  state ← absorb_from state mu CRHBYTES;
  state ← absorb_from state sig (K * POLYW1_PACKEDBYTES);
  state ← OQS_SHA3_shake256_inc_finalize callbacks state;
  '(sig, state) ← squeeze_to sig CTILDEBYTES state;
  cp ← poly_challenge callbacks fuel cp sig;
  cp ← poly_ntt cp;
  (* Compute z, reject if it reveals secret *)
  z ← polyvecl_pointwise_poly_montgomery z cp s1;
  z ← polyvecl_invntt_tomont z;
  z ← polyvecl_add z z y;
  z ← polyvecl_reduce z;
  r ← polyvecl_chknorm z (GAMMA1 - BETA);
  if negb (r =? 0) then Some (Next (Build_sign_state sig nonce y z w1 w0 h cp state)) else
  (* Check that subtracting cs2 does not change high bits of w and low bits
     do not reveal secret information *)
  h ← polyveck_pointwise_poly_montgomery h cp s2;
  h ← polyveck_invntt_tomont h;
  w0 ← polyveck_sub w0 w0 h;
  w0 ← polyveck_reduce w0;
  r ← polyveck_chknorm w0 (GAMMA2 - BETA);
  if negb (r =? 0) then Some (Next (Build_sign_state sig nonce y z w1 w0 h cp state)) else
  (* Compute hints for w1 *)
  h ← polyveck_pointwise_poly_montgomery h cp t0;
  h ← polyveck_invntt_tomont h;
  h ← polyveck_reduce h;
  r ← polyveck_chknorm h GAMMA2;
  if negb (r =? 0) then Some (Next (Build_sign_state sig nonce y z w1 w0 h cp state)) else
  w0 ← polyveck_add w0 w0 h;
  '(h, n) ← polyveck_make_hint h w0 w1;
  if Z.of_nat OMEGA <? n then Some (Next (Build_sign_state sig nonce y z w1 w0 h cp state)) else
  Some (Done (Build_sign_state sig nonce y z w1 w0 h cp state)).

(** [crypto_sign_signature_internal]: the return code, [sig] and [*siglen].  The
    parts rho, tr, key, mu and rhoprime of [seedbuf] do not overlap. *)
Definition crypto_sign_signature_internal (sig m pre : list Z) (prelen : nat) (rnd sk : list Z)
    : option (Z * list Z * nat) :=
  let rho := uninit SEEDBYTES in let tr := uninit TRBYTES in let key := uninit SEEDBYTES in
  let mu := uninit CRHBYTES in let rhoprime := uninit CRHBYTES in
  let mat := stack_mat in let s1 := stack_vec L in let y := stack_vec L in let z := stack_vec L in
  let t0 := stack_vec K in let s2 := stack_vec K in let w1 := stack_vec K in
  let w0 := stack_vec K in let h := stack_vec K in let cp := uninit N in
  '(rho, tr, key, t0, s1, s2) ← unpack_sk rho tr key t0 s1 s2 sk;
  (* Compute mu = CRH(tr, pre, msg) *)
  state ← OQS_SHA3_shake256_inc_init callbacks;
  state ← absorb_from state tr TRBYTES;
  state ← absorb_from state pre prelen;
  state ← absorb_from state m (length m);
  state ← OQS_SHA3_shake256_inc_finalize callbacks state;
  '(mu, state) ← squeeze_to mu CRHBYTES state;
  (* Compute rhoprime = CRH(key, rnd, mu) *)
  state ← OQS_SHA3_shake256_inc_ctx_reset callbacks state;
  state ← absorb_from state key SEEDBYTES;
  state ← absorb_from state rnd RNDBYTES;
  state ← absorb_from state mu CRHBYTES;
  state ← OQS_SHA3_shake256_inc_finalize callbacks state;
  '(rhoprime, state) ← squeeze_to rhoprime CRHBYTES state;
  (* Expand matrix and transform vectors *)
  mat ← polyvec_matrix_expand callbacks fuel mat rho;
  s1 ← polyvecl_ntt s1;
  s2 ← polyveck_ntt s2;
  t0 ← polyveck_ntt t0;
  s ← loop tries (sign_attempt mat s1 s2 t0 mu rhoprime)
        (Build_sign_state sig 0 y z w1 w0 h cp state);
  _ ← OQS_SHA3_shake256_inc_ctx_release callbacks (ss_state s);
  (* Write signature *)
  sig ← pack_sig (ss_sig s) (ss_sig s) (ss_z s) (ss_h s);
  Some (0, sig, CRYPTO_BYTES).

(** [pre = (0, ctxlen, ctx)], for [ctxlen <= 255] *)
Definition prepare_pre (ctx : list Z) (ctxlen : nat) : option (list Z) :=
  let pre := uninit 257 in
  pre ← store pre 0 0;
  pre ← store pre 1 (u8 (Z.of_nat ctxlen));
  for_loop ctxlen 0 (λ i pre, b ← ctx !! i; store pre (2 + i)%nat b) pre.

(** [crypto_sign_signature] (randomised signing): the return code, [sig] and
    [*siglen]. *)
Definition crypto_sign_signature (sig : list Z) (siglen : nat) (m ctx : list Z) (ctxlen : nat)
    (sk : list Z) (g : rng) : option (Z * list Z * nat * rng) :=
  if (255 <? ctxlen)%nat then Some (-1, sig, siglen, g) else
  pre ← prepare_pre ctx ctxlen;
  let '(r, g) := randombytes g RNDBYTES in
  rnd ← write (uninit RNDBYTES) 0 r;
  '(_, sig, siglen) ← crypto_sign_signature_internal sig m pre (2 + ctxlen)%nat rnd sk;
  Some (0, sig, siglen, g).

(** [crypto_sign], on a buffer [sm] that does not overlap [m]: the return code,
    [sm] and [*smlen]. *)
Definition crypto_sign (sm : list Z) (smlen : nat) (m ctx : list Z) (ctxlen : nat) (sk : list Z) (g : rng)
    : option (Z * list Z * nat * rng) :=
  sm ← write sm CRYPTO_BYTES m;
  sig ← read sm 0 CRYPTO_BYTES;
  msg ← read sm CRYPTO_BYTES (length m);
  '(ret, sig, smlen, g) ← crypto_sign_signature sig smlen msg ctx ctxlen sk g;
  sm ← write sm 0 sig;
  Some (ret, sm, (smlen + length m)%nat, g).

(** [for (i = 0; i < CTILDEBYTES; ++i) if (c[i] != c2[i]) return -1; return 0;] *)
Definition compare_step (c c2 : list Z) (i : nat) : option (ctl nat Z) :=
  if (i <? CTILDEBYTES)%nat then
    x ← c !! i; y ← c2 !! i;
    if x =? y then Some (Next (S i)) else Some (Done (-1))
  else Some (Done 0).

(** [crypto_sign_verify_internal]: the return code. *)
Definition crypto_sign_verify_internal (sig : list Z) (siglen : nat) (m pre : list Z) (prelen : nat)
    (pk : list Z) : option Z :=
  let buf := uninit (K * POLYW1_PACKEDBYTES) in let rho := uninit SEEDBYTES in
  let mu := uninit CRHBYTES in let c := uninit CTILDEBYTES in let c2 := uninit CTILDEBYTES in
  let cp := uninit N in let mat := stack_mat in let z := stack_vec L in
  let t1 := stack_vec K in let w1 := stack_vec K in let h := stack_vec K in
  if negb (siglen =? CRYPTO_BYTES)%nat then Some (-1) else
  '(rho, t1) ← unpack_pk rho t1 pk;
  '(r, c, z, h) ← unpack_sig c z h sig;
  if negb (r =? 0) then Some (-1) else
  r ← polyvecl_chknorm z (GAMMA1 - BETA);
  if negb (r =? 0) then Some (-1) else
  (* Compute CRH(H(rho, t1), pre, msg) *)
  input ← read pk 0 CRYPTO_PUBLICKEYBYTES;
  out ← OQS_SHA3_shake256 callbacks TRBYTES input;
  mu ← write mu 0 out;
  state ← OQS_SHA3_shake256_inc_init callbacks;
  state ← absorb_from state mu TRBYTES;
  state ← absorb_from state pre prelen;
  state ← absorb_from state m (length m);
  state ← OQS_SHA3_shake256_inc_finalize callbacks state;
  '(mu, state) ← squeeze_to mu CRHBYTES state;
  (* Matrix-vector multiplication; compute Az - c2^dt1 *)
  cp ← poly_challenge callbacks fuel cp c;
  mat ← polyvec_matrix_expand callbacks fuel mat rho;
  z ← polyvecl_ntt z;
  w1 ← polyvec_matrix_pointwise_montgomery w1 mat z;
  cp ← poly_ntt cp;
  t1 ← polyveck_shiftl t1;
  t1 ← polyveck_ntt t1;
  t1 ← polyveck_pointwise_poly_montgomery t1 cp t1;
  w1 ← polyveck_sub w1 w1 t1;
  w1 ← polyveck_reduce w1;
  w1 ← polyveck_invntt_tomont w1;
  (* Reconstruct w1 *)
  w1 ← polyveck_caddq w1;
  w1 ← polyveck_use_hint w1 w1 h;
  buf ← polyveck_pack_w1 buf w1;
  (* Call random oracle and verify challenge *)
  state ← OQS_SHA3_shake256_inc_ctx_reset callbacks state;
  state ← absorb_from state mu CRHBYTES;
  state ← absorb_from state buf (K * POLYW1_PACKEDBYTES);
  state ← OQS_SHA3_shake256_inc_finalize callbacks state;
  '(c2, state) ← squeeze_to c2 CTILDEBYTES state;
  _ ← OQS_SHA3_shake256_inc_ctx_release callbacks state;
  loop (S CTILDEBYTES) (compare_step c c2) 0%nat.

Definition crypto_sign_verify (sig : list Z) (siglen : nat) (m ctx : list Z) (ctxlen : nat) (pk : list Z)
    : option Z :=
  if (255 <? ctxlen)%nat then Some (-1) else
  pre ← prepare_pre ctx ctxlen;
  crypto_sign_verify_internal sig siglen m pre (2 + ctxlen)%nat pk.

(** [crypto_sign_open]: the return code, [m] and [*mlen]. *)
Definition crypto_sign_open (m sm : list Z) (smlen : nat) (ctx : list Z) (ctxlen : nat) (pk : list Z)
    : option (Z * list Z * nat) :=
  let badsig := m ← write m 0 (replicate smlen 0); Some (-1, m, 0%nat) in
  if (smlen <? CRYPTO_BYTES)%nat then badsig else
  let mlen := (smlen - CRYPTO_BYTES)%nat in
  sig ← read sm 0 CRYPTO_BYTES;
  msg ← read sm CRYPTO_BYTES mlen;
  r ← crypto_sign_verify sig CRYPTO_BYTES msg ctx ctxlen pk;
  if negb (r =? 0) then badsig
  else m ← write m 0 msg; Some (0, m, mlen).

End sign.
