(* ===== verification/MlAttempt.v ===== *)
(** ML-DSA-65: the signing loop of FIPS 204 and its implementation.

    [attempt] is one pass of the loop of ML-DSA.Sign_internal on polynomials
    over Z/Q (coefficient functions): nothing is in transform or Montgomery
    form, the reductions are the standard's, and the tests are the standard's.
    [sign_attempt] of sign.c computes the same from whatever the previous
    attempts left in its buffers. *)
From S2P Require Import Prelude KeccakP Sha3 Sha3Api MlArith MlNtt MlNttSpec MlPoly MlPack MlKeys MlHints MlVec MlSample MlExpand MlSign.
Import Fips204.

Lemma GAMMA1_eq : GAMMA1 = 2 ^ 19. Proof. done. Qed.

(** ** Products with a challenge are small *)
Lemma psum_abs f n : Z.abs (psum f n) <= psum (λ r, Z.abs (f r)) n.
Proof. induction n as [|n IH]; cbn [psum]; lia. Qed.
Lemma psum_le f g n : (∀ r, (r < n)%nat → f r <= g r) → psum f n <= psum g n.
Proof.
  intros H. induction n as [|n IH]; cbn [psum]; [lia|]. pose proof (H n ltac:(lia)).
  specialize (IH ltac:(intros; apply H; lia)). lia.
Qed.

Lemma negmul_bound C F B k :
  (k < N)%nat → (∀ i, (i < N)%nat → - B <= F i <= B) → Z.abs (negmul C F k) <= psum (λ i, Z.abs (C i)) N * B.
Proof.
  intros Hk HF. unfold negmul. etransitivity; [apply psum_abs|]. rewrite (Z.mul_comm _ B), <-psum_scale.
  apply psum_le. intros i Hi. rewrite Z.abs_mul.
  destruct (Nat.leb_spec i k); [pose proof (HF (k - i)%nat ltac:(lia))|pose proof (HF (N + k - i)%nat ltac:(lia))]; nia.
Qed.

Lemma nz_psum (c : list Z) :
  Forall (λ x, x = -1 ∨ x = 0 ∨ x = 1) c → psum (λ k, Z.abs (c !!! k)) (length c) = Z.of_nat (nz c).
Proof.
  induction c as [|x c IH] using rev_ind; [done|]. intros [Hc Hx]%Forall_app.
  apply Forall_inv in Hx. cbn beta in Hx.
  unfold nz in *. rewrite length_app, Nat.add_1_r, list.filter_app, length_app, Nat2Z.inj_add. cbn [psum].
  rewrite lookup_total_app_r, Nat.sub_diag, <-IH by done. f_equal.
  - apply psum_ext. intros r Hr. by rewrite lookup_total_app_l.
  - destruct Hx as [-> | [-> | ->]]; done.
Qed.

Definition poly_of (c : list Z) (k : nat) : Z := c !!! k.

Lemma ball_product c F k :
  ball N c → (k < N)%nat → (∀ i, (i < N)%nat → - ETA <= F i <= ETA) → Z.abs (negmul (poly_of c) F k) <= BETA.
Proof.
  intros (Hl & Ht & Hn & _) Hk HF. etransitivity; [by apply (negmul_bound _ F ETA)|].
  rewrite <-Hl. unfold poly_of. rewrite nz_psum, Hn by done. done.
Qed.

Lemma poly_of_rep c : ball N c → rep 1 (poly_of c) c.
Proof.
  intros (Hl & Ht & _). apply each_rep. split; [done|]. intros k Hk.
  destruct (lookup_lt_is_Some_2 c k) as [x Hx]; [lia|]. exists x. split; [done|].
  pose proof (Forall_lookup_1 _ _ _ _ Ht Hx). cbn beta in *. unfold poly_of.
  rewrite (list_lookup_total_correct _ _ _ Hx). split; [lia|done].
Qed.

(** ** One pass of the loop *)
Section attempt.
Context (callbacks : OQS_SHA3_callbacks) {SC : Sha3Contract callbacks} (fuel : nat).
Abbreviation H := (xof (o := cb_shake256_inc callbacks)).

(** The challenge polynomial for the hash [ct]: SampleInBall of FIPS 204, in which the search
    for each of the 49 positions looks at no more than [fuel] bytes of the stream. *)
Definition sample_challenge (ct : list Z) : option (list Z) := sample_in_ball_within fuel (H ct (8 + TAU * fuel)).

Definition attempt (A : nat → nat → nat → Z) (S1 S2 T0 : nat → nat → Z) (mu rhoprime : list Z) (kappa : Z)
    : option (option (list Z * list (list Z) * list (list Z))) :=
  y ← expand_mask callbacks rhoprime kappa;
  let w := matvec A (coef y) in
  let ct := H (mu ++ w1_encode (λ i k, HighBits (w i k))) CTILDEBYTES in
  c ← sample_challenge ct;
  let z := λ j k, coef y j k + negmul (poly_of c) (S1 j) k in
  let cs2 := λ i k, negmul (poly_of c) (S2 i) k in
  let ct0 := λ i k, negmul (poly_of c) (T0 i) k in
  let r0 := λ i k, LowBits (w i k - cs2 i k) in
  let h := λ i k, MakeHint (- ct0 i k) (w i k - cs2 i k + ct0 i k) in
  Some (if small L z (GAMMA1 - BETA) && small K r0 (GAMMA2 - BETA) && small K ct0 GAMMA2 &&
           (weight h <=? Z.of_nat OMEGA)
        then Some (ct, mk_vec L (λ j k, mods (z j k)), mk_vec K h) else None).

End attempt.

(** ** The tests of the code *)

(** Subtracting [e] from the low bits, and low bits of the difference. *)
Lemma low_bits_check w e :
  Z.abs e <= BETA →
  (Z.abs (mods (LowBits w - e)) < GAMMA2 - BETA ↔ Z.abs (mods (LowBits (w - e))) < GAMMA2 - BETA).
Proof.
  intros He. pose proof (decomp_bits w) as (H1 & H0 & Ew). pose proof (decomp_bits (w - e)) as (V1 & V0 & Ev).
  unfold BETA in *. change GAMMA2 with 261888 in *.
  rewrite (mods_unique (LowBits w - e) (LowBits w - e)) by (done || unfold Q; lia).
  rewrite (mods_unique (LowBits (w - e)) (LowBits (w - e))) by (done || unfold Q; lia). split; intros Hb.
  - destruct (decomp_small (w - e) (HighBits w) (LowBits w - e)) as [_ ->]; [done|change GAMMA2 with 261888; lia| |done].
    rewrite Ew at 1. apply (eqq_intro _ _ 0). change GAMMA2 with 261888. lia.
  - destruct (decomp_small w (HighBits (w - e)) (LowBits (w - e) + e)) as [_ E];
      [done|change GAMMA2 with 261888; lia| |].
    + transitivity ((w - e) + e); [apply (eqq_intro _ _ 0); lia|]. rewrite Ev at 1.
      apply (eqq_intro _ _ 0). change GAMMA2 with 261888. lia.
    + rewrite E. lia.
Qed.

(** The hints of an attempt that passes the other tests. *)
Lemma hint_check w e t :
  Z.abs e <= BETA → Z.abs (mods (LowBits (w - e))) < GAMMA2 - BETA → Z.abs (mods t) < GAMMA2 →
  make_hint (mods (LowBits w - e) + mods t) (HighBits w) = MakeHint (- t) (w - e + t).
Proof.
  intros He Hl Ht. pose proof (proj2 (low_bits_check w e He) Hl) as Hw.
  pose proof (decomp_bits w) as (H1 & H0 & Ew). unfold MakeHint.
  destruct (decomp_small (w - e) (HighBits w) (mods (LowBits w - e))) as [Eh _].
  { done. } { change GAMMA2 with 261888 in *. unfold BETA in *. lia. }
  { rewrite mods_eqq, Ew at 1. apply (eqq_intro _ _ 0). lia. }
  rewrite (HighBits_eqq (w - e + t + - t) (w - e)) by (apply (eqq_intro _ _ 0); lia). rewrite Eh.
  apply make_hint_eq; [done|change GAMMA2 with 261888 in *; unfold BETA in *; lia|].
  rewrite !mods_eqq, Ew at 1. apply (eqq_intro _ _ 0). lia.
Qed.

(** ** What the code of an attempt computes *)

Lemma read_prefix (a b : list Z) n : length a = n → read (a ++ b) 0 n = Some a.
Proof. intros Hl. rewrite read_Some by (rewrite length_app; lia). rewrite drop_0, take_app_length' by done. done. Qed.

Ltac vec_shape :=
  first [ assumption | apply is_vec_mk
        | match goal with
          | Hv : each_poly ?n _ ?v |- is_vec ?n ?v => exact (rep_vec _ _ _ _ Hv)
          | Hv : vec_of ?n _ ?v |- is_vec ?n ?v => exact (vec_of_is_vec _ _ _ Hv)
          end ].

Section refine.
Context (callbacks : OQS_SHA3_callbacks) {SC : Sha3Contract callbacks} {U : Uninit} (fuel : nat).
Abbreviation H := (xof (o := cb_shake256_inc callbacks)).
Abbreviation absd := (x_abs (o := cb_shake256_inc callbacks)).
Abbreviation sqzd := (x_sqz (o := cb_shake256_inc callbacks)).
Abbreviation live := (x_live (o := cb_shake256_inc callbacks)).

(** The stream functions on buffers. *)
Lemma absorb_from_ok state M src n :
  absd state M → bytes (take n src) → (n <= length src)%nat →
  wp (absorb_from callbacks state src n) (λ s, absd s (M ++ take n src)).
Proof using SC.
  intros Hs Hb Hn. unfold absorb_from. eapply wp_step; [apply read_Some; lia|]. rewrite drop_0.
  apply (xop_absorb_ok _ _ _ Hs Hb).
Qed.

Lemma squeeze_to_ok state M dst n :
  sqzd state M 0 → bytes M → (n <= length dst)%nat →
  wp (squeeze_to callbacks dst n state) (λ '(dst', s), dst' = H M n ++ drop n dst ∧ live s).
Proof using SC.
  intros Hs HM Hn. unfold squeeze_to. eapply wp_then; [apply (xop_squeeze_ok _ _ _ n Hs)|].
  intros [out s] [-> Hs1]. rewrite Nat.add_0_l, drop_0 in *.
  pose proof (length_xof (o := cb_shake256_inc callbacks) M n HM) as Hl.
  eapply wp_step; [apply write_0; lia|]. cbn [wp]. rewrite Hl. split; [done|].
  by eapply x_sqz_live.
Qed.

(** The random oracle of signing and verification: the first [CTILDEBYTES] bytes
    of the hash of [mu] and of the packed high bits [w1b] at the start of a
    buffer, whatever is then done with the result. *)
Lemma oracle_then {B} (R : option B → Prop) state mu w1b rest dst (k : list Z * keccak_state → option B) :
  live state → bytes mu → length mu = CRHBYTES → bytes w1b → length w1b = (K * POLYW1_PACKEDBYTES)%nat →
  (CTILDEBYTES <= length dst)%nat →
  (∀ st, live st → R (k (H (mu ++ w1b) CTILDEBYTES ++ drop CTILDEBYTES dst, st))) →
  R (state ← OQS_SHA3_shake256_inc_ctx_reset callbacks state;
     state ← absorb_from callbacks state mu CRHBYTES;
     state ← absorb_from callbacks state (w1b ++ rest) (K * POLYW1_PACKEDBYTES);
     state ← OQS_SHA3_shake256_inc_finalize callbacks state;
     p ← squeeze_to callbacks dst CTILDEBYTES state; k p).
Proof using SC.
  intros Hs Bmu Lmu Bw Lw Hd Hk.
  assert (HM : bytes (mu ++ w1b)) by (by apply Forall_app_2).
  destruct (proj1 (wp_exists _ _) (xop_reset_ok _ Hs)) as (s1 & E1 & H1).
  unfold OQS_SHA3_shake256_inc_ctx_reset. rewrite E1. cbn [mbind option_bind].
  destruct (proj1 (wp_exists _ _) (absorb_from_ok _ _ mu CRHBYTES H1 ltac:(by apply Forall_take) ltac:(lia)))
    as (s2 & -> & H2). cbn [mbind option_bind]. rewrite app_nil_l, take_ge in H2 by lia.
  assert (T : take (K * POLYW1_PACKEDBYTES) (w1b ++ rest) = w1b) by (by apply take_app_length').
  destruct (proj1 (wp_exists _ _) (absorb_from_ok _ _ (w1b ++ rest) (K * POLYW1_PACKEDBYTES) H2
    ltac:(by rewrite T) ltac:(rewrite length_app; lia))) as (s3 & -> & H3). cbn [mbind option_bind]. rewrite T in H3.
  destruct (proj1 (wp_exists _ _) (xop_finalize_ok _ _ H3)) as (s4 & E4 & H4).
  unfold OQS_SHA3_shake256_inc_finalize. rewrite E4. cbn [mbind option_bind].
  destruct (proj1 (wp_exists _ _) (squeeze_to_ok _ _ dst CTILDEBYTES H4 HM Hd)) as ([d s5] & -> & -> & H5).
  cbn [mbind option_bind]. by apply Hk.
Qed.

(** Vectors on the stack. *)
Lemma stack_vec_ok n : is_vec n (stack_vec n).
Proof using Type.
  unfold stack_vec. split; [apply length_replicate|]. apply Forall_replicate, length_uninit.
Qed.
Lemma stack_mat_ok : length stack_mat = K ∧ Forall (is_vec L) stack_mat.
Proof using Type. split; [apply length_replicate|]. apply Forall_replicate, stack_vec_ok. Qed.

(** The state that an attempt needs: buffers of the right sizes. *)
Record st_ok (s : sign_state) : Prop := {
  ok_sig : length (ss_sig s) = CRYPTO_BYTES;
  ok_y : is_vec L (ss_y s);
  ok_z : is_vec L (ss_z s);
  ok_w1 : is_vec K (ss_w1 s);
  ok_w0 : is_vec K (ss_w0 s);
  ok_h : is_vec K (ss_h s);
  ok_cp : length (ss_cp s) = N;
  ok_state : live (ss_state s);
}.

Lemma mk_st_ok sig nonce y z w1 w0 h cp state :
  length sig = CRYPTO_BYTES → is_vec L y → is_vec L z → is_vec K w1 → is_vec K w0 → is_vec K h →
  length cp = N → live state → st_ok (Build_sign_state sig nonce y z w1 w0 h cp state).
Proof using Type. by constructor. Qed.

(** The outcome of the code against that of [attempt]. *)
Definition refines (spec : option (option (list Z * list (list Z) * list (list Z)))) (nonce : Z)
    (o : option (ctl sign_state sign_state)) : Prop :=
  match spec with
  | None => o = None
  | Some None => wp o (λ c, ∃ s, c = Next s ∧ st_ok s ∧ ss_nonce s = nonce)
  | Some (Some (ct, z, h)) => wp o (λ c, ∃ s, c = Done s ∧ st_ok s ∧
      take CTILDEBYTES (ss_sig s) = ct ∧ ss_z s = z ∧ ss_h s = h)
  end.

Lemma refines_then {A} spec nonce (m : option A) f P :
  wp m P → (∀ a, P a → refines spec nonce (f a)) → refines spec nonce (m ≫= f).
Proof using Type. destruct m as [a|]; cbn; [auto|done]. Qed.

(** The message of the challenge hash. *)
Lemma challenge_ok cp sig ct :
  length cp = N → bytes ct → length ct = CTILDEBYTES → take CTILDEBYTES sig = ct →
  (CTILDEBYTES <= length sig)%nat → poly_challenge callbacks fuel cp sig = sample_challenge callbacks fuel ct.
Proof using SC.
  intros Hcp Hb Hl Ht Hs. unfold sample_challenge. rewrite <-Ht in *. by apply (poly_challenge_exact callbacks).
Qed.

Lemma sample_challenge_ball ct c :
  bytes ct → length ct = CTILDEBYTES → sample_challenge callbacks fuel ct = Some c → ball N c.
Proof using SC.
  intros Hb Hl Hc%sample_in_ball_within_sound. pose proof (sample_in_ball_ball (H ct (8 + TAU * fuel)) ltac:(by apply xof_bytes)) as Hw.
  rewrite Hc in Hw. exact Hw.
Qed.

Context (A : nat → nat → nat → Z) (S1 S2 T0 : nat → nat → Z) (mat : list (list (list Z))).
Context (s1 s2 t0 : list (list Z)) (mu rhoprime : list Z).
Context (HA : is_matrix A mat).
Context (Hs1 : each_poly L (λ j a, rep (9 * Q) (layers 8 (S1 j)) a) s1).
Context (Hs2 : each_poly K (λ i a, rep (9 * Q) (layers 8 (S2 i)) a) s2).
Context (Ht0 : each_poly K (λ i a, rep (9 * Q) (layers 8 (T0 i)) a) t0).
Context (BS2 : ∀ i k, (i < K)%nat → (k < N)%nat → - ETA <= S2 i k <= ETA).
Context (Hmu : bytes mu) (Lmu : length mu = CRHBYTES).
Context (Hrp : bytes rhoprime) (Lrp : length rhoprime = CRHBYTES).

(** The end of an attempt, from the second test on. *)
Definition sign_tail (sig : list Z) (nonce : Z) (y z w1 w0 h : list (list Z)) (cp : list Z)
    (state : keccak_state) : option (ctl sign_state sign_state) :=
  h ← polyveck_pointwise_poly_montgomery h cp s2;
  h ← polyveck_invntt_tomont h;
  w0 ← polyveck_sub w0 w0 h;
  w0 ← polyveck_reduce w0;
  r ← polyveck_chknorm w0 (GAMMA2 - BETA);
  if negb (r =? 0) then Some (Next (Build_sign_state sig nonce y z w1 w0 h cp state)) else
  h ← polyveck_pointwise_poly_montgomery h cp t0;
  h ← polyveck_invntt_tomont h;
  h ← polyveck_reduce h;
  r ← polyveck_chknorm h GAMMA2;
  if negb (r =? 0) then Some (Next (Build_sign_state sig nonce y z w1 w0 h cp state)) else
  w0 ← polyveck_add w0 w0 h;
  '(h, n) ← polyveck_make_hint h w0 w1;
  if Z.of_nat OMEGA <? n then Some (Next (Build_sign_state sig nonce y z w1 w0 h cp state)) else
  Some (Done (Build_sign_state sig nonce y z w1 w0 h cp state)).

Lemma sign_tail_ok sig nonce y z h c cp state (W : nat → nat → Z) ct :
  ball N c → rep (9 * Q) (layers 8 (poly_of c)) cp →
  let w1 := mk_vec K (λ i k, HighBits (W i k)) in
  let w0 := mk_vec K (λ i k, LowBits (W i k)) in
  st_ok (Build_sign_state sig nonce y z w1 w0 h cp state) → take CTILDEBYTES sig = ct →
  let cs2 := λ i k, negmul (poly_of c) (S2 i) k in
  let ct0 := λ i k, negmul (poly_of c) (T0 i) k in
  let hh := λ i k, MakeHint (- ct0 i k) (W i k - cs2 i k + ct0 i k) in
  refines (Some (if small K (λ i k, LowBits (W i k - cs2 i k)) (GAMMA2 - BETA) && small K ct0 GAMMA2 &&
                    (weight hh <=? Z.of_nat OMEGA)
                 then Some (ct, z, mk_vec K hh) else None))
    nonce (sign_tail sig nonce y z w1 w0 h cp state).
Proof using Hs2 Ht0 BS2.
  clear Lmu Lrp. intros Hc Hcp w1 w0 Hst Hct cs2 ct0 hh. destruct Hst as [K1 K2 K3 K4 K5 K6 K7 K8].
  cbn [ss_sig ss_y ss_z ss_w1 ss_w0 ss_h ss_cp ss_state] in *.
  assert (Bc : ∀ i k, (i < K)%nat → (k < N)%nat → Z.abs (cs2 i k) <= BETA).
  { intros i k Hi Hk. apply (ball_product c (S2 i) k Hc Hk). intros j Hj. by apply BS2. }
  unfold sign_tail, polyveck_pointwise_poly_montgomery, polyveck_invntt_tomont, polyveck_sub, polyveck_reduce.
  eapply refines_then; [apply (vec_product_ok K (9 * Q) (9 * Q) (poly_of c) S2); [vec_shape|assumption|assumption|done|done]|]. intros h1 Hh1.
  eapply refines_then; [exact Hh1|]. intros h2 Hh2. cbn beta.
  eapply refines_then.
  { apply (vec_sub_ok K GAMMA2 (Q - 1) (λ i k, LowBits (W i k)) cs2); [done| |exact Hh2|done].
    apply each_mk_vec. intros i Hi. apply rep_mk_poly. intros k Hk. apply (decomp_bits (W i k)). }
  intros w2 Hw2. cbn beta. eapply refines_then; [eapply vec_reduce_ok; [|exact Hw2]; done|]. intros w3 Hw3. cbn beta.
  destruct (vec_chknorm_ok K _ w3 (GAMMA2 - BETA) Hw3) as [E1 X1]; [done|].
  unfold polyveck_chknorm. rewrite E1. cbn [mbind option_bind].
  assert (Esm : small K (λ i k, LowBits (W i k) - cs2 i k) (GAMMA2 - BETA)
              = small K (λ i k, LowBits (W i k - cs2 i k)) (GAMMA2 - BETA)).
  { apply eq_true_iff_eq. rewrite !small_spec.
    split; intros Hs i k Hi Hk; apply (low_bits_check (W i k) (cs2 i k)); auto. }
  cbv beta in Esm. rewrite Esm in *. destruct (small K _ (GAMMA2 - BETA)) eqn:Es1; cbn [andb negb Z.eqb].
  2:{ cbn [refines wp]. eexists. split; [done|]. split; [|done]. apply mk_st_ok; vec_shape. }
  specialize (X1 eq_refl). rewrite small_spec in Es1. subst w3.
  eapply refines_then; [apply (vec_product_ok K (9 * Q) (9 * Q) (poly_of c) T0); [vec_shape|assumption|assumption|done|done]|].
  intros h3 Hh3. eapply refines_then; [exact Hh3|]. intros h4 Hh4. cbn beta.
  eapply refines_then; [eapply vec_reduce_ok; [|exact Hh4]; done|]. intros h5 Hh5. cbn beta.
  destruct (vec_chknorm_ok K _ h5 GAMMA2 Hh5) as [E2 X2]; [done|].
  rewrite E2. cbn [mbind option_bind]. change (λ i k, negmul (poly_of c) (T0 i) k) with ct0.
  change (small K (λ i, negmul (poly_of c) (T0 i)) GAMMA2) with (small K ct0 GAMMA2) in *.
  destruct (small K ct0 GAMMA2) eqn:Es2; cbn [andb negb Z.eqb].
  2:{ cbn [refines wp]. eexists. split; [done|]. split; [|done]. apply mk_st_ok; vec_shape. }
  specialize (X2 eq_refl). rewrite small_spec in Es2. change (h5 = mk_vec K (λ i k, mods (ct0 i k))) in X2. subst h5.
  assert (Hlow : ∀ i k, (i < K)%nat → (k < N)%nat → Z.abs (mods (LowBits (W i k) - cs2 i k)) < GAMMA2).
  { intros i k Hi Hk. pose proof (proj2 (low_bits_check (W i k) (cs2 i k) (Bc i k Hi Hk)) (Es1 i k Hi Hk)).
    unfold BETA in *. lia. }
  rewrite (polyveck_add_exact _ _ _ GAMMA2) by (done || vec_shape). cbn [mbind option_bind].
  unfold w1. rewrite polyveck_make_hint_ok by vec_shape. cbn [mbind option_bind].
  assert (Eh : ∀ i k, (i < K)%nat → (k < N)%nat →
    make_hint (mods (LowBits (W i k) - cs2 i k) + mods (ct0 i k)) (HighBits (W i k)) = hh i k).
  { intros i k Hi Hk. apply hint_check; auto. }
  rewrite (mk_vec_ext K _ hh Eh), (weight_ext _ hh Eh). destruct (Z.ltb_spec (Z.of_nat OMEGA) (weight hh)) as [Hw|Hw].
  - rewrite (proj2 (Z.leb_gt _ _)) by lia. cbn [refines wp]. eexists. split; [done|]. split; [|done].
    apply mk_st_ok; vec_shape.
  - rewrite (proj2 (Z.leb_le _ _)) by lia. cbn [refines wp]. eexists. split; [done|]. split; [|done].
    apply mk_st_ok; vec_shape.
Qed.

Lemma sign_attempt_ok s :
  st_ok s →
  refines (attempt callbacks fuel A S1 S2 T0 mu rhoprime (ss_nonce s)) (u16 (ss_nonce s + 1))
    (sign_attempt callbacks fuel mat s1 s2 t0 mu rhoprime s).
Proof using All.
  intros [K1 K2 K3 K4 K5 K6 K7 K8]. destruct s as [sig nonce y z w1 w0 h cp state].
  cbn [ss_sig ss_nonce ss_y ss_z ss_w1 ss_w0 ss_h ss_cp ss_state] in *.
  unfold sign_attempt, attempt. rewrite (polyvecl_uniform_gamma1_ok callbacks) by (done || lia).
  destruct (proj1 (wp_exists _ _) (expand_mask_ok callbacks rhoprime nonce Hrp)) as (y1 & Ey & Vy).
  rewrite Ey. cbn [mbind option_bind]. set (W := matvec A (coef y1)).
  assert (BW : ∀ i k, 0 <= W i k mod Q < Q) by (intros; by apply Z.mod_pos_bound).
  assert (Ry : each_poly L (λ j a, rep Q (coef y1 j) a) y1).
  { apply (vec_of_rep L Q _ _ Vy). intros x Hx. rewrite GAMMA1_eq in Hx. unfold Q. lia. }
  apply (matvec_then (refines _ _) A (coef y1)); [done|done|done|]. intros z1 w4 Hz1 Hw4. fold W in Hw4.
  eapply refines_then; [eapply vec_caddq_ok; [|exact Hw4]; done|]. intros w5 ->.
  rewrite polyveck_decompose_ok by (done || vec_shape). cbn [mbind option_bind].
  rewrite (mk_vec_ext K (λ i k, HighBits (W i k mod Q)) (λ i k, HighBits (W i k))) by (intros; apply HighBits_mod).
  rewrite (mk_vec_ext K (λ i k, LowBits (W i k mod Q)) (λ i k, LowBits (W i k))) by (intros; apply LowBits_mod).
  assert (HW1 : ∀ i k, 0 <= HighBits (W i k) < 16) by (intros; apply decomp_bits).
  rewrite polyveck_pack_w1_ok; [|rewrite K1; by apply Nat.leb_le|done]. cbn [mbind option_bind].
  set (w1b := w1_encode (λ i k, HighBits (W i k))).
  assert (Bw1 : bytes w1b) by (by apply w1_encode_bytes).
  assert (Lw1 : length w1b = (K * POLYW1_PACKEDBYTES)%nat) by apply length_w1_encode.
  assert (HM : bytes (mu ++ w1b)) by (by apply Forall_app_2).
  set (sig1 := w1b ++ drop (K * POLYW1_PACKEDBYTES) sig).
  assert (Ls1 : length sig1 = CRYPTO_BYTES).
  { unfold sig1. rewrite length_app, length_drop, Lw1, K1. done. }
  apply (oracle_then (refines _ _)); [done|done|done|done|done|fold sig1; rewrite Ls1; by apply Nat.leb_le|].
  intros st5 H5. fold sig1. set (ct := H (mu ++ w1b) CTILDEBYTES).
  assert (Lct : length ct = CTILDEBYTES) by (by apply length_xof).
  assert (Bct : bytes ct) by (by apply xof_bytes).
  assert (Tct : take CTILDEBYTES (ct ++ drop CTILDEBYTES sig1) = ct) by (by apply take_app_length').
  assert (Ls2 : length (ct ++ drop CTILDEBYTES sig1) = CRYPTO_BYTES).
  { rewrite length_app, length_drop, Lct, Ls1. done. }
  rewrite (challenge_ok cp _ ct) by (done || rewrite Ls2; by apply Nat.leb_le).
  destruct (sample_challenge callbacks fuel ct) as [c|] eqn:Ec; cbn [mbind option_bind]; [|done].
  pose proof (sample_challenge_ball ct c Bct Lct Ec) as Hc.
  eapply refines_then; [apply (ntt_layers_ok 1 (poly_of c)); [done|done|by apply poly_of_rep]|].
  intros cp1 Hcp1. apply (rep_mono _ (9 * Q)) in Hcp1; [|done].
  eapply refines_then; [apply (vec_product_ok L (9 * Q) (9 * Q) (poly_of c) S1);
    [vec_shape|assumption|assumption|done|done]|]. intros z2 Hz2.
  eapply refines_then; [exact Hz2|]. intros z3 Hz3.
  eapply refines_then.
  { apply (vec_add_ok L (Q - 1) Q (λ j, negmul (poly_of c) (S1 j)) (coef y1)); [vec_shape|assumption|exact Ry|done]. }
  intros z4 Hz4. eapply refines_then; [eapply (vec_reduce_ok L); [|exact Hz4]; done|]. intros z5 Hz5.
  assert (Hz6 : each_poly L (λ j a, rep 6283009 ((λ j k, coef y1 j k + negmul (poly_of c) (S1 j) k) j) a) z5).
  { eapply (vrep_ext L 6283009); [|exact Hz5]. intros j k _ _. cbn beta. by rewrite Z.add_comm. }
  destruct (vec_chknorm_ok L _ z5 (GAMMA1 - BETA) Hz6) as [E1 X1]; [done|].
  unfold polyvecl_chknorm. rewrite E1. cbn [mbind option_bind].
  destruct (small L _ (GAMMA1 - BETA)) eqn:Es1; cbn [andb negb Z.eqb].
  2:{ cbn [refines wp]. eexists. split; [done|]. split; [|done]. apply mk_st_ok; first [vec_shape | apply Hcp1]. }
  specialize (X1 eq_refl). subst z5.
  apply (sign_tail_ok _ _ y1 _ h c cp1 st5 W ct Hc Hcp1); [|done].
  apply mk_st_ok; first [vec_shape | apply Hcp1].
Qed.
End refine.
