(* ===== verification/MlScheme.v ===== *)
(** ML-DSA-65: key generation, signing and verification against FIPS 204.

    The three functions of sign.c, each equal to the mathematical algorithm on
    polynomials over Z/Q, and the theorem that ties them: what signing returns,
    verification accepts. *)
From S2P Require Import Prelude KeccakP Sha3 Sha3Api MlArith MlNtt MlNttSpec MlPoly MlPack MlKeys MlHints MlSig MlVec MlSample MlExpand MlSign MlAttempt.
Import Fips204.

(** [o] is [spec]; the step rule runs one call of the code. *)
Definition equals {A} (spec o : option A) : Prop := o = spec.
Lemma equals_then {A B} (spec : option B) (m : option A) f P :
  wp m P → (∀ a, P a → equals spec (f a)) → equals spec (m ≫= f).
Proof. destruct m as [a|]; cbn; [auto|done]. Qed.

(** ** Verification *)

(** [loop] over the challenge bytes compares them. *)
Lemma compare_ok c c2 :
  length c = CTILDEBYTES → length c2 = CTILDEBYTES →
  loop (S CTILDEBYTES) (compare_step c c2) 0%nat = Some (if bool_decide (c = c2) then 0 else -1).
Proof.
  intros Hc Hc2. apply wp_eq.
  apply (wp_loop (λ f i, (i <= CTILDEBYTES)%nat ∧ f = (S CTILDEBYTES - i)%nat ∧ take i c = take i c2)).
  - split_and!; [lia|done|done].
  - intros f i (Hi & -> & E). exists (CTILDEBYTES - i)%nat. split; [lia|]. unfold compare_step.
    destruct (Nat.ltb_spec i CTILDEBYTES) as [Hlt|Hge].
    + destruct (lookup_lt_is_Some_2 c i) as [x Hx]; [lia|]. destruct (lookup_lt_is_Some_2 c2 i) as [y Hy]; [lia|].
      rewrite Hx, Hy. cbn [mbind option_bind]. destruct (Z.eqb_spec x y) as [->|Hne]; cbn [wp].
      * split_and!; [lia|lia|]. by rewrite (take_S_r _ _ _ Hx), (take_S_r _ _ _ Hy), E.
      * rewrite bool_decide_eq_false_2; [done|]. intros ->. congruence.
    + cbn [wp]. rewrite !take_ge in E by lia. by rewrite bool_decide_eq_true_2.
Qed.

Section scheme.
Context (callbacks : OQS_SHA3_callbacks) {SC : Sha3Contract callbacks} {U : Uninit} (fuel tries : nat).
Abbreviation H := (xof (o := cb_shake256_inc callbacks)).
Abbreviation live := (x_live (o := cb_shake256_inc callbacks)).

(** The representative of a message: H(tr || pre || m). *)
Definition message_mu (tr pre m : list Z) : list Z := H (tr ++ pre ++ m) CRHBYTES.

(** The end of ML-DSA.Verify_internal, on the decoded key and signature. *)
Definition verify_math (rho : list Z) (T1 : nat → nat → Z) (mu ct : list Z) (z h : nat → nat → Z)
    : option bool :=
  c ← sample_challenge callbacks fuel ct;
  mat ← expand_a callbacks fuel rho;
  let w := λ i k, matvec (matrix_polys mat) z i k - negmul (poly_of c) (λ k, T1 i k * 2 ^ D) k in
  Some (bool_decide (ct = H (mu ++ w1_encode (λ i k, UseHint (h i k) (w i k))) CTILDEBYTES)).

(** Hashing the starts of three buffers, whatever is then done with the result. *)
Lemma hash3_then {B} (R : option B → Prop) state a na b nb c nc dst n (k : list Z * keccak_state → option B) :
  x_abs (o := cb_shake256_inc callbacks) state [] →
  bytes (take na a) → (na <= length a)%nat → bytes (take nb b) → (nb <= length b)%nat →
  bytes (take nc c) → (nc <= length c)%nat → length dst = n →
  (∀ st, live st → R (k (H (take na a ++ take nb b ++ take nc c) n, st))) →
  R (state ← absorb_from callbacks state a na;
     state ← absorb_from callbacks state b nb;
     state ← absorb_from callbacks state c nc;
     state ← OQS_SHA3_shake256_inc_finalize callbacks state;
     p ← squeeze_to callbacks dst n state; k p).
Proof using SC.
  intros Hs Ba La Bb Lb Bc Lc Ld Hk.
  assert (HM : bytes (take na a ++ take nb b ++ take nc c)) by (by repeat apply Forall_app_2).
  destruct (proj1 (wp_exists _ _) (absorb_from_ok callbacks _ _ a na Hs Ba La)) as (s2 & -> & H2).
  cbn [mbind option_bind].
  destruct (proj1 (wp_exists _ _) (absorb_from_ok callbacks _ _ b nb H2 Bb Lb)) as (s3 & -> & H3).
  cbn [mbind option_bind].
  destruct (proj1 (wp_exists _ _) (absorb_from_ok callbacks _ _ c nc H3 Bc Lc)) as (s4 & -> & H4).
  cbn [mbind option_bind]. rewrite app_nil_l, <-!app_assoc in H4.
  destruct (proj1 (wp_exists _ _) (xop_finalize_ok _ _ H4)) as (s5 & E5 & H5).
  unfold OQS_SHA3_shake256_inc_finalize. rewrite E5. cbn [mbind option_bind].
  destruct (proj1 (wp_exists _ _) (squeeze_to_ok callbacks _ _ dst n H5 HM ltac:(lia))) as ([d s6] & -> & -> & H6).
  cbn [mbind option_bind]. rewrite drop_ge, app_nil_r by lia. by apply Hk.
Qed.

(** The part of verification after the norm check. *)
Lemma verify_core sig m pre prelen pk rho t1 ct z h :
  bytes pk → length pk = CRYPTO_PUBLICKEYBYTES → bytes m → bytes (take prelen pre) → (prelen <= length pre)%nat →
  bytes ct → length ct = CTILDEBYTES → bytes rho → length rho = SEEDBYTES →
  unpack_pk (uninit SEEDBYTES) (stack_vec K) pk = Some (rho, t1) →
  unpack_sig (uninit CTILDEBYTES) (stack_vec L) (stack_vec K) sig = Some (0, ct, z, h) →
  vec_of K (λ x, 0 <= x < 2 ^ 10) t1 → vec_of L (λ x, - GAMMA1 < x <= GAMMA1) z → hints_ok h →
  crypto_sign_verify_internal callbacks fuel sig CRYPTO_BYTES m pre prelen pk
  = if small L (coef z) (GAMMA1 - BETA)
    then b ← verify_math rho (coef t1) (message_mu (H pk TRBYTES) (take prelen pre) m) ct (coef z) (coef h);
         Some (if (b : bool) then 0 else -1)
    else Some (-1).
Proof using SC.
  intros Bpk Lpk Bm Bp Lp Bct Lct Brho Lrho Epk Esig Vt Vz Vh.
  set (spec := if small L (coef z) (GAMMA1 - BETA) then _ else _). change (equals spec (crypto_sign_verify_internal
    callbacks fuel sig CRYPTO_BYTES m pre prelen pk)).
  unfold crypto_sign_verify_internal. rewrite Nat.eqb_refl. cbn [negb]. rewrite Epk. cbn [mbind option_bind].
  rewrite Esig. cbn [mbind option_bind negb Z.eqb].
  assert (Rz : each_poly L (λ j a, rep Q (coef z j) a) z).
  { apply (vec_of_rep L Q _ _ Vz). intros x Hx. rewrite GAMMA1_eq in Hx. unfold Q. lia. }
  destruct (vec_chknorm_ok L (coef z) z (GAMMA1 - BETA)) as [E1 _].
  { apply (vec_of_rep L 6283009 _ _ Vz). intros x Hx. rewrite GAMMA1_eq in Hx. lia. }
  { done. }
  unfold polyvecl_chknorm. rewrite E1. cbn [mbind option_bind]. unfold spec. clear spec.
  destruct (small L (coef z) (GAMMA1 - BETA)); cbn [negb Z.eqb]; [|done].
  rewrite read_all by done. cbn [mbind option_bind]. rewrite shake256_ok by done. cbn [mbind option_bind].
  assert (Btr : bytes (H pk TRBYTES)) by (by apply xof_bytes).
  assert (Ltr : length (H pk TRBYTES) = TRBYTES) by (by apply length_xof).
  rewrite write_0 by (rewrite length_uninit, Ltr; done). cbn [mbind option_bind].
  rewrite drop_ge, app_nil_r by (rewrite length_uninit, Ltr; done).
  eapply equals_then; [apply (xop_init_ok (o := cb_shake256_inc callbacks))|]. intros s0 Hs0.
  apply (hash3_then (equals _) _ _ _ _ _ _ _ _ _ _ Hs0);
    [by apply Forall_take|lia|done|done|by apply Forall_take|done|exact Ltr|].
  intros st Hst. rewrite !(take_ge (H pk TRBYTES)), (take_ge m) by lia.
  fold (message_mu (H pk TRBYTES) (take prelen pre) m). set (mu := message_mu _ _ _). unfold verify_math.
  rewrite (challenge_ok callbacks fuel (uninit N) ct ct);
    [|apply length_uninit|done|done|by apply take_ge; lia|lia].
  destruct (sample_challenge callbacks fuel ct) as [c|] eqn:Ec; cbn [mbind option_bind]; [|done].
  pose proof (sample_challenge_ball callbacks fuel ct c Bct Lct Ec) as Hc.
  destruct stack_mat_ok as [Sm1 Sm2]. rewrite (polyvec_matrix_expand_ok callbacks) by (done || lia).
  destruct (expand_a callbacks fuel rho) as [mat|] eqn:Em; cbn [mbind option_bind]; [|done].
  apply expand_a_matrix in Em. set (A := matrix_polys mat) in *.
  set (w := λ i k, matvec A (coef z) i k - negmul (poly_of c) (λ k, coef t1 i k * 2 ^ D) k).
  eapply equals_then; [apply (vec_ntt_ok L Q (coef z)); [done|done|exact Rz]|]. intros z1 Hz1.
  eapply equals_then; [apply (matrix_product_ok A (coef z)); [done|exact Hz1|apply stack_vec_ok]|]. intros w1 Hw1.
  eapply equals_then; [apply (ntt_layers_ok 1 (poly_of c)); [done|done|by apply poly_of_rep]|]. intros cp Hcp.
  assert (Rt : ∀ i k, (i < K)%nat → (k < N)%nat → 0 <= coef t1 i k < 2 ^ 10).
  { intros i k Hi Hk. by apply (coef_range K _ _ i k Vt). }
  assert (Esh : polyveck_shiftl t1 = Some (mk_vec K (λ i k, coef t1 i k * 2 ^ D))).
  { rewrite (vec_coef K t1) at 1 by vec_shape. apply polyveck_shiftl_ok.
    intros i k Hi Hk. specialize (Rt i k Hi Hk). lia. }
  rewrite Esh. cbn [mbind option_bind]. eapply equals_then.
  { apply (vec_ntt_ok K Q (λ i k, coef t1 i k * 2 ^ D)); [done|done|]. apply each_mk_vec. intros i Hi.
    apply rep_mk_poly. intros k Hk. specialize (Rt i k Hi Hk). unfold D, Q. lia. }
  intros t2 Ht2. eapply equals_then.
  { eapply (vec_pointwise_poly_ok K (1 + 8 * Q) (Q + 8 * Q)); [vec_shape|exact Hcp|exact Ht2|done|done]. }
  intros t3 Ht3. eapply equals_then; [eapply (vec_sub_ok K); [vec_shape|exact Hw1|exact Ht3|done]|].
  intros w2 Hw2. eapply equals_then; [eapply (vec_reduce_ok K); [|exact Hw2]; done|]. intros w3 Hw3.
  eapply equals_then.
  { eapply (vec_invntt_ok K _ w); [eapply (vrep_mono K 6283009 Q); [done|exact Hw3]|].
    intros i k Hi Hk. unfold w. rewrite layers_sub, Z.mul_sub_distr_r, <-layers_mul by done. done. }
  intros w4 Hw4. eapply equals_then; [eapply (vec_caddq_ok K); [|exact Hw4]; done|]. intros w5 ->.
  destruct Vh as [Vh _].
  assert (Euh : ∀ x, is_vec K x → polyveck_use_hint x (mk_vec K (λ i k, w i k mod Q)) h
    = Some (mk_vec K (λ i k, UseHint (coef h i k) (w i k mod Q)))).
  { intros x Hx. rewrite (vec_coef K h) at 1 by vec_shape. apply polyveck_use_hint_ok; [done| |].
    - intros. by apply Z.mod_pos_bound.
    - intros i k Hi Hk. by apply (coef_range K _ _ i k Vh). }
  rewrite Euh by vec_shape. cbn [mbind option_bind].
  rewrite (mk_vec_ext K (λ i k, UseHint (coef h i k) (w i k mod Q)) (λ i k, UseHint (coef h i k) (w i k)))
    by (intros; apply UseHint_mod).
  rewrite polyveck_pack_w1_ok; [|by rewrite length_uninit|intros; apply UseHint_range]. cbn [mbind option_bind].
  apply (oracle_then callbacks (equals _));
    [done|by apply xof_bytes; repeat apply Forall_app_2|by apply length_xof; repeat apply Forall_app_2|
     by apply w1_encode_bytes; intros; apply UseHint_range|apply length_w1_encode|by rewrite length_uninit|].
  intros st1 Hst1. destruct (proj1 (wp_exists _ _) (xop_release_ok _ Hst1)) as (st2 & Er & _).
  unfold OQS_SHA3_shake256_inc_ctx_release. rewrite Er. cbn [mbind option_bind].
  rewrite drop_ge, app_nil_r by (by rewrite length_uninit).
  set (c2 := H _ _). unfold equals. rewrite compare_ok; [done|done|]. apply length_xof.
  apply Forall_app_2; [by apply xof_bytes; repeat apply Forall_app_2|].
  apply w1_encode_bytes. intros. apply UseHint_range.
Qed.

(** ** Signing *)

(** The first accepted attempt of at most [n], with the counter kept in 16 bits. *)
Fixpoint first_accept {X} (att : Z → option (option X)) (n : nat) (kappa : Z) : option X :=
  match n with
  | O => None
  | S n =>
      r ← att kappa;
      match r with
      | Some x => Some x
      | None => first_accept att n (u16 (kappa + 1))
      end
  end.

(** ML-DSA.Sign_internal on the decoded key: challenge hash, response, hints. *)
Definition sign_math (rho key tr : list Z) (s1 s2 t0 : list (list Z)) (rnd pre m : list Z)
    : option (list Z * list (list Z) * list (list Z)) :=
  let mu := message_mu tr pre m in
  let rhoprime := H (key ++ rnd ++ mu) CRHBYTES in
  mat ← expand_a callbacks fuel rho;
  first_accept (attempt callbacks fuel (matrix_polys mat) (coef s1) (coef s2) (coef t0) mu rhoprime) tries 0.

(** [sig] is the encoding by FIPS 204 of a challenge hash, a response and hints. *)
Definition encodes (sig ct : list Z) (z h : list (list Z)) : Prop :=
  bytes ct ∧ length ct = CTILDEBYTES ∧ vec_of L (λ x, - GAMMA1 < x <= GAMMA1) z ∧ hints_ok h ∧ sig = sigEncode ct z h.

Lemma pack_sig_encodes sig0 ct z h :
  length sig0 = CRYPTO_BYTES → bytes ct → length ct = CTILDEBYTES → vec_of L (λ x, - GAMMA1 < x <= GAMMA1) z → hints_ok h →
  wp (pack_sig sig0 ct z h) (λ sig, encodes sig ct z h).
Proof using Type. intros Ls Bct Lct Vz Vh. by rewrite (pack_sig_encode sig0 ct z h). Qed.

(** It has the length of signatures, consists of bytes, and decodes to its parts. *)
Lemma encodes_unpack sig ct z h : encodes sig ct z h →
  length sig = CRYPTO_BYTES ∧ bytes sig ∧
  ∀ c0 z0 h0, length c0 = CTILDEBYTES → is_vec L z0 → is_vec K h0 → unpack_sig c0 z0 h0 sig = Some (0, ct, z, h).
Proof using Type.
  intros (Bct & Lct & Vz & Vh & ->).
  pose proof (sig_roundtrip_ok (replicate CRYPTO_BYTES 0) ct z h (length_replicate _ _) Lct Vz Vh) as H.
  rewrite pack_sig_encode in H by (done || apply length_replicate). destruct H as (H1 & H2 & H3). auto.
Qed.

(** What decodes is the encoding. *)
Lemma unpack_encodes c0 z0 h0 sig ct z h :
  length sig = CRYPTO_BYTES → bytes sig → length c0 = CTILDEBYTES → is_vec L z0 → is_vec K h0 →
  unpack_sig c0 z0 h0 sig = Some (0, ct, z, h) → encodes sig ct z h.
Proof using Type.
  intros Ls Bs H1 H2 H3 E. pose proof (unpack_sig_any c0 z0 h0 sig Ls Bs H1 H2 H3) as Hu. rewrite E in Hu.
  destruct Hu as (Lct & -> & Vz & _ & [(_ & Hh & Hp)|]); [|done]. specialize (Hp sig Ls).
  rewrite pack_sig_encode in Hp by done. split_and!; [by apply Forall_take|done|done|done|]. by injection Hp.
Qed.

(** What an accepted attempt returns. *)
Lemma attempt_shape A S1 S2 T0 mu rhoprime kappa ct z h :
  bytes mu → bytes rhoprime →
  attempt callbacks fuel A S1 S2 T0 mu rhoprime kappa = Some (Some (ct, z, h)) →
  bytes ct ∧ length ct = CTILDEBYTES ∧ vec_of L (λ x, - GAMMA1 < x <= GAMMA1) z ∧ hints_ok h.
Proof using Type.
  intros Bmu Brp. unfold attempt.
  destruct (expand_mask callbacks rhoprime kappa) as [y|]; [|done]. cbn [mbind option_bind].
  set (W := matvec A (coef y)). set (ct' := H _ _).
  destruct (sample_challenge callbacks fuel ct') as [c|]; [|done]. cbn [mbind option_bind].
  destruct (small L _ _) eqn:Es; [|done]. destruct (small K _ _); [|done]. destruct (small K _ _); [|done].
  destruct (Z.leb_spec (weight (λ i k, MakeHint (- negmul (poly_of c) (T0 i) k)
    (W i k - negmul (poly_of c) (S2 i) k + negmul (poly_of c) (T0 i) k))) (Z.of_nat OMEGA)) as [Hw|]; [|done].
  cbn [andb]. intros [= <- <- <-].
  assert (HM : bytes (mu ++ w1_encode (λ i k, HighBits (W i k)))).
  { apply Forall_app_2; [done|]. apply w1_encode_bytes. intros. apply decomp_bits. }
  assert (Hbit : ∀ z r, MakeHint z r = 0 ∨ MakeHint z r = 1).
  { intros. unfold MakeHint. case_match; auto. }
  split_and!; [by apply xof_bytes|by apply length_xof| |].
  - apply vec_of_mk. intros j k Hj Hk. rewrite small_spec in Es. specialize (Es j k Hj Hk). cbn beta in Es.
    rewrite GAMMA1_eq in *. unfold BETA in Es. lia.
  - split; [apply vec_of_mk; intros; apply Hbit|].
    apply Nat2Z.inj_le. rewrite positions_weight by (intros; apply Hbit). exact Hw.
Qed.

Lemma first_accept_inv {X} (att : Z → option (option X)) n kappa x :
  first_accept att n kappa = Some x → ∃ kappa', att kappa' = Some (Some x).
Proof using Type.
  revert kappa. induction n as [|n IH]; intros kappa; cbn [first_accept]; [done|].
  destruct (att kappa) as [[y|]|] eqn:E; cbn [mbind option_bind]; [|apply IH|done].
  intros [= ->]. by exists kappa.
Qed.

Lemma pack_sig_take sig c z h :
  (CTILDEBYTES <= length c)%nat → pack_sig sig c z h = pack_sig sig (take CTILDEBYTES c) z h.
Proof using Type.
  intros Hc. unfold pack_sig, copy. rewrite !read_Some by (rewrite ?length_take; lia).
  by rewrite !drop_0, take_take, Nat.min_id.
Qed.

(** The outcome of [crypto_sign_signature_internal]. *)
Definition signs (spec : option (list Z * list (list Z) * list (list Z))) (o : option (Z * list Z * nat)) : Prop :=
  match spec with
  | Some (ct, z, h) => wp o (λ '(ret, sig, siglen), ret = 0 ∧ siglen = CRYPTO_BYTES ∧ encodes sig ct z h)
  | None => o = None
  end.
Lemma signs_then {A} spec (m : option A) f P :
  wp m P → (∀ a, P a → signs spec (f a)) → signs spec (m ≫= f).
Proof using Type. destruct m as [a|]; cbn; [auto|done]. Qed.

Section signing_key.
Context (A : nat → nat → nat → Z) (S1 S2 T0 : nat → nat → Z) (mat : list (list (list Z))).
Context (s1 s2 t0 : list (list Z)) (mu rhoprime : list Z).
Context (HA : is_matrix A mat).
Context (Hs1 : each_poly L (λ j a, rep (9 * Q) (layers 8 (S1 j)) a) s1).
Context (Hs2 : each_poly K (λ i a, rep (9 * Q) (layers 8 (S2 i)) a) s2).
Context (Ht0 : each_poly K (λ i a, rep (9 * Q) (layers 8 (T0 i)) a) t0).
Context (BS2 : ∀ i k, (i < K)%nat → (k < N)%nat → - ETA <= S2 i k <= ETA).
Context (Hmu : bytes mu) (Lmu : length mu = CRHBYTES).
Context (Hrp : bytes rhoprime) (Lrp : length rhoprime = CRHBYTES).

(** The loop, and what follows it. *)
Lemma sign_loop_ok n s :
  st_ok callbacks s →
  signs (first_accept (attempt callbacks fuel A S1 S2 T0 mu rhoprime) n (ss_nonce s))
    (s ← loop n (sign_attempt callbacks fuel mat s1 s2 t0 mu rhoprime) s;
     _ ← OQS_SHA3_shake256_inc_ctx_release callbacks (ss_state s);
     sig ← pack_sig (ss_sig s) (ss_sig s) (ss_z s) (ss_h s);
     Some (0, sig, CRYPTO_BYTES)).
Proof using All.
  revert s. induction n as [|n IH]; intros s Hs; cbn [loop first_accept]; [done|].
  pose proof (sign_attempt_ok callbacks fuel A S1 S2 T0 mat s1 s2 t0 mu rhoprime HA Hs1 Hs2 Ht0 BS2 Hmu Lmu Hrp Lrp
    s Hs) as Ha.
  destruct (attempt callbacks fuel A S1 S2 T0 mu rhoprime (ss_nonce s)) as [[[[ct z] h]|]|] eqn:Ea; cbn [refines] in Ha.
  - destruct (proj1 (wp_exists _ _) Ha) as (c & -> & s' & -> & Hs' & Hct & Hz & Hh).
    destruct (attempt_shape _ _ _ _ _ _ _ _ _ _ Hmu Hrp Ea) as (Bct & Lct & Vz & Vh). cbn [mbind option_bind].
    destruct Hs' as [K1 _ _ _ _ _ _ K8].
    destruct (proj1 (wp_exists _ _) (xop_release_ok _ K8)) as (st & Er & _).
    unfold OQS_SHA3_shake256_inc_ctx_release. rewrite Er. cbn [mbind option_bind].
    rewrite pack_sig_take, Hct, Hz, Hh by (rewrite K1; by apply Nat.leb_le). cbn [signs].
    eapply wp_then; [by apply (pack_sig_encodes _ ct z h K1)|]. intros sig He. cbn [wp]. by split_and!.
  - destruct (proj1 (wp_exists _ _) Ha) as (c & -> & s' & -> & Hs' & <-). cbn [mbind option_bind]. by apply IH.
  - rewrite Ha. done.
Qed.
End signing_key.

(** A secret key and what it decodes to. *)
Record secret_key (sk rho tr key : list Z) (s1 s2 t0 : list (list Z)) : Prop := {
  sk_unpack : ∀ rho' tr' key' t0' s1' s2',
    length rho' = SEEDBYTES → length tr' = TRBYTES → length key' = SEEDBYTES →
    is_vec K t0' → is_vec L s1' → is_vec K s2' →
    unpack_sk rho' tr' key' t0' s1' s2' sk = Some (rho, tr, key, t0, s1, s2);
  sk_rho_bytes : bytes rho ∧ length rho = SEEDBYTES;
  sk_tr_bytes : bytes tr ∧ length tr = TRBYTES;
  sk_key_bytes : bytes key ∧ length key = SEEDBYTES;
  sk_s1_range : vec_of L (λ x, - ETA <= x <= ETA) s1;
  sk_s2_range : vec_of K (λ x, - ETA <= x <= ETA) s2;
  sk_t0_range : vec_of K (λ x, - 2 ^ (D - 1) < x <= 2 ^ (D - 1)) t0;
}.

Lemma sign_internal_ok sig m pre prelen rnd sk rho tr key s1 s2 t0 :
  secret_key sk rho tr key s1 s2 t0 → length sig = CRYPTO_BYTES → bytes m →
  bytes (take prelen pre) → (prelen <= length pre)%nat → bytes rnd → length rnd = RNDBYTES →
  signs (sign_math rho key tr s1 s2 t0 rnd (take prelen pre) m)
    (crypto_sign_signature_internal callbacks fuel tries sig m pre prelen rnd sk).
Proof using SC.
  intros [Hu [Br Lr] [Bt Lt] [Bk Lk] V1 V2 V0] Ls Bm Bp Lp Brnd Lrnd. unfold crypto_sign_signature_internal.
  rewrite Hu; [|apply length_uninit..|apply stack_vec_ok|apply stack_vec_ok|apply stack_vec_ok].
  cbn [mbind option_bind].
  eapply signs_then; [apply (xop_init_ok (o := cb_shake256_inc callbacks))|]. intros st0 H0.
  apply (hash3_then (signs _) _ _ _ _ _ _ _ _ _ _ H0);
    [by apply Forall_take|lia|done|done|by apply Forall_take|done|apply length_uninit|].
  intros st1 H1. rewrite (take_ge tr), (take_ge m) by lia. fold (message_mu tr (take prelen pre) m).
  unfold sign_math. set (mu := message_mu tr _ m).
  assert (Bmu : bytes mu) by (by apply xof_bytes; repeat apply Forall_app_2).
  assert (Lmu : length mu = CRHBYTES) by (by apply length_xof; repeat apply Forall_app_2).
  eapply signs_then; [apply (xop_reset_ok _ H1)|]. intros st2 H2.
  apply (hash3_then (signs _) _ _ _ _ _ _ _ _ _ _ H2);
    [by apply Forall_take|lia|by apply Forall_take|lia|by apply Forall_take|lia|apply length_uninit|].
  intros st3 H3. rewrite (take_ge key), (take_ge rnd), (take_ge mu) by lia. set (rhoprime := H _ _).
  assert (Brp : bytes rhoprime) by (by apply xof_bytes; repeat apply Forall_app_2).
  assert (Lrp : length rhoprime = CRHBYTES) by (by apply length_xof; repeat apply Forall_app_2).
  destruct stack_mat_ok as [Sm1 Sm2]. rewrite (polyvec_matrix_expand_ok callbacks) by (done || lia).
  destruct (expand_a callbacks fuel rho) as [mat|] eqn:Em; cbn [mbind option_bind]; [|done].
  apply expand_a_matrix in Em.
  eapply signs_then; [apply (vec_ntt_ok L Q (coef s1)); [done|done|]|].
  { apply (vec_of_rep L Q _ _ V1). unfold ETA, Q. lia. }
  intros s1h Hs1. eapply signs_then; [apply (vec_ntt_ok K Q (coef s2)); [done|done|]|].
  { apply (vec_of_rep K Q _ _ V2). unfold ETA, Q. lia. }
  intros s2h Hs2. eapply signs_then; [apply (vec_ntt_ok K Q (coef t0)); [done|done|]|].
  { apply (vec_of_rep K Q _ _ V0). unfold D, Q. lia. }
  intros t0h Ht0. refine (sign_loop_ok (matrix_polys mat) (coef s1) (coef s2) (coef t0) mat s1h s2h t0h mu rhoprime
    Em Hs1 Hs2 Ht0 _ Bmu Lmu Brp Lrp tries (Build_sign_state sig 0 _ _ _ _ _ _ st3) _).
  - intros i k Hi Hk. exact (coef_range K _ _ i k V2 Hi Hk).
  - apply mk_st_ok; first [done | apply stack_vec_ok | apply length_uninit].
Qed.

(** ** Correctness *)

(** The verifier's hint gives back the signer's high bits. *)
Lemma use_hint_math W e t r :
  Z.abs e <= BETA → Z.abs (mods (LowBits (W - e))) < GAMMA2 - BETA → Z.abs (mods t) < GAMMA2 →
  r ≡q W - e + t → UseHint (MakeHint (- t) (W - e + t)) r = HighBits W.
Proof using Type.
  intros He Hl Ht Er. pose proof (proj2 (low_bits_check W e He) Hl) as Hw.
  pose proof (decomp_bits W) as (H1 & _ & Ew). set (w0 := mods (LowBits W - e) + mods t).
  pose proof (use_hint_make_hint (HighBits W) w0 H1) as Hu.
  assert (E : (HighBits W * (2 * GAMMA2) + w0) mod Q = r mod Q).
  { apply eqq_mod. rewrite Er. unfold w0. rewrite !mods_eqq.
    transitivity ((HighBits W * (2 * GAMMA2) + LowBits W) - e + t); [apply (eqq_intro _ _ 0); lia|].
    by rewrite <-Ew. }
  pose proof (hint_check W e t He Hl Ht) as Eh. fold w0 in Eh. rewrite E, Eh in Hu.
  rewrite use_hint_eq in Hu by (by apply Z.mod_pos_bound).
  assert (Hb : - (2 * GAMMA2) < w0 < 2 * GAMMA2).
  { unfold w0, BETA in *. change GAMMA2 with 261888 in *. lia. }
  specialize (Hu Hb). injection Hu as Hu. rewrite <-Hu. unfold MakeHint.
  destruct (HighBits (W - e + t) =? HighBits (W - e + t + - t)); cbn [Z.eqb].
  - rewrite HighBits_mod. unfold UseHint, HighBits. by destruct (Decompose r).
  - by rewrite UseHint_mod.
Qed.

(** Accepted attempts verify. *)
Section correct.
Context (rho mu : list Z) (mat : list (list (list Z))) (S1 S2 T1 T0 : nat → nat → Z).
Context (Hmat : expand_a callbacks fuel rho = Some mat).
Context (Hmu : bytes mu).
Context (BS2 : ∀ i k, (i < K)%nat → (k < N)%nat → - ETA <= S2 i k <= ETA).
Context (HT : ∀ i k, (i < K)%nat → (k < N)%nat →
  T1 i k * 2 ^ D + T0 i k ≡q matvec (matrix_polys mat) S1 i k + S2 i k).

(** A z - c t1 2^d = w - c s2 + c t0. *)
Lemma verifier_w c (Y Z : nat → nat → Z) i k :
  (∀ j k, (j < L)%nat → (k < N)%nat → Z j k ≡q Y j k + negmul c (S1 j) k) → (i < K)%nat → (k < N)%nat →
  matvec (matrix_polys mat) Z i k - negmul c (λ k, T1 i k * 2 ^ D) k
  ≡q matvec (matrix_polys mat) Y i k - negmul c (S2 i) k + negmul c (T0 i) k.
Proof using HT.
  intros HZ Hi. revert k. set (A := matrix_polys mat) in *.
  apply (layers_inj (λ k, matvec A Z i k - negmul c (λ k, T1 i k * 2 ^ D) k)
    (λ k, matvec A Y i k - negmul c (S2 i) k + negmul c (T0 i) k)). intros x Hx.
  rewrite layers_sub, layers_add, layers_sub, <-!layers_mul, !layers_matvec by done.
  assert (Et : layers 8 (λ k, T1 i k * 2 ^ D) x
    ≡q psum (λ j, layers 8 (A i j) x * layers 8 (S1 j) x) L + layers 8 (S2 i) x - layers 8 (T0 i) x).
  { rewrite <-layers_matvec, <-layers_add, <-layers_sub by done. apply layers_eqq; [lia|done|]. intros k Hk.
    specialize (HT i k Hi Hk). fold A in HT. rewrite <-HT. apply (eqq_intro _ _ 0). lia. }
  rewrite Et.
  assert (Ez : psum (λ j, layers 8 (A i j) x * layers 8 (Z j) x) L
    ≡q psum (λ j, layers 8 (A i j) x * layers 8 (Y j) x) L
       + layers 8 c x * psum (λ j, layers 8 (A i j) x * layers 8 (S1 j) x) L).
  { rewrite <-psum_scale, <-psum_add. apply psum_eqq. intros j Hj.
    rewrite (layers_eqq 8 (Z j) (λ k, Y j k + negmul c (S1 j) k)) by (lia || done || auto).
    rewrite layers_add, <-layers_mul by done. apply (eqq_intro _ _ 0). lia. }
  rewrite Ez. apply (eqq_intro _ _ 0). lia.
Qed.

Lemma attempt_verifies rhoprime kappa ct z h :
  bytes rhoprime →
  attempt callbacks fuel (matrix_polys mat) S1 S2 T0 mu rhoprime kappa = Some (Some (ct, z, h)) →
  small L (coef z) (GAMMA1 - BETA) = true ∧ verify_math rho T1 mu ct (coef z) (coef h) = Some true.
Proof using Hmat Hmu BS2 HT.
  intros Brp Ha. pose proof (attempt_shape _ _ _ _ _ _ _ _ _ _ Hmu Brp Ha) as (Bct & Lct & _ & _).
  revert Ha. unfold attempt, verify_math.
  destruct (expand_mask callbacks rhoprime kappa) as [y|]; [|done]. cbn [mbind option_bind].
  set (A := matrix_polys mat) in *. set (W := matvec A (coef y)). set (ct' := H _ _).
  destruct (sample_challenge callbacks fuel ct') as [c|] eqn:Ec; [|done]. cbn [mbind option_bind].
  set (zf := λ j k, coef y j k + negmul (poly_of c) (S1 j) k).
  destruct (small L zf _) eqn:Es; [|done].
  destruct (small K (λ i k, LowBits (W i k - negmul (poly_of c) (S2 i) k)) _) eqn:Es1; [|done].
  destruct (small K (λ i k, negmul (poly_of c) (T0 i) k) _) eqn:Es2; [|done]. rewrite small_spec in Es, Es1, Es2.
  cbn [andb]. case_match; [|done]. intros [= <- <- <-]. rewrite Ec. cbn [mbind option_bind].
  pose proof (sample_challenge_ball callbacks fuel ct' c Bct Lct Ec) as Hc. split.
  - apply small_spec. intros j k Hj Hk. rewrite coef_mk by done.
    rewrite (mods_ext _ (zf j k)) by apply mods_eqq. by apply Es.
  - rewrite Hmat. cbn [mbind option_bind]. fold A. rewrite bool_decide_eq_true_2; [done|]. unfold ct'. do 2 f_equal.
    apply w1_encode_ext. intros i k Hi Hk. rewrite coef_mk by done. symmetry. apply use_hint_math.
    + apply (ball_product c (S2 i) k Hc Hk). intros r Hr. by apply BS2.
    + by apply Es1.
    + by apply Es2.
    + apply verifier_w; [|done|done]. intros j r Hj Hr. rewrite coef_mk by done. apply mods_eqq.
Qed.
End correct.

(** ** Key generation *)

(** A pair of keys and what they decode to. *)
Record key_pair (pk sk rho key : list Z) (mat : list (list (list Z))) (s1 s2 t1 t0 : list (list Z)) : Prop := {
  kp_sk : secret_key sk rho (H pk TRBYTES) key s1 s2 t0;
  kp_pk : length pk = CRYPTO_PUBLICKEYBYTES ∧ bytes pk;
  kp_unpack : ∀ rho0 t10, pk_shape rho0 t10 → unpack_pk rho0 t10 pk = Some (rho, t1);
  kp_mat : expand_a callbacks fuel rho = Some mat;
  kp_t1 : vec_of K (λ x, 0 <= x < 2 ^ 10) t1;
  kp_t : ∀ i k, (i < K)%nat → (k < N)%nat →
    coef t1 i k * 2 ^ D + coef t0 i k ≡q matvec (matrix_polys mat) (coef s1) i k + coef s2 i k;
}.

(** The three seeds of ML-DSA.KeyGen_internal. *)
Definition key_seeds (xi : list Z) : list Z := H (xi ++ [Z.of_nat K; Z.of_nat L]) (2 * SEEDBYTES + CRHBYTES).

(** The matrix and the short vectors of the seeds. *)
Definition keygen_math (seeds : list Z) : option (list (list (list Z)) * list (list Z) * list (list Z)) :=
  mat ← expand_a callbacks fuel (take SEEDBYTES seeds);
  s1 ← expand_s callbacks fuel L 0 (drop SEEDBYTES seeds);
  s2 ← expand_s callbacks fuel K L (drop SEEDBYTES seeds);
  Some (mat, s1, s2).

Lemma copy_take n dst off src : (n <= length src)%nat → copy n dst off src 0 = copy n dst off (take n src) 0.
Proof using Type.
  intros Hn. unfold copy. rewrite !read_Some by (rewrite ?length_take; lia).
  by rewrite !drop_0, take_take, Nat.min_id.
Qed.

Context {rng : Type} (randombytes : rng → nat → list Z * rng).
Context (Hrng : ∀ g n, length (randombytes g n).1 = n ∧ bytes (randombytes g n).1).

Definition keys (spec : option (list (list (list Z)) * list (list Z) * list (list Z))) (seeds : list Z)
    (o : option (Z * list Z * list Z * rng)) : Prop :=
  match spec with
  | Some (mat, s1, s2) => wp o (λ '(ret, pk, sk, _), ret = 0 ∧ length sk = CRYPTO_SECRETKEYBYTES ∧ ∃ t1 t0,
      key_pair pk sk (take SEEDBYTES seeds) (drop (SEEDBYTES + CRHBYTES) seeds) mat s1 s2 t1 t0)
  | None => o = None
  end.
Lemma keys_then {A} spec seeds (m : option A) f P :
  wp m P → (∀ a, P a → keys spec seeds (f a)) → keys spec seeds (m ≫= f).
Proof using Type. destruct m as [a|]; cbn; [auto|done]. Qed.

(** The seed expansion at the start. *)
Lemma seeds_then {B} (R : option B → Prop) r (k : list Z → option B) :
  length r = SEEDBYTES → bytes r → R (k (key_seeds r)) →
  R (seedbuf ← write (uninit (2 * SEEDBYTES + CRHBYTES)) 0 r;
     seedbuf ← store seedbuf (SEEDBYTES + 0) (Z.of_nat K);
     seedbuf ← store seedbuf (SEEDBYTES + 1) (Z.of_nat L);
     input ← read seedbuf 0 (SEEDBYTES + 2);
     out ← OQS_SHA3_shake256 callbacks (2 * SEEDBYTES + CRHBYTES)%nat input;
     seedbuf ← write seedbuf 0 out;
     k seedbuf).
Proof using SC.
  intros Lr Br Hk. assert (HM : bytes (r ++ [Z.of_nat K; Z.of_nat L])).
  { apply Forall_app_2; [done|]. repeat constructor; unfold K, L; lia. }
  rewrite write_0 by (rewrite length_uninit, Lr; by apply Nat.leb_le). cbn [mbind option_bind].
  set (rest := drop (length r) (uninit _)).
  assert (Lrest : length rest = (SEEDBYTES + CRHBYTES)%nat).
  { unfold rest. rewrite length_drop, length_uninit, Lr. done. }
  destruct rest as [|x [|y rest]]; [done|done|].
  rewrite store_ok by (rewrite length_app, Lr, Lrest; by apply Nat.ltb_lt). cbn [mbind option_bind].
  rewrite insert_app_r_alt by lia. rewrite Lr, Nat.add_0_r, Nat.sub_diag. cbn [insert list_insert].
  rewrite store_ok by (rewrite length_app, Lr; cbn [length] in *; lia). cbn [mbind option_bind].
  rewrite insert_app_r_alt by lia. rewrite Lr. replace (SEEDBYTES + 1 - SEEDBYTES)%nat with 1%nat by lia.
  cbn [insert list_insert].
  change (Z.of_nat K :: Z.of_nat L :: rest) with ([Z.of_nat K; Z.of_nat L] ++ rest). rewrite app_assoc.
  rewrite read_prefix by (rewrite length_app, Lr; done). cbn [mbind option_bind].
  rewrite shake256_ok by done. cbn [mbind option_bind]. fold (key_seeds r).
  assert (Le : length (key_seeds r) = (2 * SEEDBYTES + CRHBYTES)%nat) by (by apply length_xof).
  rewrite write_0 by (rewrite Le, !length_app, Lr; cbn [length] in *; lia). cbn [mbind option_bind].
  rewrite drop_ge, app_nil_r by (rewrite Le, !length_app, Lr; cbn [length] in *; lia). exact Hk.
Qed.

(** The end of key generation: t = A s1 + s2, rounded and packed with the rest. *)
Lemma keypair_tail pk0 sk0 g seeds mat s1 s2 :
  length pk0 = CRYPTO_PUBLICKEYBYTES → length sk0 = CRYPTO_SECRETKEYBYTES →
  bytes seeds → length seeds = (2 * SEEDBYTES + CRHBYTES)%nat →
  expand_a callbacks fuel (take SEEDBYTES seeds) = Some mat →
  vec_of L (λ x, - ETA <= x <= ETA) s1 → vec_of K (λ x, - ETA <= x <= ETA) s2 →
  keys (Some (mat, s1, s2)) seeds
    (s1hat ← polyvecl_ntt s1;
     t1 ← polyvec_matrix_pointwise_montgomery (stack_vec K) mat s1hat;
     t1 ← polyveck_reduce t1;
     t1 ← polyveck_invntt_tomont t1;
     t1 ← polyveck_add t1 t1 s2;
     t1 ← polyveck_caddq t1;
     '(t1, t0) ← polyveck_power2round t1 (stack_vec K) t1;
     pk ← pack_pk pk0 seeds t1;
     input ← read pk 0 CRYPTO_PUBLICKEYBYTES;
     out ← OQS_SHA3_shake256 callbacks TRBYTES input;
     tr ← write (uninit TRBYTES) 0 out;
     sk ← pack_sk sk0 seeds tr (drop CRHBYTES (drop SEEDBYTES seeds)) t0 s1 s2;
     Some (0, pk, sk, g)).
Proof using SC.
  intros Lpk Lsk Bs Ls Em V1 V2. pose proof (expand_a_matrix _ _ _ _ Em) as HA. set (A := matrix_polys mat) in *.
  apply (matvec_then (keys _ _) A (coef s1)); [done| |apply stack_vec_ok|].
  { apply (vec_of_rep L Q _ _ V1). unfold ETA, Q. lia. }
  intros s1h t Hs1 Ht. set (T := λ i k, matvec A (coef s1) i k + coef s2 i k).
  eapply keys_then.
  { apply (vec_add_ok K INVNTT_BOUND ETA (matvec A (coef s1)) (coef s2)); [vec_shape|exact Ht| |done].
    apply (vec_of_rep K ETA _ _ V2). done. }
  intros t2 Ht2. eapply keys_then; [eapply (vec_caddq_ok K (INVNTT_BOUND + ETA) T); [done|exact Ht2]|]. intros t3 ->.
  rewrite polyveck_power2round_ok; [|vec_shape|apply stack_vec_ok|intros; by apply Z.mod_pos_bound].
  cbn [mbind option_bind]. set (t1 := mk_vec K (λ i k, (Power2Round (T i k mod Q)).1)).
  set (t0 := mk_vec K (λ i k, (Power2Round (T i k mod Q)).2)).
  assert (R : ∀ i k, let '(a1, a0) := Power2Round (T i k mod Q) in
    T i k mod Q = a1 * 2 ^ D + a0 ∧ - 2 ^ (D - 1) < a0 <= 2 ^ (D - 1) ∧ 0 <= a1 < 2 ^ 10).
  { intros i k. pose proof (Power2Round_range (T i k mod Q)) as HR. by rewrite Z.mod_mod in HR. }
  assert (V1' : vec_of K (λ x, 0 <= x < 2 ^ 10) t1).
  { apply vec_of_mk. intros i k _ _. specialize (R i k). destruct (Power2Round _). apply R. }
  assert (V0' : vec_of K (λ x, - 2 ^ (D - 1) < x <= 2 ^ (D - 1)) t0).
  { apply vec_of_mk. intros i k _ _. specialize (R i k). destruct (Power2Round _). apply R. }
  assert (Brho : bytes (take SEEDBYTES seeds)) by (by apply Forall_take).
  assert (Lrho : length (take SEEDBYTES seeds) = SEEDBYTES) by (rewrite length_take; lia).
  rewrite drop_drop. set (key := drop (SEEDBYTES + CRHBYTES) seeds) in *.
  assert (Bkey : bytes key) by (by apply Forall_drop).
  assert (Lkey : length key = SEEDBYTES) by (unfold key; rewrite length_drop; lia).
  unfold pack_pk. rewrite copy_take by lia. fold (pack_pk pk0 (take SEEDBYTES seeds) t1).
  eapply keys_then; [by apply pk_roundtrip|]. intros pk (Lpk' & Bpk & Hpk). specialize (Bpk Brho).
  rewrite read_all by done. cbn [mbind option_bind]. rewrite shake256_ok by done. cbn [mbind option_bind].
  assert (Btr : bytes (H pk TRBYTES)) by (by apply xof_bytes).
  assert (Ltr : length (H pk TRBYTES) = TRBYTES) by (by apply length_xof).
  rewrite write_0 by (rewrite length_uninit, Ltr; done). cbn [mbind option_bind].
  rewrite drop_ge, app_nil_r by (rewrite length_uninit, Ltr; done).
  unfold pack_sk. rewrite copy_take by lia. fold (pack_sk sk0 (take SEEDBYTES seeds) (H pk TRBYTES) key t0 s1 s2).
  eapply keys_then; [by apply (sk_roundtrip sk0)|]. intros sk [Lsk' Hsk]. cbn [keys wp].
  split_and!; [done|done|]. exists t1, t0. constructor; [|done|done|done|done|].
  - by constructor.
  - intros i k Hi Hk. unfold t1, t0. rewrite !coef_mk by done. fold A (T i k). specialize (R i k).
    destruct (Power2Round (T i k mod Q)) as [a1 a0]. destruct R as (E & _). cbn [fst snd]. rewrite <-E. apply mod_eqq.
Qed.

Lemma keypair_ok pk0 sk0 g :
  length pk0 = CRYPTO_PUBLICKEYBYTES → length sk0 = CRYPTO_SECRETKEYBYTES →
  let seeds := key_seeds (randombytes g SEEDBYTES).1 in
  keys (keygen_math seeds) seeds (crypto_sign_keypair callbacks fuel randombytes pk0 sk0 g).
Proof using Hrng.
  intros Lpk Lsk. cbv zeta. unfold crypto_sign_keypair. destruct (Hrng g SEEDBYTES) as [Lr Br].
  destruct (randombytes g SEEDBYTES) as [r g']. cbn [fst] in *. set (seeds := key_seeds r).
  apply (seeds_then (keys _ _)); [done|done|]. fold seeds.
  assert (HM : bytes (r ++ [Z.of_nat K; Z.of_nat L])).
  { apply Forall_app_2; [done|]. repeat constructor; unfold K, L; lia. }
  assert (Bs : bytes seeds) by (by apply xof_bytes).
  assert (Ls : length seeds = (2 * SEEDBYTES + CRHBYTES)%nat) by (by apply length_xof).
  clearbody seeds. unfold keygen_math. destruct stack_mat_ok as [Sm1 Sm2].
  rewrite (polyvec_matrix_expand_ok callbacks) by (done || lia).
  assert (Ea : expand_a callbacks fuel seeds = expand_a callbacks fuel (take SEEDBYTES seeds)).
  { unfold expand_a. by rewrite take_take, Nat.min_id. }
  rewrite Ea. destruct (expand_a callbacks fuel (take SEEDBYTES seeds)) as [mat|] eqn:Em;
    cbn [mbind option_bind]; [|done].
  assert (Brp : bytes (drop SEEDBYTES seeds)) by (by apply Forall_drop).
  assert (Lrp : (CRHBYTES <= length (drop SEEDBYTES seeds))%nat) by (rewrite length_drop; lia).
  assert (Es1 : polyvecl_uniform_eta callbacks fuel (stack_vec L) (drop SEEDBYTES seeds) 0
    = expand_s callbacks fuel L 0 (drop SEEDBYTES seeds)).
  { apply (uniform_eta_ok callbacks fuel L 0); done || apply stack_vec_ok || by apply Nat.leb_le. }
  assert (Es2 : polyveck_uniform_eta callbacks fuel (stack_vec K) (drop SEEDBYTES seeds) (Z.of_nat L)
    = expand_s callbacks fuel K L (drop SEEDBYTES seeds)).
  { apply (uniform_eta_ok callbacks fuel K L); done || apply stack_vec_ok || by apply Nat.leb_le. }
  rewrite Es1. 
  destruct (expand_s callbacks fuel L 0 (drop SEEDBYTES seeds)) as [s1|] eqn:E1; cbn [mbind option_bind]; [|done].
  rewrite Es2. destruct (expand_s callbacks fuel K L (drop SEEDBYTES seeds)) as [s2|] eqn:E2; cbn [mbind option_bind]; [|done].
  apply keypair_tail; [done|done|done|done|done| |].
  - apply (expand_s_shape callbacks fuel L 0 _ _ Brp ltac:(by apply Nat.leb_le) E1).
  - apply (expand_s_shape callbacks fuel K L _ _ Brp ltac:(by apply Nat.leb_le) E2).
Qed.

(** ** Signing and verifying with a context string *)

Lemma prepare_pre_ok ctx n :
  (n <= 255)%nat → (n <= length ctx)%nat →
  wp (prepare_pre ctx n) (λ pre, length pre = 257%nat ∧ take (2 + n) pre = [0; Z.of_nat n] ++ take n ctx).
Proof using Type.
  intros Hn Hl. unfold prepare_pre.
  pose proof (length_uninit 257) as Lu. destruct (uninit 257) as [|x [|y u]]; [done|done|].
  rewrite store_ok by (cbn [length]; lia). cbn [mbind option_bind insert list_insert].
  rewrite store_ok by (cbn [length]; lia). cbn [mbind option_bind insert list_insert].
  rewrite u8_small by (unfold in_u8; lia).
  apply (wp_for (λ i pre, length pre = 257%nat ∧ take (2 + i) pre = [0; Z.of_nat n] ++ take i ctx)).
  - split; [exact Lu|done].
  - intros i pre Hi [Lp Ep]. destruct (lookup_lt_is_Some_2 ctx i) as [b Hb]; [lia|].
    eapply wp_step; [exact Hb|]. rewrite store_ok by lia. cbn [wp]. rewrite length_insert. split; [done|].
    change (2 + S i)%nat with (S (2 + i)). rewrite (take_S_r _ _ b) by (apply list_lookup_insert_eq; lia).
    rewrite take_insert_ge by lia. rewrite Ep, (take_S_r _ _ _ Hb). by rewrite app_assoc.
  - intros pre [? ?]. done.
Qed.

Definition with_ctx (ctx : list Z) (n : nat) : list Z := [0; Z.of_nat n] ++ take n ctx.
Lemma with_ctx_bytes ctx n : (n <= 255)%nat → bytes ctx → bytes (with_ctx ctx n).
Proof using Type.
  intros Hn Hb. apply Forall_app_2; [|by apply Forall_take]. repeat constructor; lia.
Qed.

(** The outcome of [crypto_sign_signature] for a context of at most 255 bytes. *)
Lemma signature_ok sig siglen m ctx n sk rho tr key s1 s2 t0 g :
  secret_key sk rho tr key s1 s2 t0 → length sig = CRYPTO_BYTES → bytes m → bytes ctx →
  (n <= 255)%nat → (n <= length ctx)%nat →
  match sign_math rho key tr s1 s2 t0 (randombytes g RNDBYTES).1 (with_ctx ctx n) m with
  | Some (ct, z, h) =>
      wp (crypto_sign_signature callbacks fuel tries randombytes sig siglen m ctx n sk g) (λ '(ret, sig, siglen, g'),
        ret = 0 ∧ siglen = CRYPTO_BYTES ∧ g' = (randombytes g RNDBYTES).2 ∧ encodes sig ct z h)
  | None => crypto_sign_signature callbacks fuel tries randombytes sig siglen m ctx n sk g = None
  end.
Proof using SC Hrng.
  intros Hsk Ls Bm Bc Hn Hl. unfold crypto_sign_signature. rewrite (proj2 (Nat.ltb_ge _ _)) by lia.
  destruct (proj1 (wp_exists _ _) (prepare_pre_ok ctx n Hn Hl)) as (pre & -> & Lp & Ep). cbn [mbind option_bind].
  destruct (Hrng g RNDBYTES) as [Lr Br]. destruct (randombytes g RNDBYTES) as [r g']. cbn [fst snd] in *.
  rewrite write_0 by (rewrite length_uninit; lia). cbn [mbind option_bind].
  rewrite drop_ge, app_nil_r by (rewrite length_uninit; lia).
  pose proof (sign_internal_ok sig m pre (2 + n) r sk rho tr key s1 s2 t0 Hsk Ls Bm) as Hs. rewrite Ep in Hs.
  specialize (Hs (with_ctx_bytes ctx n Hn Bc) ltac:(lia) Br Lr). fold (with_ctx ctx n) in Hs.
  destruct (sign_math rho key tr s1 s2 t0 r (with_ctx ctx n) m) as [[[ct z] h]|]; cbn [signs] in Hs.
  - destruct (proj1 (wp_exists _ _) Hs) as ([[ret sg] len] & -> & -> & -> & He). by cbn [mbind option_bind wp].
  - by rewrite Hs.
Qed.

(** The outcome of [crypto_sign_verify] on a well-formed signature. *)
Lemma verify_ok sig m ctx n pk rho t1 ct z h :
  bytes pk → length pk = CRYPTO_PUBLICKEYBYTES → bytes m → bytes ctx → (n <= 255)%nat → (n <= length ctx)%nat →
  bytes ct → length ct = CTILDEBYTES → bytes rho → length rho = SEEDBYTES →
  (∀ rho0 t10, pk_shape rho0 t10 → unpack_pk rho0 t10 pk = Some (rho, t1)) → encodes sig ct z h →
  vec_of K (λ x, 0 <= x < 2 ^ 10) t1 → vec_of L (λ x, - GAMMA1 < x <= GAMMA1) z → hints_ok h →
  crypto_sign_verify callbacks fuel sig CRYPTO_BYTES m ctx n pk
  = if small L (coef z) (GAMMA1 - BETA)
    then b ← verify_math rho (coef t1) (message_mu (H pk TRBYTES) (with_ctx ctx n) m) ct (coef z) (coef h);
         Some (if (b : bool) then 0 else -1)
    else Some (-1).
Proof using SC.
  intros Bpk Lpk Bm Bc Hn Hl Bct Lct Brho Lrho Hpk (_ & _ & Hsig)%encodes_unpack Vt Vz Vh. unfold crypto_sign_verify.
  rewrite (proj2 (Nat.ltb_ge _ _)) by lia.
  destruct (proj1 (wp_exists _ _) (prepare_pre_ok ctx n Hn Hl)) as (pre & -> & Lp & Ep). cbn [mbind option_bind].
  rewrite (verify_core sig m pre (2 + n) pk rho t1 ct z h); [by rewrite Ep|done|done|done| |lia|done|done|done|done| | |done..].
  - rewrite Ep. by apply with_ctx_bytes.
  - apply Hpk. split; [apply length_uninit|apply stack_vec_ok].
  - apply Hsig; [apply length_uninit|apply stack_vec_ok..].
Qed.

(** Signatures of a key verify under it. *)
Lemma sign_math_verifies pk sk rho key mat s1 s2 t1 t0 rnd m ctx n ct z h :
  key_pair pk sk rho key mat s1 s2 t1 t0 → bytes rnd → bytes m → bytes ctx → (n <= 255)%nat →
  sign_math rho key (H pk TRBYTES) s1 s2 t0 rnd (with_ctx ctx n) m = Some (ct, z, h) →
  (bytes ct ∧ length ct = CTILDEBYTES ∧ vec_of L (λ x, - GAMMA1 < x <= GAMMA1) z ∧ hints_ok h) ∧
  small L (coef z) (GAMMA1 - BETA) = true ∧
  verify_math rho (coef t1) (message_mu (H pk TRBYTES) (with_ctx ctx n) m) ct (coef z) (coef h) = Some true.
Proof using SC.
  intros Hk Br Bm Bc Hn. pose proof (kp_mat _ _ _ _ _ _ _ _ _ Hk) as Em. unfold sign_math. rewrite Em.
  cbn [mbind option_bind]. destruct Hk as [Hsk [Lpk Bpk] _ _ _ HT]. destruct Hsk as [_ _ [Btr _] [Bkey _] _ V2 _].
  set (mu := message_mu _ _ _). set (rhoprime := H _ _).
  assert (Bmu : bytes mu).
  { apply xof_bytes, Forall_app_2; [done|]. apply Forall_app_2; [by apply with_ctx_bytes|done]. }
  assert (Brp : bytes rhoprime) by (by apply xof_bytes; repeat apply Forall_app_2).
  intros [kappa Ha]%first_accept_inv. split; [exact (attempt_shape _ _ _ _ _ _ _ _ _ _ Bmu Brp Ha)|].
  refine (attempt_verifies rho mu mat (coef s1) (coef s2) (coef t1) (coef t0) Em Bmu _ HT rhoprime kappa ct z h Brp Ha).
  intros i k Hi Hk. exact (coef_range K _ _ i k V2 Hi Hk).
Qed.
End scheme.
