(* ===== verification/MlToy.v ===== *)
(** ML-DSA-65: a small instance.

    A table of callbacks whose streams repeat one byte keeps the contract
    [Sha3Contract]: 0 for SHAKE128, so that the expanded matrix is zero, and 68
    for SHAKE256, so that the short vectors are zero and every mask coefficient
    is 244668.  Key generation and the first signing attempt succeed with it;
    the theorems of MlDsa.v are instantiated here without computing transforms. *)
From S2P Require Import Prelude KeccakP Sha3 Sha3Api MlArith MlNtt MlNttSpec MlPoly MlPack MlKeys MlHints MlSig MlVec MlSample MlExpand MlSign MlAttempt MlScheme.
Import Fips204.

Definition live_ctx (s : keccak_state) : option keccak_state :=
  match s with Some c => Some (Some c) | None => None end.

Definition repeat_ops (b : Z) : shake_inc_ops := {|
  xop_init := Some (Some (KeccakCtx [] 0));
  xop_absorb s _ := live_ctx s;
  xop_finalize := live_ctx;
  xop_squeeze len s := s ← live_ctx s; Some (replicate len b, s);
  xop_release s := _ ← live_ctx s; Some None;
  xop_clone d s := _ ← live_ctx d; live_ctx s;
  xop_reset := live_ctx;
|}.

Definition fixed_ops : sha3_inc_ops := {|
  op_init := Some (Some (KeccakCtx [] 0));
  op_absorb s _ := live_ctx s;
  op_finalize s := s ← live_ctx s; Some (replicate 32 0, s);
  op_release s := _ ← live_ctx s; Some None;
  op_reset := live_ctx;
  op_clone d s := _ ← live_ctx d; live_ctx s;
|}.

#[local] Obligation Tactic := idtac.
#[export] Instance repeat_contract b : in_u8 b → XofContract (repeat_ops b).
Proof.
  intros Hb. refine {|
    xof _ n := replicate n b;
    x_live s := is_Some s;
    x_abs s _ := is_Some s;
    x_sqz s _ _ := is_Some s; |}.
  - done.
  - done.
  - intros. apply length_replicate.
  - intros. by apply Forall_replicate.
  - intros. by rewrite take_replicate, Nat.min_l.
  - by eexists.
  - intros s _ m [c ->] _. by eexists.
  - intros s _ [c ->]. by eexists.
  - intros s _ n len [c ->]. cbn. split; [|by eexists]. by rewrite drop_replicate, Nat.add_sub'.
  - intros s [c ->]. done.
  - intros d s _ [c ->] [c' ->]. by eexists.
  - intros d s _ n [c ->] [c' ->]. by eexists.
  - intros s [c ->]. by eexists.
Defined.

#[export] Instance fixed_contract : HashContract fixed_ops.
Proof.
  refine {| hash _ := replicate 32 0; h_live s := is_Some s; h_abs s _ := is_Some s; |}.
  - done.
  - by eexists.
  - intros s _ m [c ->] _. by eexists.
  - intros s _ [c ->]. split; [done|by eexists].
  - intros s [c ->]. done.
  - intros d s _ [c ->] [c' ->]. by eexists.
  - intros s [c ->]. by eexists.
Defined.

Definition toy_callbacks : OQS_SHA3_callbacks := {|
  cb_sha3_256 _ _ := Some (replicate 32 0); cb_sha3_256_inc := fixed_ops;
  cb_sha3_384 _ _ := Some (replicate 32 0); cb_sha3_384_inc := fixed_ops;
  cb_sha3_512 _ _ := Some (replicate 32 0); cb_sha3_512_inc := fixed_ops;
  cb_shake128 _ n _ := Some (replicate n 0); cb_shake128_inc := repeat_ops 0;
  cb_shake256 _ n _ := Some (replicate n 68); cb_shake256_inc := repeat_ops 68;
|}.

Lemma byte_0 : in_u8 0. Proof. unfold in_u8. lia. Qed.
Lemma byte_68 : in_u8 68. Proof. unfold in_u8. lia. Qed.

#[export] Instance toy_contract : Sha3Contract toy_callbacks.
Proof.
  refine (Build_Sha3Contract toy_callbacks fixed_contract fixed_contract fixed_contract
    (repeat_contract 0 byte_0) (repeat_contract 68 byte_68) _ _ _ _ _); done.
Defined.

(** A generator of zeros and a stack of zeros. *)
Definition zeros (_ : unit) (n : nat) : list Z * unit := (replicate n 0, tt).
Lemma zeros_ok g n : length (zeros g n).1 = n ∧ bytes (zeros g n).1.
Proof. split; [apply length_replicate|]. apply Forall_replicate, byte_0. Qed.
#[export] Instance zero_stack : Uninit := {| uninit n := replicate n 0; length_uninit n := length_replicate n 0 |}.

(** ** Expansion *)
Definition zero_polys (n : nat) : list (list Z) := replicate n (replicate N 0).
Definition zero_matrix : list (list (list Z)) := replicate K (zero_polys L).

Lemma toy_expand_a rho : expand_a toy_callbacks 1 rho = Some zero_matrix.
Proof. vm_compute. reflexivity. Qed.
Lemma toy_expand_s n off rp : expand_s toy_callbacks 1 n off rp = Some (zero_polys n).
Proof.
  unfold expand_s. assert (E : ∀ M, sampled (eta_acc toy_callbacks M) 1 = Some (replicate N 0)) by (intros; vm_compute; reflexivity).
  unfold zero_polys. generalize 0%nat at 2. induction n as [|n IH]; intros s; [done|].
  cbn [seq mapM]. rewrite E. cbn [mbind option_bind]. specialize (IH (S s)).
  change (foldr _ _ (seq (S s) n)) with (mapM (λ i, sampled (eta_acc toy_callbacks
    (take CRHBYTES rp ++ [Z.of_nat (off + i); 0])) 1) (seq (S s) n)). by rewrite IH.
Qed.
Lemma toy_mask rp kappa : expand_mask toy_callbacks rp kappa = Some (replicate L (replicate N 244668)).
Proof. vm_compute. reflexivity. Qed.
Lemma toy_challenge : is_Some (sample_challenge toy_callbacks 1 (replicate CTILDEBYTES 68)).
Proof. vm_compute. eexists. reflexivity. Qed.

(** ** The first attempt *)
Lemma coef_replicate n x i k : (i < n)%nat → (k < N)%nat → coef (replicate n (replicate N x)) i k = x.
Proof.
  intros Hi Hk. unfold coef. rewrite (list_lookup_total_correct _ _ (replicate N x)) by (by apply lookup_replicate_2).
  by rewrite (list_lookup_total_correct _ _ x) by (by apply lookup_replicate_2).
Qed.

Lemma psum_zero f n : (∀ r, (r < n)%nat → f r ≡q 0) → psum f n ≡q 0.
Proof.
  intros Hf. induction n as [|n IH]; [done|]. cbn [psum]. rewrite IH, Hf by auto. done.
Qed.

Lemma negmul_zero_r C F k : (k < N)%nat → (∀ i, (i < N)%nat → F i = 0) → negmul C F k = 0.
Proof.
  intros Hk HF. pose proof (negmul_bound C F 0 k Hk ltac:(intros i Hi; rewrite HF by done; lia)). lia.
Qed.

Lemma zero_matvec Y i k : (i < K)%nat → (k < N)%nat → matvec (matrix_polys zero_matrix) Y i k ≡q 0.
Proof.
  intros Hi Hk. apply psum_zero. intros j Hj. apply psum_zero. intros r Hr.
  assert (E : matrix_polys zero_matrix i j r ≡q 0); [|rewrite E; done].
  revert r Hr. apply (layers_inj _ (λ _, 0)). intros x Hx. unfold matrix_polys. rewrite layers_unlayers by (done || lia).
  unfold zero_matrix. rewrite (list_lookup_total_correct _ _ (zero_polys L)) by (by apply lookup_replicate_2).
  rewrite (list_lookup_total_correct _ _ (replicate N 0)) by (by apply lookup_replicate_2).
  rewrite (list_lookup_total_correct _ _ 0) by (by apply lookup_replicate_2).
  assert (Z0 : ∀ l x, layers l (λ _, 0) x = 0).
  { induction l as [|l IH]; intros y; [done|]. cbn [layers]. unfold fwd. rewrite !IH. case_match; lia. }
  by rewrite Z0.
Qed.

Lemma psum_all_zero f n : (∀ r, (r < n)%nat → f r = 0) → psum f n = 0.
Proof. intros Hf. induction n as [|n IH]; [done|]. cbn [psum]. rewrite IH, Hf by auto. done. Qed.

Lemma bits_small x : Z.abs x < GAMMA2 → HighBits x = 0 ∧ LowBits x = x.
Proof. intros Hx. apply decomp_small; [lia|lia|]. apply (eqq_intro _ _ 0). lia. Qed.

Lemma low_bits_zero x : x ≡q 0 → Z.abs (mods (LowBits x)) < GAMMA2 - BETA.
Proof. intros Hx. rewrite (LowBits_eqq x 0 Hx). vm_compute. reflexivity. Qed.

Lemma small_mods t : Z.abs t <= 49 → Z.abs (mods t) < GAMMA2.
Proof.
  intros Ht. rewrite (mods_unique t t); [change GAMMA2 with 261888; lia|by apply (eqq_intro _ _ 0); lia|unfold Q; lia].
Qed.
Lemma no_hint w t : w ≡q 0 → Z.abs t <= 49 → MakeHint (- t) (w + t) = 0.
Proof.
  intros Hw Ht. unfold MakeHint.
  rewrite (HighBits_eqq (w + t) t) by (rewrite Hw; apply (eqq_intro _ _ 0); lia).
  rewrite (HighBits_eqq (w + t + - t) 0) by (rewrite Hw; apply (eqq_intro _ _ 0); lia).
  destruct (bits_small t) as [-> _]; [change GAMMA2 with 261888; lia|]. reflexivity.
Qed.

Section toy_attempt.
Context (T0 : nat → nat → Z) (HT0 : ∀ i k, (i < K)%nat → (k < N)%nat → - 1 <= T0 i k <= 1).

Lemma toy_attempt mu rp :
  ∃ x, attempt toy_callbacks 1 (matrix_polys zero_matrix) (coef (zero_polys L)) (coef (zero_polys K)) T0 mu rp 0
       = Some (Some x).
Proof using HT0.
  unfold attempt. rewrite toy_mask. cbn [mbind option_bind]. set (W := matvec _ _).
  change (xof (mu ++ w1_encode (λ i k, HighBits (W i k))) CTILDEBYTES) with (replicate CTILDEBYTES 68).
  destruct toy_challenge as [c Ec]. rewrite Ec. cbn [mbind option_bind].
  assert (Hc : ball N c).
  { apply (sample_challenge_ball toy_callbacks 1 _ c) in Ec; [done|apply Forall_replicate, byte_68|apply length_replicate]. }
  assert (HW : ∀ i k, (i < K)%nat → (k < N)%nat → W i k ≡q 0) by (intros i k Hi Hk; exact (zero_matvec _ i k Hi Hk)).
  clearbody W.
  assert (HS : ∀ n i k, (i < n)%nat → (k < N)%nat → negmul (poly_of c) (coef (zero_polys n) i) k = 0).
  { intros n i k Hi Hk. apply negmul_zero_r; [done|]. intros r Hr. by apply coef_replicate. }
  assert (Ht : ∀ i k, (i < K)%nat → (k < N)%nat → Z.abs (negmul (poly_of c) (T0 i) k) <= 49).
  { intros i k Hi Hk. etransitivity; [apply (negmul_bound _ _ 1 k Hk); intros r Hr; by apply HT0|].
    destruct Hc as (Hl & Hter & Hn & _). rewrite <-Hl. unfold poly_of. rewrite nz_psum, Hn by done. done. }
  assert (E1 : small L (λ j k, coef (replicate L (replicate N 244668)) j k + negmul (poly_of c) (coef (zero_polys L) j) k)
    (GAMMA1 - BETA) = true).
  { apply small_spec. intros j k Hj Hk. rewrite coef_replicate, HS by done. by vm_compute. }
  assert (E2 : small K (λ i k, LowBits (W i k - negmul (poly_of c) (coef (zero_polys K) i) k)) (GAMMA2 - BETA) = true).
  { apply small_spec. intros i k Hi Hk. rewrite HS by done. apply low_bits_zero. rewrite Z.sub_0_r. by apply HW. }
  assert (E3 : small K (λ i k, negmul (poly_of c) (T0 i) k) GAMMA2 = true).
  { apply small_spec. intros i k Hi Hk. apply small_mods, Ht; done. }
  rewrite E1, E2, E3. cbn [andb]. eexists. match goal with |- context [weight ?h] => assert (E4 : weight h = 0) end.
  - apply psum_all_zero. intros i Hi. apply psum_all_zero. intros k Hk. rewrite HS by done. rewrite Z.sub_0_r.
    apply no_hint; [by apply HW|by apply Ht].
  - rewrite E4. reflexivity.
Qed.
End toy_attempt.

(** ** Keys and a signature *)
Abbreviation toy_keypair := (crypto_sign_keypair toy_callbacks 1 zeros
  (replicate CRYPTO_PUBLICKEYBYTES 0) (replicate CRYPTO_SECRETKEYBYTES 0) tt).

Lemma keypair_gives callbacks `{SC : Sha3Contract callbacks} {U : Uninit} fuel {rng} (randombytes : rng → nat → list Z * rng)
    pk0 sk0 g mat s1 s2 :
  (∀ g n, length (randombytes g n).1 = n ∧ bytes (randombytes g n).1) →
  length pk0 = CRYPTO_PUBLICKEYBYTES → length sk0 = CRYPTO_SECRETKEYBYTES →
  keygen_math callbacks fuel (key_seeds callbacks (randombytes g SEEDBYTES).1) = Some (mat, s1, s2) →
  ∃ pk sk rho key t1 t0 g', crypto_sign_keypair callbacks fuel randombytes pk0 sk0 g = Some (0, pk, sk, g') ∧
    key_pair callbacks fuel pk sk rho key mat s1 s2 t1 t0.
Proof.
  intros Hr Lp Ls E. pose proof (keypair_ok callbacks fuel randombytes Hr pk0 sk0 g Lp Ls) as Hk. cbv zeta in Hk.
  rewrite E in Hk. cbn [keys] in Hk.
  destruct (proj1 (wp_exists _ _) Hk) as ([[[ret pk] sk] g'] & Ek & -> & _ & t1 & t0 & Hp).
  eexists pk, sk, _, _, t1, t0, g'. split; [exact Ek|exact Hp].
Qed.

Lemma toy_keygen seeds : keygen_math toy_callbacks 1 seeds = Some (zero_matrix, zero_polys L, zero_polys K).
Proof. unfold keygen_math. rewrite toy_expand_a. cbn [mbind option_bind]. by rewrite !toy_expand_s. Qed.

(** With s1 = s2 = 0, t1*2^13 + t0 is 0 modulo Q, and t0 is 0 or 1. *)
Lemma toy_t0 pk sk rho key t1 t0 i k :
  key_pair toy_callbacks 1 pk sk rho key zero_matrix (zero_polys L) (zero_polys K) t1 t0 →
  (i < K)%nat → (k < N)%nat → - 1 <= coef t0 i k <= 1.
Proof.
  intros [Hsk _ _ _ V1 HT] Hi Hk'. specialize (HT i k Hi Hk'). rewrite zero_matvec in HT by done.
  unfold zero_polys in HT at 1. rewrite coef_replicate in HT by done.
  pose proof (coef_range K _ _ i k V1 Hi Hk') as B1. pose proof (coef_range K _ _ i k (sk_t0_range _ _ _ _ _ _ _ Hsk) Hi Hk') as B0.
  cbn beta in *. destruct HT as [q Eq]. clear - Eq B1 B0. set (x := coef t0 i k) in *. set (y := coef t1 i k) in *. clearbody x y.
  unfold D, Q in *. change (13 - 1) with 12 in B0. assert (q = 0 ∨ q = 1) as [-> | ->] by lia; lia.
Qed.

Lemma toy_keys : ∃ pk sk rho key t1 t0, toy_keypair = Some (0, pk, sk, tt) ∧
  key_pair toy_callbacks 1 pk sk rho key zero_matrix (zero_polys L) (zero_polys K) t1 t0.
Proof.
  destruct (keypair_gives toy_callbacks 1 zeros (replicate CRYPTO_PUBLICKEYBYTES 0) (replicate CRYPTO_SECRETKEYBYTES 0) tt
    _ _ _ zeros_ok (length_replicate _ _) (length_replicate _ _) (toy_keygen _))
    as (pk & sk & rho & key & t1 & t0 & [] & E & Hp).
  exists pk, sk, rho, key, t1, t0. split; [exact E|exact Hp].
Qed.

(** A message and a context. *)
Abbreviation toy_signature_of m ctx n sk := (crypto_sign_signature toy_callbacks 1 1 zeros
  (replicate CRYPTO_BYTES 0) 0 m ctx n sk tt).
Abbreviation toy_signature sk := (toy_signature_of [1; 2] [3] 1%nat sk).

Lemma first_attempt callbacks `{SC : Sha3Contract callbacks} fuel rho key tr s1 s2 t0 rnd pre m mat x :
  expand_a callbacks fuel rho = Some mat →
  attempt callbacks fuel (matrix_polys mat) (coef s1) (coef s2) (coef t0) (message_mu callbacks tr pre m)
    (xof (o := cb_shake256_inc callbacks) (key ++ rnd ++ message_mu callbacks tr pre m) CRHBYTES) 0 = Some (Some x) →
  is_Some (sign_math callbacks fuel 1 rho key tr s1 s2 t0 rnd pre m).
Proof.
  intros Ea Et. unfold sign_math. rewrite Ea. cbn [mbind option_bind first_accept]. rewrite Et. by eexists.
Qed.

Lemma toy_sign_math rho key tr t0 rnd pre m :
  (∀ i k, (i < K)%nat → (k < N)%nat → - 1 <= coef t0 i k <= 1) →
  is_Some (sign_math toy_callbacks 1 1 rho key tr (zero_polys L) (zero_polys K) t0 rnd pre m).
Proof.
  intros Ht. destruct (toy_attempt (coef t0) Ht (message_mu toy_callbacks tr pre m)
    (xof (o := cb_shake256_inc toy_callbacks) (key ++ rnd ++ message_mu toy_callbacks tr pre m) CRHBYTES)) as [x E].
  exact (first_attempt toy_callbacks 1 rho key tr _ _ t0 rnd pre m _ _ (toy_expand_a rho) E).
Qed.

Lemma bytes_12 : bytes [1; 2]. Proof. repeat constructor; lia. Qed.
Lemma bytes_3 : bytes [3]. Proof. repeat constructor; lia. Qed.

Lemma signature_gives callbacks `{SC : Sha3Contract callbacks} {U : Uninit} fuel tries {rng}
    (randombytes : rng → nat → list Z * rng) sig0 siglen0 m ctx n sk rho tr key s1 s2 t0 g :
  (∀ g n, length (randombytes g n).1 = n ∧ bytes (randombytes g n).1) →
  secret_key sk rho tr key s1 s2 t0 → length sig0 = CRYPTO_BYTES → bytes m → bytes ctx →
  (n <= 255)%nat → (n <= length ctx)%nat →
  is_Some (sign_math callbacks fuel tries rho key tr s1 s2 t0 (randombytes g RNDBYTES).1 (with_ctx ctx n) m) →
  ∃ sig g', crypto_sign_signature callbacks fuel tries randombytes sig0 siglen0 m ctx n sk g = Some (0, sig, CRYPTO_BYTES, g').
Proof.
  intros Hr Hk Ls Bm Bc Hn Hl [[[ct z] h] Em].
  pose proof (signature_ok callbacks fuel tries randombytes Hr sig0 siglen0 m ctx n sk rho tr key s1 s2 t0 g
    Hk Ls Bm Bc Hn Hl) as Hs. rewrite Em in Hs.
  destruct (proj1 (wp_exists _ _) Hs) as ([[[ret sig] len] g'] & E & -> & -> & _). by exists sig, g'.
Qed.

Lemma toy_signs_any m ctx n : bytes m → bytes ctx → (n <= 255)%nat → (n <= length ctx)%nat →
  ∃ pk sk rho key t1 t0 sig, toy_keypair = Some (0, pk, sk, tt) ∧
  key_pair toy_callbacks 1 pk sk rho key zero_matrix (zero_polys L) (zero_polys K) t1 t0 ∧
  toy_signature_of m ctx n sk = Some (0, sig, CRYPTO_BYTES, tt).
Proof.
  intros Bm Bc Hn Hl. destruct toy_keys as (pk & sk & rho & key & t1 & t0 & Ek & Hp).
  destruct (signature_gives toy_callbacks 1 1 zeros (replicate CRYPTO_BYTES 0) 0 m ctx n sk _ _ _ _ _ _ tt
    zeros_ok (kp_sk _ _ _ _ _ _ _ _ _ _ _ Hp) (length_replicate _ _) Bm Bc Hn Hl
    (toy_sign_math _ _ _ _ _ _ _ (λ i k, toy_t0 _ _ _ _ _ _ i k Hp))) as (sig & [] & E).
  exists pk, sk, rho, key, t1, t0, sig. split; [exact Ek|]. split; [exact Hp|exact E].
Qed.
Lemma toy_signs : ∃ pk sk rho key t1 t0 sig, toy_keypair = Some (0, pk, sk, tt) ∧
  key_pair toy_callbacks 1 pk sk rho key zero_matrix (zero_polys L) (zero_polys K) t1 t0 ∧
  toy_signature sk = Some (0, sig, CRYPTO_BYTES, tt).
Proof. apply (toy_signs_any [1; 2] [3] 1); [apply bytes_12|apply bytes_3|lia|exact (le_n 1)]. Qed.
