(* ===== verification/MlDsa.v ===== *)
(** ML-DSA-65: the theorems about key generation, signing and verification.

    They hold for every table of SHA-3 callbacks that keeps the contract
    [Sha3Contract] (the default table does, Sha3Api.v), every random generator
    that returns as many bytes as asked for, and whatever uninitialised memory
    held. *)
From S2P Require Import Prelude KeccakP Sha3 Sha3Api MlArith MlNtt MlNttSpec MlPoly MlPack MlKeys MlHints MlSig MlVec MlSample MlExpand MlSign MlAttempt MlScheme MlToy.
Import Fips204.

(** ** More iterations *)

(** [m'] returns whatever [m] returns. *)
Definition extends {A} (m m' : option A) : Prop := ∀ x, m = Some x → m' = Some x.
Lemma extends_refl {A} (m : option A) : extends m m.
Proof. by intros x. Qed.
Lemma extends_bind {A B} (m m' : option A) (f f' : A → option B) :
  extends m m' → (∀ a, extends (f a) (f' a)) → extends (m ≫= f) (m' ≫= f').
Proof.
  intros Hm Hf x Hx. destruct m as [a|]; [|done]. rewrite (Hm a eq_refl). cbn [mbind option_bind] in *. by apply Hf.
Qed.
Ltac extends_step := first [ apply extends_refl | apply extends_bind; [|intros] | case_match ].

Lemma loop_extends {S R} (f : S → option (ctl S R)) n n' s : (n <= n')%nat → extends (loop n f s) (loop n' f s).
Proof.
  revert n' s. induction n as [|n IH]; intros n' s Hn; [by intros x|]. destruct n' as [|n']; [lia|].
  cbn [loop]. apply extends_bind; [apply extends_refl|]. intros [s'|r]; [apply IH; lia|apply extends_refl].
Qed.

Lemma signature_internal_extends callbacks {U : Uninit} fuel tries tries' sig m pre prelen rnd sk :
  (tries <= tries')%nat →
  extends (crypto_sign_signature_internal callbacks fuel tries sig m pre prelen rnd sk)
          (crypto_sign_signature_internal callbacks fuel tries' sig m pre prelen rnd sk).
Proof.
  intros Hn. unfold crypto_sign_signature_internal.
  apply extends_bind; [apply extends_refl|]. intros [[[[[rho tr] key] t0] s1] s2].
  do 5 (apply extends_bind; [apply extends_refl|]; intros).
  apply extends_bind; [apply extends_refl|]. intros [mu state].
  do 5 (apply extends_bind; [apply extends_refl|]; intros).
  apply extends_bind; [apply extends_refl|]. intros [rhoprime state'].
  do 4 (apply extends_bind; [apply extends_refl|]; intros).
  apply extends_bind; [by apply loop_extends|]. intros. apply extends_refl.
Qed.

Lemma signature_extends callbacks {U : Uninit} {rng} (randombytes : rng → nat → list Z * rng)
    fuel tries tries' sig siglen m ctx n sk g :
  (tries <= tries')%nat →
  extends (crypto_sign_signature callbacks fuel tries randombytes sig siglen m ctx n sk g)
          (crypto_sign_signature callbacks fuel tries' randombytes sig siglen m ctx n sk g).
Proof.
  intros Hn. unfold crypto_sign_signature. case_match; [apply extends_refl|].
  apply extends_bind; [apply extends_refl|]. intros pre. destruct (randombytes g RNDBYTES) as [r g'].
  apply extends_bind; [apply extends_refl|]. intros rnd.
  apply extends_bind; [by apply signature_internal_extends|]. intros [[ret sg] len]. apply extends_refl.
Qed.

(** ** The signing loop never needs more than 2^16 attempts *)
Definition NONCES : nat := Z.to_nat (2 ^ 16).
Lemma NONCES_eq : Z.of_nat NONCES = 2 ^ 16.
Proof. unfold NONCES. by rewrite Z2Nat.id. Qed.

Section attempts.
Context {X : Type} (att : Z → option (option X)).

Lemma first_accept_extends n n' kappa : (n <= n')%nat → extends (first_accept att n kappa) (first_accept att n' kappa).
Proof.
  revert n' kappa. induction n as [|n IH]; intros n' kappa Hn; [by intros x|]. destruct n' as [|n']; [lia|].
  cbn [first_accept]. apply extends_bind; [apply extends_refl|]. intros [x|]; [apply extends_refl|]. apply IH. lia.
Qed.

(** If none of [n] attempts is accepted, either one of them does not return, or
    the loop goes on from the counter [n] further. *)
Lemma first_accept_none n kappa :
  0 <= kappa < 2 ^ 16 → first_accept att n kappa = None →
  (∀ b, first_accept att (n + b) kappa = None) ∨
  (∀ b, first_accept att (n + b) kappa = first_accept att b ((kappa + Z.of_nat n) mod 2 ^ 16)).
Proof.
  revert kappa. induction n as [|n IH]; intros kappa Hk; cbn [first_accept].
  - intros _. right. intros b. by rewrite Z.add_0_r, Z.mod_small.
  - cbn [Nat.add first_accept]. destruct (att kappa) as [[x|]|] eqn:E; cbn [mbind option_bind]; [done| |by left].
    intros Hn. destruct (IH (u16 (kappa + 1)) ltac:(by apply Z.mod_pos_bound) Hn) as [Hl|Hr]; [by left|right].
    intros b. rewrite Hr. f_equal. unfold u16. rewrite Zplus_mod_idemp_l. f_equal. lia.
Qed.

Lemma first_accept_bound limit n :
  Z.of_nat limit = 2 ^ 16 → first_accept att limit 0 = None → first_accept att n 0 = None.
Proof.
  intros Hlim Hn. destruct (first_accept_none limit 0 ltac:(done) Hn) as [Hl|Hr].
  - destruct (first_accept att n 0) as [x|] eqn:E; [|done].
    pose proof (first_accept_extends n (limit + n) 0 ltac:(lia) x E). congruence.
  - rewrite Z.add_0_l, Hlim, Z.mod_same in Hr by done.
    induction n as [n IH] using lt_wf_ind. destruct (decide (n <= limit)%nat) as [Hle|Hgt].
    + destruct (first_accept att n 0) as [x|] eqn:E; [|done].
      pose proof (first_accept_extends n limit 0 Hle x E). congruence.
    + replace n with (limit + (n - limit))%nat by lia. rewrite Hr. apply IH. lia.
Qed.
End attempts.

(** ** Signatures that do not decode *)
Lemma verify_malformed callbacks `{SC : Sha3Contract callbacks} {U : Uninit} fuel sig m ctx n pk t1 rho r c z h :
  (n <= 255)%nat → (n <= length ctx)%nat →
  unpack_pk (uninit SEEDBYTES) (stack_vec K) pk = Some (rho, t1) →
  unpack_sig (uninit CTILDEBYTES) (stack_vec L) (stack_vec K) sig = Some (r, c, z, h) → r ≠ 0 →
  crypto_sign_verify callbacks fuel sig CRYPTO_BYTES m ctx n pk = Some (-1).
Proof.
  intros Hn Hl Epk Esig Hr. unfold crypto_sign_verify. rewrite (proj2 (Nat.ltb_ge _ _)) by lia.
  destruct (proj1 (wp_exists _ _) (prepare_pre_ok ctx n Hn Hl)) as (pre & -> & _). cbn [mbind option_bind].
  unfold crypto_sign_verify_internal. rewrite Nat.eqb_refl. cbn [negb]. rewrite Epk. cbn [mbind option_bind].
  rewrite Esig. cbn [mbind option_bind]. by rewrite (proj2 (Z.eqb_neq _ _) Hr).
Qed.

(** The standard's acceptance (ML-DSA.Verify_internal): the key is the encoding of a seed and
    a vector t1, the signature that of a challenge hash, a short response and hints, and
    the challenge hash recomputed from them is the same. *)
Definition accepts callbacks `{SC : Sha3Contract callbacks} (fuel : nat) (pk m ctx : list Z) (n : nat) (sig : list Z)
    : Prop :=
  ∃ rho t1 ct z h,
    length rho = SEEDBYTES ∧ vec_of K (λ x, 0 <= x < 2 ^ 10) t1 ∧ pk = pkEncode rho t1 ∧
    encodes sig ct z h ∧
    small L (coef z) (GAMMA1 - BETA) = true ∧
    verify_math callbacks fuel rho (coef t1)
      (message_mu callbacks (xof (o := cb_shake256_inc callbacks) pk TRBYTES) (with_ctx ctx n) m)
      ct (coef z) (coef h) = Some true.

(** Both samplers that verification runs have enough of their streams. *)
Definition verify_samples callbacks `{SC : Sha3Contract callbacks} (fuel : nat) (pk sig : list Z) : Prop :=
  is_Some (expand_a callbacks fuel (take SEEDBYTES pk)) ∧
  is_Some (sample_challenge callbacks fuel (take CTILDEBYTES sig)).

Lemma zero_vec n : is_vec n (replicate n (replicate N 0)).
Proof. split; [apply length_replicate|]. apply Forall_replicate, length_replicate. Qed.

Lemma verify_exact_ok callbacks `{SC : Sha3Contract callbacks} {U : Uninit} fuel sig m ctx n pk :
  length sig = CRYPTO_BYTES → bytes sig → length pk = CRYPTO_PUBLICKEYBYTES → bytes pk → bytes m → bytes ctx →
  (n <= 255)%nat → (n <= length ctx)%nat → verify_samples callbacks fuel pk sig →
  (crypto_sign_verify callbacks fuel sig CRYPTO_BYTES m ctx n pk = Some 0 ∧ accepts callbacks fuel pk m ctx n sig) ∨
  (crypto_sign_verify callbacks fuel sig CRYPTO_BYTES m ctx n pk = Some (-1) ∧
   ¬ accepts callbacks fuel pk m ctx n sig).
Proof.
  intros Ls Bs Lp Bp Bm Bc Hn Hl [[mat Em] [c Ec]].
  destruct (unpack_pk_any pk Lp Bp) as (t1 & Vt & Epk & Hpk).
  assert (Sh : pk_shape (uninit SEEDBYTES) (stack_vec K)) by (split; [apply length_uninit|apply stack_vec_ok]).
  pose proof (unpack_sig_any (uninit CTILDEBYTES) (stack_vec L) (stack_vec K) sig Ls Bs (length_uninit _)
    (stack_vec_ok L) (stack_vec_ok K)) as Hu.
  destruct (unpack_sig (uninit CTILDEBYTES) _ _ sig) as [[[[r ct] z] h]|] eqn:Esig; [|done].
  destruct Hu as (Lct & -> & Vz & Vh & [(-> & Hh & _)|Hr]); cycle 1.
  { right. split.
    - apply (verify_malformed callbacks fuel sig m ctx n pk _ _ _ _ _ _ Hn Hl (Hpk _ _ Sh) Esig). lia.
    - intros (rho' & t1' & ct' & z' & h' & _ & _ & _ & (_ & _ & He)%encodes_unpack & _).
      specialize (He _ _ _ (length_uninit CTILDEBYTES) (stack_vec_ok L) (stack_vec_ok K)). congruence. }
  assert (He : encodes sig (take CTILDEBYTES sig) z h).
  { exact (unpack_encodes _ _ _ _ _ _ _ Ls Bs (length_uninit _) (stack_vec_ok L) (stack_vec_ok K) Esig). }
  assert (Lrho : length (take SEEDBYTES pk) = SEEDBYTES) by (rewrite length_take, Lp; unfold CRYPTO_PUBLICKEYBYTES; lia).
  rewrite (verify_ok callbacks fuel sig m ctx n pk (take SEEDBYTES pk) t1 (take CTILDEBYTES sig) z h);
    [|done|done|done|done|done|done|by apply Forall_take|done|by apply Forall_take|done|done|done|done|done|done].
  assert (Hun : accepts callbacks fuel pk m ctx n sig →
    small L (coef z) (GAMMA1 - BETA) = true ∧ verify_math callbacks fuel (take SEEDBYTES pk) (coef t1)
      (message_mu callbacks (xof (o := cb_shake256_inc callbacks) pk TRBYTES) (with_ctx ctx n) m)
      (take CTILDEBYTES sig) (coef z) (coef h) = Some true).
  { intros (rho' & t1' & ct' & z' & h' & Lr' & Vt' & Ep' & (_ & _ & He')%encodes_unpack & Hs' & Hv').
    pose proof (pkEncode_unpack rho' t1' _ _ Lr' Vt' Sh) as Hp'. rewrite <-Ep', (Hpk _ _ Sh) in Hp'.
    specialize (He' _ _ _ (length_uninit CTILDEBYTES) (stack_vec_ok L) (stack_vec_ok K)). rewrite Esig in He'.
    injection Hp' as <- <-. injection He' as <- <- <-. done. }
  destruct (small L (coef z) (GAMMA1 - BETA)) eqn:Es.
  2:{ right. split; [done|]. intros [? _]%Hun. done. }
  destruct (verify_math callbacks fuel _ _ _ _ _ _) as [[|]|] eqn:Ev; cbn [mbind option_bind].
  - left. split; [done|]. by exists (take SEEDBYTES pk), t1, (take CTILDEBYTES sig), z, h.
  - right. split; [done|]. intros [_ ?]%Hun. done.
  - unfold verify_math in Ev. rewrite Ec, Em in Ev. done.
Qed.

Lemma read_suffix (a m : list Z) n : length a = n → read (a ++ m) n (length m) = Some m.
Proof. intros La. rewrite <-(app_nil_r m) at 1. by apply read_app. Qed.

(** ** Key generation and signing on what they return *)
Section results.
Context (callbacks : OQS_SHA3_callbacks) {SC : Sha3Contract callbacks} {U : Uninit} (fuel tries : nat).
Context {rng : Type} (randombytes : rng → nat → list Z * rng).
Context (Hrng : ∀ g n, length (randombytes g n).1 = n ∧ bytes (randombytes g n).1).
Abbreviation H := (xof (o := cb_shake256_inc callbacks)).

Lemma keypair_returns pk0 sk0 g ret pk sk g1 :
  length pk0 = CRYPTO_PUBLICKEYBYTES → length sk0 = CRYPTO_SECRETKEYBYTES →
  crypto_sign_keypair callbacks fuel randombytes pk0 sk0 g = Some (ret, pk, sk, g1) →
  ret = 0 ∧ length sk = CRYPTO_SECRETKEYBYTES ∧ ∃ rho key mat s1 s2 t1 t0,
    key_pair callbacks fuel pk sk rho key mat s1 s2 t1 t0.
Proof using Hrng.
  intros Lp Ls E. pose proof (keypair_ok callbacks fuel randombytes Hrng pk0 sk0 g Lp Ls) as Hk. cbv zeta in Hk.
  destruct (keygen_math callbacks fuel _) as [[[mat s1] s2]|]; cbn [keys] in Hk; rewrite E in Hk; [|done].
  destruct Hk as (-> & Lsk & t1 & t0 & Hk). split; [done|]. split; [done|]. eauto 10.
Qed.

Lemma signature_returns sig0 siglen0 m ctx n sk rho tr key s1 s2 t0 g sig siglen g' :
  secret_key sk rho tr key s1 s2 t0 → length sig0 = CRYPTO_BYTES → bytes m → bytes ctx → (n <= length ctx)%nat →
  crypto_sign_signature callbacks fuel tries randombytes sig0 siglen0 m ctx n sk g = Some (0, sig, siglen, g') →
  (n <= 255)%nat ∧ siglen = CRYPTO_BYTES ∧ ∃ ct z h, encodes sig ct z h ∧
    sign_math callbacks fuel tries rho key tr s1 s2 t0 (randombytes g RNDBYTES).1 (with_ctx ctx n) m = Some (ct, z, h).
Proof using SC Hrng.
  intros Hk Ls Bm Bc Hl E. destruct (decide (n <= 255)%nat) as [Hn|Hn].
  2:{ unfold crypto_sign_signature in E. rewrite (proj2 (Nat.ltb_lt _ _)) in E by lia. done. }
  pose proof (signature_ok callbacks fuel tries randombytes Hrng sig0 siglen0 m ctx n sk rho tr key s1 s2 t0 g
    Hk Ls Bm Bc Hn Hl) as Hs. rewrite E in Hs.
  destruct (sign_math _ _ _ _ _ _ _ _ _ _ _ _) as [[[ct z] h]|]; [|done].
  destruct Hs as (_ & -> & _ & He). split_and!; [done|done|]. by exists ct, z, h.
Qed.

Lemma sign_verify_ok pk sk rho key mat s1 s2 t1 t0 sig0 siglen0 m ctx n g sig siglen g' :
  key_pair callbacks fuel pk sk rho key mat s1 s2 t1 t0 →
  length sig0 = CRYPTO_BYTES → bytes m → bytes ctx → (n <= length ctx)%nat →
  crypto_sign_signature callbacks fuel tries randombytes sig0 siglen0 m ctx n sk g = Some (0, sig, siglen, g') →
  siglen = CRYPTO_BYTES ∧ length sig = CRYPTO_BYTES ∧
  crypto_sign_verify callbacks fuel sig siglen m ctx n pk = Some 0.
Proof using Hrng.
  intros Hk Ls Bm Bc Hl E. pose proof Hk as [Hsk [Lpk Bpk] Hpk _ Vt _].
  destruct (signature_returns _ _ _ _ _ _ _ _ _ _ _ _ _ _ _ _ Hsk Ls Bm Bc Hl E) as (Hn & -> & ct & z & h & He & Es).
  destruct (sign_math_verifies callbacks fuel tries _ _ _ _ _ _ _ _ _ _ _ _ _ _ _ _ Hk (proj2 (Hrng g RNDBYTES)) Bm Bc
    Hn Es) as ((Bct & Lct & Vz & Vh) & Hsm & Hv).
  split; [done|]. split; [apply (encodes_unpack _ _ _ _ He)|].
  rewrite (verify_ok callbacks fuel sig m ctx n pk rho t1 ct z h); try done; try apply Hsk.
  by rewrite Hsm, Hv.
Qed.

(** The bound on the number of attempts, for any [limit] that is 2^16. *)
Lemma signing_bound limit sig0 siglen0 m ctx n sk rho tr key s1 s2 t0 g :
  Z.of_nat limit = 2 ^ 16 → secret_key sk rho tr key s1 s2 t0 → length sig0 = CRYPTO_BYTES → bytes m → bytes ctx →
  (n <= 255)%nat → (n <= length ctx)%nat →
  let sign a := crypto_sign_signature callbacks fuel a randombytes sig0 siglen0 m ctx n sk g in
  (∀ a r, sign a = Some r → sign limit = Some r) ∧
  (∀ a, (limit <= a)%nat → sign a = sign limit).
Proof using SC Hrng.
  intros Hlim Hk Ls Bm Bc Hn Hl sign.
  assert (Hext : ∀ x y, (x <= y)%nat → extends (sign x) (sign y)) by (intros; by apply signature_extends).
  assert (Hnone : ∀ a, sign limit = None → sign a = None).
  { intros a E.
    pose proof (λ t, signature_ok callbacks fuel t randombytes Hrng sig0 siglen0 m ctx n sk rho tr key s1 s2 t0 g
      Hk Ls Bm Bc Hn Hl) as Hs. pose proof (Hs limit) as H0. pose proof (Hs a) as H1. clear Hs.
    fold (sign limit) in H0. fold (sign a) in H1. rewrite E in H0. unfold sign_math in H0, H1.
    destruct (expand_a callbacks fuel rho) as [mat|]; cbn [mbind option_bind] in *; [|done].
    match type of H0 with context [first_accept ?a _ _] => set (att := a) in * end.
    destruct (first_accept att limit 0) as [[[ct z] h]|] eqn:Ef; [exfalso; exact H0|].
    by rewrite (first_accept_bound att limit a Hlim Ef) in H1. }
  split.
  - intros a r E. destruct (sign limit) as [r'|] eqn:E'.
    + destruct (decide (a <= limit)%nat) as [Hle|Hgt].
      * specialize (Hext _ _ Hle r E). congruence.
      * specialize (Hext limit a ltac:(lia) r' E'). congruence.
    + rewrite (Hnone a eq_refl) in E. done.
  - intros a Ht. destruct (sign limit) as [r|] eqn:E; [by apply (Hext limit)|].
    by apply Hnone.
Qed.

(** [crypto_sign] copies the message behind the space of the signature and signs it there. *)
Lemma sign_in_place a b smlen m ctx n sk g :
  length a = CRYPTO_BYTES → length b = length m →
  crypto_sign callbacks fuel tries randombytes (a ++ b) smlen m ctx n sk g =
  ('(ret, sig, smlen, g) ← crypto_sign_signature callbacks fuel tries randombytes a smlen m ctx n sk g;
   sm ← write (a ++ m) 0 sig; Some (ret, sm, (smlen + length m)%nat, g)).
Proof.
  intros La Lb. unfold crypto_sign.
  assert (Ew : write (a ++ b) CRYPTO_BYTES m = Some (a ++ m)).
  { rewrite <-(app_nil_r b). rewrite (write_app a b []) by done. by rewrite app_nil_r. }
  rewrite Ew. cbn [mbind option_bind]. rewrite read_prefix by done. cbn [mbind option_bind].
  rewrite read_suffix by done. cbn [mbind option_bind]. reflexivity.
Qed.
End results.

(** C1 ML-DSA-65: what signing returns, verification accepts.  For keys from
    [crypto_sign_keypair] and any message and context, if
    [crypto_sign_signature] returns 0, the signature has [CRYPTO_BYTES] bytes,
    and [crypto_sign_verify] with the same message and context returns 0. *)
Theorem mldsa_sign_verify (callbacks : OQS_SHA3_callbacks) {SC : Sha3Contract callbacks} {U : Uninit}
    (fuel tries : nat) {rng : Type} (randombytes : rng → nat → list Z * rng) (pk0 sk0 sig0 m ctx : list Z)
    (n siglen0 siglen : nat) (g g1 g2 g3 : rng) (pk sk sig : list Z) :
  (∀ g n, length (randombytes g n).1 = n ∧ bytes (randombytes g n).1) →
  length pk0 = CRYPTO_PUBLICKEYBYTES → length sk0 = CRYPTO_SECRETKEYBYTES → length sig0 = CRYPTO_BYTES →
  bytes m → bytes ctx → (n <= length ctx)%nat →
  crypto_sign_keypair callbacks fuel randombytes pk0 sk0 g = Some (0, pk, sk, g1) →
  crypto_sign_signature callbacks fuel tries randombytes sig0 siglen0 m ctx n sk g2 = Some (0, sig, siglen, g3) →
  siglen = CRYPTO_BYTES ∧ length sig = CRYPTO_BYTES ∧
  crypto_sign_verify callbacks fuel sig siglen m ctx n pk = Some 0.
Proof.
  intros Hrng Lp Ls Lg Bm Bc Hl Ek Es.
  destruct (keypair_returns callbacks fuel randombytes Hrng _ _ _ _ _ _ _ Lp Ls Ek)
    as (_ & _ & rho & key & mat & s1 & s2 & t1 & t0 & Hk).
  by eapply (sign_verify_ok callbacks fuel tries randombytes Hrng).
Qed.

(** C9 Signing is ML-DSA.Sign_internal of FIPS 204: for a secret key with parts
    rho, tr, key, s1, s2, t0 and a context of at most 255 bytes,
    [crypto_sign_signature] returns 0 and the encoding of the challenge hash,
    response and hints of the first attempt that the standard accepts, whatever
    the buffers held, and does not return if there is none among [tries]. *)
Theorem mldsa_sign_refines (callbacks : OQS_SHA3_callbacks) {SC : Sha3Contract callbacks} {U : Uninit}
    (fuel tries : nat) {rng : Type} (randombytes : rng → nat → list Z * rng) (sig0 m ctx sk rho tr key : list Z)
    (s1 s2 t0 : list (list Z)) (n siglen0 : nat) (g : rng) :
  (∀ g n, length (randombytes g n).1 = n ∧ bytes (randombytes g n).1) →
  secret_key sk rho tr key s1 s2 t0 → length sig0 = CRYPTO_BYTES → bytes m → bytes ctx →
  (n <= 255)%nat → (n <= length ctx)%nat →
  match sign_math callbacks fuel tries rho key tr s1 s2 t0 (randombytes g RNDBYTES).1 (with_ctx ctx n) m with
  | Some (ct, z, h) =>
      wp (crypto_sign_signature callbacks fuel tries randombytes sig0 siglen0 m ctx n sk g)
        (λ '(ret, sig, siglen, g'),
           ret = 0 ∧ siglen = CRYPTO_BYTES ∧ g' = (randombytes g RNDBYTES).2 ∧ encodes sig ct z h)
  | None => crypto_sign_signature callbacks fuel tries randombytes sig0 siglen0 m ctx n sk g = None
  end.
Proof. intros Hrng. by apply signature_ok. Qed.

(** C10 Key generation is ML-DSA.KeyGen_internal: with the three seeds hashed from
    32 random bytes, [crypto_sign_keypair] returns 0 and keys that decode to
    the first seed, to t1 and t0 with t1*2^13 + t0 = A s1 + s2 modulo Q for the
    matrix and the short vectors that the standard expands from the seeds, and
    to the hash of the public key; it does not return if a sampler needs more
    of its stream than [fuel] allows. *)
Theorem mldsa_keypair_refines (callbacks : OQS_SHA3_callbacks) {SC : Sha3Contract callbacks} {U : Uninit}
    (fuel : nat) {rng : Type} (randombytes : rng → nat → list Z * rng) (pk0 sk0 : list Z) (g : rng) :
  (∀ g n, length (randombytes g n).1 = n ∧ bytes (randombytes g n).1) →
  length pk0 = CRYPTO_PUBLICKEYBYTES → length sk0 = CRYPTO_SECRETKEYBYTES →
  let seeds := key_seeds callbacks (randombytes g SEEDBYTES).1 in
  match keygen_math callbacks fuel seeds with
  | Some (mat, s1, s2) =>
      wp (crypto_sign_keypair callbacks fuel randombytes pk0 sk0 g) (λ '(ret, pk, sk, _),
        ret = 0 ∧ length sk = CRYPTO_SECRETKEYBYTES ∧ ∃ t1 t0,
        key_pair callbacks fuel pk sk (take SEEDBYTES seeds) (drop (SEEDBYTES + CRHBYTES) seeds) mat s1 s2 t1 t0)
  | None => crypto_sign_keypair callbacks fuel randombytes pk0 sk0 g = None
  end.
Proof. intros Hrng Lp Ls. exact (keypair_ok callbacks fuel randombytes Hrng pk0 sk0 g Lp Ls). Qed.

(** C8 Verification on every input: for any byte string of the right length,
    any public key, message and context of at most 255 bytes, and provided the two
    samplers have enough of their streams for this key and signature,
    [crypto_sign_verify] returns 0 exactly if the standard accepts, and -1 otherwise.
    The standard's side is stated apart from the code: the encodings as numbers written
    with 10 and 20 bits a coefficient and the hint encoding, SampleInBall and the
    expansion of the matrix on the streams, the products modulo X^256 + 1, UseHint. *)
Theorem mldsa_verify_exact (callbacks : OQS_SHA3_callbacks) {SC : Sha3Contract callbacks} {U : Uninit}
    (fuel : nat) (sig m ctx pk : list Z) (n : nat) :
  length sig = CRYPTO_BYTES → bytes sig → length pk = CRYPTO_PUBLICKEYBYTES → bytes pk → bytes m → bytes ctx →
  (n <= 255)%nat → (n <= length ctx)%nat → verify_samples callbacks fuel pk sig →
  (crypto_sign_verify callbacks fuel sig CRYPTO_BYTES m ctx n pk = Some 0 ∧ accepts callbacks fuel pk m ctx n sig) ∨
  (crypto_sign_verify callbacks fuel sig CRYPTO_BYTES m ctx n pk = Some (-1) ∧
   ¬ accepts callbacks fuel pk m ctx n sig).
Proof. apply verify_exact_ok. Qed.

(** C33 Signing ends within 2^16 attempts or never: the counter of the masks has
    16 bits, so once all its values have been rejected the loop repeats itself.
    With more attempts than 2^16 the result is the same, and whatever a smaller
    number of attempts returns, 2^16 attempts return. *)
Theorem mldsa_signing_ends (callbacks : OQS_SHA3_callbacks) {SC : Sha3Contract callbacks} {U : Uninit}
    (fuel : nat) {rng : Type} (randombytes : rng → nat → list Z * rng) (sig0 m ctx sk rho tr key : list Z)
    (s1 s2 t0 : list (list Z)) (n siglen0 : nat) (g : rng) :
  (∀ g n, length (randombytes g n).1 = n ∧ bytes (randombytes g n).1) →
  secret_key sk rho tr key s1 s2 t0 → length sig0 = CRYPTO_BYTES → bytes m → bytes ctx →
  (n <= 255)%nat → (n <= length ctx)%nat →
  let sign tries := crypto_sign_signature callbacks fuel tries randombytes sig0 siglen0 m ctx n sk g in
  (∀ tries r, sign tries = Some r → sign NONCES = Some r) ∧
  (∀ tries, (NONCES <= tries)%nat → sign tries = sign NONCES).
Proof.
  intros Hrng Hk Ls Bm Bc Hn Hl.
  exact (signing_bound callbacks fuel randombytes Hrng NONCES sig0 siglen0 m ctx n sk rho tr key s1 s2 t0 g
    NONCES_eq Hk Ls Bm Bc Hn Hl).
Qed.

(** Signed messages: for keys from [crypto_sign_keypair], opening what
    [crypto_sign] returned with 0 gives back the message, its length and 0,
    whatever the output buffer held. *)
Theorem mldsa_sign_open (callbacks : OQS_SHA3_callbacks) {SC : Sha3Contract callbacks} {U : Uninit}
    (fuel tries : nat) {rng : Type} (randombytes : rng → nat → list Z * rng) (pk0 sk0 sm0 m0 m ctx : list Z)
    (n smlen0 smlen : nat) (g g1 g2 g3 : rng) (pk sk sm : list Z) :
  (∀ g n, length (randombytes g n).1 = n ∧ bytes (randombytes g n).1) →
  length pk0 = CRYPTO_PUBLICKEYBYTES → length sk0 = CRYPTO_SECRETKEYBYTES →
  length sm0 = (CRYPTO_BYTES + length m)%nat → (length m <= length m0)%nat →
  bytes m → bytes ctx → (n <= length ctx)%nat →
  crypto_sign_keypair callbacks fuel randombytes pk0 sk0 g = Some (0, pk, sk, g1) →
  crypto_sign callbacks fuel tries randombytes sm0 smlen0 m ctx n sk g2 = Some (0, sm, smlen, g3) →
  smlen = (CRYPTO_BYTES + length m)%nat ∧
  crypto_sign_open callbacks fuel m0 sm smlen ctx n pk = Some (0, m ++ drop (length m) m0, length m).
Proof.
  intros Hrng Lp Ls Lsm Lm0 Bm Bc Hl Ek Es.
  destruct (keypair_returns callbacks fuel randombytes Hrng _ _ _ _ _ _ _ Lp Ls Ek)
    as (_ & _ & rho & key & mat & s1 & s2 & t1 & t0 & Hk).
  destruct (split_at CRYPTO_BYTES sm0) as (a & b & -> & La); [lia|]. rewrite length_app in Lsm.
  rewrite sign_in_place in Es by (done || lia).
  destruct (crypto_sign_signature _ _ _ _ _ _ _ _ _ _ _) as [[[[ret sig] len] g4]|] eqn:E; [|done].
  cbn [mbind option_bind] in Es.
  assert (ret = 0) as -> by (destruct (write (a ++ m) 0 sig); [by injection Es|done]).
  destruct (sign_verify_ok callbacks fuel tries randombytes Hrng _ _ _ _ _ _ _ _ _ _ _ _ _ _ _ _ _ _ Hk La Bm Bc Hl E)
    as (-> & Lsig & Hv).
  rewrite write_front in Es by lia. cbn [mbind option_bind] in Es. apply (inj Some) in Es.
  apply pair_equal_spec in Es as [Es _]. apply pair_equal_spec in Es as [Es <-].
  apply pair_equal_spec in Es as [_ <-]. split; [reflexivity|].
  unfold crypto_sign_open. rewrite (proj2 (Nat.ltb_ge _ _)) by lia.
  replace (CRYPTO_BYTES + length m - CRYPTO_BYTES)%nat with (length m) by lia.
  rewrite read_prefix by done. cbn [mbind option_bind].
  rewrite read_suffix by done. cbn [mbind option_bind]. rewrite Hv. cbn [mbind option_bind Z.eqb negb].
  rewrite write_0 by done. done.
Qed.

(** Errors: a context longer than 255 bytes is refused by signing, which
    changes nothing, and by verification; a signature of the wrong length is
    refused; and opening a message that is too short or does not verify clears
    as many bytes of the output as the input had and returns length 0. *)
Theorem mldsa_errors (callbacks : OQS_SHA3_callbacks) {U : Uninit} (fuel tries : nat)
    {rng : Type} (randombytes : rng → nat → list Z * rng) (sig m0 m sm ctx sk pk : list Z)
    (n siglen smlen : nat) (g : rng) :
  ((255 < n)%nat →
     crypto_sign_signature callbacks fuel tries randombytes sig siglen m ctx n sk g = Some (-1, sig, siglen, g) ∧
     crypto_sign_verify callbacks fuel sig siglen m ctx n pk = Some (-1)) ∧
  (siglen ≠ CRYPTO_BYTES → (n <= length ctx)%nat →
     crypto_sign_verify callbacks fuel sig siglen m ctx n pk = Some (-1)) ∧
  ((smlen <= length m0)%nat → length sm = smlen →
   ((smlen < CRYPTO_BYTES)%nat ∨
    crypto_sign_verify callbacks fuel (take CRYPTO_BYTES sm) CRYPTO_BYTES (drop CRYPTO_BYTES sm) ctx n pk = Some (-1)) →
   crypto_sign_open callbacks fuel m0 sm smlen ctx n pk = Some (-1, replicate smlen 0 ++ drop smlen m0, 0%nat)).
Proof.
  split_and!.
  - intros Hn. unfold crypto_sign_signature, crypto_sign_verify. by rewrite (proj2 (Nat.ltb_lt _ _)) by lia.
  - intros Hs Hl. unfold crypto_sign_verify. destruct (Nat.ltb_spec 255 n) as [|Hn]; [done|].
    destruct (proj1 (wp_exists _ _) (prepare_pre_ok ctx n Hn Hl)) as (pre & -> & _). cbn [mbind option_bind].
    unfold crypto_sign_verify_internal. by rewrite (proj2 (Nat.eqb_neq _ _) Hs).
  - intros Hm Hsm Hbad. unfold crypto_sign_open.
    assert (Ew : write m0 0 (replicate smlen 0) = Some (replicate smlen 0 ++ drop smlen m0)).
    { rewrite write_0; rewrite length_replicate; done. }
    rewrite Ew. cbn [mbind option_bind]. destruct (Nat.ltb_spec smlen CRYPTO_BYTES) as [|Hge]; [done|].
    destruct Hbad as [Hlt|Hv]; [lia|]. rewrite (read_Some sm 0) by lia. rewrite drop_0. cbn [mbind option_bind].
    rewrite (read_Some sm CRYPTO_BYTES) by lia. rewrite (take_ge (drop _ _)) by (rewrite length_drop; lia). cbn [mbind option_bind].
    rewrite Hv. done.
Qed.

(** ** Instances: the callbacks, generator and stack of MlToy.v *)
Lemma toy_samples pk s : length pk = CRYPTO_PUBLICKEYBYTES → length s = CRYPTO_BYTES → verify_samples toy_callbacks 1 pk s.
Proof.
  intros _ Ls. split; [exists zero_matrix; apply toy_expand_a|].
  assert (Hc : length (take CTILDEBYTES s) = CTILDEBYTES) by (rewrite length_take, Ls, Nat.min_l; [done|unfold CRYPTO_BYTES; lia]).
  destruct (take CTILDEBYTES s) as [|x0 c]; [done|]. injection Hc as Hc.
  do 47 (destruct c as [|? c]; [done|]; injection Hc as Hc). destruct c; [|done]. vm_compute. eexists. reflexivity.
Qed.

Lemma mldsa_sign_verify_witness : ∃ pk sk sig,
  toy_keypair = Some (0, pk, sk, tt) ∧ toy_signature sk = Some (0, sig, CRYPTO_BYTES, tt) ∧
  crypto_sign_verify toy_callbacks 1 sig CRYPTO_BYTES [1; 2] [3] 1 pk = Some 0.
Proof.
  destruct toy_signs as (pk & sk & rho & key & t1 & t0 & sig & Ek & _ & Es).
  exists pk, sk, sig. split; [exact Ek|]. split; [exact Es|].
  exact (proj2 (proj2 (mldsa_sign_verify toy_callbacks 1 1 zeros (replicate CRYPTO_PUBLICKEYBYTES 0)
    (replicate CRYPTO_SECRETKEYBYTES 0) (replicate CRYPTO_BYTES 0) [1; 2] [3] 1 0 CRYPTO_BYTES tt tt tt tt pk sk sig
    zeros_ok (length_replicate _ _) (length_replicate _ _) (length_replicate _ _) bytes_12 bytes_3 (le_n 1) Ek Es))).
Defined.

Lemma mldsa_sign_refines_witness : ∃ sk rho tr key t0,
  secret_key sk rho tr key (zero_polys L) (zero_polys K) t0 ∧
  match sign_math toy_callbacks 1 1 rho key tr (zero_polys L) (zero_polys K) t0 (replicate RNDBYTES 0) (with_ctx [3] 1)
    [1; 2] with
  | Some (ct, z, h) => wp (toy_signature sk) (λ '(ret, sig, siglen, _),
      ret = 0 ∧ siglen = CRYPTO_BYTES ∧ tt = tt ∧ encodes sig ct z h)
  | None => toy_signature sk = None
  end.
Proof.
  destruct toy_keys as (pk & sk & rho & key & t1 & t0 & _ & [Hsk _ _ _ _ _]). eexists sk, rho, _, key, t0.
  split; [exact Hsk|].
  pose proof (mldsa_sign_refines toy_callbacks 1 1 zeros (replicate CRYPTO_BYTES 0) [1; 2] [3] sk rho _ key _ _ t0 1 0 tt
    zeros_ok Hsk (length_replicate _ _) bytes_12 bytes_3 ltac:(lia) (le_n 1)) as Hs.
  destruct (sign_math _ _ _ _ _ _ _ _ _ _ _ _) as [[[ct z] h]|]; [|exact Hs].
  eapply wp_mono; [exact Hs|]. intros [[[ret sig] len] g'] (H1 & H2 & _ & H4). repeat split; assumption || apply H4.
Defined.

Lemma mldsa_keypair_refines_witness :
  let seeds := key_seeds toy_callbacks (zeros tt SEEDBYTES).1 in
  keygen_math toy_callbacks 1 seeds = Some (zero_matrix, zero_polys L, zero_polys K) ∧
  match keygen_math toy_callbacks 1 seeds with
  | Some (mat, s1, s2) => wp toy_keypair (λ '(ret, pk, sk, _),
      ret = 0 ∧ length sk = CRYPTO_SECRETKEYBYTES ∧ ∃ t1 t0,
      key_pair toy_callbacks 1 pk sk (take SEEDBYTES seeds) (drop (SEEDBYTES + CRHBYTES) seeds) mat s1 s2 t1 t0)
  | None => toy_keypair = None
  end.
Proof.
  cbv zeta. split; [exact (toy_keygen _)|].
  pose proof (mldsa_keypair_refines toy_callbacks 1 zeros (replicate CRYPTO_PUBLICKEYBYTES 0)
    (replicate CRYPTO_SECRETKEYBYTES 0) tt zeros_ok (length_replicate _ _) (length_replicate _ _)) as Hk.
  cbv zeta in Hk. exact Hk.
Defined.

Lemma mldsa_verify_exact_witness : ∃ pk sk sig,
  toy_keypair = Some (0, pk, sk, tt) ∧ toy_signature sk = Some (0, sig, CRYPTO_BYTES, tt) ∧ verify_samples toy_callbacks 1 pk sig ∧
  crypto_sign_verify toy_callbacks 1 sig CRYPTO_BYTES [1; 2] [3] 1 pk = Some 0 ∧ accepts toy_callbacks 1 pk [1; 2] [3] 1 sig.
Proof.
  destruct toy_signs as (pk & sk & rho & key & t1 & t0 & sig & Ek & Hp & Es). exists pk, sk, sig.
  destruct (sign_verify_ok toy_callbacks 1 1 zeros zeros_ok _ _ _ _ _ _ _ _ _ _ 0 [1; 2] [3] 1 tt sig _ tt
    Hp (length_replicate _ _) bytes_12 bytes_3 (le_n 1) Es) as (_ & Ls & Hv).
  destruct (signature_returns toy_callbacks 1 1 zeros zeros_ok _ 0 [1; 2] [3] 1 _ _ _ _ _ _ _ tt sig _ tt
    (kp_sk _ _ _ _ _ _ _ _ _ _ _ Hp) (length_replicate _ _) bytes_12 bytes_3 (le_n 1) Es) as (_ & _ & ct & z & h & He & _).
  destruct (kp_pk _ _ _ _ _ _ _ _ _ _ _ Hp) as [Lp Bp]. pose proof (toy_samples pk sig Lp Ls) as Hs.
  split; [exact Ek|]. split; [exact Es|]. split; [exact Hs|]. split; [exact Hv|].
  destruct (mldsa_verify_exact toy_callbacks 1 sig [1; 2] [3] pk 1 Ls (proj1 (proj2 (encodes_unpack _ _ _ _ He))) Lp Bp
    bytes_12 bytes_3 ltac:(lia) (le_n 1) Hs) as [[_ Ha]|[E _]]; [exact Ha|]. rewrite Hv in E. discriminate E.
Defined.

Lemma mldsa_signing_ends_witness : ∃ sk sig, toy_signature sk = Some (0, sig, CRYPTO_BYTES, tt) ∧
  crypto_sign_signature toy_callbacks 1 NONCES zeros (replicate CRYPTO_BYTES 0) 0 [1; 2] [3] 1 sk tt
  = Some (0, sig, CRYPTO_BYTES, tt).
Proof.
  destruct toy_signs as (pk & sk & rho & key & t1 & t0 & sig & _ & [Hsk _ _ _ _ _] & Es). exists sk, sig.
  split; [exact Es|].
  exact (proj1 (mldsa_signing_ends toy_callbacks 1 zeros (replicate CRYPTO_BYTES 0) [1; 2] [3] sk rho _ key _ _ t0 1 0 tt
    zeros_ok Hsk (length_replicate _ _) bytes_12 bytes_3 ltac:(lia) (le_n 1)) 1%nat _ Es).
Defined.

Lemma mldsa_sign_open_witness : ∃ pk sk sm, toy_keypair = Some (0, pk, sk, tt) ∧
  crypto_sign toy_callbacks 1 1 zeros (replicate CRYPTO_BYTES 0 ++ [0; 0]) 0 [1; 2] [3] 1 sk tt
    = Some (0, sm, (CRYPTO_BYTES + 2)%nat, tt) ∧
  crypto_sign_open toy_callbacks 1 [7; 7; 7] sm (CRYPTO_BYTES + 2) [3] 1 pk = Some (0, [1; 2; 7], 2%nat).
Proof.
  destruct toy_signs as (pk & sk & rho & key & t1 & t0 & sig & Ek & Hp & Es).
  pose proof (proj1 (proj2 (sign_verify_ok toy_callbacks 1 1 zeros zeros_ok _ _ _ _ _ _ _ _ _ _ 0 [1; 2] [3] 1 tt sig _ tt
    Hp (length_replicate _ _) bytes_12 bytes_3 (le_n 1) Es))) as Lsig.
  assert (E : crypto_sign toy_callbacks 1 1 zeros (replicate CRYPTO_BYTES 0 ++ [0; 0]) 0 [1; 2] [3] 1 sk tt
    = Some (0, sig ++ [1; 2], (CRYPTO_BYTES + 2)%nat, tt)).
  { rewrite (sign_in_place toy_callbacks 1 1 zeros (replicate CRYPTO_BYTES 0) [0; 0] 0 [1; 2] [3] 1 sk tt
      (length_replicate _ _) eq_refl). rewrite Es. cbn [mbind option_bind].
    rewrite write_front by (rewrite length_replicate; exact Lsig). reflexivity. }
  exists pk, sk, (sig ++ [1; 2]). split; [exact Ek|]. split; [exact E|].
  exact (proj2 (mldsa_sign_open toy_callbacks 1 1 zeros (replicate CRYPTO_PUBLICKEYBYTES 0)
    (replicate CRYPTO_SECRETKEYBYTES 0) (replicate CRYPTO_BYTES 0 ++ [0; 0]) [7; 7; 7] [1; 2] [3] 1 0 (CRYPTO_BYTES + 2) tt tt tt tt
    pk sk (sig ++ [1; 2]) zeros_ok (length_replicate _ _) (length_replicate _ _) eq_refl (le_S _ _ (le_n 2))
    bytes_12 bytes_3 (le_n 1) Ek E)).
Defined.
