(* ===== verification/MlSampling.v ===== *)
(** ML-DSA-65: the theorems about the samplers (MlSample.v). *)
From S2P Require Import Prelude KeccakP Sha3 Sha3Api MlArith MlNtt MlPoly MlPack MlKeys MlHints MlVec MlSample MlExpand MlToy.

Section sampling.
Context (callbacks : OQS_SHA3_callbacks) {SC : Sha3Contract callbacks} {U : Uninit} (fuel : nat).
Abbreviation H := (xof (o := cb_shake256_inc callbacks)).
Abbreviation mask_fits := (λ x : Z, - GAMMA1 < x <= GAMMA1).

(** The candidates only grow with the number of blocks, so that the sample is
    that of any number of blocks that has enough of them. *)
Lemma sampled_at acc k :
  (∀ k, ∃ l, acc (S k) = acc k ++ l) → (k < fuel)%nat → (N <= length (acc k))%nat →
  sampled acc fuel = Some (take N (acc k)).
Proof using Type.
  intros Hg Hk Hl. apply (sampled_mono acc (S k)); [by apply growing|lia|].
  unfold sampled. rewrite Nat.sub_succ, Nat.sub_0_r. by rewrite decide_True by lia.
Qed.

(** A sampler whose candidates are in a range: a polynomial of that range, or not enough
    candidates in any of the portions of the stream it may look at. *)
Lemma sampled_or acc (P : Z → Prop) :
  (∀ k, ∃ l, acc (S k) = acc k ++ l) → (∀ k, Forall P (acc k)) →
  match sampled acc fuel with
  | Some p => length p = N ∧ Forall P p
  | None => ∀ k, (k < fuel)%nat → (length (acc k) < N)%nat
  end.
Proof using Type.
  intros Hg HP. destruct (sampled acc fuel) as [p|] eqn:E; [by apply (sampled_shape _ _ _ _ E)|].
  intros k Hk. apply Nat.nle_gt. intros Hn. by rewrite (sampled_at acc k Hg Hk Hn) in E.
Qed.

(** The samplers return what FIPS 204 samples: [poly_uniform] the first 256
    acceptable 23-bit candidates of SHAKE128(seed, nonce) (RejNTTPoly),
    [poly_uniform_eta] the first 256 acceptable half-bytes of SHAKE256
    (RejBoundedPoly), [poly_uniform_gamma1] the decoding of the first 640 bytes
    (ExpandMask), and [poly_challenge], if it returns, SampleInBall of the
    stream, whatever the arrays held. *)
Theorem sampling_exact (a seed : list Z) (nonce : Z) :
  length a = N → bytes seed → (CRHBYTES <= length seed)%nat →
  poly_uniform callbacks fuel a seed nonce = sampled (uniform_acc callbacks (stream_input SEEDBYTES seed nonce)) fuel ∧
  poly_uniform_eta callbacks fuel a seed nonce = sampled (eta_acc callbacks (stream_input CRHBYTES seed nonce)) fuel ∧
  poly_uniform_gamma1 callbacks a seed nonce = polyz_unpack a (H (stream_input CRHBYTES seed nonce) POLYZ_PACKEDBYTES) ∧
  wlp (poly_challenge callbacks fuel a seed) (λ c, ∃ T, sample_in_ball (H (take CTILDEBYTES seed) T) = Some c).
Proof using SC.
  intros Ha Hb Hl. assert (SEEDBYTES <= length seed)%nat by (unfold SEEDBYTES, CRHBYTES in *; lia).
  assert (CTILDEBYTES <= length seed)%nat by (unfold CTILDEBYTES, CRHBYTES in *; lia).
  split; [by apply poly_uniform_ok|]. split; [by apply poly_uniform_eta_ok|].
  split; [by apply poly_uniform_gamma1_ok|by apply poly_challenge_sound].
Qed.

(** C38 Sampling succeeds: as soon as the stream has enough acceptable candidates
    in its first [k] blocks beyond the first squeeze, a sampler whose loop may
    run more than [k] times returns them, and a longer loop returns the same;
    [poly_challenge] returns once SampleInBall ends within fewer bytes of the
    stream than its loops may read. *)
Theorem sampling_live (a seed : list Z) (nonce : Z) :
  length a = N → bytes seed → (CRHBYTES <= length seed)%nat →
  (∀ k, (k < fuel)%nat → (N <= length (uniform_acc callbacks (stream_input SEEDBYTES seed nonce) k))%nat →
     poly_uniform callbacks fuel a seed nonce = Some (take N (uniform_acc callbacks (stream_input SEEDBYTES seed nonce) k))) ∧
  (∀ k, (k < fuel)%nat → (N <= length (eta_acc callbacks (stream_input CRHBYTES seed nonce) k))%nat →
     poly_uniform_eta callbacks fuel a seed nonce = Some (take N (eta_acc callbacks (stream_input CRHBYTES seed nonce) k))) ∧
  (∀ T c, (8 <= T < fuel)%nat → sample_in_ball (H (take CTILDEBYTES seed) T) = Some c →
     poly_challenge callbacks fuel a seed = Some c).
Proof using SC.
  intros Ha Hb Hl. assert (SEEDBYTES <= length seed)%nat by (unfold SEEDBYTES, CRHBYTES in *; lia).
  assert (CTILDEBYTES <= length seed)%nat by (unfold CTILDEBYTES, CRHBYTES in *; lia).
  split; [|split].
  - intros k Hk Hn. rewrite (poly_uniform_ok callbacks) by done. apply sampled_at; [|done|done].
    intros j. eexists. by apply (uniform_acc_S callbacks), stream_input_bytes.
  - intros k Hk Hn. rewrite (poly_uniform_eta_ok callbacks) by done. apply sampled_at; [|done|done].
    intros j. eexists. by apply (eta_acc_S callbacks), stream_input_bytes.
  - intros T c HT Hs. by apply (poly_challenge_ok callbacks fuel T).
Qed.

(** C39 What is sampled has its type: as soon as the stream has enough acceptable
    candidates within the blocks that the loop may squeeze, [poly_uniform] returns 256
    coefficients in [0, Q), [poly_uniform_eta] 256 in [-4, 4]; [poly_uniform_gamma1]
    always returns 256 in (-2^19, 2^19]; and once SampleInBall ends within the stream,
    [poly_challenge] returns 256 coefficients of which exactly 49 are 1 or -1 and the
    others 0. *)
Theorem sampled_types (a seed : list Z) (nonce : Z) :
  length a = N → bytes seed → (CRHBYTES <= length seed)%nat →
  (match poly_uniform callbacks fuel a seed nonce with
   | Some p => length p = N ∧ Forall (λ x, 0 <= x < Q) p
   | None => ∀ k, (k < fuel)%nat → (length (uniform_acc callbacks (stream_input SEEDBYTES seed nonce) k) < N)%nat
   end) ∧
  (match poly_uniform_eta callbacks fuel a seed nonce with
   | Some p => length p = N ∧ Forall (λ x, - ETA <= x <= ETA) p
   | None => ∀ k, (k < fuel)%nat → (length (eta_acc callbacks (stream_input CRHBYTES seed nonce) k) < N)%nat
   end) ∧
  (∃ p, poly_uniform_gamma1 callbacks a seed nonce = Some p ∧ length p = N ∧ Forall mask_fits p) ∧
  (match poly_challenge callbacks fuel a seed with
   | Some c => length c = N ∧ Forall (λ x, x = -1 ∨ x = 0 ∨ x = 1) c ∧ length (filter (λ x, x ≠ 0) c) = TAU
   | None => ∀ T, (8 <= T < fuel)%nat → sample_in_ball (H (take CTILDEBYTES seed) T) = None
   end).
Proof using SC.
  intros Ha Hb Hl. assert (SEEDBYTES <= length seed)%nat by (unfold SEEDBYTES, CRHBYTES in *; lia).
  assert (CTILDEBYTES <= length seed)%nat by (unfold CTILDEBYTES, CRHBYTES in *; lia).
  split; [|split; [|split]].
  - rewrite (poly_uniform_ok callbacks) by done. apply sampled_or; [|apply uniform_acc_range].
    intros j. eexists. by apply (uniform_acc_S callbacks), stream_input_bytes.
  - rewrite (poly_uniform_eta_ok callbacks) by done. apply sampled_or.
    + intros j. eexists. by apply (eta_acc_S callbacks), stream_input_bytes.
    + intros k. apply (eta_acc_range callbacks). by apply stream_input_bytes.
  - apply wp_exists. by apply poly_uniform_gamma1_range.
  - pose proof (poly_challenge_ball callbacks fuel a seed Ha Hb ltac:(done)) as Hw.
    destruct (poly_challenge callbacks fuel a seed) as [c|] eqn:E.
    + destruct Hw as (Hc & Ht & Hn & _). split; [done|]. split; [done|]. unfold nz in Hn. rewrite Hn. unfold N, TAU. lia.
    + intros T HT. destruct (sample_in_ball _) as [c|] eqn:Es; [|done].
      rewrite (poly_challenge_ok callbacks fuel T a seed c) in E by done. done.
Qed.
End sampling.

(** ** Instances *)
Abbreviation seed0 := (replicate CRHBYTES 0).
Abbreviation poly0 := (replicate N 0).
Lemma seed0_bytes : bytes seed0. Proof. apply Forall_replicate, byte_0. Qed.
Lemma seed0_length : (CRHBYTES <= length seed0)%nat. Proof. by rewrite length_replicate. Qed.

Lemma sampling_exact_witness : poly_uniform toy_callbacks 1 poly0 seed0 5 = Some poly0.
Proof.
  rewrite (proj1 (sampling_exact toy_callbacks 1 poly0 seed0 5 (length_replicate _ _) seed0_bytes seed0_length)).
  vm_compute. reflexivity.
Defined.

Lemma sampling_live_witness : is_Some (poly_challenge toy_callbacks 100 poly0 seed0).
Proof.
  assert (Hs : is_Some (sample_in_ball (xof (o := cb_shake256_inc toy_callbacks) (take CTILDEBYTES seed0) 60)))
    by (vm_compute; eexists; reflexivity).
  destruct Hs as [c Hs]. exists c.
  exact (proj2 (proj2 (sampling_live toy_callbacks 100 poly0 seed0 5 (length_replicate _ _) seed0_bytes seed0_length))
    60%nat c ltac:(lia) Hs).
Defined.

Lemma sampled_types_witness : ∃ u e c,
  poly_uniform toy_callbacks 100 poly0 seed0 5 = Some u ∧ length u = N ∧ Forall (λ x, 0 <= x < Q) u ∧
  poly_uniform_eta toy_callbacks 100 poly0 seed0 5 = Some e ∧ length e = N ∧ Forall (λ x, - ETA <= x <= ETA) e ∧
  poly_challenge toy_callbacks 100 poly0 seed0 = Some c ∧ length c = N ∧ Forall (λ x, x = -1 ∨ x = 0 ∨ x = 1) c ∧
  length (filter (λ x, x ≠ 0) c) = TAU.
Proof.
  destruct (sampled_types toy_callbacks 100 poly0 seed0 5 (length_replicate _ _) seed0_bytes seed0_length) as (Hu & He & _ & Hc).
  assert (Eu : is_Some (poly_uniform toy_callbacks 100 poly0 seed0 5)) by (vm_compute; eexists; reflexivity).
  assert (Ee : is_Some (poly_uniform_eta toy_callbacks 100 poly0 seed0 5)) by (vm_compute; eexists; reflexivity).
  assert (Ec : is_Some (poly_challenge toy_callbacks 100 poly0 seed0)) by (vm_compute; eexists; reflexivity).
  destruct Eu as [u Eu], Ee as [e Ee], Ec as [c Ec]. rewrite Eu in Hu. rewrite Ee in He. rewrite Ec in Hc.
  destruct Hu as [U1 U2], He as [E1 E2], Hc as (C1 & C2 & C3). exists u, e, c.
  split_and!; assumption.
Defined.
