(* ===== verification/MlTheorems.v ===== *)
(** ML-DSA-65: the main theorems on its arithmetic and encodings. *)
From S2P Require Import Prelude MlArith MlNtt MlNttSpec MlPoly MlPack MlKeys MlHints MlSig MlVec.

(** Constant polynomials and vectors, for the witnesses. *)
Lemma rep_replicate B x : - B <= x <= B → rep B (λ _, x) (replicate N x).
Proof.
  intros H. split; [apply length_replicate|]. intros i Hi. exists x.
  split; [by apply lookup_replicate_2|]. done.
Qed.
Lemma each_replicate (P : nat → Z → Prop) x : (∀ i, (i < N)%nat → P i x) → each P (replicate N x).
Proof.
  intros H. split; [apply length_replicate|]. intros i Hi. exists x.
  split; [by apply lookup_replicate_2|]. by apply H.
Qed.
Lemma vec_replicate n (P : Z → Prop) x : P x → vec_of n P (replicate n (replicate N x)).
Proof.
  intros H. split; [apply length_replicate|]. apply Forall_replicate.
  split; [apply length_replicate|by apply Forall_replicate].
Qed.

(** ** Arithmetic *)

(** Montgomery reduction on its whole documented domain: no overflow, the
    result is congruent to a * 2^-32 modulo Q and lies in ]-Q, Q]; it is below Q
    except at the end point a = 2^31 * Q, where it is Q. *)
Theorem montgomery_reduce_exact (a : Z) :
  - (2 ^ 31 * Q) <= a <= 2 ^ 31 * Q →
  (∃ r, montgomery_reduce a = Some r ∧ r * 2 ^ 32 ≡q a ∧ - Q < r <= Q ∧ (a < 2 ^ 31 * Q → r < Q)) ∧
  montgomery_reduce (2 ^ 31 * Q) = Some Q.
Proof. intros Ha. split; [|reflexivity]. destruct (montgomery_ok a Ha) as (r & ? & ? & ? & ? & _). eauto. Qed.

Lemma montgomery_reduce_exact_witness :
  (∃ r, montgomery_reduce 123456789012345 = Some r ∧ r * 2 ^ 32 ≡q 123456789012345 ∧ - Q < r <= Q ∧
     (123456789012345 < 2 ^ 31 * Q → r < Q)) ∧ montgomery_reduce (2 ^ 31 * Q) = Some Q.
Proof. apply (montgomery_reduce_exact 123456789012345). unfold Q. lia. Defined.

(** C40 [reduce32] is defined on the documented domain and returns a value
    congruent to its argument in [-6283009, 6283008]; the lower end, one below
    the documented range, is attained.  [freeze] returns the standard
    representative. *)
Theorem reduce32_freeze_exact (a : Z) :
  - 2 ^ 31 <= a <= 2 ^ 31 - 2 ^ 22 - 1 →
  wp (reduce32 a) (λ r, r ≡q a ∧ -6283009 <= r <= 6283008) ∧
  freeze a = Some (a mod Q) ∧
  reduce32 (-2143289344) = Some (-6283009).
Proof. intros Ha. split_and!; [by apply reduce32_ok|by apply freeze_ok|reflexivity]. Qed.

Lemma reduce32_freeze_exact_witness :
  wp (reduce32 (-2143289344)) (λ r, r ≡q -2143289344 ∧ -6283009 <= r <= 6283008) ∧
  freeze (-2143289344) = Some (-2143289344 mod Q) ∧ reduce32 (-2143289344) = Some (-6283009).
Proof. apply (reduce32_freeze_exact (-2143289344)). lia. Defined.

(** Rounding of a standard representative: [power2round] and [decompose]
    return the unique high and low parts the standard prescribes, with the top
    interval of [decompose] folded onto 0, and never overflow. *)
Theorem rounding_exact (a : Z) :
  0 <= a < Q →
  wp (power2round a) (λ '(a1, a0),
    a = a1 * 2 ^ D + a0 ∧ - 2 ^ (D - 1) < a0 <= 2 ^ (D - 1) ∧ 0 <= a1 < 2 ^ 10) ∧
  wp (decompose a) (λ '(a1, a0), is_decomp a a1 a0 ∧
    ∀ b1 b0, is_decomp a b1 b0 → b1 = a1 ∧ b0 = a0).
Proof.
  intros Ha. split; [by apply power2round_ok|]. eapply wp_mono; [by apply decompose_ok|].
  intros [a1 a0] H. split; [done|]. intros b1 b0 Hb. by eapply is_decomp_unique.
Qed.

Lemma rounding_exact_witness :
  wp (power2round 8380416) (λ '(a1, a0),
    8380416 = a1 * 2 ^ D + a0 ∧ - 2 ^ (D - 1) < a0 <= 2 ^ (D - 1) ∧ 0 <= a1 < 2 ^ 10) ∧
  wp (decompose 8380416) (λ '(a1, a0), is_decomp 8380416 a1 a0 ∧
    ∀ b1 b0, is_decomp 8380416 b1 b0 → b1 = a1 ∧ b0 = a0).
Proof. apply (rounding_exact 8380416). unfold Q. lia. Defined.

(** Hints: from low parts [w0] below 2*GAMMA2 in absolute value and high parts
    [w1], [poly_make_hint] writes a hint from which [poly_use_hint] recovers [w1]
    given only the standard representative of w1 * 2*GAMMA2 + w0; it returns the
    number of ones. *)
Theorem hint_recovers_high_bits (F0 F1 : nat → Z) (h b w0 w1 r : list Z) :
  length h = N → length b = N →
  each (λ i x, x = F0 i ∧ - (2 * GAMMA2) < x < 2 * GAMMA2) w0 →
  each (λ i x, x = F1 i ∧ 0 <= x < 16) w1 →
  each (λ i x, x = (F1 i * (2 * GAMMA2) + F0 i) mod Q) r →
  wp (poly_make_hint h w0 w1) (λ '(h', s),
    s = psum (λ i, make_hint (F0 i) (F1 i)) N ∧ poly_use_hint b r h' = Some w1).
Proof.
  intros Hh Hb H0 H1 Hr. eapply wp_mono.
  - apply (poly_make_hint_ok F0 F1); [done|eapply each_mono; [exact H0|by intros ?? _ []]|].
    eapply each_mono; [exact H1|by intros ?? _ []].
  - intros [h' s] [Hh' Hs]. split; [done|]. apply wp_eq. eapply wp_mono.
    + apply (fill_binary (λ x y, use_hint x (u32 y)) _ _ (λ i x, w1 !! i = Some x) b r h' Hb Hr Hh').
      intros i x y Hi -> ->. pose proof (make_hint_range (F0 i) (F1 i)).
      rewrite u32_small by (unfold in_u32; lia).
      destruct (proj2 H0 i Hi) as (x0 & _ & -> & B0), (proj2 H1 i Hi) as (x1 & E1 & -> & B1).
      by rewrite use_hint_make_hint.
    + intros b' Hb'. apply each_eq; [apply H1|done].
Qed.

Lemma hint_recovers_high_bits_witness :
  wp (poly_make_hint (replicate N 7) (replicate N 300000) (replicate N 15)) (λ '(h', s),
    s = psum (λ _, make_hint 300000 15) N ∧
    poly_use_hint (replicate N 0) (replicate N 8156640) h' = Some (replicate N 15)).
Proof.
  apply (hint_recovers_high_bits (λ _, 300000) (λ _, 15)).
  - apply length_replicate.
  - apply length_replicate.
  - apply each_replicate. intros. by vm_compute.
  - apply each_replicate. intros. by vm_compute.
  - apply each_replicate. intros. by vm_compute.
Defined.

(** ** Transform and product *)

(** The forward transform evaluates: on coefficients bounded by [B], [ntt] is
    defined (no overflow, no access out of bounds, every loop ends) if B + 8Q
    fits an [int32_t], and entry i of its result is, modulo Q, the polynomial at
    the (2 * bitreverse(i) + 1)-th power of the root of unity 1753. *)
Theorem ntt_evaluates (B : Z) (F : nat → Z) (a : list Z) :
  0 <= B → B + 8 * Q < 2 ^ 31 → rep B F a →
  wp (ntt a) (rep (B + 8 * Q) (λ i, peval F 0 N (root i))).
Proof.
  intros HB HB8 Ha. eapply wp_mono; [by apply ntt_layers_ok|]. intros b.
  apply rep_ext. intros i Hi. by apply layers_root.
Qed.

Lemma ntt_evaluates_witness :
  wp (ntt (replicate N 5)) (rep (5 + 8 * Q) (λ i, peval (λ _, 5) 0 N (root i))).
Proof. apply (ntt_evaluates 5 (λ _, 5)); [lia|unfold Q; lia|by apply rep_replicate]. Defined.

(** The inverse transform inverts: transforming, reducing and transforming
    back gives the polynomial times 2^32 modulo Q, with coefficients less than Q in
    absolute value. *)
Theorem invntt_inverts (F : nat → Z) (a : list Z) :
  rep Q F a →
  wp (a ← poly_ntt a; a ← poly_reduce a; poly_invntt_tomont a) (rep (Q - 1) (λ i, 2 ^ 32 * F i)).
Proof.
  intros Ha. unfold poly_ntt, poly_invntt_tomont.
  eapply wp_then; [by apply (ntt_layers_ok Q F)|]. intros b Hb. cbn beta.
  eapply wp_then; [apply (poly_reduce_ok (layers 8 F))|].
  - apply each_rep in Hb. eapply each_mono; [exact Hb|]. intros i x _ [Bx Ex]. unfold Q in Bx.
    split; [lia|done].
  - intros c [Hl Hc]. apply invntt_ok. split; [done|]. intros i Hi.
    destruct (Hc i Hi) as (x & Hx & Bx & Ex). exists x. split; [done|]. unfold Q. split; [lia|done].
Qed.

Lemma invntt_inverts_witness :
  wp (a ← poly_ntt (replicate N (-3)); a ← poly_reduce a; poly_invntt_tomont a)
     (rep (Q - 1) (λ i, 2 ^ 32 * -3)).
Proof. apply (invntt_inverts (λ _, -3)). apply rep_replicate. unfold Q. lia. Defined.

(** C30 Multiplication: the transform of both factors, the entry-wise Montgomery
    product and the inverse transform compute the product in Z/Q[X]/(X^256 + 1),
    without overflow, with coefficients less than Q in absolute value. *)
Theorem poly_product_exact (F G : nat → Z) (c a b : list Z) :
  length c = N → rep Q F a → rep Q G b →
  wp (a ← poly_ntt a; b ← poly_ntt b; c ← poly_pointwise_montgomery c a b; poly_invntt_tomont c)
     (rep (Q - 1) (negmul F G)).
Proof. apply poly_mul_ok. Qed.

Lemma poly_product_exact_witness :
  wp (a ← poly_ntt (replicate N 2); b ← poly_ntt (replicate N (-7));
      c ← poly_pointwise_montgomery (replicate N 0) a b; poly_invntt_tomont c)
     (rep (Q - 1) (negmul (λ _, 2) (λ _, -7))).
Proof.
  apply (poly_product_exact (λ _, 2) (λ _, -7)).
  - apply length_replicate.
  - apply rep_replicate. unfold Q. lia.
  - apply rep_replicate. unfold Q. lia.
Defined.

(** Matrix-vector product, as key generation, signing and verification run it:
    with [mat] the transforms of a K x L matrix A of polynomials and [v] a vector
    of polynomials, transforming [v], multiplying and accumulating row by row,
    reducing and transforming back gives A v over Z/Q[X]/(X^256 + 1), without
    overflow, whatever the output and the stack held. *)
Theorem matrix_vector_exact `{Uninit} (A : nat → nat → nat → Z) (V : nat → nat → Z)
    (mat : list (list (list Z))) (v t : list (list Z)) :
  is_matrix A mat → each_poly L (λ j a, rep Q (V j) a) v → is_vec K t →
  wp (v ← polyvecl_ntt v; t ← polyvec_matrix_pointwise_montgomery t mat v;
      t ← polyveck_reduce t; polyveck_invntt_tomont t)
     (each_poly K (λ i a, rep (Q - 1) (λ k, psum (λ j, negmul (A i j) (V j) k) L) a)).
Proof. apply matvec_ok. Qed.

(** The constant polynomial c, whose transform is c everywhere. *)
Definition const_poly (c : Z) (k : nat) : Z := match k with O => c | S _ => 0 end.
Lemma peval_const c n x : peval (const_poly c) 0 (S n) x = c.
Proof.
  unfold peval. induction n as [|n IH]; [simpl; lia|]. cbn [psum] in *. rewrite IH.
  cbn [Nat.add const_poly]. lia.
Qed.
#[local] Instance zero_memory : Uninit := {| uninit n := replicate n 0; length_uninit n := length_replicate n 0 |}.

Lemma matrix_vector_exact_witness :
  wp (v ← polyvecl_ntt (replicate L (replicate N 3));
      t ← polyvec_matrix_pointwise_montgomery (replicate K (replicate N 0))
            (replicate K (replicate L (replicate N 7))) v;
      t ← polyveck_reduce t; polyveck_invntt_tomont t)
     (each_poly K (λ i a, rep (Q - 1) (λ k, psum (λ j, negmul (const_poly 7) (λ _, 3) k) L) a)).
Proof.
  apply (matrix_vector_exact (λ _ _, const_poly 7) (λ _ _, 3)).
  - split; [apply length_replicate|]. intros i Hi. exists (replicate L (replicate N 7)).
    split; [by apply lookup_replicate_2|]. split; [apply length_replicate|].
    intros j Hj. exists (replicate N 7). split; [by apply lookup_replicate_2|].
    apply (rep_ext Q (λ _, 7)); [|apply rep_replicate; unfold Q; lia].
    intros k Hk. rewrite layers_root by done. by rewrite (peval_const 7 255).
  - split; [apply length_replicate|]. intros j Hj. exists (replicate N 3).
    split; [by apply lookup_replicate_2|]. apply rep_replicate. unfold Q. lia.
  - split; [apply length_replicate|]. apply Forall_replicate, length_replicate.
Defined.

(** ** Norm check and sampling *)

(** The norm check is exact on all coefficients below 2^30 in absolute value:
    it returns 0 if the bound is at most (Q-1)/8 and every coefficient is below
    it in absolute value, and 1 otherwise. *)
Theorem chknorm_exact (a : list Z) (B : Z) :
  each (λ _ x, - 2 ^ 30 <= x < 2 ^ 30) a →
  poly_chknorm a B =
    Some (if bool_decide (B <= (Q - 1) / 8 ∧ Forall (λ x, Z.abs x < B) a) then 0 else 1).
Proof. apply poly_chknorm_ok. Qed.

Lemma chknorm_exact_witness :
  poly_chknorm (replicate N (-200)) 196 =
    Some (if bool_decide (196 <= (Q - 1) / 8 ∧ Forall (λ x, Z.abs x < 196) (replicate N (-200))) then 0 else 1).
Proof. apply (chknorm_exact (replicate N (-200)) 196). apply each_replicate. intros. lia. Defined.

(** Rejection sampling: both inner loops read the buffer within bounds, accept
    exactly the candidates the standard accepts in order until enough have been
    found or the buffer is exhausted, write them at the front of the array,
    leave the rest of it alone and return their number; what they write is in
    [0, Q-1] and in [-ETA, ETA]. *)
Theorem rejection_sampling_exact (a buf : list Z) (len buflen : nat) :
  (len <= length a)%nat → (buflen <= length buf)%nat → bytes buf →
  let u := uniform_sample len (take buflen buf) in
  let e := eta_sample len (take buflen buf) in
  rej_uniform a len buf buflen = Some (length u, u ++ drop (length u) a) ∧
  rej_eta a len buf buflen = Some (length e, e ++ drop (length e) a) ∧
  Forall (λ x, 0 <= x < Q) u ∧ Forall (λ x, - ETA <= x <= ETA) e ∧
  (length u <= len)%nat ∧ (length e <= len)%nat.
Proof.
  intros Ha Hb HB u e. split_and!; [apply rej_uniform_ok; auto using Forall_take|apply rej_eta_ok; auto using Forall_take|..].
  - by apply uniform_sample_range.
  - apply eta_sample_range. by apply Forall_take.
  - unfold u, uniform_sample. rewrite length_take. lia.
  - unfold e, eta_sample. rewrite length_take. lia.
Qed.

Lemma rejection_sampling_exact_witness :
  let buf := [255; 255; 255; 1; 2; 3; 0x95] in
  let u := uniform_sample 2 (take 7 buf) in
  let e := eta_sample 2 (take 7 buf) in
  rej_uniform [0; 0; 9] 2 buf 7 = Some (length u, u ++ drop (length u) [0; 0; 9]) ∧
  rej_eta [0; 0; 9] 2 buf 7 = Some (length e, e ++ drop (length e) [0; 0; 9]) ∧
  Forall (λ x, 0 <= x < Q) u ∧ Forall (λ x, - ETA <= x <= ETA) e ∧
  (length u <= 2)%nat ∧ (length e <= 2)%nat.
Proof.
  apply (rejection_sampling_exact [0; 0; 9] [255; 255; 255; 1; 2; 3; 0x95] 2 7).
  - simpl. lia.
  - simpl. lia.
  - repeat constructor; unfold in_u8; lia.
Defined.

(** ** Encodings *)

(** Public keys: unpacking what [pack_pk] wrote gives back the seed and the
    vector t1, for every vector of 10-bit coefficients and whatever the output
    buffers held. *)
Theorem pk_encoding_roundtrip (pk0 rho : list Z) (t1 : list (list Z)) :
  length pk0 = CRYPTO_PUBLICKEYBYTES → length rho = SEEDBYTES → vec_of K (λ x, 0 <= x < 2 ^ 10) t1 →
  wp (pack_pk pk0 rho t1) (λ pk, length pk = CRYPTO_PUBLICKEYBYTES ∧
    ∀ rho0 t10, length rho0 = SEEDBYTES → is_vec K t10 → unpack_pk rho0 t10 pk = Some (rho, t1)).
Proof.
  intros Hpk Hr Ht. eapply wp_mono; [by apply pk_roundtrip|]. intros pk (Hl & _ & H).
  split; [done|]. intros rho0 t10 H1 H2. by apply H.
Qed.

Lemma pk_encoding_roundtrip_witness :
  wp (pack_pk (replicate CRYPTO_PUBLICKEYBYTES 0) (replicate SEEDBYTES 9) (replicate K (replicate N 1023)))
     (λ pk, length pk = CRYPTO_PUBLICKEYBYTES ∧
       ∀ rho0 t10, length rho0 = SEEDBYTES → is_vec K t10 →
         unpack_pk rho0 t10 pk = Some (replicate SEEDBYTES 9, replicate K (replicate N 1023))).
Proof.
  apply (pk_encoding_roundtrip (replicate CRYPTO_PUBLICKEYBYTES 0) (replicate SEEDBYTES 9)
    (replicate K (replicate N 1023))).
  - apply length_replicate.
  - apply length_replicate.
  - apply vec_replicate. lia.
Defined.

(** Secret keys: unpacking what [pack_sk] wrote gives back all six parts, for
    every t0 in ]-2^12, 2^12] and s1, s2 in [-ETA, ETA]. *)
Theorem sk_encoding_roundtrip (sk0 rho tr key : list Z) (t0 s1 s2 : list (list Z)) :
  length sk0 = CRYPTO_SECRETKEYBYTES → length rho = SEEDBYTES → length tr = TRBYTES →
  length key = SEEDBYTES → vec_of K (λ x, - 2 ^ (D - 1) < x <= 2 ^ (D - 1)) t0 →
  vec_of L (λ x, - ETA <= x <= ETA) s1 → vec_of K (λ x, - ETA <= x <= ETA) s2 →
  wp (pack_sk sk0 rho tr key t0 s1 s2) (λ sk, length sk = CRYPTO_SECRETKEYBYTES ∧
    ∀ rho' tr' key' t0' s1' s2',
      length rho' = SEEDBYTES → length tr' = TRBYTES → length key' = SEEDBYTES →
      is_vec K t0' → is_vec L s1' → is_vec K s2' →
      unpack_sk rho' tr' key' t0' s1' s2' sk = Some (rho, tr, key, t0, s1, s2)).
Proof. apply sk_roundtrip. Qed.

Lemma sk_encoding_roundtrip_witness :
  let v := replicate K (replicate N 4096) in
  let s1 := replicate L (replicate N (-4)) in
  let s2 := replicate K (replicate N 4) in
  wp (pack_sk (replicate CRYPTO_SECRETKEYBYTES 0) (replicate SEEDBYTES 1) (replicate TRBYTES 2)
        (replicate SEEDBYTES 3) v s1 s2) (λ sk, length sk = CRYPTO_SECRETKEYBYTES ∧
    ∀ rho' tr' key' t0' s1' s2',
      length rho' = SEEDBYTES → length tr' = TRBYTES → length key' = SEEDBYTES →
      is_vec K t0' → is_vec L s1' → is_vec K s2' →
      unpack_sk rho' tr' key' t0' s1' s2' sk =
        Some (replicate SEEDBYTES 1, replicate TRBYTES 2, replicate SEEDBYTES 3, v, s1, s2)).
Proof.
  apply (sk_encoding_roundtrip (replicate CRYPTO_SECRETKEYBYTES 0) (replicate SEEDBYTES 1)
    (replicate TRBYTES 2) (replicate SEEDBYTES 3) (replicate K (replicate N 4096))
    (replicate L (replicate N (-4))) (replicate K (replicate N 4))).
  - apply length_replicate.
  - apply length_replicate.
  - apply length_replicate.
  - apply length_replicate.
  - apply vec_replicate. change (2 ^ (D - 1)) with 4096. lia.
  - apply vec_replicate. unfold ETA. lia.
  - apply vec_replicate. unfold ETA. lia.
Defined.

(** Signatures: [unpack_sig] accepts what [pack_sig] wrote and gives back the
    challenge, the vector z in ]-GAMMA1, GAMMA1] and the hints, for every 0/1
    hint vector with at most OMEGA ones. *)
Theorem sig_encoding_roundtrip (sig0 c : list Z) (z h : list (list Z)) :
  length sig0 = CRYPTO_BYTES → length c = CTILDEBYTES → vec_of L (λ x, - GAMMA1 < x <= GAMMA1) z →
  hints_ok h →
  wp (pack_sig sig0 c z h) (λ sig, length sig = CRYPTO_BYTES ∧
    ∀ c0 z0 h0, length c0 = CTILDEBYTES → is_vec L z0 → is_vec K h0 →
      unpack_sig c0 z0 h0 sig = Some (0, c, z, h)).
Proof.
  intros Hs Hc Hz Hh. eapply wp_mono; [by apply sig_roundtrip_ok|]. by intros sig (Hl & _ & Hu).
Qed.

Definition sample_hints : list (list Z) := replicate K ([0; 1; 0; 1] ++ replicate 251 0 ++ [1]).

Lemma sig_encoding_roundtrip_witness :
  wp (pack_sig (replicate CRYPTO_BYTES 7) (replicate CTILDEBYTES 1) (replicate L (replicate N (-5)))
        sample_hints) (λ sig, length sig = CRYPTO_BYTES ∧
    ∀ c0 z0 h0, length c0 = CTILDEBYTES → is_vec L z0 → is_vec K h0 →
      unpack_sig c0 z0 h0 sig =
        Some (0, replicate CTILDEBYTES 1, replicate L (replicate N (-5)), sample_hints)).
Proof.
  apply (sig_encoding_roundtrip (replicate CRYPTO_BYTES 7) (replicate CTILDEBYTES 1)
    (replicate L (replicate N (-5))) sample_hints).
  - apply length_replicate.
  - apply length_replicate.
  - apply vec_replicate. change GAMMA1 with (2 ^ 19). lia.
  - split.
    + split; [reflexivity|]. apply Forall_replicate. split; [reflexivity|].
      apply (bool_decide_unpack _). by vm_compute.
    + vm_compute. lia.
Defined.

(** C31 Signatures have one encoding: on any byte string of the right length
    [unpack_sig] is defined and returns 0 or 1, and if it returns 0, packing
    what it returned gives the string back byte for byte. *)
Theorem sig_encoding_canonical (c0 : list Z) (z0 h0 : list (list Z)) (sig : list Z) :
  length sig = CRYPTO_BYTES → bytes sig → length c0 = CTILDEBYTES → is_vec L z0 → is_vec K h0 →
  wp (unpack_sig c0 z0 h0 sig) (λ '(ret, c, z, h),
    length c = CTILDEBYTES ∧ c = take CTILDEBYTES sig ∧ vec_of L (λ x, - GAMMA1 < x <= GAMMA1) z ∧ is_vec K h ∧
    (ret = 0 ∧ hints_ok h ∧ (∀ sig0, length sig0 = CRYPTO_BYTES → pack_sig sig0 c z h = Some sig) ∨
     ret = 1)).
Proof. apply unpack_sig_any. Qed.

Lemma sig_encoding_canonical_witness :
  wp (unpack_sig (replicate CTILDEBYTES 0) (replicate L (replicate N 0)) (replicate K (replicate N 0))
        (replicate CRYPTO_BYTES 0)) (λ '(ret, c, z, h),
    length c = CTILDEBYTES ∧ c = take CTILDEBYTES (replicate CRYPTO_BYTES 0) ∧ vec_of L (λ x, - GAMMA1 < x <= GAMMA1) z ∧ is_vec K h ∧
    (ret = 0 ∧ hints_ok h ∧
       (∀ sig0, length sig0 = CRYPTO_BYTES → pack_sig sig0 c z h = Some (replicate CRYPTO_BYTES 0)) ∨
     ret = 1)).
Proof.
  apply (sig_encoding_canonical (replicate CTILDEBYTES 0) (replicate L (replicate N 0))
    (replicate K (replicate N 0)) (replicate CRYPTO_BYTES 0)).
  - apply length_replicate.
  - apply Forall_replicate. unfold in_u8. lia.
  - apply length_replicate.
  - split; [apply length_replicate|]. apply Forall_replicate, length_replicate.
  - split; [apply length_replicate|]. apply Forall_replicate, length_replicate.
Defined.
