(* ===== verification/OqsMlDsa.v ===== *)
(** The ML-DSA-65 object of the signature API (sig_ml_dsa_65.c, portable build),
    the two constructors of this repository's build, and what a caller of the
    API gets from either object.

    [fuel] and [tries] are the bounds of MlSign.v on the samplers and on the
    signing loop; a null context pointer is [None]. *)
From stdpp Require Import strings.
From S2P Require Import Prelude SpxAddress SpxIface SpxHash SpxSign SpxCorrect Sphincs OqsSig KeccakP Sha3 Sha3Api MlArith MlKeys MlSig MlSign MlAttempt MlScheme MlToy MlDsa.

Open Scope string_scope.
Open Scope list_scope.
Open Scope Z_scope.

(** ** The wrapper *)
Section wrapper.
Context (callbacks : OQS_SHA3_callbacks) {U : Uninit} (fuel tries : nat).
Context {rng : Type} (randombytes : rng → nat → list Z * rng).

Definition OQS_SIG_ml_dsa_65_length_public_key : Z := 1952.
Definition OQS_SIG_ml_dsa_65_length_secret_key : Z := 4032.
Definition OQS_SIG_ml_dsa_65_length_signature : Z := 3309.

(** The bytes behind a context pointer: a null pointer has none, so that reading
    one is out of range. *)
Definition ctx_bytes (ctx_str : option (list Z)) : list Z := default [] ctx_str.

Definition OQS_SIG_ml_dsa_65_keypair (public_key secret_key : list Z) (g : rng) :=
  MlSign.crypto_sign_keypair callbacks fuel randombytes public_key secret_key g.

Definition OQS_SIG_ml_dsa_65_sign (signature : list Z) (signature_len : nat) (message secret_key : list Z) (g : rng) :=
  MlSign.crypto_sign_signature callbacks fuel tries randombytes signature signature_len message
    (ctx_bytes None) 0 secret_key g.

Definition OQS_SIG_ml_dsa_65_verify (message signature : list Z) (signature_len : nat) (public_key : list Z) : option Z :=
  MlSign.crypto_sign_verify callbacks fuel signature signature_len message (ctx_bytes None) 0 public_key.

Definition OQS_SIG_ml_dsa_65_sign_with_ctx_str (signature : list Z) (signature_len : nat) (message : list Z)
    (ctx_str : option (list Z)) (ctx_str_len : nat) (secret_key : list Z) (g : rng) :=
  MlSign.crypto_sign_signature callbacks fuel tries randombytes signature signature_len message
    (ctx_bytes ctx_str) ctx_str_len secret_key g.

Definition OQS_SIG_ml_dsa_65_verify_with_ctx_str (message signature : list Z) (signature_len : nat)
    (ctx_str : option (list Z)) (ctx_str_len : nat) (public_key : list Z) : option Z :=
  MlSign.crypto_sign_verify callbacks fuel signature signature_len message (ctx_bytes ctx_str) ctx_str_len public_key.

Definition OQS_SIG_ml_dsa_65_new (malloc_ok : bool) : option (OQS_SIG rng) :=
  if malloc_ok then Some {|
    method_name := "ML-DSA-65";
    alg_version := "FIPS204";
    claimed_nist_level := 3;
    euf_cma := true;
    sig_with_ctx_support := true;
    length_public_key := OQS_SIG_ml_dsa_65_length_public_key;
    length_secret_key := OQS_SIG_ml_dsa_65_length_secret_key;
    length_signature := OQS_SIG_ml_dsa_65_length_signature;
    keypair := OQS_SIG_ml_dsa_65_keypair;
    sign := OQS_SIG_ml_dsa_65_sign;
    sign_with_ctx_str := OQS_SIG_ml_dsa_65_sign_with_ctx_str;
    verify := OQS_SIG_ml_dsa_65_verify;
    verify_with_ctx_str := OQS_SIG_ml_dsa_65_verify_with_ctx_str;
  |} else None.

(** The constructors that the build of this repository compiles. *)
Definition qs_constructors (malloc_ok : bool) (alg : string) : option (OQS_SIG rng) :=
  if decide (alg = "ml_dsa_65") then OQS_SIG_ml_dsa_65_new malloc_ok
  else if decide (alg = "sphincs_sha2_192f_simple") then OQS_SIG_sphincs_sha2_192f_simple_new randombytes malloc_ok
  else None.
End wrapper.

(** ** What the API promises to its callers *)

Lemma status_success st : (if decide (st ≠ OQS_SUCCESS) then OQS_ERROR else OQS_SUCCESS) = OQS_SUCCESS → st = OQS_SUCCESS.
Proof. by case_decide. Qed.

(** Keys that an object returns, into buffers of the lengths it advertises, come
    with success and have those lengths; from any state of the random source, a
    signature that it returns for them comes with success, has the advertised
    length, and verifies.  Public keys and signatures are bytes. *)
Class RoundTrips {rng} (sig : OQS_SIG rng) : Prop := round_trips pk0 sk0 g st pk sk g1 :
  Z.of_nat (length pk0) = length_public_key sig → Z.of_nat (length sk0) = length_secret_key sig →
  OQS_SIG_keypair (Some sig) pk0 sk0 g = Some (st, pk, sk, g1) →
  st = OQS_SUCCESS ∧ length pk = length pk0 ∧ length sk = length sk0 ∧ bytes pk ∧
  ∀ sig0 len0 m g2 st s n g3,
    Z.of_nat (length sig0) = length_signature sig → bytes m → msg_fits m →
    OQS_SIG_sign (Some sig) sig0 len0 m sk g2 = Some (st, s, n, g3) →
    st = OQS_SUCCESS ∧ Z.of_nat n = length_signature sig ∧ length s = n ∧ bytes s ∧
    OQS_SIG_verify (Some sig) m s n pk = Some OQS_SUCCESS.

(** The API returns success exactly when the object does. *)
Lemma keypair_success {rng} (sig : OQS_SIG rng) pk0 sk0 g pk sk g1 :
  OQS_SIG_keypair (Some sig) pk0 sk0 g = Some (OQS_SUCCESS, pk, sk, g1) →
  keypair sig pk0 sk0 g = Some (OQS_SUCCESS, pk, sk, g1).
Proof.
  unfold OQS_SIG_keypair. destruct (keypair sig pk0 sk0 g) as [[[[st pk'] sk'] g']|]; [|done]. cbn [mbind option_bind].
  intros E. injection E as E -> -> ->. by apply status_success in E as ->.
Qed.
Lemma sign_success {rng} (sig : OQS_SIG rng) s0 n0 m sk g s n g1 :
  OQS_SIG_sign (Some sig) s0 n0 m sk g = Some (OQS_SUCCESS, s, n, g1) →
  sign sig s0 n0 m sk g = Some (OQS_SUCCESS, s, n, g1).
Proof.
  unfold OQS_SIG_sign. destruct (sign sig s0 n0 m sk g) as [[[[st s'] n'] g']|]; [|done]. cbn [mbind option_bind].
  intros E. injection E as E -> -> ->. by apply status_success in E as ->.
Qed.
Lemma sign_ctx_success {rng} (sig : OQS_SIG rng) s0 n0 m c l sk g s n g1 :
  OQS_SIG_sign_with_ctx_str (Some sig) s0 n0 m c l sk g = Some (OQS_SUCCESS, s, n, g1) →
  sign_with_ctx_str sig s0 n0 m c l sk g = Some (OQS_SUCCESS, s, n, g1).
Proof.
  unfold OQS_SIG_sign_with_ctx_str. destruct (sign_with_ctx_str sig s0 n0 m c l sk g) as [[[[st s'] n'] g']|]; [|done].
  cbn [mbind option_bind]. intros E. injection E as E -> -> ->. by apply status_success in E as ->.
Qed.

(** [ML-DSA-65]: the advertised lengths are those of the scheme. *)
Lemma mldsa_lengths :
  Z.of_nat CRYPTO_PUBLICKEYBYTES = OQS_SIG_ml_dsa_65_length_public_key ∧
  Z.of_nat CRYPTO_SECRETKEYBYTES = OQS_SIG_ml_dsa_65_length_secret_key ∧
  Z.of_nat CRYPTO_BYTES = OQS_SIG_ml_dsa_65_length_signature.
Proof. split; [|split]; vm_compute; reflexivity. Qed.

Section objects.
Context (callbacks : OQS_SHA3_callbacks) {SC : Sha3Contract callbacks} {U : Uninit} (fuel tries : nat).
Context {rng : Type} (randombytes : rng → nat → list Z * rng).
Context (Hrng : ∀ g n, length (randombytes g n).1 = n ∧ bytes (randombytes g n).1).

(** With a context: the same for [sign_with_ctx_str] and [verify_with_ctx_str]. *)
Lemma mldsa_ctx_round_trip sig pk0 sk0 sig0 len0 m c l g pk sk g1 g2 s n g3 :
  OQS_SIG_ml_dsa_65_new callbacks fuel tries randombytes true = Some sig →
  Z.of_nat (length pk0) = length_public_key sig → Z.of_nat (length sk0) = length_secret_key sig →
  Z.of_nat (length sig0) = length_signature sig → bytes m → bytes (ctx_bytes c) → (l <= length (ctx_bytes c))%nat →
  OQS_SIG_keypair (Some sig) pk0 sk0 g = Some (OQS_SUCCESS, pk, sk, g1) →
  OQS_SIG_sign_with_ctx_str (Some sig) sig0 len0 m c l sk g2 = Some (OQS_SUCCESS, s, n, g3) →
  Z.of_nat n = length_signature sig ∧ OQS_SIG_verify_with_ctx_str (Some sig) m s n c l pk = Some OQS_SUCCESS.
Proof using SC Hrng.
  intros E Lp Ls Lg Bm Bc Hl Ek%keypair_success Es%sign_ctx_success. apply (inj Some) in E. subst sig.
  cbn [length_public_key length_secret_key length_signature keypair sign_with_ctx_str] in *.
  destruct mldsa_lengths as (E1 & E2 & E3).
  rewrite <-E1 in Lp. rewrite <-E2 in Ls. rewrite <-E3 in Lg |- *.
  apply Nat2Z.inj in Lp. apply Nat2Z.inj in Ls. apply Nat2Z.inj in Lg.
  destruct (keypair_returns callbacks fuel randombytes Hrng _ _ _ _ _ _ _ Lp Ls Ek)
    as (_ & _ & rho & key & mat & s1 & s2 & t1 & t0 & Hk).
  destruct (sign_verify_ok callbacks fuel tries randombytes Hrng _ _ _ _ _ _ _ _ _ _ _ _ _ _ _ _ _ _ Hk Lg Bm Bc Hl Es)
    as (-> & _ & Hv).
  split; [reflexivity|]. unfold OQS_SIG_verify_with_ctx_str. cbn [verify_with_ctx_str].
  unfold OQS_SIG_ml_dsa_65_verify_with_ctx_str. rewrite Hv. reflexivity.
Qed.

#[export] Instance mldsa_round_trips sig :
  OQS_SIG_ml_dsa_65_new callbacks fuel tries randombytes true = Some sig → RoundTrips sig.
Proof using SC Hrng.
  intros E pk0 sk0 g st pk sk g1 Lp Ls Ek. apply (inj Some) in E. subst sig.
  cbn [length_public_key length_secret_key length_signature] in *. destruct mldsa_lengths as (E1 & E2 & E3).
  rewrite <-E1 in Lp. rewrite <-E2 in Ls. rewrite <-E3. apply Nat2Z.inj in Lp. apply Nat2Z.inj in Ls.
  unfold OQS_SIG_keypair in Ek. cbn [keypair] in Ek. unfold OQS_SIG_ml_dsa_65_keypair in Ek.
  destruct (MlSign.crypto_sign_keypair _ _ _ _ _ _) as [[[[r pk'] sk'] g']|] eqn:Ekp; [|done].
  cbn [mbind option_bind] in Ek.
  destruct (keypair_returns callbacks fuel randombytes Hrng _ _ _ _ _ _ _ Lp Ls Ekp)
    as (-> & Lsk & rho & key & mat & s1 & s2 & t1 & t0 & Hk).
  injection Ek as <- <- <- <-. split; [reflexivity|]. rewrite Lp, Ls. split; [apply (kp_pk _ _ _ _ _ _ _ _ _ _ _ Hk)|].
  split; [exact Lsk|]. split; [apply (kp_pk _ _ _ _ _ _ _ _ _ _ _ Hk)|]. intros sig0 len0 m g2 st s n g3 Lg Bm _ Es. apply Nat2Z.inj in Lg.
  unfold OQS_SIG_sign in Es. cbn [sign] in Es. unfold OQS_SIG_ml_dsa_65_sign in Es.
  destruct (MlSign.crypto_sign_signature _ _ _ _ _ _ _ _ _ _ _) as [[[[r s'] n'] g'']|] eqn:Esg; [|done].
  cbn [mbind option_bind] in Es. injection Es as <- <- <- <-.
  pose proof (signature_ok callbacks fuel tries randombytes Hrng sig0 len0 m [] 0 _ _ _ _ _ _ _ g2
    (kp_sk _ _ _ _ _ _ _ _ _ _ _ Hk) Lg Bm (Forall_nil_2 _) (Nat.le_0_l _) (le_n 0)) as Hs.
  change (ctx_bytes None) with ([] : list Z) in Esg. rewrite Esg in Hs.
  destruct (sign_math _ _ _ _ _ _ _ _ _ _ _ _) as [[[ct z] h]|]; [|done]. destruct Hs as (-> & _ & _ & (_ & Bs & _)%encodes_unpack).
  destruct (sign_verify_ok callbacks fuel tries randombytes Hrng _ _ _ _ _ _ _ _ _ _ _ _ _ _ _ _ _ _ Hk Lg Bm
    (Forall_nil_2 _) (le_n 0) Esg) as (-> & Hl & Hv).
  split; [reflexivity|]. split; [reflexivity|]. split; [exact Hl|]. split; [exact Bs|]. unfold OQS_SIG_verify. cbn [verify].
  unfold OQS_SIG_ml_dsa_65_verify. change (ctx_bytes None) with ([] : list Z). rewrite Hv. reflexivity.
Qed.

#[export] Instance sphincs_round_trips sig :
  OQS_SIG_sphincs_sha2_192f_simple_new randombytes true = Some sig → RoundTrips sig.
Proof using Hrng.
  intros E pk0 sk0 g st pk sk g1 Lp Ls Ek.
  pose proof (sphincs_api_round_trip randombytes sig g pk0 sk0 (λ g n, proj1 (Hrng g n)) E Lp Ls) as H.
  rewrite Ek in H. cbn [wp] in H. destruct H as (-> & Lpk & Lsk & H). apply keypair_success in Ek. apply (inj Some) in E. subst sig.
  cbn [length_public_key length_secret_key length_signature keypair] in *.
  unfold OQS_SIG_sphincs_sha2_192f_simple_keypair in Ek. assert (Hb : Z.of_nat SPX_BYTES = 35664) by (rewrite SPX_BYTES_parts; reflexivity).
  pose proof (sphincs_outputs_bytes randombytes Hrng g pk0 sk0 ltac:(apply Nat2Z.inj; exact Lp) ltac:(apply Nat2Z.inj; exact Ls)) as B.
  rewrite Ek in B. destruct B as (Bp & _ & B). split_and!; [done|done|done|done|].
  intros sig0 len0 m g2 st s n g3 Lg _ Hm Es. specialize (H g2 sig0 len0 m Lg Hm). rewrite Es in H. cbn [wp] in H. destruct H as (-> & Hn & Hl & Hv).
  apply sign_success in Es. cbn [sign] in Es. unfold OQS_SIG_sphincs_sha2_192f_simple_sign in Es.
  specialize (B g2 sig0 m ltac:(apply Nat2Z.inj; rewrite Hb; exact Lg) Hm). rewrite Es in B. by split_and!.
Qed.

(** Either object of this repository's build keeps the promise. *)
Lemma api_round_trips name sig :
  OQS_SIG_new qs_build (qs_constructors callbacks fuel tries randombytes true) name = Some sig → RoundTrips sig.
Proof using SC Hrng.
  unfold OQS_SIG_new. destruct name as [name|]; [|done]. destruct (find_case _ name) as [alg|]; [|done].
  case_decide as Ha; [|done]. unfold qs_constructors. case_decide; [|case_decide; [|done]].
  - apply mldsa_round_trips.
  - apply sphincs_round_trips.
Qed.

(** C20 The signature API of this repository's build: whatever name of an enabled
    algorithm a caller gives, in any letter case, if the object that
    [OQS_SIG_new] returns generates a key pair into buffers of the lengths it
    advertises and then, from any state of the random source, returns a signature
    of a message, then both statuses are success, the signature has the advertised
    length and the object verifies it with success. *)
Theorem oqs_api_roundtrip (name : option string) (sig : OQS_SIG rng) (pk0 sk0 sig0 m : list Z) (len0 n : nat)
    (g g1 g2 g3 : rng) (st1 st2 : Z) (pk sk s : list Z) :
  OQS_SIG_new qs_build (qs_constructors callbacks fuel tries randombytes true) name = Some sig →
  Z.of_nat (length pk0) = length_public_key sig → Z.of_nat (length sk0) = length_secret_key sig →
  Z.of_nat (length sig0) = length_signature sig → bytes m → msg_fits m →
  OQS_SIG_keypair (Some sig) pk0 sk0 g = Some (st1, pk, sk, g1) →
  OQS_SIG_sign (Some sig) sig0 len0 m sk g2 = Some (st2, s, n, g3) →
  st1 = OQS_SUCCESS ∧ st2 = OQS_SUCCESS ∧
  Z.of_nat n = length_signature sig ∧ OQS_SIG_verify (Some sig) m s n pk = Some OQS_SUCCESS.
Proof using SC Hrng.
  intros E Lp Ls Lg Bm Hm Ek Es. destruct (api_round_trips name sig E _ _ _ _ _ _ _ Lp Ls Ek) as (-> & _ & _ & _ & H).
  destruct (H _ _ _ _ _ _ _ _ Lg Bm Hm Es) as (-> & Hn & _ & _ & Hv). done.
Qed.

(** Context strings of ML-DSA-65: the object signs and verifies with a context
    of up to 255 bytes, and a signature made with one verifies with it; a longer
    one is an error of both, and signing then writes nothing; without a context
    string the functions are those with an empty one. *)
Theorem oqs_mldsa_contexts (sig : OQS_SIG rng) (pk0 sk0 sig0 m : list Z) (c : option (list Z)) (len0 l : nat)
    (g g2 : rng) :
  OQS_SIG_ml_dsa_65_new callbacks fuel tries randombytes true = Some sig →
  (∀ pk sk g1 s n g3,
     Z.of_nat (length pk0) = length_public_key sig → Z.of_nat (length sk0) = length_secret_key sig →
     Z.of_nat (length sig0) = length_signature sig → bytes m → bytes (ctx_bytes c) → (l <= length (ctx_bytes c))%nat →
     OQS_SIG_keypair (Some sig) pk0 sk0 g = Some (OQS_SUCCESS, pk, sk, g1) →
     OQS_SIG_sign_with_ctx_str (Some sig) sig0 len0 m c l sk g2 = Some (OQS_SUCCESS, s, n, g3) →
     (l <= 255)%nat ∧ Z.of_nat n = length_signature sig ∧
     OQS_SIG_verify_with_ctx_str (Some sig) m s n c l pk = Some OQS_SUCCESS) ∧
  ((255 < l)%nat →
     OQS_SIG_sign_with_ctx_str (Some sig) sig0 len0 m c l sk0 g = Some (OQS_ERROR, sig0, len0, g) ∧
     OQS_SIG_verify_with_ctx_str (Some sig) m sig0 len0 c l pk0 = Some OQS_ERROR) ∧
  OQS_SIG_sign_with_ctx_str (Some sig) sig0 len0 m None 0 sk0 g = OQS_SIG_sign (Some sig) sig0 len0 m sk0 g ∧
  OQS_SIG_verify_with_ctx_str (Some sig) m sig0 len0 None 0 pk0 = OQS_SIG_verify (Some sig) m sig0 len0 pk0.
Proof using SC Hrng.
  intros E. assert (Hlong : (255 < l)%nat → ∀ sk0 pk0 g,
    OQS_SIG_sign_with_ctx_str (Some sig) sig0 len0 m c l sk0 g = Some (OQS_ERROR, sig0, len0, g) ∧
    OQS_SIG_verify_with_ctx_str (Some sig) m sig0 len0 c l pk0 = Some OQS_ERROR).
  { intros Hn sk pk g'. apply (inj Some) in E. subst sig. unfold OQS_SIG_sign_with_ctx_str, OQS_SIG_verify_with_ctx_str.
    cbn [sign_with_ctx_str verify_with_ctx_str].
    unfold OQS_SIG_ml_dsa_65_sign_with_ctx_str, OQS_SIG_ml_dsa_65_verify_with_ctx_str, MlSign.crypto_sign_signature, MlSign.crypto_sign_verify.
    rewrite (proj2 (Nat.ltb_lt _ _)) by lia. done. }
  split; [|split; [intros Hn; by apply Hlong|apply (inj Some) in E; subst sig; split; reflexivity]].
  intros pk sk g1 s n g3 Lp Ls Lg Bm Bc Hl Ek Es. split.
  - destruct (decide (255 < l)%nat) as [Hn|]; [|lia]. destruct (Hlong Hn sk pk g2) as [H _]. rewrite H in Es. done.
  - exact (mldsa_ctx_round_trip sig pk0 sk0 sig0 len0 m c l g pk sk g1 g2 s n g3 E Lp Ls Lg Bm Bc Hl Ek Es).
Qed.
End objects.

(** ** Instances *)

(** The object for a given name, and what it returns when the scheme does. *)
Section returns.
Context (callbacks : OQS_SHA3_callbacks) {U : Uninit} (fuel tries : nat).
Context {rng : Type} (randombytes : rng → nat → list Z * rng).

Lemma mldsa_object : ∃ sig : OQS_SIG rng,
  OQS_SIG_ml_dsa_65_new callbacks fuel tries randombytes true = Some sig ∧
  OQS_SIG_new qs_build (qs_constructors callbacks fuel tries randombytes true) (Some "ml-dsa-65") = Some sig.
Proof. eexists. split; [reflexivity|]. unfold OQS_SIG_new. reflexivity. Qed.

Lemma mldsa_object_returns sig pk0 sk0 sig0 len0 m c l g pk sk g1 s n g2 :
  OQS_SIG_ml_dsa_65_new callbacks fuel tries randombytes true = Some sig →
  length pk0 = CRYPTO_PUBLICKEYBYTES → length sk0 = CRYPTO_SECRETKEYBYTES → length sig0 = CRYPTO_BYTES →
  MlSign.crypto_sign_keypair callbacks fuel randombytes pk0 sk0 g = Some (0, pk, sk, g1) →
  MlSign.crypto_sign_signature callbacks fuel tries randombytes sig0 len0 m (ctx_bytes c) l sk g1 = Some (0, s, n, g2) →
  Z.of_nat (length pk0) = length_public_key sig ∧ Z.of_nat (length sk0) = length_secret_key sig ∧
  Z.of_nat (length sig0) = length_signature sig ∧
  OQS_SIG_keypair (Some sig) pk0 sk0 g = Some (OQS_SUCCESS, pk, sk, g1) ∧
  OQS_SIG_sign_with_ctx_str (Some sig) sig0 len0 m c l sk g1 = Some (OQS_SUCCESS, s, n, g2) ∧
  (c = None → l = 0%nat → OQS_SIG_sign (Some sig) sig0 len0 m sk g1 = Some (OQS_SUCCESS, s, n, g2)).
Proof.
  intros E Lp Ls Lg Ek Es. apply (inj Some) in E. subst sig. rewrite Lp, Ls, Lg.
  destruct mldsa_lengths as (E1 & E2 & E3). split; [exact E1|]. split; [exact E2|]. split; [exact E3|].
  unfold OQS_SIG_keypair, OQS_SIG_sign_with_ctx_str, OQS_SIG_sign. cbn [keypair sign sign_with_ctx_str].
  unfold OQS_SIG_ml_dsa_65_keypair, OQS_SIG_ml_dsa_65_sign_with_ctx_str, OQS_SIG_ml_dsa_65_sign.
  rewrite Ek, Es. split; [reflexivity|]. split; [reflexivity|]. intros -> ->. rewrite Es. reflexivity.
Qed.
End returns.

Lemma oqs_api_roundtrip_witness : ∃ sig pk sk s,
  OQS_SIG_new qs_build (qs_constructors toy_callbacks 1 1 zeros true) (Some "ml-dsa-65") = Some sig ∧
  OQS_SIG_keypair (Some sig) (replicate CRYPTO_PUBLICKEYBYTES 0) (replicate CRYPTO_SECRETKEYBYTES 0) tt
    = Some (OQS_SUCCESS, pk, sk, tt) ∧
  OQS_SIG_sign (Some sig) (replicate CRYPTO_BYTES 0) 0 [1; 2] sk tt = Some (OQS_SUCCESS, s, CRYPTO_BYTES, tt) ∧
  OQS_SIG_verify (Some sig) [1; 2] s CRYPTO_BYTES pk = Some OQS_SUCCESS.
Proof.
  destruct (mldsa_object toy_callbacks 1 1 zeros) as (sig & En & Eo).
  destruct (toy_signs_any [1; 2] [] 0 bytes_12 (Forall_nil_2 _) ltac:(lia) (le_n 0))
    as (pk & sk & _ & _ & _ & _ & s & Ek & _ & Es).
  destruct (mldsa_object_returns toy_callbacks 1 1 zeros sig _ _ _ 0 [1; 2] None 0 tt pk sk tt s CRYPTO_BYTES tt En
    (length_replicate _ _) (length_replicate _ _) (length_replicate _ _) Ek Es) as (H1 & H2 & H3 & H4 & _ & H6).
  specialize (H6 eq_refl eq_refl). exists sig, pk, sk, s. split; [exact Eo|]. split; [exact H4|]. split; [exact H6|].
  exact (proj2 (proj2 (proj2 (oqs_api_roundtrip toy_callbacks 1 1 zeros zeros_ok (Some "ml-dsa-65") sig _ _ _ [1; 2] 0
    CRYPTO_BYTES tt tt tt tt OQS_SUCCESS OQS_SUCCESS pk sk s Eo H1 H2 H3 bytes_12 eq_refl H4 H6)))).
Defined.

Lemma oqs_mldsa_contexts_witness : ∃ sig pk sk s,
  OQS_SIG_keypair (Some sig) (replicate CRYPTO_PUBLICKEYBYTES 0) (replicate CRYPTO_SECRETKEYBYTES 0) tt
    = Some (OQS_SUCCESS, pk, sk, tt) ∧
  OQS_SIG_sign_with_ctx_str (Some sig) (replicate CRYPTO_BYTES 0) 0 [1; 2] (Some [3]) 1 sk tt
    = Some (OQS_SUCCESS, s, CRYPTO_BYTES, tt) ∧
  OQS_SIG_verify_with_ctx_str (Some sig) [1; 2] s CRYPTO_BYTES (Some [3]) 1 pk = Some OQS_SUCCESS.
Proof.
  destruct (mldsa_object toy_callbacks 1 1 zeros) as (sig & En & _).
  destruct toy_signs as (pk & sk & _ & _ & _ & _ & s & Ek & _ & Es).
  destruct (mldsa_object_returns toy_callbacks 1 1 zeros sig _ _ _ 0 [1; 2] (Some [3]) 1 tt pk sk tt s CRYPTO_BYTES tt En
    (length_replicate _ _) (length_replicate _ _) (length_replicate _ _) Ek Es) as (H1 & H2 & H3 & H4 & H5 & _).
  exists sig, pk, sk, s. split; [exact H4|]. split; [exact H5|].
  exact (proj2 (proj2 (proj1 (oqs_mldsa_contexts toy_callbacks 1 1 zeros zeros_ok sig _ _ _ [1; 2] (Some [3]) 0 1 tt tt En)
    pk sk tt s CRYPTO_BYTES tt H1 H2 H3 bytes_12 bytes_3 (le_n 1) H4 H5))).
Defined.
