(* ===== verification/Serial.v ===== *)
(** Serialization of the node: little-endian integers and CompactSize
    (serialize.h), the reading stream [DataStream] and the writing stream
    [VectorWriter] (streams.h).

    An exception is [None]: every function here that throws changes nothing its
    callers look at afterwards.  Streams are the records of the code. *)
From S2P Require Import Prelude.

Open Scope Z_scope.

(** ** Streams *)

(** [vec.resize(n)] of a vector of bytes: new elements are zero. *)
Definition resize (v : list Z) (n : nat) : list Z := take n v ++ replicate (n - length v) 0.

Record DataStream := { vch : list Z; m_read_pos : nat }.

Definition DataStream_new (sp : list Z) : DataStream := {| vch := sp; m_read_pos := 0 |}.

Definition DataStream_empty (s : DataStream) : bool := (length (vch s) =? m_read_pos s)%nat.

(** [read] of [n] bytes.  At the end of the data the buffer is released. *)
Definition DataStream_read (s : DataStream) (n : nat) : option (list Z * DataStream) :=
  if (n =? 0)%nat then Some ([], s) else
  let next_read_pos := (m_read_pos s + n)%nat in
  if decide (2 ^ 64 <= Z.of_nat next_read_pos) then None else
  if (length (vch s) <? next_read_pos)%nat then None else
  let dst := take n (drop (m_read_pos s) (vch s)) in
  if (next_read_pos =? length (vch s))%nat then Some (dst, {| vch := []; m_read_pos := 0 |}) else
  Some (dst, {| vch := vch s; m_read_pos := next_read_pos |}).

Record VectorWriter := { vchData : list Z; nPos : nat }.

Definition VectorWriter_new (vchDataIn : list Z) (nPosIn : nat) : VectorWriter :=
  {| vchData := if (length vchDataIn <? nPosIn)%nat then resize vchDataIn nPosIn else vchDataIn; nPos := nPosIn |}.

(** [None]: the assertion fails. *)
Definition VectorWriter_write (w : VectorWriter) (src : list Z) : option VectorWriter :=
  if (length (vchData w) <? nPos w)%nat then None else
  let nOverwrite := Nat.min (length src) (length (vchData w) - nPos w) in
  let v := put (vchData w) (nPos w) (take nOverwrite src) in
  Some {| vchData := v ++ drop nOverwrite src; nPos := nPos w + length src |}.

(** ** Integers *)

Definition ser_writedata8 (w : VectorWriter) (obj : Z) := VectorWriter_write w (le_bytes 1 obj).
Definition ser_writedata16 (w : VectorWriter) (obj : Z) := VectorWriter_write w (le_bytes 2 obj).
Definition ser_writedata32 (w : VectorWriter) (obj : Z) := VectorWriter_write w (le_bytes 4 obj).
Definition ser_writedata64 (w : VectorWriter) (obj : Z) := VectorWriter_write w (le_bytes 8 obj).

Definition ser_readdata8 (s : DataStream) : option (Z * DataStream) :=
  '(b, s) ← DataStream_read s 1; Some (le_val b, s).
Definition ser_readdata16 (s : DataStream) : option (Z * DataStream) :=
  '(b, s) ← DataStream_read s 2; Some (le_val b, s).
Definition ser_readdata32 (s : DataStream) : option (Z * DataStream) :=
  '(b, s) ← DataStream_read s 4; Some (le_val b, s).
Definition ser_readdata64 (s : DataStream) : option (Z * DataStream) :=
  '(b, s) ← DataStream_read s 8; Some (le_val b, s).

(** ** CompactSize *)

Definition MAX_SIZE : Z := 0x02000000.

Definition GetSizeOfCompactSize (nSize : Z) : Z :=
  if nSize <? 253 then 1
  else if nSize <=? 65535 then 1 + 2
  else if nSize <=? 4294967295 then 1 + 4
  else 1 + 8.

Definition WriteCompactSize (os : VectorWriter) (nSize : Z) : option VectorWriter :=
  if nSize <? 253 then ser_writedata8 os nSize
  else if nSize <=? 65535 then os ← ser_writedata8 os 253; ser_writedata16 os nSize
  else if nSize <=? 4294967295 then os ← ser_writedata8 os 254; ser_writedata32 os nSize
  else os ← ser_writedata8 os 255; ser_writedata64 os nSize.

Definition ReadCompactSize (is_ : DataStream) (range_check : bool) : option (Z * DataStream) :=
  '(chSize, is_) ← ser_readdata8 is_;
  '(nSizeRet, is_) ←
    (if chSize <? 253 then Some (chSize, is_)
     else if chSize =? 253 then
       '(n, is_) ← ser_readdata16 is_; if n <? 253 then None else Some (n, is_)
     else if chSize =? 254 then
       '(n, is_) ← ser_readdata32 is_; if n <? 0x10000 then None else Some (n, is_)
     else
       '(n, is_) ← ser_readdata64 is_; if n <? 0x100000000 then None else Some (n, is_));
  if range_check && (MAX_SIZE <? nSizeRet) then None else Some (nSizeRet, is_).

(** ** What is_ left to read *)

Definition rest (s : DataStream) : list Z := drop (m_read_pos s) (vch s).

(** The read position is inside the buffer, which fits in memory. *)
Definition ds_ok (s : DataStream) : Prop :=
  (m_read_pos s <= length (vch s))%nat ∧ Z.of_nat (length (vch s)) < 2 ^ 64.

Lemma length_rest s : length (rest s) = (length (vch s) - m_read_pos s)%nat.
Proof. apply length_drop. Qed.

Lemma ds_empty s : ds_ok s → DataStream_empty s = bool_decide (rest s = []).
Proof.
  intros [H _]. unfold DataStream_empty. apply eq_bool_prop_intro.
  rewrite bool_decide_spec, Is_true_true, Nat.eqb_eq, <-length_zero_iff_nil, length_rest. lia.
Qed.

Lemma new_ok l : Z.of_nat (length l) < 2 ^ 64 → ds_ok (DataStream_new l) ∧ rest (DataStream_new l) = l.
Proof. intros. split; [|apply drop_0]. split; [simpl; lia|done]. Qed.

(** Reading [n] bytes takes the first [n] of what is left, and fails exactly if
    there are fewer. *)
Lemma read_spec s n :
  ds_ok s →
  match DataStream_read s n with
  | Some (d, s') => ds_ok s' ∧ length d = n ∧ rest s = d ++ rest s'
  | None => (length (rest s) < n)%nat
  end.
Proof.
  intros [Hp Hl]. rewrite length_rest. unfold DataStream_read, rest.
  destruct (Nat.eqb_spec n 0) as [->|Hn]; [by rewrite length_nil|].
  destruct (decide (2 ^ 64 <= Z.of_nat (m_read_pos s + n))); [lia|].
  destruct (Nat.ltb_spec (length (vch s)) (m_read_pos s + n)); [lia|].
  destruct (Nat.eqb_spec (m_read_pos s + n) (length (vch s))) as [E|E].
  - split; [split; simpl; lia|]. rewrite length_take, length_drop. split; [lia|].
    rewrite take_ge by (rewrite length_drop; lia). cbn [vch m_read_pos]. by rewrite drop_nil, app_nil_r.
  - split; [split; simpl; lia|]. rewrite length_take, length_drop. split; [lia|].
    cbn [vch m_read_pos]. rewrite <-drop_drop. by rewrite take_drop.
Qed.

(** Reading what is known to come next. *)
Lemma read_next s d l : ds_ok s → rest s = d ++ l →
  ∃ s', DataStream_read s (length d) = Some (d, s') ∧ ds_ok s' ∧ rest s' = l.
Proof.
  intros Hok E. pose proof (read_spec s (length d) Hok) as H.
  destruct (DataStream_read s (length d)) as [[d' s']|].
  - destruct H as (Hok' & Hl & E'). rewrite E in E'. apply app_inj_1 in E' as [-> ->]; [|done]. eauto.
  - rewrite E, length_app in H. lia.
Qed.

(** ** Writing *)

(** A writer at the end of its vector appends. *)
Definition at_end (w : VectorWriter) : Prop := nPos w = length (vchData w).

Lemma write_at_end w d : at_end w →
  ∃ w', VectorWriter_write w d = Some w' ∧ at_end w' ∧ vchData w' = vchData w ++ d.
Proof.
  intros E. unfold VectorWriter_write, at_end in *. rewrite E, Nat.ltb_irrefl. eexists. split; [reflexivity|].
  cbn [vchData nPos]. rewrite Nat.sub_diag, Nat.min_0_r. cbn [take drop]. unfold put.
  rewrite firstn_all, app_nil_l, drop_ge, app_nil_r by (simpl; lia). rewrite length_app. done.
Qed.

(** The bytes of a CompactSize. *)
Definition compact_size (n : Z) : list Z :=
  if n <? 253 then [n]
  else if n <=? 65535 then 253 :: le_bytes 2 n
  else if n <=? 4294967295 then 254 :: le_bytes 4 n
  else 255 :: le_bytes 8 n.

Lemma length_compact_size n : Z.of_nat (length (compact_size n)) = GetSizeOfCompactSize n.
Proof.
  unfold compact_size, GetSizeOfCompactSize.
  destruct (n <? 253); [done|]. destruct (n <=? 65535); [done|]. by destruct (n <=? 4294967295).
Qed.

Lemma compact_size_bytes n : 0 <= n → bytes (compact_size n).
Proof.
  intros Hn. assert (B : ∀ b l, 0 <= b < 256 → bytes l → bytes (b :: l)) by (intros b l Hb Hl; by constructor).
  unfold compact_size. destruct (Z.ltb_spec n 253); [apply B; [lia|constructor]|].
  destruct (n <=? 65535); [apply B; [lia|apply le_bytes_bytes]|].
  destruct (n <=? 4294967295); (apply B; [lia|apply le_bytes_bytes]).
Qed.

Lemma write_compact_size w n : at_end w → 0 <= n →
  ∃ w', WriteCompactSize w n = Some w' ∧ at_end w' ∧ vchData w' = vchData w ++ compact_size n.
Proof.
  intros Hw Hn.
  assert (W2 : ∀ a b, ∃ w', (w1 ← VectorWriter_write w [a]; VectorWriter_write w1 b) = Some w' ∧ at_end w' ∧
    vchData w' = vchData w ++ a :: b).
  { intros a b. destruct (write_at_end w [a] Hw) as (w1 & E1 & H1 & D1).
    destruct (write_at_end w1 b H1) as (w2 & E2 & H2 & D2). exists w2. rewrite E1. cbn [mbind option_bind].
    split; [done|]. split; [done|]. by rewrite D2, D1, <-app_assoc. }
  unfold WriteCompactSize, compact_size, ser_writedata8, ser_writedata16, ser_writedata32, ser_writedata64.
  destruct (Z.ltb_spec n 253).
  { cbn [le_bytes]. rewrite u8_small by (unfold in_u8; lia). by apply write_at_end. }
  destruct (n <=? 65535); [exact (W2 253 _)|]. destruct (n <=? 4294967295); [exact (W2 254 _)|exact (W2 255 _)].
Qed.

(** ** Reading a CompactSize *)

(** One byte, and [k] bytes, of what is left. *)
Lemma readdata_next (s : DataStream) (b : list Z) l : ds_ok s → rest s = b ++ l →
  ∃ s', ds_ok s' ∧ rest s' = l ∧
    ('(b', s') ← DataStream_read s (length b); Some (le_val b', s')) = Some (le_val b, s').
Proof.
  intros Hok E. destruct (read_next s b l Hok E) as (s' & Er & Hok' & El). exists s'. rewrite Er. done.
Qed.

Lemma readdata8_next s c l : ds_ok s → rest s = c :: l →
  ∃ s', ds_ok s' ∧ rest s' = l ∧ ser_readdata8 s = Some (c, s').
Proof.
  intros Hok E. destruct (readdata_next s [c] l Hok E) as (s' & H1 & H2 & H3). exists s'. split; [done|]. split; [done|].
  unfold ser_readdata8. change (length [c]) with 1%nat in H3. rewrite H3. cbn [le_val]. do 2 f_equal. lia.
Qed.

(** Reading back what was written; the range check rejects larger values. *)
Lemma read_written s n l chk : ds_ok s → in_u64 n → rest s = compact_size n ++ l →
  ∃ s', ds_ok s' ∧ rest s' = l ∧ ReadCompactSize s chk = (if chk && (MAX_SIZE <? n) then None else Some (n, s')).
Proof.
  intros Hok Hn E. unfold in_u64 in Hn. unfold compact_size in E. unfold ReadCompactSize.
  destruct (Z.ltb_spec n 253) as [H1|H1].
  { destruct (readdata8_next s n l Hok E) as (s1 & Hok1 & El & ->). cbn [mbind option_bind].
    rewrite (proj2 (Z.ltb_lt n 253)) by lia. exists s1. done. }
  assert (K : ∀ k (c : Z), rest s = c :: le_bytes k n ++ l → n < 2 ^ (8 * Z.of_nat k) →
    ∃ s1 s2, ds_ok s2 ∧ rest s2 = l ∧ ser_readdata8 s = Some (c, s1) ∧
      ('(b', s') ← DataStream_read s1 k; Some (le_val b', s')) = Some (n, s2)).
  { intros k c Er Hb. destruct (readdata8_next s c (le_bytes k n ++ l) Hok Er) as (s1 & Hok1 & El & E8).
    destruct (readdata_next s1 (le_bytes k n) l Hok1 El) as (s2 & Hok2 & El2 & Ek). exists s1, s2.
    rewrite length_le_bytes in Ek. rewrite Ek, le_val_le_bytes, Z.mod_small by lia. done. }
  destruct (Z.leb_spec n 65535) as [H2|H2];
    [|destruct (Z.leb_spec n 4294967295) as [H3|H3]].
  - destruct (K 2%nat 253 E) as (s1 & s2 & ? & ? & -> & Ek); [simpl; lia|]. cbn [mbind option_bind].
    change (253 <? 253) with false. change (253 =? 253) with true. cbn iota. unfold ser_readdata16. rewrite Ek.
    cbn [mbind option_bind]. rewrite (proj2 (Z.ltb_ge n 253)) by lia. exists s2. done.
  - destruct (K 4%nat 254 E) as (s1 & s2 & ? & ? & -> & Ek); [simpl; lia|]. cbn [mbind option_bind].
    change (254 <? 253) with false. change (254 =? 253) with false. change (254 =? 254) with true. cbn iota.
    unfold ser_readdata32. rewrite Ek.
    cbn [mbind option_bind]. rewrite (proj2 (Z.ltb_ge n 0x10000)) by lia. exists s2. done.
  - destruct (K 8%nat 255 E) as (s1 & s2 & ? & ? & -> & Ek); [simpl; lia|]. cbn [mbind option_bind].
    change (255 <? 253) with false. change (255 =? 253) with false. change (255 =? 254) with false. cbn iota.
    unfold ser_readdata64. rewrite Ek.
    cbn [mbind option_bind]. rewrite (proj2 (Z.ltb_ge n 0x100000000)) by lia. exists s2. done.
Qed.

(** Conversely, what is read is the encoding of the value: there is no other. *)
Lemma readdata_inv s k n s' : ds_ok s → bytes (rest s) →
  ('(b', s') ← DataStream_read s k; Some (le_val b', s')) = Some (n, s') →
  ds_ok s' ∧ bytes (rest s') ∧ rest s = le_bytes k n ++ rest s' ∧ 0 <= n < 2 ^ (8 * Z.of_nat k).
Proof.
  intros Hok Hb E. pose proof (read_spec s k Hok) as H.
  destruct (DataStream_read s k) as [[d s1]|]; [|done]. cbn [mbind option_bind] in E. injection E as <- <-.
  destruct H as (Hok' & Hl & Er). rewrite Er, Forall_app in Hb. destruct Hb as [Hd Hr].
  split; [done|]. split; [done|]. rewrite <-Hl. split; [by rewrite le_bytes_le_val|by apply le_val_range].
Qed.

Lemma readdata8_inv s n s' : ds_ok s → bytes (rest s) → ser_readdata8 s = Some (n, s') →
  ds_ok s' ∧ bytes (rest s') ∧ rest s = n :: rest s' ∧ 0 <= n < 256.
Proof.
  intros Hok Hb E. destruct (readdata_inv s 1 n s' Hok Hb E) as (H1 & H2 & H3 & H4). cbn [le_bytes] in H3.
  change (2 ^ (8 * Z.of_nat 1)) with 256 in H4. rewrite u8_small in H3 by exact H4. done.
Qed.

Lemma read_compact_inv s n s' chk : ds_ok s → bytes (rest s) → ReadCompactSize s chk = Some (n, s') →
  ds_ok s' ∧ bytes (rest s') ∧ in_u64 n ∧ rest s = compact_size n ++ rest s' ∧ (chk = true → n <= MAX_SIZE).
Proof.
  intros Hok Hb. unfold ReadCompactSize. destruct (ser_readdata8 s) as [[c s1]|] eqn:E8; [|done].
  destruct (readdata8_inv s c s1 Hok Hb E8) as (Hok1 & Hb1 & Er1 & Hc). cbn [mbind option_bind].
  assert (R : ∀ n1 s2, (if chk && (MAX_SIZE <? n1) then None else Some (n1, s2)) = Some (n, s') →
    n1 = n ∧ s2 = s' ∧ (chk = true → n <= MAX_SIZE)).
  { intros n1 s2 H. destruct chk; cbn [andb] in H; [destruct (Z.ltb_spec MAX_SIZE n1); [done|]|];
      injection H as -> ->; done. }
  destruct (Z.ltb_spec c 253) as [H1|H1].
  { intros (-> & -> & Hx)%R. split; [done|]. split; [done|]. split; [unfold in_u64; lia|]. split; [|done].
    unfold compact_size. rewrite (proj2 (Z.ltb_lt n 253)) by lia. exact Er1. }
  assert (K : ∀ k lo, (x ← ('(b', s') ← DataStream_read s1 k; Some (le_val b', s')); let '(n0, s2) := x in
      if n0 <? lo then None else Some (n0, s2)) ≫= (λ y, let '(n1, s2) := y in
        if chk && (MAX_SIZE <? n1) then None else Some (n1, s2)) = Some (n, s') →
    ds_ok s' ∧ bytes (rest s') ∧ lo <= n < 2 ^ (8 * Z.of_nat k) ∧ rest s1 = le_bytes k n ++ rest s' ∧
    (chk = true → n <= MAX_SIZE)).
  { intros k lo. destruct ('(b', s') ← DataStream_read s1 k; Some (le_val b', s')) as [[n1 s2]|] eqn:Ek; [|done].
    cbn [mbind option_bind]. destruct (Z.ltb_spec n1 lo) as [|Hlo]; [done|]. intros (-> & -> & Hx)%R.
    destruct (readdata_inv s1 k n s' Hok1 Hb1 Ek) as (Hok2 & Hb2 & Er2 & Hn). auto with lia. }
  destruct (Z.eqb_spec c 253) as [->|H2]; [|destruct (Z.eqb_spec c 254) as [->|H3]].
  - intros H. destruct (K 2%nat 253 H) as (H3 & H4 & H5 & H6 & H7). change (2 ^ (8 * Z.of_nat 2)) with 65536 in H5.
    split; [done|]. split; [done|]. split; [unfold in_u64; lia|]. split; [|done]. unfold compact_size.
    rewrite (proj2 (Z.ltb_ge n 253)), (proj2 (Z.leb_le n 65535)), Er1, H6 by lia. done.
  - intros H. destruct (K 4%nat 0x10000 H) as (H3 & H4 & H5 & H6 & H7). change (2 ^ (8 * Z.of_nat 4)) with 4294967296 in H5.
    split; [done|]. split; [done|]. split; [unfold in_u64; lia|]. split; [|done]. unfold compact_size.
    rewrite (proj2 (Z.ltb_ge n 253)), (proj2 (Z.leb_gt n 65535)), (proj2 (Z.leb_le n 4294967295)), Er1, H6 by lia. done.
  - assert (c = 255) as -> by lia. intros H. destruct (K 8%nat 0x100000000 H) as (H4 & H5 & H6 & H7 & H8).
    change (2 ^ (8 * Z.of_nat 8)) with (2 ^ 64) in H6.
    split; [done|]. split; [done|]. split; [unfold in_u64; lia|]. split; [|done]. unfold compact_size.
    rewrite (proj2 (Z.ltb_ge n 253)), (proj2 (Z.leb_gt n 65535)), (proj2 (Z.leb_gt n 4294967295)), Er1, H7 by lia. done.
Qed.

(** A stream whose rest does not start with an encoding is refused. *)
Lemma read_compact_iff s chk n s' : ds_ok s → bytes (rest s) →
  ReadCompactSize s chk = Some (n, s') →
  ∀ m l, in_u64 m → rest s = compact_size m ++ l → m = n ∧ l = rest s'.
Proof.
  intros Hok Hb E m l Hm Er. destruct (read_written s m l chk Hok Hm Er) as (s2 & _ & El & E2).
  rewrite E in E2. destruct (chk && (MAX_SIZE <? m)); [done|]. by injection E2 as -> ->.
Qed.
