(* ===== verification/QSig.v ===== *)
(** The signature container of the script layer, [QuantumSignature]
    (script/quantum_signature.h and .cpp):
    [scheme_id:1][CompactSize][signature][CompactSize][pubkey].

    A scheme identifier is a byte: an enumeration with a fixed underlying type
    holds every value of that type, so unknown identifiers are values too.
    [Deserialize] changes the object it is called on even if it fails; the model
    returns the object with the result. *)
From S2P Require Import Prelude Serial.

Open Scope Z_scope.

(** ** Constants *)

Definition SCHEME_ECDSA : Z := 0x01.
Definition SCHEME_ML_DSA_65 : Z := 0x02.
Definition SCHEME_SLH_DSA_192F : Z := 0x03.
Definition SCHEME_ML_DSA_87 : Z := 0x04.
Definition SCHEME_FALCON_512 : Z := 0x05.
Definition SCHEME_FALCON_1024 : Z := 0x06.

Definition ML_DSA_65_PRIVKEY_SIZE : Z := 4032.
Definition ML_DSA_65_PUBKEY_SIZE : Z := 1952.
Definition ML_DSA_65_SIG_SIZE : Z := 3309.
Definition SLH_DSA_192F_PRIVKEY_SIZE : Z := 96.
Definition SLH_DSA_192F_PUBKEY_SIZE : Z := 48.
Definition SLH_DSA_192F_SIG_SIZE : Z := 35664.

Definition MAX_ECDSA_SIG_SIZE : Z := 73.
Definition MAX_ML_DSA_65_SIG_SIZE : Z := 3366.
Definition MAX_SLH_DSA_192F_SIG_SIZE : Z := SLH_DSA_192F_SIG_SIZE.
Definition MAX_QUANTUM_SIG_SIZE : Z := 65535.
Definition MAX_ECDSA_PUBKEY_SIZE : Z := 65.
Definition MAX_ML_DSA_65_PUBKEY_SIZE : Z := ML_DSA_65_PUBKEY_SIZE.
Definition MAX_SLH_DSA_192F_PUBKEY_SIZE : Z := SLH_DSA_192F_PUBKEY_SIZE.
Definition MAX_QUANTUM_PUBKEY_SIZE_DYNAMIC : Z := 65535.

Definition WITNESS_SCALE_FACTOR : Z := 4.

(** [v.size()] of a vector of bytes. *)
Definition size (v : list Z) : Z := Z.of_nat (length v).

(** ** The object *)

Record QuantumSignature := { scheme_id : Z; signature : list Z; pubkey : list Z }.

Definition QuantumSignature_default : QuantumSignature :=
  {| scheme_id := SCHEME_ECDSA; signature := []; pubkey := [] |}.

(** [vch] is cleared first, so its contents do not matter. *)
Definition Serialize (q : QuantumSignature) (vch : list Z) : option (list Z) :=
  let writer := VectorWriter_new [] 0 in
  writer ← ser_writedata8 writer (scheme_id q);
  writer ← WriteCompactSize writer (size (signature q));
  writer ← VectorWriter_write writer (signature q);
  writer ← WriteCompactSize writer (size (pubkey q));
  writer ← VectorWriter_write writer (pubkey q);
  Some (vchData writer).

Definition GetMaxSignatureSize (id : Z) : Z :=
  if id =? SCHEME_ECDSA then MAX_ECDSA_SIG_SIZE
  else if id =? SCHEME_ML_DSA_65 then MAX_ML_DSA_65_SIG_SIZE
  else if id =? SCHEME_SLH_DSA_192F then MAX_SLH_DSA_192F_SIG_SIZE
  else MAX_QUANTUM_SIG_SIZE.

Definition GetMaxPubKeySize (id : Z) : Z :=
  if id =? SCHEME_ECDSA then MAX_ECDSA_PUBKEY_SIZE
  else if id =? SCHEME_ML_DSA_65 then MAX_ML_DSA_65_PUBKEY_SIZE
  else if id =? SCHEME_SLH_DSA_192F then MAX_SLH_DSA_192F_PUBKEY_SIZE
  else MAX_QUANTUM_PUBKEY_SIZE_DYNAMIC.

Definition IsValidSize (q : QuantumSignature) : bool :=
  if scheme_id q =? SCHEME_ML_DSA_65 then
    (size (signature q) <=? MAX_ML_DSA_65_SIG_SIZE) && (0 <? size (signature q)) &&
    (size (pubkey q) =? ML_DSA_65_PUBKEY_SIZE)
  else if scheme_id q =? SCHEME_SLH_DSA_192F then
    (size (signature q) =? SLH_DSA_192F_SIG_SIZE) && (size (pubkey q) =? SLH_DSA_192F_PUBKEY_SIZE)
  else if scheme_id q =? SCHEME_ECDSA then
    (size (signature q) <=? MAX_ECDSA_SIG_SIZE) && (0 <? size (signature q)) &&
    (size (pubkey q) <=? MAX_ECDSA_PUBKEY_SIZE) && (0 <? size (pubkey q))
  else
    let max_sig := GetMaxSignatureSize (scheme_id q) in
    let max_pk := GetMaxPubKeySize (scheme_id q) in
    (size (signature q) <=? max_sig) && (size (pubkey q) <=? max_pk) &&
    (0 <? size (signature q)) && (0 <? size (pubkey q)).

Definition set_scheme_id (q : QuantumSignature) (x : Z) :=
  {| scheme_id := x; signature := signature q; pubkey := pubkey q |}.
Definition set_signature (q : QuantumSignature) (x : list Z) :=
  {| scheme_id := scheme_id q; signature := x; pubkey := pubkey q |}.
Definition set_pubkey (q : QuantumSignature) (x : list Z) :=
  {| scheme_id := scheme_id q; signature := signature q; pubkey := x |}.

(** Each [None] of a reading function is an exception, which [Deserialize]
    catches: it returns [false] with the fields set so far. *)
Definition Deserialize (q : QuantumSignature) (v : list Z) : bool * QuantumSignature :=
  match ser_readdata8 (DataStream_new v) with
  | None => (false, q)
  | Some (id, stream) =>
  if 0xFF <? id then (false, q) else
  let q := set_scheme_id q id in
  match ReadCompactSize stream true with
  | None => (false, q)
  | Some (sig_len, stream) =>
  if MAX_QUANTUM_SIG_SIZE <? sig_len then (false, q) else
  let q := set_signature q (resize (signature q) (Z.to_nat sig_len)) in
  match DataStream_read stream (length (signature q)) with
  | None => (false, q)
  | Some (data, stream) =>
  let q := set_signature q data in
  match ReadCompactSize stream true with
  | None => (false, q)
  | Some (pubkey_len, stream) =>
  if MAX_QUANTUM_PUBKEY_SIZE_DYNAMIC <? pubkey_len then (false, q) else
  let q := set_pubkey q (resize (pubkey q) (Z.to_nat pubkey_len)) in
  match DataStream_read stream (length (pubkey q)) with
  | None => (false, q)
  | Some (data, stream) =>
  let q := set_pubkey q data in
  if negb (DataStream_empty stream) then (false, q) else (IsValidSize q, q)
  end end end end end.

Definition GetSerializedSize (q : QuantumSignature) : Z :=
  let sz := 1 in
  let sz := u64 (sz + (GetSizeOfCompactSize (size (signature q)) + size (signature q))) in
  u64 (sz + (GetSizeOfCompactSize (size (pubkey q)) + size (pubkey q))).

Definition ParseQuantumSignature (data : list Z) (sig_out : QuantumSignature) : bool * QuantumSignature :=
  if (length data =? 0)%nat then (false, sig_out) else Deserialize sig_out data.

Definition EncodeQuantumSignature (sig : QuantumSignature) : option (list Z) := Serialize sig [].

(** [int64_t] from [size_t]. *)
Definition to_i64 (x : Z) : Z := if u64 x <? 2 ^ 63 then u64 x else u64 x - 2 ^ 64.

Definition GetQuantumSignatureWeight (sig : QuantumSignature) : Z :=
  let serialized_size := GetSerializedSize sig in
  if scheme_id sig =? SCHEME_ECDSA then to_i64 (serialized_size * WITNESS_SCALE_FACTOR)
  else if scheme_id sig =? SCHEME_ML_DSA_65 then to_i64 (serialized_size * 3)
  else if scheme_id sig =? SCHEME_SLH_DSA_192F then to_i64 (serialized_size * 2)
  else to_i64 (serialized_size * WITNESS_SCALE_FACTOR).

(** ** Lemmas *)

(** The bytes of an object. *)
Definition encoding (q : QuantumSignature) : list Z :=
  u8 (scheme_id q) :: compact_size (size (signature q)) ++ signature q ++ compact_size (size (pubkey q)) ++ pubkey q.

Lemma serialize_eq q v : Serialize q v = Some (encoding q).
Proof.
  unfold Serialize, encoding, ser_writedata8. assert (H0 : at_end (VectorWriter_new [] 0)) by reflexivity.
  destruct (write_at_end _ (le_bytes 1 (scheme_id q)) H0) as (w1 & -> & H1 & D1). cbn [mbind option_bind].
  destruct (write_compact_size w1 (size (signature q)) H1 (Nat2Z.is_nonneg _)) as (w2 & -> & H2 & D2). cbn [mbind option_bind].
  destruct (write_at_end w2 (signature q) H2) as (w3 & -> & H3 & D3). cbn [mbind option_bind].
  destruct (write_compact_size w3 (size (pubkey q)) H3 (Nat2Z.is_nonneg _)) as (w4 & -> & H4 & D4). cbn [mbind option_bind].
  destruct (write_at_end w4 (pubkey q) H4) as (w5 & -> & H5 & D5). cbn [mbind option_bind].
  rewrite D5, D4, D3, D2, D1. cbn [vchData VectorWriter_new le_bytes]. by rewrite <-!app_assoc.
Qed.

(** A valid object has fields below the limits of the container. *)
Lemma valid_sizes q : IsValidSize q = true →
  size (signature q) <= MAX_QUANTUM_SIG_SIZE ∧ size (pubkey q) <= MAX_QUANTUM_PUBKEY_SIZE_DYNAMIC.
Proof.
  unfold IsValidSize, GetMaxSignatureSize, GetMaxPubKeySize, MAX_ML_DSA_65_SIG_SIZE, ML_DSA_65_PUBKEY_SIZE,
    SLH_DSA_192F_SIG_SIZE, SLH_DSA_192F_PUBKEY_SIZE, MAX_ECDSA_SIG_SIZE, MAX_ECDSA_PUBKEY_SIZE,
    MAX_QUANTUM_SIG_SIZE, MAX_QUANTUM_PUBKEY_SIZE_DYNAMIC.
  destruct (scheme_id q =? SCHEME_ML_DSA_65); [rewrite !andb_true_iff; lia|].
  destruct (scheme_id q =? SCHEME_SLH_DSA_192F); [rewrite !andb_true_iff; lia|].
  destruct (scheme_id q =? SCHEME_ECDSA); rewrite !andb_true_iff; lia.
Qed.

Lemma length_encoding q :
  size (encoding q) =
  1 + (GetSizeOfCompactSize (size (signature q)) + size (signature q)) + (GetSizeOfCompactSize (size (pubkey q)) + size (pubkey q)).
Proof.
  unfold encoding, size. cbn [length]. rewrite !length_app, Nat2Z.inj_succ, !Nat2Z.inj_add, !length_compact_size. lia.
Qed.

Lemma compact_size_of_le n : GetSizeOfCompactSize n <= 9.
Proof. unfold GetSizeOfCompactSize. repeat case_match; lia. Qed.

Lemma valid_encoding_length q : IsValidSize q = true → size (encoding q) < 2 ^ 20.
Proof.
  intros [H1 H2]%valid_sizes. rewrite length_encoding. unfold MAX_QUANTUM_SIG_SIZE, MAX_QUANTUM_PUBKEY_SIZE_DYNAMIC in *.
  pose proof (compact_size_of_le (size (signature q))). pose proof (compact_size_of_le (size (pubkey q))).
  change (2 ^ 20) with 1048576. lia.
Qed.

Lemma length_resize v n : length (resize v n) = n.
Proof. unfold resize. rewrite length_app, length_take, length_replicate. lia. Qed.

Lemma in_u64_size v : size v <= 65535 → in_u64 (size v).
Proof. unfold size, in_u64. lia. Qed.

Lemma deserialize_encoding q0 q : in_u8 (scheme_id q) → IsValidSize q = true → Deserialize q0 (encoding q) = (true, q).
Proof.
  intros Hid Hv. destruct (valid_sizes q Hv) as [Hs Hp]. pose proof (valid_encoding_length q Hv) as Hl.
  destruct (new_ok (encoding q)) as [Hok Hr]; [unfold size in Hl; change (2 ^ 20) with 1048576 in Hl; lia|].
  unfold encoding in Hr at 2. unfold MAX_QUANTUM_SIG_SIZE, MAX_QUANTUM_PUBKEY_SIZE_DYNAMIC in *.
  assert (Hm : ∀ v, size v <= 65535 → (true && (MAX_SIZE <? size v)) = false).
  { intros v H. apply Z.ltb_ge. unfold MAX_SIZE. lia. }
  assert (Hn : ∀ v : list Z, Z.to_nat (size v) = length v) by (intros; apply Nat2Z.id).
  unfold Deserialize. destruct (readdata8_next _ _ _ Hok Hr) as (s1 & Hok1 & Hr1 & ->).
  rewrite u8_small by done. rewrite (proj2 (Z.ltb_ge 0xFF (scheme_id q))) by (unfold in_u8 in Hid; lia).
  destruct (read_written s1 _ _ true Hok1 (in_u64_size _ Hs) Hr1) as (s2 & Hok2 & Hr2 & ->). rewrite Hm by done.
  unfold MAX_QUANTUM_SIG_SIZE. rewrite (proj2 (Z.ltb_ge 65535 (size (signature q)))) by lia.
  cbn [set_scheme_id set_signature set_pubkey scheme_id signature pubkey]. rewrite length_resize, Hn.
  destruct (read_next s2 (signature q) _ Hok2 Hr2) as (s3 & -> & Hok3 & Hr3).
  destruct (read_written s3 _ _ true Hok3 (in_u64_size _ Hp) Hr3) as (s4 & Hok4 & Hr4 & ->). rewrite Hm by done.
  unfold MAX_QUANTUM_PUBKEY_SIZE_DYNAMIC. rewrite (proj2 (Z.ltb_ge 65535 (size (pubkey q)))) by lia.
  cbn [set_scheme_id set_signature set_pubkey scheme_id signature pubkey]. rewrite length_resize, Hn.
  rewrite <-(app_nil_r (pubkey q)) in Hr4.
  destruct (read_next s4 (pubkey q) _ Hok4 Hr4) as (s5 & -> & Hok5 & Hr5).
  rewrite ds_empty by done. rewrite Hr5. rewrite bool_decide_true by done. cbn [negb set_scheme_id set_signature set_pubkey scheme_id signature pubkey].
  unfold set_scheme_id, set_signature, set_pubkey. destruct q as [i s p]. cbn [scheme_id signature pubkey] in *. by rewrite Hv.
Qed.

Lemma deserialize_inv q0 q v : bytes v → size v < 2 ^ 64 → Deserialize q0 v = (true, q) →
  v = encoding q ∧ in_u8 (scheme_id q) ∧ IsValidSize q = true.
Proof.
  intros Hb Hl. destruct (new_ok v Hl) as [Hok Hr]. unfold Deserialize.
  destruct (ser_readdata8 (DataStream_new v)) as [[id s1]|] eqn:E1; [|done].
  destruct (readdata8_inv _ _ _ Hok ltac:(by rewrite Hr) E1) as (Hok1 & Hb1 & Hr1 & Hid). rewrite Hr in Hr1.
  destruct (0xFF <? id); [done|].
  destruct (ReadCompactSize s1 true) as [[sl s2]|] eqn:E2; [|done].
  destruct (read_compact_inv _ _ _ _ Hok1 Hb1 E2) as (Hok2 & Hb2 & Hsl & Hr2 & _).
  destruct (MAX_QUANTUM_SIG_SIZE <? sl); [done|].
  cbn [set_scheme_id set_signature set_pubkey scheme_id signature pubkey]. rewrite length_resize.
  pose proof (read_spec s2 (Z.to_nat sl) Hok2) as H3. destruct (DataStream_read s2 _) as [[d s3]|]; [|done].
  destruct H3 as (Hok3 & Hd & Hr3). rewrite Hr3, Forall_app in Hb2. destruct Hb2 as [_ Hb3].
  destruct (ReadCompactSize s3 true) as [[pl s4]|] eqn:E4; [|done].
  destruct (read_compact_inv _ _ _ _ Hok3 Hb3 E4) as (Hok4 & Hb4 & Hpl & Hr4 & _).
  destruct (MAX_QUANTUM_PUBKEY_SIZE_DYNAMIC <? pl); [done|].
  cbn [set_scheme_id set_signature set_pubkey scheme_id signature pubkey]. rewrite length_resize.
  pose proof (read_spec s4 (Z.to_nat pl) Hok4) as H5. destruct (DataStream_read s4 _) as [[p s5]|]; [|done].
  destruct H5 as (Hok5 & Hp & Hr5). rewrite ds_empty by done.
  case_bool_decide as He; [|done]. unfold set_scheme_id, set_signature, set_pubkey. cbn [negb scheme_id signature pubkey].
  intros [= Hv <-]. cbn [scheme_id]. split; [|by split]. unfold encoding. cbn [scheme_id signature pubkey].
  unfold in_u64 in *. assert (size d = sl) as -> by (unfold size; lia). assert (size p = pl) as -> by (unfold size; lia).
  rewrite u8_small by exact Hid. by rewrite Hr1, Hr2, Hr3, Hr4, Hr5, He, app_nil_r.
Qed.

(** ** Theorems *)

(** The container format is canonical: on every byte string, [Deserialize]
    succeeds with an object exactly if the string is the serialization of that
    object and its sizes are valid, whatever the object held before.  So parsing
    inverts serialization, and a signature has a single encoding. *)
Theorem quantum_signature_canonical (q0 q : QuantumSignature) (v v0 : list Z) :
  bytes v → size v < 2 ^ 64 →
  Deserialize q0 v = (true, q) ↔ Serialize q v0 = Some v ∧ in_u8 (scheme_id q) ∧ IsValidSize q = true.
Proof.
  intros Hb Hl. rewrite serialize_eq. split.
  - intros H. destruct (deserialize_inv q0 q v Hb Hl H) as (-> & Hid & Hv). done.
  - intros ([= <-] & Hid & Hv). by apply deserialize_encoding.
Qed.

(** Sizes: the serialization of a valid object has exactly the length that
    [GetSerializedSize] computes, which does not wrap, and the weight is that
    length times the factor of the scheme. *)
Theorem quantum_signature_size (q : QuantumSignature) (v : list Z) :
  IsValidSize q = true → ∃ e, Serialize q v = Some e ∧ GetSerializedSize q = size e ∧ 0 < size e < 2 ^ 20 ∧
  GetQuantumSignatureWeight q =
    size e * (if scheme_id q =? SCHEME_ML_DSA_65 then 3 else if scheme_id q =? SCHEME_SLH_DSA_192F then 2 else 4).
Proof.
  intros Hv. pose proof (valid_encoding_length q Hv) as Hl. exists (encoding q). split; [apply serialize_eq|].
  assert (E : GetSerializedSize q = size (encoding q)).
  { unfold GetSerializedSize. rewrite length_encoding in *. unfold u64. rewrite Zplus_mod_idemp_l.
    change (2 ^ 20) with 1048576 in Hl. rewrite Z.mod_small; [lia|].
    assert (G : ∀ n, 0 <= GetSizeOfCompactSize n) by (intros; unfold GetSizeOfCompactSize; repeat case_match; lia).
    pose proof (G (size (signature q))). pose proof (G (size (pubkey q))). unfold size in *. lia. }
  assert (H0 : 0 < size (encoding q)) by (unfold size, encoding; cbn [length]; lia).
  split; [exact E|]. split; [lia|]. unfold GetQuantumSignatureWeight. rewrite E.
  assert (T : ∀ k, 0 <= k <= 4 → to_i64 (size (encoding q) * k) = size (encoding q) * k).
  { intros k Hk. unfold to_i64. change (2 ^ 20) with 1048576 in Hl.
    assert (Hs : 0 <= size (encoding q) * k < 2 ^ 63) by nia. rewrite u64_small by (unfold in_u64; lia).
    by rewrite (proj2 (Z.ltb_lt _ _)) by lia. }
  unfold WITNESS_SCALE_FACTOR. rewrite !T by lia.
  destruct (Z.eqb_spec (scheme_id q) SCHEME_ECDSA) as [->|]; [done|].
  destruct (scheme_id q =? SCHEME_ML_DSA_65); [done|]. by destruct (scheme_id q =? SCHEME_SLH_DSA_192F).
Qed.

(** ** Instances *)

Lemma quantum_signature_canonical_witness :
  Deserialize QuantumSignature_default [1; 2; 7; 8; 1; 9] = (true, {| scheme_id := 1; signature := [7; 8]; pubkey := [9] |}).
Proof.
  apply (quantum_signature_canonical _ _ _ []); [|by vm_compute|].
  - repeat constructor; lia.
  - split; [vm_compute; reflexivity|]. split; [unfold in_u8; cbn [scheme_id]; lia|reflexivity].
Defined.

Lemma quantum_signature_size_witness : ∃ e,
  Serialize {| scheme_id := 1; signature := [7; 8]; pubkey := [9] |} [] = Some e ∧ e = [1; 2; 7; 8; 1; 9] ∧
  GetQuantumSignatureWeight {| scheme_id := 1; signature := [7; 8]; pubkey := [9] |} = 24.
Proof.
  destruct (quantum_signature_size {| scheme_id := 1; signature := [7; 8]; pubkey := [9] |} [] eq_refl)
    as (e & E & _ & _ & W).
  exists e. split; [exact E|]. assert (He : e = [1; 2; 7; 8; 1; 9]) by (vm_compute in E; by injection E as <-).
  split; [exact He|]. rewrite W, He. reflexivity.
Defined.
