(* ===== verification/Script.v ===== *)
(** Scripts (script/script.h and script.cpp): opcodes, script numbers, the
    encoding of pushes and the reader of instructions, and the predicates on
    scripts that validation uses.

    A script is a list of bytes, an iterator the list of bytes from it on.  A
    loop over a script is [loop] with one more step than there are bytes: every
    instruction takes at least one.

    What the functions of [Script.v] compute: script numbers have one minimal
    encoding, pushes read back, instructions consume the script, and the loops
    over scripts end. *)
From S2P Require Import Prelude Serial QSig.

Open Scope Z_scope.

(** ** Limits *)

Definition MAX_SCRIPT_ELEMENT_SIZE : Z := 520.
Definition MAX_OPS_PER_SCRIPT : Z := 201.
Definition MAX_PUBKEYS_PER_MULTISIG : Z := 20.
Definition MAX_SCRIPT_SIZE : Z := 10000.
Definition MAX_STACK_SIZE : Z := 1000.
Definition ANNEX_TAG : Z := 0x50.
Definition VALIDATION_WEIGHT_PER_SIGOP_PASSED : Z := 50.
Definition VALIDATION_WEIGHT_OFFSET : Z := 50.

(** ** Opcodes *)

(** The enumeration; a byte without a name (the direct pushes of 1 to 75 bytes,
    and undefined opcodes) is a value of the type too. *)
Inductive opcodetype : Type :=
  | OP_0 | OP_PUSHDATA1 | OP_PUSHDATA2 | OP_PUSHDATA4 | OP_1NEGATE | OP_RESERVED | OP_1 | OP_2 | OP_3 | OP_4 |
    OP_5 | OP_6 | OP_7 | OP_8 | OP_9 | OP_10 | OP_11 | OP_12 | OP_13 | OP_14 | OP_15 | OP_16 | OP_NOP |
    OP_VER | OP_IF | OP_NOTIF | OP_VERIF | OP_VERNOTIF | OP_ELSE | OP_ENDIF | OP_VERIFY | OP_RETURN |
    OP_TOALTSTACK | OP_FROMALTSTACK | OP_2DROP | OP_2DUP | OP_3DUP | OP_2OVER | OP_2ROT | OP_2SWAP |
    OP_IFDUP | OP_DEPTH | OP_DROP | OP_DUP | OP_NIP | OP_OVER | OP_PICK | OP_ROLL | OP_ROT | OP_SWAP |
    OP_TUCK | OP_CAT | OP_SUBSTR | OP_LEFT | OP_RIGHT | OP_SIZE | OP_INVERT | OP_AND | OP_OR | OP_XOR |
    OP_EQUAL | OP_EQUALVERIFY | OP_RESERVED1 | OP_RESERVED2 | OP_1ADD | OP_1SUB | OP_2MUL | OP_2DIV |
    OP_NEGATE | OP_ABS | OP_NOT | OP_0NOTEQUAL | OP_ADD | OP_SUB | OP_MUL | OP_DIV | OP_MOD | OP_LSHIFT |
    OP_RSHIFT | OP_BOOLAND | OP_BOOLOR | OP_NUMEQUAL | OP_NUMEQUALVERIFY | OP_NUMNOTEQUAL | OP_LESSTHAN |
    OP_GREATERTHAN | OP_LESSTHANOREQUAL | OP_GREATERTHANOREQUAL | OP_MIN | OP_MAX | OP_WITHIN | OP_RIPEMD160 |
    OP_SHA1 | OP_SHA256 | OP_HASH160 | OP_HASH256 | OP_CODESEPARATOR | OP_CHECKSIG | OP_CHECKSIGVERIFY |
    OP_CHECKMULTISIG | OP_CHECKMULTISIGVERIFY | OP_NOP1 | OP_CHECKLOCKTIMEVERIFY | OP_CHECKSEQUENCEVERIFY |
    OP_CHECKSIG_EX | OP_CHECKSIGVERIFY_EX | OP_NOP6 | OP_NOP7 | OP_NOP8 | OP_NOP9 | OP_NOP10 |
    OP_CHECKSIGADD | OP_INVALIDOPCODE
  | OP_unnamed (b : Z).

Definition op_num (o : opcodetype) : Z :=
  match o with
  | OP_0 => 0x00 | OP_PUSHDATA1 => 0x4c | OP_PUSHDATA2 => 0x4d | OP_PUSHDATA4 => 0x4e | OP_1NEGATE => 0x4f |
    OP_RESERVED => 0x50 | OP_1 => 0x51 | OP_2 => 0x52 | OP_3 => 0x53 | OP_4 => 0x54 | OP_5 => 0x55 |
    OP_6 => 0x56 | OP_7 => 0x57 | OP_8 => 0x58 | OP_9 => 0x59 | OP_10 => 0x5a | OP_11 => 0x5b |
    OP_12 => 0x5c | OP_13 => 0x5d | OP_14 => 0x5e | OP_15 => 0x5f | OP_16 => 0x60 | OP_NOP => 0x61 |
    OP_VER => 0x62 | OP_IF => 0x63 | OP_NOTIF => 0x64 | OP_VERIF => 0x65 | OP_VERNOTIF => 0x66 |
    OP_ELSE => 0x67 | OP_ENDIF => 0x68 | OP_VERIFY => 0x69 | OP_RETURN => 0x6a | OP_TOALTSTACK => 0x6b |
    OP_FROMALTSTACK => 0x6c | OP_2DROP => 0x6d | OP_2DUP => 0x6e | OP_3DUP => 0x6f | OP_2OVER => 0x70 |
    OP_2ROT => 0x71 | OP_2SWAP => 0x72 | OP_IFDUP => 0x73 | OP_DEPTH => 0x74 | OP_DROP => 0x75 |
    OP_DUP => 0x76 | OP_NIP => 0x77 | OP_OVER => 0x78 | OP_PICK => 0x79 | OP_ROLL => 0x7a | OP_ROT => 0x7b |
    OP_SWAP => 0x7c | OP_TUCK => 0x7d | OP_CAT => 0x7e | OP_SUBSTR => 0x7f | OP_LEFT => 0x80 |
    OP_RIGHT => 0x81 | OP_SIZE => 0x82 | OP_INVERT => 0x83 | OP_AND => 0x84 | OP_OR => 0x85 | OP_XOR => 0x86 |
    OP_EQUAL => 0x87 | OP_EQUALVERIFY => 0x88 | OP_RESERVED1 => 0x89 | OP_RESERVED2 => 0x8a |
    OP_1ADD => 0x8b | OP_1SUB => 0x8c | OP_2MUL => 0x8d | OP_2DIV => 0x8e | OP_NEGATE => 0x8f |
    OP_ABS => 0x90 | OP_NOT => 0x91 | OP_0NOTEQUAL => 0x92 | OP_ADD => 0x93 | OP_SUB => 0x94 |
    OP_MUL => 0x95 | OP_DIV => 0x96 | OP_MOD => 0x97 | OP_LSHIFT => 0x98 | OP_RSHIFT => 0x99 |
    OP_BOOLAND => 0x9a | OP_BOOLOR => 0x9b | OP_NUMEQUAL => 0x9c | OP_NUMEQUALVERIFY => 0x9d |
    OP_NUMNOTEQUAL => 0x9e | OP_LESSTHAN => 0x9f | OP_GREATERTHAN => 0xa0 | OP_LESSTHANOREQUAL => 0xa1 |
    OP_GREATERTHANOREQUAL => 0xa2 | OP_MIN => 0xa3 | OP_MAX => 0xa4 | OP_WITHIN => 0xa5 |
    OP_RIPEMD160 => 0xa6 | OP_SHA1 => 0xa7 | OP_SHA256 => 0xa8 | OP_HASH160 => 0xa9 | OP_HASH256 => 0xaa |
    OP_CODESEPARATOR => 0xab | OP_CHECKSIG => 0xac | OP_CHECKSIGVERIFY => 0xad | OP_CHECKMULTISIG => 0xae |
    OP_CHECKMULTISIGVERIFY => 0xaf | OP_NOP1 => 0xb0 | OP_CHECKLOCKTIMEVERIFY => 0xb1 |
    OP_CHECKSEQUENCEVERIFY => 0xb2 | OP_CHECKSIG_EX => 0xb3 | OP_CHECKSIGVERIFY_EX => 0xb4 | OP_NOP6 => 0xb5 |
    OP_NOP7 => 0xb6 | OP_NOP8 => 0xb7 | OP_NOP9 => 0xb8 | OP_NOP10 => 0xb9 | OP_CHECKSIGADD => 0xba |
    OP_INVALIDOPCODE => 0xff
  | OP_unnamed b => b
  end.

(** [static_cast<opcodetype>]. *)
Definition named_opcodes : list opcodetype :=
  [OP_0; OP_PUSHDATA1; OP_PUSHDATA2; OP_PUSHDATA4; OP_1NEGATE; OP_RESERVED; OP_1; OP_2; OP_3; OP_4; OP_5;
   OP_6; OP_7; OP_8; OP_9; OP_10; OP_11; OP_12; OP_13; OP_14; OP_15; OP_16; OP_NOP; OP_VER; OP_IF; OP_NOTIF;
   OP_VERIF; OP_VERNOTIF; OP_ELSE; OP_ENDIF; OP_VERIFY; OP_RETURN; OP_TOALTSTACK; OP_FROMALTSTACK; OP_2DROP;
   OP_2DUP; OP_3DUP; OP_2OVER; OP_2ROT; OP_2SWAP; OP_IFDUP; OP_DEPTH; OP_DROP; OP_DUP; OP_NIP; OP_OVER;
   OP_PICK; OP_ROLL; OP_ROT; OP_SWAP; OP_TUCK; OP_CAT; OP_SUBSTR; OP_LEFT; OP_RIGHT; OP_SIZE; OP_INVERT;
   OP_AND; OP_OR; OP_XOR; OP_EQUAL; OP_EQUALVERIFY; OP_RESERVED1; OP_RESERVED2; OP_1ADD; OP_1SUB; OP_2MUL;
   OP_2DIV; OP_NEGATE; OP_ABS; OP_NOT; OP_0NOTEQUAL; OP_ADD; OP_SUB; OP_MUL; OP_DIV; OP_MOD; OP_LSHIFT;
   OP_RSHIFT; OP_BOOLAND; OP_BOOLOR; OP_NUMEQUAL; OP_NUMEQUALVERIFY; OP_NUMNOTEQUAL; OP_LESSTHAN;
   OP_GREATERTHAN; OP_LESSTHANOREQUAL; OP_GREATERTHANOREQUAL; OP_MIN; OP_MAX; OP_WITHIN; OP_RIPEMD160;
   OP_SHA1; OP_SHA256; OP_HASH160; OP_HASH256; OP_CODESEPARATOR; OP_CHECKSIG; OP_CHECKSIGVERIFY;
   OP_CHECKMULTISIG; OP_CHECKMULTISIGVERIFY; OP_NOP1; OP_CHECKLOCKTIMEVERIFY; OP_CHECKSEQUENCEVERIFY;
   OP_CHECKSIG_EX; OP_CHECKSIGVERIFY_EX; OP_NOP6; OP_NOP7; OP_NOP8; OP_NOP9; OP_NOP10; OP_CHECKSIGADD;
   OP_INVALIDOPCODE].
Definition to_opcode (b : Z) : opcodetype :=
  match list_find (λ o, op_num o = b) named_opcodes with Some (_, o) => o | None => OP_unnamed b end.

#[export] Instance opcodetype_eq_dec : EqDecision opcodetype.
Proof. solve_decision. Defined.

Definition MAX_OPCODE : Z := op_num OP_NOP10.

(** ** Script numbers *)

Definition nDefaultMaxNumSize : nat := 4.

(** The last element, [v.back()]; [v[i]] of a vector. *)
Definition back (v : list Z) : option Z := v !! pred (length v).

(** A test of [v[i]] that comes after a test of the size. *)
Definition byte_at (v : list Z) (i : nat) (p : Z → bool) : bool :=
  match v !! i with Some b => p b | None => false end.

(** [set_vch]: the loop over the bytes, then the sign. *)
Fixpoint set_vch_loop (i : nat) (v : list Z) (result : Z) : Z :=
  match v with
  | [] => result
  | b :: v => set_vch_loop (S i) v (Z.lor result (Z.shiftl b (8 * Z.of_nat i)))
  end.
Definition set_vch (v : list Z) : Z :=
  match back v with
  | None => 0
  | Some last =>
      let result := set_vch_loop 0 v 0 in
      if negb (Z.land last 0x80 =? 0)
      then - Z.ldiff result (Z.shiftl 0x80 (8 * (Z.of_nat (length v) - 1)))
      else result
  end.

(** The constructor from bytes; [None] is a [scriptnum_error]. *)
Definition minimally_encoded (v : list Z) : bool :=
  match back v with
  | None => true
  | Some last =>
      if Z.land last 0x7f =? 0
      then match v !! (length v - 2)%nat with
           | Some b => negb (length v <=? 1)%nat && negb (Z.land b 0x80 =? 0)
           | None => false
           end
      else true
  end.
Definition CScriptNum (v : list Z) (fRequireMinimal : bool) (nMaxNumSize : nat) : option Z :=
  if (nMaxNumSize <? length v)%nat then None
  else if fRequireMinimal && negb (minimally_encoded v) then None
  else Some (set_vch v).

Definition getint (m_value : Z) : Z :=
  if 2147483647 <? m_value then 2147483647 else if m_value <? -2147483648 then -2147483648 else m_value.

(** [serialize]: an absolute value of 64 bits has at most eight bytes. *)
Fixpoint serialize_abs (fuel : nat) (absvalue : Z) : list Z :=
  match fuel with
  | O => []
  | S fuel => if absvalue =? 0 then [] else Z.land absvalue 0xff :: serialize_abs fuel (Z.shiftr absvalue 8)
  end.
Definition serialize (value : Z) : list Z :=
  if value =? 0 then [] else
  let neg := value <? 0 in
  let absvalue := if neg then u64 (Z.lxor (u64 value) (2 ^ 64 - 1) + 1) else u64 value in
  let result := serialize_abs 8 absvalue in
  match back result with
  | None => result
  | Some last =>
      if negb (Z.land last 0x80 =? 0) then result ++ [if neg then 0x80 else 0]
      else if neg then removelast result ++ [Z.lor last 0x80]
      else result
  end.

(** ** Building scripts *)

Definition AppendDataSize (script : list Z) (sz : Z) : list Z :=
  let sz := u32 sz in
  if sz <? op_num OP_PUSHDATA1 then script ++ [u8 sz]
  else if sz <=? 0xff then script ++ [op_num OP_PUSHDATA1] ++ [u8 sz]
  else if sz <=? 0xffff then script ++ [op_num OP_PUSHDATA2] ++ le_bytes 2 sz
  else script ++ [op_num OP_PUSHDATA4] ++ le_bytes 4 sz.

(** [script << data] and [script << opcode]. *)
Definition push_data (script b : list Z) : list Z := AppendDataSize script (size b) ++ b.
Definition push_op (script : list Z) (opcode : opcodetype) : list Z := script ++ [u8 (op_num opcode)].

Definition EncodeOP_N (n : Z) : opcodetype := if n =? 0 then OP_0 else to_opcode (op_num OP_1 + n - 1).
(** [None]: the assertion fails. *)
Definition DecodeOP_N (opcode : opcodetype) : option Z :=
  if decide (opcode = OP_0) then Some 0
  else if (op_num OP_1 <=? op_num opcode) && (op_num opcode <=? op_num OP_16) then Some (op_num opcode - (op_num OP_1 - 1))
  else None.

Definition push_int64 (script : list Z) (n : Z) : list Z :=
  if (n =? -1) || ((1 <=? n) && (n <=? 16)) then script ++ [u8 (n + (op_num OP_1 - 1))]
  else if n =? 0 then push_op script OP_0
  else push_data script (serialize n).

(** ** Reading scripts *)

(** [GetScriptOp]: the next instruction and its data, and the iterator after
    them; [None] is [false]. *)
Definition GetScriptOp (pc : list Z) : option (list Z * opcodetype * list Z) :=
  match pc with
  | [] => None
  | opcode :: pc =>
      if opcode <=? op_num OP_PUSHDATA4 then
        '(nSize, pc) ←
          (if opcode <? op_num OP_PUSHDATA1 then Some (opcode, pc)
           else if opcode =? op_num OP_PUSHDATA1 then
             match pc with b :: pc => Some (b, pc) | [] => None end
           else if opcode =? op_num OP_PUSHDATA2 then
             if (length pc <? 2)%nat then None else Some (le_val (take 2 pc), drop 2 pc)
           else
             if (length pc <? 4)%nat then None else Some (le_val (take 4 pc), drop 4 pc));
        if u32 (Z.of_nat (length pc)) <? nSize then None
        else Some (drop (Z.to_nat nSize) pc, to_opcode opcode, take (Z.to_nat nSize) pc)
      else Some (pc, to_opcode opcode, [])
  end.

Definition IsOpSuccess (o : opcodetype) : bool :=
  let opcode := op_num o in
  (opcode =? 80) || (opcode =? 98) || ((126 <=? opcode) && (opcode <=? 129)) ||
  ((131 <=? opcode) && (opcode <=? 134)) || ((137 <=? opcode) && (opcode <=? 138)) ||
  ((141 <=? opcode) && (opcode <=? 142)) || ((149 <=? opcode) && (opcode <=? 153)) ||
  ((187 <=? opcode) && (opcode <=? 254)).

(** [None]: the assertion fails. *)
Definition CheckMinimalPush (data : list Z) (o : opcodetype) : option bool :=
  let opcode := op_num o in
  if negb ((0 <=? opcode) && (opcode <=? op_num OP_PUSHDATA4)) then None else Some (
  match data with
  | [] => opcode =? op_num OP_0
  | _ =>
    if (size data =? 1) && byte_at data 0 (λ b, (1 <=? b) && (b <=? 16)) then false
    else if (size data =? 1) && byte_at data 0 (Z.eqb 0x81) then false
    else if size data <=? 75 then opcode =? size data
    else if size data <=? 255 then opcode =? op_num OP_PUSHDATA1
    else if size data <=? 65535 then opcode =? op_num OP_PUSHDATA2
    else true
  end).

Definition IsPayToAnchor (s : list Z) : bool :=
  (size s =? 4) && byte_at s 0 (Z.eqb (op_num OP_1)) && byte_at s 1 (Z.eqb 0x02) &&
  byte_at s 2 (Z.eqb 0x4e) && byte_at s 3 (Z.eqb 0x73).

(** The overload on the output of [IsWitnessProgram]. *)
Definition IsPayToAnchor_program (version : Z) (program : list Z) : bool :=
  (version =? 1) && (size program =? 2) && byte_at program 0 (Z.eqb 0x4e) && byte_at program 1 (Z.eqb 0x73).

Definition IsPayToScriptHash (s : list Z) : bool :=
  (size s =? 23) && byte_at s 0 (Z.eqb (op_num OP_HASH160)) && byte_at s 1 (Z.eqb 0x14) &&
  byte_at s 22 (Z.eqb (op_num OP_EQUAL)).

Definition IsPayToWitnessScriptHash (s : list Z) : bool :=
  (size s =? 34) && byte_at s 0 (Z.eqb (op_num OP_0)) && byte_at s 1 (Z.eqb 0x20).

Definition IsPayToTaproot (s : list Z) : bool :=
  (size s =? 34) && byte_at s 0 (Z.eqb (op_num OP_1)) && byte_at s 1 (Z.eqb 0x20).

(** The version and the program, if there is one.  [DecodeOP_N] does not assert:
    the first byte has been checked. *)
Definition IsWitnessProgram (s : list Z) : option (Z * list Z) :=
  if (size s <? 4) || (42 <? size s) then None else
  match s with
  | b0 :: b1 :: program =>
      if negb (b0 =? op_num OP_0) && ((b0 <? op_num OP_1) || (op_num OP_16 <? b0)) then None
      else if b1 + 2 =? size s then
        version ← DecodeOP_N (to_opcode b0); Some (version, program)
      else None
  | _ => None
  end.

Definition IsUnspendable (s : list Z) : bool :=
  ((0 <? size s) && byte_at s 0 (Z.eqb (op_num OP_RETURN))) || (MAX_SCRIPT_SIZE <? size s).

(** Loops over a script, from [pc] on. *)
Definition IsPushOnly (pc : list Z) : option bool :=
  loop (S (length pc)) (λ pc,
    match pc with
    | [] => Some (Done true)
    | _ =>
      match GetScriptOp pc with
      | None => Some (Done false)
      | Some (pc, opcode, _) => if op_num OP_16 <? op_num opcode then Some (Done false) else Some (Next pc)
      end
    end) pc.

Definition HasValidOps (s : list Z) : option bool :=
  loop (S (length s)) (λ it,
    match it with
    | [] => Some (Done true)
    | _ =>
      match GetScriptOp it with
      | None => Some (Done false)
      | Some (it, opcode, item) =>
          if (MAX_OPCODE <? op_num opcode) || (MAX_SCRIPT_ELEMENT_SIZE <? size item) then Some (Done false)
          else Some (Next it)
      end
    end) s.

(** The counter is an [unsigned int]. *)
Definition GetSigOpCount (s : list Z) (fAccurate : bool) : option Z :=
  loop (S (length s)) (λ '(pc, lastOpcode, n),
    match pc with
    | [] => Some (Done n)
    | _ =>
      match GetScriptOp pc with
      | None => Some (Done n)
      | Some (pc, opcode, _) =>
          n ← (if decide (opcode = OP_CHECKSIG ∨ opcode = OP_CHECKSIGVERIFY) then Some (u32 (n + 1))
               else if decide (opcode = OP_CHECKMULTISIG ∨ opcode = OP_CHECKMULTISIGVERIFY) then
                 if fAccurate && (op_num OP_1 <=? op_num lastOpcode) && (op_num lastOpcode <=? op_num OP_16)
                 then k ← DecodeOP_N lastOpcode; Some (u32 (n + k))
                 else Some (u32 (n + MAX_PUBKEYS_PER_MULTISIG))
               else Some n);
          Some (Next (pc, opcode, n))
      end
    end) (s, OP_INVALIDOPCODE, 0).

(** The overload for a spent output: the signature operations of the script
    that the signature script pushes last. *)
Definition GetSigOpCount_p2sh (s scriptSig : list Z) : option Z :=
  if negb (IsPayToScriptHash s) then GetSigOpCount s true else
  v ← loop (S (length scriptSig)) (λ '(pc, vData),
    match pc with
    | [] => Some (Done (Some vData))
    | _ =>
      match GetScriptOp pc with
      | None => Some (Done None)
      | Some (pc, opcode, vData) =>
          if op_num OP_16 <? op_num opcode then Some (Done None) else Some (Next (pc, vData))
      end
    end) (scriptSig, []);
  match v with None => Some 0 | Some vData => GetSigOpCount vData true end.

(** [FindAndDelete] (interpreter.cpp): remove the occurrences of [b] that start
    at an instruction.  The result is the number found and the script. *)
Definition skip_occurrences (b pc : list Z) (nFound : Z) : option (list Z * Z) :=
  loop (S (length pc)) (λ '(pc, nFound),
    if (length b <=? length pc)%nat && bool_decide (take (length b) pc = b)
    then Some (Next (drop (length b) pc, nFound + 1))
    else Some (Done (pc, nFound))) (pc, nFound).
Definition FindAndDelete (script b : list Z) : option (Z * list Z) :=
  match b with
  | [] => Some (0, script)
  | _ =>
    '(nFound, result, pc2) ← loop (S (length script)) (λ '(nFound, result, pc2, pc),
      let result := result ++ take (length pc2 - length pc) pc2 in
      '(pc, nFound) ← skip_occurrences b pc nFound;
      match GetScriptOp pc with
      | Some (pc', _, _) => Some (Next (nFound, result, pc, pc'))
      | None => Some (Done (nFound, result, pc))
      end) (0, [], script, script);
    Some (if 0 <? nFound then (nFound, result ++ pc2) else (nFound, script))
  end.

(** ** Opcodes *)

Lemma op_num_to_opcode b : op_num (to_opcode b) = b.
Proof.
  unfold to_opcode. destruct (list_find _ _) as [[i o]|] eqn:E; [|done].
  by apply list_find_Some in E as (_ & H & _).
Qed.

(** A byte with a name gives the opcode of that name. *)
Lemma to_opcode_named o : o ∈ named_opcodes → to_opcode (op_num o) = o.
Proof.
  assert (F : Forall (λ o, to_opcode (op_num o) = o) named_opcodes) by repeat constructor.
  intros H. by apply list_elem_of_lookup in H as [i Hi]; apply (Forall_lookup_1 _ _ _ _ F Hi).
Qed.

(** ** Bytes of script numbers *)

Lemma land_0x80 b : in_u8 b → (Z.land b 0x80 =? 0) = (b <? 128).
Proof.
  unfold in_u8. intros Hb. change 0x80 with (2 ^ 7).
  assert (E : Z.land b (2 ^ 7) = if Z.testbit b 7 then 2 ^ 7 else 0).
  { apply Z.bits_inj'. intros i Hi. rewrite Z.land_spec, Z.pow2_bits_eqb by lia.
    destruct (Z.eqb_spec 7 i) as [<-|Hne].
    - rewrite andb_true_r. destruct (Z.testbit b 7); [by rewrite Z.pow2_bits_true|by rewrite Z.bits_0].
    - rewrite andb_false_r. destruct (Z.testbit b 7); [by rewrite Z.pow2_bits_false|by rewrite Z.bits_0]. }
  rewrite E. assert (T : Z.testbit b 7 = (128 <=? b)).
  { rewrite Z.testbit_odd, Z.shiftr_div_pow2 by lia. change (2 ^ 7) with 128 in *. change (2 ^ 8) with 256 in *.
    destruct (Z.leb_spec 128 b).
    - replace (b / 128) with 1; [done|]. apply (Z.div_unique _ _ _ (b - 128)); lia.
    - by rewrite Z.div_small by lia. }
  rewrite T. destruct (Z.leb_spec 128 b), (Z.ltb_spec b 128); try lia; done.
Qed.

Lemma land_0x7f b : in_u8 b → (Z.land b 0x7f =? 0) = (b =? 0) || (b =? 0x80).
Proof.
  unfold in_u8. intros Hb. change 0x7f with (2 ^ 7 - 1). rewrite land_ones_u32 by lia.
  change (2 ^ 7) with 128. change (2 ^ 8) with 256 in *.
  pose proof (Z.div_mod b 128 ltac:(lia)). pose proof (Z.mod_pos_bound b 128 ltac:(lia)).
  destruct (Z.eqb_spec (b mod 128) 0), (Z.eqb_spec b 0), (Z.eqb_spec b 0x80); cbn [orb]; try done; exfalso; nia.
Qed.

Lemma back_snoc w b : back (w ++ [b]) = Some b.
Proof. unfold back. rewrite length_app. cbn [length]. replace (pred (length w + 1)) with (length w) by lia. by rewrite list_lookup_middle. Qed.

Lemma set_vch_loop_eq i v r : 0 <= r < 2 ^ (8 * Z.of_nat i) → bytes v →
  set_vch_loop i v r = r + 2 ^ (8 * Z.of_nat i) * le_val v.
Proof.
  intros Hr Hv. revert i r Hr. induction Hv as [|b v Hb Hv IH]; intros i r Hr; cbn [set_vch_loop le_val]; [lia|].
  rewrite Z.shiftl_mul_pow2, Z.lor_comm, lor_mul_pow2 by lia. unfold in_u8 in Hb. change (2 ^ 8) with 256 in *.
  assert (E : 2 ^ (8 * Z.of_nat (S i)) = 256 * 2 ^ (8 * Z.of_nat i)).
  { replace (8 * Z.of_nat (S i)) with (8 + 8 * Z.of_nat i) by lia. by rewrite Z.pow_add_r by lia. }
  rewrite IH; [rewrite E; lia|]. rewrite E. nia.
Qed.

Lemma le_val_snoc w b : le_val (w ++ [b]) = le_val w + 2 ^ (8 * Z.of_nat (length w)) * b.
Proof. rewrite le_val_app. cbn [le_val]. lia. Qed.

(** The value of a byte string: the top bit is a sign. *)
Lemma set_vch_snoc w b : bytes w → in_u8 b →
  set_vch (w ++ [b]) =
  if b <? 128 then le_val w + 2 ^ (8 * Z.of_nat (length w)) * b
  else - (le_val w + 2 ^ (8 * Z.of_nat (length w)) * (b - 128)).
Proof.
  intros Hw Hb. unfold set_vch. rewrite back_snoc, land_0x80 by done.
  assert (Hwb : bytes (w ++ [b])) by (apply Forall_app_2; [done|by constructor]).
  rewrite set_vch_loop_eq by (done || (simpl; lia)). change (2 ^ (8 * Z.of_nat 0)) with 1. rewrite le_val_snoc.
  destruct (Z.ltb_spec b 128) as [H|H]; cbn [negb]; [lia|]. unfold in_u8 in Hb. change (2 ^ 8) with 256 in Hb.
  rewrite length_app, Nat2Z.inj_add. cbn [length]. replace (Z.of_nat (length w) + Z.of_nat 1 - 1) with (Z.of_nat (length w)) by lia.
  rewrite Z.shiftl_mul_pow2 by lia. pose proof (le_val_range w Hw) as Hr.
  set (p := 2 ^ (8 * Z.of_nat (length w))) in *.
  assert (E : 0x80 * p = 2 ^ (8 * Z.of_nat (length w) + 7)) by (rewrite Z.pow_add_r by lia; fold p; lia).
  set (x := 0 + 1 * (le_val w + p * b)).
  assert (T : Z.testbit x (8 * Z.of_nat (length w) + 7) = true).
  { rewrite Z.testbit_odd, Z.shiftr_div_pow2, <-E by lia. replace (x / (0x80 * p)) with 1; [done|].
    apply (Z.div_unique _ _ _ (x - 0x80 * p)); unfold x; nia. }
  rewrite <-Z.sub_nocarry_ldiff; [unfold x; lia|]. rewrite E.
  apply Z.bits_inj'. intros i Hi. rewrite Z.ldiff_spec, Z.bits_0, Z.pow2_bits_eqb by lia.
  destruct (Z.eqb_spec (8 * Z.of_nat (length w) + 7) i) as [<-|]; [by rewrite T|done].
Qed.

(** The loop of [serialize] writes the digits in base 256 without leading zero. *)
Lemma serialize_abs_le fuel w : bytes w → (length w <= fuel)%nat → (∀ b, back w = Some b → b ≠ 0) →
  serialize_abs fuel (le_val w) = w.
Proof.
  intros Hw. revert fuel. induction Hw as [|b w Hb Hw IH]; intros fuel Hf Hl.
  - destruct fuel; [done|]. cbn [serialize_abs le_val]. done.
  - destruct fuel as [|fuel]; [simpl in Hf; lia|]. cbn [serialize_abs le_val length] in *.
    assert (Hl' : ∀ b', back w = Some b' → b' ≠ 0).
    { intros b' E. apply Hl. unfold back in *. cbn [length pred].
      destruct w as [|c w']; [done|]. cbn [length pred] in *. rewrite (lookup_cons_ne_0 _ _ (S (length w'))) by done. done. }
    assert (Hpos : b + 2 ^ 8 * le_val w ≠ 0).
    { destruct w as [|c w'] eqn:Ew; [cbn [le_val]; specialize (Hl b eq_refl); lia|].
      intros E. pose proof (le_val_range _ Hw) as Hr. unfold in_u8 in Hb. change (2 ^ 8) with 256 in *.
      assert (Z0 : le_val (c :: w') = 0) by lia. assert (E0 : serialize_abs fuel 0 = c :: w').
      { rewrite <-Z0. apply IH; [lia|done]. } by destruct fuel. }
    rewrite (proj2 (Z.eqb_neq _ _) Hpos). unfold in_u8 in Hb. change (2 ^ 8) with 256 in *.
    change 0xff with (2 ^ 8 - 1). rewrite land_ones_u32 by lia. rewrite Z.shiftr_div_pow2 by lia. change (2 ^ 8) with 256.
    rewrite (Z.mul_comm 256), Z.mod_add, Z.div_add, Z.mod_small, Z.div_small, Z.add_0_l by lia.
    f_equal. apply IH; [lia|done].
Qed.

(** Every positive value below [256^fuel] has such digits. *)
Lemma serialize_abs_spec fuel a : 0 <= a < 2 ^ (8 * Z.of_nat fuel) →
  ∃ w, serialize_abs fuel a = w ∧ bytes w ∧ (length w <= fuel)%nat ∧ le_val w = a ∧ ∀ b, back w = Some b → b ≠ 0.
Proof.
  revert a. induction fuel as [|fuel IH]; intros a Ha.
  - exists []. change (2 ^ (8 * Z.of_nat 0)) with 1 in Ha. split_and!; [done|constructor|simpl; lia|cbn [le_val]; lia|done].
  - cbn [serialize_abs]. destruct (Z.eqb_spec a 0) as [->|Hne].
    { exists []. split_and!; [done|constructor|simpl; lia|done|done]. }
    rewrite Z.shiftr_div_pow2 by lia. change 0xff with (2 ^ 8 - 1). rewrite land_ones_u32 by lia.
    assert (Hd : 0 <= a / 2 ^ 8 < 2 ^ (8 * Z.of_nat fuel)).
    { replace (8 * Z.of_nat (S fuel)) with (8 + 8 * Z.of_nat fuel) in Ha by lia. rewrite Z.pow_add_r in Ha by lia.
      split; [apply Z.div_pos; lia|apply Z.div_lt_upper_bound; lia]. }
    destruct (IH _ Hd) as (w & -> & Hb & Hl & Hv & Hz). exists (a mod 2 ^ 8 :: w).
    pose proof (Z.mod_pos_bound a (2 ^ 8) ltac:(lia)) as Hm. split; [done|].
    split; [by constructor|]. split; [simpl; lia|]. cbn [le_val]. rewrite Hv.
    split; [pose proof (Z.div_mod a (2 ^ 8) ltac:(lia)); lia|].
    intros b E. destruct w as [|c w].
    + unfold back in E. cbn in E. injection E as <-. cbn [le_val] in Hv. pose proof (Z.div_mod a (2 ^ 8) ltac:(lia)). lia.
    + apply Hz. unfold back in *. cbn [length pred] in *. rewrite lookup_cons_ne_0 in E by done. done.
Qed.

Lemma neg_u64 v : - 2 ^ 63 <= v < 0 → u64 (Z.lxor (u64 v) (2 ^ 64 - 1) + 1) = - v.
Proof.
  intros Hv. assert (Hu : u64 v = v + 2 ^ 64).
  { unfold u64. symmetry. apply (Z.mod_unique _ _ (-1)); lia. }
  rewrite Hu. set (x := v + 2 ^ 64).
  assert (E : Z.lxor x (2 ^ 64 - 1) = 2 ^ 64 - 1 - x).
  { assert (O : 2 ^ 64 - 1 = Z.ones 64) by reflexivity. rewrite O.
    assert (H0 : Z.ldiff x (Z.ones 64) = 0).
    { rewrite Z.ldiff_ones_r_low; [done|lia|]. apply Z.log2_lt_pow2; unfold x; lia. }
    rewrite Z.sub_nocarry_ldiff by done. apply Z.bits_inj'. intros i Hi.
    rewrite Z.lxor_spec, Z.ldiff_spec. destruct (decide (i < 64)).
    - rewrite Z.ones_spec_low by lia. by destruct (Z.testbit x i).
    - rewrite Z.ones_spec_high by lia. rewrite Z.bits_above_log2; [done|unfold x; lia|].
      apply Z.log2_lt_pow2; [unfold x; lia|]. eapply Z.lt_le_trans; [|apply Z.pow_le_mono_r; [lia|]; instantiate (1 := 64); lia]. unfold x. lia. }
  rewrite E. replace (2 ^ 64 - 1 - x + 1) with (- v) by (unfold x; lia). apply u64_small. unfold in_u64. lia.
Qed.

(** [serialize] by cases: zero, and the digits of the absolute value with the
    sign in the top bit of the last byte or in a byte of its own. *)
Lemma serialize_cases n : - 2 ^ 63 < n < 2 ^ 63 →
  n = 0 ∧ serialize n = [] ∨
  ∃ w b, bytes (w ++ [b]) ∧ b ≠ 0 ∧ (length w < 8)%nat ∧ le_val (w ++ [b]) = Z.abs n ∧ n ≠ 0 ∧
    serialize n = if b <? 128 then w ++ [if n <? 0 then b + 128 else b] else w ++ [b; if n <? 0 then 0x80 else 0].
Proof.
  intros Hn. unfold serialize. destruct (Z.eqb_spec n 0) as [->|Hz]; [by left|]. right.
  assert (Ha : (if n <? 0 then u64 (Z.lxor (u64 n) (2 ^ 64 - 1) + 1) else u64 n) = Z.abs n).
  { destruct (Z.ltb_spec n 0); [rewrite neg_u64 by lia; lia|]. rewrite u64_small by (unfold in_u64; lia). lia. }
  rewrite Ha. destruct (serialize_abs_spec 8 (Z.abs n)) as (v & -> & Hb & Hl & Hv & Hlast).
  { change (2 ^ (8 * Z.of_nat 8)) with (2 ^ 64). lia. }
  destruct v as [|b w _] using rev_ind; [cbn [le_val] in Hv; lia|]. rewrite back_snoc in *.
  exists w, b. split; [done|]. split; [by apply Hlast|]. rewrite length_app in Hl. cbn [length] in Hl.
  split; [lia|]. split; [done|]. split; [done|]. apply Forall_app in Hb as [_ Hb].
  rewrite Forall_singleton in Hb. rewrite land_0x80 by done. unfold in_u8 in Hb. change (2 ^ 8) with 256 in Hb.
  destruct (Z.ltb_spec b 128); cbn [negb].
  - destruct (n <? 0); [|done]. rewrite removelast_last. do 2 f_equal.
    change 0x80 with (1 * 2 ^ 7). rewrite Z.lor_comm, lor_mul_pow2 by (change (2 ^ 7) with 128; lia). change (2 ^ 7) with 128. lia.
  - by rewrite <-app_assoc.
Qed.

(** The number a minimal encoding stands for has that encoding. *)
Lemma minimal_snoc w b : in_u8 b → bytes w → minimally_encoded (w ++ [b]) = true →
  (b ≠ 0 ∧ b ≠ 128) ∨ ∃ w' c, w = w' ++ [c] ∧ 128 <= c < 256 ∧ (b = 0 ∨ b = 128).
Proof.
  intros Hb Hw. unfold minimally_encoded. rewrite back_snoc, land_0x7f by done.
  destruct (Z.eqb_spec b 0), (Z.eqb_spec b 128); cbn [orb]; try (by left); rewrite length_app; cbn [length];
    (destruct w as [|c w' _] using rev_ind; [done|]); rewrite length_app, <-app_assoc; cbn [length app];
    (replace (length w' + 1 + 1 - 2)%nat with (length w') by lia); rewrite list_lookup_middle by done;
    apply Forall_app in Hw as [_ Hc]; rewrite Forall_singleton in Hc; rewrite land_0x80 by done;
    rewrite andb_true_iff, !negb_true_iff, Z.ltb_ge; unfold in_u8 in Hc; intros [_ H]; right; exists w', c; auto with lia.
Qed.

Lemma serialize_value n w b : bytes (w ++ [b]) → b ≠ 0 → (length w < 8)%nat → n ≠ 0 → - 2 ^ 63 < n < 2 ^ 63 →
  le_val (w ++ [b]) = Z.abs n →
  serialize n = if b <? 128 then w ++ [if n <? 0 then b + 128 else b] else w ++ [b; if n <? 0 then 0x80 else 0].
Proof.
  intros Hb H0 Hl Hn Hr Hv. destruct (serialize_cases n Hr) as [[]|(w1 & b1 & Hb1 & H1 & Hl1 & Hv1 & _ & E)]; [done|].
  assert (Ew : w1 ++ [b1] = w ++ [b]).
  { assert (L : ∀ w b, b ≠ 0 → ∀ c, back (w ++ [b]) = Some c → c ≠ 0) by (intros; rewrite back_snoc in *; congruence).
    rewrite <-(serialize_abs_le 8 (w1 ++ [b1])), <-(serialize_abs_le 8 (w ++ [b])) by
      (first [done|rewrite length_app; simpl; lia|by apply L]). by rewrite Hv, Hv1. }
  apply app_inj_tail in Ew as [-> ->]. exact E.
Qed.

Lemma pow_le_63 (w : list Z) : (length w < 8)%nat → 2 ^ (8 * Z.of_nat (length w)) * 128 <= 2 ^ 63.
Proof.
  intros. replace (2 ^ 63) with (2 ^ 56 * 128) by reflexivity.
  apply Z.mul_le_mono_nonneg_r; [lia|]. apply Z.pow_le_mono_r; lia.
Qed.

Lemma serialize_set_vch v : bytes v → (length v <= 8)%nat → minimally_encoded v = true →
  - 2 ^ 63 < set_vch v < 2 ^ 63 ∧ serialize (set_vch v) = v.
Proof.
  intros Hv Hl Hm. destruct v as [|b w _] using rev_ind; [done|].
  apply Forall_app in Hv as [Hw Hb]. rewrite Forall_singleton in Hb. rewrite length_app in Hl. cbn [length] in Hl.
  rewrite set_vch_snoc by done. pose proof (le_val_range w Hw) as Hr. pose proof (pow_le_63 w ltac:(lia)) as Hp.
  set (p := 2 ^ (8 * Z.of_nat (length w))) in *. unfold in_u8 in Hb. change (2 ^ 8) with 256 in Hb.
  destruct (minimal_snoc w b Hb Hw Hm) as [[H0 H128]|(w' & c & -> & Hc & Hb0)].
  - destruct (Z.ltb_spec b 128).
    + assert (Hpos : 0 < le_val w + p * b < 2 ^ 63) by nia. split; [lia|].
      rewrite (serialize_value _ w b); [by rewrite (proj2 (Z.ltb_lt b 128)), (proj2 (Z.ltb_ge _ 0)) by lia| |done|lia|lia|lia|].
      * apply Forall_app_2; [done|]. by constructor.
      * rewrite le_val_snoc. fold p. lia.
    + assert (Hneg : 0 < le_val w + p * (b - 128) < 2 ^ 63) by nia. split; [lia|].
      rewrite (serialize_value _ w (b - 128)).
      * rewrite (proj2 (Z.ltb_lt (b - 128) 128)), (proj2 (Z.ltb_lt _ 0)) by lia. do 2 f_equal. lia.
      * apply Forall_app_2; [done|]. constructor; [unfold in_u8; lia|constructor].
      * lia.
      * lia.
      * lia.
      * lia.
      * rewrite le_val_snoc. fold p. lia.
  - pose proof (le_val_snoc w' c) as Hs. apply Forall_app in Hw as [Hw' Hc']. pose proof (le_val_range w' Hw') as Hr'.
    assert (Hpos : 0 < le_val (w' ++ [c]) < 2 ^ 63).
    { rewrite Hs. split; [assert (0 < 2 ^ (8 * Z.of_nat (length w'))) by (apply Z.pow_pos_nonneg; lia); nia|].
      rewrite <-Hs. lia. }
    assert (Hl' : (length w' < 8)%nat) by (rewrite length_app in Hl; simpl in Hl; lia).
    assert (Hwc : bytes (w' ++ [c])) by (by apply Forall_app_2).
    destruct Hb0 as [-> | ->]; cbn [Z.ltb Z.compare Pos.compare Pos.compare_cont].
    + rewrite Z.mul_0_r, Z.add_0_r. split; [lia|].
      rewrite (serialize_value _ w' c) by (done || lia). rewrite (proj2 (Z.ltb_ge c 128)), (proj2 (Z.ltb_ge _ 0)) by lia.
      by rewrite <-app_assoc.
    + rewrite Z.mul_0_r, Z.add_0_r. split; [lia|].
      rewrite (serialize_value _ w' c) by (done || lia). rewrite (proj2 (Z.ltb_ge c 128)), (proj2 (Z.ltb_lt _ 0)) by lia.
      by rewrite <-app_assoc.
Qed.

Lemma set_vch_serialize n : - 2 ^ 63 < n < 2 ^ 63 →
  bytes (serialize n) ∧ minimally_encoded (serialize n) = true ∧ set_vch (serialize n) = n.
Proof.
  intros Hn. destruct (serialize_cases n Hn) as [[-> ->]|(w & b & Hwb & H0 & Hl & Hv & Hne & ->)];
    [split; [constructor|done]|].
  apply Forall_app in Hwb as Hwb'. destruct Hwb' as [Hw Hb]. rewrite Forall_singleton in Hb.
  rewrite le_val_snoc in Hv. unfold in_u8 in Hb. change (2 ^ 8) with 256 in Hb.
  assert (M : ∀ w b, in_u8 b → b ≠ 0 → b ≠ 128 → minimally_encoded (w ++ [b]) = true).
  { intros w0 b0 Hb0 ??. unfold minimally_encoded. rewrite back_snoc, land_0x7f by done.
    rewrite (proj2 (Z.eqb_neq b0 0)), (proj2 (Z.eqb_neq b0 0x80)) by done. done. }
  destruct (Z.ltb_spec b 128).
  - assert (Hb' : in_u8 (if n <? 0 then b + 128 else b)) by (unfold in_u8; case_match; lia).
    split; [apply Forall_app_2; [done|by constructor]|]. split; [apply M; [done|case_match; lia|case_match; lia]|].
    rewrite set_vch_snoc by done. destruct (Z.ltb_spec n 0).
    + rewrite (proj2 (Z.ltb_ge (b + 128) 128)) by lia. lia.
    + rewrite (proj2 (Z.ltb_lt b 128)) by lia. lia.
  - change [b; if n <? 0 then 0x80 else 0] with ([b] ++ [if n <? 0 then 0x80 else 0]). rewrite app_assoc.
    assert (Hb' : in_u8 (if n <? 0 then 0x80 else 0)) by (unfold in_u8; case_match; lia).
    split; [apply Forall_app_2; [done|by constructor]|]. split.
    + unfold minimally_encoded. rewrite back_snoc, land_0x7f by done.
      replace (((if n <? 0 then 0x80 else 0) =? 0) || ((if n <? 0 then 0x80 else 0) =? 0x80)) with true by (by case_match).
      rewrite !length_app, <-app_assoc. cbn [length app]. replace (length w + 1 + 1 - 2)%nat with (length w) by lia.
      rewrite list_lookup_middle by done. rewrite land_0x80 by done. rewrite (proj2 (Z.ltb_ge b 128)) by lia.
      rewrite (proj2 (Nat.leb_gt _ _)) by lia. done.
    + rewrite set_vch_snoc by done. destruct (Z.ltb_spec n 0); cbn [Z.ltb Z.compare Pos.compare Pos.compare_cont];
        rewrite le_val_snoc; lia.
Qed.

(** A number read from [k] bytes has [8 k - 1] bits and a sign. *)
Lemma set_vch_range v k : bytes v → (length v <= S k)%nat → Z.abs (set_vch v) < 2 ^ (8 * Z.of_nat k + 7).
Proof.
  intros Hv Hl. destruct v as [|b w _] using rev_ind; [cbn [set_vch back]; simpl; apply Z.pow_pos_nonneg; lia|].
  apply Forall_app in Hv as [Hw Hb]. rewrite Forall_singleton in Hb. rewrite length_app in Hl. cbn [length] in Hl.
  rewrite set_vch_snoc by done. pose proof (le_val_range w Hw) as Hr. unfold in_u8 in Hb. change (2 ^ 8) with 256 in Hb.
  rewrite Z.pow_add_r by lia. change (2 ^ 7) with 128.
  assert (Hp : 2 ^ (8 * Z.of_nat (length w)) <= 2 ^ (8 * Z.of_nat k)) by (apply Z.pow_le_mono_r; lia).
  set (p := 2 ^ (8 * Z.of_nat (length w))) in *. destruct (Z.ltb_spec b 128); nia.
Qed.

Lemma CScriptNum_range v m k n : bytes v → CScriptNum v m (S k) = Some n → Z.abs n < 2 ^ (8 * Z.of_nat k + 7).
Proof.
  intros Hv. unfold CScriptNum. destruct (Nat.ltb_spec (S k) (length v)); [done|].
  case_match; [done|]. intros [= <-]. by apply set_vch_range.
Qed.

(** ** Reading instructions *)

Lemma GetScriptOp_shrinks pc pc' o d : GetScriptOp pc = Some (pc', o, d) →
  (length pc' < length pc)%nat ∧ ∃ h, pc = h ++ d ++ pc' ∧ (0 < length h)%nat.
Proof.
  destruct pc as [|b pc]; [done|]. cbn [GetScriptOp].
  assert (K : ∀ n q h, pc = h ++ q → (if u32 (Z.of_nat (length q)) <? n then None
      else Some (drop (Z.to_nat n) q, to_opcode b, take (Z.to_nat n) q)) = Some (pc', o, d) →
    (length pc' < length (b :: pc))%nat ∧ ∃ h, b :: pc = h ++ d ++ pc' ∧ (0 < length h)%nat).
  { intros n q h -> H. case_match; [done|]. injection H as <- _ <-. split.
    - cbn [length]. rewrite length_drop, length_app. lia.
    - exists (b :: h). rewrite take_drop. split; [done|simpl; lia]. }
  destruct (b <=? op_num OP_PUSHDATA4).
  2: { intros [= <- _ <-]. split; [simpl; lia|]. exists [b]. split; [done|simpl; lia]. }
  destruct (b <? op_num OP_PUSHDATA1); [apply (K _ _ []); done|].
  destruct (b =? op_num OP_PUSHDATA1); [destruct pc as [|n pc]; [done|]; apply (K _ _ [n]); done|].
  destruct (b =? op_num OP_PUSHDATA2).
  - destruct (length pc <? 2)%nat; [done|]. apply (K _ _ (take 2 pc)). by rewrite take_drop.
  - destruct (length pc <? 4)%nat; [done|]. apply (K _ _ (take 4 pc)). by rewrite take_drop.
Qed.

Lemma GetScriptOp_data_bytes pc pc' o d : bytes pc → GetScriptOp pc = Some (pc', o, d) → bytes d ∧ bytes pc'.
Proof. intros Hb (_ & h & -> & _)%GetScriptOp_shrinks. by apply Forall_app in Hb as [_ [? ?]%Forall_app]. Qed.

(** The opcode with which data of a given size is pushed. *)
Definition push_opcode (n : Z) : Z :=
  if n <? 0x4c then n else if n <=? 0xff then 0x4c else if n <=? 0xffff then 0x4d else 0x4e.

Lemma push_data_app s d : push_data s d = s ++ push_data [] d.
Proof. unfold push_data, AppendDataSize. repeat case_match; by rewrite <-?app_assoc. Qed.

(** What [<<] writes, the reader reads, with the data and the opcode for its
    size; the script must be addressable by 32 bits. *)
Lemma GetScriptOp_push d rest : size (d ++ rest) < 2 ^ 32 →
  GetScriptOp (push_data [] d ++ rest) = Some (rest, to_opcode (push_opcode (size d)), d).
Proof.
  unfold size. intros Hs. rewrite length_app, Nat2Z.inj_add in Hs.
  assert (D : drop (Z.to_nat (Z.of_nat (length d))) (d ++ rest) = rest) by (by rewrite Nat2Z.id, drop_app_length).
  assert (T : take (Z.to_nat (Z.of_nat (length d))) (d ++ rest) = d) by (by rewrite Nat2Z.id, take_app_length).
  assert (U : (u32 (Z.of_nat (length (d ++ rest))) <? Z.of_nat (length d)) = false).
  { rewrite u32_small by (unfold in_u32; rewrite length_app; lia). apply Z.ltb_ge. rewrite length_app. lia. }
  unfold push_data, AppendDataSize, push_opcode, size. rewrite (u32_small (Z.of_nat (length d))) by (unfold in_u32; lia).
  change (op_num OP_PUSHDATA1) with 0x4c. change (op_num OP_PUSHDATA2) with 0x4d. change (op_num OP_PUSHDATA4) with 0x4e.
  assert (G : ∀ k (n : Z) l, l = le_bytes k n → n = Z.of_nat (length d) → n < 2 ^ (8 * Z.of_nat k) →
    (length (l ++ d ++ rest) <? k)%nat = false ∧ le_val (take k (l ++ d ++ rest)) = n ∧ drop k (l ++ d ++ rest) = d ++ rest).
  { intros k n l -> -> Hn. rewrite length_app, length_le_bytes. split; [apply Nat.ltb_ge; lia|].
    rewrite take_app_length', drop_app_length' by (by rewrite length_le_bytes). split; [|done].
    rewrite le_val_le_bytes. apply Z.mod_small. lia. }
  destruct (Z.ltb_spec (Z.of_nat (length d)) 0x4c) as [H1|H1]; [|destruct (Z.leb_spec (Z.of_nat (length d)) 0xff) as [H2|H2];
    [|destruct (Z.leb_spec (Z.of_nat (length d)) 0xffff) as [H3|H3]]]; cbn [app GetScriptOp].
  - rewrite u8_small by (unfold in_u8; lia). rewrite (proj2 (Z.leb_le _ (op_num OP_PUSHDATA4))), (proj2 (Z.ltb_lt _ (op_num OP_PUSHDATA1)))
      by (cbn [op_num]; lia). cbn [mbind option_bind]. by rewrite U, D, T.
  - rewrite u8_small by (unfold in_u8; lia). change (0x4c <=? op_num OP_PUSHDATA4) with true.
    change (0x4c <? op_num OP_PUSHDATA1) with false. change (0x4c =? op_num OP_PUSHDATA1) with true.
    cbn [mbind option_bind]. by rewrite U, D, T.
  - change (0x4d <=? op_num OP_PUSHDATA4) with true.
    change (0x4d <? op_num OP_PUSHDATA1) with false. change (0x4d =? op_num OP_PUSHDATA1) with false.
    change (0x4d =? op_num OP_PUSHDATA2) with true. cbn iota. rewrite <-!app_assoc.
    destruct (G 2%nat (Z.of_nat (length d)) _ eq_refl eq_refl) as (-> & -> & ->); [simpl; lia|].
    cbn [mbind option_bind]. by rewrite U, D, T.
  - change (0x4e <=? op_num OP_PUSHDATA4) with true.
    change (0x4e <? op_num OP_PUSHDATA1) with false. change (0x4e =? op_num OP_PUSHDATA1) with false.
    change (0x4e =? op_num OP_PUSHDATA2) with false. cbn iota. rewrite <-!app_assoc.
    destruct (G 4%nat (Z.of_nat (length d)) _ eq_refl eq_refl) as (-> & -> & ->); [simpl; lia|].
    cbn [mbind option_bind]. by rewrite U, D, T.
Qed.

Lemma push_opcode_range n : 0 <= n → 0 <= push_opcode n <= op_num OP_PUSHDATA4.
Proof. intros. unfold push_opcode. cbn [op_num]. repeat case_match; lia. Qed.

(** A push of [<<] is minimal unless the data is a small number, for which
    there are opcodes. *)
Lemma CheckMinimalPush_push d : size d < 2 ^ 32 →
  CheckMinimalPush d (to_opcode (push_opcode (size d))) =
  Some (negb ((size d =? 1) && byte_at d 0 (λ b, (1 <=? b) && (b <=? 16) || (0x81 =? b)))).
Proof.
  intros Hs. assert (H0 : 0 <= size d) by apply Nat2Z.is_nonneg. pose proof (push_opcode_range (size d) H0) as Hr.
  unfold CheckMinimalPush. rewrite op_num_to_opcode.
  rewrite (proj2 (Z.leb_le 0 _)), (proj2 (Z.leb_le _ (op_num OP_PUSHDATA4))) by lia. cbn [andb negb]. f_equal.
  destruct d as [|c d]; [done|]. set (v := c :: d) in *. unfold byte_at, push_opcode.
  destruct (Z.eqb_spec (size v) 1) as [E|E]; cbn [andb negb].
  - assert (Hd : v !! 0%nat = Some c) by done. rewrite Hd, E.
    destruct ((1 <=? c) && (c <=? 16)); cbn [orb negb]; [done|]. by destruct (0x81 =? c).
  - change (op_num OP_PUSHDATA1) with 0x4c. change (op_num OP_PUSHDATA2) with 0x4d.
    destruct (Z.leb_spec (size v) 75), (Z.ltb_spec (size v) 0x4c); try lia.
    destruct (Z.leb_spec (size v) 255), (Z.leb_spec (size v) 0xff); try lia.
    destruct (Z.leb_spec (size v) 65535), (Z.leb_spec (size v) 0xffff); try lia.
Qed.

(** ** The loops end *)

Lemma IsPushOnly_total pc : is_Some (IsPushOnly pc).
Proof.
  apply wp_is_Some with (λ _, True). unfold IsPushOnly. apply (wp_loop_measure (λ _, True) length); [done|lia|].
  intros [|b l] _; [done|]. destruct (GetScriptOp (b :: l)) as [[[pc' o] d]|] eqn:E; [|done].
  apply GetScriptOp_shrinks in E as [E _]. by case_match.
Qed.

Lemma HasValidOps_total s : is_Some (HasValidOps s).
Proof.
  apply wp_is_Some with (λ _, True). unfold HasValidOps. apply (wp_loop_measure (λ _, True) length); [done|lia|].
  intros [|b l] _; [done|]. destruct (GetScriptOp (b :: l)) as [[[pc' o] d]|] eqn:E; [|done].
  apply GetScriptOp_shrinks in E as [E _]. by case_match.
Qed.

Lemma DecodeOP_N_range o : op_num OP_1 <= op_num o <= op_num OP_16 → ∃ k, DecodeOP_N o = Some k ∧ 1 <= k <= 16.
Proof.
  intros H. unfold DecodeOP_N. destruct (decide (o = OP_0)) as [->|]; [cbn [op_num] in H; lia|].
  rewrite (proj2 (Z.leb_le _ _)), (proj2 (Z.leb_le _ _)) by lia. eexists. split; [done|]. cbn [op_num] in *. lia.
Qed.

Lemma GetSigOpCount_total s acc : is_Some (GetSigOpCount s acc).
Proof.
  apply wp_is_Some with (λ _, True). unfold GetSigOpCount.
  apply (wp_loop_measure (λ _, True) (λ x, length x.1.1)); [done|simpl; lia|].
  intros [[[|b l] last] n] _; [done|]. destruct (GetScriptOp (b :: l)) as [[[pc' o] d]|] eqn:E; [|done].
  apply GetScriptOp_shrinks in E as [E _]. case_decide; [done|]. case_decide; [|done].
  destruct (acc && _ && _) eqn:Ea; [|done]. rewrite !andb_true_iff, !Z.leb_le in Ea.
  destruct (DecodeOP_N_range last) as (k & -> & _); [lia|done].
Qed.

Lemma GetSigOpCount_p2sh_total s sig : is_Some (GetSigOpCount_p2sh s sig).
Proof.
  unfold GetSigOpCount_p2sh. case_match; [apply GetSigOpCount_total|]. apply wp_is_Some with (λ _, True).
  eapply wp_then with (P := λ _, True).
  - apply (wp_loop_measure (λ _, True) (λ x, length x.1)); [done|simpl; lia|].
    intros [[|b l] v] _; [done|]. destruct (GetScriptOp (b :: l)) as [[[pc' o] d]|] eqn:E; [|done].
    apply GetScriptOp_shrinks in E as [E _]. by case_match.
  - intros [v|] _; [|done]. apply wp_exists. destruct (GetSigOpCount_total v true) as [n ->]. eauto.
Qed.

Lemma skip_occurrences_ok b pc n : b ≠ [] →
  wp (skip_occurrences b pc n) (λ r, n <= r.2 ∧ (length r.1 <= length pc)%nat).
Proof.
  intros Hb. unfold skip_occurrences.
  apply (wp_loop_measure (λ x, n <= x.2 ∧ (length x.1 <= length pc)%nat) (λ x, length x.1)); [simpl; lia|simpl; lia|].
  intros [q k] [H1 H2]. case_match eqn:E; [|done]. rewrite andb_true_iff, Nat.leb_le in E. cbn [wp fst snd] in *.
  rewrite length_drop. destruct b; [done|]. cbn [length] in *. lia.
Qed.

Lemma FindAndDelete_total s b : is_Some (FindAndDelete s b).
Proof.
  destruct b as [|c b]; [done|]. cbn [FindAndDelete]. set (v := c :: b). apply wp_is_Some with (λ _, True).
  eapply wp_then with (P := λ _, True); [|by intros [[]]].
  apply (wp_loop_measure (λ _, True) (λ x, length x.2)); [done|simpl; lia|].
  intros [[[n r] p2] p] _. eapply wp_then; [by apply skip_occurrences_ok|]. intros [q k] [_ Hq]. cbn [fst snd] in *.
  destruct (GetScriptOp q) as [[[q' o] d]|] eqn:E; [|done]. apply GetScriptOp_shrinks in E as [E _]. cbn [wp snd]. split; [done|lia].
Qed.

(** ** Theorems *)

(** Script numbers: reading with the minimality rule and writing are inverse
    to each other, for operands of up to eight bytes; a byte string is accepted as
    a number exactly if it is the encoding of that number. *)
Theorem script_numbers_canonical (v : list Z) (k : nat) (n : Z) :
  bytes v → (k <= 8)%nat →
  CScriptNum v true k = Some n ↔ - 2 ^ 63 < n < 2 ^ 63 ∧ serialize n = v ∧ (length v <= k)%nat.
Proof.
  intros Hv Hk. unfold CScriptNum. cbn [andb]. destruct (Nat.ltb_spec k (length v)) as [Hl|Hl]; [split; [done|lia]|].
  split.
  - case_match eqn:Hm; [done|]. rewrite negb_false_iff in Hm. intros [= <-].
    destruct (serialize_set_vch v Hv) as [H1 H2]; [lia|done|]. done.
  - intros (Hn & <- & _). destruct (set_vch_serialize n Hn) as (_ & -> & ->). done.
Qed.

(** Pushes: what [<<] appends, the instruction reader returns with the same
    data and the position after it; the opcode it used passes the minimality rule
    exactly for data other than the numbers that have opcodes of their own. *)
Theorem script_push_roundtrip (d rest : list Z) :
  size (d ++ rest) < 2 ^ 32 → ∃ o,
  GetScriptOp (push_data [] d ++ rest) = Some (rest, o, d) ∧ 0 <= op_num o <= op_num OP_PUSHDATA4 ∧
  (CheckMinimalPush d o = Some false ↔ ∃ b, d = [b] ∧ (1 <= b <= 16 ∨ b = 0x81)) ∧
  CheckMinimalPush d o ≠ None.
Proof.
  intros Hs. exists (to_opcode (push_opcode (size d))). split; [by apply GetScriptOp_push|].
  rewrite op_num_to_opcode. split; [apply push_opcode_range, Nat2Z.is_nonneg|].
  rewrite CheckMinimalPush_push by (unfold size in *; rewrite length_app in Hs; lia). split; [|done].
  split.
  - intros [= H]. rewrite negb_false_iff, andb_true_iff, Z.eqb_eq in H. destruct H as [H1 H2].
    destruct d as [|b [|? ?]]; unfold size in H1; cbn [length] in H1; [lia| |lia]. exists b. split; [done|].
    change (((1 <=? b) && (b <=? 16) || (0x81 =? b)) = true) in H2. rewrite orb_true_iff, andb_true_iff, !Z.leb_le, Z.eqb_eq in H2. lia.
  - intros (b & -> & Hb). f_equal. rewrite negb_false_iff. 
    change (((1 <=? b) && (b <=? 16) || (0x81 =? b)) = true).
    rewrite orb_true_iff, andb_true_iff, !Z.leb_le, Z.eqb_eq. lia.
Qed.

(** ** Instances *)

Lemma script_numbers_canonical_witness : CScriptNum [0; 0x81] true 4 = Some (-256) ∧ serialize (-256) = [0; 0x81].
Proof.
  split; [|reflexivity]. apply (script_numbers_canonical [0; 0x81] 4 (-256)); [repeat constructor; lia|lia|].
  split; [lia|]. split; [reflexivity|simpl; lia].
Defined.

Lemma script_push_roundtrip_witness : ∃ o, GetScriptOp (push_data [] [5; 6] ++ [0xb3]) = Some ([0xb3], o, [5; 6]).
Proof.
  destruct (script_push_roundtrip [5; 6] [0xb3]) as (o & H & _); [by vm_compute|]. exists o. exact H.
Defined.
