(* ===== verification/Node.v ===== *)
(** Foundations of the models of the node: results of functions that can fail,
    and the cryptographic primitives that the node takes from other libraries.

    A function that returns [false] with an error in [*serror] gives [SErr]; an
    exception is [Exn]; a failed assertion, undefined behaviour or an endless loop
    is [Crash]. *)
From S2P Require Import Prelude Serial QSig Script.

Open Scope Z_scope.

(** ** Results *)

Inductive ScriptError :=
  | SCRIPT_ERR_OK | SCRIPT_ERR_UNKNOWN_ERROR | SCRIPT_ERR_EVAL_FALSE | SCRIPT_ERR_OP_RETURN
  | SCRIPT_ERR_SCRIPT_SIZE | SCRIPT_ERR_PUSH_SIZE | SCRIPT_ERR_OP_COUNT | SCRIPT_ERR_STACK_SIZE
  | SCRIPT_ERR_SIG_COUNT | SCRIPT_ERR_PUBKEY_COUNT
  | SCRIPT_ERR_VERIFY | SCRIPT_ERR_EQUALVERIFY | SCRIPT_ERR_CHECKMULTISIGVERIFY | SCRIPT_ERR_CHECKSIGVERIFY
  | SCRIPT_ERR_NUMEQUALVERIFY
  | SCRIPT_ERR_BAD_OPCODE | SCRIPT_ERR_DISABLED_OPCODE | SCRIPT_ERR_INVALID_STACK_OPERATION
  | SCRIPT_ERR_INVALID_ALTSTACK_OPERATION | SCRIPT_ERR_UNBALANCED_CONDITIONAL
  | SCRIPT_ERR_NEGATIVE_LOCKTIME | SCRIPT_ERR_UNSATISFIED_LOCKTIME
  | SCRIPT_ERR_SIG_HASHTYPE | SCRIPT_ERR_SIG_DER | SCRIPT_ERR_MINIMALDATA | SCRIPT_ERR_SIG_PUSHONLY
  | SCRIPT_ERR_SIG_HIGH_S | SCRIPT_ERR_SIG_NULLDUMMY | SCRIPT_ERR_PUBKEYTYPE | SCRIPT_ERR_CLEANSTACK
  | SCRIPT_ERR_MINIMALIF | SCRIPT_ERR_SIG_NULLFAIL
  | SCRIPT_ERR_DISCOURAGE_UPGRADABLE_NOPS | SCRIPT_ERR_DISCOURAGE_UPGRADABLE_WITNESS_PROGRAM
  | SCRIPT_ERR_DISCOURAGE_UPGRADABLE_TAPROOT_VERSION | SCRIPT_ERR_DISCOURAGE_OP_SUCCESS
  | SCRIPT_ERR_DISCOURAGE_UPGRADABLE_PUBKEYTYPE
  | SCRIPT_ERR_WITNESS_PROGRAM_WRONG_LENGTH | SCRIPT_ERR_WITNESS_PROGRAM_WITNESS_EMPTY
  | SCRIPT_ERR_WITNESS_PROGRAM_MISMATCH | SCRIPT_ERR_WITNESS_MALLEATED | SCRIPT_ERR_WITNESS_MALLEATED_P2SH
  | SCRIPT_ERR_WITNESS_UNEXPECTED | SCRIPT_ERR_WITNESS_PUBKEYTYPE
  | SCRIPT_ERR_SCHNORR_SIG_SIZE | SCRIPT_ERR_SCHNORR_SIG_HASHTYPE | SCRIPT_ERR_SCHNORR_SIG
  | SCRIPT_ERR_TAPROOT_WRONG_CONTROL_SIZE | SCRIPT_ERR_TAPSCRIPT_VALIDATION_WEIGHT
  | SCRIPT_ERR_TAPSCRIPT_CHECKMULTISIG | SCRIPT_ERR_TAPSCRIPT_MINIMALIF
  | SCRIPT_ERR_OP_CODESEPARATOR | SCRIPT_ERR_SIG_FINDANDDELETE
  | SCRIPT_ERR_QUANTUM_SIG_VERIFICATION | SCRIPT_ERR_QUANTUM_WRONG_KEY_TYPE
  | SCRIPT_ERR_ERROR_COUNT.

Inductive outcome (A : Type) : Type :=
  | Ok (a : A)
  | SErr (e : ScriptError)
  | Exn
  | Crash.
Arguments Ok {A} a.
Arguments SErr {A} e.
Arguments Exn {A}.
Arguments Crash {A}.

#[export] Instance outcome_bind : MBind outcome := λ A B f m,
  match m with Ok a => f a | SErr e => SErr e | Exn => Exn | Crash => Crash end.
#[export] Instance outcome_ret : MRet outcome := λ A a, Ok a.

(** A partial computation that is undefined behaviour where it is [None], and
    one that throws. *)
Definition or_crash {A} (m : option A) : outcome A := match m with Some a => Ok a | None => Crash end.
Definition or_throw {A} (m : option A) : outcome A := match m with Some a => Ok a | None => Exn end.

(** Loops whose body may fail. *)
Fixpoint oloop {S R : Type} (fuel : nat) (body : S → outcome (ctl S R)) (s : S) : outcome R :=
  match fuel with
  | O => Crash
  | Datatypes.S fuel =>
      c ← body s;
      match c with Next s => oloop fuel body s | Done r => Ok r end
  end.

(** [safe m Q]: no crash, and a returned value satisfies [Q]. *)
Definition safe {A} (m : outcome A) (Q : A → Prop) : Prop :=
  match m with Ok a => Q a | SErr _ | Exn => True | Crash => False end.

Lemma safe_mono {A} (m : outcome A) (P Q : A → Prop) : safe m P → (∀ a, P a → Q a) → safe m Q.
Proof. destruct m; simpl; auto. Qed.

Lemma safe_bind {A B} (m : outcome A) (f : A → outcome B) P Q :
  safe m P → (∀ a, P a → safe (f a) Q) → safe (m ≫= f) Q.
Proof. destruct m; simpl; auto. Qed.

Lemma safe_crash {A} (m : option A) P : wp m P → safe (or_crash m) P.
Proof. by destruct m. Qed.

Lemma safe_throw {A} (m : option A) (P : A → Prop) : (∀ a, m = Some a → P a) → safe (or_throw m) P.
Proof. destruct m; simpl; auto. Qed.

(** A loop with a measure is safe. *)
Lemma safe_oloop {S R : Type} (I : S → Prop) (m : S → nat) (Q : R → Prop) body fuel (s : S) :
  I s → (m s < fuel)%nat →
  (∀ s, I s → safe (body s) (λ c, match c with Next s' => I s' ∧ (m s' < m s)%nat | Done r => Q r end)) →
  safe (oloop fuel body s) Q.
Proof.
  intros Hi Hm Hb. revert s Hi Hm. induction fuel as [|fuel IH]; intros s Hi Hm; [lia|]. cbn [oloop].
  eapply safe_bind; [by apply Hb|]. intros [s'|r]; [|done]. intros [Hs' Hlt]. apply IH; [done|lia].
Qed.

(** [yields m Q]: a value that satisfies [Q] or a script error; neither a crash nor an
    exception. *)
Definition yields {A} (m : outcome A) (Q : A → Prop) : Prop :=
  match m with Ok a => Q a | SErr _ => True | Exn | Crash => False end.

Lemma yields_bind {A B} (m : outcome A) (f : A → outcome B) P Q :
  yields m P → (∀ a, P a → yields (f a) Q) → yields (m ≫= f) Q.
Proof. destruct m; simpl; auto. Qed.

Lemma yields_crash {A} (m : option A) P : wp m P → yields (or_crash m) P.
Proof. by destruct m. Qed.

Lemma yields_if {A} (b : bool) (m1 m2 : outcome A) Q : (b = true → yields m1 Q) → (b = false → yields m2 Q) → yields (if b then m1 else m2) Q.
Proof. destruct b; auto. Qed.

Lemma yields_byte (v : list Z) k Q : (k < length v)%nat → (∀ b, v !! k = Some b → Q b) → yields (or_crash (v !! k)) Q.
Proof. intros [b E]%lookup_lt_is_Some_2 H. rewrite E. by apply H. Qed.

Lemma yields_oloop {S R : Type} (I : S → Prop) (m : S → nat) (Q : R → Prop) body fuel (s : S) :
  I s → (m s < fuel)%nat →
  (∀ s, I s → yields (body s) (λ c, match c with Next s' => I s' ∧ (m s' < m s)%nat | Done r => Q r end)) →
  yields (oloop fuel body s) Q.
Proof.
  intros Hi Hm Hb. revert s Hi Hm. induction fuel as [|fuel IH]; intros s Hi Hm; [lia|]. cbn [oloop].
  eapply yields_bind; [by apply Hb|]. intros [s'|r]; [|done]. intros [Hs' Hlt]. apply IH; [done|lia].
Qed.

(** ** Primitives *)

(** The hash functions of the node's crypto directory and functions that end in
    the elliptic-curve library: the low-S rule, the Taproot commitment and the
    verification of an ECDSA or a Schnorr signature on a hash (public key, hash,
    signature). *)
Class NodeCrypto := {
  CRIPEMD160 : list Z → list Z;
  CSHA1 : list Z → list Z;
  CSHA256 : list Z → list Z;
  CheckLowS : list Z → bool;
  CheckTapTweak : list Z → list Z → list Z → bool → bool;
  CPubKey_Verify : list Z → list Z → list Z → bool;
  VerifySchnorr : list Z → list Z → list Z → bool;
}.

(** Digests are byte strings of their sizes. *)
Class NodeCryptoLaws (C : NodeCrypto) : Prop := {
  length_CRIPEMD160 x : length (CRIPEMD160 x) = 20%nat;
  length_CSHA1 x : length (CSHA1 x) = 20%nat;
  length_CSHA256 x : length (CSHA256 x) = 32%nat;
  CRIPEMD160_bytes x : bytes (CRIPEMD160 x);
  CSHA1_bytes x : bytes (CSHA1 x);
  CSHA256_bytes x : bytes (CSHA256 x);
}.

(** [CHash160], [CHash256] and [TaggedHash] (hash.h, hash.cpp); the latter as a
    function of what is written to the writer it returns. *)
Definition CHash160 `{NodeCrypto} (x : list Z) : list Z := CRIPEMD160 (CSHA256 x).
Definition CHash256 `{NodeCrypto} (x : list Z) : list Z := CSHA256 (CSHA256 x).
Definition TaggedHash `{NodeCrypto} (tag x : list Z) : list Z :=
  let taghash := CSHA256 tag in CSHA256 (taghash ++ taghash ++ x).

(** ** Elliptic-curve public keys (pubkey.h)

    An object is the bytes from [begin()] to [end()]; the invalid key has none. *)

Definition COMPRESSED_SIZE : Z := 33.
Definition PUBKEY_SIZE : Z := 65.

Definition GetLen (chHeader : Z) : Z :=
  if (chHeader =? 2) || (chHeader =? 3) then COMPRESSED_SIZE
  else if (chHeader =? 4) || (chHeader =? 6) || (chHeader =? 7) then PUBKEY_SIZE
  else 0.

Definition CPubKey_ValidSize (v : list Z) : bool := (0 <? size v) && byte_at v 0 (λ b, GetLen b =? size v).

Definition CPubKey_Set (v : list Z) : list Z :=
  let len := match v with [] => 0 | b :: _ => GetLen b end in
  if negb (len =? 0) && (len =? size v) then v else [].

Definition CPubKey_IsValid (v : list Z) : bool :=
  0 <? match v with [] => 0 | b :: _ => GetLen b end.

(** An instance for examples: digests of ones, and an elliptic-curve library
    that accepts nothing. *)
Definition test_crypto : NodeCrypto := {|
  CRIPEMD160 _ := replicate 20 1;
  CSHA1 _ := replicate 20 1;
  CSHA256 _ := replicate 32 1;
  CheckLowS _ := false;
  CheckTapTweak _ _ _ _ := false;
  CPubKey_Verify _ _ _ := false;
  VerifySchnorr _ _ _ := false;
|}.
Lemma ones_bytes n : bytes (replicate n 1).
Proof. apply Forall_replicate. unfold in_u8. lia. Qed.
#[export] Instance test_crypto_laws : NodeCryptoLaws test_crypto.
Proof. split; intros; cbn [test_crypto CRIPEMD160 CSHA1 CSHA256]; first [apply length_replicate|apply ones_bytes]. Qed.
