(* ===== verification/NodeHash.v ===== *)
(** The hash functions of the node: SHA-256, SHA-1 and RIPEMD-160
    (crypto/sha256.cpp, sha1.cpp, ripemd160.cpp) with the integer codecs of
    crypto/common.h, and the hashers built on them (hash.h, hash.cpp).

    The three classes have the same members, one record here: the chaining value,
    the buffer, which the constructors leave uninitialised, and the number of
    bytes.  The unrolled transformations are written as the code has them, an
    assignment being a new binding of the same name (of a schedule word, in the monad:
    the value is shared by the terms that use it); [Transform] of SHA-256 is the
    portable function that the pointer of that name is initialised with. *)
From S2P Require Import Prelude Node.

Open Scope c_scope.
Open Scope Z_scope.

(** ** Codecs *)

Definition ReadBE32 (ptr : list Z) (off : nat) : option Z := x ← read ptr off 4; Some (be_val x).
Definition ReadLE32 (ptr : list Z) (off : nat) : option Z := x ← read ptr off 4; Some (le_val x).
Definition ReadLE64 (ptr : list Z) (off : nat) : option Z := x ← read ptr off 8; Some (le_val x).
(** The bytes written. *)
Definition WriteBE32 (x : Z) : list Z := be_bytes 4 x.
Definition WriteBE64 (x : Z) : list Z := be_bytes 8 x.
Definition WriteLE32 (x : Z) : list Z := le_bytes 4 x.
Definition WriteLE64 (x : Z) : list Z := le_bytes 8 x.

(** ** SHA-256 *)

Definition sha256_Ch (x y z : Z) : Z := z ⊻ (x & (y ⊻ z)).
Definition sha256_Maj (x y z : Z) : Z := Z.lor (x & y) (z & (Z.lor x y)).
Definition sha256_Sigma0 (x : Z) : Z := Z.lor (x >> 2) (x <<₃₂ 30) ⊻ Z.lor (x >> 13) (x <<₃₂ 19) ⊻ Z.lor (x >> 22) (x <<₃₂ 10).
Definition sha256_Sigma1 (x : Z) : Z := Z.lor (x >> 6) (x <<₃₂ 26) ⊻ Z.lor (x >> 11) (x <<₃₂ 21) ⊻ Z.lor (x >> 25) (x <<₃₂ 7).
Definition sha256_sigma0 (x : Z) : Z := Z.lor (x >> 7) (x <<₃₂ 25) ⊻ Z.lor (x >> 18) (x <<₃₂ 14) ⊻ (x >> 3).
Definition sha256_sigma1 (x : Z) : Z := Z.lor (x >> 17) (x <<₃₂ 15) ⊻ Z.lor (x >> 19) (x <<₃₂ 13) ⊻ (x >> 10).

(** The new values of [d] and [h]. *)
Definition sha256_Round (a b c d e f g h k : Z) : Z * Z :=
  let t1 := u32 (h + sha256_Sigma1 e + sha256_Ch e f g + k) in
  let t2 := u32 (sha256_Sigma0 a + sha256_Maj a b c) in
  let d := d +₃₂ t1 in
  let h := t1 +₃₂ t2 in
  (d, h).

Definition sha256_Initialize : list Z :=
  [0x6a09e667; 0xbb67ae85; 0x3c6ef372; 0xa54ff53a; 0x510e527f; 0x9b05688c; 0x1f83d9ab; 0x5be0cd19].

(** The body of the loop of [Transform]. *)
Definition sha256_Transform1 (s chunk : list Z) : option (list Z) :=
  match s with
  | [s0; s1; s2; s3; s4; s5; s6; s7] =>
  let '(a, b, c, d, e, f, g, h) := (s0, s1, s2, s3, s4, s5, s6, s7) in
  w0 ← ReadBE32 chunk 0;
  let '(d, h) := sha256_Round a b c d e f g h (0x428a2f98 +₃₂ w0) in
  w1 ← ReadBE32 chunk 4;
  let '(c, g) := sha256_Round h a b c d e f g (0x71374491 +₃₂ w1) in
  w2 ← ReadBE32 chunk 8;
  let '(b, f) := sha256_Round g h a b c d e f (0xb5c0fbcf +₃₂ w2) in
  w3 ← ReadBE32 chunk 12;
  let '(a, e) := sha256_Round f g h a b c d e (0xe9b5dba5 +₃₂ w3) in
  w4 ← ReadBE32 chunk 16;
  let '(h, d) := sha256_Round e f g h a b c d (0x3956c25b +₃₂ w4) in
  w5 ← ReadBE32 chunk 20;
  let '(g, c) := sha256_Round d e f g h a b c (0x59f111f1 +₃₂ w5) in
  w6 ← ReadBE32 chunk 24;
  let '(f, b) := sha256_Round c d e f g h a b (0x923f82a4 +₃₂ w6) in
  w7 ← ReadBE32 chunk 28;
  let '(e, a) := sha256_Round b c d e f g h a (0xab1c5ed5 +₃₂ w7) in
  w8 ← ReadBE32 chunk 32;
  let '(d, h) := sha256_Round a b c d e f g h (0xd807aa98 +₃₂ w8) in
  w9 ← ReadBE32 chunk 36;
  let '(c, g) := sha256_Round h a b c d e f g (0x12835b01 +₃₂ w9) in
  w10 ← ReadBE32 chunk 40;
  let '(b, f) := sha256_Round g h a b c d e f (0x243185be +₃₂ w10) in
  w11 ← ReadBE32 chunk 44;
  let '(a, e) := sha256_Round f g h a b c d e (0x550c7dc3 +₃₂ w11) in
  w12 ← ReadBE32 chunk 48;
  let '(h, d) := sha256_Round e f g h a b c d (0x72be5d74 +₃₂ w12) in
  w13 ← ReadBE32 chunk 52;
  let '(g, c) := sha256_Round d e f g h a b c (0x80deb1fe +₃₂ w13) in
  w14 ← ReadBE32 chunk 56;
  let '(f, b) := sha256_Round c d e f g h a b (0x9bdc06a7 +₃₂ w14) in
  w15 ← ReadBE32 chunk 60;
  let '(e, a) := sha256_Round b c d e f g h a (0xc19bf174 +₃₂ w15) in

  w0 ← Some (w0 +₃₂ (sha256_sigma1 w14 + w9 + sha256_sigma0 w1));
  let '(d, h) := sha256_Round a b c d e f g h (0xe49b69c1 +₃₂ w0) in
  w1 ← Some (w1 +₃₂ (sha256_sigma1 w15 + w10 + sha256_sigma0 w2));
  let '(c, g) := sha256_Round h a b c d e f g (0xefbe4786 +₃₂ w1) in
  w2 ← Some (w2 +₃₂ (sha256_sigma1 w0 + w11 + sha256_sigma0 w3));
  let '(b, f) := sha256_Round g h a b c d e f (0x0fc19dc6 +₃₂ w2) in
  w3 ← Some (w3 +₃₂ (sha256_sigma1 w1 + w12 + sha256_sigma0 w4));
  let '(a, e) := sha256_Round f g h a b c d e (0x240ca1cc +₃₂ w3) in
  w4 ← Some (w4 +₃₂ (sha256_sigma1 w2 + w13 + sha256_sigma0 w5));
  let '(h, d) := sha256_Round e f g h a b c d (0x2de92c6f +₃₂ w4) in
  w5 ← Some (w5 +₃₂ (sha256_sigma1 w3 + w14 + sha256_sigma0 w6));
  let '(g, c) := sha256_Round d e f g h a b c (0x4a7484aa +₃₂ w5) in
  w6 ← Some (w6 +₃₂ (sha256_sigma1 w4 + w15 + sha256_sigma0 w7));
  let '(f, b) := sha256_Round c d e f g h a b (0x5cb0a9dc +₃₂ w6) in
  w7 ← Some (w7 +₃₂ (sha256_sigma1 w5 + w0 + sha256_sigma0 w8));
  let '(e, a) := sha256_Round b c d e f g h a (0x76f988da +₃₂ w7) in
  w8 ← Some (w8 +₃₂ (sha256_sigma1 w6 + w1 + sha256_sigma0 w9));
  let '(d, h) := sha256_Round a b c d e f g h (0x983e5152 +₃₂ w8) in
  w9 ← Some (w9 +₃₂ (sha256_sigma1 w7 + w2 + sha256_sigma0 w10));
  let '(c, g) := sha256_Round h a b c d e f g (0xa831c66d +₃₂ w9) in
  w10 ← Some (w10 +₃₂ (sha256_sigma1 w8 + w3 + sha256_sigma0 w11));
  let '(b, f) := sha256_Round g h a b c d e f (0xb00327c8 +₃₂ w10) in
  w11 ← Some (w11 +₃₂ (sha256_sigma1 w9 + w4 + sha256_sigma0 w12));
  let '(a, e) := sha256_Round f g h a b c d e (0xbf597fc7 +₃₂ w11) in
  w12 ← Some (w12 +₃₂ (sha256_sigma1 w10 + w5 + sha256_sigma0 w13));
  let '(h, d) := sha256_Round e f g h a b c d (0xc6e00bf3 +₃₂ w12) in
  w13 ← Some (w13 +₃₂ (sha256_sigma1 w11 + w6 + sha256_sigma0 w14));
  let '(g, c) := sha256_Round d e f g h a b c (0xd5a79147 +₃₂ w13) in
  w14 ← Some (w14 +₃₂ (sha256_sigma1 w12 + w7 + sha256_sigma0 w15));
  let '(f, b) := sha256_Round c d e f g h a b (0x06ca6351 +₃₂ w14) in
  w15 ← Some (w15 +₃₂ (sha256_sigma1 w13 + w8 + sha256_sigma0 w0));
  let '(e, a) := sha256_Round b c d e f g h a (0x14292967 +₃₂ w15) in

  w0 ← Some (w0 +₃₂ (sha256_sigma1 w14 + w9 + sha256_sigma0 w1));
  let '(d, h) := sha256_Round a b c d e f g h (0x27b70a85 +₃₂ w0) in
  w1 ← Some (w1 +₃₂ (sha256_sigma1 w15 + w10 + sha256_sigma0 w2));
  let '(c, g) := sha256_Round h a b c d e f g (0x2e1b2138 +₃₂ w1) in
  w2 ← Some (w2 +₃₂ (sha256_sigma1 w0 + w11 + sha256_sigma0 w3));
  let '(b, f) := sha256_Round g h a b c d e f (0x4d2c6dfc +₃₂ w2) in
  w3 ← Some (w3 +₃₂ (sha256_sigma1 w1 + w12 + sha256_sigma0 w4));
  let '(a, e) := sha256_Round f g h a b c d e (0x53380d13 +₃₂ w3) in
  w4 ← Some (w4 +₃₂ (sha256_sigma1 w2 + w13 + sha256_sigma0 w5));
  let '(h, d) := sha256_Round e f g h a b c d (0x650a7354 +₃₂ w4) in
  w5 ← Some (w5 +₃₂ (sha256_sigma1 w3 + w14 + sha256_sigma0 w6));
  let '(g, c) := sha256_Round d e f g h a b c (0x766a0abb +₃₂ w5) in
  w6 ← Some (w6 +₃₂ (sha256_sigma1 w4 + w15 + sha256_sigma0 w7));
  let '(f, b) := sha256_Round c d e f g h a b (0x81c2c92e +₃₂ w6) in
  w7 ← Some (w7 +₃₂ (sha256_sigma1 w5 + w0 + sha256_sigma0 w8));
  let '(e, a) := sha256_Round b c d e f g h a (0x92722c85 +₃₂ w7) in
  w8 ← Some (w8 +₃₂ (sha256_sigma1 w6 + w1 + sha256_sigma0 w9));
  let '(d, h) := sha256_Round a b c d e f g h (0xa2bfe8a1 +₃₂ w8) in
  w9 ← Some (w9 +₃₂ (sha256_sigma1 w7 + w2 + sha256_sigma0 w10));
  let '(c, g) := sha256_Round h a b c d e f g (0xa81a664b +₃₂ w9) in
  w10 ← Some (w10 +₃₂ (sha256_sigma1 w8 + w3 + sha256_sigma0 w11));
  let '(b, f) := sha256_Round g h a b c d e f (0xc24b8b70 +₃₂ w10) in
  w11 ← Some (w11 +₃₂ (sha256_sigma1 w9 + w4 + sha256_sigma0 w12));
  let '(a, e) := sha256_Round f g h a b c d e (0xc76c51a3 +₃₂ w11) in
  w12 ← Some (w12 +₃₂ (sha256_sigma1 w10 + w5 + sha256_sigma0 w13));
  let '(h, d) := sha256_Round e f g h a b c d (0xd192e819 +₃₂ w12) in
  w13 ← Some (w13 +₃₂ (sha256_sigma1 w11 + w6 + sha256_sigma0 w14));
  let '(g, c) := sha256_Round d e f g h a b c (0xd6990624 +₃₂ w13) in
  w14 ← Some (w14 +₃₂ (sha256_sigma1 w12 + w7 + sha256_sigma0 w15));
  let '(f, b) := sha256_Round c d e f g h a b (0xf40e3585 +₃₂ w14) in
  w15 ← Some (w15 +₃₂ (sha256_sigma1 w13 + w8 + sha256_sigma0 w0));
  let '(e, a) := sha256_Round b c d e f g h a (0x106aa070 +₃₂ w15) in

  w0 ← Some (w0 +₃₂ (sha256_sigma1 w14 + w9 + sha256_sigma0 w1));
  let '(d, h) := sha256_Round a b c d e f g h (0x19a4c116 +₃₂ w0) in
  w1 ← Some (w1 +₃₂ (sha256_sigma1 w15 + w10 + sha256_sigma0 w2));
  let '(c, g) := sha256_Round h a b c d e f g (0x1e376c08 +₃₂ w1) in
  w2 ← Some (w2 +₃₂ (sha256_sigma1 w0 + w11 + sha256_sigma0 w3));
  let '(b, f) := sha256_Round g h a b c d e f (0x2748774c +₃₂ w2) in
  w3 ← Some (w3 +₃₂ (sha256_sigma1 w1 + w12 + sha256_sigma0 w4));
  let '(a, e) := sha256_Round f g h a b c d e (0x34b0bcb5 +₃₂ w3) in
  w4 ← Some (w4 +₃₂ (sha256_sigma1 w2 + w13 + sha256_sigma0 w5));
  let '(h, d) := sha256_Round e f g h a b c d (0x391c0cb3 +₃₂ w4) in
  w5 ← Some (w5 +₃₂ (sha256_sigma1 w3 + w14 + sha256_sigma0 w6));
  let '(g, c) := sha256_Round d e f g h a b c (0x4ed8aa4a +₃₂ w5) in
  w6 ← Some (w6 +₃₂ (sha256_sigma1 w4 + w15 + sha256_sigma0 w7));
  let '(f, b) := sha256_Round c d e f g h a b (0x5b9cca4f +₃₂ w6) in
  w7 ← Some (w7 +₃₂ (sha256_sigma1 w5 + w0 + sha256_sigma0 w8));
  let '(e, a) := sha256_Round b c d e f g h a (0x682e6ff3 +₃₂ w7) in
  w8 ← Some (w8 +₃₂ (sha256_sigma1 w6 + w1 + sha256_sigma0 w9));
  let '(d, h) := sha256_Round a b c d e f g h (0x748f82ee +₃₂ w8) in
  w9 ← Some (w9 +₃₂ (sha256_sigma1 w7 + w2 + sha256_sigma0 w10));
  let '(c, g) := sha256_Round h a b c d e f g (0x78a5636f +₃₂ w9) in
  w10 ← Some (w10 +₃₂ (sha256_sigma1 w8 + w3 + sha256_sigma0 w11));
  let '(b, f) := sha256_Round g h a b c d e f (0x84c87814 +₃₂ w10) in
  w11 ← Some (w11 +₃₂ (sha256_sigma1 w9 + w4 + sha256_sigma0 w12));
  let '(a, e) := sha256_Round f g h a b c d e (0x8cc70208 +₃₂ w11) in
  w12 ← Some (w12 +₃₂ (sha256_sigma1 w10 + w5 + sha256_sigma0 w13));
  let '(h, d) := sha256_Round e f g h a b c d (0x90befffa +₃₂ w12) in
  w13 ← Some (w13 +₃₂ (sha256_sigma1 w11 + w6 + sha256_sigma0 w14));
  let '(g, c) := sha256_Round d e f g h a b c (0xa4506ceb +₃₂ w13) in
  let '(f, b) := sha256_Round c d e f g h a b (0xbef9a3f7 +₃₂ (w14 + sha256_sigma1 w12 + w7 + sha256_sigma0 w15)) in
  let '(e, a) := sha256_Round b c d e f g h a (0xc67178f2 +₃₂ (w15 + sha256_sigma1 w13 + w8 + sha256_sigma0 w0)) in

  Some [s0 +₃₂ a; s1 +₃₂ b; s2 +₃₂ c; s3 +₃₂ d; s4 +₃₂ e; s5 +₃₂ f; s6 +₃₂ g; s7 +₃₂ h]
  | _ => None
  end.

Definition sha256_Transform (s chunk : list Z) (blocks : nat) : option (list Z) :=
  for_loop blocks 0 (λ i s, sha256_Transform1 s (drop (64 * i) chunk)) s.

(** ** SHA-1 *)

(** The new values of [b] and [e]. *)
Definition sha1_Round (a b c d e f k w : Z) : Z * Z :=
  let e := e +₃₂ (Z.lor (a <<₃₂ 5) (a >> 27) + f + k + w) in
  let b := Z.lor (b <<₃₂ 30) (b >> 2) in
  (b, e).

Definition sha1_f1 (b c d : Z) : Z := d ⊻ (b & (c ⊻ d)).
Definition sha1_f2 (b c d : Z) : Z := b ⊻ c ⊻ d.
Definition sha1_f3 (b c d : Z) : Z := Z.lor (b & c) (d & (Z.lor b c)).

Definition sha1_left (x : Z) : Z := Z.lor (x <<₃₂ 1) (x >> 31).

Definition sha1_Initialize : list Z := [0x67452301; 0xEFCDAB89; 0x98BADCFE; 0x10325476; 0xC3D2E1F0].

Definition sha1_k1 : Z := 0x5A827999.
Definition sha1_k2 : Z := 0x6ED9EBA1.
Definition sha1_k3 : Z := 0x8F1BBCDC.
Definition sha1_k4 : Z := 0xCA62C1D6.

Definition sha1_Transform (s chunk : list Z) : option (list Z) :=
  match s with
  | [s0; s1; s2; s3; s4] =>
  let '(a, b, c, d, e) := (s0, s1, s2, s3, s4) in
  w0 ← ReadBE32 chunk 0;
  let '(b, e) := sha1_Round a b c d e (sha1_f1 b c d) sha1_k1 w0 in
  w1 ← ReadBE32 chunk 4;
  let '(a, d) := sha1_Round e a b c d (sha1_f1 a b c) sha1_k1 w1 in
  w2 ← ReadBE32 chunk 8;
  let '(e, c) := sha1_Round d e a b c (sha1_f1 e a b) sha1_k1 w2 in
  w3 ← ReadBE32 chunk 12;
  let '(d, b) := sha1_Round c d e a b (sha1_f1 d e a) sha1_k1 w3 in
  w4 ← ReadBE32 chunk 16;
  let '(c, a) := sha1_Round b c d e a (sha1_f1 c d e) sha1_k1 w4 in
  w5 ← ReadBE32 chunk 20;
  let '(b, e) := sha1_Round a b c d e (sha1_f1 b c d) sha1_k1 w5 in
  w6 ← ReadBE32 chunk 24;
  let '(a, d) := sha1_Round e a b c d (sha1_f1 a b c) sha1_k1 w6 in
  w7 ← ReadBE32 chunk 28;
  let '(e, c) := sha1_Round d e a b c (sha1_f1 e a b) sha1_k1 w7 in
  w8 ← ReadBE32 chunk 32;
  let '(d, b) := sha1_Round c d e a b (sha1_f1 d e a) sha1_k1 w8 in
  w9 ← ReadBE32 chunk 36;
  let '(c, a) := sha1_Round b c d e a (sha1_f1 c d e) sha1_k1 w9 in
  w10 ← ReadBE32 chunk 40;
  let '(b, e) := sha1_Round a b c d e (sha1_f1 b c d) sha1_k1 w10 in
  w11 ← ReadBE32 chunk 44;
  let '(a, d) := sha1_Round e a b c d (sha1_f1 a b c) sha1_k1 w11 in
  w12 ← ReadBE32 chunk 48;
  let '(e, c) := sha1_Round d e a b c (sha1_f1 e a b) sha1_k1 w12 in
  w13 ← ReadBE32 chunk 52;
  let '(d, b) := sha1_Round c d e a b (sha1_f1 d e a) sha1_k1 w13 in
  w14 ← ReadBE32 chunk 56;
  let '(c, a) := sha1_Round b c d e a (sha1_f1 c d e) sha1_k1 w14 in
  w15 ← ReadBE32 chunk 60;
  let '(b, e) := sha1_Round a b c d e (sha1_f1 b c d) sha1_k1 w15 in

  w0 ← Some (sha1_left (w0 ⊻ w13 ⊻ w8 ⊻ w2));
  let '(a, d) := sha1_Round e a b c d (sha1_f1 a b c) sha1_k1 w0 in
  w1 ← Some (sha1_left (w1 ⊻ w14 ⊻ w9 ⊻ w3));
  let '(e, c) := sha1_Round d e a b c (sha1_f1 e a b) sha1_k1 w1 in
  w2 ← Some (sha1_left (w2 ⊻ w15 ⊻ w10 ⊻ w4));
  let '(d, b) := sha1_Round c d e a b (sha1_f1 d e a) sha1_k1 w2 in
  w3 ← Some (sha1_left (w3 ⊻ w0 ⊻ w11 ⊻ w5));
  let '(c, a) := sha1_Round b c d e a (sha1_f1 c d e) sha1_k1 w3 in
  w4 ← Some (sha1_left (w4 ⊻ w1 ⊻ w12 ⊻ w6));
  let '(b, e) := sha1_Round a b c d e (sha1_f2 b c d) sha1_k2 w4 in
  w5 ← Some (sha1_left (w5 ⊻ w2 ⊻ w13 ⊻ w7));
  let '(a, d) := sha1_Round e a b c d (sha1_f2 a b c) sha1_k2 w5 in
  w6 ← Some (sha1_left (w6 ⊻ w3 ⊻ w14 ⊻ w8));
  let '(e, c) := sha1_Round d e a b c (sha1_f2 e a b) sha1_k2 w6 in
  w7 ← Some (sha1_left (w7 ⊻ w4 ⊻ w15 ⊻ w9));
  let '(d, b) := sha1_Round c d e a b (sha1_f2 d e a) sha1_k2 w7 in
  w8 ← Some (sha1_left (w8 ⊻ w5 ⊻ w0 ⊻ w10));
  let '(c, a) := sha1_Round b c d e a (sha1_f2 c d e) sha1_k2 w8 in
  w9 ← Some (sha1_left (w9 ⊻ w6 ⊻ w1 ⊻ w11));
  let '(b, e) := sha1_Round a b c d e (sha1_f2 b c d) sha1_k2 w9 in
  w10 ← Some (sha1_left (w10 ⊻ w7 ⊻ w2 ⊻ w12));
  let '(a, d) := sha1_Round e a b c d (sha1_f2 a b c) sha1_k2 w10 in
  w11 ← Some (sha1_left (w11 ⊻ w8 ⊻ w3 ⊻ w13));
  let '(e, c) := sha1_Round d e a b c (sha1_f2 e a b) sha1_k2 w11 in
  w12 ← Some (sha1_left (w12 ⊻ w9 ⊻ w4 ⊻ w14));
  let '(d, b) := sha1_Round c d e a b (sha1_f2 d e a) sha1_k2 w12 in
  w13 ← Some (sha1_left (w13 ⊻ w10 ⊻ w5 ⊻ w15));
  let '(c, a) := sha1_Round b c d e a (sha1_f2 c d e) sha1_k2 w13 in
  w14 ← Some (sha1_left (w14 ⊻ w11 ⊻ w6 ⊻ w0));
  let '(b, e) := sha1_Round a b c d e (sha1_f2 b c d) sha1_k2 w14 in
  w15 ← Some (sha1_left (w15 ⊻ w12 ⊻ w7 ⊻ w1));
  let '(a, d) := sha1_Round e a b c d (sha1_f2 a b c) sha1_k2 w15 in

  w0 ← Some (sha1_left (w0 ⊻ w13 ⊻ w8 ⊻ w2));
  let '(e, c) := sha1_Round d e a b c (sha1_f2 e a b) sha1_k2 w0 in
  w1 ← Some (sha1_left (w1 ⊻ w14 ⊻ w9 ⊻ w3));
  let '(d, b) := sha1_Round c d e a b (sha1_f2 d e a) sha1_k2 w1 in
  w2 ← Some (sha1_left (w2 ⊻ w15 ⊻ w10 ⊻ w4));
  let '(c, a) := sha1_Round b c d e a (sha1_f2 c d e) sha1_k2 w2 in
  w3 ← Some (sha1_left (w3 ⊻ w0 ⊻ w11 ⊻ w5));
  let '(b, e) := sha1_Round a b c d e (sha1_f2 b c d) sha1_k2 w3 in
  w4 ← Some (sha1_left (w4 ⊻ w1 ⊻ w12 ⊻ w6));
  let '(a, d) := sha1_Round e a b c d (sha1_f2 a b c) sha1_k2 w4 in
  w5 ← Some (sha1_left (w5 ⊻ w2 ⊻ w13 ⊻ w7));
  let '(e, c) := sha1_Round d e a b c (sha1_f2 e a b) sha1_k2 w5 in
  w6 ← Some (sha1_left (w6 ⊻ w3 ⊻ w14 ⊻ w8));
  let '(d, b) := sha1_Round c d e a b (sha1_f2 d e a) sha1_k2 w6 in
  w7 ← Some (sha1_left (w7 ⊻ w4 ⊻ w15 ⊻ w9));
  let '(c, a) := sha1_Round b c d e a (sha1_f2 c d e) sha1_k2 w7 in
  w8 ← Some (sha1_left (w8 ⊻ w5 ⊻ w0 ⊻ w10));
  let '(b, e) := sha1_Round a b c d e (sha1_f3 b c d) sha1_k3 w8 in
  w9 ← Some (sha1_left (w9 ⊻ w6 ⊻ w1 ⊻ w11));
  let '(a, d) := sha1_Round e a b c d (sha1_f3 a b c) sha1_k3 w9 in
  w10 ← Some (sha1_left (w10 ⊻ w7 ⊻ w2 ⊻ w12));
  let '(e, c) := sha1_Round d e a b c (sha1_f3 e a b) sha1_k3 w10 in
  w11 ← Some (sha1_left (w11 ⊻ w8 ⊻ w3 ⊻ w13));
  let '(d, b) := sha1_Round c d e a b (sha1_f3 d e a) sha1_k3 w11 in
  w12 ← Some (sha1_left (w12 ⊻ w9 ⊻ w4 ⊻ w14));
  let '(c, a) := sha1_Round b c d e a (sha1_f3 c d e) sha1_k3 w12 in
  w13 ← Some (sha1_left (w13 ⊻ w10 ⊻ w5 ⊻ w15));
  let '(b, e) := sha1_Round a b c d e (sha1_f3 b c d) sha1_k3 w13 in
  w14 ← Some (sha1_left (w14 ⊻ w11 ⊻ w6 ⊻ w0));
  let '(a, d) := sha1_Round e a b c d (sha1_f3 a b c) sha1_k3 w14 in
  w15 ← Some (sha1_left (w15 ⊻ w12 ⊻ w7 ⊻ w1));
  let '(e, c) := sha1_Round d e a b c (sha1_f3 e a b) sha1_k3 w15 in

  w0 ← Some (sha1_left (w0 ⊻ w13 ⊻ w8 ⊻ w2));
  let '(d, b) := sha1_Round c d e a b (sha1_f3 d e a) sha1_k3 w0 in
  w1 ← Some (sha1_left (w1 ⊻ w14 ⊻ w9 ⊻ w3));
  let '(c, a) := sha1_Round b c d e a (sha1_f3 c d e) sha1_k3 w1 in
  w2 ← Some (sha1_left (w2 ⊻ w15 ⊻ w10 ⊻ w4));
  let '(b, e) := sha1_Round a b c d e (sha1_f3 b c d) sha1_k3 w2 in
  w3 ← Some (sha1_left (w3 ⊻ w0 ⊻ w11 ⊻ w5));
  let '(a, d) := sha1_Round e a b c d (sha1_f3 a b c) sha1_k3 w3 in
  w4 ← Some (sha1_left (w4 ⊻ w1 ⊻ w12 ⊻ w6));
  let '(e, c) := sha1_Round d e a b c (sha1_f3 e a b) sha1_k3 w4 in
  w5 ← Some (sha1_left (w5 ⊻ w2 ⊻ w13 ⊻ w7));
  let '(d, b) := sha1_Round c d e a b (sha1_f3 d e a) sha1_k3 w5 in
  w6 ← Some (sha1_left (w6 ⊻ w3 ⊻ w14 ⊻ w8));
  let '(c, a) := sha1_Round b c d e a (sha1_f3 c d e) sha1_k3 w6 in
  w7 ← Some (sha1_left (w7 ⊻ w4 ⊻ w15 ⊻ w9));
  let '(b, e) := sha1_Round a b c d e (sha1_f3 b c d) sha1_k3 w7 in
  w8 ← Some (sha1_left (w8 ⊻ w5 ⊻ w0 ⊻ w10));
  let '(a, d) := sha1_Round e a b c d (sha1_f3 a b c) sha1_k3 w8 in
  w9 ← Some (sha1_left (w9 ⊻ w6 ⊻ w1 ⊻ w11));
  let '(e, c) := sha1_Round d e a b c (sha1_f3 e a b) sha1_k3 w9 in
  w10 ← Some (sha1_left (w10 ⊻ w7 ⊻ w2 ⊻ w12));
  let '(d, b) := sha1_Round c d e a b (sha1_f3 d e a) sha1_k3 w10 in
  w11 ← Some (sha1_left (w11 ⊻ w8 ⊻ w3 ⊻ w13));
  let '(c, a) := sha1_Round b c d e a (sha1_f3 c d e) sha1_k3 w11 in
  w12 ← Some (sha1_left (w12 ⊻ w9 ⊻ w4 ⊻ w14));
  let '(b, e) := sha1_Round a b c d e (sha1_f2 b c d) sha1_k4 w12 in
  w13 ← Some (sha1_left (w13 ⊻ w10 ⊻ w5 ⊻ w15));
  let '(a, d) := sha1_Round e a b c d (sha1_f2 a b c) sha1_k4 w13 in
  w14 ← Some (sha1_left (w14 ⊻ w11 ⊻ w6 ⊻ w0));
  let '(e, c) := sha1_Round d e a b c (sha1_f2 e a b) sha1_k4 w14 in
  w15 ← Some (sha1_left (w15 ⊻ w12 ⊻ w7 ⊻ w1));
  let '(d, b) := sha1_Round c d e a b (sha1_f2 d e a) sha1_k4 w15 in

  w0 ← Some (sha1_left (w0 ⊻ w13 ⊻ w8 ⊻ w2));
  let '(c, a) := sha1_Round b c d e a (sha1_f2 c d e) sha1_k4 w0 in
  w1 ← Some (sha1_left (w1 ⊻ w14 ⊻ w9 ⊻ w3));
  let '(b, e) := sha1_Round a b c d e (sha1_f2 b c d) sha1_k4 w1 in
  w2 ← Some (sha1_left (w2 ⊻ w15 ⊻ w10 ⊻ w4));
  let '(a, d) := sha1_Round e a b c d (sha1_f2 a b c) sha1_k4 w2 in
  w3 ← Some (sha1_left (w3 ⊻ w0 ⊻ w11 ⊻ w5));
  let '(e, c) := sha1_Round d e a b c (sha1_f2 e a b) sha1_k4 w3 in
  w4 ← Some (sha1_left (w4 ⊻ w1 ⊻ w12 ⊻ w6));
  let '(d, b) := sha1_Round c d e a b (sha1_f2 d e a) sha1_k4 w4 in
  w5 ← Some (sha1_left (w5 ⊻ w2 ⊻ w13 ⊻ w7));
  let '(c, a) := sha1_Round b c d e a (sha1_f2 c d e) sha1_k4 w5 in
  w6 ← Some (sha1_left (w6 ⊻ w3 ⊻ w14 ⊻ w8));
  let '(b, e) := sha1_Round a b c d e (sha1_f2 b c d) sha1_k4 w6 in
  w7 ← Some (sha1_left (w7 ⊻ w4 ⊻ w15 ⊻ w9));
  let '(a, d) := sha1_Round e a b c d (sha1_f2 a b c) sha1_k4 w7 in
  w8 ← Some (sha1_left (w8 ⊻ w5 ⊻ w0 ⊻ w10));
  let '(e, c) := sha1_Round d e a b c (sha1_f2 e a b) sha1_k4 w8 in
  w9 ← Some (sha1_left (w9 ⊻ w6 ⊻ w1 ⊻ w11));
  let '(d, b) := sha1_Round c d e a b (sha1_f2 d e a) sha1_k4 w9 in
  w10 ← Some (sha1_left (w10 ⊻ w7 ⊻ w2 ⊻ w12));
  let '(c, a) := sha1_Round b c d e a (sha1_f2 c d e) sha1_k4 w10 in
  w11 ← Some (sha1_left (w11 ⊻ w8 ⊻ w3 ⊻ w13));
  let '(b, e) := sha1_Round a b c d e (sha1_f2 b c d) sha1_k4 w11 in
  w12 ← Some (sha1_left (w12 ⊻ w9 ⊻ w4 ⊻ w14));
  let '(a, d) := sha1_Round e a b c d (sha1_f2 a b c) sha1_k4 w12 in
  let '(e, c) := sha1_Round d e a b c (sha1_f2 e a b) sha1_k4 (sha1_left (w13 ⊻ w10 ⊻ w5 ⊻ w15)) in
  let '(d, b) := sha1_Round c d e a b (sha1_f2 d e a) sha1_k4 (sha1_left (w14 ⊻ w11 ⊻ w6 ⊻ w0)) in
  let '(c, a) := sha1_Round b c d e a (sha1_f2 c d e) sha1_k4 (sha1_left (w15 ⊻ w12 ⊻ w7 ⊻ w1)) in

  Some [s0 +₃₂ a; s1 +₃₂ b; s2 +₃₂ c; s3 +₃₂ d; s4 +₃₂ e]
  | _ => None
  end.

(** ** RIPEMD-160 *)

(** [~x] of a [uint32_t]. *)
Definition not32 (x : Z) : Z := u32 (Z.lnot x).

Definition ripemd160_f1 (x y z : Z) : Z := x ⊻ y ⊻ z.
Definition ripemd160_f2 (x y z : Z) : Z := Z.lor (x & y) (not32 x & z).
Definition ripemd160_f3 (x y z : Z) : Z := Z.lor x (not32 y) ⊻ z.
Definition ripemd160_f4 (x y z : Z) : Z := Z.lor (x & z) (y & not32 z).
Definition ripemd160_f5 (x y z : Z) : Z := x ⊻ Z.lor y (not32 z).

Definition ripemd160_Initialize : list Z := [0x67452301; 0xEFCDAB89; 0x98BADCFE; 0x10325476; 0xC3D2E1F0].

Definition rol (x i : Z) : Z := Z.lor (x <<₃₂ i) (x >> (32 - i)).

(** The new values of [a] and [c]. *)
Definition ripemd160_Round (a b c d e f x k r : Z) : Z * Z :=
  let a := rol (u32 (a + f + x + k)) r +₃₂ e in
  let c := rol c 10 in
  (a, c).

Definition ripemd160_R11 (a b c d e x r : Z) := ripemd160_Round a b c d e (ripemd160_f1 b c d) x 0 r.
Definition ripemd160_R21 (a b c d e x r : Z) := ripemd160_Round a b c d e (ripemd160_f2 b c d) x 0x5A827999 r.
Definition ripemd160_R31 (a b c d e x r : Z) := ripemd160_Round a b c d e (ripemd160_f3 b c d) x 0x6ED9EBA1 r.
Definition ripemd160_R41 (a b c d e x r : Z) := ripemd160_Round a b c d e (ripemd160_f4 b c d) x 0x8F1BBCDC r.
Definition ripemd160_R51 (a b c d e x r : Z) := ripemd160_Round a b c d e (ripemd160_f5 b c d) x 0xA953FD4E r.

Definition ripemd160_R12 (a b c d e x r : Z) := ripemd160_Round a b c d e (ripemd160_f5 b c d) x 0x50A28BE6 r.
Definition ripemd160_R22 (a b c d e x r : Z) := ripemd160_Round a b c d e (ripemd160_f4 b c d) x 0x5C4DD124 r.
Definition ripemd160_R32 (a b c d e x r : Z) := ripemd160_Round a b c d e (ripemd160_f3 b c d) x 0x6D703EF3 r.
Definition ripemd160_R42 (a b c d e x r : Z) := ripemd160_Round a b c d e (ripemd160_f2 b c d) x 0x7A6D76E9 r.
Definition ripemd160_R52 (a b c d e x r : Z) := ripemd160_Round a b c d e (ripemd160_f1 b c d) x 0 r.

Definition ripemd160_Transform (s chunk : list Z) : option (list Z) :=
  match s with
  | [s0; s1; s2; s3; s4] =>
  let '(a1, b1, c1, d1, e1) := (s0, s1, s2, s3, s4) in
  let '(a2, b2, c2, d2, e2) := (a1, b1, c1, d1, e1) in
  w0 ← ReadLE32 chunk 0;  w1 ← ReadLE32 chunk 4;  w2 ← ReadLE32 chunk 8;  w3 ← ReadLE32 chunk 12;
  w4 ← ReadLE32 chunk 16;  w5 ← ReadLE32 chunk 20;  w6 ← ReadLE32 chunk 24;  w7 ← ReadLE32 chunk 28;
  w8 ← ReadLE32 chunk 32;  w9 ← ReadLE32 chunk 36;  w10 ← ReadLE32 chunk 40;  w11 ← ReadLE32 chunk 44;
  w12 ← ReadLE32 chunk 48;  w13 ← ReadLE32 chunk 52;  w14 ← ReadLE32 chunk 56;  w15 ← ReadLE32 chunk 60;

  let '(a1, c1) := ripemd160_R11 a1 b1 c1 d1 e1 w0 11 in
  let '(a2, c2) := ripemd160_R12 a2 b2 c2 d2 e2 w5 8 in
  let '(e1, b1) := ripemd160_R11 e1 a1 b1 c1 d1 w1 14 in
  let '(e2, b2) := ripemd160_R12 e2 a2 b2 c2 d2 w14 9 in
  let '(d1, a1) := ripemd160_R11 d1 e1 a1 b1 c1 w2 15 in
  let '(d2, a2) := ripemd160_R12 d2 e2 a2 b2 c2 w7 9 in
  let '(c1, e1) := ripemd160_R11 c1 d1 e1 a1 b1 w3 12 in
  let '(c2, e2) := ripemd160_R12 c2 d2 e2 a2 b2 w0 11 in
  let '(b1, d1) := ripemd160_R11 b1 c1 d1 e1 a1 w4 5 in
  let '(b2, d2) := ripemd160_R12 b2 c2 d2 e2 a2 w9 13 in
  let '(a1, c1) := ripemd160_R11 a1 b1 c1 d1 e1 w5 8 in
  let '(a2, c2) := ripemd160_R12 a2 b2 c2 d2 e2 w2 15 in
  let '(e1, b1) := ripemd160_R11 e1 a1 b1 c1 d1 w6 7 in
  let '(e2, b2) := ripemd160_R12 e2 a2 b2 c2 d2 w11 15 in
  let '(d1, a1) := ripemd160_R11 d1 e1 a1 b1 c1 w7 9 in
  let '(d2, a2) := ripemd160_R12 d2 e2 a2 b2 c2 w4 5 in
  let '(c1, e1) := ripemd160_R11 c1 d1 e1 a1 b1 w8 11 in
  let '(c2, e2) := ripemd160_R12 c2 d2 e2 a2 b2 w13 7 in
  let '(b1, d1) := ripemd160_R11 b1 c1 d1 e1 a1 w9 13 in
  let '(b2, d2) := ripemd160_R12 b2 c2 d2 e2 a2 w6 7 in
  let '(a1, c1) := ripemd160_R11 a1 b1 c1 d1 e1 w10 14 in
  let '(a2, c2) := ripemd160_R12 a2 b2 c2 d2 e2 w15 8 in
  let '(e1, b1) := ripemd160_R11 e1 a1 b1 c1 d1 w11 15 in
  let '(e2, b2) := ripemd160_R12 e2 a2 b2 c2 d2 w8 11 in
  let '(d1, a1) := ripemd160_R11 d1 e1 a1 b1 c1 w12 6 in
  let '(d2, a2) := ripemd160_R12 d2 e2 a2 b2 c2 w1 14 in
  let '(c1, e1) := ripemd160_R11 c1 d1 e1 a1 b1 w13 7 in
  let '(c2, e2) := ripemd160_R12 c2 d2 e2 a2 b2 w10 14 in
  let '(b1, d1) := ripemd160_R11 b1 c1 d1 e1 a1 w14 9 in
  let '(b2, d2) := ripemd160_R12 b2 c2 d2 e2 a2 w3 12 in
  let '(a1, c1) := ripemd160_R11 a1 b1 c1 d1 e1 w15 8 in
  let '(a2, c2) := ripemd160_R12 a2 b2 c2 d2 e2 w12 6 in

  let '(e1, b1) := ripemd160_R21 e1 a1 b1 c1 d1 w7 7 in
  let '(e2, b2) := ripemd160_R22 e2 a2 b2 c2 d2 w6 9 in
  let '(d1, a1) := ripemd160_R21 d1 e1 a1 b1 c1 w4 6 in
  let '(d2, a2) := ripemd160_R22 d2 e2 a2 b2 c2 w11 13 in
  let '(c1, e1) := ripemd160_R21 c1 d1 e1 a1 b1 w13 8 in
  let '(c2, e2) := ripemd160_R22 c2 d2 e2 a2 b2 w3 15 in
  let '(b1, d1) := ripemd160_R21 b1 c1 d1 e1 a1 w1 13 in
  let '(b2, d2) := ripemd160_R22 b2 c2 d2 e2 a2 w7 7 in
  let '(a1, c1) := ripemd160_R21 a1 b1 c1 d1 e1 w10 11 in
  let '(a2, c2) := ripemd160_R22 a2 b2 c2 d2 e2 w0 12 in
  let '(e1, b1) := ripemd160_R21 e1 a1 b1 c1 d1 w6 9 in
  let '(e2, b2) := ripemd160_R22 e2 a2 b2 c2 d2 w13 8 in
  let '(d1, a1) := ripemd160_R21 d1 e1 a1 b1 c1 w15 7 in
  let '(d2, a2) := ripemd160_R22 d2 e2 a2 b2 c2 w5 9 in
  let '(c1, e1) := ripemd160_R21 c1 d1 e1 a1 b1 w3 15 in
  let '(c2, e2) := ripemd160_R22 c2 d2 e2 a2 b2 w10 11 in
  let '(b1, d1) := ripemd160_R21 b1 c1 d1 e1 a1 w12 7 in
  let '(b2, d2) := ripemd160_R22 b2 c2 d2 e2 a2 w14 7 in
  let '(a1, c1) := ripemd160_R21 a1 b1 c1 d1 e1 w0 12 in
  let '(a2, c2) := ripemd160_R22 a2 b2 c2 d2 e2 w15 7 in
  let '(e1, b1) := ripemd160_R21 e1 a1 b1 c1 d1 w9 15 in
  let '(e2, b2) := ripemd160_R22 e2 a2 b2 c2 d2 w8 12 in
  let '(d1, a1) := ripemd160_R21 d1 e1 a1 b1 c1 w5 9 in
  let '(d2, a2) := ripemd160_R22 d2 e2 a2 b2 c2 w12 7 in
  let '(c1, e1) := ripemd160_R21 c1 d1 e1 a1 b1 w2 11 in
  let '(c2, e2) := ripemd160_R22 c2 d2 e2 a2 b2 w4 6 in
  let '(b1, d1) := ripemd160_R21 b1 c1 d1 e1 a1 w14 7 in
  let '(b2, d2) := ripemd160_R22 b2 c2 d2 e2 a2 w9 15 in
  let '(a1, c1) := ripemd160_R21 a1 b1 c1 d1 e1 w11 13 in
  let '(a2, c2) := ripemd160_R22 a2 b2 c2 d2 e2 w1 13 in
  let '(e1, b1) := ripemd160_R21 e1 a1 b1 c1 d1 w8 12 in
  let '(e2, b2) := ripemd160_R22 e2 a2 b2 c2 d2 w2 11 in

  let '(d1, a1) := ripemd160_R31 d1 e1 a1 b1 c1 w3 11 in
  let '(d2, a2) := ripemd160_R32 d2 e2 a2 b2 c2 w15 9 in
  let '(c1, e1) := ripemd160_R31 c1 d1 e1 a1 b1 w10 13 in
  let '(c2, e2) := ripemd160_R32 c2 d2 e2 a2 b2 w5 7 in
  let '(b1, d1) := ripemd160_R31 b1 c1 d1 e1 a1 w14 6 in
  let '(b2, d2) := ripemd160_R32 b2 c2 d2 e2 a2 w1 15 in
  let '(a1, c1) := ripemd160_R31 a1 b1 c1 d1 e1 w4 7 in
  let '(a2, c2) := ripemd160_R32 a2 b2 c2 d2 e2 w3 11 in
  let '(e1, b1) := ripemd160_R31 e1 a1 b1 c1 d1 w9 14 in
  let '(e2, b2) := ripemd160_R32 e2 a2 b2 c2 d2 w7 8 in
  let '(d1, a1) := ripemd160_R31 d1 e1 a1 b1 c1 w15 9 in
  let '(d2, a2) := ripemd160_R32 d2 e2 a2 b2 c2 w14 6 in
  let '(c1, e1) := ripemd160_R31 c1 d1 e1 a1 b1 w8 13 in
  let '(c2, e2) := ripemd160_R32 c2 d2 e2 a2 b2 w6 6 in
  let '(b1, d1) := ripemd160_R31 b1 c1 d1 e1 a1 w1 15 in
  let '(b2, d2) := ripemd160_R32 b2 c2 d2 e2 a2 w9 14 in
  let '(a1, c1) := ripemd160_R31 a1 b1 c1 d1 e1 w2 14 in
  let '(a2, c2) := ripemd160_R32 a2 b2 c2 d2 e2 w11 12 in
  let '(e1, b1) := ripemd160_R31 e1 a1 b1 c1 d1 w7 8 in
  let '(e2, b2) := ripemd160_R32 e2 a2 b2 c2 d2 w8 13 in
  let '(d1, a1) := ripemd160_R31 d1 e1 a1 b1 c1 w0 13 in
  let '(d2, a2) := ripemd160_R32 d2 e2 a2 b2 c2 w12 5 in
  let '(c1, e1) := ripemd160_R31 c1 d1 e1 a1 b1 w6 6 in
  let '(c2, e2) := ripemd160_R32 c2 d2 e2 a2 b2 w2 14 in
  let '(b1, d1) := ripemd160_R31 b1 c1 d1 e1 a1 w13 5 in
  let '(b2, d2) := ripemd160_R32 b2 c2 d2 e2 a2 w10 13 in
  let '(a1, c1) := ripemd160_R31 a1 b1 c1 d1 e1 w11 12 in
  let '(a2, c2) := ripemd160_R32 a2 b2 c2 d2 e2 w0 13 in
  let '(e1, b1) := ripemd160_R31 e1 a1 b1 c1 d1 w5 7 in
  let '(e2, b2) := ripemd160_R32 e2 a2 b2 c2 d2 w4 7 in
  let '(d1, a1) := ripemd160_R31 d1 e1 a1 b1 c1 w12 5 in
  let '(d2, a2) := ripemd160_R32 d2 e2 a2 b2 c2 w13 5 in

  let '(c1, e1) := ripemd160_R41 c1 d1 e1 a1 b1 w1 11 in
  let '(c2, e2) := ripemd160_R42 c2 d2 e2 a2 b2 w8 15 in
  let '(b1, d1) := ripemd160_R41 b1 c1 d1 e1 a1 w9 12 in
  let '(b2, d2) := ripemd160_R42 b2 c2 d2 e2 a2 w6 5 in
  let '(a1, c1) := ripemd160_R41 a1 b1 c1 d1 e1 w11 14 in
  let '(a2, c2) := ripemd160_R42 a2 b2 c2 d2 e2 w4 8 in
  let '(e1, b1) := ripemd160_R41 e1 a1 b1 c1 d1 w10 15 in
  let '(e2, b2) := ripemd160_R42 e2 a2 b2 c2 d2 w1 11 in
  let '(d1, a1) := ripemd160_R41 d1 e1 a1 b1 c1 w0 14 in
  let '(d2, a2) := ripemd160_R42 d2 e2 a2 b2 c2 w3 14 in
  let '(c1, e1) := ripemd160_R41 c1 d1 e1 a1 b1 w8 15 in
  let '(c2, e2) := ripemd160_R42 c2 d2 e2 a2 b2 w11 14 in
  let '(b1, d1) := ripemd160_R41 b1 c1 d1 e1 a1 w12 9 in
  let '(b2, d2) := ripemd160_R42 b2 c2 d2 e2 a2 w15 6 in
  let '(a1, c1) := ripemd160_R41 a1 b1 c1 d1 e1 w4 8 in
  let '(a2, c2) := ripemd160_R42 a2 b2 c2 d2 e2 w0 14 in
  let '(e1, b1) := ripemd160_R41 e1 a1 b1 c1 d1 w13 9 in
  let '(e2, b2) := ripemd160_R42 e2 a2 b2 c2 d2 w5 6 in
  let '(d1, a1) := ripemd160_R41 d1 e1 a1 b1 c1 w3 14 in
  let '(d2, a2) := ripemd160_R42 d2 e2 a2 b2 c2 w12 9 in
  let '(c1, e1) := ripemd160_R41 c1 d1 e1 a1 b1 w7 5 in
  let '(c2, e2) := ripemd160_R42 c2 d2 e2 a2 b2 w2 12 in
  let '(b1, d1) := ripemd160_R41 b1 c1 d1 e1 a1 w15 6 in
  let '(b2, d2) := ripemd160_R42 b2 c2 d2 e2 a2 w13 9 in
  let '(a1, c1) := ripemd160_R41 a1 b1 c1 d1 e1 w14 8 in
  let '(a2, c2) := ripemd160_R42 a2 b2 c2 d2 e2 w9 12 in
  let '(e1, b1) := ripemd160_R41 e1 a1 b1 c1 d1 w5 6 in
  let '(e2, b2) := ripemd160_R42 e2 a2 b2 c2 d2 w7 5 in
  let '(d1, a1) := ripemd160_R41 d1 e1 a1 b1 c1 w6 5 in
  let '(d2, a2) := ripemd160_R42 d2 e2 a2 b2 c2 w10 15 in
  let '(c1, e1) := ripemd160_R41 c1 d1 e1 a1 b1 w2 12 in
  let '(c2, e2) := ripemd160_R42 c2 d2 e2 a2 b2 w14 8 in

  let '(b1, d1) := ripemd160_R51 b1 c1 d1 e1 a1 w4 9 in
  let '(b2, d2) := ripemd160_R52 b2 c2 d2 e2 a2 w12 8 in
  let '(a1, c1) := ripemd160_R51 a1 b1 c1 d1 e1 w0 15 in
  let '(a2, c2) := ripemd160_R52 a2 b2 c2 d2 e2 w15 5 in
  let '(e1, b1) := ripemd160_R51 e1 a1 b1 c1 d1 w5 5 in
  let '(e2, b2) := ripemd160_R52 e2 a2 b2 c2 d2 w10 12 in
  let '(d1, a1) := ripemd160_R51 d1 e1 a1 b1 c1 w9 11 in
  let '(d2, a2) := ripemd160_R52 d2 e2 a2 b2 c2 w4 9 in
  let '(c1, e1) := ripemd160_R51 c1 d1 e1 a1 b1 w7 6 in
  let '(c2, e2) := ripemd160_R52 c2 d2 e2 a2 b2 w1 12 in
  let '(b1, d1) := ripemd160_R51 b1 c1 d1 e1 a1 w12 8 in
  let '(b2, d2) := ripemd160_R52 b2 c2 d2 e2 a2 w5 5 in
  let '(a1, c1) := ripemd160_R51 a1 b1 c1 d1 e1 w2 13 in
  let '(a2, c2) := ripemd160_R52 a2 b2 c2 d2 e2 w8 14 in
  let '(e1, b1) := ripemd160_R51 e1 a1 b1 c1 d1 w10 12 in
  let '(e2, b2) := ripemd160_R52 e2 a2 b2 c2 d2 w7 6 in
  let '(d1, a1) := ripemd160_R51 d1 e1 a1 b1 c1 w14 5 in
  let '(d2, a2) := ripemd160_R52 d2 e2 a2 b2 c2 w6 8 in
  let '(c1, e1) := ripemd160_R51 c1 d1 e1 a1 b1 w1 12 in
  let '(c2, e2) := ripemd160_R52 c2 d2 e2 a2 b2 w2 13 in
  let '(b1, d1) := ripemd160_R51 b1 c1 d1 e1 a1 w3 13 in
  let '(b2, d2) := ripemd160_R52 b2 c2 d2 e2 a2 w13 6 in
  let '(a1, c1) := ripemd160_R51 a1 b1 c1 d1 e1 w8 14 in
  let '(a2, c2) := ripemd160_R52 a2 b2 c2 d2 e2 w14 5 in
  let '(e1, b1) := ripemd160_R51 e1 a1 b1 c1 d1 w11 11 in
  let '(e2, b2) := ripemd160_R52 e2 a2 b2 c2 d2 w0 15 in
  let '(d1, a1) := ripemd160_R51 d1 e1 a1 b1 c1 w6 8 in
  let '(d2, a2) := ripemd160_R52 d2 e2 a2 b2 c2 w3 13 in
  let '(c1, e1) := ripemd160_R51 c1 d1 e1 a1 b1 w15 5 in
  let '(c2, e2) := ripemd160_R52 c2 d2 e2 a2 b2 w9 11 in
  let '(b1, d1) := ripemd160_R51 b1 c1 d1 e1 a1 w13 6 in
  let '(b2, d2) := ripemd160_R52 b2 c2 d2 e2 a2 w11 11 in
  Some [u32 (s1 + c1 + d2); u32 (s2 + d1 + e2); u32 (s3 + e1 + a2); u32 (s4 + a1 + b2); u32 (s0 + b1 + c2)]
  | _ => None
  end.

(** ** The classes *)

Record hasher := { h_s : list Z; h_buf : list Z; h_bytes : Z }.

(** [static const unsigned char pad[64] = {0x80};] *)
Definition hash_pad : list Z := 0x80 :: replicate 63 0.

(** The first part of [Write], the same in the three classes: the data left and
    the value of [bufsize]. *)
Definition fill_buffer (Transform : list Z → list Z → option (list Z)) (o : hasher) (data : list Z)
    : option (hasher * list Z * nat) :=
  let bufsize := Z.to_nat (h_bytes o mod 64) in
  if decide (bufsize ≠ 0 ∧ 64 <= bufsize + length data)%nat then
    buf ← write (h_buf o) bufsize (take (64 - bufsize) data);
    s ← Transform (h_s o) buf;
    Some ({| h_s := s; h_buf := buf; h_bytes := u64 (h_bytes o + Z.of_nat (64 - bufsize)) |},
          drop (64 - bufsize) data, 0%nat)
  else Some (o, data, bufsize).

(** The last part: what remains goes into the buffer. *)
Definition keep_rest (o : hasher) (data : list Z) (bufsize : nat) : option hasher :=
  if decide (0 < length data)%nat then
    buf ← write (h_buf o) bufsize data;
    Some {| h_s := h_s o; h_buf := buf; h_bytes := u64 (h_bytes o + Z.of_nat (length data)) |}
  else Some o.

Definition CSHA256_Write (o : hasher) (data : list Z) : option hasher :=
  '(o, data, bufsize) ← fill_buffer (λ s buf, sha256_Transform s buf 1) o data;
  '(o, data) ←
    (if decide (64 <= length data)%nat then
       let blocks := (length data / 64)%nat in
       s ← sha256_Transform (h_s o) data blocks;
       Some ({| h_s := s; h_buf := h_buf o; h_bytes := u64 (h_bytes o + Z.of_nat (64 * blocks)) |},
             drop (64 * blocks) data)
     else Some (o, data));
  keep_rest o data bufsize.

(** The [while] loop over full chunks, of the other two classes. *)
Definition full_chunks (Transform : list Z → list Z → option (list Z)) (o : hasher) (data : list Z)
    : option (hasher * list Z) :=
  loop (S (length data)) (λ '(o, data),
    if decide (64 <= length data)%nat then
      s ← Transform (h_s o) data;
      Some (Next ({| h_s := s; h_buf := h_buf o; h_bytes := u64 (h_bytes o + 64) |}, drop 64 data))
    else Some (Done (o, data))) (o, data).

Definition CSHA1_Write (o : hasher) (data : list Z) : option hasher :=
  '(o, data, bufsize) ← fill_buffer sha1_Transform o data;
  '(o, data) ← full_chunks sha1_Transform o data;
  keep_rest o data bufsize.

Definition CRIPEMD160_Write (o : hasher) (data : list Z) : option hasher :=
  '(o, data, bufsize) ← fill_buffer ripemd160_Transform o data;
  '(o, data) ← full_chunks ripemd160_Transform o data;
  keep_rest o data bufsize.

(** [Finalize]: the digest and the object afterwards. *)
Definition CSHA256_Finalize (o : hasher) : option (list Z * hasher) :=
  let sizedesc := WriteBE64 (u64 (Z.shiftl (h_bytes o) 3)) in
  o ← CSHA256_Write o (take (Z.to_nat (1 + (119 - h_bytes o mod 64) mod 64)) hash_pad);
  o ← CSHA256_Write o sizedesc;
  Some (h_s o ≫= WriteBE32, o).

Definition CSHA1_Finalize (o : hasher) : option (list Z * hasher) :=
  let sizedesc := WriteBE64 (u64 (Z.shiftl (h_bytes o) 3)) in
  o ← CSHA1_Write o (take (Z.to_nat (1 + (119 - h_bytes o mod 64) mod 64)) hash_pad);
  o ← CSHA1_Write o sizedesc;
  Some (h_s o ≫= WriteBE32, o).

Definition CRIPEMD160_Finalize (o : hasher) : option (list Z * hasher) :=
  let sizedesc := WriteLE64 (u64 (Z.shiftl (h_bytes o) 3)) in
  o ← CRIPEMD160_Write o (take (Z.to_nat (1 + (119 - h_bytes o mod 64) mod 64)) hash_pad);
  o ← CRIPEMD160_Write o sizedesc;
  Some (h_s o ≫= WriteLE32, o).

Definition CSHA256_Reset (o : hasher) : hasher := {| h_s := sha256_Initialize; h_buf := h_buf o; h_bytes := 0 |}.
Definition CSHA1_Reset (o : hasher) : hasher := {| h_s := sha1_Initialize; h_buf := h_buf o; h_bytes := 0 |}.
Definition CRIPEMD160_Reset (o : hasher) : hasher := {| h_s := ripemd160_Initialize; h_buf := h_buf o; h_bytes := 0 |}.

Section objects.
Context {U : Uninit}.

Definition CSHA256_new : hasher := {| h_s := sha256_Initialize; h_buf := uninit 64; h_bytes := 0 |}.
Definition CSHA1_new : hasher := {| h_s := sha1_Initialize; h_buf := uninit 64; h_bytes := 0 |}.
Definition CRIPEMD160_new : hasher := {| h_s := ripemd160_Initialize; h_buf := uninit 64; h_bytes := 0 |}.

(** ** Hashers (hash.h, hash.cpp)

    [CHash256], [CHash160] and [HashWriter] hold one SHA-256 object. *)

Definition CHash256_Finalize (sha : hasher) : option (list Z * hasher) :=
  '(buf, sha) ← CSHA256_Finalize sha;
  sha ← CSHA256_Write (CSHA256_Reset sha) buf;
  CSHA256_Finalize sha.

Definition CHash160_Finalize (sha : hasher) : option (list Z * hasher) :=
  '(buf, sha) ← CSHA256_Finalize sha;
  r ← CRIPEMD160_Write CRIPEMD160_new buf;
  '(output, _) ← CRIPEMD160_Finalize r;
  Some (output, sha).

(** [Hash(in1)], [Hash(in1, in2)] and [Hash160(in1)]. *)
Definition Hash (in1 : list Z) : option (list Z) :=
  sha ← CSHA256_Write CSHA256_new in1; fst <$> CHash256_Finalize sha.
Definition Hash2 (in1 in2 : list Z) : option (list Z) :=
  sha ← CSHA256_Write CSHA256_new in1; sha ← CSHA256_Write sha in2; fst <$> CHash256_Finalize sha.
Definition Hash160 (in1 : list Z) : option (list Z) :=
  sha ← CSHA256_Write CSHA256_new in1; fst <$> CHash160_Finalize sha.

Definition HashWriter_write (ctx : hasher) (src : list Z) : option hasher := CSHA256_Write ctx src.
Definition HashWriter_GetHash (ctx : hasher) : option (list Z * hasher) :=
  '(result, ctx) ← CSHA256_Finalize ctx;
  ctx ← CSHA256_Write (CSHA256_Reset ctx) result;
  CSHA256_Finalize ctx.
Definition HashWriter_GetSHA256 (ctx : hasher) : option (list Z * hasher) := CSHA256_Finalize ctx.
Definition HashWriter_GetCheapHash (ctx : hasher) : option (Z * hasher) :=
  '(result, ctx) ← HashWriter_GetHash ctx; r ← ReadLE64 result 0; Some (r, ctx).

(** The writer that [TaggedHash] returns. *)
Definition TaggedHash_writer (tag : list Z) : option hasher :=
  sha ← CSHA256_Write CSHA256_new tag;
  '(taghash, _) ← CSHA256_Finalize sha;
  writer ← HashWriter_write CSHA256_new taghash;
  HashWriter_write writer taghash.

(** One-shot use of a class, as in [CSHA256().Write(x).Finalize(out)]. *)
Definition sha256_once (x : list Z) : option (list Z) := o ← CSHA256_Write CSHA256_new x; fst <$> CSHA256_Finalize o.
Definition sha1_once (x : list Z) : option (list Z) := o ← CSHA1_Write CSHA1_new x; fst <$> CSHA1_Finalize o.
Definition ripemd160_once (x : list Z) : option (list Z) := o ← CRIPEMD160_Write CRIPEMD160_new x; fst <$> CRIPEMD160_Finalize o.
End objects.
