(* ===== verification/NodeHashP.v ===== *)
(** SHA-256 of the node (NodeHash.v): the unrolled transformation is the
    compression function of FIPS 180-4.  Also here, the tactics that run unrolled
    code one line at a time against a fold over the rounds of a standard.

    SHA-1 of the node (NodeHash.v): the standard, and the unrolled transformation
    as its compression function.

    RIPEMD-160 of the node (NodeHash.v): the definition of the hash function
    (Dobbertin, Bosselaers, Preneel), and the unrolled transformation, which
    interleaves the two lines, as its compression function.

    The hash classes of the node (NodeHash.v): any sequence of [Write] calls and
    [Finalize] compute the hash of the concatenated data, the hashers of hash.h are
    the functions that the rest of the node is modelled with, and they are an
    instance of [NodeCrypto]. *)
From S2P Require Import Prelude Sha2 Sha2Spec Node NodeHash.

Open Scope c_scope.
Open Scope Z_scope.

(** ** Unrolled code *)

(** A word whose value is known. *)
Lemma bind_known {A B} (m : option A) v (C : A → option B) r : m = Some v → C v = r → m ≫= C = r.
Proof. by intros ->. Qed.

Ltac assign_to v tac := refine (bind_known _ v _ _ _ _); [apply (f_equal Some); tac|cbv beta].

Ltac bitwise := apply Z.bits_inj'; intros n Hn; repeat first [rewrite Z.lxor_spec|rewrite Z.land_spec|rewrite Z.lor_spec|rewrite Z.lnot_spec by done].
Ltac bool_cases := repeat match goal with |- context [Z.testbit ?x ?n] => destruct (Z.testbit x n) end; done.

Lemma choose_alt x y z : z ⊻ (x & (y ⊻ z)) = (x & y) ⊻ (Z.lnot x & z).
Proof. bitwise. bool_cases. Qed.
Lemma majority_alt x y z : Z.lor (x & y) (z & (Z.lor x y)) = (x & y) ⊻ (x & z) ⊻ (y & z).
Proof. bitwise. bool_cases. Qed.

(** The [i]-th word of a block. *)
Lemma ReadBE32_word blk i : (4 * i + 4 <= length blk)%nat → ReadBE32 blk (4 * i) = Some (be_val (slot 4 blk i)).
Proof. intros. unfold ReadBE32. rewrite (Nat.mul_comm 4 i), read_slot by lia. done. Qed.
Lemma ReadLE32_word blk i : (4 * i + 4 <= length blk)%nat → ReadLE32 blk (4 * i) = Some (le_val (slot 4 blk i)).
Proof. intros. unfold ReadLE32. rewrite (Nat.mul_comm 4 i), read_slot by lia. done. Qed.

(** ** SHA-256 *)

Lemma sha256_Round_F a b c d e f g h k w d' h' :
  sha256_Round a b c d e f g h (k +₃₂ w) = (d', h') →
  F core_32 (Regs a b c d e f g h) (w, k) = Regs h' a b c d' e f g.
Proof.
  unfold sha256_Round. intros [= <- <-]. unfold F.
  assert (Hk : ∀ x, u32 (x + (k +₃₂ w)) = word core_32 (x + k + w)).
  { intros x. change (word core_32) with u32. unfold u32. rewrite Zplus_mod_idemp_r. f_equal. lia. }
  rewrite Hk. unfold sha256_Ch, sha256_Maj. rewrite choose_alt, majority_alt. done.
Qed.

Lemma sha256_sched blk t : length blk = 16%nat →
  W core_32 blk t +₃₂ (sha256_sigma1 (W core_32 blk (t + 14)) + W core_32 blk (t + 9) + sha256_sigma0 (W core_32 blk (t + 1)))
  = W core_32 blk (16 + t).
Proof. intros. rewrite W_rec by done. change (word core_32) with u32. unfold u32. f_equal. cbn [sigma1 sigma0 core_32]. change sha256_sigma1 with sigma1_32. change sha256_sigma0 with sigma0_32. lia. Qed.

(** The last two words are not stored. *)
Lemma sha256_last blk t k : length blk = 16%nat →
  k +₃₂ (W core_32 blk t + sha256_sigma1 (W core_32 blk (t + 14)) + W core_32 blk (t + 9) + sha256_sigma0 (W core_32 blk (t + 1)))
  = k +₃₂ W core_32 blk (16 + t).
Proof. intros. rewrite <-sha256_sched by done. unfold u32. rewrite Zplus_mod_idemp_r. f_equal. lia. Qed.

Definition sha256_block (H blk : list Z) : list Z := compress core_32 H (be_words core_32 blk).

Lemma ReadBE32_W chunk i : (64 <= length chunk)%nat → (i < 16)%nat →
  ReadBE32 chunk (4 * i) = Some (W core_32 (be_words core_32 (take 64 chunk)) i).
Proof.
  intros Hl Hi. rewrite ReadBE32_word by lia. f_equal.
  rewrite <-(W_schedule core_32 _ 0) by (done || lia). unfold schedule; cbn [Nat.iter nat_rect].
  symmetry. apply list_lookup_total_correct. unfold be_words. rewrite list_lookup_fmap, lookup_seq_lt by done.
  cbn [fmap option_fmap option_map]. change (word_bytes core_32) with 4%nat. rewrite slot_take by lia. done.
Qed.

(** The words of the block and the constants, written out. *)
Lemma sha256_pairs blk : length blk = 16%nat →
  zip (schedule core_32 (length (concat (K_words core_32)) - 16) blk) (concat (K_words core_32)) =
  zip (W core_32 blk <$> seq 0 64) (concat K_256).
Proof. intros. by rewrite schedule_W. Qed.

(** One round of the code is one of the standard. *)
Lemma sha256_step a b c d e f g h k w d' h' l :
  sha256_Round a b c d e f g h (k +₃₂ w) = (d', h') →
  foldl (F core_32) (Regs a b c d e f g h) ((w, k) :: l) = foldl (F core_32) (Regs h' a b c d' e f g) l.
Proof. intros E. cbn [foldl]. by rewrite (sha256_Round_F _ _ _ _ _ _ _ _ _ _ _ _ E). Qed.

(** [tac k], ..., [tac (k + n - 1)]. *)
Ltac do_each k n tac :=
  lazymatch n with O => idtac | S ?n => tac k; let k := eval cbv in (S k) in do_each k n tac end.

Ltac sha256_round :=
  lazymatch goal with |- match ?r with _ => _ end = _ =>
    let E := fresh in destruct r as [? ?] eqn:E; cbv match; rewrite (sha256_step _ _ _ _ _ _ _ _ _ _ _ _ _ E); clear E
  end.
Ltac sha256_load Hr n := refine (bind_known _ _ _ _ (Hr n ltac:(lia)) _); cbv beta; sha256_round.
Ltac sha256_sched blk Hb t :=
  assign_to (W core_32 blk (16 + t)) ltac:(exact (sha256_sched blk t Hb)); sha256_round.

Lemma sha256_Transform1_ok s chunk : length s = 8%nat → (64 <= length chunk)%nat →
  sha256_Transform1 s chunk = Some (sha256_block s (take 64 chunk)).
Proof.
  intros Hs Hc. do 8 (destruct s as [|? s]; [done|]). destruct s; [|done]. clear Hs.
  unfold sha256_block, compress. rewrite sha256_pairs by done.
  assert (Hr := λ i, ReadBE32_W chunk i Hc). assert (Hb : length (be_words core_32 (take 64 chunk)) = 16%nat) by done.
  revert Hr Hb. generalize (be_words core_32 (take 64 chunk)) as blk. intros blk Hr Hb.
  set (fin := λ r, Some (add_state core_32 r [z; z0; z1; z2; z3; z4; z5; z6])).
  match goal with |- _ = Some (add_state _ ?r _) => change (sha256_Transform1 [z; z0; z1; z2; z3; z4; z5; z6] chunk = fin r) end.
  cbn [seq fmap list_fmap K_256 app concat zip zip_with].
  unfold regs_of. cbn [lookup_total list_lookup_total]. cbv beta delta [sha256_Transform1] match.
  do_each 0%nat 16%nat ltac:(fun n => sha256_load Hr n).
  do_each 0%nat 46%nat ltac:(fun n => sha256_sched blk Hb n).
  rewrite (sha256_last blk 46 _ Hb). sha256_round. rewrite (sha256_last blk 47 _ Hb). sha256_round.
  unfold fin, add_state, regs_list. cbn [foldl zip_with]. change (word core_32) with u32.
  rewrite !(Z.add_comm z), !(Z.add_comm z0), !(Z.add_comm z1), !(Z.add_comm z2), !(Z.add_comm z3), !(Z.add_comm z4),
    !(Z.add_comm z5), !(Z.add_comm z6). done.
Qed.

(** SHA-1 of FIPS 180-4, section 6.1. *)
Module Sha1Spec.

Definition ROTL (n x : Z) : Z := Z.lor (x <<₃₂ n) (x >> (32 - n)).

(** 4.1.1 and 4.2.1, the functions and constants of the four stages. *)
Definition Parity (x y z : Z) : Z := x ⊻ y ⊻ z.
Definition ft (t : nat) : Z → Z → Z → Z :=
  match (t / 20)%nat with 0%nat => Ch | 2%nat => Maj | _ => Parity end.
Definition Kt (t : nat) : Z :=
  match (t / 20)%nat with 0%nat => 0x5A827999 | 1%nat => 0x6ED9EBA1 | 2%nat => 0x8F1BBCDC | _ => 0xCA62C1D6 end.

(** 6.1.2 step 1. *)
Definition schedule_next (W : list Z) : list Z :=
  let t := length W in
  W ++ [ROTL 1 (W !!! (t - 3)%nat ⊻ W !!! (t - 8)%nat ⊻ W !!! (t - 14)%nat ⊻ W !!! (t - 16)%nat)].
Definition schedule (n : nat) (blk : list Z) : list Z := Nat.iter n schedule_next blk.

(** 6.1.2 step 3. *)
Record regs := Regs { ra : Z; rb : Z; rc : Z; rd : Z; re : Z }.
Definition round (r : regs) (tw : nat * Z) : regs :=
  let '(t, w) := tw in
  let '(Regs a b c d e) := r in
  Regs (u32 (ROTL 5 a + ft t b c d + e + Kt t + w)) a (ROTL 30 b) c d.

Definition compress (H blk : list Z) : list Z :=
  let '(Regs a b c d e) :=
    foldl round (Regs (H !!! 0%nat) (H !!! 1%nat) (H !!! 2%nat) (H !!! 3%nat) (H !!! 4%nat)) (zip (seq 0 80) (schedule 64 blk)) in
  [u32 (a + H !!! 0%nat); u32 (b + H !!! 1%nat); u32 (c + H !!! 2%nat); u32 (d + H !!! 3%nat); u32 (e + H !!! 4%nat)].

Definition H0 : list Z := [0x67452301; 0xefcdab89; 0x98badcfe; 0x10325476; 0xc3d2e1f0].

(** The words of the schedule. *)
Definition W (blk : list Z) (t : nat) : Z := schedule t blk !!! t.

Lemma sha1_schedule_S n blk : schedule (S n) blk = schedule_next (schedule n blk).
Proof. done. Qed.

Lemma sha1_length_schedule n blk : length blk = 16%nat → length (schedule n blk) = (16 + n)%nat.
Proof.
  intros Hb. induction n as [|n IH]; [done|]. rewrite sha1_schedule_S. unfold schedule_next. rewrite length_app, IH. simpl. lia.
Qed.

Lemma sha1_schedule_stable blk n m i : length blk = 16%nat → (n <= m)%nat → (i < 16 + n)%nat →
  schedule m blk !!! i = schedule n blk !!! i.
Proof.
  intros Hb Hnm Hi. induction Hnm as [|m Hnm IH]; [done|].
  rewrite sha1_schedule_S. unfold schedule_next. rewrite lookup_total_app_l; [done|]. rewrite sha1_length_schedule by done. lia.
Qed.

Lemma sha1_W_schedule blk n t : length blk = 16%nat → (t < 16 + n)%nat → schedule n blk !!! t = W blk t.
Proof.
  intros Hb Ht. unfold W. destruct (decide (n <= t)%nat).
  - symmetry. by apply sha1_schedule_stable.
  - apply sha1_schedule_stable; [done|lia|lia].
Qed.

Lemma sha1_W_rec blk t : length blk = 16%nat →
  W blk (16 + t) = ROTL 1 (W blk (t + 13) ⊻ W blk (t + 8) ⊻ W blk (t + 2) ⊻ W blk t).
Proof.
  intros Hb. rewrite <-(sha1_W_schedule blk (S t)) by (done || lia). rewrite sha1_schedule_S. unfold schedule_next.
  rewrite lookup_total_app_r by (rewrite sha1_length_schedule; done || lia).
  rewrite sha1_length_schedule, Nat.sub_diag by done. cbn [lookup_total list_lookup_total].
  rewrite !sha1_W_schedule by (done || lia). f_equal. repeat f_equal; lia.
Qed.

Lemma sha1_schedule_W n blk : length blk = 16%nat → schedule n blk = W blk <$> seq 0 (16 + n).
Proof.
  intros Hb. apply list_eq. intros i. rewrite list_lookup_fmap. destruct (decide (i < 16 + n)%nat) as [Hi|Hi].
  - rewrite lookup_seq_lt by done. cbn [fmap option_fmap option_map]. rewrite Nat.add_0_l, <-(sha1_W_schedule blk n) by done.
    apply list_lookup_lookup_total_lt. by rewrite sha1_length_schedule.
  - rewrite lookup_seq_ge, lookup_ge_None_2 by (rewrite ?sha1_length_schedule; done || lia). done.
Qed.
End Sha1Spec.

Definition sha1_block (H blk : list Z) : list Z := Sha1Spec.compress H (be_words core_32 blk).

Lemma sha1_Round_spec t a b c d e f w b' e' :
  sha1_Round a b c d e (f b c d) (Sha1Spec.Kt t) w = (b', e') → (∀ x y z, f x y z = Sha1Spec.ft t x y z) →
  Sha1Spec.round (Sha1Spec.Regs a b c d e) (t, w) = Sha1Spec.Regs e' a b' c d.
Proof.
  unfold sha1_Round. intros [= <- <-] Hf. unfold Sha1Spec.round. rewrite Hf. f_equal. f_equal.
  change (Sha1Spec.ROTL 5 a) with (Z.lor (a <<₃₂ 5) (a >> 27)). lia.
Qed.

(** The functions of the stages. *)
Lemma sha1_f1_ft x y z : sha1_f1 x y z = Ch x y z.
Proof. apply choose_alt. Qed.
Lemma sha1_f3_ft x y z : sha1_f3 x y z = Maj x y z.
Proof. apply majority_alt. Qed.

Lemma sha1_sched blk t : length blk = 16%nat →
  sha1_left (Sha1Spec.W blk t ⊻ Sha1Spec.W blk (t + 13) ⊻ Sha1Spec.W blk (t + 8) ⊻ Sha1Spec.W blk (t + 2)) = Sha1Spec.W blk (16 + t).
Proof.
  intros. rewrite Sha1Spec.sha1_W_rec by done. change (Sha1Spec.ROTL 1) with sha1_left. f_equal.
  rewrite !Z.lxor_assoc, (Z.lxor_comm (Sha1Spec.W blk t)), !Z.lxor_assoc. done.
Qed.

Lemma ReadBE32_W1 chunk i : (64 <= length chunk)%nat → (i < 16)%nat →
  ReadBE32 chunk (4 * i) = Some (Sha1Spec.W (be_words core_32 (take 64 chunk)) i).
Proof.
  intros Hl Hi. rewrite ReadBE32_W by done. f_equal.
  rewrite <-(W_schedule core_32 _ 0), <-(Sha1Spec.sha1_W_schedule _ 0) by (done || lia). done.
Qed.

(** One round of the code is one of the standard. *)
Lemma sha1_step t a b c d e f k w b' e' l :
  sha1_Round a b c d e (f b c d) k w = (b', e') → k = Sha1Spec.Kt t → (∀ x y z, f x y z = Sha1Spec.ft t x y z) →
  foldl Sha1Spec.round (Sha1Spec.Regs a b c d e) ((t, w) :: l) = foldl Sha1Spec.round (Sha1Spec.Regs e' a b' c d) l.
Proof. intros E -> Hf. cbn [foldl]. by rewrite (sha1_Round_spec _ _ _ _ _ _ _ _ _ _ E). Qed.

Ltac sha1_round :=
  lazymatch goal with |- match ?r with _ => _ end = ?fin (foldl _ _ ((?t, _) :: _)) =>
    let E := fresh in destruct r as [? ?] eqn:E; cbv match;
    rewrite (sha1_step t _ _ _ _ _ _ _ _ _ _ _ E eq_refl); [clear E|first [exact sha1_f1_ft|exact sha1_f3_ft|reflexivity]]
  end.
Ltac sha1_load Hr n := refine (bind_known _ _ _ _ (Hr n ltac:(lia)) _); cbv beta; sha1_round.
Ltac sha1_next blk Hb t := assign_to (Sha1Spec.W blk (16 + t)) ltac:(exact (sha1_sched blk t Hb)); sha1_round.
Ltac sha1_last blk Hb t :=
  lazymatch goal with |- match sha1_Round _ _ _ _ _ _ _ ?x with _ => _ end = _ =>
    replace x with (Sha1Spec.W blk (16 + t)) by (symmetry; exact (sha1_sched blk t Hb)) end; sha1_round.

Lemma sha1_Transform_ok s chunk : length s = 5%nat → (64 <= length chunk)%nat →
  sha1_Transform s chunk = Some (sha1_block s (take 64 chunk)).
Proof.
  intros Hs Hc. do 5 (destruct s as [|? s]; [done|]). destruct s; [|done]. clear Hs.
  unfold sha1_block. assert (Hr := λ i, ReadBE32_W1 chunk i Hc).
  assert (Hb : length (be_words core_32 (take 64 chunk)) = 16%nat) by done.
  revert Hr Hb. generalize (be_words core_32 (take 64 chunk)) as blk. intros blk Hr Hb.
  unfold Sha1Spec.compress. rewrite Sha1Spec.sha1_schedule_W by done. cbn [lookup_total list_lookup_total].
  match goal with |- ?l = Some (match ?R with Sha1Spec.Regs _ _ _ _ _ => _ end) =>
    set (fin := λ r, match r with Sha1Spec.Regs a b c d e =>
      Some [u32 (a + z); u32 (b + z0); u32 (c + z1); u32 (d + z2); u32 (e + z3)] end);
    transitivity (fin R); [|by unfold fin; destruct R] end.
  cbn [seq fmap list_fmap zip zip_with Nat.add].
  cbv beta delta [sha1_Transform] match.
  do_each 0%nat 16%nat ltac:(fun n => sha1_load Hr n).
  do_each 0%nat 61%nat ltac:(fun n => sha1_next blk Hb n).
  do_each 61%nat 3%nat ltac:(fun n => sha1_last blk Hb n).
  unfold fin. cbn [foldl].
  rewrite !(Z.add_comm z), !(Z.add_comm z0), !(Z.add_comm z1), !(Z.add_comm z2), !(Z.add_comm z3). done.
Qed.

Module RipemdSpec.

Definition rol (s x : Z) : Z := Z.lor (x <<₃₂ s) (x >> (32 - s)).
Definition neg (x : Z) : Z := u32 (Z.lnot x).

(** The functions and added constants, by the round of sixteen steps. *)
Definition f (j : nat) (x y z : Z) : Z :=
  match (j / 16)%nat with
  | 0%nat => x ⊻ y ⊻ z
  | 1%nat => Z.lor (x & y) (neg x & z)
  | 2%nat => Z.lor x (neg y) ⊻ z
  | 3%nat => Z.lor (x & z) (y & neg z)
  | _ => x ⊻ Z.lor y (neg z)
  end.
Definition K1 (j : nat) : Z := [0; 0x5A827999; 0x6ED9EBA1; 0x8F1BBCDC; 0xA953FD4E] !!! (j / 16)%nat.
Definition K2 (j : nat) : Z := [0x50A28BE6; 0x5C4DD124; 0x6D703EF3; 0x7A6D76E9; 0] !!! (j / 16)%nat.

(** Selection of message words and amounts of rotation, for both lines. *)
Definition r1 : list nat :=
  [0; 1; 2; 3; 4; 5; 6; 7; 8; 9; 10; 11; 12; 13; 14; 15;
   7; 4; 13; 1; 10; 6; 15; 3; 12; 0; 9; 5; 2; 14; 11; 8;
   3; 10; 14; 4; 9; 15; 8; 1; 2; 7; 0; 6; 13; 11; 5; 12;
   1; 9; 11; 10; 0; 8; 12; 4; 13; 3; 7; 15; 14; 5; 6; 2;
   4; 0; 5; 9; 7; 12; 2; 10; 14; 1; 3; 8; 11; 6; 15; 13]%nat.
Definition r2 : list nat :=
  [5; 14; 7; 0; 9; 2; 11; 4; 13; 6; 15; 8; 1; 10; 3; 12;
   6; 11; 3; 7; 0; 13; 5; 10; 14; 15; 8; 12; 4; 9; 1; 2;
   15; 5; 1; 3; 7; 14; 6; 9; 11; 8; 12; 2; 10; 0; 4; 13;
   8; 6; 4; 1; 3; 11; 15; 0; 5; 12; 2; 13; 9; 7; 10; 14;
   12; 15; 10; 4; 1; 5; 8; 7; 6; 2; 13; 14; 0; 3; 9; 11]%nat.
Definition s1 : list Z :=
  [11; 14; 15; 12; 5; 8; 7; 9; 11; 13; 14; 15; 6; 7; 9; 8;
   7; 6; 8; 13; 11; 9; 7; 15; 7; 12; 15; 9; 11; 7; 13; 12;
   11; 13; 6; 7; 14; 9; 13; 15; 14; 8; 13; 6; 5; 12; 7; 5;
   11; 12; 14; 15; 14; 15; 9; 8; 9; 14; 5; 6; 8; 6; 5; 12;
   9; 15; 5; 11; 6; 8; 13; 12; 5; 12; 13; 14; 11; 8; 5; 6].
Definition s2 : list Z :=
  [8; 9; 9; 11; 13; 15; 15; 5; 7; 7; 8; 11; 14; 14; 12; 6;
   9; 13; 15; 7; 12; 8; 9; 11; 7; 7; 12; 7; 6; 15; 13; 11;
   9; 7; 15; 11; 8; 6; 6; 14; 12; 13; 5; 14; 13; 13; 7; 5;
   15; 5; 8; 11; 14; 14; 6; 14; 6; 9; 12; 9; 12; 5; 15; 8;
   8; 5; 12; 9; 12; 5; 14; 6; 8; 13; 6; 5; 15; 13; 11; 11].

(** One step of a line, with the index, the word and the rotation. *)
Record regs := Regs { ra : Z; rb : Z; rc : Z; rd : Z; re : Z }.
Definition step (g : Z → Z → Z → Z) (k x s : Z) (r : regs) : regs :=
  let '(Regs a b c d e) := r in
  let t := u32 (rol s (u32 (a + g b c d + x + k)) + e) in
  Regs e t b (rol 10 c) d.
Definition left (r : regs) (p : nat * Z * Z) : regs := let '(j, x, s) := p in step (f j) (K1 j) x s r.
Definition right (r : regs) (p : nat * Z * Z) : regs := let '(j, x, s) := p in step (f (79 - j)) (K2 j) x s r.
Definition line (rr : list nat) (ss : list Z) (X : nat → Z) : list (nat * Z * Z) :=
  zip (zip (seq 0 80) (X <$> rr)) ss.

Definition combine (H : list Z) (l r : regs) : list Z :=
  let '(Regs a1 b1 c1 d1 e1) := l in
  let '(Regs a2 b2 c2 d2 e2) := r in
  [u32 (H !!! 1%nat + c1 + d2); u32 (H !!! 2%nat + d1 + e2); u32 (H !!! 3%nat + e1 + a2);
   u32 (H !!! 4%nat + a1 + b2); u32 (H !!! 0%nat + b1 + c2)].

Definition compress (H : list Z) (X : nat → Z) : list Z :=
  let h := Regs (H !!! 0%nat) (H !!! 1%nat) (H !!! 2%nat) (H !!! 3%nat) (H !!! 4%nat) in
  combine H (foldl left h (line r1 s1 X)) (foldl right h (line r2 s2 X)).

Definition H0 : list Z := [0x67452301; 0xefcdab89; 0x98badcfe; 0x10325476; 0xc3d2e1f0].
End RipemdSpec.
Import RipemdSpec.

Definition ripemd160_block (H blk : list Z) : list Z := compress H (λ i, le_val (slot 4 blk i)).

Lemma left_step j a b c d e x r a' c' l :
  ripemd160_Round a b c d e (f j b c d) x (K1 j) r = (a', c') →
  foldl left (Regs a b c d e) ((j, x, r) :: l) = foldl left (Regs e a' b c' d) l.
Proof. unfold ripemd160_Round. intros [= <- <-]. done. Qed.

Lemma right_step j a b c d e x r a' c' l :
  ripemd160_Round a b c d e (f (79 - j) b c d) x (K2 j) r = (a', c') →
  foldl right (Regs a b c d e) ((j, x, r) :: l) = foldl right (Regs e a' b c' d) l.
Proof. unfold ripemd160_Round. intros [= <- <-]. done. Qed.

Ltac ripemd_line step fold :=
  lazymatch goal with |- match ?R with _ => _ end = ?r =>
  lazymatch r with context [foldl fold (Regs ?a ?b ?c ?d ?e) ((?j, ?x, ?s) :: ?l)] =>
    let E := fresh in
    destruct R as [? ?] eqn:E; cbv match;
    rewrite (step j a b c d e x s _ _ l E); clear E
  end end.
Ltac ripemd_round := ripemd_line left_step left; ripemd_line right_step right.

Lemma ripemd160_Transform_ok s chunk : length s = 5%nat → (64 <= length chunk)%nat →
  ripemd160_Transform s chunk = Some (ripemd160_block s (take 64 chunk)).
Proof.
  intros Hs Hc. do 5 (destruct s as [|? s]; [done|]). destruct s; [|done]. clear Hs.
  unfold ripemd160_block, compress.
  set (X := λ i, le_val (slot 4 (take 64 chunk) i)).
  assert (Hr : ∀ i, (i < 16)%nat → ReadLE32 chunk (4 * i) = Some (X i)).
  { intros i Hi. unfold X. rewrite ReadLE32_word, slot_take by lia. done. }
  clearbody X.
  cbn [line r1 r2 s1 s2 seq fmap list_fmap zip zip_with lookup_total list_lookup_total].
  match goal with |- ?m = Some (combine ?H ?L ?R) => set (fin := λ l r, Some (combine H l r)); change (m = fin L R) end.
  cbv beta delta [ripemd160_Transform] match.
  do_each 0%nat 16%nat ltac:(fun n => refine (bind_known _ _ _ _ (Hr n ltac:(lia)) _); cbv beta).
  do 80 ripemd_round. done.
Qed.

Lemma div_mod_64 k : k = (64 * (k / 64) + k mod 64)%nat.
Proof. apply Nat.div_mod. lia. Qed.

Lemma u64_add_l x y : u64 (u64 x + y) = u64 (x + y).
Proof. unfold u64. by rewrite Zplus_mod_idemp_l. Qed.

Lemma u64_mod_64 x : u64 x mod 64 = x mod 64.
Proof. unfold u64. apply Z.mod_mod_divide. exists (2 ^ 58). done. Qed.

(** ** The iterated construction *)

Section md.
(** The size of the chaining value, the compression function on blocks of 64 bytes
    and its implementation. *)
Context (n : nat) (f : list Z → list Z → list Z) (Transform : list Z → list Z → option (list Z)).
Hypothesis f_length : ∀ s b, length s = n → length (f s b) = n.
Hypothesis Transform_ok : ∀ s chunk, length s = n → (64 <= length chunk)%nat →
  Transform s chunk = Some (f s (take 64 chunk)).

Definition absorb64 (k : nat) (H m : list Z) : list Z := foldl (λ H i, f H (slot 64 m i)) H (seq 0 k).

Lemma absorb64_S k H m : absorb64 (S k) H m = f (absorb64 k H m) (slot 64 m k).
Proof using Type. unfold absorb64. by rewrite seq_S, foldl_app. Qed.

Lemma length_absorb64 k H m : length H = n → length (absorb64 k H m) = n.
Proof using f_length. intros HH. induction k as [|k IH]; [done|]. rewrite absorb64_S. by apply f_length. Qed.

Lemma absorb64_prefix k H a b : (64 * k <= length a)%nat → absorb64 k H (a ++ b) = absorb64 k H a.
Proof using Type.
  induction k as [|k IH]; intros Hk; [done|]. rewrite !absorb64_S, IH by lia. f_equal.
  unfold slot. rewrite drop_app_le, take_app_le by (rewrite ?length_drop; lia). done.
Qed.

Lemma absorb64_app i k H a b : length a = (64 * i)%nat →
  absorb64 (i + k) H (a ++ b) = absorb64 k (absorb64 i H a) b.
Proof using Type.
  intros Ha. induction k as [|k IH].
  - rewrite Nat.add_0_r, absorb64_prefix by lia. done.
  - rewrite Nat.add_succ_r, !absorb64_S, IH. f_equal. unfold slot. rewrite drop_app_ge by lia. do 2 f_equal. lia.
Qed.

(** An object into which [m] was written. *)
Record represents (H0 m : list Z) (o : hasher) : Prop := {
  rep_state : h_s o = absorb64 (length m / 64) H0 m;
  rep_buf : length (h_buf o) = 64%nat;
  rep_rest : take (length m mod 64) (h_buf o) = drop (64 * (length m / 64)) m;
  rep_bytes : h_bytes o = u64 (Z.of_nat (length m));
}.

Context (H0 : list Z).
Abbreviation rep := (represents H0).

Lemma rep_length m o : length H0 = n → rep m o → length (h_s o) = n.
Proof using f_length. intros HH [-> _ _ _]. by apply length_absorb64. Qed.

Lemma rep_bufsize m o : rep m o → Z.to_nat (h_bytes o mod 64) = (length m mod 64)%nat.
Proof using Type. intros [_ _ _ ->]. rewrite u64_mod_64. change 64 with (Z.of_nat 64). by rewrite <-Nat2Z.inj_mod, Nat2Z.id. Qed.

(** Whole blocks on top of whole blocks. *)
Lemma rep_blocks m o k d : rep m o → (length m mod 64 = 0)%nat → length d = (64 * k)%nat →
  rep (m ++ d) {| h_s := absorb64 k (h_s o) d; h_buf := h_buf o; h_bytes := u64 (h_bytes o + Z.of_nat (64 * k)) |}.
Proof using Type.
  intros [Hs Hb Hr Hy] Hm Hd. pose proof (div_mod_64 (length m)) as Hl.
  assert (Hq : (length (m ++ d) / 64 = length m / 64 + k)%nat).
  { rewrite length_app, Hd, (Nat.mul_comm 64 k), Nat.div_add by lia. done. }
  split; cbn [h_s h_buf h_bytes].
  - rewrite Hq, absorb64_app, Hs by lia. done.
  - done.
  - rewrite Hq, length_app, Hd, (Nat.mul_comm 64 k), Nat.Div0.mod_add, Hm, take_0.
    rewrite drop_ge by (rewrite length_app; lia). done.
  - rewrite Hy, u64_add_l, length_app, Hd. f_equal. lia.
Qed.

(** One block that the buffer and new data make up. *)
Lemma rep_fill m o d buf : rep m o → (length m mod 64 + length d = 64)%nat →
  length buf = 64%nat → buf = take (length m mod 64) (h_buf o) ++ d →
  rep (m ++ d) {| h_s := f (h_s o) buf; h_buf := buf; h_bytes := u64 (h_bytes o + Z.of_nat (length d)) |}.
Proof using Type.
  intros [Hs Hb Hr Hy] Hd Hlb Hbuf. pose proof (div_mod_64 (length m)) as Hl.
  assert (Hlen : length (m ++ d) = ((length m / 64 + 1) * 64)%nat) by (rewrite length_app; lia).
  assert (Hq : (length (m ++ d) / 64 = S (length m / 64))%nat) by (rewrite Hlen, Nat.div_mul by lia; lia).
  split; cbn [h_s h_buf h_bytes].
  - rewrite Hq, absorb64_S, absorb64_prefix, Hs, Hbuf, Hr by lia. f_equal. unfold slot.
    rewrite drop_app_le by lia. rewrite (Nat.mul_comm _ 64), take_ge; [done|]. rewrite length_app, length_drop. lia.
  - done.
  - rewrite Hlen at 1. rewrite Nat.Div0.mod_mul, take_0, drop_ge by lia. done.
  - rewrite Hy, u64_add_l, length_app. f_equal. lia.
Qed.

(** Data that stays in the buffer. *)
Lemma keep_rest_ok m o d : rep m o → (length m mod 64 + length d < 64)%nat →
  wp (keep_rest o d (length m mod 64)) (rep (m ++ d)).
Proof using Type.
  intros [Hs Hb Hr Hy] Hd. unfold keep_rest. case_decide as Hz.
  - pose proof (div_mod_64 (length m)) as Hl. rewrite write_Some by lia. cbn [mbind option_bind wp].
    assert (Hq : (length (m ++ d) / 64 = length m / 64)%nat).
    { rewrite length_app. symmetry. apply (Nat.div_unique _ _ _ (length m mod 64 + length d)); lia. }
    assert (Hmod : (length (m ++ d) mod 64 = length m mod 64 + length d)%nat).
    { pose proof (div_mod_64 (length (m ++ d))). rewrite length_app in *. lia. }
    split; cbn [h_s h_buf h_bytes].
    + rewrite Hq, absorb64_prefix, Hs by lia. done.
    + rewrite length_put; lia.
    + rewrite Hq, Hmod. unfold put. rewrite take_app_ge by (rewrite length_take; lia).
      rewrite length_take, Nat.min_l by lia. rewrite take_app_le, (take_ge d) by lia.
      rewrite Hr, drop_app_le by lia. done.
    + rewrite Hy, u64_add_l, length_app. f_equal. lia.
  - assert (d = []) as -> by (destruct d; [done|cbn in *; lia]). rewrite app_nil_r. by split.
Qed.

Lemma fill_buffer_ok m o data : length H0 = n → rep m o →
  wp (fill_buffer Transform o data) (λ '(o', rest, bufsize), ∃ d, data = d ++ rest ∧ rep (m ++ d) o' ∧
    bufsize = (length (m ++ d) mod 64)%nat ∧ (bufsize = 0 ∨ bufsize + length rest < 64)%nat).
Proof using f_length Transform_ok.
  intros HH Ho. unfold fill_buffer. rewrite (rep_bufsize m o Ho). case_decide as Hd.
  - destruct Hd as [Hz Hlen]. pose proof (rep_buf _ _ _ Ho) as Hb.
    assert (Hm : (length m mod 64 < 64)%nat) by (apply Nat.mod_upper_bound; lia).
    assert (Hlt : length (take (64 - length m mod 64) data) = (64 - length m mod 64)%nat) by (rewrite length_take; lia).
    set (d := take (64 - length m mod 64) data) in *.
    rewrite write_Some by lia. cbn [mbind option_bind].
    assert (Hput : put (h_buf o) (length m mod 64) d = take (length m mod 64) (h_buf o) ++ d).
    { unfold put. rewrite (drop_ge (h_buf o)), app_nil_r by lia. done. }
    rewrite Hput. assert (Hbl : length (take (length m mod 64) (h_buf o) ++ d) = 64%nat) by (rewrite length_app, length_take; lia).
    rewrite Transform_ok by (rewrite ?(rep_length m o HH Ho); lia). cbn [mbind option_bind wp].
    rewrite (take_ge (_ ++ d)) by lia. rewrite <-Hlt. exists d.
    pose proof (rep_fill m o d _ Ho ltac:(lia) Hbl eq_refl) as Hrep.
    split_and!; [rewrite Hlt; symmetry; apply take_drop|done| |by left].
    rewrite length_app. pose proof (div_mod_64 (length m)).
    apply (Nat.mod_unique _ _ (length m / 64 + 1)); lia.
  - cbn [wp]. exists []. rewrite app_nil_r. split_and!; [done|done|done|lia].
Qed.

(** The parts of [Write] together, for any treatment of whole blocks. *)
Lemma write_ok (whole : hasher → list Z → option (hasher * list Z)) m o data :
  (∀ m o data, rep m o → (length m mod 64 = 0 ∨ length m mod 64 + length data < 64)%nat →
    wp (whole o data) (λ '(o', rest), ∃ d, data = d ++ rest ∧ rep (m ++ d) o' ∧
      length (m ++ d) mod 64 = length m mod 64 ∧ length m mod 64 + length rest < 64)%nat) →
  length H0 = n → rep m o →
  wp ('(o, data, bufsize) ← fill_buffer Transform o data; '(o, data) ← whole o data; keep_rest o data bufsize)
     (rep (m ++ data)).
Proof using f_length Transform_ok.
  intros Hw HH Ho. eapply wp_then; [by apply fill_buffer_ok|]. intros [[o1 r1] b] (d1 & -> & H1 & -> & Hb).
  eapply wp_then; [by apply (Hw _ _ _ H1)|]. intros [o2 r2] (d2 & -> & H2 & Hm & Hlt).
  rewrite app_assoc, (app_assoc (m ++ d1)), <-Hm. rewrite <-Hm in Hlt. by apply keep_rest_ok.
Qed.
End md.

(** ** Whole blocks, in both ways *)

(** The requirement of [write_ok] on the part of [Write] that consumes blocks. *)
Definition consumes f (H0 : list Z) (whole : hasher → list Z → option (hasher * list Z)) : Prop :=
  ∀ m o data, represents f H0 m o → (length m mod 64 = 0 ∨ length m mod 64 + length data < 64)%nat →
    wp (whole o data) (λ '(o', rest), ∃ d, data = d ++ rest ∧ represents f H0 (m ++ d) o' ∧
      length (m ++ d) mod 64 = length m mod 64 ∧ length m mod 64 + length rest < 64)%nat.

Lemma mod_app_blocks (m d : list Z) k : length d = (64 * k)%nat → (length (m ++ d) mod 64 = length m mod 64)%nat.
Proof. intros Hd. rewrite length_app, Hd, (Nat.mul_comm 64 k). apply Nat.Div0.mod_add. Qed.

Lemma full_chunks_ok n f Transform H0 :
  (∀ s b, length s = n → length (f s b) = n) →
  (∀ s chunk, length s = n → (64 <= length chunk)%nat → Transform s chunk = Some (f s (take 64 chunk))) →
  length H0 = n → consumes f H0 (full_chunks Transform).
Proof.
  intros Hf HT HH m o data Ho Hm. unfold full_chunks.
  apply (wp_loop_measure (λ '(o', rest), ∃ d, data = d ++ rest ∧ represents f H0 (m ++ d) o' ∧
      (length (m ++ d) mod 64 = length m mod 64)%nat ∧ (length m mod 64 = 0 ∨ length m mod 64 + length rest < 64)%nat)
    (λ '(_, rest), length rest)).
  - exists []. by rewrite app_nil_r.
  - lia.
  - intros [o' rest] (d & -> & Hr & Hd & Hc). case_decide as Hl.
    + assert (Hz : (length m mod 64 = 0)%nat) by lia.
      rewrite HT by (rewrite ?(rep_length n f Hf H0 _ _ HH Hr); done). cbn [mbind option_bind wp]. split.
      * exists (d ++ take 64 rest). rewrite <-app_assoc, take_drop, app_assoc.
        assert (Hk : length (take 64 rest) = (64 * 1)%nat) by (rewrite length_take; lia).
        split_and!; [done| |by rewrite (mod_app_blocks _ _ 1)|by left].
        pose proof (rep_blocks f H0 (m ++ d) o' 1 (take 64 rest) Hr ltac:(lia) Hk) as Hb.
        cbn [absorb64 seq foldl] in Hb. unfold slot in Hb. by rewrite Nat.mul_0_l, drop_0, take_take, Nat.min_id in Hb.
      * rewrite length_drop. lia.
    + cbn [wp]. exists d. split_and!; [done|done|done|lia].
Qed.

(** ** The three classes *)

Lemma length_sha256_block s b : length s = 8%nat → length (sha256_block s b) = 8%nat.
Proof.
  intros Hs. unfold sha256_block, Sha2Spec.compress, add_state. destruct (foldl _ _ _). rewrite length_zip_with, Hs. done.
Qed.
Lemma length_sha1_block s b : length (sha1_block s b) = 5%nat.
Proof. unfold sha1_block, Sha1Spec.compress. by destruct (foldl _ _ _). Qed.
Lemma length_ripemd160_block s b : length (ripemd160_block s b) = 5%nat.
Proof. unfold ripemd160_block, RipemdSpec.compress, RipemdSpec.combine. by destruct (foldl _ _ _), (foldl _ _ _). Qed.

Lemma sha256_Transform_ok s chunk k : length s = 8%nat → (64 * k <= length chunk)%nat →
  sha256_Transform s chunk k = Some (absorb64 sha256_block k s chunk).
Proof.
  intros Hs Hk. unfold sha256_Transform. apply wp_eq.
  apply (wp_for (λ i st, st = absorb64 sha256_block i s chunk)); [done| |by intros ? ->].
  intros i st Hi ->.
  rewrite sha256_Transform1_ok by (rewrite ?(length_absorb64 8 _ length_sha256_block) by done; rewrite ?length_drop; done || lia).
  cbn [wp]. rewrite absorb64_S. unfold slot. by rewrite (Nat.mul_comm i 64).
Qed.

(** The state of each class that represents a message. *)
Definition rep256 := represents sha256_block sha256_Initialize.
Definition rep1 := represents sha1_block sha1_Initialize.
Definition rep160 := represents ripemd160_block ripemd160_Initialize.

Lemma represents_nil f H0 buf : length buf = 64%nat → represents f H0 [] {| h_s := H0; h_buf := buf; h_bytes := 0 |}.
Proof. intros. by split. Qed.

Lemma sha256_blocks_ok : consumes sha256_block sha256_Initialize (λ o data,
  if decide (64 <= length data)%nat then
    let blocks := (length data / 64)%nat in
    s ← sha256_Transform (h_s o) data blocks;
    Some ({| h_s := s; h_buf := h_buf o; h_bytes := u64 (h_bytes o + Z.of_nat (64 * blocks)) |}, drop (64 * blocks) data)
  else Some (o, data)).
Proof.
  intros m o data Ho Hm. case_decide as Hl.
  - pose proof (div_mod_64 (length data)) as Hd. assert (Hz : (length m mod 64 = 0)%nat) by lia.
    assert (Hr : (length data mod 64 < 64)%nat) by (apply Nat.mod_upper_bound; lia).
    set (k := (length data / 64)%nat) in *. cbv zeta.
    pose proof (rep_length 8 _ length_sha256_block sha256_Initialize _ _ eq_refl Ho) as Hs.
    rewrite sha256_Transform_ok by (exact Hs || lia).
    cbn [mbind option_bind wp]. exists (take (64 * k) data).
    assert (Hk : length (take (64 * k) data) = (64 * k)%nat) by (rewrite length_take; lia).
    split_and!; [by rewrite take_drop| |by apply (mod_app_blocks _ _ k)|rewrite length_drop; lia].
    rewrite <-(take_drop (64 * k) data) at 2. rewrite absorb64_prefix by lia. by apply rep_blocks.
  - cbn [wp]. exists []. rewrite app_nil_r. split_and!; [done|done|done|lia].
Qed.

Lemma CSHA256_Write_ok m o data : rep256 m o → wp (CSHA256_Write o data) (rep256 (m ++ data)).
Proof.
  apply (write_ok 8 _ _ length_sha256_block); [|exact sha256_blocks_ok|done].
  intros s chunk Hs Hc. rewrite sha256_Transform_ok by (done || lia). unfold absorb64, slot. cbn [seq foldl].
  by rewrite Nat.mul_0_l, drop_0.
Qed.

Lemma CSHA1_Write_ok m o data : rep1 m o → wp (CSHA1_Write o data) (rep1 (m ++ data)).
Proof.
  apply (write_ok 5 _ _ (λ s b _, length_sha1_block s b) sha1_Transform_ok); [|done].
  apply (full_chunks_ok 5); [by intros; apply length_sha1_block|exact sha1_Transform_ok|done].
Qed.

Lemma CRIPEMD160_Write_ok m o data : rep160 m o → wp (CRIPEMD160_Write o data) (rep160 (m ++ data)).
Proof.
  apply (write_ok 5 _ _ (λ s b _, length_ripemd160_block s b) ripemd160_Transform_ok); [|done].
  apply (full_chunks_ok 5); [by intros; apply length_ripemd160_block|exact ripemd160_Transform_ok|done].
Qed.

(** ** Padding *)

(** One bit, zeros, the length in bits in the given byte order; the hash. *)
Definition md_pad (enc : Z → list Z) (m : list Z) : list Z :=
  let k := ((64 - (length m + 1 + 8) mod 64) mod 64)%nat in
  m ++ [0x80] ++ replicate k 0 ++ enc (8 * Z.of_nat (length m)).
Definition md_hash (f : list Z → list Z → list Z) (H0 : list Z) (enc out : Z → list Z) (m : list Z) : list Z :=
  absorb64 f (length (md_pad enc m) / 64) H0 (md_pad enc m) ≫= out.

(** SHA-1 (FIPS 180-4) and RIPEMD-160. *)
Definition SHA1 (m : list Z) : list Z := md_hash sha1_block Sha1Spec.H0 (be_bytes 8) (be_bytes 4) m.
Definition RIPEMD160 (m : list Z) : list Z := md_hash ripemd160_block RipemdSpec.H0 (le_bytes 8) (le_bytes 4) m.

Lemma SHA256_md m : SHA256 m = md_hash sha256_block sha256_Initialize (be_bytes 8) (be_bytes 4) m.
Proof.
  rewrite SHA256_core. unfold sha2, md_hash, md_pad, pad, absorb64, absorb.
  change (block_bytes core_32) with 64%nat. change (len_bytes core_32) with 8%nat. change (word_bytes core_32) with 4%nat.
  change sha256_Initialize with H0_256. unfold sha256_block. cbv zeta. reflexivity.
Qed.

Lemma take_hash_pad k : (k < 64)%nat → take (S k) hash_pad = 0x80 :: replicate k 0.
Proof. intros. unfold hash_pad. cbn [take]. by rewrite take_replicate, Nat.min_l by lia. Qed.

Lemma pad_count (l : nat) : Z.to_nat (1 + (119 - u64 (Z.of_nat l) mod 64) mod 64) = S ((64 - (l + 1 + 8) mod 64) mod 64)%nat.
Proof.
  rewrite u64_mod_64. apply Nat2Z.inj. pose proof (Z.mod_pos_bound (119 - Z.of_nat l mod 64) 64 eq_refl).
  rewrite Z2Nat.id, Nat2Z.inj_succ, Nat2Z.inj_mod, Nat2Z.inj_sub, Nat2Z.inj_mod by (try apply Nat.lt_le_incl, Nat.mod_upper_bound; lia).
  rewrite !Nat2Z.inj_add. change (Z.of_nat 64) with 64. change (Z.of_nat 1) with 1. change (Z.of_nat 8) with 8.
  Z.to_euclidean_division_equations. lia.
Qed.

Lemma encoded_count (enc : Z → list Z) (l : nat) : (∀ x, enc (u64 x) = enc x) → enc (u64 (Z.shiftl (u64 (Z.of_nat l)) 3)) = enc (8 * Z.of_nat l).
Proof.
  intros He. rewrite Z.shiftl_mul_pow2 by lia. rewrite <-(He (8 * Z.of_nat l)). f_equal. unfold u64.
  rewrite Zmult_mod_idemp_l. f_equal. lia.
Qed.

Lemma be_bytes_u64 x : be_bytes 8 (u64 x) = be_bytes 8 x.
Proof. apply be_bytes_mod. Qed.
Lemma le_bytes_u64 x : le_bytes 8 (u64 x) = le_bytes 8 x.
Proof.
  rewrite <-(le_bytes_le_val (le_bytes 8 x)) by apply le_bytes_bytes.
  by rewrite length_le_bytes, le_val_le_bytes.
Qed.

(** [Finalize], for a [Write] that keeps the representation. *)
Lemma finalize_ok f H0 (Write : hasher → list Z → option hasher) (enc out : Z → list Z) m o :
  (∀ m o data, represents f H0 m o → wp (Write o data) (represents f H0 (m ++ data))) →
  (∀ x, enc (u64 x) = enc x) → (∀ x, length (enc x) = 8%nat) → represents f H0 m o →
  wp (let sizedesc := enc (u64 (Z.shiftl (h_bytes o) 3)) in
      o ← Write o (take (Z.to_nat (1 + (119 - h_bytes o mod 64) mod 64)) hash_pad);
      o ← Write o sizedesc;
      Some (h_s o ≫= out, o))
     (λ '(d, o'), d = md_hash f H0 enc out m ∧ length (h_buf o') = 64%nat).
Proof.
  intros HW He Hel Ho. cbv zeta. rewrite (rep_bytes _ _ _ _ Ho), pad_count, encoded_count by done.
  rewrite take_hash_pad by (apply Nat.mod_upper_bound; lia).
  eapply wp_then; [by apply HW|]. intros o1 H1. eapply wp_then; [by apply (HW _ _ _ H1)|]. intros o2 H2. cbn [wp].
  split; [|by apply (rep_buf _ _ _ _ H2)].
  rewrite (rep_state _ _ _ _ H2). unfold md_hash. f_equal. unfold md_pad. by rewrite <-app_assoc.
Qed.

Lemma CSHA256_Finalize_ok m o : rep256 m o →
  wp (CSHA256_Finalize o) (λ '(d, o'), d = SHA256 m ∧ length (h_buf o') = 64%nat).
Proof.
  rewrite SHA256_md. apply (finalize_ok _ _ CSHA256_Write (be_bytes 8) (be_bytes 4));
    [exact CSHA256_Write_ok|exact be_bytes_u64|apply length_be_bytes].
Qed.
Lemma CSHA1_Finalize_ok m o : rep1 m o →
  wp (CSHA1_Finalize o) (λ '(d, o'), d = SHA1 m ∧ length (h_buf o') = 64%nat).
Proof.
  apply (finalize_ok _ _ CSHA1_Write (be_bytes 8) (be_bytes 4)); [exact CSHA1_Write_ok|exact be_bytes_u64|apply length_be_bytes].
Qed.
Lemma CRIPEMD160_Finalize_ok m o : rep160 m o →
  wp (CRIPEMD160_Finalize o) (λ '(d, o'), d = RIPEMD160 m ∧ length (h_buf o') = 64%nat).
Proof.
  apply (finalize_ok _ _ CRIPEMD160_Write (le_bytes 8) (le_bytes 4));
    [exact CRIPEMD160_Write_ok|exact le_bytes_u64|apply length_le_bytes].
Qed.

(** ** Sequences of calls *)

Fixpoint write_all (Write : hasher → list Z → option hasher) (o : hasher) (chunks : list (list Z)) : option hasher :=
  match chunks with [] => Some o | d :: chunks => o ← Write o d; write_all Write o chunks end.

Lemma write_all_ok (R : list Z → hasher → Prop) Write m o chunks :
  (∀ m o data, R m o → wp (Write o data) (R (m ++ data))) → R m o →
  wp (write_all Write o chunks) (R (m ++ concat chunks)).
Proof.
  intros HW. revert m o. induction chunks as [|d chunks IH]; intros m o Ho; cbn [write_all concat]; [by rewrite app_nil_r|].
  eapply wp_then; [by apply HW|]. intros o1 H1. rewrite app_assoc. by apply IH.
Qed.

(** The digest that a specification of the pair names. *)
Lemma digest_eq {A B} (m : option (A * B)) d (P : B → Prop) : wp m (λ '(x, y), x = d ∧ P y) → fst <$> m = Some d.
Proof. destruct m as [[x y]|]; [|done]. by intros [-> _]. Qed.

Lemma session_eq (R : list Z → hasher → Prop) Write Finalize (H : list Z → list Z) o chunks :
  (∀ m o data, R m o → wp (Write o data) (R (m ++ data))) →
  (∀ m o, R m o → wp (Finalize o) (λ '(d, o'), d = H m ∧ length (h_buf o') = 64%nat)) → R [] o →
  (o ← write_all Write o chunks; fst <$> Finalize o) = Some (H (concat chunks)).
Proof.
  intros HW HF Ho. apply wp_eq. eapply wp_then; [by apply (write_all_ok R)|]. intros o1 H1. cbn [app] in H1.
  apply wp_eq. by eapply digest_eq, HF.
Qed.

Lemma once_eq (R : list Z → hasher → Prop) Write Finalize (H : list Z → list Z) o x :
  (∀ m o data, R m o → wp (Write o data) (R (m ++ data))) →
  (∀ m o, R m o → wp (Finalize o) (λ '(d, o'), d = H m ∧ length (h_buf o') = 64%nat)) → R [] o →
  (o ← Write o x; fst <$> Finalize o) = Some (H x).
Proof.
  intros HW HF Ho. pose proof (session_eq R Write Finalize H o [x] HW HF Ho) as E. cbn [write_all concat] in E.
  rewrite app_nil_r in E. rewrite <-E. by destruct (Write o x).
Qed.

Section hashers.
Context {U : Uninit}.

Lemma rep256_new : rep256 [] CSHA256_new.
Proof. apply represents_nil, length_uninit. Qed.
Lemma rep1_new : rep1 [] CSHA1_new.
Proof. apply represents_nil, length_uninit. Qed.
Lemma rep160_new : rep160 [] CRIPEMD160_new.
Proof. apply represents_nil, length_uninit. Qed.
Lemma rep256_Reset o : length (h_buf o) = 64%nat → rep256 [] (CSHA256_Reset o).
Proof. apply represents_nil. Qed.

Lemma sha256_once_eq x : sha256_once x = Some (SHA256 x).
Proof. apply (once_eq rep256); [exact CSHA256_Write_ok|exact CSHA256_Finalize_ok|exact rep256_new]. Qed.
Lemma sha1_once_eq x : sha1_once x = Some (SHA1 x).
Proof. apply (once_eq rep1); [exact CSHA1_Write_ok|exact CSHA1_Finalize_ok|exact rep1_new]. Qed.
Lemma ripemd160_once_eq x : ripemd160_once x = Some (RIPEMD160 x).
Proof. apply (once_eq rep160); [exact CRIPEMD160_Write_ok|exact CRIPEMD160_Finalize_ok|exact rep160_new]. Qed.

(** The double hash at the end of [CHash256] and [HashWriter]. *)
Lemma GetHash_ok m o : rep256 m o →
  wp (HashWriter_GetHash o) (λ '(d, o'), d = SHA256 (SHA256 m) ∧ length (h_buf o') = 64%nat).
Proof.
  intros Ho. unfold HashWriter_GetHash. eapply wp_then; [by apply CSHA256_Finalize_ok|]. intros [d o1] [-> Hb].
  eapply wp_then; [by apply CSHA256_Write_ok, rep256_Reset|]. intros o2 H2. by apply CSHA256_Finalize_ok.
Qed.

Lemma CHash160_Finalize_ok m o : rep256 m o →
  wp (CHash160_Finalize o) (λ '(d, o'), d = RIPEMD160 (SHA256 m) ∧ length (h_buf o') = 64%nat).
Proof.
  intros Ho. unfold CHash160_Finalize. eapply wp_then; [by apply CSHA256_Finalize_ok|]. intros [d o1] [-> Hb].
  eapply wp_then; [by apply CRIPEMD160_Write_ok, rep160_new|]. intros o2 H2.
  eapply wp_then; [by apply CRIPEMD160_Finalize_ok|]. intros [d o3] [-> _]. done.
Qed.

Lemma TaggedHash_writer_ok tag : wp (TaggedHash_writer tag) (rep256 (SHA256 tag ++ SHA256 tag)).
Proof.
  unfold TaggedHash_writer. eapply wp_then; [by apply CSHA256_Write_ok, rep256_new|]. intros o1 H1.
  eapply wp_then; [by apply CSHA256_Finalize_ok|]. intros [d o2] [-> _]. cbn [app].
  eapply wp_then; [by apply CSHA256_Write_ok, rep256_new|]. intros o3 H3. by apply CSHA256_Write_ok.
Qed.

(** ** The instance of [NodeCrypto]

    The functions of the elliptic-curve library remain arguments. *)
Context (lowS : list Z → bool) (tweak : list Z → list Z → list Z → bool → bool) (ecdsa schnorr : list Z → list Z → list Z → bool).

Definition node_crypto : NodeCrypto := {|
  CRIPEMD160 x := default [] (ripemd160_once x);
  CSHA1 x := default [] (sha1_once x);
  CSHA256 x := default [] (sha256_once x);
  CheckLowS := lowS;
  CheckTapTweak := tweak;
  CPubKey_Verify := ecdsa;
  VerifySchnorr := schnorr;
|}.

Lemma bind_out (out : Z → list Z) (l : list Z) k :
  (∀ x, length (out x) = k ∧ bytes (out x)) → length (l ≫= out) = (length l * k)%nat ∧ bytes (l ≫= out).
Proof.
  intros Ho. induction l as [|x l [IHl IHb]]; [done|]. cbn [mbind list_bind]. destruct (Ho x) as [Hl Hb].
  split; [rewrite length_app, Hl, IHl; cbn; lia|by apply Forall_app].
Qed.

Lemma md_hash_out n f H0 enc (out : Z → list Z) m :
  (∀ s b, length s = n → length (f s b) = n) → length H0 = n → (∀ x, length (out x) = 4%nat ∧ bytes (out x)) →
  length (md_hash f H0 enc out m) = (n * 4)%nat ∧ bytes (md_hash f H0 enc out m).
Proof.
  intros Hf HH Ho. unfold md_hash. rewrite <-(length_absorb64 n f Hf (length (md_pad enc m) / 64) H0 (md_pad enc m) HH).
  by apply bind_out.
Qed.

Lemma SHA256_out x : length (SHA256 x) = 32%nat ∧ bytes (SHA256 x).
Proof. rewrite SHA256_md. apply (md_hash_out 8); [exact length_sha256_block|done|]. split; [apply length_be_bytes|apply be_bytes_bytes]. Qed.
Lemma SHA1_out x : length (SHA1 x) = 20%nat ∧ bytes (SHA1 x).
Proof. apply (md_hash_out 5); [by intros; apply length_sha1_block|done|]. split; [apply length_be_bytes|apply be_bytes_bytes]. Qed.
Lemma RIPEMD160_out x : length (RIPEMD160 x) = 20%nat ∧ bytes (RIPEMD160 x).
Proof. apply (md_hash_out 5); [by intros; apply length_ripemd160_block|done|]. split; [apply length_le_bytes|apply le_bytes_bytes]. Qed.

#[export] Instance node_crypto_laws : NodeCryptoLaws node_crypto.
Proof.
  split; intros x; cbn [node_crypto CRIPEMD160 CSHA1 CSHA256];
    rewrite ?ripemd160_once_eq, ?sha1_once_eq, ?sha256_once_eq; cbn [default from_option id];
    lazymatch goal with
    | |- context [RIPEMD160] => apply RIPEMD160_out | |- context [SHA1] => apply SHA1_out | _ => apply SHA256_out end.
Qed.

(** C19 The hash classes of the node are SHA-256, SHA-1 (both of FIPS 180-4) and
    RIPEMD-160: whatever the uninitialised buffer held and however the data is split
    over [Write] calls, [Finalize] returns the hash of the concatenation, for data
    of every length. *)
Theorem node_hash_sessions (chunks : list (list Z)) :
  (o ← write_all CSHA256_Write CSHA256_new chunks; fst <$> CSHA256_Finalize o) = Some (SHA256 (concat chunks)) ∧
  (o ← write_all CSHA1_Write CSHA1_new chunks; fst <$> CSHA1_Finalize o) = Some (SHA1 (concat chunks)) ∧
  (o ← write_all CRIPEMD160_Write CRIPEMD160_new chunks; fst <$> CRIPEMD160_Finalize o) = Some (RIPEMD160 (concat chunks)).
Proof.
  split_and!.
  - apply (session_eq rep256); [exact CSHA256_Write_ok|exact CSHA256_Finalize_ok|exact rep256_new].
  - apply (session_eq rep1); [exact CSHA1_Write_ok|exact CSHA1_Finalize_ok|exact rep1_new].
  - apply (session_eq rep160); [exact CRIPEMD160_Write_ok|exact CRIPEMD160_Finalize_ok|exact rep160_new].
Qed.

(** The hashers of hash.h, as objects with their buffers, compute the functions
    that scripts, signature hashes and keys are modelled with: [Hash] of one or two
    strings, [Hash160], a [HashWriter] with any sequence of writes, and the writer of
    [TaggedHash]. *)
Theorem node_hashers_exact (x y tag : list Z) (chunks : list (list Z)) :
  Hash x = Some (CHash256 (H := node_crypto) x) ∧ Hash2 x y = Some (CHash256 (H := node_crypto) (x ++ y)) ∧
  Hash160 x = Some (CHash160 (H := node_crypto) x) ∧
  (ctx ← write_all HashWriter_write CSHA256_new chunks; fst <$> HashWriter_GetHash ctx)
    = Some (CHash256 (H := node_crypto) (concat chunks)) ∧
  (ctx ← write_all HashWriter_write CSHA256_new chunks; fst <$> HashWriter_GetSHA256 ctx)
    = Some (CSHA256 (NodeCrypto := node_crypto) (concat chunks)) ∧
  (ctx ← TaggedHash_writer tag; ctx ← write_all HashWriter_write ctx chunks; fst <$> HashWriter_GetSHA256 ctx)
    = Some (TaggedHash (H := node_crypto) tag (concat chunks)).
Proof.
  unfold CHash256, CHash160, TaggedHash. cbn [node_crypto CRIPEMD160 CSHA256]. cbv zeta.
  repeat (rewrite ?ripemd160_once_eq, ?sha256_once_eq; cbn [default from_option id]).
  split_and!.
  - apply (once_eq rep256 CSHA256_Write HashWriter_GetHash (λ m, SHA256 (SHA256 m)));
      [exact CSHA256_Write_ok|exact GetHash_ok|exact rep256_new].
  - unfold Hash2. apply wp_eq. eapply wp_then; [by apply CSHA256_Write_ok, rep256_new|]. intros o1 H1.
    eapply wp_then; [by apply CSHA256_Write_ok|]. intros o2 H2. apply wp_eq. by eapply digest_eq, GetHash_ok.
  - apply (once_eq rep256 CSHA256_Write CHash160_Finalize (λ m, RIPEMD160 (SHA256 m)));
      [exact CSHA256_Write_ok|exact CHash160_Finalize_ok|exact rep256_new].
  - apply (session_eq rep256 HashWriter_write HashWriter_GetHash (λ m, SHA256 (SHA256 m)));
      [exact CSHA256_Write_ok|exact GetHash_ok|exact rep256_new].
  - apply (session_eq rep256 HashWriter_write HashWriter_GetSHA256 SHA256);
      [exact CSHA256_Write_ok|exact CSHA256_Finalize_ok|exact rep256_new].
  - apply wp_eq. eapply wp_then; [apply TaggedHash_writer_ok|]. intros o1 H1.
    eapply wp_then; [by apply (write_all_ok rep256); [exact CSHA256_Write_ok|]|]. intros o2 H2. rewrite <-app_assoc in H2.
    apply wp_eq. by eapply digest_eq, CSHA256_Finalize_ok.
Qed.
End hashers.

(** Known values: the hashes of the three letters abc. *)
Definition abc : list Z := [97; 98; 99].
Example node_sha256_abc : be_val (SHA256 abc) = 0xba7816bf8f01cfea414140de5dae2223b00361a396177a9cb410ff61f20015ad.
Proof. by vm_compute. Qed.
Example sha1_abc : be_val (SHA1 abc) = 0xa9993e364706816aba3e25717850c26c9cd0d89d.
Proof. by vm_compute. Qed.
Example ripemd160_abc : be_val (RIPEMD160 abc) = 0x8eb208f7e05d987a9b044a8e98c6b087f15a0bfc.
Proof. by vm_compute. Qed.
