(* ===== verification/QPubKey.v ===== *)
(** Public keys of several kinds, [CQuantumPubKey] (crypto/quantum_key.h and
    .cpp).

    A key type read from a stream is cast from a byte, so values that the
    enumeration does not name can occur; they are [KeyType_other]. *)
From S2P Require Import Prelude Serial QSig Script Node.

Open Scope Z_scope.

Inductive KeyType := ECDSA | ML_DSA_65 | SLH_DSA_192F | KeyType_other (b : Z).
#[export] Instance KeyType_eq_dec : EqDecision KeyType.
Proof. solve_decision. Defined.

Definition KeyType_num (t : KeyType) : Z :=
  match t with ECDSA => 0x00 | ML_DSA_65 => 0x01 | SLH_DSA_192F => 0x02 | KeyType_other b => b end.
(** [static_cast<KeyType>]. *)
Definition to_KeyType (b : Z) : KeyType :=
  if b =? 0x00 then ECDSA else if b =? 0x01 then ML_DSA_65 else if b =? 0x02 then SLH_DSA_192F else KeyType_other b.

Record CQuantumPubKey := { pk_type : KeyType; m_vchPubKey : list Z }.
#[export] Instance CQuantumPubKey_eq_dec : EqDecision CQuantumPubKey.
Proof. solve_decision. Defined.

Definition CQuantumPubKey_default : CQuantumPubKey := {| pk_type := ECDSA; m_vchPubKey := [] |}.
(** From a [CPubKey]. *)
Definition CQuantumPubKey_of_CPubKey (pubkey : list Z) : CQuantumPubKey :=
  {| pk_type := ECDSA; m_vchPubKey := pubkey |}.

Definition CQuantumPubKey_IsValid (k : CQuantumPubKey) : bool :=
  match pk_type k with
  | ECDSA =>
      if (size (m_vchPubKey k) =? 33) || (size (m_vchPubKey k) =? 65)
      then CPubKey_IsValid (CPubKey_Set (m_vchPubKey k)) else false
  | ML_DSA_65 => size (m_vchPubKey k) =? ML_DSA_65_PUBKEY_SIZE
  | SLH_DSA_192F => size (m_vchPubKey k) =? SLH_DSA_192F_PUBKEY_SIZE
  | KeyType_other _ => false
  end.

(** A [CKeyID] is 20 bytes; the default one is zero. *)
Definition CKeyID_null : list Z := replicate 20 0.

Definition CQuantumPubKey_GetID `{NodeCrypto} (k : CQuantumPubKey) : list Z :=
  if negb (CQuantumPubKey_IsValid k) then CKeyID_null
  else if decide (pk_type k ≠ ECDSA) then CHash160 (KeyType_num (pk_type k) :: m_vchPubKey k)
  else CHash160 (m_vchPubKey k).

Definition GetCPubKey (k : CQuantumPubKey) : bool * list Z :=
  if decide (pk_type k ≠ ECDSA) then (false, []) else
  let pubkey := CPubKey_Set (m_vchPubKey k) in (CPubKey_IsValid pubkey, pubkey).

(** Serialization: a byte for the type, then the key as a vector of bytes. *)
Definition CQuantumPubKey_Serialize (k : CQuantumPubKey) (s : VectorWriter) : option VectorWriter :=
  s ← ser_writedata8 s (KeyType_num (pk_type k));
  s ← WriteCompactSize s (size (m_vchPubKey k));
  VectorWriter_write s (m_vchPubKey k).

(** Reading a vector of bytes (serialize.h), in blocks of at most five million. *)
Definition read_vector (s : DataStream) : option (list Z * DataStream) :=
  '(nSize, s) ← ReadCompactSize s true;
  loop (Z.to_nat (nSize / 5000000 + 2)) (λ '(i, v, s),
    if i <? nSize then
      let blk := Z.min (nSize - i) (1 + 4999999) in
      '(d, s) ← DataStream_read s (Z.to_nat blk);
      Some (Next (i + blk, v ++ d, s))
    else Some (Done (v, s))) (0, [], s).

Definition CQuantumPubKey_Unserialize (s : DataStream) : option (CQuantumPubKey * DataStream) :=
  '(type, s) ← ser_readdata8 s;
  '(v, s) ← read_vector s;
  Some ({| pk_type := to_KeyType type; m_vchPubKey := v |}, s).
