(* ===== verification/Interp.v ===== *)
(** The script interpreter (script/interpreter.cpp): condition stack, encoding
    checks, signature operations and the main loop [EvalScript] with every
    opcode.

    Lists that model stacks have the top first.  The signature checker is the
    record of the virtual functions of [BaseSignatureChecker]. *)
From S2P Require Import Prelude Serial QSig Script Node QPubKey.

Open Scope Z_scope.

(** ** Flags, versions and interfaces *)

Definition SCRIPT_VERIFY_P2SH : Z := 2 ^ 0.
Definition SCRIPT_VERIFY_STRICTENC : Z := 2 ^ 1.
Definition SCRIPT_VERIFY_DERSIG : Z := 2 ^ 2.
Definition SCRIPT_VERIFY_LOW_S : Z := 2 ^ 3.
Definition SCRIPT_VERIFY_NULLDUMMY : Z := 2 ^ 4.
Definition SCRIPT_VERIFY_SIGPUSHONLY : Z := 2 ^ 5.
Definition SCRIPT_VERIFY_MINIMALDATA : Z := 2 ^ 6.
Definition SCRIPT_VERIFY_DISCOURAGE_UPGRADABLE_NOPS : Z := 2 ^ 7.
Definition SCRIPT_VERIFY_CLEANSTACK : Z := 2 ^ 8.
Definition SCRIPT_VERIFY_CHECKLOCKTIMEVERIFY : Z := 2 ^ 9.
Definition SCRIPT_VERIFY_CHECKSEQUENCEVERIFY : Z := 2 ^ 10.
Definition SCRIPT_VERIFY_WITNESS : Z := 2 ^ 11.
Definition SCRIPT_VERIFY_DISCOURAGE_UPGRADABLE_WITNESS_PROGRAM : Z := 2 ^ 12.
Definition SCRIPT_VERIFY_MINIMALIF : Z := 2 ^ 13.
Definition SCRIPT_VERIFY_NULLFAIL : Z := 2 ^ 14.
Definition SCRIPT_VERIFY_WITNESS_PUBKEYTYPE : Z := 2 ^ 15.
Definition SCRIPT_VERIFY_CONST_SCRIPTCODE : Z := 2 ^ 16.
Definition SCRIPT_VERIFY_TAPROOT : Z := 2 ^ 17.
Definition SCRIPT_VERIFY_DISCOURAGE_UPGRADABLE_TAPROOT_VERSION : Z := 2 ^ 18.
Definition SCRIPT_VERIFY_DISCOURAGE_OP_SUCCESS : Z := 2 ^ 19.
Definition SCRIPT_VERIFY_DISCOURAGE_UPGRADABLE_PUBKEYTYPE : Z := 2 ^ 20.
Definition SCRIPT_VERIFY_QUANTUM_SIGS : Z := 2 ^ 21.

(** [flags & f] as a condition. *)
Definition has (flags f : Z) : bool := negb (Z.land flags f =? 0).

Inductive SigVersion := BASE | WITNESS_V0 | TAPROOT | TAPSCRIPT.
#[export] Instance SigVersion_eq_dec : EqDecision SigVersion.
Proof. solve_decision. Defined.

Definition pre_tapscript (v : SigVersion) : bool := bool_decide (v = BASE) || bool_decide (v = WITNESS_V0).

(** Fields that the code leaves unset are [0] and [[]] here; each has the flag of
    the code that says whether it is set. *)
Record ScriptExecutionData := {
  m_tapleaf_hash_init : bool;
  m_tapleaf_hash : list Z;
  m_codeseparator_pos_init : bool;
  m_codeseparator_pos : Z;
  m_annex_init : bool;
  m_annex_present : bool;
  m_annex_hash : list Z;
  m_validation_weight_left_init : bool;
  m_validation_weight_left : Z;
}.
Definition ScriptExecutionData_default : ScriptExecutionData :=
  Build_ScriptExecutionData false [] false 0 false false [] false 0.

Definition set_weight (e : ScriptExecutionData) (w : Z) : ScriptExecutionData :=
  Build_ScriptExecutionData (m_tapleaf_hash_init e) (m_tapleaf_hash e) (m_codeseparator_pos_init e)
    (m_codeseparator_pos e) (m_annex_init e) (m_annex_present e) (m_annex_hash e)
    (m_validation_weight_left_init e) w.
Definition set_codeseparator (e : ScriptExecutionData) (p : Z) : ScriptExecutionData :=
  Build_ScriptExecutionData (m_tapleaf_hash_init e) (m_tapleaf_hash e) true p (m_annex_init e)
    (m_annex_present e) (m_annex_hash e) (m_validation_weight_left_init e) (m_validation_weight_left e).

(** The virtual functions.  [CheckSchnorrSignature] returns its error. *)
Record BaseSignatureChecker := {
  CheckECDSASignature : list Z → list Z → list Z → SigVersion → outcome bool;
  CheckSchnorrSignature : list Z → list Z → SigVersion → ScriptExecutionData → outcome unit;
  CheckLockTime : Z → outcome bool;
  CheckSequence : Z → outcome bool;
  CheckQuantumSignature : list Z → list Z → list Z → SigVersion → Z → outcome bool;
}.

(** The implementations of the base class. *)
Definition base_checker : BaseSignatureChecker := {|
  CheckECDSASignature _ _ _ _ := Ok false;
  CheckSchnorrSignature _ _ _ _ := SErr SCRIPT_ERR_UNKNOWN_ERROR;
  CheckLockTime _ := Ok false;
  CheckSequence _ := Ok false;
  CheckQuantumSignature _ _ _ _ _ := Ok false;
|}.

(** ** The condition stack *)

Module ConditionStack.
Definition NO_FALSE : Z := 2 ^ 32 - 1.
Record t := { m_stack_size : Z; m_first_false_pos : Z }.
Definition new : t := {| m_stack_size := 0; m_first_false_pos := NO_FALSE |}.
Definition empty (c : t) : bool := m_stack_size c =? 0.
Definition all_true (c : t) : bool := m_first_false_pos c =? NO_FALSE.
Definition push_back (c : t) (f : bool) : t :=
  let pos := if (m_first_false_pos c =? NO_FALSE) && negb f then m_stack_size c else m_first_false_pos c in
  {| m_stack_size := u32 (m_stack_size c + 1); m_first_false_pos := pos |}.
Definition pop_back (c : t) : outcome t :=
  if negb (0 <? m_stack_size c) then Crash else
  let sz := u32 (m_stack_size c - 1) in
  Ok {| m_stack_size := sz; m_first_false_pos := if m_first_false_pos c =? sz then NO_FALSE else m_first_false_pos c |}.
Definition toggle_top (c : t) : outcome t :=
  if negb (0 <? m_stack_size c) then Crash else
  Ok {| m_stack_size := m_stack_size c;
        m_first_false_pos :=
          if m_first_false_pos c =? NO_FALSE then u32 (m_stack_size c - 1)
          else if m_first_false_pos c =? u32 (m_stack_size c - 1) then NO_FALSE
          else m_first_false_pos c |}.
End ConditionStack.

(** ** Encoding checks *)

Fixpoint CastToBool (v : list Z) : bool :=
  match v with
  | [] => false
  | b :: v => if negb (b =? 0) then negb (bool_decide (v = []) && (b =? 0x80)) else CastToBool v
  end.

Definition IsCompressedOrUncompressedPubKey (vchPubKey : list Z) : outcome bool :=
  if size vchPubKey <? COMPRESSED_SIZE then Ok false else
  b ← or_crash (vchPubKey !! 0%nat);
  Ok (if b =? 0x04 then size vchPubKey =? PUBKEY_SIZE
      else if (b =? 0x02) || (b =? 0x03) then size vchPubKey =? COMPRESSED_SIZE
      else false).

Definition IsCompressedPubKey (vchPubKey : list Z) : outcome bool :=
  if negb (size vchPubKey =? COMPRESSED_SIZE) then Ok false else
  b ← or_crash (vchPubKey !! 0%nat);
  Ok (negb (negb (b =? 0x02) && negb (b =? 0x03))).

(** [sig[i]]: reading outside the vector is undefined. *)
Definition IsValidSignatureEncoding (sig : list Z) : outcome bool :=
  let at_ i := or_crash (sig !! Z.to_nat i) in
  if size sig <? 9 then Ok false else
  if 73 <? size sig then Ok false else
  b0 ← at_ 0; if negb (b0 =? 0x30) then Ok false else
  b1 ← at_ 1; if negb (b1 =? size sig - 3) then Ok false else
  lenR ← at_ 3;
  if size sig <=? 5 + lenR then Ok false else
  lenS ← at_ (5 + lenR);
  if negb (lenR + lenS + 7 =? size sig) then Ok false else
  b2 ← at_ 2; if negb (b2 =? 0x02) then Ok false else
  if lenR =? 0 then Ok false else
  b4 ← at_ 4; if negb (Z.land b4 0x80 =? 0) then Ok false else
  bad ← (if (1 <? lenR) && (b4 =? 0) then b5 ← at_ 5; Ok (Z.land b5 0x80 =? 0) else Ok false);
  if (bad : bool) then Ok false else
  s0 ← at_ (lenR + 4); if negb (s0 =? 0x02) then Ok false else
  if lenS =? 0 then Ok false else
  s2 ← at_ (lenR + 6); if negb (Z.land s2 0x80 =? 0) then Ok false else
  bad ← (if (1 <? lenS) && (s2 =? 0) then s3 ← at_ (lenR + 7); Ok (Z.land s3 0x80 =? 0) else Ok false);
  if (bad : bool) then Ok false else
  Ok true.

Definition SIGHASH_ALL : Z := 1.
Definition SIGHASH_NONE : Z := 2.
Definition SIGHASH_SINGLE : Z := 3.
Definition SIGHASH_ANYONECANPAY : Z := 0x80.
Definition SIGHASH_DEFAULT : Z := 0.

Section crypto.
Context {C : NodeCrypto}.

(** [true], or the error. *)
Definition IsLowDERSignature (vchSig : list Z) : outcome unit :=
  ok ← IsValidSignatureEncoding vchSig;
  if negb ok then SErr SCRIPT_ERR_SIG_DER else
  let vchSigCopy := take (length vchSig - 1) vchSig in
  if negb (CheckLowS vchSigCopy) then SErr SCRIPT_ERR_SIG_HIGH_S else Ok tt.

Definition IsDefinedHashtypeSignature (vchSig : list Z) : bool :=
  match back vchSig with
  | None => false
  | Some b =>
      let nHashType := Z.ldiff b SIGHASH_ANYONECANPAY in
      negb ((nHashType <? SIGHASH_ALL) || (SIGHASH_SINGLE <? nHashType))
  end.

Definition CheckSignatureEncoding (vchSig : list Z) (flags : Z) : outcome unit :=
  match vchSig with
  | [] => Ok tt
  | _ =>
    bad ← (if has flags (Z.lor (Z.lor SCRIPT_VERIFY_DERSIG SCRIPT_VERIFY_LOW_S) SCRIPT_VERIFY_STRICTENC)
           then ok ← IsValidSignatureEncoding vchSig; Ok (negb ok) else Ok false);
    if (bad : bool) then SErr SCRIPT_ERR_SIG_DER else
    _ ← (if has flags SCRIPT_VERIFY_LOW_S then IsLowDERSignature vchSig else Ok tt);
    if has flags SCRIPT_VERIFY_STRICTENC && negb (IsDefinedHashtypeSignature vchSig) then SErr SCRIPT_ERR_SIG_HASHTYPE
    else Ok tt
  end.

Definition CheckPubKeyEncoding (vchPubKey : list Z) (flags : Z) (sigversion : SigVersion) : outcome unit :=
  bad ← (if has flags SCRIPT_VERIFY_STRICTENC
         then ok ← IsCompressedOrUncompressedPubKey vchPubKey; Ok (negb ok) else Ok false);
  if (bad : bool) then SErr SCRIPT_ERR_PUBKEYTYPE else
  bad ← (if has flags SCRIPT_VERIFY_WITNESS_PUBKEYTYPE && bool_decide (sigversion = WITNESS_V0)
         then ok ← IsCompressedPubKey vchPubKey; Ok (negb ok) else Ok false);
  if (bad : bool) then SErr SCRIPT_ERR_WITNESS_PUBKEYTYPE else Ok tt.

(** ** Signature operations *)

(** The result only: the errors it leaves in [*serror] are overwritten by every
    path of [EvalScript]. *)
Definition EvalChecksigQuantum (checker : BaseSignatureChecker) (sigversion : SigVersion)
    (vchSig vchPubKey scriptCode : list Z) : outcome bool :=
  match vchSig with
  | [] => Ok false
  | algo_id :: _ =>
      if algo_id =? 0x01 then Ok false else
      match (if algo_id =? 0x02 then Some ML_DSA_65 else if algo_id =? 0x03 then Some SLH_DSA_192F else None) with
      | None => Ok false
      | Some expectedKeyType =>
          let qPubKey := {| pk_type := expectedKeyType; m_vchPubKey := vchPubKey |} in
          if negb (CQuantumPubKey_IsValid qPubKey) then Ok false
          else CheckQuantumSignature checker vchSig vchPubKey scriptCode sigversion algo_id
      end
  end.

(** [scriptCode]: the script from the last code separator on. *)
Definition EvalChecksigPreTapscript (flags : Z) (checker : BaseSignatureChecker) (sigversion : SigVersion)
    (vchSig vchPubKey scriptCode : list Z) : outcome bool :=
  if negb (pre_tapscript sigversion) then Crash else
  scriptCode ←
    (if bool_decide (sigversion = BASE) then
       '(found, scriptCode) ← or_crash (FindAndDelete scriptCode (push_data [] vchSig));
       if (0 <? found) && has flags SCRIPT_VERIFY_CONST_SCRIPTCODE then SErr SCRIPT_ERR_SIG_FINDANDDELETE
       else Ok scriptCode
     else Ok scriptCode);
  _ ← CheckSignatureEncoding vchSig flags;
  _ ← CheckPubKeyEncoding vchPubKey flags sigversion;
  fSuccess ← CheckECDSASignature checker vchSig vchPubKey scriptCode sigversion;
  if negb fSuccess && has flags SCRIPT_VERIFY_NULLFAIL && (0 <? size vchSig) then SErr SCRIPT_ERR_SIG_NULLFAIL
  else Ok fSuccess.

(** The weight is checked arithmetic in 64 bits. *)
Definition EvalChecksigTapscript (flags : Z) (checker : BaseSignatureChecker) (sigversion : SigVersion)
    (sig pubkey : list Z) (e : ScriptExecutionData) : outcome (bool * ScriptExecutionData) :=
  if negb (bool_decide (sigversion = TAPSCRIPT)) then Crash else
  let success := 0 <? size sig in
  e ← (if success then
         if negb (m_validation_weight_left_init e) then Crash else
         let w := m_validation_weight_left e - VALIDATION_WEIGHT_PER_SIGOP_PASSED in
         if w <? - 2 ^ 63 then Crash else
         if w <? 0 then SErr SCRIPT_ERR_TAPSCRIPT_VALIDATION_WEIGHT else Ok (set_weight e w)
       else Ok e);
  if size pubkey =? 0 then SErr SCRIPT_ERR_PUBKEYTYPE
  else if size pubkey =? 32 then
    _ ← (if (success : bool) then CheckSchnorrSignature checker sig pubkey sigversion e else Ok tt);
    Ok (success, e)
  else if has flags SCRIPT_VERIFY_DISCOURAGE_UPGRADABLE_PUBKEYTYPE then SErr SCRIPT_ERR_DISCOURAGE_UPGRADABLE_PUBKEYTYPE
  else Ok (success, e).

Definition EvalChecksig (flags : Z) (checker : BaseSignatureChecker) (sigversion : SigVersion)
    (sig pubkey scriptCode : list Z) (e : ScriptExecutionData) : outcome (bool * ScriptExecutionData) :=
  match sigversion with
  | BASE | WITNESS_V0 =>
      fSuccess ← EvalChecksigPreTapscript flags checker sigversion sig pubkey scriptCode; Ok (fSuccess, e)
  | TAPSCRIPT => EvalChecksigTapscript flags checker sigversion sig pubkey e
  | TAPROOT => Crash
  end.

(** ** State of the interpreter *)

(** [stack] and [altstack] with the top first; [pbegincodehash] is the script
    from the last code separator on. *)
Record interp := {
  stack : list (list Z);
  altstack : list (list Z);
  vfExec : ConditionStack.t;
  nOpCount : Z;
  pbegincodehash : list Z;
  execdata : ScriptExecutionData;
}.

Definition set_stack (i : interp) (st : list (list Z)) : interp :=
  Build_interp st (altstack i) (vfExec i) (nOpCount i) (pbegincodehash i) (execdata i).
Definition set_altstack (i : interp) (st : list (list Z)) : interp :=
  Build_interp (stack i) st (vfExec i) (nOpCount i) (pbegincodehash i) (execdata i).
Definition set_vfExec (i : interp) (v : ConditionStack.t) : interp :=
  Build_interp (stack i) (altstack i) v (nOpCount i) (pbegincodehash i) (execdata i).
Definition set_nOpCount (i : interp) (n : Z) : interp :=
  Build_interp (stack i) (altstack i) (vfExec i) n (pbegincodehash i) (execdata i).
Definition set_pbegincodehash (i : interp) (pc : list Z) : interp :=
  Build_interp (stack i) (altstack i) (vfExec i) (nOpCount i) pc (execdata i).
Definition set_execdata (i : interp) (e : ScriptExecutionData) : interp :=
  Build_interp (stack i) (altstack i) (vfExec i) (nOpCount i) (pbegincodehash i) e.

Definition vchFalse : list Z := [].
Definition vchTrue : list Z := [1].
Definition vch_of_bool (b : bool) : list Z := if b then vchTrue else vchFalse.
Definition Z_of_bool (b : bool) : Z := if b then 1 else 0.
Definition INVALID_STACK {A} : outcome A := SErr SCRIPT_ERR_INVALID_STACK_OPERATION.

(** A script number operand, and the result of 64-bit arithmetic. *)
Definition num (fRequireMinimal : bool) (v : list Z) : outcome Z := or_throw (CScriptNum v fRequireMinimal nDefaultMaxNumSize).
Definition int64 (x : Z) : outcome Z := if (- 2 ^ 63 <=? x) && (x <? 2 ^ 63) then Ok x else Crash.

Definition SEQUENCE_LOCKTIME_DISABLE_FLAG : Z := 2 ^ 31.

Section opcodes.
Context (flags : Z) (checker : BaseSignatureChecker) (sigversion : SigVersion).
Let fRequireMinimal : bool := has flags SCRIPT_VERIFY_MINIMALDATA.

(** ** Opcodes, by the cases of the switch *)

Definition op_push_number (opcode : opcodetype) (i : interp) : outcome interp :=
  Ok (set_stack i (serialize (op_num opcode - (op_num OP_1 - 1)) :: stack i)).

Definition op_checklocktimeverify (i : interp) : outcome interp :=
  if negb (has flags SCRIPT_VERIFY_CHECKLOCKTIMEVERIFY) then Ok i else
  match stack i with
  | [] => INVALID_STACK
  | top :: _ =>
      nLockTime ← or_throw (CScriptNum top fRequireMinimal 5);
      if nLockTime <? 0 then SErr SCRIPT_ERR_NEGATIVE_LOCKTIME else
      ok ← CheckLockTime checker nLockTime;
      if negb ok then SErr SCRIPT_ERR_UNSATISFIED_LOCKTIME else Ok i
  end.

Definition op_checksequenceverify (i : interp) : outcome interp :=
  if negb (has flags SCRIPT_VERIFY_CHECKSEQUENCEVERIFY) then Ok i else
  match stack i with
  | [] => INVALID_STACK
  | top :: _ =>
      nSequence ← or_throw (CScriptNum top fRequireMinimal 5);
      if nSequence <? 0 then SErr SCRIPT_ERR_NEGATIVE_LOCKTIME else
      if negb (Z.land nSequence SEQUENCE_LOCKTIME_DISABLE_FLAG =? 0) then Ok i else
      ok ← CheckSequence checker nSequence;
      if negb ok then SErr SCRIPT_ERR_UNSATISFIED_LOCKTIME else Ok i
  end.

Definition op_upgradable_nop (i : interp) : outcome interp :=
  if has flags SCRIPT_VERIFY_DISCOURAGE_UPGRADABLE_NOPS then SErr SCRIPT_ERR_DISCOURAGE_UPGRADABLE_NOPS else Ok i.

(** After a check whose result is pushed: the VERIFY variants take it off again. *)
Definition push_result (verify : bool) (e : ScriptError) (ok : bool) (st : list (list Z)) (i : interp) : outcome interp :=
  if verify then if ok then Ok (set_stack i st) else SErr e
  else Ok (set_stack i (vch_of_bool ok :: st)).

(** The opcodes of the quantum signatures. *)
Definition op_checksig_ex (opcode : opcodetype) (i : interp) : outcome interp :=
  if negb (has flags SCRIPT_VERIFY_QUANTUM_SIGS) then op_upgradable_nop i else
  match stack i with
  | vchPubKey :: vchSig :: st =>
      fSuccess ← EvalChecksigQuantum checker sigversion vchSig vchPubKey (pbegincodehash i);
      if negb fSuccess && has flags SCRIPT_VERIFY_NULLFAIL && (0 <? size vchSig) then SErr SCRIPT_ERR_SIG_NULLFAIL else
      push_result (bool_decide (opcode = OP_CHECKSIGVERIFY_EX)) SCRIPT_ERR_CHECKSIGVERIFY fSuccess st i
  | _ => INVALID_STACK
  end.

Definition op_if (fExec : bool) (opcode : opcodetype) (i : interp) : outcome interp :=
  if fExec then
    match stack i with
    | [] => SErr SCRIPT_ERR_UNBALANCED_CONDITIONAL
    | top :: st =>
        let not_01 := (1 <? size top) || ((size top =? 1) && byte_at top 0 (λ b, negb (b =? 1))) in
        if bool_decide (sigversion = TAPSCRIPT) && not_01 then SErr SCRIPT_ERR_TAPSCRIPT_MINIMALIF else
        if bool_decide (sigversion = WITNESS_V0) && has flags SCRIPT_VERIFY_MINIMALIF && not_01
        then SErr SCRIPT_ERR_MINIMALIF else
        let fValue := xorb (CastToBool top) (bool_decide (opcode = OP_NOTIF)) in
        Ok (set_vfExec (set_stack i st) (ConditionStack.push_back (vfExec i) fValue))
    end
  else Ok (set_vfExec i (ConditionStack.push_back (vfExec i) false)).

Definition op_else (i : interp) : outcome interp :=
  if ConditionStack.empty (vfExec i) then SErr SCRIPT_ERR_UNBALANCED_CONDITIONAL else
  v ← ConditionStack.toggle_top (vfExec i); Ok (set_vfExec i v).

Definition op_endif (i : interp) : outcome interp :=
  if ConditionStack.empty (vfExec i) then SErr SCRIPT_ERR_UNBALANCED_CONDITIONAL else
  v ← ConditionStack.pop_back (vfExec i); Ok (set_vfExec i v).

Definition op_verify (i : interp) : outcome interp :=
  match stack i with
  | [] => INVALID_STACK
  | top :: st => if CastToBool top then Ok (set_stack i st) else SErr SCRIPT_ERR_VERIFY
  end.

Definition op_toaltstack (i : interp) : outcome interp :=
  match stack i with
  | [] => INVALID_STACK
  | top :: st => Ok (set_altstack (set_stack i st) (top :: altstack i))
  end.

Definition op_fromaltstack (i : interp) : outcome interp :=
  match altstack i with
  | [] => SErr SCRIPT_ERR_INVALID_ALTSTACK_OPERATION
  | top :: st => Ok (set_altstack (set_stack i (top :: stack i)) st)
  end.

(** Stack operations with a fixed number of arguments. *)
Definition op_stack (opcode : opcodetype) (st : list (list Z)) : outcome (list (list Z)) :=
  match opcode, st with
  | OP_2DROP, _ :: _ :: st => Ok st
  | OP_2DUP, x2 :: x1 :: st => Ok (x2 :: x1 :: x2 :: x1 :: st)
  | OP_3DUP, x3 :: x2 :: x1 :: st => Ok (x3 :: x2 :: x1 :: x3 :: x2 :: x1 :: st)
  | OP_2OVER, x4 :: x3 :: x2 :: x1 :: st => Ok (x2 :: x1 :: x4 :: x3 :: x2 :: x1 :: st)
  | OP_2ROT, x6 :: x5 :: x4 :: x3 :: x2 :: x1 :: st => Ok (x2 :: x1 :: x6 :: x5 :: x4 :: x3 :: st)
  | OP_2SWAP, x4 :: x3 :: x2 :: x1 :: st => Ok (x2 :: x1 :: x4 :: x3 :: st)
  | OP_IFDUP, x :: st => Ok (if CastToBool x then x :: x :: st else x :: st)
  | OP_DEPTH, st => Ok (serialize (Z.of_nat (length st)) :: st)
  | OP_DROP, _ :: st => Ok st
  | OP_DUP, x :: st => Ok (x :: x :: st)
  | OP_NIP, x2 :: x1 :: st => Ok (x2 :: st)
  | OP_OVER, x2 :: x1 :: st => Ok (x1 :: x2 :: x1 :: st)
  | OP_ROT, x3 :: x2 :: x1 :: st => Ok (x1 :: x3 :: x2 :: st)
  | OP_SWAP, x2 :: x1 :: st => Ok (x1 :: x2 :: st)
  | OP_TUCK, x2 :: x1 :: st => Ok (x2 :: x1 :: x2 :: st)
  | OP_SIZE, x :: st => Ok (serialize (size x) :: x :: st)
  | _, _ => INVALID_STACK
  end.

Definition op_pick_roll (opcode : opcodetype) (i : interp) : outcome interp :=
  match stack i with
  | top :: x0 :: st0 =>
      let st := x0 :: st0 in
      bn ← num fRequireMinimal top;
      let n := getint bn in
      if (n <? 0) || (Z.of_nat (length st) <=? n) then INVALID_STACK else
      x ← or_throw (st !! Z.to_nat n);
      let st := if bool_decide (opcode = OP_ROLL) then delete (Z.to_nat n) st else st in
      Ok (set_stack i (x :: st))
  | _ => INVALID_STACK
  end.

Definition op_equal (opcode : opcodetype) (i : interp) : outcome interp :=
  match stack i with
  | vch2 :: vch1 :: st =>
      push_result (bool_decide (opcode = OP_EQUALVERIFY)) SCRIPT_ERR_EQUALVERIFY (bool_decide (vch1 = vch2)) st i
  | _ => INVALID_STACK
  end.

(** Numeric operations; the assertions of [CScriptNum] guard against overflow. *)
Definition unary (opcode : opcodetype) (bn : Z) : outcome Z :=
  match opcode with
  | OP_1ADD => int64 (bn + 1)
  | OP_1SUB => int64 (bn - 1)
  | OP_NEGATE => int64 (- bn)
  | OP_ABS => if bn <? 0 then int64 (- bn) else Ok bn
  | OP_NOT => Ok (Z_of_bool (bn =? 0))
  | OP_0NOTEQUAL => Ok (Z_of_bool (negb (bn =? 0)))
  | _ => Crash
  end.
Definition op_unary (opcode : opcodetype) (i : interp) : outcome interp :=
  match stack i with
  | [] => INVALID_STACK
  | top :: st =>
      bn ← num fRequireMinimal top;
      bn ← unary opcode bn;
      Ok (set_stack i (serialize bn :: st))
  end.

Definition binary (opcode : opcodetype) (bn1 bn2 : Z) : outcome Z :=
  match opcode with
  | OP_ADD => int64 (bn1 + bn2)
  | OP_SUB => int64 (bn1 - bn2)
  | OP_BOOLAND => Ok (Z_of_bool (negb (bn1 =? 0) && negb (bn2 =? 0)))
  | OP_BOOLOR => Ok (Z_of_bool (negb (bn1 =? 0) || negb (bn2 =? 0)))
  | OP_NUMEQUAL => Ok (Z_of_bool (bn1 =? bn2))
  | OP_NUMEQUALVERIFY => Ok (Z_of_bool (bn1 =? bn2))
  | OP_NUMNOTEQUAL => Ok (Z_of_bool (negb (bn1 =? bn2)))
  | OP_LESSTHAN => Ok (Z_of_bool (bn1 <? bn2))
  | OP_GREATERTHAN => Ok (Z_of_bool (bn2 <? bn1))
  | OP_LESSTHANOREQUAL => Ok (Z_of_bool (bn1 <=? bn2))
  | OP_GREATERTHANOREQUAL => Ok (Z_of_bool (bn2 <=? bn1))
  | OP_MIN => Ok (if bn1 <? bn2 then bn1 else bn2)
  | OP_MAX => Ok (if bn2 <? bn1 then bn1 else bn2)
  | _ => Crash
  end.
Definition op_binary (opcode : opcodetype) (i : interp) : outcome interp :=
  match stack i with
  | vch2 :: vch1 :: st =>
      bn1 ← num fRequireMinimal vch1;
      bn2 ← num fRequireMinimal vch2;
      bn ← binary opcode bn1 bn2;
      let st' := serialize bn :: st in
      if decide (opcode = OP_NUMEQUALVERIFY) then
        if CastToBool (serialize bn) then Ok (set_stack i st) else SErr SCRIPT_ERR_NUMEQUALVERIFY
      else Ok (set_stack i st')
  | _ => INVALID_STACK
  end.

Definition op_within (i : interp) : outcome interp :=
  match stack i with
  | vch3 :: vch2 :: vch1 :: st =>
      bn1 ← num fRequireMinimal vch1;
      bn2 ← num fRequireMinimal vch2;
      bn3 ← num fRequireMinimal vch3;
      Ok (set_stack i (vch_of_bool ((bn2 <=? bn1) && (bn1 <? bn3)) :: st))
  | _ => INVALID_STACK
  end.

Definition op_hash (opcode : opcodetype) (i : interp) : outcome interp :=
  match stack i with
  | [] => INVALID_STACK
  | top :: st =>
      let vchHash :=
        match opcode with
        | OP_RIPEMD160 => CRIPEMD160 top
        | OP_SHA1 => CSHA1 top
        | OP_SHA256 => CSHA256 top
        | OP_HASH160 => CHash160 top
        | _ => CHash256 top
        end in
      Ok (set_stack i (vchHash :: st))
  end.

(** [pc] is the position after the opcode. *)
Definition op_codeseparator (pc : list Z) (opcode_pos : Z) (i : interp) : outcome interp :=
  Ok (set_execdata (set_pbegincodehash i pc) (set_codeseparator (execdata i) opcode_pos)).

Definition op_checksig (opcode : opcodetype) (i : interp) : outcome interp :=
  match stack i with
  | vchPubKey :: vchSig :: st =>
      '(fSuccess, e) ← EvalChecksig flags checker sigversion vchSig vchPubKey (pbegincodehash i) (execdata i);
      push_result (bool_decide (opcode = OP_CHECKSIGVERIFY)) SCRIPT_ERR_CHECKSIGVERIFY fSuccess st (set_execdata i e)
  | _ => INVALID_STACK
  end.

Definition op_checksigadd (i : interp) : outcome interp :=
  if pre_tapscript sigversion then SErr SCRIPT_ERR_BAD_OPCODE else
  match stack i with
  | pubkey :: vnum :: sig :: st =>
      n ← num fRequireMinimal vnum;
      '(success, e) ← EvalChecksig flags checker sigversion sig pubkey (pbegincodehash i) (execdata i);
      n ← int64 (n + Z_of_bool success);
      Ok (set_stack (set_execdata i e) (serialize n :: st))
  | _ => INVALID_STACK
  end.

(** [CHECKMULTISIG].  [stacktop st k] is [stacktop(-k)]. *)
Definition stacktop (st : list (list Z)) (k : nat) : outcome (list Z) :=
  match k with O => Exn | S k => or_throw (st !! k) end.

(** The loop that drops the signatures from the script code. *)
Fixpoint multisig_drop (n : nat) (isig : nat) (st : list (list Z)) (scriptCode : list Z) : outcome (list Z) :=
  match n with
  | O => Ok scriptCode
  | S n =>
      vchSig ← stacktop st isig;
      scriptCode ←
        (if bool_decide (sigversion = BASE) then
           '(found, scriptCode) ← or_crash (FindAndDelete scriptCode (push_data [] vchSig));
           if (0 <? found) && has flags SCRIPT_VERIFY_CONST_SCRIPTCODE then SErr SCRIPT_ERR_SIG_FINDANDDELETE
           else Ok scriptCode
         else Ok scriptCode);
      multisig_drop n (S isig) st scriptCode
  end.

(** The loop that matches signatures with keys, each key used at most once. *)
Definition multisig_check (st : list (list Z)) (scriptCode : list Z) (nKeysCount nSigsCount : Z) (ikey isig : nat)
    : outcome bool :=
  oloop (S (S (Z.to_nat nKeysCount))) (λ '(fSuccess, nKeysCount, nSigsCount, ikey, isig),
    if (fSuccess : bool) && (0 <? nSigsCount) then
      vchSig ← stacktop st isig;
      vchPubKey ← stacktop st ikey;
      _ ← CheckSignatureEncoding vchSig flags;
      _ ← CheckPubKeyEncoding vchPubKey flags sigversion;
      fOk ← CheckECDSASignature checker vchSig vchPubKey scriptCode sigversion;
      let isig := if (fOk : bool) then S isig else isig in
      let nSigsCount := if (fOk : bool) then nSigsCount - 1 else nSigsCount in
      let ikey := S ikey in
      let nKeysCount := nKeysCount - 1 in
      let fSuccess := if nKeysCount <? nSigsCount then false else fSuccess in
      Ok (Next (fSuccess, nKeysCount, nSigsCount, ikey, isig))
    else Ok (Done fSuccess)) (true, nKeysCount, nSigsCount, ikey, isig).

(** The loop that removes the arguments: [n] is [i - 1]. *)
Fixpoint multisig_clean (n : nat) (ikey2 : Z) (fSuccess : bool) (st : list (list Z)) : outcome (list (list Z)) :=
  match n with
  | O => Ok st
  | S n =>
      top ← (if negb fSuccess && has flags SCRIPT_VERIFY_NULLFAIL && (ikey2 =? 0) then stacktop st 1 else Ok []);
      if 0 <? size top then SErr SCRIPT_ERR_SIG_NULLFAIL else
      match st with
      | [] => Exn
      | _ :: st => multisig_clean n (if 0 <? ikey2 then ikey2 - 1 else ikey2) fSuccess st
      end
  end.

Definition op_checkmultisig (opcode : opcodetype) (i : interp) : outcome interp :=
  if decide (sigversion = TAPSCRIPT) then SErr SCRIPT_ERR_TAPSCRIPT_CHECKMULTISIG else
  let st := stack i in
  if (length st <? 1)%nat then INVALID_STACK else
  top ← stacktop st 1;
  bn ← num fRequireMinimal top;
  let nKeysCount := getint bn in
  if (nKeysCount <? 0) || (MAX_PUBKEYS_PER_MULTISIG <? nKeysCount) then SErr SCRIPT_ERR_PUBKEY_COUNT else
  let i := set_nOpCount i (nOpCount i + nKeysCount) in
  if MAX_OPS_PER_SCRIPT <? nOpCount i then SErr SCRIPT_ERR_OP_COUNT else
  let ikey := 2%nat in
  let ikey2 := nKeysCount + 2 in
  let k := (2 + Z.to_nat nKeysCount)%nat in
  if (length st <? k)%nat then INVALID_STACK else
  top ← stacktop st k;
  bn ← num fRequireMinimal top;
  let nSigsCount := getint bn in
  if (nSigsCount <? 0) || (nKeysCount <? nSigsCount) then SErr SCRIPT_ERR_SIG_COUNT else
  let isig := S k in
  let k := (S k + Z.to_nat nSigsCount)%nat in
  if (length st <? k)%nat then INVALID_STACK else
  scriptCode ← multisig_drop (Z.to_nat nSigsCount) isig st (pbegincodehash i);
  fSuccess ← multisig_check st scriptCode nKeysCount nSigsCount ikey isig;
  st ← multisig_clean (k - 1) ikey2 fSuccess st;
  match st with
  | [] => INVALID_STACK
  | top :: st =>
      if has flags SCRIPT_VERIFY_NULLDUMMY && (0 <? size top) then SErr SCRIPT_ERR_SIG_NULLDUMMY else
      push_result (bool_decide (opcode = OP_CHECKMULTISIGVERIFY)) SCRIPT_ERR_CHECKMULTISIGVERIFY fSuccess st i
  end.

(** The switch. *)
Definition exec_op (fExec : bool) (opcode : opcodetype) (pc : list Z) (opcode_pos : Z) (i : interp) : outcome interp :=
  match opcode with
  | OP_1NEGATE | OP_1 | OP_2 | OP_3 | OP_4 | OP_5 | OP_6 | OP_7 | OP_8 | OP_9 | OP_10 | OP_11 | OP_12 | OP_13
  | OP_14 | OP_15 | OP_16 => op_push_number opcode i
  | OP_NOP => Ok i
  | OP_CHECKLOCKTIMEVERIFY => op_checklocktimeverify i
  | OP_CHECKSEQUENCEVERIFY => op_checksequenceverify i
  | OP_NOP1 | OP_NOP6 | OP_NOP7 | OP_NOP8 | OP_NOP9 | OP_NOP10 => op_upgradable_nop i
  | OP_CHECKSIG_EX | OP_CHECKSIGVERIFY_EX => op_checksig_ex opcode i
  | OP_IF | OP_NOTIF => op_if fExec opcode i
  | OP_ELSE => op_else i
  | OP_ENDIF => op_endif i
  | OP_VERIFY => op_verify i
  | OP_RETURN => SErr SCRIPT_ERR_OP_RETURN
  | OP_TOALTSTACK => op_toaltstack i
  | OP_FROMALTSTACK => op_fromaltstack i
  | OP_2DROP | OP_2DUP | OP_3DUP | OP_2OVER | OP_2ROT | OP_2SWAP | OP_IFDUP | OP_DEPTH | OP_DROP | OP_DUP | OP_NIP
  | OP_OVER | OP_ROT | OP_SWAP | OP_TUCK | OP_SIZE => st ← op_stack opcode (stack i); Ok (set_stack i st)
  | OP_PICK | OP_ROLL => op_pick_roll opcode i
  | OP_EQUAL | OP_EQUALVERIFY => op_equal opcode i
  | OP_1ADD | OP_1SUB | OP_NEGATE | OP_ABS | OP_NOT | OP_0NOTEQUAL => op_unary opcode i
  | OP_ADD | OP_SUB | OP_BOOLAND | OP_BOOLOR | OP_NUMEQUAL | OP_NUMEQUALVERIFY | OP_NUMNOTEQUAL | OP_LESSTHAN
  | OP_GREATERTHAN | OP_LESSTHANOREQUAL | OP_GREATERTHANOREQUAL | OP_MIN | OP_MAX => op_binary opcode i
  | OP_WITHIN => op_within i
  | OP_RIPEMD160 | OP_SHA1 | OP_SHA256 | OP_HASH160 | OP_HASH256 => op_hash opcode i
  | OP_CODESEPARATOR => op_codeseparator pc opcode_pos i
  | OP_CHECKSIG | OP_CHECKSIGVERIFY => op_checksig opcode i
  | OP_CHECKSIGADD => op_checksigadd i
  | OP_CHECKMULTISIG | OP_CHECKMULTISIGVERIFY => op_checkmultisig opcode i
  | _ => SErr SCRIPT_ERR_BAD_OPCODE
  end.

(** ** The main loop *)

(** Pushes above the limit that the quantum rules let through. *)
Definition push_allowed (n : Z) : bool :=
  if negb (has flags SCRIPT_VERIFY_QUANTUM_SIGS) then false
  else if (3310 <=? n) && (n <=? 3320) then true
  else if (35665 <=? n) && (n <=? 35680) then true
  else if n =? 1952 then true
  else if n =? 48 then true
  else if (n =? 50) || (n =? 1956) then true
  else false.

Definition is_disabled (opcode : opcodetype) : bool :=
  match opcode with
  | OP_CAT | OP_SUBSTR | OP_LEFT | OP_RIGHT | OP_INVERT | OP_AND | OP_OR | OP_XOR | OP_2MUL | OP_2DIV | OP_MUL
  | OP_DIV | OP_MOD | OP_LSHIFT | OP_RSHIFT => true
  | _ => false
  end.

(** One iteration, for the instruction at [pc]: the state and the next position. *)
Definition eval_step (pc : list Z) (opcode_pos : Z) (i : interp) : outcome (list Z * interp) :=
  let fExec := ConditionStack.all_true (vfExec i) in
  match GetScriptOp pc with
  | None => SErr SCRIPT_ERR_BAD_OPCODE
  | Some (pc, opcode, vchPushValue) =>
      if (MAX_SCRIPT_ELEMENT_SIZE <? size vchPushValue) && negb (push_allowed (size vchPushValue))
      then SErr SCRIPT_ERR_PUSH_SIZE else
      let counted := pre_tapscript sigversion && (op_num OP_16 <? op_num opcode) in
      let i := if counted then set_nOpCount i (nOpCount i + 1) else i in
      if counted && (MAX_OPS_PER_SCRIPT <? nOpCount i) then SErr SCRIPT_ERR_OP_COUNT else
      if is_disabled opcode then SErr SCRIPT_ERR_DISABLED_OPCODE else
      if bool_decide (opcode = OP_CODESEPARATOR) && bool_decide (sigversion = BASE) && has flags SCRIPT_VERIFY_CONST_SCRIPTCODE
      then SErr SCRIPT_ERR_OP_CODESEPARATOR else
      i ← (if fExec && (0 <=? op_num opcode) && (op_num opcode <=? op_num OP_PUSHDATA4) then
             minimal ← (if fRequireMinimal then or_crash (CheckMinimalPush vchPushValue opcode) else Ok true);
             if negb minimal then SErr SCRIPT_ERR_MINIMALDATA else
             Ok (set_stack i (vchPushValue :: stack i))
           else if fExec || ((op_num OP_IF <=? op_num opcode) && (op_num opcode <=? op_num OP_ENDIF)) then
             exec_op fExec opcode pc opcode_pos i
           else Ok i);
      if MAX_STACK_SIZE <? Z.of_nat (length (stack i) + length (altstack i)) then SErr SCRIPT_ERR_STACK_SIZE else
      Ok (pc, i)
  end.

Definition eval_loop (script : list Z) (i : interp) : outcome interp :=
  oloop (S (length script)) (λ '(pc, opcode_pos, i),
    match pc with
    | [] => Ok (Done i)
    | _ => '(pc, i) ← eval_step pc opcode_pos i; Ok (Next (pc, u32 (opcode_pos + 1), i))
    end) (script, 0, i).

(** The stack after the script.  The [catch] clause turns exceptions into an
    unknown error. *)
Definition EvalScript (st : list (list Z)) (script : list Z) (e : ScriptExecutionData) : outcome (list (list Z)) :=
  if decide (sigversion = TAPROOT) then Crash else
  if pre_tapscript sigversion && (MAX_SCRIPT_SIZE <? size script) then SErr SCRIPT_ERR_SCRIPT_SIZE else
  match eval_loop script {| stack := st; altstack := []; vfExec := ConditionStack.new; nOpCount := 0;
                            pbegincodehash := script; execdata := set_codeseparator e 0xFFFFFFFF |} with
  | Ok i => if negb (ConditionStack.empty (vfExec i)) then SErr SCRIPT_ERR_UNBALANCED_CONDITIONAL else Ok (stack i)
  | SErr e => SErr e
  | Exn => SErr SCRIPT_ERR_UNKNOWN_ERROR
  | Crash => Crash
  end.
End opcodes.
End crypto.
