(* ===== verification/InterpP.v ===== *)
(** The interpreter neither crashes nor loops, and keeps the sizes of its stack
    within the limits: every opcode preserves the invariant [inv]. *)
From S2P Require Import Prelude Serial QSig Script Node QPubKey Interp.

Open Scope Z_scope.

(** ** The condition stack is a stack of booleans *)

Module ConditionStackP.
Import ConditionStack.

(** [c] represents [l], the top first. *)
Definition represents (l : list bool) (c : t) : Prop :=
  m_stack_size c = Z.of_nat (length l) ∧ Z.of_nat (length l) < NO_FALSE ∧
  match list_find (λ b, b = false) (rev l) with
  | Some (k, _) => m_first_false_pos c = Z.of_nat k
  | None => m_first_false_pos c = NO_FALSE
  end.

Lemma find_false_lt l k b : list_find (λ b, b = false) l = Some (k, b) → (k < length l)%nat ∧ b = false.
Proof. intros (H & -> & _)%list_find_Some. split; [by eapply lookup_lt_Some|done]. Qed.

Lemma find_false_snoc l b :
  list_find (λ b, b = false) (l ++ [b]) =
  match list_find (λ b, b = false) l with
  | Some r => Some r
  | None => if b then None else Some (length l, b)
  end.
Proof.
  destruct (list_find _ l) as [[k c]|] eqn:E; [by eapply list_find_app_l|].
  rewrite list_find_app_r by done. cbn [list_find]. destruct b; case_decide; try done; cbn; f_equal; f_equal; lia.
Qed.

Lemma all_true_iff l c : represents l c → all_true c = forallb id l.
Proof.
  intros (_ & Hl & Hf). unfold all_true. apply eq_bool_prop_intro. rewrite !Is_true_true, Z.eqb_eq, forallb_forall.
  destruct (list_find _ (rev l)) as [[k b]|] eqn:E.
  - pose proof (find_false_lt _ _ _ E) as [Hk ->]. rewrite length_rev in Hk. split; [lia|].
    intros H. apply list_find_Some in E as (E & _ & _). apply list_elem_of_lookup_2, list_elem_of_In, in_rev in E. by apply H in E.
  - split; [|done]. intros _ b Hb%in_rev. apply list_find_None in E. rewrite Forall_forall in E.
    specialize (E b Hb). by destruct b.
Qed.

Lemma represents_empty l c : represents l c → empty c = bool_decide (l = []).
Proof. intros (H & _). unfold empty. rewrite H. destruct l; [done|]. rewrite bool_decide_false by done. simpl. lia. Qed.

Lemma push_represents l c f : represents l c → Z.of_nat (length l) + 1 < NO_FALSE → represents (f :: l) (push_back c f).
Proof.
  intros (H & Hl & Hf) Hn. unfold push_back, represents. cbn [m_stack_size m_first_false_pos length rev].
  rewrite H. split; [rewrite u32_small by (unfold in_u32, NO_FALSE in *; lia); lia|]. split; [lia|].
  rewrite find_false_snoc, length_rev. destruct (list_find _ (rev l)) as [[k b]|] eqn:E.
  - pose proof (find_false_lt _ _ _ E) as [Hk _]. rewrite length_rev in Hk. rewrite Hf.
    rewrite (proj2 (Z.eqb_neq _ _)) by lia. done.
  - rewrite Hf, Z.eqb_refl. by destruct f.
Qed.

Lemma pop_represents f l c : represents (f :: l) c → ∃ c', pop_back c = Ok c' ∧ represents l c'.
Proof.
  intros (H & Hl & Hf). cbn [rev length] in *. unfold pop_back. rewrite H.
  rewrite (proj2 (Z.ltb_lt _ _)) by lia. cbn [negb]. eexists. split; [done|]. unfold represents.
  cbn [m_stack_size m_first_false_pos]. assert (E : u32 (Z.of_nat (S (length l)) - 1) = Z.of_nat (length l)).
  { rewrite u32_small by (unfold in_u32, NO_FALSE in *; lia). lia. }
  rewrite E. split; [done|]. split; [lia|]. rewrite find_false_snoc, length_rev in Hf.
  destruct (list_find _ (rev l)) as [[k b]|] eqn:Ef.
  - pose proof (find_false_lt _ _ _ Ef) as [Hk _]. rewrite length_rev in Hk. rewrite Hf.
    rewrite (proj2 (Z.eqb_neq _ _)) by lia. done.
  - destruct f; rewrite Hf; [rewrite (proj2 (Z.eqb_neq _ _)) by lia; done|]. by rewrite Z.eqb_refl.
Qed.

Lemma toggle_represents f l c : represents (f :: l) c → ∃ c', toggle_top c = Ok c' ∧ represents (negb f :: l) c'.
Proof.
  intros (H & Hl & Hf). cbn [rev length] in *. unfold toggle_top. rewrite H.
  rewrite (proj2 (Z.ltb_lt _ _)) by lia. cbn [negb]. eexists. split; [done|]. unfold represents.
  cbn [m_stack_size m_first_false_pos rev length]. assert (E : u32 (Z.of_nat (S (length l)) - 1) = Z.of_nat (length l)).
  { rewrite u32_small by (unfold in_u32, NO_FALSE in *; lia). lia. }
  rewrite E. split; [done|]. split; [done|]. rewrite find_false_snoc, length_rev in *.
  destruct (list_find _ (rev l)) as [[k b]|] eqn:Ef.
  - pose proof (find_false_lt _ _ _ Ef) as [Hk _]. rewrite length_rev in Hk. rewrite Hf.
    rewrite (proj2 (Z.eqb_neq _ _)) by lia. rewrite (proj2 (Z.eqb_neq _ _)) by lia. done.
  - destruct f; rewrite Hf; [by rewrite Z.eqb_refl|]. rewrite (proj2 (Z.eqb_neq _ _)) by lia. by rewrite Z.eqb_refl.
Qed.

(** Any sequence of operations, on the two representations. *)
Inductive op := Push (f : bool) | Pop | Toggle.
Definition run_op (c : t) (o : op) : outcome t :=
  match o with Push f => Ok (push_back c f) | Pop => pop_back c | Toggle => toggle_top c end.
Definition spec_op (l : list bool) (o : op) : option (list bool) :=
  match o, l with
  | Push f, l => Some (f :: l)
  | Pop, _ :: l => Some l
  | Toggle, f :: l => Some (negb f :: l)
  | _, [] => None
  end.

Fixpoint run_ops (c : t) (ops : list op) : outcome t :=
  match ops with [] => Ok c | o :: ops => c ← run_op c o; run_ops c ops end.
Fixpoint spec_ops (l : list bool) (ops : list op) : option (list bool) :=
  match ops with [] => Some l | o :: ops => l ← spec_op l o; spec_ops l ops end.

Lemma run_ops_refines ops l c : represents l c → Z.of_nat (length l + length ops) < NO_FALSE →
  match spec_ops l ops with
  | Some l' => ∃ c', run_ops c ops = Ok c' ∧ represents l' c'
  | None => run_ops c ops = Crash
  end.
Proof.
  revert l c. induction ops as [|o ops IH]; intros l c H Hn; cbn [spec_ops run_ops length] in *; [by exists c|].
  assert (K : ∀ l' c', represents l' c' → (length l' <= S (length l))%nat →
    match spec_ops l' ops with Some l'' => ∃ c'', run_ops c' ops = Ok c'' ∧ represents l'' c'' | None => run_ops c' ops = Crash end).
  { intros l' c' H' Hl. apply IH; [done|]. lia. }
  destruct o as [f| |]; [|destruct l as [|b l]|destruct l as [|b l]]; cbn [spec_op run_op mbind option_bind outcome_bind].
  - apply K; [apply push_represents; [done|lia]|done].
  - destruct H as (H & _). unfold pop_back. by rewrite H.
  - destruct (pop_represents b l c H) as (c' & -> & Hc). cbn [outcome_bind]. apply K; [done|simpl; lia].
  - destruct H as (H & _). unfold toggle_top. by rewrite H.
  - destruct (toggle_represents b l c H) as (c' & -> & Hc). cbn [outcome_bind]. apply K; [done|simpl; lia].
Qed.

Lemma represents_new : represents [] new.
Proof. split; [done|]. split; [vm_compute; reflexivity|done]. Qed.

(** C28 The condition stack of the interpreter, which stores only its size and the
    position of the first false value, behaves like a stack of booleans: after any
    sequence of fewer than 2^32 - 1 operations from the empty stack, emptiness and
    "all true" are those of the stack of booleans, and an assertion fails exactly
    where the stack of booleans has nothing to pop or toggle. *)
Theorem condition_stack_refines (ops : list op) :
  Z.of_nat (length ops) < NO_FALSE →
  match spec_ops [] ops with
  | Some l => ∃ c, run_ops new ops = Ok c ∧ empty c = bool_decide (l = []) ∧ all_true c = forallb id l
  | None => run_ops new ops = Crash
  end.
Proof.
  intros Hn. pose proof (run_ops_refines ops [] new represents_new Hn) as H.
  destruct (spec_ops [] ops) as [l|]; [|done]. destruct H as (c & E & H). exists c. split; [done|].
  split; [by apply represents_empty|by apply all_true_iff].
Qed.

Lemma condition_stack_refines_witness : ∃ c,
  run_ops new [Push true; Push false; Toggle; Push false; Pop] = Ok c ∧ empty c = false ∧ all_true c = true.
Proof.
  destruct (condition_stack_refines [Push true; Push false; Toggle; Push false; Pop]) as (c & E & H1 & H2).
  - vm_compute. reflexivity.
  - exists c. split; [exact E|]. split; [exact H1|exact H2].
Defined.
End ConditionStackP.

(** ** The invariant *)

Definition elem_ok (flags : Z) (v : list Z) : Prop :=
  bytes v ∧ (size v <= MAX_SCRIPT_ELEMENT_SIZE ∨ push_allowed flags (size v) = true).

(** In a tapscript the weight is initialised and not negative, and the data about
    the annex and the leaf is initialised. *)
Definition weight_ok (sigversion : SigVersion) (e : ScriptExecutionData) : Prop :=
  sigversion = TAPSCRIPT →
  (m_validation_weight_left_init e = true ∧ 0 <= m_validation_weight_left e) ∧
  m_annex_init e = true ∧ m_tapleaf_hash_init e = true.

(** The same while a script runs: the position of the code separator is set. *)
Definition exec_ok (sigversion : SigVersion) (e : ScriptExecutionData) : Prop :=
  weight_ok sigversion e ∧ m_codeseparator_pos_init e = true.

Record inv (flags : Z) (sigversion : SigVersion) (i : interp) : Prop := {
  inv_stack : Forall (elem_ok flags) (stack i);
  inv_alt : Forall (elem_ok flags) (altstack i);
  inv_cond : 0 <= ConditionStack.m_stack_size (vfExec i);
  inv_code : bytes (pbegincodehash i);
  inv_weight : exec_ok sigversion (execdata i);
  inv_version : sigversion ≠ TAPROOT;
}.

(** A checker whose functions return or throw; the one for Schnorr signatures may
    rely on what its callers establish. *)
Class SafeChecker (checker : BaseSignatureChecker) : Prop := {
  safe_ecdsa a b c d : safe (CheckECDSASignature checker a b c d) (λ _, True);
  safe_schnorr sig pk v e : size pk = 32 → v = TAPROOT ∨ v = TAPSCRIPT → m_annex_init e = true →
    (v = TAPSCRIPT → m_tapleaf_hash_init e = true ∧ m_codeseparator_pos_init e = true) →
    safe (CheckSchnorrSignature checker sig pk v e) (λ _, True);
  safe_locktime n : safe (CheckLockTime checker n) (λ _, True);
  safe_sequence n : safe (CheckSequence checker n) (λ _, True);
  safe_quantum sig pk c v id : bytes sig → bytes pk → safe (CheckQuantumSignature checker sig pk c v id) (λ _, True);
}.

(** A safe checker whose function for Schnorr signatures, which is also called outside of
    [EvalScript] and its handler of exceptions, does not throw. *)
Class TotalChecker (checker : BaseSignatureChecker) : Prop := {
  total_safe :: SafeChecker checker;
  yields_schnorr sig pk v e : size pk = 32 → v = TAPROOT ∨ v = TAPSCRIPT → m_annex_init e = true →
    (v = TAPSCRIPT → m_tapleaf_hash_init e = true ∧ m_codeseparator_pos_init e = true) →
    yields (CheckSchnorrSignature checker sig pk v e) (λ _, True);
}.

#[export] Instance base_checker_safe : SafeChecker base_checker.
Proof. by constructor. Qed.

(** Elements that opcodes create. *)
Lemma elem_small flags v : bytes v → size v <= 520 → elem_ok flags v.
Proof. intros. split; [done|by left]. Qed.

Lemma elem_byte flags b : 0 <= b < 256 → elem_ok flags [b].
Proof. intros. apply elem_small; [|done]. constructor; [done|constructor]. Qed.

Lemma elem_size flags v : elem_ok flags v → 0 <= size v <= 35680.
Proof.
  intros [_ H]. split; [apply Nat2Z.is_nonneg|]. destruct H as [H|H]; [unfold MAX_SCRIPT_ELEMENT_SIZE in H; lia|].
  unfold push_allowed in H. repeat case_match; try done; rewrite ?andb_true_iff, ?orb_true_iff in *; lia.
Qed.

Lemma length_serialize n : - 2 ^ 63 < n < 2 ^ 63 → size (serialize n) <= 9.
Proof.
  intros Hn. unfold size. destruct (serialize_cases n Hn) as [[_ ->]|(w & b & _ & _ & Hl & _ & _ & ->)]; [simpl; lia|].
  case_match; rewrite length_app; cbn [length]; lia.
Qed.

Lemma elem_serialize flags n : - 2 ^ 63 < n < 2 ^ 63 → elem_ok flags (serialize n).
Proof.
  intros Hn. apply elem_small; [by apply set_vch_serialize|]. pose proof (length_serialize n Hn). lia.
Qed.

Lemma elem_bool flags b : elem_ok flags (vch_of_bool b).
Proof.
  destruct b; apply elem_small.
  - constructor; [unfold in_u8; lia|constructor].
  - done.
  - constructor.
  - done.
Qed.
Create HintDb elems.
#[export] Hint Resolve elem_bool elem_serialize : elems.

(** ** Encoding checks are safe *)

Lemma safe_true {A} (m : outcome A) Q : safe m Q → safe m (λ _, True).
Proof. by destruct m. Qed.

Lemma safe_if {A} (b : bool) (m1 m2 : outcome A) Q : (b = true → safe m1 Q) → (b = false → safe m2 Q) → safe (if b then m1 else m2) Q.
Proof. destruct b; auto. Qed.

(** Reading a byte that is there. *)
Lemma safe_byte (v : list Z) k Q : (k < length v)%nat → (∀ b, v !! k = Some b → Q b) → safe (or_crash (v !! k)) Q.
Proof. intros [b E]%lookup_lt_is_Some_2 H. rewrite E. by apply H. Qed.

Lemma IsCompressedOrUncompressedPubKey_safe v : safe (IsCompressedOrUncompressedPubKey v) (λ _, True).
Proof.
  unfold IsCompressedOrUncompressedPubKey. apply safe_if; [done|]. rewrite Z.ltb_ge. unfold COMPRESSED_SIZE, size.
  intros H. eapply safe_bind; [apply safe_byte with (Q := λ _, True); [lia|done]|done].
Qed.

Lemma IsCompressedPubKey_safe v : safe (IsCompressedPubKey v) (λ _, True).
Proof.
  unfold IsCompressedPubKey. apply safe_if; [done|]. rewrite negb_false_iff, Z.eqb_eq. unfold COMPRESSED_SIZE, size.
  intros H. eapply safe_bind; [apply safe_byte with (Q := λ _, True); [lia|done]|done].
Qed.

(** Every index of the DER check is inside the signature. *)
Lemma IsValidSignatureEncoding_safe sig : bytes sig → safe (IsValidSignatureEncoding sig) (λ _, True).
Proof.
  intros Hb. unfold IsValidSignatureEncoding. cbv zeta.
  assert (B : ∀ k (f : Z → outcome bool), 0 <= k < size sig → (∀ b, 0 <= b < 256 → safe (f b) (λ _, True)) →
    safe (or_crash (sig !! Z.to_nat k) ≫= f) (λ _, True)).
  { intros k f Hk Hf. unfold size in Hk. apply safe_bind with (λ b, 0 <= b < 256); [|done].
    apply safe_byte; [lia|]. intros b E. exact (Forall_lookup_1 _ _ _ _ Hb E). }
  assert (F : ∀ (c : bool) (m : outcome bool), (c = false → safe m (λ _, True)) → safe (if c then Ok false else m) (λ _, True)).
  { intros c m H. by destruct c; [|apply H]. }
  apply F. rewrite Z.ltb_ge. intros H9. apply F. rewrite Z.ltb_ge. intros H73.
  apply B; [lia|]. intros b0 _. apply F. intros _. apply B; [lia|]. intros b1 _. apply F. intros _.
  apply B; [lia|]. intros lenR HR. apply F. rewrite Z.leb_gt. intros H5.
  apply B; [lia|]. intros lenS HS. apply F. rewrite negb_false_iff, Z.eqb_eq. intros Hlen.
  apply B; [lia|]. intros b2 _. apply F. intros _. apply F. rewrite Z.eqb_neq. intros HR0.
  apply B; [lia|]. intros b4 _. apply F. intros _.
  apply safe_bind with (λ _, True).
  { apply safe_if; [|done]. intros _. apply B; [lia|done]. }
  intros bad _. apply F. intros _. apply B; [lia|]. intros s0 _. apply F. intros _. apply F. rewrite Z.eqb_neq. intros HS0.
  apply B; [lia|]. intros s2 _. apply F. intros _.
  apply safe_bind with (λ _, True).
  { apply safe_if; [|done]. intros _. apply B; [lia|done]. }
  intros bad2 _. by apply F.
Qed.

Section ops.
Context {C : NodeCrypto} {L : NodeCryptoLaws C}.

Lemma IsLowDERSignature_safe v : bytes v → safe (IsLowDERSignature v) (λ _, True).
Proof.
  intros. unfold IsLowDERSignature. eapply safe_bind; [by apply IsValidSignatureEncoding_safe|].
  intros ok _. destruct ok; [|done]. cbn [negb]. by case_match.
Qed.

Lemma CheckSignatureEncoding_safe v flags : bytes v → safe (CheckSignatureEncoding v flags) (λ _, True).
Proof.
  intros Hv. unfold CheckSignatureEncoding. destruct v as [|b v]; [done|]. set (w := b :: v) in *.
  apply safe_bind with (λ _, True).
  { apply safe_if; [|done]. intros _. eapply safe_bind; [by apply IsValidSignatureEncoding_safe|done]. }
  intros [] _; [done|]. apply safe_bind with (λ _, True); [apply safe_if; [intros _; by apply IsLowDERSignature_safe|done]|].
  intros _ _. by case_match.
Qed.

Lemma CheckPubKeyEncoding_safe v flags sv : safe (CheckPubKeyEncoding v flags sv) (λ _, True).
Proof.
  unfold CheckPubKeyEncoding. apply safe_bind with (λ _, True).
  { apply safe_if; [|done]. intros _. eapply safe_bind; [apply IsCompressedOrUncompressedPubKey_safe|done]. }
  intros [] _; [done|]. apply safe_bind with (λ _, True).
  { apply safe_if; [|done]. intros _. eapply safe_bind; [apply IsCompressedPubKey_safe|done]. }
  by intros [] _.
Qed.

Context (flags : Z) (checker : BaseSignatureChecker) {SC : SafeChecker checker} (sigversion : SigVersion).

Lemma EvalChecksigQuantum_safe sig pk code : bytes sig → bytes pk →
  safe (EvalChecksigQuantum checker sigversion sig pk code) (λ _, True).
Proof using SC.
  intros Hs Hp. unfold EvalChecksigQuantum. destruct sig as [|a sig]; [done|]. destruct (a =? 0x01); [done|].
  destruct (if a =? 0x02 then _ else _) as [t|]; [|done]. apply safe_if; [done|]. intros _. by apply safe_quantum.
Qed.

Lemma FindAndDelete_safe code d :
  safe ('(found, code) ← or_crash (FindAndDelete code d);
        if (0 <? found) && has flags SCRIPT_VERIFY_CONST_SCRIPTCODE then SErr SCRIPT_ERR_SIG_FINDANDDELETE else Ok code) (λ _, True).
Proof.
  destruct (FindAndDelete_total code d) as [[n c] ->]. cbn [or_crash mbind outcome_bind]. by case_match.
Qed.

Lemma EvalChecksigPreTapscript_safe sig pk code : pre_tapscript sigversion = true → bytes sig →
  safe (EvalChecksigPreTapscript flags checker sigversion sig pk code) (λ _, True).
Proof using SC.
  intros Hv Hs. unfold EvalChecksigPreTapscript. rewrite Hv. cbn [negb].
  apply safe_bind with (λ _, True); [apply safe_if; [intros _; apply FindAndDelete_safe|done]|]. intros code' _.
  eapply safe_bind; [by apply CheckSignatureEncoding_safe|]. intros _ _.
  eapply safe_bind; [apply CheckPubKeyEncoding_safe|]. intros _ _.
  eapply safe_bind; [apply safe_ecdsa|]. intros ok _. by case_match.
Qed.

Lemma EvalChecksig_safe sig pk code e : bytes sig → sigversion ≠ TAPROOT → exec_ok sigversion e →
  safe (EvalChecksig flags checker sigversion sig pk code e) (λ r, exec_ok sigversion r.2).
Proof using SC.
  intros Hs Hv He. unfold EvalChecksig.
  assert (P : pre_tapscript sigversion = true → safe (fSuccess ← EvalChecksigPreTapscript flags checker sigversion sig pk code;
    Ok (fSuccess, e)) (λ r, exec_ok sigversion r.2)).
  { intros. eapply safe_bind; [by apply EvalChecksigPreTapscript_safe|]. done. }
  destruct sigversion; [by apply P|by apply P|done|].
  unfold EvalChecksigTapscript. rewrite bool_decide_true by done. cbn [negb]. destruct He as [Hw Hc].
  destruct (Hw eq_refl) as ([Hi H0] & Ha & Ht). apply safe_bind with (exec_ok TAPSCRIPT).
  { apply safe_if; [|done]. intros _. rewrite Hi. cbn [negb]. apply safe_if; [rewrite Z.ltb_lt; unfold VALIDATION_WEIGHT_PER_SIGOP_PASSED; lia|].
    intros _. apply safe_if; [done|]. rewrite Z.ltb_ge. intros H1. split; [intros _|done]. split; [split; [done|exact H1]|done]. }
  intros e' He'. apply safe_if; [done|]. intros _. apply safe_if; [|intros _; by case_match].
  rewrite Z.eqb_eq. intros Hpk. eapply safe_bind with (P := λ _, True); [|done]. destruct (0 <? size sig); [|done].
  destruct He' as [Hw' Hc']. destruct (Hw' eq_refl) as (_ & Ha' & Ht'). apply safe_schnorr; auto.
Qed.

(** ** Every opcode keeps the invariant *)

Abbreviation I := (inv flags sigversion).
Abbreviation E := (elem_ok flags).

(** A step that changes the stack only. *)
Lemma inv_set_stack i st : I i → Forall E st → I (set_stack i st).
Proof. intros [] Hs. constructor; done. Qed.

Lemma num_safe v b : bytes v → safe (num b v) (λ n, - 2 ^ 31 < n < 2 ^ 31).
Proof.
  intros Hv. unfold num. apply safe_throw. intros n En. pose proof (CScriptNum_range v b 3 n Hv En) as H.
  change (2 ^ (8 * Z.of_nat 3 + 7)) with (2 ^ 31) in H. lia.
Qed.

Lemma num_op b v (f : Z → outcome interp) Q : E v → (∀ n, - 2 ^ 31 < n < 2 ^ 31 → safe (f n) Q) →
  safe (num b v ≫= f) Q.
Proof. intros [Hv _] Hf. eapply safe_bind; [by apply num_safe|done]. Qed.

Lemma int64_safe n : - 2 ^ 62 < n < 2 ^ 62 → int64 n = Ok n.
Proof. intros H. unfold int64. rewrite (proj2 (Z.leb_le _ _)), (proj2 (Z.ltb_lt _ _)) by lia. done. Qed.

Lemma Z_of_bool_range b : 0 <= Z_of_bool b <= 1.
Proof. destruct b; cbn; lia. Qed.

Lemma unary_safe o n : - 2 ^ 31 < n < 2 ^ 31 →
  o ∈ [OP_1ADD; OP_1SUB; OP_NEGATE; OP_ABS; OP_NOT; OP_0NOTEQUAL] → safe (unary o n) (λ m, - 2 ^ 33 < m < 2 ^ 33).
Proof.
  intros Hn Ho. rewrite !elem_of_cons in Ho.
  assert (B : ∀ b, - 2 ^ 33 < Z_of_bool b < 2 ^ 33) by (intros b; pose proof (Z_of_bool_range b); lia).
  repeat (destruct Ho as [->|Ho]; [unfold unary; cbv match;
    first [apply B|rewrite int64_safe by lia; cbn [safe]; lia|destruct (n <? 0); [rewrite int64_safe by lia|]; cbn [safe]; lia]|]).
  by apply elem_of_nil in Ho.
Qed.

Lemma binary_safe o n m : - 2 ^ 31 < n < 2 ^ 31 → - 2 ^ 31 < m < 2 ^ 31 →
  o ∈ [OP_ADD; OP_SUB; OP_BOOLAND; OP_BOOLOR; OP_NUMEQUAL; OP_NUMEQUALVERIFY; OP_NUMNOTEQUAL; OP_LESSTHAN; OP_GREATERTHAN;
    OP_LESSTHANOREQUAL; OP_GREATERTHANOREQUAL; OP_MIN; OP_MAX] → safe (binary o n m) (λ r, - 2 ^ 33 < r < 2 ^ 33).
Proof.
  intros Hn Hm Ho. rewrite !elem_of_cons in Ho.
  assert (B : ∀ b, - 2 ^ 33 < Z_of_bool b < 2 ^ 33) by (intros b; pose proof (Z_of_bool_range b); lia).
  repeat (destruct Ho as [->|Ho]; [unfold binary; cbv match;
    first [apply B|rewrite int64_safe by lia; cbn [safe]; lia|case_match; cbn [safe]; lia]|]).
  by apply elem_of_nil in Ho.
Qed.

(** Results that are pushed. *)
Lemma push_result_safe verify e ok st i : I i → Forall E st → safe (push_result verify e ok st i) I.
Proof.
  intros Hi Hs. unfold push_result. destruct verify; [destruct ok; [|done]|]; apply inv_set_stack; auto with elems.
Qed.

Lemma op_push_number_safe o i : I i → 0 <= op_num o < 256 → safe (op_push_number o i) I.
Proof.
  intros Hi Ho. apply inv_set_stack; [done|]. constructor; [|apply Hi]. apply elem_serialize. cbn [op_num]. lia.
Qed.

Lemma op_checklocktimeverify_safe i : I i → safe (op_checklocktimeverify flags checker i) I.
Proof using SC.
  intros Hi. unfold op_checklocktimeverify. case_match; [done|]. destruct (stack i) as [|top st]; [done|].
  apply safe_bind with (λ _, True); [by apply safe_throw|]. intros n _. case_match; [done|].
  eapply safe_bind; [apply safe_locktime|]. intros [] _; done.
Qed.

Lemma op_checksequenceverify_safe i : I i → safe (op_checksequenceverify flags checker i) I.
Proof using SC.
  intros Hi. unfold op_checksequenceverify. case_match; [done|]. destruct (stack i) as [|top st]; [done|].
  apply safe_bind with (λ _, True); [by apply safe_throw|]. intros n _. case_match; [done|]. case_match; [done|].
  eapply safe_bind; [apply safe_sequence|]. intros [] _; done.
Qed.

Lemma op_upgradable_nop_safe i : I i → safe (op_upgradable_nop flags i) I.
Proof. intros. unfold op_upgradable_nop. by case_match. Qed.

Lemma op_checksig_ex_safe o i : I i → safe (op_checksig_ex flags checker sigversion o i) I.
Proof using SC.
  intros Hi. unfold op_checksig_ex. apply safe_if; [intros _; by apply op_upgradable_nop_safe|]. intros _.
  pose proof (inv_stack _ _ _ Hi) as Hs. destruct (stack i) as [|pk [|sig st]]; [done|done|].
  apply Forall_cons_1 in Hs as [[Hp _] Hs]. apply Forall_cons_1 in Hs as [[Hb _] Hs].
  eapply safe_bind; [by apply EvalChecksigQuantum_safe|]. intros ok _. apply safe_if; [done|]. intros _. by apply push_result_safe.
Qed.

Lemma inv_set_vfExec i v : I i → 0 <= ConditionStack.m_stack_size v → I (set_vfExec i v).
Proof. intros [] ?. constructor; done. Qed.

Lemma push_back_nonneg c f : 0 <= ConditionStack.m_stack_size (ConditionStack.push_back c f).
Proof. apply u32_range. Qed.

Lemma op_if_safe b o i : I i → safe (op_if flags sigversion b o i) I.
Proof.
  intros Hi. unfold op_if. destruct b; [|apply inv_set_vfExec; [done|apply push_back_nonneg]].
  pose proof (inv_stack _ _ _ Hi) as Hs. destruct (stack i) as [|top st]; [done|]. apply Forall_cons_1 in Hs as [_ Hs].
  cbv zeta. apply safe_if; [done|]. intros _. apply safe_if; [done|]. intros _.
  apply inv_set_vfExec; [by apply inv_set_stack|apply push_back_nonneg].
Qed.

Lemma cond_nonempty c : 0 <= ConditionStack.m_stack_size c → ConditionStack.empty c = false → (0 <? ConditionStack.m_stack_size c) = true.
Proof. unfold ConditionStack.empty. rewrite Z.eqb_neq, Z.ltb_lt. lia. Qed.

Lemma op_else_safe i : I i → safe (op_else i) I.
Proof.
  intros Hi. unfold op_else. apply safe_if; [done|]. intros H%cond_nonempty; [|apply Hi].
  unfold ConditionStack.toggle_top. rewrite H. cbn [negb mbind outcome_bind safe]. apply inv_set_vfExec; [done|apply Hi].
Qed.

Lemma op_endif_safe i : I i → safe (op_endif i) I.
Proof.
  intros Hi. unfold op_endif. apply safe_if; [done|]. intros H%cond_nonempty; [|apply Hi].
  unfold ConditionStack.pop_back. rewrite H. cbn [negb mbind outcome_bind safe]. apply inv_set_vfExec; [done|apply u32_range].
Qed.

Lemma op_verify_safe i : I i → safe (op_verify i) I.
Proof.
  intros Hi. unfold op_verify. pose proof (inv_stack _ _ _ Hi) as Hs. destruct (stack i) as [|top st]; [done|].
  apply Forall_cons_1 in Hs as [_ Hs]. case_match; [|done]. by apply inv_set_stack.
Qed.

Lemma inv_set_both i st alt : I i → Forall E st → Forall E alt → I (set_altstack (set_stack i st) alt).
Proof. intros [] ??. constructor; done. Qed.

Lemma op_toaltstack_safe i : I i → safe (op_toaltstack i) I.
Proof.
  intros Hi. unfold op_toaltstack. pose proof (inv_stack _ _ _ Hi) as Hs. destruct (stack i) as [|top st]; [done|].
  apply Forall_cons_1 in Hs as [Ht Hs]. apply inv_set_both; [done|done|]. constructor; [done|apply Hi].
Qed.

Lemma op_fromaltstack_safe i : I i → safe (op_fromaltstack i) I.
Proof.
  intros Hi. unfold op_fromaltstack. pose proof (inv_alt _ _ _ Hi) as Hs. destruct (altstack i) as [|top st]; [done|].
  apply Forall_cons_1 in Hs as [Ht Hs]. apply inv_set_both; [done| |done]. constructor; [done|apply Hi].
Qed.

Lemma op_stack_safe o st : Forall E st → Z.of_nat (length st) < 2 ^ 62 →
  o ∈ [OP_2DROP; OP_2DUP; OP_3DUP; OP_2OVER; OP_2ROT; OP_2SWAP; OP_IFDUP; OP_DEPTH; OP_DROP; OP_DUP; OP_NIP; OP_OVER;
    OP_ROT; OP_SWAP; OP_TUCK; OP_SIZE] → safe (op_stack o st) (Forall E).
Proof.
  intros Hs Hl Ho. assert (Hd : E (serialize (Z.of_nat (length st)))) by (apply elem_serialize; lia).
  assert (Hz : ∀ v, E v → E (serialize (size v))).
  { intros v Hv%elem_size. apply elem_serialize. lia. }
  assert (Hi : ∀ x st, E x → Forall E st → Forall E (if CastToBool x then x :: x :: st else x :: st)).
  { intros x l ??. destruct (CastToBool x); by repeat apply Forall_cons_2. }
  assert (Hn : Forall E []) by apply Forall_nil_2.
  clear Hl. rewrite !elem_of_cons, elem_of_nil in Ho.
  destruct Hs as [|x1 l1 ? [|x2 l2 ? [|x3 l3 ? [|x4 l4 ? [|x5 l5 ? [|x6 l6 ? Hs]]]]]];
  repeat (destruct Ho as [->|Ho]; [unfold op_stack, INVALID_STACK; cbv match; cbn [safe];
    try done; try apply Hi; repeat first [assumption|apply Hz|apply Forall_cons_2]|]); done.
Qed.

Lemma op_pick_roll_safe o i : I i → safe (op_pick_roll flags o i) I.
Proof.
  intros Hi. unfold op_pick_roll. pose proof (inv_stack _ _ _ Hi) as Hs. destruct (stack i) as [|top [|x st]]; [done|done|].
  apply Forall_cons_1 in Hs as [Ht Hs]. apply num_op; [done|]. intros n _. cbv zeta. case_match; [done|].
  apply safe_bind with E.
  { apply safe_throw. intros v Hv. exact (Forall_lookup_1 _ _ _ _ Hs Hv). }
  intros v Hv. apply inv_set_stack; [done|]. apply Forall_cons_2; [done|]. case_match; [|done]. by apply Forall_delete.
Qed.

Lemma op_equal_safe o i : I i → safe (op_equal o i) I.
Proof.
  intros Hi. unfold op_equal. pose proof (inv_stack _ _ _ Hi) as Hs. destruct (stack i) as [|v2 [|v1 st]]; [done|done|].
  apply Forall_cons_1 in Hs as [_ Hs]. apply Forall_cons_1 in Hs as [_ Hs]. by apply push_result_safe.
Qed.

Lemma op_unary_safe o i : I i → o ∈ [OP_1ADD; OP_1SUB; OP_NEGATE; OP_ABS; OP_NOT; OP_0NOTEQUAL] → safe (op_unary flags o i) I.
Proof.
  intros Hi Ho. unfold op_unary. pose proof (inv_stack _ _ _ Hi) as Hs. destruct (stack i) as [|top st]; [done|].
  apply Forall_cons_1 in Hs as [Ht Hs]. apply num_op; [done|]. intros n Hn.
  eapply safe_bind; [by apply unary_safe|]. intros m Hm. cbv beta in Hm. apply inv_set_stack; [done|]. apply Forall_cons_2; [|done].
  apply elem_serialize. lia.
Qed.

Lemma op_binary_safe o i : I i →
  o ∈ [OP_ADD; OP_SUB; OP_BOOLAND; OP_BOOLOR; OP_NUMEQUAL; OP_NUMEQUALVERIFY; OP_NUMNOTEQUAL; OP_LESSTHAN; OP_GREATERTHAN;
    OP_LESSTHANOREQUAL; OP_GREATERTHANOREQUAL; OP_MIN; OP_MAX] → safe (op_binary flags o i) I.
Proof.
  intros Hi Ho. unfold op_binary. pose proof (inv_stack _ _ _ Hi) as Hs. destruct (stack i) as [|v2 [|v1 st]]; [done|done|].
  apply Forall_cons_1 in Hs as [H2 Hs]. apply Forall_cons_1 in Hs as [H1 Hs].
  apply num_op; [done|]. intros n1 Hn1. apply num_op; [done|]. intros n2 Hn2.
  eapply safe_bind; [by apply binary_safe|]. intros m Hm. cbv beta in Hm. cbv zeta. case_decide.
  - case_match; [|done]. by apply inv_set_stack.
  - apply inv_set_stack; [done|]. apply Forall_cons_2; [|done]. apply elem_serialize. lia.
Qed.

Lemma op_within_safe i : I i → safe (op_within flags i) I.
Proof.
  intros Hi. unfold op_within. pose proof (inv_stack _ _ _ Hi) as Hs. destruct (stack i) as [|v3 [|v2 [|v1 st]]]; [done|done|done|].
  apply Forall_cons_1 in Hs as [H3 Hs]. apply Forall_cons_1 in Hs as [H2 Hs]. apply Forall_cons_1 in Hs as [H1 Hs].
  apply num_op; [done|]. intros n1 _. apply num_op; [done|]. intros n2 _. apply num_op; [done|]. intros n3 _.
  apply inv_set_stack; [done|]. apply Forall_cons_2; [apply elem_bool|done].
Qed.

Lemma elem_hash v n : bytes v → length v = n → (n <= 520)%nat → E v.
Proof. intros. apply elem_small; [done|]. unfold size. lia. Qed.

Lemma op_hash_safe o i : I i → safe (op_hash o i) I.
Proof using L.
  intros Hi. unfold op_hash. pose proof (inv_stack _ _ _ Hi) as Hs. destruct (stack i) as [|top st]; [done|].
  apply Forall_cons_1 in Hs as [_ Hs]. apply inv_set_stack; [done|]. apply Forall_cons_2; [|done].
  assert (H1 : E (CRIPEMD160 top)) by (apply (elem_hash _ 20); [apply CRIPEMD160_bytes|apply length_CRIPEMD160|lia]).
  assert (H2 : E (CSHA1 top)) by (apply (elem_hash _ 20); [apply CSHA1_bytes|apply length_CSHA1|lia]).
  assert (H3 : E (CSHA256 top)) by (apply (elem_hash _ 32); [apply CSHA256_bytes|apply length_CSHA256|lia]).
  assert (H4 : E (CHash160 top)) by (apply (elem_hash _ 20); [apply CRIPEMD160_bytes|apply length_CRIPEMD160|lia]).
  assert (H5 : E (CHash256 top)) by (apply (elem_hash _ 32); [apply CSHA256_bytes|apply length_CSHA256|lia]).
  destruct o; done.
Qed.

Lemma inv_set_execdata i e : I i → exec_ok sigversion e → I (set_execdata i e).
Proof. intros [] ?. constructor; done. Qed.

Lemma op_codeseparator_safe pc p i : I i → bytes pc → safe (op_codeseparator pc p i) I.
Proof. intros [] ?. constructor; try done. split; [apply inv_weight0|done]. Qed.

Lemma op_checksig_safe o i : I i → safe (op_checksig flags checker sigversion o i) I.
Proof using SC.
  intros Hi. unfold op_checksig. pose proof (inv_stack _ _ _ Hi) as Hs. destruct (stack i) as [|pk [|sig st]]; [done|done|].
  apply Forall_cons_1 in Hs as [_ Hs]. apply Forall_cons_1 in Hs as [[Hb _] Hs].
  eapply safe_bind; [apply EvalChecksig_safe; [done|apply Hi|apply Hi]|]. intros [ok e] He.
  apply push_result_safe; [by apply inv_set_execdata|done].
Qed.

Lemma op_checksigadd_safe i : I i → safe (op_checksigadd flags checker sigversion i) I.
Proof using SC.
  intros Hi. unfold op_checksigadd. case_match; [done|]. pose proof (inv_stack _ _ _ Hi) as Hs.
  destruct (stack i) as [|pk [|n [|sig st]]]; [done|done|done|].
  apply Forall_cons_1 in Hs as [_ Hs]. apply Forall_cons_1 in Hs as [Hn Hs]. apply Forall_cons_1 in Hs as [[Hb _] Hs].
  apply num_op; [done|]. intros m Hm.
  eapply safe_bind; [apply EvalChecksig_safe; [done|apply Hi|apply Hi]|]. intros [ok e] He.
  pose proof (Z_of_bool_range ok). rewrite int64_safe by lia. cbn [mbind outcome_bind safe].
  apply inv_set_stack; [by apply inv_set_execdata|]. apply Forall_cons_2; [|done]. apply elem_serialize. lia.
Qed.

(** *** [CHECKMULTISIG] *)

Lemma stacktop_safe st k : Forall E st → safe (stacktop st k) E.
Proof. intros Hs. destruct k; [done|]. apply safe_throw. intros v Hv. exact (Forall_lookup_1 _ _ _ _ Hs Hv). Qed.

Lemma multisig_drop_safe n k st code : Forall E st → safe (multisig_drop flags sigversion n k st code) (λ _, True).
Proof.
  intros Hs. revert k code. induction n as [|n IH]; intros k code; [done|]. cbn [multisig_drop].
  eapply safe_bind; [by apply stacktop_safe|]. intros sig _. eapply safe_bind; [|intros c _; apply IH].
  apply safe_if; [|by intros _; instantiate (1 := λ _, True)]. intros _. apply FindAndDelete_safe.
Qed.

(** The matching loop uses up a key at every step. *)
Lemma multisig_check_safe st code nk ns ikey isig : Forall E st → 0 <= ns <= nk →
  safe (multisig_check flags checker sigversion st code nk ns ikey isig) (λ _, True).
Proof using SC.
  intros Hs Hn. unfold multisig_check.
  apply (safe_oloop (λ '(ok, k, s, _, _), (ok : bool) = true → 0 <= s <= k)
    (λ '(ok, k, s, _, _), if (ok : bool) then S (Z.to_nat k) else 0%nat)); [done|lia|].
  intros [[[[ok k] s] ik] is_] Hk. apply safe_if; [|done]. rewrite andb_true_iff, Z.ltb_lt. intros [-> Hs0].
  specialize (Hk eq_refl). eapply safe_bind; [by apply stacktop_safe|]. intros sig [Hb _].
  eapply safe_bind; [by apply stacktop_safe|]. intros pk _.
  eapply safe_bind; [by apply CheckSignatureEncoding_safe|]. intros _ _.
  eapply safe_bind; [apply CheckPubKeyEncoding_safe|]. intros _ _.
  eapply safe_bind; [apply safe_ecdsa|]. intros fok _. cbv zeta. cbn [safe].
  destruct (Z.ltb_spec (k - 1) (if fok then s - 1 else s)) as [Hlt|Hge]; [split; [done|lia]|].
  split; [intros _; destruct fok; lia|lia].
Qed.

Lemma multisig_clean_safe n k ok st : Forall E st → safe (multisig_clean flags n k ok st) (Forall E).
Proof.
  revert k st. induction n as [|n IH]; intros k st Hs; [done|]. cbn [multisig_clean].
  apply safe_bind with (λ _, True).
  { apply safe_if; [|done]. intros _. eapply safe_true. by apply stacktop_safe. }
  intros top _. case_match; [done|]. destruct Hs as [|x st Hx Hs]; [done|]. by apply IH.
Qed.

Lemma op_checkmultisig_safe o i : I i → safe (op_checkmultisig flags checker sigversion o i) I.
Proof using SC.
  intros Hi. unfold op_checkmultisig. case_decide; [done|]. cbv zeta. pose proof (inv_stack _ _ _ Hi) as Hs.
  apply safe_if; [done|]. intros _. eapply safe_bind; [by apply stacktop_safe|]. intros v1 Hv1.
  apply num_op; [done|]. intros n1 _. apply safe_if; [done|]. rewrite orb_false_iff, !Z.ltb_ge. intros [Hk0 _].
  apply safe_if; [done|]. intros _. apply safe_if; [done|]. intros _.
  eapply safe_bind; [by apply stacktop_safe|]. intros v2 Hv2. apply num_op; [done|]. intros n2 _.
  apply safe_if; [done|]. rewrite orb_false_iff, !Z.ltb_ge. intros [Hs0 Hs1]. apply safe_if; [done|]. intros _.
  eapply safe_bind; [by apply multisig_drop_safe|]. intros code _.
  eapply safe_bind; [apply multisig_check_safe; [done|lia]|]. intros ok _.
  eapply safe_bind; [by apply multisig_clean_safe|]. intros st Hst. destruct Hst as [|top st Ht Hst]; [done|].
  apply safe_if; [done|]. intros _. apply push_result_safe; [|done]. destruct Hi. by constructor.
Qed.

(** ** The switch and the main loop *)

Lemma exec_op_safe fExec o pc p i : I i → Z.of_nat (length (stack i)) < 2 ^ 62 → bytes pc →
  safe (exec_op flags checker sigversion fExec o pc p i) I.
Proof using SC L.
  intros Hi Hl Hpc. pose proof (inv_stack _ _ _ Hi) as Hs.
  assert (S1 : ∀ o, o ∈ [OP_2DROP; OP_2DUP; OP_3DUP; OP_2OVER; OP_2ROT; OP_2SWAP; OP_IFDUP; OP_DEPTH; OP_DROP; OP_DUP;
    OP_NIP; OP_OVER; OP_ROT; OP_SWAP; OP_TUCK; OP_SIZE] → safe (st ← op_stack o (stack i); Ok (set_stack i st)) I).
  { intros o' Ho. eapply safe_bind; [by apply op_stack_safe|]. intros st Hst. by apply inv_set_stack. }
  destruct o; unfold exec_op; cbv match;
    first
    [ done
    | apply op_push_number_safe; [done|cbn [op_num]; lia]
    | by apply op_checklocktimeverify_safe
    | by apply op_checksequenceverify_safe
    | by apply op_upgradable_nop_safe
    | by apply op_checksig_ex_safe
    | by apply op_if_safe
    | by apply op_else_safe
    | by apply op_endif_safe
    | by apply op_verify_safe
    | by apply op_toaltstack_safe
    | by apply op_fromaltstack_safe
    | apply S1; rewrite !elem_of_cons; tauto
    | by apply op_pick_roll_safe
    | by apply op_equal_safe
    | apply op_unary_safe; [done|rewrite !elem_of_cons; tauto]
    | apply op_binary_safe; [done|rewrite !elem_of_cons; tauto]
    | by apply op_within_safe
    | by apply op_hash_safe
    | by apply op_codeseparator_safe
    | by apply op_checksig_safe
    | by apply op_checksigadd_safe
    | by apply op_checkmultisig_safe ].
Qed.

Lemma inv_set_nOpCount i n : I i → I (set_nOpCount i n).
Proof. intros []. by constructor. Qed.

(** One iteration: a smaller rest of the script, and a stack within the limit. *)
Lemma eval_step_safe pc p i : bytes pc → I i → Z.of_nat (length (stack i)) < 2 ^ 62 →
  safe (eval_step flags checker sigversion pc p i) (λ r, bytes r.1 ∧ (length r.1 < length pc)%nat ∧ I r.2 ∧
    Z.of_nat (length (stack r.2) + length (altstack r.2)) <= MAX_STACK_SIZE).
Proof using SC L.
  intros Hpc Hi Hl. unfold eval_step. cbv zeta. destruct (GetScriptOp pc) as [[[pc' o] v]|] eqn:Eg; [|done].
  destruct (GetScriptOp_data_bytes _ _ _ _ Hpc Eg) as [Hv Hpc']. apply GetScriptOp_shrinks in Eg as [Hlt _].
  apply safe_if; [done|]. intros Hsize. set (cnt := pre_tapscript sigversion && _).
  set (j := if cnt then _ else i). assert (Hj : I j) by (unfold j; destruct cnt; [by apply inv_set_nOpCount|done]).
  assert (Hjs : stack j = stack i) by (unfold j; by destruct cnt). clearbody j.
  apply safe_if; [done|]. intros _. apply safe_if; [done|]. intros _. apply safe_if; [done|]. intros _.
  apply safe_bind with I.
  - apply safe_if; [rewrite !andb_true_iff, !Z.leb_le; intros [[_ H0] H1]|intros _].
    + apply safe_bind with (λ _, True).
      { apply safe_if; [|done]. intros _. unfold CheckMinimalPush. cbv zeta. rewrite (proj2 (Z.leb_le _ _) H0), (proj2 (Z.leb_le _ _) H1). done. }
      intros [] _; [|done]. apply inv_set_stack; [done|]. apply Forall_cons_2; [|apply Hj]. split; [done|].
      rewrite andb_false_iff, Z.ltb_ge, negb_false_iff in Hsize. done.
    + apply safe_if; [|done]. intros _. apply exec_op_safe; [done|by rewrite Hjs|done].
  - intros k Hk. apply safe_if; [done|]. rewrite Z.ltb_ge. intros Hm. done.
Qed.

Lemma eval_loop_safe script i : bytes script → I i → Z.of_nat (length (stack i)) < 2 ^ 62 →
  safe (eval_loop flags checker sigversion script i) (λ i', I i' ∧
    (script = [] ∧ i' = i ∨ Z.of_nat (length (stack i')) <= MAX_STACK_SIZE)).
Proof using SC L.
  intros Hb Hi Hl. unfold eval_loop.
  apply (safe_oloop (λ '(pc, p, j), bytes pc ∧ I j ∧ Z.of_nat (length (stack j)) < 2 ^ 62 ∧
    (pc = script ∧ j = i ∨ Z.of_nat (length (stack j)) <= MAX_STACK_SIZE)) (λ '(pc, p, j), length pc)); [|lia|].
  { split; [done|]. split; [done|]. split; [done|]. by left. }
  intros [[pc p] j] (Hpc & Hj & Hlj & Hor). destruct pc as [|b pc].
  - split; [done|]. destruct Hor as [[<- ->]|]; [by left|by right].
  - eapply safe_bind; [by apply eval_step_safe|]. intros [pc' j'] (H1 & H2 & H3 & H4). cbn [fst snd safe] in *.
    unfold MAX_STACK_SIZE in *. split; [|exact H2]. split; [done|]. split; [done|]. split; [lia|]. right. lia.
Qed.
End ops.

(** The whole of [EvalScript], from the loop. *)
Lemma EvalScript_total {C : NodeCrypto} {L : NodeCryptoLaws C} (flags : Z) (checker : BaseSignatureChecker)
    {SC : SafeChecker checker} (sigversion : SigVersion) (st : list (list Z)) (script : list Z) (e : ScriptExecutionData) :
  sigversion ≠ TAPROOT → weight_ok sigversion e → bytes script →
  Forall (elem_ok flags) st → Z.of_nat (length st) < 2 ^ 62 →
  match EvalScript flags checker sigversion st script e with
  | Ok st' => Forall (elem_ok flags) st' ∧ (script = [] ∧ st' = st ∨ Z.of_nat (length st') <= MAX_STACK_SIZE)
  | SErr _ => True
  | Exn | Crash => False
  end.
Proof.
  intros Hv He Hb Hs Hl. unfold EvalScript. rewrite decide_False by done. destruct (_ && _); [done|].
  set (i := Build_interp _ _ _ _ _ _). assert (Hi : inv flags sigversion i).
  { constructor; [done|constructor|done|done|split; [exact He|done]|done]. }
  pose proof (eval_loop_safe flags checker sigversion script i Hb Hi Hl) as H.
  destruct (eval_loop flags checker sigversion script i) as [j| | |]; [|done|done|done].
  destruct H as [Hj Hor]. destruct (negb _); [done|]. split; [apply Hj|].
  destruct Hor as [[-> ->]|]; [by left|by right].
Qed.

(** ** Theorems *)

(** C5 Script evaluation is total and stays within its limits: given a checker that does
    not crash, a signature version other than TAPROOT (which the code asserts), execution
    data whose weight is set for TAPSCRIPT (likewise), a script of bytes and an initial
    stack of fewer than 2^62 acceptable elements, [EvalScript] returns a stack or an
    error: no assertion fails, no access is out of bounds, no signed arithmetic
    overflows, no exception leaves it, the loop ends.  A returned stack has acceptable
    elements, each of at most 520 bytes or of a size that the quantum rules allow, and
    at most 1000 of them; only the empty script, which returns the initial stack
    unchanged, may leave more. *)
Theorem eval_script_safe {C : NodeCrypto} {L : NodeCryptoLaws C} (flags : Z) (checker : BaseSignatureChecker)
    {SC : SafeChecker checker} (sigversion : SigVersion) (st : list (list Z)) (script : list Z) (e : ScriptExecutionData) :
  sigversion ≠ TAPROOT → weight_ok sigversion e → bytes script →
  Forall (elem_ok flags) st → Z.of_nat (length st) < 2 ^ 62 →
  match EvalScript flags checker sigversion st script e with
  | Ok st' => Forall (elem_ok flags) st' ∧ (script = [] ∧ st' = st ∨ Z.of_nat (length st') <= MAX_STACK_SIZE)
  | SErr _ => True
  | Exn | Crash => False
  end.
Proof. intros. by apply EvalScript_total. Qed.

(** ** Instances *)

Lemma eval_script_safe_witness :
  match EvalScript (C := test_crypto) 0 base_checker BASE [[3]; [2]] [0x93; 0x55; 0x87] ScriptExecutionData_default with
  | Ok st' => Forall (elem_ok 0) st' ∧ ([0x93; 0x55; 0x87] = [] ∧ st' = [[3]; [2]] ∨ Z.of_nat (length st') <= MAX_STACK_SIZE)
  | SErr _ => True
  | Exn | Crash => False
  end ∧ EvalScript (C := test_crypto) 0 base_checker BASE [[3]; [2]] [0x93; 0x55; 0x87] ScriptExecutionData_default = Ok [[1]].
Proof.
  split; [|vm_compute; reflexivity].
  apply (eval_script_safe (C := test_crypto) 0 base_checker BASE [[3]; [2]] [0x93; 0x55; 0x87] ScriptExecutionData_default).
  - done.
  - done.
  - repeat constructor; lia.
  - apply Forall_cons_2; [apply elem_byte; lia|]. apply Forall_cons_2; [apply elem_byte; lia|constructor].
  - cbn [length]. lia.
Defined.
