(* ===== verification/Verify.v ===== *)
(** Verification of a spend (script/interpreter.cpp): witness programs and
    [VerifyScript].

    [serror] says whether the caller passed a pointer for the error: a failure of
    [EvalScript] inside a witness script is logged through that pointer without a
    test, so with a null pointer it is a [Crash].  A witness stack is the list of
    its items as the code has it, the top last.

    Verification of a spend is total: with an error pointer, [VerifyScript]
    never crashes; without one, it does on a failing witness script. *)
From S2P Require Import Prelude Serial QSig Script Node QPubKey Interp InterpP.

Open Scope Z_scope.

Definition WITNESS_V0_SCRIPTHASH_SIZE : Z := 32.
Definition WITNESS_V0_KEYHASH_SIZE : Z := 20.
Definition WITNESS_V1_TAPROOT_SIZE : Z := 32.
Definition TAPROOT_LEAF_MASK : Z := 0xfe.
Definition TAPROOT_LEAF_TAPSCRIPT : Z := 0xc0.
Definition TAPROOT_CONTROL_BASE_SIZE : Z := 33.
Definition TAPROOT_CONTROL_NODE_SIZE : Z := 32.
Definition TAPROOT_CONTROL_MAX_NODE_COUNT : Z := 128.
Definition TAPROOT_CONTROL_MAX_SIZE : Z :=
  TAPROOT_CONTROL_BASE_SIZE + TAPROOT_CONTROL_NODE_SIZE * TAPROOT_CONTROL_MAX_NODE_COUNT.

Section verify.
Context {C : NodeCrypto}.

(** ** Witness scripts *)

(** The scan for OP_SUCCESS of a tapscript: [Some] ends the execution. *)
Definition op_success_scan (flags : Z) (exec_script : list Z) : outcome bool :=
  oloop (S (length exec_script)) (λ pc,
    match pc with
    | [] => Ok (Done false)
    | _ =>
      match GetScriptOp pc with
      | None => SErr SCRIPT_ERR_BAD_OPCODE
      | Some (pc, opcode, _) =>
          if IsOpSuccess opcode then
            if has flags SCRIPT_VERIFY_DISCOURAGE_OP_SUCCESS then SErr SCRIPT_ERR_DISCOURAGE_OP_SUCCESS
            else Ok (Done true)
          else Ok (Next pc)
      end
    end) exec_script.

(** Whether a witness script of a special size has the form
    [<1 byte> <pubkey> CHECKSIG_EX]. *)
Definition is_algo_script (elem : list Z) : bool :=
  match GetScriptOp elem with
  | Some (pc, _, v) =>
      (size v =? 1) &&
      match GetScriptOp pc with
      | Some (pc, _, v) =>
          (0 <? size v) &&
          match GetScriptOp pc with
          | Some (pc, opcode, _) =>
              (bool_decide (opcode = OP_CHECKSIG_EX) || bool_decide (opcode = OP_CHECKSIGVERIFY_EX)) && bool_decide (pc = [])
          | None => false
          end
      | None => false
      end
  | None => false
  end.

(** Whether an item of the initial stack has an acceptable size. *)
Definition witness_item_ok (flags : Z) (elem : list Z) : bool :=
  let allow_quantum := has flags SCRIPT_VERIFY_QUANTUM_SIGS in
  if size elem <=? MAX_SCRIPT_ELEMENT_SIZE then true
  else if allow_quantum && (((3310 <=? size elem) && (size elem <=? 3320)) ||
                            ((35665 <=? size elem) && (size elem <=? 35680)) ||
                            (size elem =? 1952) || (size elem =? 48)) then true
  else allow_quantum && ((size elem =? 50) || (size elem =? 1956)) && is_algo_script elem.

Definition ExecuteWitnessScript (stack_span : list (list Z)) (exec_script : list Z) (flags : Z)
    (sigversion : SigVersion) (checker : BaseSignatureChecker) (e : ScriptExecutionData) (serror : bool) : outcome unit :=
  success ← (if decide (sigversion = TAPSCRIPT) then op_success_scan flags exec_script else Ok false);
  if (success : bool) then Ok tt else
  if bool_decide (sigversion = TAPSCRIPT) && (MAX_STACK_SIZE <? Z.of_nat (length stack_span))
  then SErr SCRIPT_ERR_STACK_SIZE else
  if negb (forallb (witness_item_ok flags) stack_span) then SErr SCRIPT_ERR_PUSH_SIZE else
  match EvalScript flags checker sigversion (rev stack_span) exec_script e with
  | Ok stack =>
      match stack with
      | [top] => if negb (CastToBool top) then SErr SCRIPT_ERR_EVAL_FALSE else Ok tt
      | _ => SErr SCRIPT_ERR_CLEANSTACK
      end
  | Crash => Crash
  | SErr err => if serror then SErr err else Crash
  | Exn => Exn
  end.

(** ** Taproot commitments *)

(** The tags "TapLeaf" and "TapBranch". *)
Definition TAG_TAPLEAF : list Z := [84; 97; 112; 76; 101; 97; 102].
Definition TAG_TAPBRANCH : list Z := [84; 97; 112; 66; 114; 97; 110; 99; 104].

Definition ComputeTapleafHash (leaf_version : Z) (script : list Z) : list Z :=
  TaggedHash TAG_TAPLEAF (u8 leaf_version :: compact_size (size script) ++ script).

Fixpoint lexicographical_compare (a b : list Z) : bool :=
  match a, b with
  | _, [] => false
  | [], _ :: _ => true
  | x :: a, y :: b => if x <? y then true else if y <? x then false else lexicographical_compare a b
  end.

Definition ComputeTapbranchHash (a b : list Z) : list Z :=
  TaggedHash TAG_TAPBRANCH (if lexicographical_compare a b then a ++ b else b ++ a).

Definition ComputeTaprootMerkleRoot (control tapleaf_hash : list Z) : outcome (list Z) :=
  if size control <? TAPROOT_CONTROL_BASE_SIZE then Crash else
  if TAPROOT_CONTROL_MAX_SIZE <? size control then Crash else
  if negb ((size control - TAPROOT_CONTROL_BASE_SIZE) mod TAPROOT_CONTROL_NODE_SIZE =? 0) then Crash else
  let path_len := (size control - TAPROOT_CONTROL_BASE_SIZE) / TAPROOT_CONTROL_NODE_SIZE in
  or_crash (for_loop (Z.to_nat path_len) 0 (λ i k,
    node ← read control (33 + 32 * i) 32;
    Some (ComputeTapbranchHash k node)) tapleaf_hash).

Definition VerifyTaprootCommitment (control program tapleaf_hash : list Z) : outcome bool :=
  if size control <? TAPROOT_CONTROL_BASE_SIZE then Crash else
  if size program <? 32 then Crash else
  p ← or_crash (read control 1 32);
  merkle_root ← ComputeTaprootMerkleRoot control tapleaf_hash;
  b ← or_crash (control !! 0%nat);
  Ok (CheckTapTweak program p merkle_root (negb (Z.land b 1 =? 0))).

(** ** Witness programs *)

(** [::GetSerializeSize(witness.stack)]. *)
Definition witness_serialize_size (stack : list (list Z)) : Z :=
  GetSizeOfCompactSize (Z.of_nat (length stack)) +
  foldr (λ v n, GetSizeOfCompactSize (size v) + size v + n) 0 stack.

Definition p2wpkh_script (program : list Z) : list Z :=
  push_op (push_op (push_data (push_op (push_op [] OP_DUP) OP_HASH160) program) OP_EQUALVERIFY) OP_CHECKSIG.

Definition set_annex (e : ScriptExecutionData) (annex : option (list Z)) : ScriptExecutionData :=
  Build_ScriptExecutionData (m_tapleaf_hash_init e) (m_tapleaf_hash e) (m_codeseparator_pos_init e)
    (m_codeseparator_pos e) true (bool_decide (is_Some annex))
    (match annex with Some a => CSHA256 (compact_size (size a) ++ a) | None => m_annex_hash e end)
    (m_validation_weight_left_init e) (m_validation_weight_left e).
Definition set_tapleaf (e : ScriptExecutionData) (h : list Z) (w : Z) : ScriptExecutionData :=
  Build_ScriptExecutionData true h (m_codeseparator_pos_init e) (m_codeseparator_pos e) (m_annex_init e)
    (m_annex_present e) (m_annex_hash e) true w.

(** Taproot: the stack without the annex, with the last item first, and the
    annex. *)
Definition split_annex (stack : list (list Z)) : list (list Z) * option (list Z) :=
  match rev stack with
  | annex :: x :: r =>
      if byte_at annex 0 (Z.eqb ANNEX_TAG) then (x :: r, Some annex) else (annex :: x :: r, None)
  | r => (r, None)
  end.

Definition VerifyTaproot (witness : list (list Z)) (program : list Z) (flags : Z)
    (checker : BaseSignatureChecker) (serror : bool) : outcome unit :=
  match witness with
  | [] => SErr SCRIPT_ERR_WITNESS_PROGRAM_WITNESS_EMPTY
  | _ =>
    let '(stack, annex) := split_annex witness in
    let e := set_annex ScriptExecutionData_default annex in
    match stack with
    | [sig] => CheckSchnorrSignature checker sig program TAPROOT e
    | control :: script :: stack =>
        if (size control <? TAPROOT_CONTROL_BASE_SIZE) || (TAPROOT_CONTROL_MAX_SIZE <? size control) ||
           negb ((size control - TAPROOT_CONTROL_BASE_SIZE) mod TAPROOT_CONTROL_NODE_SIZE =? 0)
        then SErr SCRIPT_ERR_TAPROOT_WRONG_CONTROL_SIZE else
        c0 ← or_crash (control !! 0%nat);
        let tapleaf_hash := ComputeTapleafHash (Z.land c0 TAPROOT_LEAF_MASK) script in
        ok ← VerifyTaprootCommitment control program tapleaf_hash;
        if negb ok then SErr SCRIPT_ERR_WITNESS_PROGRAM_MISMATCH else
        if Z.land c0 TAPROOT_LEAF_MASK =? TAPROOT_LEAF_TAPSCRIPT then
          let e := set_tapleaf e tapleaf_hash (witness_serialize_size witness + VALIDATION_WEIGHT_OFFSET) in
          ExecuteWitnessScript (rev stack) script flags TAPSCRIPT checker e serror
        else if has flags SCRIPT_VERIFY_DISCOURAGE_UPGRADABLE_TAPROOT_VERSION
        then SErr SCRIPT_ERR_DISCOURAGE_UPGRADABLE_TAPROOT_VERSION else Ok tt
    | [] => Crash
    end
  end.

Definition VerifyWitnessProgram (witness : list (list Z)) (witversion : Z) (program : list Z) (flags : Z)
    (checker : BaseSignatureChecker) (serror is_p2sh : bool) : outcome unit :=
  if witversion =? 0 then
    if size program =? WITNESS_V0_SCRIPTHASH_SIZE then
      match rev witness with
      | [] => SErr SCRIPT_ERR_WITNESS_PROGRAM_WITNESS_EMPTY
      | exec_script :: r =>
          if decide (CSHA256 exec_script ≠ program) then SErr SCRIPT_ERR_WITNESS_PROGRAM_MISMATCH else
          ExecuteWitnessScript (rev r) exec_script flags WITNESS_V0 checker ScriptExecutionData_default serror
      end
    else if size program =? WITNESS_V0_KEYHASH_SIZE then
      if negb (length witness =? 2)%nat then SErr SCRIPT_ERR_WITNESS_PROGRAM_MISMATCH else
      ExecuteWitnessScript witness (p2wpkh_script program) flags WITNESS_V0 checker ScriptExecutionData_default serror
    else SErr SCRIPT_ERR_WITNESS_PROGRAM_WRONG_LENGTH
  else if (witversion =? 1) && (size program =? WITNESS_V1_TAPROOT_SIZE) && negb is_p2sh then
    if negb (has flags SCRIPT_VERIFY_TAPROOT) then Ok tt else
    VerifyTaproot witness program flags checker serror
  else if negb is_p2sh && IsPayToAnchor_program witversion program then Ok tt
  else if has flags SCRIPT_VERIFY_DISCOURAGE_UPGRADABLE_WITNESS_PROGRAM
  then SErr SCRIPT_ERR_DISCOURAGE_UPGRADABLE_WITNESS_PROGRAM else Ok tt.

(** ** [VerifyScript] *)

(** The result of a script must be true; then the stack, the top first. *)
Definition eval_true (stack : list (list Z)) : outcome (list (list Z)) :=
  match stack with
  | [] => SErr SCRIPT_ERR_EVAL_FALSE
  | top :: _ => if CastToBool top then Ok stack else SErr SCRIPT_ERR_EVAL_FALSE
  end.

(** [stack.resize(1)]: the bottom of the stack, which is last here. *)
Definition resize1 (stack : list (list Z)) : list (list Z) :=
  match rev stack with [] => [[]] | b :: _ => [b] end.

(** The part for pay-to-script-hash: the stack and whether there was a witness. *)
Definition verify_p2sh (scriptSig scriptPubKey : list Z) (witness : list (list Z)) (flags : Z)
    (checker : BaseSignatureChecker) (serror : bool) (stackCopy : list (list Z)) : outcome (list (list Z) * bool) :=
  pushonly ← or_crash (IsPushOnly scriptSig);
  if negb pushonly then SErr SCRIPT_ERR_SIG_PUSHONLY else
  match stackCopy with
  | [] => Crash
  | pubKey2 :: st =>
      st ← EvalScript flags checker BASE st pubKey2 ScriptExecutionData_default;
      st ← eval_true st;
      match (if has flags SCRIPT_VERIFY_WITNESS then IsWitnessProgram pubKey2 else None) with
      | None => Ok (st, false)
      | Some (version, program) =>
          if decide (scriptSig ≠ push_data [] pubKey2) then SErr SCRIPT_ERR_WITNESS_MALLEATED_P2SH else
          _ ← VerifyWitnessProgram witness version program flags checker serror true;
          Ok (resize1 st, true)
      end
  end.

Definition VerifyScript (scriptSig scriptPubKey : list Z) (witness : option (list (list Z))) (flags : Z)
    (checker : BaseSignatureChecker) (serror : bool) : outcome unit :=
  let witness := default [] witness in
  pushonly ← (if has flags SCRIPT_VERIFY_SIGPUSHONLY then or_crash (IsPushOnly scriptSig) else Ok true);
  if negb pushonly then SErr SCRIPT_ERR_SIG_PUSHONLY else
  st ← EvalScript flags checker BASE [] scriptSig ScriptExecutionData_default;
  let stackCopy := if has flags SCRIPT_VERIFY_P2SH then st else [] in
  st ← EvalScript flags checker BASE st scriptPubKey ScriptExecutionData_default;
  st ← eval_true st;
  '(st, hadWitness) ←
    match (if has flags SCRIPT_VERIFY_WITNESS then IsWitnessProgram scriptPubKey else None) with
    | None => Ok (st, false)
    | Some (version, program) =>
        if 0 <? size scriptSig then SErr SCRIPT_ERR_WITNESS_MALLEATED else
        _ ← VerifyWitnessProgram witness version program flags checker serror false;
        Ok (resize1 st, true)
    end;
  '(st, hadWitness) ←
    (if has flags SCRIPT_VERIFY_P2SH && IsPayToScriptHash scriptPubKey then
       '(st, w) ← verify_p2sh scriptSig scriptPubKey witness flags checker serror stackCopy; Ok (st, hadWitness || w)
     else Ok (st, hadWitness));
  _ ← (if has flags SCRIPT_VERIFY_CLEANSTACK then
         if negb (has flags SCRIPT_VERIFY_P2SH) || negb (has flags SCRIPT_VERIFY_WITNESS) then Crash else
         if negb (length st =? 1)%nat then SErr SCRIPT_ERR_CLEANSTACK else Ok tt
       else Ok tt);
  if has flags SCRIPT_VERIFY_WITNESS then
    if negb (has flags SCRIPT_VERIFY_P2SH) then Crash else
    if negb hadWitness && (0 <? length witness)%nat then SErr SCRIPT_ERR_WITNESS_UNEXPECTED else Ok tt
  else Ok tt.

(** ** Signature operations of a witness *)

Definition WitnessSigOps (witversion : Z) (witprogram : list Z) (witness : list (list Z)) : option Z :=
  if witversion =? 0 then
    if size witprogram =? WITNESS_V0_KEYHASH_SIZE then Some 1
    else if (size witprogram =? WITNESS_V0_SCRIPTHASH_SIZE) && (0 <? length witness)%nat then
      match rev witness with subscript :: _ => GetSigOpCount subscript true | [] => None end
    else Some 0
  else Some 0.

(** The count for the input of a transaction.  [IsPushOnly] has read the whole
    signature script before the second loop reads it again, so a failed read is not
    given a result there. *)
Definition CountWitnessSigOps (scriptSig scriptPubKey : list Z) (witness : option (list (list Z))) (flags : Z) : option Z :=
  if negb (has flags SCRIPT_VERIFY_WITNESS) then Some 0 else
  if negb (has flags SCRIPT_VERIFY_P2SH) then None else
  match IsWitnessProgram scriptPubKey with
  | Some (witnessversion, witnessprogram) => WitnessSigOps witnessversion witnessprogram (default [] witness)
  | None =>
      push ← (if IsPayToScriptHash scriptPubKey then IsPushOnly scriptSig else Some false);
      if push : bool then
        data ← loop (S (length scriptSig)) (λ '(pc, data),
          match pc with
          | [] => Some (Done data)
          | _ => '(pc, _, data) ← GetScriptOp pc; Some (Next (pc, data))
          end) (scriptSig, []);
        match IsWitnessProgram data with
        | Some (witnessversion, witnessprogram) => WitnessSigOps witnessversion witnessprogram (default [] witness)
        | None => Some 0
        end
      else Some 0
  end.
End verify.

Lemma witness_item_elem flags v : bytes v → witness_item_ok flags v = true → elem_ok flags v.
Proof.
  intros Hb. unfold witness_item_ok, elem_ok, push_allowed. cbv zeta.
  destruct (Z.leb_spec (size v) MAX_SCRIPT_ELEMENT_SIZE) as [H|H]; [by split; [|left]|].
  unfold MAX_SCRIPT_ELEMENT_SIZE in *. destruct (has flags SCRIPT_VERIFY_QUANTUM_SIGS); cbn [andb negb]; [|done].
  intros Hv. split; [done|right].
  destruct ((3310 <=? size v) && (size v <=? 3320)); [done|].
  destruct ((35665 <=? size v) && (size v <=? 35680)); [done|].
  destruct (size v =? 1952); [done|]. destruct (size v =? 48); [done|]. cbn [orb] in Hv.
  by destruct ((size v =? 50) || (size v =? 1956)).
Qed.

Lemma compact_size_nonneg n : 0 <= GetSizeOfCompactSize n.
Proof. unfold GetSizeOfCompactSize. repeat case_match; lia. Qed.

Lemma witness_serialize_size_nonneg st : 0 <= witness_serialize_size st.
Proof.
  unfold witness_serialize_size. pose proof (compact_size_nonneg (Z.of_nat (length st))) as H.
  assert (0 <= foldr (λ v n, GetSizeOfCompactSize (size v) + size v + n) 0 st); [|lia]. clear H.
  induction st as [|v st IH]; cbn [foldr]; [lia|]. pose proof (compact_size_nonneg (size v)).
  assert (0 <= size v) by apply Nat2Z.is_nonneg. lia.
Qed.

Section safety.
Context {C : NodeCrypto} {L : NodeCryptoLaws C} (flags : Z) (checker : BaseSignatureChecker) {SC : TotalChecker checker}.

Lemma op_success_scan_total s : yields (op_success_scan flags s) (λ _, True).
Proof.
  unfold op_success_scan. apply (yields_oloop (λ _, True) length); [done|lia|]. intros [|b pc] _; [done|].
  destruct (GetScriptOp (b :: pc)) as [[[pc' o] d]|] eqn:E; [|done]. apply GetScriptOp_shrinks in E as [E _].
  case_match; [by case_match|]. done.
Qed.

Lemma ExecuteWitnessScript_total st script sv e : sv ≠ TAPROOT → weight_ok sv e → bytes script → Forall bytes st →
  Z.of_nat (length st) < 2 ^ 62 → yields (ExecuteWitnessScript st script flags sv checker e true) (λ _, True).
Proof using SC L.
  intros Hv He Hb Hs Hl. unfold ExecuteWitnessScript. apply yields_bind with (λ _, True).
  { case_decide; [apply op_success_scan_total|done]. }
  intros [] _; [done|]. apply yields_if; [done|]. intros _. apply yields_if; [done|]. rewrite negb_false_iff, forallb_forall.
  intros Hok. assert (Hst : Forall (elem_ok flags) (rev st)).
  { apply Forall_forall. intros v Hv'. apply witness_item_elem; [|apply Hok; by apply in_rev].
    rewrite Forall_forall in Hs. apply Hs. by apply in_rev. }
  pose proof (EvalScript_total flags checker sv (rev st) script e Hv He Hb Hst ltac:(by rewrite length_rev)) as H.
  destruct (EvalScript flags checker sv (rev st) script e) as [st'| | |]; [|done|done|done].
  destruct st' as [|top [|? ?]]; [done| |done]. by case_match.
Qed.

Lemma ComputeTaprootMerkleRoot_total control h :
  TAPROOT_CONTROL_BASE_SIZE <= size control <= TAPROOT_CONTROL_MAX_SIZE →
  (size control - TAPROOT_CONTROL_BASE_SIZE) mod TAPROOT_CONTROL_NODE_SIZE = 0 →
  yields (ComputeTaprootMerkleRoot control h) (λ _, True).
Proof.
  intros Hs Hm. unfold ComputeTaprootMerkleRoot. rewrite (proj2 (Z.ltb_ge _ _)), (proj2 (Z.ltb_ge _ _)) by lia.
  rewrite Hm. cbn [Z.eqb negb]. cbv zeta. apply yields_crash.
  unfold TAPROOT_CONTROL_BASE_SIZE, TAPROOT_CONTROL_NODE_SIZE, TAPROOT_CONTROL_MAX_SIZE, size in *.
  pose proof (Z.div_mod (Z.of_nat (length control) - 33) 32 ltac:(lia)) as Hd. rewrite Hm in Hd.
  apply (wp_for (λ _ _, True)); [done| |done]. intros i k Hi _. rewrite read_Some by lia. done.
Qed.

Lemma VerifyTaproot_total witness program : Forall bytes witness → Z.of_nat (length witness) < 2 ^ 62 →
  size program = WITNESS_V1_TAPROOT_SIZE → yields (VerifyTaproot witness program flags checker true) (λ _, True).
Proof using SC L.
  intros Hb Hl Hp. unfold VerifyTaproot. destruct witness as [|w0 ws]; [done|]. set (w := w0 :: ws) in *.
  assert (Hsp : ∀ st a, split_annex w = (st, a) → st ≠ [] ∧ Forall bytes st ∧ (length st <= length w)%nat).
  { intros st a. unfold split_annex. assert (Hr : Forall bytes (rev w)) by (by apply Forall_rev).
    pose proof (length_rev w) as Hlr. destruct (rev w) as [|x [|y r]] eqn:Er; [done| |].
    - intros [= <- _]. split; [done|]. split; [done|simpl in *; lia].
    - apply Forall_cons_1 in Hr as Hr'. destruct Hr' as [_ Hyr].
      destruct (byte_at x 0 _); intros [= <- _]; (split; [done|split; [done|simpl in *; lia]]). }
  destruct (split_annex w) as [st annex]. destruct (Hsp st annex eq_refl) as (Hne & Hst & Hlen).
  destruct st as [|control [|script st]]; [done|apply yields_schnorr; [exact Hp|by left|done|done]|].
  apply Forall_cons_1 in Hst as [Hc Hst]. apply Forall_cons_1 in Hst as [Hsc Hst].
  apply yields_if; [done|]. rewrite !orb_false_iff, !Z.ltb_ge, negb_false_iff, Z.eqb_eq. intros [[H1 H2] H3].
  apply yields_bind with (λ _, True).
  { apply yields_byte; [unfold TAPROOT_CONTROL_BASE_SIZE, size in H1; lia|done]. }
  intros c0 _. cbv zeta. apply yields_bind with (λ _, True).
  { unfold VerifyTaprootCommitment. rewrite (proj2 (Z.ltb_ge _ _)) by lia.
    rewrite (proj2 (Z.ltb_ge (size program) 32)) by (unfold WITNESS_V1_TAPROOT_SIZE in Hp; lia).
    unfold TAPROOT_CONTROL_BASE_SIZE, size in H1. rewrite read_Some by lia. cbn [or_crash mbind outcome_bind].
    eapply yields_bind; [by apply ComputeTaprootMerkleRoot_total|]. intros root _.
    eapply yields_bind; [apply yields_byte with (Q := λ _, True); [lia|done]|done]. }
  intros [] _; [|done]. cbn [negb]. apply yields_if; [|intros _; by case_match]. intros _.
  apply ExecuteWitnessScript_total; [done| |done| |].
  - intros _. split; [|done]. split; [done|]. cbn [set_tapleaf m_validation_weight_left]. unfold VALIDATION_WEIGHT_OFFSET.
    pose proof (witness_serialize_size_nonneg w). lia.
  - by apply Forall_rev.
  - rewrite length_rev. cbn [length] in Hlen. lia.
Qed.

Lemma p2wpkh_script_bytes p : bytes p → bytes (p2wpkh_script p).
Proof.
  intros Hp. unfold p2wpkh_script, push_op, push_data, AppendDataSize.
  assert (B : ∀ x, bytes [u8 x]) by (intros; constructor; [apply u8_range|constructor]).
  assert (O : ∀ o, bytes [op_num OP_PUSHDATA1] ∧ bytes [op_num OP_PUSHDATA2] ∧ bytes [op_num OP_PUSHDATA4] ∧ o = o :> Z).
  { intros o. split_and!; try done; (constructor; [unfold in_u8; cbn [op_num]; lia|constructor]). }
  destruct (O 0) as (O1 & O2 & O4 & _).
  repeat case_match; repeat apply Forall_app_2; auto using le_bytes_bytes, Forall_nil_2.
Qed.

Lemma VerifyWitnessProgram_total witness version program p2sh : Forall bytes witness → Z.of_nat (length witness) < 2 ^ 62 →
  bytes program → yields (VerifyWitnessProgram witness version program flags checker true p2sh) (λ _, True).
Proof using SC L.
  intros Hb Hl Hp. unfold VerifyWitnessProgram. apply yields_if; intros _.
  - apply yields_if; intros _.
    + assert (Hr : Forall bytes (rev witness)) by (by apply Forall_rev). pose proof (length_rev witness) as Hlr.
      destruct (rev witness) as [|s r]; [done|]. apply Forall_cons_1 in Hr as [Hs Hr]. case_decide; [done|].
      apply ExecuteWitnessScript_total; [done|done|done|by apply Forall_rev|rewrite length_rev; simpl in Hlr; lia].
    + apply yields_if; [intros _|done]. apply yields_if; [done|]. intros _.
      apply ExecuteWitnessScript_total; [done|done|by apply p2wpkh_script_bytes|done|done].
  - apply yields_if.
    + rewrite !andb_true_iff, Z.eqb_eq. intros [[_ Hs%Z.eqb_eq] _]. apply yields_if; [done|]. intros _. by apply VerifyTaproot_total.
    + intros _. apply yields_if; [done|]. intros _. by case_match.
Qed.

(** A pay-to-script-hash script on the empty stack fails: its first instruction
    hashes the top. *)
Lemma p2sh_needs_stack s e st : IsPayToScriptHash s = true → EvalScript flags checker BASE [] s e ≠ Ok st.
Proof.
  unfold IsPayToScriptHash. rewrite !andb_true_iff, Z.eqb_eq. intros [[[_ H0] _] _].
  destruct s as [|b s]; [done|]. cbn [byte_at lookup list_lookup] in H0. apply Z.eqb_eq in H0. subst b.
  unfold EvalScript. rewrite decide_False by done. destruct (_ && _); [done|].
  unfold eval_loop. cbn [oloop length]. unfold eval_step.
  change (GetScriptOp (op_num OP_HASH160 :: s)) with (Some (s, OP_HASH160, [] : list Z)). done.
Qed.

Lemma eval_true_total st : yields (eval_true st) (λ st', st' = st).
Proof. destruct st as [|top st]; [done|]. cbn [eval_true]. by case_match. Qed.

Lemma IsWitnessProgram_bytes s v p : bytes s → IsWitnessProgram s = Some (v, p) → bytes p.
Proof.
  intros Hb. unfold IsWitnessProgram. case_match; [done|]. destruct Hb as [|b0 s _ Hb]; [done|].
  destruct Hb as [|b1 s _ Hb]; [done|]. case_match; [done|]. case_match; [|done].
  destruct (DecodeOP_N _); [|done]. by intros [= _ <-].
Qed.

(** The stack that a script leaves, from an empty one. *)
Lemma EvalScript_ok st script : bytes script → Forall (elem_ok flags) st → Z.of_nat (length st) <= MAX_STACK_SIZE →
  yields (EvalScript flags checker BASE st script ScriptExecutionData_default) (λ st',
    EvalScript flags checker BASE st script ScriptExecutionData_default = Ok st' ∧
    Forall (elem_ok flags) st' ∧ Z.of_nat (length st') <= MAX_STACK_SIZE).
Proof using SC L.
  intros Hb Hs Hl. unfold MAX_STACK_SIZE in *.
  pose proof (EvalScript_total flags checker BASE st script ScriptExecutionData_default ltac:(done) ltac:(done) Hb Hs ltac:(lia)) as H.
  destruct (EvalScript flags checker BASE st script ScriptExecutionData_default) as [st'| | |]; [|done|done|done].
  destruct H as [H1 H2]. split; [done|]. split; [done|]. unfold MAX_STACK_SIZE in H2. destruct H2 as [[_ ->]|]; done.
Qed.

Lemma verify_p2sh_total scriptSig s witness copy : bytes scriptSig → Forall bytes witness →
  Z.of_nat (length witness) < 2 ^ 62 → copy ≠ [] → Forall (elem_ok flags) copy → Z.of_nat (length copy) <= MAX_STACK_SIZE →
  yields (verify_p2sh scriptSig s witness flags checker true copy) (λ _, True).
Proof using SC L.
  intros Hb Hw Hlw Hne Hc Hl. unfold verify_p2sh. destruct (IsPushOnly_total scriptSig) as [b ->].
  cbn [or_crash mbind outcome_bind]. apply yields_if; [done|]. intros _. destruct Hc as [|p2 st [Hp _] Hst]; [done|].
  eapply yields_bind; [apply EvalScript_ok; [done|done|simpl in Hl; lia]|]. intros st' _.
  eapply yields_bind; [apply eval_true_total|]. intros ? _.
  destruct (if has flags SCRIPT_VERIFY_WITNESS then _ else _) as [[v p]|] eqn:E; [|done].
  assert (Hpb : bytes p) by (destruct (has flags _); [by eapply IsWitnessProgram_bytes|done]).
  case_decide; [done|]. eapply yields_bind; [by apply VerifyWitnessProgram_total|]. done.
Qed.
End safety.

(** The combinations of flags that the code asserts. *)
Definition flags_ok (flags : Z) : Prop :=
  (has flags SCRIPT_VERIFY_WITNESS = true → has flags SCRIPT_VERIFY_P2SH = true) ∧
  (has flags SCRIPT_VERIFY_CLEANSTACK = true →
   has flags SCRIPT_VERIFY_P2SH = true ∧ has flags SCRIPT_VERIFY_WITNESS = true).

(** The whole of [VerifyScript]: whatever the scripts and the witness are, no
    assertion fails (in particular the stack of a pay-to-script-hash spend is not
    empty), no access is out of bounds, no exception leaves it, and the loops end. *)
Lemma VerifyScript_total {C : NodeCrypto} {L : NodeCryptoLaws C} (flags : Z) (checker : BaseSignatureChecker)
    {SC : TotalChecker checker} (scriptSig scriptPubKey : list Z) (witness : option (list (list Z))) :
  flags_ok flags → bytes scriptSig → bytes scriptPubKey → Forall bytes (default [] witness) →
  Z.of_nat (length (default [] witness)) < 2 ^ 62 →
  match VerifyScript scriptSig scriptPubKey witness flags checker true with Ok _ | SErr _ => True | Exn | Crash => False end.
Proof.
  intros [Hf1 Hf2] Hb1 Hb2 Hw Hlw.
  assert (S : yields (VerifyScript scriptSig scriptPubKey witness flags checker true) (λ _, True)); [|by destruct (VerifyScript _ _ _ _ _ _)].
  unfold VerifyScript. set (w := default [] witness) in *. cbv zeta.
  eapply yields_bind with (P := λ _, True).
  { apply yields_if; [|done]. intros _. apply yields_crash. apply wp_exists. destruct (IsPushOnly_total scriptSig) as [b ->]. eauto. }
  intros b _. apply yields_if; [done|]. intros _.
  eapply yields_bind; [apply (EvalScript_ok flags checker [] scriptSig Hb1 (Forall_nil_2 _)); done|]. intros st (_ & Hst & Hl).
  eapply yields_bind; [by apply EvalScript_ok|]. intros st2 (E2 & Hst2 & _).
  eapply yields_bind; [apply eval_true_total|]. intros ? ->.
  eapply yields_bind with (P := λ _, True).
  { destruct (if has flags SCRIPT_VERIFY_WITNESS then _ else _) as [[v p]|] eqn:E; [|done].
    assert (Hpb : bytes p) by (destruct (has flags _); [by eapply IsWitnessProgram_bytes|done]).
    apply yields_if; [done|]. intros _. eapply yields_bind; [by apply VerifyWitnessProgram_total|]. done. }
  intros [st3 had] _. eapply yields_bind with (P := λ _, True).
  { apply yields_if; [|done]. rewrite andb_true_iff. intros [Hp2 Hsh]. rewrite Hp2.
    assert (Hne : st ≠ []) by (intros ->; by apply (p2sh_needs_stack flags checker _ _ _ Hsh) in E2).
    eapply yields_bind; [by apply verify_p2sh_total|]. by intros []. }
  intros [st4 had2] _. eapply yields_bind with (P := λ _, True).
  { apply yields_if; [|done]. intros Hcs. destruct (Hf2 Hcs) as [-> ->]. cbn [negb orb]. by case_match. }
  intros _ _. apply yields_if; [|done]. intros Hwt. rewrite (Hf1 Hwt). cbn [negb]. by case_match.
Qed.

(** ** Running scripts of pushes *)

Section run.
Context {C : NodeCrypto} {L : NodeCryptoLaws C} (flags : Z) (checker : BaseSignatureChecker).

(** A push of [<<] that is not a small number puts its data on the stack. *)
Lemma eval_step_push sigversion d rest pos i :
  size (d ++ rest) < 2 ^ 32 → size d <= MAX_SCRIPT_ELEMENT_SIZE ∨ push_allowed flags (size d) = true →
  size d ≠ 1 → ConditionStack.all_true (vfExec i) = true →
  Z.of_nat (length (stack i) + length (altstack i)) < MAX_STACK_SIZE →
  eval_step flags checker sigversion (push_data [] d ++ rest) pos i = Ok (rest, set_stack i (d :: stack i)).
Proof.
  intros Hs Hd H1 Hf Hst. unfold eval_step. rewrite GetScriptOp_push, Hf by done.
  assert (Hz : 0 <= size d) by apply Nat2Z.is_nonneg. pose proof (push_opcode_range (size d) Hz) as Hr.
  assert (Hp : (MAX_SCRIPT_ELEMENT_SIZE <? size d) && negb (push_allowed flags (size d)) = false).
  { destruct Hd as [Hd| ->]; [by rewrite (proj2 (Z.ltb_ge _ _))|by rewrite andb_false_r]. }
  rewrite Hp, op_num_to_opcode. rewrite (proj2 (Z.ltb_ge (op_num OP_16) _)) by (cbn [op_num] in *; lia).
  rewrite andb_false_r. cbn [andb].
  assert (Hn : ∀ o, op_num OP_PUSHDATA4 < op_num o → to_opcode (push_opcode (size d)) ≠ o).
  { intros o Ho E. apply (f_equal op_num) in E. rewrite op_num_to_opcode in E. lia. }
  assert (is_disabled (to_opcode (push_opcode (size d))) = false) as ->.
  { destruct (is_disabled _) eqn:E; [exfalso|done]. pose proof (op_num_to_opcode (push_opcode (size d))) as Eo.
    destruct (to_opcode (push_opcode (size d))); try done; cbn [op_num] in *; lia. }
  rewrite bool_decide_false by (by apply Hn). cbn [andb].
  rewrite (proj2 (Z.leb_le 0 _)), (proj2 (Z.leb_le _ (op_num OP_PUSHDATA4))) by lia. cbn [andb].
  rewrite CheckMinimalPush_push by (unfold size in *; rewrite length_app in Hs; lia).
  rewrite (proj2 (Z.eqb_neq (size d) 1)) by done. cbn [andb negb].
  assert (∀ b : bool, (if b then or_crash (Some true) else Ok true) = Ok true) as -> by (by intros []).
  cbn [mbind outcome_bind negb]. rewrite (proj2 (Z.ltb_ge MAX_STACK_SIZE _)); [done|].
  unfold set_stack. cbn [stack altstack length]. lia.
Qed.

(** The loop, instruction by instruction. *)
Definition eval_run sigversion (fuel : nat) (pc : list Z) (pos : Z) (i : interp) : outcome interp :=
  oloop fuel (λ '(pc, opcode_pos, i),
    match pc with
    | [] => Ok (Done i)
    | _ => '(pc, i) ← eval_step flags checker sigversion pc opcode_pos i; Ok (Next (pc, u32 (opcode_pos + 1), i))
    end) (pc, pos, i).

Lemma eval_run_step sigversion fuel pc pos i r : pc ≠ [] → eval_step flags checker sigversion pc pos i = r →
  eval_run sigversion (S fuel) pc pos i = ('(pc, i) ← r; eval_run sigversion fuel pc (u32 (pos + 1)) i).
Proof.
  intros Hne <-. unfold eval_run. cbn [oloop]. destruct pc as [|b pc]; [done|].
  by destruct (eval_step _ _ _ _ _ _) as [[pc' i']| | |].
Qed.

(** A push, in a script that is being executed. *)
Lemma eval_run_push sigversion fuel d rest pos i :
  size (d ++ rest) < 2 ^ 32 → size d <= MAX_SCRIPT_ELEMENT_SIZE ∨ push_allowed flags (size d) = true →
  size d ≠ 1 → ConditionStack.all_true (vfExec i) = true →
  Z.of_nat (length (stack i) + length (altstack i)) < MAX_STACK_SIZE →
  eval_run sigversion (S fuel) (push_data [] d ++ rest) pos i =
  eval_run sigversion fuel rest (u32 (pos + 1)) (set_stack i (d :: stack i)).
Proof.
  intros. erewrite eval_run_step; [|intros E; apply (f_equal size) in E|by apply eval_step_push]; [done|].
  unfold size, push_data, AppendDataSize in E. rewrite !length_app in E. repeat case_match; cbn [app length] in E; lia.
Qed.

(** A version 0 witness program leaves itself on the stack. *)
Lemma EvalScript_program p : size p = WITNESS_V0_SCRIPTHASH_SIZE →
  EvalScript flags checker BASE [] (push_data (push_op [] OP_0) p) ScriptExecutionData_default = Ok [p; []].
Proof.
  unfold WITNESS_V0_SCRIPTHASH_SIZE. intros Hp. rewrite push_data_app. change (push_op [] OP_0) with (push_data [] []).
  assert (Es : push_data [] p = 32 :: p) by (unfold push_data, AppendDataSize; by rewrite Hp).
  assert (Hl : length (push_data [] [] ++ push_data [] p) = 34%nat).
  { rewrite Es, length_app. change (length (push_data [] [])) with 1%nat. cbn [length]. unfold size in Hp. lia. }
  unfold EvalScript. rewrite decide_False by done. unfold size at 1. rewrite Hl, andb_false_r.
  unfold eval_loop. rewrite Hl.
  match goal with |- match oloop _ _ (_, _, ?i) with _ => _ end = _ => fold (eval_run BASE 35 (push_data [] [] ++ push_data [] p) 0 i) end.
  rewrite eval_run_push; [|rewrite Es; unfold size in *; cbn [length app]; lia|by left|done|done|done].
  rewrite <-(app_nil_r (push_data [] p)) at 1.
  rewrite eval_run_push; [|rewrite app_nil_r; lia|left; unfold MAX_SCRIPT_ELEMENT_SIZE; lia|lia|done|done].
  done.
Qed.

Lemma IsWitnessProgram_push p : bytes p → size p = WITNESS_V0_SCRIPTHASH_SIZE →
  IsWitnessProgram (push_data (push_op [] OP_0) p) = Some (0, p) ∧
  IsPayToScriptHash (push_data (push_op [] OP_0) p) = false.
Proof.
  unfold WITNESS_V0_SCRIPTHASH_SIZE. intros Hb Hp. rewrite push_data_app.
  assert (push_op [] OP_0 ++ push_data [] p = 0 :: 32 :: p) as ->.
  { unfold push_data, AppendDataSize. by rewrite Hp. }
  unfold IsWitnessProgram, IsPayToScriptHash, size in *. cbn [length]. rewrite !Nat2Z.inj_succ, Hp. done.
Qed.

(** The pay-to-witness-script-hash arm of [VerifyScript] for an empty [scriptSig]. *)
Lemma VerifyScript_p2wsh items script serror :
  has flags SCRIPT_VERIFY_WITNESS = true → has flags SCRIPT_VERIFY_P2SH = true → CastToBool (CSHA256 script) = true →
  VerifyScript [] (push_data (push_op [] OP_0) (CSHA256 script)) (Some (items ++ [script])) flags checker serror =
  ExecuteWitnessScript items script flags WITNESS_V0 checker ScriptExecutionData_default serror.
Proof using L.
  intros Hw Hp Hc. assert (Hs : size (CSHA256 script) = WITNESS_V0_SCRIPTHASH_SIZE) by (unfold size; by rewrite length_CSHA256).
  destruct (IsWitnessProgram_push _ (CSHA256_bytes script) Hs) as [Ew Es]. unfold VerifyScript. cbn [default from_option id].
  change (or_crash (IsPushOnly [])) with (Ok true).
  assert (∀ b : bool, (if b then Ok true else Ok true) = Ok true) as -> by (by intros []).
  cbn [mbind outcome_bind negb]. change (EvalScript flags checker BASE [] [] ScriptExecutionData_default) with (Ok ([] : list (list Z))).
  cbn [mbind outcome_bind]. rewrite Hp, EvalScript_program by done. cbn [mbind outcome_bind eval_true].
  rewrite Hc. cbn [mbind outcome_bind]. rewrite Hw, Ew. change (0 <? size []) with false. cbn iota.
  unfold VerifyWitnessProgram. change (0 =? 0) with true. cbn iota. rewrite Hs. change (_ =? _) with true at 1. cbn iota.
  rewrite rev_app_distr. cbn [rev app]. rewrite decide_False by (by intros []). rewrite rev_involutive.
  destruct (ExecuteWitnessScript _ _ _ _ _ _ _) as [[]|e| |]; cbn [mbind outcome_bind]; [|done|done|done].
  rewrite Es, andb_false_r. cbn [mbind outcome_bind]. rewrite andb_false_l.
  by destruct (has flags SCRIPT_VERIFY_CLEANSTACK).
Qed.
End run.

(** C37 Without a pointer for the error, a witness script that fails crashes the
    node: for every pay-to-witness-script-hash output, if the revealed script ends
    with an error, [VerifyScript] dereferences the null pointer to log it. *)
Theorem verify_script_null_error {C : NodeCrypto} {L : NodeCryptoLaws C} (flags : Z) (checker : BaseSignatureChecker)
    (items : list (list Z)) (script : list Z) (err : ScriptError) :
  has flags SCRIPT_VERIFY_WITNESS = true → has flags SCRIPT_VERIFY_P2SH = true →
  CastToBool (CSHA256 script) = true →
  forallb (witness_item_ok flags) items = true →
  EvalScript flags checker WITNESS_V0 (rev items) script ScriptExecutionData_default = SErr err →
  VerifyScript [] (push_data (push_op [] OP_0) (CSHA256 script)) (Some (items ++ [script])) flags checker false = Crash ∧
  VerifyScript [] (push_data (push_op [] OP_0) (CSHA256 script)) (Some (items ++ [script])) flags checker true = SErr err.
Proof.
  intros Hw Hp Hc Hi He. rewrite !VerifyScript_p2wsh by done. unfold ExecuteWitnessScript.
  rewrite decide_False by done. cbn [mbind outcome_bind]. rewrite bool_decide_false by done. cbn [andb].
  by rewrite Hi, He.
Qed.

(** ** Instances *)

(** OP_RETURN as the witness script. *)
Lemma verify_script_null_error_witness :
  VerifyScript (C := test_crypto) [] (push_data (push_op [] OP_0) (replicate 32 1)) (Some [[0x6a]])
    (SCRIPT_VERIFY_P2SH + SCRIPT_VERIFY_WITNESS) base_checker false = Crash.
Proof.
  destruct (verify_script_null_error (C := test_crypto) (SCRIPT_VERIFY_P2SH + SCRIPT_VERIFY_WITNESS) base_checker [] [0x6a]
    SCRIPT_ERR_OP_RETURN eq_refl eq_refl eq_refl eq_refl eq_refl) as [H _].
  exact H.
Defined.
