(* ===== verification/QKey.v ===== *)
(** Private keys of several kinds: the wrapper of a signature object of liboqs,
    [OQSContext] (crypto/oqs_wrapper.h and .cpp), [CQuantumKey] and
    [CExtQuantumKey] (crypto/quantum_key.h and .cpp).

    Functions that use the random source take and return its state.  An object of
    the elliptic-curve key class is what [CKeyOps] says.  A constructor that
    throws is [Exn]; the samplers and the signing loop of ML-DSA-65 are bounded as
    in MlSign.v, and a bound that is too small is [Crash]. *)
From stdpp Require Import strings.
From S2P Require Import Prelude SpxIface OqsSig KeccakP Sha3 Sha3Api MlSign OqsMlDsa Serial QSig Script Node QPubKey.

Open Scope string_scope.
Open Scope list_scope.
Open Scope Z_scope.

(** ** Elliptic-curve private keys (key.h), as an interface *)

Class CKeyOps (rng : Type) := {
  CKey : Type;
  CKey_default : CKey;
  CKey_IsValid : CKey → bool;
  CKey_IsCompressed : CKey → bool;
  CKey_MakeNewKey : bool → rng → CKey * rng;
  CKey_GetPubKey : CKey → list Z;
  CKey_Sign : CKey → list Z → list Z → bool * list Z;
  CKey_Load : list Z → list Z → bool → bool * CKey;
  CKey_Derive : CKey → Z → list Z → bool * CKey * list Z;
  CKey_GetPrivKey : CKey → list Z;
}.

(** A default object is not valid. *)
Class CKeyLaws {rng} (K : CKeyOps rng) : Prop := {
  CKey_default_invalid : CKey_IsValid CKey_default = false;
}.

(** ** The random source of liboqs *)

(** [GetStrongRandBytes] asserts that at most 32 bytes are asked for. *)
Definition MAX_BYTES_PER_CALL : nat := 32.

Section rand.
Context {rng : Type} (GetStrongRandBytes : rng → nat → list Z * rng).

(** The loop of [BitcoinRandBytes], for the [left] bytes from [offset] on: each
    iteration gets at least one byte, so [left] iterations are enough. *)
Fixpoint rand_loop (fuel : nat) (left : nat) (g : rng) : list Z * rng :=
  match fuel with
  | O => ([], g)
  | S fuel =>
      if (0 <? left)%nat then
        let bytes_to_get := Nat.min left MAX_BYTES_PER_CALL in
        let '(b, g) := GetStrongRandBytes g bytes_to_get in
        let '(r, g) := rand_loop fuel (left - bytes_to_get) g in
        (b ++ r, g)
      else ([], g)
  end.

Definition BitcoinRandBytes (g : rng) (size : nat) : list Z * rng := rand_loop size size g.

(** The constructor of [SecureQuantumKey], with the assertion. *)
Definition SecureQuantumKey (size : nat) (g : rng) : outcome (list Z * rng) :=
  if (MAX_BYTES_PER_CALL <? size)%nat then Crash else Ok (GetStrongRandBytes g size).
End rand.

(** ** Contexts *)

Section keys.
Context {C : NodeCrypto} (callbacks : OQS_SHA3_callbacks) {U : Uninit} (fuel tries : nat).
Context {rng : Type} {K : CKeyOps rng} (GetStrongRandBytes : rng → nat → list Z * rng) (malloc_ok : bool).

(** The context that owns the object has a pointer; one that was moved from has
    none. *)
Record OQSContext := { m_sig : option (OQS_SIG rng); m_algorithm_name : string }.

Definition OQSContext_new (algorithm_name : string) : outcome OQSContext :=
  match OQS_SIG_new qs_build (qs_constructors callbacks fuel tries (BitcoinRandBytes GetStrongRandBytes) malloc_ok)
          (Some algorithm_name) with
  | None => Exn
  | Some sig => Ok {| m_sig := Some sig; m_algorithm_name := algorithm_name |}
  end.

Definition GenerateKeypair (ctx : OQSContext) (public_key secret_key : list Z) (g : rng)
    : outcome (bool * list Z * list Z * rng) :=
  match m_sig ctx with
  | None => Ok (false, public_key, secret_key, g)
  | Some sig =>
      let public_key := resize public_key (Z.to_nat (length_public_key sig)) in
      let secret_key := resize secret_key (Z.to_nat (length_secret_key sig)) in
      '(status, public_key, secret_key, g) ← or_crash (OQS_SIG_keypair (Some sig) public_key secret_key g);
      Ok (status =? OQS_SUCCESS, public_key, secret_key, g)
  end.

(** The overload for other vectors. *)
Definition GenerateKeypair_secure (ctx : OQSContext) (public_key secret_key : list Z) (g : rng)
    : outcome (bool * list Z * list Z * rng) :=
  '(ok, public_key, temp_secret, g) ← GenerateKeypair ctx public_key [] g;
  Ok (ok, public_key, if (ok : bool) then temp_secret else secret_key, g).

(** A null [message] or [signature] pointer is [None]. *)
Definition OQSContext_Sign (ctx : OQSContext) (signature : list Z) (signature_len : nat) (message : option (list Z))
    (secret_key : list Z) (g : rng) : outcome (bool * list Z * nat * rng) :=
  match m_sig ctx, message with
  | Some sig, Some message =>
      if negb (size secret_key =? length_secret_key sig) then Ok (false, signature, signature_len, g) else
      let signature := resize signature (Z.to_nat (length_signature sig)) in
      '(status, signature, signature_len, g) ← or_crash (OQS_SIG_sign (Some sig) signature signature_len message secret_key g);
      if status =? OQS_SUCCESS then Ok (true, resize signature signature_len, signature_len, g)
      else Ok (false, signature, signature_len, g)
  | _, _ => Ok (false, signature, signature_len, g)
  end.

Definition OQSContext_Verify (ctx : OQSContext) (message signature : option (list Z)) (signature_len : nat)
    (public_key : list Z) : outcome bool :=
  match m_sig ctx, message, signature with
  | Some sig, Some message, Some signature =>
      if negb (size public_key =? length_public_key sig) then Ok false else
      status ← or_crash (OQS_SIG_verify (Some sig) message signature signature_len public_key);
      Ok (status =? OQS_SUCCESS)
  | _, _, _ => Ok false
  end.

Definition GetPublicKeySize (ctx : OQSContext) : Z := match m_sig ctx with Some sig => length_public_key sig | None => 0 end.
Definition GetSecretKeySize (ctx : OQSContext) : Z := match m_sig ctx with Some sig => length_secret_key sig | None => 0 end.
Definition OQSContext_GetMaxSignatureSize (ctx : OQSContext) : Z :=
  match m_sig ctx with Some sig => length_signature sig | None => 0 end.

(** Moving: the new owner and what is left of the old one. *)
Definition OQSContext_move (other : OQSContext) : OQSContext * OQSContext :=
  (other, {| m_sig := None; m_algorithm_name := "" |}).

(** ** Keys *)

Record CQuantumKey := {
  m_type : KeyType;
  m_vchPrivKey : list Z;
  k_vchPubKey : list Z;
  m_fValid : bool;
  m_ecdsaKey : option CKey;
}.
Definition CQuantumKey_default : CQuantumKey :=
  {| m_type := ECDSA; m_vchPrivKey := []; k_vchPubKey := []; m_fValid := false; m_ecdsaKey := None |}.

Definition CQuantumKey_of_CKey (key : CKey) : CQuantumKey :=
  {| m_type := ECDSA; m_vchPrivKey := []; k_vchPubKey := []; m_fValid := CKey_IsValid key;
     m_ecdsaKey := if CKey_IsValid key then Some key else None |}.

(** The type stays. *)
Definition Clear (k : CQuantumKey) : CQuantumKey :=
  {| m_type := m_type k; m_vchPrivKey := []; k_vchPubKey := []; m_fValid := false; m_ecdsaKey := None |}.

(** The defaulted moves: vectors and the pointer leave the old object, the type
    and the flag are copied and stay. *)
Definition CQuantumKey_move (other : CQuantumKey) : CQuantumKey * CQuantumKey :=
  (other, {| m_type := m_type other; m_vchPrivKey := []; k_vchPubKey := []; m_fValid := m_fValid other; m_ecdsaKey := None |}).

(** The names of the algorithms. *)
Definition ALG_ML_DSA_65 : string := "ML-DSA-65".
Definition ALG_SLH_DSA_192F : string := "SPHINCS+-SHA2-192f-simple".

(** The arm of a quantum algorithm: [k] has been cleared and has its type. *)
Definition make_quantum_key (k : CQuantumKey) (name : string) (g : rng) : outcome (CQuantumKey * rng) :=
  ctx ← OQSContext_new name;
  '(ok, public_key, secret_key, g) ← GenerateKeypair_secure ctx [] [] g;
  Ok (if (ok : bool) then
        {| m_type := m_type k; m_vchPrivKey := secret_key; k_vchPubKey := public_key; m_fValid := true;
           m_ecdsaKey := m_ecdsaKey k |}
      else k, g).

Definition MakeNewKey (k : CQuantumKey) (type : KeyType) (g : rng) : outcome (CQuantumKey * rng) :=
  let k := Clear k in
  let k := {| m_type := type; m_vchPrivKey := m_vchPrivKey k; k_vchPubKey := k_vchPubKey k; m_fValid := m_fValid k;
              m_ecdsaKey := m_ecdsaKey k |} in
  match type with
  | ECDSA =>
      let '(key, g) := CKey_MakeNewKey true g in
      Ok ({| m_type := type; m_vchPrivKey := m_vchPrivKey k; k_vchPubKey := k_vchPubKey k;
             m_fValid := CKey_IsValid key; m_ecdsaKey := Some key |}, g)
  | ML_DSA_65 => make_quantum_key k ALG_ML_DSA_65 g
  | SLH_DSA_192F => make_quantum_key k ALG_SLH_DSA_192F g
  | KeyType_other _ => Ok (k, g)
  end.

Definition GetPubKey (k : CQuantumKey) : CQuantumPubKey :=
  if negb (m_fValid k) then CQuantumPubKey_default else
  match m_type k with
  | ECDSA =>
      match m_ecdsaKey k with
      | Some key => CQuantumPubKey_of_CPubKey (CKey_GetPubKey key)
      | None => CQuantumPubKey_default
      end
  | ML_DSA_65 =>
      if 0 <? size (k_vchPubKey k) then {| pk_type := ML_DSA_65; m_vchPubKey := k_vchPubKey k |}
      else CQuantumPubKey_default
  | SLH_DSA_192F =>
      if 0 <? size (k_vchPubKey k) then {| pk_type := SLH_DSA_192F; m_vchPubKey := k_vchPubKey k |}
      else if size (m_vchPrivKey k) =? SLH_DSA_192F_PRIVKEY_SIZE then
        {| pk_type := SLH_DSA_192F;
           m_vchPubKey := drop (Z.to_nat (size (m_vchPrivKey k) - SLH_DSA_192F_PUBKEY_SIZE)) (m_vchPrivKey k) |}
      else CQuantumPubKey_default
  | KeyType_other _ => CQuantumPubKey_default
  end.

Definition sign_with (name : string) (k : CQuantumKey) (hash vchSig : list Z) (g : rng) : outcome (bool * list Z * rng) :=
  ctx ← OQSContext_new name;
  '(ok, vchSig, _, g) ← OQSContext_Sign ctx vchSig 0 (Some hash) (m_vchPrivKey k) g;
  Ok (ok, vchSig, g).

Definition CQuantumKey_Sign (k : CQuantumKey) (hash vchSig : list Z) (g : rng) : outcome (bool * list Z * rng) :=
  if negb (m_fValid k) then Ok (false, vchSig, g) else
  match m_type k with
  | ECDSA =>
      match m_ecdsaKey k with
      | Some key => let '(ok, vchSig) := CKey_Sign key hash vchSig in Ok (ok, vchSig, g)
      | None => Ok (false, vchSig, g)
      end
  | ML_DSA_65 => sign_with ALG_ML_DSA_65 k hash vchSig g
  | SLH_DSA_192F => sign_with ALG_SLH_DSA_192F k hash vchSig g
  | KeyType_other _ => Ok (false, vchSig, g)
  end.

Definition verify_with (name : string) (hash vchSig : list Z) (pubkey : CQuantumPubKey) : outcome bool :=
  ctx ← OQSContext_new name;
  OQSContext_Verify ctx (Some hash) (Some vchSig) (length vchSig) (m_vchPubKey pubkey).

Definition CQuantumKey_Verify (hash vchSig : list Z) (pubkey : CQuantumPubKey) : outcome bool :=
  if negb (CQuantumPubKey_IsValid pubkey) || (size vchSig =? 0) then Ok false else
  match pk_type pubkey with
  | ECDSA => let '(ok, cpubkey) := GetCPubKey pubkey in Ok (if (ok : bool) then CPubKey_Verify cpubkey hash vchSig else false)
  | ML_DSA_65 => verify_with ALG_ML_DSA_65 hash vchSig pubkey
  | SLH_DSA_192F => verify_with ALG_SLH_DSA_192F hash vchSig pubkey
  | KeyType_other _ => Ok false
  end.

Definition GetECDSAKey (k : CQuantumKey) : option CKey :=
  match m_type k with ECDSA => m_ecdsaKey k | _ => None end.

(** The result, the child key and the child chain code. *)
Definition CQuantumKey_Derive (k keyChild : CQuantumKey) (ccChild : list Z) (nChild : Z) (cc : list Z)
    : bool * CQuantumKey * list Z :=
  if negb (m_fValid k) then (false, keyChild, ccChild) else
  match m_type k, m_ecdsaKey k with
  | ECDSA, Some key =>
      let '(ok, childKey, ccChild) := CKey_Derive key nChild cc in
      if (ok : bool) then (true, CQuantumKey_of_CKey childKey, ccChild) else (false, keyChild, ccChild)
  | _, _ => (false, keyChild, ccChild)
  end.

(** [uint256::FromHex] of 0123456789abcdef, four times: the first byte in memory
    is the last of the text. *)
Definition test_hash : list Z :=
  let q := [0xef; 0xcd; 0xab; 0x89; 0x67; 0x45; 0x23; 0x01] in q ++ q ++ q ++ q.

Definition Load (k : CQuantumKey) (privkey : list Z) (pubkey : CQuantumPubKey) (g : rng)
    : outcome (bool * CQuantumKey * rng) :=
  let k := Clear k in
  match pk_type pubkey with
  | ECDSA =>
      let '(ok, cpubkey) := GetCPubKey pubkey in
      if (ok : bool) then
        let '(ok, key) := CKey_Load privkey cpubkey true in
        if (ok : bool) then
          Ok (true, {| m_type := ECDSA; m_vchPrivKey := m_vchPrivKey k; k_vchPubKey := k_vchPubKey k; m_fValid := true;
                       m_ecdsaKey := Some key |}, g)
        else Ok (false, Clear k, g)
      else Ok (false, Clear k, g)
  | type =>
      match (match type with
             | ML_DSA_65 => Some ML_DSA_65_PRIVKEY_SIZE
             | SLH_DSA_192F => Some SLH_DSA_192F_PRIVKEY_SIZE
             | _ => None
             end) with
      | None => Ok (false, k, g)
      | Some expected_size =>
          if size privkey =? expected_size then
            let k := {| m_type := type; m_vchPrivKey := privkey; k_vchPubKey := m_vchPubKey pubkey; m_fValid := true;
                        m_ecdsaKey := m_ecdsaKey k |} in
            let invalid := {| m_type := type; m_vchPrivKey := privkey; k_vchPubKey := m_vchPubKey pubkey;
                              m_fValid := false; m_ecdsaKey := m_ecdsaKey k |} in
            '(ok, test_sig, g) ← CQuantumKey_Sign k test_hash [] g;
            valid ← (if (ok : bool) then CQuantumKey_Verify test_hash test_sig pubkey else Ok false);
            Ok (if (valid : bool) then (true, k, g) else (false, invalid, g))
          else Ok (false, Clear k, g)
      end
  end.

Definition GetPrivKeyData (k : CQuantumKey) : list Z :=
  if negb (m_fValid k) then [] else
  match m_type k, m_ecdsaKey k with
  | ECDSA, Some key => CKey_GetPrivKey key
  | _, _ => m_vchPrivKey k
  end.

(** ** Extended keys *)

Record CExtQuantumKey := {
  nDepth : Z;
  vchFingerprint : list Z;
  nChild : Z;
  chaincode : list Z;
  ext_key : CQuantumKey;
}.

Definition BIP32_EXTKEY_WITH_VERSION_SIZE : nat := 78.

(** [code.resize] keeps what the buffer held; then 46 bytes are assigned. *)
Definition Encode (x : CExtQuantumKey) (code : list Z) : option (list Z) :=
  let code := resize code (BIP32_EXTKEY_WITH_VERSION_SIZE + 1) in
  code ← write code 0 [0x04; 0x88; 0xAD; 0xE4];
  code ← write code 4 [u8 (nDepth x)];
  code ← write code 5 (vchFingerprint x);
  code ← write code 9 [Z.land (Z.shiftr (nChild x) 24) 0xFF; Z.land (Z.shiftr (nChild x) 16) 0xFF;
                       Z.land (Z.shiftr (nChild x) 8) 0xFF; Z.land (Z.shiftr (nChild x) 0) 0xFF];
  code ← write code 13 (chaincode x);
  code ← write code 45 [KeyType_num (m_type (ext_key x))];
  Some (code ++ GetPrivKeyData (ext_key x)).

Definition Decode (x : CExtQuantumKey) (code : list Z) (g : rng) : outcome (CExtQuantumKey * rng) :=
  if (length code <? BIP32_EXTKEY_WITH_VERSION_SIZE + 1)%nat then Exn else
  d ← or_crash (code !! 4%nat);
  f ← or_crash (read code 5 4);
  c ← or_crash (read code 9 4);
  n ← match c with
      | [c9; c10; c11; c12] =>
          Ok (u32 (Z.lor (Z.lor (Z.lor (Z.shiftl c9 24) (Z.shiftl c10 16)) (Z.shiftl c11 8)) c12))
      | _ => Crash
      end;
  cc ← or_crash (read code 13 32);
  keyType ← or_crash (code !! 45%nat);
  let keyData := drop 46 code in
  '(k, g) ← match to_KeyType keyType with
            | ECDSA => Ok (CQuantumKey_of_CKey CKey_default, g)
            | type =>
                '(_, k, g) ← Load (ext_key x) keyData {| pk_type := type; m_vchPubKey := [] |} g;
                Ok (k, g)
            end;
  Ok ({| nDepth := d; vchFingerprint := f; nChild := n; chaincode := cc; ext_key := k |}, g).

(** The result and [out]. *)
Definition CExtQuantumKey_Derive (x out : CExtQuantumKey) (_nChild : Z) : bool * CExtQuantumKey :=
  let id := CQuantumPubKey_GetID (GetPubKey (ext_key x)) in
  let '(ok, k, cc) := CQuantumKey_Derive (ext_key x) (ext_key out) (chaincode out) _nChild (chaincode x) in
  (ok, {| nDepth := u8 (nDepth x + 1); vchFingerprint := take 4 id; nChild := _nChild; chaincode := cc; ext_key := k |}).
End keys.
