(* ===== verification/QKeyP.v ===== *)
(** Theorems about the keys: the random source serves liboqs, an invariant of
    [CQuantumKey] over its operations, signatures of generated keys verify, export
    and import of a key, and what an extended key's encoding keeps. *)
From stdpp Require Import strings relations.
From S2P Require Import Prelude SpxIface OqsSig KeccakP Sha3 Sha3Api MlArith MlKeys MlSig MlSign MlAttempt MlScheme MlToy MlDsa SpxAddress SpxSign SpxCorrect SpxVerify SpxHash Sphincs OqsMlDsa Serial QSig Script Node QPubKey QKey.

Open Scope string_scope.
Open Scope list_scope.
Open Scope Z_scope.

(** ** The random source *)

Section rand.
Context {rng : Type} (GetStrongRandBytes : rng → nat → list Z * rng).
Context (Hstrong : ∀ g n, (n <= MAX_BYTES_PER_CALL)%nat →
  length (GetStrongRandBytes g n).1 = n ∧ bytes (GetStrongRandBytes g n).1).

Lemma rand_loop_ok fuel left g : (left <= fuel)%nat →
  length (rand_loop GetStrongRandBytes fuel left g).1 = left ∧ bytes (rand_loop GetStrongRandBytes fuel left g).1.
Proof using Hstrong.
  revert left g. induction fuel as [|fuel IH]; intros left g Hl; cbn [rand_loop].
  { cbn [fst length]. split; [lia|constructor]. }
  destruct (Nat.ltb_spec 0 left) as [H0|H0]; [|cbn [fst length]; split; [lia|constructor]].
  set (b := Nat.min left MAX_BYTES_PER_CALL). assert (Hb : (1 <= b <= left)%nat) by (unfold b, MAX_BYTES_PER_CALL; lia).
  destruct (Hstrong g b) as [L1 B1]; [lia|]. destruct (GetStrongRandBytes g b) as [r g1]. cbn [fst] in *.
  destruct (IH (left - b)%nat g1) as [L2 B2]; [lia|]. destruct (rand_loop _ fuel _ _) as [r2 g2]. cbn [fst] in *.
  rewrite length_app. split; [lia|by apply Forall_app_2].
Qed.

Lemma BitcoinRandBytes_ok g n :
  length (BitcoinRandBytes GetStrongRandBytes g n).1 = n ∧ bytes (BitcoinRandBytes GetStrongRandBytes g n).1.
Proof using Hstrong. by apply rand_loop_ok. Qed.
End rand.

(** ** Contexts and keys *)

(** The sizes of the keys and signatures of an algorithm. *)
Definition priv_size (t : KeyType) : Z :=
  match t with ML_DSA_65 => ML_DSA_65_PRIVKEY_SIZE | SLH_DSA_192F => SLH_DSA_192F_PRIVKEY_SIZE | _ => 0 end.
Definition pub_size (t : KeyType) : Z :=
  match t with ML_DSA_65 => ML_DSA_65_PUBKEY_SIZE | SLH_DSA_192F => SLH_DSA_192F_PUBKEY_SIZE | _ => 0 end.
Definition sig_size (t : KeyType) : Z :=
  match t with ML_DSA_65 => ML_DSA_65_SIG_SIZE | SLH_DSA_192F => SLH_DSA_192F_SIG_SIZE | _ => 0 end.
Definition alg_name (t : KeyType) : string :=
  match t with ML_DSA_65 => ALG_ML_DSA_65 | _ => ALG_SLH_DSA_192F end.
Definition quantum (t : KeyType) : Prop := t = ML_DSA_65 ∨ t = SLH_DSA_192F.

Lemma resize_id v n : length v = n → resize v n = v.
Proof. intros <-. unfold resize. by rewrite firstn_all, Nat.sub_diag, app_nil_r. Qed.

Section keys.
Context {C : NodeCrypto} (callbacks : OQS_SHA3_callbacks) {SC : Sha3Contract callbacks} {U : Uninit} (fuel tries : nat).
Context {rng : Type} {K : CKeyOps rng} {KL : CKeyLaws K} (GetStrongRandBytes : rng → nat → list Z * rng).
Context (Hstrong : ∀ g n, (n <= MAX_BYTES_PER_CALL)%nat →
  length (GetStrongRandBytes g n).1 = n ∧ bytes (GetStrongRandBytes g n).1).
Abbreviation OQSContext_new := (OQSContext_new callbacks fuel tries GetStrongRandBytes true).
Abbreviation MakeNewKey := (MakeNewKey callbacks fuel tries GetStrongRandBytes true).
Abbreviation CQuantumKey_Sign := (CQuantumKey_Sign callbacks fuel tries GetStrongRandBytes true).
Abbreviation CQuantumKey_Verify := (CQuantumKey_Verify callbacks fuel tries GetStrongRandBytes true).
Abbreviation Load := (Load callbacks fuel tries GetStrongRandBytes true).
Abbreviation Decode := (Decode callbacks fuel tries GetStrongRandBytes true).

(** The context of an algorithm owns an object with the node's sizes, which keeps
    the promise of the API. *)
Lemma context_ok t : quantum t → ∃ sig,
  OQSContext_new (alg_name t) = Ok {| m_sig := Some sig; m_algorithm_name := alg_name t |} ∧
  length_public_key sig = pub_size t ∧ length_secret_key sig = priv_size t ∧ length_signature sig = sig_size t ∧
  RoundTrips sig.
Proof using SC Hstrong.
  intros Ht. unfold OQSContext_new.
  assert (H : ∃ sig, OQS_SIG_new qs_build (qs_constructors callbacks fuel tries (BitcoinRandBytes GetStrongRandBytes) true)
    (Some (alg_name t)) = Some sig ∧
    length_public_key sig = pub_size t ∧ length_secret_key sig = priv_size t ∧ length_signature sig = sig_size t).
  { destruct Ht as [-> | ->]; eexists; (split; [unfold OQS_SIG_new; reflexivity|]); done. }
  destruct H as (sig & E & H1 & H2 & H3). exists sig. rewrite E. split_and!; [done|done|done|done|].
  exact (api_round_trips callbacks fuel tries _ (BitcoinRandBytes_ok _ Hstrong) _ _ E).
Qed.

(** What signing with a key promises: a returned signature comes with success,
    has the size of the algorithm, and verifies under the public key. *)
Definition signs_for (k : CQuantumKey) (pub : CQuantumPubKey) : Prop :=
  ∀ hash vchSig g ok s g', length hash = 32%nat → bytes hash →
  CQuantumKey_Sign k hash vchSig g = Ok (ok, s, g') →
  ok = true ∧ size s = sig_size (m_type k) ∧ CQuantumKey_Verify hash s pub = Ok true.

Lemma sign_with_ok t k hash vchSig g : quantum t → m_type k = t → m_fValid k = true →
  CQuantumKey_Sign k hash vchSig g = sign_with callbacks fuel tries GetStrongRandBytes true (alg_name t) k hash vchSig g.
Proof. intros Ht Hk Hv. unfold CQuantumKey_Sign. rewrite Hv, Hk. by destruct Ht as [-> | ->]. Qed.

Lemma verify_with_ok t hash s p : quantum t → size p = pub_size t → size s ≠ 0 →
  CQuantumKey_Verify hash s {| pk_type := t; m_vchPubKey := p |} =
  verify_with callbacks fuel tries GetStrongRandBytes true (alg_name t) hash s {| pk_type := t; m_vchPubKey := p |}.
Proof.
  intros Ht Hp Hs. unfold CQuantumKey_Verify. rewrite (proj2 (Z.eqb_neq _ _) Hs), orb_false_r.
  unfold CQuantumPubKey_IsValid. destruct Ht as [-> | ->]; cbn [pk_type m_vchPubKey]; by rewrite Hp.
Qed.

Lemma sig_size_pos t : quantum t → 0 < sig_size t.
Proof. by intros [-> | ->]. Qed.

Lemma msg_fits_hash (hash : list Z) : length hash = 32%nat → SpxIface.msg_fits hash.
Proof. intros H. unfold SpxIface.msg_fits. rewrite H. done. Qed.

(** A new key of a quantum type is valid, has keys of the sizes, and signs; its public
    key and its signatures are bytes. *)
Lemma MakeNewKey_full k0 t g k g1 : quantum t → MakeNewKey k0 t g = Ok (k, g1) →
  m_type k = t ∧ m_fValid k = true ∧ size (m_vchPrivKey k) = priv_size t ∧ size (k_vchPubKey k) = pub_size t ∧
  m_ecdsaKey k = None ∧ bytes (k_vchPubKey k) ∧
  ∀ hash vchSig g ok s g', length hash = 32%nat → bytes hash → CQuantumKey_Sign k hash vchSig g = Ok (ok, s, g') →
    ok = true ∧ size s = sig_size t ∧ CQuantumKey_Verify hash s {| pk_type := t; m_vchPubKey := k_vchPubKey k |} = Ok true ∧ bytes s.
Proof using SC Hstrong.
  intros Ht E. destruct (context_ok t Ht) as (sig & Ec & Lp & Ls & Lg & RT).
  assert (E' : make_quantum_key callbacks fuel tries GetStrongRandBytes true
    {| m_type := t; m_vchPrivKey := []; k_vchPubKey := []; m_fValid := false; m_ecdsaKey := None |} (alg_name t) g = Ok (k, g1)).
  { revert E. unfold MakeNewKey. by destruct Ht as [-> | ->]. }
  clear E. unfold make_quantum_key in E'. rewrite Ec in E'. cbn [mbind outcome_bind] in E'.
  unfold GenerateKeypair_secure, GenerateKeypair in E'. cbn [m_sig] in E'.
  destruct (OQS_SIG_keypair (Some sig) _ _ g) as [[[[st pk] sk] g']|] eqn:Ek; cbn [or_crash mbind outcome_bind] in E'; [|done].
  assert (P0 : 0 <= pub_size t ∧ 0 <= priv_size t) by (by destruct Ht as [-> | ->]).
  rewrite Lp, Ls in Ek.
  assert (L1 : Z.of_nat (length (resize [] (Z.to_nat (pub_size t)))) = length_public_key sig) by (rewrite length_resize; lia).
  assert (L2 : Z.of_nat (length (resize [] (Z.to_nat (priv_size t)))) = length_secret_key sig) by (rewrite length_resize; lia).
  destruct (RT _ _ _ _ _ _ _ L1 L2 Ek) as (-> & Lpk & Lsk & Bpk & Hs).
  change (OQS_SUCCESS =? OQS_SUCCESS) with true in E'. cbn iota in E'. injection E' as <- <-.
  cbn [m_type m_fValid m_vchPrivKey k_vchPubKey m_ecdsaKey]. rewrite length_resize in Lpk, Lsk.
  assert (Sp : size pk = pub_size t) by (unfold size; lia). assert (Ss : size sk = priv_size t) by (unfold size; lia).
  split_and!; [done|done|done|done|done|done|].
  intros hash vchSig g2 ok s g3 Lh Bh. rewrite (sign_with_ok t) by done. unfold sign_with. rewrite Ec.
  cbn [mbind outcome_bind m_vchPrivKey]. unfold OQSContext_Sign. cbn [m_sig]. rewrite Ss, Ls, Z.eqb_refl. cbn [negb].
  destruct (OQS_SIG_sign (Some sig) _ _ hash sk g2) as [[[[st s'] n] g4]|] eqn:Es; cbn [or_crash mbind outcome_bind]; [|done].
  assert (L3 : Z.of_nat (length (resize vchSig (Z.to_nat (length_signature sig)))) = length_signature sig)
    by (rewrite length_resize, Lg; pose proof (sig_size_pos t Ht); lia).
  destruct (Hs _ _ _ _ _ _ _ _ L3 Bh (msg_fits_hash _ Lh) Es) as (-> & Hn & Hl & Bs & Hv).
  change (OQS_SUCCESS =? OQS_SUCCESS) with true. cbn iota. intros [= <- <- <-]. rewrite resize_id by done.
  rewrite Lg in Hn. split; [done|]. assert (Sz : size s' = sig_size t) by (unfold size; lia).
  split; [done|]. split; [|done]. pose proof (sig_size_pos t Ht). rewrite verify_with_ok by (done || lia).
  unfold verify_with. rewrite Ec. cbn [mbind outcome_bind m_vchPubKey]. unfold OQSContext_Verify. cbn [m_sig].
  rewrite Sp, Lp, Z.eqb_refl. cbn [negb]. rewrite Hl, Hv. done.
Qed.

Lemma MakeNewKey_ok k0 t g k g1 : quantum t → MakeNewKey k0 t g = Ok (k, g1) →
  m_type k = t ∧ m_fValid k = true ∧ size (m_vchPrivKey k) = priv_size t ∧ size (k_vchPubKey k) = pub_size t ∧
  m_ecdsaKey k = None ∧ signs_for k {| pk_type := t; m_vchPubKey := k_vchPubKey k |}.
Proof using SC Hstrong.
  intros Ht E. destruct (MakeNewKey_full _ _ _ _ _ Ht E) as (Et & H1 & H2 & H3 & H4 & _ & H). split_and!; [done..|].
  intros hash vchSig g2 ok s g3 Lh Bh Es. rewrite Et. destruct (H _ _ _ _ _ _ Lh Bh Es) as (-> & Hz & Hv & _). done.
Qed.

Lemma GetPubKey_stored t k : quantum t → m_type k = t → m_fValid k = true → size (k_vchPubKey k) = pub_size t →
  GetPubKey k = {| pk_type := t; m_vchPubKey := k_vchPubKey k |}.
Proof. intros Ht Hk Hv Hs. unfold GetPubKey. rewrite Hv, Hk, Hs. by destruct Ht as [-> | ->]. Qed.

Lemma pub_valid t p : quantum t → size p = pub_size t → CQuantumPubKey_IsValid {| pk_type := t; m_vchPubKey := p |} = true.
Proof. intros Ht Hs. unfold CQuantumPubKey_IsValid. destruct Ht as [-> | ->]; cbn [pk_type m_vchPubKey]; by rewrite Hs. Qed.

(** The sphincs object always returns. *)
Lemma slh_total : ∃ sig, OQSContext_new ALG_SLH_DSA_192F = Ok {| m_sig := Some sig; m_algorithm_name := ALG_SLH_DSA_192F |} ∧
  length_public_key sig = pub_size SLH_DSA_192F ∧ length_secret_key sig = priv_size SLH_DSA_192F ∧
  length_signature sig = sig_size SLH_DSA_192F ∧
  ∀ pk0 sk0 g, Z.of_nat (length pk0) = length_public_key sig → Z.of_nat (length sk0) = length_secret_key sig →
  ∃ pk sk g1, OQS_SIG_keypair (Some sig) pk0 sk0 g = Some (OQS_SUCCESS, pk, sk, g1) ∧
  length pk = length pk0 ∧ length sk = length sk0 ∧
  ∀ gs sig0 len0 m, Z.of_nat (length sig0) = length_signature sig → SpxIface.msg_fits m →
  ∃ s n g2, OQS_SIG_sign (Some sig) sig0 len0 m sk gs = Some (OQS_SUCCESS, s, n, g2).
Proof using Hstrong.
  destruct (OQS_SIG_sphincs_sha2_192f_simple_new (BitcoinRandBytes GetStrongRandBytes) true) as [sig|] eqn:E; [|done].
  exists sig. split; [unfold OQSContext_new; change (OQS_SIG_new _ _ _) with
    (OQS_SIG_sphincs_sha2_192f_simple_new (BitcoinRandBytes GetStrongRandBytes) true); by rewrite E|].
  pose proof (λ pk0 sk0 g, sphincs_api_round_trip _ sig g pk0 sk0 (λ g n, proj1 (BitcoinRandBytes_ok _ Hstrong g n)) E) as H.
  split_and!; [by injection E as <-|by injection E as <-|by injection E as <-|]. intros pk0 sk0 g Lp Ls.
  specialize (H pk0 sk0 g Lp Ls). destruct (OQS_SIG_keypair _ _ _ _) as [[[[st pk] sk] g1]|]; [|done].
  destruct H as (-> & Lpk & Lsk & H). exists pk, sk, g1. split_and!; [done|done|done|].
  intros gs sig0 len0 m Lg Hm. specialize (H gs sig0 len0 m Lg Hm).
  destruct (OQS_SIG_sign _ _ _ _ _ _) as [[[[st s] n] g2]|]; [|done]. destruct H as [-> _]. eauto.
Qed.

Lemma slh_key_total k0 g : ∃ k g1, MakeNewKey k0 SLH_DSA_192F g = Ok (k, g1) ∧
  ∀ hash vchSig g2, length hash = 32%nat → ∃ s g3, CQuantumKey_Sign k hash vchSig g2 = Ok (true, s, g3).
Proof using Hstrong.
  destruct slh_total as (sig & Ec & Lp & Ls & Lg & H). unfold MakeNewKey. cbv zeta match.
  unfold make_quantum_key. rewrite Ec. cbn [mbind outcome_bind]. unfold GenerateKeypair_secure, GenerateKeypair. cbn [m_sig].
  destruct (H (resize [] (Z.to_nat (length_public_key sig))) (resize [] (Z.to_nat (length_secret_key sig))) g)
    as (pk & sk & g1 & -> & Lpk & Lsk & Hs); [rewrite length_resize, Lp; done|rewrite length_resize, Ls; done|].
  cbn [or_crash mbind outcome_bind]. change (OQS_SUCCESS =? OQS_SUCCESS) with true. cbv match.
  eexists _, g1. split; [reflexivity|]. intros hash vchSig g2 Lh.
  rewrite (sign_with_ok SLH_DSA_192F) by (by right || done). unfold sign_with. cbn [alg_name]. rewrite Ec.
  cbn [mbind outcome_bind m_vchPrivKey]. unfold OQSContext_Sign. cbn [m_sig].
  assert (size sk = length_secret_key sig) as -> by (unfold size; rewrite Lsk, length_resize, Ls; done).
  rewrite Z.eqb_refl. cbn [negb].
  destruct (Hs g2 (resize vchSig (Z.to_nat (length_signature sig))) 0%nat hash) as (s & n & g3 & ->);
    [rewrite length_resize, Lg; done|by apply msg_fits_hash|].
  cbn [or_crash mbind outcome_bind]. change (OQS_SUCCESS =? OQS_SUCCESS) with true. cbv match. eauto.
Qed.

(** C6 Keys of the node: [MakeNewKey] of a quantum type, if it returns, makes a
    valid key whose public key is valid and of that type; from any state of the
    random source, every signature that [Sign] returns on a 256-bit hash comes
    with success, has the size of the algorithm, and is accepted by [Verify]
    under that public key.  For SLH-DSA both always return. *)
Theorem quantum_key_sign_verify (k0 : CQuantumKey) (t : KeyType) (g : rng) :
  quantum t →
  (∀ k g1, MakeNewKey k0 t g = Ok (k, g1) →
     m_fValid k = true ∧ CQuantumPubKey_IsValid (GetPubKey k) = true ∧ pk_type (GetPubKey k) = t ∧
     ∀ hash vchSig g2 ok s g3, length hash = 32%nat → bytes hash →
       CQuantumKey_Sign k hash vchSig g2 = Ok (ok, s, g3) →
       ok = true ∧ size s = sig_size t ∧ CQuantumKey_Verify hash s (GetPubKey k) = Ok true) ∧
  (t = SLH_DSA_192F → ∃ k g1, MakeNewKey k0 t g = Ok (k, g1) ∧
     ∀ hash vchSig g2, length hash = 32%nat → bytes hash →
     ∃ s g3, CQuantumKey_Sign k hash vchSig g2 = Ok (true, s, g3)).
Proof using SC Hstrong.
  intros Ht. split.
  - intros k g1 E. destruct (MakeNewKey_ok _ _ _ _ _ Ht E) as (Hk & Hv & _ & Sp & _ & Hs).
    rewrite (GetPubKey_stored t) by done. split_and!; [done|by apply pub_valid|done|].
    intros hash vchSig g2 ok s g3 Lh Bh Es. destruct (Hs _ _ _ _ _ _ Lh Bh Es) as (-> & Hz & Hy). by rewrite Hk in Hz.
  - intros ->. destruct (slh_key_total k0 g) as (k & g1 & E & H). eauto 8.
Qed.

Lemma Load_quantum t k priv p g : quantum t → Load k priv {| pk_type := t; m_vchPubKey := p |} g =
  if size priv =? priv_size t then
    '(ok, test_sig, g) ← CQuantumKey_Sign
      {| m_type := t; m_vchPrivKey := priv; k_vchPubKey := p; m_fValid := true; m_ecdsaKey := None |} test_hash [] g;
    valid ← (if (ok : bool) then CQuantumKey_Verify test_hash test_sig {| pk_type := t; m_vchPubKey := p |} else Ok false);
    Ok (valid, {| m_type := t; m_vchPrivKey := priv; k_vchPubKey := p; m_fValid := valid; m_ecdsaKey := None |}, g)
  else Ok (false, Clear (Clear k), g).
Proof.
  intros Ht. unfold Load. cbn [pk_type m_vchPubKey]. destruct Ht as [-> | ->]; cbn [priv_size]; (case_match; [|done]);
    (destruct (CQuantumKey_Sign _ _ _ _) as [[[ok s] g']| | |]; cbn [mbind outcome_bind]; [|done|done|done]);
    (destruct (if ok then _ else _) as [[]| | |]; done).
Qed.

Lemma test_hash_ok : length test_hash = 32%nat ∧ bytes test_hash.
Proof. split; [done|]. unfold test_hash. repeat constructor; lia. Qed.

Lemma Load_own t k0 k k1 g g1 g2 : quantum t → MakeNewKey k0 t g = Ok (k, g1) →
  Load k1 (GetPrivKeyData k) (GetPubKey k) g2 =
  ('(_, _, g3) ← CQuantumKey_Sign k test_hash [] g2; Ok (true, k, g3)).
Proof using SC Hstrong.
  intros Ht E. destruct (MakeNewKey_ok _ _ _ _ _ Ht E) as (Hk & Hv & Ss & Sp & Hn & Hs).
  rewrite (GetPubKey_stored t) by done.
  assert (GetPrivKeyData k = m_vchPrivKey k) as ->.
  { unfold GetPrivKeyData. rewrite Hv, Hk. by destruct Ht as [-> | ->]. }
  rewrite (Load_quantum t) by done. rewrite Ss, Z.eqb_refl.
  assert ({| m_type := t; m_vchPrivKey := m_vchPrivKey k; k_vchPubKey := k_vchPubKey k; m_fValid := true;
    m_ecdsaKey := None |} = k) as Ek.
  { destruct k. cbn in *. by subst. }
  rewrite Ek.
  destruct (CQuantumKey_Sign k test_hash [] g2) as [[[ok s] g4]| | |] eqn:Es; cbn [mbind outcome_bind]; [|done|done|done].
  destruct test_hash_ok as [Lh Bh]. destruct (Hs _ _ _ _ _ _ Lh Bh Es) as (-> & _ & ->). cbn [mbind outcome_bind].
  by rewrite Ek.
Qed.

(** C26 Export and import: what [GetPrivKeyData] and [GetPubKey] give of a new key,
    [Load] accepts, whenever its test signature returns, into any object, and the
    object is then that key.  For SLH-DSA it returns. *)
Theorem quantum_key_load_roundtrip (k0 k k1 : CQuantumKey) (t : KeyType) (g g1 g2 : rng) :
  quantum t → MakeNewKey k0 t g = Ok (k, g1) →
  (∀ b k2 g3, Load k1 (GetPrivKeyData k) (GetPubKey k) g2 = Ok (b, k2, g3) → b = true ∧ k2 = k) ∧
  (t = SLH_DSA_192F → ∃ g3, Load k1 (GetPrivKeyData k) (GetPubKey k) g2 = Ok (true, k, g3)).
Proof using SC Hstrong.
  intros Ht E. rewrite (Load_own t k0 k k1 g g1 g2 Ht E). split.
  - intros b k2 g3. destruct (CQuantumKey_Sign _ _ _ _) as [[[ok s] g4]| | |]; cbn [mbind outcome_bind]; [|done|done|done].
    by intros [= <- <- _].
  - intros ->. destruct (slh_key_total k0 g) as (k' & g1' & E' & H). rewrite E in E'. injection E' as <- <-.
    destruct (H test_hash [] g2) as (s & g3 & ->); [done|]. cbn [mbind outcome_bind]. eauto.
Qed.

(** Verification returns, on every input, if the samplers of ML-DSA-65 have enough
    of their streams. *)
Lemma verify_total t sig h s p : quantum t →
  OQS_SIG_new qs_build (qs_constructors callbacks fuel tries (BitcoinRandBytes GetStrongRandBytes) true)
    (Some (alg_name t)) = Some sig →
  (∀ pk s, length pk = CRYPTO_PUBLICKEYBYTES → bytes pk → length s = CRYPTO_BYTES → bytes s → verify_samples callbacks fuel pk s) →
  length h = 32%nat → bytes h → bytes s → bytes p → size p = pub_size t →
  is_Some (OQS_SIG_verify (Some sig) h s (length s) p).
Proof using SC.
  intros Ht E Hsamp Lh Bh Bs Bp Sp. unfold OQS_SIG_verify.
  assert (Kv : is_Some (verify sig h s (length s) p)); [|destruct Kv as [st ->]; cbn; eauto].
  destruct Ht as [-> | ->].
  - assert (Em : OQS_SIG_ml_dsa_65_new callbacks fuel tries (BitcoinRandBytes GetStrongRandBytes) true = Some sig) by exact E.
    apply (inj Some) in Em. subst sig. cbn [verify]. unfold OQS_SIG_ml_dsa_65_verify.
    change (ctx_bytes None) with ([] : list Z).
    assert (Lp : length p = CRYPTO_PUBLICKEYBYTES).
    { apply Nat2Z.inj. destruct mldsa_lengths as (-> & _). exact Sp. }
    destruct (decide (length s = CRYPTO_BYTES)) as [Ls|Ls].
    + rewrite Ls. destruct (verify_exact_ok callbacks fuel s h [] 0 p Ls Bs Lp Bp Bh (Forall_nil_2 _) (Nat.le_0_l _) (le_n 0)
        (Hsamp p s Lp Bp Ls Bs)) as [[-> _]|[-> _]]; eauto.
    + unfold MlSign.crypto_sign_verify. rewrite (proj2 (Nat.ltb_ge _ _)) by lia.
      destruct (proj1 (wp_exists _ _) (prepare_pre_ok [] 0 (Nat.le_0_l _) (le_n 0))) as (pre & -> & _). cbn [mbind option_bind].
      unfold crypto_sign_verify_internal. rewrite (proj2 (Nat.eqb_neq _ _)) by done. cbn [negb]. eauto.
  - assert (Em : OQS_SIG_sphincs_sha2_192f_simple_new (BitcoinRandBytes GetStrongRandBytes) true = Some sig) by exact E.
    apply (inj Some) in Em. subst sig. cbn [verify]. unfold OQS_SIG_sphincs_sha2_192f_simple_verify.
    assert (Lp : length p = SPX_PK_BYTES) by (apply Nat2Z.inj; exact Sp).
    rewrite (verify_any s (length s) h p eq_refl Lp (msg_fits_hash _ Lh)). eauto.
Qed.

Lemma Verify_total h s p :
  (∀ pk s, length pk = CRYPTO_PUBLICKEYBYTES → bytes pk → length s = CRYPTO_BYTES → bytes s → verify_samples callbacks fuel pk s) →
  length h = 32%nat → bytes h → bytes s → bytes (m_vchPubKey p) → CQuantumKey_Verify h s p ≠ Crash.
Proof using SC Hstrong.
  intros Hsamp Lh Bh Bs Bp. destruct p as [t p]. cbn [m_vchPubKey] in Bp.
  destruct (decide (quantum t)) as [Ht|Ht].
  2:{ unfold CQuantumKey_Verify. destruct (_ || _); [done|]. cbn [pk_type].
      destruct t; [by destruct (GetCPubKey _)|by destruct Ht; left|by destruct Ht; right|done]. }
  destruct (decide (size p = pub_size t ∧ size s ≠ 0)) as [[Sp Ss]|Hn].
  2:{ unfold CQuantumKey_Verify, CQuantumPubKey_IsValid. cbn [pk_type m_vchPubKey].
      destruct (Z.eqb_spec (size s) 0) as [_|Ss]; [by rewrite orb_true_r|].
      assert (Hp : size p ≠ pub_size t) by tauto. destruct Ht as [-> | ->]; cbn [pub_size] in Hp;
        by rewrite (proj2 (Z.eqb_neq _ _) Hp). }
  rewrite verify_with_ok by done. unfold verify_with, OQSContext_new.
  destruct (OQS_SIG_new _ _ _) as [sig|] eqn:E; [|done]. cbn [mbind outcome_bind m_vchPubKey]. unfold OQSContext_Verify.
  cbn [m_sig]. case_match; [done|].
  destruct (verify_total t sig h s p Ht E Hsamp Lh Bh Bs Bp Sp) as [st ->]. done.
Qed.

Lemma Verify_pub_size t hash s p : quantum t →
  CQuantumKey_Verify hash s {| pk_type := t; m_vchPubKey := p |} = Ok true → size p = pub_size t.
Proof.
  intros Ht. unfold CQuantumKey_Verify. destruct (CQuantumPubKey_IsValid _) eqn:E; [|done]. intros _. revert E.
  unfold CQuantumPubKey_IsValid. destruct Ht as [-> | ->]; apply Z.eqb_eq.
Qed.

(** Only signatures of the algorithm's size verify. *)
Lemma Verify_sig_size t h s p : quantum t →
  CQuantumKey_Verify h s {| pk_type := t; m_vchPubKey := p |} = Ok true → size s = sig_size t ∧ size p = pub_size t.
Proof.
  intros Ht Hv. pose proof (Verify_pub_size t h s p Ht Hv) as Sp. split; [|done].
  assert (Ss : size s ≠ 0).
  { intros E. unfold CQuantumKey_Verify in Hv. by rewrite E, orb_true_r in Hv. }
  rewrite verify_with_ok in Hv by done. unfold verify_with, OQSContext_new in Hv.
  destruct (decide (size s = sig_size t)) as [|Hn]; [done|exfalso]. revert Hv.
  assert (Hbad : ∀ sig, OQS_SIG_new qs_build (qs_constructors callbacks fuel tries (BitcoinRandBytes GetStrongRandBytes) true)
    (Some (alg_name t)) = Some sig → verify sig h s (length s) p = Some (-1)).
  { intros sig E. destruct Ht as [-> | ->].
    - assert (Em : OQS_SIG_ml_dsa_65_new callbacks fuel tries (BitcoinRandBytes GetStrongRandBytes) true = Some sig) by exact E.
      apply (inj Some) in Em. subst sig. cbn [verify]. unfold OQS_SIG_ml_dsa_65_verify, MlSign.crypto_sign_verify.
      rewrite (proj2 (Nat.ltb_ge _ _)) by lia.
      destruct (proj1 (wp_exists _ _) (prepare_pre_ok (ctx_bytes None) 0 (Nat.le_0_l _) (le_n 0))) as (pre & -> & _).
      cbn [mbind option_bind]. unfold crypto_sign_verify_internal. rewrite (proj2 (Nat.eqb_neq _ _)); [done|].
      intros El. apply Hn. unfold size. rewrite El. apply mldsa_lengths.
    - assert (Em : OQS_SIG_sphincs_sha2_192f_simple_new (BitcoinRandBytes GetStrongRandBytes) true = Some sig) by exact E.
      apply (inj Some) in Em. subst sig. cbn [verify].
      unfold OQS_SIG_sphincs_sha2_192f_simple_verify, SpxSign.crypto_sign_verify. rewrite decide_True; [done|].
      intros El. apply Hn. unfold size. rewrite El, SpxCorrect.SPX_BYTES_parts. reflexivity. }
  destruct (OQS_SIG_new _ _ _) as [sig|]; [|done]. cbn [mbind outcome_bind m_vchPubKey]. unfold OQSContext_Verify. cbn [m_sig].
  case_match; [done|]. unfold OQS_SIG_verify. by rewrite (Hbad sig eq_refl).
Qed.

(** ** The invariant *)

(** A valid key has what its type needs, unless it was moved from, and then it
    has nothing. *)
Definition key_ok (k : CQuantumKey) : Prop :=
  m_fValid k = true →
  match m_type k with
  | ECDSA => m_vchPrivKey k = [] ∧ k_vchPubKey k = []
  | KeyType_other _ => False
  | t => m_ecdsaKey k = None ∧
         (size (m_vchPrivKey k) = priv_size t ∧ size (k_vchPubKey k) = pub_size t ∨
          m_vchPrivKey k = [] ∧ k_vchPubKey k = [])
  end.

(** The operations that assign a key. *)
Inductive key_step : CQuantumKey → CQuantumKey → Prop :=
  | step_clear k : key_step k (Clear k)
  | step_of_CKey k key : key_step k (CQuantumKey_of_CKey key)
  | step_new k t g k' g' : MakeNewKey k t g = Ok (k', g') → key_step k k'
  | step_load k priv pub g b k' g' : Load k priv pub g = Ok (b, k', g') → key_step k k'
  | step_moved k : key_step k (CQuantumKey_move k).2
  | step_derive k keyChild cc n ccp b k' cc' :
      CQuantumKey_Derive k keyChild cc n ccp = (b, k', cc') → key_step keyChild k'
  | step_decode x code g x' g' : Decode x code g = Ok (x', g') → key_step (ext_key x) (ext_key x').

Lemma key_ok_of_CKey key : key_ok (CQuantumKey_of_CKey key).
Proof. done. Qed.

Lemma key_ok_sizes t k : quantum t → m_type k = t → m_ecdsaKey k = None →
  size (m_vchPrivKey k) = priv_size t → size (k_vchPubKey k) = pub_size t → key_ok k.
Proof. intros Ht Hk He H1 H2 _. rewrite Hk. destruct Ht as [-> | ->]; auto. Qed.

Lemma Load_key_ok k priv pub g b k' g' : Load k priv pub g = Ok (b, k', g') → key_ok k' ∧ m_fValid k' = b.
Proof.
  destruct pub as [t p]. destruct (decide (t = ECDSA)) as [->|Hne].
  { unfold Load. cbn [pk_type]. destruct (GetCPubKey _) as [[] cp]; [|by intros [= <- <- _]].
    destruct (CKey_Load _ _ _) as [[] key]; by intros [= <- <- _]. }
  destruct (decide (quantum t)) as [Ht|Ht].
  2:{ unfold Load. cbn [pk_type]. destruct t; [done|by destruct Ht; left|by destruct Ht; right|]. by intros [= <- <- _]. }
  rewrite (Load_quantum t) by done. destruct (Z.eqb_spec (size priv) (priv_size t)) as [Es|]; [|by intros [= <- <- _]].
  destruct (CQuantumKey_Sign _ _ _ _) as [[[ok s] g1]| | |]; cbn [mbind outcome_bind]; [|done|done|done].
  destruct (if ok then _ else _) as [v| | |] eqn:Ev; cbn [mbind outcome_bind]; [|done|done|done]. intros [= <- <- _].
  split; [|done]. destruct v; [|done]. destruct ok; [|done]. apply Verify_pub_size in Ev; [|done]. by apply (key_ok_sizes t).
Qed.

Lemma MakeNewKey_key_ok k t g k' g' : MakeNewKey k t g = Ok (k', g') → key_ok k'.
Proof using C SC Hstrong.
  destruct (decide (quantum t)) as [Ht|Ht]; intros E.
  - destruct (MakeNewKey_ok _ _ _ _ _ Ht E) as (Hk & _ & H1 & H2 & H3 & _). by apply (key_ok_sizes t).
  - revert E. unfold MakeNewKey. destruct t; [|by destruct Ht; left|by destruct Ht; right|by intros [= <- _]].
    destruct (CKey_MakeNewKey true g) as [key g1]. by intros [= <- _].
Qed.

Lemma Decode_key_ok x code g x' g' : Decode x code g = Ok (x', g') → key_ok (ext_key x').
Proof.
  unfold Decode. case_match; [done|].
  destruct (or_crash (code !! 4%nat)) as [d| | |]; cbn [mbind outcome_bind]; [|done|done|done].
  destruct (or_crash (read code 5 4)) as [f| | |]; cbn [mbind outcome_bind]; [|done|done|done].
  destruct (or_crash (read code 9 4)) as [c| | |]; cbn [mbind outcome_bind]; [|done|done|done].
  destruct (match c with [] => _ | _ => _ end) as [n| | |]; cbn [mbind outcome_bind]; [|done|done|done].
  destruct (or_crash (read code 13 32)) as [cc| | |]; cbn [mbind outcome_bind]; [|done|done|done].
  destruct (or_crash (code !! 45%nat)) as [kt| | |]; cbn [mbind outcome_bind]; [|done|done|done].
  destruct (to_KeyType kt) as [| | |o]; cbn [mbind outcome_bind]; [by intros [= <- _]| | |];
    (destruct (Load _ _ _ _) as [[[b k] g1]| | |] eqn:E; cbn [mbind outcome_bind]; [|done|done|done]);
    intros [= <- _]; apply (Load_key_ok _ _ _ _ _ _ _ E).
Qed.

Lemma key_step_ok k k' : key_step k k' → key_ok k → key_ok k'.
Proof using C SC Hstrong.
  intros [] Hk; [done|apply key_ok_of_CKey|by eapply MakeNewKey_key_ok|by eapply Load_key_ok| | |by eapply Decode_key_ok].
  - unfold key_ok in *. cbn [CQuantumKey_move snd m_type m_vchPrivKey k_vchPubKey m_fValid m_ecdsaKey].
    intros H. specialize (Hk H). destruct (m_type k0); auto.
  - revert H. unfold CQuantumKey_Derive. case_match; [by intros [= _ <- _]|].
    destruct (m_type k0); [|by intros [= _ <- _]..]. destruct (m_ecdsaKey k0); [|by intros [= _ <- _]].
    destruct (CKey_Derive _ _ _) as [[[] ck] c2]; intros [= _ <- _]; [apply key_ok_of_CKey|done].
Qed.

(** C25 An invariant of key objects: whatever sequence of operations assigned an
    object (clearing, generation, loading, derivation, decoding, moving), if it is
    flagged valid and of a quantum type it holds a private and a public key of the
    sizes of its algorithm or, after a move, none.  So if it signs with success,
    its public key is valid and of its type; and derivation of a quantum key
    fails without an effect. *)
Theorem quantum_key_invariant (k : CQuantumKey) :
  rtc key_step CQuantumKey_default k →
  key_ok k ∧
  (quantum (m_type k) →
   (∀ hash vchSig g s g', CQuantumKey_Sign k hash vchSig g = Ok (true, s, g') →
      CQuantumPubKey_IsValid (GetPubKey k) = true ∧ pk_type (GetPubKey k) = m_type k) ∧
   (∀ keyChild ccChild n cc, CQuantumKey_Derive k keyChild ccChild n cc = (false, keyChild, ccChild))).
Proof using C SC Hstrong.
  intros Hr. assert (Hk : key_ok k).
  { revert Hr. apply (rtc_ind_r key_ok); [done|]. intros x y _ Hxy. by apply key_step_ok. }
  split; [done|]. intros Ht. split.
  - intros hash vchSig g s g' Es. destruct (m_fValid k) eqn:Hv.
    2:{ unfold CQuantumKey_Sign in Es. by rewrite Hv in Es. }
    assert (Hd : size (m_vchPrivKey k) = priv_size (m_type k) ∧ size (k_vchPubKey k) = pub_size (m_type k) ∨
      m_vchPrivKey k = []).
    { specialize (Hk Hv). destruct Ht as [E|E]; rewrite E in Hk |- *; destruct Hk as [_ [?|[? ?]]]; auto. }
    destruct Hd as [[_ Sp]|H0].
    + rewrite (GetPubKey_stored (m_type k)) by done. split; [by apply pub_valid|done].
    + rewrite (sign_with_ok (m_type k)) in Es by done. unfold sign_with in Es.
      destruct (context_ok _ Ht) as (sig & Ec & _ & Ls & _). rewrite Ec in Es. cbn [mbind outcome_bind] in Es.
      unfold OQSContext_Sign in Es. cbn [m_sig] in Es. rewrite H0, Ls in Es.
      assert (E0 : (size [] =? priv_size (m_type k)) = false) by (by destruct Ht as [-> | ->]).
      by rewrite E0 in Es.
  - intros keyChild ccChild n cc. unfold CQuantumKey_Derive. destruct (m_fValid k); [|done]. by destruct Ht as [-> | ->].
Qed.

(** ** Extended keys *)

(** The first 46 bytes of the encoding. *)
Definition ext_header (x : CExtQuantumKey) : list Z :=
  [0x04; 0x88; 0xAD; 0xE4] ++ [u8 (nDepth x)] ++ vchFingerprint x ++
  [Z.land (Z.shiftr (nChild x) 24) 0xFF; Z.land (Z.shiftr (nChild x) 16) 0xFF;
   Z.land (Z.shiftr (nChild x) 8) 0xFF; Z.land (Z.shiftr (nChild x) 0) 0xFF] ++
  chaincode x ++ [KeyType_num (m_type (ext_key x))].

Lemma encode_eq x code : length (vchFingerprint x) = 4%nat → length (chaincode x) = 32%nat →
  Encode x code = Some (ext_header x ++ drop 46 (resize code 79) ++ GetPrivKeyData (ext_key x)).
Proof.
  intros Lf Lc. unfold Encode. set (c := resize code (BIP32_EXTKEY_WITH_VERSION_SIZE + 1)).
  assert (Hc : length c = 79%nat) by apply length_resize.
  destruct (split_at 4 c) as (c1 & r1 & E1 & H1); [lia|]. rewrite E1 in Hc |- *. rewrite length_app in Hc.
  destruct (split_at 1 r1) as (c2 & r2 & E2 & H2); [lia|]. subst r1. rewrite length_app in Hc.
  destruct (split_at 4 r2) as (c3 & r3 & E3 & H3); [lia|]. subst r2. rewrite length_app in Hc.
  destruct (split_at 4 r3) as (c4 & r4 & E4 & H4); [lia|]. subst r3. rewrite length_app in Hc.
  destruct (split_at 32 r4) as (c5 & r5 & E5 & H5); [lia|]. subst r4. rewrite length_app in Hc.
  destruct (split_at 1 r5) as (c6 & r6 & E6 & H6); [lia|]. subst r5. rewrite length_app in Hc.
  rewrite write_front by (cbn [length]; lia). cbn [mbind option_bind].
  rewrite write_app by (cbn [length]; lia). cbn [mbind option_bind]. rewrite app_assoc.
  rewrite write_app by (rewrite ?length_app; cbn [length]; lia). cbn [mbind option_bind]. rewrite (app_assoc _ (vchFingerprint x)).
  rewrite write_app by (rewrite ?length_app; cbn [length]; lia). cbn [mbind option_bind]. rewrite (app_assoc _ [_; _; _; _]).
  rewrite write_app by (rewrite ?length_app; cbn [length]; lia). cbn [mbind option_bind]. rewrite (app_assoc _ (chaincode x)).
  rewrite write_app by (rewrite ?length_app; cbn [length]; lia). cbn [mbind option_bind].
  assert (drop 46 (resize code 79) = r6) as ->.
  { change (resize code 79) with c. rewrite E1, !app_assoc, drop_app_length'; [done|rewrite !length_app; lia]. }
  unfold ext_header. by rewrite <-!app_assoc.
Qed.

(** Big-endian bytes of a word, joined by shifts. *)
Lemma join_u32 n : in_u32 n →
  Z.lor (Z.lor (Z.lor (Z.shiftl (Z.land (Z.shiftr n 24) 0xFF) 24) (Z.shiftl (Z.land (Z.shiftr n 16) 0xFF) 16))
    (Z.shiftl (Z.land (Z.shiftr n 8) 0xFF) 8)) (Z.land (Z.shiftr n 0) 0xFF) = n.
Proof.
  intros Hn.
  assert (J : ∀ k, 0 <= k → Z.lor (Z.shiftl (Z.shiftr n (k + 8)) (k + 8)) (Z.shiftl (Z.land (Z.shiftr n k) 0xFF) k)
    = Z.shiftl (Z.shiftr n k) k).
  { intros k Hk. rewrite (Z.add_comm k 8) at 2. rewrite <-(Z.shiftl_shiftl _ 8 k), <-Z.shiftl_lor by lia. f_equal.
    rewrite <-Z.shiftr_shiftr by lia.
    set (m := Z.shiftr n k). change 0xFF with (Z.ones 8). rewrite <-Z.ldiff_ones_r by lia. apply Z.lor_ldiff_and. }
  assert (E24 : Z.land (Z.shiftr n 24) 0xFF = Z.shiftr n 24).
  { change 0xFF with (Z.ones 8). rewrite Z.land_ones, Z.shiftr_div_pow2 by lia. apply Z.mod_small.
    unfold in_u32 in Hn. split; [apply Z.div_pos; lia|apply Z.div_lt_upper_bound; lia]. }
  rewrite E24, (J 16 ltac:(lia) : Z.lor (Z.shiftl (Z.shiftr n 24) 24) _ = _), (J 8 ltac:(lia) : Z.lor (Z.shiftl (Z.shiftr n 16) 16) _ = _).
  rewrite <-(Z.shiftl_0_r (Z.land (Z.shiftr n 0) 0xFF)), (J 0 ltac:(lia) : Z.lor (Z.shiftl (Z.shiftr n 8) 8) _ = _).
  by rewrite Z.shiftl_0_r, Z.shiftr_0_r.
Qed.

Lemma ext_header_length x : length (vchFingerprint x) = 4%nat → length (chaincode x) = 32%nat → length (ext_header x) = 46%nat.
Proof. intros Lf Lc. unfold ext_header. rewrite !length_app, Lf, Lc. done. Qed.

(** The encoding of an extended key keeps its header but not its key: for every
    extended key whose key is valid, decoding what [Encode] wrote succeeds and gives
    back the depth, the fingerprint, the child number and the chain code, but a key
    that is not valid, for every type of key. *)
Theorem ext_key_encoding (x x0 : CExtQuantumKey) (code : list Z) (g : rng) :
  in_u8 (nDepth x) → length (vchFingerprint x) = 4%nat → in_u32 (nChild x) → length (chaincode x) = 32%nat →
  m_fValid (ext_key x) = true →
  m_type (ext_key x) = ECDSA ∨ quantum (m_type (ext_key x)) ∧ size (m_vchPrivKey (ext_key x)) = priv_size (m_type (ext_key x)) →
  ∃ c x', Encode x code = Some c ∧ Decode x0 c g = Ok (x', g) ∧
  nDepth x' = nDepth x ∧ vchFingerprint x' = vchFingerprint x ∧ nChild x' = nChild x ∧ chaincode x' = chaincode x ∧
  m_fValid (ext_key x') = false.
Proof using KL.
  intros Hd Lf Hn Lc Hv Ht. rewrite encode_eq by done. set (r := drop 46 (resize code 79)).
  assert (Lr : length r = 33%nat) by (unfold r; rewrite length_drop, length_resize; done).
  pose proof (ext_header_length x Lf Lc) as Lh. set (p := GetPrivKeyData (ext_key x)).
  exists (ext_header x ++ r ++ p). unfold Decode. rewrite (proj2 (Nat.ltb_ge _ _)) by (rewrite !length_app, Lh, Lr; unfold BIP32_EXTKEY_WITH_VERSION_SIZE; lia).
  assert (D : drop 46 (ext_header x ++ r ++ p) = r ++ p) by (by apply drop_app_length').
  assert (R4 : (ext_header x ++ r ++ p) !! 4%nat = Some (nDepth x)).
  { unfold ext_header. cbn [app lookup list_lookup]. by rewrite u8_small. }
  assert (R : read (ext_header x ++ r ++ p) 5 4 = Some (vchFingerprint x) ∧
    read (ext_header x ++ r ++ p) 9 4 = Some [Z.land (Z.shiftr (nChild x) 24) 0xFF; Z.land (Z.shiftr (nChild x) 16) 0xFF;
      Z.land (Z.shiftr (nChild x) 8) 0xFF; Z.land (Z.shiftr (nChild x) 0) 0xFF] ∧
    read (ext_header x ++ r ++ p) 13 32 = Some (chaincode x) ∧
    (ext_header x ++ r ++ p) !! 45%nat = Some (KeyType_num (m_type (ext_key x)))).
  { unfold ext_header. rewrite <-!app_assoc. split_and!.
    - rewrite (app_assoc [_; _; _; _]). by apply read_app.
    - rewrite (app_assoc [_; _; _; _]), (app_assoc _ (vchFingerprint x)). apply read_app; [rewrite !length_app, Lf|]; done.
    - rewrite (app_assoc [_; _; _; _]), (app_assoc _ (vchFingerprint x)), (app_assoc _ [_; _; _; _]).
      apply read_app; [rewrite !length_app, Lf|]; done.
    - rewrite (app_assoc [_; _; _; _]), (app_assoc _ (vchFingerprint x)), (app_assoc _ [_; _; _; _]), (app_assoc _ (chaincode x)).
      apply list_lookup_middle. rewrite !length_app, Lf, Lc. done. }
  destruct R as (R5 & R9 & R13 & R45). rewrite R4, R5, R9, R13, R45, D. cbn [or_crash mbind outcome_bind].
  rewrite join_u32, u32_small by done.
  destruct Ht as [E|[Hq Ss]].
  - rewrite E. change (to_KeyType (KeyType_num ECDSA)) with ECDSA. cbv match. cbn [mbind outcome_bind].
    eexists. split; [reflexivity|]. split; [reflexivity|]. split_and!; try done. apply CKey_default_invalid.
  - assert (Hp : p = m_vchPrivKey (ext_key x)).
    { unfold p, GetPrivKeyData. rewrite Hv. by destruct Hq as [-> | ->]. }
    assert (Hz : (size (r ++ p) =? priv_size (m_type (ext_key x))) = false).
    { apply Z.eqb_neq. unfold size in *. rewrite length_app, Lr, Hp. lia. }
    assert (HL : Load (ext_key x0) (r ++ p) {| pk_type := m_type (ext_key x); m_vchPubKey := [] |} g =
      Ok (false, Clear (Clear (ext_key x0)), g)) by (by rewrite Load_quantum, Hz).
    destruct Hq as [E|E]; rewrite E in *;
      [change (to_KeyType (KeyType_num ML_DSA_65)) with ML_DSA_65|change (to_KeyType (KeyType_num SLH_DSA_192F)) with SLH_DSA_192F];
      cbv match; rewrite HL; cbn [mbind outcome_bind]; eexists; (split; [reflexivity|]); (split; [reflexivity|]); done.
Qed.
End keys.

(** ** Instances *)

(** An elliptic-curve library with one key, which is not valid. *)
Definition test_ckeys : CKeyOps unit := {|
  CKey := unit;
  CKey_default := tt;
  CKey_IsValid _ := false;
  CKey_IsCompressed _ := true;
  CKey_MakeNewKey _ g := (tt, g);
  CKey_GetPubKey _ := [];
  CKey_Sign _ _ s := (false, s);
  CKey_Load _ _ _ := (false, tt);
  CKey_Derive _ _ cc := (false, tt, cc);
  CKey_GetPrivKey _ := [];
|}.
#[local] Existing Instance test_ckeys.
#[local] Existing Instance test_crypto.
#[export] Instance test_ckeys_laws : CKeyLaws test_ckeys.
Proof. done. Qed.

Lemma zeros_strong (g : unit) n : (n <= MAX_BYTES_PER_CALL)%nat → length (zeros g n).1 = n ∧ bytes (zeros g n).1.
Proof. intros _. apply zeros_ok. Qed.

Lemma quantum_key_sign_verify_witness : ∃ k,
  MakeNewKey toy_callbacks 1 1 zeros true CQuantumKey_default SLH_DSA_192F tt = Ok (k, tt) ∧
  CQuantumPubKey_IsValid (GetPubKey k) = true.
Proof.
  destruct (quantum_key_sign_verify toy_callbacks 1 1 zeros zeros_strong CQuantumKey_default SLH_DSA_192F tt
    (or_intror eq_refl)) as [H1 H2].
  destruct (H2 eq_refl) as (k & [] & E & _). exists k. split; [exact E|]. apply (H1 k tt E).
Defined.

Lemma quantum_key_load_roundtrip_witness : ∃ k,
  MakeNewKey toy_callbacks 1 1 zeros true CQuantumKey_default SLH_DSA_192F tt = Ok (k, tt) ∧
  Load toy_callbacks 1 1 zeros true CQuantumKey_default (GetPrivKeyData k) (GetPubKey k) tt = Ok (true, k, tt).
Proof.
  destruct (slh_key_total toy_callbacks 1 1 zeros zeros_strong CQuantumKey_default tt) as (k & [] & E & _).
  exists k. split; [exact E|].
  destruct (quantum_key_load_roundtrip toy_callbacks 1 1 zeros zeros_strong CQuantumKey_default k CQuantumKey_default
    SLH_DSA_192F tt tt tt (or_intror eq_refl) E) as [_ H]. destruct (H eq_refl) as ([] & H'). exact H'.
Defined.

Lemma quantum_key_invariant_witness : ∃ k,
  rtc (key_step toy_callbacks 1 1 zeros) CQuantumKey_default k ∧ m_fValid k = true ∧ key_ok k.
Proof.
  destruct (slh_key_total toy_callbacks 1 1 zeros zeros_strong CQuantumKey_default tt) as (k & [] & E & _).
  exists k. assert (Hr : rtc (key_step toy_callbacks 1 1 zeros) CQuantumKey_default k).
  { eapply rtc_once, step_new, E. }
  split; [exact Hr|]. split; [|exact (proj1 (quantum_key_invariant toy_callbacks 1 1 zeros zeros_strong k Hr))].
  exact (proj1 (proj2 (MakeNewKey_ok toy_callbacks 1 1 zeros zeros_strong _ _ _ _ _ (or_intror eq_refl) E))).
Defined.

Lemma ext_key_encoding_witness : ∃ c x',
  Encode {| nDepth := 1; vchFingerprint := [1; 2; 3; 4]; nChild := 0x80000001; chaincode := replicate 32 7;
            ext_key := {| m_type := SLH_DSA_192F; m_vchPrivKey := replicate 96 9; k_vchPubKey := replicate 48 8;
                          m_fValid := true; m_ecdsaKey := None |} |} [] = Some c ∧
  Decode toy_callbacks 1 1 zeros true {| nDepth := 0; vchFingerprint := []; nChild := 0; chaincode := [];
    ext_key := CQuantumKey_default |} c tt = Ok (x', tt) ∧ nChild x' = 0x80000001 ∧ m_fValid (ext_key x') = false.
Proof.
  destruct (ext_key_encoding toy_callbacks 1 1 zeros
    {| nDepth := 1; vchFingerprint := [1; 2; 3; 4]; nChild := 0x80000001; chaincode := replicate 32 7;
       ext_key := {| m_type := SLH_DSA_192F; m_vchPrivKey := replicate 96 9; k_vchPubKey := replicate 48 8;
                     m_fValid := true; m_ecdsaKey := None |} |}
    {| nDepth := 0; vchFingerprint := []; nChild := 0; chaincode := []; ext_key := CQuantumKey_default |} [] tt)
    as (c & x' & E & D & _ & _ & H & _ & V); [split; cbn; lia|done|split; cbn; lia|done|done|right; split; [by right|done]|].
  exists c, x'. split; [exact E|]. split; [exact D|]. split; [exact H|exact V].
Defined.
