(* ===== verification/Encode.v ===== *)
(** Text encodings (util/strencodings.h and .cpp, crypto/hex_base.cpp): hexadecimal
    and base 64.

    A [std::string] is the list of its characters as values of [unsigned char].

    The text encodings are exact: hexadecimal text reads back, and base 64 has
    exactly one text for every byte string. *)
From Stdlib Require Ascii.
From stdpp Require Import strings.
From S2P Require Import Prelude.

Open Scope string_scope.
Open Scope list_scope.
Open Scope Z_scope.

(** The characters of a literal. *)
Definition str (s : string) : list Z := (λ c, Z.of_N (Ascii.N_of_ascii c)) <$> String.list_ascii_of_string s.

(** ** Hexadecimal *)

Definition IsSpace (c : Z) : bool :=
  (c =? 32) || (c =? 12) || (c =? 10) || (c =? 13) || (c =? 9) || (c =? 11).

Definition hexmap : list Z := str "0123456789abcdef".
Definition byte_to_hex (v : Z) : list Z :=
  [hexmap !!! Z.to_nat (Z.shiftr v 4); hexmap !!! Z.to_nat (Z.land v 15)].
Definition HexStr (s : list Z) : list Z := s ≫= byte_to_hex.

Definition p_util_hexdigit : list Z :=
  replicate 48 (-1) ++ [0; 1; 2; 3; 4; 5; 6; 7; 8; 9] ++ replicate 7 (-1) ++
  [0xa; 0xb; 0xc; 0xd; 0xe; 0xf] ++ replicate 26 (-1) ++ [0xa; 0xb; 0xc; 0xd; 0xe; 0xf] ++ replicate 153 (-1).
Definition HexDigit (c : Z) : Z := p_util_hexdigit !!! Z.to_nat (u8 c).

Fixpoint TryParseHex (str : list Z) : option (list Z) :=
  match str with
  | [] => Some []
  | c :: str =>
      if IsSpace c then TryParseHex str else
      match str with
      | [] => None
      | d :: str =>
          if (HexDigit c <? 0) || (HexDigit d <? 0) then None else
          (λ vch, Z.lor (u8 (Z.shiftl (HexDigit c) 4)) (u8 (HexDigit d)) :: vch) <$> TryParseHex str
      end
  end.
Definition ParseHex (str : list Z) : list Z := default [] (TryParseHex str).

Definition IsHex (str : list Z) : bool :=
  forallb (λ c, 0 <=? HexDigit c) str && (0 <? length str)%nat && (length str mod 2 =? 0)%nat.

(** ** Conversion between powers of two *)

Section convert.
Context (frombits tobits : Z) (pad : bool) (infn : Z → Z).

Definition maxv : Z := Z.shiftl 1 tobits - 1.
Definition max_acc : Z := Z.shiftl 1 (frombits + tobits - 1) - 1.

(** The inner loop: [bits] and what was given to [outfn]. *)
Definition emit (acc bits : Z) (out : list Z) : option (Z * list Z) :=
  loop (S (Z.to_nat bits)) (λ '(bits, out),
    if tobits <=? bits then
      let bits := bits - tobits in
      Some (Next (bits, out ++ [Z.land (Z.shiftr acc bits) maxv]))
    else Some (Done (bits, out))) (bits, out).

(** The result and everything given to [outfn]. *)
Fixpoint convert_loop (l : list Z) (acc bits : Z) (out : list Z) : option (bool * list Z) :=
  match l with
  | [] =>
      if pad then Some (true, if negb (bits =? 0) then out ++ [Z.land (u64 (Z.shiftl acc (tobits - bits))) maxv] else out)
      else if (frombits <=? bits) || negb (Z.land (u64 (Z.shiftl acc (tobits - bits))) maxv =? 0) then Some (false, out)
      else Some (true, out)
  | x :: l =>
      let v := infn x in
      if v <? 0 then Some (false, out) else
      let acc := Z.land (Z.lor (u64 (Z.shiftl acc frombits)) v) max_acc in
      '(bits, out) ← emit acc (bits + frombits) out;
      convert_loop l acc bits out
  end.

Definition ConvertBits (l : list Z) : option (bool * list Z) := convert_loop l 0 0 [].
End convert.

(** ** Base 64 *)

Definition pbase64 : list Z := str "ABCDEFGHIJKLMNOPQRSTUVWXYZabcdefghijklmnopqrstuvwxyz0123456789+/".

(** [while (str.size() % n) str += '=';] *)
Definition fill_up (n : nat) (s : list Z) : option (list Z) :=
  loop n (λ s, if (length s mod n =? 0)%nat then Some (Done s) else Some (Next (s ++ [61]))) s.

Definition EncodeBase64 (input : list Z) : option (list Z) :=
  '(_, vs) ← ConvertBits 8 6 true id input;
  fill_up 4 ((λ v, pbase64 !!! Z.to_nat v) <$> vs).

Definition decode64_table : list Z :=
  replicate 43 (-1) ++ [62] ++ replicate 3 (-1) ++ [63] ++ seqZ 52 10 ++ replicate 7 (-1) ++
  seqZ 0 26 ++ replicate 6 (-1) ++ seqZ 26 26 ++ replicate 133 (-1).

(** [if (str.size() >= 1 && str.back() == '=') str.remove_suffix(1);] *)
Definition strip_eq (s : list Z) : list Z :=
  match rev s with 61 :: r => rev r | _ => s end.

(** The results of failures are the same empty optional. *)
Definition DecodeBase64 (s : list Z) : option (option (list Z)) :=
  if negb (length s mod 4 =? 0)%nat then Some None else
  let s := strip_eq s in
  let s := strip_eq s in
  (λ '(valid, ret), if (valid : bool) then Some (u8 <$> (ret : list Z)) else None)
    <$> ConvertBits 6 8 false (λ c, decode64_table !!! Z.to_nat (u8 c)) s.

(** ** Values of digit strings *)

Definition digits (b : Z) : list Z → Prop := Forall (λ x, 0 <= x < 2 ^ b).
Definition radix (b : Z) (l : list Z) : Z := foldl (λ a x, a * 2 ^ b + x) 0 l.

Lemma radix_snoc b l x : radix b (l ++ [x]) = radix b l * 2 ^ b + x.
Proof. unfold radix. by rewrite foldl_app. Qed.

Lemma radix_inj b l1 l2 : 0 < b → digits b l1 → digits b l2 → length l1 = length l2 → radix b l1 = radix b l2 → l1 = l2.
Proof.
  intros Hb. revert l2. induction l1 as [|x l1 IH] using rev_ind; intros l2 H1 H2 Hl He.
  - by destruct l2.
  - destruct l2 as [|y l2 _] using rev_ind; [rewrite length_app in Hl; cbn in Hl; lia|].
    apply Forall_app in H1 as [H1 Hx], H2 as [H2 Hy]. apply Forall_cons_1 in Hx as [Hx _], Hy as [Hy _].
    rewrite !length_app in Hl. cbn [length] in Hl. rewrite !radix_snoc in He.
    assert (Hp : 0 < 2 ^ b) by (apply Z.pow_pos_nonneg; lia).
    destruct (Z.div_mod_unique (2 ^ b) (radix b l1) (radix b l2) x y) as [Hr ->];
      [by left|by left|by rewrite !(Z.mul_comm (2 ^ b))|].
    f_equal. apply IH; [done|done|lia|done].
Qed.

Lemma radix_cons b x l : 0 < b → radix b (x :: l) = x * 2 ^ (b * Z.of_nat (length l)) + radix b l.
Proof.
  intros Hb. induction l as [|y l IH] using rev_ind; [unfold radix; cbn [foldl length Z.of_nat]; rewrite Z.mul_0_r, Z.pow_0_r; lia|].
  rewrite app_comm_cons, !radix_snoc, IH, length_app. cbn [length].
  replace (b * Z.of_nat (length l + 1)) with (b * Z.of_nat (length l) + b) by lia. rewrite Z.pow_add_r by lia. lia.
Qed.

(** ** The converter *)

Section convert.
Context (f t : Z) (pad : bool) (infn : Z → Z).
Hypothesis widths : 0 < f ∧ 0 < t ∧ 2 * f + 2 * t <= 64.

Lemma mask_mod n x : 0 <= n → Z.land x (Z.shiftl 1 n - 1) = x mod 2 ^ n.
Proof using Type. intros. rewrite <-Z.land_ones by done. done. Qed.

(** The bits that have been read are those given out and the [bits] pending ones. *)
Definition value (acc bits : Z) (out : list Z) : Z := radix t out * 2 ^ bits + acc mod 2 ^ bits.

Lemma emit_ok acc bits out : 0 <= bits → digits t out →
  wp (emit t acc bits out) (λ '(bits', out'), 0 <= bits' < t ∧ digits t out' ∧
    value acc bits' out' = value acc bits out ∧ t * Z.of_nat (length out') + bits' = t * Z.of_nat (length out) + bits).
Proof using widths.
  intros Hb Ho. unfold emit.
  apply (wp_loop_measure (λ '(bits', out'), 0 <= bits' ∧ digits t out' ∧ value acc bits' out' = value acc bits out ∧
    t * Z.of_nat (length out') + bits' = t * Z.of_nat (length out) + bits) (λ '(bits', _), Z.to_nat bits')); [done|lia|].
  intros [b o] (Hb' & Ho' & Hv & Hl). destruct (Z.leb_spec t b) as [Htb|Htb]; cbn [wp]; [|split_and!; (done || lia)].
  unfold maxv. rewrite mask_mod, Z.shiftr_div_pow2 by lia.
  assert (Hpt : 0 < 2 ^ t) by (apply Z.pow_pos_nonneg; lia). assert (Hpb : 0 < 2 ^ (b - t)) by (apply Z.pow_pos_nonneg; lia).
  split_and!; [lia| | | |lia].
  - apply Forall_app. split; [done|]. apply Forall_singleton, Z.mod_pos_bound. lia.
  - rewrite <-Hv. unfold value. rewrite radix_snoc. 
    assert (2 ^ b = 2 ^ (b - t) * 2 ^ t) as -> by (rewrite <-Z.pow_add_r by lia; f_equal; lia).
    rewrite Z.rem_mul_r by lia. lia.
  - rewrite length_app. cbn [length]. lia.
Qed.

(** Consuming a digit. *)
Lemma push_digit acc bits v : 0 <= bits < t → 0 <= acc < 2 ^ (f + t - 1) → 0 <= v < 2 ^ f →
  let acc' := Z.land (Z.lor (u64 (Z.shiftl acc f)) v) (max_acc f t) in
  0 <= acc' < 2 ^ (f + t - 1) ∧ acc' mod 2 ^ (bits + f) = acc mod 2 ^ bits * 2 ^ f + v.
Proof using widths.
  intros Hb Ha Hv. cbv zeta. unfold max_acc. rewrite mask_mod by lia. rewrite Z.shiftl_mul_pow2 by lia.
  assert (Hpf : 0 < 2 ^ f) by (apply Z.pow_pos_nonneg; lia). assert (Hpb : 0 < 2 ^ bits) by (apply Z.pow_pos_nonneg; lia).
  rewrite u64_small.
  2:{ unfold in_u64. split; [nia|]. apply Z.lt_le_trans with (2 ^ (f + t - 1) * 2 ^ f); [nia|].
      rewrite <-Z.pow_add_r by lia. apply Z.pow_le_mono_r; lia. }
  rewrite lor_mul_pow2 by lia.
  split; [apply Z.mod_pos_bound, Z.pow_pos_nonneg; lia|].
  rewrite Z.mod_mod_divide.
  2:{ exists (2 ^ (t - 1 - bits)). rewrite <-Z.pow_add_r by lia. f_equal. lia. }
  rewrite (Z.add_comm bits f), Z.pow_add_r, Z.rem_mul_r by lia.
  rewrite (Z.add_comm (acc * _)), Z.mod_add, Z.div_add, (Z.mod_small v), (Z.div_small v), Z.add_0_l by lia. lia.
Qed.

Lemma convert_loop_ok l acc bits out : 0 <= bits < t → 0 <= acc < 2 ^ (f + t - 1) → digits t out →
  Forall (λ x, 0 <= infn x < 2 ^ f) l →
  ∃ acc' bits' out', convert_loop f t pad infn l acc bits out = convert_loop f t pad infn [] acc' bits' out' ∧
    0 <= bits' < t ∧ 0 <= acc' < 2 ^ (f + t - 1) ∧ digits t out' ∧
    value acc' bits' out' = value acc bits out * 2 ^ (f * Z.of_nat (length l)) + radix f (infn <$> l) ∧
    t * Z.of_nat (length out') + bits' = t * Z.of_nat (length out) + bits + f * Z.of_nat (length l).
Proof using widths.
  intros Hb Ha Ho Hl. revert acc bits out Hb Ha Ho. induction Hl as [|x l Hx Hl IH]; intros acc bits out Hb Ha Ho.
  - exists acc, bits, out. split_and!; [done|lia|lia|lia|lia|done| |cbn; lia]. unfold radix. cbn [length fmap list_fmap foldl Z.of_nat].
    rewrite Z.mul_0_r, Z.pow_0_r. lia.
  - cbn [convert_loop]. rewrite (proj2 (Z.ltb_ge (infn x) 0)) by lia.
    destruct (push_digit acc bits (infn x) Hb Ha Hx) as [Ha' Hm]. set (acc1 := Z.land _ _) in *.
    destruct (proj1 (wp_exists _ _) (emit_ok acc1 (bits + f) out ltac:(lia) Ho)) as ([b1 o1] & -> & Hb1 & Ho1 & Hv1 & Hl1).
    cbn [mbind option_bind]. destruct (IH acc1 b1 o1 Hb1 Ha' Ho1) as (a2 & b2 & o2 & E & Hb2 & Ha2 & Ho2 & Hv2 & Hl2).
    exists a2, b2, o2. split_and!; [done|lia|lia|lia|lia|done| |cbn [length]; lia].
    rewrite Hv2, Hv1. cbn [fmap list_fmap]. rewrite radix_cons, length_fmap by lia. unfold value at 1. rewrite Hm.
    unfold value. cbn [length]. replace (f * Z.of_nat (S (length l))) with (f + f * Z.of_nat (length l)) by lia.
    rewrite !Z.pow_add_r by lia. lia.
Qed.

(** The pending bits, at the top of a digit. *)
Lemma pending acc bits : 0 <= bits < t → 0 <= acc < 2 ^ (f + t - 1) →
  Z.land (u64 (Z.shiftl acc (t - bits))) (maxv t) = acc mod 2 ^ bits * 2 ^ (t - bits).
Proof using widths.
  intros Hb Ha. unfold maxv. rewrite mask_mod, Z.shiftl_mul_pow2 by lia.
  assert (Hp : 0 < 2 ^ (t - bits)) by (apply Z.pow_pos_nonneg; lia).
  assert (Hq : 0 < 2 ^ bits) by (apply Z.pow_pos_nonneg; lia).
  rewrite u64_small.
  - replace (2 ^ t) with (2 ^ bits * 2 ^ (t - bits)) by (rewrite <-Z.pow_add_r by lia; f_equal; lia).
    by rewrite Z.mul_mod_distr_r by lia.
  - unfold in_u64. split; [nia|]. apply Z.lt_le_trans with (2 ^ (f + t - 1) * 2 ^ (t - bits)); [nia|].
    rewrite <-Z.pow_add_r by lia. apply Z.pow_le_mono_r; lia.
Qed.
End convert.

Section modes.
Context (f t : Z) (infn : Z → Z).
Hypothesis widths : 0 < f ∧ 0 < t ∧ 2 * f + 2 * t <= 64.

(** With padding: the digits of the value, filled up with [p] zero bits. *)
Lemma ConvertBits_pad l : Forall (λ x, 0 <= infn x < 2 ^ f) l → ∃ out p,
  ConvertBits f t true infn l = Some (true, out) ∧ digits t out ∧ 0 <= p < t ∧
  radix t out = radix f (infn <$> l) * 2 ^ p ∧ t * Z.of_nat (length out) = f * Z.of_nat (length l) + p.
Proof using widths.
  intros Hl. assert (Hz : 0 <= 0 < 2 ^ (f + t - 1)) by (split; [done|apply Z.pow_pos_nonneg; lia]).
  destruct (convert_loop_ok f t true infn widths l 0 0 [] ltac:(lia) Hz (Forall_nil_2 _) Hl)
    as (a & b & o & E & Hb & Ha & Ho & Hv & Hlen).
  unfold ConvertBits. rewrite E. cbn [convert_loop]. unfold value in Hv. cbn [length Z.of_nat] in Hlen.
  assert (Hv' : radix t o * 2 ^ b + a mod 2 ^ b = radix f (infn <$> l)).
  { rewrite Hv. unfold radix at 1. cbn [foldl]. rewrite Zmod_0_l. lia. }
  destruct (Z.eqb_spec b 0) as [->|Hb0]; cbn [negb].
  - exists o, 0. rewrite Z.pow_0_r, Z.mod_1_r in Hv'. split_and!; [done|done|lia|lia|rewrite Z.pow_0_r; lia|lia].
  - assert (Hp : 0 < 2 ^ (t - b)) by (apply Z.pow_pos_nonneg; lia). assert (Hq : 0 < 2 ^ b) by (apply Z.pow_pos_nonneg; lia).
    pose proof (Z.mod_pos_bound a (2 ^ b) Hq).
    assert (Ht : 2 ^ t = 2 ^ b * 2 ^ (t - b)) by (rewrite <-Z.pow_add_r by lia; f_equal; lia).
    rewrite (pending f t widths a b) by done. eexists _, (t - b). split_and!; [done| |lia|lia| |].
    + apply Forall_app. split; [done|]. apply Forall_singleton. nia.
    + rewrite radix_snoc, <-Hv', Ht. lia.
    + rewrite length_app. cbn [length]. lia.
Qed.

(** Without: the digits of the value, if what is left over is zero and shorter than
    a digit of the input. *)
Lemma ConvertBits_nopad l : Forall (λ x, 0 <= infn x < 2 ^ f) l → ∃ out b r valid,
  ConvertBits f t false infn l = Some (valid, out) ∧ digits t out ∧ 0 <= b < t ∧ 0 <= r < 2 ^ b ∧
  radix f (infn <$> l) = radix t out * 2 ^ b + r ∧ f * Z.of_nat (length l) = t * Z.of_nat (length out) + b ∧
  (valid = true ↔ b < f ∧ r = 0).
Proof using widths.
  intros Hl. assert (Hz : 0 <= 0 < 2 ^ (f + t - 1)) by (split; [done|apply Z.pow_pos_nonneg; lia]).
  destruct (convert_loop_ok f t false infn widths l 0 0 [] ltac:(lia) Hz (Forall_nil_2 _) Hl)
    as (a & b & o & E & Hb & Ha & Ho & Hv & Hlen).
  unfold ConvertBits. rewrite E. cbn [convert_loop]. unfold value in Hv. cbn [length Z.of_nat] in Hlen.
  assert (Hv' : radix t o * 2 ^ b + a mod 2 ^ b = radix f (infn <$> l)).
  { rewrite Hv. unfold radix at 1. cbn [foldl]. rewrite Zmod_0_l. lia. }
  assert (Hp : 0 < 2 ^ (t - b)) by (apply Z.pow_pos_nonneg; lia). assert (Hq : 0 < 2 ^ b) by (apply Z.pow_pos_nonneg; lia).
  pose proof (Z.mod_pos_bound a (2 ^ b) Hq) as Hr.
  rewrite (pending f t widths a b) by done. exists o, b, (a mod 2 ^ b).
  destruct (Z.leb_spec f b); cbn [orb]; [exists false; split_and!; done || lia|].
  destruct (Z.eqb_spec (a mod 2 ^ b * 2 ^ (t - b)) 0) as [E0|E0]; cbn [negb].
  - exists true. split_and!; done || lia.
  - exists false. split_and!; done || lia.
Qed.

(** A character that is no digit. *)
Lemma convert_loop_bad pad l acc bits out : 0 <= acc < 2 ^ (f + t - 1) → 0 <= bits < t → digits t out →
  ¬ Forall (λ x, 0 <= infn x) l → Forall (λ x, infn x < 2 ^ f) l →
  ∃ out', convert_loop f t pad infn l acc bits out = Some (false, out').
Proof using widths.
  revert acc bits out. induction l as [|x l IH]; intros acc bits out Ha Hb Ho Hn Hu; [by destruct Hn|].
  apply Forall_cons_1 in Hu as [Hux Hu]. cbn [convert_loop]. destruct (Z.ltb_spec (infn x) 0) as [Hx|Hx]; [eauto|].
  destruct (push_digit f t widths acc bits (infn x) Hb Ha ltac:(lia)) as [Ha' Hm]. set (acc1 := Z.land _ _) in *.
  destruct (proj1 (wp_exists _ _) (emit_ok f t widths acc1 (bits + f) out ltac:(lia) Ho)) as ([b1 o1] & -> & Hb1 & Ho1 & _).
  cbn [mbind option_bind]. apply IH; [done|done|done| |done]. intros Hl. apply Hn. by constructor.
Qed.
Lemma ConvertBits_bad pad l : ¬ Forall (λ x, 0 <= infn x) l → Forall (λ x, infn x < 2 ^ f) l →
  ∃ out, ConvertBits f t pad infn l = Some (false, out).
Proof using widths. apply convert_loop_bad; [split; [done|apply Z.pow_pos_nonneg; lia]|lia|constructor]. Qed.
End modes.

(** ** Base 64 *)

Definition enc64 (v : Z) : Z := pbase64 !!! Z.to_nat v.
Definition dec64 (c : Z) : Z := decode64_table !!! Z.to_nat (u8 c).

(** A property of all small numbers, by enumeration. *)
Lemma by_enumeration (P : Z → bool) n v : forallb P (seqZ 0 n) = true → 0 <= v < n → P v = true.
Proof. intros H Hv. rewrite forallb_forall in H. apply H, list_elem_of_In, elem_of_seqZ. lia. Qed.

Lemma enc64_dec64 v : 0 <= v < 64 → dec64 (enc64 v) = v ∧ in_u8 (enc64 v) ∧ enc64 v ≠ 61.
Proof.
  intros Hv. pose proof (by_enumeration (λ v, (dec64 (enc64 v) =? v) && (0 <=? enc64 v) && (enc64 v <? 256) && negb (enc64 v =? 61))
    64 v eq_refl Hv) as H.
  cbv beta in H. rewrite !andb_true_iff, Z.eqb_eq, Z.leb_le, Z.ltb_lt, negb_true_iff, Z.eqb_neq in H.
  unfold in_u8. split_and!; [tauto|lia|lia|tauto].
Qed.

Lemma dec64_enc64 c : in_u8 c → dec64 c < 64 ∧ (0 <= dec64 c → enc64 (dec64 c) = c).
Proof.
  intros Hc. pose proof (by_enumeration (λ c, (dec64 c <? 64) && ((dec64 c <? 0) || (enc64 (dec64 c) =? c))) 256 c eq_refl Hc) as H.
  cbv beta in H. rewrite andb_true_iff, Z.ltb_lt, orb_true_iff, Z.ltb_lt, Z.eqb_eq in H. split; [tauto|lia].
Qed.

Lemma dec64_eq_sign : dec64 61 = -1.
Proof. by vm_compute. Qed.

Definition fill (n : nat) : nat := ((4 - n mod 4) mod 4)%nat.

Lemma fill_up_ok s : fill_up 4 s = Some (s ++ replicate (fill (length s)) 61).
Proof.
  unfold fill_up, fill. pose proof (Nat.mod_upper_bound (length s) 4 ltac:(lia)) as Hm.
  assert (Hnext : ∀ (l : list Z) k, (length l mod 4 = k)%nat → (length (l ++ [61]%Z) mod 4 = (1 + k) mod 4)%nat).
  { intros l k <-. rewrite length_app. cbn [length]. by rewrite Nat.add_comm, Nat.Div0.add_mod_idemp_r. }
  destruct (length s mod 4)%nat as [|[|[|[|?]]]] eqn:E; [| | | |lia].
  - cbn [loop]. rewrite E. cbn. by rewrite app_nil_r.
  - pose proof (Hnext _ _ E : _ = 2%nat) as E1. pose proof (Hnext _ _ E1 : _ = 3%nat) as E2. pose proof (Hnext _ _ E2 : _ = 0%nat) as E3.
    cbn [loop]. rewrite E. cbn [Nat.eqb mbind option_bind]. rewrite E1. cbn [Nat.eqb mbind option_bind].
    rewrite E2. cbn [Nat.eqb mbind option_bind]. rewrite E3. cbn. by rewrite <-!app_assoc.
  - pose proof (Hnext _ _ E : _ = 3%nat) as E1. pose proof (Hnext _ _ E1 : _ = 0%nat) as E2.
    cbn [loop]. rewrite E. cbn [Nat.eqb mbind option_bind]. rewrite E1. cbn [Nat.eqb mbind option_bind].
    rewrite E2. cbn. by rewrite <-!app_assoc.
  - pose proof (Hnext _ _ E : _ = 0%nat) as E1.
    cbn [loop]. rewrite E. cbn [Nat.eqb mbind option_bind]. rewrite E1. done.
Qed.

Lemma strip_eq_snoc s c : strip_eq (s ++ [c]) = if decide (c = 61) then s else s ++ [c].
Proof.
  unfold strip_eq. rewrite rev_app_distr. cbn [rev app]. case_decide as Hc; [subst; by rewrite rev_involutive|].
  repeat (done || match goal with |- context [match ?x with _ => _ end] => destruct x end).
Qed.

Lemma widths_86 : 0 < 8 ∧ 0 < 6 ∧ 2 * 8 + 2 * 6 <= 64. Proof. lia. Qed.
Lemma widths_68 : 0 < 6 ∧ 0 < 8 ∧ 2 * 6 + 2 * 8 <= 64. Proof. lia. Qed.

(** The text of a byte string: its 6-bit digits and a fill of at most two signs. *)
Lemma EncodeBase64_ok l : bytes l → ∃ vs p, EncodeBase64 l = Some ((enc64 <$> vs) ++ replicate (fill (length vs)) 61) ∧
  digits 6 vs ∧ 0 <= p < 6 ∧ radix 6 vs = radix 8 l * 2 ^ p ∧ 6 * Z.of_nat (length vs) = 8 * Z.of_nat (length l) + p ∧
  (fill (length vs) <= 2)%nat.
Proof.
  intros Hl. destruct (ConvertBits_pad 8 6 id widths_86 l Hl) as (vs & p & E & Hv & Hp & Hr & Hn).
  rewrite list_fmap_id in Hr. unfold EncodeBase64. rewrite E. cbn [mbind option_bind]. rewrite fill_up_ok, length_fmap.
  exists vs, p. split_and!; [done|done|lia|lia|done|done|].
  unfold fill. pose proof (Nat.div_mod (length vs) 4 ltac:(lia)). pose proof (Nat.mod_upper_bound (length vs) 4 ltac:(lia)).
  destruct (length vs mod 4)%nat as [|[|[|[|?]]]]; cbn; lia.
Qed.

Lemma chars_digits cs : bytes cs → Forall (λ c, 0 <= dec64 c) cs → Forall (λ c, 0 <= dec64 c < 2 ^ 6) cs ∧ enc64 <$> (dec64 <$> cs) = cs.
Proof.
  induction 1 as [|c cs Hc Hcs IH]; intros Hd; [done|]. apply Forall_cons_1 in Hd as [Hdc Hd].
  destruct (dec64_enc64 c Hc) as [Hlt He]. destruct (IH Hd) as [H1 H2]. split; [constructor; [lia|done]|].
  cbn [fmap list_fmap]. by rewrite He, H2.
Qed.

Lemma digits_chars vs : digits 6 vs → bytes (enc64 <$> vs) ∧ dec64 <$> (enc64 <$> vs) = vs ∧ Forall (λ c, c ≠ 61) (enc64 <$> vs).
Proof.
  induction 1 as [|v vs Hv Hvs (H1 & H2 & H3)]; [done|]. destruct (enc64_dec64 v Hv) as (Hd & Hb & Hn).
  cbn [fmap list_fmap]. split_and!; [by constructor|by rewrite Hd, H2|by constructor].
Qed.

Lemma fill_mod n : ((n + fill n) mod 4 = 0)%nat.
Proof.
  unfold fill. rewrite Nat.Div0.add_mod. pose proof (Nat.mod_upper_bound n 4 ltac:(lia)).
  destruct (n mod 4)%nat as [|[|[|[|?]]]]; [done|done|done|done|lia].
Qed.
Lemma fill_unique n k : (k <= 2)%nat → ((n + k) mod 4 = 0)%nat → k = fill n.
Proof.
  unfold fill. rewrite Nat.Div0.add_mod. pose proof (Nat.mod_upper_bound n 4 ltac:(lia)). intros Hk.
  destruct (n mod 4)%nat as [|[|[|[|?]]]], k as [|[|[|?]]]; cbn; lia.
Qed.

(** Stripping the fill. *)
Lemma strip_fill cs k : Forall (λ c, c ≠ 61) cs → (k <= 2)%nat → strip_eq (strip_eq (cs ++ replicate k 61)) = cs.
Proof.
  intros Hc Hk. assert (Hs : strip_eq cs = cs).
  { destruct cs as [|c cs _] using rev_ind; [done|]. apply Forall_app in Hc as [_ Hc]. apply Forall_cons_1 in Hc as [Hc _].
    by rewrite strip_eq_snoc, decide_False. }
  destruct k as [|[|[|?]]]; [| | |lia]; cbn [replicate].
  - by rewrite app_nil_r, !Hs.
  - by rewrite strip_eq_snoc, decide_True.
  - change [61; 61] with ([61] ++ [61]). by rewrite app_assoc, strip_eq_snoc, decide_True, strip_eq_snoc, decide_True.
Qed.

Lemma strip_eq_split s : ∃ k, s = strip_eq s ++ replicate k 61 ∧ (k <= 1)%nat.
Proof.
  destruct s as [|c s _] using rev_ind; [exists 0%nat; split; [done|lia]|].
  rewrite strip_eq_snoc. case_decide as Hc.
  - exists 1%nat. subst. split; [done|lia].
  - exists 0%nat. cbn [replicate]. rewrite app_nil_r. split; [done|lia].
Qed.

Lemma u8_digits l : digits 8 l → u8 <$> l = l.
Proof. induction 1 as [|x l Hx Hl IH]; [done|]. cbn [fmap list_fmap]. rewrite IH, u8_small; done. Qed.

Lemma DecodeBase64_fill cs k : Forall (λ c, c ≠ 61) cs → k = fill (length cs) → (k <= 2)%nat →
  DecodeBase64 (cs ++ replicate k 61) =
  (λ '(valid, ret), if (valid : bool) then Some (u8 <$> (ret : list Z)) else None) <$> ConvertBits 6 8 false dec64 cs.
Proof.
  intros Hc Hk Hk2. unfold DecodeBase64.
  assert (Hm : (length (cs ++ replicate k 61%Z) mod 4 = 0)%nat).
  { rewrite length_app, length_replicate, Hk. apply fill_mod. }
  rewrite Hm. cbn [Nat.eqb negb]. cbv zeta. by rewrite strip_fill.
Qed.

(** Base 64 reads back. *)
Lemma DecodeBase64_Encode l s : bytes l → EncodeBase64 l = Some s → DecodeBase64 s = Some (Some l).
Proof.
  intros Hl. destruct (EncodeBase64_ok l Hl) as (vs & p & -> & Hv & Hp & Hr & Hn & Hf). intros [= <-].
  destruct (digits_chars vs Hv) as (Hb & Hd & Hc). rewrite DecodeBase64_fill by (rewrite ?length_fmap; done).
  destruct (ConvertBits_nopad 6 8 dec64 widths_68 (enc64 <$> vs)) as (o & b & r & valid & -> & Ho & Hb' & Hr' & Hv' & Hn' & Hval).
  { apply chars_digits; [done|]. apply Forall_fmap. eapply Forall_impl; [|exact Hv]. intros v Hvv. cbn [compose].
    rewrite (proj1 (enc64_dec64 v Hvv)). apply Hvv. }
  rewrite Hd in Hv'. rewrite length_fmap in Hn'. assert (length o = length l ∧ b = p) as [Hlen ->] by lia.
  assert (Hq : 0 < 2 ^ p) by (apply Z.pow_pos_nonneg; lia).
  assert (radix 8 l = radix 8 o ∧ r = 0) as [Hrad ->].
  { rewrite Hr in Hv'. destruct (Z.div_mod_unique (2 ^ p) (radix 8 l) (radix 8 o) 0 r); [left; lia|left; lia|lia|done]. }
  assert (valid = true) as -> by (apply Hval; lia). cbn [fmap option_fmap option_map]. rewrite u8_digits by done.
  by rewrite (radix_inj 8 l o).
Qed.

(** Only the text of [l] decodes to [l]. *)
Lemma DecodeBase64_canonical s l : bytes s → DecodeBase64 s = Some (Some l) → bytes l ∧ EncodeBase64 l = Some s.
Proof.
  intros Hs. unfold DecodeBase64. destruct (Nat.eqb_spec (length s mod 4) 0) as [Hm|]; [|done]. cbn [negb]. cbv zeta.
  destruct (strip_eq_split s) as (k1 & E1 & Hk1). destruct (strip_eq_split (strip_eq s)) as (k2 & E2 & Hk2).
  set (cs := strip_eq (strip_eq s)) in *.
  assert (Es : s = cs ++ replicate (k2 + k1) 61) by (rewrite replicate_add, app_assoc, <-E2; done).
  assert (Hcs : bytes cs) by (rewrite Es in Hs; by apply Forall_app in Hs as [Hs _]).
  assert (Hup : Forall (λ c, dec64 c < 2 ^ 6) cs).
  { eapply Forall_impl; [|exact Hcs]. intros c Hc. apply dec64_enc64, Hc. }
  destruct (decide (Forall (λ c, 0 <= dec64 c) cs)) as [Hd|Hd].
  2:{ destruct (ConvertBits_bad 6 8 dec64 widths_68 false cs Hd Hup) as (o & E). unfold dec64 in E. rewrite E. done. }
  destruct (chars_digits cs Hcs Hd) as [Hdig Hback].
  destruct (ConvertBits_nopad 6 8 dec64 widths_68 cs Hdig) as (o & b & r & valid & E & Ho & Hb' & Hr' & Hv' & Hn' & Hval).
  unfold dec64 in E. rewrite E. cbn [fmap option_fmap option_map]. destruct valid; [|done]. intros [= <-].
  rewrite u8_digits by done. split; [done|]. destruct (proj1 Hval eq_refl) as [Hb6 ->].
  destruct (EncodeBase64_ok o Ho) as (vs & p & -> & Hv & Hp & Hr & Hn & Hf).
  assert (length vs = length cs ∧ p = b) as [Hlen ->] by lia.
  assert (Hvs : vs = dec64 <$> cs).
  { apply (radix_inj 6); [lia|done|by apply Forall_fmap|by rewrite length_fmap|lia]. }
  rewrite Hvs, Hback, length_fmap. rewrite Es. do 3 f_equal. rewrite Hlen in Hf.
  rewrite Es, length_app, length_replicate in Hm. symmetry. apply fill_unique; [lia|done].
Qed.

Lemma DecodeBase64_total s : bytes s → is_Some (DecodeBase64 s).
Proof.
  intros Hs. unfold DecodeBase64. destruct (_ =? _)%nat; cbn [negb]; [|done]. cbv zeta. set (cs := strip_eq (strip_eq s)).
  assert (Hcs : bytes cs).
  { destruct (strip_eq_split s) as (k1 & E1 & _). destruct (strip_eq_split (strip_eq s)) as (k2 & E2 & _).
    rewrite E1 in Hs. apply Forall_app in Hs as [Hs _]. rewrite E2 in Hs. by apply Forall_app in Hs as [Hs _]. }
  apply fmap_is_Some. assert (Hup : Forall (λ c, dec64 c < 2 ^ 6) cs).
  { eapply Forall_impl; [|exact Hcs]. intros c Hc. apply dec64_enc64, Hc. }
  destruct (decide (Forall (λ c, 0 <= dec64 c) cs)) as [Hd|Hd].
  - destruct (ConvertBits_nopad 6 8 dec64 widths_68 cs (proj1 (chars_digits cs Hcs Hd))) as (o & b & r & v & E & _). unfold dec64 in E. by rewrite E.
  - destruct (ConvertBits_bad 6 8 dec64 widths_68 false cs Hd Hup) as (o & E). unfold dec64 in E. by rewrite E.
Qed.

(** ** Hexadecimal *)

Lemma byte_to_hex_ok v : in_u8 v → ∃ c d, byte_to_hex v = [c; d] ∧ IsSpace c = false ∧ 0 <= HexDigit c ∧ 0 <= HexDigit d ∧
  Z.lor (u8 (Z.shiftl (HexDigit c) 4)) (u8 (HexDigit d)) = v ∧ in_u8 c ∧ in_u8 d.
Proof.
  intros Hv. eexists _, _. split; [done|].
  pose proof (by_enumeration (λ v, let c := hexmap !!! Z.to_nat (Z.shiftr v 4) in let d := hexmap !!! Z.to_nat (Z.land v 15) in
    negb (IsSpace c) && (0 <=? HexDigit c) && (0 <=? HexDigit d) && (Z.lor (u8 (Z.shiftl (HexDigit c) 4)) (u8 (HexDigit d)) =? v) &&
    (0 <=? c) && (c <? 256) && (0 <=? d) && (d <? 256)) 256 v eq_refl Hv) as H. cbv beta zeta in H.
  rewrite !andb_true_iff, negb_true_iff, !Z.leb_le, !Z.ltb_lt, Z.eqb_eq in H. unfold in_u8. tauto.
Qed.

Lemma TryParseHex_HexStr l : bytes l → TryParseHex (HexStr l) = Some l ∧ bytes (HexStr l).
Proof.
  induction 1 as [|v l Hv Hl [IH1 IH2]]; [done|]. destruct (byte_to_hex_ok v Hv) as (c & d & E & Hs & Hc & Hd & Hv' & Bc & Bd).
  unfold HexStr in *. cbn [mbind list_bind]. rewrite E. cbn [app TryParseHex]. rewrite Hs.
  rewrite (proj2 (Z.ltb_ge _ _) Hc), (proj2 (Z.ltb_ge _ _) Hd). cbn [orb]. rewrite IH1. cbn [fmap option_fmap option_map].
  rewrite Hv'. split; [done|]. constructor; [done|]. by constructor.
Qed.
Lemma ParseHex_HexStr l : bytes l → ParseHex (HexStr l) = l.
Proof. intros Hl. unfold ParseHex. by rewrite (proj1 (TryParseHex_HexStr l Hl)). Qed.
