(* ===== verification/Tx.v ===== *)
(** Transactions and signature hashes (primitives/transaction.h,
    script/interpreter.h and .cpp): [CTransaction], the serializer for legacy
    signatures, [PrecomputedTransactionData], [SignatureHash] and
    [SignatureHashSchnorr].

    A [HashWriter] is the list of the bytes written to it.  Hashes are lists of 32
    bytes; a default [uint256] is zero.  [CTransaction] and [CMutableTransaction]
    have the same fields, so one record models both. *)
From S2P Require Import Prelude Serial QSig Script Node QPubKey Interp Verify.

Open Scope Z_scope.

(** ** Data *)

Record COutPoint := { op_hash : list Z; op_n : Z }.
Record CTxIn := { prevout : COutPoint; scriptSig : list Z; nSequence : Z; scriptWitness : list (list Z) }.
Record CTxOut := { nValue : Z; scriptPubKey : list Z }.
Record CTransaction := { vin : list CTxIn; vout : list CTxOut; version : Z; nLockTime : Z }.

(** [CTxOut()]: the null output. *)
Definition CTxOut_null : CTxOut := {| nValue := -1; scriptPubKey := [] |}.

Definition SEQUENCE_FINAL : Z := 0xffffffff.
Definition SEQUENCE_LOCKTIME_TYPE_FLAG : Z := Z.shiftl 1 22.
Definition SEQUENCE_LOCKTIME_MASK : Z := 0x0000ffff.
Definition LOCKTIME_THRESHOLD : Z := 500000000.

Definition SIGHASH_OUTPUT_MASK : Z := 3.
Definition SIGHASH_INPUT_MASK : Z := 0x80.

Definition uint256_zero : list Z := replicate 32 0.
Definition uint256_ONE : list Z := 1 :: replicate 31 0.

(** ** Serialization: the bytes written *)

Definition ser_script (s : list Z) : list Z := compact_size (size s) ++ s.
Definition ser_outpoint (o : COutPoint) : list Z := op_hash o ++ le_bytes 4 (op_n o).
Definition ser_txout (o : CTxOut) : list Z := le_bytes 8 (nValue o) ++ ser_script (scriptPubKey o).

(** ** The serializer for legacy signatures *)

(** Where the iterator is when [GetScriptOp] fails: behind what it has read. *)
Definition GetScriptOp_stop (pc : list Z) : list Z :=
  match pc with
  | [] => []
  | opcode :: pc =>
      if opcode <? op_num OP_PUSHDATA1 then pc
      else if opcode =? op_num OP_PUSHDATA1 then drop 1 pc
      else if opcode =? op_num OP_PUSHDATA2 then (if (length pc <? 2)%nat then pc else drop 2 pc)
      else (if (length pc <? 4)%nat then pc else drop 4 pc)
  end.

(** The number of code separators. *)
Definition count_separators (scriptCode : list Z) : option Z :=
  loop (S (length scriptCode)) (λ '(it, n),
    match GetScriptOp it with
    | None => Some (Done n)
    | Some (it, opcode, _) => Some (Next (it, if decide (opcode = OP_CODESEPARATOR) then u32 (n + 1) else n))
    end) (scriptCode, 0).

(** The bytes from [itBegin] to [it], both positions in the script. *)
Definition span (itBegin it : list Z) : list Z := take (length itBegin - length it) itBegin.

Definition SerializeScriptCode (scriptCode : list Z) : option (list Z) :=
  nCodeSeparators ← count_separators scriptCode;
  let out := compact_size (u64 (size scriptCode - nCodeSeparators)) in
  '(out, it, itBegin) ← loop (S (length scriptCode)) (λ '(out, it, itBegin),
    match GetScriptOp it with
    | None => Some (Done (out, GetScriptOp_stop it, itBegin))
    | Some (it, opcode, _) =>
        if decide (opcode = OP_CODESEPARATOR)
        then Some (Next (out ++ removelast (span itBegin it), it, it))
        else Some (Next (out, it, itBegin))
    end) (out, scriptCode, scriptCode);
  Some (match itBegin with [] => out | _ => out ++ span itBegin it end).

Section serializer.
Context (txTo : CTransaction) (scriptCode : list Z) (nIn : nat) (nHashType : Z).
Let fAnyoneCanPay : bool := negb (Z.land nHashType SIGHASH_ANYONECANPAY =? 0).
Let fHashSingle : bool := Z.land nHashType 0x1f =? SIGHASH_SINGLE.
Let fHashNone : bool := Z.land nHashType 0x1f =? SIGHASH_NONE.

Definition SerializeInput (nInput : nat) : option (list Z) :=
  let nInput := if fAnyoneCanPay then nIn else nInput in
  txin ← vin txTo !! nInput;
  script ← (if decide (nInput ≠ nIn) then Some (ser_script []) else SerializeScriptCode scriptCode);
  let seq := if bool_decide (nInput ≠ nIn) && (fHashSingle || fHashNone) then le_bytes 4 0 else le_bytes 4 (nSequence txin) in
  Some (ser_outpoint (prevout txin) ++ script ++ seq).

Definition SerializeOutput (nOutput : nat) : option (list Z) :=
  if fHashSingle && bool_decide (nOutput ≠ nIn) then Some (ser_txout CTxOut_null)
  else ser_txout <$> vout txTo !! nOutput.

Definition tx_serialize : option (list Z) :=
  let nInputs := if fAnyoneCanPay then 1%nat else length (vin txTo) in
  ins ← mapM SerializeInput (seq 0 nInputs);
  let nOutputs := if fHashNone then 0%nat else if fHashSingle then (nIn + 1)%nat else length (vout txTo) in
  outs ← mapM SerializeOutput (seq 0 nOutputs);
  Some (le_bytes 4 (version txTo) ++ compact_size (Z.of_nat nInputs) ++ concat ins ++
        compact_size (Z.of_nat nOutputs) ++ concat outs ++ le_bytes 4 (nLockTime txTo)).
End serializer.

(** ** Precomputed data *)

Section hashes.
Context {C : NodeCrypto}.

Definition GetPrevoutsSHA256 (txTo : CTransaction) : list Z := CSHA256 (concat ((λ i, ser_outpoint (prevout i)) <$> vin txTo)).
Definition GetSequencesSHA256 (txTo : CTransaction) : list Z := CSHA256 (concat ((λ i, le_bytes 4 (nSequence i)) <$> vin txTo)).
Definition GetOutputsSHA256 (txTo : CTransaction) : list Z := CSHA256 (concat (ser_txout <$> vout txTo)).
Definition GetSpentAmountsSHA256 (outputs_spent : list CTxOut) : list Z :=
  CSHA256 (concat ((λ o, le_bytes 8 (nValue o)) <$> outputs_spent)).
Definition GetSpentScriptsSHA256 (outputs_spent : list CTxOut) : list Z :=
  CSHA256 (concat ((λ o, ser_script (scriptPubKey o)) <$> outputs_spent)).
(** [SHA256Uint256]. *)
Definition SHA256Uint256 (h : list Z) : list Z := CSHA256 h.

Record PrecomputedTransactionData := {
  m_prevouts_single_hash : list Z;
  m_sequences_single_hash : list Z;
  m_outputs_single_hash : list Z;
  m_spent_amounts_single_hash : list Z;
  m_spent_scripts_single_hash : list Z;
  m_bip341_taproot_ready : bool;
  hashPrevouts : list Z;
  hashSequence : list Z;
  hashOutputs : list Z;
  m_bip143_segwit_ready : bool;
  m_spent_outputs : list CTxOut;
  m_spent_outputs_ready : bool;
}.
Definition PrecomputedTransactionData_default : PrecomputedTransactionData := {|
  m_prevouts_single_hash := uint256_zero; m_sequences_single_hash := uint256_zero; m_outputs_single_hash := uint256_zero;
  m_spent_amounts_single_hash := uint256_zero; m_spent_scripts_single_hash := uint256_zero; m_bip341_taproot_ready := false;
  hashPrevouts := uint256_zero; hashSequence := uint256_zero; hashOutputs := uint256_zero; m_bip143_segwit_ready := false;
  m_spent_outputs := []; m_spent_outputs_ready := false |}.

(** The features that the inputs use: (segwit, taproot). *)
Definition uses_features (txTo : CTransaction) (spent : list CTxOut) (ready force : bool) : option (bool * bool) :=
  loop (S (length (vin txTo))) (λ '(inpos, segwit, taproot),
    if (inpos <? length (vin txTo))%nat && negb (segwit && taproot) then
      txin ← vin txTo !! inpos;
      match scriptWitness txin with
      | [] => Some (Next (S inpos, segwit, taproot))
      | _ =>
          tr ← (if (ready : bool) then
                  o ← spent !! inpos;
                  Some ((size (scriptPubKey o) =? 2 + WITNESS_V1_TAPROOT_SIZE) &&
                        byte_at (scriptPubKey o) 0 (Z.eqb (op_num OP_1)))
                else Some false);
          Some (Next (S inpos, segwit || negb tr, taproot || tr))
      end
    else Some (Done (segwit, taproot))) (0%nat, force, force).

(** [None]: an assertion fails. *)
Definition Init (d : PrecomputedTransactionData) (txTo : CTransaction) (spent_outputs : list CTxOut) (force : bool)
    : option PrecomputedTransactionData :=
  if m_spent_outputs_ready d then None else
  if bool_decide (spent_outputs ≠ []) && negb (length spent_outputs =? length (vin txTo))%nat then None else
  let ready := bool_decide (spent_outputs ≠ []) in
  '(segwit, taproot) ← uses_features txTo spent_outputs ready force;
  let shared := (segwit : bool) || taproot in
  let prevouts := if shared then GetPrevoutsSHA256 txTo else m_prevouts_single_hash d in
  let sequences := if shared then GetSequencesSHA256 txTo else m_sequences_single_hash d in
  let outputs := if shared then GetOutputsSHA256 txTo else m_outputs_single_hash d in
  let tr := (taproot : bool) && ready in
  Some {| m_prevouts_single_hash := prevouts; m_sequences_single_hash := sequences; m_outputs_single_hash := outputs;
          m_spent_amounts_single_hash := if tr then GetSpentAmountsSHA256 spent_outputs else m_spent_amounts_single_hash d;
          m_spent_scripts_single_hash := if tr then GetSpentScriptsSHA256 spent_outputs else m_spent_scripts_single_hash d;
          m_bip341_taproot_ready := tr || m_bip341_taproot_ready d;
          hashPrevouts := if segwit then SHA256Uint256 prevouts else hashPrevouts d;
          hashSequence := if segwit then SHA256Uint256 sequences else hashSequence d;
          hashOutputs := if segwit then SHA256Uint256 outputs else hashOutputs d;
          m_bip143_segwit_ready := segwit || m_bip143_segwit_ready d;
          m_spent_outputs := spent_outputs;
          m_spent_outputs_ready := ready |}.

(** ** Signature hashes *)

(** What is hashed for a version 0 witness. *)
Definition SignatureHash (scriptCode : list Z) (txTo : CTransaction) (nIn : nat) (nHashType : Z) (amount : Z)
    (sigversion : SigVersion) (cache : option PrecomputedTransactionData) : option (list Z) :=
  txin ← vin txTo !! nIn;
  let anyone := negb (Z.land nHashType SIGHASH_ANYONECANPAY =? 0) in
  let single := Z.land nHashType 0x1f =? SIGHASH_SINGLE in
  let none := Z.land nHashType 0x1f =? SIGHASH_NONE in
  if decide (sigversion = WITNESS_V0) then
    let ready := match cache with Some c => if m_bip143_segwit_ready c then Some c else None | None => None end in
    let h_prevouts :=
      if negb anyone then match ready with Some c => hashPrevouts c | None => SHA256Uint256 (GetPrevoutsSHA256 txTo) end
      else uint256_zero in
    let h_sequence :=
      if negb anyone && negb single && negb none
      then match ready with Some c => hashSequence c | None => SHA256Uint256 (GetSequencesSHA256 txTo) end
      else uint256_zero in
    let h_outputs :=
      if negb single && negb none
      then match ready with Some c => hashOutputs c | None => SHA256Uint256 (GetOutputsSHA256 txTo) end
      else if single then match vout txTo !! nIn with Some o => CHash256 (ser_txout o) | None => uint256_zero end
      else uint256_zero in
    Some (CHash256 (le_bytes 4 (version txTo) ++ h_prevouts ++ h_sequence ++ ser_outpoint (prevout txin) ++
      ser_script scriptCode ++ le_bytes 8 amount ++ le_bytes 4 (nSequence txin) ++ h_outputs ++
      le_bytes 4 (nLockTime txTo) ++ le_bytes 4 nHashType))
  else if single && (length (vout txTo) <=? nIn)%nat then Some uint256_ONE else
  t ← tx_serialize txTo scriptCode nIn nHashType;
  Some (CHash256 (t ++ le_bytes 4 nHashType)).

Inductive MissingDataBehavior := ASSERT_FAIL | FAIL.

(** The result is [false] or a failed assertion. *)
Definition HandleMissingData (mdb : MissingDataBehavior) : outcome bool :=
  match mdb with ASSERT_FAIL => Crash | FAIL => Ok false end.

(** The tag "TapSighash". *)
Definition TAG_TAPSIGHASH : list Z := [84; 97; 112; 83; 105; 103; 104; 97; 115; 104].

(** The hash, or [None] where the function returns [false].  The cache
    [execdata.m_output_hash] holds, when set, the hash that is computed here. *)
Definition SignatureHashSchnorr (e : ScriptExecutionData) (tx_to : CTransaction) (in_pos : nat) (hash_type : Z)
    (sigversion : SigVersion) (cache : PrecomputedTransactionData) (mdb : MissingDataBehavior) : outcome (option (list Z)) :=
  match (match sigversion with TAPROOT => Some 0 | TAPSCRIPT => Some 1 | _ => None end) with
  | None => Crash
  | Some ext_flag =>
  txin ← or_crash (vin tx_to !! in_pos);
  if negb (m_bip341_taproot_ready cache && m_spent_outputs_ready cache)
  then (_ ← HandleMissingData mdb; Ok None) else
  let output_type := if hash_type =? SIGHASH_DEFAULT then SIGHASH_ALL else Z.land hash_type SIGHASH_OUTPUT_MASK in
  let input_type := Z.land hash_type SIGHASH_INPUT_MASK in
  if negb ((hash_type <=? 0x03) || ((0x81 <=? hash_type) && (hash_type <=? 0x83))) then Ok None else
  if negb (m_annex_init e) then Crash else
  let have_annex := m_annex_present e in
  let spend_type := u8 (Z.shiftl ext_flag 1 + (if have_annex then 1 else 0)) in
  input ← (if input_type =? SIGHASH_ANYONECANPAY then
             o ← or_crash (m_spent_outputs cache !! in_pos);
             Ok (ser_outpoint (prevout txin) ++ ser_txout o ++ le_bytes 4 (nSequence txin))
           else Ok (le_bytes 4 (Z.of_nat in_pos)));
  match (if output_type =? SIGHASH_SINGLE then (o ← vout tx_to !! in_pos; Some (CSHA256 (ser_txout o))) else Some []) with
  | None => Ok None
  | Some single =>
  ext ← (if decide (sigversion = TAPSCRIPT) then
           if negb (m_tapleaf_hash_init e) then Crash else
           if negb (m_codeseparator_pos_init e) then Crash else
           Ok (m_tapleaf_hash e ++ [0] ++ le_bytes 4 (m_codeseparator_pos e))
         else Ok []);
  Ok (Some (TaggedHash TAG_TAPSIGHASH
    ([0] ++ [u8 hash_type] ++ le_bytes 4 (version tx_to) ++ le_bytes 4 (nLockTime tx_to) ++
     (if input_type =? SIGHASH_ANYONECANPAY then [] else
        m_prevouts_single_hash cache ++ m_spent_amounts_single_hash cache ++ m_spent_scripts_single_hash cache ++
        m_sequences_single_hash cache) ++
     (if output_type =? SIGHASH_ALL then m_outputs_single_hash cache else []) ++
     [spend_type] ++ input ++ (if have_annex then m_annex_hash e else []) ++ single ++ ext)))
  end
  end.
End hashes.
