(* ===== verification/TxP.v ===== *)
(** Theorems about signature hashes: they are defined, the precomputed data does
    not change them, and a hash of type SIGHASH_ALL commits to the transaction. *)
From S2P Require Import Prelude Serial QSig Script Node QPubKey Interp Verify Tx.

Open Scope Z_scope.

(** ** Totality *)

Lemma GetScriptOp_smaller pc pc' o d : GetScriptOp pc = Some (pc', o, d) → (length pc' < length pc)%nat.
Proof. by intros [H _]%GetScriptOp_shrinks. Qed.

Lemma count_separators_total s : is_Some (count_separators s).
Proof.
  apply wp_is_Some with (λ _, True). unfold count_separators.
  apply (wp_loop_measure (λ _, True) (λ '(it, _), length it)); [done|lia|]. intros [it n] _.
  destruct (GetScriptOp it) as [[[it' o] d]|] eqn:E; [|done]. apply GetScriptOp_smaller in E. done.
Qed.

Lemma SerializeScriptCode_total s : is_Some (SerializeScriptCode s).
Proof.
  apply wp_is_Some with (λ _, True). unfold SerializeScriptCode. destruct (count_separators_total s) as [n ->].
  cbn [mbind option_bind]. eapply (wp_then _ _ (λ _, True)); [|by intros [[out it] b] _].
  apply (wp_loop_measure (λ _, True) (λ '(_, it, _), length it)); [done|lia|]. intros [[out it] b] _.
  destruct (GetScriptOp it) as [[[it' o] d]|] eqn:E; [|done]. apply GetScriptOp_smaller in E. by case_decide.
Qed.

Lemma mapM_total {A B} (f : A → option B) l : (∀ x, x ∈ l → is_Some (f x)) → is_Some (mapM f l).
Proof.
  induction l as [|x l IH]; intros H; [eauto|]. cbn [mapM]. destruct (H x) as [y ->]; [left|].
  destruct IH as [k ->]; [intros z Hz; apply H; by right|]. cbn. eauto.
Qed.

Lemma tx_serialize_total txTo code nIn ht : (nIn < length (vin txTo))%nat →
  (Z.land ht 0x1f =? SIGHASH_SINGLE) && (length (vout txTo) <=? nIn)%nat = false → is_Some (tx_serialize txTo code nIn ht).
Proof.
  intros Hn Hs. unfold tx_serialize. destruct (SerializeScriptCode_total code) as [sc Hsc].
  destruct (mapM_total (SerializeInput txTo code nIn ht)
    (seq 0 (if negb (Z.land ht SIGHASH_ANYONECANPAY =? 0) then 1 else length (vin txTo)))) as [ins ->].
  { intros i Hi. apply elem_of_seq in Hi. unfold SerializeInput.
    set (j := if negb (Z.land ht SIGHASH_ANYONECANPAY =? 0) then nIn else i).
    assert (Hj : (j < length (vin txTo))%nat) by (unfold j; destruct (negb _); lia).
    destruct (lookup_lt_is_Some_2 _ _ Hj) as [txin ->]. cbn [mbind option_bind].
    case_decide; [cbn; eauto|]. rewrite Hsc. cbn. eauto. }
  cbn [mbind option_bind].
  destruct (mapM_total (SerializeOutput txTo nIn ht)
    (seq 0 (if Z.land ht 0x1f =? SIGHASH_NONE then 0 else
            if Z.land ht 0x1f =? SIGHASH_SINGLE then nIn + 1 else length (vout txTo)))) as [outs ->]; [|cbn; eauto].
  intros i Hi. apply elem_of_seq in Hi. unfold SerializeOutput.
  destruct (Z.land ht 0x1f =? SIGHASH_NONE); [lia|]. destruct (Z.land ht 0x1f =? SIGHASH_SINGLE).
  - cbn [andb] in *. apply Nat.leb_gt in Hs. case_bool_decide; [eauto|].
    destruct (lookup_lt_is_Some_2 (vout txTo) i) as [o ->]; [lia|cbn; eauto].
  - cbn [andb]. destruct (lookup_lt_is_Some_2 (vout txTo) i) as [o ->]; [lia|cbn; eauto].
Qed.

Section hashes.
Context {C : NodeCrypto} {L : NodeCryptoLaws C}.

Lemma SignatureHash_total code txTo nIn ht amount v cache : (nIn < length (vin txTo))%nat →
  is_Some (SignatureHash code txTo nIn ht amount v cache).
Proof.
  intros Hn. unfold SignatureHash. destruct (lookup_lt_is_Some_2 _ _ Hn) as [txin ->]. cbn [mbind option_bind].
  case_decide; [eauto|]. destruct (_ && _) eqn:E; [eauto|]. destruct (tx_serialize_total txTo code nIn ht Hn E) as [t ->].
  cbn. eauto.
Qed.

Lemma SignatureHash_bytes code txTo nIn ht amount v cache h :
  SignatureHash code txTo nIn ht amount v cache = Some h → length h = 32%nat ∧ bytes h.
Proof using L.
  unfold SignatureHash. destruct (vin txTo !! nIn); [|done]. cbn [mbind option_bind].
  assert (H : ∀ x, length (CHash256 x) = 32%nat ∧ bytes (CHash256 x)).
  { intros. split; [apply length_CSHA256|apply CSHA256_bytes]. }
  case_decide; [intros [= <-]; apply H|]. destruct (_ && _).
  - intros [= <-]. split; [done|]. unfold uint256_ONE. constructor; [unfold in_u8; lia|]. apply Forall_replicate. unfold in_u8. lia.
  - destruct (tx_serialize _ _ _ _); [|done]. intros [= <-]. apply H.
Qed.

(** ** Precomputed data *)

(** What [Init] establishes: hashes that are flagged as ready are those of the
    transaction. *)
Definition cache_of (d : PrecomputedTransactionData) (txTo : CTransaction) : Prop :=
  (m_bip143_segwit_ready d = true →
   hashPrevouts d = SHA256Uint256 (GetPrevoutsSHA256 txTo) ∧ hashSequence d = SHA256Uint256 (GetSequencesSHA256 txTo) ∧
   hashOutputs d = SHA256Uint256 (GetOutputsSHA256 txTo)) ∧
  (m_bip341_taproot_ready d = true →
   m_prevouts_single_hash d = GetPrevoutsSHA256 txTo ∧ m_sequences_single_hash d = GetSequencesSHA256 txTo ∧
   m_outputs_single_hash d = GetOutputsSHA256 txTo ∧ m_spent_outputs_ready d = true ∧
   m_spent_amounts_single_hash d = GetSpentAmountsSHA256 (m_spent_outputs d) ∧
   m_spent_scripts_single_hash d = GetSpentScriptsSHA256 (m_spent_outputs d)).

(** The scan of the inputs returns, and reports segwit for an input with a witness
    unless it is a Taproot spend. *)
Lemma uses_features_ok txTo spent ready force : (ready = true → length spent = length (vin txTo)) →
  ∃ segwit taproot, uses_features txTo spent ready force = Some (segwit, taproot) ∧
  (force = true → segwit = true ∧ taproot = true) ∧
  (∀ i txin, vin txTo !! i = Some txin → scriptWitness txin ≠ [] → segwit = true ∨ taproot = true) ∧
  (ready = false → (∃ i txin, vin txTo !! i = Some txin ∧ scriptWitness txin ≠ []) → segwit = true).
Proof.
  intros Hr.
  set (n := length (vin txTo)) in *.
  assert (W : wp (uses_features txTo spent ready force) (λ '(segwit, taproot),
    (force = true → segwit = true ∧ taproot = true) ∧
    (∀ i txin, vin txTo !! i = Some txin → scriptWitness txin ≠ [] → segwit = true ∨ taproot = true) ∧
    (ready = false → (∃ i txin, vin txTo !! i = Some txin ∧ scriptWitness txin ≠ []) → segwit = true))).
  2:{ destruct (uses_features _ _ _ _) as [[s t]|]; [|done]. exists s, t. by split. }
  unfold uses_features. fold n.
  apply (wp_loop_measure (λ '(k, segwit, taproot), (k <= n)%nat ∧ (force = true → segwit = true ∧ taproot = true) ∧
    (∀ i txin, (i < k)%nat → vin txTo !! i = Some txin → scriptWitness txin ≠ [] → segwit = true ∨ taproot = true) ∧
    (ready = false → taproot = true → segwit = true) ∧
    (ready = false → ∀ i txin, (i < k)%nat → vin txTo !! i = Some txin → scriptWitness txin ≠ [] → segwit = true))
    (λ '(k, _, _), n - k)%nat).
  { split_and!; try done; [lia|intros; lia|intros; lia]. }
  { lia. }
  intros [[k s] t] (Hk & Hf & Hw & Hst & Hs). destruct ((k <? n)%nat && negb (s && t)) eqn:E.
  - apply andb_true_iff in E as [Hkn%Nat.ltb_lt Hnt]. destruct (lookup_lt_is_Some_2 (vin txTo) k Hkn) as [txin Ht].
    rewrite Ht. cbn [mbind option_bind]. destruct (scriptWitness txin) as [|w ws] eqn:Ew.
    + cbn [wp]. split; [|lia]. split_and!; [lia|done| |done|].
      * intros i ti Hi Hti Hne. destruct (decide (i = k)) as [->|]; [congruence|]. eapply Hw; [|done|done]. lia.
      * intros Hre i ti Hi Hti Hne. destruct (decide (i = k)) as [->|]; [congruence|]. eapply Hs; [done| |done|done]. lia.
    + assert (Htr : ∃ tr, (if ready then o ← spent !! k; Some ((size (scriptPubKey o) =? 2 + WITNESS_V1_TAPROOT_SIZE) &&
        byte_at (scriptPubKey o) 0 (Z.eqb (op_num OP_1))) else Some false) = Some tr ∧ (ready = false → tr = false)).
      { destruct ready; [|eauto]. destruct (lookup_lt_is_Some_2 spent k) as [o ->]; [by rewrite Hr|]. cbn. eexists. split; [reflexivity|done]. }
      destruct Htr as (tr & -> & Hrf). cbn [mbind option_bind wp]. split; [|lia]. split_and!; [lia| | | |].
      * intros H. destruct (Hf H) as [-> ->]. done.
      * intros _ _ _ _ _. destruct s, t, tr; auto.
      * intros Hre. rewrite (Hrf Hre), orb_false_r. cbn [negb]. by rewrite orb_true_r.
      * intros Hre _ _ _ _ _. rewrite (Hrf Hre). by rewrite orb_true_r.
  - cbn [wp]. split; [done|]. apply andb_false_iff in E as [E|E].
    + apply Nat.ltb_ge in E. split.
      * intros i ti Hti Hne. eapply Hw; [|done|done]. apply lookup_lt_Some in Hti. fold n in Hti. lia.
      * intros Hre (i & ti & Hti & Hne). eapply Hs; [done| |done|done]. apply lookup_lt_Some in Hti. fold n in Hti. lia.
    + apply negb_false_iff, andb_true_iff in E as [-> ->]. auto.
Qed.

Lemma Init_ok txTo spent force : (spent ≠ [] → length spent = length (vin txTo)) →
  ∃ d, Init PrecomputedTransactionData_default txTo spent force = Some d ∧ cache_of d txTo ∧
  (force = true → m_bip143_segwit_ready d = true).
Proof.
  intros Hl. unfold Init. cbn [m_spent_outputs_ready PrecomputedTransactionData_default].
  assert (bool_decide (spent ≠ []) && negb (length spent =? length (vin txTo))%nat = false) as ->.
  { case_bool_decide as H; [|done]. rewrite (Hl H), Nat.eqb_refl. done. }
  destruct (uses_features_ok txTo spent (bool_decide (spent ≠ [])) force) as (s & t & -> & Hf & _).
  { intros H%bool_decide_eq_true. auto. }
  cbn [mbind option_bind]. eexists. split; [reflexivity|]. split; [|intros H; destruct (Hf H) as [-> _]; done].
  split; cbn [m_bip143_segwit_ready m_bip341_taproot_ready]; rewrite orb_false_r.
  - intros ->. cbn [orb hashPrevouts hashSequence hashOutputs]. done.
  - intros [-> Hr]%andb_true_iff. rewrite orb_true_r, Hr. done.
Qed.

Lemma SignatureHash_cached code txTo nIn ht amount v d : cache_of d txTo →
  SignatureHash code txTo nIn ht amount v (Some d) = SignatureHash code txTo nIn ht amount v None.
Proof.
  intros [Hd _]. unfold SignatureHash. destruct (vin txTo !! nIn) as [txin|]; [|done]. cbn [mbind option_bind].
  case_decide; [|done]. destruct (m_bip143_segwit_ready d); [|done]. destruct (Hd eq_refl) as (-> & -> & ->). done.
Qed.

(** C29 Precomputed data is exact: for every transaction, every list of spent outputs
    that is empty or has one for each input, and whether or not everything is
    precomputed, [Init] returns, and every signature hash computed with the result
    is defined and is the one computed without. *)
Theorem sighash_cache_exact (txTo : CTransaction) (spent : list CTxOut) (force : bool) (code : list Z) (nIn : nat)
    (ht amount : Z) (v : SigVersion) :
  (spent ≠ [] → length spent = length (vin txTo)) → (nIn < length (vin txTo))%nat →
  ∃ d h, Init PrecomputedTransactionData_default txTo spent force = Some d ∧
  SignatureHash code txTo nIn ht amount v (Some d) = Some h ∧
  SignatureHash code txTo nIn ht amount v None = Some h ∧ length h = 32%nat.
Proof using L.
  intros Hl Hn. destruct (Init_ok txTo spent force Hl) as (d & Hd & Hc & _).
  destruct (SignatureHash_total code txTo nIn ht amount v None Hn) as [h Hh]. exists d, h.
  rewrite (SignatureHash_cached _ _ _ _ _ _ _ Hc). split_and!; [done|done|done|by eapply SignatureHash_bytes].
Qed.
End hashes.

(** ** Commitment *)

Definition in_i64 (x : Z) : Prop := - 2 ^ 63 <= x < 2 ^ 63.

(** Transactions whose fields are in the ranges of their types. *)
Record wf_tx (t : CTransaction) : Prop := {
  wf_version : in_u32 (version t);
  wf_locktime : in_u32 (nLockTime t);
  wf_vin : Forall (λ i, length (op_hash (prevout i)) = 32%nat ∧ in_u32 (op_n (prevout i)) ∧ in_u32 (nSequence i)) (vin t);
  wf_vout : Forall (λ o, in_i64 (nValue o) ∧ size (scriptPubKey o) < 2 ^ 64) (vout t);
}.

Lemma le_bytes_inj k lo x y : lo <= x < lo + 2 ^ (8 * Z.of_nat k) → lo <= y < lo + 2 ^ (8 * Z.of_nat k) →
  le_bytes k x = le_bytes k y → x = y.
Proof.
  intros Hx Hy E. apply (f_equal le_val) in E. rewrite !le_val_le_bytes in E.
  set (m := 2 ^ (8 * Z.of_nat k)) in *. assert (Hm : 0 < m) by (unfold m; apply Z.pow_pos_nonneg; lia).
  pose proof (Z.div_mod x m) as Dx. pose proof (Z.div_mod y m) as Dy. rewrite E in Dx.
  assert (x - y = m * (x / m - y / m)) by lia. assert (- m < x - y < m) by lia.
  assert (x / m = y / m) by nia. lia.
Qed.
Lemma le32_inj x y : in_u32 x → in_u32 y → le_bytes 4 x = le_bytes 4 y → x = y.
Proof. unfold in_u32. intros. apply (le_bytes_inj 4 0); [simpl; lia|simpl; lia|done]. Qed.
Lemma le64_inj x y : in_i64 x → in_i64 y → le_bytes 8 x = le_bytes 8 y → x = y.
Proof. unfold in_i64. intros. apply (le_bytes_inj 8 (- 2 ^ 63)); [simpl; lia|simpl; lia|done]. Qed.

(** Fields of equal lengths in front of equal strings are equal. *)
Lemma app_fixed {A} (a b r s : list A) : length a = length b → a ++ r = b ++ s → a = b ∧ r = s.
Proof. intros. by apply app_inj_1. Qed.

Lemma le_fixed k x y r s : le_bytes k x ++ r = le_bytes k y ++ s → le_bytes k x = le_bytes k y ∧ r = s.
Proof. intros. apply app_fixed; [by rewrite !length_le_bytes|done]. Qed.

(** A size is a prefix code. *)
Lemma compact_size_inj n m r s : in_u64 n → in_u64 m → compact_size n ++ r = compact_size m ++ s → n = m ∧ r = s.
Proof.
  assert (K : ∀ (k : nat) x y, 0 <= x < 2 ^ (8 * Z.of_nat k) → 0 <= y < 2 ^ (8 * Z.of_nat k) →
    le_bytes k x ++ r = le_bytes k y ++ s → x = y ∧ r = s).
  { intros k x y Hx Hy [E ->]%le_fixed. split; [|done]. by apply (le_bytes_inj k 0); rewrite ?Z.add_0_l. }
  unfold in_u64, compact_size. intros Hn Hm.
  destruct (Z.ltb_spec n 253), (Z.ltb_spec m 253); cbn [app].
  { by intros [= -> ->]. }
  { repeat case_match; cbn [app]; intros [= E _]; lia. }
  { repeat case_match; cbn [app]; intros [= E _]; lia. }
  destruct (Z.leb_spec n 65535), (Z.leb_spec m 65535); cbn [app].
  { intros E. apply (K 2%nat); [simpl; lia|simpl; lia|exact (f_equal (@tl Z) E)]. }
  { case_match; cbn [app]; intros [=]. }
  { case_match; cbn [app]; intros [=]. }
  destruct (Z.leb_spec n 4294967295), (Z.leb_spec m 4294967295); cbn [app]; intros E;
    [|by injection E..|].
  - apply (K 4%nat); [simpl; lia|simpl; lia|exact (f_equal (@tl Z) E)].
  - apply (K 8%nat); [simpl; lia|simpl; lia|exact (f_equal (@tl Z) E)].
Qed.

Lemma ser_script_inj a b r s : size a < 2 ^ 64 → size b < 2 ^ 64 → ser_script a ++ r = ser_script b ++ s → a = b ∧ r = s.
Proof.
  intros Ha Hb. unfold ser_script. rewrite <-!app_assoc. intros [E E2]%compact_size_inj;
    [|unfold in_u64, size in *; lia|unfold in_u64, size in *; lia].
  apply app_fixed; [unfold size in E; lia|done].
Qed.

Lemma ser_outpoint_inj a b r s : length (op_hash a) = 32%nat → length (op_hash b) = 32%nat →
  in_u32 (op_n a) → in_u32 (op_n b) → ser_outpoint a ++ r = ser_outpoint b ++ s → a = b ∧ r = s.
Proof.
  intros La Lb Ha Hb. unfold ser_outpoint. rewrite <-!app_assoc. intros [E E2]%app_fixed; [|congruence].
  apply le_fixed in E2 as [E2 ->]. apply le32_inj in E2; [|done|done]. split; [|done]. destruct a, b. cbn in *. by subst.
Qed.

Lemma ser_txout_inj a b r s : in_i64 (nValue a) → in_i64 (nValue b) → size (scriptPubKey a) < 2 ^ 64 →
  size (scriptPubKey b) < 2 ^ 64 → ser_txout a ++ r = ser_txout b ++ s → a = b ∧ r = s.
Proof.
  intros Ha Hb Sa Sb. unfold ser_txout. rewrite <-!app_assoc. intros [E E2]%le_fixed. apply le64_inj in E; [|done|done].
  apply ser_script_inj in E2 as [E2 ->]; [|done|done]. split; [|done]. destruct a, b. cbn in *. by subst.
Qed.

(** A code whose words are prefix-free and not empty is injective on lists. *)
Lemma concat_inj {A B} (f : A → list Z) (g : A → B) (P : A → Prop) l l' :
  (∀ a, P a → f a ≠ []) → (∀ a b r s, P a → P b → f a ++ r = f b ++ s → g a = g b ∧ r = s) →
  Forall P l → Forall P l' → concat (f <$> l) = concat (f <$> l') → g <$> l = g <$> l'.
Proof.
  intros Hne Hinj Hl. revert l'. induction Hl as [|a l Ha Hl IH]; intros [|b l'] Hl'; cbn [fmap list_fmap concat]; [done| | |].
  - apply Forall_cons_1 in Hl' as [Hb _]. intros E. symmetry in E. apply app_nil in E as [E _]. by destruct (Hne b Hb).
  - intros E. apply app_nil in E as [E _]. by destruct (Hne a Ha).
  - apply Forall_cons_1 in Hl' as [Hb Hl']. intros E. destruct (Hinj _ _ _ _ Ha Hb E) as [-> E2]. f_equal. by apply IH.
Qed.

(** ** What a hash of type SIGHASH_ALL of a version 0 witness hashes *)
Section commitment.
Context {C : NodeCrypto} {L : NodeCryptoLaws C}.

Definition prevouts_data (t : CTransaction) : list Z := concat ((λ i, ser_outpoint (prevout i)) <$> vin t).
Definition sequences_data (t : CTransaction) : list Z := concat ((λ i, le_bytes 4 (nSequence i)) <$> vin t).
Definition outputs_data (t : CTransaction) : list Z := concat (ser_txout <$> vout t).
Definition all_preimage (code : list Z) (t : CTransaction) (txin : CTxIn) (amount : Z) : list Z :=
  le_bytes 4 (version t) ++ CHash256 (prevouts_data t) ++ CHash256 (sequences_data t) ++ ser_outpoint (prevout txin) ++
  ser_script code ++ le_bytes 8 amount ++ le_bytes 4 (nSequence txin) ++ CHash256 (outputs_data t) ++
  le_bytes 4 (nLockTime t) ++ le_bytes 4 SIGHASH_ALL.

(** The strings that [CSHA256] is applied to. *)
Definition hashed (code : list Z) (t : CTransaction) (nIn : nat) (amount : Z) : list (list Z) :=
  let strings := [prevouts_data t; sequences_data t; outputs_data t] ++
    match vin t !! nIn with Some txin => [all_preimage code t txin amount] | None => [] end in
  strings ++ (CSHA256 <$> strings).

Lemma SignatureHash_all code t nIn amount txin : vin t !! nIn = Some txin →
  SignatureHash code t nIn SIGHASH_ALL amount WITNESS_V0 None = Some (CHash256 (all_preimage code t txin amount)).
Proof. intros E. unfold SignatureHash. rewrite E. done. Qed.

(** Two lists of strings have a collision. *)
Definition collision (a b : list (list Z)) : Prop := ∃ x y, x ∈ a ∧ y ∈ b ∧ x ≠ y ∧ CSHA256 x = CSHA256 y.

Lemma double_hash a b x y : x ∈ a → CSHA256 x ∈ a → y ∈ b → CSHA256 y ∈ b → CHash256 x = CHash256 y → x = y ∨ collision a b.
Proof.
  intros Hx Hx2 Hy Hy2 E. destruct (decide (x = y)) as [|Hne]; [by left|right].
  destruct (decide (CSHA256 x = CSHA256 y)) as [E2|Hne2]; [by exists x, y|by exists (CSHA256 x), (CSHA256 y)].
Qed.

Lemma length_CHash256 x : length (CHash256 x) = 32%nat.
Proof using L. apply length_CSHA256. Qed.

(** C14 A signature hash of type SIGHASH_ALL commits to the spend: if two spends, of
    transactions with fields in range, have the same hash, then they agree on the
    version, the outputs, the lock time, the outpoints and sequence numbers of all
    inputs, and on the outpoint, script code and amount of the input that is
    signed; or the strings that were hashed for them give a collision of SHA-256. *)
Theorem sighash_commits (t t' : CTransaction) (code code' : list Z) (nIn nIn' : nat) (amount amount' : Z) (h : list Z) :
  wf_tx t → wf_tx t' → size code < 2 ^ 64 → size code' < 2 ^ 64 → in_i64 amount → in_i64 amount' →
  SignatureHash code t nIn SIGHASH_ALL amount WITNESS_V0 None = Some h →
  SignatureHash code' t' nIn' SIGHASH_ALL amount' WITNESS_V0 None = Some h →
  (version t = version t' ∧ vout t = vout t' ∧ nLockTime t = nLockTime t' ∧
   (prevout <$> vin t) = (prevout <$> vin t') ∧ (nSequence <$> vin t) = (nSequence <$> vin t') ∧
   (prevout <$> vin t !! nIn) = (prevout <$> vin t' !! nIn') ∧ code = code' ∧ amount = amount') ∨
  collision (hashed code t nIn amount) (hashed code' t' nIn' amount').
Proof using L.
  intros [V1 T1 I1 O1] [V2 T2 I2 O2] Sc Sc' Ha Ha' E E'.
  destruct (vin t !! nIn) as [txin|] eqn:Ei; [|by unfold SignatureHash in E; rewrite Ei in E].
  destruct (vin t' !! nIn') as [txin'|] eqn:Ei'; [|by unfold SignatureHash in E'; rewrite Ei' in E'].
  rewrite (SignatureHash_all _ _ _ _ _ Ei) in E. rewrite (SignatureHash_all _ _ _ _ _ Ei') in E'.
  destruct (Forall_lookup_1 _ _ _ _ I1 Ei) as (Lh & Ln & Ls). destruct (Forall_lookup_1 _ _ _ _ I2 Ei') as (Lh' & Ln' & Ls').
  unfold hashed. rewrite Ei, Ei'. cbn [app fmap list_fmap].
  match goal with |- _ ∨ collision ?x ?y => set (A := x); set (B := y) end.
  assert (DH : ∀ x y, CHash256 x = CHash256 y → x ∈ A ∧ CSHA256 x ∈ A → y ∈ B ∧ CSHA256 y ∈ B → x = y ∨ collision A B)
    by (intros ? ? ? [] []; by apply double_hash).
  assert (Eh : CHash256 (all_preimage code t txin amount) = CHash256 (all_preimage code' t' txin' amount')) by congruence.
  destruct (DH _ _ Eh ltac:(unfold A; repeat constructor) ltac:(unfold B; repeat constructor)) as [P|]; [|by right].
  unfold all_preimage in P.
  apply le_fixed in P as [Pv P]. apply app_fixed in P as [Pp P]; [|by rewrite !length_CHash256].
  apply app_fixed in P as [Ps P]; [|by rewrite !length_CHash256].
  apply ser_outpoint_inj in P as [Po P]; [|done..]. apply ser_script_inj in P as [Pc P]; [|done..].
  apply le_fixed in P as [Pa P]. apply le_fixed in P as [Pq P]. apply app_fixed in P as [Pt P]; [|by rewrite !length_CHash256].
  apply le_fixed in P as [Pl _].
  destruct (DH _ _ Pp ltac:(unfold A; repeat constructor) ltac:(unfold B; repeat constructor)) as [Dp|]; [|by right].
  destruct (DH _ _ Ps ltac:(unfold A; repeat constructor) ltac:(unfold B; repeat constructor)) as [Ds|]; [|by right].
  destruct (DH _ _ Pt ltac:(unfold A; repeat constructor) ltac:(unfold B; repeat constructor)) as [Dt|]; [|by right].
  left. split_and!; [by apply le32_inj| |by apply le32_inj| | |cbn; congruence|done|by apply le64_inj].
  - rewrite <-(list_fmap_id (vout t)), <-(list_fmap_id (vout t')). revert O1 O2 Dt. apply (concat_inj ser_txout id).
    + intros o _ Hn. by apply (f_equal length) in Hn.
    + intros a b r s [? ?] [? ?]. by apply ser_txout_inj.
  - revert I1 I2 Dp. apply (concat_inj (λ i, ser_outpoint (prevout i)) prevout).
    + intros i (Hl & _) Hn. apply (f_equal length) in Hn. unfold ser_outpoint in Hn. rewrite length_app, Hl in Hn. done.
    + intros a b r s (? & ? & _) (? & ? & _). by apply ser_outpoint_inj.
  - revert I1 I2 Ds. apply (concat_inj (λ i, le_bytes 4 (nSequence i)) nSequence).
    + intros i _ Hn. by apply (f_equal length) in Hn.
    + intros a b r s (_ & _ & ?) (_ & _ & ?) [E1 ->]%le_fixed. split; [|done]. by apply le32_inj.
Qed.
End commitment.

(** ** Instances *)

#[local] Existing Instance test_crypto.

(** A transaction with an input and an output. *)
Definition test_tx (v : Z) : CTransaction := {|
  vin := [{| prevout := {| op_hash := replicate 32 5; op_n := 1 |}; scriptSig := []; nSequence := 7; scriptWitness := [[1]] |}];
  vout := [{| nValue := 1000; scriptPubKey := [0x51] |}];
  version := v;
  nLockTime := 0 |}.

Lemma wf_test_tx v : in_u32 v → wf_tx (test_tx v).
Proof.
  intros Hv. split; [done|split; cbn; lia| |].
  - apply Forall_cons_2; [|apply Forall_nil_2]. split_and!; [done|split; cbn; lia|split; cbn; lia].
  - apply Forall_cons_2; [|apply Forall_nil_2]. split; [split; cbn; lia|done].
Qed.

Lemma sighash_cache_exact_witness : ∃ d h,
  Init PrecomputedTransactionData_default (test_tx 2) [] false = Some d ∧ m_bip143_segwit_ready d = true ∧
  SignatureHash [0x51] (test_tx 2) 0 SIGHASH_ALL 1000 WITNESS_V0 (Some d) = Some h.
Proof.
  destruct (sighash_cache_exact (test_tx 2) [] false [0x51] 0 SIGHASH_ALL 1000 WITNESS_V0) as (d & h & E & H & _);
    [done|cbn; lia|]. exists d, h. split; [exact E|]. split; [|exact H]. vm_compute in E. injection E as <-. reflexivity.
Defined.

Lemma sighash_commits_witness :
  collision (hashed [0x51] (test_tx 1) 0 1000) (hashed [0x51] (test_tx 2) 0 1000).
Proof.
  assert (H : ∀ v, SignatureHash [0x51] (test_tx v) 0 SIGHASH_ALL 1000 WITNESS_V0 None = Some (replicate 32 1)) by reflexivity.
  destruct (sighash_commits (test_tx 1) (test_tx 2) [0x51] [0x51] 0 0 1000 1000 (replicate 32 1)
    (wf_test_tx 1 ltac:(split; lia)) (wf_test_tx 2 ltac:(split; lia)) ltac:(done) ltac:(done) ltac:(split; lia) ltac:(split; lia)
    (H 1) (H 2)) as [[Hv _]|Hc]; [discriminate Hv|exact Hc].
Defined.
