(* ===== verification/TxChecker.v ===== *)
(** Checking signatures of a transaction (script/interpreter.cpp,
    [GenericTransactionSignatureChecker]; script/quantum_sigchecker.cpp,
    [QuantumTransactionSignatureChecker]): the checkers that the script
    interpreter calls.

    Theorems about the checkers: they do not crash, the two agree on what the
    interpreter passes, and exactly which quantum signatures the interpreter
    accepts. *)
From S2P Require Import Prelude SpxIface OqsSig KeccakP Sha3 Sha3Api MlArith MlKeys MlSig MlSign MlAttempt MlScheme MlToy MlDsa OqsMlDsa Serial QSig Script Node QPubKey Interp InterpP Verify QKey QKeyP Tx TxP.

Open Scope Z_scope.

Section checker.
Context {C : NodeCrypto} (callbacks : OQS_SHA3_callbacks) {U : Uninit} (fuel tries : nat).
Context {rng : Type} (GetStrongRandBytes : rng → nat → list Z * rng) (malloc_ok : bool).

(** The fields of the checker object; a null [txdata] is [None]. *)
Context (txTo : CTransaction) (m_mdb : MissingDataBehavior) (nIn : nat) (amount : Z)
  (txdata : option PrecomputedTransactionData).

(** The hash type is the last byte. *)
Definition pop_hashtype (vchSig : list Z) : option (list Z * Z) :=
  match rev vchSig with [] => None | t :: r => Some (rev r, t) end.

Definition tx_CheckECDSASignature (vchSigIn vchPubKey scriptCode : list Z) (sigversion : SigVersion) : outcome bool :=
  let pubkey := CPubKey_Set vchPubKey in
  if negb (CPubKey_IsValid pubkey) then Ok false else
  match pop_hashtype vchSigIn with
  | None => Ok false
  | Some (vchSig, nHashType) =>
      if bool_decide (sigversion = WITNESS_V0) && (amount <? 0) then HandleMissingData m_mdb else
      sighash ← or_crash (SignatureHash scriptCode txTo nIn nHashType amount sigversion txdata);
      Ok (CPubKey_Verify pubkey sighash vchSig)
  end.

(** Missing data that is no assertion failure leaves the error as the caller has it: on the
    key path the success that [EvalScript] set for the previous script, in a tapscript
    what [EvalScript] sets first. *)
Definition tx_CheckSchnorrSignature (sig pubkey_in : list Z) (sigversion : SigVersion) (e : ScriptExecutionData) : outcome unit :=
  if negb (bool_decide (sigversion = TAPROOT) || bool_decide (sigversion = TAPSCRIPT)) then Crash else
  if negb (size pubkey_in =? 32) then Crash else
  if negb (size sig =? 64) && negb (size sig =? 65) then SErr SCRIPT_ERR_SCHNORR_SIG_SIZE else
  '(sig, hashtype) ←
    (if size sig =? 65 then
       '(sig, hashtype) ← or_crash (pop_hashtype sig);
       if hashtype =? SIGHASH_DEFAULT then SErr SCRIPT_ERR_SCHNORR_SIG_HASHTYPE else Ok (sig, hashtype)
     else Ok (sig, SIGHASH_DEFAULT));
  match txdata with
  | None => _ ← HandleMissingData m_mdb; SErr (if bool_decide (sigversion = TAPROOT) then SCRIPT_ERR_OK else SCRIPT_ERR_UNKNOWN_ERROR)
  | Some cache =>
      sighash ← SignatureHashSchnorr e txTo nIn hashtype sigversion cache m_mdb;
      match sighash with
      | None => SErr SCRIPT_ERR_SCHNORR_SIG_HASHTYPE
      | Some sighash =>
          if negb (VerifySchnorr pubkey_in sighash sig) then SErr SCRIPT_ERR_SCHNORR_SIG else Ok tt
      end
  end.

(** The key type of a scheme. *)
Definition scheme_key_type (scheme_id : Z) : option KeyType :=
  if scheme_id =? SCHEME_ML_DSA_65 then Some ML_DSA_65
  else if scheme_id =? SCHEME_SLH_DSA_192F then Some SLH_DSA_192F
  else None.

Definition tx_CheckQuantumSignature (vchSig vchPubKey scriptCode : list Z) (sigversion : SigVersion) (scheme_id : Z)
    : outcome bool :=
  match scheme_key_type scheme_id with
  | None => Ok false
  | Some keyType =>
      let pubkey := {| pk_type := keyType; m_vchPubKey := vchPubKey |} in
      if negb (CQuantumPubKey_IsValid pubkey) then Ok false else
      match vchSig with
      | [] => Ok false
      | b :: r =>
          let vchSigNoAlgoId := if b =? scheme_id then r else vchSig in
          let '(vchSigNoHashType, nHashType) :=
            match pop_hashtype vchSigNoAlgoId with Some p => p | None => ([], SIGHASH_ALL) end in
          if bool_decide (sigversion = WITNESS_V0) && (amount <? 0) then HandleMissingData m_mdb else
          sighash ← or_crash (SignatureHash scriptCode txTo nIn nHashType amount sigversion txdata);
          CQuantumKey_Verify callbacks fuel tries GetStrongRandBytes malloc_ok sighash vchSigNoHashType pubkey
      end
  end.

Definition tx_CheckLockTime (nLockTime' : Z) : outcome bool :=
  if negb ((nLockTime txTo <? LOCKTIME_THRESHOLD) && (nLockTime' <? LOCKTIME_THRESHOLD) ||
           (LOCKTIME_THRESHOLD <=? nLockTime txTo) && (LOCKTIME_THRESHOLD <=? nLockTime')) then Ok false else
  if nLockTime txTo <? nLockTime' then Ok false else
  txin ← or_crash (vin txTo !! nIn);
  Ok (negb (SEQUENCE_FINAL =? nSequence txin)).

Definition tx_CheckSequence (nSequence' : Z) : outcome bool :=
  txin ← or_crash (vin txTo !! nIn);
  let txToSequence := nSequence txin in
  if version txTo <? 2 then Ok false else
  if negb (Z.land txToSequence SEQUENCE_LOCKTIME_DISABLE_FLAG =? 0) then Ok false else
  let nLockTimeMask := Z.lor SEQUENCE_LOCKTIME_TYPE_FLAG SEQUENCE_LOCKTIME_MASK in
  let txToSequenceMasked := Z.land txToSequence nLockTimeMask in
  let nSequenceMasked := Z.land nSequence' nLockTimeMask in
  if negb ((txToSequenceMasked <? SEQUENCE_LOCKTIME_TYPE_FLAG) && (nSequenceMasked <? SEQUENCE_LOCKTIME_TYPE_FLAG) ||
           (SEQUENCE_LOCKTIME_TYPE_FLAG <=? txToSequenceMasked) && (SEQUENCE_LOCKTIME_TYPE_FLAG <=? nSequenceMasked))
  then Ok false else
  Ok (negb (txToSequenceMasked <? nSequenceMasked)).

(** The virtual functions of [GenericTransactionSignatureChecker]. *)
Definition tx_checker : BaseSignatureChecker := {|
  CheckECDSASignature := tx_CheckECDSASignature;
  CheckSchnorrSignature := tx_CheckSchnorrSignature;
  CheckLockTime := tx_CheckLockTime;
  CheckSequence := tx_CheckSequence;
  CheckQuantumSignature := tx_CheckQuantumSignature;
|}.

(** The override of [QuantumTransactionSignatureChecker]. *)
Definition q_CheckQuantumSignature (vchSig vchPubKey scriptCode : list Z) (sigversion : SigVersion) (scheme_id : Z)
    : outcome bool :=
  match scheme_key_type scheme_id with
  | None => Ok false
  | Some keyType =>
      let pubkey := {| pk_type := keyType; m_vchPubKey := vchPubKey |} in
      if negb (CQuantumPubKey_IsValid pubkey) then Ok false else
      match pop_hashtype vchSig with
      | None => Ok false
      | Some (_, nHashType) =>
          let vchSigNoHashType := if 2 <? size vchSig then take (length vchSig - 2) (drop 1 vchSig) else [] in
          sighash ← or_crash (SignatureHash scriptCode txTo nIn nHashType amount sigversion txdata);
          CQuantumKey_Verify callbacks fuel tries GetStrongRandBytes malloc_ok sighash vchSigNoHashType pubkey
      end
  end.

Definition q_checker : BaseSignatureChecker := {|
  CheckECDSASignature := tx_CheckECDSASignature;
  CheckSchnorrSignature := tx_CheckSchnorrSignature;
  CheckLockTime := tx_CheckLockTime;
  CheckSequence := tx_CheckSequence;
  CheckQuantumSignature := q_CheckQuantumSignature;
|}.
End checker.

Lemma pop_hashtype_app s t : pop_hashtype (s ++ [t]) = Some (s, t).
Proof. unfold pop_hashtype. rewrite rev_app_distr. cbn [rev app]. by rewrite rev_involutive. Qed.

Lemma pop_hashtype_Some v s t : pop_hashtype v = Some (s, t) → v = s ++ [t].
Proof.
  unfold pop_hashtype. destruct (rev v) as [|x r] eqn:E; [done|]. intros [= <- <-].
  apply (f_equal (@rev Z)) in E. by rewrite rev_involutive in E.
Qed.

Section checker.
Context {C : NodeCrypto} {L : NodeCryptoLaws C} (callbacks : OQS_SHA3_callbacks) {U : Uninit} (fuel tries : nat).
Context {rng : Type} (GetStrongRandBytes : rng → nat → list Z * rng) (malloc_ok : bool).
Context (txTo : CTransaction) (m_mdb : MissingDataBehavior) (nIn : nat) (amount : Z)
  (txdata : option PrecomputedTransactionData).
Abbreviation Verify := (CQuantumKey_Verify callbacks fuel tries GetStrongRandBytes malloc_ok).
Abbreviation tx_checker := (tx_checker callbacks fuel tries GetStrongRandBytes malloc_ok txTo m_mdb nIn amount txdata).
Abbreviation q_checker := (q_checker callbacks fuel tries GetStrongRandBytes malloc_ok txTo m_mdb nIn amount txdata).
Abbreviation tx_CheckQuantumSignature :=
  (tx_CheckQuantumSignature callbacks fuel tries GetStrongRandBytes malloc_ok txTo m_mdb nIn amount txdata).
Abbreviation q_CheckQuantumSignature :=
  (q_CheckQuantumSignature callbacks fuel tries GetStrongRandBytes malloc_ok txTo nIn amount txdata).

(** What the owner of a checker guarantees: the input exists, and data that is
    missing does not stop the node. *)
Record checker_ok : Prop := {
  ck_input : (nIn < length (vin txTo))%nat;
  ck_amount : 0 <= amount ∨ m_mdb = FAIL;
  ck_data : m_mdb = FAIL ∨ ∃ d, txdata = Some d ∧ m_bip341_taproot_ready d = true ∧ m_spent_outputs_ready d = true;
  ck_spent : ∀ d, txdata = Some d → m_spent_outputs_ready d = true → length (m_spent_outputs d) = length (vin txTo);
}.

Lemma sighash_safe code t v : checker_ok → safe (or_crash (SignatureHash code txTo nIn t amount v txdata)) (λ _, True).
Proof. intros H. destruct (SignatureHash_total code txTo nIn t amount v txdata (ck_input H)) as [h ->]. done. Qed.

Lemma missing_amount_safe b : checker_ok → b && (amount <? 0) = true → safe (HandleMissingData m_mdb) (λ _, True).
Proof. intros H [_ Hn%Z.ltb_lt]%andb_true_iff. destruct (ck_amount H) as [|E]; [lia|by rewrite E]. Qed.

Lemma schnorr_hash_total e t v d : checker_ok → txdata = Some d → v = TAPROOT ∨ v = TAPSCRIPT → m_annex_init e = true →
  (v = TAPSCRIPT → m_tapleaf_hash_init e = true ∧ m_codeseparator_pos_init e = true) →
  yields (SignatureHashSchnorr e txTo nIn t v d m_mdb) (λ _, True).
Proof.
  intros H Hd Hv Ha Ht. unfold SignatureHashSchnorr.
  assert (Hf : ∃ f, (match v with TAPROOT => Some 0 | TAPSCRIPT => Some 1 | _ => None end) = Some f)
    by (destruct Hv as [-> | ->]; eauto).
  destruct Hf as [f ->]. destruct (lookup_lt_is_Some_2 _ _ (ck_input H)) as [txin ->]. cbn [or_crash mbind outcome_bind].
  destruct (m_bip341_taproot_ready d && m_spent_outputs_ready d) eqn:Er; cbn [negb].
  2:{ destruct (ck_data H) as [->|(d' & E & E1 & E2)]; [done|]. rewrite E in Hd. injection Hd as <-. by rewrite E1, E2 in Er. }
  apply andb_true_iff in Er as [_ Er]. apply yields_if; [done|]. intros _. rewrite Ha. cbn [negb].
  apply yields_bind with (λ _, True).
  { apply yields_if; [|done]. intros _.
    destruct (lookup_lt_is_Some_2 (m_spent_outputs d) nIn) as [o ->]; [|done].
    rewrite (ck_spent H d Hd Er). apply (ck_input H). }
  intros inp _. destruct (if _ =? SIGHASH_SINGLE then _ else _) as [single|]; [|done].
  apply yields_bind with (λ _, True); [|done]. case_decide as Hs; [|done]. destruct (Ht Hs) as [-> ->]. done.
Qed.

(** The Schnorr signatures of a transaction are checked without a crash or an exception. *)
Lemma tx_schnorr_total sig pk v e : checker_ok → size pk = 32 → v = TAPROOT ∨ v = TAPSCRIPT → m_annex_init e = true →
  (v = TAPSCRIPT → m_tapleaf_hash_init e = true ∧ m_codeseparator_pos_init e = true) →
  yields (tx_CheckSchnorrSignature txTo m_mdb nIn txdata sig pk v e) (λ _, True).
Proof.
  intros H Hp Hvs Ha Ht. unfold tx_CheckSchnorrSignature.
  assert (bool_decide (v = TAPROOT) || bool_decide (v = TAPSCRIPT) = true) as -> by (by destruct Hvs as [-> | ->]).
  rewrite Hp. change (32 =? 32) with true. cbn [negb]. apply yields_if; [done|]. intros _.
  apply yields_bind with (λ _, True).
  { apply yields_if; [|done]. rewrite Z.eqb_eq. intros Hs. unfold pop_hashtype.
    destruct (rev sig) as [|t r] eqn:E; [|cbn; by case_match].
    apply (f_equal length) in E. rewrite length_rev in E. unfold size in Hs. rewrite E in Hs. done. }
  intros [s t] _. destruct txdata as [d|] eqn:Ed.
  - eapply yields_bind; [by apply schnorr_hash_total|]. intros [h|] _; [by case_match|done].
  - destruct (ck_data H) as [->|(d & E & _)]; [done|]. congruence.
Qed.

(** The checker of a transaction is safe, given that verification returns. *)
Lemma tx_checker_safe : checker_ok →
  (∀ h s p, length h = 32%nat → bytes h → bytes s → bytes (m_vchPubKey p) → Verify h s p ≠ Crash) → SafeChecker tx_checker.
Proof using L.
  intros H Hv. split; cbn [tx_checker CheckECDSASignature CheckSchnorrSignature CheckLockTime CheckSequence CheckQuantumSignature].
  - intros sig pk code v. unfold tx_CheckECDSASignature. apply safe_if; [done|]. intros _.
    destruct (pop_hashtype sig) as [[s t]|]; [|done]. apply safe_if; [by apply missing_amount_safe|]. intros _.
    eapply safe_bind; [by apply sighash_safe|]. done.
  - intros sig pk v e Hp Hvs Ha Ht. pose proof (tx_schnorr_total sig pk v e H Hp Hvs Ha Ht) as T.
    by destruct (tx_CheckSchnorrSignature _ _ _ _ _ _ _ _).
  - intros n. unfold tx_CheckLockTime. do 2 (apply safe_if; [done|]; intros _).
    destruct (lookup_lt_is_Some_2 _ _ (ck_input H)) as [txin ->]. done.
  - intros n. unfold tx_CheckSequence. destruct (lookup_lt_is_Some_2 _ _ (ck_input H)) as [txin ->].
    cbn [or_crash mbind outcome_bind]. by repeat case_match.
  - intros sig pk code v id Bs Bp. unfold TxChecker.tx_CheckQuantumSignature. destruct (scheme_key_type id) as [t|]; [|done].
    apply safe_if; [done|]. intros _. destruct sig as [|b r]; [done|].
    assert (Bn : bytes (if b =? id then r else b :: r)) by (case_match; [by apply Forall_cons_1 in Bs as []|done]).
    destruct (match pop_hashtype _ with Some _ => _ | None => _ end) as [s ht] eqn:Ep.
    assert (Bt : bytes s).
    { destruct (pop_hashtype _) as [[s' t']|] eqn:Eq; injection Ep as <- <-; [|apply Forall_nil_2].
      apply pop_hashtype_Some in Eq. rewrite Eq in Bn. by apply Forall_app in Bn as []. }
    apply safe_if; [by apply missing_amount_safe|]. intros _.
    destruct (SignatureHash_total code txTo nIn ht amount v txdata (ck_input H)) as [h Eh]. rewrite Eh.
    cbn [or_crash mbind outcome_bind]. apply SignatureHash_bytes in Eh as [Lh Bh].
    specialize (Hv h s {| pk_type := t; m_vchPubKey := pk |} Lh Bh Bt Bp). by destruct (Verify _ _ _).
Qed.

Lemma tx_checker_total : checker_ok →
  (∀ h s p, length h = 32%nat → bytes h → bytes s → bytes (m_vchPubKey p) → Verify h s p ≠ Crash) → TotalChecker tx_checker.
Proof using L. intros H Hv. split; [by apply tx_checker_safe|]. intros sig pk v e. by apply tx_schnorr_total. Qed.

Lemma scheme_key_type_quantum id t : scheme_key_type id = Some t →
  quantum t ∧ (if id =? 0x02 then Some ML_DSA_65 else if id =? 0x03 then Some SLH_DSA_192F else None) = Some t ∧ (id =? 0x01) = false.
Proof.
  unfold scheme_key_type, SCHEME_ML_DSA_65, SCHEME_SLH_DSA_192F, quantum.
  destruct (Z.eqb_spec id 0x02) as [->|]; [intros [= <-]; auto|]. destruct (Z.eqb_spec id 0x03) as [->|]; [intros [= <-]; auto|done].
Qed.

Lemma valid_pub_size t p : quantum t → CQuantumPubKey_IsValid {| pk_type := t; m_vchPubKey := p |} = true ↔ size p = pub_size t.
Proof. intros [-> | ->]; unfold CQuantumPubKey_IsValid; cbn [pk_type m_vchPubKey]; apply Z.eqb_eq. Qed.

Lemma Verify_nil h p : Verify h [] p = Ok false.
Proof. unfold CQuantumKey_Verify. by rewrite orb_true_r. Qed.

(** What the interpreter's function is on a signature with its algorithm. *)
Lemma EvalChecksigQuantum_eq (ck : BaseSignatureChecker) v id s pk code :
  EvalChecksigQuantum ck v (id :: s) pk code =
  match scheme_key_type id with
  | None => Ok false
  | Some t => if negb (size pk =? pub_size t) then Ok false else CheckQuantumSignature ck (id :: s) pk code v id
  end.
Proof.
  unfold EvalChecksigQuantum. destruct (scheme_key_type id) as [t|] eqn:E.
  - destruct (scheme_key_type_quantum id t E) as (Ht & -> & ->). 
    assert (CQuantumPubKey_IsValid {| pk_type := t; m_vchPubKey := pk |} = (size pk =? pub_size t)) as -> by (by destruct Ht as [-> | ->]).
    done.
  - unfold scheme_key_type, SCHEME_ML_DSA_65, SCHEME_SLH_DSA_192F in E. destruct (id =? 0x01); [done|].
    destruct (id =? 2); [done|]. by destruct (id =? 3).
Qed.

(** The checker on a signature [id :: s]: the rest is a signature and a hash type. *)
Lemma tx_CheckQuantumSignature_eq v id s pk code t : scheme_key_type id = Some t → size pk = pub_size t →
  tx_CheckQuantumSignature (id :: s) pk code v id =
  (let '(sig, ht) := match pop_hashtype s with Some p => p | None => ([], SIGHASH_ALL) end in
   if bool_decide (v = WITNESS_V0) && (amount <? 0) then HandleMissingData m_mdb else
   h ← or_crash (SignatureHash code txTo nIn ht amount v txdata);
   Verify h sig {| pk_type := t; m_vchPubKey := pk |}).
Proof.
  intros E Hp. unfold TxChecker.tx_CheckQuantumSignature. rewrite E.
  destruct (scheme_key_type_quantum id t E) as (Ht & _ & _). rewrite (proj2 (valid_pub_size t pk Ht) Hp). cbn [negb].
  by rewrite Z.eqb_refl.
Qed.

Lemma checksig_ex_lemma (v : SigVersion) (vchSig pk code : list Z) :
  EvalChecksigQuantum tx_checker v vchSig pk code = Ok true ↔
  ∃ id t s ht h, vchSig = id :: s ++ [ht] ∧ scheme_key_type id = Some t ∧ size pk = pub_size t ∧
  (v = WITNESS_V0 → 0 <= amount) ∧
  SignatureHash code txTo nIn ht amount v txdata = Some h ∧
  Verify h s {| pk_type := t; m_vchPubKey := pk |} = Ok true.
Proof.
  split.
  - destruct vchSig as [|id r]; [done|]. rewrite EvalChecksigQuantum_eq. destruct (scheme_key_type id) as [t|] eqn:E; [|done].
    destruct (Z.eqb_spec (size pk) (pub_size t)) as [Hp|]; [|done]. cbn [negb TxChecker.tx_checker CheckQuantumSignature].
    rewrite (tx_CheckQuantumSignature_eq _ _ _ _ _ _ E Hp). destruct (pop_hashtype r) as [[s ht]|] eqn:Er.
    + apply pop_hashtype_Some in Er as ->. destruct (bool_decide (v = WITNESS_V0) && (amount <? 0)) eqn:Ea.
      { by destruct m_mdb. }
      destruct (SignatureHash code txTo nIn ht amount v txdata) as [h|] eqn:Eh; [|done]. cbn [or_crash mbind outcome_bind].
      intros Hv. exists id, t, s, ht, h. split_and!; try done. intros ->. rewrite bool_decide_true in Ea by done.
      cbn [andb] in Ea. apply Z.ltb_ge in Ea. done.
    + destruct (bool_decide _ && _); [by destruct m_mdb|]. destruct (SignatureHash _ _ _ _ _ _ _); [|done].
      cbn [or_crash mbind outcome_bind]. by rewrite Verify_nil.
  - intros (id & t & s & ht & h & -> & E & Hp & Ha & Eh & Hv). rewrite EvalChecksigQuantum_eq, E, Hp, Z.eqb_refl.
    cbn [negb TxChecker.tx_checker CheckQuantumSignature]. rewrite (tx_CheckQuantumSignature_eq _ _ _ _ _ _ E Hp), pop_hashtype_app.
    assert (bool_decide (v = WITNESS_V0) && (amount <? 0) = false) as ->.
    { case_bool_decide as Hw; [|done]. apply Z.ltb_ge. auto. }
    rewrite Eh. cbn [or_crash mbind outcome_bind]. done.
Qed.

(** C24 OP_CHECKSIG_EX, exactly: for every string on the stack, the interpreter with
    the checker of a transaction accepts it as a signature for a public key if and
    only if it is an algorithm identifier, a signature and a hash type, the key has
    the size of the algorithm's public keys, and the signature verifies under the
    key for the transaction's signature hash of that type (whose amount is known if
    it is for a version 0 witness). *)
Theorem checksig_ex_exact (v : SigVersion) (vchSig pk code : list Z) :
  EvalChecksigQuantum tx_checker v vchSig pk code = Ok true ↔
  ∃ id t s ht h, vchSig = id :: s ++ [ht] ∧ scheme_key_type id = Some t ∧ size pk = pub_size t ∧
  (v = WITNESS_V0 → 0 <= amount) ∧
  SignatureHash code txTo nIn ht amount v txdata = Some h ∧
  Verify h s {| pk_type := t; m_vchPubKey := pk |} = Ok true.
Proof. apply checksig_ex_lemma. Qed.

(** The two checkers agree: on every signature, key and script, for an input that
    exists and an amount that is known, the interpreter's function for quantum
    signatures has the same result with [GenericTransactionSignatureChecker] and
    with the override of [QuantumTransactionSignatureChecker]. *)
Theorem quantum_checkers_agree (v : SigVersion) (vchSig pk code : list Z) :
  (nIn < length (vin txTo))%nat → 0 <= amount →
  EvalChecksigQuantum tx_checker v vchSig pk code = EvalChecksigQuantum q_checker v vchSig pk code.
Proof.
  intros Hn Ha. destruct vchSig as [|id r]; [done|]. rewrite !EvalChecksigQuantum_eq.
  destruct (scheme_key_type id) as [t|] eqn:E; [|done]. destruct (Z.eqb_spec (size pk) (pub_size t)) as [Hp|]; [|done].
  cbn [negb TxChecker.tx_checker TxChecker.q_checker CheckQuantumSignature]. rewrite (tx_CheckQuantumSignature_eq _ _ _ _ _ _ E Hp).
  unfold TxChecker.q_CheckQuantumSignature. rewrite E. destruct (scheme_key_type_quantum id t E) as (Ht & _ & _).
  rewrite (proj2 (valid_pub_size t pk Ht) Hp). cbn [negb]. rewrite (proj2 (Z.ltb_ge amount 0)) by lia. rewrite andb_false_r.
  assert (G : ∀ ht, ∃ h, SignatureHash code txTo nIn ht amount v txdata = Some h).
  { intros ht. by apply SignatureHash_total. }
  destruct (pop_hashtype r) as [[s ht]|] eqn:Er.
  - apply pop_hashtype_Some in Er as ->. rewrite app_comm_cons, pop_hashtype_app. destruct (G ht) as [h ->].
    cbn [or_crash mbind outcome_bind]. unfold size. rewrite length_app. cbn [length app]. change (drop 1 (id :: s ++ [ht])) with (s ++ [ht]).
    destruct (Z.ltb_spec 2 (Z.of_nat (S (length s) + 1))) as [H2|H2].
    + by rewrite take_app_length' by lia.
    + destruct s; [done|]. cbn [length] in H2. lia.
  - destruct r as [|x r]; [|unfold pop_hashtype in Er; cbn [rev] in Er; by destruct (rev r)].
    destruct (G SIGHASH_ALL) as [h ->]. cbn [pop_hashtype rev app]. destruct (G id) as [h' ->].
    cbn [or_crash mbind outcome_bind]. change (2 <? size [id]) with false. by rewrite !Verify_nil.
Qed.
End checker.

(** C15 The whole check of a spend is total: for all scripts and witnesses of bytes,
    [VerifyScript] with the checker of a transaction returns success or a script error;
    no exception leaves it, no assertion fails and no access is out of bounds.  The
    conditions: the flags are combined as the code asserts, the input exists, data that
    the caller did not supply is treated as a failure or not needed, and the two
    samplers of ML-DSA-65's verification have enough of their streams. *)
Theorem spend_check_total {C : NodeCrypto} {L : NodeCryptoLaws C} (callbacks : OQS_SHA3_callbacks)
    {SC : Sha3Contract callbacks} {U : Uninit} (fuel tries : nat) {rng : Type} (GetStrongRandBytes : rng → nat → list Z * rng)
    (txTo : CTransaction) (mdb : MissingDataBehavior) (nIn : nat) (amount : Z) (txdata : option PrecomputedTransactionData)
    (flags : Z) (sig pub : list Z) (witness : option (list (list Z))) :
  (∀ g n, (n <= MAX_BYTES_PER_CALL)%nat → length (GetStrongRandBytes g n).1 = n ∧ bytes (GetStrongRandBytes g n).1) →
  (∀ pk s, length pk = CRYPTO_PUBLICKEYBYTES → bytes pk → length s = CRYPTO_BYTES → bytes s → verify_samples callbacks fuel pk s) →
  checker_ok txTo mdb nIn amount txdata → flags_ok flags →
  bytes sig → bytes pub → Forall bytes (default [] witness) → Z.of_nat (length (default [] witness)) < 2 ^ 62 →
  match VerifyScript sig pub witness flags
    (tx_checker callbacks fuel tries GetStrongRandBytes true txTo mdb nIn amount txdata) true with
  | Ok _ | SErr _ => True
  | Exn | Crash => False
  end.
Proof.
  intros Hstrong Hsamp Hck Hf B1 B2 Bw Lw.
  assert (TotalChecker (tx_checker callbacks fuel tries GetStrongRandBytes true txTo mdb nIn amount txdata)).
  { apply tx_checker_total; [done|]. intros h s p Lh Bh Bs Bp. by apply (Verify_total callbacks fuel tries GetStrongRandBytes Hstrong). }
  by apply VerifyScript_total.
Qed.

(** ** Instances *)

#[local] Existing Instance test_crypto.

Lemma test_checker_ok : checker_ok (test_tx 2) FAIL 0 1000 None.
Proof. split; [cbn; lia|by left|by left|done]. Qed.

Lemma spend_check_total_witness :
  let check pub := VerifyScript [] pub None (SCRIPT_VERIFY_P2SH + SCRIPT_VERIFY_WITNESS)
    (tx_checker toy_callbacks 1 1 zeros true (test_tx 2) FAIL 0 1000 None) true in
  (∀ b, 0 <= b < 256 → match check [b] with Ok _ | SErr _ => True | Exn | Crash => False end) ∧
  check [0x51] = Ok tt ∧ check [0x00] = SErr SCRIPT_ERR_EVAL_FALSE ∧ check [0x6a] = SErr SCRIPT_ERR_OP_RETURN.
Proof.
  split; [|split_and!; vm_compute; reflexivity]. intros b Hb.
  refine (spend_check_total toy_callbacks 1 1 zeros (test_tx 2) FAIL 0 1000 None (SCRIPT_VERIFY_P2SH + SCRIPT_VERIFY_WITNESS)
    [] [b] None zeros_strong (λ pk s Lp _ Ls _, toy_samples pk s Lp Ls) test_checker_ok _ (Forall_nil_2 _) _ (Forall_nil_2 _) _).
  - split; [done|]. intros H. by vm_compute in H.
  - constructor; [exact Hb|constructor].
  - done.
Defined.

Lemma quantum_checkers_agree_witness :
  EvalChecksigQuantum (tx_checker toy_callbacks 1 1 zeros true (test_tx 2) FAIL 0 1000 None) WITNESS_V0 [3; 4; 1]
    (replicate 48 0) [0xb3] =
  EvalChecksigQuantum (q_checker toy_callbacks 1 1 zeros true (test_tx 2) FAIL 0 1000 None) WITNESS_V0 [3; 4; 1]
    (replicate 48 0) [0xb3].
Proof. apply (quantum_checkers_agree toy_callbacks 1 1 zeros true (test_tx 2) FAIL 0 1000 None); [cbn; lia|lia]. Defined.
