(* ===== verification/QWitness.v ===== *)
(** Witness scripts for quantum keys (script/quantum_witness.h and .cpp).

    Theorems about witness scripts: what is created is recognised, and which
    witness stacks spend it. *)
From S2P Require Import Prelude SpxIface OqsSig KeccakP Sha3 Sha3Api MlSign MlToy OqsMlDsa Serial QSig Script Node QPubKey Interp InterpP Verify QKey QKeyP Tx TxP TxChecker.

Open Scope Z_scope.

Section witness.
Context {C : NodeCrypto}.

(** [<pubkey> OP_CHECKSIG_EX]. *)
Definition CreateQuantumWitnessScript (pubkey : CQuantumPubKey) : list Z :=
  push_op (push_data [] (m_vchPubKey pubkey)) OP_CHECKSIG_EX.

Definition CreateQuantumP2WSH (pubkey : CQuantumPubKey) : list Z :=
  let witnessScript := CreateQuantumWitnessScript pubkey in
  push_data (push_op [] OP_0) (CSHA256 witnessScript).

(** The result and [pubkey]. *)
Definition ExtractQuantumPubKeyFromWitnessScript (witnessScript : list Z) (pubkey : CQuantumPubKey) : bool * CQuantumPubKey :=
  match GetScriptOp witnessScript with
  | None => (false, pubkey)
  | Some (pc, opcode, vchPubKey) =>
      if op_num OP_PUSHDATA4 <? op_num opcode then (false, pubkey) else
      match pc with
      | [] => (false, pubkey)
      | b :: _ =>
          if decide (to_opcode b ≠ OP_CHECKSIG_EX) then (false, pubkey) else
          if size vchPubKey =? 1952 then
            let pubkey := {| pk_type := ML_DSA_65; m_vchPubKey := vchPubKey |} in (CQuantumPubKey_IsValid pubkey, pubkey)
          else if size vchPubKey =? 48 then
            let pubkey := {| pk_type := SLH_DSA_192F; m_vchPubKey := vchPubKey |} in (CQuantumPubKey_IsValid pubkey, pubkey)
          else (false, pubkey)
      end
  end.

Definition IsQuantumP2WSH (script : list Z) : bool :=
  if negb (size script =? 34) then false else
  match GetScriptOp script with
  | None => false
  | Some (pc, opcode, _) =>
      if decide (opcode ≠ OP_0) then false else
      match GetScriptOp pc with
      | None => false
      | Some (pc, _, data) => (size data =? 32) && bool_decide (pc = [])
      end
  end.

Definition CreateQuantumWitnessStack (qsig : QuantumSignature) (witnessScript : list Z) : option (list (list Z)) :=
  serializedSig ← Serialize qsig [];
  Some [serializedSig; witnessScript].

(** The result, [qsig_out] and [witnessScript_out]. *)
Definition ParseQuantumWitnessStack (stack : list (list Z)) (qsig_out : QuantumSignature) (witnessScript_out : list Z)
    : bool * QuantumSignature * list Z :=
  match stack with
  | [sig; script] =>
      let '(ok, qsig_out) := Deserialize qsig_out sig in
      if (ok : bool) then (true, qsig_out, script) else (false, qsig_out, witnessScript_out)
  | _ => (false, qsig_out, witnessScript_out)
  end.

Definition GetQuantumSchemeFromWitnessScript (witnessScript : list Z) : Z :=
  match GetScriptOp witnessScript with
  | None => SCHEME_ECDSA
  | Some (_, _, vchPubKey) =>
      if size vchPubKey =? 1952 then SCHEME_ML_DSA_65
      else if size vchPubKey =? 48 then SCHEME_SLH_DSA_192F
      else SCHEME_ECDSA
  end.
End witness.

(** The identifier of a scheme. *)
Definition scheme_of (t : KeyType) : Z := match t with ML_DSA_65 => SCHEME_ML_DSA_65 | _ => SCHEME_SLH_DSA_192F end.

Lemma scheme_of_key_type t : quantum t → scheme_key_type (scheme_of t) = Some t ∧ in_u8 (scheme_of t).
Proof. intros [-> | ->]; (split; [done|]); by vm_compute. Qed.

Section witness.
Context {C : NodeCrypto} {L : NodeCryptoLaws C}.

Lemma witness_script_eq k : CreateQuantumWitnessScript k = push_data [] (m_vchPubKey k) ++ [0xb3].
Proof. done. Qed.

Lemma pub_size_bounds t : quantum t → 1 < pub_size t < 2000.
Proof. by intros [-> | ->]. Qed.

Lemma GetScriptOp_witness t p : quantum t → size p = pub_size t →
  GetScriptOp (CreateQuantumWitnessScript {| pk_type := t; m_vchPubKey := p |}) =
  Some ([0xb3], to_opcode (push_opcode (size p)), p).
Proof.
  intros Ht Hp. rewrite witness_script_eq. apply GetScriptOp_push. pose proof (pub_size_bounds t Ht).
  unfold size in *. cbn [m_vchPubKey]. rewrite length_app. cbn [length]. lia.
Qed.

(** Witness scripts of quantum keys are recognised: for a valid public key of a
    quantum type, the script that [CreateQuantumWitnessScript] makes gives back the
    key and its scheme, the output that [CreateQuantumP2WSH] makes is recognised as
    one, and a valid signature object with the script makes a stack that parses to
    them. *)
Theorem quantum_witness_roundtrip (pubkey k0 : CQuantumPubKey) (qsig q0 : QuantumSignature) (s0 : list Z) :
  quantum (pk_type pubkey) → CQuantumPubKey_IsValid pubkey = true → in_u8 (scheme_id qsig) → IsValidSize qsig = true →
  let script := CreateQuantumWitnessScript pubkey in
  ExtractQuantumPubKeyFromWitnessScript script k0 = (true, pubkey) ∧
  GetQuantumSchemeFromWitnessScript script = scheme_of (pk_type pubkey) ∧
  IsQuantumP2WSH (CreateQuantumP2WSH pubkey) = true ∧
  ∃ stack, CreateQuantumWitnessStack qsig script = Some stack ∧
    ParseQuantumWitnessStack stack q0 s0 = (true, qsig, script).
Proof using L.
  destruct pubkey as [t p]. cbn [pk_type]. intros Ht Hv%valid_pub_size Hid Hq; [|done]. cbv zeta. split; [|split; [|split]].
  - unfold ExtractQuantumPubKeyFromWitnessScript. rewrite GetScriptOp_witness by done. rewrite op_num_to_opcode.
    pose proof (push_opcode_range (size p) (Nat2Z.is_nonneg _)) as Hr. rewrite (proj2 (Z.ltb_ge _ _)) by lia.
    rewrite decide_False by (by intros []). rewrite Hv.
    destruct Ht as [-> | ->]; cbn [pub_size]; cbv match; unfold CQuantumPubKey_IsValid; cbn [pk_type m_vchPubKey]; by rewrite Hv.
  - unfold GetQuantumSchemeFromWitnessScript. rewrite GetScriptOp_witness by done. rewrite Hv. by destruct Ht as [-> | ->].
  - unfold CreateQuantumP2WSH. set (h := CSHA256 _). assert (Lh : size h = 32) by (unfold size, h; by rewrite length_CSHA256).
    rewrite push_data_app. assert (Es : push_data [] h = 32 :: h) by (unfold push_data, AppendDataSize; by rewrite Lh).
    unfold IsQuantumP2WSH. rewrite Es. change (push_op [] OP_0 ++ 32 :: h) with (0 :: 32 :: h).
    assert (size (0 :: 32 :: h) = 34) as -> by (unfold size in *; cbn [length]; lia).
    change (0 :: 32 :: h) with (push_data [] [] ++ 32 :: h).
    rewrite GetScriptOp_push by (unfold size in *; cbn [app length]; lia). cbn [negb Z.eqb].
    rewrite decide_False by (by intros []). rewrite <-Es, <-(app_nil_r (push_data [] h)), GetScriptOp_push, Lh; [done|].
    rewrite app_nil_r. lia.
  - exists [encoding qsig; CreateQuantumWitnessScript {| pk_type := t; m_vchPubKey := p |}].
    unfold CreateQuantumWitnessStack. rewrite serialize_eq. split; [done|]. unfold ParseQuantumWitnessStack.
    by rewrite deserialize_encoding.
Qed.

(** ** Spending *)

Context (flags : Z) (checker : BaseSignatureChecker).

Lemma witness_script_size t p : quantum t → size p = pub_size t →
  2 <= size (CreateQuantumWitnessScript {| pk_type := t; m_vchPubKey := p |}) <= 3000.
Proof.
  intros Ht Hp. pose proof (pub_size_bounds t Ht). rewrite witness_script_eq. unfold push_data, AppendDataSize, size in *.
  cbn [m_vchPubKey]. rewrite !length_app. repeat case_match; cbn [app length]; rewrite ?length_le_bytes; lia.
Qed.

(** The public key on the stack, then the check. *)
Lemma EvalScript_witness t p sig : quantum t → size p = pub_size t → has flags SCRIPT_VERIFY_QUANTUM_SIGS = true →
  EvalScript flags checker WITNESS_V0 [sig] (CreateQuantumWitnessScript {| pk_type := t; m_vchPubKey := p |})
    ScriptExecutionData_default =
  (match EvalChecksigQuantum checker WITNESS_V0 sig p (CreateQuantumWitnessScript {| pk_type := t; m_vchPubKey := p |}) with
   | Ok true => Ok [[1]]
   | Ok false => if has flags SCRIPT_VERIFY_NULLFAIL && (0 <? size sig) then SErr SCRIPT_ERR_SIG_NULLFAIL else Ok [[]]
   | SErr e => SErr e
   | Exn => SErr SCRIPT_ERR_UNKNOWN_ERROR
   | Crash => Crash
   end).
Proof.
  intros Ht Hp Hq. set (s := CreateQuantumWitnessScript _). pose proof (pub_size_bounds t Ht) as Hb.
  pose proof (witness_script_size t p Ht Hp : 2 <= size s <= 3000) as Hl.
  unfold EvalScript. rewrite decide_False by done. rewrite (proj2 (Z.ltb_ge MAX_SCRIPT_SIZE (size s))) by (unfold MAX_SCRIPT_SIZE; lia).
  rewrite andb_false_r. unfold eval_loop.
  match goal with |- match oloop _ _ (_, _, ?i0) with _ => _ end = _ => set (i := i0) end.
  fold (eval_run flags checker WITNESS_V0 (S (length s)) s 0 i). unfold s at 2. rewrite witness_script_eq. cbn [m_vchPubKey].
  rewrite eval_run_push; [| | | |done|done].
  2:{ unfold size in *. rewrite length_app. cbn [length]. lia. }
  2:{ right. unfold push_allowed. rewrite Hq, Hp. by destruct Ht as [-> | ->]. }
  2:{ lia. }
  destruct (length s) as [|n] eqn:En; [unfold size in Hl; rewrite En in Hl; lia|].
  destruct n as [|n]; [unfold size in Hl; rewrite En in Hl; lia|].
  erewrite eval_run_step; [|done|reflexivity].
  unfold eval_step at 1. change (GetScriptOp [0xb3]) with (Some ([] : list Z, OP_CHECKSIG_EX, [] : list Z)).
  change (MAX_SCRIPT_ELEMENT_SIZE <? size []) with false. cbn [andb].
  change (pre_tapscript WITNESS_V0 && (op_num OP_16 <? op_num OP_CHECKSIG_EX)) with true. cbn [andb].
  change (MAX_OPS_PER_SCRIPT <? nOpCount _) with false at 1. cbn [andb is_disabled bool_decide decide_rel].
  change (ConditionStack.all_true (vfExec (set_stack i (p :: stack i)))) with true.
  change (true && (0 <=? op_num OP_CHECKSIG_EX) && (op_num OP_CHECKSIG_EX <=? op_num OP_PUSHDATA4)) with false. cbn [orb].
  cbn [exec_op]. unfold op_checksig_ex. rewrite Hq. cbn [negb]. 
  change (stack (set_nOpCount _ _)) with [p; sig]. cbv match.
  change (pbegincodehash (set_nOpCount _ _)) with s.
  destruct (EvalChecksigQuantum checker WITNESS_V0 sig p s) as [[]| | |]; cbn [mbind outcome_bind negb andb]; try done.
  destruct (has flags SCRIPT_VERIFY_NULLFAIL && (0 <? size sig)); cbn [mbind outcome_bind]; done.
Qed.

(** The spend of a quantum output by a signature and the script. *)
Lemma VerifyScript_quantum t p sig : quantum t → size p = pub_size t →
  has flags SCRIPT_VERIFY_WITNESS = true → has flags SCRIPT_VERIFY_P2SH = true →
  let pubkey := {| pk_type := t; m_vchPubKey := p |} in
  CastToBool (CSHA256 (CreateQuantumWitnessScript pubkey)) = true →
  VerifyScript [] (CreateQuantumP2WSH pubkey) (Some [sig; CreateQuantumWitnessScript pubkey]) flags checker true =
  if negb (witness_item_ok flags sig) then SErr SCRIPT_ERR_PUSH_SIZE else
  match EvalScript flags checker WITNESS_V0 [sig] (CreateQuantumWitnessScript pubkey) ScriptExecutionData_default with
  | Ok [top] => if negb (CastToBool top) then SErr SCRIPT_ERR_EVAL_FALSE else Ok tt
  | Ok _ => SErr SCRIPT_ERR_CLEANSTACK
  | SErr e => SErr e
  | Exn => Exn
  | Crash => Crash
  end.
Proof using L.
  intros Ht Hp Hw Hp2 pubkey Hc. unfold CreateQuantumP2WSH.
  change [sig; CreateQuantumWitnessScript pubkey] with ([sig] ++ [CreateQuantumWitnessScript pubkey]).
  cbv zeta. rewrite (VerifyScript_p2wsh flags checker [sig] (CreateQuantumWitnessScript pubkey) true Hw Hp2 Hc).
  unfold ExecuteWitnessScript. rewrite decide_False by done. cbn [mbind outcome_bind]. rewrite bool_decide_false by done.
  cbn [andb forallb]. rewrite andb_true_r. case_match; [done|]. cbn [rev app].
  destruct (EvalScript _ _ _ _ _ _) as [[|top [|? ?]]| | |]; done.
Qed.

Lemma VerifyScript_quantum_ok t p sig : quantum t → size p = pub_size t →
  has flags SCRIPT_VERIFY_WITNESS = true → has flags SCRIPT_VERIFY_P2SH = true → has flags SCRIPT_VERIFY_QUANTUM_SIGS = true →
  let pubkey := {| pk_type := t; m_vchPubKey := p |} in
  CastToBool (CSHA256 (CreateQuantumWitnessScript pubkey)) = true →
  VerifyScript [] (CreateQuantumP2WSH pubkey) (Some [sig; CreateQuantumWitnessScript pubkey]) flags checker true = Ok tt ↔
  witness_item_ok flags sig = true ∧
  EvalChecksigQuantum checker WITNESS_V0 sig p (CreateQuantumWitnessScript pubkey) = Ok true.
Proof using L.
  cbv zeta. intros Ht Hp Hw Hp2 Hq Hc. rewrite VerifyScript_quantum, EvalScript_witness by done. destruct (witness_item_ok flags sig); cbn [negb]; [|by split; [|intros []]].
  destruct (EvalChecksigQuantum _ _ _ _ _) as [[]| | |]; [done| |by split; [|intros []]..].
  split; [|by intros []]. by destruct (has flags SCRIPT_VERIFY_NULLFAIL && (0 <? size sig)).
Qed.

(** Quantum signature checking is not a soft fork: a spend of a quantum output
    whose signature is longer than a stack element may be, as all are that verify,
    is refused for the size of the element by every set of flags without
    SCRIPT_VERIFY_QUANTUM_SIGS, before any signature is checked. *)
Theorem quantum_spend_needs_flag (pubkey : CQuantumPubKey) (sig : list Z) :
  quantum (pk_type pubkey) → CQuantumPubKey_IsValid pubkey = true → MAX_SCRIPT_ELEMENT_SIZE < size sig →
  has flags SCRIPT_VERIFY_WITNESS = true → has flags SCRIPT_VERIFY_P2SH = true → has flags SCRIPT_VERIFY_QUANTUM_SIGS = false →
  CastToBool (CSHA256 (CreateQuantumWitnessScript pubkey)) = true →
  VerifyScript [] (CreateQuantumP2WSH pubkey) (Some [sig; CreateQuantumWitnessScript pubkey]) flags checker true
    = SErr SCRIPT_ERR_PUSH_SIZE.
Proof using L.
  destruct pubkey as [t p]. cbn [pk_type]. intros Ht Hp%valid_pub_size Hs Hw Hp2 Hq Hc; [|done].
  rewrite VerifyScript_quantum by done. unfold witness_item_ok. rewrite Hq, (proj2 (Z.leb_gt _ _)) by done. done.
Qed.

(** The stack that [CreateQuantumWitnessStack] makes does not spend the output:
    for a valid signature object of a quantum scheme, with a signature of the
    scheme's size, the serialized object has a size that no element of a witness
    may have, so every verification refuses it. *)
Theorem witness_stack_refused (pubkey : CQuantumPubKey) (qsig : QuantumSignature) (stack : list (list Z)) :
  quantum (pk_type pubkey) → CQuantumPubKey_IsValid pubkey = true →
  scheme_id qsig = scheme_of (pk_type pubkey) → IsValidSize qsig = true → size (signature qsig) = sig_size (pk_type pubkey) →
  has flags SCRIPT_VERIFY_WITNESS = true → has flags SCRIPT_VERIFY_P2SH = true →
  CastToBool (CSHA256 (CreateQuantumWitnessScript pubkey)) = true →
  CreateQuantumWitnessStack qsig (CreateQuantumWitnessScript pubkey) = Some stack →
  VerifyScript [] (CreateQuantumP2WSH pubkey) (Some stack) flags checker true = SErr SCRIPT_ERR_PUSH_SIZE.
Proof using L.
  destruct pubkey as [t p]. cbn [pk_type]. intros Ht Hp%valid_pub_size Hid Hv Hs Hw Hp2 Hc; [|done].
  unfold CreateQuantumWitnessStack. rewrite serialize_eq. cbn [mbind option_bind]. intros [= <-].
  rewrite VerifyScript_quantum by done.
  assert (Sz : size (encoding qsig) = 5268 ∨ size (encoding qsig) = 35717).
  { rewrite length_encoding, Hs. unfold IsValidSize in Hv. rewrite Hid in Hv.
    destruct Ht as [-> | ->]; cbn in Hv; rewrite !andb_true_iff, ?Z.eqb_eq in Hv.
    - destruct Hv as [_ ->]. by left.
    - destruct Hv as [_ ->]. by right. }
  assert (witness_item_ok flags (encoding qsig) = false) as ->; [|done].
  unfold witness_item_ok, MAX_SCRIPT_ELEMENT_SIZE. destruct Sz as [-> | ->]; by destruct (has flags SCRIPT_VERIFY_QUANTUM_SIGS).
Qed.

(** ** Signature operations *)

Lemma GetSigOpCount_witness t p fAccurate : quantum t → size p = pub_size t →
  GetSigOpCount (CreateQuantumWitnessScript {| pk_type := t; m_vchPubKey := p |}) fAccurate = Some 0.
Proof.
  intros Ht Hp. pose proof (GetScriptOp_witness t p Ht Hp) as E. pose proof (witness_script_size t p Ht Hp) as [Hl _]. set (s := CreateQuantumWitnessScript _) in *.
  clearbody s. unfold GetSigOpCount. destruct s as [|b s]; [done|]. cbn [loop]. rewrite E, Hp. cbn [mbind option_bind].
  destruct s as [|b' s]; [done|]. by destruct Ht as [-> | ->].
Qed.

(** The signature check of a quantum output is not counted: the input that
    spends it, whatever the signature, counts no signature operation, while the
    spend of a key hash counts one. *)
Theorem quantum_sigops_uncounted (pubkey : CQuantumPubKey) (sig keyhash : list Z) :
  quantum (pk_type pubkey) → CQuantumPubKey_IsValid pubkey = true → size keyhash = 20 →
  has flags SCRIPT_VERIFY_WITNESS = true → has flags SCRIPT_VERIFY_P2SH = true →
  CountWitnessSigOps [] (CreateQuantumP2WSH pubkey) (Some [sig; CreateQuantumWitnessScript pubkey]) flags = Some 0 ∧
  CountWitnessSigOps [] (push_data (push_op [] OP_0) keyhash) (Some [sig; m_vchPubKey pubkey]) flags = Some 1.
Proof using L.
  destruct pubkey as [t p]. cbn [pk_type]. intros Ht Hp%valid_pub_size Hk Hw Hp2; [|done].
  unfold CountWitnessSigOps. rewrite Hw, Hp2. cbn [negb]. split.
  - unfold CreateQuantumP2WSH. set (h := CSHA256 _). assert (Lh : size h = 32) by (unfold size, h; by rewrite length_CSHA256).
    rewrite (proj1 (IsWitnessProgram_push h (CSHA256_bytes _) Lh)). unfold WitnessSigOps. rewrite Lh.
    change (GetSigOpCount (CreateQuantumWitnessScript {| pk_type := t; m_vchPubKey := p |}) true = Some 0).
    by apply GetSigOpCount_witness.
  - rewrite push_data_app. assert (push_data [] keyhash = 20 :: keyhash) as -> by (unfold push_data, AppendDataSize; by rewrite Hk).
    change (push_op [] OP_0 ++ 20 :: keyhash) with (0 :: 20 :: keyhash). unfold IsWitnessProgram.
    assert (size (0 :: 20 :: keyhash) = 22) as -> by (unfold size in *; cbn [length]; lia).
    change (Z.of_nat (length keyhash)) with (size keyhash). change (WitnessSigOps 0 keyhash [sig; p] = Some 1).
    unfold WitnessSigOps. by rewrite Hk.
Qed.
End witness.

(** C2 Spending a quantum output, exactly: for a valid public key of a quantum type,
    the output that [CreateQuantumP2WSH] makes is spent by a witness of a string and
    the key's script, under the quantum rules and for a transaction whose data is
    known, if and only if the string is the algorithm's identifier, a signature and
    a hash type, and the signature verifies under the key for the transaction's
    signature hash of that type. *)
Theorem quantum_spend_exact {C : NodeCrypto} {L : NodeCryptoLaws C} (callbacks : OQS_SHA3_callbacks)
    {SC : Sha3Contract callbacks} {U : Uninit} (fuel tries : nat) {rng : Type} (GetStrongRandBytes : rng → nat → list Z * rng)
    (txTo : CTransaction) (mdb : MissingDataBehavior) (nIn : nat) (amount : Z) (txdata : option PrecomputedTransactionData)
    (flags : Z) (pubkey : CQuantumPubKey) (sig : list Z) :
  let script := CreateQuantumWitnessScript pubkey in
  quantum (pk_type pubkey) → CQuantumPubKey_IsValid pubkey = true →
  has flags SCRIPT_VERIFY_WITNESS = true → has flags SCRIPT_VERIFY_P2SH = true → has flags SCRIPT_VERIFY_QUANTUM_SIGS = true →
  CastToBool (CSHA256 script) = true →
  VerifyScript [] (CreateQuantumP2WSH pubkey) (Some [sig; script]) flags
    (tx_checker callbacks fuel tries GetStrongRandBytes true txTo mdb nIn amount txdata) true = Ok tt ↔
  ∃ s ht h, sig = scheme_of (pk_type pubkey) :: s ++ [ht] ∧ 0 <= amount ∧
    SignatureHash script txTo nIn ht amount WITNESS_V0 txdata = Some h ∧
    CQuantumKey_Verify callbacks fuel tries GetStrongRandBytes true h s pubkey = Ok true.
Proof.
  destruct pubkey as [t p]. cbv zeta. cbn [pk_type]. intros Ht Hp%valid_pub_size Hw Hp2 Hq Hc; [|done].
  rewrite VerifyScript_quantum_ok by done. rewrite checksig_ex_lemma. split.
  - intros (_ & id & t' & s & ht & h & -> & Ei & Hp' & Ha & Eh & Hv).
    assert (t' = t) as ->.
    { destruct (scheme_key_type_quantum _ _ Ei) as (Ht' & _ & _). rewrite Hp in Hp'.
      by destruct Ht as [-> | ->], Ht' as [-> | ->]. }
    exists s, ht, h. split; [|split; [by apply Ha|done]]. f_equal. revert Ei. unfold scheme_key_type.
    destruct (Z.eqb_spec id SCHEME_ML_DSA_65) as [->|]; [by intros [= <-]|].
    destruct (Z.eqb_spec id SCHEME_SLH_DSA_192F) as [->|]; [by intros [= <-]|done].
  - intros (s & ht & h & -> & Ha & Eh & Hv). split.
    + destruct (Verify_sig_size _ _ _ _ t h s p Ht Hv) as [Ss _].
      assert (Sz : size (scheme_of t :: s ++ [ht]) = sig_size t + 2) by (unfold size in *; cbn [length]; rewrite length_app; cbn [length]; lia).
      unfold witness_item_ok. rewrite Sz, Hq. by destruct Ht as [-> | ->].
    + exists (scheme_of t), t, s, ht, h. split_and!; try done. by apply scheme_of_key_type.
Qed.

(** ** Instances *)

#[local] Existing Instance test_crypto.
Abbreviation test_pub := {| pk_type := SLH_DSA_192F; m_vchPubKey := replicate 48 7 |}.
Abbreviation test_flags := (SCRIPT_VERIFY_P2SH + SCRIPT_VERIFY_WITNESS).

Lemma quantum_witness_roundtrip_witness :
  ExtractQuantumPubKeyFromWitnessScript (CreateQuantumWitnessScript test_pub) CQuantumPubKey_default = (true, test_pub).
Proof.
  exact (proj1 (quantum_witness_roundtrip test_pub CQuantumPubKey_default
    {| scheme_id := 1; signature := [7; 8]; pubkey := [9] |} QuantumSignature_default [] (or_intror eq_refl) eq_refl
    ltac:(by vm_compute) eq_refl)).
Defined.

Lemma quantum_sigops_uncounted_witness :
  CountWitnessSigOps [] (CreateQuantumP2WSH test_pub) (Some [[7]; CreateQuantumWitnessScript test_pub]) test_flags = Some 0.
Proof.
  exact (proj1 (quantum_sigops_uncounted test_flags test_pub [7] (replicate 20 1) (or_intror eq_refl) eq_refl eq_refl eq_refl eq_refl)).
Defined.

Lemma quantum_spend_needs_flag_witness :
  VerifyScript [] (CreateQuantumP2WSH test_pub) (Some [replicate 521 3; CreateQuantumWitnessScript test_pub]) test_flags
    base_checker true = SErr SCRIPT_ERR_PUSH_SIZE.
Proof.
  apply (quantum_spend_needs_flag test_flags base_checker test_pub (replicate 521 3));
    [by right|reflexivity|by vm_compute|reflexivity|reflexivity|reflexivity|reflexivity].
Defined.

Lemma witness_stack_refused_witness : ∃ stack,
  CreateQuantumWitnessStack {| scheme_id := 3; signature := replicate (Z.to_nat 35664) 0; pubkey := replicate 48 7 |}
    (CreateQuantumWitnessScript test_pub) = Some stack ∧
  VerifyScript [] (CreateQuantumP2WSH test_pub) (Some stack) (test_flags + SCRIPT_VERIFY_QUANTUM_SIGS) base_checker true
    = SErr SCRIPT_ERR_PUSH_SIZE.
Proof.
  eexists. assert (Hs : size (replicate (Z.to_nat 35664) 0) = 35664) by (unfold size; by rewrite length_replicate).
  split; [unfold CreateQuantumWitnessStack; rewrite serialize_eq; reflexivity|].
  apply (witness_stack_refused (test_flags + SCRIPT_VERIFY_QUANTUM_SIGS) base_checker test_pub
    {| scheme_id := 3; signature := replicate (Z.to_nat 35664) 0; pubkey := replicate 48 7 |});
    [by right|reflexivity|reflexivity| |exact Hs|reflexivity|reflexivity|reflexivity|
     unfold CreateQuantumWitnessStack; rewrite serialize_eq; reflexivity].
  unfold IsValidSize. cbn [scheme_id signature QSig.pubkey]. rewrite Hs. reflexivity.
Defined.

(** A string that is no signature does not spend the output. *)
Lemma quantum_spend_exact_witness :
  VerifyScript [] (CreateQuantumP2WSH test_pub) (Some [[2; 1]; CreateQuantumWitnessScript test_pub])
    (test_flags + SCRIPT_VERIFY_QUANTUM_SIGS)
    (tx_checker toy_callbacks 1 1 zeros true (test_tx 2) FAIL 0 1000 None) true ≠ Ok tt.
Proof.
  intros H. apply (quantum_spend_exact (C := test_crypto) toy_callbacks 1 1 zeros (test_tx 2) FAIL 0 1000 None
    (test_flags + SCRIPT_VERIFY_QUANTUM_SIGS) test_pub [2; 1]
    (or_intror eq_refl) eq_refl eq_refl eq_refl eq_refl eq_refl) in H.
  destruct H as (s & ht & h & E & _). discriminate E.
Defined.
