(* ===== verification/QPolicy.v ===== *)
(** Relay policy for quantum signatures (policy/quantum_policy.h and .cpp), and
    what it counts.

    The functions are called on whole transactions; the scan of the witness script
    at the end of [CountQuantumSignatures] has no effect and is left out. *)
From stdpp Require Import strings.
From S2P Require Import Prelude Serial QSig Script Node QPubKey Interp Verify Tx.

Open Scope list_scope.
Open Scope Z_scope.

Definition MIN_QUANTUM_SIG_SIZE_THRESHOLD : Z := 100.
Definition MAX_STANDARD_TX_WEIGHT : Z := 400000.
Definition MAX_STANDARD_TX_WEIGHT_QUANTUM : Z := 1000000.
Definition MAX_STANDARD_QUANTUM_SIGS : Z := 10.
Definition MAX_STANDARD_QUANTUM_SIG_SIZE : Z := 50000.

Definition IsStandardTxWeight (weight : Z) (has_quantum_sigs : bool) : bool :=
  if has_quantum_sigs then weight <=? MAX_STANDARD_TX_WEIGHT_QUANTUM else weight <=? MAX_STANDARD_TX_WEIGHT.

(** A string that parses as a signature object of a quantum scheme. *)
Definition quantum_item (data : list Z) : option QuantumSignature :=
  if MIN_QUANTUM_SIG_SIZE_THRESHOLD <? size data then
    let '(ok, qsig) := ParseQuantumSignature data QuantumSignature_default in
    if (ok : bool) && ((scheme_id qsig =? SCHEME_ML_DSA_65) || (scheme_id qsig =? SCHEME_SLH_DSA_192F)) then Some qsig else None
  else None.

(** The data of the instructions of a script, up to the first that does not parse. *)
Definition script_data (script : list Z) : option (list (list Z)) :=
  loop (S (length script)) (λ '(pc, acc),
    match pc with
    | [] => Some (Done (rev acc))
    | _ =>
      match GetScriptOp pc with
      | None => Some (Done (rev acc))
      | Some (pc, _, data) => Some (Next (pc, data :: acc))
      end
    end) (script, []).

(** The strings of an input that are looked at, in order. *)
Definition input_items (input : CTxIn) : option (list (list Z)) :=
  data ← script_data (scriptSig input);
  Some (data ++ (if (2 <=? length (scriptWitness input))%nat then removelast (scriptWitness input) else [])).

Definition tx_items (tx : CTransaction) : option (list (list Z)) :=
  items ← mapM input_items (vin tx);
  Some (List.concat items).

Definition CountQuantumSignatures (tx : CTransaction) : option Z :=
  items ← tx_items tx;
  Some (foldl (λ count data, match quantum_item data with Some _ => u32 (count + 1) | None => count end) 0 items).

Definition HasQuantumSignatures (tx : CTransaction) : option bool := (λ n, 0 <? n) <$> CountQuantumSignatures tx.

Definition REASON_TOO_LARGE : string := "quantum signature too large".
Definition REASON_TOO_MANY : string := "too many quantum signatures".

(** The loop over the strings: the count and the largest size, or a reason. *)
Fixpoint policy_items (items : list (list Z)) (quantum_sig_count largest_sig_size : Z) : Z * Z + string :=
  match items with
  | [] => inl (quantum_sig_count, largest_sig_size)
  | data :: items =>
      match quantum_item data with
      | None => policy_items items quantum_sig_count largest_sig_size
      | Some qsig =>
          let quantum_sig_count := u32 (quantum_sig_count + 1) in
          let sig_size := GetSerializedSize qsig in
          let largest_sig_size := if largest_sig_size <? sig_size then sig_size else largest_sig_size in
          if MAX_STANDARD_QUANTUM_SIG_SIZE <? sig_size then inr REASON_TOO_LARGE
          else policy_items items quantum_sig_count largest_sig_size
      end
  end.

(** The result and [reason]. *)
Definition CheckQuantumSignaturePolicy (tx : CTransaction) (reason : string) : option (bool * string) :=
  items ← tx_items tx;
  Some (match policy_items items 0 0 with
        | inr r => (false, r)
        | inl (count, _) => if MAX_STANDARD_QUANTUM_SIGS <? count then (false, REASON_TOO_MANY) else (true, reason)
        end).

(** ** Theorems *)

Lemma script_data_total s : is_Some (script_data s).
Proof.
  apply wp_is_Some with (λ _, True). unfold script_data.
  apply (wp_loop_measure (λ _, True) (λ '(pc, _), length pc)); [done|lia|]. intros [[|b pc] acc] _; [done|].
  destruct (GetScriptOp (b :: pc)) as [[[pc' o] d]|] eqn:E; [|done]. apply GetScriptOp_shrinks in E as [E _]. done.
Qed.

Lemma tx_items_total tx : is_Some (tx_items tx).
Proof.
  unfold tx_items. assert (M : is_Some (mapM input_items (vin tx))); [|destruct M as [m ->]; cbn; eauto].
  induction (vin tx) as [|i l IH]; [eauto|]. cbn [mapM]. destruct IH as [k ->].
  assert (I : is_Some (input_items i)) by (unfold input_items; destruct (script_data_total (scriptSig i)) as [d ->]; cbn; eauto).
  destruct I as [d ->]. cbn. eauto.
Qed.

(** What parses has a small size. *)
Lemma quantum_item_size data qsig : quantum_item data = Some qsig → GetSerializedSize qsig <= MAX_STANDARD_QUANTUM_SIG_SIZE.
Proof.
  unfold quantum_item. destruct (_ <? _); [|done]. destruct (ParseQuantumSignature data _) as [ok q] eqn:E.
  destruct ok; [|done]. cbn [andb]. destruct (_ || _) eqn:Es; [|done]. intros [= <-].
  assert (Hv : IsValidSize q = true).
  { unfold ParseQuantumSignature in E. destruct (length data =? 0)%nat; [done|]. unfold Deserialize in E.
    repeat case_match; simplify_eq. done. }
  unfold GetSerializedSize, u64. rewrite Zplus_mod_idemp_l. unfold MAX_STANDARD_QUANTUM_SIG_SIZE.
  assert (B : ∀ n, 0 <= GetSizeOfCompactSize n <= 9) by (intros; unfold GetSizeOfCompactSize; repeat case_match; lia).
  pose proof (B (size (signature q))). pose proof (B (size (pubkey q))).
  unfold IsValidSize in Hv. apply orb_true_iff in Es as [Es|Es]; apply Z.eqb_eq in Es; rewrite Es in Hv; cbn in Hv;
    rewrite !andb_true_iff, ?Z.eqb_eq, ?Z.leb_le, ?Z.ltb_lt in Hv;
    unfold MAX_ML_DSA_65_SIG_SIZE, ML_DSA_65_PUBKEY_SIZE, SLH_DSA_192F_SIG_SIZE, SLH_DSA_192F_PUBKEY_SIZE in Hv;
    rewrite Z.mod_small by lia; lia.
Qed.

Lemma policy_items_eq items c l : ∃ l',
  policy_items items c l = inl (foldl (λ n d, match quantum_item d with Some _ => u32 (n + 1) | None => n end) c items, l').
Proof.
  revert c l. induction items as [|d items IH]; intros c l; cbn [policy_items foldl]; [eauto|].
  destruct (quantum_item d) as [q|] eqn:E; [|apply IH]. apply quantum_item_size in E.
  rewrite (proj2 (Z.ltb_ge _ _)) by lia. apply IH.
Qed.

(** The relay policy is the limit on the number of signatures: for every
    transaction both functions return, and [CheckQuantumSignaturePolicy] accepts
    exactly if [CountQuantumSignatures] counts at most ten, with the reason "too
    many quantum signatures" otherwise; the limit on the size of a signature is
    never reached, since what parses is smaller. *)
Theorem quantum_policy_exact (tx : CTransaction) (reason : string) :
  ∃ n, CountQuantumSignatures tx = Some n ∧ HasQuantumSignatures tx = Some (0 <? n) ∧
  CheckQuantumSignaturePolicy tx reason =
    Some (if n <=? MAX_STANDARD_QUANTUM_SIGS then (true, reason) else (false, REASON_TOO_MANY)).
Proof.
  unfold HasQuantumSignatures, CountQuantumSignatures, CheckQuantumSignaturePolicy. destruct (tx_items_total tx) as [items ->].
  cbn [mbind option_bind fmap option_fmap option_map]. eexists. split; [reflexivity|]. split; [done|].
  destruct (policy_items_eq items 0 0) as [l ->]. rewrite Z.leb_antisym. by destruct (MAX_STANDARD_QUANTUM_SIGS <? _).
Qed.

(** An input that spends a quantum output of SLH-DSA: no script, and a witness of a
    signature with its algorithm and hash type, and a script. *)
Definition slh_input (i : CTxIn) : Prop :=
  scriptSig i = [] ∧ ∃ s ht script, scriptWitness i = [SCHEME_SLH_DSA_192F :: s ++ [ht]; script] ∧
  bytes s ∧ in_u8 ht ∧ size s = SLH_DSA_192F_SIG_SIZE.

Lemma slh_not_counted s ht : bytes s → in_u8 ht → size s = SLH_DSA_192F_SIG_SIZE →
  quantum_item (SCHEME_SLH_DSA_192F :: s ++ [ht]) = None.
Proof.
  intros Bs Bh Hs. unfold quantum_item. case_match; [|done].
  destruct (ParseQuantumSignature _ _) as [ok q] eqn:E. destruct ok; [|done]. exfalso.
  assert (Sz : size (SCHEME_SLH_DSA_192F :: s ++ [ht]) = 35666).
  { unfold size in *. cbn [length]. rewrite length_app. cbn [length]. unfold SLH_DSA_192F_SIG_SIZE in Hs. lia. }
  unfold ParseQuantumSignature in E. cbn [length Nat.eqb] in E. apply deserialize_inv in E as (E & Hu & Hv); [| |rewrite Sz; lia].
  2:{ constructor; [unfold in_u8, SCHEME_SLH_DSA_192F; lia|]. apply Forall_app_2; [done|]. apply Forall_cons_2; [done|apply Forall_nil_2]. }
  pose proof (f_equal size E) as El. rewrite Sz, length_encoding in El.
  assert (Hid : scheme_id q = SCHEME_SLH_DSA_192F).
  { unfold encoding in E. injection E as E _. by rewrite u8_small in E. }
  unfold IsValidSize in Hv. rewrite Hid in Hv. cbn in Hv. rewrite !andb_true_iff, !Z.eqb_eq in Hv. destruct Hv as [E1 E2].
  rewrite E1, E2 in El. done.
Qed.

(** The policy does not see the signatures that spend quantum outputs of SLH-DSA:
    a transaction with any number of inputs that carry such signatures in the form
    that the interpreter accepts counts as having none, so it passes the limit of
    ten and gets the weight limit of transactions without quantum signatures. *)
Theorem quantum_policy_misses_slh (tx : CTransaction) (reason : string) :
  Forall slh_input (vin tx) →
  CountQuantumSignatures tx = Some 0 ∧ HasQuantumSignatures tx = Some false ∧
  CheckQuantumSignaturePolicy tx reason = Some (true, reason).
Proof.
  intros Hall. destruct (tx_items_total tx) as [items Hi].
  assert (Hn : Forall (λ d, quantum_item d = None) items).
  { unfold tx_items in Hi. destruct (mapM input_items (vin tx)) as [ls|] eqn:Em; [|done]. injection Hi as <-.
    apply mapM_Some_1 in Em. apply Forall_concat. clear reason.
    induction Em as [|i d l ls Hi Hl IH]; [constructor|]. apply Forall_cons_1 in Hall as [(Es & s & ht & script & Ew & Bs & Bh & Sz) Hall].
    apply Forall_cons_2; [|by apply IH]. unfold input_items in Hi. rewrite Es, Ew in Hi. injection Hi as <-.
    cbn [app]. apply Forall_cons_2; [by apply slh_not_counted|constructor]. }
  assert (F : foldl (λ n d, match quantum_item d with Some _ => u32 (n + 1) | None => n end) 0 items = 0).
  { clear Hi. generalize 0. induction Hn as [|d items Hd Hn IH]; intros n; [done|]. cbn [foldl]. by rewrite Hd. }
  unfold HasQuantumSignatures, CountQuantumSignatures, CheckQuantumSignaturePolicy. rewrite Hi.
  cbn [mbind option_bind fmap option_fmap option_map]. destruct (policy_items_eq items 0 0) as [l ->]. by rewrite F.
Qed.

(** ** Instances *)

(** Twelve such inputs. *)
Lemma quantum_policy_misses_slh_witness : ∃ tx, length (vin tx) = 12%nat ∧
  CheckQuantumSignaturePolicy tx "" = Some (true, "").
Proof.
  exists {| vin := replicate 12 {| prevout := {| op_hash := replicate 32 5; op_n := 1 |}; scriptSig := []; nSequence := 7;
              scriptWitness := [SCHEME_SLH_DSA_192F :: replicate (Z.to_nat 35664) 0 ++ [1]; [0xb3]] |};
            vout := []; version := 2; nLockTime := 0 |}.
  split; [reflexivity|]. apply quantum_policy_misses_slh. apply Forall_replicate. split; [reflexivity|].
  exists (replicate (Z.to_nat 35664) 0), 1, [0xb3]. split; [reflexivity|]. split.
  - apply Forall_replicate. unfold in_u8. lia.
  - split; [unfold in_u8; lia|]. unfold size. by rewrite length_replicate.
Defined.
