(* ===== verification/Solver.v ===== *)
(** The classification of output scripts (script/solver.h and .cpp): [Solver] and
    the matchers it tries in turn.  A result of [None] is a loop that ran out of
    fuel, which is shown not to happen.

    Theorems about the classification of scripts: it always returns, and the
    scripts that the node constructs are recognised with their data. *)
From S2P Require Import Prelude Serial QSig Script Node Interp Verify.

Open Scope Z_scope.

Inductive TxoutType :=
  | NONSTANDARD | ANCHOR | PUBKEY | PUBKEYHASH | SCRIPTHASH | MULTISIG | NULL_DATA
  | WITNESS_V0_SCRIPTHASH | WITNESS_V0_KEYHASH | WITNESS_V1_TAPROOT | WITNESS_UNKNOWN.
#[export] Instance TxoutType_eq_dec : EqDecision TxoutType.
Proof. solve_decision. Defined.

Definition IsPushdataOp (opcode : opcodetype) : bool :=
  (op_num OP_0 <? op_num opcode) && (op_num opcode <=? op_num OP_PUSHDATA4).

(** [script[i] == b]. *)
Definition at_is (script : list Z) (i : nat) (b : Z) : bool := byte_at script i (Z.eqb b).

Definition MatchPayToPubkey (script : list Z) : option (list Z) :=
  let back_checksig := match back script with Some b => b =? op_num OP_CHECKSIG | None => false end in
  let try n :=
    let pubkey := take (Z.to_nat n) (drop 1 script) in
    if CPubKey_ValidSize pubkey then Some pubkey else None in
  if (size script =? PUBKEY_SIZE + 2) && at_is script 0 PUBKEY_SIZE && back_checksig then try PUBKEY_SIZE
  else if (size script =? COMPRESSED_SIZE + 2) && at_is script 0 COMPRESSED_SIZE && back_checksig then try COMPRESSED_SIZE
  else None.

Definition MatchPayToPubkeyHash (script : list Z) : option (list Z) :=
  if (size script =? 25) && at_is script 0 (op_num OP_DUP) && at_is script 1 (op_num OP_HASH160) && at_is script 2 20 &&
     at_is script 23 (op_num OP_EQUALVERIFY) && at_is script 24 (op_num OP_CHECKSIG)
  then Some (take 20 (drop 3 script)) else None.

Definition IsSmallInteger (opcode : opcodetype) : bool :=
  (op_num OP_1 <=? op_num opcode) && (op_num opcode <=? op_num OP_16).

(** The inner option is the optional number. *)
Definition GetScriptNumber (opcode : opcodetype) (data : list Z) (min max : Z) : option (option Z) :=
  count ← (if IsSmallInteger opcode then n ← DecodeOP_N opcode; Some (Some n)
           else if IsPushdataOp opcode then
             minimal ← CheckMinimalPush data opcode;
             if negb minimal then Some None
             else Some (getint <$> CScriptNum data true nDefaultMaxNumSize)
           else Some None);
  Some (match count with
        | Some n => if (n <? min) || (max <? n) then None else Some n
        | None => None
        end).

(** The keys of a multisig script: a failed read leaves an invalid opcode and no
    data. *)
Definition multisig_keys_step (s : list Z * list (list Z))
    : option (ctl (list Z * list (list Z)) (list (list Z) * opcodetype * list Z * list Z)) :=
  let '(it, pubkeys) := s in
  match GetScriptOp it with
  | None => Some (Done (pubkeys, OP_INVALIDOPCODE, [], it))
  | Some (it, opcode, data) =>
      if CPubKey_ValidSize data then Some (Next (it, pubkeys ++ [data])) else Some (Done (pubkeys, opcode, data, it))
  end.

Definition multisig_keys (it : list Z) : option (list (list Z) * opcodetype * list Z * list Z) :=
  loop (S (length it)) multisig_keys_step (it, []).

Definition MatchMultisig (script : list Z) : option (option (Z * list (list Z))) :=
  if (size script <? 1) || negb (match back script with Some b => b =? op_num OP_CHECKMULTISIG | None => false end)
  then Some None else
  match GetScriptOp script with
  | None => Some None
  | Some (it, opcode, data) =>
      req_sigs ← GetScriptNumber opcode data 1 MAX_PUBKEYS_PER_MULTISIG;
      match req_sigs with
      | None => Some None
      | Some required_sigs =>
          '(pubkeys, opcode, data, it) ← multisig_keys it;
          num_keys ← GetScriptNumber opcode data required_sigs MAX_PUBKEYS_PER_MULTISIG;
          match num_keys with
          | None => Some None
          | Some n =>
              if negb (Z.of_nat (length pubkeys) =? n) then Some None
              else Some (if (length it =? 1)%nat then Some (required_sigs, pubkeys) else None)
          end
      end
  end.

(** The type and [vSolutionsRet]. *)
Definition Solver (scriptPubKey : list Z) : option (TxoutType * list (list Z)) :=
  if IsPayToScriptHash scriptPubKey then Some (SCRIPTHASH, [take 20 (drop 2 scriptPubKey)]) else
  match IsWitnessProgram scriptPubKey with
  | Some (witnessversion, witnessprogram) =>
      Some (if (witnessversion =? 0) && (size witnessprogram =? WITNESS_V0_KEYHASH_SIZE)
            then (WITNESS_V0_KEYHASH, [witnessprogram])
            else if (witnessversion =? 0) && (size witnessprogram =? WITNESS_V0_SCRIPTHASH_SIZE)
            then (WITNESS_V0_SCRIPTHASH, [witnessprogram])
            else if (witnessversion =? 1) && (size witnessprogram =? WITNESS_V1_TAPROOT_SIZE)
            then (WITNESS_V1_TAPROOT, [witnessprogram])
            else if IsPayToAnchor scriptPubKey then (ANCHOR, [])
            else if negb (witnessversion =? 0) then (WITNESS_UNKNOWN, [[u8 witnessversion]; witnessprogram])
            else (NONSTANDARD, []))
  | None =>
      null_data ← (if (1 <=? size scriptPubKey) && at_is scriptPubKey 0 (op_num OP_RETURN)
                   then IsPushOnly (drop 1 scriptPubKey) else Some false);
      if null_data : bool then Some (NULL_DATA, []) else
      match MatchPayToPubkey scriptPubKey with
      | Some data => Some (PUBKEY, [data])
      | None =>
          match MatchPayToPubkeyHash scriptPubKey with
          | Some data => Some (PUBKEYHASH, [data])
          | None =>
              m ← MatchMultisig scriptPubKey;
              Some (match m with
                    | Some (required, keys) => (MULTISIG, [u8 required] :: keys ++ [[u8 (Z.of_nat (length keys))]])
                    | None => (NONSTANDARD, [])
                    end)
          end
      end
  end.

(** ** The scripts that are classified *)

Definition GetScriptForRawPubKey (pubKey : list Z) : list Z := push_op (push_data [] pubKey) OP_CHECKSIG.

Definition GetScriptForMultisig (nRequired : Z) (keys : list (list Z)) : list Z :=
  push_op (push_int64 (foldl push_data (push_int64 [] nRequired) keys) (Z.of_nat (length keys))) OP_CHECKMULTISIG.

(** ** Totality *)

Lemma GetScriptNumber_total o d lo hi : is_Some (GetScriptNumber o d lo hi).
Proof.
  unfold GetScriptNumber. destruct (IsSmallInteger o) eqn:Es.
  - unfold IsSmallInteger in Es. rewrite andb_true_iff, !Z.leb_le in Es. destruct (DecodeOP_N_range o Es) as (k & -> & _). done.
  - destruct (IsPushdataOp o) eqn:Ep; [|done]. unfold IsPushdataOp in Ep.
    rewrite andb_true_iff, Z.ltb_lt, Z.leb_le in Ep. change (op_num OP_0) with 0 in Ep.
    unfold CheckMinimalPush. rewrite (proj2 (Z.leb_le 0 _)), (proj2 (Z.leb_le _ (op_num OP_PUSHDATA4))) by lia.
    cbn [andb negb mbind option_bind]. by case_match.
Qed.

Lemma multisig_keys_total it : is_Some (multisig_keys it).
Proof.
  apply (wp_is_Some _ (λ _, True)). unfold multisig_keys.
  apply (wp_loop_measure (λ _, True) (λ '(it, _), length it)); [done|lia|]. intros [s ks] _.
  unfold multisig_keys_step. destruct (GetScriptOp s) as [[[s' o] d]|] eqn:E; [|done]. apply GetScriptOp_shrinks in E as [Hl _].
  destruct (CPubKey_ValidSize d); [|done]. split; [done|lia].
Qed.

Lemma MatchMultisig_total s : is_Some (MatchMultisig s).
Proof.
  unfold MatchMultisig. case_match; [done|]. destruct (GetScriptOp s) as [[[it o] d]|]; [|done].
  destruct (GetScriptNumber_total o d 1 MAX_PUBKEYS_PER_MULTISIG) as [[n|] ->]; cbn [mbind option_bind]; [|done].
  destruct (multisig_keys_total it) as [[[[ks o'] d'] it'] ->]. cbn [mbind option_bind].
  destruct (GetScriptNumber_total o' d' n MAX_PUBKEYS_PER_MULTISIG) as [[m|] ->]; cbn [mbind option_bind]; [|done].
  by destruct (Z.of_nat (length ks) =? m).
Qed.

Lemma Solver_total s : is_Some (Solver s).
Proof.
  unfold Solver. case_match; [done|]. destruct (IsWitnessProgram s) as [[v p]|]; [done|].
  assert (∃ b, (if (1 <=? size s) && at_is s 0 (op_num OP_RETURN) then IsPushOnly (drop 1 s) else Some false) = Some b)
    as [b ->] by (destruct (IsPushOnly_total (drop 1 s)) as [b ->]; case_match; eauto).
  cbn [mbind option_bind]. destruct b; [done|]. destruct (MatchPayToPubkey s); [done|].
  destruct (MatchPayToPubkeyHash s); [done|]. by destruct (MatchMultisig_total s) as [m ->].
Qed.

(** ** Scripts with keys *)

(** What a first byte rules out. *)
Lemma Solver_other b s : b ≠ op_num OP_HASH160 → b ≠ op_num OP_RETURN → b ≠ op_num OP_DUP →
  IsWitnessProgram (b :: s) = None → MatchPayToPubkey (b :: s) = None →
  Solver (b :: s) = m ← MatchMultisig (b :: s);
    Some (match m with
          | Some (required, keys) => (MULTISIG, [u8 required] :: keys ++ [[u8 (Z.of_nat (length keys))]])
          | None => (NONSTANDARD, [])
          end).
Proof.
  intros H1 H2 H3 Hw Hp. unfold Solver. rewrite Hw, Hp.
  assert (IsPayToScriptHash (b :: s) = false) as ->.
  { unfold IsPayToScriptHash. change (byte_at (b :: s) 0 (Z.eqb (op_num OP_HASH160))) with (op_num OP_HASH160 =? b).
    rewrite (proj2 (Z.eqb_neq (op_num OP_HASH160) b)) by congruence. by rewrite andb_false_r. }
  change (at_is (b :: s) 0 (op_num OP_RETURN)) with (op_num OP_RETURN =? b).
  rewrite (proj2 (Z.eqb_neq (op_num OP_RETURN) b)) by congruence. rewrite andb_false_r. cbn [mbind option_bind].
  unfold MatchPayToPubkeyHash. change (at_is (b :: s) 0 (op_num OP_DUP)) with (op_num OP_DUP =? b).
  rewrite (proj2 (Z.eqb_neq (op_num OP_DUP) b)) by congruence. by rewrite andb_false_r.
Qed.

Lemma back_pubkey w b : b ≠ op_num OP_CHECKSIG → MatchPayToPubkey (w ++ [b]) = None.
Proof.
  intros H. unfold MatchPayToPubkey. rewrite back_snoc, (proj2 (Z.eqb_neq _ _) H), !andb_false_r. done.
Qed.

Lemma valid_key_size k : CPubKey_ValidSize k = true → size k = 33 ∨ size k = 65.
Proof.
  unfold CPubKey_ValidSize. intros Hk. apply andb_true_iff in Hk as [_ Hk]. destruct k as [|b k]; [done|].
  change (byte_at (b :: k) 0 _) with (GetLen b =? size (b :: k)) in Hk. rewrite Z.eqb_eq in Hk. revert Hk.
  unfold GetLen, COMPRESSED_SIZE, PUBKEY_SIZE. repeat case_match; intros E; [by left|by right|].
  unfold size in E; cbn [length] in E; lia.
Qed.

Lemma MatchPayToPubkey_key k : CPubKey_ValidSize k = true → MatchPayToPubkey (GetScriptForRawPubKey k) = Some k.
Proof.
  intros Hk. pose proof (valid_key_size k Hk) as Hs.
  assert (E : GetScriptForRawPubKey k = size k :: k ++ [0xac]).
  { unfold GetScriptForRawPubKey, push_op, push_data, AppendDataSize. by destruct Hs as [-> | ->]. }
  rewrite E. unfold MatchPayToPubkey. change (size k :: k ++ [0xac]) with ((size k :: k) ++ [0xac]). rewrite back_snoc.
  cbn [app]. assert (size (size k :: k ++ [0xac]) = size k + 2) as -> by (unfold size; cbn [length]; rewrite length_app; cbn [length]; lia).
  change (at_is (size k :: k ++ [0xac]) 0 PUBKEY_SIZE) with (PUBKEY_SIZE =? size k).
  change (at_is (size k :: k ++ [0xac]) 0 COMPRESSED_SIZE) with (COMPRESSED_SIZE =? size k).
  change (drop 1 (size k :: k ++ [0xac])) with (k ++ [0xac]).
  assert (T : take (Z.to_nat (size k)) (k ++ [0xac]) = k) by (unfold size; by rewrite Nat2Z.id, take_app_length).
  change (0xac =? op_num OP_CHECKSIG) with true. cbv zeta. destruct Hs as [Es|Es]; rewrite Es in T |- *.
  - change (33 + 2 =? PUBKEY_SIZE + 2) with false. change (33 + 2 =? COMPRESSED_SIZE + 2) with true.
    change (COMPRESSED_SIZE =? 33) with true. change (Z.to_nat COMPRESSED_SIZE) with (Z.to_nat 33). cbn [andb].
    by rewrite T, Hk.
  - change (65 + 2 =? PUBKEY_SIZE + 2) with true. change (PUBKEY_SIZE =? 65) with true.
    change (Z.to_nat PUBKEY_SIZE) with (Z.to_nat 65). cbn [andb]. by rewrite T, Hk.
Qed.

(** ** Multisig scripts *)

Lemma push_int64_app s n : push_int64 s n = s ++ push_int64 [] n.
Proof. unfold push_int64. repeat case_match; [done|done|apply push_data_app]. Qed.

(** A number from 1 to 20 in a script: the first byte, and how it is read. *)
Lemma push_number n : 1 <= n <= 20 → ∃ b x o d, push_int64 [] n = b :: x ∧ (b = 1 ∨ 81 <= b <= 96 ∧ x = []) ∧
  CPubKey_ValidSize d = false ∧
  (∀ rest, size rest < 2 ^ 31 → GetScriptOp (push_int64 [] n ++ rest) = Some (rest, o, d)) ∧
  (∀ lo hi, lo <= n <= hi → GetScriptNumber o d lo hi = Some (Some n)).
Proof.
  intros Hn. assert (R : ∀ lo hi, lo <= n <= hi → (n <? lo) || (hi <? n) = false).
  { intros lo hi [? ?]. rewrite (proj2 (Z.ltb_ge _ _)), (proj2 (Z.ltb_ge _ _)) by done. done. }
  destruct (Z_le_gt_dec n 16) as [Hs|Hs].
  - exists (n + 80), [], (to_opcode (n + 80)), [].
    assert (E : push_int64 [] n = [n + 80]).
    { unfold push_int64. rewrite (proj2 (Z.leb_le 1 n)), (proj2 (Z.leb_le n 16)) by lia. rewrite orb_true_r. cbn [app].
      rewrite u8_small by (unfold in_u8; cbn [op_num]; lia). done. }
    rewrite E. split_and!; [done|right; split; [lia|done]|done| |].
    + intros rest _. cbn [app GetScriptOp]. rewrite (proj2 (Z.leb_gt (n + 80) (op_num OP_PUSHDATA4))) by (cbn [op_num]; lia). done.
    + intros lo hi Hr. unfold GetScriptNumber, IsSmallInteger, DecodeOP_N. rewrite op_num_to_opcode.
      change (op_num OP_1) with 81. change (op_num OP_16) with 96.
      rewrite (proj2 (Z.leb_le 81 (n + 80))), (proj2 (Z.leb_le (n + 80) 96)) by lia. cbn [andb].
      rewrite decide_False by (intros E0; apply (f_equal op_num) in E0; rewrite op_num_to_opcode in E0; cbn [op_num] in E0; lia).
      cbn [mbind option_bind]. replace (n + 80 - (81 - 1)) with n by lia. by rewrite R.
  - exists 1, [n], (to_opcode 1), [n]. assert (E : push_int64 [] n = push_data [] [n]).
    { assert (n = 17 ∨ n = 18 ∨ n = 19 ∨ n = 20) as [-> | [-> | [-> | ->]]] by lia; by vm_compute. }
    rewrite E. split_and!; [done|by left| | |].
    + unfold CPubKey_ValidSize. change (byte_at [n] 0 (λ b, GetLen b =? size [n])) with (GetLen n =? 1). unfold GetLen.
      repeat (rewrite (proj2 (Z.eqb_neq n _)) by lia). done.
    + intros rest Hl. rewrite GetScriptOp_push by (unfold size in *; cbn [app length]; lia). done.
    + intros lo hi Hr. unfold GetScriptNumber, IsSmallInteger, IsPushdataOp. rewrite op_num_to_opcode.
      change ((op_num OP_1 <=? 1) && (1 <=? op_num OP_16)) with false.
      change ((op_num OP_0 <? 1) && (1 <=? op_num OP_PUSHDATA4)) with true. cbv match.
      change (to_opcode 1) with (to_opcode (push_opcode (size [n]))). rewrite CheckMinimalPush_push by done.
      change (size [n] =? 1) with true. 
      change (byte_at [n] 0 (λ b, (1 <=? b) && (b <=? 16) || (0x81 =? b))) with ((1 <=? n) && (n <=? 16) || (0x81 =? n)).
      rewrite (proj2 (Z.leb_gt n 16)), andb_false_r, (proj2 (Z.eqb_neq 0x81 n)) by lia. cbn [andb orb negb mbind option_bind].
      assert (getint <$> CScriptNum [n] true nDefaultMaxNumSize = Some n) as ->; [|by rewrite R].
      assert (n = 17 ∨ n = 18 ∨ n = 19 ∨ n = 20) as [-> | [-> | [-> | ->]]] by lia; by vm_compute.
Qed.

Lemma multisig_keys_push ks rest it o d : Forall (λ k, CPubKey_ValidSize k = true) ks →
  size (concat (push_data [] <$> ks) ++ rest) < 2 ^ 31 →
  GetScriptOp rest = Some (it, o, d) → CPubKey_ValidSize d = false →
  ∀ n acc, (length ks < n)%nat →
  loop n multisig_keys_step (concat (push_data [] <$> ks) ++ rest, acc) = Some (acc ++ ks, o, d, it).
Proof.
  intros Hk Hl Hr Hd. induction Hk as [|k ks Hk Hks IH]; intros n acc Hn; (destruct n as [|n]; [lia|]).
  - cbn [fmap list_fmap concat app loop multisig_keys_step]. by rewrite Hr, Hd, app_nil_r.
  - cbn [fmap list_fmap concat] in Hl |- *. rewrite <-app_assoc in Hl |- *. cbn [loop multisig_keys_step].
    assert (P : size k <= size (push_data [] k)) by (unfold push_data, size; rewrite length_app; lia).
    rewrite GetScriptOp_push by (unfold size in *; rewrite !length_app in *; lia).
    rewrite Hk. cbn [mbind option_bind]. rewrite IH, <-app_assoc; [done| |cbn [length] in Hn; lia].
    unfold size in *. rewrite !length_app in *. lia.
Qed.

Lemma foldl_push ks s : foldl push_data s ks = s ++ concat (push_data [] <$> ks).
Proof.
  revert s. induction ks as [|k ks IH]; intros s; cbn [foldl fmap list_fmap concat]; [by rewrite app_nil_r|].
  by rewrite IH, push_data_app, app_assoc.
Qed.

Lemma multisig_script_eq m keys : GetScriptForMultisig m keys =
  push_int64 [] m ++ concat (push_data [] <$> keys) ++ push_int64 [] (Z.of_nat (length keys)) ++ [0xae].
Proof. unfold GetScriptForMultisig, push_op. by rewrite push_int64_app, foldl_push, <-!app_assoc. Qed.

Lemma push_key k : CPubKey_ValidSize k = true → push_data [] k = size k :: k.
Proof. intros [E|E]%valid_key_size; unfold push_data, AppendDataSize; by rewrite E. Qed.

Lemma keys_size ks : Forall (λ k, CPubKey_ValidSize k = true) ks →
  size (concat (push_data [] <$> ks)) <= 66 * Z.of_nat (length ks).
Proof.
  induction 1 as [|k ks Hk _ IH]; [done|]. cbn [fmap list_fmap concat]. rewrite (push_key k Hk).
  unfold size in *. cbn [app length]. rewrite length_app. destruct (valid_key_size k Hk) as [E|E]; unfold size in E; lia.
Qed.

Lemma keys_length ks : Forall (λ k, CPubKey_ValidSize k = true) ks → (length ks <= length (concat (push_data [] <$> ks)))%nat.
Proof.
  induction 1 as [|k ks Hk _ IH]; [done|]. cbn [fmap list_fmap concat length]. rewrite (push_key k Hk).
  cbn [app length]. rewrite length_app. lia.
Qed.

Lemma MatchMultisig_script m keys : 1 <= m <= Z.of_nat (length keys) → Z.of_nat (length keys) <= 20 →
  Forall (λ k, CPubKey_ValidSize k = true) keys →
  MatchMultisig (GetScriptForMultisig m keys) = Some (Some (m, keys)).
Proof.
  intros Hm Hn Hk. rewrite multisig_script_eq. set (n := Z.of_nat (length keys)) in *.
  destruct (push_number m) as (b & x & o & d & Eb & _ & _ & Hg & Hs); [lia|].
  destruct (push_number n) as (b' & x' & o' & d' & Eb' & Hb' & Hd' & Hg' & Hs'); [lia|].
  pose proof (keys_size keys Hk) as Hz. set (ks := concat (push_data [] <$> keys)) in *.
  assert (Hx : size (push_int64 [] n ++ [0xae]) <= 10).
  { assert (∀ k, 1 <= k <= 20 → size (push_int64 [] k) <= 9) as A.
    { intros k ?. assert (k ∈ seqZ 1 20) as Hin by (apply elem_of_seqZ; lia). revert Hin.
      repeat (intros [-> | Hin]%elem_of_cons; [by vm_compute|revert Hin]). by intros ?%elem_of_nil. }
    specialize (A n ltac:(lia)). unfold size in *. rewrite length_app. cbn [length]. lia. }
  unfold MatchMultisig.
  assert (Es : (size (push_int64 [] m ++ ks ++ push_int64 [] n ++ [0xae]) <? 1) = false).
  { rewrite Eb. apply Z.ltb_ge. unfold size. cbn [app length]. lia. }
  rewrite Es. assert (back (push_int64 [] m ++ ks ++ push_int64 [] n ++ [0xae]) = Some 0xae) as ->
    by (rewrite !app_assoc; apply back_snoc).
  change (0xae =? op_num OP_CHECKMULTISIG) with true. cbn [orb negb].
  rewrite Hg by (unfold size in *; rewrite length_app; lia). rewrite Hs by (unfold MAX_PUBKEYS_PER_MULTISIG; lia).
  cbn [mbind option_bind]. unfold multisig_keys.
  rewrite (multisig_keys_push keys (push_int64 [] n ++ [0xae]) [0xae] o' d' Hk); [| |by apply Hg'|done|].
  - cbn [mbind option_bind app]. rewrite Hs' by (unfold MAX_PUBKEYS_PER_MULTISIG; lia). cbn [mbind option_bind].
    fold n. by rewrite Z.eqb_refl.
  - fold ks. unfold size in *. rewrite length_app. lia.
  - rewrite length_app. pose proof (keys_length keys Hk) as Hle. fold ks in Hle. lia.
Qed.

(** A list of a known length, by its elements. *)
Tactic Notation "explode" ident(h) integer(n) := do n (destruct h as [|? h]; [done|]); destruct h;
  [|unfold size in *; cbn [length] in *; lia].

Lemma Solver_p2pkh h : size h = 20 → Solver (p2wpkh_script h) = Some (PUBKEYHASH, [h]).
Proof. intros Hh. explode h 20. reflexivity. Qed.

Lemma Solver_p2sh h : size h = 20 → Solver (push_op (push_data (push_op [] OP_HASH160) h) OP_EQUAL) = Some (SCRIPTHASH, [h]).
Proof. intros Hh. explode h 20. reflexivity. Qed.

Lemma Solver_p2wpkh h : size h = 20 → Solver (push_data (push_op [] OP_0) h) = Some (WITNESS_V0_KEYHASH, [h]).
Proof. intros Hh. explode h 20. reflexivity. Qed.

Lemma Solver_p2wsh h : size h = 32 → Solver (push_data (push_op [] OP_0) h) = Some (WITNESS_V0_SCRIPTHASH, [h]).
Proof. intros Hh. explode h 32. reflexivity. Qed.

Lemma Solver_p2tr h : size h = 32 → Solver (push_data (push_op [] OP_1) h) = Some (WITNESS_V1_TAPROOT, [h]).
Proof. intros Hh. explode h 32. reflexivity. Qed.

(** A script that begins with a push is no witness program, unless the push is the
    rest of it. *)
Lemma not_program b c s : size (b :: c :: s) ≠ c + 2 → IsWitnessProgram (b :: c :: s) = None.
Proof.
  intros H. unfold IsWitnessProgram. case_match; [done|]. case_match; [done|].
  by rewrite (proj2 (Z.eqb_neq _ _)) by congruence.
Qed.

Lemma Solver_pubkey key : CPubKey_ValidSize key = true → Solver (GetScriptForRawPubKey key) = Some (PUBKEY, [key]).
Proof.
  intros Hk. pose proof (MatchPayToPubkey_key key Hk) as Hm. pose proof (valid_key_size key Hk) as Hs.
  assert (E : GetScriptForRawPubKey key = size key :: key ++ [0xac]).
  { unfold GetScriptForRawPubKey, push_op, push_data, AppendDataSize. by destruct Hs as [-> | ->]. }
  assert (Sz : size (size key :: key ++ [0xac]) = size key + 2) by (unfold size; cbn [length]; rewrite length_app; cbn [length]; lia).
  rewrite E in Hm |- *. unfold Solver, IsPayToScriptHash. rewrite Hm, Sz.
  assert (W : IsWitnessProgram (size key :: key ++ [0xac]) = None).
  { unfold IsWitnessProgram. rewrite Sz. destruct key as [|c key]; [by destruct Hs|]. cbn [app].
    destruct Hs as [-> | ->]; by case_match. }
  rewrite W. by destruct Hs as [-> | ->].
Qed.

Lemma Solver_multisig m keys : 1 <= m <= Z.of_nat (length keys) → Z.of_nat (length keys) <= 20 →
  Forall (λ k, CPubKey_ValidSize k = true) keys →
  Solver (GetScriptForMultisig m keys) = Some (MULTISIG, [m] :: keys ++ [[Z.of_nat (length keys)]]).
Proof.
  intros Hm Hn Hk. pose proof (MatchMultisig_script m keys Hm Hn Hk) as HM. revert HM. rewrite multisig_script_eq.
  destruct (push_number m) as (b & x & _ & _ & Eb & Hb & _); [lia|]. rewrite Eb. cbn [app]. intros HM.
  rewrite Solver_other, HM; cbn [mbind option_bind]; [rewrite (u8_small m), (u8_small (Z.of_nat (length keys))) by (unfold in_u8; lia); done|cbn [op_num]; lia..| |].
  - destruct Hb as [-> | [Hb ->]].
    { unfold IsWitnessProgram. case_match; [done|]. by case_match. }
    destruct keys as [|k keys]; [cbn [length] in Hm; lia|]. apply Forall_cons_1 in Hk as [Hk _].
    cbn [app fmap list_fmap concat]. rewrite (push_key k Hk). cbn [app]. apply not_program.
    unfold size. cbn [length]. rewrite !length_app. cbn [length]. lia.
  - rewrite app_comm_cons, !app_assoc. by apply back_pubkey.
Qed.

(** [Solver] recognises the scripts that the node makes, and returns their data:
    for hashes of their sizes the outputs to a key hash, a script hash, a witness
    key hash, a witness script hash and a taproot key; for a public key of a valid
    form its output; and for 1 <= m <= n <= 20 valid keys the m-of-n script.  On
    every script it returns. *)
Theorem solver_classifies (h20 h32 key : list Z) (m : Z) (keys : list (list Z)) :
  size h20 = 20 → size h32 = 32 → CPubKey_ValidSize key = true →
  1 <= m <= Z.of_nat (length keys) → Z.of_nat (length keys) <= 20 → Forall (λ k, CPubKey_ValidSize k = true) keys →
  Solver (p2wpkh_script h20) = Some (PUBKEYHASH, [h20]) ∧
  Solver (push_op (push_data (push_op [] OP_HASH160) h20) OP_EQUAL) = Some (SCRIPTHASH, [h20]) ∧
  Solver (push_data (push_op [] OP_0) h20) = Some (WITNESS_V0_KEYHASH, [h20]) ∧
  Solver (push_data (push_op [] OP_0) h32) = Some (WITNESS_V0_SCRIPTHASH, [h32]) ∧
  Solver (push_data (push_op [] OP_1) h32) = Some (WITNESS_V1_TAPROOT, [h32]) ∧
  Solver (GetScriptForRawPubKey key) = Some (PUBKEY, [key]) ∧
  Solver (GetScriptForMultisig m keys) = Some (MULTISIG, [m] :: keys ++ [[Z.of_nat (length keys)]]) ∧
  ∀ s, is_Some (Solver s).
Proof.
  intros H20 H32 Hkey Hm Hn Hk. split_and!; [by apply Solver_p2pkh|by apply Solver_p2sh|by apply Solver_p2wpkh|
    by apply Solver_p2wsh|by apply Solver_p2tr|by apply Solver_pubkey|by apply Solver_multisig|apply Solver_total].
Qed.

(** ** Instances *)

Lemma solver_classifies_witness :
  Solver (GetScriptForMultisig 1 [2 :: replicate 32 7]) = Some (MULTISIG, [[1]; 2 :: replicate 32 7; [1]]).
Proof.
  destruct (solver_classifies (replicate 20 1) (replicate 32 1) (3 :: replicate 32 1) 1 [2 :: replicate 32 7])
    as (_ & _ & _ & _ & _ & _ & H & _); [reflexivity|reflexivity|reflexivity|simpl; lia|simpl; lia| |exact H].
  apply Forall_cons_2; [reflexivity|constructor].
Defined.
