(* ===== verification/Sign.v ===== *)
(** Signing (script/sign.h and .cpp, script/signingprovider.h and .cpp): providers
    of keys and scripts, the signature creator for a transaction, [SignStep] and
    [ProduceSignature].

    A provider is the record of its methods, which answer with an option.  The
    signing of taproot outputs and the satisfaction of miniscripts are arguments;
    the fields of [SignatureData] that only they use are the one field [sd_rest].
    Functions that sign take and return the state of the random source. *)
From stdpp Require Import gmap.
From S2P Require Import Prelude SpxIface OqsSig KeccakP Sha3 Sha3Api MlSign OqsMlDsa Serial QSig Script Node QPubKey Interp Verify QKey Tx TxChecker Solver.

Open Scope list_scope.
Open Scope Z_scope.

Record KeyOriginInfo := { fingerprint : list Z; path : list Z }.

Definition COIN : Z := 100000000.
Definition MAX_MONEY : Z := 21000000 * COIN.
Definition MoneyRange (nValue : Z) : bool := (0 <=? nValue) && (nValue <=? MAX_MONEY).

Definition flags_or (l : list Z) : Z := foldr Z.lor 0 l.

Definition MANDATORY_SCRIPT_VERIFY_FLAGS : Z := flags_or
  [SCRIPT_VERIFY_P2SH; SCRIPT_VERIFY_DERSIG; SCRIPT_VERIFY_NULLDUMMY; SCRIPT_VERIFY_CHECKLOCKTIMEVERIFY;
   SCRIPT_VERIFY_CHECKSEQUENCEVERIFY; SCRIPT_VERIFY_WITNESS; SCRIPT_VERIFY_TAPROOT; SCRIPT_VERIFY_QUANTUM_SIGS].

Definition STANDARD_SCRIPT_VERIFY_FLAGS : Z := flags_or
  [MANDATORY_SCRIPT_VERIFY_FLAGS; SCRIPT_VERIFY_STRICTENC; SCRIPT_VERIFY_MINIMALDATA;
   SCRIPT_VERIFY_DISCOURAGE_UPGRADABLE_NOPS; SCRIPT_VERIFY_CLEANSTACK; SCRIPT_VERIFY_MINIMALIF; SCRIPT_VERIFY_NULLFAIL;
   SCRIPT_VERIFY_LOW_S; SCRIPT_VERIFY_DISCOURAGE_UPGRADABLE_WITNESS_PROGRAM; SCRIPT_VERIFY_WITNESS_PUBKEYTYPE;
   SCRIPT_VERIFY_CONST_SCRIPTCODE; SCRIPT_VERIFY_DISCOURAGE_UPGRADABLE_TAPROOT_VERSION;
   SCRIPT_VERIFY_DISCOURAGE_OP_SUCCESS; SCRIPT_VERIFY_DISCOURAGE_UPGRADABLE_PUBKEYTYPE; SCRIPT_VERIFY_QUANTUM_SIGS].

Section sign.
Context {C : NodeCrypto} (callbacks : OQS_SHA3_callbacks) {U : Uninit} (fuel tries : nat).
Context {rng : Type} {K : CKeyOps rng} (GetStrongRandBytes : rng → nat → list Z * rng) (malloc_ok : bool).
(** The fields of [SignatureData] for taproot and miniscript. *)
Context {R : Type}.

(** ** Providers *)

Record SigningProvider := {
  GetCScript : list Z → option (list Z);
  sp_GetPubKey : list Z → option (list Z);
  GetKey : list Z → option CKey;
  GetKeyOrigin : list Z → option KeyOriginInfo;
  GetQuantumKey : list Z → option CQuantumKey;
  GetQuantumPubKey : list Z → option CQuantumPubKey;
  HaveQuantumKey : list Z → bool;
}.

(** The base class answers nothing. *)
Definition DUMMY_SIGNING_PROVIDER : SigningProvider := {|
  GetCScript _ := None; sp_GetPubKey _ := None; GetKey _ := None; GetKeyOrigin _ := None;
  GetQuantumKey _ := None; GetQuantumPubKey _ := None; HaveQuantumKey _ := false;
|}.

(** A quantum key is held by a pointer, which may be null. *)
Record FlatSigningProvider := {
  scripts : gmap (list Z) (list Z);
  pubkeys : gmap (list Z) (list Z);
  origins : gmap (list Z) (list Z * KeyOriginInfo);
  keys : gmap (list Z) CKey;
  quantum_keys : gmap (list Z) (option CQuantumKey);
  quantum_pubkeys : gmap (list Z) CQuantumPubKey;
}.

Definition flat_provider (p : FlatSigningProvider) : SigningProvider := {|
  GetCScript id := scripts p !! id;
  sp_GetPubKey id := pubkeys p !! id;
  GetKey id := keys p !! id;
  GetKeyOrigin id := snd <$> origins p !! id;
  GetQuantumKey id := match quantum_keys p !! id with Some key => key | None => None end;
  GetQuantumPubKey id := quantum_pubkeys p !! id;
  HaveQuantumKey id := bool_decide (is_Some (quantum_keys p !! id));
|}.

(** [std::map::merge] keeps what is there; the quantum keys are overwritten. *)
Definition Merge (a b : FlatSigningProvider) : FlatSigningProvider := {|
  scripts := scripts a ∪ scripts b;
  pubkeys := pubkeys a ∪ pubkeys b;
  origins := origins a ∪ origins b;
  keys := keys a ∪ keys b;
  quantum_keys := quantum_keys b ∪ quantum_keys a;
  quantum_pubkeys := quantum_pubkeys a ∪ quantum_pubkeys b;
|}.

(** The wrappers override only the methods for scripts and elliptic-curve keys. *)
Definition hiding_provider (m_hide_secret m_hide_origin : bool) (m_provider : SigningProvider) : SigningProvider := {|
  GetCScript := GetCScript m_provider;
  sp_GetPubKey := sp_GetPubKey m_provider;
  GetKey id := if m_hide_secret then None else GetKey m_provider id;
  GetKeyOrigin id := if m_hide_origin then None else GetKeyOrigin m_provider id;
  GetQuantumKey := GetQuantumKey DUMMY_SIGNING_PROVIDER;
  GetQuantumPubKey := GetQuantumPubKey DUMMY_SIGNING_PROVIDER;
  HaveQuantumKey := HaveQuantumKey DUMMY_SIGNING_PROVIDER;
|}.

Definition first_answer {A} (f : SigningProvider → option A) (m_providers : list SigningProvider) : option A :=
  foldr (λ p r, match f p with Some a => Some a | None => r end) None m_providers.

Definition multi_provider (m_providers : list SigningProvider) : SigningProvider := {|
  GetCScript id := first_answer (λ p, GetCScript p id) m_providers;
  sp_GetPubKey id := first_answer (λ p, sp_GetPubKey p id) m_providers;
  GetKey id := first_answer (λ p, GetKey p id) m_providers;
  GetKeyOrigin id := first_answer (λ p, GetKeyOrigin p id) m_providers;
  GetQuantumKey := GetQuantumKey DUMMY_SIGNING_PROVIDER;
  GetQuantumPubKey := GetQuantumPubKey DUMMY_SIGNING_PROVIDER;
  HaveQuantumKey := HaveQuantumKey DUMMY_SIGNING_PROVIDER;
|}.

(** ** Creators of signatures *)

(** [CreateSig]: the provider, the buffer, the key identifier, the script code and
    the version of the rules. *)
Record BaseSignatureCreator := {
  creator_CreateSig : SigningProvider → list Z → list Z → list Z → SigVersion → rng → outcome (bool * list Z * rng);
  Checker : BaseSignatureChecker;
}.

Section creator.
Context (m_txto : CTransaction) (nIn : nat) (amount : Z) (m_txdata : option PrecomputedTransactionData) (nHashType : Z).

Definition creator_hashtype : Z := if nHashType =? SIGHASH_DEFAULT then SIGHASH_ALL else nHashType.
Definition algo_id (qkey : CQuantumKey) : Z :=
  if decide (m_type qkey = ML_DSA_65) then SCHEME_ML_DSA_65 else SCHEME_SLH_DSA_192F.

Definition tx_CreateSig (provider : SigningProvider) (vchSig address scriptCode : list Z) (sigversion : SigVersion)
    (g : rng) : outcome (bool * list Z * rng) :=
  if negb (bool_decide (sigversion = BASE) || bool_decide (sigversion = WITNESS_V0)) then Crash else
  let hashtype := creator_hashtype in
  match GetQuantumKey provider address with
  | Some qkey =>
      hash ← or_crash (SignatureHash scriptCode m_txto nIn hashtype amount sigversion m_txdata);
      '(ok, qsig, g) ← CQuantumKey_Sign callbacks fuel tries GetStrongRandBytes malloc_ok qkey hash [] g;
      if negb ok then Ok (false, vchSig, g)
      else if decide (sigversion = WITNESS_V0) then Ok (true, algo_id qkey :: qsig ++ [u8 hashtype], g)
      else
        let quantumSig := {| scheme_id := algo_id qkey; signature := qsig; pubkey := m_vchPubKey (GetPubKey qkey) |} in
        vchSig ← or_crash (Serialize quantumSig vchSig);
        Ok (true, vchSig ++ [u8 hashtype], g)
  | None =>
      match GetKey provider address with
      | None => Ok (false, vchSig, g)
      | Some key =>
          if bool_decide (sigversion = WITNESS_V0) && negb (CKey_IsCompressed key) then Ok (false, vchSig, g) else
          if bool_decide (sigversion = WITNESS_V0) && negb (MoneyRange amount) then Ok (false, vchSig, g) else
          hash ← or_crash (SignatureHash scriptCode m_txto nIn hashtype amount sigversion m_txdata);
          let '(ok, vchSig) := CKey_Sign key hash vchSig in
          Ok (if (ok : bool) then (true, vchSig ++ [u8 hashtype], g) else (false, vchSig, g))
      end
  end.

Definition tx_creator : BaseSignatureCreator := {|
  creator_CreateSig := tx_CreateSig;
  Checker := tx_checker callbacks fuel tries GetStrongRandBytes malloc_ok m_txto FAIL nIn amount m_txdata;
|}.
End creator.

(** ** The data of an input *)

Record SignatureData := {
  complete : bool;
  witness : bool;
  sd_scriptSig : list Z;
  redeem_script : list Z;
  witness_script : list Z;
  sd_scriptWitness : list (list Z);
  signatures : gmap (list Z) (list Z * list Z);
  misc_pubkeys : gmap (list Z) (list Z * KeyOriginInfo);
  tap_pubkeys : gmap (list Z) (list Z);
  missing_pubkeys : list (list Z);
  missing_sigs : list (list Z);
  missing_redeem_script : list Z;
  missing_witness_script : list Z;
  sd_rest : R;
}.

Definition SignatureData_new (r : R) : SignatureData := {|
  complete := false; witness := false; sd_scriptSig := []; redeem_script := []; witness_script := []; sd_scriptWitness := [];
  signatures := ∅; misc_pubkeys := ∅; tap_pubkeys := ∅; missing_pubkeys := []; missing_sigs := [];
  missing_redeem_script := replicate 20 0; missing_witness_script := replicate 32 0; sd_rest := r;
|}.

Definition set_complete (d : SignatureData) (b : bool) : SignatureData :=
  Build_SignatureData b (witness d) (sd_scriptSig d) (redeem_script d) (witness_script d) (sd_scriptWitness d) (signatures d)
    (misc_pubkeys d) (tap_pubkeys d) (missing_pubkeys d) (missing_sigs d) (missing_redeem_script d) (missing_witness_script d) (sd_rest d).
(** The flag and the stack of the witness. *)
Definition set_witness (d : SignatureData) (b : bool) (stack : list (list Z)) : SignatureData :=
  Build_SignatureData (complete d) b (sd_scriptSig d) (redeem_script d) (witness_script d) stack (signatures d)
    (misc_pubkeys d) (tap_pubkeys d) (missing_pubkeys d) (missing_sigs d) (missing_redeem_script d) (missing_witness_script d) (sd_rest d).
Definition set_scriptSig (d : SignatureData) (s : list Z) : SignatureData :=
  Build_SignatureData (complete d) (witness d) s (redeem_script d) (witness_script d) (sd_scriptWitness d) (signatures d)
    (misc_pubkeys d) (tap_pubkeys d) (missing_pubkeys d) (missing_sigs d) (missing_redeem_script d) (missing_witness_script d) (sd_rest d).
Definition set_scripts (d : SignatureData) (redeem wit : list Z) : SignatureData :=
  Build_SignatureData (complete d) (witness d) (sd_scriptSig d) redeem wit (sd_scriptWitness d) (signatures d)
    (misc_pubkeys d) (tap_pubkeys d) (missing_pubkeys d) (missing_sigs d) (missing_redeem_script d) (missing_witness_script d) (sd_rest d).
Definition set_signatures (d : SignatureData) (m : gmap (list Z) (list Z * list Z)) : SignatureData :=
  Build_SignatureData (complete d) (witness d) (sd_scriptSig d) (redeem_script d) (witness_script d) (sd_scriptWitness d) m
    (misc_pubkeys d) (tap_pubkeys d) (missing_pubkeys d) (missing_sigs d) (missing_redeem_script d) (missing_witness_script d) (sd_rest d).
Definition set_misc_pubkeys (d : SignatureData) (m : gmap (list Z) (list Z * KeyOriginInfo)) : SignatureData :=
  Build_SignatureData (complete d) (witness d) (sd_scriptSig d) (redeem_script d) (witness_script d) (sd_scriptWitness d) (signatures d)
    m (tap_pubkeys d) (missing_pubkeys d) (missing_sigs d) (missing_redeem_script d) (missing_witness_script d) (sd_rest d).
Definition set_missing (d : SignatureData) (mp ms : list (list Z)) (mr mw : list Z) : SignatureData :=
  Build_SignatureData (complete d) (witness d) (sd_scriptSig d) (redeem_script d) (witness_script d) (sd_scriptWitness d) (signatures d)
    (misc_pubkeys d) (tap_pubkeys d) mp ms mr mw (sd_rest d).

(** ** The steps of signing *)

Definition CScriptID (script : list Z) : list Z := CHash160 script.
Definition CPubKey_GetID (pubkey : list Z) : list Z := CHash160 pubkey.

Definition get_script (provider : SigningProvider) (sigdata : SignatureData) (scriptid : list Z) : option (list Z) :=
  match GetCScript provider scriptid with
  | Some script => Some script
  | None =>
      if decide (CScriptID (redeem_script sigdata) = scriptid) then Some (redeem_script sigdata)
      else if decide (CScriptID (witness_script sigdata) = scriptid) then Some (witness_script sigdata)
      else None
  end.

(** The public key with an even coordinate for an x-only key. *)
Definition get_pubkey (provider : SigningProvider) (sigdata : SignatureData) (address : list Z) : option (list Z) :=
  match signatures sigdata !! address with
  | Some (pubkey, _) => Some pubkey
  | None =>
      match misc_pubkeys sigdata !! address with
      | Some (pubkey, _) => Some pubkey
      | None =>
          match tap_pubkeys sigdata !! address with
          | Some xonly => Some (2 :: xonly)
          | None => sp_GetPubKey provider address
          end
      end
  end.

(** [emplace] does not replace what is there. *)
Definition create_sig (creator : BaseSignatureCreator) (sigdata : SignatureData) (provider : SigningProvider)
    (sig_out pubkey scriptcode : list Z) (sigversion : SigVersion) (g : rng)
    : outcome (bool * list Z * SignatureData * rng) :=
  let keyid := CPubKey_GetID pubkey in
  match signatures sigdata !! keyid with
  | Some (_, s) => Ok (true, s, sigdata, g)
  | None =>
      let sigdata :=
        match GetKeyOrigin provider keyid with
        | Some info => set_misc_pubkeys sigdata (misc_pubkeys sigdata ∪ {[keyid := (pubkey, info)]})
        | None => sigdata
        end in
      '(ok, sig_out, g) ← creator_CreateSig creator provider sig_out keyid scriptcode sigversion g;
      if (ok : bool) then Ok (true, sig_out, set_signatures sigdata (<[keyid := (pubkey, sig_out)]> (signatures sigdata)), g)
      else Ok (false, sig_out,
        set_missing sigdata (missing_pubkeys sigdata) (missing_sigs sigdata ++ [keyid]) (missing_redeem_script sigdata)
          (missing_witness_script sigdata), g)
  end.

(** The algorithm and the key of a witness script that ends in OP_CHECKSIG_EX; an
    identifier of zero or an empty key is none. *)
Definition parse_quantum_script (script : list Z) : option (Z * list Z) :=
  if negb (match back script with Some b => b =? op_num OP_CHECKSIG_EX | None => false end) then None else
  '(pc, _, vchData) ← GetScriptOp script;
  let '(algo_id, vchPubKey) :=
    if size vchData =? 1 then
      (match vchData with b :: _ => b | [] => 0 end,
       match GetScriptOp pc with Some (_, _, d) => d | None => [] end)
    else if size vchData =? 1952 then (SCHEME_ML_DSA_65, vchData)
    else if 30000 <? size vchData then (SCHEME_SLH_DSA_192F, vchData)
    else (0, []) in
  if negb (algo_id =? 0) && negb (bool_decide (vchPubKey = [])) then Some (algo_id, vchPubKey) else None.

(** The case of a script that [Solver] does not know. *)
Definition SignStep_quantum (provider : SigningProvider) (creator : BaseSignatureCreator) (script : list Z)
    (sigversion : SigVersion) (g : rng) : outcome (bool * list (list Z) * rng) :=
  if negb (bool_decide (sigversion = WITNESS_V0)) then Ok (false, [], g) else
  match parse_quantum_script script with
  | None => Ok (false, [], g)
  | Some (algo_id, vchPubKey) =>
      match scheme_key_type algo_id with
      | None => Ok (false, [], g)
      | Some keyType =>
          let qPubKey := {| pk_type := keyType; m_vchPubKey := vchPubKey |} in
          if CQuantumPubKey_IsValid qPubKey then
            '(ok, sig, g) ← creator_CreateSig creator provider [] (CQuantumPubKey_GetID qPubKey) script sigversion g;
            Ok (if (ok : bool) then (true, [sig], g) else (false, [], g))
          else Ok (false, [], g)
      end
  end.

(** The loop over the keys of a multisig script: a signature is moved into the
    result while fewer than [required] are there. *)
Fixpoint multisig_sign (provider : SigningProvider) (creator : BaseSignatureCreator) (script : list Z) (sigversion : SigVersion)
    (required : nat) (ks : list (list Z)) (ret : list (list Z)) (sig : list Z) (sigdata : SignatureData) (g : rng)
    : outcome (list (list Z) * SignatureData * rng) :=
  match ks with
  | [] => Ok (ret, sigdata, g)
  | k :: ks =>
      '(ok, sig, sigdata, g) ← create_sig creator sigdata provider sig (CPubKey_Set k) script sigversion g;
      if (ok : bool) && (length ret <? required + 1)%nat
      then multisig_sign provider creator script sigversion required ks (ret ++ [sig]) [] sigdata g
      else multisig_sign provider creator script sigversion required ks ret sig sigdata g
  end.

(** The padding with empty elements: both the counter and the result grow. *)
Fixpoint multisig_pad (n i required : nat) (ret : list (list Z)) : list (list Z) :=
  match n with
  | O => ret
  | S n => if (i + length ret <? required + 1)%nat then multisig_pad n (S i) required (ret ++ [[]]) else ret
  end.

Context (SignTaproot : SigningProvider → BaseSignatureCreator → list Z → SignatureData → rng →
  outcome (bool * list (list Z) * SignatureData * rng)).

Definition SignStep (provider : SigningProvider) (creator : BaseSignatureCreator) (script : list Z)
    (sigversion : SigVersion) (sigdata : SignatureData) (g : rng)
    : outcome (bool * list (list Z) * TxoutType * SignatureData * rng) :=
  '(whichType, vSolutions) ← or_crash (Solver script);
  match whichType with
  | NONSTANDARD =>
      '(ok, ret, g) ← SignStep_quantum provider creator script sigversion g;
      Ok (ok, ret, whichType, sigdata, g)
  | NULL_DATA | WITNESS_UNKNOWN => Ok (false, [], whichType, sigdata, g)
  | PUBKEY =>
      s0 ← or_crash (vSolutions !! 0%nat);
      '(ok, sig, sigdata, g) ← create_sig creator sigdata provider [] (CPubKey_Set s0) script sigversion g;
      Ok (ok, (if (ok : bool) then [sig] else []), whichType, sigdata, g)
  | PUBKEYHASH =>
      keyID ← or_crash (vSolutions !! 0%nat);
      match get_pubkey provider sigdata keyID with
      | None =>
          Ok (false, [], whichType,
            set_missing sigdata (missing_pubkeys sigdata ++ [keyID]) (missing_sigs sigdata) (missing_redeem_script sigdata)
              (missing_witness_script sigdata), g)
      | Some pubkey =>
          '(ok, sig, sigdata, g) ← create_sig creator sigdata provider [] pubkey script sigversion g;
          Ok (ok, (if (ok : bool) then [sig; pubkey] else []), whichType, sigdata, g)
      end
  | SCRIPTHASH =>
      h160 ← or_crash (vSolutions !! 0%nat);
      match get_script provider sigdata h160 with
      | Some scriptRet => Ok (true, [scriptRet], whichType, sigdata, g)
      | None =>
          Ok (false, [], whichType,
            set_missing sigdata (missing_pubkeys sigdata) (missing_sigs sigdata) h160 (missing_witness_script sigdata), g)
      end
  | MULTISIG =>
      s0 ← or_crash (vSolutions !! 0%nat);
      r ← or_crash (s0 !! 0%nat);
      let required := Z.to_nat r in
      let ks := take (length vSolutions - 2) (drop 1 vSolutions) in
      '(ret, sigdata, g) ← multisig_sign provider creator script sigversion required ks [[]] [] sigdata g;
      Ok ((length ret =? required + 1)%nat, multisig_pad (required + 1) 0 required ret, whichType, sigdata, g)
  | WITNESS_V0_KEYHASH =>
      s0 ← or_crash (vSolutions !! 0%nat);
      Ok (true, [s0], whichType, sigdata, g)
  | WITNESS_V0_SCRIPTHASH =>
      s0 ← or_crash (vSolutions !! 0%nat);
      match get_script provider sigdata (CRIPEMD160 s0) with
      | Some scriptRet => Ok (true, [scriptRet], whichType, sigdata, g)
      | None =>
          Ok (false, [], whichType,
            set_missing sigdata (missing_pubkeys sigdata) (missing_sigs sigdata) (missing_redeem_script sigdata) s0, g)
      end
  | WITNESS_V1_TAPROOT =>
      s0 ← or_crash (vSolutions !! 0%nat);
      '(ok, ret, sigdata, g) ← SignTaproot provider creator s0 sigdata g;
      Ok (ok, ret, whichType, sigdata, g)
  | ANCHOR => Ok (true, [], whichType, sigdata, g)
  end.

Definition PushAll (values : list (list Z)) : list Z :=
  foldl (λ result v,
    match v with
    | [] => push_op result OP_0
    | b :: _ =>
        if (size v =? 1) && (1 <=? b) && (b <=? 16) then push_op result (EncodeOP_N b)
        else if (size v =? 1) && (b =? 0x81) then push_op result OP_1NEGATE
        else if MAX_SCRIPT_ELEMENT_SIZE <? size v then push_op result OP_0
        else push_data result v
    end) [] values.

(** The satisfaction of a miniscript: whether it is available, and the stack. *)
Context (Satisfy : SigningProvider → BaseSignatureCreator → list Z → SignatureData → rng →
  outcome (bool * list (list Z) * SignatureData * rng)).

(** The part for a pay-to-witness-script-hash output: whether it is solved, and
    the data with the witness. *)
Definition sign_witness_script (provider : SigningProvider) (creator : BaseSignatureCreator) (witnessscript : list Z)
    (sigdata : SignatureData) (g : rng) : outcome (bool * SignatureData * rng) :=
  let sigdata := set_scripts sigdata (redeem_script sigdata) witnessscript in
  '(ok, result, subType, sigdata, g) ← SignStep provider creator witnessscript WITNESS_V0 sigdata g;
  let solved := (ok : bool) && negb (bool_decide (subType = SCRIPTHASH)) && negb (bool_decide (subType = WITNESS_V0_SCRIPTHASH)) &&
    negb (bool_decide (subType = WITNESS_V0_KEYHASH)) in
  '(solved, result, sigdata, g) ← (if negb solved && bool_decide (result = [])
    then Satisfy provider creator witnessscript sigdata g else Ok (solved, result, sigdata, g));
  Ok (solved, set_witness sigdata true (result ++ [witnessscript]), g).

(** The part after the output has been solved: whether it is solved, what goes
    into the signature script, and the data. *)
Definition sign_witness (provider : SigningProvider) (creator : BaseSignatureCreator) (P2SH solved : bool)
    (result : list (list Z)) (whichType : TxoutType) (sigdata : SignatureData) (g : rng)
    : outcome (bool * list (list Z) * SignatureData * rng) :=
  if solved && bool_decide (whichType = WITNESS_V0_KEYHASH) then
    r0 ← or_crash (result !! 0%nat);
    '(ok, result, _, sigdata, g) ← SignStep provider creator (p2wpkh_script r0) WITNESS_V0 sigdata g;
    Ok (ok, [], set_witness sigdata true result, g)
  else if solved && bool_decide (whichType = WITNESS_V0_SCRIPTHASH) then
    witnessscript ← or_crash (result !! 0%nat);
    '(solved, sigdata, g) ← sign_witness_script provider creator witnessscript sigdata g;
    Ok (solved, [], sigdata, g)
  else if bool_decide (whichType = WITNESS_V1_TAPROOT) && negb P2SH then
    Ok (solved, [], set_witness sigdata true (if solved then result else sd_scriptWitness sigdata), g)
  else if solved && bool_decide (whichType = WITNESS_UNKNOWN) then
    Ok (solved, result, set_witness sigdata true (sd_scriptWitness sigdata), g)
  else Ok (solved, result, sigdata, g).

Definition ProduceSignature (provider : SigningProvider) (creator : BaseSignatureCreator) (fromPubKey : list Z)
    (sigdata : SignatureData) (g : rng) : outcome (bool * SignatureData * rng) :=
  if complete sigdata then Ok (true, sigdata, g) else
  '(solved, result, whichType, sigdata, g) ← SignStep provider creator fromPubKey BASE sigdata g;
  '(P2SH, subscript, solved, result, whichType, sigdata, g) ←
    (if (solved : bool) && bool_decide (whichType = SCRIPTHASH) then
       subscript ← or_crash (result !! 0%nat);
       let sigdata := set_scripts sigdata subscript (witness_script sigdata) in
       '(ok, result, whichType, sigdata, g) ← SignStep provider creator subscript BASE sigdata g;
       Ok (true, subscript, (ok : bool) && negb (bool_decide (whichType = SCRIPTHASH)), result, whichType, sigdata, g)
     else Ok (false, [], solved, result, whichType, sigdata, g));
  '(solved, result, sigdata, g) ← sign_witness provider creator P2SH solved result whichType sigdata g;
  let sigdata := if negb (witness sigdata) then set_witness sigdata false [] else sigdata in
  let result := if (P2SH : bool) then result ++ [subscript] else result in
  let sigdata := set_scriptSig sigdata (PushAll result) in
  if (solved : bool) then
    verify_result ← match VerifyScript (sd_scriptSig sigdata) fromPubKey (Some (sd_scriptWitness sigdata))
                            STANDARD_SCRIPT_VERIFY_FLAGS (Checker creator) true with
                    | Ok _ => Ok true
                    | SErr _ => Ok false
                    | Exn => Exn
                    | Crash => Crash
                    end;
    Ok (verify_result, set_complete sigdata verify_result, g)
  else Ok (false, set_complete sigdata false, g).
End sign.
