(* ===== verification/SignP.v ===== *)
(** Theorems about signing: [ProduceSignature] with a key of ML-DSA-65 makes a
    witness that spends the key's output, with a key of SLH-DSA it fails although
    the key's signatures spend, and providers that wrap another hide its quantum
    keys. *)
From stdpp Require Import gmap.
From S2P Require Import Prelude SpxIface OqsSig KeccakP Sha3 Sha3Api MlArith MlKeys MlSig MlSign MlAttempt MlScheme MlToy MlDsa OqsMlDsa Serial QSig Script Node QPubKey Interp InterpP Verify QKey QKeyP Tx TxP TxChecker QWitness Solver Sign.

Open Scope list_scope.
Open Scope Z_scope.

(** ** Quantum scripts and the solver *)

Lemma Solver_quantum t p : quantum t → size p = pub_size t →
  Solver (CreateQuantumWitnessScript {| pk_type := t; m_vchPubKey := p |}) = Some (NONSTANDARD, []).
Proof.
  intros Ht Hp. set (s := CreateQuantumWitnessScript _).
  assert (Hz : 42 < size s).
  { unfold s. rewrite witness_script_eq. unfold push_data, size in *. cbn [m_vchPubKey]. rewrite !length_app.
    assert (48 <= pub_size t) by (by destruct Ht as [-> | ->]). lia. }
  assert (Hb : ∃ b r, s = b :: r ∧ (b = 0x4d ∨ b = 48)).
  { unfold s. rewrite witness_script_eq. unfold push_data, AppendDataSize. cbn [m_vchPubKey]. rewrite Hp.
    destruct Ht as [-> | ->]; cbn [pub_size]; [change ([] ++ ?x) with x|]; eexists _, _; (split; [reflexivity|]); auto. }
  destruct Hb as (b & r & Es & Hb). assert (Hl : s = push_data [] p ++ [0xb3]) by apply witness_script_eq.
  rewrite Es, Solver_other; [| | | | |].
  - rewrite <-Es, Hl. unfold MatchMultisig. rewrite back_snoc. change (0xb3 =? op_num OP_CHECKMULTISIG) with false.
    by rewrite orb_true_r.
  - destruct Hb as [-> | ->]; done.
  - destruct Hb as [-> | ->]; done.
  - destruct Hb as [-> | ->]; done.
  - rewrite <-Es. unfold IsWitnessProgram. rewrite (proj2 (Z.ltb_lt 42 _)) by done. by rewrite orb_true_r.
  - rewrite <-Es, Hl. by apply back_pubkey.
Qed.

Lemma parse_quantum_ml p : size p = pub_size ML_DSA_65 →
  parse_quantum_script (CreateQuantumWitnessScript {| pk_type := ML_DSA_65; m_vchPubKey := p |}) = Some (SCHEME_ML_DSA_65, p).
Proof.
  intros Hp. unfold parse_quantum_script. rewrite GetScriptOp_witness by (by left || done).
  rewrite witness_script_eq, back_snoc. change (0xb3 =? op_num OP_CHECKSIG_EX) with true. cbn [negb mbind option_bind].
  rewrite Hp. change (pub_size ML_DSA_65 =? 1) with false. change (pub_size ML_DSA_65 =? 1952) with true. cbv iota beta.
  rewrite bool_decide_false; [done|]. by intros ->.
Qed.

Lemma parse_quantum_slh p : size p = pub_size SLH_DSA_192F →
  parse_quantum_script (CreateQuantumWitnessScript {| pk_type := SLH_DSA_192F; m_vchPubKey := p |}) = None.
Proof.
  intros Hp. unfold parse_quantum_script. rewrite GetScriptOp_witness by (by right || done).
  rewrite witness_script_eq, back_snoc. change (0xb3 =? op_num OP_CHECKSIG_EX) with true. cbn [negb mbind option_bind].
  by rewrite Hp.
Qed.

(** ** Signing a quantum output *)

Section sign.
Context {C : NodeCrypto} {L : NodeCryptoLaws C} (callbacks : OQS_SHA3_callbacks) {SC : Sha3Contract callbacks} {U : Uninit}
  (fuel tries : nat).
Context {rng : Type} {K : CKeyOps rng} (GetStrongRandBytes : rng → nat → list Z * rng).
Context (Hstrong : ∀ g n, (n <= MAX_BYTES_PER_CALL)%nat →
  length (GetStrongRandBytes g n).1 = n ∧ bytes (GetStrongRandBytes g n).1).
Context {R : Type} (SignTaproot Satisfy : SigningProvider → BaseSignatureCreator → list Z → @SignatureData R → rng →
  outcome (bool * list (list Z) * @SignatureData R * rng)).
Abbreviation MakeNewKey := (MakeNewKey callbacks fuel tries GetStrongRandBytes true).
Abbreviation CQuantumKey_Sign := (CQuantumKey_Sign callbacks fuel tries GetStrongRandBytes true).
Abbreviation tx_creator := (tx_creator callbacks fuel tries GetStrongRandBytes true).
Abbreviation tx_CreateSig := (tx_CreateSig callbacks fuel tries GetStrongRandBytes true).
Abbreviation SignStep := (SignStep SignTaproot).
Abbreviation ProduceSignature := (ProduceSignature SignTaproot Satisfy).

(** The first step finds the witness script. *)
Lemma SignStep_p2wsh provider creator pub (d : SignatureData) g :
  let script := CreateQuantumWitnessScript pub in
  GetCScript provider (CHash160 script) = Some script →
  SignStep provider creator (CreateQuantumP2WSH pub) BASE d g = Ok (true, [script], WITNESS_V0_SCRIPTHASH, d, g).
Proof using L.
  cbv zeta. intros Hs. unfold SignStep, CreateQuantumP2WSH.
  rewrite Solver_p2wsh by (unfold size; by rewrite length_CSHA256). cbn [or_crash mbind outcome_bind].
  change ([?x] !! 0%nat) with (Some x). cbn [or_crash mbind outcome_bind]. unfold get_script.
  unfold CHash160 in Hs. by rewrite Hs.
Qed.

Lemma SignStep_ml provider creator p (d : SignatureData) g : size p = pub_size ML_DSA_65 →
  let pub := {| pk_type := ML_DSA_65; m_vchPubKey := p |} in
  let script := CreateQuantumWitnessScript pub in
  SignStep provider creator script WITNESS_V0 d g =
    '(ok, sig, g) ← creator_CreateSig creator provider [] (CQuantumPubKey_GetID pub) script WITNESS_V0 g;
    Ok (ok, (if (ok : bool) then [sig] else []), NONSTANDARD, d, g).
Proof.
  intros Hp. cbv zeta. unfold SignStep. rewrite Solver_quantum by (by left || done). cbn [or_crash mbind outcome_bind].
  unfold SignStep_quantum. rewrite bool_decide_true by done. cbn [negb]. rewrite parse_quantum_ml by done.
  change (scheme_key_type SCHEME_ML_DSA_65) with (Some ML_DSA_65). cbv match.
  change (CQuantumPubKey_IsValid _) with (size p =? pub_size ML_DSA_65). rewrite Hp, Z.eqb_refl.
  destruct (creator_CreateSig _ _ _ _ _ _ _) as [[[[] sig] g']| | |]; done.
Qed.

Lemma SignStep_slh provider creator p (d : SignatureData) g : size p = pub_size SLH_DSA_192F →
  SignStep provider creator (CreateQuantumWitnessScript {| pk_type := SLH_DSA_192F; m_vchPubKey := p |}) WITNESS_V0 d g =
  Ok (false, [], NONSTANDARD, d, g).
Proof.
  intros Hp. unfold SignStep. rewrite Solver_quantum by (by right || done). cbn [or_crash mbind outcome_bind].
  unfold SignStep_quantum. rewrite bool_decide_true by done. cbn [negb]. by rewrite parse_quantum_slh.
Qed.

(** The data of an input that a quantum witness completes. *)
Definition with_quantum_witness (d : @SignatureData R) (script : list Z) (sig : list Z) : SignatureData :=
  set_complete (set_scriptSig (set_witness (set_scripts d (redeem_script d) script) true [sig; script]) []) true.

Lemma standard_flags : has STANDARD_SCRIPT_VERIFY_FLAGS SCRIPT_VERIFY_WITNESS = true ∧
  has STANDARD_SCRIPT_VERIFY_FLAGS SCRIPT_VERIFY_P2SH = true ∧ has STANDARD_SCRIPT_VERIFY_FLAGS SCRIPT_VERIFY_QUANTUM_SIGS = true.
Proof. by vm_compute. Qed.

(** A signature of a new key, as the witness needs it, spends the output. *)
Lemma own_signature_spends t k0 k g g1 tx mdb nIn amount txdata ht h g2 ok s g3 : quantum t →
  MakeNewKey k0 t g = Ok (k, g1) → let pub := GetPubKey k in let script := CreateQuantumWitnessScript pub in
  CastToBool (CSHA256 script) = true → 0 <= amount → SignatureHash script tx nIn ht amount WITNESS_V0 txdata = Some h →
  CQuantumKey_Sign k h [] g2 = Ok (ok, s, g3) →
  ok = true ∧ VerifyScript [] (CreateQuantumP2WSH pub) (Some [scheme_of t :: s ++ [ht]; script]) STANDARD_SCRIPT_VERIFY_FLAGS
    (tx_checker callbacks fuel tries GetStrongRandBytes true tx mdb nIn amount txdata) true = Ok tt.
Proof using L SC Hstrong.
  intros Ht Hk. destruct (MakeNewKey_ok callbacks fuel tries GetStrongRandBytes Hstrong _ _ _ _ _ Ht Hk)
    as (Et & Hv & _ & Sp & _ & Hs).
  rewrite (GetPubKey_stored t) by done. cbv zeta. set (p := k_vchPubKey k) in *. intros Hc Ha Eh Es.
  destruct (SignatureHash_bytes _ _ _ _ _ _ _ _ Eh) as [Lh Bh].
  destruct (Hs _ _ _ _ _ _ Lh Bh Es) as (-> & Sz & Hy). split; [done|]. rewrite Et in Sz.
  destruct standard_flags as (F1 & F2 & F3).
  apply VerifyScript_quantum_ok; [done|done|done|done|done|done|]. split.
  - unfold witness_item_ok. assert (size (scheme_of t :: s ++ [ht]) = sig_size t + 2) as ->
      by (unfold size in *; cbn [length]; rewrite length_app; cbn [length]; lia).
    rewrite F3. by destruct Ht as [-> | ->].
  - apply checksig_ex_lemma. exists (scheme_of t), t, s, ht, h. split_and!; try done. by apply scheme_of_key_type.
Qed.

(** [ProduceSignature] for a quantum output, down to the step for the witness
    script. *)
Lemma ProduceSignature_p2wsh provider creator pub (d : SignatureData) g :
  let script := CreateQuantumWitnessScript pub in
  complete d = false → GetCScript provider (CHash160 script) = Some script →
  ProduceSignature provider creator (CreateQuantumP2WSH pub) d g =
  '(solved, d, g) ← sign_witness_script SignTaproot Satisfy provider creator script d g;
  let d := set_scriptSig (if negb (witness d) then set_witness d false [] else d) [] in
  if (solved : bool) then
    match VerifyScript [] (CreateQuantumP2WSH pub) (Some (sd_scriptWitness d)) STANDARD_SCRIPT_VERIFY_FLAGS (Checker creator) true with
    | Ok _ => Ok (true, set_complete d true, g)
    | SErr _ => Ok (false, set_complete d false, g)
    | Exn => Exn
    | Crash => Crash
    end
  else Ok (false, set_complete d false, g).
Proof using L.
  cbv zeta. intros Hd Hs. unfold ProduceSignature. rewrite Hd, SignStep_p2wsh by done. cbn [mbind outcome_bind andb].
  rewrite bool_decide_false by done. cbv match. cbn [mbind outcome_bind].
  unfold sign_witness. rewrite bool_decide_false, bool_decide_true by done. cbn [andb].
  change ([CreateQuantumWitnessScript pub] !! 0%nat) with (Some (CreateQuantumWitnessScript pub)). cbn [or_crash mbind outcome_bind].
  destruct (sign_witness_script _ _ _ _ _ _ _) as [[[[] d'] g']| | |]; cbn [mbind outcome_bind]; [|done|done|done|done].
  change (PushAll []) with ([] : list Z).
  set (d2 := set_scriptSig _ _). change (sd_scriptSig d2) with ([] : list Z).
  by destruct (VerifyScript _ _ _ _ _ _).
Qed.

(** [ProduceSignature] with a provider for a key of ML-DSA-65. *)
Lemma ProduceSignature_ml (k0 k : CQuantumKey) (g g1 g2 : rng) (provider : SigningProvider) (tx : CTransaction)
    (nIn : nat) (amount : Z) (txdata : option PrecomputedTransactionData) (nHashType : Z) (d : SignatureData) :
  let pub := GetPubKey k in let script := CreateQuantumWitnessScript pub in let ht := creator_hashtype nHashType in
  let creator := tx_creator tx nIn amount txdata nHashType in
  MakeNewKey k0 ML_DSA_65 g = Ok (k, g1) →
  GetCScript provider (CHash160 script) = Some script → GetQuantumKey provider (CQuantumPubKey_GetID pub) = Some k →
  CastToBool (CSHA256 script) = true → (nIn < length (vin tx))%nat → 0 <= amount → in_u8 ht → complete d = false →
  ∃ h, SignatureHash script tx nIn ht amount WITNESS_V0 txdata = Some h ∧
  ProduceSignature provider creator (CreateQuantumP2WSH pub) d g2 =
    ('(_, s, g3) ← CQuantumKey_Sign k h [] g2;
     Ok (true, with_quantum_witness d script (SCHEME_ML_DSA_65 :: s ++ [ht]), g3)) ∧
  ∀ ok s g3, CQuantumKey_Sign k h [] g2 = Ok (ok, s, g3) →
    VerifyScript [] (CreateQuantumP2WSH pub) (Some [SCHEME_ML_DSA_65 :: s ++ [ht]; script]) STANDARD_SCRIPT_VERIFY_FLAGS
      (Checker creator) true = Ok tt.
Proof using L SC Hstrong.
  cbv zeta. intros Hk Hs Hq Hc Hn Ha Hu Hd.
  set (script := CreateQuantumWitnessScript (GetPubKey k)) in *. set (ht := creator_hashtype nHashType) in *.
  destruct (SignatureHash_total script tx nIn ht amount WITNESS_V0 txdata Hn) as [h Eh]. exists h. split; [done|].
  pose proof (λ mdb g2 ok s g3, own_signature_spends ML_DSA_65 k0 k g g1 tx mdb nIn amount txdata ht h g2 ok s g3
    (or_introl eq_refl) Hk Hc Ha Eh) as Hown.
  destruct (MakeNewKey_ok callbacks fuel tries GetStrongRandBytes Hstrong _ _ _ _ _ (or_introl eq_refl) Hk)
    as (Et & Hv & _ & Sp & _ & _).
  assert (Ep : GetPubKey k = {| pk_type := ML_DSA_65; m_vchPubKey := k_vchPubKey k |}) by (apply GetPubKey_stored; by left || done).
  split; [|intros ok s g3 Es; by apply (Hown FAIL g2 ok s g3 Es)].
  rewrite ProduceSignature_p2wsh by done. fold script. unfold sign_witness_script.
  match goal with |- context [Sign.SignStep SignTaproot provider ?c script WITNESS_V0 ?d' g2] =>
    pose proof (SignStep_ml provider c (k_vchPubKey k) d' g2 Sp) as E1 end.
  cbv zeta in E1. rewrite <-Ep in E1. fold script in E1. rewrite E1. clear E1.
  cbn [creator_CreateSig tx_creator]. unfold tx_CreateSig. rewrite bool_decide_false, bool_decide_true by done. cbn [orb negb].
  rewrite Hq. fold ht. rewrite Eh. cbn [or_crash mbind outcome_bind].
  destruct (CQuantumKey_Sign k h [] g2) as [[[ok s] g3]| | |] eqn:Es; cbn [mbind outcome_bind]; [|done|done|done].
  destruct (Hown FAIL g2 ok s g3 Es) as [-> Hver]. cbn [negb]. rewrite decide_True by done. cbn [mbind outcome_bind].
  rewrite !bool_decide_false by done. cbn [negb andb mbind outcome_bind].
  rewrite u8_small by done. unfold algo_id. rewrite decide_True by done.
  cbn [witness set_witness negb app]. 
  change (sd_scriptWitness (set_scriptSig (set_witness ?x true ?w) [])) with w. 
  cbn [Checker tx_creator]. fold script in Hver. cbn [scheme_of] in Hver. by rewrite Hver.
Qed.

(** C4 Signing a transaction with an ML-DSA-65 key: for a key that [MakeNewKey] made
    and a provider that has it and its witness script, [ProduceSignature] for the
    key's output, with the creator for an input of a transaction whose amount is
    known and a hash type of one byte, does exactly what the key's [Sign] does on
    the signature hash; when that returns, the result is complete: the signature
    script is empty, the witness is the marked signature with the hash type and
    the script, and it passes the verification under the standard rules. *)
Theorem produce_signature_quantum (k0 k : CQuantumKey) (g g1 g2 : rng) (provider : SigningProvider) (tx : CTransaction)
    (nIn : nat) (amount : Z) (txdata : option PrecomputedTransactionData) (nHashType : Z) (d : SignatureData) :
  let pub := GetPubKey k in let script := CreateQuantumWitnessScript pub in let ht := creator_hashtype nHashType in
  let creator := tx_creator tx nIn amount txdata nHashType in
  MakeNewKey k0 ML_DSA_65 g = Ok (k, g1) →
  GetCScript provider (CHash160 script) = Some script → GetQuantumKey provider (CQuantumPubKey_GetID pub) = Some k →
  CastToBool (CSHA256 script) = true → (nIn < length (vin tx))%nat → 0 <= amount → in_u8 ht → complete d = false →
  ∃ h, SignatureHash script tx nIn ht amount WITNESS_V0 txdata = Some h ∧
  ProduceSignature provider creator (CreateQuantumP2WSH pub) d g2 =
    ('(_, s, g3) ← CQuantumKey_Sign k h [] g2;
     Ok (true, with_quantum_witness d script (SCHEME_ML_DSA_65 :: s ++ [ht]), g3)) ∧
  ∀ ok s g3, CQuantumKey_Sign k h [] g2 = Ok (ok, s, g3) →
    VerifyScript [] (CreateQuantumP2WSH pub) (Some [SCHEME_ML_DSA_65 :: s ++ [ht]; script]) STANDARD_SCRIPT_VERIFY_FLAGS
      (Checker creator) true = Ok tt.
Proof using L SC Hstrong. apply ProduceSignature_ml. Qed.

(** Signing with an SLH-DSA key fails although the key can sign: for a key that
    [MakeNewKey] made and every creator, the step for its witness script gives up
    without an effect, since it looks for a public key of more than 30000 bytes; so
    [ProduceSignature] is not complete for the key's output, whatever the provider
    holds, unless the miniscript satisfier, which does not know the opcode, finds a
    solution.  The signature that the key makes does spend the output. *)
Theorem slh_signing_fails (k0 k : CQuantumKey) (g g1 g2 : rng) (provider : SigningProvider) (tx : CTransaction)
    (nIn : nat) (amount : Z) (txdata : option PrecomputedTransactionData) (nHashType : Z) (d : SignatureData) :
  let pub := GetPubKey k in let script := CreateQuantumWitnessScript pub in let ht := creator_hashtype nHashType in
  let creator := tx_creator tx nIn amount txdata nHashType in
  MakeNewKey k0 SLH_DSA_192F g = Ok (k, g1) →
  GetCScript provider (CHash160 script) = Some script →
  CastToBool (CSHA256 script) = true → (nIn < length (vin tx))%nat → 0 <= amount → complete d = false →
  (∀ d g, ∃ st d' g', Satisfy provider creator script d g = Ok (false, st, d', g')) →
  (∀ c d g, SignStep provider c script WITNESS_V0 d g = Ok (false, [], NONSTANDARD, d, g)) ∧
  (∃ d' g3, ProduceSignature provider creator (CreateQuantumP2WSH pub) d g2 = Ok (false, d', g3) ∧ complete d' = false) ∧
  ∃ h s g3, SignatureHash script tx nIn ht amount WITNESS_V0 txdata = Some h ∧
    CQuantumKey_Sign k h [] g2 = Ok (true, s, g3) ∧
    VerifyScript [] (CreateQuantumP2WSH pub) (Some [SCHEME_SLH_DSA_192F :: s ++ [ht]; script]) STANDARD_SCRIPT_VERIFY_FLAGS
      (Checker creator) true = Ok tt.
Proof using L SC Hstrong.
  cbv zeta. intros Hk Hs Hc Hn Ha Hd Hms.
  set (script := CreateQuantumWitnessScript (GetPubKey k)) in *. set (ht := creator_hashtype nHashType) in *.
  destruct (MakeNewKey_ok callbacks fuel tries GetStrongRandBytes Hstrong _ _ _ _ _ (or_intror eq_refl) Hk)
    as (Et & Hv & _ & Sp & _ & _).
  assert (Ep : GetPubKey k = {| pk_type := SLH_DSA_192F; m_vchPubKey := k_vchPubKey k |}) by (apply GetPubKey_stored; by right || done).
  assert (Hst : ∀ c d g, SignStep provider c script WITNESS_V0 d g = Ok (false, [], NONSTANDARD, d, g)).
  { intros c d' g'. unfold script. rewrite Ep. by apply SignStep_slh. }
  split; [done|]. split.
  - rewrite ProduceSignature_p2wsh by done. fold script. unfold sign_witness_script. rewrite Hst.
    cbn [mbind outcome_bind andb negb]. rewrite bool_decide_true by done.
    destruct (Hms (set_scripts d (redeem_script d) script) g2) as (st & d' & g' & ->). cbn [mbind outcome_bind]. eauto.
  - destruct (SignatureHash_total script tx nIn ht amount WITNESS_V0 txdata Hn) as [h Eh]. exists h.
    destruct (SignatureHash_bytes _ _ _ _ _ _ _ _ Eh) as [Lh _].
    destruct (slh_key_total callbacks fuel tries GetStrongRandBytes Hstrong k0 g) as (k' & g1' & E' & H).
    rewrite Hk in E'. injection E' as <- <-. destruct (H h [] g2 Lh) as (s & g3 & Es). exists s, g3. split_and!; [done|done|].
    by apply (own_signature_spends SLH_DSA_192F k0 k g g1 tx FAIL nIn amount txdata ht h g2 true s g3 (or_intror eq_refl) Hk Hc Ha Eh).
Qed.
End sign.

(** Providers that wrap others hide their quantum keys: whatever the wrapped
    providers hold, the creator does not sign with a quantum key through them, and
    fails without an effect if they have no elliptic-curve key of that identifier. *)
Theorem wrapped_providers_hide {C : NodeCrypto} (callbacks : OQS_SHA3_callbacks) {U : Uninit} (fuel tries : nat)
    {rng : Type} {K : CKeyOps rng} (GetStrongRandBytes : rng → nat → list Z * rng) (malloc_ok : bool)
    (ps : list SigningProvider) (p : SigningProvider) (hide_secret hide_origin : bool) (tx : CTransaction) (nIn : nat)
    (amount : Z) (txdata : option PrecomputedTransactionData) (ht : Z) (vchSig id script : list Z) (g : rng) :
  let create q := tx_CreateSig callbacks fuel tries GetStrongRandBytes malloc_ok tx nIn amount txdata ht q vchSig id script WITNESS_V0 g in
  (Forall (λ q, GetKey q id = None) ps → create (multi_provider ps) = Ok (false, vchSig, g)) ∧
  (GetKey p id = None → create (hiding_provider hide_secret hide_origin p) = Ok (false, vchSig, g)).
Proof.
  cbv zeta. unfold tx_CreateSig. cbn [GetQuantumKey multi_provider hiding_provider DUMMY_SIGNING_PROVIDER GetKey].
  rewrite bool_decide_false, bool_decide_true by done. cbn [orb negb]. split.
  - intros Hps. assert (first_answer (λ q, GetKey q id) ps = None) as ->; [|done].
    induction Hps as [|q ps Hq Hps IH]; [done|]. unfold first_answer in *. cbn [foldr]. by rewrite Hq.
  - intros ->. by destruct hide_secret.
Qed.

(** ** Instances *)

#[local] Existing Instance test_ckeys.
#[local] Existing Instance test_crypto.

Abbreviation toy_new := (MakeNewKey toy_callbacks 1 1 zeros true CQuantumKey_default).
Abbreviation toy_sign := (CQuantumKey_Sign toy_callbacks 1 1 zeros true).

Lemma resize_nil n : resize [] n = replicate n 0.
Proof. unfold resize. by rewrite take_nil, Nat.sub_0_r. Qed.

Lemma toy_ml_key : ∃ k, toy_new ML_DSA_65 tt = Ok (k, tt) ∧ ∀ h, bytes h → ∃ s, toy_sign k h [] tt = Ok (true, s, tt).
Proof.
  pose proof (BitcoinRandBytes_ok zeros zeros_strong) as Hr.
  destruct (keypair_gives toy_callbacks 1 (BitcoinRandBytes zeros) (replicate CRYPTO_PUBLICKEYBYTES 0)
    (replicate CRYPTO_SECRETKEYBYTES 0) tt _ _ _ Hr (length_replicate _ _) (length_replicate _ _) (toy_keygen _))
    as (pk & sk & rho & key & t1 & t0 & [] & Ek & Hp).
  destruct (context_ok toy_callbacks 1 1 zeros zeros_strong ML_DSA_65 (or_introl eq_refl)) as (sig & Ec & Lp & Ls & Lg & _).
  assert (En : OQS_SIG_ml_dsa_65_new toy_callbacks 1 1 (BitcoinRandBytes zeros) true = Some sig).
  { unfold OQSContext_new in Ec. change (OQS_SIG_new _ _ _) with (OQS_SIG_ml_dsa_65_new toy_callbacks 1 1 (BitcoinRandBytes zeros) true) in Ec.
    destruct (OQS_SIG_ml_dsa_65_new _ _ _ _ _); [|done]. by injection Ec as ->. }
  assert (Hs : ∀ h, bytes h → ∃ s,
    OQS_SIG_keypair (Some sig) (replicate CRYPTO_PUBLICKEYBYTES 0) (replicate CRYPTO_SECRETKEYBYTES 0) tt = Some (OQS_SUCCESS, pk, sk, tt) ∧
    OQS_SIG_sign (Some sig) (replicate CRYPTO_BYTES 0) 0 h sk tt = Some (OQS_SUCCESS, s, CRYPTO_BYTES, tt)).
  { intros h Bh. destruct (signature_gives toy_callbacks 1 1 (BitcoinRandBytes zeros) (replicate CRYPTO_BYTES 0) 0 h [] 0 sk
      _ _ _ _ _ _ tt Hr (kp_sk _ _ _ _ _ _ _ _ _ _ _ Hp) (length_replicate _ _) Bh (Forall_nil_2 _) ltac:(lia) (le_n 0)
      (toy_sign_math _ _ _ _ _ _ _ (λ i k, toy_t0 _ _ _ _ _ _ i k Hp))) as (s & [] & Es). exists s.
    destruct (mldsa_object_returns toy_callbacks 1 1 (BitcoinRandBytes zeros) sig (replicate CRYPTO_PUBLICKEYBYTES 0)
      (replicate CRYPTO_SECRETKEYBYTES 0) (replicate CRYPTO_BYTES 0) 0 h None 0 tt pk sk tt s CRYPTO_BYTES tt En
      (length_replicate _ _) (length_replicate _ _) (length_replicate _ _) Ek Es) as (_ & _ & _ & H4 & _ & H6).
    split; [exact H4|exact (H6 eq_refl eq_refl)]. }
  destruct (Hs [] (Forall_nil_2 _)) as (_ & Ekp & _).
  exists {| m_type := ML_DSA_65; m_vchPrivKey := sk; k_vchPubKey := pk; m_fValid := true; m_ecdsaKey := None |}. split.
  - unfold MakeNewKey. cbv zeta match. unfold make_quantum_key. change ALG_ML_DSA_65 with (alg_name ML_DSA_65). rewrite Ec.
    cbn [mbind outcome_bind]. unfold GenerateKeypair_secure, GenerateKeypair. cbn [m_sig]. rewrite Lp, Ls, !resize_nil.
    change (Z.to_nat (pub_size ML_DSA_65)) with CRYPTO_PUBLICKEYBYTES. change (Z.to_nat (priv_size ML_DSA_65)) with CRYPTO_SECRETKEYBYTES.
    rewrite Ekp. reflexivity.
  - intros h Bh. destruct (Hs h Bh) as (s & _ & Es).
    rewrite (sign_with_ok toy_callbacks 1 1 zeros ML_DSA_65); [|by left|reflexivity|reflexivity]. unfold sign_with. rewrite Ec.
    cbn [mbind outcome_bind m_vchPrivKey]. unfold OQSContext_Sign. cbn [m_sig].
    assert (size sk = length_secret_key sig) as ->.
    { destruct (keypair_returns toy_callbacks 1 (BitcoinRandBytes zeros) Hr _ _ _ _ _ _ _ (length_replicate _ _) (length_replicate _ _) Ek)
        as (_ & Lk & _). rewrite Ls. unfold size. rewrite Lk. reflexivity. }
    rewrite Z.eqb_refl. cbn [negb]. rewrite Lg, resize_nil. change (Z.to_nat (sig_size ML_DSA_65)) with CRYPTO_BYTES.
    rewrite Es. cbn [or_crash mbind outcome_bind]. eexists. reflexivity.
Qed.

(** A provider that answers every question about scripts and quantum keys alike. *)
Definition toy_provider (script : list Z) (k : CQuantumKey) : SigningProvider := {|
  GetCScript _ := Some script; sp_GetPubKey _ := None; GetKey _ := None; GetKeyOrigin _ := None;
  GetQuantumKey _ := Some k; GetQuantumPubKey _ := None; HaveQuantumKey _ := true;
|}.

(** No taproot and no miniscript. *)
Definition toy_none (p : SigningProvider) (c : BaseSignatureCreator) (s : list Z) (d : @SignatureData unit) (g : unit)
  : outcome (bool * list (list Z) * @SignatureData unit * unit) := Ok (false, [], d, g).

Abbreviation toy_creator := (tx_creator toy_callbacks 1 1 zeros true (test_tx 2) 0 1000 None SIGHASH_ALL).

Lemma produce_signature_quantum_witness : ∃ k s, toy_new ML_DSA_65 tt = Ok (k, tt) ∧
  let pub := GetPubKey k in let script := CreateQuantumWitnessScript pub in
  ProduceSignature toy_none toy_none (toy_provider script k) toy_creator (CreateQuantumP2WSH pub) (SignatureData_new tt) tt
    = Ok (true, with_quantum_witness (SignatureData_new tt) script (SCHEME_ML_DSA_65 :: s ++ [SIGHASH_ALL]), tt).
Proof.
  destruct toy_ml_key as (k & Ek & Hs). exists k.
  destruct (produce_signature_quantum (C := test_crypto) toy_callbacks 1 1 zeros zeros_strong toy_none toy_none CQuantumKey_default k tt tt tt
    (toy_provider (CreateQuantumWitnessScript (GetPubKey k)) k) (test_tx 2) 0 1000 None SIGHASH_ALL (SignatureData_new tt)
    Ek) as (h & Eh & Ep & _); [reflexivity|reflexivity|reflexivity|exact (le_n 1)|lia|split; [apply Z.leb_le; reflexivity|apply Z.ltb_lt; reflexivity]|reflexivity|].
  destruct (Hs h (proj2 (SignatureHash_bytes _ _ _ _ _ _ _ _ Eh))) as [s Es]. exists s. split; [exact Ek|].
  cbv zeta. rewrite Ep, Es. reflexivity.
Defined.

Lemma slh_signing_fails_witness : ∃ k d, toy_new SLH_DSA_192F tt = Ok (k, tt) ∧
  let pub := GetPubKey k in let script := CreateQuantumWitnessScript pub in
  ProduceSignature toy_none toy_none (toy_provider script k) toy_creator (CreateQuantumP2WSH pub) (SignatureData_new tt) tt
    = Ok (false, d, tt).
Proof.
  destruct (slh_key_total toy_callbacks 1 1 zeros zeros_strong CQuantumKey_default tt) as (k & [] & Ek & _). exists k.
  destruct (slh_signing_fails (C := test_crypto) toy_callbacks 1 1 zeros zeros_strong toy_none toy_none CQuantumKey_default k tt tt tt
    (toy_provider (CreateQuantumWitnessScript (GetPubKey k)) k) (test_tx 2) 0 1000 None SIGHASH_ALL (SignatureData_new tt)
    Ek eq_refl eq_refl (le_n 1) ltac:(lia) eq_refl (λ d g, ex_intro _ [] (ex_intro _ d (ex_intro _ g eq_refl))))
    as (_ & (d & [] & H & _) & _).
  exists d. split; [exact Ek|exact H].
Defined.

Lemma wrapped_providers_hide_witness : ∃ k, toy_new SLH_DSA_192F tt = Ok (k, tt) ∧
  creator_CreateSig toy_creator (multi_provider [toy_provider [] k]) [] [7] [0x51] WITNESS_V0 tt = Ok (false, [], tt).
Proof.
  destruct (slh_key_total toy_callbacks 1 1 zeros zeros_strong CQuantumKey_default tt) as (k & [] & Ek & _). exists k.
  split; [exact Ek|].
  refine (proj1 (wrapped_providers_hide toy_callbacks 1 1 zeros true [toy_provider [] k] (toy_provider [] k) false false (test_tx 2) 0 1000
    None SIGHASH_ALL [] [7] [0x51] tt) _). apply Forall_cons_2; [reflexivity|apply Forall_nil_2].
Defined.
