(* ===== verification/Dest.v ===== *)
(** Destinations (addresstype.h and .cpp): what an address stands for, the script of a
    destination and the destination of a script.

    Hashes and keys are byte strings.  [PayToAnchor] is a [WitnessUnknown] with fixed
    contents, but an alternative of its own of the variant. *)
From S2P Require Import Prelude Serial QSig Script Node Interp Verify Solver.

Open Scope Z_scope.

Inductive CTxDestination :=
  | CNoDestination (m_script : list Z)
  | PubKeyDestination (m_pubkey : list Z)
  | PKHash (hash : list Z)
  | ScriptHash (hash : list Z)
  | WitnessV0ScriptHash (hash : list Z)
  | WitnessV0KeyHash (hash : list Z)
  | WitnessV1Taproot (xpk : list Z)
  | PayToAnchor
  | WitnessUnknown (m_version : Z) (m_program : list Z).
#[export] Instance CTxDestination_eq_dec : EqDecision CTxDestination.
Proof. solve_decision. Defined.

Definition ANCHOR_BYTES : list Z := [0x4e; 0x73].

(** [CScriptVisitor]. *)
Definition GetScriptForDestination (dest : CTxDestination) : list Z :=
  match dest with
  | CNoDestination script => script
  | PubKeyDestination pubkey => push_op (push_data [] pubkey) OP_CHECKSIG
  | PKHash keyID =>
      push_op (push_op (push_data (push_op (push_op [] OP_DUP) OP_HASH160) keyID) OP_EQUALVERIFY) OP_CHECKSIG
  | ScriptHash scriptID => push_op (push_data (push_op [] OP_HASH160) scriptID) OP_EQUAL
  | WitnessV0KeyHash id | WitnessV0ScriptHash id => push_data (push_op [] OP_0) id
  | WitnessV1Taproot tap => push_data (push_op [] OP_1) tap
  | PayToAnchor => push_data (push_op [] (EncodeOP_N 1)) ANCHOR_BYTES
  | WitnessUnknown version program => push_data (push_op [] (EncodeOP_N version)) program
  end.

(** [ValidDestinationVisitor]. *)
Definition IsValidDestination (dest : CTxDestination) : bool :=
  match dest with CNoDestination _ | PubKeyDestination _ => false | _ => true end.

(** The result and [addressRet].  [None] is an access outside the solutions, or a
    copy outside a hash. *)
Definition ExtractDestination (scriptPubKey : list Z) : option (bool * CTxDestination) :=
  '(whichType, vSolutions) ← Solver scriptPubKey;
  match whichType with
  | PUBKEY =>
      data ← vSolutions !! 0%nat;
      let pubKey := CPubKey_Set data in
      Some (false, if negb (CPubKey_IsValid pubKey) then CNoDestination scriptPubKey else PubKeyDestination pubKey)
  | PUBKEYHASH => data ← vSolutions !! 0%nat; if size data =? 20 then Some (true, PKHash data) else None
  | SCRIPTHASH => data ← vSolutions !! 0%nat; if size data =? 20 then Some (true, ScriptHash data) else None
  | WITNESS_V0_KEYHASH => data ← vSolutions !! 0%nat; if size data =? 20 then Some (true, WitnessV0KeyHash data) else None
  | WITNESS_V0_SCRIPTHASH => data ← vSolutions !! 0%nat; if size data =? 32 then Some (true, WitnessV0ScriptHash data) else None
  | WITNESS_V1_TAPROOT => data ← vSolutions !! 0%nat; if size data =? 32 then Some (true, WitnessV1Taproot data) else None
  | ANCHOR => Some (true, PayToAnchor)
  | WITNESS_UNKNOWN =>
      data ← vSolutions !! 0%nat; version ← data !! 0%nat; program ← vSolutions !! 1%nat;
      Some (true, WitnessUnknown version program)
  | MULTISIG | NULL_DATA | NONSTANDARD => Some (false, CNoDestination scriptPubKey)
  end.

(** ** Scripts from their parts *)

(** A list of at least [n] elements starts with [n] elements; a test of a byte. *)
Lemma byte_at_eq s i b : byte_at s i (Z.eqb b) = true → s !! i = Some b.
Proof. unfold byte_at. destruct (s !! i) as [c|]; [|done]. by intros ->%Z.eqb_eq. Qed.

Lemma snoc_back s b : back s = Some b → s = take (length s - 1) s ++ [b].
Proof.
  unfold back. rewrite <-last_lookup. intros E. apply last_Some in E as [w ->]. by rewrite length_app, Nat.add_sub, take_app_length.
Qed.

Lemma IsWitnessProgram_inv s v p : IsWitnessProgram s = Some (v, p) →
  s = push_data (push_op [] (EncodeOP_N v)) p ∧ 0 <= v <= 16 ∧ 2 <= size p <= 40.
Proof.
  unfold IsWitnessProgram. destruct ((size s <? 4) || (42 <? size s)) eqn:Es; [done|].
  rewrite orb_false_iff, !Z.ltb_ge in Es. destruct s as [|b0 [|b1 q]]; [done|done|].
  assert (Hq : size (b0 :: b1 :: q) = size q + 2) by (unfold size; cbn [length]; lia). rewrite Hq in *.
  destruct (_ && _) eqn:Eb; [done|]. destruct (b1 + 2 =? size q + 2) eqn:E1; [|done]. apply Z.eqb_eq in E1.
  assert (b1 = size q) as -> by lia. intros E. cbn [op_num] in Eb.
  assert (Hp : ∀ o, push_data (push_op [] o) q = u8 (op_num o) :: size q :: q).
  { intros o. unfold push_data, push_op, AppendDataSize. cbv zeta. rewrite u32_small by (unfold in_u32; lia). rewrite (proj2 (Z.ltb_lt (size q) _)) by (cbn [op_num]; lia).
    rewrite (u8_small (size q)) by (unfold in_u8; lia). done. }
  destruct (Z.eq_dec b0 0) as [->|H0].
  - change (DecodeOP_N (to_opcode 0)) with (Some 0) in E. cbn [mbind option_bind] in E. injection E as <- <-.
    rewrite Hp. split_and!; [done|lia..].
  - rewrite (proj2 (Z.eqb_neq _ _) H0) in Eb. cbn [negb andb] in Eb. rewrite orb_false_iff, !Z.ltb_ge in Eb.
    unfold DecodeOP_N in E. rewrite op_num_to_opcode in E. cbn [op_num] in E.
    rewrite decide_False in E by (intros Ho; apply (f_equal op_num) in Ho; rewrite op_num_to_opcode in Ho; done).
    rewrite !(proj2 (Z.leb_le _ _)) in E by lia. cbn [andb mbind option_bind] in E. injection E as <- <-.
    rewrite Hp. unfold EncodeOP_N. rewrite (proj2 (Z.eqb_neq _ _)), op_num_to_opcode by lia. cbn [op_num].
    rewrite u8_small by (unfold in_u8; lia). split_and!; [f_equal; lia|lia..].
Qed.

Lemma IsPayToAnchor_inv s : IsPayToAnchor s = true → s = GetScriptForDestination PayToAnchor.
Proof.
  unfold IsPayToAnchor. rewrite !andb_true_iff, Z.eqb_eq. intros [[[[Hs H0] H1] H2] H3].
  apply byte_at_eq in H0, H1, H2, H3. explode s 4. cbn in H0, H1, H2, H3. by simplify_eq.
Qed.

Lemma IsPayToScriptHash_inv s : IsPayToScriptHash s = true → s = GetScriptForDestination (ScriptHash (take 20 (drop 2 s))) ∧ size (take 20 (drop 2 s)) = 20.
Proof.
  unfold IsPayToScriptHash. rewrite !andb_true_iff, Z.eqb_eq. intros [[[Hs H0] H1] H2].
  apply byte_at_eq in H0, H1, H2. explode s 23. cbn in H0, H1, H2. by simplify_eq.
Qed.

Lemma MatchPayToPubkeyHash_inv s d : MatchPayToPubkeyHash s = Some d → s = GetScriptForDestination (PKHash d) ∧ size d = 20.
Proof.
  unfold MatchPayToPubkeyHash, at_is. case_match eqn:E; [|done]. intros [= <-]. revert E.
  rewrite !andb_true_iff, Z.eqb_eq. intros [[[[[Hs H0] H1] H2] H3] H4].
  apply byte_at_eq in H0, H1, H2, H3, H4. explode s 25. cbn in H0, H1, H2, H3, H4. by simplify_eq.
Qed.

Lemma MatchPayToPubkey_inv s d : MatchPayToPubkey s = Some d → s = GetScriptForDestination (PubKeyDestination d) ∧ CPubKey_ValidSize d = true.
Proof.
  assert (H : ∀ n, size s = n + 2 → n = 33 ∨ n = 65 → at_is s 0 n = true → back s = Some (op_num OP_CHECKSIG) →
    CPubKey_ValidSize (take (Z.to_nat n) (drop 1 s)) = true → s = GetScriptForDestination (PubKeyDestination (take (Z.to_nat n) (drop 1 s)))).
  { intros n Hs Hn H0 Hb Hv. apply byte_at_eq in H0. apply snoc_back in Hb. destruct s as [|b s]; [done|]. injection H0 as ->.
    cbn [drop] in *. assert (Hl : length s = S (Z.to_nat n)) by (unfold size in Hs; cbn [length] in Hs; lia).
    cbn [length] in Hb. rewrite Hl in Hb. cbn [Nat.sub take app] in Hb. injection Hb as Hb.
    change (GetScriptForDestination (PubKeyDestination ?d)) with (push_data [] d ++ [172]).
    rewrite push_key by done. change ((?a :: ?l) ++ ?r) with (a :: l ++ r). rewrite !drop_0, <-Hb. f_equal. unfold size. rewrite length_take, Hl. lia. }
  unfold MatchPayToPubkey. cbv zeta. destruct (back s) as [b|] eqn:Eb; [|by rewrite !andb_false_r].
  destruct ((size s =? PUBKEY_SIZE + 2) && at_is s 0 PUBKEY_SIZE && (b =? op_num OP_CHECKSIG)) eqn:E1;
    [|destruct ((size s =? COMPRESSED_SIZE + 2) && at_is s 0 COMPRESSED_SIZE && (b =? op_num OP_CHECKSIG)) eqn:E2; [|done]];
    case_match eqn:Ev; [|done| |done]; intros [= <-].
  - rewrite !andb_true_iff, !Z.eqb_eq in E1. destruct E1 as [[Es E0] ->]. split; [|done]. apply H; [done|by right|done|done|done].
  - rewrite !andb_true_iff, !Z.eqb_eq in E2. destruct E2 as [[Es E0] ->]. split; [|done]. apply H; [done|by left|done|done|done].
Qed.

Lemma valid_key_Set k : CPubKey_ValidSize k = true → CPubKey_Set k = k ∧ CPubKey_IsValid k = true.
Proof.
  intros Hk. pose proof (valid_key_size k Hk) as Hs. destruct k as [|b k]; [done|]. unfold CPubKey_ValidSize in Hk.
  apply andb_true_iff in Hk as [_ Hk]. change (byte_at (b :: k) 0 _) with (GetLen b =? size (b :: k)) in Hk.
  unfold CPubKey_Set, CPubKey_IsValid. apply Z.eqb_eq in Hk as Hl. rewrite Hk, Hl. by destruct Hs as [-> | ->].
Qed.

(** ** Witness programs of any version *)

Lemma IsWitnessProgram_program v p : 0 <= v <= 16 → 2 <= size p <= 40 →
  IsWitnessProgram (push_data (push_op [] (EncodeOP_N v)) p) = Some (v, p).
Proof.
  intros Hv Hp. assert (push_data (push_op [] (EncodeOP_N v)) p = op_num (EncodeOP_N v) :: size p :: p) as ->.
  { assert (Hb : in_u8 (op_num (EncodeOP_N v))).
    { unfold EncodeOP_N. case_match; [by vm_compute|]. rewrite op_num_to_opcode. unfold in_u8. cbn [op_num]. lia. }
    unfold push_data, push_op, AppendDataSize. cbv zeta. rewrite u32_small by (unfold in_u32; lia).
    rewrite (proj2 (Z.ltb_lt (size p) _)) by (cbn [op_num]; lia). rewrite !u8_small by (done || unfold in_u8; lia). done. }
  unfold IsWitnessProgram. assert (size (op_num (EncodeOP_N v) :: size p :: p) = size p + 2) as -> by (unfold size; cbn [length]; lia).
  rewrite !(proj2 (Z.ltb_ge _ _)) by lia. cbn [orb]. rewrite Z.eqb_refl. unfold EncodeOP_N.
  destruct (Z.eqb_spec v 0) as [->|Hv0]; [done|]. rewrite op_num_to_opcode. cbn [op_num].
  rewrite (proj2 (Z.eqb_neq _ _)), !(proj2 (Z.ltb_ge _ _)) by lia. cbn [negb orb andb].
  unfold DecodeOP_N. rewrite decide_False by (intros Ho; apply (f_equal op_num) in Ho; rewrite op_num_to_opcode in Ho; cbn [op_num] in Ho; lia).
  rewrite op_num_to_opcode. cbn [op_num]. rewrite !(proj2 (Z.leb_le _ _)) by lia. cbn [andb mbind option_bind]. do 2 f_equal. lia.
Qed.

(** Destinations with contents of their sizes; an unknown witness program is none of
    the known ones. *)
Definition wf_destination (d : CTxDestination) : Prop :=
  match d with
  | CNoDestination _ | PubKeyDestination _ => False
  | PKHash h | ScriptHash h | WitnessV0KeyHash h => size h = 20
  | WitnessV0ScriptHash h | WitnessV1Taproot h => size h = 32
  | PayToAnchor => True
  | WitnessUnknown v p => 1 <= v <= 16 ∧ 2 <= size p <= 40 ∧ ¬ (v = 1 ∧ size p = 32) ∧ ¬ (v = 1 ∧ p = ANCHOR_BYTES)
  end.

Lemma p2sh_not_program s : is_Some (IsWitnessProgram s) → IsPayToScriptHash s = false.
Proof.
  intros Hw. apply not_true_is_false. unfold IsPayToScriptHash. rewrite !andb_true_iff. intros [[[_ H0] _] _].
  apply byte_at_eq in H0. destruct s as [|b s]; [done|]. injection H0 as ->. revert Hw. unfold IsWitnessProgram.
  case_match; [by intros []|]. destruct s; [by intros []|]. by intros [].
Qed.

Lemma Solver_unknown v p : wf_destination (WitnessUnknown v p) →
  Solver (GetScriptForDestination (WitnessUnknown v p)) = Some (WITNESS_UNKNOWN, [[v]; p]).
Proof.
  intros (Hv & Hp & Ht & Ha). cbn [GetScriptForDestination]. set (s := push_data _ p).
  assert (Hw : IsWitnessProgram s = Some (v, p)) by (apply IsWitnessProgram_program; lia).
  unfold Solver. rewrite p2sh_not_program, Hw by (by rewrite Hw). rewrite !(proj2 (Z.eqb_neq v 0)) by lia. cbn [andb negb].
  destruct ((v =? 1) && (size p =? WITNESS_V1_TAPROOT_SIZE)) eqn:E1.
  { rewrite andb_true_iff, !Z.eqb_eq in E1. by destruct Ht. }
  destruct (IsPayToAnchor s) eqn:Ea; [|by rewrite u8_small by (unfold in_u8; lia)].
  apply IsPayToAnchor_inv in Ea. assert (Hw' : IsWitnessProgram s = Some (1, ANCHOR_BYTES)) by (rewrite Ea; done).
  rewrite Hw in Hw'. injection Hw' as -> ->. by destruct Ha.
Qed.

Lemma ExtractDestination_script : ∀ script, ∃ d, ExtractDestination script = Some (IsValidDestination d, d) ∧ GetScriptForDestination d = script.
Proof.
  intros s. unfold ExtractDestination. destruct (Solver_total s) as [[t sol] E]. rewrite E. cbn [mbind option_bind].
  revert E. unfold Solver. destruct (IsPayToScriptHash s) eqn:E1.
  { intros [= <- <-]. apply IsPayToScriptHash_inv in E1 as [E1 Es]. cbn [lookup list_lookup mbind option_bind]. rewrite Es. by exists (ScriptHash (take 20 (drop 2 s))). }
  destruct (IsWitnessProgram s) as [[v p]|] eqn:Ew.
  { apply IsWitnessProgram_inv in Ew as (Es & Hv & Hp). intros [= E].
    destruct ((v =? 0) && (size p =? WITNESS_V0_KEYHASH_SIZE)) eqn:E2.
    { injection E as <- <-. rewrite andb_true_iff, !Z.eqb_eq in E2. destruct E2 as [-> E2].
      cbn [lookup list_lookup mbind option_bind]. rewrite E2. exists (WitnessV0KeyHash p). split; [done|by rewrite Es]. }
    destruct ((v =? 0) && (size p =? WITNESS_V0_SCRIPTHASH_SIZE)) eqn:E3.
    { injection E as <- <-. rewrite andb_true_iff, !Z.eqb_eq in E3. destruct E3 as [-> E3].
      cbn [lookup list_lookup mbind option_bind]. rewrite E3. exists (WitnessV0ScriptHash p). split; [done|by rewrite Es]. }
    destruct ((v =? 1) && (size p =? WITNESS_V1_TAPROOT_SIZE)) eqn:E4.
    { injection E as <- <-. rewrite andb_true_iff, !Z.eqb_eq in E4. destruct E4 as [-> E4].
      cbn [lookup list_lookup mbind option_bind]. rewrite E4. exists (WitnessV1Taproot p). split; [done|by rewrite Es]. }
    destruct (IsPayToAnchor s) eqn:E5.
    { injection E as <- <-. exists PayToAnchor. split; [done|]. symmetry. by apply IsPayToAnchor_inv. }
    destruct (negb (v =? 0)) eqn:E6; injection E as <- <-; [|by exists (CNoDestination s)].
    cbn [lookup list_lookup mbind option_bind]. rewrite u8_small by (unfold in_u8; lia). exists (WitnessUnknown v p). split; [done|]. by rewrite Es. }
  destruct (if (1 <=? size s) && at_is s 0 (op_num OP_RETURN) then IsPushOnly (drop 1 s) else Some false) as [[]|]; [| |done];
    cbn [mbind option_bind]; [intros [= <- <-]; by exists (CNoDestination s)|].
  destruct (MatchPayToPubkey s) as [d|] eqn:E2.
  { intros [= <- <-]. apply MatchPayToPubkey_inv in E2 as [E2 Hv]. cbn [lookup list_lookup mbind option_bind].
    destruct (valid_key_Set d Hv) as [-> ->]. cbn [negb]. by exists (PubKeyDestination d). }
  destruct (MatchPayToPubkeyHash s) as [d|] eqn:E3.
  { intros [= <- <-]. apply MatchPayToPubkeyHash_inv in E3 as [E3 Hd]. cbn [lookup list_lookup mbind option_bind]. rewrite Hd. by exists (PKHash d). }
  destruct (MatchMultisig s) as [[[r ks]|]|]; [| |done]; cbn [mbind option_bind]; intros [= <- <-]; by exists (CNoDestination s).
Qed.

Lemma ExtractDestination_wf : ∀ d, wf_destination d → ExtractDestination (GetScriptForDestination d) = Some (true, d).
Proof.
  intros d Hd. unfold ExtractDestination. destruct d as [| |h|h|h|h|h| |v p]; [done|done|cbn [wf_destination GetScriptForDestination] in * ..].
  + fold (p2wpkh_script h). rewrite Solver_p2pkh by done. cbn [mbind option_bind lookup list_lookup]. by rewrite Hd.
  + rewrite Solver_p2sh by done. cbn [mbind option_bind lookup list_lookup]. by rewrite Hd.
  + rewrite Solver_p2wsh by done. cbn [mbind option_bind lookup list_lookup]. by rewrite Hd.
  + rewrite Solver_p2wpkh by done. cbn [mbind option_bind lookup list_lookup]. by rewrite Hd.
  + rewrite Solver_p2tr by done. cbn [mbind option_bind lookup list_lookup]. by rewrite Hd.
  + done.
  + pose proof (Solver_unknown v p Hd) as E. cbn [GetScriptForDestination] in E. by rewrite E.
Qed.

(** C36 Destinations and scripts: every script has a destination whose script it is, with
    the result telling whether it has an address; and the script of a destination with
    contents of their sizes gives back the destination.  So addresses and the output
    scripts they stand for correspond one to one. *)
Theorem destination_roundtrip :
  (∀ script, ∃ d, ExtractDestination script = Some (IsValidDestination d, d) ∧ GetScriptForDestination d = script) ∧
  (∀ d, wf_destination d → ExtractDestination (GetScriptForDestination d) = Some (true, d)).
Proof.
  exact (conj ExtractDestination_script ExtractDestination_wf).
Qed.

Lemma destination_roundtrip_witness :
  ExtractDestination (GetScriptForDestination (WitnessV0ScriptHash (replicate 32 7))) = Some (true, WitnessV0ScriptHash (replicate 32 7)).
Proof. apply (proj2 destination_roundtrip). reflexivity. Defined.
