(* ===== verification/Bech32.v ===== *)
(** Bech32 and Bech32m strings (bech32.h and .cpp).

    The search for the places of errors in an invalid string, whose result is only
    shown to the user, is not modelled.

    Bech32: what is encoded decodes, and a string in which one or two characters of
    the data part were replaced does not.

    The remainder that [PolyMod] computes is a linear function of the symbols over
    exclusive or, so two strings have remainders that differ by the remainder of
    their difference. *)
From stdpp Require Import strings.
From Stdlib Require Import Btauto.
From stdpp Require Import gmap strings.
From S2P Require Import Prelude Encode.

Open Scope string_scope.
Open Scope list_scope.
Open Scope Z_scope.

Module Bech32.

Inductive Encoding := INVALID | BECH32 | BECH32M.
#[global] Instance Encoding_eq_dec : EqDecision Encoding.
Proof. solve_decision. Defined.

Definition CHECKSUM_SIZE : nat := 6.
Definition SEPARATOR : Z := 49.
(** The default of the limit on the characters of a string. *)
Definition CharLimit_BECH32 : nat := 90.

Definition CHARSET : list Z := str "qpzry9x8gf2tvdw0s3jn54khce6mua7l".

Definition CHARSET_REV : list Z :=
  replicate 48 (-1) ++
  [15; -1; 10; 17; 21; 20; 26; 30; 7; 5; -1; -1; -1; -1; -1; -1;
   -1; 29; -1; 24; 13; 25; 9; 8; 23; -1; 18; 22; 31; 27; 19; -1;
   1; 0; 3; 16; 11; 28; 12; 14; 6; 4; 2; -1; -1; -1; -1; -1;
   -1; 29; -1; 24; 13; 25; 9; 8; 23; -1; 18; 22; 31; 27; 19; -1;
   1; 0; 3; 16; 11; 28; 12; 14; 6; 4; 2; -1; -1; -1; -1; -1].

(** [None]: the assertion fails. *)
Definition EncodingConstant (encoding : Encoding) : option Z :=
  match encoding with INVALID => None | BECH32 => Some 1 | BECH32M => Some 0x2bc830a3 end.

(** One iteration of the loop of [PolyMod]. *)
Definition PolyMod_step (c v_i : Z) : Z :=
  let c0 := u8 (Z.shiftr c 25) in
  let c := Z.lxor (u32 (Z.shiftl (Z.land c 0x1ffffff) 5)) v_i in
  let c := if negb (Z.land c0 1 =? 0) then Z.lxor c 0x3b6a57b2 else c in
  let c := if negb (Z.land c0 2 =? 0) then Z.lxor c 0x26508e6d else c in
  let c := if negb (Z.land c0 4 =? 0) then Z.lxor c 0x1ea119fa else c in
  let c := if negb (Z.land c0 8 =? 0) then Z.lxor c 0x3d4233dd else c in
  if negb (Z.land c0 16 =? 0) then Z.lxor c 0x2a1462b3 else c.
Definition PolyMod (v : list Z) : Z := foldl PolyMod_step 1 v.

Definition LowerCase (c : Z) : Z := if (65 <=? c) && (c <=? 90) then c - 65 + 97 else c.

(** [lower] and [upper] so far; the positions of the errors from [i] on. *)
Fixpoint check_characters (lower upper : bool) (i : Z) (s : list Z) : list Z :=
  match s with
  | [] => []
  | c :: s =>
      if (97 <=? c) && (c <=? 122) then
        if upper then i :: check_characters lower upper (i + 1) s else check_characters true upper (i + 1) s
      else if (65 <=? c) && (c <=? 90) then
        if lower then i :: check_characters lower upper (i + 1) s else check_characters lower true (i + 1) s
      else if (c <? 33) || (126 <? c) then i :: check_characters lower upper (i + 1) s
      else check_characters lower upper (i + 1) s
  end.
Definition CheckCharacters (s : list Z) : bool * list Z :=
  let errors := check_characters false false 0 s in (bool_decide (errors = []), errors).

(** The value of a [char], which is signed. *)
Definition schar (c : Z) : Z := if c <? 128 then c else c - 256.

Definition PreparePolynomialCoefficients (hrp values : list Z) : list Z :=
  ((λ c, u8 (Z.shiftr (schar c) 5)) <$> hrp) ++ [0] ++ ((λ c, Z.land (schar c) 0x1f) <$> hrp) ++ values.

Definition VerifyChecksum (hrp values : list Z) : Encoding :=
  let enc := PreparePolynomialCoefficients hrp values in
  let check := PolyMod enc in
  if bool_decide (Some check = EncodingConstant BECH32) then BECH32
  else if bool_decide (Some check = EncodingConstant BECH32M) then BECH32M
  else INVALID.

Definition CreateChecksum (encoding : Encoding) (hrp values : list Z) : option (list Z) :=
  let enc := PreparePolynomialCoefficients hrp values ++ replicate CHECKSUM_SIZE 0 in
  const ← EncodingConstant encoding;
  let mod_ := Z.lxor (PolyMod enc) const in
  Some ((λ i, Z.land (Z.shiftr mod_ (5 * (5 - i))) 31) <$> seqZ 0 (Z.of_nat CHECKSUM_SIZE)).

(** [CHARSET[i]]: the literal has a terminating zero. *)
Definition charset_at (i : Z) : option Z := (CHARSET ++ [0]) !! Z.to_nat i.

Definition Encode (encoding : Encoding) (hrp values : list Z) : option (list Z) :=
  if existsb (λ c, (65 <=? c) && (c <=? 90)) hrp then None else
  v ← mapM charset_at values;
  checksum ← CreateChecksum encoding hrp values;
  w ← mapM charset_at checksum;
  Some (hrp ++ [SEPARATOR] ++ v ++ w).

(** [str.rfind(SEPARATOR)]. *)
Fixpoint rfind_from (i : nat) (s : list Z) : option nat :=
  match s with
  | [] => None
  | c :: s => match rfind_from (S i) s with Some p => Some p | None => if c =? SEPARATOR then Some i else None end
  end.
Definition rfind (s : list Z) : option nat := rfind_from 0 s.

(** The loop over the data part: [Some None] is the early return. *)
Fixpoint rev_values (s : list Z) : option (option (list Z)) :=
  match s with
  | [] => Some (Some [])
  | c :: s =>
      rev ← CHARSET_REV !! Z.to_nat c;
      if rev =? -1 then Some None else
      r ← rev_values s;
      Some (match r with Some values => Some (u8 rev :: values) | None => None end)
  end.

(** The encoding, the prefix and the data; [(INVALID, [], [])] is the empty result. *)
Definition DecodeResult : Type := Encoding * list Z * list Z.

Definition Decode (s : list Z) (limit : nat) : option DecodeResult :=
  if negb (CheckCharacters s).1 then Some (INVALID, [], []) else
  match rfind s with
  | None => Some (INVALID, [], [])
  | Some pos =>
      if (limit <? length s)%nat then Some (INVALID, [], []) else
      if (pos =? 0)%nat || (length s <=? pos + CHECKSUM_SIZE)%nat then Some (INVALID, [], []) else
      r ← rev_values (drop (pos + 1) s);
      match r with
      | None => Some (INVALID, [], [])
      | Some values =>
          let hrp := LowerCase <$> take pos s in
          let result := VerifyChecksum hrp values in
          if decide (result = INVALID) then Some (INVALID, [], [])
          else Some (result, hrp, take (length values - CHECKSUM_SIZE) values)
      end
  end.
End Bech32.

(** The address of BIP 173 with the key hash of the generator. *)
Example bech32_p2wpkh :
  Bech32.Decode (str "bc1qw508d6qejxtdg4y5r3zarvary0c5xw7kv8f3t4") 90 =
  Some (Bech32.BECH32, str "bc", [0; 14; 20; 15; 7; 13; 26; 0; 25; 18; 6; 11; 13; 8; 21; 4; 20; 3; 17; 2; 29; 3; 12; 29; 3; 4; 15; 24; 20; 6; 14; 30; 22]).
Proof. by vm_compute. Qed.

Import Bech32.

(** ** The remainder *)

(** Values of thirty bits, and the step of [PolyMod] without a symbol. *)
Definition in30 (c : Z) : Prop := 0 <= c < 2 ^ 30.
Definition sh (c : Z) : Z := PolyMod_step c 0.

Definition pick (b : bool) (k : Z) : Z := if b then k else 0.

Lemma pick_xor b c k : pick (xorb b c) k = Z.lxor (pick b k) (pick c k).
Proof. destruct b, c; cbn [xorb pick]; by rewrite ?Z.lxor_0_r, ?Z.lxor_0_l, ?Z.lxor_nilpotent. Qed.

Lemma pick_if (b : bool) (c k : Z) : (if b then Z.lxor c k else c) = Z.lxor c (pick b k).
Proof. destruct b; cbn [pick]; by rewrite ?Z.lxor_0_r. Qed.

(** A test of a bit of the top five. *)
Lemma top_bit c i : in30 c → 0 <= i < 5 → negb (Z.land (u8 (Z.shiftr c 25)) (2 ^ i) =? 0) = Z.testbit c (25 + i).
Proof.
  intros Hc Hi. assert (u8 (Z.shiftr c 25) = Z.shiftr c 25) as ->.
  { apply u8_small. unfold in_u8. rewrite Z.shiftr_div_pow2 by lia. unfold in30 in Hc. split; [apply Z.div_pos; lia|].
    apply Z.div_lt_upper_bound; lia. }
  replace (Z.testbit c (25 + i)) with (Z.testbit (Z.shiftr c 25) i) by (rewrite Z.shiftr_spec by lia; f_equal; lia).
  destruct (Z.testbit (Z.shiftr c 25) i) eqn:E.
  - apply negb_true_iff, Z.eqb_neq. intros H. apply (f_equal (λ x, Z.testbit x i)) in H.
    rewrite Z.land_spec, E, Z.bits_0, Z.pow2_bits_true in H by lia. done.
  - apply negb_false_iff, Z.eqb_eq, Z.bits_inj'. intros j Hj. rewrite Z.land_spec, Z.bits_0, Z.pow2_bits_eqb by lia.
    destruct (Z.eqb_spec i j) as [<-|]; [by rewrite E|by rewrite andb_false_r].
Qed.

(** The step, by the bits of its argument. *)
Definition low (c : Z) : Z := Z.shiftl (Z.land c 0x1ffffff) 5.
Definition top (c : Z) : Z :=
  Z.lxor (Z.lxor (Z.lxor (Z.lxor (pick (Z.testbit c 25) 0x3b6a57b2) (pick (Z.testbit c 26) 0x26508e6d))
    (pick (Z.testbit c 27) 0x1ea119fa)) (pick (Z.testbit c 28) 0x3d4233dd)) (pick (Z.testbit c 29) 0x2a1462b3).

Ltac xor_bits :=
  repeat match goal with |- context [pick ?b ?k] => generalize (pick b k); intro end;
  repeat match goal with |- context [low ?c] => generalize (low c); intro end;
  repeat match goal with |- context [top ?c] => generalize (top c); intro end;
  apply Z.bits_inj'; intros ? ?; rewrite ?Z.lxor_spec, ?Z.bits_0; btauto.

Lemma low_range c : in30 (low c).
Proof.
  unfold in30, low. change 0x1ffffff with (Z.ones 25). rewrite Z.land_ones, Z.shiftl_mul_pow2 by lia.
  pose proof (Z.mod_pos_bound c (2 ^ 25) ltac:(lia)). lia.
Qed.

Lemma PolyMod_step_eq c v : in30 c → PolyMod_step c v = Z.lxor (Z.lxor (low c) (top c)) v.
Proof.
  intros Hc. unfold PolyMod_step. cbv zeta. rewrite u32_small by (pose proof (low_range c); unfold in30, in_u32, low in *; lia).
  fold (low c).
  pose proof (λ i, top_bit c i Hc) as H. pose proof (H 0 ltac:(lia)) as H0. pose proof (H 1 ltac:(lia)) as H1.
  pose proof (H 2 ltac:(lia)) as H2. pose proof (H 3 ltac:(lia)) as H3. pose proof (H 4 ltac:(lia)) as H4. clear H.
  change (2 ^ 0) with 1 in H0. change (2 ^ 1) with 2 in H1. change (2 ^ 2) with 4 in H2. change (2 ^ 3) with 8 in H3. change (2 ^ 4) with 16 in H4.
  change (25 + 0) with 25 in H0. change (25 + 1) with 26 in H1. change (25 + 2) with 27 in H2. change (25 + 3) with 28 in H3. change (25 + 4) with 29 in H4.
  rewrite H0, H1, H2, H3, H4, !pick_if. unfold top. xor_bits.
Qed.

Lemma lxor_range a b n : 0 <= n → 0 <= a < 2 ^ n → 0 <= b < 2 ^ n → 0 <= Z.lxor a b < 2 ^ n.
Proof.
  intros Hn Ha Hb. split; [apply Z.lxor_nonneg; lia|]. destruct (Z.eq_dec (Z.lxor a b) 0) as [->|Hz]; [apply Z.pow_pos_nonneg; lia|].
  apply Z.log2_lt_pow2; [assert (0 <= Z.lxor a b) by (apply Z.lxor_nonneg; lia); lia|].
  eapply Z.le_lt_trans; [by apply Z.log2_lxor; lia|].
  assert (Hl : ∀ x, 0 <= x < 2 ^ n → x = 0 ∨ Z.log2 x < n).
  { intros x Hx. destruct (Z.eq_dec x 0); [by left|right]. apply Z.log2_lt_pow2; lia. }
  destruct (Hl a Ha) as [->|?], (Hl b Hb) as [->|?]; [by destruct Hz|..]; change (Z.log2 0) with 0; try pose proof (Z.log2_nonneg a); try pose proof (Z.log2_nonneg b); lia.
Qed.

Lemma pick_range b k : in30 k → in30 (pick b k).
Proof. by destruct b. Qed.

Lemma in30_xor a b : in30 a → in30 b → in30 (Z.lxor a b).
Proof. unfold in30. apply lxor_range. lia. Qed.

Lemma step_range c v : in30 c → in30 v → in30 (PolyMod_step c v).
Proof.
  intros Hc Hv. rewrite PolyMod_step_eq by done. apply in30_xor; [|done]. apply in30_xor; [apply low_range|].
  unfold top. repeat apply in30_xor; apply pick_range; unfold in30; lia.
Qed.

Lemma low_xor a b : low (Z.lxor a b) = Z.lxor (low a) (low b).
Proof. unfold low. rewrite <-Z.shiftl_lxor. f_equal. apply Z.bits_inj'. intros i Hi. rewrite !Z.lxor_spec, !Z.land_spec, Z.lxor_spec. btauto. Qed.

Lemma top_xor a b : top (Z.lxor a b) = Z.lxor (top a) (top b).
Proof. unfold top. rewrite !Z.lxor_spec, !pick_xor. xor_bits. Qed.

Lemma step_xor a b u v : in30 a → in30 b → PolyMod_step (Z.lxor a b) (Z.lxor u v) = Z.lxor (PolyMod_step a u) (PolyMod_step b v).
Proof. intros Ha Hb. rewrite !PolyMod_step_eq, low_xor, top_xor by (done || by apply in30_xor). xor_bits. Qed.

(** The remainder of a list of symbols, without the leading one. *)
Definition lin (d : list Z) : Z := foldl PolyMod_step 0 d.
Abbreviation symbols := (Forall (λ v, 0 <= v < 32)).

Lemma symbol_in30 v : 0 <= v < 32 → in30 v.
Proof. unfold in30. lia. Qed.

Lemma fold_range c d : in30 c → symbols d → in30 (foldl PolyMod_step c d).
Proof. intros Hc Hd. revert c Hc. induction Hd as [|v d Hv _ IH]; intros c Hc; [done|]. apply IH, step_range; [done|by apply symbol_in30]. Qed.

Lemma fold_xor a b x y : in30 a → in30 b → symbols x → symbols y → length x = length y →
  foldl PolyMod_step (Z.lxor a b) (zip_with Z.lxor x y) = Z.lxor (foldl PolyMod_step a x) (foldl PolyMod_step b y).
Proof.
  intros Ha Hb Hx. revert a b y Ha Hb. induction Hx as [|u x Hu Hx IH]; intros a b [|v y] Ha Hb Hy Hl; try done.
  apply Forall_cons_1 in Hy as [Hv Hy]. injection Hl as Hl. cbn [zip_with foldl].
  rewrite step_xor by done. apply IH; try done; apply step_range; try done; by apply symbol_in30.
Qed.

Lemma zip_zeros x : zip_with Z.lxor (replicate (length x) 0) x = x.
Proof. induction x as [|u x IH]; [done|]. cbn [length replicate zip_with]. by rewrite Z.lxor_0_l, IH. Qed.

Lemma zeros_symbols n : symbols (replicate n 0).
Proof. apply Forall_replicate. lia. Qed.

(** Six symbols are their own remainder. *)
Lemma step_small c v : 0 <= c < 2 ^ 25 → 0 <= v < 32 → PolyMod_step c v = c * 2 ^ 5 + v.
Proof.
  intros Hc Hv. rewrite PolyMod_step_eq by (unfold in30; lia).
  assert (Hb : ∀ i, 25 <= i → Z.testbit c i = false).
  { intros i Hi. destruct (Z.eq_dec c 0) as [->|]; [apply Z.bits_0|]. apply Z.bits_above_log2; [lia|].
    apply (Z.lt_le_trans _ 25); [|done]. apply Z.log2_lt_pow2; lia. }
  assert (top c = 0) as -> by (unfold top; by rewrite (Hb 25), (Hb 26), (Hb 27), (Hb 28), (Hb 29) by lia).
  assert (low c = c * 2 ^ 5) as ->.
  { unfold low. change 0x1ffffff with (Z.ones 25). rewrite Z.land_ones, Z.mod_small, Z.shiftl_mul_pow2 by lia. done. }
  rewrite Z.lxor_0_r. apply lxor_mul_pow2; lia.
Qed.

Lemma fold_small n x c : 0 <= c < 2 ^ (5 * n) → 0 <= n → n + Z.of_nat (length x) <= 6 → symbols x →
  foldl PolyMod_step c x = c * 2 ^ (5 * Z.of_nat (length x)) + radix 5 x.
Proof.
  intros Hc Hn Hl Hx. revert n c Hc Hn Hl. induction Hx as [|v x Hv _ IH]; intros n c Hc Hn Hl.
  - cbn [foldl length]. change (5 * Z.of_nat 0) with 0. unfold radix. cbn [foldl]. lia.
  - cbn [length] in Hl. assert (2 ^ (5 * n) <= 2 ^ 25) by (apply Z.pow_le_mono_r; lia).
    cbn [foldl]. rewrite step_small by lia. rewrite (IH (n + 1)).
    + rewrite radix_cons by lia. cbn [length]. replace (5 * Z.of_nat (S (length x))) with (5 + 5 * Z.of_nat (length x)) by lia.
      rewrite Z.pow_add_r by lia. lia.
    + replace (5 * (n + 1)) with (5 * n + 5) by lia. rewrite Z.pow_add_r by lia. change (2 ^ 5) with 32 in *. lia.
    + lia.
    + lia.
Qed.

(** The symbols of a thirty-bit number. *)
Definition digits30 (m : Z) : list Z := (λ i, Z.land (Z.shiftr m (5 * (5 - i))) 31) <$> seqZ 0 6.

Lemma digits30_ok m : in30 m → symbols (digits30 m) ∧ radix 5 (digits30 m) = m.
Proof.
  intros Hm. unfold in30 in Hm. assert (Hd : ∀ k, 0 <= k → Z.land (Z.shiftr m k) 31 = m / 2 ^ k mod 32).
  { intros k Hk. change 31 with (Z.ones 5). rewrite Z.land_ones, Z.shiftr_div_pow2 by lia. done. }
  unfold digits30. split.
  - apply Forall_fmap, Forall_forall. intros i _. cbn [compose].
    destruct (Z_le_gt_dec 0 (5 * (5 - i))) as [?|?].
    + rewrite Hd by done. apply Z.mod_pos_bound. lia.
    + change 31 with (Z.ones 5). rewrite Z.land_ones by lia. apply Z.mod_pos_bound. lia.
  - change (seqZ 0 6) with [0; 1; 2; 3; 4; 5]. cbn [fmap list_fmap]. unfold radix. cbn [foldl].
    change (5 * (5 - 0)) with 25. change (5 * (5 - 1)) with 20. change (5 * (5 - 2)) with 15. change (5 * (5 - 3)) with 10.
    change (5 * (5 - 4)) with 5. change (5 * (5 - 5)) with 0. rewrite !Hd by lia. change (2 ^ 5) with 32. change (2 ^ 0) with 1.
    change (2 ^ 25) with (32 * 32 * 32 * 32 * 32). change (2 ^ 20) with (32 * 32 * 32 * 32). change (2 ^ 15) with (32 * 32 * 32). change (2 ^ 10) with (32 * 32).
    rewrite <-!Z.div_div by lia. rewrite Z.div_1_r.
    pose proof (Z.div_mod m 32 ltac:(lia)). set (a := m / 32) in *. pose proof (Z.div_mod a 32 ltac:(lia)). set (b := a / 32) in *.
    pose proof (Z.div_mod b 32 ltac:(lia)). set (c := b / 32) in *. pose proof (Z.div_mod c 32 ltac:(lia)). set (d := c / 32) in *.
    pose proof (Z.div_mod d 32 ltac:(lia)). set (e := d / 32) in *.
    assert (e mod 32 = e); [|lia]. apply Z.mod_small. unfold e, d, c, b, a. rewrite !Z.div_div by lia.
    split; [apply Z.div_pos; lia|apply Z.div_lt_upper_bound; lia].
Qed.

(** Values with the checksum that makes the remainder [const]. *)
Lemma checksum_remainder x const : symbols x → in30 const →
  PolyMod (x ++ digits30 (Z.lxor (PolyMod (x ++ replicate 6 0)) const)) = const.
Proof.
  intros Hx Hc. unfold PolyMod. rewrite !foldl_app. set (c := foldl PolyMod_step 1 x).
  assert (Hr : in30 c) by (apply fold_range; [unfold in30; lia|done]).
  assert (Hz : in30 (foldl PolyMod_step c (replicate 6 0))) by (apply fold_range; [done|apply zeros_symbols]).
  set (z := foldl PolyMod_step c _) in *. assert (Hm : in30 (Z.lxor z const)) by (by apply in30_xor).
  destruct (digits30_ok _ Hm) as [Hd Hv]. set (d := digits30 _) in *. assert (Hl : length d = 6%nat) by done.
  pose proof (fold_xor c 0 (replicate 6 0) d Hr ltac:(unfold in30; lia) (zeros_symbols 6) Hd ltac:(done)) as E.
  fold z in E. rewrite Z.lxor_0_r in E. rewrite (fold_small 0 d 0), Hv, Z.mul_0_l, Z.add_0_l in E by (done || lia).
  change (replicate 6 0) with (replicate (length d) 0) in E. rewrite zip_zeros in E. rewrite E.
  by rewrite <-Z.lxor_assoc, Z.lxor_nilpotent, Z.lxor_0_l.
Qed.

(** ** Characters *)

Abbreviation enc32 v := (CHARSET !!! Z.to_nat v).

Lemma charset_ok v : 0 <= v < 32 → charset_at v = Some (enc32 v) ∧ CHARSET_REV !! Z.to_nat (enc32 v) = Some v ∧
  33 <= enc32 v <= 126 ∧ (enc32 v < 65 ∨ 90 < enc32 v) ∧ enc32 v ≠ SEPARATOR.
Proof.
  intros Hv. pose proof (by_enumeration (λ v, bool_decide (charset_at v = Some (enc32 v)) && bool_decide (CHARSET_REV !! Z.to_nat (enc32 v) = Some v) &&
    (33 <=? enc32 v) && (enc32 v <=? 126) && ((enc32 v <? 65) || (90 <? enc32 v)) && negb (enc32 v =? SEPARATOR)) 32 v eq_refl Hv) as H.
  cbv beta in H. rewrite !andb_true_iff, !bool_decide_eq_true, !Z.leb_le, orb_true_iff, !Z.ltb_lt, negb_true_iff, Z.eqb_neq in H. tauto.
Qed.

Lemma charset_all x : symbols x → mapM charset_at x = Some ((λ v, enc32 v) <$> x).
Proof. induction 1 as [|v x Hv _ IH]; [done|]. cbn [mapM fmap list_fmap]. destruct (charset_ok v Hv) as [-> _]. cbn [mbind option_bind]. by rewrite IH. Qed.

Lemma rev_values_chars x : symbols x → rev_values ((λ v, enc32 v) <$> x) = Some (Some x).
Proof.
  induction 1 as [|v x Hv _ IH]; [done|]. cbn [fmap list_fmap rev_values]. destruct (charset_ok v Hv) as (_ & -> & _).
  cbn [mbind option_bind]. rewrite (proj2 (Z.eqb_neq v (-1))) by lia. rewrite IH. cbn [mbind option_bind].
  by rewrite u8_small by (unfold in_u8; lia).
Qed.

(** Characters that are printable and not upper case. *)
Definition plain (c : Z) : Prop := 33 <= c <= 126 ∧ (c < 65 ∨ 90 < c).

Lemma check_plain l i s : Forall plain s → check_characters l false i s = [].
Proof.
  intros H. revert l i. induction H as [|c s [Hc Hu] _ IH]; intros l i; [done|]. cbn [check_characters].
  destruct ((97 <=? c) && (c <=? 122)); [apply IH|].
  assert ((65 <=? c) && (c <=? 90) = false) as -> by (apply andb_false_iff; destruct Hu; [left|right]; apply Z.leb_gt; lia).
  rewrite !(proj2 (Z.ltb_ge _ _)) by lia. apply IH.
Qed.

Lemma plain_lower s : Forall plain s → LowerCase <$> s = s.
Proof.
  induction 1 as [|c s [Hc Hu] _ IH]; [done|]. cbn [fmap list_fmap]. rewrite IH. unfold LowerCase.
  assert ((65 <=? c) && (c <=? 90) = false) as -> by (apply andb_false_iff; destruct Hu; [left|right]; apply Z.leb_gt; lia). done.
Qed.

Lemma plain_chars x : symbols x → Forall plain ((λ v, enc32 v) <$> x).
Proof. intros H. apply Forall_fmap. eapply Forall_impl; [|exact H]. intros v Hv. destruct (charset_ok v Hv) as (_ & _ & ? & ? & _). by split. Qed.

Lemma rfind_none i s : Forall (λ c, c ≠ SEPARATOR) s → rfind_from i s = None.
Proof. intros H. revert i. induction H as [|c s Hc _ IH]; intros i; [done|]. cbn [rfind_from]. rewrite IH. by rewrite (proj2 (Z.eqb_neq _ _) Hc). Qed.

Lemma rfind_last i h s : Forall (λ c, c ≠ SEPARATOR) s → rfind_from i (h ++ [SEPARATOR] ++ s) = Some (i + length h)%nat.
Proof.
  intros H. revert i. induction h as [|c h IH]; intros i.
  - cbn [app rfind_from]. rewrite rfind_none by done. cbn [length]. by rewrite Nat.add_0_r.
  - cbn [app rfind_from]. cbn [app] in IH. rewrite IH. cbn [length]. f_equal. lia.
Qed.

Lemma chars_separator x : symbols x → Forall (λ c, c ≠ SEPARATOR) ((λ v, enc32 v) <$> x).
Proof. intros H. apply Forall_fmap. eapply Forall_impl; [|exact H]. intros v Hv. by destruct (charset_ok v Hv) as (_ & _ & _ & _ & ?). Qed.

Lemma expand_symbols hrp values : Forall plain hrp → symbols values → symbols (PreparePolynomialCoefficients hrp values).
Proof.
  intros Hh Hv. unfold PreparePolynomialCoefficients. assert (Hs : ∀ c, plain c → schar c = c).
  { intros c [Hc _]. unfold schar. by rewrite (proj2 (Z.ltb_lt _ _)) by lia. }
  rewrite !Forall_app, !Forall_fmap. split_and!; [| |  |done].
  - eapply Forall_impl; [|exact Hh]. intros c Hc. cbn [compose]. rewrite Hs by done. destruct Hc as [Hc _].
    rewrite Z.shiftr_div_pow2 by lia. rewrite u8_small by (unfold in_u8; split; [apply Z.div_pos; lia|apply Z.div_lt_upper_bound; lia]).
    split; [apply Z.div_pos; lia|apply Z.div_lt_upper_bound; lia].
  - repeat constructor; lia.
  - eapply Forall_impl; [|exact Hh]. intros c Hc. cbn [compose]. rewrite Hs by done. change 0x1f with (Z.ones 5).
    rewrite Z.land_ones by lia. apply Z.mod_pos_bound. lia.
Qed.

(** What [Decode] does on a string with a plain prefix and characters of the set. *)
Lemma Decode_chars hrp x limit : Forall plain hrp → hrp ≠ [] → symbols x → (6 <= length x)%nat → (length hrp + 1 + length x <= limit)%nat →
  Decode (hrp ++ [SEPARATOR] ++ ((λ v, enc32 v) <$> x)) limit =
  Some (if decide (VerifyChecksum hrp x = INVALID) then (INVALID, [], []) else (VerifyChecksum hrp x, hrp, take (length x - 6) x)).
Proof.
  intros Hh Hn Hx Hl Hlim. unfold Decode. set (s := hrp ++ [SEPARATOR] ++ _).
  assert (Hs : Forall plain s).
  { unfold s. rewrite !Forall_app. split_and!; [done|repeat constructor; unfold SEPARATOR; lia|by apply plain_chars]. }
  unfold CheckCharacters. rewrite check_plain by done. rewrite bool_decide_true by done. cbn [fst negb].
  unfold rfind, s. rewrite rfind_last by (by apply chars_separator). cbn [Nat.add]. fold s.
  assert (Ls : length s = (length hrp + 1 + length x)%nat) by (unfold s; rewrite !length_app, length_fmap; cbn [length]; lia).
  rewrite (proj2 (Nat.ltb_ge _ _)) by lia. rewrite (proj2 (Nat.eqb_neq _ _)) by (destruct hrp; [done|cbn [length]; lia]).
  rewrite (proj2 (Nat.leb_gt _ _)) by (unfold CHECKSUM_SIZE; lia). cbn [orb].
  assert (drop (length hrp + 1) s = (λ v, enc32 v) <$> x) as ->.
  { unfold s. rewrite app_assoc, drop_app_length'; [done|]. rewrite length_app. done. }
  rewrite rev_values_chars by done. cbn [mbind option_bind].
  assert (take (length hrp) s = hrp) as -> by (unfold s; by rewrite take_app_length). rewrite plain_lower by done.
  case_decide; done.
Qed.

(** Strings that are too short or too long. *)
Lemma Decode_short hrp x limit r : Forall plain hrp → symbols x → ¬ (6 <= length x ∧ length hrp + 1 + length x <= limit)%nat →
  Decode (hrp ++ [SEPARATOR] ++ ((λ v, enc32 v) <$> x)) limit = Some r → r = (INVALID, [], []).
Proof.
  intros Hh Hx Hbad. unfold Decode. case_match; [congruence|]. unfold rfind. rewrite rfind_last by (by apply chars_separator).
  assert (Ls : length (hrp ++ [SEPARATOR] ++ ((λ v, enc32 v) <$> x)) = (length hrp + 1 + length x)%nat)
    by (rewrite !length_app, length_fmap; cbn [length]; lia).
  rewrite Ls. cbn [Nat.add]. destruct (Nat.ltb_spec limit (length hrp + 1 + length x)); [congruence|].
  rewrite (proj2 (Nat.leb_le _ _)) by (unfold CHECKSUM_SIZE; lia). rewrite orb_true_r. congruence.
Qed.

(** ** Round trip *)

Lemma VerifyChecksum_of hrp x : VerifyChecksum hrp x =
  let check := PolyMod (PreparePolynomialCoefficients hrp x) in
  if decide (check = 1) then BECH32 else if decide (check = 0x2bc830a3) then BECH32M else INVALID.
Proof.
  unfold VerifyChecksum. cbv zeta. cbn [EncodingConstant]. repeat case_decide; repeat case_bool_decide; congruence.
Qed.

Lemma Encode_Decode encoding hrp values : encoding ≠ INVALID → Forall plain hrp → hrp ≠ [] → symbols values → values ≠ [] →
  (length hrp + length values <= 83)%nat →
  ∃ s, Encode encoding hrp values = Some s ∧ Decode s CharLimit_BECH32 = Some (encoding, hrp, values) ∧
    s = hrp ++ drop (length hrp) s.
Proof.
  intros He Hh Hn Hv Hv0 Hlen. unfold Encode.
  assert (existsb (λ c, (65 <=? c) && (c <=? 90)) hrp = false) as ->.
  { apply not_true_is_false. rewrite existsb_exists. intros (c & Hc & E). rewrite andb_true_iff, !Z.leb_le in E.
    eapply Forall_forall in Hh; [|exact Hc]. destruct Hh as [_ Hh]. lia. }
  rewrite charset_all by done. cbn [mbind option_bind]. unfold CreateChecksum.
  assert (∃ const, EncodingConstant encoding = Some const ∧ in30 const) as (const & Econst & Hc)
    by (destruct encoding; [done|by exists 1|by exists 0x2bc830a3]).
  rewrite Econst. cbn [mbind option_bind]. change (Z.of_nat CHECKSUM_SIZE) with 6. set (enc := PreparePolynomialCoefficients hrp values).
  set (m := Z.lxor _ const). fold (digits30 m).
  assert (Henc : symbols enc) by (by apply expand_symbols).
  assert (Hm : in30 m).
  { apply in30_xor; [|done]. apply fold_range; [unfold in30; lia|]. apply Forall_app. split; [done|apply zeros_symbols]. }
  destruct (digits30_ok m Hm) as [Hd _]. rewrite charset_all by done. cbn [mbind option_bind]. eexists. split; [done|].
  assert (Hall : symbols (values ++ digits30 m)) by (apply Forall_app; by split).
  assert (Ld : length (digits30 m) = 6%nat) by done. split; [|by rewrite drop_app_length].
  rewrite <-fmap_app. rewrite Decode_chars; [|done|done|done| |].
  - assert (VerifyChecksum hrp (values ++ digits30 m) = encoding) as ->.
    { rewrite VerifyChecksum_of. cbv zeta.
      assert (PolyMod (PreparePolynomialCoefficients hrp (values ++ digits30 m)) = const) as ->.
      { replace (PreparePolynomialCoefficients hrp (values ++ digits30 m)) with (enc ++ digits30 m)
          by (unfold enc, PreparePolynomialCoefficients; by rewrite <-!app_assoc).
        by apply checksum_remainder. }
      destruct encoding; [done|..]; injection Econst as <-; done. }
    rewrite decide_False by done. rewrite length_app, Ld, Nat.add_sub, take_app_length. done.
  - rewrite length_app, Ld. destruct values; [done|cbn [length]; lia].
  - rewrite length_app, Ld. unfold CharLimit_BECH32. lia.
Qed.

(** ** Errors *)

(** Symbols shifted [k] times. *)
Definition shn (k : nat) (e : Z) : Z := foldl PolyMod_step e (replicate k 0).

Lemma shn_range k e : in30 e → in30 (shn k e).
Proof. intros He. unfold shn. apply fold_range; [exact He|apply zeros_symbols]. Qed.

Lemma sh_in30 c : in30 c → in30 (sh c).
Proof. intros Hc. unfold sh. apply step_range; [exact Hc|unfold in30; lia]. Qed.

Lemma shn_S k e : shn (S k) e = shn k (sh e).
Proof. reflexivity. Qed.

Lemma shn_add j k e : shn (j + k) e = shn k (shn j e).
Proof. unfold shn. by rewrite replicate_add, foldl_app. Qed.

(** The step is injective: the lowest symbol of the result tells the top symbol. *)
Lemma sh_zero c : in30 c → sh c = 0 → c = 0.
Proof.
  intros Hc E. unfold in30 in Hc. pose proof (Z.div_mod c (2 ^ 25) ltac:(lia)) as Hd.
  pose proof (Z.mod_pos_bound c (2 ^ 25) ltac:(lia)) as Hm. set (t := c / 2 ^ 25) in *. set (r := c mod 2 ^ 25) in *.
  assert (Ht : 0 <= t < 32) by lia.
  assert (Ex : c = Z.lxor (t * 2 ^ 25) r) by (rewrite lxor_mul_pow2 by lia; lia).
  assert (Et : in30 (t * 2 ^ 25)) by (unfold in30; lia). assert (Er : in30 r) by (unfold in30; lia).
  unfold sh in E. rewrite Ex in E. change 0 with (Z.lxor 0 0) in E at 1. rewrite step_xor in E by done.
  rewrite (step_small r 0) in E by lia. apply Z.lxor_eq in E.
  pose proof (by_enumeration (λ t, implb (PolyMod_step (t * 2 ^ 25) 0 mod 32 =? 0) (t =? 0)) 32 t eq_refl Ht) as H. cbv beta in H.
  rewrite E in H. replace ((r * 2 ^ 5 + 0) mod 32) with 0 in H by (change (2 ^ 5) with 32; rewrite Z.add_0_r, Z.mod_mul; lia).
  cbn in H. apply Z.eqb_eq in H. rewrite H in *. rewrite Z.mul_0_l in E.
  change (PolyMod_step 0 0) with 0 in E. lia.
Qed.

Lemma shn_zero k e : in30 e → shn k e = 0 → e = 0.
Proof.
  revert e. induction k as [|k IH]; intros e He; [exact id|]. rewrite shn_S. intros E.
  apply sh_zero; [exact He|]. apply IH; [by apply sh_in30|exact E].
Qed.

Lemma shn_xor k a b : in30 a → in30 b → shn k (Z.lxor a b) = Z.lxor (shn k a) (shn k b).
Proof.
  intros Ha Hb. unfold shn. rewrite <-fold_xor; [|exact Ha|exact Hb|apply zeros_symbols|apply zeros_symbols|done].
  f_equal. induction k as [|k IH]; [done|]. cbn [replicate zip_with]. by rewrite <-IH.
Qed.

Lemma shn_inj k a b : in30 a → in30 b → shn k a = shn k b → a = b.
Proof.
  intros Ha Hb E. apply Z.lxor_eq. apply (shn_zero k); [by apply in30_xor|]. by rewrite shn_xor, E, Z.lxor_nilpotent.
Qed.

(** The remainders of single errors in up to 88 places: of each error [e] the list of
    its shifts. *)
Fixpoint shifts (n : nat) (c : Z) : list Z := match n with O => [] | S n => c :: shifts n (sh c) end.
Definition single_errors : list Z := seqZ 1 31 ≫= shifts 88.
(** What turns a Bech32 string into a Bech32m string. *)
Definition delta : Z := Z.lxor 1 0x2bc830a3.

Lemma shifts_elem n k e : (k < n)%nat → shn k e ∈ shifts n e.
Proof.
  revert k e. induction n as [|n IH]; intros k e Hk; [lia|]. cbn [shifts]. destruct k as [|k]; [left|].
  right. rewrite shn_S. apply IH. lia.
Qed.

Lemma single_elem k e : 0 < e < 32 → (k < 88)%nat → shn k e ∈ single_errors.
Proof. intros He Hk. apply list_elem_of_bind. exists e. split; [by apply shifts_elem|apply elem_of_seqZ; lia]. Qed.

Lemma shifts_large : forallb (λ e, forallb (λ t, 32 <=? t) (tail (shifts 88 e))) (seqZ 1 31) = true.
Proof. by vm_compute. Qed.

(** No remainder of the list is [d], and no two of them differ by [d]. *)
Definition index (l : list Z) : gmap Z unit := foldr (λ t, <[t := tt]>) ∅ l.
Definition avoids (d : Z) (l : list Z) : bool :=
  let m := index l in
  forallb (λ t, negb (t =? d) && match m !! Z.lxor t d with Some _ => false | None => true end) l.

Lemma index_elem l t : t ∈ l → index l !! t = Some tt.
Proof.
  induction 1 as [t l|t u l _ IH]; cbn [index foldr]; [apply lookup_insert_eq|].
  destruct (decide (t = u)) as [->|Hn]; [apply lookup_insert_eq|]. by rewrite lookup_insert_ne by congruence.
Qed.

Lemma avoids_spec d l t u : avoids d l = true → t ∈ l → u ∈ l → t ≠ d ∧ Z.lxor t u ≠ d.
Proof.
  unfold avoids. rewrite forallb_forall. intros H Ht Hu. specialize (H t (proj1 (list_elem_of_In _ _) Ht)).
  rewrite andb_true_iff, negb_true_iff, Z.eqb_neq in H. destruct H as [H1 H2].
  split; [done|]. intros <-. rewrite <-Z.lxor_assoc, Z.lxor_nilpotent, Z.lxor_0_l, index_elem in H2 by done. done.
Qed.

Lemma delta_avoided : avoids delta single_errors = true.
Proof. vm_compute. reflexivity. Qed.

Lemma lin_cons e d : symbols (e :: d) → lin (e :: d) = Z.lxor (shn (length d) e) (lin d).
Proof.
  intros [He Hd]%Forall_cons_1. unfold lin, shn. cbn [foldl]. rewrite step_small by lia. rewrite Z.mul_0_l, Z.add_0_l.
  rewrite <-fold_xor; [|by apply symbol_in30|unfold in30; lia|apply zeros_symbols|exact Hd|apply length_replicate].
  by rewrite Z.lxor_0_r, zip_zeros.
Qed.

(** The number of symbols that are not zero. *)
Definition weight (d : list Z) : nat := length (filter (λ v, v ≠ 0) d).

Lemma weight_cons e d : weight (e :: d) = if decide (e = 0) then weight d else S (weight d).
Proof.
  unfold weight. destruct (decide (e = 0)); [by rewrite filter_cons_False by naive_solver|by rewrite filter_cons_True].
Qed.

Lemma shn_0 k : shn k 0 = 0.
Proof. unfold shn. induction k as [|k IH]; [done|]. cbn [replicate foldl]. change (PolyMod_step 0 0) with 0. exact IH. Qed.

Lemma lin_weight_0 d : symbols d → weight d = 0%nat → lin d = 0.
Proof.
  induction d as [|e d IH]; intros Hd Hw; [done|]. rewrite lin_cons by done. apply Forall_cons_1 in Hd as [_ Hd].
  rewrite weight_cons in Hw. case_decide as He; [|done]. rewrite He, shn_0, IH; done.
Qed.

Lemma lin_weight_1 d : symbols d → weight d = 1%nat → ∃ k e, (k < length d)%nat ∧ 0 < e < 32 ∧ lin d = shn k e.
Proof.
  induction d as [|e d IH]; intros Hd Hw; [done|]. rewrite lin_cons by done. apply Forall_cons_1 in Hd as [He Hd].
  rewrite weight_cons in Hw. case_decide as He0.
  - destruct (IH Hd Hw) as (k & e' & Hk & He' & ->). exists k, e'. rewrite He0, shn_0, Z.lxor_0_l. cbn [length]. split_and!; [lia|lia..|done].
  - injection Hw as Hw. rewrite (lin_weight_0 d Hd Hw), Z.lxor_0_r. exists (length d), e. cbn [length]. split_and!; [lia|lia..|done].
Qed.

Lemma lin_weight_2 d : symbols d → weight d = 2%nat → ∃ k k' e e', (k' < k < length d)%nat ∧ 0 < e < 32 ∧ 0 < e' < 32 ∧
  lin d = Z.lxor (shn k e) (shn k' e').
Proof.
  induction d as [|e d IH]; intros Hd Hw; [done|]. rewrite lin_cons by done. apply Forall_cons_1 in Hd as [He Hd].
  rewrite weight_cons in Hw. case_decide as He0.
  - destruct (IH Hd Hw) as (k & k' & a & b & Hk & Ha & Hb & ->). exists k, k', a, b. rewrite He0, shn_0, Z.lxor_0_l. cbn [length].
    split_and!; [lia..|done].
  - injection Hw as Hw. destruct (lin_weight_1 d Hd Hw) as (k & b & Hk & Hb & ->). exists (length d), k, e, b. cbn [length].
    split_and!; [lia..|done].
Qed.

Lemma shifted_symbol j e : (0 < j < 88)%nat → 0 < e < 32 → 32 <= shn j e.
Proof.
  intros Hj He. pose proof shifts_large as H. rewrite forallb_forall in H.
  specialize (H e). rewrite forallb_forall in H. apply Z.leb_le, H; [apply list_elem_of_In, elem_of_seqZ; lia|].
  apply list_elem_of_In. change (tail (shifts 88 e)) with (shifts 87 (sh e)). destruct j as [|j]; [lia|]. rewrite shn_S.
  apply shifts_elem. lia.
Qed.

(** One or two errors change the remainder, and not from one constant to the other. *)
Lemma lin_detects d : symbols d → (length d <= 88)%nat → (1 <= weight d <= 2)%nat → lin d ≠ 0 ∧ lin d ≠ delta.
Proof.
  intros Hd Hl Hw. assert (weight d = 1%nat ∨ weight d = 2%nat) as [E|E] by lia.
  - destruct (lin_weight_1 d Hd E) as (k & e & Hk & He & ->). split.
    + intros Hz. apply shn_zero in Hz; [lia|]. apply symbol_in30. lia.
    + assert (Hin : shn k e ∈ single_errors) by (apply single_elem; lia). by apply (avoids_spec _ _ _ _ delta_avoided Hin Hin).
  - destruct (lin_weight_2 d Hd E) as (k & k' & e & e' & Hk & He & He' & ->). split.
    + intros Hz%Z.lxor_eq. replace k with ((k - k') + k')%nat in Hz by lia. rewrite shn_add in Hz.
      apply shn_inj in Hz; [|apply shn_range, symbol_in30; lia|apply symbol_in30; lia].
      pose proof (shifted_symbol (k - k') e ltac:(lia) He). lia.
    + assert (Hin : shn k e ∈ single_errors) by (apply single_elem; lia). assert (Hin' : shn k' e' ∈ single_errors) by (apply single_elem; lia).
      by apply (avoids_spec _ _ _ _ delta_avoided Hin Hin').
Qed.

(** The number of places in which two strings differ. *)
Definition differences (v w : list Z) : nat := length (filter (λ p, p.1 ≠ p.2) (zip v w)).

Lemma differences_cons a b v w : differences (a :: v) (b :: w) = if decide (a = b) then differences v w else S (differences v w).
Proof.
  unfold differences. cbn [zip zip_with]. destruct (decide (a = b)); [by rewrite filter_cons_False by (cbn; naive_solver)|by rewrite filter_cons_True].
Qed.

Lemma weight_xor x y : length x = length y → weight (zip_with Z.lxor x y) = differences x y.
Proof.
  revert y. induction x as [|a x IH]; intros [|b y] Hl; try done. injection Hl as Hl. cbn [zip_with].
  rewrite weight_cons, differences_cons, IH by done. destruct (decide (a = b)) as [->|Hn].
  - by rewrite Z.lxor_nilpotent, decide_True.
  - rewrite decide_False; [done|]. by intros ?%Z.lxor_eq.
Qed.

Lemma xor_symbols x y : symbols x → symbols y → symbols (zip_with Z.lxor x y).
Proof.
  intros Hx. revert y. induction Hx as [|a x Ha _ IH]; intros [|b y] Hy; try constructor.
  - apply Forall_cons_1 in Hy as [Hb _]. change 32 with (2 ^ 5) in *. by apply lxor_range.
  - apply Forall_cons_1 in Hy as [_ Hy]. by apply IH.
Qed.

Lemma expand_app hrp x : PreparePolynomialCoefficients hrp x = PreparePolynomialCoefficients hrp [] ++ x.
Proof. unfold PreparePolynomialCoefficients. by rewrite app_nil_r, <-!app_assoc. Qed.

Lemma checksum_detects hrp x y : Forall plain hrp → symbols x → symbols y → length x = length y → (length x <= 88)%nat →
  (1 <= differences x y <= 2)%nat → VerifyChecksum hrp x ≠ INVALID → VerifyChecksum hrp y = INVALID.
Proof.
  intros Hh Hx Hy Hl Hn Hd. rewrite !VerifyChecksum_of. cbv zeta. unfold PolyMod.
  rewrite (expand_app hrp x), (expand_app hrp y), !foldl_app. set (c := foldl PolyMod_step 1 _).
  assert (Hc : in30 c) by (apply fold_range; [unfold in30; lia|]; apply expand_symbols; [exact Hh|constructor]).
  pose proof (fold_xor c c x y Hc Hc Hx Hy Hl) as E. rewrite Z.lxor_nilpotent in E. fold (lin (zip_with Z.lxor x y)) in E.
  destruct (lin_detects (zip_with Z.lxor x y)) as [H0 H1]; [by apply xor_symbols|rewrite length_zip_with; lia|by rewrite weight_xor|].
  rewrite E in H0, H1. set (p := foldl PolyMod_step c x) in *. set (q := foldl PolyMod_step c y) in *.
  assert (Hpq : p ≠ q) by (intros ->; by rewrite Z.lxor_nilpotent in H0). unfold delta in H1.
  clearbody p q. intros Hp. destruct (decide (q = 1)) as [->|Hq1]; [|destruct (decide (q = 0x2bc830a3)) as [->|Hq2]; [|done]].
  - rewrite decide_False in Hp by done. case_decide as Hp2; [subst; by rewrite Z.lxor_comm in H1|done].
  - case_decide as Hp1; [by subst|]. by rewrite decide_False in Hp by done.
Qed.

Lemma chars_symbols v : Forall (.∈ CHARSET) v → ∃ x, v = ((λ a, enc32 a) <$> x) ∧ symbols x.
Proof.
  induction 1 as [|c v Hc _ (x & -> & Hx)]; [by exists []|]. apply list_elem_of_lookup in Hc as [i Hi].
  assert (Hlt : (i < 32)%nat) by (by apply lookup_lt_Some in Hi). exists (Z.of_nat i :: x). split.
  - cbn [fmap list_fmap]. rewrite Nat2Z.id. f_equal. symmetry. by apply list_lookup_total_correct.
  - constructor; [lia|done].
Qed.

Lemma enc32_inj a b : 0 <= a < 32 → 0 <= b < 32 → enc32 a = enc32 b → a = b.
Proof.
  intros Ha Hb E. destruct (charset_ok a Ha) as (_ & Ea & _), (charset_ok b Hb) as (_ & Eb & _). rewrite E in Ea. congruence.
Qed.

Lemma differences_chars x y : symbols x → symbols y → length x = length y →
  differences ((λ a, enc32 a) <$> x) ((λ a, enc32 a) <$> y) = differences x y.
Proof.
  intros Hx. revert y. induction Hx as [|a x Ha _ IH]; intros [|b y] Hy Hl; try done. injection Hl as Hl.
  apply Forall_cons_1 in Hy as [Hb Hy]. cbn [fmap list_fmap]. rewrite !differences_cons, IH by done.
  destruct (decide (a = b)) as [->|Hn]; [by rewrite decide_True|]. rewrite decide_False; [done|]. by intros E%enc32_inj.
Qed.

(** C23 Typing errors in addresses: if a Bech32 or Bech32m string is valid, then a string
    in which one or two characters after the separator were replaced by other
    characters of the set is not valid, in either encoding. *)
Theorem bech32_detects_errors (hrp v w : list Z) (limit : nat) (r : DecodeResult) :
  hrp ≠ [] → Forall plain hrp → Forall (.∈ CHARSET) v → Forall (.∈ CHARSET) w → length v = length w →
  (1 <= differences v w <= 2)%nat → (limit <= CharLimit_BECH32)%nat →
  Decode (hrp ++ [SEPARATOR] ++ v) limit = Some r → r.1.1 ≠ INVALID →
  Decode (hrp ++ [SEPARATOR] ++ w) limit = Some (INVALID, [], []).
Proof.
  intros Hn Hh Hv Hw Hl Hd Hlim E Hr. destruct (chars_symbols v Hv) as (x & -> & Hx), (chars_symbols w Hw) as (y & -> & Hy).
  rewrite !length_fmap in Hl. rewrite differences_chars in Hd by done.
  destruct (decide (6 <= length x ∧ length hrp + 1 + length x <= limit)%nat) as [[H6 Hlen]|Hbad].
  - rewrite Decode_chars in E by done. injection E as <-. rewrite Decode_chars by (done || lia). case_decide as H0; [done|].
    unfold CharLimit_BECH32 in Hlim. rewrite decide_True; [done|].
    apply (checksum_detects hrp x y); [done|done|done|done| |done|done]. destruct hrp; [done|]. cbn [length] in Hlen. lia.
  - by rewrite (Decode_short hrp x limit r Hh Hx Hbad E) in Hr.
Qed.

(** ** Instances *)

Lemma bech32_detects_errors_witness :
  Decode (str "bc1qw508d6qejxtdg4y5r3zarvary0c5xw7kv8f3q4") 90 = Some (INVALID, [], []).
Proof.
  apply (bech32_detects_errors (str "bc") (str "qw508d6qejxtdg4y5r3zarvary0c5xw7kv8f3t4") (str "qw508d6qejxtdg4y5r3zarvary0c5xw7kv8f3q4") 90
    (BECH32, str "bc", [0; 14; 20; 15; 7; 13; 26; 0; 25; 18; 6; 11; 13; 8; 21; 4; 20; 3; 17; 2; 29; 3; 12; 29; 3; 4; 15; 24; 20; 6; 14; 30; 22]));
    [discriminate| |apply (bool_decide_eq_true_1 _); vm_compute; reflexivity..| | |vm_compute; reflexivity|discriminate].
  - repeat constructor; cbn; lia.
  - split; apply (bool_decide_eq_true_1 _); vm_compute; reflexivity.
  - apply le_n.
Defined.
