(* ===== verification/Base58.v ===== *)
(** Base 58 (base58.h and .cpp).

    A C string is the list of its characters before the terminating zero.  The digit
    vectors [b58] and [b256], which the code fills from the back, are kept in reverse:
    the head of the list is the last element.  Lengths of strings are such that the
    products in [size] fit their types.

    Base 58 reads back what it writes: both directions convert a number between digit
    strings without leading zeros, in vectors that are large enough. *)
From stdpp Require Import strings.
From S2P Require Import Prelude Serial QSig Script Node Encode.

Open Scope string_scope.
Open Scope list_scope.
Open Scope Z_scope.

Definition pszBase58 : list Z := str "123456789ABCDEFGHJKLMNPQRSTUVWXYZabcdefghijkmnopqrstuvwxyz".
Definition mapBase58 : list Z :=
  replicate 48 (-1) ++
  [-1; 0; 1; 2; 3; 4; 5; 6; 7; 8; -1; -1; -1; -1; -1; -1;
   -1; 9; 10; 11; 12; 13; 14; 15; 16; -1; 17; 18; 19; 20; 21; -1;
   22; 23; 24; 25; 26; 27; 28; 29; 30; 31; 32; -1; -1; -1; -1; -1;
   -1; 33; 34; 35; 36; 37; 38; 39; 40; 41; 42; 43; -1; 44; 45; 46;
   47; 48; 49; 50; 51; 52; 53; 54; 55; 56; 57; -1; -1; -1; -1; -1] ++
  replicate 128 (-1).

(** [for (...; (carry != 0 || i < length) && (it != b.rend()); ++it, ++i)
    { carry += from * ( *it); *it = carry % to; carry /= to; }]: the carry, [i] and the digits. *)
Fixpoint carry_loop (from to carry : Z) (i length : nat) (b : list Z) : Z * nat * list Z :=
  match b with
  | [] => (carry, i, [])
  | d :: b' =>
      if negb (carry =? 0) || (i <? length)%nat then
        let carry := carry + from * d in
        let '(c, j, r) := carry_loop from to (carry / to) (S i) length b' in (c, j, carry mod to :: r)
      else (carry, i, b)
  end.

Fixpoint skip_spaces (psz : list Z) : list Z :=
  match psz with c :: psz' => if IsSpace c then skip_spaces psz' else psz | [] => [] end.

(** [zeroes] and the rest; [None] is the early return. *)
Fixpoint skip_ones (zeroes max_ret_len : Z) (psz : list Z) : option (Z * list Z) :=
  match psz with
  | c :: psz' =>
      if c =? 49 then let zeroes := zeroes + 1 in if max_ret_len <? zeroes then None else skip_ones zeroes max_ret_len psz'
      else Some (zeroes, psz)
  | [] => Some (zeroes, [])
  end.

(** The loop over the characters: [psz], [b256] and [length] after it.  [None] is a
    failed assertion, [Some None] an early return. *)
Fixpoint decode58_loop (zeroes max_ret_len : Z) (psz b256 : list Z) (len : nat) : option (option (list Z * list Z * nat)) :=
  match psz with
  | [] => Some (Some ([], b256, len))
  | c :: psz' =>
      if IsSpace c then Some (Some (psz, b256, len)) else
      let carry := mapBase58 !!! Z.to_nat (u8 c) in
      if carry =? -1 then Some None else
      let '(carry, i, b256) := carry_loop 58 256 carry 0 len b256 in
      if negb (carry =? 0) then None else
      if max_ret_len <? Z.of_nat i + zeroes then Some None else
      decode58_loop zeroes max_ret_len psz' b256 i
  end.

(** The static function on C strings: [vch] if it returns true. *)
Definition DecodeBase58_c (psz : list Z) (max_ret_len : Z) : option (option (list Z)) :=
  let psz := skip_spaces psz in
  match skip_ones 0 max_ret_len psz with
  | None => Some None
  | Some (zeroes, psz) =>
      let size := size psz * 733 / 1000 + 1 in
      r ← decode58_loop zeroes max_ret_len psz (replicate (Z.to_nat size) 0) 0;
      match r with
      | None => Some None
      | Some (psz, b256, len) =>
          match skip_spaces psz with
          | _ :: _ => Some None
          | [] => Some (Some (replicate (Z.to_nat zeroes) 0 ++ rev (take len b256)))
          end
      end
  end.

(** [ContainsNoNUL]. *)
Definition ContainsNoNUL (s : list Z) : bool := forallb (λ c, negb (c =? 0)) s.

Definition DecodeBase58 (s : list Z) (max_ret_len : Z) : option (option (list Z)) :=
  if negb (ContainsNoNUL s) then Some None else DecodeBase58_c s max_ret_len.

Fixpoint skip_zeroes (input : list Z) : nat * list Z :=
  match input with
  | c :: input' => if c =? 0 then let '(z, r) := skip_zeroes input' in (S z, r) else (0%nat, input)
  | [] => (0%nat, [])
  end.

(** The loop over the bytes: [b58] and [length]. *)
Fixpoint encode58_loop (input b58 : list Z) (len : nat) : option (list Z * nat) :=
  match input with
  | [] => Some (b58, len)
  | ch :: input =>
      let '(carry, i, b58) := carry_loop 256 58 ch 0 len b58 in
      if negb (carry =? 0) then None else encode58_loop input b58 i
  end.

Definition EncodeBase58 (input : list Z) : option (list Z) :=
  let '(zeroes, input) := skip_zeroes input in
  let size := size input * 138 / 100 + 1 in
  '(b58, len) ← encode58_loop input (replicate (Z.to_nat size) 0) 0;
  let it := (skip_zeroes (rev (take len b58))).2 in
  chars ← mapM (λ d, pszBase58 !! Z.to_nat d) it;
  Some (replicate zeroes 49 ++ chars).

Section check.
Context {C : NodeCrypto}.

Definition EncodeBase58Check (input : list Z) : option (list Z) :=
  let hash := CHash256 input in
  EncodeBase58 (input ++ take 4 hash).

Definition INT_MAX : Z := 2 ^ 31 - 1.

(** [vchRet] if the result is true. *)
Definition DecodeBase58Check (s : list Z) (max_ret_len : Z) : option (option (list Z)) :=
  if negb (ContainsNoNUL s) then Some None else
  r ← DecodeBase58_c s (if INT_MAX - 4 <? max_ret_len then INT_MAX else max_ret_len + 4);
  match r with
  | None => Some None
  | Some vchRet =>
      if (length vchRet <? 4)%nat then Some None else
      let hash := CHash256 (take (length vchRet - 4) vchRet) in
      if negb (bool_decide (take 4 hash = drop (length vchRet - 4) vchRet)) then Some None
      else Some (Some (take (length vchRet - 4) vchRet))
  end.
End check.

(** Instances. *)
Example base58_hello : EncodeBase58 (str "Hello World!") = Some (str "2NEpo7TZRRrLZSi2U").
Proof. by vm_compute. Qed.
Example base58_zeroes : EncodeBase58 [0; 0; 0x28; 0x7f; 0xb4; 0xcd] = Some (str "11233QC4") ∧
  DecodeBase58 (str " 11233QC4 ") 100 = Some (Some [0; 0; 0x28; 0x7f; 0xb4; 0xcd]).
Proof. by vm_compute. Qed.

(** ** Numbers with the lowest digit first *)

Section digits.
Context (B : Z).
Hypothesis HB : 1 < B.

Definition lev (b : list Z) : Z := foldr (λ d v, d + B * v) 0 b.
Abbreviation ds := (Forall (λ d, 0 <= d < B)).

Lemma lev_nonneg b : ds b → 0 <= lev b.
Proof using HB. induction 1; cbn [lev foldr]; [lia|]. fold (lev l). nia. Qed.

Lemma lev_bound b : ds b → lev b < B ^ Z.of_nat (length b).
Proof using HB.
  induction 1 as [|d b Hd Hb IH]; [done|]. cbn [lev foldr length]. fold (lev b).
  rewrite Nat2Z.inj_succ, Z.pow_succ_r by lia. nia.
Qed.

Lemma lev_ge b j d : ds b → b !! j = Some d → d ≠ 0 → B ^ Z.of_nat j <= lev b.
Proof using HB.
  intros Hb. revert j. induction Hb as [|e b He Hb IH]; intros j E Hd; [done|]. cbn [lev foldr]. fold (lev b).
  destruct j as [|j]; cbn in E.
  - injection E as ->. pose proof (lev_nonneg b Hb). change (B ^ Z.of_nat 0) with 1. nia.
  - rewrite Nat2Z.inj_succ, Z.pow_succ_r by lia. specialize (IH j E Hd). nia.
Qed.

Lemma lev_zeros b : Forall (λ d, d = 0) b → lev b = 0.
Proof using Type. induction 1 as [|d b -> _ IH]; [done|]. cbn [lev foldr]. fold (lev b). rewrite IH. lia. Qed.

Lemma lev_take b n : (∀ j d, b !! j = Some d → (n <= j)%nat → d = 0) → lev (take n b) = lev b.
Proof using Type.
  revert n. induction b as [|d b IH]; intros n H; [by rewrite take_nil|]. destruct n as [|n]; cbn [take lev foldr]; fold (lev b).
  - rewrite (H 0%nat d eq_refl), lev_zeros; [lia| |lia]. apply Forall_lookup. intros j e E. apply (H (S j) e E). lia.
  - fold (lev (take n b)). rewrite IH; [done|]. intros j e E Hj. apply (H (S j) e E). lia.
Qed.

(** Digit strings without leading zeros are determined by their values. *)
Definition no_lead (b : list Z) : Prop := ∀ d, list.last b = Some d → d ≠ 0.

Lemma no_lead_ge b : ds b → no_lead b → b ≠ [] → B ^ Z.of_nat (length b - 1) <= lev b.
Proof using HB.
  intros Hb Hl Hn. destruct (exists_last Hn) as (w & f & ->). apply (lev_ge _ _ f); [done| |apply Hl; by rewrite last_snoc].
  rewrite length_app, Nat.add_sub, lookup_app_r, Nat.sub_diag by lia. done.
Qed.

Lemma no_lead_pos b : ds b → no_lead b → b ≠ [] → lev b ≠ 0.
Proof using HB.
  intros Hb Hl Hn. pose proof (no_lead_ge b Hb Hl Hn). assert (0 < B ^ Z.of_nat (length b - 1)) by (apply Z.pow_pos_nonneg; lia). lia.
Qed.

Lemma lev_inj a b : ds a → ds b → no_lead a → no_lead b → lev a = lev b → a = b.
Proof using HB.
  intros Ha. revert b. induction Ha as [|d a Hd Ha IH]; intros b Hb La Lb E.
  - destruct b as [|e b]; [done|]. by destruct (no_lead_pos (e :: b)).
  - destruct b as [|e b].
    + by destruct (no_lead_pos (d :: a) (Forall_cons_2 _ _ _ Hd Ha) La ltac:(done)).
    + apply Forall_cons_1 in Hb as [He Hb]. cbn [lev foldr] in E. fold (lev a) (lev b) in E.
      destruct (Z.div_mod_unique B (lev a) (lev b) d e) as [El ->]; [by left|by left|lia|].
      f_equal. apply IH; [done| | |done].
      * intros f Ef. apply La. rewrite last_cons, Ef. done.
      * intros f Ef. apply Lb. rewrite last_cons, Ef. done.
Qed.

(** ** The inner loop *)

Lemma carry_loop_ok M c i len b : 0 <= M → 0 <= c → ds b → (∀ j d, b !! j = Some d → (len <= i + j)%nat → d = 0) →
  let '(c', i', b') := carry_loop M B c i len b in
  length b' = length b ∧ ds b' ∧ 0 <= c' ∧ lev b' + c' * B ^ Z.of_nat (length b) = M * lev b + c ∧
  (i <= i' <= i + length b)%nat ∧ (∀ j d, b' !! j = Some d → (i' <= i + j)%nat → d = 0) ∧
  (c' = 0 → (i' <= i)%nat ∨ (i' <= len)%nat ∨ ∃ d, b' !! (i' - i - 1)%nat = Some d ∧ d ≠ 0).
Proof using HB.
  intros HM Hc Hb. revert c i Hc. induction Hb as [|d b Hd Hb IH]; intros c i Hc Hz; cbn [carry_loop].
  - cbn [length lev foldr]. change (B ^ Z.of_nat 0) with 1. split_and!; [done|constructor|done|lia..|done|]. intros _. left. lia.
  - destruct (negb (c =? 0) || (i <? len)%nat) eqn:Eg.
    + assert (Hc' : 0 <= (c + M * d) / B) by (apply Z.div_pos; nia).
      specialize (IH ((c + M * d) / B) (S i) Hc'). destruct (carry_loop M B ((c + M * d) / B) (S i) len b) as [[c' i'] b'].
      destruct IH as (L & Hds & Hc0 & E & Hi & Hz' & Ht).
      { intros j e Ej Hj. apply (Hz (S j) e Ej). lia. }
      pose proof (Z.mod_pos_bound (c + M * d) B ltac:(lia)) as Hm. pose proof (Z.div_mod (c + M * d) B ltac:(lia)) as Hdm.
      cbn [length lev foldr]. fold (lev b') (lev b). split_and!; [by rewrite L|by constructor|done| |lia|lia| |].
      * rewrite Nat2Z.inj_succ, Z.pow_succ_r by lia. nia.
      * intros [|j] e Ej Hj; [lia|]. apply (Hz' j e Ej). lia.
      * intros H0. destruct (Ht H0) as [Hle|[Hle|(e & Ee & He)]]; [|by right; left|].
        -- right. assert (Hi' : i' = S i) by lia. subst i'. destruct (decide (S i <= len)%nat); [by left|right].
           replace (S i - i - 1)%nat with 0%nat by lia. eexists. split; [done|].
           (* the carry was not zero and nothing is left of it *)
           assert ((i <? len)%nat = false) as Hlt by (apply Nat.ltb_ge; lia). rewrite Hlt, orb_false_r, negb_true_iff, Z.eqb_neq in Eg.
           assert (d = 0) as -> by (apply (Hz 0%nat d eq_refl); lia). rewrite Z.mul_0_r, Z.add_0_r in *.
           assert (Hb0 : lev b = 0).
           { apply lev_zeros, Forall_lookup. intros j e Ej. apply (Hz (S j) e Ej). lia. }
           assert (Hb' : lev b' = 0).
           { apply lev_zeros, Forall_lookup. intros j e Ej. apply (Hz' j e Ej). lia. }
           rewrite Hb', H0, Hb0 in E. nia.
        -- right. right. exists e. split; [|done]. destruct (i' - i - 1)%nat as [|k] eqn:Ek.
           { replace (i' - S i - 1)%nat with 0%nat in Ee by lia. exfalso. assert (i' = S i) by lia.
             assert (e = 0) by (apply (Hz' 0%nat e Ee); lia). done. }
           cbn [lookup list_lookup]. by replace (i' - S i - 1)%nat with k in Ee by lia.
    + rewrite orb_false_iff, negb_false_iff, Z.eqb_eq, Nat.ltb_ge in Eg. destruct Eg as [-> Hlen].
      assert (lev (d :: b) = 0) as ->.
      { apply lev_zeros, Forall_lookup. intros j e Ej. apply (Hz j e Ej). lia. }
      split_and!; [done|by constructor|done|lia|lia|lia| |]; [|intros _; left; lia].
      intros j e Ej _. apply (Hz j e Ej). lia.
Qed.

(** A vector with [len] digits in use that holds [v]. *)
Record holds (b : list Z) (len : nat) (v : Z) : Prop := {
  holds_digits : ds b;
  holds_value : lev b = v;
  holds_used j d : b !! j = Some d → (len <= j)%nat → d = 0;
  holds_len : (len <= length b)%nat;
  holds_tight : len = 0%nat ∨ B ^ Z.of_nat (len - 1) <= v;
}.

Lemma holds_zero n : holds (replicate n 0) 0 0.
Proof using HB.
  split; [apply Forall_replicate; lia|apply lev_zeros, Forall_replicate; done| |lia|by left].
  intros j d [-> _]%lookup_replicate _. done.
Qed.

Lemma holds_step M b len v c : 1 <= M → 0 <= c → holds b len v → M * v + c < B ^ Z.of_nat (length b) →
  ∃ i b', carry_loop M B c 0 len b = (0, i, b') ∧ holds b' i (M * v + c) ∧ length b' = length b.
Proof using HB.
  intros HM Hc [Hd Hv Hu Hl Ht] Hlt. pose proof (carry_loop_ok M c 0 len b ltac:(lia) Hc Hd Hu) as H.
  destruct (carry_loop M B c 0 len b) as [[c' i'] b']. destruct H as (L & Hds & Hc0 & E & Hi & Hz & Htop). cbn [Nat.add] in *.
  assert (Hp : 0 < B ^ Z.of_nat (length b)) by (apply Z.pow_pos_nonneg; lia). pose proof (lev_nonneg b' Hds) as Hn.
  assert (c' = 0) as -> by (rewrite Hv in E; nia). exists i', b'. split; [done|]. split; [|done].
  rewrite Z.mul_0_l, Z.add_0_r, Hv in E. split; [done|done|done|rewrite L; lia|].
  destruct (Htop eq_refl) as [H0|[Hle|(d & Ed & Hd0)]]; [left; lia| |].
  - destruct Ht as [->|Ht]; [left; lia|]. destruct (decide (i' = 0)%nat); [by left|right].
    assert (B ^ Z.of_nat (i' - 1) <= B ^ Z.of_nat (len - 1)) by (apply Z.pow_le_mono_r; lia). rewrite <-Hv in *. pose proof (lev_nonneg b Hd). nia.
  - right. rewrite <-E. rewrite Nat.sub_0_r in Ed. by apply (lev_ge _ _ d).
Qed.

Lemma holds_take b len v : holds b len v → ds (take len b) ∧ lev (take len b) = v ∧ no_lead (take len b) ∧ length (take len b) = len.
Proof using HB.
  intros [Hd Hv Hu Hl Ht]. assert (Hdt : ds (take len b)) by (by apply Forall_take).
  assert (Hvt : lev (take len b) = v) by (rewrite lev_take; done).
  assert (Hlt : length (take len b) = len) by (rewrite length_take; lia). split_and!; [done|done| |done].
  intros d Ed. destruct len as [|n]; [done|]. destruct Ht as [?|Ht]; [done|]. cbn [Nat.sub] in Ht. rewrite Nat.sub_0_r in Ht. intros ->.
  rewrite last_lookup, Hlt in Ed. cbn [pred] in Ed.
  assert (Hs : lev (take (S n) b) = lev (take n b)).
  { rewrite <-(lev_take (take (S n) b) n); [by rewrite take_take, Nat.min_l by lia|].
    intros j d Ej Hj. pose proof (lookup_lt_Some _ _ _ Ej). assert (j = n) as -> by lia. congruence. }
  pose proof (lev_bound (take n b) (Forall_take _ _ _ Hd)) as Hb. rewrite length_take, Nat.min_l in Hb by lia. lia.
Qed.

(** Digits with the highest first, given one after the other. *)
Definition horner (M v : Z) (l : list Z) : Z := foldl (λ v d, M * v + d) v l.

Lemma horner_lev l : horner B 0 l = lev (rev l).
Proof using Type.
  induction l as [|d l IH] using rev_ind; [done|]. unfold horner. rewrite foldl_app, rev_app_distr. cbn [foldl rev app lev foldr].
  fold (horner B 0 l) (lev (rev l)). rewrite IH. apply Z.add_comm.
Qed.
End digits.

Lemma horner_ge M v l : 1 <= M → 0 <= v → Forall (λ d, 0 <= d) l → v <= horner M v l.
Proof.
  intros HM Hv Hl. revert v Hv. induction Hl as [|d l Hd _ IH]; intros v Hv; [done|]. cbn [horner foldl].
  fold (horner M (M * v + d) l). etrans; [|apply IH]; nia.
Qed.

(** ** Sizes of the vectors *)

Lemma pow_convert a b p q n : 0 < a → 1 < b → 0 < q → 0 <= p → 0 <= n → a ^ q <= b ^ p → a ^ n <= b ^ (n * p / q + 1).
Proof.
  intros Ha Hb Hq Hp Hn H. assert (Hm : 0 <= n * p / q) by (apply Z.div_pos; nia). apply (Z.pow_le_mono_l_iff _ _ q); [lia|apply Z.pow_nonneg; lia|done|].
  rewrite <-!Z.pow_mul_r by lia. rewrite (Z.mul_comm n q), Z.pow_mul_r by lia. etrans; [apply Z.pow_le_mono_l; split; [apply Z.pow_nonneg; lia|exact H]|].
  rewrite <-Z.pow_mul_r by lia. apply Z.pow_le_mono_r; [lia|]. pose proof (Z.div_mod (n * p) q ltac:(lia)). pose proof (Z.mod_pos_bound (n * p) q Hq). nia.
Qed.

Lemma room_58 n : 0 <= n → 256 ^ n <= 58 ^ (n * 138 / 100 + 1).
Proof. intros Hn. apply pow_convert; [lia..|exact Hn|by vm_compute]. Qed.
Lemma room_256 n : 0 <= n → 58 ^ n <= 256 ^ (n * 733 / 1000 + 1).
Proof. intros Hn. apply pow_convert; [lia..|exact Hn|by vm_compute]. Qed.

(** ** Characters *)

Abbreviation enc58 d := (pszBase58 !!! Z.to_nat d).
Abbreviation symbols58 := (Forall (λ d, 0 <= d < 58)).

Lemma base58_chars d : 0 <= d < 58 → pszBase58 !! Z.to_nat d = Some (enc58 d) ∧ mapBase58 !!! Z.to_nat (u8 (enc58 d)) = d ∧
  IsSpace (enc58 d) = false ∧ enc58 d ≠ 0 ∧ (enc58 d = 49 ↔ d = 0).
Proof.
  intros Hd. pose proof (by_enumeration (λ d, bool_decide (pszBase58 !! Z.to_nat d = Some (enc58 d)) && (mapBase58 !!! Z.to_nat (u8 (enc58 d)) =? d) &&
    negb (IsSpace (enc58 d)) && negb (enc58 d =? 0) && Bool.eqb (enc58 d =? 49) (d =? 0)) 58 d eq_refl Hd) as H.
  cbv beta in H. rewrite !andb_true_iff, bool_decide_eq_true, Z.eqb_eq, !negb_true_iff, Z.eqb_neq, Bool.eqb_true_iff in H.
  destruct H as [[[[H1 H2] H3] H4] H5]. split_and!; [done..|]. rewrite <-!Z.eqb_eq, H5. done.
Qed.

Lemma base58_chars_all l : symbols58 l → mapM (λ d, pszBase58 !! Z.to_nat d) l = Some ((λ d, enc58 d) <$> l).
Proof.
  induction 1 as [|d l Hd _ IH]; [done|]. cbn [mapM fmap list_fmap]. destruct (base58_chars d Hd) as [-> _]. cbn [mbind option_bind]. by rewrite IH.
Qed.

(** ** Encoding *)

Lemma skip_zeroes_spec l : l = replicate (skip_zeroes l).1 0 ++ (skip_zeroes l).2 ∧ (∀ d, head (skip_zeroes l).2 = Some d → d ≠ 0).
Proof.
  induction l as [|c l [IH1 IH2]]; [done|]. cbn [skip_zeroes]. destruct (Z.eqb_spec c 0) as [->|Hc].
  - destruct (skip_zeroes l) as [z r]. cbn [fst snd] in *. split; [by rewrite IH1 at 1|done].
  - split; [done|]. cbn. by intros d [= <-].
Qed.

Lemma skip_zeroes_id l : (∀ d, head l = Some d → d ≠ 0) → (skip_zeroes l).2 = l.
Proof. destruct l as [|c l]; [done|]. intros H. cbn [skip_zeroes]. by rewrite (proj2 (Z.eqb_neq _ _) (H c eq_refl)). Qed.

Lemma encode58_loop_ok l b len v : bytes l → holds 58 b len v → 0 <= v → horner 256 v l < 58 ^ Z.of_nat (length b) →
  ∃ b' len', encode58_loop l b len = Some (b', len') ∧ holds 58 b' len' (horner 256 v l).
Proof.
  intros Hl. revert b len v. induction Hl as [|x l Hx Hl IH]; intros b len v Hb Hv Hlt; [by exists b, len|].
  cbn [horner foldl] in Hlt |- *. fold (horner 256 (256 * v + x) l) in Hlt |- *. unfold in_u8 in Hx. change (2 ^ 8) with 256 in Hx.
  assert (Hge : 256 * v + x <= horner 256 (256 * v + x) l).
  { apply horner_ge; [lia|lia|]. eapply Forall_impl; [|exact Hl]. unfold in_u8. intros; lia. }
  destruct (holds_step 58 ltac:(lia) 256 b len v x) as (i & b' & E & Hb' & L); [lia|lia|done|lia|].
  cbn [encode58_loop]. rewrite E. cbn [negb Z.eqb]. apply IH; [done|lia|by rewrite L].
Qed.

(** The digits of a byte string: the number without leading zeros. *)
Lemma EncodeBase58_ok l : bytes l → ∃ z x D, l = replicate z 0 ++ x ∧ (∀ d, head x = Some d → d ≠ 0) ∧
  Forall (λ d, 0 <= d < 58) D ∧ no_lead D ∧ lev 58 D = lev 256 (rev x) ∧
  EncodeBase58 l = Some (replicate z 49 ++ ((λ d, enc58 d) <$> rev D)).
Proof.
  intros Hl. unfold EncodeBase58. pose proof (skip_zeroes_spec l) as [El Hh]. destruct (skip_zeroes l) as [z x]. cbn [fst snd] in El, Hh.
  assert (Hx : bytes x) by (rewrite El in Hl; by apply Forall_app in Hl as [_ ?]). exists z, x. cbv zeta.
  assert (Hlt : lev 256 (rev x) < 256 ^ size x).
  { unfold size. rewrite <-length_rev. apply lev_bound; [lia|]. apply Forall_rev. eapply Forall_impl; [|exact Hx]. done. }
  assert (Hn : 0 <= size x * 138 / 100 + 1) by (unfold size; pose proof (Z.div_pos (Z.of_nat (length x) * 138) 100); lia).
  destruct (encode58_loop_ok x (replicate (Z.to_nat (size x * 138 / 100 + 1)) 0) 0 0 Hx) as (b & len & E & Hb); [by apply holds_zero|done| |].
  { rewrite (horner_lev 256 x), length_replicate, Z2Nat.id by done. eapply Z.lt_le_trans; [exact Hlt|apply room_58; unfold size; lia]. }
  rewrite E. cbn [mbind option_bind]. destruct (holds_take 58 ltac:(lia) b len _ Hb) as (Hd & Hv & Hnl & _). set (D := take len b) in *.
  exists D. rewrite (horner_lev 256) in Hv. split_and!; [done|done|done|done|done|].
  rewrite skip_zeroes_id.
  - by rewrite base58_chars_all by (by apply Forall_rev).
  - intros d Ed. apply Hnl. rewrite <-(rev_involutive D). destruct (rev D) as [|e r]; [done|]. cbn [rev]. rewrite last_snoc. done.
Qed.

(** ** Decoding *)

Lemma decode58_loop_ok l b len v zeroes max n : symbols58 l → holds 256 b len v → 0 <= v →
  horner 58 v l < 256 ^ Z.of_nat (length b) → horner 58 v l < 256 ^ Z.of_nat n → Z.of_nat n + zeroes <= max →
  ∃ b' len', decode58_loop zeroes max ((λ d, enc58 d) <$> l) b len = Some (Some ([], b', len')) ∧ holds 256 b' len' (horner 58 v l).
Proof.
  intros Hl. revert b len v. induction Hl as [|d l Hd Hl IH]; intros b len v Hb Hv Hlt Hn Hmax; [by exists b, len|].
  cbn [horner foldl] in Hlt, Hn |- *. fold (horner 58 (58 * v + d) l) in Hlt, Hn |- *.
  assert (Hge : 58 * v + d <= horner 58 (58 * v + d) l).
  { apply horner_ge; [lia|lia|]. eapply Forall_impl; [|exact Hl]. cbn. intros; lia. }
  destruct (holds_step 256 ltac:(lia) 58 b len v d) as (i & b' & E & Hb' & L); [lia|lia|done|lia|].
  destruct (base58_chars d Hd) as (_ & Em & Es & _). cbn [fmap list_fmap decode58_loop]. rewrite Es, Em.
  rewrite (proj2 (Z.eqb_neq d (-1))) by lia. rewrite E. cbn [negb Z.eqb].
  assert (Hi : (i <= n)%nat).
  { destruct (holds_tight _ _ _ _ Hb') as [->|Ht]; [lia|]. destruct (decide (i <= n)%nat) as [|Hgt]; [done|exfalso].
    assert (256 ^ Z.of_nat n <= 256 ^ Z.of_nat (i - 1)) by (apply Z.pow_le_mono_r; lia). lia. }
  rewrite (proj2 (Z.ltb_ge _ _)) by lia. apply IH; [done|lia|by rewrite L|done|done].
Qed.

Lemma skip_ones_ok z k max s : (∀ c, head s = Some c → c ≠ 49) → 0 <= k → k + Z.of_nat z <= max →
  skip_ones k max (replicate z 49 ++ s) = Some (k + Z.of_nat z, s).
Proof.
  intros Hs. revert k. induction z as [|z IH]; intros k Hk Hm.
  - cbn [replicate app]. replace (k + Z.of_nat 0) with k by lia. destruct s as [|c s]; [done|]. cbn [skip_ones].
    by rewrite (proj2 (Z.eqb_neq _ _) (Hs c eq_refl)).
  - cbn [replicate app skip_ones]. change (49 =? 49) with true. cbv match. rewrite (proj2 (Z.ltb_ge _ _)), IH by lia. f_equal. f_equal. lia.
Qed.

Lemma skip_spaces_id s : (∀ c, head s = Some c → IsSpace c = false) → skip_spaces s = s.
Proof. destruct s as [|c s]; [done|]. intros H. cbn [skip_spaces]. by rewrite (H c eq_refl). Qed.

Lemma DecodeBase58_Encode l max : bytes l → Z.of_nat (length l) <= max →
  ∃ s, EncodeBase58 l = Some s ∧ DecodeBase58_c s max = Some (Some l) ∧ ContainsNoNUL s = true.
Proof.
  intros Hl Hmax. destruct (EncodeBase58_ok l Hl) as (z & x & D & El & Hh & Hd & Hnl & Hv & ->). eexists. split; [done|].
  assert (Hx : bytes x) by (rewrite El in Hl; by apply Forall_app in Hl as [_ ?]).
  assert (Hrd : symbols58 (rev D)) by (by apply Forall_rev).
  assert (Hlen : length l = (z + length x)%nat) by (by rewrite El, length_app, length_replicate).
  set (chars := (λ d, enc58 d) <$> rev D).
  assert (Hc : Forall (λ c, IsSpace c = false ∧ c ≠ 0) chars).
  { apply Forall_fmap. eapply Forall_impl; [|exact Hrd]. intros d Hd'. by destruct (base58_chars d Hd') as (_ & _ & ? & ? & _). }
  split.
  2:{ apply forallb_forall. intros c Hin. apply negb_true_iff, Z.eqb_neq. apply in_app_or in Hin as [Hin|Hin].
      - apply list_elem_of_In, elem_of_replicate in Hin as [-> _]. done.
      - eapply Forall_forall in Hc; [|exact Hin]. apply Hc. }
  unfold DecodeBase58_c. cbv zeta. rewrite skip_spaces_id.
  2:{ intros c Ec. destruct z as [|z]; [|by injection Ec as <-]. cbn [replicate app] in Ec. destruct chars as [|c' r]; [done|].
      injection Ec as <-. apply Forall_cons_1 in Hc as [[? _] _]. done. }
  rewrite skip_ones_ok; [| |lia|lia].
  2:{ intros c Ec. unfold chars in Ec. assert (Hn : ∀ d, head (rev D) = Some d → d ≠ 0).
      { intros d Ed. apply Hnl. rewrite <-(rev_involutive D). destruct (rev D) as [|e r]; [done|]. cbn [rev]. rewrite last_snoc. done. }
      destruct (rev D) as [|d r]; [done|]. injection Ec as <-. apply Forall_cons_1 in Hrd as [Hd' _].
      destruct (base58_chars d Hd') as (_ & _ & _ & _ & H49). rewrite H49. by apply Hn. }
  rewrite Z.add_0_l. assert (Sc : size chars = size D) by (unfold size, chars; by rewrite length_fmap, length_rev).
  assert (Ev : horner 58 0 (rev D) = lev 256 (rev x)) by (by rewrite (horner_lev 58), rev_involutive).
  destruct (decode58_loop_ok (rev D) (replicate (Z.to_nat (size chars * 733 / 1000 + 1)) 0) 0 0 (Z.of_nat z) max (length x)) as (b & len & E & Hb);
    [done|by apply holds_zero|done| | |lia|].
  { assert (0 <= size D * 733 / 1000 + 1) by (unfold size; pose proof (Z.div_pos (Z.of_nat (length D) * 733) 1000); lia).
    rewrite Ev, <-Hv, length_replicate, Sc, Z2Nat.id by done. eapply Z.lt_le_trans; [apply lev_bound; [lia|done]|].
    apply room_256. unfold size. lia. }
  { rewrite Ev, <-length_rev. apply lev_bound; [lia|]. apply Forall_rev. eapply Forall_impl; [|exact Hx]. done. }
  fold chars in E. rewrite E. cbn [mbind option_bind skip_spaces]. rewrite Nat2Z.id.
  destruct (holds_take 256 ltac:(lia) b len _ Hb) as (Hd2 & Hv2 & Hnl2 & _). rewrite Ev in Hv2.
  assert (take len b = rev x) as ->.
  { apply (lev_inj 256); [lia|done| |done| |done].
    - apply Forall_rev. eapply Forall_impl; [|exact Hx]. done.
    - intros d Ed. apply Hh. destruct x as [|c x]; [done|]. cbn [rev] in Ed. rewrite last_snoc in Ed. done. }
  by rewrite rev_involutive, <-El.
Qed.

(** With the checksum. *)
Lemma DecodeBase58Check_Encode `{C : NodeCrypto, !NodeCryptoLaws C} l max : bytes l → Z.of_nat (length l) <= max → max <= INT_MAX - 4 →
  ∃ s, EncodeBase58Check l = Some s ∧ DecodeBase58Check s max = Some (Some l).
Proof.
  intros Hl Hm HM. unfold EncodeBase58Check. cbv zeta.
  assert (L4 : length (take 4 (CHash256 l)) = 4%nat) by (rewrite length_take; unfold CHash256; rewrite length_CSHA256; done).
  assert (Hb : bytes (l ++ take 4 (CHash256 l))).
  { apply Forall_app. split; [done|]. apply Forall_take. apply CSHA256_bytes. }
  destruct (DecodeBase58_Encode (l ++ take 4 (CHash256 l)) (max + 4) Hb) as (s & Es & Ed & En).
  { rewrite length_app, L4. lia. }
  exists s. split; [done|]. unfold DecodeBase58Check. rewrite En. cbn [negb]. rewrite (proj2 (Z.ltb_ge _ _)) by lia. rewrite Ed. cbn [mbind option_bind].
  rewrite length_app, L4. rewrite (proj2 (Nat.ltb_ge _ _)) by lia. rewrite Nat.add_sub, take_app_length, drop_app_length.
  by rewrite bool_decide_true.
Qed.
