(* ===== verification/KeyIO.v ===== *)
(** Addresses (key_io.h and .cpp): the text of a destination and the destination of a
    text, with the prefixes of the networks (kernel/chainparams.cpp).

    The messages about errors and the places of errors are not modelled.

    Addresses: every destination has a text on every network, and the text is read back
    as the destination. *)
From stdpp Require Import strings.
From S2P Require Import Prelude Serial QSig Script Node NodeHash NodeHashP Interp Verify Encode Solver Dest Bech32 Base58.

Open Scope string_scope.
Open Scope list_scope.
Open Scope Z_scope.

(** The parameters of a network that addresses depend on. *)
Record CChainParams := { PUBKEY_ADDRESS : list Z; SCRIPT_ADDRESS : list Z; Bech32HRP : list Z }.

Definition CMainParams : CChainParams := {| PUBKEY_ADDRESS := [0]; SCRIPT_ADDRESS := [5]; Bech32HRP := str "bc" |}.
Definition CTestNetParams : CChainParams := {| PUBKEY_ADDRESS := [111]; SCRIPT_ADDRESS := [196]; Bech32HRP := str "tb" |}.
Definition CTestNet4Params : CChainParams := {| PUBKEY_ADDRESS := [111]; SCRIPT_ADDRESS := [196]; Bech32HRP := str "tb" |}.
Definition CQSTestNetParams : CChainParams := {| PUBKEY_ADDRESS := [111]; SCRIPT_ADDRESS := [196]; Bech32HRP := str "qt" |}.
Definition SigNetParams : CChainParams := {| PUBKEY_ADDRESS := [111]; SCRIPT_ADDRESS := [196]; Bech32HRP := str "tb" |}.
Definition CRegTestParams : CChainParams := {| PUBKEY_ADDRESS := [111]; SCRIPT_ADDRESS := [196]; Bech32HRP := str "bcrt" |}.

Definition BECH32_WITNESS_PROG_MAX_LEN : Z := 40.

Section addresses.
Context {C : NodeCrypto} (params : CChainParams).

(** A witness program as symbols after the version. *)
Definition witness_symbols (version : Z) (program : list Z) : option (list Z) :=
  '(_, out) ← ConvertBits 8 5 true id program;
  Some (version :: (u8 <$> (out : list Z))).

(** [DestinationEncoder]. *)
Definition EncodeDestination (dest : CTxDestination) : option (list Z) :=
  match dest with
  | PKHash id => EncodeBase58Check (PUBKEY_ADDRESS params ++ id)
  | ScriptHash id => EncodeBase58Check (SCRIPT_ADDRESS params ++ id)
  | WitnessV0KeyHash id | WitnessV0ScriptHash id =>
      data ← witness_symbols 0 id; Bech32.Encode Bech32.BECH32 (Bech32HRP params) data
  | WitnessV1Taproot tap => data ← witness_symbols 1 tap; Bech32.Encode Bech32.BECH32M (Bech32HRP params) data
  | PayToAnchor => data ← witness_symbols 1 ANCHOR_BYTES; Bech32.Encode Bech32.BECH32M (Bech32HRP params) data
  | WitnessUnknown version program =>
      if (version <? 1) || (16 <? version) || (size program <? 2) || (40 <? size program) then Some [] else
      data ← witness_symbols (u8 version) program; Bech32.Encode Bech32.BECH32M (Bech32HRP params) data
  | CNoDestination _ | PubKeyDestination _ => Some []
  end.

(** [ToLower]. *)
Definition ToLower (s : list Z) : list Z := (λ c, if (65 <=? c) && (c <=? 90) then c - 65 + 97 else c) <$> s.

(** [std::equal(prefix.begin(), prefix.end(), data.begin())], where [data] is long enough. *)
Definition starts_with (prefix data : list Z) : bool := bool_decide (take (length prefix) data = prefix).

(** The part after Base 58. *)
Definition decode_base58_data (data : list Z) : CTxDestination :=
  let pubkey_prefix := PUBKEY_ADDRESS params in
  if (size data =? 20 + size pubkey_prefix) && starts_with pubkey_prefix data then PKHash (drop (length pubkey_prefix) data) else
  let script_prefix := SCRIPT_ADDRESS params in
  if (size data =? 20 + size script_prefix) && starts_with script_prefix data then ScriptHash (drop (length script_prefix) data) else
  CNoDestination [].

(** The part after Bech32, for data that is not empty. *)
Definition decode_witness (encoding : Bech32.Encoding) (version : Z) (symbols : list Z) : option CTxDestination :=
  if (version =? 0) && bool_decide (encoding ≠ Bech32.BECH32) then Some (CNoDestination []) else
  if negb (version =? 0) && bool_decide (encoding ≠ Bech32.BECH32M) then Some (CNoDestination []) else
  '(ok, data) ← ConvertBits 5 8 false id symbols;
  let data := u8 <$> (data : list Z) in
  if (ok : bool) then
    Some (if version =? 0 then
            if size data =? 20 then WitnessV0KeyHash data
            else if size data =? 32 then WitnessV0ScriptHash data
            else CNoDestination []
          else if (version =? 1) && (size data =? WITNESS_V1_TAPROOT_SIZE) then WitnessV1Taproot data
          else if IsPayToAnchor_program version data then PayToAnchor
          else if 16 <? version then CNoDestination []
          else if (size data <? 2) || (BECH32_WITNESS_PROG_MAX_LEN <? size data) then CNoDestination []
          else WitnessUnknown version data)
  else Some (CNoDestination []).

Definition DecodeDestination (s : list Z) : option CTxDestination :=
  let is_bech32 := bool_decide (ToLower (take (length (Bech32HRP params)) s) = Bech32HRP params) in
  if negb is_bech32 then
    r ← DecodeBase58Check s 21;
    Some (match r with Some data => decode_base58_data data | None => CNoDestination [] end)
  else
    '(encoding, hrp, data) ← Bech32.Decode s Bech32.CharLimit_BECH32;
    if decide (encoding = Bech32.INVALID) then Some (CNoDestination []) else
    match (data : list Z) with
    | [] => Some (CNoDestination [])
    | version :: symbols =>
        if negb (bool_decide (hrp = Bech32HRP params)) then Some (CNoDestination []) else decode_witness encoding version symbols
    end.

Definition IsValidDestinationString (s : list Z) : option bool := IsValidDestination <$> DecodeDestination s.
End addresses.

(** ** Witness programs as symbols *)

Lemma widths_85 : 0 < 8 ∧ 0 < 5 ∧ 2 * 8 + 2 * 5 <= 64. Proof. lia. Qed.
Lemma widths_58 : 0 < 5 ∧ 0 < 8 ∧ 2 * 5 + 2 * 8 <= 64. Proof. lia. Qed.

(** Groups of eight bits as groups of five bits and back. *)
Lemma regroup p : bytes p → ∃ out, ConvertBits 8 5 true id p = Some (true, out) ∧ Forall (λ x, 0 <= x < 32) out ∧
  5 * Z.of_nat (length out) <= 8 * Z.of_nat (length p) + 4 ∧ ConvertBits 5 8 false id out = Some (true, p).
Proof.
  intros Hp. destruct (ConvertBits_pad 8 5 id widths_85 p Hp) as (out & q & E & Ho & Hq & Hr & Hl).
  destruct (ConvertBits_nopad 5 8 id widths_58 out Ho) as (p' & b & r & valid & E' & Hp' & Hb & Hrb & Hr' & Hl' & Hv).
  rewrite list_fmap_id in Hr, Hr'. assert (length p' = length p) by lia. assert (b = q) as -> by lia.
  assert (0 < 2 ^ q) by (apply Z.pow_pos_nonneg; lia).
  assert (radix 8 p' = radix 8 p) by nia. assert (r = 0) by nia.
  assert (p' = p) as -> by (by apply (radix_inj 8)). assert (valid = true) as -> by (apply Hv; lia).
  exists out. split_and!; [done|done|lia|done].
Qed.

Lemma lower_symbols l : Forall (λ x, 0 <= x < 32) l → u8 <$> l = l.
Proof. induction 1 as [|x l Hx _ IH]; [done|]. rewrite fmap_cons, IH, u8_small by (unfold in_u8; lia). done. Qed.

(** ** The parameters of a network *)

(** The first characters a Base 58 address with the prefix [P] can have: one for the
    highest digits of the numbers of 25 bytes that start with [P]. *)
Definition first_chars (P : Z) : option (list Z) :=
  if P =? 0 then Some [49] else
  let lo := P * 256 ^ 24 in let hi := (P + 1) * 256 ^ 24 in
  let k := if lo <? 58 ^ 34 then 33 else 34 in
  if (58 ^ k <=? lo) && (hi <=? 58 ^ (k + 1)) then
    Some ((λ d, pszBase58 !!! Z.to_nat d) <$> seqZ (lo / 58 ^ k) ((hi - 1) / 58 ^ k - lo / 58 ^ k + 1))
  else None.

Definition avoids_prefix (P c : Z) : bool :=
  match first_chars P with Some l => forallb (λ a, negb (bool_decide (ToLower [a] = [c]))) l | None => false end.

(** What addresses of both kinds need to be told apart. *)
Definition params_ok (params : CChainParams) : bool :=
  match PUBKEY_ADDRESS params, SCRIPT_ADDRESS params, Bech32HRP params with
  | [p], [q], c :: _ =>
      (0 <=? p) && (p <? 256) && (0 <=? q) && (q <? 256) && negb (p =? q) && avoids_prefix p c && avoids_prefix q c &&
      (length (Bech32HRP params) <=? 18)%nat &&
      forallb (λ c, (33 <=? c) && (c <=? 126) && negb ((65 <=? c) && (c <=? 90))) (Bech32HRP params)
  | _, _, _ => false
  end.

Definition networks : list CChainParams :=
  [CMainParams; CTestNetParams; CTestNet4Params; CQSTestNetParams; SigNetParams; CRegTestParams].

Lemma networks_ok : forallb params_ok networks = true.
Proof. by vm_compute. Qed.

(** ** Base 58 addresses *)

(** The highest digit of a number between two bounds. *)
Lemma top_digit D lo hi k : Forall (λ d, 0 <= d < 58) D → no_lead D → 0 <= k → 58 ^ k <= lo → hi <= 58 ^ (k + 1) → lo <= lev 58 D < hi →
  ∃ D' t, D = D' ++ [t] ∧ lo / 58 ^ k <= t <= (hi - 1) / 58 ^ k.
Proof.
  intros HD Hn Hk Hlo Hhi [H1 H2]. assert (Hp : 0 < 58 ^ k) by (apply Z.pow_pos_nonneg; lia).
  destruct D as [|t D' _] using rev_ind; [cbn [lev foldr] in H1; lia|]. exists D', t. split; [done|].
  apply Forall_app in HD as [HD' Ht]. apply Forall_cons_1 in Ht as [Ht _].
  assert (Hne : D' ++ [t] ≠ []) by (by destruct D'). assert (HD : Forall (λ d, 0 <= d < 58) (D' ++ [t])) by (apply Forall_app; split; [done|by apply Forall_singleton]).
  pose proof (no_lead_ge 58 ltac:(lia) _ HD Hn Hne) as Hge. pose proof (lev_bound 58 ltac:(lia) _ HD) as Hlt.
  rewrite length_app in Hge, Hlt. cbn [length] in Hge, Hlt. rewrite Nat.add_sub in Hge.
  assert (Hl : Z.of_nat (length D') = k).
  { apply Z.le_antisymm.
    - apply Z.lt_succ_r, (Z.pow_lt_mono_r_iff 58); [lia|lia|]. unfold Z.succ. lia.
    - apply Z.lt_succ_r, (Z.pow_lt_mono_r_iff 58); [lia|lia|]. unfold Z.succ. replace (Z.of_nat (length D' + 1)) with (Z.of_nat (length D') + 1) in Hlt by lia. lia. }
  assert (Ev : lev 58 (D' ++ [t]) = lev 58 D' + 58 ^ k * t).
  { rewrite <-Hl. clear. induction D' as [|a D' IH]; [cbn; lia|]. cbn [app lev foldr length]. fold (lev 58 (D' ++ [t])) (lev 58 D').
    rewrite IH, Nat2Z.inj_succ, Z.pow_succ_r by lia. lia. }
  pose proof (lev_bound 58 ltac:(lia) _ HD') as Hb. pose proof (lev_nonneg 58 ltac:(lia) _ HD') as Hnn. rewrite Hl in Hb.
  assert (Et : t = lev 58 (D' ++ [t]) / 58 ^ k) by (rewrite Ev, Z.mul_comm, Z.div_add, Z.div_small by lia; lia).
  rewrite Et at 1. rewrite Et at 2. split; apply Z.div_le_mono; lia.
Qed.

Lemma lev_snoc_range l P : bytes l → length l = 24%nat → P * 256 ^ 24 <= lev 256 (rev (P :: l)) < (P + 1) * 256 ^ 24.
Proof.
  intros Hl Hn. cbn [rev].
  assert (Hr : Forall (λ d, 0 <= d < 256) (rev l)) by (apply Forall_rev; eapply Forall_impl; [|exact Hl]; done).
  pose proof (lev_bound 256 ltac:(lia) _ Hr) as Hb. pose proof (lev_nonneg 256 ltac:(lia) _ Hr). rewrite length_rev, Hn in Hb.
  assert (E : lev 256 (rev l ++ [P]) = lev 256 (rev l) + 256 ^ Z.of_nat (length (rev l)) * P).
  { generalize (rev l). clear. intros l. induction l as [|a l IH]; [cbn; lia|]. cbn [app lev foldr length].
    fold (lev 256 (l ++ [P])) (lev 256 l). rewrite IH, Nat2Z.inj_succ, Z.pow_succ_r by lia. lia. }
  rewrite E, length_rev, Hn. change (Z.of_nat 24) with 24 in *. lia.
Qed.

(** The first character is one of [first_chars]. *)
Lemma EncodeBase58_first P l chars : 0 <= P < 256 → bytes l → length l = 24%nat → first_chars P = Some chars →
  ∃ a s, EncodeBase58 (P :: l) = Some (a :: s) ∧ a ∈ chars.
Proof.
  intros HP Hl Hn Hf. destruct (EncodeBase58_ok (P :: l)) as (z & x & D & El & Hx & HD & HnD & Hv & E); [by constructor|].
  unfold first_chars in Hf. destruct (Z.eqb_spec P 0) as [->|HP0].
  - injection Hf as <-. destruct z as [|z].
    + cbn [replicate app] in El. exfalso. apply (Hx 0); [by rewrite <-El|done].
    + rewrite E. cbn [replicate app]. eexists _, _. split; [done|]. by apply list_elem_of_singleton.
  - destruct z as [|z]; [|by injection El as ->]. cbn [replicate app] in El, E. subst x. set (k := if P * 256 ^ 24 <? 58 ^ 34 then 33 else 34) in Hf.
    destruct ((58 ^ k <=? P * 256 ^ 24) && ((P + 1) * 256 ^ 24 <=? 58 ^ (k + 1))) eqn:Ek; [|done].
    rewrite andb_true_iff, !Z.leb_le in Ek. destruct Ek as [Hlo Hhi]. injection Hf as <-.
    destruct (top_digit D (P * 256 ^ 24) ((P + 1) * 256 ^ 24) k) as (D' & t & -> & Ht); [done|done|subst k; by case_match|done|done| |].
    { rewrite Hv. by apply lev_snoc_range. }
    rewrite E, rev_app_distr. cbn [rev app fmap list_fmap]. eexists _, _. split; [done|]. apply list_elem_of_fmap. exists t.
    split; [done|]. apply elem_of_seqZ. lia.
Qed.

(** Such a string is not taken for Bech32. *)
Lemma avoids_bech32 P c hrp l s : avoids_prefix P c = true → 0 <= P < 256 → bytes l → length l = 24%nat → EncodeBase58 (P :: l) = Some s →
  bool_decide (ToLower (take (length (c :: hrp)) s) = c :: hrp) = false.
Proof.
  unfold avoids_prefix. destruct (first_chars P) as [chars|] eqn:Ef; [|done]. intros Ha HP Hl Hn E.
  destruct (EncodeBase58_first P l chars HP Hl Hn Ef) as (a & s' & E' & Hin). rewrite E in E'. injection E' as ->.
  apply bool_decide_eq_false. cbn [length firstn]. intros Heq. rewrite forallb_forall in Ha. apply list_elem_of_In, Ha in Hin.
  rewrite negb_true_iff, bool_decide_eq_false in Hin. apply Hin. injection Heq as Heq _. unfold ToLower. cbn [fmap list_fmap]. by rewrite Heq.
Qed.

Lemma ToLower_plain s : Forall plain s → ToLower s = s.
Proof. induction 1 as [|c s [_ Hc] _ IH]; [done|]. unfold ToLower in *. rewrite fmap_cons, IH. f_equal. case_match eqn:E; [|done]. lia. Qed.

(** ** Addresses of a network *)

Definition content (d : CTxDestination) : list Z :=
  match d with
  | CNoDestination x | PubKeyDestination x | PKHash x | ScriptHash x | WitnessV0ScriptHash x | WitnessV0KeyHash x
  | WitnessV1Taproot x | WitnessUnknown _ x => x
  | PayToAnchor => ANCHOR_BYTES
  end.

(** The form of an address, by the kind of the destination (Base 58 with a version prefix,
    BIP 173 for version 0, BIP 350 for the later versions), read off the text with the
    decoders of the encodings. *)
Definition witness_text (params : CChainParams) (encoding : Bech32.Encoding) (version : Z) (program s : list Z) : Prop :=
  ∃ symbols, Bech32.Decode s Bech32.CharLimit_BECH32 = Some (encoding, Bech32HRP params, version :: symbols) ∧
    ConvertBits 5 8 false id symbols = Some (true, program).

Definition text_form `{NodeCrypto} (params : CChainParams) (d : CTxDestination) (s : list Z) : Prop :=
  match d with
  | CNoDestination _ | PubKeyDestination _ => s = []
  | PKHash h => DecodeBase58Check s 21 = Some (Some (PUBKEY_ADDRESS params ++ h))
  | ScriptHash h => DecodeBase58Check s 21 = Some (Some (SCRIPT_ADDRESS params ++ h))
  | WitnessV0KeyHash h | WitnessV0ScriptHash h => witness_text params Bech32.BECH32 0 h s
  | WitnessV1Taproot h => witness_text params Bech32.BECH32M 1 h s
  | PayToAnchor => witness_text params Bech32.BECH32M 1 ANCHOR_BYTES s
  | WitnessUnknown version program => witness_text params Bech32.BECH32M version program s
  end.

Section network.
Context {C : NodeCrypto} {L : NodeCryptoLaws C} (params : CChainParams).
Hypothesis ok : params_ok params = true.

Lemma params_ok_inv : ∃ p q c hrp, PUBKEY_ADDRESS params = [p] ∧ SCRIPT_ADDRESS params = [q] ∧ Bech32HRP params = c :: hrp ∧
  0 <= p < 256 ∧ 0 <= q < 256 ∧ p ≠ q ∧ avoids_prefix p c = true ∧ avoids_prefix q c = true ∧ (length (c :: hrp) <= 18)%nat ∧
  Forall plain (c :: hrp).
Proof using ok.
  revert ok. unfold params_ok. destruct (PUBKEY_ADDRESS params) as [|p [|? ?]]; [done| |done].
  destruct (SCRIPT_ADDRESS params) as [|q [|? ?]]; [done| |done]. destruct (Bech32HRP params) as [|c hrp]; [done|].
  rewrite !andb_true_iff. intros [[[[[[[[H1 H2] H3] H4] H5] H6] H7] H8] H9]. exists p, q, c, hrp.
  apply Nat.leb_le in H8. split_and!; try done; [lia..|]. apply Forall_forall. intros a Ha. rewrite forallb_forall in H9.
  specialize (H9 a Ha). unfold plain. lia.
Qed.

(** A Base 58 address reaches the data it is made of. *)
Lemma Decode_Base58 P id c hrp : Bech32HRP params = c :: hrp → avoids_prefix P c = true → 0 <= P < 256 → bytes id → size id = 20 →
  ∃ s, EncodeBase58Check (P :: id) = Some s ∧ DecodeDestination params s = Some (decode_base58_data params (P :: id)) ∧
    DecodeBase58Check s 21 = Some (Some (P :: id)).
Proof using L.
  intros Eh Ha HP Hid Hs. unfold size in Hs.
  destruct (DecodeBase58Check_Encode (P :: id) 21) as (s & Es & Ed); [by constructor|cbn [length]; lia|done|].
  exists s. split_and!; [done| |done]. unfold DecodeDestination. cbv zeta. rewrite Eh. unfold EncodeBase58Check in Es.
  assert (Hh : bytes (take 4 (CHash256 (P :: id)))) by (apply Forall_take, CSHA256_bytes).
  rewrite (avoids_bech32 P c hrp (id ++ take 4 (CHash256 (P :: id)))); [|done|done|by apply Forall_app| |done].
  - cbn [negb]. by rewrite Ed.
  - rewrite length_app, length_take. unfold CHash256. rewrite length_CSHA256. lia.
Qed.

(** A witness address reaches the version and the program. *)
Lemma Decode_witness encoding version program : encoding ≠ Bech32.INVALID → 0 <= version < 32 → bytes program → size program <= 40 →
  ∃ syms s, witness_symbols version program = Some (version :: syms) ∧ Bech32.Encode encoding (Bech32HRP params) (version :: syms) = Some s ∧
    DecodeDestination params s = decode_witness encoding version syms ∧ witness_text params encoding version program s ∧
    ConvertBits 5 8 false id syms = Some (true, program).
Proof using ok.
  intros He Hv Hp Hs. unfold size in Hs. destruct params_ok_inv as (p & q & c & hrp & _ & _ & Eh & _ & _ & _ & _ & _ & Hl & Hpl).
  destruct (regroup program Hp) as (out & E & Ho & Hlen & E'). exists out. unfold witness_symbols. rewrite E. cbn [mbind option_bind].
  rewrite lower_symbols by done.
  destruct (Encode_Decode encoding (c :: hrp) (version :: out)) as (s & Es & Ed & Hs'); [done|done|done|by constructor|done|cbn [length] in *; lia|].
  exists s. unfold witness_text. rewrite Eh. split_and!; [done|done| |by exists out|done]. unfold DecodeDestination. cbv zeta. rewrite Eh.
  assert (take (length (c :: hrp)) s = c :: hrp) as -> by (rewrite Hs'; apply take_app_length).
  rewrite ToLower_plain, bool_decide_true by done. cbn [negb]. rewrite Ed. cbn [mbind option_bind]. rewrite decide_False by done.
  by rewrite bool_decide_true.
Qed.

Lemma decode_witness_ok encoding version syms program : encoding = (if version =? 0 then Bech32.BECH32 else Bech32.BECH32M) →
  bytes program → ConvertBits 5 8 false id syms = Some (true, program) → decode_witness encoding version syms = Some
    (if version =? 0 then
       if size program =? 20 then WitnessV0KeyHash program else if size program =? 32 then WitnessV0ScriptHash program else CNoDestination []
     else if (version =? 1) && (size program =? WITNESS_V1_TAPROOT_SIZE) then WitnessV1Taproot program
     else if IsPayToAnchor_program version program then PayToAnchor
     else if 16 <? version then CNoDestination []
     else if (size program <? 2) || (BECH32_WITNESS_PROG_MAX_LEN <? size program) then CNoDestination []
     else WitnessUnknown version program).
Proof using Type.
  intros -> Hp E. unfold decode_witness. rewrite E. cbn [mbind option_bind]. rewrite (u8_digits program Hp).
  destruct (version =? 0); cbn [andb negb].
  - rewrite bool_decide_false by (intros H; by apply H). done.
  - rewrite bool_decide_false by (intros H; by apply H). done.
Qed.

Lemma address_text d : wf_destination d → bytes (content d) →
  ∃ s, EncodeDestination params d = Some s ∧ DecodeDestination params s = Some d ∧ text_form params d s.
Proof using ok L.
  intros Hd Hb. destruct params_ok_inv as (p & q & c & hrp & Ep & Eq & Eh & Hp & Hq & Hpq & Ap & Aq & _ & _).
  destruct d as [| |h|h|h|h|h| |v w]; [done|done|cbn [wf_destination content EncodeDestination] in * ..].
  - rewrite Ep. destruct (Decode_Base58 p h c hrp) as (s & Es & Ed & Ef); [done..|]. exists s. cbn [text_form]. rewrite ?Ep, ?Eq. split_and!; [done| |done]. rewrite Ed.
    unfold decode_base58_data, starts_with. rewrite Ep. cbn [length firstn skipn]. rewrite bool_decide_true by done. unfold size in *.
    cbn [length]. by rewrite (proj2 (Z.eqb_eq _ _)) by lia.
  - rewrite Eq. destruct (Decode_Base58 q h c hrp) as (s & Es & Ed & Ef); [done..|]. exists s. cbn [text_form]. rewrite ?Ep, ?Eq. split_and!; [done| |done]. rewrite Ed.
    unfold decode_base58_data, starts_with. rewrite Ep, Eq. cbn [length firstn skipn]. rewrite bool_decide_false by congruence.
    rewrite andb_false_r, bool_decide_true by done. unfold size in *. cbn [length]. by rewrite (proj2 (Z.eqb_eq _ _)) by lia.
  - destruct (Decode_witness Bech32.BECH32 0 h) as (sy & s & E1 & E2 & E3 & Ef & E4); [done|done|done|lia|]. rewrite E1. cbn [mbind option_bind].
    exists s. split_and!; [done| |done]. rewrite E3, (decode_witness_ok _ _ _ h) by done. cbn [Z.eqb]. by rewrite Hd.
  - destruct (Decode_witness Bech32.BECH32 0 h) as (sy & s & E1 & E2 & E3 & Ef & E4); [done|done|done|lia|]. rewrite E1. cbn [mbind option_bind].
    exists s. split_and!; [done| |done]. rewrite E3, (decode_witness_ok _ _ _ h) by done. cbn [Z.eqb]. by rewrite Hd.
  - destruct (Decode_witness Bech32.BECH32M 1 h) as (sy & s & E1 & E2 & E3 & Ef & E4); [done|done|done|lia|]. rewrite E1. cbn [mbind option_bind].
    exists s. split_and!; [done| |done]. rewrite E3, (decode_witness_ok _ _ _ h) by done. cbn [Z.eqb Pos.eqb andb]. by rewrite Hd.
  - destruct (Decode_witness Bech32.BECH32M 1 ANCHOR_BYTES) as (sy & s & E1 & E2 & E3 & Ef & E4); [done|done|done|done|]. rewrite E1. cbn [mbind option_bind].
    exists s. split_and!; [done| |done]. rewrite E3, (decode_witness_ok _ _ _ ANCHOR_BYTES) by done. done.
  - destruct Hd as (Hv & Hw & Ht & Ha).
    destruct (Decode_witness Bech32.BECH32M v w) as (sy & s & E1 & E2 & E3 & Ef & E4); [done|lia|done|lia|].
    assert ((v <? 1) || (16 <? v) || (size w <? 2) || (40 <? size w) = false) as -> by lia.
    rewrite u8_small by (unfold in_u8; lia). rewrite E1. cbn [mbind option_bind]. exists s. split_and!; [done| |done].
    rewrite E3, (decode_witness_ok _ _ _ w); [|by rewrite (proj2 (Z.eqb_neq v 0)) by lia|done|done].
    rewrite (proj2 (Z.eqb_neq v 0)) by lia. destruct ((v =? 1) && (size w =? WITNESS_V1_TAPROOT_SIZE)) eqn:E5.
    { rewrite andb_true_iff, !Z.eqb_eq in E5. by destruct Ht. }
    assert (IsPayToAnchor_program v w = false) as ->.
    { apply not_true_is_false. intros H. apply Ha. unfold IsPayToAnchor_program in H.
      rewrite !andb_true_iff in H. destruct H as [[[H1 H2] H3] H4]. apply byte_at_eq in H3, H4. apply Z.eqb_eq in H1, H2. split; [done|].
      destruct w as [|a [|b [|? ?]]]; [done|done| |unfold size in H2; cbn [length] in H2; lia]. injection H3 as ->. by injection H4 as ->. }
    assert ((16 <? v) = false) as -> by lia. unfold BECH32_WITNESS_PROG_MAX_LEN. by assert ((size w <? 2) || (40 <? size w) = false) as -> by lia.
Qed.
End network.

(** C12 Addresses: on each of the six networks every destination with contents of their
    sizes is written as a text of the form of its kind: Base 58 with a check sum over the
    network's prefix of the kind and the hash, Bech32 for witness version 0, Bech32m for
    the later versions, with the network's readable part; and the text is read as that
    destination.  In particular a Base 58 address is never taken for a Bech32 one,
    whatever the hash and the checksum are.  What has no address is
    written as the empty text, which is no address. *)
Theorem address_roundtrip {C : NodeCrypto} {L : NodeCryptoLaws C} (params : CChainParams) (d : CTxDestination) :
  params ∈ networks → bytes (content d) →
  (wf_destination d → ∃ s, EncodeDestination params d = Some s ∧ DecodeDestination params s = Some d ∧
     IsValidDestinationString params s = Some true ∧ text_form params d s) ∧
  (IsValidDestination d = false → EncodeDestination params d = Some [] ∧ IsValidDestinationString params [] = Some false).
Proof.
  intros Hn Hb. assert (ok : params_ok params = true).
  { pose proof networks_ok as H. rewrite forallb_forall in H. by apply H, list_elem_of_In. }
  split.
  - intros Hd. destruct (address_text params ok d Hd Hb) as (s & E & D & F). exists s. unfold IsValidDestinationString. rewrite D.
    split_and!; [done|done| |done]. by destruct d.
  - intros Hv. split; [by destruct d|]. unfold IsValidDestinationString, DecodeDestination. cbv zeta. rewrite take_nil.
    destruct (params_ok_inv params ok) as (p & q & c & hrp & _ & _ & -> & _). done.
Qed.

#[local] Existing Instance test_crypto.
Lemma address_roundtrip_witness :
  (∃ s, EncodeDestination CQSTestNetParams (WitnessV0ScriptHash (replicate 32 7)) = Some s ∧
     DecodeDestination CQSTestNetParams s = Some (WitnessV0ScriptHash (replicate 32 7)) ∧ IsValidDestinationString CQSTestNetParams s = Some true ∧
     witness_text CQSTestNetParams Bech32.BECH32 0 (replicate 32 7) s) ∧
  (∃ s, EncodeDestination CMainParams PayToAnchor = Some s ∧ DecodeDestination CMainParams s = Some PayToAnchor ∧
     IsValidDestinationString CMainParams s = Some true ∧ s = str "bc1pfeessrawgf").
Proof.
  split.
  - apply (address_roundtrip CQSTestNetParams (WitnessV0ScriptHash (replicate 32 7))).
    + apply list_elem_of_lookup. exists 3%nat. reflexivity.
    + apply Forall_replicate. unfold in_u8. lia.
    + reflexivity.
  - destruct (address_roundtrip CMainParams PayToAnchor) as [H _].
    + apply list_elem_of_lookup. exists 0%nat. reflexivity.
    + repeat constructor; vm_compute; congruence.
    + destruct (H I) as (s & Es & Ed & Ev & _). exists s. split_and!; [exact Es|exact Ed|exact Ev|].
      vm_compute in Es. injection Es as <-. vm_compute. reflexivity.
Defined.
