(* ===== verification/SignMsg.v ===== *)
(** Signed messages (common/signmessage.h and .cpp).

    Compact signatures of elliptic-curve keys are arguments: signing gives the result
    and the signature, recovery the public key if there is one. *)
From stdpp Require Import strings.
From S2P Require Import Prelude SpxIface OqsSig KeccakP Sha3 Sha3Api MlSign OqsMlDsa Serial QSig Script Node QPubKey Interp Verify QKey Tx Solver Sign QWitness Encode Dest KeyIO.

Open Scope string_scope.
Open Scope list_scope.
Open Scope Z_scope.

Inductive MessageVerificationResult :=
  | ERR_INVALID_ADDRESS | ERR_ADDRESS_NO_KEY | ERR_MALFORMED_SIGNATURE | ERR_PUBKEY_NOT_RECOVERED | ERR_NOT_SIGNED
  | MessageVerified.

Inductive SigningResult := Signed | PRIVATE_KEY_NOT_AVAILABLE | SIGNING_FAILED.

Definition MESSAGE_MAGIC : list Z := str "Bitcoin Signed Message:" ++ [10].

Section messages.
Context {C : NodeCrypto} (callbacks : OQS_SHA3_callbacks) {U : Uninit} (fuel tries : nat).
Context {rng : Type} {K : CKeyOps rng} (GetStrongRandBytes : rng → nat → list Z * rng) (malloc_ok : bool).
Context (params : CChainParams).

(** A string is written as its length and its characters. *)
Definition MessageHash (message : list Z) : list Z := CHash256 (ser_script MESSAGE_MAGIC ++ ser_script message).

Section compact.
Context (SignCompact : CKey → list Z → bool * list Z).

Definition MessageSign (privkey : CKey) (message signature : list Z) : option (bool * list Z) :=
  let '(ok, signature_bytes) := SignCompact privkey (MessageHash message) in
  if (ok : bool) then s ← EncodeBase64 signature_bytes; Some (true, s) else Some (false, signature).
End compact.

(** The part of [MessageVerify] for a witness script hash. *)
Definition verify_quantum_message (witness_script_hash signature_bytes message : list Z) : outcome MessageVerificationResult :=
  if size signature_bytes <? 7 then Ok ERR_MALFORMED_SIGNATURE else
  version ← or_crash (signature_bytes !! 0%nat);
  if negb (version =? 0x01) then Ok ERR_NOT_SIGNED else
  t ← or_crash (signature_bytes !! 1%nat);
  let key_type := to_KeyType t in
  if negb (bool_decide (key_type = ML_DSA_65)) && negb (bool_decide (key_type = SLH_DSA_192F)) then Ok ERR_MALFORMED_SIGNATURE else
  if size signature_bytes <? 2 + 2 then Ok ERR_MALFORMED_SIGNATURE else
  p0 ← or_crash (signature_bytes !! 2%nat);
  p1 ← or_crash (signature_bytes !! 3%nat);
  let pubkey_size := Z.lor (Z.shiftl p0 8) p1 in
  if size signature_bytes <? 4 + pubkey_size + 2 then Ok ERR_MALFORMED_SIGNATURE else
  let pubkey_data := take (Z.to_nat pubkey_size) (drop 4 signature_bytes) in
  let pos := 4 + pubkey_size in
  s0 ← or_crash (signature_bytes !! Z.to_nat pos);
  s1 ← or_crash (signature_bytes !! Z.to_nat (pos + 1));
  let sig_size := Z.lor (Z.shiftl s0 8) s1 in
  let pos := pos + 2 in
  if negb (pos + sig_size =? size signature_bytes) then Ok ERR_MALFORMED_SIGNATURE else
  let sig_data := drop (Z.to_nat pos) signature_bytes in
  let quantum_pubkey := {| pk_type := key_type; m_vchPubKey := pubkey_data |} in
  if negb (CQuantumPubKey_IsValid quantum_pubkey) then Ok ERR_MALFORMED_SIGNATURE else
  ok ← CQuantumKey_Verify callbacks fuel tries GetStrongRandBytes malloc_ok (MessageHash message) sig_data quantum_pubkey;
  if negb ok then Ok ERR_NOT_SIGNED else
  if negb (bool_decide (CSHA256 (CreateQuantumWitnessScript quantum_pubkey) = witness_script_hash)) then Ok ERR_NOT_SIGNED else
  Ok MessageVerified.

Context (RecoverCompact : list Z → list Z → option (list Z)).

Definition MessageVerify (address signature message : list Z) : outcome MessageVerificationResult :=
  destination ← or_crash (DecodeDestination params address);
  if negb (IsValidDestination destination) then Ok ERR_INVALID_ADDRESS else
  decoded ← or_crash (DecodeBase64 signature);
  match decoded with
  | None => Ok ERR_MALFORMED_SIGNATURE
  | Some signature_bytes =>
      match destination with
      | PKHash pkhash =>
          Ok (match RecoverCompact (MessageHash message) signature_bytes with
              | None => ERR_PUBKEY_NOT_RECOVERED
              | Some pubkey => if negb (bool_decide (CPubKey_GetID pubkey = pkhash)) then ERR_NOT_SIGNED else MessageVerified
              end)
      | WitnessV0ScriptHash witness_script_hash => verify_quantum_message witness_script_hash signature_bytes message
      | _ => Ok ERR_ADDRESS_NO_KEY
      end
  end.
End messages.
