(* ===== verification/WalletDb.v ===== *)
(** The wallet's records of quantum keys and their scripts (wallet/walletdb.h and .cpp,
    wallet/db.h): how they are written, and the loop that reads the records of a kind.

    The database itself is an interface: a store of byte strings by byte strings, which
    is modelled by what its methods answer. *)
From stdpp Require Import strings gmap.
From S2P Require Import Prelude MlArith Serial QSig Script Node QPubKey QKey Tx Encode.

Open Scope string_scope.
Open Scope list_scope.
Open Scope Z_scope.

(** ** The database (wallet/db.h, [DatabaseBatch]) *)

(** [Records] is what a cursor over a prefix gives, in order, and whether it comes to
    its end; no cursor is one that gives nothing and fails. *)
Class DatabaseBatch (db : Type) := {
  ReadKey : db → list Z → option (list Z);
  WriteKey : db → list Z → list Z → bool → bool * db;
  EraseKey : db → list Z → bool * db;
  Records : db → list Z → list (list Z * list Z) * bool;
}.

(** A write that succeeds is read back and changes nothing else, one that fails changes
    nothing; without overwriting, a write to a key that is there fails.  A cursor that
    comes to its end gives the records with its prefix. *)
Class DatabaseLaws {db} (D : DatabaseBatch db) : Prop := {
  WriteKey_true d k v ow d' k' : WriteKey d k v ow = (true, d') → ReadKey d' k' = if decide (k' = k) then Some v else ReadKey d k';
  WriteKey_false d k v ow d' k' : WriteKey d k v ow = (false, d') → ReadKey d' k' = ReadKey d k';
  WriteKey_exists d k v : is_Some (ReadKey d k) → (WriteKey d k v false).1 = false;
  EraseKey_true d k d' k' : EraseKey d k = (true, d') → ReadKey d' k' = if decide (k' = k) then None else ReadKey d k';
  EraseKey_false d k d' k' : EraseKey d k = (false, d') → ReadKey d' k' = ReadKey d k';
  Records_elem d p l k v : Records d p = (l, true) → (k, v) ∈ l ↔ p `prefix_of` k ∧ ReadKey d k = Some v;
}.

Module DBKeys.
Definition WALLETDESCRIPTORKEY : list Z := str "walletdescriptorkey".
Definition WALLETDESCRIPTORCKEY : list Z := str "walletdescriptorckey".
Definition WALLETDESCRIPTORQKEY : list Z := str "walletdescriptorqkey".
Definition WALLETDESCRIPTORCQKEY : list Z := str "walletdescriptorcqkey".
Definition WALLETDESCRIPTORSCRIPT : list Z := str "walletdescriptorscript".
Definition WALLETDESCRIPTORWITNESSSCRIPT : list Z := str "walletdescriptorwitnessscript".
End DBKeys.

(** The results of loading, by increasing weight. *)
Inductive DBErrors := LOAD_OK | NEED_RESCAN | NEED_REWRITE | EXTERNAL_SIGNER_SUPPORT_REQUIRED | NONCRITICAL_ERROR | TOO_NEW
  | UNKNOWN_DESCRIPTOR | LOAD_FAIL | UNEXPECTED_LEGACY_ENTRY | LEGACY_WALLET | CORRUPT.
Definition DBErrors_num (e : DBErrors) : Z :=
  match e with
  | LOAD_OK => 0 | NEED_RESCAN => 1 | NEED_REWRITE => 2 | EXTERNAL_SIGNER_SUPPORT_REQUIRED => 3 | NONCRITICAL_ERROR => 4
  | TOO_NEW => 5 | UNKNOWN_DESCRIPTOR => 6 | LOAD_FAIL => 7 | UNEXPECTED_LEGACY_ENTRY => 8 | LEGACY_WALLET => 9 | CORRUPT => 10
  end.
Definition DBErrors_max (a b : DBErrors) : DBErrors := if DBErrors_num a <? DBErrors_num b then b else a.

(** A prefix of keys: the kind, as a string, and the descriptor. *)
Definition PrefixStream (type desc_id : list Z) : list Z := ser_script type ++ desc_id.

(** Reading a string, and a [uint256] or [uint160]. *)
Definition read_string (s : DataStream) : option (list Z * DataStream) :=
  '(nSize, s) ← ReadCompactSize s true;
  if nSize =? 0 then Some ([], s) else DataStream_read s (Z.to_nat nSize).
Definition read_int32 (s : DataStream) : option (Z * DataStream) :=
  '(n, s) ← ser_readdata32 s; Some (to_i32 n, s).

Section batch.
Context {C : NodeCrypto} {db : Type} {D : DatabaseBatch db} {rng : Type} {K : CKeyOps rng}.

(** ** Writing *)

Definition quantum_key_data (pubkey : CQuantumPubKey) (privkey : CQuantumKey) : list Z :=
  KeyType_num (m_type privkey) :: m_vchPubKey pubkey ++ GetPrivKeyData privkey.

Definition WriteQuantumDescriptorKey (d : db) (desc_id : list Z) (pubkey : CQuantumPubKey) (privkey : CQuantumKey) : bool * db :=
  let priv_data := GetPrivKeyData privkey in
  let pub_data := m_vchPubKey pubkey in
  let to_hash := pub_data ++ priv_data in
  let key_data := quantum_key_data pubkey privkey in
  let keyid := CQuantumPubKey_GetID pubkey in
  WriteKey d (PrefixStream DBKeys.WALLETDESCRIPTORQKEY desc_id ++ keyid) (ser_script key_data ++ CHash256 to_hash) false.

(** The result of the erasure is not looked at. *)
Definition WriteCryptedQuantumDescriptorKey (d : db) (desc_id : list Z) (pubkey : CQuantumPubKey) (secret : list Z) : bool * db :=
  let keyid := CQuantumPubKey_GetID pubkey in
  let '(ok, d) := WriteKey d (PrefixStream DBKeys.WALLETDESCRIPTORCQKEY desc_id ++ keyid) (ser_script secret) false in
  if (ok : bool) then (true, (EraseKey d (PrefixStream DBKeys.WALLETDESCRIPTORQKEY desc_id ++ keyid)).2) else (false, d).

Definition WriteDescriptorScript (d : db) (desc_id script : list Z) (index : Z) : bool * db :=
  WriteKey d (PrefixStream DBKeys.WALLETDESCRIPTORSCRIPT desc_id ++ ser_script script) (le_bytes 4 index) true.

Definition WriteDescriptorWitnessScript (d : db) (desc_id witness_hash witness_script : list Z) : bool * db :=
  WriteKey d (PrefixStream DBKeys.WALLETDESCRIPTORWITNESSSCRIPT desc_id ++ witness_hash) (ser_script witness_script) true.

(** An elliptic-curve public key is written like a script. *)
Definition WriteCryptedDescriptorKey (d : db) (desc_id pubkey secret : list Z) : bool * db :=
  let '(ok, d) := WriteKey d (PrefixStream DBKeys.WALLETDESCRIPTORCKEY desc_id ++ ser_script pubkey) (ser_script secret) false in
  if (ok : bool) then (true, (EraseKey d (PrefixStream DBKeys.WALLETDESCRIPTORKEY desc_id ++ ser_script pubkey)).2) else (false, d).

(** ** Reading *)

(** The records of a kind in order: each is given to [load_func], with what it changes. *)
Fixpoint load_loop {S} (key : list Z) (load_func : S → DataStream → DataStream → outcome (DBErrors * S))
    (l : list (list Z * list Z)) (result : DBErrors) (s : S) : outcome (DBErrors * S) :=
  match l with
  | [] => Ok (result, s)
  | (k, v) :: l =>
      match read_string (DataStream_new k) with
      | None => Exn
      | Some (type, ssKey) =>
          if negb (bool_decide (type = key)) then Crash else
          '(record_res, s) ← load_func s ssKey (DataStream_new v);
          load_loop key load_func l (DBErrors_max result record_res) s
      end
  end.

Definition LoadRecords {S} (d : db) (key prefix : list Z) (load_func : S → DataStream → DataStream → outcome (DBErrors * S)) (s : S)
    : outcome (DBErrors * S) :=
  let '(l, done) := Records d prefix in
  '(result, s) ← load_loop key load_func l LOAD_OK s;
  Ok (if (done : bool) then result else CORRUPT, s).
End batch.

(** ** A database that is a finite map *)

(** It stores in order; it is where the properties about a database are instantiated. *)
Abbreviation map_db := (gmap (list Z) (list Z)).

#[export] Instance map_database : DatabaseBatch map_db := {|
  ReadKey d k := d !! k;
  WriteKey d k v ow := if bool_decide (ow = false ∧ is_Some (d !! k)) then (false, d) else (true, <[k := v]> d);
  EraseKey d k := (true, delete k d);
  Records d p := (filter (λ r, p `prefix_of` r.1) (map_to_list d), true);
|}.

#[export] Instance map_database_laws : DatabaseLaws map_database.
Proof.
  split; cbn [ReadKey WriteKey EraseKey Records map_database].
  - intros d k v ow d' k'. case_bool_decide; intros [= <-]. case_decide; subst; [apply lookup_insert_eq|by apply lookup_insert_ne].
  - intros d k v ow d' k'. by case_bool_decide; intros [= <-].
  - intros d k v H. by rewrite bool_decide_true.
  - intros d k d' k' [= <-]. case_decide; subst; [apply lookup_delete_eq|by apply lookup_delete_ne].
  - done.
  - intros d p l k v [= <-]. rewrite list_elem_of_filter. cbn [fst]. by rewrite elem_of_map_to_list.
Qed.
