(* ===== verification/Wallet.v ===== *)
(** Quantum keys in the wallet (wallet/scriptpubkeyman.h and .cpp,
    wallet/quantum_descriptor_util.cpp, wallet/walletdb.cpp,
    wallet/quantum_wallet_setup.cpp, wallet/wallet.cpp): the manager of a descriptor
    with its keys and scripts, what it gives to the signing code, its records in the
    database, new addresses, and signed messages.

    The descriptor of a manager is its identifier; what a descriptor expands to, the
    ciphers of an encrypted wallet and compact signatures are arguments.  The cache of
    providers of a manager, the wallet's cache of scripts and the address book are not
    modelled: nothing here reads them. *)
From stdpp Require Import strings gmap sorting.
From S2P Require Import Prelude SpxIface OqsSig KeccakP Sha3 Sha3Api MlArith MlSign OqsMlDsa Serial QSig Script Node QPubKey Interp Verify QKey Tx TxChecker Solver Sign QWitness Encode Dest KeyIO SignMsg WalletDb.

Open Scope string_scope.
Open Scope list_scope.
Open Scope Z_scope.

(** ** The order of [std::map]: byte strings compare like [memcmp] *)

Fixpoint lex_le (a b : list Z) : bool :=
  match a, b with
  | [], _ => true
  | _ :: _, [] => false
  | x :: a, y :: b => if x <? y then true else if y <? x then false else lex_le a b
  end.
Definition key_le {A} (a b : list Z * A) : Prop := lex_le a.1 b.1 = true.
#[export] Instance key_le_dec {A} : RelDecision (@key_le A).
Proof. intros a b. unfold key_le. apply _. Defined.

(** The entries of a map in order. *)
Definition in_order {A} (m : gmap (list Z) A) : list (list Z * A) := merge_sort key_le (map_to_list m).

Definition isminetype : Set := Z.
Definition ISMINE_NO : isminetype := 0.
Definition ISMINE_SPENDABLE : isminetype := Z.shiftl 1 1.

Section wallet.
Context {C : NodeCrypto} (callbacks : OQS_SHA3_callbacks) {U : Uninit} (fuel tries : nat).
Context {rng : Type} {K : CKeyOps rng} (GetStrongRandBytes : rng → nat → list Z * rng) (malloc_ok : bool).
Context {db : Type} {D : DatabaseBatch db}.

(** ** The manager of a descriptor *)

(** The pointers of [m_map_quantum_keys] are not null: [AddQuantumKey] puts them there. *)
Record DescriptorScriptPubKeyMan := {
  desc_id : list Z;
  m_map_script_pub_keys : gmap (list Z) Z;
  m_map_keys : gmap (list Z) CKey;
  m_map_crypted_keys : gmap (list Z) (list Z * list Z);
  m_map_quantum_keys : gmap (list Z) CQuantumKey;
  m_map_quantum_pubkeys : gmap (list Z) CQuantumPubKey;
  m_map_crypted_quantum_keys : gmap (list Z) (CQuantumPubKey * list Z);
  m_map_witness_scripts : gmap (list Z) (list Z);
}.

Definition DescriptorScriptPubKeyMan_new (id : list Z) : DescriptorScriptPubKeyMan :=
  {| desc_id := id; m_map_script_pub_keys := ∅; m_map_keys := ∅; m_map_crypted_keys := ∅; m_map_quantum_keys := ∅;
     m_map_quantum_pubkeys := ∅; m_map_crypted_quantum_keys := ∅; m_map_witness_scripts := ∅ |}.

Definition set_scripts_of (m : DescriptorScriptPubKeyMan) (spks : gmap (list Z) Z) (wits : gmap (list Z) (list Z)) : DescriptorScriptPubKeyMan :=
  {| desc_id := desc_id m; m_map_script_pub_keys := spks; m_map_keys := m_map_keys m; m_map_crypted_keys := m_map_crypted_keys m;
     m_map_quantum_keys := m_map_quantum_keys m; m_map_quantum_pubkeys := m_map_quantum_pubkeys m;
     m_map_crypted_quantum_keys := m_map_crypted_quantum_keys m; m_map_witness_scripts := wits |}.
Definition set_quantum_of (m : DescriptorScriptPubKeyMan) (ks : gmap (list Z) CQuantumKey) (pks : gmap (list Z) CQuantumPubKey)
    (cks : gmap (list Z) (CQuantumPubKey * list Z)) : DescriptorScriptPubKeyMan :=
  {| desc_id := desc_id m; m_map_script_pub_keys := m_map_script_pub_keys m; m_map_keys := m_map_keys m;
     m_map_crypted_keys := m_map_crypted_keys m; m_map_quantum_keys := ks; m_map_quantum_pubkeys := pks;
     m_map_crypted_quantum_keys := cks; m_map_witness_scripts := m_map_witness_scripts m |}.
Definition set_keys_of (m : DescriptorScriptPubKeyMan) (ks : gmap (list Z) CKey) (cks : gmap (list Z) (list Z * list Z)) : DescriptorScriptPubKeyMan :=
  {| desc_id := desc_id m; m_map_script_pub_keys := m_map_script_pub_keys m; m_map_keys := ks; m_map_crypted_keys := cks;
     m_map_quantum_keys := m_map_quantum_keys m; m_map_quantum_pubkeys := m_map_quantum_pubkeys m;
     m_map_crypted_quantum_keys := m_map_crypted_quantum_keys m; m_map_witness_scripts := m_map_witness_scripts m |}.

(** A null key is [None].  The maps change before the record is written. *)
Definition AddQuantumKey (m : DescriptorScriptPubKeyMan) (d : db) (key_id : list Z) (key : option CQuantumKey) : bool * DescriptorScriptPubKeyMan * db :=
  match key with
  | None => (false, m, d)
  | Some key =>
      if negb (m_fValid key) then (false, m, d) else
      let pubkey := GetPubKey key in
      let m := set_quantum_of m (<[key_id := key]> (m_map_quantum_keys m)) (<[key_id := pubkey]> (m_map_quantum_pubkeys m))
                 (m_map_crypted_quantum_keys m) in
      let '(result, d) := WriteQuantumDescriptorKey d (desc_id m) pubkey key in
      (result, m, d)
  end.

(** [quantum_index] is a static variable; going below the least [int32_t] is [None]. *)
Definition AddScriptPubKey (m : DescriptorScriptPubKeyMan) (d : db) (quantum_index : Z) (script : list Z)
    : option (DescriptorScriptPubKeyMan * db * Z) :=
  let index := quantum_index in
  quantum_index ← i32 (quantum_index - 1);
  let m := set_scripts_of m (<[script := index]> (m_map_script_pub_keys m)) (m_map_witness_scripts m) in
  let '(_, d) := WriteDescriptorScript d (desc_id m) script index in
  Some (m, d, quantum_index).

Definition AddWitnessScript (m : DescriptorScriptPubKeyMan) (d : db) (witness_script : list Z) : DescriptorScriptPubKeyMan * db :=
  let witness_hash := CSHA256 witness_script in
  let m := set_scripts_of m (m_map_script_pub_keys m) (<[witness_hash := witness_script]> (m_map_witness_scripts m)) in
  let '(_, d) := WriteDescriptorWitnessScript d (desc_id m) witness_hash witness_script in
  (m, d).

Definition LoadScriptPubKey (m : DescriptorScriptPubKeyMan) (script : list Z) (index : Z) : DescriptorScriptPubKeyMan :=
  set_scripts_of m (<[script := index]> (m_map_script_pub_keys m)) (m_map_witness_scripts m).
Definition LoadWitnessScript (m : DescriptorScriptPubKeyMan) (witness_script : list Z) : DescriptorScriptPubKeyMan :=
  set_scripts_of m (m_map_script_pub_keys m) (<[CSHA256 witness_script := witness_script]> (m_map_witness_scripts m)).

Definition AddCryptedQuantumKey (m : DescriptorScriptPubKeyMan) (d : db) (key_id : list Z) (pubkey : CQuantumPubKey) (crypted_key : list Z)
    : bool * DescriptorScriptPubKeyMan * db :=
  if negb (bool_decide (m_map_quantum_keys m = ∅)) then (false, m, d) else
  let m := set_quantum_of m (m_map_quantum_keys m) (<[key_id := pubkey]> (m_map_quantum_pubkeys m))
             (<[key_id := (pubkey, crypted_key)]> (m_map_crypted_quantum_keys m)) in
  let '(result, d) := WriteCryptedQuantumDescriptorKey d (desc_id m) pubkey crypted_key in
  (result, m, d).

Definition GetWitnessScript (m : DescriptorScriptPubKeyMan) (witness_hash : list Z) : option (list Z) := m_map_witness_scripts m !! witness_hash.
Definition spkm_GetCScript (m : DescriptorScriptPubKeyMan) (scriptid : list Z) : option (list Z) :=
  snd <$> find (λ '(_, witness_script), bool_decide (CScriptID witness_script = scriptid)) (in_order (m_map_witness_scripts m)).
Definition spkm_GetQuantumKey (m : DescriptorScriptPubKeyMan) (keyid : list Z) : option CQuantumKey := m_map_quantum_keys m !! keyid.
Definition spkm_GetQuantumPubKey (m : DescriptorScriptPubKeyMan) (keyid : list Z) : option CQuantumPubKey := m_map_quantum_pubkeys m !! keyid.
Definition spkm_HaveQuantumKey (m : DescriptorScriptPubKeyMan) (keyid : list Z) : bool :=
  bool_decide (is_Some (m_map_quantum_keys m !! keyid)) || bool_decide (is_Some (m_map_crypted_quantum_keys m !! keyid)).
Definition GetQuantumKeyCount (m : DescriptorScriptPubKeyMan) : nat := base.size (m_map_quantum_pubkeys m).
Definition GetQuantumKeyIDs (m : DescriptorScriptPubKeyMan) : list (list Z) := (in_order (m_map_quantum_pubkeys m)).*1.

(** [script.size() == 34 && script[0] == OP_0 && script[1] == 32] *)
Definition is_p2wsh (script : list Z) : bool :=
  (size script =? 34) && byte_at script 0 (Z.eqb (op_num OP_0)) && byte_at script 1 (Z.eqb 32).

Definition IsMine (m : DescriptorScriptPubKeyMan) (script : list Z) : isminetype :=
  if bool_decide (is_Some (m_map_script_pub_keys m !! script)) then ISMINE_SPENDABLE else
  if is_p2wsh script &&
     existsb (λ '(_, pubkey), bool_decide (CSHA256 (CreateQuantumWitnessScript pubkey) = take 32 (drop 2 script)))
       (in_order (m_map_quantum_pubkeys m))
  then ISMINE_SPENDABLE else ISMINE_NO.

Definition CanProvide (m : DescriptorScriptPubKeyMan) (script : list Z) : bool := negb (IsMine m script =? 0).

(** ** Encryption of the wallet *)

Section encryption.
(** The secret of a key, [EncryptSecret] and [DecryptKey]. *)
Context (CKey_secret : CKey → list Z) (EncryptSecret : list Z → list Z → list Z → option (list Z))
  (DecryptKey : list Z → list Z → list Z → bool).

(** The loop over the keys: [false] if a secret is not encrypted. *)
Fixpoint encrypt_loop (master_key id : list Z) (l : list (list Z * CKey)) (cks : gmap (list Z) (list Z * list Z)) (d : db)
    : bool * gmap (list Z) (list Z * list Z) * db :=
  match l with
  | [] => (true, cks, d)
  | (_, key) :: l =>
      let pubkey := CKey_GetPubKey key in
      match EncryptSecret master_key (CKey_secret key) (CHash256 pubkey) with
      | None => (false, cks, d)
      | Some crypted_secret =>
          let cks := <[CPubKey_GetID pubkey := (pubkey, crypted_secret)]> cks in
          encrypt_loop master_key id l cks (WriteCryptedDescriptorKey d id pubkey crypted_secret).2
      end
  end.

Definition Encrypt (m : DescriptorScriptPubKeyMan) (d : db) (master_key : list Z) : bool * DescriptorScriptPubKeyMan * db :=
  if negb (bool_decide (m_map_crypted_keys m = ∅)) then (false, m, d) else
  let '(ok, cks, d) := encrypt_loop master_key (desc_id m) (in_order (m_map_keys m)) (m_map_crypted_keys m) d in
  if (ok : bool) then (true, set_keys_of m ∅ cks, d) else (false, set_keys_of m (m_map_keys m) cks, d).

(** The loop of [CheckDecryptionKey]: what [keyPass] and [keyFail] are at its end. *)
Fixpoint decrypt_loop (master_key : list Z) (thoroughly_checked keyPass : bool) (l : list (list Z * (list Z * list Z))) : bool * bool :=
  match l with
  | [] => (keyPass, false)
  | (_, (pubkey, crypted_secret)) :: l =>
      if negb (DecryptKey master_key crypted_secret pubkey) then (keyPass, true)
      else if thoroughly_checked then (true, false) else decrypt_loop master_key thoroughly_checked true l
  end.

(** The result and [m_decryption_thoroughly_checked]; some keys but not all is an
    exception. *)
Definition CheckDecryptionKey (m : DescriptorScriptPubKeyMan) (master_key : list Z) (thoroughly_checked : bool) : outcome (bool * bool) :=
  if negb (bool_decide (m_map_keys m = ∅)) then Ok (false, thoroughly_checked) else
  let '(keyPass, keyFail) := decrypt_loop master_key thoroughly_checked (bool_decide (m_map_crypted_keys m = ∅)) (in_order (m_map_crypted_keys m)) in
  if keyPass && keyFail then Exn else
  if keyFail || negb keyPass then Ok (false, thoroughly_checked) else Ok (true, true).
End encryption.

(** ** What the manager gives to the signing code *)

Definition with_scripts (p : FlatSigningProvider) (s : gmap (list Z) (list Z)) : FlatSigningProvider :=
  {| scripts := s; pubkeys := pubkeys p; origins := origins p; keys := keys p; quantum_keys := quantum_keys p; quantum_pubkeys := quantum_pubkeys p |}.
Definition with_quantum (p : FlatSigningProvider) (ks : gmap (list Z) (option CQuantumKey)) (pks : gmap (list Z) CQuantumPubKey) : FlatSigningProvider :=
  {| scripts := scripts p; pubkeys := pubkeys p; origins := origins p; keys := keys p; quantum_keys := ks; quantum_pubkeys := pks |}.
Definition FlatSigningProvider_empty : FlatSigningProvider :=
  {| scripts := ∅; pubkeys := ∅; origins := ∅; keys := ∅; quantum_keys := ∅; quantum_pubkeys := ∅ |}.

(** The key that the witness script holds and its type: the inner part of the code,
    where [Some None] is the early return for a key of another size, and [None] is the
    way to the end of the function. *)
Definition quantum_script_key (witness_script : list Z) : option (option CQuantumPubKey) :=
  if size witness_script <? 5 then None else
  if negb (match back witness_script with Some b => b =? op_num OP_CHECKSIG_EX | None => false end) then None else
  '(pc, _, vchPubKey) ← GetScriptOp witness_script;
  if bool_decide (vchPubKey = []) then None else
  '(pc, opcode, _) ← GetScriptOp pc;
  if negb (bool_decide (opcode = OP_CHECKSIG_EX) && bool_decide (pc = [])) then None else
  if size vchPubKey =? 1952 then Some (Some {| pk_type := ML_DSA_65; m_vchPubKey := vchPubKey |})
  else if 30000 <? size vchPubKey then Some (Some {| pk_type := SLH_DSA_192F; m_vchPubKey := vchPubKey |})
  else Some None.

(** The public key, and the private key if it is asked for and there. *)
Definition add_quantum (provider : FlatSigningProvider) (include_private : bool) (keyid : list Z) (pubkey : CQuantumPubKey)
    (desc_spkm : DescriptorScriptPubKeyMan) : FlatSigningProvider :=
  let provider := with_quantum provider (quantum_keys provider) (<[keyid := pubkey]> (quantum_pubkeys provider)) in
  if include_private then
    match spkm_GetQuantumKey desc_spkm keyid with
    | Some qkey => with_quantum provider (<[keyid := Some qkey]> (quantum_keys provider)) (quantum_pubkeys provider)
    | None => provider
    end
  else provider.

(** The end of the function, for outputs to the hash of a key. *)
Definition populate_pubkeyhash (script : list Z) (provider : FlatSigningProvider) (include_private : bool)
    (desc_spkm : DescriptorScriptPubKeyMan) : option FlatSigningProvider :=
  '(which_type, solutions) ← Solver script;
  match which_type, solutions with
  | PUBKEYHASH, [keyid] =>
      if size keyid =? 20 then
        Some (match spkm_GetQuantumPubKey desc_spkm keyid with
              | Some pubkey => add_quantum provider include_private keyid pubkey desc_spkm
              | None => provider
              end)
      else Some provider
  | _, _ => Some provider
  end.

Definition PopulateQuantumSigningProvider (script : list Z) (provider : FlatSigningProvider) (include_private : bool)
    (desc_spkm : DescriptorScriptPubKeyMan) : option FlatSigningProvider :=
  let found :=
    if is_p2wsh script then
      find (λ '(_, scr), bool_decide (CSHA256 scr = take 32 (drop 2 script))) (in_order (scripts provider))
    else None in
  match (match found with Some (_, witness_script) => quantum_script_key witness_script | None => None end) with
  | Some None => Some provider
  | Some (Some pubkey) =>
      Some (if CQuantumPubKey_IsValid pubkey
            then add_quantum provider include_private (CQuantumPubKey_GetID pubkey) pubkey desc_spkm else provider)
  | None => populate_pubkeyhash script provider include_private desc_spkm
  end.

(** What a descriptor expands to at an index that is not negative. *)
Context (expand : DescriptorScriptPubKeyMan → Z → bool → option FlatSigningProvider).

Definition GetSigningProvider_index (m : DescriptorScriptPubKeyMan) (index : Z) (include_private : bool) : option FlatSigningProvider :=
  if index <? 0 then
    Some (foldl (λ out_keys '(_, witness_script), with_scripts out_keys (<[CScriptID witness_script := witness_script]> (scripts out_keys)))
            FlatSigningProvider_empty (in_order (m_map_witness_scripts m)))
  else expand m index include_private.

(** The outer [None] is an error of [Solver]; the inner one is the null pointer. *)
Definition GetSigningProvider (m : DescriptorScriptPubKeyMan) (script : list Z) (include_private : bool) : option (option FlatSigningProvider) :=
  match m_map_script_pub_keys m !! script with
  | None => Some None
  | Some index =>
      match GetSigningProvider_index m index include_private with
      | None => Some None
      | Some provider =>
          let provider :=
            if is_p2wsh script then
              match m_map_witness_scripts m !! take 32 (drop 2 script) with
              | Some w => with_scripts provider (<[CScriptID w := w]> (scripts provider))
              | None => provider
              end
            else provider in
          Some <$> PopulateQuantumSigningProvider script provider include_private m
      end
  end.

(** ** Signing a message *)

Context (SignCompact : CKey → list Z → bool * list Z).

(** The text for a quantum signature: a version, the type, and the public key and the
    signature after their lengths of two bytes. *)
Definition message_signature (pubkey : CQuantumPubKey) (vchSig : list Z) : list Z :=
  let pubkey_data := m_vchPubKey pubkey in
  [0x01; KeyType_num (pk_type pubkey); Z.land (Z.shiftr (size pubkey_data) 8) 0xFF; Z.land (size pubkey_data) 0xFF] ++ pubkey_data ++
  [Z.land (Z.shiftr (size vchSig) 8) 0xFF; Z.land (size vchSig) 0xFF] ++ vchSig.

(** The loop over the keys.  The result, the text and the random source. *)
Fixpoint sign_message_loop (message witness_script_hash : list Z) (l : list (list Z * CQuantumKey)) (str_sig : list Z) (g : rng)
    : outcome (SigningResult * list Z * rng) :=
  match l with
  | [] => Ok (PRIVATE_KEY_NOT_AVAILABLE, str_sig, g)
  | (_, quantum_key) :: l =>
      let pubkey := GetPubKey quantum_key in
      if bool_decide (CSHA256 (CreateQuantumWitnessScript pubkey) = witness_script_hash) then
        '(ok, vchSig, g) ← CQuantumKey_Sign callbacks fuel tries GetStrongRandBytes malloc_ok quantum_key (MessageHash message) [] g;
        if negb ok then Ok (SIGNING_FAILED, str_sig, g) else
        s ← or_crash (EncodeBase64 (message_signature pubkey vchSig));
        Ok (Signed, s, g)
      else sign_message_loop message witness_script_hash l str_sig g
  end.

Definition SignMessage (m : DescriptorScriptPubKeyMan) (message : list Z) (dest : CTxDestination) (str_sig : list Z) (g : rng)
    : outcome (SigningResult * list Z * rng) :=
  match dest with
  | PKHash pkhash =>
      p ← or_crash (GetSigningProvider m (GetScriptForDestination dest) true);
      match p with
      | None => Ok (PRIVATE_KEY_NOT_AVAILABLE, str_sig, g)
      | Some provider =>
          match keys provider !! pkhash with
          | None => Ok (PRIVATE_KEY_NOT_AVAILABLE, str_sig, g)
          | Some key =>
              '(ok, str_sig) ← or_crash (MessageSign SignCompact key message str_sig);
              Ok (if (ok : bool) then Signed else SIGNING_FAILED, str_sig, g)
          end
      end
  | WitnessV0ScriptHash h => sign_message_loop message h (in_order (m_map_quantum_keys m)) str_sig g
  | _ => Ok (PRIVATE_KEY_NOT_AVAILABLE, str_sig, g)
  end.

(** [CWallet::SignMessage], for the managers in the order of their identifiers. *)
Fixpoint CWallet_SignMessage (m_spk_managers : list DescriptorScriptPubKeyMan) (message : list Z) (dest : CTxDestination) (str_sig : list Z) (g : rng)
    : outcome (SigningResult * list Z * rng) :=
  match m_spk_managers with
  | [] => Ok (PRIVATE_KEY_NOT_AVAILABLE, str_sig, g)
  | m :: ms =>
      if CanProvide m (GetScriptForDestination dest) then SignMessage m message dest str_sig g
      else CWallet_SignMessage ms message dest str_sig g
  end.

(** ** Loading the records of a descriptor *)

(** What the loading changes: the manager, the database and the random source. *)
Definition load_state : Type := DescriptorScriptPubKeyMan * db * rng.

(** Reading the descriptor of a key: the assertion is [Crash]. *)
Definition read_desc_id (id : list Z) (key : DataStream) : outcome DataStream :=
  '(i, key) ← or_throw (DataStream_read key 32);
  if bool_decide (i = id) then Ok key else Crash.

Definition load_quantum_key (id : list Z) (s : load_state) (key value : DataStream) : outcome (DBErrors * load_state) :=
  let '(m, d, g) := s in
  key ← read_desc_id id key;
  '(keyid, _) ← or_throw (DataStream_read key 20);
  '(key_data, value) ← or_throw (read_vector value);
  '(hash, _) ← or_throw (DataStream_read value 32);
  match key_data with
  | [] => Ok (CORRUPT, s)
  | key_type_byte :: data =>
      let key_type := to_KeyType key_type_byte in
      match (match key_type with ML_DSA_65 => Some 1952 | SLH_DSA_192F => Some 48 | _ => None end) with
      | None => Ok (CORRUPT, s)
      | Some pubkey_size =>
          if size key_data <? 1 + pubkey_size then Ok (CORRUPT, s) else
          let pub_data := take (Z.to_nat pubkey_size) data in
          let priv_data := drop (Z.to_nat pubkey_size) data in
          if negb (bool_decide (CHash256 (pub_data ++ priv_data) = hash)) then Ok (CORRUPT, s) else
          let pubkey := {| pk_type := key_type; m_vchPubKey := pub_data |} in
          '(ok, qkey, g) ← Load callbacks fuel tries GetStrongRandBytes malloc_ok CQuantumKey_default priv_data pubkey g;
          if negb ok then Ok (CORRUPT, (m, d, g)) else
          let '(_, m, d) := AddQuantumKey m d keyid (Some qkey) in
          Ok (LOAD_OK, (m, d, g))
      end
  end.

(** The value is read as a public key and a vector. *)
Definition load_crypted_quantum_key (id : list Z) (s : load_state) (key value : DataStream) : outcome (DBErrors * load_state) :=
  let '(m, d, g) := s in
  key ← read_desc_id id key;
  '(keyid, _) ← or_throw (DataStream_read key 20);
  '(pubkey, value) ← or_throw (CQuantumPubKey_Unserialize value);
  '(crypted_key, _) ← or_throw (read_vector value);
  let '(_, m, d) := AddCryptedQuantumKey m d keyid pubkey crypted_key in
  Ok (LOAD_OK, (m, d, g)).

Definition load_script (id : list Z) (s : load_state) (key value : DataStream) : outcome (DBErrors * load_state) :=
  let '(m, d, g) := s in
  key ← read_desc_id id key;
  '(script, _) ← or_throw (read_vector key);
  '(index, _) ← or_throw (read_int32 value);
  Ok (LOAD_OK, (LoadScriptPubKey m script index, d, g)).

Definition load_witness_script (id : list Z) (s : load_state) (key value : DataStream) : outcome (DBErrors * load_state) :=
  let '(m, d, g) := s in
  key ← read_desc_id id key;
  _ ← or_throw (DataStream_read key 32);
  '(witness_script, _) ← or_throw (read_vector value);
  Ok (LOAD_OK, (LoadWitnessScript m witness_script, d, g)).

(** One kind of records; the database is that of the state. *)
Definition load_kind (type id : list Z) (load_func : list Z → load_state → DataStream → DataStream → outcome (DBErrors * load_state))
    (r : DBErrors) (s : load_state) : outcome (DBErrors * load_state) :=
  '(res, s) ← LoadRecords s.1.2 type (PrefixStream type id) (load_func id) s;
  Ok (DBErrors_max r res, s).

(** The part of [LoadDescriptorWalletRecords] for quantum keys and scripts. *)
Definition LoadQuantumRecords (id : list Z) (s : load_state) : outcome (DBErrors * load_state) :=
  '(r, s) ← load_kind DBKeys.WALLETDESCRIPTORQKEY id load_quantum_key LOAD_OK s;
  '(r, s) ← load_kind DBKeys.WALLETDESCRIPTORCQKEY id load_crypted_quantum_key r s;
  '(r, s) ← load_kind DBKeys.WALLETDESCRIPTORSCRIPT id load_script r s;
  load_kind DBKeys.WALLETDESCRIPTORWITNESSSCRIPT id load_witness_script r s.

(** ** New addresses *)

(** The wallet: its managers, in the order in which [GetAllScriptPubKeyMans] gives them,
    whether it holds descriptors, and its encryption. *)
Record CWallet := { managers : list DescriptorScriptPubKeyMan; WALLET_FLAG_DESCRIPTORS : bool; crypted : bool; locked : bool }.
Definition set_managers (w : CWallet) (ms : list DescriptorScriptPubKeyMan) : CWallet :=
  {| managers := ms; WALLET_FLAG_DESCRIPTORS := WALLET_FLAG_DESCRIPTORS w; crypted := crypted w; locked := locked w |}.

(** The identifier of the descriptor that [Parse] gives for a text, the record of a
    descriptor, and where a new manager comes in the order. *)
Context (ParseDescriptor : list Z → option (list Z)) (WriteDescriptor : db → list Z → bool * db) (place : DescriptorScriptPubKeyMan → nat).

(** [m_spk_managers[id] = ...] replaces a manager with the same identifier. *)
Definition AddScriptPubKeyMan (w : CWallet) (m : DescriptorScriptPubKeyMan) : CWallet :=
  let ms := filter (λ x, desc_id x ≠ desc_id m) (managers w) in
  set_managers w (take (place m) ms ++ m :: drop (place m) ms).

Definition quantum_descriptor (key_type : KeyType) (pubkey_data : list Z) : list Z :=
  str "qpkh(quantum:" ++ (if decide (key_type = ML_DSA_65) then str "ml-dsa" else str "slh-dsa") ++ str ":" ++ HexStr pubkey_data ++ str ")".

(** A new manager has no keys, so the check of the decryption key passes and nothing is
    encrypted; a failing record of the descriptor is an exception. *)
Definition SetupQuantumDescriptor (w : CWallet) (d : db) (scheme_id : Z) (provided_key : option CQuantumKey) (g : rng)
    : outcome (bool * CWallet * db * rng) :=
  match (if scheme_id =? SCHEME_ML_DSA_65 then Some ML_DSA_65 else if scheme_id =? SCHEME_SLH_DSA_192F then Some SLH_DSA_192F else None) with
  | None => Ok (false, w, d, g)
  | Some key_type =>
      '(qkey, g) ← match provided_key with
                   | Some key => Ok (Some key, g)
                   | None =>
                       '(key, g) ← MakeNewKey callbacks fuel tries GetStrongRandBytes malloc_ok CQuantumKey_default key_type g;
                       Ok (if m_fValid key then Some key else None, g)
                   end;
      match qkey with
      | None => Ok (false, w, d, g)
      | Some key =>
          let qpubkey := GetPubKey key in
          match ParseDescriptor (quantum_descriptor key_type (m_vchPubKey qpubkey)) with
          | None => Ok (false, w, d, g)
          | Some id =>
              if crypted w && locked w then Exn else
              let '(ok, d) := WriteDescriptor d id in
              if negb ok then Exn else
              let '(ok, m, d) := AddQuantumKey (DescriptorScriptPubKeyMan_new id) d (CQuantumPubKey_GetID qpubkey) (Some key) in
              Ok (ok, if (ok : bool) then AddScriptPubKeyMan w m else w, d, g)
          end
      end
  end.

(** The descriptors of a new wallet: a failure is an exception. *)
Definition SetupQuantumDescriptors (w : CWallet) (d : db) (g : rng) : outcome (CWallet * db * rng) :=
  '(ok, w, d, g) ← SetupQuantumDescriptor w d SCHEME_ML_DSA_65 None g;
  if negb ok then Exn else
  '(ok, w, d, g) ← SetupQuantumDescriptor w d SCHEME_SLH_DSA_192F None g;
  if negb ok then Exn else Ok (w, d, g).

(** The first loop: the managers before the one that took the key, that one and those
    after it, or all of them.  The key leaves its pointer with the first attempt. *)
Fixpoint add_to_existing (ms : list DescriptorScriptPubKeyMan) (d : db) (keyid : list Z) (key : option CQuantumKey)
    : list DescriptorScriptPubKeyMan * option (DescriptorScriptPubKeyMan * list DescriptorScriptPubKeyMan) * db * option CQuantumKey :=
  match ms with
  | [] => ([], None, d, key)
  | m :: ms =>
      if (0 <? GetQuantumKeyCount m)%nat then
        let '(ok, m, d) := AddQuantumKey m d keyid key in
        if (ok : bool) then ([], Some (m, ms), d, None) else
        let '(before, r, d, key) := add_to_existing ms d keyid None in
        (m :: before, r, d, key)
      else
        let '(before, r, d, key) := add_to_existing ms d keyid key in
        (m :: before, r, d, key)
  end.

(** The second loop: the first manager with quantum keys that has this one. *)
Fixpoint find_key_manager (ms : list DescriptorScriptPubKeyMan) (keyid : list Z)
    : option (list DescriptorScriptPubKeyMan * DescriptorScriptPubKeyMan * list DescriptorScriptPubKeyMan) :=
  match ms with
  | [] => None
  | m :: ms =>
      if (0 <? GetQuantumKeyCount m)%nat && spkm_HaveQuantumKey m keyid then Some ([], m, ms) else
      '(before, x, after) ← find_key_manager ms keyid;
      Some (m :: before, x, after)
  end.

(** The end: the scripts go to the manager, the key is looked up again. *)
Definition finish_destination (w : CWallet) (before after : list DescriptorScriptPubKeyMan) (m : DescriptorScriptPubKeyMan) (d : db)
    (quantum_index : Z) (pubkey : CQuantumPubKey) : outcome (option CTxDestination * CWallet * db * Z) :=
  let witnessScript := CreateQuantumWitnessScript pubkey in
  let scriptPubKey := CreateQuantumP2WSH pubkey in
  match IsWitnessProgram scriptPubKey with
  | Some (0, witnessprogram) =>
      if size witnessprogram =? 32 then
        '(m, d, quantum_index) ← or_crash (AddScriptPubKey m d quantum_index scriptPubKey);
        let '(m, d) := AddWitnessScript m d witnessScript in
        let w := set_managers w (before ++ m :: after) in
        Ok (match spkm_GetQuantumKey m (CQuantumPubKey_GetID pubkey) with
            | Some _ => Some (WitnessV0ScriptHash witnessprogram)
            | None => None
            end, w, d, quantum_index)
      else Ok (None, set_managers w (before ++ m :: after), d, quantum_index)
  | _ => Ok (None, set_managers w (before ++ m :: after), d, quantum_index)
  end.

(** The destination, or [None] for the errors. *)
Definition GetNewQuantumDestination (w : CWallet) (d : db) (quantum_index : Z) (scheme_id : Z) (g : rng)
    : outcome (option CTxDestination * CWallet * db * Z * rng) :=
  if negb (WALLET_FLAG_DESCRIPTORS w) then Ok (None, w, d, quantum_index, g) else
  let key_type := if scheme_id =? SCHEME_ML_DSA_65 then ML_DSA_65 else SLH_DSA_192F in
  '(key, g) ← MakeNewKey callbacks fuel tries GetStrongRandBytes malloc_ok CQuantumKey_default key_type g;
  if negb (m_fValid key) then Ok (None, w, d, quantum_index, g) else
  let pubkey := GetPubKey key in
  let keyid := CQuantumPubKey_GetID pubkey in
  let '(before, r, d, key) := add_to_existing (managers w) d keyid (Some key) in
  match r with
  | Some (m, after) =>
      '(r, w, d, quantum_index) ← finish_destination w before after m d quantum_index pubkey;
      Ok (r, w, d, quantum_index, g)
  | None =>
      '(ok, w, d, g) ← SetupQuantumDescriptor (set_managers w before) d scheme_id key g;
      match (if (ok : bool) then find_key_manager (managers w) keyid else None) with
      | None => Ok (None, w, d, quantum_index, g)
      | Some (before, m, after) =>
          '(r, w, d, quantum_index) ← finish_destination w before after m d quantum_index pubkey;
          Ok (r, w, d, quantum_index, g)
      end
  end.
End wallet.
