(* ===== verification/WalletP.v ===== *)
(** Quantum keys in the wallet: signed messages verify under the address that they are
    for, and new addresses can be spent from.

    New quantum addresses: the wallet that gives one out holds its key and scripts. *)
From stdpp Require Import strings gmap sorting.
From S2P Require Import Prelude SpxIface OqsSig KeccakP Sha3 Sha3Api MlArith MlSign MlToy OqsMlDsa Serial QSig Script Node QPubKey Interp InterpP Verify QKey QKeyP Encode Tx TxP TxChecker QWitness Solver Sign SignP Dest Base58 KeyIO SignMsg WalletDb Wallet.

Open Scope list_scope.
Open Scope Z_scope.

(** ** Maps in order *)

Lemma in_order_elem {A} (m : gmap (list Z) A) k v : (k, v) ∈ in_order m ↔ m !! k = Some v.
Proof. unfold in_order. rewrite merge_sort_Permutation. apply elem_of_map_to_list. Qed.

(** ** Messages *)

Lemma two_bytes n : 0 <= n < 2 ^ 16 → Z.lor (Z.shiftl (Z.land (Z.shiftr n 8) 0xFF) 8) (Z.land n 0xFF) = n.
Proof.
  intros Hn. change 0xFF with (Z.ones 8). rewrite !Z.land_ones by lia. rewrite Z.shiftr_div_pow2 by lia.
  rewrite (Z.mod_small (n / 2 ^ 8)) by (split; [apply Z.div_pos|apply Z.div_lt_upper_bound]; lia).
  rewrite Z.shiftl_mul_pow2, lor_mul_pow2 by (try apply Z.mod_pos_bound; lia). pose proof (Z.div_mod n (2 ^ 8)). lia.
Qed.

Lemma CHash256_hash {C : NodeCrypto} {L : NodeCryptoLaws C} x : length (CHash256 x) = 32%nat ∧ bytes (CHash256 x).
Proof. split; [apply length_CSHA256|apply CSHA256_bytes]. Qed.

Section wallet.
Context {C : NodeCrypto} {L : NodeCryptoLaws C} (callbacks : OQS_SHA3_callbacks) {SC : Sha3Contract callbacks} {U : Uninit} (fuel tries : nat).
Context {rng : Type} {K : CKeyOps rng} (GetStrongRandBytes : rng → nat → list Z * rng).
Context (Hstrong : ∀ g n, (n <= MAX_BYTES_PER_CALL)%nat →
  length (GetStrongRandBytes g n).1 = n ∧ bytes (GetStrongRandBytes g n).1).
Abbreviation MakeNewKey := (MakeNewKey callbacks fuel tries GetStrongRandBytes true).
Abbreviation CQuantumKey_Sign := (CQuantumKey_Sign callbacks fuel tries GetStrongRandBytes true).
Abbreviation CQuantumKey_Verify := (CQuantumKey_Verify callbacks fuel tries GetStrongRandBytes true).
Abbreviation verify_quantum_message := (verify_quantum_message callbacks fuel tries GetStrongRandBytes true).
Abbreviation sign_message_loop := (sign_message_loop callbacks fuel tries GetStrongRandBytes true).

(** A key that [MakeNewKey] made. *)
Definition made (k : CQuantumKey) : Prop := ∃ k0 t g g1, quantum t ∧ MakeNewKey k0 t g = Ok (k, g1).

(** What is known of such a key. *)
Lemma made_facts k : made k → ∃ t p, quantum t ∧ m_type k = t ∧ m_fValid k = true ∧ GetPubKey k = {| pk_type := t; m_vchPubKey := p |} ∧
  p = k_vchPubKey k ∧ size p = pub_size t ∧ bytes p ∧ ∀ hash vchSig g ok s g', length hash = 32%nat → bytes hash →
    CQuantumKey_Sign k hash vchSig g = Ok (ok, s, g') →
    ok = true ∧ size s = sig_size t ∧ CQuantumKey_Verify hash s {| pk_type := t; m_vchPubKey := p |} = Ok true ∧ bytes s.
Proof using SC Hstrong.
  intros (k0 & t & g & g1 & Ht & E).
  destruct (MakeNewKey_full callbacks fuel tries GetStrongRandBytes Hstrong _ _ _ _ _ Ht E) as (Et & Hv & _ & Sp & _ & Bp & Hs).
  exists t, (k_vchPubKey k). split_and!; try done. by apply GetPubKey_stored.
Qed.

(** The parts of a text are read back. *)
Lemma verify_message_text t p s h message : quantum t → size p = pub_size t → size s = sig_size t →
  verify_quantum_message h (message_signature {| pk_type := t; m_vchPubKey := p |} s) message =
  (ok ← CQuantumKey_Verify (MessageHash message) s {| pk_type := t; m_vchPubKey := p |};
   if negb ok then Ok ERR_NOT_SIGNED else
   if negb (bool_decide (CSHA256 (CreateQuantumWitnessScript {| pk_type := t; m_vchPubKey := p |}) = h)) then Ok ERR_NOT_SIGNED else
   Ok MessageVerified).
Proof using Type.
  intros Ht Hp Hs. unfold verify_quantum_message, message_signature. cbv zeta. cbn [pk_type m_vchPubKey].
  set (n := size p) in *. set (l := size s) in *. set (hi := Z.land (Z.shiftr n 8) 0xFF). set (lo := Z.land n 0xFF).
  set (shi := Z.land (Z.shiftr l 8) 0xFF). set (slo := Z.land l 0xFF).
  assert (Rn : 48 <= n < 2 ^ 16) by (rewrite Hp; destruct Ht as [-> | ->]; done).
  assert (Rl : 3000 <= l < 2 ^ 16) by (rewrite Hs; destruct Ht as [-> | ->]; done).
  assert (En : Z.lor (Z.shiftl hi 8) lo = n) by (apply two_bytes; lia). assert (El : Z.lor (Z.shiftl shi 8) slo = l) by (apply two_bytes; lia).
  set (x := [0x01; KeyType_num t; hi; lo] ++ p ++ [shi; slo] ++ s).
  assert (Lx : size x = n + l + 6) by (unfold x, size, n, l, size; rewrite !length_app; cbn [length]; lia).
  rewrite Lx. change (x !! 0%nat) with (Some 1). change (x !! 1%nat) with (Some (KeyType_num t)). change (x !! 2%nat) with (Some hi).
  change (x !! 3%nat) with (Some lo). rewrite (proj2 (Z.ltb_ge _ 7)) by lia. cbn [or_crash mbind outcome_bind]. change (negb (1 =? 1)) with false. cbv iota.
  assert (Et : to_KeyType (KeyType_num t) = t) by (destruct Ht as [-> | ->]; done). rewrite Et.
  assert (negb (bool_decide (t = ML_DSA_65)) && negb (bool_decide (t = SLH_DSA_192F)) = false) as -> by (destruct Ht as [-> | ->]; done).
  rewrite (proj2 (Z.ltb_ge _ (2 + 2))) by lia. rewrite En, (proj2 (Z.ltb_ge _ (4 + n + 2))) by lia.
  assert (Ed : drop 4 x = p ++ [shi; slo] ++ s) by done. assert (Ln : Z.to_nat n = length p) by (unfold n, size; lia).
  assert (Ex : ∀ j, x !! Z.to_nat (4 + n + Z.of_nat j) = ([shi; slo] ++ s) !! j).
  { intros j. replace (Z.to_nat (4 + n + Z.of_nat j)) with (4 + (length p + j))%nat by lia. rewrite <-lookup_drop, Ed.
    rewrite lookup_app_r by lia. f_equal. lia. }
  pose proof (Ex 0%nat) as E0. pose proof (Ex 1%nat) as E1. change (Z.of_nat 0) with 0 in E0. change (Z.of_nat 1) with 1 in E1.
  rewrite Z.add_0_r in E0. rewrite E0, E1. cbn [app lookup list_lookup or_crash mbind outcome_bind]. rewrite El.
  replace (4 + n + 2 + l) with (n + l + 6) by lia. rewrite Z.eqb_refl. cbn [negb]. rewrite Ed, Ln, take_app_length.
  assert (drop (Z.to_nat (4 + n + 2)) x = s) as ->.
  { replace (Z.to_nat (4 + n + 2)) with (4 + (length p + 2))%nat by lia. rewrite <-drop_drop, Ed, <-drop_drop, drop_app_length. done. }
  rewrite pub_valid by done. done.
Qed.

Lemma low_byte n : in_u8 (Z.land n 0xFF).
Proof using Type. change 0xFF with (Z.ones 8). rewrite Z.land_ones by lia. apply Z.mod_pos_bound. lia. Qed.

Lemma message_signature_bytes t p s : quantum t → bytes p → bytes s → bytes (message_signature {| pk_type := t; m_vchPubKey := p |} s).
Proof using Type.
  intros Ht Hp Hs. unfold message_signature. cbv zeta. cbn [pk_type m_vchPubKey].
  repeat (apply Forall_app; split); [|done| |done].
  - repeat apply Forall_cons_2; [unfold in_u8; lia| |apply low_byte|apply low_byte|apply Forall_nil_2].
    destruct Ht as [-> | ->]; cbn [KeyType_num]; unfold in_u8; lia.
  - repeat apply Forall_cons_2; [apply low_byte|apply low_byte|apply Forall_nil_2].
Qed.

(** The hash that the address of a key holds. *)
Definition key_program (k : CQuantumKey) : list Z := CSHA256 (CreateQuantumWitnessScript (GetPubKey k)).

(** The loop signs with the first key for the address, and the text verifies. *)
Lemma sign_message_loop_ok message h l str0 g : Forall (λ e, made e.2) l →
  match sign_message_loop message h l str0 g with
  | Ok (r, sig, g') =>
      r = Signed ∧ (∃ e, e ∈ l ∧ key_program e.2 = h) ∧
        (∃ b, DecodeBase64 sig = Some (Some b) ∧ verify_quantum_message h b message = Ok MessageVerified) ∨
      r = PRIVATE_KEY_NOT_AVAILABLE ∧ sig = str0 ∧ g' = g ∧ Forall (λ e, key_program e.2 ≠ h) l
  | _ => ∃ e, e ∈ l ∧ key_program e.2 = h ∧ ∀ s g', CQuantumKey_Sign e.2 (MessageHash message) [] g ≠ Ok (true, s, g')
  end.
Proof using L SC Hstrong.
  induction 1 as [|[id k] l Hk Hl IH]; cbn [sign_message_loop]; [right; by split_and!|]. cbn [snd] in Hk.
  fold (key_program k). destruct (bool_decide (key_program k = h)) eqn:Eh.
  2:{ apply bool_decide_eq_false in Eh.
      destruct (sign_message_loop message h l str0 g) as [[[r sig] g']| | |].
      - destruct IH as [(-> & (w & He & Ee) & Hv)|(-> & -> & -> & Hn)].
        + left. split_and!; [done| |done]. exists w. split; [by right|done].
        + right. split_and!; [done..|]. by apply Forall_cons_2.
      - destruct IH as (w & He & Hr). exists w. split; [by right|done].
      - destruct IH as (w & He & Hr). exists w. split; [by right|done].
      - destruct IH as (w & He & Hr). exists w. split; [by right|done]. }
  apply bool_decide_eq_true in Eh. destruct (made_facts k Hk) as (t & p & Ht & Et & _ & Ep & _ & Sp & Bp & Hs).
  destruct (CHash256_hash (ser_script MESSAGE_MAGIC ++ ser_script message)) as [Lh Bh]. fold (MessageHash message) in Lh, Bh.
  destruct (CQuantumKey_Sign k (MessageHash message) [] g) as [[[ok s] g2]| | |] eqn:Es; cbn [mbind outcome_bind];
    [|exists (id, k); split_and!; [by left|done|intros s g'; cbn [snd]; by rewrite Es]..].
  destruct (Hs _ _ _ _ _ _ Lh Bh Es) as (-> & Sz & Hv & Bs). cbn [negb]. rewrite Ep in *.
  destruct (EncodeBase64_ok _ (message_signature_bytes t p s Ht Bp Bs)) as (vs & q & E64 & _). rewrite E64. cbn [or_crash mbind outcome_bind].
  left. split_and!; [done|by exists (id, k); split; [left|]|]. eexists. split.
  { exact (DecodeBase64_Encode _ _ (message_signature_bytes t p s Ht Bp Bs) E64). }
  rewrite verify_message_text, Hv by done. cbn [mbind outcome_bind negb]. unfold key_program in Eh. rewrite Ep in Eh.
  by rewrite bool_decide_true.
Qed.

Context {db : Type}.
(** The keys of a manager were made by [MakeNewKey] and are under their identifiers,
    the scripts under their hashes, and the public keys are known. *)
Record wf_manager (m : DescriptorScriptPubKeyMan) : Prop := {
  wf_keys id k : m_map_quantum_keys m !! id = Some k → made k ∧ id = CQuantumPubKey_GetID (GetPubKey k);
  wf_pubkeys id k : m_map_quantum_keys m !! id = Some k → m_map_quantum_pubkeys m !! id = Some (GetPubKey k);
  wf_witness h w : m_map_witness_scripts m !! h = Some w → h = CSHA256 w;
}.

Context (expand : DescriptorScriptPubKeyMan → Z → bool → option FlatSigningProvider) (SignCompact : CKey → list Z → bool * list Z)
  (RecoverCompact : list Z → list Z → option (list Z)).
Abbreviation SignMessage := (SignMessage callbacks fuel tries GetStrongRandBytes true expand SignCompact).
Abbreviation MessageVerify params := (MessageVerify callbacks fuel tries GetStrongRandBytes true params RecoverCompact).

(** C21 Messages: signing a message for a pay-to-witness-script-hash address with a manager
    whose keys were made by [MakeNewKey] either finds no key whose script has that hash,
    and changes nothing, or gives a text that [MessageVerify] accepts for the address and
    the message; it never reports a failure.  It returns if the keys are SLH-DSA keys. *)
Theorem message_sign_verify (m : DescriptorScriptPubKeyMan) (params : CChainParams) (message h str0 : list Z) (g : rng) :
  params ∈ networks → (∀ id k, m_map_quantum_keys m !! id = Some k → made k) → size h = 32 → bytes h →
  ∃ address, EncodeDestination params (WitnessV0ScriptHash h) = Some address ∧
  (∀ r sig g', SignMessage m message (WitnessV0ScriptHash h) str0 g = Ok (r, sig, g') →
    (r = Signed ∧ (∃ id k, m_map_quantum_keys m !! id = Some k ∧ key_program k = h) ∧ MessageVerify params address sig message = Ok MessageVerified) ∨
    (r = PRIVATE_KEY_NOT_AVAILABLE ∧ sig = str0 ∧ g' = g ∧ ∀ id k, m_map_quantum_keys m !! id = Some k → key_program k ≠ h)) ∧
  ((∀ id k, m_map_quantum_keys m !! id = Some k → m_type k = SLH_DSA_192F) →
    ∃ r sig g', SignMessage m message (WitnessV0ScriptHash h) str0 g = Ok (r, sig, g')).
Proof using L SC Hstrong.
  intros Hn Hk Lh Bh. assert (ok : params_ok params = true).
  { pose proof networks_ok as H. rewrite forallb_forall in H. by apply H, list_elem_of_In. }
  destruct (address_text params ok (WitnessV0ScriptHash h) Lh Bh) as (address & Ea & Da & _). exists address. split; [done|].
  assert (Hm : Forall (λ e : list Z * CQuantumKey, made e.2) (in_order (m_map_quantum_keys m))).
  { apply Forall_forall. intros [id k] He%list_elem_of_In%in_order_elem. by apply (Hk id). }
  pose proof (sign_message_loop_ok message h _ str0 g Hm) as Hl. cbn [SignMessage]. split.
  - intros r sig g' E. rewrite E in Hl. destruct Hl as [(-> & ([id k] & He & Ee) & (b & Db & Hv))|(-> & -> & -> & Hnone)].
    + left. split_and!; [done|exists id, k; split; [by apply in_order_elem|done]|]. unfold MessageVerify. rewrite Da. cbn [or_crash mbind outcome_bind].
      rewrite Db. exact Hv.
    + right. split_and!; [done..|]. intros id k E'%in_order_elem. rewrite Forall_forall in Hnone. apply (Hnone (id, k)). by apply list_elem_of_In.
  - intros Ht. destruct (sign_message_loop _ _ _ _ _) as [[[r sig] g']| | |]; [by eauto|exfalso..];
      destruct Hl as ([id k] & He%in_order_elem & _ & Hnot); cbn [snd] in Hnot; destruct (Hk id k He) as (k0 & t & g0 & g1 & Hq & Em);
      destruct (MakeNewKey_full callbacks fuel tries GetStrongRandBytes Hstrong _ _ _ _ _ Hq Em) as (Et & _);
      rewrite (Ht id k He) in Et; subst t;
      destruct (slh_key_total callbacks fuel tries GetStrongRandBytes Hstrong k0 g0) as (k' & g1' & Em' & Hsig);
      rewrite Em in Em'; injection Em' as <- <-; destruct (Hsig (MessageHash message) [] g) as (s & g3 & Es); [apply length_CSHA256| |apply length_CSHA256| |apply length_CSHA256|]; by apply (Hnot s g3).
Qed.

(** ** Providers *)

Abbreviation GetSigningProvider := (GetSigningProvider expand).

Lemma p2wsh_parts pub : is_p2wsh (CreateQuantumP2WSH pub) = true ∧
  take 32 (drop 2 (CreateQuantumP2WSH pub)) = CSHA256 (CreateQuantumWitnessScript pub).
Proof using L.
  set (h := CSHA256 (CreateQuantumWitnessScript pub)). assert (Lh : length h = 32%nat) by apply length_CSHA256.
  assert (E : CreateQuantumP2WSH pub = 0 :: 32 :: h).
  { unfold CreateQuantumP2WSH, push_data, AppendDataSize, size. fold h. rewrite Lh. done. }
  rewrite E. split; [|cbn [drop]; apply take_ge; lia]. unfold is_p2wsh, size. cbn [length]. by rewrite Lh.
Qed.

(** The witness scripts that a provider starts with. *)
Lemma index_scripts m i b p : i < 0 → GetSigningProvider_index expand m i b = Some p →
  quantum_keys p = ∅ ∧ ∀ id w, scripts p !! id = Some w → ∃ h, m_map_witness_scripts m !! h = Some w.
Proof using Type.
  intros Hi. unfold GetSigningProvider_index. rewrite (proj2 (Z.ltb_lt i 0) Hi). intros [= <-].
  assert (Hall : Forall (λ e : list Z * list Z, ∃ h, m_map_witness_scripts m !! h = Some e.2) (in_order (m_map_witness_scripts m))).
  { apply Forall_forall. intros [h w] He%list_elem_of_In%in_order_elem. by exists h. }
  revert Hall. generalize (in_order (m_map_witness_scripts m)). intros l Hall.
  assert (H0 : ∀ id w, scripts FlatSigningProvider_empty !! id = Some w → ∃ h, m_map_witness_scripts m !! h = Some w) by done.
  assert (Hq : quantum_keys FlatSigningProvider_empty = ∅) by done.
  revert H0 Hq. generalize FlatSigningProvider_empty. induction Hall as [|[h w] l Hw Hl IH]; intros p Hp Hq; cbn [foldl]; [done|].
  apply IH; [|done]. intros id w' E. cbn [scripts with_scripts] in E. apply lookup_insert_Some in E as [[_ <-]|[_ E]]; [done|by apply (Hp id)].
Qed.

Lemma find_script (l : gmap (list Z) (list Z)) h w : (∃ id, l !! id = Some w) → CSHA256 w = h →
  (∀ id w', l !! id = Some w' → CSHA256 w' = h → w' = w) →
  ∃ id, find (λ '(_, scr), bool_decide (CSHA256 scr = h)) (in_order l) = Some (id, w).
Proof using Type.
  intros [id0 E0] Ew Hu. destruct (find _ _) as [[id w']|] eqn:Ef.
  - apply find_some in Ef as [Hin Hh]. apply list_elem_of_In, in_order_elem in Hin. apply bool_decide_eq_true in Hh.
    exists id. by rewrite (Hu id w' Hin Hh).
  - apply (find_none _ _) with (x := (id0, w)) in Ef; [|by apply list_elem_of_In, in_order_elem].
    apply bool_decide_eq_false in Ef. done.
Qed.

(** What the signing code gets for the output of a key. *)
Lemma signing_provider_p2wsh m pub i : let ws := CreateQuantumWitnessScript pub in
  wf_manager m → m_map_script_pub_keys m !! CreateQuantumP2WSH pub = Some i → i < 0 → m_map_witness_scripts m !! CSHA256 ws = Some ws →
  ∃ p, scripts p !! CScriptID ws = Some ws ∧ quantum_keys p = ∅ ∧
    GetSigningProvider m (CreateQuantumP2WSH pub) true =
    match quantum_script_key ws with
    | Some (Some pubkey) =>
        Some (Some (if CQuantumPubKey_IsValid pubkey then add_quantum p true (CQuantumPubKey_GetID pubkey) pubkey m else p))
    | Some None => Some (Some p)
    | None => Some <$> populate_pubkeyhash (CreateQuantumP2WSH pub) p true m
    end.
Proof using L.
  cbv zeta. set (ws := CreateQuantumWitnessScript pub). intros Hwf Es Hi Ew. destruct (p2wsh_parts pub) as [Ep Et]. fold ws in Et.
  unfold GetSigningProvider. rewrite Es.
  destruct (GetSigningProvider_index expand m i true) as [p0|] eqn:Ei.
  2:{ exfalso. revert Ei. unfold GetSigningProvider_index. by rewrite (proj2 (Z.ltb_lt i 0) Hi). }
  rewrite Ep, Et, Ew. set (p := with_scripts p0 (<[CScriptID ws := ws]> (scripts p0))).
  assert (Hin : scripts p !! CScriptID ws = Some ws) by apply lookup_insert_eq. destruct (index_scripts m i true p0 Hi Ei) as [Hq Hfrom].
  exists p. split; [done|]. split; [done|]. unfold PopulateQuantumSigningProvider. rewrite Ep, Et.
  destruct (find_script (scripts p) (CSHA256 ws) ws) as [id Ef]; [by eauto|done| |].
  { intros id w' E Hh. unfold p in E. cbn [scripts with_scripts] in E. apply lookup_insert_Some in E as [[_ E]|[_ E]]; [done|].
    destruct (Hfrom id w' E) as [h' Eh']. pose proof (wf_witness m Hwf _ _ Eh') as ->. rewrite Hh in Eh'. congruence. }
  rewrite Ef. destruct (quantum_script_key ws) as [[pubkey|]|]; done.
Qed.

Lemma quantum_script_key_eq t p : quantum t → size p = pub_size t →
  quantum_script_key (CreateQuantumWitnessScript {| pk_type := t; m_vchPubKey := p |}) =
  Some (if decide (t = ML_DSA_65) then Some {| pk_type := t; m_vchPubKey := p |} else None).
Proof using Type.
  intros Ht Hp. unfold quantum_script_key.
  assert ((size (CreateQuantumWitnessScript {| pk_type := t; m_vchPubKey := p |}) <? 5) = false) as ->.
  { apply Z.ltb_ge. rewrite witness_script_eq. unfold push_data, size in *. cbn [m_vchPubKey]. rewrite !length_app.
    assert (48 <= pub_size t) by (by destruct Ht as [-> | ->]). lia. }
  rewrite GetScriptOp_witness by done. rewrite witness_script_eq, back_snoc. change (0xb3 =? op_num OP_CHECKSIG_EX) with true. cbn [negb mbind option_bind].
  rewrite bool_decide_false by (intros ->; destruct Ht as [-> | ->]; done).
  change (GetScriptOp [0xb3]) with (Some ([] : list Z, OP_CHECKSIG_EX, [] : list Z)). cbn [mbind option_bind].
  rewrite !bool_decide_true by done. cbn [andb negb]. rewrite Hp. by destruct Ht as [-> | ->].
Qed.

(** The manager has the scripts for a public key, and the private key. *)
Record holds_key (m : DescriptorScriptPubKeyMan) (pub : CQuantumPubKey) (k : CQuantumKey) : Prop := {
  holds_wf : wf_manager m;
  holds_script : ∃ i, m_map_script_pub_keys m !! CreateQuantumP2WSH pub = Some i ∧ i < 0;
  holds_witness : m_map_witness_scripts m !! CSHA256 (CreateQuantumWitnessScript pub) = Some (CreateQuantumWitnessScript pub);
  holds_private : m_map_quantum_keys m !! CQuantumPubKey_GetID pub = Some k;
}.

Lemma signing_provider_ml m k : holds_key m (GetPubKey k) k → m_type k = ML_DSA_65 →
  let ws := CreateQuantumWitnessScript (GetPubKey k) in
  ∃ p, GetSigningProvider m (CreateQuantumP2WSH (GetPubKey k)) true = Some (Some p) ∧
    GetCScript (flat_provider p) (CHash160 ws) = Some ws ∧ GetQuantumKey (flat_provider p) (CQuantumPubKey_GetID (GetPubKey k)) = Some k.
Proof using L SC Hstrong.
  intros [Hwf (i & Ei & Hi) Hw Hk] Ht. cbv zeta. destruct (wf_keys m Hwf _ _ Hk) as [Hm _].
  destruct (made_facts k Hm) as (t & p & Hq & Et & _ & Ep & _ & Sp & _). rewrite Ht in Et. subst t.
  destruct (signing_provider_p2wsh m (GetPubKey k) i Hwf Ei Hi Hw) as (fp & Hs & _ & E). rewrite Ep in *.
  rewrite quantum_script_key_eq, decide_True, pub_valid in E by done. eexists. split; [exact E|].
  unfold add_quantum, spkm_GetQuantumKey. rewrite Hk. cbn [flat_provider GetCScript GetQuantumKey scripts with_quantum quantum_keys].
  split; [exact Hs|]. by rewrite lookup_insert_eq.
Qed.

Context {R : Type} (SignTaproot Satisfy : SigningProvider → BaseSignatureCreator → list Z → @SignatureData R → rng →
  outcome (bool * list (list Z) * @SignatureData R * rng)).

(** C13 Spending from the wallet: for a manager that holds an ML-DSA-65 key with its
    scripts, the provider that [GetSigningProvider] gives for the key's output makes
    [ProduceSignature] do exactly what the key's [Sign] does on the signature hash, and
    the result is complete and passes the verification under the standard rules.  For an
    SLH-DSA key the provider has no quantum key. *)
Theorem wallet_spends (m : DescriptorScriptPubKeyMan) (k : CQuantumKey) (tx : CTransaction) (nIn : nat) (amount : Z)
    (txdata : option PrecomputedTransactionData) (nHashType : Z) (d : SignatureData) (g2 : rng) :
  let pub := GetPubKey k in let script := CreateQuantumWitnessScript pub in let ht := creator_hashtype nHashType in
  let creator := tx_creator callbacks fuel tries GetStrongRandBytes true tx nIn amount txdata nHashType in
  holds_key m pub k → CastToBool (CSHA256 script) = true → (nIn < length (vin tx))%nat → 0 <= amount → in_u8 ht → complete d = false →
  ∃ p, GetSigningProvider m (CreateQuantumP2WSH pub) true = Some (Some p) ∧
  (m_type k = ML_DSA_65 → ∃ h, SignatureHash script tx nIn ht amount WITNESS_V0 txdata = Some h ∧
     ProduceSignature SignTaproot Satisfy (flat_provider p) creator (CreateQuantumP2WSH pub) d g2 =
       ('(_, s, g3) ← CQuantumKey_Sign k h [] g2;
        Ok (true, with_quantum_witness d script (SCHEME_ML_DSA_65 :: s ++ [ht]), g3)) ∧
     ∀ ok s g3, CQuantumKey_Sign k h [] g2 = Ok (ok, s, g3) →
       VerifyScript [] (CreateQuantumP2WSH pub) (Some [SCHEME_ML_DSA_65 :: s ++ [ht]; script]) STANDARD_SCRIPT_VERIFY_FLAGS
         (Checker creator) true = Ok tt) ∧
  (m_type k = SLH_DSA_192F → quantum_keys p = ∅).
Proof using L SC Hstrong.
  cbv zeta. intros Hh Hc Hn Ha Hu Hd. pose proof Hh as [Hwf (i & Ei & Hi) Hw Hk]. destruct (wf_keys m Hwf _ _ Hk) as [Hm _].
  destruct (made_facts k Hm) as (t & p & Hq & Et & _ & Ep & _ & Sp & _). pose proof Hq as [-> | ->].
  - destruct (signing_provider_ml m k Hh Et) as (fp & E & Hs & Hg). exists fp. split_and!; [done| |congruence]. intros _.
    destruct Hm as (k0 & t & g & g1 & Ht & Em).
    destruct (MakeNewKey_full callbacks fuel tries GetStrongRandBytes Hstrong _ _ _ _ _ Ht Em) as (Et' & _). rewrite Et in Et'. subst t.
    by apply (ProduceSignature_ml callbacks fuel tries GetStrongRandBytes Hstrong SignTaproot Satisfy k0 k g g1).
  - destruct (signing_provider_p2wsh m (GetPubKey k) i Hwf Ei Hi Hw) as (fp & _ & Hs & E). rewrite Ep in *.
    rewrite quantum_script_key_eq, decide_False in E by done. exists fp. split_and!; [done|congruence|done].
Qed.
End wallet.

(** ** Instances *)

#[local] Existing Instance test_ckeys.
#[local] Existing Instance test_crypto.

(** A manager with one key and its scripts. *)
Definition toy_manager (k : CQuantumKey) : DescriptorScriptPubKeyMan :=
  let pub := GetPubKey k in let id := CQuantumPubKey_GetID pub in let ws := CreateQuantumWitnessScript pub in
  {| desc_id := replicate 32 7; m_map_script_pub_keys := {[CreateQuantumP2WSH pub := -1]}; m_map_keys := ∅; m_map_crypted_keys := ∅;
     m_map_quantum_keys := {[id := k]}; m_map_quantum_pubkeys := {[id := pub]}; m_map_crypted_quantum_keys := ∅;
     m_map_witness_scripts := {[CSHA256 ws := ws]} |}.

Lemma toy_manager_holds k : made toy_callbacks 1 1 zeros k → holds_key toy_callbacks 1 1 zeros (toy_manager k) (GetPubKey k) k.
Proof.
  intros Hk. split; cbn [toy_manager m_map_script_pub_keys m_map_witness_scripts m_map_quantum_keys].
  - split; cbn [toy_manager m_map_quantum_keys m_map_quantum_pubkeys m_map_witness_scripts].
    + intros id k' H. by apply lookup_singleton_Some in H as [<- <-].
    + intros id k' H. apply lookup_singleton_Some in H as [<- <-]. apply lookup_singleton_eq.
    + intros h w H. by apply lookup_singleton_Some in H as [<- <-].
  - exists (-1). split; [apply lookup_singleton_eq|lia].
  - apply lookup_singleton_eq.
  - apply lookup_singleton_eq.
Qed.

Definition no_expansion (m : DescriptorScriptPubKeyMan) (i : Z) (b : bool) : option FlatSigningProvider := None.
Definition no_compact (k : unit) (h : list Z) : bool * list Z := (false, []).
Definition no_recovery (h s : list Z) : option (list Z) := None.

Lemma message_sign_verify_witness : ∃ k address sig, made toy_callbacks 1 1 zeros k ∧
  EncodeDestination CQSTestNetParams (WitnessV0ScriptHash (key_program k)) = Some address ∧
  SignMessage toy_callbacks 1 1 zeros true no_expansion no_compact (toy_manager k) [104; 105] (WitnessV0ScriptHash (key_program k)) [] tt
    = Ok (Signed, sig, tt) ∧
  MessageVerify toy_callbacks 1 1 zeros true CQSTestNetParams no_recovery address sig [104; 105] = Ok MessageVerified.
Proof.
  destruct (slh_key_total toy_callbacks 1 1 zeros zeros_strong CQuantumKey_default tt) as (k & [] & Ek & _).
  assert (Hm : made toy_callbacks 1 1 zeros k) by (exists CQuantumKey_default, SLH_DSA_192F, tt, tt; split; [right; reflexivity|exact Ek]).
  assert (Hk : m_map_quantum_keys (toy_manager k) !! CQuantumPubKey_GetID (GetPubKey k) = Some k) by (cbn [toy_manager m_map_quantum_keys]; apply lookup_singleton_eq).
  destruct (message_sign_verify toy_callbacks 1 1 zeros zeros_strong no_expansion no_compact no_recovery (toy_manager k) CQSTestNetParams
    [104; 105] (key_program k) [] tt) as (address & Ea & Hs & Ht).
  - apply list_elem_of_lookup. exists 3%nat. reflexivity.
  - intros id k' H. cbn [toy_manager m_map_quantum_keys] in H. apply lookup_singleton_Some in H as [_ <-]. exact Hm.
  - unfold size, key_program. rewrite length_CSHA256. reflexivity.
  - unfold key_program. apply CSHA256_bytes.
  - exists k, address. destruct Ht as (r & sig & [] & E).
    + intros id k' H. cbn [toy_manager m_map_quantum_keys] in H. apply lookup_singleton_Some in H as [_ <-].
      exact (proj1 (MakeNewKey_ok toy_callbacks 1 1 zeros zeros_strong _ _ _ _ _ (or_intror eq_refl) Ek)).
    + destruct (Hs r sig tt E) as [(-> & _ & Hv)|(_ & _ & _ & Hnone)].
      * exists sig. split; [exact Hm|]. split; [exact Ea|]. split; [exact E|exact Hv].
      * destruct (Hnone _ _ Hk). reflexivity.
Defined.

Lemma wallet_spends_witness : ∃ k s p, made toy_callbacks 1 1 zeros k ∧
  GetSigningProvider no_expansion (toy_manager k) (CreateQuantumP2WSH (GetPubKey k)) true = Some (Some p) ∧
  ProduceSignature toy_none toy_none (flat_provider p) toy_creator (CreateQuantumP2WSH (GetPubKey k)) (SignatureData_new tt) tt =
    Ok (true, with_quantum_witness (SignatureData_new tt) (CreateQuantumWitnessScript (GetPubKey k)) (SCHEME_ML_DSA_65 :: s ++ [SIGHASH_ALL]), tt).
Proof.
  destruct toy_ml_key as (k & Ek & Hs).
  assert (Hm : made toy_callbacks 1 1 zeros k) by (exists CQuantumKey_default, ML_DSA_65, tt, tt; split; [left; reflexivity|exact Ek]).
  destruct (wallet_spends toy_callbacks 1 1 zeros zeros_strong no_expansion toy_none toy_none (toy_manager k) k (test_tx 2) 0 1000 None SIGHASH_ALL
    (SignatureData_new tt) tt (toy_manager_holds k Hm)) as (p & Ep & Hml & _);
    [reflexivity|exact (le_n 1)|lia|split; [apply Z.leb_le; reflexivity|apply Z.ltb_lt; reflexivity]|reflexivity|].
  destruct (Hml (proj1 (MakeNewKey_ok toy_callbacks 1 1 zeros zeros_strong _ _ _ _ _ (or_introl eq_refl) Ek))) as (h & Eh & Eps & _).
  destruct (Hs h (proj2 (SignatureHash_bytes _ _ _ _ _ _ _ _ Eh))) as [s Es]. exists k, s, p. split; [exact Hm|]. split; [exact Ep|].
  rewrite Eps, Es. reflexivity.
Defined.

Section new.
Context {C : NodeCrypto} {L : NodeCryptoLaws C} (callbacks : OQS_SHA3_callbacks) {SC : Sha3Contract callbacks} {U : Uninit} (fuel tries : nat).
Context {rng : Type} {K : CKeyOps rng} (GetStrongRandBytes : rng → nat → list Z * rng).
Context (Hstrong : ∀ g n, (n <= MAX_BYTES_PER_CALL)%nat →
  length (GetStrongRandBytes g n).1 = n ∧ bytes (GetStrongRandBytes g n).1).
Context {db : Type} {D : DatabaseBatch db}.
Context (ParseDescriptor : list Z → option (list Z)) (WriteDescriptor : db → list Z → bool * db) (place : DescriptorScriptPubKeyMan → nat).
Abbreviation MakeNewKey := (MakeNewKey callbacks fuel tries GetStrongRandBytes true).
Abbreviation made := (made callbacks fuel tries GetStrongRandBytes).
Abbreviation wf_manager := (wf_manager callbacks fuel tries GetStrongRandBytes).
Abbreviation holds_key := (holds_key callbacks fuel tries GetStrongRandBytes).
Abbreviation SetupQuantumDescriptor := (SetupQuantumDescriptor callbacks fuel tries GetStrongRandBytes true ParseDescriptor WriteDescriptor place).
Abbreviation GetNewQuantumDestination := (GetNewQuantumDestination callbacks fuel tries GetStrongRandBytes true ParseDescriptor WriteDescriptor place).

(** ** The operations of a manager keep it well-formed *)

Lemma wf_new id : wf_manager (DescriptorScriptPubKeyMan_new id).
Proof using Type. split; intros ? ?; cbn; by rewrite lookup_empty. Qed.

Lemma AddQuantumKey_spec m d k b m' d' : wf_manager m → made k → let keyid := CQuantumPubKey_GetID (GetPubKey k) in
  AddQuantumKey m d keyid (Some k) = (b, m', d') →
  wf_manager m' ∧ desc_id m' = desc_id m ∧ m_map_quantum_keys m' = <[keyid := k]> (m_map_quantum_keys m) ∧
  m_map_script_pub_keys m' = m_map_script_pub_keys m ∧ m_map_witness_scripts m' = m_map_witness_scripts m ∧
  m_map_crypted_quantum_keys m' = m_map_crypted_quantum_keys m ∧
  m_map_quantum_pubkeys m' = <[keyid := GetPubKey k]> (m_map_quantum_pubkeys m) ∧
  WriteQuantumDescriptorKey d (desc_id m) (GetPubKey k) k = (b, d').
Proof using SC Hstrong.
  intros Hwf Hm. cbv zeta. set (keyid := CQuantumPubKey_GetID (GetPubKey k)).
  destruct (made_facts callbacks fuel tries GetStrongRandBytes Hstrong k Hm) as (_ & _ & _ & _ & Hv & _).
  unfold AddQuantumKey. rewrite Hv. cbn [negb]. cbn [desc_id set_quantum_of].
  destruct (WriteQuantumDescriptorKey _ _ _ _) as [r d2] eqn:E. intros [= <- <- <-]. cbn. split_and!; [|done..].
  split; cbn; [| |apply Hwf].
  - intros id k' H. apply lookup_insert_Some in H as [[<- <-]|[_ H]]; [done|by apply Hwf].
  - intros id k' H. apply lookup_insert_Some in H as [[<- <-]|[Hne H]]; [apply lookup_insert_eq|]. rewrite lookup_insert_ne by done. by apply Hwf.
Qed.

Lemma AddQuantumKey_none m d id : AddQuantumKey (D := D) m d id None = (false, m, d).
Proof using Type. done. Qed.

(** The first loop. *)
Lemma add_to_existing_wf ms d k key before r d' key' : made k → let keyid := CQuantumPubKey_GetID (GetPubKey k) in
  Forall wf_manager ms → key = Some k ∨ key = None → add_to_existing ms d keyid key = (before, r, d', key') →
  Forall wf_manager before ∧ (key' = Some k ∨ key' = None) ∧
  match r with
  | Some (m, after) => wf_manager m ∧ Forall wf_manager after ∧ m_map_quantum_keys m !! keyid = Some k
  | None => True
  end.
Proof using SC Hstrong.
  intros Hm keyid Hms. revert d key before r d' key'. induction Hms as [|m ms Hw Hms IH]; intros d key before r d' key' Hk; cbn [add_to_existing].
  { intros [= <- <- <- <-]. done. }
  destruct (0 <? GetQuantumKeyCount m)%nat.
  - destruct (AddQuantumKey m d keyid key) as [[ok m1] d1] eqn:Ea.
    assert (Hm1 : wf_manager m1 ∧ (ok = true → m_map_quantum_keys m1 !! keyid = Some k)).
    { destruct Hk as [-> | ->].
      - destruct (AddQuantumKey_spec m d k ok m1 d1 Hw Hm Ea) as (H1 & _ & H2 & _). split; [done|]. intros _. rewrite H2. apply lookup_insert_eq.
      - injection Ea as <- <- _. done. }
    destruct ok.
    + intros [= <- <- <- <-]. split_and!; [done|by right|apply Hm1|done|by apply Hm1].
    + destruct (add_to_existing ms d1 keyid None) as [[[b r1] d2] key2] eqn:E. intros [= <- <- <- <-].
      destruct (IH d1 None _ _ _ _ (or_intror eq_refl) E) as (H1 & H2 & H3). split_and!; [apply Forall_cons_2; [apply Hm1|done]|done|done].
  - destruct (add_to_existing ms d keyid key) as [[[b r1] d2] key2] eqn:E. intros [= <- <- <- <-].
    destruct (IH d key _ _ _ _ Hk E) as (H1 & H2 & H3). split_and!; [by apply Forall_cons_2|done|done].
Qed.

Lemma find_key_manager_eq ms keyid before m after : find_key_manager ms keyid = Some (before, m, after) → ms = before ++ m :: after.
Proof using Type.
  revert before. induction ms as [|x ms IH]; intros before; cbn [find_key_manager]; [done|].
  case_match; [by intros [= <- <- <-]|]. destruct (find_key_manager ms keyid) as [[[b y] a]|]; [|done]. cbn [mbind option_bind].
  intros [= <- <- <-]. cbn [app]. f_equal. by apply IH.
Qed.

Lemma SetupQuantumDescriptor_wf w d scheme key g b w' d' g' : Forall wf_manager (managers w) → (∃ k, key = Some k ∧ made k) ∨ key = None →
  SetupQuantumDescriptor w d scheme key g = Ok (b, w', d', g') → Forall wf_manager (managers w').
Proof using SC Hstrong.
  intros Hw Hk. unfold SetupQuantumDescriptor.
  destruct (if scheme =? SCHEME_ML_DSA_65 then _ else _) as [t|] eqn:Et; [|by intros [= _ <- _ _]].
  assert (Ht : quantum t).
  { revert Et. destruct (scheme =? SCHEME_ML_DSA_65); [intros [= <-]; by left|].
    destruct (scheme =? SCHEME_SLH_DSA_192F); [intros [= <-]; by right|done]. }
  assert (Hq : ∀ qkey g1, match key with
    | Some k => Ok (Some k, g)
    | None => '(k, g) ← MakeNewKey CQuantumKey_default t g; Ok (if m_fValid k then Some k else None, g)
    end = Ok (qkey, g1) → ∀ k, qkey = Some k → made k).
  { intros qkey g1. destruct Hk as [(k & -> & Hm)| ->]; [intros [= <- <-] k' [= <-]; done|].
    destruct (MakeNewKey CQuantumKey_default t g) as [[k g2]| | |] eqn:E; cbn [mbind outcome_bind]; [|done..].
    intros [= <- <-] k'. destruct (m_fValid k); [|done]. intros [= <-]. by exists CQuantumKey_default, t, g, g2. }
  revert Hq. destruct (match key with Some _ => _ | None => _ end) as [[[k|] g1]| | |]; cbn [mbind outcome_bind]; intros Hq; [|by intros [= _ <- _ _]|done..].
  specialize (Hq (Some k) g1 eq_refl k eq_refl). destruct (ParseDescriptor _) as [id|]; [|by intros [= _ <- _ _]].
  destruct (crypted w && locked w); [done|]. destruct (WriteDescriptor d id) as [[] d1]; cbn [negb]; [|done].
  destruct (AddQuantumKey _ d1 _ (Some k)) as [[ok m] d2] eqn:Ea. intros [= <- <- _ _].
  destruct (AddQuantumKey_spec _ d1 k ok m d2 (wf_new id) Hq Ea) as (Hm & _). destruct ok; [|done].
  unfold AddScriptPubKeyMan, set_managers. cbn [managers].
  assert (Hf : Forall wf_manager (filter (λ x, desc_id x ≠ desc_id m) (managers w))).
  { apply Forall_forall. intros x Hx%list_elem_of_In%list_elem_of_filter. eapply Forall_forall; [exact Hw|]. apply list_elem_of_In, Hx. }
  apply Forall_app. split; [by apply Forall_take|]. apply Forall_cons_2; [done|by apply Forall_drop].
Qed.

Lemma wf_scripts m spks wits : wf_manager m → (∀ h w, wits !! h = Some w → h = CSHA256 w) → wf_manager (set_scripts_of m spks wits).
Proof using Type. intros Hm Hw. split; [apply Hm|apply Hm|done]. Qed.

(** The end: the manager gets the scripts. *)
Lemma finish_destination_spec w before after m d qi pub r w' d' qi' :
  Forall wf_manager before → wf_manager m → Forall wf_manager after → qi < 0 →
  finish_destination w before after m d qi pub = Ok (r, w', d', qi') →
  Forall wf_manager (managers w') ∧ ∀ dest, r = Some dest →
    qi' = qi - 1 ∧ dest = WitnessV0ScriptHash (CSHA256 (CreateQuantumWitnessScript pub)) ∧
    GetScriptForDestination dest = CreateQuantumP2WSH pub ∧
    ∃ m' k, m' ∈ managers w' ∧ holds_key m' pub k ∧ m_map_quantum_keys m !! CQuantumPubKey_GetID pub = Some k.
Proof using L.
  intros Hb Hm Ha Hq. unfold finish_destination. cbv zeta. set (ws := CreateQuantumWitnessScript pub).
  assert (Lh : size (CSHA256 ws) = 32) by (unfold size; by rewrite length_CSHA256).
  assert (Ew : IsWitnessProgram (CreateQuantumP2WSH pub) = Some (0, CSHA256 ws)).
  { apply (IsWitnessProgram_program 0); [lia|unfold ws in *; lia]. }
  rewrite Ew, Lh. cbn [Z.eqb Pos.eqb]. unfold AddScriptPubKey.
  destruct (i32 (qi - 1)) as [qi1|] eqn:Ei; cbn [mbind option_bind or_crash outcome_bind]; [|done].
  destruct (WriteDescriptorScript _ _ _ _) as [b1 d1]. cbn [or_crash mbind outcome_bind]. unfold AddWitnessScript.
  destruct (WriteDescriptorWitnessScript _ _ _ _) as [b2 d2]. fold ws. set (m' := set_scripts_of _ _ _). intros [= <- <- <- <-].
  assert (Hm' : wf_manager m').
  { apply wf_scripts; [by apply wf_scripts; [|apply Hm]|]. intros h x Hx. cbn in Hx. apply lookup_insert_Some in Hx as [[<- <-]|[_ Hx]]; [done|by apply Hm]. }
  split.
  { cbn [managers set_managers]. apply Forall_app. split; [done|by apply Forall_cons_2]. }
  intros dest. destruct (spkm_GetQuantumKey m' (CQuantumPubKey_GetID pub)) as [k|] eqn:Ek; [|done]. intros [= <-].
  split_and!; [|done|done|].
  - unfold i32 in Ei. case_decide; [|done]. by injection Ei as <-.
  - exists m', k. split_and!; [cbn [managers set_managers]; apply elem_of_app; right; by left| |exact Ek].
    split; [done| | |exact Ek].
    + exists qi. split; [|done]. cbn. apply lookup_insert_eq.
    + cbn. apply lookup_insert_eq.
Qed.

(** A manager that has the key gets the scripts, and the destination is given. *)
Lemma finish_destination_ok w before after m d qi pub k : in_i32 (qi - 1) → m_map_quantum_keys m !! CQuantumPubKey_GetID pub = Some k →
  ∃ m' d', finish_destination w before after m d qi pub =
    Ok (Some (WitnessV0ScriptHash (CSHA256 (CreateQuantumWitnessScript pub))), set_managers w (before ++ m' :: after), d', qi - 1).
Proof using L.
  intros Hi Hk. unfold finish_destination. cbv zeta. set (ws := CreateQuantumWitnessScript pub).
  assert (Lh : size (CSHA256 ws) = 32) by (unfold size; by rewrite length_CSHA256).
  assert (Ew : IsWitnessProgram (CreateQuantumP2WSH pub) = Some (0, CSHA256 ws)).
  { apply (IsWitnessProgram_program 0); [lia|unfold ws in *; lia]. }
  rewrite Ew, Lh. cbn [Z.eqb Pos.eqb]. unfold AddScriptPubKey, i32. rewrite decide_True by done. cbn [mbind option_bind or_crash outcome_bind].
  destruct (WriteDescriptorScript _ _ _ _) as [b1 d1]. cbn [or_crash mbind outcome_bind]. unfold AddWitnessScript.
  destruct (WriteDescriptorWitnessScript _ _ _ _) as [b2 d2]. unfold spkm_GetQuantumKey. cbn [m_map_quantum_keys set_scripts_of]. rewrite Hk. by eexists _, d2.
Qed.

(** C22 New addresses: if [GetNewQuantumDestination] gives a destination, from managers
    that are well-formed, then a new key of the scheme was made, the destination is the
    hash of its witness script, the managers are well-formed again, and one of them
    considers the output script its own and holds the scripts of the key and, under the
    key's identifier, a private key: for this public key, or for another one with the
    same identifier. *)
Theorem new_destination_held (w w' : CWallet) (d d' : db) (qi qi' scheme : Z) (g g' : rng) (dest : CTxDestination) :
  Forall wf_manager (managers w) → qi < 0 → GetNewQuantumDestination w d qi scheme g = Ok (Some dest, w', d', qi', g') →
  ∃ k g1 m k', MakeNewKey CQuantumKey_default (if scheme =? SCHEME_ML_DSA_65 then ML_DSA_65 else SLH_DSA_192F) g = Ok (k, g1) ∧
  let pub := GetPubKey k in
  dest = WitnessV0ScriptHash (key_program k) ∧ GetScriptForDestination dest = CreateQuantumP2WSH pub ∧
  Forall wf_manager (managers w') ∧ qi' = qi - 1 ∧ m ∈ managers w' ∧ IsMine m (GetScriptForDestination dest) = ISMINE_SPENDABLE ∧
  holds_key m pub k' ∧
  (GetPubKey k' = pub ∨ GetPubKey k' ≠ pub ∧ CQuantumPubKey_GetID (GetPubKey k') = CQuantumPubKey_GetID pub).
Proof using L SC Hstrong.
  intros Hw Hq. unfold GetNewQuantumDestination. destruct (WALLET_FLAG_DESCRIPTORS w); cbn [negb]; [|done].
  set (t := if scheme =? SCHEME_ML_DSA_65 then ML_DSA_65 else SLH_DSA_192F).
  assert (Ht : quantum t) by (unfold t; case_match; [by left|by right]).
  destruct (MakeNewKey CQuantumKey_default t g) as [[k g1]| | |] eqn:Ek; cbn [mbind outcome_bind]; [|done..].
  assert (Hm : made k) by (by exists CQuantumKey_default, t, g, g1).
  destruct (m_fValid k); cbn [negb]; [|done]. cbv zeta. set (keyid := CQuantumPubKey_GetID (GetPubKey k)).
  destruct (add_to_existing (managers w) d keyid (Some k)) as [[[before r] d1] key] eqn:Ea.
  destruct (add_to_existing_wf _ _ k (Some k) before r d1 key Hm Hw (or_introl eq_refl) Ea) as (Hb & Hkey & Hr).
  assert (Hfin : ∀ w2 before m after d2 g3, Forall wf_manager before → wf_manager m → Forall wf_manager after →
    ('(r, w, d, quantum_index) ← finish_destination w2 before after m d2 qi (GetPubKey k); Ok (r, w, d, quantum_index, g3))
      = Ok (Some dest, w', d', qi', g') → ∃ m' k', dest = WitnessV0ScriptHash (key_program k) ∧
      GetScriptForDestination dest = CreateQuantumP2WSH (GetPubKey k) ∧ Forall wf_manager (managers w') ∧ qi' = qi - 1 ∧
      m' ∈ managers w' ∧ holds_key m' (GetPubKey k) k').
  { intros w2 b2 m a2 d2 g3 H1 H2 H3. destruct (finish_destination _ _ _ _ _ _ _) as [[[[r2 w3] d3] qi3]| | |] eqn:Ef; cbn [mbind outcome_bind]; [|done..].
    intros [= -> -> -> -> ->]. destruct (finish_destination_spec _ _ _ _ _ _ _ _ _ _ _ H1 H2 H3 Hq Ef) as (Hw' & Hd).
    destruct (Hd dest eq_refl) as (-> & -> & Es & m' & k' & Hin & Hh & _). by exists m', k'. }
  intros E. assert (∃ m' k', dest = WitnessV0ScriptHash (key_program k) ∧
      GetScriptForDestination dest = CreateQuantumP2WSH (GetPubKey k) ∧ Forall wf_manager (managers w') ∧ qi' = qi - 1 ∧
      m' ∈ managers w' ∧ holds_key m' (GetPubKey k) k') as (m & k' & Ed & Es & Hw' & Eq & Hin & Hh).
  { destruct r as [[m after]|]; [destruct Hr as (H1 & H2 & _); by eapply Hfin; [| | |exact E]|].
    destruct (SetupQuantumDescriptor (set_managers w before) d1 scheme key g1) as [[[[ok w2] d2] g2]| | |] eqn:Eset; cbn [mbind outcome_bind] in E; [|done..].
    assert (Hw2 : Forall wf_manager (managers w2)).
    { eapply SetupQuantumDescriptor_wf; [| |exact Eset]; [done|]. destruct Hkey as [-> | ->]; [left; by exists k|by right]. }
    destruct ok; [|done]. destruct (find_key_manager (managers w2) keyid) as [[[b2 m2] a2]|] eqn:Ef; [|done].
    apply find_key_manager_eq in Ef. rewrite Ef in Hw2. apply Forall_app in Hw2 as [H1 H2]. apply Forall_cons_1 in H2 as [H2 H3].
    by eapply Hfin; [| | |exact E]. }
  exists k, g1, m, k'. split_and!; try done.
  - rewrite Es. unfold IsMine. destruct Hh as [_ (i & Ei & _) _ _]. by rewrite Ei, bool_decide_true.
  - destruct (decide (GetPubKey k' = GetPubKey k)) as [He|He]; [by left|right]. split; [done|].
    symmetry. apply (wf_keys _ _ _ _ m (holds_wf _ _ _ _ _ _ _ Hh) _ _ (holds_private _ _ _ _ _ _ _ Hh)).
Qed.
End new.

(** ** An instance *)

#[local] Existing Instance test_ckeys.
#[local] Existing Instance test_crypto.

Definition toy_descriptor (text : list Z) : option (list Z) := Some (replicate 32 7).
Definition toy_write_descriptor (d : map_db) (id : list Z) : bool * map_db := (true, d).
Definition toy_wallet (ms : list DescriptorScriptPubKeyMan) : CWallet :=
  {| managers := ms; WALLET_FLAG_DESCRIPTORS := true; crypted := false; locked := false |}.

(** The first key of a manager, in an empty database. *)
Lemma AddQuantumKey_first id k : made toy_callbacks 1 1 zeros k → let keyid := CQuantumPubKey_GetID (GetPubKey k) in
  ∃ m d, AddQuantumKey (DescriptorScriptPubKeyMan_new id) (∅ : map_db) keyid (Some k) = (true, m, d) ∧
    m_map_quantum_keys m = {[keyid := k]} ∧ m_map_quantum_pubkeys m = {[keyid := GetPubKey k]}.
Proof.
  intros Hm. cbv zeta. destruct (AddQuantumKey _ _ _ _) as [[ok m] d] eqn:E.
  destruct (AddQuantumKey_spec toy_callbacks 1 1 zeros zeros_strong _ _ k ok m d (wf_new _ _ _ _ id) Hm E) as (_ & _ & Ek & _ & _ & _ & Ep & Ew).
  exists m, d. split; [|split; [exact Ek|exact Ep]]. unfold WriteQuantumDescriptorKey in Ew. cbv zeta in Ew. cbn [WriteKey map_database] in Ew.
  rewrite lookup_empty, bool_decide_false in Ew by (intros [_ []%is_Some_None]). by injection Ew as <- _.
Qed.

Lemma new_destination_held_witness : ∃ k m d',
  GetNewQuantumDestination toy_callbacks 1 1 zeros true toy_descriptor toy_write_descriptor (λ _, 0%nat) (toy_wallet []) (∅ : map_db) (-1)
    SCHEME_SLH_DSA_192F tt = Ok (Some (WitnessV0ScriptHash (key_program k)), toy_wallet [m], d', -2, tt) ∧
  IsMine m (CreateQuantumP2WSH (GetPubKey k)) = ISMINE_SPENDABLE.
Proof.
  destruct (slh_key_total toy_callbacks 1 1 zeros zeros_strong CQuantumKey_default tt) as (k & [] & Ek & _).
  assert (Hm : made toy_callbacks 1 1 zeros k) by (exists CQuantumKey_default, SLH_DSA_192F, tt, tt; split; [right; reflexivity|exact Ek]).
  destruct (made_facts toy_callbacks 1 1 zeros zeros_strong k Hm) as (t & p & Hq & Et & Hv & Ep & _).
  assert (E : ∃ m d', GetNewQuantumDestination toy_callbacks 1 1 zeros true toy_descriptor toy_write_descriptor (λ _, 0%nat) (toy_wallet []) (∅ : map_db) (-1)
    SCHEME_SLH_DSA_192F tt = Ok (Some (WitnessV0ScriptHash (key_program k)), toy_wallet [m], d', -2, tt)).
  { unfold GetNewQuantumDestination. cbn [toy_wallet WALLET_FLAG_DESCRIPTORS negb managers add_to_existing set_managers].
    change (if SCHEME_SLH_DSA_192F =? SCHEME_ML_DSA_65 then ML_DSA_65 else SLH_DSA_192F) with SLH_DSA_192F.
    rewrite Ek. cbn [mbind outcome_bind]. rewrite Hv. cbn [negb]. cbv zeta. unfold SetupQuantumDescriptor.
    change (SCHEME_SLH_DSA_192F =? SCHEME_ML_DSA_65) with false. change (SCHEME_SLH_DSA_192F =? SCHEME_SLH_DSA_192F) with true.
    cbn [mbind outcome_bind toy_descriptor toy_write_descriptor toy_wallet set_managers crypted locked andb negb].
    destruct (AddQuantumKey_first (replicate 32 7) k Hm) as (m1 & d1 & Ea & E1 & E2). rewrite Ea. cbn [mbind outcome_bind].
    unfold AddScriptPubKeyMan. cbn [managers set_managers toy_wallet find_key_manager].
    change (take 0 (filter _ []) ++ m1 :: drop 0 (filter _ [])) with [m1]. cbn [find_key_manager].
    unfold GetQuantumKeyCount, spkm_HaveQuantumKey. rewrite E1, E2, map_size_singleton, lookup_singleton_eq.
    rewrite (bool_decide_true (is_Some (Some k))) by (eexists; reflexivity). cbn [Nat.ltb Nat.leb orb andb].
    destruct (finish_destination_ok (toy_wallet [m1]) [] [] m1 d1 (-1) (GetPubKey k) k) as (m2 & d2 & Ef); [split; lia|rewrite E1; apply lookup_singleton_eq|].
    exists m2, d2. unfold toy_wallet in Ef. unfold set_managers in *. cbn in Ef |- *. rewrite Ef. reflexivity. }
  destruct E as (m & d' & E). exists k, m, d'. split; [exact E|].
  destruct (new_destination_held toy_callbacks 1 1 zeros zeros_strong toy_descriptor toy_write_descriptor (λ _, 0%nat) (toy_wallet []) (toy_wallet [m])
    ∅ d' (-1) (-2) SCHEME_SLH_DSA_192F tt tt _ (List.Forall_nil _) eq_refl E) as (k1 & [] & m1 & k2 & Ek1 & Ed & Es & _ & _ & Hin & Hi & _).
  cbn [managers toy_wallet] in Hin. apply list_elem_of_singleton in Hin as ->.
  change (if SCHEME_SLH_DSA_192F =? SCHEME_ML_DSA_65 then ML_DSA_65 else SLH_DSA_192F) with SLH_DSA_192F in Ek1.
  rewrite Ek in Ek1. injection Ek1 as <-. rewrite <-Es. exact Hi.
Defined.
