(* ===== verification/WalletDbP.v ===== *)
(** The records of the wallet: what a manager of a descriptor wrote, the loading of the
    descriptor reads back. *)
From stdpp Require Import strings gmap sorting.
From S2P Require Import Prelude SpxIface OqsSig KeccakP Sha3 Sha3Api MlArith MlSign MlToy OqsMlDsa Serial QSig Script Node QPubKey QKey QKeyP Tx TxP Encode Dest KeyIO SignMsg WalletDb Wallet WalletP.

Open Scope list_scope.
Open Scope Z_scope.

(** ** Reading vectors and strings *)

Lemma size_nonneg (l : list Z) : 0 <= size l.
Proof. unfold size. lia. Qed.

Lemma read_vector_next s x l : ds_ok s → size x <= MAX_SIZE → rest s = ser_script x ++ l →
  ∃ s', read_vector s = Some (x, s') ∧ ds_ok s' ∧ rest s' = l.
Proof.
  intros Hs Hx E. unfold ser_script in E. rewrite <-app_assoc in E. pose proof (size_nonneg x) as H0.
  destruct (read_written s (size x) (x ++ l) true Hs) as (s1 & Hs1 & E1 & Er); [unfold in_u64, MAX_SIZE in *; lia|done|].
  unfold read_vector. rewrite Er, (proj2 (Z.ltb_ge _ _)) by done. cbn [andb mbind option_bind]. set (n := size x) in *.
  match goal with |- context [loop ?f ?b ?s0] => enough (H : wp (loop f b s0) (λ '(v, s'), v = x ∧ ds_ok s' ∧ rest s' = l)) end.
  { apply wp_exists in H as ([v s'] & -> & -> & H). by exists s'. }
  apply (wp_loop_measure (λ '(i, v, s), 0 <= i <= n ∧ v = take (Z.to_nat i) x ∧ ds_ok s ∧ rest s = drop (Z.to_nat i) x ++ l)
    (λ '(i, _, _), Z.to_nat ((n - i) / 5000000 + (if i <? n then 1 else 0)))).
  - split_and!; [lia|done|done|done|done].
  - assert (0 <= n / 5000000) by (apply Z.div_pos; lia). rewrite Z.sub_0_r. destruct (0 <? n); lia.
  - intros [[i v] s2] (Hi & -> & Hs2 & E2). destruct (Z.ltb_spec i n) as [Hlt|Hge]; cbn [wp].
    2:{ assert (Ei : Z.to_nat i = length x) by (unfold n, size in *; lia). rewrite Ei in *. rewrite drop_all in E2. by rewrite firstn_all. }
    cbv zeta. change (1 + 4999999) with 5000000. set (blk := Z.min (n - i) 5000000). assert (Hb : 0 < blk <= n - i) by lia.
    assert (Lx : Z.of_nat (length x) = n) by done.
    destruct (read_next s2 (take (Z.to_nat blk) (drop (Z.to_nat i) x)) (drop (Z.to_nat (i + blk)) x ++ l) Hs2) as (s3 & Er3 & Hs3 & E3).
    { rewrite E2, app_assoc. f_equal. rewrite Z2Nat.inj_add, <-drop_drop, take_drop by lia. done. }
    rewrite length_take, length_drop, Nat.min_l in Er3 by lia. rewrite Er3. cbn [mbind option_bind wp].
    split_and!; [lia|lia| |done|done|].
    + rewrite Z2Nat.inj_add by lia. rewrite <-(take_drop (Z.to_nat i) x) at 3. rewrite take_app_add' ; [done|]. rewrite length_take. lia.
    + destruct (Z.le_gt_cases 5000000 (n - i)) as [Hbig|Hsmall].
      * assert (blk = 5000000) as -> by lia. replace (n - (i + 5000000)) with (n - i + (-1) * 5000000) by lia. rewrite Z.div_add by lia.
        assert (1 <= (n - i) / 5000000) by (apply Z.div_le_lower_bound; lia). destruct (i + 5000000 <? n); lia.
      * assert (i + blk = n) as -> by lia. rewrite Z.sub_diag, Z.ltb_irrefl. assert (0 <= (n - i) / 5000000) by (apply Z.div_pos; lia). change (0 / 5000000) with 0. lia.
Qed.

Lemma read_string_next s x l : ds_ok s → size x <= MAX_SIZE → rest s = ser_script x ++ l →
  ∃ s', read_string s = Some (x, s') ∧ ds_ok s' ∧ rest s' = l.
Proof.
  intros Hs Hx E. unfold ser_script in E. rewrite <-app_assoc in E. pose proof (size_nonneg x) as H0.
  destruct (read_written s (size x) (x ++ l) true Hs) as (s1 & Hs1 & E1 & Er); [unfold in_u64, MAX_SIZE in *; lia|done|].
  unfold read_string. rewrite Er, (proj2 (Z.ltb_ge _ _)) by done. cbn [andb mbind option_bind].
  destruct (Z.eqb_spec (size x) 0) as [Hz|Hz].
  - destruct x; [|unfold size in Hz; cbn [length] in Hz; lia]. by exists s1.
  - destruct (read_next s1 x l Hs1 E1) as (s2 & Er2 & Hs2 & E2). exists s2. unfold size. rewrite Nat2Z.id. by rewrite Er2.
Qed.

Lemma read_int32_next s i l : in_i32 i → ds_ok s → rest s = le_bytes 4 i ++ l → ∃ s', read_int32 s = Some (i, s') ∧ ds_ok s' ∧ rest s' = l.
Proof.
  intros Hi Hs E. destruct (readdata_next s (le_bytes 4 i) l Hs E) as (s' & Hs' & E' & Er). exists s'. split; [|done].
  unfold read_int32, ser_readdata32. rewrite length_le_bytes in Er. rewrite Er. cbn [mbind option_bind]. rewrite le_val_le_bytes.
  do 2 f_equal. unfold to_i32, in_i32 in *. change (8 * Z.of_nat 4) with 32. rewrite Zplus_mod_idemp_l, Z.mod_small by lia. lia.
Qed.

Lemma length_ser_script x : size x <= MAX_SIZE → Z.of_nat (length (ser_script x)) < 2 ^ 63.
Proof.
  intros Hx. unfold ser_script. rewrite length_app. pose proof (length_compact_size (size x)) as Lc.
  unfold GetSizeOfCompactSize, MAX_SIZE, size in *. repeat case_match; lia.
Qed.

Lemma ser_script_inj_1 x y : size x <= MAX_SIZE → size y <= MAX_SIZE → ser_script x = ser_script y → x = y.
Proof.
  unfold MAX_SIZE. intros Hx Hy E. rewrite <-(app_nil_r (ser_script x)), <-(app_nil_r (ser_script y)) in E.
  by apply ser_script_inj in E as [-> _]; [|lia|lia].
Qed.

(** ** Records of a kind *)

Lemma prefix_key T1 T2 id1 id2 r1 r2 : size T1 < 2 ^ 64 → size T2 < 2 ^ 64 → length id1 = length id2 →
  PrefixStream T1 id1 ++ r1 = PrefixStream T2 id2 ++ r2 → T1 = T2 ∧ id1 = id2 ∧ r1 = r2.
Proof.
  intros H1 H2 Hl. unfold PrefixStream. rewrite <-!app_assoc. intros [-> E]%ser_script_inj; [|done|done].
  apply app_fixed in E as [-> ->]; done.
Qed.

Definition kinds : list (list Z) :=
  [DBKeys.WALLETDESCRIPTORQKEY; DBKeys.WALLETDESCRIPTORCQKEY; DBKeys.WALLETDESCRIPTORSCRIPT; DBKeys.WALLETDESCRIPTORWITNESSSCRIPT].
Lemma kinds_small T : T ∈ kinds → size T < 30.
Proof.
  intros HT. assert (H : forallb (λ T, size T <? 30) kinds = true) by by vm_compute.
  rewrite forallb_forall in H. apply Z.ltb_lt, H, list_elem_of_In, HT.
Qed.
(** The four kinds are different: what follows needs no more of their names. *)
Lemma kind_elems : DBKeys.WALLETDESCRIPTORQKEY ∈ kinds ∧ DBKeys.WALLETDESCRIPTORCQKEY ∈ kinds ∧ DBKeys.WALLETDESCRIPTORSCRIPT ∈ kinds ∧
  DBKeys.WALLETDESCRIPTORWITNESSSCRIPT ∈ kinds.
Proof. unfold kinds. split_and!; [left|right; left|right; right; left|right; right; right; left]. Qed.

Lemma kinds_ne : DBKeys.WALLETDESCRIPTORQKEY ≠ DBKeys.WALLETDESCRIPTORCQKEY ∧ DBKeys.WALLETDESCRIPTORQKEY ≠ DBKeys.WALLETDESCRIPTORSCRIPT ∧
  DBKeys.WALLETDESCRIPTORQKEY ≠ DBKeys.WALLETDESCRIPTORWITNESSSCRIPT ∧ DBKeys.WALLETDESCRIPTORCQKEY ≠ DBKeys.WALLETDESCRIPTORSCRIPT ∧
  DBKeys.WALLETDESCRIPTORCQKEY ≠ DBKeys.WALLETDESCRIPTORWITNESSSCRIPT ∧ DBKeys.WALLETDESCRIPTORSCRIPT ≠ DBKeys.WALLETDESCRIPTORWITNESSSCRIPT.
Proof. split_and!; apply (bool_decide_unpack _); by vm_compute. Qed.
Lemma kinds_not_ec T : T ∈ kinds → T ≠ DBKeys.WALLETDESCRIPTORCKEY ∧ T ≠ DBKeys.WALLETDESCRIPTORKEY ∧
  size DBKeys.WALLETDESCRIPTORCKEY < 30 ∧ size DBKeys.WALLETDESCRIPTORKEY < 30.
Proof.
  intros HT. assert (H : forallb (λ T, negb (bool_decide (T = DBKeys.WALLETDESCRIPTORCKEY)) && negb (bool_decide (T = DBKeys.WALLETDESCRIPTORKEY))) kinds = true)
    by by vm_compute.
  rewrite forallb_forall in H. specialize (H T (proj1 (list_elem_of_In _ _) HT)). apply andb_true_iff in H as [H1%negb_true_iff H2%negb_true_iff].
  apply bool_decide_eq_false in H1, H2. split_and!; [done|done|by vm_compute..].
Qed.
#[local] Opaque DBKeys.WALLETDESCRIPTORQKEY DBKeys.WALLETDESCRIPTORCQKEY DBKeys.WALLETDESCRIPTORSCRIPT DBKeys.WALLETDESCRIPTORWITNESSSCRIPT.

Section stored.
Context {db : Type} {D : DatabaseBatch db} {DL : DatabaseLaws D}.

(** The records of a kind for a descriptor are those of a map. *)
Definition stored {A} (T id : list Z) (ek : list Z → list Z) (ev : A → list Z) (d : db) (m : gmap (list Z) A) : Prop :=
  ∀ r v, ReadKey d (PrefixStream T id ++ r) = Some v ↔ ∃ k a, r = ek k ∧ m !! k = Some a ∧ v = ev a.

Lemma stored_insert {A} T id ek (ev : A → list Z) d d' m k a ow : (∀ k' b, m !! k' = Some b → ek k' = ek k → k' = k) →
  stored T id ek ev d m → WriteKey d (PrefixStream T id ++ ek k) (ev a) ow = (true, d') → stored T id ek ev d' (<[k := a]> m).
Proof using DL.
  intros Hinj Hs Hw r v. rewrite (WriteKey_true d _ _ ow d' _ Hw). case_decide as Hr.
  - apply (inj (app _)) in Hr. subst r. split.
    + intros [= <-]. exists k, a. by rewrite lookup_insert_eq.
    + intros (k' & b & Ek & Hb & ->). apply lookup_insert_Some in Hb as [[_ ->]|[Hne Hb]]; [done|].
      destruct Hne. symmetry. by eapply Hinj.
  - rewrite (Hs r v). split; intros (k' & b & -> & Hb & ->); exists k', b.
    + rewrite lookup_insert_ne; [done|]. by intros ->.
    + apply lookup_insert_Some in Hb as [[<- _]|[_ Hb]]; [done|]. done.
Qed.

(** What does not touch the records. *)
Lemma stored_same {A} T id ek (ev : A → list Z) d d' m : (∀ r, ReadKey d' (PrefixStream T id ++ r) = ReadKey d (PrefixStream T id ++ r)) →
  stored T id ek ev d m → stored T id ek ev d' m.
Proof using Type. intros E Hs r v. rewrite E. apply Hs. Qed.

Lemma write_elsewhere d d' x v ow b p : WriteKey d x v ow = (b, d') → (∀ r, x ≠ p ++ r) → ∀ r, ReadKey d' (p ++ r) = ReadKey d (p ++ r).
Proof using DL.
  intros Hw Hx r. destruct b; [|by eapply WriteKey_false]. rewrite (WriteKey_true d x v ow d' _ Hw). rewrite decide_False; [done|].
  intros E. by apply (Hx r).
Qed.

Lemma write_other_kind d d' T T' id r0 v ow b : T ∈ kinds → T' ∈ kinds → T ≠ T' → WriteKey d (PrefixStream T' id ++ r0) v ow = (b, d') →
  ∀ r, ReadKey d' (PrefixStream T id ++ r) = ReadKey d (PrefixStream T id ++ r).
Proof using DL.
  intros HT HT' Hne Hw. eapply write_elsewhere; [exact Hw|]. intros r E. pose proof (kinds_small T HT). pose proof (kinds_small T' HT').
  apply prefix_key in E as [-> _]; [done|lia|lia|done].
Qed.

(** ** The loop over the records *)

Lemma load_loop_ok {S} key lf (I : list (list Z * list Z) → S → Prop) l s acc : I acc s →
  (∀ acc k v s, (k, v) ∈ l → I acc s → ∃ ssKey s', read_string (DataStream_new k) = Some (key, ssKey) ∧
     lf s ssKey (DataStream_new v) = Ok (LOAD_OK, s') ∧ I (acc ++ [(k, v)]) s') →
  ∃ s', load_loop key lf l LOAD_OK s = Ok (LOAD_OK, s') ∧ I (acc ++ l) s'.
Proof using Type.
  revert s acc. induction l as [|[k v] l IH]; intros s acc H0 Hstep; cbn [load_loop].
  { exists s. by rewrite app_nil_r. }
  destruct (Hstep acc k v s) as (ssKey & s1 & Er & El & H1); [by left|done|]. rewrite Er, bool_decide_true by done. cbn [negb].
  rewrite El. cbn [mbind outcome_bind]. change (DBErrors_max LOAD_OK LOAD_OK) with LOAD_OK. destruct (IH s1 (acc ++ [(k, v)]) H1) as (s2 & E2 & H2).
  { intros acc' k' v' s' Hin. apply Hstep. by right. }
  exists s2. split; [done|]. by rewrite <-app_assoc in H2.
Qed.

(** A kind whose records are those of a map [m], with a function that puts the entry of
    a record into a map of the state; [J] is what else is known of the state. *)
Lemma load_kind_ok {A St : Type} (T id : list Z) (ek : list Z → list Z) (ev : A → list Z) (m : gmap (list Z) A) (d : db) (lf : St → DataStream → DataStream → outcome (DBErrors * St))
    (J : gmap (list Z) A → St → Prop) (s : St) :
  length id = 32%nat → T ∈ kinds → stored T id ek ev d m → (∀ k k' a b, m !! k = Some a → m !! k' = Some b → ek k = ek k' → k = k') →
  (∀ k a, m !! k = Some a → Z.of_nat (length (ek k)) < 2 ^ 63 ∧ Z.of_nat (length (ev a)) < 2 ^ 63) →
  J ∅ s → (Records d (PrefixStream T id)).2 = true →
  (∀ k a x s ssKey ssValue, m !! k = Some a → x ⊆ m → J x s → ds_ok ssKey → rest ssKey = id ++ ek k → ds_ok ssValue → rest ssValue = ev a →
     ∃ s', lf s ssKey ssValue = Ok (LOAD_OK, s') ∧ J (<[k := a]> x) s') →
  ∃ s', LoadRecords d T (PrefixStream T id) lf s = Ok (LOAD_OK, s') ∧ J m s'.
Proof using DL.
  intros Lid HT Hs Hinj Hlen H0 Hend Hstep. unfold LoadRecords. destruct (Records d (PrefixStream T id)) as [recs b] eqn:ER. cbn [snd] in Hend. subst b.
  destruct (load_loop_ok T lf (λ acc s, ∃ x, x ⊆ m ∧ J x s ∧ ∀ k v, (k, v) ∈ acc → ∃ j a, k = PrefixStream T id ++ ek j ∧ v = ev a ∧ m !! j = Some a ∧ x !! j = Some a)
    recs s []) as (s' & E & x & Hx & HJ & Hall).
  - exists ∅. split_and!; [apply map_empty_subseteq|done|]. intros k v Hin. by apply not_elem_of_nil in Hin.
  - intros acc k v s1 Hin (x & Hx & HJ & Hacc). apply (Records_elem _ _ _ _ _ ER) in Hin as [[r ->] Hv]. pose proof Hv as Hv'.
    apply Hs in Hv as (j & a & -> & Ha & ->). destruct (Hlen j a Ha) as [L1 L2].
    pose proof (kinds_small T HT) as HTs. pose proof (size_nonneg T).
    assert (Lk : Z.of_nat (length (PrefixStream T id ++ ek j)) < 2 ^ 64).
    { unfold PrefixStream, ser_script. rewrite !length_app. pose proof (length_compact_size (size T)) as Lc. unfold GetSizeOfCompactSize in Lc.
      rewrite (proj2 (Z.ltb_lt (size T) 253)) in Lc by lia. unfold size in *. lia. }
    destruct (new_ok _ Lk) as [Ok1 E1]. destruct (new_ok (ev a)) as [Ok2 E2]; [lia|].
    destruct (read_string_next _ T (id ++ ek j) Ok1) as (ssKey & Er & Ok3 & E3); [unfold MAX_SIZE; lia|rewrite E1; unfold PrefixStream; by rewrite <-app_assoc|].
    destruct (Hstep j a x s1 ssKey _ Ha Hx HJ Ok3 E3 Ok2 E2) as (s2 & El & HJ2). exists ssKey, s2. split_and!; [done|done|].
    exists (<[j := a]> x). split_and!; [|done|].
    + apply insert_subseteq_l; [done|done].
    + intros k' v' [Hin'|Hin']%elem_of_app.
      * destruct (Hacc k' v' Hin') as (j' & a' & -> & -> & Hm' & Hx'). exists j', a'. split_and!; [done|done|done|].
        destruct (decide (j' = j)) as [->|Hne]; [rewrite lookup_insert_eq; congruence|by rewrite lookup_insert_ne].
      * apply list_elem_of_singleton in Hin' as [= -> ->]. exists j, a. by rewrite lookup_insert_eq.
  - exists s'. rewrite E. split; [done|]. assert (x = m) as <-; [|done]. apply map_eq. intros j. destruct (m !! j) as [a|] eqn:Ea.
    + assert (Hin : (PrefixStream T id ++ ek j, ev a) ∈ recs).
      { apply (Records_elem _ _ _ _ _ ER). split; [by eexists|]. apply Hs. by exists j, a. }
      destruct (Hall _ _ Hin) as (j' & a' & Ek & _ & Hm' & Hx'). apply (inj (app _)) in Ek.
      rewrite (Hinj j j' a a' Ea Hm' Ek). rewrite (Hinj j j' a a' Ea Hm' Ek) in Ea. congruence.
    + apply not_elem_of_dom. intros Hd. apply subseteq_dom in Hx. apply Hx in Hd. by apply not_elem_of_dom in Ea.
Qed.
End stored.

(** ** Encryption *)

Section encryption.
Context {C : NodeCrypto} {db : Type} {D : DatabaseBatch db} {DL : DatabaseLaws D} {rng : Type} {K : CKeyOps rng}.
Context (CKey_secret : CKey → list Z) (EncryptSecret : list Z → list Z → list Z → option (list Z)).
Abbreviation Encrypt := (Encrypt CKey_secret EncryptSecret).

(** The record of an encrypted elliptic-curve key leaves those of the other kinds. *)
Lemma write_crypted_other d id pubkey secret T r : T ∈ kinds →
  ReadKey (WriteCryptedDescriptorKey d id pubkey secret).2 (PrefixStream T id ++ r) = ReadKey d (PrefixStream T id ++ r).
Proof using DL.
  intros HT. destruct (kinds_not_ec T HT) as (N1 & N2 & S1 & S2). pose proof (kinds_small T HT). unfold WriteCryptedDescriptorKey.
  assert (Hne : ∀ T' r1 r2, size T' < 30 → T ≠ T' → PrefixStream T' id ++ r1 ≠ PrefixStream T id ++ r2).
  { intros T' r1 r2 Hs Hn E. apply prefix_key in E as [-> _]; [done|lia|lia|done]. }
  destruct (WriteKey d _ _ false) as [[] d1] eqn:Ew; cbn [snd]; [|by eapply write_elsewhere; [exact Ew|]; intros ?; apply Hne].
  destruct (EraseKey d1 _) as [[] d2] eqn:Ee; cbn [snd].
  - rewrite (EraseKey_true _ _ _ _ Ee), decide_False by (intros E; by eapply Hne; [| |symmetry; exact E]).
    eapply write_elsewhere; [exact Ew|]. intros ?. by apply Hne.
  - rewrite (EraseKey_false _ _ _ _ Ee). eapply write_elsewhere; [exact Ew|]. intros ?. by apply Hne.
Qed.

(** C34 Encrypting a manager, whatever the cipher and whether it succeeds or not, leaves
    every private quantum key in memory as it is, encrypts none of them, and leaves their
    records in the wallet file. *)
Theorem encrypt_leaves_quantum_keys (m m' : DescriptorScriptPubKeyMan) (d d' : db) (master_key : list Z) (ok : bool) :
  Encrypt m d master_key = (ok, m', d') →
  m_map_quantum_keys m' = m_map_quantum_keys m ∧ m_map_crypted_quantum_keys m' = m_map_crypted_quantum_keys m ∧
  ∀ r, ReadKey d' (PrefixStream DBKeys.WALLETDESCRIPTORQKEY (desc_id m) ++ r) = ReadKey d (PrefixStream DBKeys.WALLETDESCRIPTORQKEY (desc_id m) ++ r).
Proof using DL.
  unfold Encrypt. case_bool_decide; cbn [negb]; [|by intros [= <- <- <-]].
  enough (Hl : ∀ l cks d, ∀ r, ReadKey (encrypt_loop CKey_secret EncryptSecret master_key (desc_id m) l cks d).2
    (PrefixStream DBKeys.WALLETDESCRIPTORQKEY (desc_id m) ++ r) = ReadKey d (PrefixStream DBKeys.WALLETDESCRIPTORQKEY (desc_id m) ++ r)).
  { specialize (Hl (in_order (m_map_keys m)) (m_map_crypted_keys m) d). destruct (encrypt_loop _ _ _ _ _ _ _) as [[[] cks] d1]; by intros [= <- <- <-]. }
  intros l. induction l as [|[x key] l IH]; intros cks d0 r; cbn [encrypt_loop]; [done|]. destruct (EncryptSecret _ _ _); [|done].
  rewrite IH. apply write_crypted_other, kind_elems.
Qed.
End encryption.

(** ** A manager and its records *)

Section reload.
Context {C : NodeCrypto} {L : NodeCryptoLaws C} (callbacks : OQS_SHA3_callbacks) {SC : Sha3Contract callbacks} {U : Uninit} (fuel tries : nat).
Context {rng : Type} {K : CKeyOps rng} (GetStrongRandBytes : rng → nat → list Z * rng).
Context (Hstrong : ∀ g n, (n <= MAX_BYTES_PER_CALL)%nat →
  length (GetStrongRandBytes g n).1 = n ∧ bytes (GetStrongRandBytes g n).1).
Context {db : Type} {D : DatabaseBatch db} {DL : DatabaseLaws D}.
Abbreviation made := (made callbacks fuel tries GetStrongRandBytes).
Abbreviation wf_manager := (wf_manager callbacks fuel tries GetStrongRandBytes).
Abbreviation CQuantumKey_Sign := (CQuantumKey_Sign callbacks fuel tries GetStrongRandBytes true).
Abbreviation LoadQuantumRecords := (LoadQuantumRecords callbacks fuel tries GetStrongRandBytes true).

(** The record of a key. *)
Definition quantum_record (k : CQuantumKey) : list Z :=
  ser_script (quantum_key_data (GetPubKey k) k) ++ CHash256 (m_vchPubKey (GetPubKey k) ++ GetPrivKeyData k).

Record saved (m : DescriptorScriptPubKeyMan) (d : db) : Prop := {
  sv_wf : wf_manager m;
  sv_plain : m_map_keys m = ∅ ∧ m_map_crypted_keys m = ∅ ∧ m_map_crypted_quantum_keys m = ∅;
  sv_pub : m_map_quantum_pubkeys m = GetPubKey <$> m_map_quantum_keys m;
  sv_keys : stored DBKeys.WALLETDESCRIPTORQKEY (desc_id m) (λ k, k) quantum_record d (m_map_quantum_keys m);
  sv_crypted : stored DBKeys.WALLETDESCRIPTORCQKEY (desc_id m) (λ k, k) (λ x : list Z, x) d ∅;
  sv_scripts : stored DBKeys.WALLETDESCRIPTORSCRIPT (desc_id m) ser_script (le_bytes 4) d (m_map_script_pub_keys m);
  sv_witness : stored DBKeys.WALLETDESCRIPTORWITNESSSCRIPT (desc_id m) (λ k, k) ser_script d (m_map_witness_scripts m);
  sv_script_sizes s i : m_map_script_pub_keys m !! s = Some i → size s <= MAX_SIZE ∧ in_i32 i;
  sv_witness_sizes h w : m_map_witness_scripts m !! h = Some w → size w <= MAX_SIZE;
}.

(** The operations of a manager whose records are written, and other writes. *)
Inductive manager_step : DescriptorScriptPubKeyMan * db → DescriptorScriptPubKeyMan * db → Prop :=
  | step_key m d k m' d' : made k → AddQuantumKey m d (CQuantumPubKey_GetID (GetPubKey k)) (Some k) = (true, m', d') →
      manager_step (m, d) (m', d')
  | step_script m d qi script m' d' qi' : size script <= MAX_SIZE → in_i32 qi → AddScriptPubKey m d qi script = Some (m', d', qi') →
      (WriteDescriptorScript d (desc_id m) script qi).1 = true → manager_step (m, d) (m', d')
  | step_witness m d w : size w <= MAX_SIZE → (WriteDescriptorWitnessScript d (desc_id m) (CSHA256 w) w).1 = true →
      manager_step (m, d) (AddWitnessScript m d w)
  | step_other m d x v ow b d' : (∀ T r, T ∈ kinds → x ≠ PrefixStream T (desc_id m) ++ r) → WriteKey d x v ow = (b, d') →
      manager_step (m, d) (m, d').

Lemma saved_new id d : (∀ T r, T ∈ kinds → ReadKey d (PrefixStream T id ++ r) = None) → saved (DescriptorScriptPubKeyMan_new id) d.
Proof using Type.
  intros Hd. assert (Hs : ∀ A T ek (ev : A → list Z), T ∈ kinds → stored T id ek ev d ∅).
  { intros A T ek ev HT r v. rewrite Hd by done. split; [done|]. intros (k & a & _ & H & _). by rewrite lookup_empty in H. }
  destruct kind_elems as (K1 & K2 & K3 & K4). split; cbn [desc_id DescriptorScriptPubKeyMan_new m_map_keys m_map_crypted_keys m_map_crypted_quantum_keys
    m_map_quantum_pubkeys m_map_quantum_keys m_map_script_pub_keys m_map_witness_scripts];
    [apply wf_new|done|by rewrite fmap_empty|by apply Hs..| |]; intros ? ? H; by rewrite lookup_empty in H.
Qed.

(** A write of one kind leaves the records of the other kinds. *)
Lemma stored_other {A} T T' id r0 v ow b d d' ek (ev : A → list Z) m : T ∈ kinds → T' ∈ kinds → T ≠ T' →
  WriteKey d (PrefixStream T' id ++ r0) v ow = (b, d') → stored T id ek ev d m → stored T id ek ev d' m.
Proof using DL. intros HT HT' Hne Hw. apply stored_same. by eapply write_other_kind. Qed.

Lemma saved_key m d k m' d' : saved m d → made k → AddQuantumKey m d (CQuantumPubKey_GetID (GetPubKey k)) (Some k) = (true, m', d') →
  saved m' d' ∧ desc_id m' = desc_id m.
Proof using DL SC Hstrong.
  destruct kind_elems as (K1 & K2 & K3 & K4). destruct kinds_ne as (N12 & N13 & N14 & N23 & N24 & N34).
  intros [Swf Splain Spub Sq Sc Ss Sw Zs Zw] Hm Ha.
  destruct (AddQuantumKey_spec callbacks fuel tries GetStrongRandBytes Hstrong m d k true m' d' Swf Hm Ha)
    as (H1 & E0 & E1 & E2 & E3 & E4 & E5 & Hw). split; [|done]. unfold WriteQuantumDescriptorKey in Hw. cbv zeta in Hw.
  assert (Eplain : m_map_keys m' = m_map_keys m ∧ m_map_crypted_keys m' = m_map_crypted_keys m).
  { unfold AddQuantumKey in Ha. destruct (m_fValid k); cbn [negb] in Ha; [|done]. destruct (WriteQuantumDescriptorKey _ _ _ _). by injection Ha as _ <- _. }
  split; rewrite ?E0, ?E1, ?E2, ?E3, ?E4, ?E5; [done| | | | | | |done|done].
  - destruct Eplain as [-> ->]. done.
  - by rewrite Spub, fmap_insert.
  - eapply stored_insert; [by intros k' b _ ->|exact Sq|exact Hw].
  - by eapply (stored_other _ _ _ _ _ _ _ _ _ _ _ _ K2 K1); [|exact Hw|].
  - by eapply (stored_other _ _ _ _ _ _ _ _ _ _ _ _ K3 K1); [|exact Hw|].
  - by eapply (stored_other _ _ _ _ _ _ _ _ _ _ _ _ K4 K1); [|exact Hw|].
Qed.

Lemma saved_script m d qi script d' : saved m d → size script <= MAX_SIZE → in_i32 qi → WriteDescriptorScript d (desc_id m) script qi = (true, d') →
  saved (LoadScriptPubKey m script qi) d'.
Proof using DL.
  destruct kind_elems as (K1 & K2 & K3 & K4). destruct kinds_ne as (N12 & N13 & N14 & N23 & N24 & N34).
  intros [Swf Splain Spub Sq Sc Ss Sw Zs Zw] Hz Hi Ew. unfold WriteDescriptorScript in Ew.
  split; cbn [desc_id set_scripts_of LoadScriptPubKey m_map_keys m_map_crypted_keys m_map_crypted_quantum_keys m_map_quantum_pubkeys m_map_quantum_keys
    m_map_script_pub_keys m_map_witness_scripts]; [by apply wf_scripts; [|apply Swf]|done|done| | | | | |done].
  - by eapply (stored_other _ _ _ _ _ _ _ _ _ _ _ _ K1 K3); [|exact Ew|].
  - by eapply (stored_other _ _ _ _ _ _ _ _ _ _ _ _ K2 K3); [|exact Ew|].
  - eapply stored_insert; [|exact Ss|exact Ew]. intros s' i' Hs'. apply ser_script_inj_1; [by apply (Zs _ _ Hs')|done].
  - by eapply (stored_other _ _ _ _ _ _ _ _ _ _ _ _ K4 K3); [|exact Ew|].
  - intros s' i' H. apply lookup_insert_Some in H as [[<- <-]|[_ H]]; [done|by apply Zs].
Qed.

Lemma saved_witness m d w d' : saved m d → size w <= MAX_SIZE → WriteDescriptorWitnessScript d (desc_id m) (CSHA256 w) w = (true, d') →
  saved (LoadWitnessScript m w) d'.
Proof using DL.
  destruct kind_elems as (K1 & K2 & K3 & K4). destruct kinds_ne as (N12 & N13 & N14 & N23 & N24 & N34).
  intros [Swf Splain Spub Sq Sc Ss Sw Zs Zw] Hz Ew. unfold WriteDescriptorWitnessScript in Ew.
  split; cbn [desc_id set_scripts_of LoadWitnessScript m_map_keys m_map_crypted_keys m_map_crypted_quantum_keys m_map_quantum_pubkeys m_map_quantum_keys
    m_map_script_pub_keys m_map_witness_scripts]; [|done|done| | | | |done|].
  - apply wf_scripts; [done|]. intros h x Hx. apply lookup_insert_Some in Hx as [[<- <-]|[_ Hx]]; [done|by apply Swf].
  - by eapply (stored_other _ _ _ _ _ _ _ _ _ _ _ _ K1 K4); [|exact Ew|].
  - by eapply (stored_other _ _ _ _ _ _ _ _ _ _ _ _ K2 K4); [|exact Ew|].
  - by eapply (stored_other _ _ _ _ _ _ _ _ _ _ _ _ K3 K4); [|exact Ew|].
  - eapply stored_insert; [by intros k' b _ ->|exact Sw|exact Ew].
  - intros h x Hx. apply lookup_insert_Some in Hx as [[_ <-]|[_ Hx]]; [done|by apply (Zw h)].
Qed.

Lemma saved_step s s' : manager_step s s' → saved s.1 s.2 → saved s'.1 s'.2 ∧ desc_id s'.1 = desc_id s.1.
Proof using DL SC Hstrong.
  intros [m d k m' d' Hm Ha|m d qi script m' d' qi' Hz Hi Ha Hw|m d w Hz Hw|m d x v ow b d' Hx Hw] Hs; cbn [fst snd] in *.
  - by eapply saved_key.
  - unfold AddScriptPubKey in Ha. destruct (i32 (qi - 1)) as [q|]; cbn [mbind option_bind] in Ha; [|done].
    cbn [desc_id set_scripts_of] in Ha. destruct (WriteDescriptorScript d (desc_id m) script qi) as [b1 d1] eqn:Ew. cbn [fst] in Hw. subst b1.
    injection Ha as <- <- <-. split; [|done]. by eapply saved_script.
  - unfold AddWitnessScript. cbn [desc_id set_scripts_of]. destruct (WriteDescriptorWitnessScript d (desc_id m) (CSHA256 w) w) as [b2 d2] eqn:Ew.
    cbn [fst] in Hw. subst b2. split; [|done]. by eapply saved_witness.
  - split; [|done]. destruct kind_elems as (K1 & K2 & K3 & K4).
    assert (Hsame : ∀ T, T ∈ kinds → ∀ r, ReadKey d' (PrefixStream T (desc_id m) ++ r) = ReadKey d (PrefixStream T (desc_id m) ++ r)).
    { intros T HT. eapply write_elsewhere; [exact Hw|]. intros r. by apply Hx. }
    destruct Hs. split; [done|done|done|eapply stored_same; [by apply Hsame|done]..|done|done].
Qed.

Lemma length_GetID pub : length (CQuantumPubKey_GetID pub) = 20%nat.
Proof using L.
  unfold CQuantumPubKey_GetID. case_match; [apply length_replicate|]. case_decide; unfold CHash160; apply length_CRIPEMD160.
Qed.

Lemma read_desc_id_next id s r : length id = 32%nat → ds_ok s → rest s = id ++ r →
  ∃ s', read_desc_id id s = Ok s' ∧ ds_ok s' ∧ rest s' = r.
Proof using Type.
  intros Lid Hs E. destruct (read_next s id r Hs E) as (s' & Er & Hs' & E'). rewrite Lid in Er. exists s'. unfold read_desc_id.
  rewrite Er. cbn [or_throw mbind outcome_bind]. by rewrite bool_decide_true.
Qed.

(** What the record of a key holds. *)
Lemma made_data k : made k → ∃ t p, quantum t ∧ GetPubKey k = {| pk_type := t; m_vchPubKey := p |} ∧ m_type k = t ∧ m_fValid k = true ∧
  size p = pub_size t ∧ size (GetPrivKeyData k) = priv_size t.
Proof using C SC Hstrong.
  intros (k0 & t & g & g1 & Ht & E).
  destruct (MakeNewKey_full callbacks fuel tries GetStrongRandBytes Hstrong _ _ _ _ _ Ht E) as (Et & Hv & Ss & Sp & _).
  exists t, (k_vchPubKey k). split_and!; [done|by apply GetPubKey_stored|done|done|done|].
  unfold GetPrivKeyData. rewrite Hv, Et. by destruct Ht as [-> | ->].
Qed.

(** Reading the record of a key puts the key into the maps; the record is not written
    again. *)
Lemma load_quantum_key_ok id k keyid x d d1 g ssKey ssValue : length id = 32%nat → made k → keyid = CQuantumPubKey_GetID (GetPubKey k) →
  (∀ g, ∃ ok s g', CQuantumKey_Sign k test_hash [] g = Ok (ok, s, g')) →
  (∀ y, ReadKey d1 y = ReadKey d y) → ReadKey d (PrefixStream DBKeys.WALLETDESCRIPTORQKEY id ++ keyid) = Some (quantum_record k) →
  ds_ok ssKey → rest ssKey = id ++ keyid → ds_ok ssValue → rest ssValue = quantum_record k →
  let m0 := DescriptorScriptPubKeyMan_new id in
  ∃ d2 g2, load_quantum_key callbacks fuel tries GetStrongRandBytes true id (set_quantum_of m0 x (GetPubKey <$> x) ∅, d1, g) ssKey ssValue =
    Ok (LOAD_OK, (set_quantum_of m0 (<[keyid := k]> x) (GetPubKey <$> <[keyid := k]> x) ∅, d2, g2)) ∧ ∀ y, ReadKey d2 y = ReadKey d y.
Proof using L SC Hstrong DL.
  intros Lid Hm -> Hsign Hd Hrec Hk Ek Hv Ev. cbv zeta. destruct (made_data k Hm) as (t & p & Ht & Ep & Et & Hvalid & Sp & Ss).
  destruct (read_desc_id_next id ssKey _ Lid Hk Ek) as (s1 & E1 & Hs1 & Er1). unfold load_quantum_key. rewrite E1. cbn [mbind outcome_bind].
  rewrite <-(app_nil_r (CQuantumPubKey_GetID _)) in Er1. destruct (read_next s1 _ [] Hs1 Er1) as (s2 & E2 & _ & _). rewrite length_GetID in E2.
  rewrite E2. cbn [or_throw mbind outcome_bind]. unfold quantum_record in Ev.
  assert (Hkd : size (quantum_key_data (GetPubKey k) k) = 1 + pub_size t + priv_size t).
  { unfold quantum_key_data. rewrite Ep. unfold size in *. cbn [length m_vchPubKey]. rewrite length_app. lia. }
  destruct (read_vector_next ssValue _ _ Hv ltac:(rewrite Hkd; destruct Ht as [-> | ->]; done) Ev) as (s3 & E3 & Hs3 & Er3). rewrite E3. cbn [or_throw mbind outcome_bind].
  rewrite <-(app_nil_r (CHash256 _)) in Er3. destruct (read_next s3 _ [] Hs3 Er3) as (s4 & E4 & _ & _).
  rewrite (proj1 (CHash256_hash _)) in E4. rewrite E4. cbn [or_throw mbind outcome_bind]. rewrite Hkd. unfold quantum_key_data. rewrite Et.
  assert (to_KeyType (KeyType_num t) = t) as -> by (destruct Ht as [-> | ->]; done).
  assert ((match t with ML_DSA_65 => Some 1952 | SLH_DSA_192F => Some 48 | _ => None end) = Some (pub_size t)) as -> by (destruct Ht as [-> | ->]; done).
  rewrite (proj2 (Z.ltb_ge _ _)) by (destruct Ht as [-> | ->]; done).
  assert (Lp : Z.to_nat (pub_size t) = length (m_vchPubKey (GetPubKey k))) by (rewrite <-Sp, Ep; unfold size; cbn [m_vchPubKey]; lia).
  rewrite Lp, take_app_length, drop_app_length, bool_decide_true by done. cbn [negb].
  assert (Epub : {| pk_type := t; m_vchPubKey := m_vchPubKey (GetPubKey k) |} = GetPubKey k) by (by rewrite Ep). rewrite Epub.
  destruct Hm as (k0 & t' & g0 & g1 & Ht' & Em).
  rewrite (Load_own callbacks fuel tries GetStrongRandBytes Hstrong t' k0 k CQuantumKey_default g0 g1 g Ht' Em).
  destruct (Hsign g) as (ok & sg & g' & ->). cbn [mbind outcome_bind negb]. unfold AddQuantumKey. rewrite Hvalid. cbn [negb].
  cbn [set_quantum_of desc_id DescriptorScriptPubKeyMan_new m_map_quantum_keys m_map_quantum_pubkeys m_map_crypted_quantum_keys m_map_script_pub_keys
    m_map_keys m_map_crypted_keys m_map_witness_scripts].
  unfold WriteQuantumDescriptorKey. cbv zeta. destruct (WriteKey d1 _ _ false) as [b d2] eqn:Ew.
  assert (b = false) as ->.
  { match type of Ew with WriteKey _ ?kk ?vv _ = _ => pose proof (WriteKey_exists d1 kk vv) as Hex end. rewrite Ew in Hex. apply Hex. rewrite Hd, Hrec. by eexists. }
  exists d2, g'. split; [|intros y; rewrite (WriteKey_false d1 _ _ _ d2 y Ew); apply Hd]. unfold set_quantum_of. cbn. by rewrite fmap_insert.
Qed.

Lemma length_quantum_record k : made k → size (quantum_key_data (GetPubKey k) k) <= 6000 ∧ Z.of_nat (length (quantum_record k)) < 2 ^ 63.
Proof using L SC Hstrong.
  intros Hm. destruct (made_data k Hm) as (t & p & Ht & Ep & _ & _ & Sp & Spriv).
  assert (Hkd : size (quantum_key_data (GetPubKey k) k) <= 6000).
  { unfold quantum_key_data. rewrite Ep. unfold size in *. cbn [length m_vchPubKey]. rewrite length_app.
    assert (pub_size t + priv_size t <= 5999) by (destruct Ht as [-> | ->]; done). lia. }
  split; [done|]. unfold quantum_record, ser_script. rewrite !length_app, (proj1 (CHash256_hash _)).
  pose proof (length_compact_size (size (quantum_key_data (GetPubKey k) k))) as Lc. unfold GetSizeOfCompactSize, size in *. repeat case_match; lia.
Qed.

Lemma load_script_ok id m d g script i ssKey ssValue : length id = 32%nat → size script <= MAX_SIZE → in_i32 i →
  ds_ok ssKey → rest ssKey = id ++ ser_script script → ds_ok ssValue → rest ssValue = le_bytes 4 i →
  load_script id (m, d, g) ssKey ssValue = Ok (LOAD_OK, (LoadScriptPubKey m script i, d : db, g : rng)).
Proof using Type.
  intros Lid Hz Hi H1 H2 H3 H4. unfold load_script. destruct (read_desc_id_next id ssKey _ Lid H1 H2) as (k1 & -> & Hk1 & Ek1). cbn [mbind outcome_bind].
  rewrite <-(app_nil_r (ser_script script)) in Ek1. destruct (read_vector_next k1 script [] Hk1 Hz Ek1) as (k2 & -> & _ & _). cbn [or_throw mbind outcome_bind].
  rewrite <-(app_nil_r (le_bytes 4 i)) in H4. destruct (read_int32_next ssValue i [] Hi H3 H4) as (v1 & -> & _ & _). done.
Qed.

Lemma load_witness_script_ok id m d g w ssKey ssValue : length id = 32%nat → size w <= MAX_SIZE →
  ds_ok ssKey → rest ssKey = id ++ CSHA256 w → ds_ok ssValue → rest ssValue = ser_script w →
  load_witness_script id (m, d, g) ssKey ssValue = Ok (LOAD_OK, (LoadWitnessScript m w, d : db, g : rng)).
Proof using L.
  intros Lid Hz H1 H2 H3 H4. unfold load_witness_script. destruct (read_desc_id_next id ssKey _ Lid H1 H2) as (k1 & -> & Hk1 & Ek1). cbn [mbind outcome_bind].
  rewrite <-(app_nil_r (CSHA256 w)) in Ek1. destruct (read_next k1 _ [] Hk1 Ek1) as (k2 & Er & _ & _). rewrite length_CSHA256 in Er. rewrite Er.
  cbn [or_throw mbind outcome_bind]. rewrite <-(app_nil_r (ser_script w)) in H4. destruct (read_vector_next ssValue w [] H3 Hz H4) as (v1 & -> & _ & _). done.
Qed.

(** The four kinds, one after the other. *)
Lemma load_kind_eq T id lf (s s' : load_state) : LoadRecords s.1.2 T (PrefixStream T id) (lf id) s = Ok (LOAD_OK, s') →
  load_kind T id lf LOAD_OK s = Ok (LOAD_OK, s').
Proof using Type. intros E. unfold load_kind. rewrite E. done. Qed.

Lemma saved_reload m d g : length (desc_id m) = 32%nat → saved m d → (∀ (d : db) p, (Records d p).2 = true) →
  (∀ id k g, m_map_quantum_keys m !! id = Some k → ∃ ok s g', CQuantumKey_Sign k test_hash [] g = Ok (ok, s, g')) →
  ∃ d' g', LoadQuantumRecords (desc_id m) (DescriptorScriptPubKeyMan_new (desc_id m), d, g) = Ok (LOAD_OK, (m, d', g')) ∧
    ∀ y, ReadKey d' y = ReadKey d y.
Proof using L SC Hstrong DL.
  intros Lid [Swf Splain Spub Sq Sc Ss Sw Zs Zw] Hends Hsign. destruct kind_elems as (K1 & K2 & K3 & K4). set (id := desc_id m) in *.
  set (m0 := DescriptorScriptPubKeyMan_new id). set (same := λ d1 : db, ∀ y, ReadKey d1 y = ReadKey d y).
  assert (Hst : ∀ A T ek (ev : A → list Z) x d1, same d1 → stored T id ek ev d x → stored T id ek ev d1 x).
  { intros A T ek ev x d1 Hd. apply stored_same. intros r. apply Hd. }
  destruct (load_kind_ok _ id _ _ _ d (load_quantum_key callbacks fuel tries GetStrongRandBytes true id)
    (λ x s, ∃ d1 g1, s = (set_quantum_of m0 x (GetPubKey <$> x) ∅, d1, g1) ∧ same d1) (m0, d, g) Lid K1 Sq)
    as (s1 & E1 & d1 & g1 & -> & Hd1).
  { done. }
  { intros j k Hk. destruct (wf_keys _ _ _ _ m Swf _ _ Hk) as [Hm ->]. rewrite length_GetID. split; [done|by apply length_quantum_record]. }
  { exists d, g. split; [|done]. unfold set_quantum_of. by rewrite fmap_empty. }
  { apply Hends. }
  { intros j k x s ssKey ssValue Hk _ (dx & gx & -> & Hdx) H1 H2 H3 H4. destruct (wf_keys _ _ _ _ m Swf _ _ Hk) as [Hm Ej].
    destruct (load_quantum_key_ok id k j x d dx gx ssKey ssValue Lid Hm Ej (λ g, Hsign j k g Hk) Hdx) as (d2 & g2 & E & Hd2); [|done..|].
    - apply Sq. by exists j, k.
    - eexists. split; [exact E|]. by exists d2, g2. }
  rewrite <-Spub in E1. set (m1 := set_quantum_of m0 (m_map_quantum_keys m) (m_map_quantum_pubkeys m) ∅) in E1.
  unfold LoadQuantumRecords. rewrite (load_kind_eq _ _ _ (m0, d, g) _ E1). cbn [mbind outcome_bind].
  destruct (load_kind_ok _ id _ _ _ d1 (load_crypted_quantum_key id) (λ _ s, s = (m1, d1, g1)) (m1, d1, g1) Lid K2 (Hst _ _ _ _ _ _ Hd1 Sc))
    as (s2 & E2 & ->); [done|intros ? ? H; by rewrite lookup_empty in H|done|apply Hends|intros ? ? ? ? ? ? H; by rewrite lookup_empty in H|].
  rewrite (load_kind_eq _ _ _ (m1, d1, g1) _ E2). cbn [mbind outcome_bind].
  destruct (load_kind_ok _ id _ _ _ d1 (load_script id) (λ x s, s = (set_scripts_of m1 x ∅, d1, g1)) (m1, d1, g1) Lid K3 (Hst _ _ _ _ _ _ Hd1 Ss))
    as (s3 & E3 & ->); [| |done|apply Hends| |].
  { intros s' s'' i i' H' H''. apply ser_script_inj_1; [by apply (Zs _ _ H')|by apply (Zs _ _ H'')]. }
  { intros s' i Hi. rewrite length_le_bytes. split; [|done]. by apply length_ser_script, (Zs _ i). }
  { intros s' i x s ssKey ssValue Hi _ -> H1 H2 H3 H4. destruct (Zs _ _ Hi) as [Z' Ri]. rewrite (load_script_ok id _ d1 g1 s' i) by done. by eexists. }
  rewrite (load_kind_eq _ _ _ (m1, d1, g1) _ E3). cbn [mbind outcome_bind]. set (m2 := set_scripts_of m1 (m_map_script_pub_keys m) ∅).
  destruct (load_kind_ok _ id _ _ _ d1 (load_witness_script id) (λ x s, s = (set_scripts_of m1 (m_map_script_pub_keys m) x, d1, g1)) (m2, d1, g1) Lid K4 (Hst _ _ _ _ _ _ Hd1 Sw))
    as (s4 & E4 & ->); [done| |done|apply Hends| |].
  { intros h w Hw. rewrite (wf_witness _ _ _ _ m Swf _ _ Hw), length_CSHA256. split; [done|]. by apply length_ser_script, (Zw h). }
  { intros h w x s ssKey ssValue Hw _ -> H1 H2 H3 H4. pose proof (wf_witness _ _ _ _ m Swf _ _ Hw) as ->.
    rewrite (load_witness_script_ok id _ d1 g1 w) by (done || by apply (Zw (CSHA256 w))). by eexists. }
  rewrite (load_kind_eq _ _ _ (m2, d1, g1) _ E4). exists d1, g1. split; [|done]. do 4 f_equal.
  destruct Splain as (P1 & P2 & P3). destruct m. cbn in *. by subst.
Qed.

(** C7 The wallet file: after any sequence of new quantum keys, scripts and witness
    scripts whose records were written, with other writes in between, loading the
    records of the descriptor into a new manager returns success, gives exactly the
    manager as it was in memory, private keys included, and leaves the file as it is.
    This is for a database whose cursors come to their end; and each key is tested by a
    signature, so it is for keys whose [Sign] returns, which SLH-DSA keys always do. *)
Theorem wallet_reload (id : list Z) (d0 d : db) (m : DescriptorScriptPubKeyMan) (g : rng) :
  length id = 32%nat → (∀ T r, T ∈ kinds → ReadKey d0 (PrefixStream T id ++ r) = None) →
  rtc manager_step (DescriptorScriptPubKeyMan_new id, d0) (m, d) → (∀ (d : db) p, (Records d p).2 = true) →
  (∀ j k, m_map_quantum_keys m !! j = Some k →
     m_type k = SLH_DSA_192F ∨ ∀ g, ∃ ok s g', CQuantumKey_Sign k test_hash [] g = Ok (ok, s, g')) →
  ∃ d' g', LoadQuantumRecords id (DescriptorScriptPubKeyMan_new id, d, g) = Ok (LOAD_OK, (m, d', g')) ∧
    ∀ y, ReadKey d' y = ReadKey d y.
Proof using L SC Hstrong DL.
  intros Lid Hfree Hrun Hends Hsign.
  assert (Hinv : saved m d ∧ desc_id m = id).
  { refine (rtc_ind_r (λ s, saved s.1 s.2 ∧ desc_id s.1 = id) _ _ _ (m, d) Hrun); [by split; [apply saved_new|]|].
    intros s1 s2 _ Hstep [Hs Hi]. destruct (saved_step _ _ Hstep Hs) as [Hs' Hi']. by rewrite Hi', Hi. }
  destruct Hinv as [Hs <-]. apply saved_reload; [done|done|done|]. intros j k g0 Hk.
  destruct (Hsign j k Hk) as [Ht|Hret]; [|by apply Hret].
  destruct (wf_keys _ _ _ _ m (sv_wf _ _ Hs) j k Hk) as [(k0 & t & gk & g1 & Hq & Em) _].
  destruct (MakeNewKey_full callbacks fuel tries GetStrongRandBytes Hstrong _ _ _ _ _ Hq Em) as (Et & _). rewrite Ht in Et. subst t.
  destruct (slh_key_total callbacks fuel tries GetStrongRandBytes Hstrong k0 gk) as (k' & g1' & Em' & Hall).
  rewrite Em in Em'. injection Em' as <- <-. destruct (Hall test_hash [] g0 eq_refl) as (sg & g3 & Eg). by exists true, sg, g3.
Qed.
End reload.

(** ** An instance *)

#[local] Existing Instance test_ckeys.
#[local] Existing Instance test_crypto.

Lemma wallet_reload_witness : ∃ k m (d d' : map_db), made toy_callbacks 1 1 zeros k ∧
  m_map_quantum_keys m = {[CQuantumPubKey_GetID (GetPubKey k) := k]} ∧
  LoadQuantumRecords toy_callbacks 1 1 zeros true (replicate 32 7) (DescriptorScriptPubKeyMan_new (replicate 32 7), d, tt) = Ok (LOAD_OK, (m, d', tt)).
Proof.
  destruct (slh_key_total toy_callbacks 1 1 zeros zeros_strong CQuantumKey_default tt) as (k & [] & Ek & _).
  assert (Hm : made toy_callbacks 1 1 zeros k) by (exists CQuantumKey_default, SLH_DSA_192F, tt, tt; split; [right; reflexivity|exact Ek]).
  destruct (AddQuantumKey_first (replicate 32 7) k Hm) as (m & d & Ea & Hk & _).
  destruct (wallet_reload toy_callbacks 1 1 zeros zeros_strong (replicate 32 7) (∅ : map_db) d m tt) as (d' & [] & E & _).
  - reflexivity.
  - intros T r _. apply lookup_empty.
  - apply rtc_once. exact (step_key toy_callbacks 1 1 zeros _ _ k m d Hm Ea).
  - reflexivity.
  - intros j k' H. rewrite Hk in H. apply lookup_singleton_Some in H as [_ <-]. left.
    exact (proj1 (MakeNewKey_ok toy_callbacks 1 1 zeros zeros_strong _ _ _ _ _ (or_intror eq_refl) Ek)).
  - exists k, m, d, d'. split; [exact Hm|]. split; [exact Hk|exact E].
Defined.

Lemma encrypt_leaves_quantum_keys_witness : ∃ k m', made toy_callbacks 1 1 zeros k ∧
  Encrypt (λ _, []) (λ _ _ _, Some [0]) (toy_manager k) (∅ : map_db) (replicate 32 1) = (true, m', ∅) ∧
  m_map_quantum_keys m' !! CQuantumPubKey_GetID (GetPubKey k) = Some k.
Proof.
  destruct (slh_key_total toy_callbacks 1 1 zeros zeros_strong CQuantumKey_default tt) as (k & [] & Ek & _).
  assert (Hm : made toy_callbacks 1 1 zeros k) by (exists CQuantumKey_default, SLH_DSA_192F, tt, tt; split; [right; reflexivity|exact Ek]).
  destruct (Encrypt (λ _, []) (λ _ _ _, Some [0]) (toy_manager k) (∅ : map_db) (replicate 32 1)) as [[ok m'] d'] eqn:E. pose proof E as E'.
  unfold Encrypt in E. cbn [toy_manager m_map_crypted_keys m_map_keys] in E. rewrite bool_decide_true in E by reflexivity. injection E as <- _ <-.
  exists k, m'. split; [exact Hm|]. split; [exact E'|].
  destruct (encrypt_leaves_quantum_keys (λ _, []) (λ _ _ _, Some [0]) _ m' _ _ _ _ E') as (Hk & _).
  rewrite Hk. cbn [toy_manager m_map_quantum_keys]. apply lookup_singleton_eq.
Defined.
